(* ===== verification/_CoqProject ===== *)
-Q . S2P
Prelude.v
Arena.v
BfcRegion.v
Bfc.v
BfcInv.v
BfcSplit.v
BfcOps.v
BfcFind.v
BfcGrow.v
BfcExtend.v
BfcFree.v
BfcMain.v
BfcTheorems.v
TensorShape.v
ShapeSpec.v
ShapeTheorems.v
StridedSlice.v
SliceDense.v
SliceSpec.v
SliceTheorems.v
SliceAssign.v
ArenaPlanner.v
PlannerPlan.v
PlannerSafety.v
PlannerTheorems.v
GraphPartition.v
PartitionInv.v
PartitionRun.v
PartitionTheorems.v
BCast.v
BCastSpec.v
BCastTheorems.v
ShapeInference.v
InferenceSpec.v
InferenceMerge.v
InferenceArith.v
InferenceShapes.v
InferenceTheorems.v
CommonShapeFns.v
ShapeFnsBroadcast.v
ShapeFnsSpec.v
KernelShapes.v
ShapeFnsConcat.v
ShapeFnsTheorems.v
Bytes.v
Coding.v
Crc32c.v
Block.v
Iterator.v
BlockSpec.v
BlockIter.v
BlockTheorems.v
BlockSafety.v
Format.v
TableBuilder.v
TableSpec.v
TableBuild.v
TwoLevel.v
Table.v
TableReader.v
TableTheorems.v
LruCache.v
LruSpec.v
LruShard.v
LruOps.v
LruSharded.v
LruTheorems.v
LruBlocks.v
InputStream.v
StreamTheorems.v
Record.v
RecordTheorems.v
OrderedCode.v
Numbers.v
TensorSlice.v
TensorSliceSet.v
IntervalTree.v
BestFitHeap.v
BestFitTheorems.v
HeapTheorems.v
