(* ===== verification/Prelude.v ===== *)
(** * TensorFlow memory management, graph planning, shapes and storage

    This library models the parts of TensorFlow (paths below are relative to
    [src/vulnerability_detection/code/tensorflow/]) that decide where tensors
    live, in which order nodes run, which shapes tensors have and how they are
    stored in files, and proves the properties their callers rely on.

    ** Parts of the program and their models

    Memory of TensorFlow Lite:
    - [Arena.v] models [SimpleMemoryArena] ([lite/simple_memory_arena.{h,cc}]):
      the plan of a buffer (allocations with an offset and an interval of
      nodes) and the heap block behind it.
    - [ArenaPlanner.v] models [ArenaPlanner] ([lite/arena_planner.{h,cc}]), the
      client of two arenas: lifetimes of tensors, their order of allocation,
      the commit of both arenas and the data pointers of the tensors.
      [PlannerPlan.v], [PlannerSafety.v] and [PlannerTheorems.v] prove it
      correct on top of the lemmas of [Arena.v].

    Scheduling of TensorFlow Lite ([lite/graph_info.{h,cc}]):
    - [GraphPartition.v] models [PartitionGraphIntoIndependentNodeSubsets],
      which groups the nodes given to a delegate and the others into subsets
      in an executable order.  [PartitionInv.v] has the invariant of its
      epochs, [PartitionRun.v] its progress and [PartitionTheorems.v] the
      properties.

    Memory of the TensorFlow runtime ([tsl/framework/bfc_allocator.{h,cc}]):
    - [BfcRegion.v] models [AllocationRegion] and [RegionManager], the table
      from addresses to chunk handles.
    - [Bfc.v] models [BFCAllocator]: chunks, bins, the search for a chunk,
      splitting, merging, growth with back-pedalling, timestamps and the
      collection of free regions.  [BfcInv.v] (bin arithmetic and the
      invariant), [BfcSplit.v], [BfcOps.v], [BfcFind.v], [BfcGrow.v],
      [BfcExtend.v], [BfcFree.v] and [BfcMain.v] prove that every operation
      keeps the invariant, and [BfcTheorems.v] states the properties.

    Shapes ([core/framework/tensor_shape.{h,cc}], [core/util/overflow.h]):
    - [TensorShape.v] models the packed representation of shapes, complete and
      partial; [ShapeSpec.v] relates it to lists of sizes and
      [ShapeTheorems.v] states the properties.

    Slices ([core/util/strided_slice_op.{h,cc}]), which use shapes:
    - [StridedSlice.v] models the validation of strided slices and the
      broadcast of assigned values; [SliceDense.v] and
      [SliceSpec.v] relate the bit masks to a list of slice entries, and
      [SliceTheorems.v] and [SliceAssign.v] state the properties.

    Broadcasting ([core/util/bcast.{h,cc}]), which uses shapes:
    - [BCast.v] models [BCastList]: the shape of the result, the vectors that
      reshape and repeat the operands, the gradient indices and the batch
      indices.  [BCastSpec.v] relates the compressed dimensions to the
      dimensions of the operands and [BCastTheorems.v] states the properties.

    Shape inference ([core/framework/shape_inference.{h,cc}]), which uses
    partial shapes and protos:
    - [ShapeInference.v] models [InferenceContext]: immutable dimensions and
      shapes behind handles, merging and relaxing, parts and concatenations,
      arithmetic on dimensions, shapes from tensors and protos, handle data,
      construction and [Run].  [InferenceSpec.v] says what handles stand for and
      has the two judgements of the proofs: a call is safe (it does not crash
      and only adds objects), and it is sound (it succeeds for the sizes of an
      execution and its result denotes the right sizes).  [InferenceMerge.v]
      (and relaxing), [InferenceArith.v] and [InferenceShapes.v] (and conversions)
      derive them for the operations, and [InferenceTheorems.v] states the
      properties.

    Shape functions ([core/framework/common_shape_fns.{h,cc}] and
    [core/framework/kernel_shape_util.cc]), clients of [InferenceContext]:
    - [CommonShapeFns.v] models those of element-wise and broadcasting ops,
      products of matrices, biases, reductions, concatenation, segments,
      gathering and windows; [KernelShapes.v] the sizes of windows that kernels
      compute themselves.  [ShapeFnsSpec.v] restates the sound calls as proof
      rules; [ShapeFnsBroadcast.v] (against [BCast.v]) and [ShapeFnsConcat.v] (with
      reductions, and windows against [KernelShapes.v]) use them, and [ShapeFnsTheorems.v] states the properties.

    Encodings ([tsl/platform/coding.cc], [raw_coding.h], [tsl/lib/hash/crc32c*]):
    - [Bytes.v] has byte strings and their order; [Coding.v] models fixed-width
      integers and varints, [Crc32c.v] the checksum with its tables and with the
      instruction of the processor.

    Tables, the sorted files behind checkpoints ([tsl/lib/io]), which use the
    encodings:
    - [Block.v] models [BlockBuilder], [Block] and its iterator ([block_builder.cc],
      [block.cc]); [Iterator.v] is the interface of iterators ([iterator.h]) with
      its laws.  [BlockSpec.v] is the format of blocks and the invariant of the
      builder, [BlockIter.v] the searches, [BlockTheorems.v] and [BlockSafety.v]
      state the properties, the latter for arbitrary bytes.
    - [Format.v] models handles, footers and [ReadBlock] ([format.cc]);
      [TableBuilder.v] [TableBuilder] ([table_builder.cc]); [TwoLevel.v] the
      iterator over an index and its blocks ([two_level_iterator.cc]); [Table.v]
      [Table] ([table.cc]) with the block cache as an interface.  [TableSpec.v]
      and [TableBuild.v] prove the builder correct, [TableReader.v] the reader,
      and [TableTheorems.v] states the properties.
    - [LruCache.v] models the sharded cache ([cache.cc]): hash tables, the lists of
      idle and held entries, reference counts, deleters, in a store whose freed
      cells cannot be read.  [LruSpec.v] has its invariant and the hash table,
      [LruShard.v], [LruOps.v] and [LruSharded.v] its operations, [LruTheorems.v]
      the properties; [LruBlocks.v] shows that it is a block cache for tables.

    Record files ([tsl/lib/io]), which use the encodings and the same files:
    - [InputStream.v] models the interface of input streams, the stream of a file
      and the buffered stream over any stream ([inputstream_interface.cc],
      [random_inputstream.cc], [buffered_inputstream.cc]); [StreamTheorems.v]
      shows that both obey the interface and specifies lines and seeks.
    - [Record.v] models [RecordWriter], [RecordReader] and
      [SequentialRecordReader] ([record_writer.cc], [record_reader.cc]) on any
      stream; [RecordTheorems.v] states the properties.

    Slices of tensors in checkpoints, which use shapes:
    - [OrderedCode.v] models the encodings that preserve order
      ([core/lib/strings/ordered_code.cc]) and [Numbers.v] integers as text
      ([tsl/platform/numbers.cc]).
    - [TensorSlice.v] models [TensorSlice] ([core/framework/tensor_slice.{h,cc}])
      and, in its module [SavedSlices], the keys and specifications of saved
      slices ([core/util/saved_tensor_slice_util.cc]) on top of these two.
    - [TensorSliceSet.v] models [TensorSliceSet] ([core/util/tensor_slice_set.{h,cc}]),
      the slices of a tensor by their text, with their hull.

    Memory of compiled programs ([compiler/xla/service/heap_simulator.{h,cc}]):
    - [IntervalTree.v] models [BufferIntervalTree], which finds the chunks in use
      during a live range.
    - [BestFitHeap.v] models, on top of it, [GlobalDecreasingSizeBestFitHeap], its
      variant with heaps of limited size and [ChooseBestHeapAlgorithm] (module
      [BestFitHeap]), the statistics heap and the calls of [HeapSimulator] (module
      [Simulator]).  [BestFitTheorems.v] proves the candidates and the placement
      correct and [HeapTheorems.v] states the properties of whole runs.

    ** How the code is represented

    Classes are records, member functions take and return the record; output
    arguments and [TfLiteStatus] or [Status] results are values of [res] (below).
    A failed [CHECK] and an exception are errors too.  Integers are [Z]; every
    operation the code does at a width is followed by the wrap function of
    that width.  Vectors are lists.  Heap blocks that the code obtains from
    [new char[]] or from a sub-allocator are arguments, with the documented
    behaviour of the allocator as a hypothesis.  [std::sort] is a stable sort, one of
    the orders it may give to equal elements;
    the order in which an [unordered_set] is visited is a parameter.
    [InferenceContext] is the state of a monad whose computations return a
    value, a [Status] or a crash; the attributes that a shape function reads
    are arguments.  Buffers of bytes are lists, and a read outside of one is a
    fault.  Files, Snappy, the byte order and the checksum instruction are type
    classes of operations with their documented contracts as laws, each with an
    instance in memory; so are input streams, iterators and the block cache,
    whose laws the modelled implementations are proved to satisfy, and what the
    code uses of Abseil's string functions.  The order in which an [unordered_map]
    or another hash table is visited is a parameter too; signed overflow wraps around.
    Allocation ids, allocation counts and timestamps of the BFC allocator do not wrap
    around, which would take 2^63 calls.  Linked lists through the entries of the
    LRU cache are lists of their addresses.

    ** What the theorems show

    - Arena: [Allocate] keeps a plan in which allocations alive together do
      not overlap and takes a smallest gap; [Commit] keeps the data and gives
      pointers inside the block; purging is invisible to later allocations.
    - Planner: lifetimes are exact, and a run over a graph always succeeds and
      gives every tensor memory that no other live tensor shares.
    - Partition: every node of an executable graph is scheduled once, after
      the nodes it reads from and in the order of its control edges; the
      borders of the subsets are exactly the tensors that cross them.
    - BFC allocator: chunks tile the regions, free neighbours are coalesced,
      statistics are exact, the best bin is used, addresses handed out are
      disjoint, requests return; plus the corner cases in which the code does
      not do what it means to.
    - Shapes: every sequence of updates refines the same updates on lists;
      protos round-trip; merging is pointwise; overflow is detected exactly.
    - Slices: the validation computes Python's slices, inside bounds.
    - Broadcasting: the result has NumPy's shape or the operands are refused;
      reshaping and repeating the operands gives that shape, and the batch
      indices name the element of the operand under each element of the
      result.
    - Shape inference: [Merge] is the least upper bound and [Relax] the greatest
      lower bound of what is known; arithmetic is exact or refused; [Subshape]
      is Python's slice; and all are sound for every execution.
    - Shape functions: broadcasting, products, concatenation, reductions and
      windows infer shapes that every execution has; broadcasting agrees with
      [BCast] and windows with the kernels.
    - Encodings: integers read back on either byte order; both checksum routines
      are the bit-by-bit CRC and detect bursts.
    - Tables: a table reads back its entries, by iteration, search and lookup,
      with and without a cache; the keys of the index separate the blocks; damaged
      blocks are refused; iterators over arbitrary bytes end and stay in bounds,
      but for one overflow that is exhibited.
    - LRU cache: no freed entry is used and each value is deleted once; lookups
      find the last insertion; evictions take the oldest idle entries, no more
      than needed; tables read correctly through it.
    - Records: what was written reads back from every offset, buffered or not;
      damage is reported; truncation is, but inside of a header; buffering is
      invisible, and lines are those of the file.
    - Checkpoint slices: encoded keys compare like names and extents and read back;
      the readers stay inside of any input; parsers of integers accept exactly the
      numerals that fit; slices are boxes of indices, and intersections, hulls,
      relative slices and shapes are those of the boxes; registered slices stay
      disjoint, and a query succeeds exactly when they hold all of its indices.
    - Heap simulator: the interval tree is a bag of intervals; the free gaps are exact
      and the smallest is taken; after a run buffers that live at the same time and
      do not share memory are disjoint, in one heap or in several of limited size;
      the best of several heaps is returned; without sharing the heap is at least as
      large as the peak of the live sizes.

    ** Bounds and fuel

    Loops of the code over data are structural.  Two loops of the BFC allocator
    and two of the partition have fuel.  Back-pedalling multiplies the request
    by 0.9 and rounds to 256 bytes, so from any 64-bit size 421 rounds reach a
    size that is refused or the fixed point 2304; the region size doubles at
    most 65 times before it exceeds 64 bits; with [n] nodes the partition runs
    at most [n + 1] epochs of at most [n + 1] rounds, since each but the last
    schedules a node.  The loop of [Subshape] has fuel: the rank of the shape is
    enough for every stride but 0 whose size added to the rank fits an [int],
    and with stride 0 it need not end.  The loops of varints run at most 9 times
    and those of checksums once for each group of bytes; the searches in a block
    have the number of restart points and the size of the block as fuel, the
    two-level iterator the size of the index; the doubling of a hash table 32
    rounds, which is enough for 2^31 entries (beyond, the code's loop does not
    end); evicting and pruning the number of idle entries.  The loops of streams
    and records run up to 2^64 rounds, since each round takes at least a byte of a
    file of less than 2^63.  The loops over encoded strings have the length of the
    string as fuel, and the digits of a number the room in its buffer.  The query of an interval
    tree visits each node at most once, the walk over colocations each buffer, and
    each heap of limited size takes at least one buffer.  All bounds are proved sufficient where a theorem says
    that a call returns.  The masks of slices are 32 bits wide as in the code.

    ** Not modelled

    Logging, debug dumps, memory maps and profiler callbacks; waiting and
    retrying across threads ([AllocatorRetry]); the data type byte of shapes,
    error messages and debug strings; exhaustion of the heap by strings; the
    threads that the mutexes of caches and tables serialise; the Zlib and Snappy
    streams of record files; floating point numbers as text and the values of saved
    slices in protos; the shape functions of convolutions,
    pooling, einsum, slices, scattering, quantised and sparse ops; op kernels, the Eigen and XLA back ends but for
    the heap simulator (and there the walk over the instructions of a module), the MLIR
    dialects, delegates, Python bindings and the other projects in the
    repository, which are listed with their reasons in the manifest. *)

From Stdlib Require Export ZArith Lia Sorted.
From stdpp Require Export base list numbers option sets.

#[global] Open Scope Z_scope.

(** ** Machine integers

    A [size_t]/[uint64]/[int64]/[int32] value is a [Z] in the range of its
    type; every arithmetic operation that the C++ code performs at that width
    is followed by the wrap function of the width. *)
Definition u64_max : Z := 2 ^ 64 - 1.
Definition i64_max : Z := 2 ^ 63 - 1.
Definition i64_min : Z := - 2 ^ 63.
Definition i32_max : Z := 2 ^ 31 - 1.

Definition wrap_u64 (z : Z) : Z := z mod 2 ^ 64.
Definition wrap_i64 (z : Z) : Z := (z + 2 ^ 63) mod 2 ^ 64 - 2 ^ 63.
Definition wrap_i32 (z : Z) : Z := (z + 2 ^ 31) mod 2 ^ 32 - 2 ^ 31.

Definition in_u64 (z : Z) : Prop := 0 <= z < 2 ^ 64.
Definition in_i64 (z : Z) : Prop := - 2 ^ 63 <= z < 2 ^ 63.
Definition in_i32 (z : Z) : Prop := - 2 ^ 31 <= z < 2 ^ 31.

(** ** Results of fallible code *)
Inductive res (E A : Type) : Type :=
| Ok (a : A)
| Err (e : E).
Arguments Ok {E A} a.
Arguments Err {E A} e.

Definition res_bind {E A B : Type} (m : res E A) (k : A -> res E B) : res E B :=
  match m with
  | Ok a => k a
  | Err e => Err e
  end.

Definition is_ok {E A : Type} (m : res E A) : bool :=
  match m with Ok _ => true | Err _ => false end.

Declare Scope res_scope.
Delimit Scope res_scope with res.
Notation "'let!' x ':=' m 'in' k" := (res_bind m (fun x => k))
  (at level 10, x pattern, m at level 100, k at level 200) : res_scope.
Notation "'check!' b 'else' e 'in' k" := (if b then k else Err e)
  (at level 10, b at level 100, e at level 100, k at level 200) : res_scope.

(** ** Tactics *)

(** Splits the innermost boolean test of a hypothesis or the goal and turns it into arithmetic. *)
Ltac zbool :=
  repeat match goal with
  | H : (_ && _)%bool = true |- _ => apply andb_true_iff in H; destruct H
  | H : (_ || _)%bool = false |- _ => apply orb_false_iff in H; destruct H
  | H : negb _ = true |- _ => apply negb_true_iff in H
  | H : negb _ = false |- _ => apply negb_false_iff in H
  | H : (_ <? _) = true |- _ => apply Z.ltb_lt in H
  | H : (_ <? _) = false |- _ => apply Z.ltb_ge in H
  | H : (_ <=? _) = true |- _ => apply Z.leb_le in H
  | H : (_ <=? _) = false |- _ => apply Z.leb_gt in H
  | H : (_ =? _) = true |- _ => apply Z.eqb_eq in H
  | H : (_ =? _) = false |- _ => apply Z.eqb_neq in H
  end.

(** Case analysis on every [if] of the goal, with the tests as arithmetic hypotheses. *)
Ltac case_if :=
  match goal with
  | |- context [if ?b then _ else _] =>
      lazymatch type of b with bool => destruct b eqn:? | _ => destruct b end
  end; zbool.

Ltac case_if_in H :=
  match type of H with
  | context [if ?b then _ else _] =>
      lazymatch type of b with bool => destruct b eqn:? | _ => destruct b end
  end; zbool.

(** [lia] with the defining equations of quotients and remainders. *)
Ltac dlia := Z.to_euclidean_division_equations; lia.

(** ** Arithmetic lemmas *)

Lemma wrap_u64_id (z : Z) : in_u64 z -> wrap_u64 z = z.
Proof. unfold wrap_u64, in_u64. apply Z.mod_small. Qed.

Lemma wrap_u64_range (z : Z) : in_u64 (wrap_u64 z).
Proof. unfold wrap_u64, in_u64. apply Z.mod_pos_bound. lia. Qed.

Lemma wrap_i64_id (z : Z) : in_i64 z -> wrap_i64 z = z.
Proof. unfold wrap_i64, in_i64. intros H. rewrite Z.mod_small; lia. Qed.

Lemma wrap_i64_range (z : Z) : in_i64 (wrap_i64 z).
Proof.
  unfold wrap_i64, in_i64. pose proof (Z.mod_pos_bound (z + 2 ^ 63) (2 ^ 64)). lia.
Qed.

Lemma wrap_i32_id (z : Z) : in_i32 z -> wrap_i32 z = z.
Proof. unfold wrap_i32, in_i32. intros H. rewrite Z.mod_small; lia. Qed.

Lemma wrap_i32_range (z : Z) : in_i32 (wrap_i32 z).
Proof.
  unfold wrap_i32, in_i32. pose proof (Z.mod_pos_bound (z + 2 ^ 31) (2 ^ 32)). lia.
Qed.

Create HintDb machine.
#[export] Hint Resolve wrap_u64_range wrap_i64_range wrap_i32_range : machine.
#[export] Hint Unfold in_u64 in_i64 in_i32 : machine.

(** Rewrites away the wraps whose argument is in range. *)
Ltac unwrap :=
  repeat match goal with
  | |- context [wrap_u64 ?z] => rewrite (wrap_u64_id z) by (unfold in_u64; lia)
  | |- context [wrap_i64 ?z] => rewrite (wrap_i64_id z) by (unfold in_i64; lia)
  | H : context [wrap_u64 ?z] |- _ => rewrite (wrap_u64_id z) in H by (unfold in_u64; lia)
  | H : context [wrap_i64 ?z] |- _ => rewrite (wrap_i64_id z) in H by (unfold in_i64; lia)
  end.

(** ** Lists *)

Lemma filter_strong {A} (P Q : A -> Prop) `{!forall x, Decision (P x), !forall x, Decision (Q x)} (l : list A) :
  (forall x, x ∈ l -> P x <-> Q x) -> filter P l = filter Q l.
Proof.
  induction l as [|x l IH]; intros HPQ; [done|]. rewrite !filter_cons.
  rewrite IH by (intros y Hy; apply HPQ; by constructor).
  assert (P x <-> Q x) as Hx by (apply HPQ; by constructor).
  destruct (decide (P x)), (decide (Q x)); tauto || done.
Qed.

Lemma seqZ_snoc (m n : Z) : 0 <= n -> seqZ m (n + 1) = seqZ m n ++ [m + n].
Proof. intros Hn. rewrite seqZ_app by lia. by rewrite (seqZ_cons (m + n)) by lia. Qed.
