(* ===== verification/Arena.v ===== *)
(** * The TFLite memory arena ([lite/simple_memory_arena.{h,cc}])

    [SimpleMemoryArena] plans offsets for tensor buffers whose usage intervals
    (in execution-plan nodes) are known, so that two tensors that are alive at
    the same node never share memory, and then backs the plan with one heap
    block.  The file models every member function of the class except the
    debugging dump, and proves that plans never overlap, that the purge
    functions do not change plans, and that a committed plan resolves to
    aligned in-bounds pointers whose contents survive a reallocation. *)

From S2P Require Import Prelude.

Module Arena.

(** [struct ArenaAllocWithUsageInterval] *)
Record Alloc := mkAlloc {
  offset : Z;
  alloc_size : Z;
  tensor : Z;
  first_node : Z;
  last_node : Z
}.

(** [ArenaAllocWithUsageInterval::reset], also its default constructor. *)
Definition reset : Alloc := mkAlloc 0 0 (-1) (-1) (-1).

(** [ArenaAllocWithUsageInterval::operator<] *)
Definition alloc_ltb (a b : Alloc) : bool := offset a <? offset b.

(** A heap block obtained by [new char[n]]: its address and its bytes. *)
Record Block := mkBlock { block_base : Z; block_bytes : list Z }.

(** The members of [class SimpleMemoryArena]. *)
Record t := mkArena {
  committed : bool;
  arena_alignment : Z;
  high_water_mark : Z;
  underlying_buffer : option Block;
  underlying_buffer_size : Z;
  underlying_buffer_aligned_ptr : Z;
  active_allocs : list Alloc
}.

(** The constructor.  It leaves [underlying_buffer_aligned_ptr_] uninitialised: [junk]. *)
Definition SimpleMemoryArena (alignment junk : Z) : t :=
  mkArena false alignment 0 None 0 junk [].

Definition set_active_allocs (s : t) (l : list Alloc) : t :=
  mkArena (committed s) (arena_alignment s) (high_water_mark s) (underlying_buffer s)
          (underlying_buffer_size s) (underlying_buffer_aligned_ptr s) l.

(** [AlignTo], for [size_t] and (non-negative) [intptr_t] offsets. *)
Definition AlignTo (alignment off : Z) : Z :=
  if off mod alignment =? 0 then off else wrap_u64 (off + (alignment - off mod alignment)).

(** [alloc.tensor = -1]: the mark the purge loops set. *)
Definition mark_deleted (a : Alloc) : Alloc :=
  mkAlloc (offset a) (alloc_size a) (-1) (first_node a) (last_node a).

(** The [erase(remove_if(tensor == -1))] step of both purge functions. *)
Definition erase_deleted (l : list Alloc) : list Alloc :=
  List.filter (fun a => negb (tensor a =? -1)) l.

(** [SimpleMemoryArena::PurgeAfter] *)
Definition PurgeAfter (s : t) (node : Z) : t :=
  set_active_allocs s
    (erase_deleted (map (fun a => if node <? first_node a then mark_deleted a else a)
                        (active_allocs s))).

(** [SimpleMemoryArena::PurgeActiveAllocs] *)
Definition PurgeActiveAllocs (s : t) (node : Z) : t :=
  set_active_allocs s
    (erase_deleted (map (fun a => if last_node a <? node then mark_deleted a else a)
                        (active_allocs s))).

(** [std::upper_bound] on a range sorted by [operator<], followed by [insert] at that position. *)
Fixpoint insert_upper_bound (a : Alloc) (l : list Alloc) : list Alloc :=
  match l with
  | [] => [a]
  | b :: l' => if alloc_ltb a b then a :: l else b :: insert_upper_bound a l'
  end.

(** [std::sort] with [operator<]; allocations of equal offset, whose order it leaves
    open, come in one of the possible orders. *)
Fixpoint sort_allocs (l : list Alloc) : list Alloc :=
  match l with
  | [] => []
  | a :: l' => insert_upper_bound a (sort_allocs l')
  end.

(** [SimpleMemoryArena::CalculateActiveAllocs] *)
Definition CalculateActiveAllocs (s : t) (allocs : list Alloc) (node : Z) : t :=
  set_active_allocs s
    (sort_allocs (List.filter (fun a => (first_node a <=? node) && (node <=? last_node a)) allocs)).

(** [SimpleMemoryArena::ResetAllocs] *)
Definition ResetAllocs (s : t) : t := set_active_allocs s [].

(** [kOffsetNotAssigned] *)
Definition kOffsetNotAssigned : Z := u64_max.

(** The test of the [continue] in the search loop: usage intervals do not intersect. *)
Definition skips (first last : Z) (a : Alloc) : bool :=
  (last_node a <? first) || (last <? first_node a).

(** The search loop of [Allocate]: [(best_offset, best_offset_fit, current_offset)]. *)
Fixpoint find_gap (alignment size first last : Z) (l : list Alloc)
    (best_offset best_offset_fit current_offset : Z) : Z * Z :=
  match l with
  | [] => (best_offset, current_offset)
  | a :: l' =>
      if skips first last a then
        find_gap alignment size first last l' best_offset best_offset_fit current_offset
      else
        let aligned_current_offset := AlignTo alignment current_offset in
        let better := (wrap_u64 (aligned_current_offset + size) <=? offset a)
                      && (wrap_u64 (offset a - aligned_current_offset) <? best_offset_fit) in
        let best_offset' := if better then aligned_current_offset else best_offset in
        let best_offset_fit' :=
          if better then wrap_u64 (offset a - current_offset) else best_offset_fit in
        let current_offset' := Z.max current_offset (wrap_u64 (offset a + alloc_size a)) in
        if best_offset_fit' =? 0 then (best_offset', current_offset')
        else find_gap alignment size first last l' best_offset' best_offset_fit' current_offset'
  end.

(** [SimpleMemoryArena::Allocate]: the new arena and the filled [*new_alloc], or the
    failed [TF_LITE_ENSURE], which leaves both as they were. *)
Definition Allocate (s : t) (alignment size tensor first last : Z) : res unit (t * Alloc) :=
  if negb (alignment <=? arena_alignment s) then Err tt
  else if size =? 0 then Ok (s, mkAlloc 0 0 tensor first last)
  else
    let '(best, current) :=
      find_gap alignment size first last (active_allocs s) kOffsetNotAssigned kOffsetNotAssigned 0 in
    let best_offset := if best =? kOffsetNotAssigned then AlignTo alignment current else best in
    let new_alloc := mkAlloc best_offset size tensor first last in
    Ok (mkArena (committed s) (arena_alignment s)
                (Z.max (high_water_mark s) (wrap_u64 (best_offset + size)))
                (underlying_buffer s) (underlying_buffer_size s)
                (underlying_buffer_aligned_ptr s)
                (insert_upper_bound new_alloc (active_allocs s)),
        new_alloc).

(** [SimpleMemoryArena::RequiredBufferSize] *)
Definition RequiredBufferSize (s : t) : Z :=
  let padding := arena_alignment s in
  wrap_u64 (wrap_u64 (arena_alignment s + high_water_mark s) + padding).

(** [memcpy] of [n] bytes from position [si] of [src] to position [di] of [dst]. *)
Definition memcpy (dst : list Z) (di : Z) (src : list Z) (si n : Z) : list Z :=
  take (Z.to_nat di) dst
    ++ take (Z.to_nat n) (drop (Z.to_nat si) src)
    ++ drop (Z.to_nat (di + n)) dst.

(** [SimpleMemoryArena::Commit].  [new_base] and [garbage] are the address and the
    uninitialised bytes of the block that [new char[required_size]] returns if it is called;
    the results are the arena, [*arena_reallocated] and the status. *)
Definition Commit (s : t) (new_base : Z) (garbage : list Z) : t * bool * bool :=
  let required_size := RequiredBufferSize s in
  if underlying_buffer_size s <? required_size then
    let new_aligned_ptr := AlignTo (arena_alignment s) new_base in
    let bytes :=
      match underlying_buffer s with
      | Some old =>
          if (0 <? high_water_mark s) && (0 <? underlying_buffer_size s) then
            let copy_amount :=
              Z.min (block_base old + underlying_buffer_size s - underlying_buffer_aligned_ptr s)
                    (new_base + required_size - new_aligned_ptr) in
            memcpy garbage (new_aligned_ptr - new_base)
                   (block_bytes old) (underlying_buffer_aligned_ptr s - block_base old) copy_amount
          else garbage
      | None => garbage
      end in
    (mkArena true (arena_alignment s) (high_water_mark s) (Some (mkBlock new_base bytes))
             required_size new_aligned_ptr (active_allocs s), true, true)
  else
    (mkArena true (arena_alignment s) (high_water_mark s) (underlying_buffer s)
             (underlying_buffer_size s) (underlying_buffer_aligned_ptr s) (active_allocs s),
     false, bool_decide (is_Some (underlying_buffer s))).

(** [SimpleMemoryArena::ResolveAlloc]: [*output_ptr] ([None] is [nullptr]), or an error. *)
Definition ResolveAlloc (s : t) (a : Alloc) : res unit (option Z) :=
  if negb (committed s) then Err tt
  else if negb (wrap_u64 (offset a + alloc_size a) <=? underlying_buffer_size s) then Err tt
  else if alloc_size a =? 0 then Ok None
  else Ok (Some (underlying_buffer_aligned_ptr s + offset a)).

(** [SimpleMemoryArena::ClearPlan] *)
Definition ClearPlan (s : t) : t :=
  mkArena false (arena_alignment s) 0 (underlying_buffer s)
          (underlying_buffer_size s) (underlying_buffer_aligned_ptr s) [].

(** [SimpleMemoryArena::ReleaseBuffer] *)
Definition ReleaseBuffer (s : t) : t :=
  mkArena false (arena_alignment s) (high_water_mark s) None 0 0 (active_allocs s).

(** [SimpleMemoryArena::GetBufferSize] and [SimpleMemoryArena::BasePointer] *)
Definition GetBufferSize (s : t) : Z := underlying_buffer_size s.
Definition BasePointer (s : t) : Z := underlying_buffer_aligned_ptr s.

(** ** Specification *)

(** The usage intervals of two allocations share a node. *)
Definition lifetimes_meet (a b : Alloc) : Prop :=
  first_node a <= last_node b /\ first_node b <= last_node a.

(** The byte ranges of two allocations are disjoint. *)
Definition ranges_disjoint (a b : Alloc) : Prop :=
  offset a + alloc_size a <= offset b \/ offset b + alloc_size b <= offset a.

Definition offsets_sorted (l : list Alloc) : Prop :=
  StronglySorted (fun a b => offset a <= offset b) l.

(** No two allocations that are alive together overlap. *)
Definition no_overlap (l : list Alloc) : Prop :=
  forall i j a b, l !! i = Some a -> l !! j = Some b -> i <> j ->
    lifetimes_meet a b -> ranges_disjoint a b.

Record plan_ok (s : t) : Prop := {
  plan_alignment : 0 < arena_alignment s;
  plan_hwm : 0 <= high_water_mark s;
  plan_sorted : offsets_sorted (active_allocs s);
  plan_bounded : Forall (fun a => 0 <= offset a /\ 0 < alloc_size a /\
                           offset a + alloc_size a <= high_water_mark s) (active_allocs s);
  plan_no_overlap : no_overlap (active_allocs s)
}.

(** ** Lemmas *)

Section AlignTo.
Context (alignment off : Z).
Hypothesis Halign : 0 < alignment.
Hypothesis Hoff : 0 <= off.
Hypothesis Hroom : off + alignment < 2 ^ 64.

Lemma AlignTo_spec :
  off <= AlignTo alignment off < off + alignment /\ AlignTo alignment off mod alignment = 0.
Proof using Halign Hoff Hroom.
  unfold AlignTo. pose proof (Z.mod_pos_bound off alignment Halign) as Hm.
  case_if; [lia|].
  rewrite wrap_u64_id by (unfold in_u64; lia).
  split; [lia|].
  replace (off + (alignment - off mod alignment)) with ((off / alignment + 1) * alignment)
    by (pose proof (Z.div_mod off alignment); nia).
  apply Z.mod_mul. lia.
Qed.
End AlignTo.

Lemma skips_false (first last : Z) (a : Alloc) :
  skips first last a = false <-> first <= last_node a /\ first_node a <= last.
Proof. unfold skips. rewrite orb_false_iff, !Z.ltb_ge. done. Qed.

Lemma insert_upper_bound_permutation (a : Alloc) (l : list Alloc) :
  insert_upper_bound a l ≡ₚ a :: l.
Proof.
  induction l as [|b l IH]; cbn; [done|].
  case_if; [done|]. rewrite IH. apply Permutation_swap.
Qed.

Lemma insert_upper_bound_sorted (a : Alloc) (l : list Alloc) :
  offsets_sorted l -> offsets_sorted (insert_upper_bound a l).
Proof.
  unfold offsets_sorted. induction 1 as [|b l Hl IH Hb]; cbn; [repeat constructor|].
  unfold alloc_ltb. case_if.
  - constructor; [by constructor|]. constructor; [lia|].
    eapply List.Forall_impl; [|exact Hb]. cbn; intros; lia.
  - constructor; [done|].
    rewrite insert_upper_bound_permutation. by constructor.
Qed.

Lemma sort_allocs_permutation (l : list Alloc) : sort_allocs l ≡ₚ l.
Proof. induction l as [|a l IH]; cbn; [done|]. by rewrite insert_upper_bound_permutation, IH. Qed.

Lemma sort_allocs_sorted (l : list Alloc) : offsets_sorted (sort_allocs l).
Proof.
  induction l as [|a l IH]; cbn; [constructor|]. by apply insert_upper_bound_sorted.
Qed.

(** Overlap freedom does not depend on the order of the list. *)
Lemma no_overlap_permutation (l k : list Alloc) : l ≡ₚ k -> no_overlap l -> no_overlap k.
Proof.
  intros Hp Hl i j a b Ha Hb Hij Hm.
  symmetry in Hp. apply Permutation_inj in Hp as (_ & f & Hf & Hlk).
  rewrite Hlk in Ha, Hb. eapply (Hl (f i) (f j)); eauto.
Qed.

Lemma no_overlap_cons (a : Alloc) (l : list Alloc) :
  no_overlap l -> (forall b, b ∈ l -> lifetimes_meet a b -> ranges_disjoint a b) ->
  no_overlap (a :: l).
Proof.
  intros Hl Ha [|i] [|j] x y Hx Hy Hij Hm; cbn in *; simplify_eq.
  - apply Ha; [|done]. by eapply list_elem_of_lookup_2.
  - assert (ranges_disjoint y x) as [?|?]; [|by right|by left].
    apply Ha; [by eapply list_elem_of_lookup_2|]. destruct Hm; by split.
  - eapply (Hl i j); eauto.
Qed.

Lemma no_overlap_tail (a : Alloc) (l : list Alloc) : no_overlap (a :: l) -> no_overlap l.
Proof. intros H i j x y Hx Hy Hij. apply (H (S i) (S j)); auto. Qed.

Lemma no_overlap_filter (f : Alloc -> bool) (l : list Alloc) :
  no_overlap l -> no_overlap (List.filter f l).
Proof.
  induction l as [|a l IH]; intros H; cbn; [done|].
  pose proof (no_overlap_tail _ _ H) as Ht.
  case_if; [|auto]. apply no_overlap_cons; [auto|].
  intros b Hb Hm. apply list_elem_of_In, filter_In in Hb as [Hb _].
  apply list_elem_of_In, list_elem_of_lookup in Hb as [i Hi].
  apply (H 0%nat (S i)); auto.
Qed.

Lemma offsets_sorted_filter (f : Alloc -> bool) (l : list Alloc) :
  offsets_sorted l -> offsets_sorted (List.filter f l).
Proof.
  unfold offsets_sorted. induction 1 as [|a l Hl IH Ha]; cbn; [constructor|].
  case_if; [|done]. constructor; [done|].
  rewrite List.Forall_forall in *. intros x Hx%filter_In. apply Ha, Hx.
Qed.

(** ** The search loop *)
Section FindGap.
Context (alignment size first last limit : Z).
Hypothesis Halign : 0 < alignment.
Hypothesis Hsize : 0 < size.
Hypothesis Hroom : limit + alignment + size < 2 ^ 64 - 1.

Definition in_limit (a : Alloc) : Prop :=
  0 <= offset a /\ 0 < alloc_size a /\ offset a + alloc_size a <= limit.

(** Placing [size] bytes at [o] is disjoint from every allocation of [l] alive in [first..last]. *)
Definition fits (o : Z) (l : list Alloc) : Prop :=
  forall a, a ∈ l -> skips first last a = false ->
    o + size <= offset a \/ offset a + alloc_size a <= o.

(** What the loop knows of its best candidate: nothing yet, or a placement inside [limit]. *)
Definition candidate_ok (l : list Alloc) (best fit : Z) : Prop :=
  (best = kOffsetNotAssigned /\ fit = kOffsetNotAssigned) \/
  (0 <= best /\ best mod alignment = 0 /\ best + size <= limit /\ 0 < fit /\ fits best l).

Lemma find_gap_step_candidate (done_ rest : list Alloc) (a : Alloc) (best fit cur : Z) :
  (forall b, b ∈ done_ -> skips first last b = false -> offset b + alloc_size b <= cur) ->
  0 <= cur <= limit -> in_limit a -> Forall (fun b => offset a <= offset b) rest ->
  candidate_ok (done_ ++ a :: rest) best fit ->
  (wrap_u64 (AlignTo alignment cur + size) <=? offset a)
    && (wrap_u64 (offset a - AlignTo alignment cur) <? fit) = true ->
  candidate_ok (done_ ++ a :: rest) (AlignTo alignment cur) (wrap_u64 (offset a - cur)).
Proof using Hroom Hsize Halign.
  intros Hdone Hcur (?&?&?) Hrest Hbest Hbetter.
  destruct (AlignTo_spec alignment cur) as [Hal Hmod]; [lia..|].
  zbool. unwrap. right. repeat split; try lia.
  intros b Hb Hskip. rewrite list.Forall_forall in Hrest.
  apply elem_of_app in Hb as [Hb|Hb]; [specialize (Hdone b Hb Hskip); lia|].
  apply elem_of_cons in Hb as [->|Hb]; [lia|].
  specialize (Hrest b Hb). lia.
Qed.

(** The loop returns either a placement that fits every allocation, or no placement and an
    offset past the end of every allocation that matters. *)
Lemma find_gap_spec (rest done_ : list Alloc) (best fit cur : Z) :
  offsets_sorted rest -> Forall in_limit rest -> 0 <= cur <= limit ->
  (forall b, b ∈ done_ -> skips first last b = false -> offset b + alloc_size b <= cur) ->
  candidate_ok (done_ ++ rest) best fit ->
  let '(best', cur') := find_gap alignment size first last rest best fit cur in
  cur <= cur' <= limit /\ (exists fit', candidate_ok (done_ ++ rest) best' fit') /\
  (best' = kOffsetNotAssigned ->
   forall b, b ∈ done_ ++ rest -> skips first last b = false -> offset b + alloc_size b <= cur').
Proof using Hroom Hsize Halign.
  revert done_ best fit cur.
  induction rest as [|a rest IH]; intros done_ best fit cur Hsort Hlim Hcur Hdone Hbest.
  { cbn. split; [lia|]. split; [by eauto|]. intros _. by rewrite app_nil_r. }
  apply list.Forall_cons in Hlim as [Ha Hlim].
  apply StronglySorted_inv in Hsort as [Hsort Hle].
  cbn [find_gap]. destruct (skips first last a) eqn:Hskip.
  { specialize (IH (done_ ++ [a]) best fit cur).
    rewrite <- app_assoc in IH. apply IH; auto.
    intros b [Hb|Hb%list_elem_of_singleton]%elem_of_app; [auto|congruence]. }
  set (better := andb _ _).
  assert (candidate_ok (done_ ++ a :: rest)
            (if better then AlignTo alignment cur else best)
            (if better then wrap_u64 (offset a - cur) else fit)) as Hbest'.
  { destruct better eqn:Hbetter; [|done]. by eapply find_gap_step_candidate. }
  rewrite (Z.eqb_sym _ 0). unfold in_limit in Ha.
  rewrite (wrap_u64_id (offset a + alloc_size a)) by (unfold in_u64; lia).
  replace (0 =? _) with false.
  2:{ symmetry. apply Z.eqb_neq. destruct Hbest' as [[_ ->]|]; unfold kOffsetNotAssigned, u64_max; lia. }
  specialize (IH (done_ ++ [a]) (if better then AlignTo alignment cur else best)
    (if better then wrap_u64 (offset a - cur) else fit) (Z.max cur (offset a + alloc_size a))).
  rewrite <- app_assoc in IH. cbn in IH.
  destruct (find_gap _ _ _ _ _ _ _ _) as [best' cur'].
  destruct IH as (?&?&?); auto; [lia| |].
  - intros b [Hb|Hb%list_elem_of_singleton]%elem_of_app Hs; [specialize (Hdone b Hb Hs); lia|subst; lia].
  - split; [lia|]. auto.
Qed.
End FindGap.

Lemma Allocate_inv (s s' : t) (alignment size ten first last : Z) (a : Alloc) :
  Allocate s alignment size ten first last = Ok (s', a) -> size <> 0 ->
  exists best cur,
    find_gap alignment size first last (active_allocs s) kOffsetNotAssigned kOffsetNotAssigned 0
      = (best, cur) /\
    a = mkAlloc (if best =? kOffsetNotAssigned then AlignTo alignment cur else best)
                size ten first last /\
    s' = mkArena (committed s) (arena_alignment s)
           (Z.max (high_water_mark s) (wrap_u64 (offset a + size))) (underlying_buffer s)
           (underlying_buffer_size s) (underlying_buffer_aligned_ptr s)
           (insert_upper_bound a (active_allocs s)).
Proof.
  unfold Allocate. intros H Hsize. case_if_in H; [done|]. case_if_in H; [lia|].
  destruct (find_gap _ _ _ _ _ _ _ _) as [best cur]. simplify_eq. eauto 10.
Qed.

(** Where a non-empty allocation lands. *)
Lemma Allocate_placement (s s' : t) (alignment size ten first last : Z) (a : Alloc) :
  plan_ok s -> 0 < alignment -> 0 < size ->
  high_water_mark s + alignment + size < 2 ^ 64 - 1 ->
  Allocate s alignment size ten first last = Ok (s', a) ->
  0 <= offset a < high_water_mark s + alignment /\ offset a mod alignment = 0 /\
  (forall b, b ∈ active_allocs s -> lifetimes_meet a b -> ranges_disjoint a b) /\
  high_water_mark s' = Z.max (high_water_mark s) (offset a + size) /\
  alloc_size a = size /\
  active_allocs s' = insert_upper_bound a (active_allocs s) /\
  arena_alignment s' = arena_alignment s.
Proof.
  intros [Hal Hhwm Hsort Hbound _] Halign Hsize Hroom H.
  apply Allocate_inv in H as (best & cur & Hfind & Ha & Hs'); [|lia].
  pose proof (find_gap_spec alignment size first last (high_water_mark s) Halign Hsize Hroom
    (active_allocs s) [] kOffsetNotAssigned kOffsetNotAssigned 0) as Hspec.
  rewrite Hfind in Hspec. cbn [app] in Hspec.
  destruct Hspec as (Hcur & [fit Hcand] & Hend); [done|done|lia|by intros ? ?%elem_of_nil|by left|].
  destruct (AlignTo_spec alignment cur) as [Hup Hmod]; [lia..|].
  assert (0 <= offset a < high_water_mark s + alignment /\ offset a mod alignment = 0 /\
          fits size first last (offset a) (active_allocs s)) as (Hoff & Hm & Hfits).
  { subst a. cbn. case_if.
    - split; [lia|]. split; [done|]. intros b Hb Hs. right. specialize (Hend ltac:(done) b Hb Hs). lia.
    - destruct Hcand as [[? _]|(?&?&?&?&?)]; [done|]. split; [lia|]. done. }
  subst s'. cbn. rewrite wrap_u64_id by (unfold in_u64; lia).
  split; [done|]. split; [done|]. split.
  - intros b Hb [Hm1 Hm2]. unfold ranges_disjoint.
    assert (skips first last b = false) as Hs by (apply skips_false; subst a; cbn in *; lia).
    destruct (Hfits b Hb Hs); subst a; cbn in *; lia.
  - by subst a.
Qed.

(** The list of active allocations after a purge. *)
Lemma purge_filter (c : Alloc -> bool) (l : list Alloc) :
  Forall (fun a => tensor a <> -1) l ->
  erase_deleted (map (fun a => if c a then mark_deleted a else a) l)
    = List.filter (fun a => negb (c a)) l.
Proof.
  unfold erase_deleted. induction 1 as [|a l Ha Hl IH]; cbn; [done|].
  destruct (c a) eqn:Hc; cbn; [done|].
  apply Z.eqb_neq in Ha. rewrite Ha. cbn. by rewrite IH.
Qed.

(** Allocations that the loop skips can be removed beforehand. *)
Lemma find_gap_filter (f : Alloc -> bool) (alignment size first last : Z) (l : list Alloc)
    (best fit cur : Z) :
  (forall a, a ∈ l -> f a = false -> skips first last a = true) ->
  find_gap alignment size first last (List.filter f l) best fit cur
    = find_gap alignment size first last l best fit cur.
Proof.
  revert best fit cur. induction l as [|a l IH]; intros best fit cur Hf; [done|].
  cbn [List.filter find_gap].
  assert (forall b, b ∈ l -> f b = false -> skips first last b = true) as Hf' by set_solver.
  destruct (f a) eqn:Hfa.
  - cbn [find_gap]. destruct (skips first last a); [by rewrite IH|].
    case_if; [done|]. by rewrite IH.
  - rewrite (Hf a) by set_solver. by rewrite IH.
Qed.

Lemma insert_upper_bound_filter (f : Alloc -> bool) (a : Alloc) (l : list Alloc) :
  offsets_sorted l -> f a = true ->
  insert_upper_bound a (List.filter f l) = List.filter f (insert_upper_bound a l).
Proof.
  intros Hs Hfa. induction Hs as [|b l Hl IH Hb]; cbn; [by rewrite Hfa|].
  destruct (alloc_ltb a b) eqn:Hab.
  - cbn [List.filter]. rewrite Hfa.
    destruct (f b); cbn [insert_upper_bound]; [by rewrite Hab|].
    assert (Forall (fun x => alloc_ltb a x = true) (List.filter f l)) as Hall.
    { apply List.Forall_forall. intros x [Hx _]%filter_In. rewrite List.Forall_forall in Hb.
      specialize (Hb x Hx). unfold alloc_ltb in *. zbool. apply Z.ltb_lt. lia. }
    clear -Hall. destruct (List.filter f l) as [|x k]; [done|].
    cbn. inversion Hall as [|?? Hx _]; subst. by rewrite Hx.
  - cbn [List.filter]. destruct (f b); cbn [insert_upper_bound]; [by rewrite Hab, IH|done].
Qed.

Lemma Allocate_set_active (s : t) (f : Alloc -> bool) (alignment size ten first last : Z) :
  offsets_sorted (active_allocs s) ->
  (forall a, a ∈ active_allocs s -> f a = false -> skips first last a = true) ->
  (forall o n, f (mkAlloc o n ten first last) = true) ->
  Allocate (set_active_allocs s (List.filter f (active_allocs s))) alignment size ten first last
    = (let! p := Allocate s alignment size ten first last in
       Ok (set_active_allocs p.1 (List.filter f (active_allocs p.1)), p.2))%res.
Proof.
  intros Hs Hskip Hnew. unfold Allocate. cbn.
  case_if; [done|]. case_if; [done|].
  rewrite find_gap_filter by done.
  destruct (find_gap _ _ _ _ _ _ _ _) as [best cur]. cbn.
  by rewrite insert_upper_bound_filter by auto.
Qed.

(** The search loop keeps a candidate once it has one. *)
Lemma find_gap_assigned (alignment size first last : Z) (l : list Alloc) (best fit cur : Z) :
  0 < alignment -> 0 <= cur -> Forall (fun a => in_u64 (offset a) /\ in_u64 (offset a + alloc_size a)) l ->
  Forall (fun a => offset a + alloc_size a + alignment < 2 ^ 64 - 1) l -> cur + alignment < 2 ^ 64 - 1 ->
  best <> kOffsetNotAssigned ->
  (find_gap alignment size first last l best fit cur).1 <> kOffsetNotAssigned.
Proof.
  intros Halign. revert best fit cur.
  induction l as [|a l IH]; intros best fit cur Hcur Hrange Hroom Hc Hbest; [done|].
  apply list.Forall_cons in Hrange as [[Ho Hr] Hrange]. apply list.Forall_cons in Hroom as [Ha Hroom].
  unfold in_u64 in *. cbn [find_gap].
  destruct (skips first last a); [by apply IH|].
  destruct (AlignTo_spec alignment cur) as [Hup Hmod]; [lia..|].
  rewrite (wrap_u64_id (offset a + _)) by done.
  set (better := andb _ _).
  assert ((if better then AlignTo alignment cur else best) <> kOffsetNotAssigned) as Hb.
  { destruct better; [|done]. unfold kOffsetNotAssigned, u64_max. lia. }
  destruct (_ =? 0); [done|]. apply IH; try done; lia.
Qed.

(** The end of the furthest allocation alive in [first..last]. *)
Definition max_end (first last : Z) (l : list Alloc) : Z :=
  fold_right (fun a m => if skips first last a then m else Z.max (offset a + alloc_size a) m) 0 l.

Lemma find_gap_takes_gap (alignment size first last limit : Z) (l1 l2 : list Alloc) (a : Alloc) (cur : Z) :
  0 < alignment -> 0 < size -> limit + alignment + size < 2 ^ 64 - 1 ->
  Forall (in_limit limit) (l1 ++ a :: l2) -> 0 <= cur <= limit ->
  skips first last a = false ->
  AlignTo alignment (Z.max cur (max_end first last l1)) + size <= offset a ->
  (find_gap alignment size first last (l1 ++ a :: l2) kOffsetNotAssigned kOffsetNotAssigned cur).1
    <> kOffsetNotAssigned.
Proof.
  intros Halign Hsize Hroom. revert cur.
  induction l1 as [|b l1 IH]; intros cur Hlim Hcur Hskip Hgap; cbn [app find_gap max_end fold_right] in *.
  - apply list.Forall_cons in Hlim as [(?&?&?) Hlim]. rewrite Hskip.
    replace (Z.max cur 0) with cur in Hgap by lia.
    destruct (AlignTo_spec alignment cur) as [Hup Hmod]; [lia..|].
    rewrite !wrap_u64_id by (unfold in_u64; lia).
    replace (_ && _) with true
      by (symmetry; apply andb_true_iff; unfold kOffsetNotAssigned, u64_max;
          rewrite Z.leb_le, Z.ltb_lt; lia).
    destruct (_ =? 0); [unfold kOffsetNotAssigned, u64_max; cbn; lia|].
    apply find_gap_assigned; try (unfold kOffsetNotAssigned, u64_max; lia);
      (eapply List.Forall_impl; [|exact Hlim]); unfold in_limit, in_u64; cbn; intros; lia.
  - apply list.Forall_cons in Hlim as [(?&?&?) Hlim].
    destruct (skips first last b); [by apply IH|].
    assert (0 <= Z.max cur (offset b + alloc_size b) <= limit) as Hcur' by lia.
    rewrite Z.max_assoc in Hgap.
    destruct (AlignTo_spec alignment cur) as [Hup Hmod]; [lia..|].
    rewrite (wrap_u64_id (offset b + _)) by (unfold in_u64; lia).
    destruct (_ && _) eqn:Hbetter.
    + rewrite Z.eqb_sym. zbool. unwrap. replace (0 =? _) with false by (symmetry; apply Z.eqb_neq; lia).
      apply find_gap_assigned; try (unfold kOffsetNotAssigned, u64_max; lia);
        (eapply List.Forall_impl; [|exact Hlim]); unfold in_limit, in_u64; cbn; intros; lia.
    + replace (_ =? 0) with false by reflexivity. by apply IH.
Qed.

(** ** Backing memory *)

(** The heap block matches the recorded size and the aligned pointer. *)
Definition buffer_ok (s : t) : Prop :=
  match underlying_buffer s with
  | Some b => 0 <= block_base b /\ Z.of_nat (length (block_bytes b)) = underlying_buffer_size s /\
              block_base b + underlying_buffer_size s < 2 ^ 63 /\
              2 * arena_alignment s <= underlying_buffer_size s /\
              underlying_buffer_aligned_ptr s = AlignTo (arena_alignment s) (block_base b)
  | None => underlying_buffer_size s = 0
  end.

(** The byte at offset [i] from the aligned base. *)
Definition read (s : t) (i : Z) : option Z :=
  match underlying_buffer s with
  | Some b => block_bytes b !! Z.to_nat (underlying_buffer_aligned_ptr s - block_base b + i)
  | None => None
  end.

(** What the caller of [Commit] may assume of [new char[required_size]]. *)
Definition fresh_ok (s : t) (new_base : Z) (garbage : list Z) : Prop :=
  0 <= new_base /\ Z.of_nat (length garbage) = RequiredBufferSize s /\
  new_base + RequiredBufferSize s < 2 ^ 63.

Lemma RequiredBufferSize_eq (s : t) :
  plan_ok s -> high_water_mark s + 2 * arena_alignment s < 2 ^ 63 ->
  RequiredBufferSize s = high_water_mark s + 2 * arena_alignment s.
Proof. intros [? ? _ _ _] ?. unfold RequiredBufferSize. unwrap. lia. Qed.

Lemma memcpy_length (dst src : list Z) (di si n : Z) :
  0 <= di -> 0 <= si -> 0 <= n -> di + n <= Z.of_nat (length dst) -> si + n <= Z.of_nat (length src) ->
  length (memcpy dst di src si n) = length dst.
Proof. intros. unfold memcpy. rewrite !length_app, !length_take, !length_drop. lia. Qed.

Lemma memcpy_lookup (dst src : list Z) (di si n i : Z) :
  0 <= di -> 0 <= si -> di + n <= Z.of_nat (length dst) -> si + n <= Z.of_nat (length src) ->
  0 <= i < n ->
  memcpy dst di src si n !! Z.to_nat (di + i) = src !! Z.to_nat (si + i).
Proof.
  intros. unfold memcpy.
  rewrite lookup_app_r by (rewrite length_take; lia).
  rewrite length_take, lookup_app_l by (rewrite length_take, length_drop; lia).
  rewrite lookup_take_lt by lia. rewrite lookup_drop. f_equal. lia.
Qed.

Lemma Commit_buffer (s : t) (new_base : Z) (garbage : list Z) :
  plan_ok s -> buffer_ok s -> fresh_ok s new_base garbage ->
  high_water_mark s + 2 * arena_alignment s < 2 ^ 63 ->
  let s' := (Commit s new_base garbage).1.1 in
  (Commit s new_base garbage).2 = true /\
  buffer_ok s' /\ committed s' = true /\ is_Some (underlying_buffer s') /\
  RequiredBufferSize s <= underlying_buffer_size s' /\
  arena_alignment s' = arena_alignment s /\ active_allocs s' = active_allocs s /\
  high_water_mark s' = high_water_mark s /\
  (0 < high_water_mark s -> forall i, 0 <= i -> i + arena_alignment s < underlying_buffer_size s ->
     read s' i = read s i).
Proof.
  intros Hplan Hbuf (Hb0 & Hg & Hb1) Hroom.
  pose proof (RequiredBufferSize_eq s Hplan Hroom) as Hreq. pose proof (plan_alignment _ Hplan).
  pose proof (plan_hwm _ Hplan).
  unfold Commit. cbn zeta. case_if; cbn.
  2:{ unfold buffer_ok in Hbuf |- *. destruct (underlying_buffer s) eqn:Hub; cbn; [|lia].
      repeat split; try lia; eauto. intros. unfold read. cbn. by rewrite Hub. }
  destruct (AlignTo_spec (arena_alignment s) new_base) as [Hnew _]; [lia..|].
  unfold buffer_ok, read in *. cbn.
  destruct (underlying_buffer s) as [old|] eqn:Hub; cbn.
  2:{ repeat split; eauto; lia. }
  destruct Hbuf as (Ho0 & Hlen & Ho1 & Hmin & Hptr).
  destruct (AlignTo_spec (arena_alignment s) (block_base old)) as [Hold _]; [lia..|].
  destruct ((0 <? high_water_mark s) && (0 <? underlying_buffer_size s)) eqn:Hcopy; cbn.
  - rewrite memcpy_length by lia. repeat split; eauto; try lia.
    intros _ i Hi Hi'. rewrite memcpy_lookup by lia. done.
  - apply andb_false_iff in Hcopy as [?|?]; zbool; repeat split; eauto; lia.
Qed.

(** ** Theorems *)

(** The allocation with everything a client needs to know of it. *)
Lemma Allocate_sound (s : t) (alignment size ten first last : Z) :
  plan_ok s -> 0 < alignment <= arena_alignment s -> 0 <= size ->
  high_water_mark s + alignment + size < 2 ^ 64 - 1 ->
  exists s' a, Allocate s alignment size ten first last = Ok (s', a) /\ plan_ok s' /\
    alloc_size a = size /\ tensor a = ten /\ first_node a = first /\ last_node a = last /\
    arena_alignment s' = arena_alignment s /\ underlying_buffer s' = underlying_buffer s /\
    underlying_buffer_size s' = underlying_buffer_size s /\
    underlying_buffer_aligned_ptr s' = underlying_buffer_aligned_ptr s /\ 0 <= offset a /\
    offset a mod alignment = 0 /\
    (forall b, b ∈ active_allocs s -> lifetimes_meet a b -> ranges_disjoint a b) /\
    (0 < size -> active_allocs s' ≡ₚ a :: active_allocs s) /\
    high_water_mark s <= high_water_mark s' < high_water_mark s + alignment + size + 1.
Proof.
  intros Hplan Halign Hsize Hroom.
  destruct (Allocate s alignment size ten first last) as [[s' a]|e] eqn:HA.
  2:{ unfold Allocate in HA. case_if_in HA; [lia|]. case_if_in HA; [done|].
      by destruct (find_gap _ _ _ _ _ _ _ _). }
  exists s', a. split; [done|]. destruct (decide (size = 0)) as [->|Hne].
  { unfold Allocate in HA. case_if_in HA; [done|]. rewrite Z.eqb_refl in HA. simplify_eq. cbn.
    split; [done|]. do 10 (split; [done|]). split; [|split; [lia|]; lia].
    intros b Hb _. left. cbn.
    pose proof (plan_bounded _ Hplan) as Hf. rewrite list.Forall_forall in Hf. destruct (Hf b Hb). lia. }
  assert (a = mkAlloc (offset a) size ten first last) as Ha.
  { apply Allocate_inv in HA as (?&?&_&->&_); done. }
  destruct (Allocate_placement s s' alignment size ten first last a Hplan ltac:(lia) ltac:(lia) Hroom HA)
    as (Hoff & Hmod & Hdisj & Hhwm & Hsz & Hact & Hal).
  destruct Hplan as [Hal' Hh Hsort Hbound Hno].
  split; [split|].
  - lia.
  - lia.
  - rewrite Hact. by apply insert_upper_bound_sorted.
  - rewrite Hact, insert_upper_bound_permutation, Hhwm. constructor; [lia|].
    eapply List.Forall_impl; [|exact Hbound]. cbn; intros; lia.
  - rewrite Hact. eapply no_overlap_permutation; [symmetry; apply insert_upper_bound_permutation|].
    by apply no_overlap_cons.
  - apply Allocate_inv in HA as (?&?&_&_&->); [|done]. cbn in Hact, Hhwm |- *.
    repeat (split; [done || lia || by rewrite Ha|]). split; [|lia].
    intros _. apply insert_upper_bound_permutation.
Qed.

(** C1: [Allocate] keeps the plan sound.  On a plan without overlaps, and if the arena has room
    for the request below 2^64, the call succeeds for an admissible alignment, and the new plan is
    again sorted, bounded by the high-water mark and free of overlaps; the new buffer is aligned
    and disjoint from every active buffer whose usage interval meets its own; the high-water mark
    grows by at most [alignment + size]. *)
Theorem Allocate_keeps_plan (s : t) (alignment size ten first last : Z) :
  plan_ok s -> 0 < alignment <= arena_alignment s -> 0 <= size ->
  high_water_mark s + alignment + size < 2 ^ 64 - 1 ->
  exists s' a, Allocate s alignment size ten first last = Ok (s', a) /\ plan_ok s' /\
    alloc_size a = size /\ first_node a = first /\ last_node a = last /\
    offset a mod alignment = 0 /\
    (forall b, b ∈ active_allocs s -> lifetimes_meet a b -> ranges_disjoint a b) /\
    (0 < size -> active_allocs s' ≡ₚ a :: active_allocs s) /\
    high_water_mark s <= high_water_mark s' < high_water_mark s + alignment + size + 1.
Proof.
  intros Hplan Halign Hsize Hroom.
  destruct (Allocate_sound s alignment size ten first last Hplan Halign Hsize Hroom)
    as (s' & a & H & Hp & H1 & _ & H2 & H3 & _ & _ & _ & _ & _ & H4 & H5 & H6 & H7).
  by exists s', a.
Qed.

Definition example_plan : t :=
  mkArena false 64 256 None 0 0
    [mkAlloc 0 64 0 0 3; mkAlloc 64 64 1 1 1; mkAlloc 192 64 2 0 2].

Lemma example_plan_ok : plan_ok example_plan.
Proof.
  split; cbn; try lia.
  - repeat constructor; cbn; lia.
  - repeat constructor; cbn; lia.
  - intros [|[|[|i]]] [|[|[|j]]] a b Ha Hb; cbn in *; simplify_eq; unfold ranges_disjoint; cbn; lia.
Qed.

Lemma Allocate_keeps_plan_witness :
  exists s' a, Allocate example_plan 64 60 3 2 4 = Ok (s', a) /\ offset a = 64.
Proof.
  destruct (Allocate_keeps_plan example_plan 64 60 3 2 4 example_plan_ok)
    as (s' & a & H & _); [cbn; lia..|].
  exists s', a. split; [exact H|]. revert H. vm_compute. intros H. by injection H as <- <-.
Defined.

(** A gap is reused.  When the allocations alive in [first..last] leave, in offset order, a gap
    that can hold the aligned request, [Allocate] places it inside the arena: the high-water mark
    does not move. *)
Theorem Allocate_reuses_gap (s s' : t) (alignment size ten first last : Z) (a b : Alloc)
    (l1 l2 : list Alloc) :
  plan_ok s -> 0 < alignment -> 0 < size ->
  high_water_mark s + alignment + size < 2 ^ 64 - 1 ->
  active_allocs s = l1 ++ b :: l2 -> skips first last b = false ->
  AlignTo alignment (max_end first last l1) + size <= offset b ->
  Allocate s alignment size ten first last = Ok (s', a) ->
  high_water_mark s' = high_water_mark s.
Proof.
  intros Hplan Halign Hsize Hroom Hl Hskip Hgap HA.
  pose proof HA as HA'. apply Allocate_inv in HA' as (best & cur & Hfind & Ha & Hs'); [|lia].
  pose proof (plan_bounded _ Hplan) as Hb. pose proof (plan_hwm _ Hplan).
  assert (0 <= max_end first last l1) as Hme.
  { clear. unfold max_end. induction l1 as [|x l1 IH]; cbn; [done|]. destruct (skips first last x); lia. }
  pose proof (find_gap_takes_gap alignment size first last (high_water_mark s) l1 l2 b 0) as Htake.
  rewrite <- Hl, Hfind in Htake. rewrite Z.max_r in Htake by done.
  specialize (Htake Halign Hsize Hroom Hb ltac:(lia) Hskip Hgap). cbn in Htake.
  pose proof (find_gap_spec alignment size first last (high_water_mark s) Halign Hsize Hroom
    (active_allocs s) [] kOffsetNotAssigned kOffsetNotAssigned 0) as Hspec.
  rewrite Hfind in Hspec.
  destruct Hspec as (_ & [fit [[??]|(?&?&?&_)]] & _);
    [apply Hplan|done|lia|by intros ? ?%elem_of_nil|by left|done|].
  subst s'. cbn. apply Z.eqb_neq in Htake. rewrite Htake in Ha. subst a. cbn.
  unwrap. lia.
Qed.

Lemma Allocate_reuses_gap_witness :
  exists s' a, Allocate example_plan 64 60 3 2 4 = Ok (s', a) /\ high_water_mark s' = 256.
Proof.
  destruct (Allocate example_plan 64 60 3 2 4) as [[s' a]|] eqn:H; [|by vm_compute in H].
  exists s', a. split; [done|].
  by apply (Allocate_reuses_gap example_plan s' 64 60 3 2 4 a (mkAlloc 192 64 2 0 2)
           [mkAlloc 0 64 0 0 3; mkAlloc 64 64 1 1 1] [] example_plan_ok eq_refl eq_refl eq_refl eq_refl
           eq_refl ltac:(vm_compute; congruence)).
Defined.

(** C4: [PurgeActiveAllocs] does not change plans.  Purging before a node and then allocating a
    buffer that is first used at or after that node gives the same offset, high-water mark and
    status as allocating first and purging afterwards. *)
Theorem PurgeActiveAllocs_transparent (s : t) (node alignment size ten first last : Z) :
  offsets_sorted (active_allocs s) -> Forall (fun a => tensor a <> -1) (active_allocs s) ->
  ten <> -1 -> node <= first <= last ->
  Allocate (PurgeActiveAllocs s node) alignment size ten first last
    = (let! p := Allocate s alignment size ten first last in
       Ok (PurgeActiveAllocs p.1 node, p.2))%res.
Proof.
  intros Hs Ht Hten Hnode. unfold PurgeActiveAllocs.
  rewrite purge_filter by done. rewrite Allocate_set_active; [|done| |].
  2:{ intros a _ Ha. zbool. unfold skips. apply orb_true_iff. rewrite !Z.ltb_lt. lia. }
  2:{ intros o n. cbn. apply negb_true_iff, Z.ltb_ge. lia. }
  destruct (Allocate s alignment size ten first last) as [[s' a]|e] eqn:HA; cbn; [|done].
  rewrite purge_filter; [done|].
  destruct (decide (size = 0)) as [->|Hne].
  { unfold Allocate in HA. case_if_in HA; [done|]. rewrite Z.eqb_refl in HA. by simplify_eq. }
  apply Allocate_inv in HA as (?&?&_&->&->); [|done]. cbn.
  rewrite insert_upper_bound_permutation. by constructor.
Qed.

Lemma PurgeActiveAllocs_transparent_witness :
  Allocate (PurgeActiveAllocs example_plan 3) 64 60 3 3 4
    = (let! p := Allocate example_plan 64 60 3 3 4 in Ok (PurgeActiveAllocs p.1 3, p.2))%res /\
  length (active_allocs (PurgeActiveAllocs example_plan 3)) = 1%nat.
Proof.
  split; [|done].
  apply (PurgeActiveAllocs_transparent example_plan 3 64 60 3 3 4); [apply example_plan_ok| |done|lia].
  repeat constructor; done.
Defined.

(** C2: [Commit] then [ResolveAlloc] gives usable memory.  After a commit of a sound plan every
    planned buffer resolves to a pointer at its offset from an aligned base, entirely inside the
    heap block, and buffers with meeting usage intervals get disjoint address ranges. *)
Theorem Commit_resolves (s s' : t) (new_base : Z) (garbage : list Z) (r st : bool) :
  plan_ok s -> buffer_ok s -> fresh_ok s new_base garbage ->
  high_water_mark s + 2 * arena_alignment s < 2 ^ 63 ->
  Commit s new_base garbage = (s', r, st) ->
  st = true /\ plan_ok s' /\ buffer_ok s' /\ BasePointer s' mod arena_alignment s = 0 /\
  forall a, a ∈ active_allocs s ->
    ResolveAlloc s' a = Ok (Some (BasePointer s' + offset a)) /\
    exists blk, underlying_buffer s' = Some blk /\
      block_base blk <= BasePointer s' + offset a /\
      BasePointer s' + offset a + alloc_size a <= block_base blk + Z.of_nat (length (block_bytes blk)) /\
      forall b, b ∈ active_allocs s -> b <> a -> lifetimes_meet a b ->
        BasePointer s' + offset a + alloc_size a <= BasePointer s' + offset b \/
        BasePointer s' + offset b + alloc_size b <= BasePointer s' + offset a.
Proof.
  intros Hplan Hbuf Hfresh Hroom HC.
  pose proof (Commit_buffer s new_base garbage Hplan Hbuf Hfresh Hroom) as H. rewrite HC in H.
  cbn in H. destruct H as (-> & Hbuf' & Hcom & [blk Hblk] & Hreq & Hal & Hact & Hhwm & _).
  rewrite (RequiredBufferSize_eq s Hplan Hroom) in Hreq.
  destruct Hplan as [Ha Hh Hsort Hbound Hno].
  split; [done|]. split; [split; rewrite ?Hal, ?Hhwm, ?Hact; done|]. split; [done|].
  unfold buffer_ok in Hbuf'. rewrite Hblk in Hbuf'. destruct Hbuf' as (Hb0 & Hlen & Hb1 & Hmin & Hptr).
  destruct (AlignTo_spec (arena_alignment s') (block_base blk)) as [Hup Hmod]; [lia..|].
  unfold BasePointer. rewrite Hptr, <- Hal. split; [done|].
  intros a Hin. rewrite list.Forall_forall in Hbound. specialize (Hbound a Hin) as (?&?&?).
  split.
  - unfold ResolveAlloc. rewrite Hcom. cbn. unwrap.
    replace (_ <=? _) with true by (symmetry; apply Z.leb_le; lia). cbn.
    replace (_ =? 0) with false by (symmetry; apply Z.eqb_neq; lia). by rewrite Hptr.
  - exists blk. split; [done|]. split; [lia|]. split; [lia|].
    intros b Hb Hne Hm. apply list_elem_of_lookup in Hin as [i Hi], Hb as [j Hj].
    destruct (Hno i j a b Hi Hj) as [?|?]; [congruence|done|left; lia|right; lia].
Qed.

Lemma Commit_resolves_witness :
  exists s', Commit example_plan 1000 (replicate 384 0) = (s', true, true) /\
    ResolveAlloc s' (mkAlloc 64 64 1 1 1) = Ok (Some 1088).
Proof.
  destruct (Commit example_plan 1000 (replicate 384 0)) as [[s' r] st] eqn:HC.
  destruct (Commit_resolves example_plan s' 1000 (replicate 384 0) r st example_plan_ok eq_refl)
    as (_ & _ & _ & _ & H); [by vm_compute|by vm_compute|done|].
  exists s'. assert (r = true /\ st = true /\ BasePointer s' = 1024) as (-> & -> & Hp).
  { vm_compute in HC. by injection HC as <- <- <-. }
  split; [done|]. destruct (H (mkAlloc 64 64 1 1 1)) as [-> _]; [cbn; set_solver|].
  by rewrite Hp.
Defined.

(** C3: a reallocation in [Commit] preserves tensor data.  If the arena already had a block, then
    after [Commit] the byte at every offset that the old block could hold (up to one alignment unit
    before its end, hence all previously planned buffers) is unchanged relative to the aligned base. *)
Theorem Commit_preserves_data (s s' : t) (new_base i : Z) (garbage : list Z) (r st : bool) :
  plan_ok s -> buffer_ok s -> fresh_ok s new_base garbage ->
  high_water_mark s + 2 * arena_alignment s < 2 ^ 63 -> 0 < high_water_mark s ->
  Commit s new_base garbage = (s', r, st) ->
  0 <= i -> i + arena_alignment s < underlying_buffer_size s ->
  read s' i = read s i.
Proof.
  intros Hplan Hbuf Hfresh Hroom Hhwm HC Hi Hi'.
  pose proof (Commit_buffer s new_base garbage Hplan Hbuf Hfresh Hroom) as H. rewrite HC in H.
  cbn in H. by apply H.
Qed.

(** A committed two-byte plan that has since grown past its block. *)
Definition example_grown : t :=
  mkArena true 2 6 (Some (mkBlock 11 [10; 11; 12; 13; 14; 15])) 6 12
    [mkAlloc 0 2 0 0 1; mkAlloc 2 4 1 0 1].

Lemma Commit_preserves_data_witness :
  exists s', Commit example_grown 101 (replicate 10 0) = (s', true, true) /\ read s' 1 = Some 12.
Proof.
  destruct (Commit example_grown 101 (replicate 10 0)) as [[s' r] st] eqn:HC.
  exists s'. split; [vm_compute in HC; by injection HC as <- <- <-|].
  rewrite (Commit_preserves_data example_grown s' 101 1 (replicate 10 0) r st); try done.
  split; cbn; try lia; [repeat constructor; cbn; lia..|].
  intros [|[|i]] [|[|j]] a b Ha Hb; cbn in *; simplify_eq; unfold ranges_disjoint; cbn; lia.
Defined.

End Arena.
