(* ===== verification/BfcRegion.v ===== *)
(** * Allocation regions of the BFC allocator ([tsl/framework/bfc_allocator.h])

    [AllocationRegion] maps the 256-byte slots of one block obtained from the
    sub-allocator to chunk handles; [RegionManager] keeps the regions sorted by
    address and finds the region of a pointer.  The file models both classes
    and shows that, seen from outside, the manager is a finite map from slot
    addresses to handles ([slot]) together with the extent of the region
    around an address ([bounds]); the allocator's invariant only speaks about
    these two views.

    A [ChunkHandle] is an [option nat]: [None] is [kInvalidChunkHandle].  A
    result [None] of an operation is a failed [CHECK], a [LOG(FATAL)] or an
    out-of-range vector access. *)

From S2P Require Import Prelude.

Module Region.

Definition kMinAllocationBits : Z := 8.
Definition kMinAllocationSize : Z := 256.

(** The members of [class AllocationRegion]. *)
Record AllocationRegion := mkRegion {
  r_ptr : Z;
  r_memory_size : Z;
  r_end_ptr : Z;
  r_handles : list (option nat)
}.

(** The number of entries of [handles_] for a region of [memory_size] bytes. *)
Definition n_handles (memory_size : Z) : nat :=
  Z.to_nat (wrap_u64 (memory_size + kMinAllocationSize - 1) / kMinAllocationSize).

(** [AllocationRegion::AllocationRegion(ptr, memory_size)] *)
Definition new_region (ptr memory_size : Z) : AllocationRegion :=
  mkRegion ptr memory_size (ptr + memory_size) (replicate (n_handles memory_size) None).

(** [AllocationRegion::extend] *)
Definition extend (r : AllocationRegion) (size : Z) : AllocationRegion :=
  let memory_size := wrap_u64 (r_memory_size r + size) in
  mkRegion (r_ptr r) memory_size (r_end_ptr r + size)
           (resize (n_handles memory_size) None (r_handles r)).

(** [AllocationRegion::IndexFor] *)
Definition IndexFor (r : AllocationRegion) (p : Z) : Z :=
  Z.shiftr (wrap_u64 (p - r_ptr r)) kMinAllocationBits.

(** [AllocationRegion::get_handle]; [None] is an index out of range. *)
Definition region_get_handle (r : AllocationRegion) (p : Z) : option (option nat) :=
  if IndexFor r p <? Z.of_nat (length (r_handles r))
  then r_handles r !! Z.to_nat (IndexFor r p) else None.

(** [AllocationRegion::set_handle] *)
Definition region_set_handle (r : AllocationRegion) (p : Z) (h : option nat)
    : option AllocationRegion :=
  if IndexFor r p <? Z.of_nat (length (r_handles r))
  then Some (mkRegion (r_ptr r) (r_memory_size r) (r_end_ptr r)
                      (<[Z.to_nat (IndexFor r p) := h]> (r_handles r)))
  else None.

(** [std::upper_bound(regions_.begin(), regions_.end(), p, &Comparator)] as an index. *)
Fixpoint upper_bound (regions : list AllocationRegion) (p : Z) : nat :=
  match regions with
  | [] => O
  | r :: rs => if p <? r_end_ptr r then O else S (upper_bound rs p)
  end.

(** [regions_.insert(entry, region)] *)
Definition insert_region (regions : list AllocationRegion) (i : nat) (r : AllocationRegion)
    : list AllocationRegion :=
  take i regions ++ r :: drop i regions.

(** [RegionManager::AddAllocationRegion] *)
Definition AddAllocationRegion (regions : list AllocationRegion) (ptr memory_size : Z)
    : list AllocationRegion :=
  insert_region regions (upper_bound regions ptr) (new_region ptr memory_size).

(** [RegionManager::AddOrExtendAllocationRegion]: the regions and the index of the region that
    was extended, if one was. *)
Definition AddOrExtendAllocationRegion (regions : list AllocationRegion) (ptr memory_size : Z)
    : list AllocationRegion * option nat :=
  let entry := upper_bound regions ptr in
  match entry with
  | S i =>
      match regions !! i with
      | Some preceding =>
          if r_end_ptr preceding =? ptr
          then (<[i := extend preceding memory_size]> regions, Some i)
          else (insert_region regions entry (new_region ptr memory_size), None)
      | None => (insert_region regions entry (new_region ptr memory_size), None)
      end
  | O => (insert_region regions entry (new_region ptr memory_size), None)
  end.

(** [RegionManager::RemoveAllocationRegion] *)
Definition RemoveAllocationRegion (regions : list AllocationRegion) (i : nat)
    : list AllocationRegion :=
  delete i regions.

(** [RegionManager::RegionFor]; [None] is its [LOG(FATAL)]. *)
Definition RegionFor (regions : list AllocationRegion) (p : Z) : option AllocationRegion :=
  regions !! upper_bound regions p.

(** [RegionManager::get_handle] *)
Definition get_handle (regions : list AllocationRegion) (p : Z) : option (option nat) :=
  r ← RegionFor regions p; region_get_handle r p.

(** [RegionManager::set_handle] *)
Definition set_handle (regions : list AllocationRegion) (p : Z) (h : option nat)
    : option (list AllocationRegion) :=
  r ← RegionFor regions p;
  r' ← region_set_handle r p h;
  Some (<[upper_bound regions p := r']> regions).

(** [RegionManager::erase] *)
Definition erase (regions : list AllocationRegion) (p : Z) : option (list AllocationRegion) :=
  set_handle regions p None.

(** ** The abstract view *)

(** The extent of the region that contains [p]. *)
Definition bounds (regions : list AllocationRegion) (p : Z) : option (Z * Z) :=
  match RegionFor regions p with
  | Some r => if r_ptr r <=? p then Some (r_ptr r, r_end_ptr r) else None
  | None => None
  end.

(** The handle registered for the slot that starts at [p]. *)
Definition slot (regions : list AllocationRegion) (p : Z) : option nat :=
  match RegionFor regions p with
  | Some r =>
      if (r_ptr r <=? p) && ((p - r_ptr r) mod 256 =? 0)
      then mjoin (r_handles r !! Z.to_nat ((p - r_ptr r) / 256)) else None
  | None => None
  end.

(** [p] is the address of a slot. *)
Definition slot_point (regions : list AllocationRegion) (p : Z) : Prop :=
  exists lo hi, bounds regions p = Some (lo, hi) /\ (p - lo) mod 256 = 0.

Record region_ok (r : AllocationRegion) : Prop := {
  ok_ptr : 0 < r_ptr r;
  ok_end : r_end_ptr r = r_ptr r + r_memory_size r;
  ok_size : 0 < r_memory_size r;
  ok_multiple : r_memory_size r mod 256 = 0;
  ok_top : r_end_ptr r < 2 ^ 63;
  ok_handles : Z.of_nat (length (r_handles r)) = r_memory_size r / 256
}.

Definition before (a b : AllocationRegion) : Prop := r_end_ptr a <= r_ptr b.

Definition regions_ok (rs : list AllocationRegion) : Prop :=
  Forall region_ok rs /\ StronglySorted before rs.

(** ** Lemmas *)

Lemma upper_bound_lookup (rs : list AllocationRegion) (p : Z) (r : AllocationRegion) :
  rs !! upper_bound rs p = Some r -> r ∈ rs /\ p < r_end_ptr r.
Proof.
  induction rs as [|r' rs IH]; cbn; [done|]. case_if; cbn.
  - intros [= ->]. split; [by left|done].
  - intros [??]%IH. split; [by right|done].
Qed.

Lemma upper_bound_find (rs : list AllocationRegion) (p : Z) (i : nat) (r : AllocationRegion) :
  regions_ok rs -> rs !! i = Some r -> r_ptr r <= p < r_end_ptr r -> upper_bound rs p = i.
Proof.
  intros [Hok Hs]. revert i. induction rs as [|r' rs IH]; intros i Hi Hp; [done|].
  apply StronglySorted_inv in Hs as [Hs Hb]. apply list.Forall_cons in Hok as [Hr Hok].
  destruct i as [|i]; cbn in *.
  - simplify_eq. case_if; [done|lia].
  - pose proof (list_elem_of_lookup_2 _ _ _ Hi) as Hin.
    rewrite list.Forall_forall in Hb. specialize (Hb r Hin). unfold before in Hb.
    case_if; [lia|]. f_equal. by apply IH.
Qed.

Lemma RegionFor_find (rs : list AllocationRegion) (p : Z) (r : AllocationRegion) :
  regions_ok rs -> r ∈ rs -> r_ptr r <= p < r_end_ptr r -> RegionFor rs p = Some r.
Proof.
  intros Hok [i Hi]%list_elem_of_lookup Hp. unfold RegionFor.
  by rewrite (upper_bound_find rs p i r).
Qed.

Lemma regions_ok_elem (rs : list AllocationRegion) (r : AllocationRegion) :
  regions_ok rs -> r ∈ rs -> region_ok r.
Proof. intros [Hok _] Hin. rewrite list.Forall_forall in Hok. auto. Qed.

Lemma bounds_Some (rs : list AllocationRegion) (p lo hi : Z) :
  regions_ok rs ->
  bounds rs p = Some (lo, hi) <->
  exists r, r ∈ rs /\ r_ptr r = lo /\ r_end_ptr r = hi /\ lo <= p < hi.
Proof.
  intros Hok. split.
  - unfold bounds. destruct (RegionFor rs p) as [r|] eqn:HR; [|done].
    case_if; [|done]. intros [= <- <-]. apply upper_bound_lookup in HR as [??].
    exists r. auto.
  - intros (r & Hin & <- & <- & Hp). unfold bounds.
    rewrite (RegionFor_find rs p r) by done. case_if; [done|lia].
Qed.

Lemma slot_Some (rs : list AllocationRegion) (p : Z) (h : nat) :
  regions_ok rs ->
  slot rs p = Some h <->
  exists r, r ∈ rs /\ r_ptr r <= p < r_end_ptr r /\ (p - r_ptr r) mod 256 = 0 /\
            r_handles r !! Z.to_nat ((p - r_ptr r) / 256) = Some (Some h).
Proof.
  intros Hok. split.
  - unfold slot. destruct (RegionFor rs p) as [r|] eqn:HR; [|done].
    case_if; [|done]. intros Hh. apply upper_bound_lookup in HR as [??].
    exists r. repeat split; try done. by destruct (r_handles r !! _) as [[?|]|]; simplify_eq/=.
  - intros (r & Hin & Hp & Hm & Hh). unfold slot.
    rewrite (RegionFor_find rs p r) by done.
    replace (_ && _) with true by (symmetry; apply andb_true_iff; rewrite Z.leb_le, Z.eqb_eq; lia).
    by rewrite Hh.
Qed.

Lemma bounds_disjoint (rs : list AllocationRegion) (p q lo hi lo' hi' : Z) :
  regions_ok rs -> bounds rs p = Some (lo, hi) -> bounds rs q = Some (lo', hi') ->
  lo <= q < hi -> lo' = lo /\ hi' = hi.
Proof.
  intros Hok (r & Hin & <- & <- & Hp)%bounds_Some Hq Hb; [|done].
  assert (bounds rs q = Some (r_ptr r, r_end_ptr r)) as Hq'
    by (apply bounds_Some; [done|]; exists r; auto).
  rewrite Hq in Hq'. by simplify_eq.
Qed.

Lemma IndexFor_eq (r : AllocationRegion) (p : Z) :
  region_ok r -> r_ptr r <= p < r_end_ptr r -> IndexFor r p = (p - r_ptr r) / 256.
Proof.
  intros [] ?. unfold IndexFor, kMinAllocationBits. unwrap.
  rewrite Z.shiftr_div_pow2 by lia. done.
Qed.

Lemma slot_index_lt (r : AllocationRegion) (p : Z) :
  region_ok r -> r_ptr r <= p < r_end_ptr r ->
  (Z.to_nat ((p - r_ptr r) / 256) < length (r_handles r))%nat.
Proof.
  intros [? Hend ? Hm ? Hh] ?.
  assert ((p - r_ptr r) / 256 < r_memory_size r / 256).
  { apply Z.div_lt_upper_bound; [lia|]. pose proof (Z.div_mod (r_memory_size r) 256). lia. }
  assert (0 <= (p - r_ptr r) / 256) by (apply Z.div_pos; lia). lia.
Qed.

(** [get_handle] reads the slot of a slot address. *)
Lemma get_handle_slot (rs : list AllocationRegion) (p : Z) :
  regions_ok rs -> slot_point rs p -> get_handle rs p = Some (slot rs p).
Proof.
  intros Hok (lo & hi & (r & Hin & <- & <- & Hp)%bounds_Some & Hm); [|done].
  pose proof (regions_ok_elem _ _ Hok Hin) as Hr.
  unfold get_handle, slot. rewrite (RegionFor_find rs p r) by done. cbn.
  replace (_ && _) with true by (symmetry; apply andb_true_iff; rewrite Z.leb_le, Z.eqb_eq; lia).
  unfold region_get_handle. rewrite IndexFor_eq by done.
  rewrite (proj2 (Z.ltb_lt _ _)) by (pose proof (slot_index_lt r p Hr Hp); lia).
  destruct (lookup_lt_is_Some_2 (r_handles r) (Z.to_nat ((p - r_ptr r) / 256))) as [x Hx].
  { by apply slot_index_lt. }
  rewrite Hx. done.
Qed.

Lemma insert_region_sorted (rs : list AllocationRegion) (i : nat) (r r' : AllocationRegion) :
  rs !! i = Some r -> r_ptr r' = r_ptr r -> r_end_ptr r' = r_end_ptr r -> region_ok r' ->
  regions_ok rs -> regions_ok (<[i := r']> rs).
Proof.
  intros Hi Hp He Hr' [Hok Hs]. split; [by apply Forall_insert|].
  revert i Hi. induction Hs as [|x rs Hs IH Hb]; intros [|i] Hi; cbn in *; simplify_eq.
  - constructor; [done|]. eapply List.Forall_impl; [|exact Hb].
    unfold before. intros; lia.
  - apply list.Forall_cons in Hok as [_ Hok]. constructor; [by apply IH|].
    apply Forall_insert; [done|]. rewrite list.Forall_forall in Hb.
    specialize (Hb r (list_elem_of_lookup_2 _ _ _ Hi)). unfold before in *. lia.
Qed.

(** [set_handle] on a slot address updates that slot and nothing else. *)
Lemma set_handle_slot (rs : list AllocationRegion) (p : Z) (h : option nat) :
  regions_ok rs -> slot_point rs p ->
  exists rs', set_handle rs p h = Some rs' /\ regions_ok rs' /\
    (forall q, slot rs' q = if decide (q = p) then h else slot rs q) /\
    (forall q, bounds rs' q = bounds rs q).
Proof.
  intros Hok (lo & hi & (r & Hin & <- & <- & Hp)%bounds_Some & Hm); [|done].
  pose proof (regions_ok_elem _ _ Hok Hin) as Hr. pose proof (slot_index_lt r p Hr Hp) as Hidx.
  apply list_elem_of_lookup in Hin as [i Hi].
  pose proof (upper_bound_find rs p i r Hok Hi Hp) as Hub.
  set (r' := mkRegion (r_ptr r) (r_memory_size r) (r_end_ptr r)
                      (<[Z.to_nat ((p - r_ptr r) / 256) := h]> (r_handles r))).
  assert (region_set_handle r p h = Some r') as Hset.
  { unfold region_set_handle. rewrite IndexFor_eq by done.
    by rewrite (proj2 (Z.ltb_lt _ _)) by lia. }
  unfold set_handle, RegionFor. rewrite Hub, Hi. cbn. rewrite Hset. cbn.
  eexists. split; [done|]. set (rs' := <[i := r']> rs).
  assert (region_ok r') as Hr'.
  { destruct Hr. split; cbn; try done. by rewrite length_insert. }
  assert (regions_ok rs') as Hok' by (by eapply insert_region_sorted).
  assert (forall q, upper_bound rs' q = upper_bound rs q) as Hubs.
  { intros q. subst rs'. clear -Hi. revert i Hi.
    induction rs as [|x rs IH]; intros [|i] Hi; cbn in *; simplify_eq; [done|].
    by rewrite IH. }
  assert (forall q, RegionFor rs' q =
            if decide (upper_bound rs q = i) then Some r' else RegionFor rs q) as HRF.
  { intros q. unfold RegionFor. rewrite Hubs. subst rs'. case_decide as Hq.
    - rewrite Hq. apply list_lookup_insert_eq. by eapply lookup_lt_Some.
    - by apply list_lookup_insert_ne. }
  split; [done|]. split; intros q; unfold slot, bounds; rewrite HRF; case_decide as Hq.
  - unfold RegionFor. rewrite Hq, Hi. subst r'. cbn.
    destruct (decide (q = p)) as [->|Hqp].
    + replace (_ && _) with true by (symmetry; apply andb_true_iff; rewrite Z.leb_le, Z.eqb_eq; lia).
      by rewrite list_lookup_insert_eq.
    + case_if; [|done]. rewrite list_lookup_insert_ne; [done|].
      intros He. apply Hqp.
      assert (0 <= (q - r_ptr r) / 256) by (apply Z.div_pos; lia).
      assert (0 <= (p - r_ptr r) / 256) by (apply Z.div_pos; lia).
      pose proof (Z.div_mod (q - r_ptr r) 256). pose proof (Z.div_mod (p - r_ptr r) 256). lia.
  - destruct (decide (q = p)) as [->|]; [congruence|]. done.
  - unfold RegionFor. by rewrite Hq, Hi.
  - done.
Qed.

(** ** Adding and extending regions *)

Lemma n_handles_eq (m : Z) : 0 <= m < 2 ^ 63 -> m mod 256 = 0 -> Z.of_nat (n_handles m) = m / 256.
Proof.
  intros Hm Hz. unfold n_handles, kMinAllocationSize. unwrap.
  rewrite Z2Nat.id by dlia. dlia.
Qed.

Lemma elem_of_insert_region (rs : list AllocationRegion) (i : nat) (r x : AllocationRegion) :
  r ∈ insert_region rs i x <-> r = x \/ r ∈ rs.
Proof.
  unfold insert_region. rewrite elem_of_app, elem_of_cons.
  rewrite <- (take_drop i rs) at 3. rewrite elem_of_app. tauto.
Qed.

Lemma insert_region_cons (y x : AllocationRegion) (l : list AllocationRegion) (k : nat) :
  insert_region (y :: l) (S k) x = y :: insert_region l k x.
Proof. done. Qed.

Lemma sorted_insert_upper_bound (l : list AllocationRegion) (x : AllocationRegion) :
  StronglySorted before l -> Forall region_ok l -> r_ptr x < r_end_ptr x ->
  (forall r, r ∈ l -> r_end_ptr r <= r_ptr x \/ r_end_ptr x <= r_ptr r) ->
  StronglySorted before (insert_region l (upper_bound l (r_ptr x)) x).
Proof.
  intros Hs Hok Hx Hapart. induction Hs as [|y l Hl IH Hb]; cbn [upper_bound]; [repeat constructor|].
  apply list.Forall_cons in Hok as [Hy Hok]. destruct (Hapart y) as [Hle|Hle]; [set_solver|..].
  - case_if; [lia|].
    rewrite insert_region_cons.
    constructor; [apply IH; [done|set_solver]|].
    apply list.Forall_forall. intros r [->|Hr]%elem_of_insert_region; [done|].
    rewrite list.Forall_forall in Hb. auto.
  - destruct Hy as [? He ? _ _ _]. case_if; [|lia]. unfold insert_region. cbn.
    constructor; [by constructor|]. constructor; [done|].
    eapply List.Forall_impl; [|exact Hb]. unfold before. intros; lia.
Qed.

Section AddRegion.
Context (rs : list AllocationRegion) (p n : Z).
Hypothesis Hok : regions_ok rs.
Hypothesis Hp : 0 < p.
Hypothesis Hn : 0 < n.
Hypothesis Hmod : n mod 256 = 0.
Hypothesis Htop : p + n < 2 ^ 63.
Hypothesis Hfree : forall q, p <= q < p + n -> bounds rs q = None.

(** Every region lies entirely below or above the new block. *)
Lemma block_apart (r : AllocationRegion) : r ∈ rs -> r_end_ptr r <= p \/ p + n <= r_ptr r.
Proof.
  intros Hin. pose proof (regions_ok_elem _ _ Hok Hin) as [].
  destruct (decide (r_end_ptr r <= p)); [by left|].
  destruct (decide (p + n <= r_ptr r)); [by right|].
  assert (bounds rs (Z.max p (r_ptr r)) = None) as Hb by (apply Hfree; lia).
  assert (bounds rs (Z.max p (r_ptr r)) = Some (r_ptr r, r_end_ptr r)) as Hb'.
  { apply bounds_Some; [done|]. exists r. repeat split; try done; lia. }
  congruence.
Qed.

Lemma new_region_ok : region_ok (new_region p n).
Proof.
  split; cbn; try done. rewrite length_replicate. apply n_handles_eq; [lia|done].
Qed.

Lemma insert_region_upper_bound_ok :
  regions_ok (insert_region rs (upper_bound rs p) (new_region p n)).
Proof.
  split.
  - apply list.Forall_forall. intros r [->|Hr]%elem_of_insert_region; [apply new_region_ok|].
    by eapply regions_ok_elem.
  - apply (sorted_insert_upper_bound rs (new_region p n)); [apply Hok..|cbn; lia|].
    intros r Hr. apply (block_apart r Hr).
Qed.

Lemma insert_region_views :
  let rs' := insert_region rs (upper_bound rs p) (new_region p n) in
  (forall q, slot rs' q = slot rs q) /\
  (forall q, bounds rs' q = if decide (p <= q < p + n) then Some (p, p + n) else bounds rs q).
Proof.
  pose proof insert_region_upper_bound_ok as Hok'. cbn zeta. split; intros q.
  - apply option_eq. intros h. rewrite !slot_Some by done.
    setoid_rewrite elem_of_insert_region. split.
    + intros (r & [->|Hin] & Hq & Hm & Hh); [|by exists r; auto].
      cbn in Hh. apply lookup_replicate in Hh as [? _]. done.
    + intros (r & Hin & H). exists r. auto.
  - apply option_eq. intros [lo hi]. rewrite bounds_Some by done.
    setoid_rewrite elem_of_insert_region. case_decide as Hq.
    + split.
      * intros (r & [->|Hin] & <- & <- & Hr); [done|].
        destruct (block_apart r Hin); lia.
      * intros [= <- <-]. exists (new_region p n). cbn. auto.
    + rewrite bounds_Some by done. split.
      * intros (r & [->|Hin] & <- & <- & Hr); [cbn in Hr; lia|]. by exists r.
      * intros (r & Hin & H). exists r. auto.
Qed.

Section Extend.
Context (i : nat) (r : AllocationRegion).
Hypothesis Hi : rs !! i = Some r.
Hypothesis Hend : r_end_ptr r = p.

Lemma extend_ok : region_ok (extend r n).
Proof.
  pose proof (regions_ok_elem _ _ Hok (list_elem_of_lookup_2 _ _ _ Hi)) as [? He ? Hm ? Hh].
  unfold extend. rewrite wrap_u64_id by (unfold in_u64; lia).
  split; cbn; try lia.
  - rewrite Z.add_mod, Hm, Hmod by lia. done.
  - rewrite length_resize. apply n_handles_eq; [lia|]. rewrite Z.add_mod, Hm, Hmod by lia. done.
Qed.

Lemma extend_regions_ok : regions_ok (<[i := extend r n]> rs).
Proof.
  pose proof extend_ok as Hext. pose proof block_apart as Hapart.
  assert (r_ptr (extend r n) = r_ptr r /\ r_end_ptr (extend r n) = p + n) as [Hptr Hend']
    by (cbn; lia).
  destruct Hok as [Hall Hs]. split; [by apply Forall_insert|].
  clear Hfree Hok. revert i Hi. induction Hs as [|x l Hl IH Hb]; intros [|j] Hj; cbn in *; simplify_eq.
  - constructor; [done|]. rewrite list.Forall_forall in Hb. apply list.Forall_forall.
    intros y Hy. specialize (Hb y Hy). unfold before in *.
    apply list.Forall_cons in Hall as [Hx Hall]. rewrite list.Forall_forall in Hall.
    pose proof (Hall y Hy) as [].
    cbn. destruct (Hapart y); [by right|lia|lia].
  - apply list.Forall_cons in Hall as [_ Hall].
    constructor; [apply IH; [|done|done]; intros y Hy; apply Hapart; by right|].
    apply Forall_insert; [done|]. rewrite list.Forall_forall in Hb.
    specialize (Hb r (list_elem_of_lookup_2 _ _ _ Hj)). unfold before in *. cbn. lia.
Qed.

Lemma elem_of_extend (x : AllocationRegion) :
  x ∈ <[i := extend r n]> rs -> x = extend r n \/ (x ∈ rs /\ x <> r).
Proof.
  intros [j Hj]%list_elem_of_lookup. destruct (decide (i = j)) as [<-|Hne].
  - left. rewrite list_lookup_insert_eq in Hj by (by eapply lookup_lt_Some). by simplify_eq.
  - right. rewrite list_lookup_insert_ne in Hj by done.
    split; [by eapply list_elem_of_lookup_2|]. intros ->. apply Hne.
    pose proof (regions_ok_elem _ _ Hok (list_elem_of_lookup_2 _ _ _ Hi)) as [].
    pose proof (upper_bound_find rs (r_ptr r) i r Hok Hi ltac:(lia)).
    pose proof (upper_bound_find rs (r_ptr r) j r Hok Hj ltac:(lia)). congruence.
Qed.

Lemma extend_elem_of (x : AllocationRegion) :
  x ∈ rs -> x = r \/ x ∈ <[i := extend r n]> rs.
Proof.
  intros [j Hj]%list_elem_of_lookup. destruct (decide (i = j)) as [<-|Hne].
  - left. congruence.
  - right. eapply list_elem_of_lookup_2. rewrite list_lookup_insert_ne; done.
Qed.

Lemma extend_handle (k h : nat) :
  (length (r_handles r) ≤ n_handles (wrap_u64 (r_memory_size r + n)))%nat ->
  r_handles (extend r n) !! k = Some (Some h) -> r_handles r !! k = Some (Some h).
Proof.
  cbn. intros Hlen Hh.
  destruct (decide (k < length (r_handles r))%nat) as [Hk|Hk].
  - rewrite lookup_resize in Hh by lia. done.
  - pose proof (lookup_lt_Some _ _ _ Hh) as Hlt. rewrite length_resize in Hlt.
    rewrite lookup_resize_new in Hh by lia. done.
Qed.

Lemma extend_views :
  let rs' := <[i := extend r n]> rs in
  (forall q, slot rs' q = slot rs q) /\
  (forall q, bounds rs' q = if decide (r_ptr r <= q < p + n) then Some (r_ptr r, p + n)
                            else bounds rs q).
Proof.
  pose proof extend_regions_ok as Hok'. cbn zeta.
  pose proof (regions_ok_elem _ _ Hok (list_elem_of_lookup_2 _ _ _ Hi)) as Hr.
  assert (extend r n ∈ <[i := extend r n]> rs) as Hin'.
  { eapply list_elem_of_lookup_2. apply list_lookup_insert_eq. by eapply lookup_lt_Some. }
  assert (length (r_handles r) ≤ n_handles (wrap_u64 (r_memory_size r + n)))%nat as Hlen.
  { destruct Hr as [? He ? Hm ? Hh]. rewrite wrap_u64_id by (unfold in_u64; lia).
    apply Nat2Z.inj_le. rewrite Hh, n_handles_eq; [apply Z.div_le_mono; lia|lia|].
    rewrite Z.add_mod, Hm, Hmod by lia. done. }
  split; intros q.
  - apply option_eq. intros h. rewrite !slot_Some by done. split.
    + intros (x & [->|[Hx _]]%elem_of_extend & Hq & Hm & Hh); [|by exists x; auto].
      apply extend_handle in Hh; [|done]. cbn in Hq, Hm, Hh. exists r.
      split; [by eapply list_elem_of_lookup_2|]. split; [|done].
      apply lookup_lt_Some in Hh. destruct Hr as [? He ? Hmm ? Hlenr].
      assert ((q - r_ptr r) / 256 < r_memory_size r / 256) as Hidx by lia.
      clear -Hq Hidx Hmm He Hm. dlia.
    + intros (x & [->|Hx]%extend_elem_of & Hq & Hm & Hh); [|by exists x; auto].
      exists (extend r n). split; [done|]. cbn. split; [lia|]. split; [done|].
      rewrite lookup_resize; [done| |by eapply lookup_lt_Some].
      eapply Nat.lt_le_trans; [by eapply lookup_lt_Some|done].
  - apply option_eq. intros [lo hi]. rewrite bounds_Some by done. case_decide as Hq.
    + split.
      * intros (x & [->|[Hx Hne]]%elem_of_extend & <- & <- & Hx').
        { cbn. do 2 f_equal. lia. }
        exfalso. apply Hne. destruct (block_apart x Hx) as [?|?]; [|lia].
        pose proof (RegionFor_find rs q x Hok Hx ltac:(lia)) as H1.
        rewrite (RegionFor_find rs q r Hok) in H1 by (lia || by eapply list_elem_of_lookup_2).
        congruence.
      * intros [= <- <-]. exists (extend r n). cbn. repeat split; try done; lia.
    + rewrite bounds_Some by done. split.
      * intros (x & [->|[Hx Hne]]%elem_of_extend & <- & <- & Hx'); [cbn in Hx'; lia|].
        by exists x.
      * intros (x & [->|Hx]%extend_elem_of & <- & <- & Hx'); [lia|]. exists x. auto.
Qed.
End Extend.

(** How the views change when a block is added: a fresh region, or the growth of the region
    that ends where the block starts. *)
Definition added_views (rs' : list AllocationRegion) (lo : Z) : Prop :=
  regions_ok rs' /\ (forall q, slot rs' q = slot rs q) /\
  (forall q, bounds rs' q = if decide (lo <= q < p + n) then Some (lo, p + n) else bounds rs q).

Lemma AddAllocationRegion_views : added_views (AddAllocationRegion rs p n) p.
Proof. split; [apply insert_region_upper_bound_ok|apply insert_region_views]. Qed.

Lemma AddOrExtendAllocationRegion_views (rs' : list AllocationRegion) (o : option nat) :
  AddOrExtendAllocationRegion rs p n = (rs', o) ->
  match o with
  | None => added_views rs' p
  | Some i => exists r r', rs !! i = Some r /\ r_end_ptr r = p /\ rs' !! i = Some r' /\
                r_ptr r' = r_ptr r /\ added_views rs' (r_ptr r)
  end.
Proof.
  unfold AddOrExtendAllocationRegion. intros H.
  assert (added_views (insert_region rs (upper_bound rs p) (new_region p n)) p) as Hadd
    by apply AddAllocationRegion_views.
  destruct (upper_bound rs p) as [|i] eqn:Hu; [by simplify_eq|].
  destruct (rs !! i) as [r|] eqn:Hi; [|by simplify_eq].
  case_if_in H; simplify_eq; [|done].
  exists r, (extend r n). split; [done|]. split; [done|].
  split; [apply list_lookup_insert_eq; by eapply lookup_lt_Some|]. split; [done|].
  split; [by eapply extend_regions_ok|by eapply extend_views].
Qed.
End AddRegion.

End Region.
