(* ===== verification/Bfc.v ===== *)
(** * The BFC allocator ([tsl/framework/bfc_allocator.{h,cc}])

    [BFCAllocator] is TensorFlow's best-fit-with-coalescing device allocator.
    This file models its state and every operation that changes it, except the
    timed retry loop of [AllocateRawInternalWithRetry]:
    chunk bookkeeping, bins, splitting and merging, growth through the
    sub-allocator, timestamped frees and garbage collection of free regions.

    An operation is a state transformer [M]; its result [None] is a failed
    [CHECK], a [LOG(FATAL)], an out-of-range access or a loop that does not
    end.  Chunk handles are indices of [chunks_], with [None] for
    [kInvalidChunkHandle]; bin numbers likewise, with [None] for
    [kInvalidBinNum]; a pointer is its address and [nullptr] is 0.  Logging,
    tracing and [TENSORFLOW_MEM_DEBUG] fields are left out. *)

From S2P Require Import Prelude BfcRegion.
Import Region.

(** [class SubAllocator]: [Alloc] gives the address and [bytes_received], or [nullptr]. *)
Class SubAllocator (SA : Type) := {
  sub_Alloc : SA -> Z -> Z -> option (Z * Z) * SA;
  sub_Free : SA -> Z -> Z -> SA;
  sub_SupportsCoalescing : SA -> bool
}.

Module Bfc.

(** ** Data *)

(** [struct Chunk] *)
Record Chunk := mkChunk {
  size : Z;
  requested_size : Z;
  allocation_id : Z;
  ptr : Z;
  prev : option nat;
  next : option nat;
  bin_num : option nat;
  freed_at_count : Z
}.

(** A default-constructed [Chunk]. *)
Definition new_chunk : Chunk := mkChunk 0 0 (-1) 0 None None None 0.

(** [Chunk::in_use] *)
Definition in_use (c : Chunk) : bool := negb (allocation_id c =? -1).

Definition set_size (c : Chunk) (v : Z) : Chunk :=
  mkChunk v (requested_size c) (allocation_id c) (ptr c) (prev c) (next c) (bin_num c) (freed_at_count c).
Definition set_requested_size (c : Chunk) (v : Z) : Chunk :=
  mkChunk (size c) v (allocation_id c) (ptr c) (prev c) (next c) (bin_num c) (freed_at_count c).
Definition set_allocation_id (c : Chunk) (v : Z) : Chunk :=
  mkChunk (size c) (requested_size c) v (ptr c) (prev c) (next c) (bin_num c) (freed_at_count c).
Definition set_ptr (c : Chunk) (v : Z) : Chunk :=
  mkChunk (size c) (requested_size c) (allocation_id c) v (prev c) (next c) (bin_num c) (freed_at_count c).
Definition set_prev (c : Chunk) (v : option nat) : Chunk :=
  mkChunk (size c) (requested_size c) (allocation_id c) (ptr c) v (next c) (bin_num c) (freed_at_count c).
Definition set_next (c : Chunk) (v : option nat) : Chunk :=
  mkChunk (size c) (requested_size c) (allocation_id c) (ptr c) (prev c) v (bin_num c) (freed_at_count c).
Definition set_bin_num (c : Chunk) (v : option nat) : Chunk :=
  mkChunk (size c) (requested_size c) (allocation_id c) (ptr c) (prev c) (next c) v (freed_at_count c).
Definition set_freed_at_count (c : Chunk) (v : Z) : Chunk :=
  mkChunk (size c) (requested_size c) (allocation_id c) (ptr c) (prev c) (next c) (bin_num c) v.

(** [struct Options].  [fragmentation_bytes] is the value of
    [opts_.fragmentation_fraction * memory_limit_] as an [int64_t], [None] when the fraction is
    not positive. *)
Record Options := mkOptions {
  allow_growth : bool;
  allow_retry_on_failure : bool;
  garbage_collection : bool;
  fragmentation_bytes : option Z
}.

(** The fields of [AllocatorStats] that the allocator updates. *)
Record Stats := mkStats {
  num_allocs : Z;
  bytes_in_use : Z;
  peak_bytes_in_use : Z;
  largest_alloc_size : Z;
  bytes_limit : Z
}.

(** ** Bins *)

Definition kNumBins : nat := 21.

(** [BFCAllocator::RoundedBytes] *)
Definition RoundedBytes (bytes : Z) : Z :=
  wrap_u64 (kMinAllocationSize * (wrap_u64 (bytes + kMinAllocationSize - 1) / kMinAllocationSize)).

(** The loop of [Log2FloorNonZeroSlow]. *)
Fixpoint log2_loop (fuel : nat) (n r : Z) : Z :=
  match fuel with
  | O => r
  | S fuel' => if 0 <? n then log2_loop fuel' (Z.shiftr n 1) (r + 1) else r
  end.

(** [BFCAllocator::Log2FloorNonZeroSlow]; 64 iterations exhaust a [uint64]. *)
Definition Log2FloorNonZeroSlow (n : Z) : Z := log2_loop 64 n 0 - 1.

(** [BFCAllocator::Log2FloorNonZero]: [63 ^ __builtin_clzll(n)]. *)
Definition Log2FloorNonZero (n : Z) : Z := Z.lxor 63 (63 - Z.log2 n).

(** [BFCAllocator::BinNumToSize] *)
Definition BinNumToSize (index : nat) : Z := wrap_u64 (Z.shiftl 256 (Z.of_nat index)).

(** [BFCAllocator::BinNumForSize] *)
Definition BinNumForSize (bytes : Z) : nat :=
  let v := Z.shiftr (Z.max bytes 256) kMinAllocationBits in
  Z.to_nat (Z.min (Z.of_nat kNumBins - 1) (Log2FloorNonZero v)).

(** [float] values: rounding an integer to 24 significant bits, ties to even. *)
Definition round24 (n : Z) : Z :=
  if n <? 2 ^ 24 then n
  else
    let e := Z.log2 n - 23 in
    let q := n / 2 ^ e in
    let r := n mod 2 ^ e in
    let half := 2 ^ (e - 1) in
    let q' := if (half <? r) || ((r =? half) && Z.odd q) then q + 1 else q in
    q' * 2 ^ e.

(** [bytes * kBackpedalFactor] with [float kBackpedalFactor = 0.9] (that is 15099494 / 2^24),
    converted back to [size_t]. *)
Definition times_backpedal_factor (bytes : Z) : Z := round24 (round24 bytes * 15099494) / 2 ^ 24.

Section Allocator.
Context {SA : Type} `{!SubAllocator SA}.

(** The members of [class BFCAllocator]. *)
Record t := mkBfc {
  opts : Options;
  memory_limit : Z;
  coalesce_regions : bool;
  sub_allocator : SA;
  curr_region_allocation_bytes : Z;
  total_region_allocated_bytes : Z;
  started_backpedal : bool;
  timing_counter : option Z;
  timestamped_chunks : list nat;
  safe_frontier : Z;
  regions : list AllocationRegion;
  chunks : list Chunk;
  free_chunks_list : option nat;
  bins : list (list nat);
  next_allocation_id : Z;
  stats : Stats
}.

Definition with_chunks (s : t) (v : list Chunk) : t :=
  mkBfc (opts s) (memory_limit s) (coalesce_regions s) (sub_allocator s)
    (curr_region_allocation_bytes s) (total_region_allocated_bytes s) (started_backpedal s)
    (timing_counter s) (timestamped_chunks s) (safe_frontier s) (regions s) v
    (free_chunks_list s) (bins s) (next_allocation_id s) (stats s).
Definition with_free_list (s : t) (v : option nat) : t :=
  mkBfc (opts s) (memory_limit s) (coalesce_regions s) (sub_allocator s)
    (curr_region_allocation_bytes s) (total_region_allocated_bytes s) (started_backpedal s)
    (timing_counter s) (timestamped_chunks s) (safe_frontier s) (regions s) (chunks s)
    v (bins s) (next_allocation_id s) (stats s).
Definition with_regions (s : t) (v : list AllocationRegion) : t :=
  mkBfc (opts s) (memory_limit s) (coalesce_regions s) (sub_allocator s)
    (curr_region_allocation_bytes s) (total_region_allocated_bytes s) (started_backpedal s)
    (timing_counter s) (timestamped_chunks s) (safe_frontier s) v (chunks s)
    (free_chunks_list s) (bins s) (next_allocation_id s) (stats s).
Definition with_bins (s : t) (v : list (list nat)) : t :=
  mkBfc (opts s) (memory_limit s) (coalesce_regions s) (sub_allocator s)
    (curr_region_allocation_bytes s) (total_region_allocated_bytes s) (started_backpedal s)
    (timing_counter s) (timestamped_chunks s) (safe_frontier s) (regions s) (chunks s)
    (free_chunks_list s) v (next_allocation_id s) (stats s).
Definition with_stats (s : t) (v : Stats) : t :=
  mkBfc (opts s) (memory_limit s) (coalesce_regions s) (sub_allocator s)
    (curr_region_allocation_bytes s) (total_region_allocated_bytes s) (started_backpedal s)
    (timing_counter s) (timestamped_chunks s) (safe_frontier s) (regions s) (chunks s)
    (free_chunks_list s) (bins s) (next_allocation_id s) v.
Definition with_next_id (s : t) (v : Z) : t :=
  mkBfc (opts s) (memory_limit s) (coalesce_regions s) (sub_allocator s)
    (curr_region_allocation_bytes s) (total_region_allocated_bytes s) (started_backpedal s)
    (timing_counter s) (timestamped_chunks s) (safe_frontier s) (regions s) (chunks s)
    (free_chunks_list s) (bins s) v (stats s).
Definition with_timing (s : t) (tc : option Z) (ts : list nat) (sf : Z) : t :=
  mkBfc (opts s) (memory_limit s) (coalesce_regions s) (sub_allocator s)
    (curr_region_allocation_bytes s) (total_region_allocated_bytes s) (started_backpedal s)
    tc ts sf (regions s) (chunks s)
    (free_chunks_list s) (bins s) (next_allocation_id s) (stats s).
Definition with_growth (s : t) (sa : SA) (curr total : Z) (backpedal : bool) : t :=
  mkBfc (opts s) (memory_limit s) (coalesce_regions s) sa curr total backpedal
    (timing_counter s) (timestamped_chunks s) (safe_frontier s) (regions s) (chunks s)
    (free_chunks_list s) (bins s) (next_allocation_id s) (stats s).

(** ** The state-and-crash monad *)

Definition M (A : Type) : Type := t -> option (A * t).
#[global] Instance M_ret : MRet M := fun A a s => Some (a, s).
#[global] Instance M_bind : MBind M := fun A B k m s =>
  match m s with Some (a, s') => k a s' | None => None end.

Definition gets {A : Type} (f : t -> A) : M A := fun s => Some (f s, s).
Definition modify (f : t -> t) : M unit := fun s => Some (tt, f s).
(** [CHECK(b)] *)
Definition CHECK (b : bool) : M unit := fun s => if b then Some (tt, s) else None.
(** A lookup or an update that must succeed. *)
Definition asks {A : Type} (f : t -> option A) : M A := fun s => a ← f s; Some (a, s).
Definition updates (f : t -> option t) : M unit := fun s => s' ← f s; Some (tt, s').

(** [BFCAllocator::ChunkFromHandle] to read a chunk, and to write through the pointer. *)
Definition ChunkFromHandle (h : nat) : M Chunk := asks (fun s => chunks s !! h).
Definition modify_chunk (h : nat) (f : Chunk -> Chunk) : M unit :=
  updates (fun s => c ← chunks s !! h; Some (with_chunks s (<[h := f c]> (chunks s)))).

(** [region_manager_.get_handle / set_handle / erase] *)
Definition get_handle_M (p : Z) : M (option nat) := asks (fun s => get_handle (regions s) p).
Definition set_handle_M (p : Z) (h : option nat) : M unit :=
  updates (fun s => rs ← set_handle (regions s) p h; Some (with_regions s rs)).

(** ** Chunks and bins *)

(** [BFCAllocator::AllocateChunk] *)
Definition AllocateChunk : M nat := fun s =>
  match free_chunks_list s with
  | Some h => c ← chunks s !! h; Some (h, with_free_list s (next c))
  | None => Some (length (chunks s), with_chunks s (chunks s ++ [new_chunk]))
  end.

(** [BFCAllocator::DeallocateChunk] *)
Definition DeallocateChunk (h : nat) : M unit :=
  fl ← gets free_chunks_list;
  modify_chunk h (fun c => set_next (set_bin_num (set_allocation_id c (-1)) None) fl) ;;
  modify (fun s => with_free_list s (Some h)).

(** [BFCAllocator::DeleteChunk] *)
Definition DeleteChunk (h : nat) : M unit :=
  c ← ChunkFromHandle h;
  set_handle_M (ptr c) None ;;
  DeallocateChunk h.

(** The chunk a handle in a bin stands for. *)
Definition chunk_at (cs : list Chunk) (h : nat) : Chunk := default new_chunk (cs !! h).

(** [Bin::ChunkComparator::operator()] *)
Definition ChunkComparator (cs : list Chunk) (ha hb : nat) : bool :=
  let a := chunk_at cs ha in
  let b := chunk_at cs hb in
  if negb (size a =? size b) then size a <? size b else ptr a <? ptr b.

(** [std::set::insert] with the comparator [less]. *)
Fixpoint set_insert (less : nat -> nat -> bool) (h : nat) (l : list nat) : list nat :=
  match l with
  | [] => [h]
  | x :: l' =>
      if less h x then h :: l else if less x h then x :: set_insert less h l' else l
  end.

(** [std::set::erase(key)] with the comparator [less]: drops the equivalent element. *)
Definition set_erase (less : nat -> nat -> bool) (h : nat) (l : list nat) : list nat :=
  List.filter (fun x => less h x || less x h) l.

(** [BFCAllocator::InsertFreeChunkIntoBin] *)
Definition InsertFreeChunkIntoBin (h : nat) : M unit :=
  c ← ChunkFromHandle h;
  CHECK (negb (in_use c) && bool_decide (bin_num c = None)) ;;
  let b := BinNumForSize (size c) in
  modify_chunk h (fun c => set_bin_num c (Some b)) ;;
  updates (fun s =>
    l ← bins s !! b;
    Some (with_bins s (<[b := set_insert (ChunkComparator (chunks s)) h l]> (bins s)))).

(** [BFCAllocator::RemoveFreeChunkIterFromBin]: the iterator is position [k] of bin [b]. *)
Definition RemoveFreeChunkIterFromBin (b k : nat) : M unit :=
  l ← asks (fun s => bins s !! b);
  h ← asks (fun _ => l !! k);
  c ← ChunkFromHandle h;
  CHECK (negb (in_use c) && bool_decide (bin_num c ≠ None)) ;;
  modify (fun s => with_bins s (<[b := delete k l]> (bins s))) ;;
  modify_chunk h (fun c => set_bin_num c None).

(** [BFCAllocator::RemoveFreeChunkFromBin] *)
Definition RemoveFreeChunkFromBin (h : nat) : M unit :=
  c ← ChunkFromHandle h;
  CHECK (negb (in_use c) && bool_decide (bin_num c ≠ None)) ;;
  b ← asks (fun _ => bin_num c);
  l ← asks (fun s => bins s !! b);
  l' ← gets (fun s => set_erase (ChunkComparator (chunks s)) h l);
  CHECK (length l' <? length l)%nat ;;
  modify (fun s => with_bins s (<[b := l']> (bins s))) ;;
  modify_chunk h (fun c => set_bin_num c None).

(** [BFCAllocator::MarkFree] *)
Definition MarkFree (h : nat) : M unit :=
  c ← ChunkFromHandle h;
  CHECK (in_use c && bool_decide (bin_num c = None)) ;;
  modify_chunk h (fun c => set_allocation_id c (-1)) ;;
  tc ← gets timing_counter;
  (match tc with
   | Some v =>
       modify_chunk h (fun c => set_freed_at_count c (v + 1)) ;;
       modify (fun s => with_timing s (Some (v + 1)) (timestamped_chunks s) (safe_frontier s))
   | None => mret tt
   end) ;;
  modify (fun s => with_stats s
    (mkStats (num_allocs (stats s)) (wrap_i64 (bytes_in_use (stats s) - size c))
             (peak_bytes_in_use (stats s)) (largest_alloc_size (stats s)) (bytes_limit (stats s)))).

(** [BFCAllocator::Merge] *)
Definition Merge (h1 h2 : nat) : M unit :=
  c1 ← ChunkFromHandle h1;
  c2 ← ChunkFromHandle h2;
  CHECK (negb (in_use c1) && negb (in_use c2)) ;;
  let h3 := next c2 in
  modify_chunk h1 (fun c => set_next c h3) ;;
  CHECK (bool_decide (prev c2 = Some h1)) ;;
  (match h3 with
   | Some h3 => modify_chunk h3 (fun c => set_prev c (Some h1))
   | None => mret tt
   end) ;;
  modify_chunk h1 (fun c => set_size c (wrap_u64 (size c + size c2))) ;;
  modify_chunk h1 (fun c => set_freed_at_count c (Z.max (freed_at_count c) (freed_at_count c2))) ;;
  DeleteChunk h2.

(** [BFCAllocator::TryToCoalesce] *)
Definition TryToCoalesce (h : nat) (ignore_freed_at : bool) : M nat :=
  c ← ChunkFromHandle h;
  if negb ignore_freed_at && (0 <? freed_at_count c) then mret h
  else
    (match next c with
     | Some hn =>
         n ← ChunkFromHandle hn;
         if negb (in_use n) && ((freed_at_count n =? 0) || ignore_freed_at)
         then RemoveFreeChunkFromBin hn ;; Merge h hn
         else mret tt
     | None => mret tt
     end) ;;
    c ← ChunkFromHandle h;
    match prev c with
    | Some hp =>
        n ← ChunkFromHandle hp;
        if negb (in_use n) && ((freed_at_count n =? 0) || ignore_freed_at)
        then RemoveFreeChunkFromBin hp ;; Merge hp h ;; mret hp
        else mret h
    | None => mret h
    end.

(** [BFCAllocator::SplitChunk] *)
Definition SplitChunk (h : nat) (num_bytes : Z) : M unit :=
  h_new ← AllocateChunk;
  c ← ChunkFromHandle h;
  CHECK (negb (in_use c) && bool_decide (bin_num c = None)) ;;
  modify_chunk h_new (fun n => set_ptr n (ptr c + num_bytes)) ;;
  set_handle_M (ptr c + num_bytes) (Some h_new) ;;
  modify_chunk h_new (fun n => set_size n (wrap_u64 (size c - num_bytes))) ;;
  modify_chunk h (fun c => set_size c num_bytes) ;;
  modify_chunk h_new (fun n => set_allocation_id n (-1)) ;;
  modify_chunk h_new (fun n => set_freed_at_count n (freed_at_count c)) ;;
  let h_neighbor := next c in
  modify_chunk h_new (fun n => set_next (set_prev n (Some h)) h_neighbor) ;;
  modify_chunk h (fun c => set_next c (Some h_new)) ;;
  (match h_neighbor with
   | Some hn => modify_chunk hn (fun n => set_prev n (Some h_new))
   | None => mret tt
   end) ;;
  InsertFreeChunkIntoBin h_new.

(** ** Finding a chunk *)

(** The inner loop of [FindChunkPtr]: position and handle of the first chunk of a bin that fits. *)
Fixpoint find_in_bin (cs : list Chunk) (rounded_bytes freed_before : Z) (k : nat) (l : list nat)
    : option (option (nat * nat)) :=
  match l with
  | [] => Some None
  | h :: l' =>
      c ← cs !! h;
      if (0 <? freed_before) && (freed_before <? freed_at_count c)
      then find_in_bin cs rounded_bytes freed_before (S k) l'
      else if rounded_bytes <=? size c then Some (Some (k, h))
      else find_in_bin cs rounded_bytes freed_before (S k) l'
  end.

(** The outer loop over the bins from number [b] on: bin, position and handle. *)
Fixpoint find_in_bins (cs : list Chunk) (rounded_bytes freed_before : Z) (b : nat)
    (bs : list (list nat)) : option (option (nat * nat * nat)) :=
  match bs with
  | [] => Some None
  | l :: bs' =>
      r ← find_in_bin cs rounded_bytes freed_before 0 l;
      match r with
      | Some (k, h) => Some (Some (b, k, h))
      | None => find_in_bins cs rounded_bytes freed_before (S b) bs'
      end
  end.

(** [max_internal_fragmentation_bytes] *)
Definition max_internal_fragmentation_bytes (o : Options) : Z :=
  match fragmentation_bytes o with
  | Some v => v
  | None => 128 * 2 ^ 20
  end.

(** The statistics update of [FindChunkPtr] for a chunk of [sz] bytes. *)
Definition count_alloc (st : Stats) (sz : Z) : Stats :=
  let biu := wrap_i64 (bytes_in_use st + sz) in
  mkStats (num_allocs st + 1) biu (Z.max (peak_bytes_in_use st) biu)
          (Z.max (largest_alloc_size st) sz) (bytes_limit st).

(** [BFCAllocator::FindChunkPtr]; 0 is [nullptr].  The 64-bit counters of allocations
    do not wrap around. *)
Definition FindChunkPtr (bin_num : nat) (rounded_bytes num_bytes freed_before : Z) : M Z :=
  r ← asks (fun s => find_in_bins (chunks s) rounded_bytes freed_before bin_num
                       (drop bin_num (bins s)));
  match r with
  | None => mret 0
  | Some (b, k, h) =>
      RemoveFreeChunkIterFromBin b k ;;
      c ← ChunkFromHandle h;
      o ← gets opts;
      (if (wrap_u64 (rounded_bytes * 2) <=? size c)
          || (wrap_u64 (max_internal_fragmentation_bytes o) <=? wrap_u64 (size c - rounded_bytes))
       then SplitChunk h rounded_bytes
       else mret tt) ;;
      modify_chunk h (fun c => set_requested_size c num_bytes) ;;
      id ← gets next_allocation_id;
      modify_chunk h (fun c => set_allocation_id c id) ;;
      modify (fun s => with_next_id s (id + 1)) ;;
      c ← ChunkFromHandle h;
      modify (fun s => with_stats s (count_alloc (stats s) (size c))) ;;
      mret (ptr c)
  end.

(** ** Growth *)

(** [while (rounded_bytes > curr_region_allocation_bytes_) curr_region_allocation_bytes_ *= 2] *)
Fixpoint double_until (fuel : nat) (rounded_bytes curr : Z) (increased : bool) : option (Z * bool) :=
  match fuel with
  | O => None
  | S fuel' =>
      if curr <? rounded_bytes
      then double_until fuel' rounded_bytes (wrap_u64 (curr * 2)) true
      else Some (curr, increased)
  end.

(** The back-pedalling loop of [Extend], after the first failed [Alloc] of [bytes]. *)
Fixpoint backpedal_loop (fuel : nat) (sa : SA) (alignment rounded_bytes bytes : Z)
    : option (option (Z * Z) * SA) :=
  match fuel with
  | O => None
  | S fuel' =>
      let bytes' := RoundedBytes (times_backpedal_factor bytes) in
      if bytes' <? rounded_bytes then Some (None, sa)
      else
        match sub_Alloc sa alignment bytes' with
        | (Some r, sa') => Some (Some r, sa')
        | (None, sa') => backpedal_loop fuel' sa' alignment rounded_bytes bytes'
        end
  end.

(** The walk to the last chunk of a region: [while (prev_chunk->next != kInvalidChunkHandle)]. *)
Fixpoint last_chunk (fuel : nat) (cs : list Chunk) (h : nat) : option nat :=
  match fuel with
  | O => None
  | S fuel' =>
      c ← cs !! h;
      match next c with
      | Some n => last_chunk fuel' cs n
      | None => Some h
      end
  end.

(** The last part of [Extend]: registers the region of a new block and its one free chunk. *)
Definition add_block (mem_addr bytes_received : Z) : M unit :=
  added ← gets (fun s =>
    if coalesce_regions s
    then AddOrExtendAllocationRegion (regions s) mem_addr bytes_received
    else (AddAllocationRegion (regions s) mem_addr bytes_received, None));
  modify (fun s => with_regions s added.1) ;;
  h ← AllocateChunk;
  modify_chunk h (fun c =>
    set_freed_at_count (set_next (set_prev (set_allocation_id
      (set_size (set_ptr c mem_addr) bytes_received) (-1)) None) None) 0) ;;
  set_handle_M mem_addr (Some h) ;;
  (match added.2 with
   | Some i =>
       first ← asks (fun s => r ← regions s !! i; o ← region_get_handle r (r_ptr r); o);
       last ← asks (fun s => last_chunk (length (chunks s)) (chunks s) first);
       modify_chunk h (fun c => set_prev c (Some last)) ;;
       modify_chunk last (fun c => set_next c (Some h))
   | None => mret tt
   end) ;;
  h' ← TryToCoalesce h false;
  InsertFreeChunkIntoBin h'.

(** [available_bytes] of [Extend]: what is left of the limit, rounded down to whole slots. *)
Definition available_bytes (s : t) : Z :=
  wrap_u64 (memory_limit s - total_region_allocated_bytes s)
    / kMinAllocationSize * kMinAllocationSize.

(** The calls of [sub_allocator_->Alloc] in [Extend]: the block, the sub-allocator and
    [started_backpedal_]. *)
Definition sub_alloc_block (fuel : nat) (s : t) (alignment rounded_bytes bytes : Z)
    : option (option (Z * Z) * SA * bool) :=
  match sub_Alloc (sub_allocator s) alignment bytes with
  | (Some r, sa) => Some (Some r, sa, started_backpedal s)
  | (None, sa) =>
      if negb (started_backpedal s) then
        '(mem, sa') ← backpedal_loop fuel sa alignment rounded_bytes bytes;
        Some (mem, sa', true)
      else Some (None, sa, started_backpedal s)
  end.

(** [BFCAllocator::Extend].  [fuel] bounds the back-pedalling loop only; 65 doublings exhaust a
    [size_t], and a walk along the chunks of a region has at most [length chunks] steps. *)
Definition Extend (fuel : nat) (alignment rounded_bytes : Z) : M bool := fun s =>
  if available_bytes s <? rounded_bytes then Some (false, s)
  else
    '(curr, increased_allocation) ←
      double_until 65 rounded_bytes (curr_region_allocation_bytes s) false;
    '(mem, sa, backpedal) ←
      sub_alloc_block fuel s alignment rounded_bytes (Z.min curr (available_bytes s));
    match mem with
    | None =>
        Some (false, with_growth s sa curr (total_region_allocated_bytes s) backpedal)
    | Some (mem_addr, bytes_received) =>
        let curr := if increased_allocation : bool then curr else wrap_u64 (curr * 2) in
        let s := with_growth s sa curr
                   (wrap_u64 (total_region_allocated_bytes s + bytes_received)) backpedal in
        '(_, s') ← add_block mem_addr bytes_received s;
        Some (true, s')
    end.

(** ** Timestamped frees *)

(** The first loop of [MergeTimestampedChunks]: sweeps the queue into the pointers to merge and
    the handles to keep. *)
Fixpoint sweep_timestamped (required_bytes : Z) (q : list nat) : M (list Z * list nat) :=
  match q with
  | [] => mret ([], [])
  | h0 :: q' =>
      c ← ChunkFromHandle h0;
      o ← get_handle_M (ptr c);
      match o with
      | None => sweep_timestamped required_bytes q'
      | Some h =>
          if in_use c || bool_decide (bin_num c = None) then sweep_timestamped required_bytes q'
          else if freed_at_count c =? 0 then
            r ← sweep_timestamped required_bytes q';
            mret (ptr c :: r.1, r.2)
          else
            safe ← gets safe_frontier;
            if freed_at_count c <? safe then
              modify_chunk h0 (fun c => set_freed_at_count c 0) ;;
              r ← sweep_timestamped required_bytes q';
              mret (ptr c :: r.1, r.2)
            else if 0 <? required_bytes then
              r ← sweep_timestamped required_bytes q';
              mret (ptr c :: r.1, r.2)
            else
              r ← sweep_timestamped required_bytes q';
              mret (r.1, h :: r.2)
      end
  end.

Definition push_timestamped (h : nat) : M unit :=
  modify (fun s => with_timing s (timing_counter s) (timestamped_chunks s ++ [h]) (safe_frontier s)).

(** The second loop of [MergeTimestampedChunks]. *)
Fixpoint merge_timestamped (required_bytes : Z) (satisfied : bool) (to_merge : list Z) : M bool :=
  match to_merge with
  | [] => mret satisfied
  | p :: ps =>
      o ← get_handle_M p;
      match o with
      | None => merge_timestamped required_bytes satisfied ps
      | Some h =>
          if (required_bytes =? 0) || negb satisfied then
            RemoveFreeChunkFromBin h ;;
            new_h ← TryToCoalesce h (0 <? required_bytes);
            InsertFreeChunkIntoBin new_h ;;
            if 0 <? required_bytes then
              c ← ChunkFromHandle new_h;
              (if negb (new_h =? h)%nat && (0 <? freed_at_count c)
               then push_timestamped new_h else mret tt) ;;
              merge_timestamped required_bytes (satisfied || (required_bytes <=? size c)) ps
            else merge_timestamped required_bytes satisfied ps
          else
            push_timestamped h ;;
            merge_timestamped required_bytes satisfied ps
      end
  end.

(** [BFCAllocator::MergeTimestampedChunks] *)
Definition MergeTimestampedChunks (required_bytes : Z) : M bool :=
  q ← gets timestamped_chunks;
  modify (fun s => with_timing s (timing_counter s) [] (safe_frontier s)) ;;
  r ← sweep_timestamped required_bytes q;
  modify (fun s => with_timing s (timing_counter s) r.2 (safe_frontier s)) ;;
  merge_timestamped required_bytes (required_bytes =? 0) r.1.

(** [BFCAllocator::SetSafeFrontier], run without interference from other threads. *)
Definition SetSafeFrontier (count : Z) : M unit :=
  modify (fun s =>
    if safe_frontier s <? count
    then with_timing s (timing_counter s) (timestamped_chunks s) count else s).

(** ** Garbage collection of regions *)

(** The [any_use] walk of [DeallocateFreeRegions] along the chunks of one region. *)
Fixpoint any_use (fuel : nat) (cs : list Chunk) (o : option nat) : option bool :=
  match o with
  | None => Some false
  | Some h =>
      match fuel with
      | O => None
      | S fuel' =>
          c ← cs !! h;
          if in_use c then Some true else any_use fuel' cs (next c)
      end
  end.

(** The search loop of [DeallocateFreeRegions]: the free regions and their total size. *)
Fixpoint find_free_regions (s : t) (rs : list AllocationRegion) : option (list Z * Z) :=
  match rs with
  | [] => Some ([], 0)
  | r :: rs' =>
      h ← get_handle (regions s) (r_ptr r);
      u ← any_use (length (chunks s)) (chunks s) h;
      '(ps, total) ← find_free_regions s rs';
      if u : bool then Some (ps, total)
      else Some (r_ptr r :: ps, wrap_u64 (total + r_memory_size r))
  end.

(** The chunk-removal loop of [DeallocateRegions]. *)
Fixpoint delete_chunks (fuel : nat) (o : option nat) : M unit :=
  match o with
  | None => mret tt
  | Some h =>
      match fuel with
      | O => CHECK false
      | S fuel' =>
          c ← ChunkFromHandle h;
          (if bool_decide (bin_num c = None) then mret tt else RemoveFreeChunkFromBin h) ;;
          DeleteChunk h ;;
          delete_chunks fuel' (next c)
      end
  end.

(** [BFCAllocator::DeallocateRegions] from position [i] of the region list on. *)
Fixpoint DeallocateRegions (fuel : nat) (region_ptrs : list Z) (i : nat) : M unit :=
  match fuel with
  | O => mret tt
  | S fuel' =>
      o ← gets (fun s => regions s !! i);
      match o with
      | None => mret tt
      | Some r =>
          if negb (bool_decide (r_ptr r ∈ region_ptrs))
          then DeallocateRegions fuel' region_ptrs (S i)
          else
            h ← get_handle_M (r_ptr r);
            n ← gets (fun s => length (chunks s));
            delete_chunks n h ;;
            modify (fun s => with_growth s (sub_Free (sub_allocator s) (r_ptr r) (r_memory_size r))
                      (curr_region_allocation_bytes s)
                      (wrap_u64 (total_region_allocated_bytes s - r_memory_size r))
                      (started_backpedal s)) ;;
            modify (fun s => with_regions s (RemoveAllocationRegion (regions s) i)) ;;
            DeallocateRegions fuel' region_ptrs i
      end
  end.

(** [BFCAllocator::DeallocateFreeRegions] *)
Definition DeallocateFreeRegions (rounded_bytes : Z) : M bool :=
  o ← gets opts;
  if negb (garbage_collection o) then mret false
  else
    r ← asks (fun s => find_free_regions s (regions s));
    if r.2 =? 0 then mret false
    else
      available ← gets (fun s =>
        wrap_u64 (memory_limit s - total_region_allocated_bytes s + r.2));
      if available <? rounded_bytes then mret false
      else
        n ← gets (fun s => length (regions s));
        DeallocateRegions n r.1 0 ;;
        mret true.

(** ** Entry points *)

(** [BFCAllocator::AllocateRawInternal]; 0 is [nullptr]. *)
Definition AllocateRawInternal (fuel : nat) (alignment num_bytes freed_before : Z) : M Z :=
  if num_bytes =? 0 then mret 0
  else
    let rounded_bytes := RoundedBytes num_bytes in
    let bin := BinNumForSize rounded_bytes in
    q ← gets timestamped_chunks;
    (match q with [] => mret tt | _ => MergeTimestampedChunks 0 ;; mret tt end) ;;
    p ← FindChunkPtr bin rounded_bytes num_bytes freed_before;
    if negb (p =? 0) then mret p
    else
      e ← Extend fuel alignment rounded_bytes;
      p ← (if e : bool then FindChunkPtr bin rounded_bytes num_bytes freed_before else mret 0);
      if negb (p =? 0) then mret p
      else
        q ← gets timestamped_chunks;
        p ← (if (freed_before =? 0) && negb (bool_decide (q = []))
             then ok ← MergeTimestampedChunks rounded_bytes;
                  if ok : bool then FindChunkPtr bin rounded_bytes num_bytes freed_before
                  else mret 0
             else mret 0);
        if negb (p =? 0) then mret p
        else
          d ← DeallocateFreeRegions rounded_bytes;
          e ← (if d : bool then Extend fuel alignment rounded_bytes else mret false);
          if e : bool then FindChunkPtr bin rounded_bytes num_bytes freed_before else mret 0.

(** [BFCAllocator::DeallocateRawInternal], and [DeallocateRaw] up to the retry notification. *)
Definition DeallocateRaw (p : Z) : M unit :=
  if p =? 0 then mret tt
  else
    o ← get_handle_M p;
    h ← asks (fun _ => o);
    MarkFree h ;;
    tc ← gets timing_counter;
    match tc with
    | Some _ => InsertFreeChunkIntoBin h ;; push_timestamped h
    | None => h' ← TryToCoalesce h false; InsertFreeChunkIntoBin h'
    end.

(** The chunk of a pointer, as the query functions find it. *)
Definition chunk_of_ptr (p : Z) : M Chunk :=
  o ← get_handle_M p;
  h ← asks (fun _ => o);
  ChunkFromHandle h.

(** [BFCAllocator::RequestedSize], [AllocatedSize] and [AllocationId] *)
Definition RequestedSize (p : Z) : M Z :=
  CHECK (negb (p =? 0)) ;; c ← chunk_of_ptr p; mret (requested_size c).
Definition AllocatedSize (p : Z) : M Z := c ← chunk_of_ptr p; mret (size c).
Definition AllocationId (p : Z) : M Z := c ← chunk_of_ptr p; mret (allocation_id c).

(** [BFCAllocator::LargestFreeChunk]: scans the bins from the largest one down. *)
Fixpoint largest_in (cs : list Chunk) (bs : list (list nat)) : option Z :=
  match bs with
  | [] => Some 0
  | l :: bs' =>
      match last l with
      | Some h => size <$> cs !! h
      | None => largest_in cs bs'
      end
  end.
Definition LargestFreeChunk : M Z := asks (fun s => largest_in (chunks s) (reverse (bins s))).

(** [BFCAllocator::ClearStats] *)
Definition ClearStats : M unit :=
  modify (fun s => with_stats s
    (mkStats 0 (bytes_in_use (stats s)) (bytes_in_use (stats s)) 0 (bytes_limit (stats s)))).

(** The four [CHECK]s of the constructor about bin [b]. *)
Definition bin_checks (b : nat) : bool :=
  let bin_size := BinNumToSize b in
  (BinNumForSize bin_size =? b)%nat && (BinNumForSize (bin_size + 255) =? b)%nat
  && (BinNumForSize (wrap_u64 (bin_size * 2) - 1) =? b)%nat
  && (if (b + 1 <? kNumBins)%nat
      then negb (BinNumForSize (wrap_u64 (bin_size * 2)) =? b)%nat else true).

(** [BFCAllocator::BFCAllocator] *)
Definition BFCAllocator (sub : SA) (total_memory : Z) (o : Options) : option t :=
  if forallb bin_checks (seq 0 kNumBins) then
    Some (mkBfc o total_memory (sub_SupportsCoalescing sub) sub
            (if allow_growth o then RoundedBytes (Z.min total_memory (2 * 2 ^ 20))
             else RoundedBytes total_memory)
            0 false None [] 0 [] [] None (replicate kNumBins []) 1
            (mkStats 0 0 0 0 (wrap_i64 total_memory)))
  else None.

(** [BFCAllocator::SetTimingCounter] with a counter that has not been used. *)
Definition SetTimingCounter (v : Z) : M unit :=
  modify (fun s => with_timing s (Some v) (timestamped_chunks s) (safe_frontier s)).
End Allocator.

#[global] Arguments t SA : clear implicits.

End Bfc.
