(* ===== verification/BfcInv.v ===== *)
(** * The invariant of the BFC allocator

    The header comments of [bfc_allocator.h] promise that the chunks of a
    region are disjoint and cover it without gaps, that [prev]/[next] link
    physically adjacent chunks, that free chunks are in the bin of their size
    and used chunks in none.  This file states these promises as [heap_ok] and
    proves, operation by operation, that no [CHECK] fails and the invariant is
    kept: insertion into and removal from bins, merging, coalescing and
    splitting.  [hold] lists the free chunks that are temporarily in no bin. *)

From S2P Require Import Prelude BfcRegion Bfc.
Import Region Bfc.

(** ** Sizes and bins

    The integer arithmetic that chooses bins: [RoundedBytes],
    [Log2FloorNonZero] and its portable variant, [BinNumToSize] and
    [BinNumForSize]. *)

(** Within the range that does not wrap, rounding gives the least multiple of 256 above. *)
Lemma RoundedBytes_spec (n : Z) :
  0 <= n <= 2 ^ 64 - 256 ->
  n <= RoundedBytes n < n + 256 /\ RoundedBytes n mod 256 = 0.
Proof.
  intros Hn. unfold RoundedBytes, kMinAllocationSize, kMinAllocationBits.
  change (Z.shiftl 1 8) with 256. unwrap.
  pose proof (Z.div_mod (n + 256 - 1) 256). pose proof (Z.mod_pos_bound (n + 256 - 1) 256).
  rewrite wrap_u64_id by (unfold in_u64; lia).
  split; [lia|]. by rewrite Z.mul_comm, Z.mod_mul.
Qed.

Lemma log2_loop_spec (fuel : nat) (n r : Z) :
  0 <= n < 2 ^ Z.of_nat fuel -> log2_loop fuel n r = r + (if n =? 0 then 0 else Z.log2 n + 1).
Proof.
  revert n r. induction fuel as [|fuel IH]; intros n r Hn; cbn [log2_loop].
  { assert (n = 0) as -> by lia. cbn. lia. }
  case_if.
  - rewrite Nat2Z.inj_succ, Z.pow_succ_r in Hn by lia.
    rewrite IH by (rewrite Z.shiftr_div_pow2 by lia; dlia).
    rewrite (proj2 (Z.eqb_neq n 0)) by lia.
    rewrite Z.shiftr_div_pow2 by lia. change (2 ^ 1) with 2.
    destruct (Z.eqb_spec (n / 2) 0) as [E|E].
    + assert (n = 1) as -> by dlia. cbn. lia.
    + assert (Z.log2 n = Z.log2 (n / 2) + 1) as ->; [|lia].
      rewrite <- Z.div2_div. rewrite <- Z.div2_div in E.
      rewrite (Z.div2_odd n) at 1. destruct (Z.odd n); cbn [Z.b2z].
      * rewrite Z.log2_succ_double; [lia|]. pose proof (Z.div2_nonneg n). lia.
      * rewrite Z.add_0_r, Z.log2_double; [lia|]. pose proof (Z.div2_nonneg n). lia.
  - assert (n = 0) as -> by lia. cbn. lia.
Qed.

Lemma lxor_63 (k : Z) : 0 <= k <= 63 -> Z.lxor 63 (63 - k) = k.
Proof.
  intros Hk. assert (forallb (fun i => Z.lxor 63 (63 - Z.of_nat i) =? Z.of_nat i) (seq 0 64) = true) as H
    by done.
  rewrite forallb_forall in H. specialize (H (Z.to_nat k)).
  rewrite Z2Nat.id in H by lia. apply Z.eqb_eq, H, in_seq. lia.
Qed.

Lemma Log2FloorNonZero_log2 (n : Z) : 0 < n < 2 ^ 64 -> Log2FloorNonZero n = Z.log2 n.
Proof.
  intros Hn. apply lxor_63. split; [apply Z.log2_nonneg|].
  pose proof (Z.log2_lt_pow2 n 64). lia.
Qed.

Lemma Log2FloorNonZeroSlow_log2 (n : Z) : 0 < n < 2 ^ 64 -> Log2FloorNonZeroSlow n = Z.log2 n.
Proof.
  intros Hn. unfold Log2FloorNonZeroSlow. rewrite log2_loop_spec by lia.
  rewrite (proj2 (Z.eqb_neq n 0)) by lia. lia.
Qed.

Lemma BinNumForSize_lt (bytes : Z) : (BinNumForSize bytes < kNumBins)%nat.
Proof. unfold BinNumForSize, kNumBins. lia. Qed.

(** [BinNumForSize] as a logarithm. *)
Lemma BinNumForSize_log2 (bytes : Z) :
  bytes < 2 ^ 64 -> Z.of_nat (BinNumForSize bytes) = Z.min 20 (Z.log2 (Z.max bytes 256 / 256)).
Proof.
  intros Hb. unfold BinNumForSize, kMinAllocationBits. rewrite Z.shiftr_div_pow2 by lia.
  change (2 ^ 8) with 256. rewrite Log2FloorNonZero_log2 by dlia.
  pose proof (Z.log2_nonneg (Z.max bytes 256 / 256)). rewrite Z2Nat.id; unfold kNumBins; lia.
Qed.

Lemma BinNumForSize_mono (x y : Z) : x <= y < 2 ^ 64 -> (BinNumForSize x <= BinNumForSize y)%nat.
Proof.
  intros Hxy. apply Nat2Z.inj_le. rewrite !BinNumForSize_log2 by lia.
  assert (Z.log2 (Z.max x 256 / 256) <= Z.log2 (Z.max y 256 / 256)); [|lia].
  apply Z.log2_le_mono. apply Z.div_le_mono; lia.
Qed.

Lemma BinNumToSize_pow (b : nat) : (b < kNumBins)%nat -> BinNumToSize b = 256 * 2 ^ Z.of_nat b.
Proof.
  unfold kNumBins. intros Hb. unfold BinNumToSize. rewrite Z.shiftl_mul_pow2 by lia.
  apply wrap_u64_id. unfold in_u64.
  assert (0 < 2 ^ Z.of_nat b <= 2 ^ 21); [|lia].
  split; [lia|]. apply Z.pow_le_mono_r; lia.
Qed.

(** A size belongs to the bin whose range contains it. *)
Lemma BinNumForSize_range (bytes : Z) :
  256 <= bytes < 2 ^ 64 ->
  let b := BinNumForSize bytes in
  BinNumToSize b <= bytes /\ ((S b < kNumBins)%nat -> bytes < 2 * BinNumToSize b).
Proof.
  intros Hb. cbn. pose proof (BinNumForSize_lt bytes) as Hlt. rewrite BinNumToSize_pow by done.
  pose proof (BinNumForSize_log2 bytes ltac:(lia)) as E. rewrite Z.max_l in E by lia.
  unfold kNumBins in *.
  pose proof (Z.log2_spec (bytes / 256) ltac:(dlia)) as [H1 H2].
  pose proof (Z.log2_nonneg (bytes / 256)).
  assert (2 ^ Z.of_nat (BinNumForSize bytes) <= 2 ^ Z.log2 (bytes / 256)).
  { apply Z.pow_le_mono_r; lia. }
  pose proof (Z.div_mod bytes 256). pose proof (Z.mod_pos_bound bytes 256).
  split; [lia|]. intros Hlast.
  assert (Z.of_nat (BinNumForSize bytes) = Z.log2 (bytes / 256)) as -> by lia.
  rewrite Z.pow_succ_r in H2 by lia. lia.
Qed.

(** ** The invariant *)

(** [h] is the handle registered for the chunk [c]. *)
Definition live (rs : list AllocationRegion) (cs : list Chunk) (h : nat) (c : Chunk) : Prop :=
  cs !! h = Some c /\ slot rs (ptr c) = Some h.

(** Position and links of one chunk: it lies inside its region, nothing else is registered inside
    it, and its neighbours are where its size says. *)
Record chunk_ok (rs : list AllocationRegion) (cs : list Chunk) (h : nat) (c : Chunk) : Prop := {
  ck_size : 0 < size c;
  ck_multiple : size c mod 256 = 0;
  ck_bounds : exists lo hi, bounds rs (ptr c) = Some (lo, hi) /\ (ptr c - lo) mod 256 = 0 /\
    ptr c + size c <= hi /\ (prev c = None <-> ptr c = lo) /\
    (next c = None <-> ptr c + size c = hi);
  ck_inside : forall q, ptr c < q < ptr c + size c -> slot rs q = None;
  ck_next : forall n, next c = Some n ->
    exists cn, live rs cs n cn /\ ptr cn = ptr c + size c /\ prev cn = Some h;
  ck_prev : forall m, prev c = Some m -> exists cm, live rs cs m cm /\ next cm = Some h
}.

Record layout_ok (rs : list AllocationRegion) (cs : list Chunk) : Prop := {
  lo_regions : regions_ok rs;
  lo_slots : forall q h, slot rs q = Some h -> exists c, cs !! h = Some c /\ ptr c = q;
  lo_first : forall q lo hi, bounds rs q = Some (lo, hi) -> is_Some (slot rs lo);
  lo_chunks : forall h c, live rs cs h c -> chunk_ok rs cs h c
}.

Record bins_ok (rs : list AllocationRegion) (cs : list Chunk) (bs : list (list nat)) : Prop := {
  bo_length : length bs = kNumBins;
  bo_sorted : forall b l, bs !! b = Some l ->
    StronglySorted (fun x y => ChunkComparator cs x y = true) l;
  bo_elem : forall b l h, bs !! b = Some l -> h ∈ l ->
    exists c, live rs cs h c /\ bin_num c = Some b;
  bo_bin : forall h c b, live rs cs h c -> bin_num c = Some b ->
    b = BinNumForSize (size c) /\ exists l, bs !! b = Some l /\ h ∈ l
}.

(** Held chunks are free and in no bin; every other chunk is in a bin exactly if it is free. *)
Definition hold_ok (hold : list nat) (rs : list AllocationRegion) (cs : list Chunk) : Prop :=
  (forall h c, live rs cs h c ->
     if decide (h ∈ hold) then in_use c = false /\ bin_num c = None
     else (in_use c = true <-> bin_num c = None)) /\
  (forall h, h ∈ hold -> exists c, live rs cs h c).

(** The list of unused entries of [chunks_], threaded through [next]. *)
Fixpoint free_path (cs : list Chunk) (fl : option nat) (l : list nat) : Prop :=
  match l with
  | [] => fl = None
  | h :: l' => fl = Some h /\ exists c, cs !! h = Some c /\ in_use c = false /\
                 bin_num c = None /\ free_path cs (next c) l'
  end.

Definition free_ok (rs : list AllocationRegion) (cs : list Chunk) (fl : option nat) : Prop :=
  exists l, free_path cs fl l /\ NoDup l /\ forall h q, h ∈ l -> slot rs q <> Some h.

(** An entry of [chunks_] that is not registered with a region is neither used nor in a bin. *)
Definition dead_ok (rs : list AllocationRegion) (cs : list Chunk) : Prop :=
  forall h c, cs !! h = Some c ->
    slot rs (ptr c) = Some h \/ (in_use c = false /\ bin_num c = None).

Record heap_ok {SA : Type} (hold : list nat) (s : t SA) : Prop := {
  ho_layout : layout_ok (regions s) (chunks s);
  ho_bins : bins_ok (regions s) (chunks s) (bins s);
  ho_hold : hold_ok hold (regions s) (chunks s);
  ho_free : free_ok (regions s) (chunks s) (free_chunks_list s);
  ho_dead : dead_ok (regions s) (chunks s)
}.

(** The allocation that the user holds at address [p]: size, requested size and id. *)
Definition user_at (rs : list AllocationRegion) (cs : list Chunk) (p : Z) : option (Z * Z * Z) :=
  match slot rs p with
  | Some h =>
      match cs !! h with
      | Some c => if in_use c then Some (size c, requested_size c, allocation_id c) else None
      | None => None
      end
  | None => None
  end.
Definition user {SA : Type} (s : t SA) : Z -> option (Z * Z * Z) := user_at (regions s) (chunks s).

(** The bytes of the chunks in use. *)
Definition used (c : Chunk) : Z := if in_use c then size c else 0.
Definition used_bytes {SA : Type} (s : t SA) : Z := foldr Z.add 0 (used <$> chunks s).

(** The address of every entry of [chunks_], registered or not, is a slot of a region. *)
Definition points_ok {SA : Type} (s : t SA) : Prop :=
  forall h c, chunks s !! h = Some c -> slot_point (regions s) (ptr c).

(** What the internal operations keep: the user's allocations, the slots and the queued handles. *)
Record keeps {SA : Type} (s s' : t SA) : Prop := {
  kp_user : forall p, user s' p = user s p;
  kp_used : used_bytes s' = used_bytes s;
  kp_points : points_ok s -> points_ok s';
  kp_bounds : forall p, bounds (regions s') p = bounds (regions s) p;
  kp_length : (length (chunks s) <= length (chunks s'))%nat
}.

#[global] Instance keeps_refl {SA : Type} : Reflexive (@keeps SA).
Proof. intros s. by split. Qed.
#[global] Instance keeps_trans {SA : Type} : Transitive (@keeps SA).
Proof.
  intros s1 s2 s3 [H1 H2 H3 H4 H5] [G1 G2 G3 G4 G5]. split; [|congruence|auto| |lia].
  - intros p. by rewrite G1.
  - intros p. by rewrite G4.
Qed.

Lemma keeps_slots {SA : Type} (s s' : t SA) (p : Z) :
  keeps s s' -> slot_point (regions s) p -> slot_point (regions s') p.
Proof. intros [_ _ _ Hb _] (lo & hi & H & Hm). exists lo, hi. by rewrite Hb. Qed.

(** ** Total correctness of an operation *)

Definition runs {SA A : Type} (m : M (SA := SA) A) (s : t SA) (Q : A -> t SA -> Prop) : Prop :=
  exists a s', m s = Some (a, s') /\ Q a s'.

(** Everything but chunks, regions, bins and the free list is unchanged. *)
Record same_rest {SA : Type} (s s' : t SA) : Prop := {
  sr_opts : opts s' = opts s;
  sr_limit : memory_limit s' = memory_limit s;
  sr_coalesce : coalesce_regions s' = coalesce_regions s;
  sr_sub : sub_allocator s' = sub_allocator s;
  sr_curr : curr_region_allocation_bytes s' = curr_region_allocation_bytes s;
  sr_total : total_region_allocated_bytes s' = total_region_allocated_bytes s;
  sr_backpedal : started_backpedal s' = started_backpedal s;
  sr_timing : timing_counter s' = timing_counter s;
  sr_timestamped : timestamped_chunks s' = timestamped_chunks s;
  sr_frontier : safe_frontier s' = safe_frontier s;
  sr_id : next_allocation_id s' = next_allocation_id s;
  sr_stats : stats s' = stats s
}.

#[global] Instance same_rest_refl {SA : Type} : Reflexive (@same_rest SA).
Proof. intros s. by split. Qed.
#[global] Instance same_rest_trans {SA : Type} : Transitive (@same_rest SA).
Proof. intros s1 s2 s3 [] []. split; congruence. Qed.

Create HintDb bfc.
#[export] Hint Resolve lo_regions lo_chunks ho_layout ho_bins ho_hold ho_free : bfc.

Section RunLemmas.
Context {SA : Type}.
Implicit Types s : t SA.

Lemma runs_bind {A B : Type} (m : M A) (k : A -> M B) s (Q : B -> t SA -> Prop) :
  runs m s (fun a s' => runs (k a) s' Q) -> runs (m ≫= k) s Q.
Proof.
  intros (a & s1 & Hm & b & s2 & Hk & HQ). exists b, s2. split; [|done].
  unfold mbind, M_bind. by rewrite Hm.
Qed.

Lemma runs_mono {A : Type} (m : M A) s (P Q : A -> t SA -> Prop) :
  runs m s P -> (forall a s', P a s' -> Q a s') -> runs m s Q.
Proof. intros (a & s' & Hm & HP) HPQ. exists a, s'. auto. Qed.

Lemma runs_mret {A : Type} (a : A) s (Q : A -> t SA -> Prop) : Q a s -> runs (mret a) s Q.
Proof. intros HQ. by exists a, s. Qed.

Lemma runs_gets {A : Type} (f : t SA -> A) s (Q : A -> t SA -> Prop) :
  Q (f s) s -> runs (gets f) s Q.
Proof. intros HQ. by exists (f s), s. Qed.

Lemma runs_modify (f : t SA -> t SA) s (Q : unit -> t SA -> Prop) :
  Q tt (f s) -> runs (modify f) s Q.
Proof. intros HQ. by exists tt, (f s). Qed.

Lemma runs_CHECK (b : bool) s (Q : unit -> t SA -> Prop) : b = true -> Q tt s -> runs (CHECK b) s Q.
Proof. intros -> HQ. by exists tt, s. Qed.

Lemma runs_asks {A : Type} (f : t SA -> option A) (a : A) s (Q : A -> t SA -> Prop) :
  f s = Some a -> Q a s -> runs (asks f) s Q.
Proof. intros Hf HQ. exists a, s. split; [|done]. unfold asks. by rewrite Hf. Qed.

Lemma runs_updates (f : t SA -> option (t SA)) s s' (Q : unit -> t SA -> Prop) :
  f s = Some s' -> Q tt s' -> runs (updates f) s Q.
Proof. intros Hf HQ. exists tt, s'. split; [|done]. unfold updates. by rewrite Hf. Qed.

Lemma runs_chunk (h : nat) (c : Chunk) s (Q : Chunk -> t SA -> Prop) :
  chunks s !! h = Some c -> Q c s -> runs (ChunkFromHandle h) s Q.
Proof. apply (runs_asks (fun s => chunks s !! h)). Qed.

Lemma runs_modify_chunk (h : nat) (f : Chunk -> Chunk) (c : Chunk) s (Q : unit -> t SA -> Prop) :
  chunks s !! h = Some c -> Q tt (with_chunks s (<[h := f c]> (chunks s))) ->
  runs (modify_chunk h f) s Q.
Proof. intros Hc HQ. eapply runs_updates; [|exact HQ]. cbn. by rewrite Hc. Qed.

Lemma runs_get_handle (p : Z) s (Q : option nat -> t SA -> Prop) :
  regions_ok (regions s) -> slot_point (regions s) p -> Q (slot (regions s) p) s ->
  runs (get_handle_M p) s Q.
Proof. intros Hok Hp HQ. eapply runs_asks; [|exact HQ]. by apply get_handle_slot. Qed.

Lemma runs_set_handle (p : Z) (h : option nat) s (Q : unit -> t SA -> Prop) :
  regions_ok (regions s) -> slot_point (regions s) p ->
  (forall rs', regions_ok rs' ->
     (forall q, slot rs' q = if decide (q = p) then h else slot (regions s) q) ->
     (forall q, bounds rs' q = bounds (regions s) q) -> Q tt (with_regions s rs')) ->
  runs (set_handle_M p h) s Q.
Proof.
  intros Hok Hp HQ. destruct (set_handle_slot _ p h Hok Hp) as (rs' & Hset & Hok' & Hs & Hb).
  eapply runs_updates; [|by apply (HQ rs')]. cbn. by rewrite Hset.
Qed.
End RunLemmas.

(** ** Layout *)
Section Layout.
Context (rs : list AllocationRegion) (cs : list Chunk).
Hypothesis Hlay : layout_ok rs cs.

Lemma live_ptr_inj (h h' : nat) (c c' : Chunk) :
  live rs cs h c -> live rs cs h' c' -> ptr c = ptr c' -> h = h'.
Proof. intros [_ H1] [_ H2] Hp. congruence. Qed.

Lemma live_slot_point (h : nat) (c : Chunk) : live rs cs h c -> slot_point rs (ptr c).
Proof.
  intros Hl. destruct (ck_bounds _ _ _ _ (lo_chunks _ _ Hlay _ _ Hl)) as (lo & hi & Hb & Hm & _).
  by exists lo, hi.
Qed.

(** The chunks of the heap do not overlap. *)
Lemma live_disjoint (h h' : nat) (c c' : Chunk) :
  live rs cs h c -> live rs cs h' c' -> h <> h' ->
  ptr c + size c <= ptr c' \/ ptr c' + size c' <= ptr c.
Proof.
  intros Hl Hl' Hne.
  assert (ptr c <> ptr c') by (intros E; apply Hne; by eapply live_ptr_inj).
  pose proof (ck_inside _ _ _ _ (lo_chunks _ _ Hlay _ _ Hl) (ptr c')) as H1.
  pose proof (ck_inside _ _ _ _ (lo_chunks _ _ Hlay _ _ Hl') (ptr c)) as H2.
  destruct Hl as [_ Hs], Hl' as [_ Hs'].
  destruct (decide (ptr c < ptr c')).
  - left. destruct (decide (ptr c + size c <= ptr c')); [done|]. rewrite H1 in Hs' by lia. done.
  - right. destruct (decide (ptr c' + size c' <= ptr c)); [done|]. rewrite H2 in Hs by lia. done.
Qed.

(** A live chunk fits in the address space. *)
Lemma live_range (h : nat) (c : Chunk) :
  live rs cs h c -> 0 < ptr c /\ 0 < size c /\ ptr c + size c < 2 ^ 63.
Proof.
  intros Hl. destruct (lo_chunks _ _ Hlay _ _ Hl) as [Hs _ (lo & hi & Hb & _ & Hhi & _) _ _ _].
  apply bounds_Some in Hb as (r & Hin & <- & <- & Hr); [|by apply Hlay].
  destruct (regions_ok_elem _ _ (lo_regions _ _ Hlay) Hin). lia.
Qed.
End Layout.

(** The fields the layout depends on. *)
Definition shape (c : Chunk) : Z * Z * option nat * option nat := (ptr c, size c, prev c, next c).

Section Shape.
Context (rs : list AllocationRegion) (cs cs' : list Chunk).
Hypothesis Hshape : forall h, shape <$> cs' !! h = shape <$> cs !! h.

Lemma shape_live (h : nat) (c' : Chunk) :
  live rs cs' h c' -> exists c, live rs cs h c /\ shape c = shape c'.
Proof.
  intros [Hc Hs]. specialize (Hshape h). rewrite Hc in Hshape. symmetry in Hshape.
  apply fmap_Some in Hshape as (c & Hch & He). unfold shape in *. injection He as ????.
  exists c. split; [split; congruence|congruence].
Qed.

Lemma shape_live_rev (h : nat) (c : Chunk) :
  live rs cs h c -> exists c', live rs cs' h c' /\ shape c' = shape c.
Proof.
  intros [Hc Hs]. specialize (Hshape h). rewrite Hc in Hshape.
  apply fmap_Some in Hshape as (c' & Hch & He). unfold shape in *. injection He as ????.
  exists c'. split; [split; congruence|congruence].
Qed.

Lemma shape_layout : layout_ok rs cs -> layout_ok rs cs'.
Proof.
  intros [Hr Hs Hf Hc]. split; [done| |done|].
  - intros q h (c & Hch & <-)%Hs. specialize (Hshape h). rewrite Hch in Hshape.
    apply fmap_Some in Hshape as (c' & Hch' & He). exists c'. split; [done|].
    unfold shape in He. congruence.
  - intros h c' Hl. destruct (shape_live h c' Hl) as (c & Hlc & He).
    destruct (Hc h c Hlc) as [H1 H2 H3 H4 H5 H6]. unfold shape in He. injection He as Ep Es Epr En.
    rewrite Ep, Es in *. rewrite Epr, En in *. split; try done.
    + intros n Hn. destruct (H5 n Hn) as (cn & Hln & Hpn & Hprn).
      destruct (shape_live_rev n cn Hln) as (cn' & Hln' & He'). injection He' as ????.
      exists cn'. split; [done|]. split; congruence.
    + intros m Hm. destruct (H6 m Hm) as (cm & Hlm & Hnm).
      destruct (shape_live_rev m cm Hlm) as (cm' & Hlm' & He'). injection He' as ????.
      exists cm'. split; [done|]. congruence.
Qed.

Lemma shape_chunk_at (h : nat) :
  ptr (chunk_at cs' h) = ptr (chunk_at cs h) /\ size (chunk_at cs' h) = size (chunk_at cs h).
Proof.
  unfold chunk_at. specialize (Hshape h).
  destruct (cs' !! h), (cs !! h); cbn in *; simplify_eq; auto.
Qed.

Lemma shape_comparator (x y : nat) : ChunkComparator cs' x y = ChunkComparator cs x y.
Proof.
  unfold ChunkComparator. destruct (shape_chunk_at x) as [-> ->], (shape_chunk_at y) as [-> ->]. done.
Qed.
End Shape.

(** Updating one chunk without touching its shape. *)
Lemma shape_insert (cs : list Chunk) (h : nat) (c c' : Chunk) :
  cs !! h = Some c -> shape c' = shape c ->
  forall k, shape <$> <[h := c']> cs !! k = shape <$> cs !! k.
Proof.
  intros Hc He k. destruct (decide (h = k)) as [<-|Hne].
  - rewrite list_lookup_insert_eq by (by eapply lookup_lt_Some). rewrite Hc. cbn. by rewrite He.
  - by rewrite list_lookup_insert_ne.
Qed.

(** ** Ordered sets of handles *)
Section OrderedSet.
Context (less : nat -> nat -> bool).
Hypothesis less_irrefl : forall x, less x x = false.
Hypothesis less_trans : forall x y z, less x y = true -> less y z = true -> less x z = true.

Lemma set_insert_elem (h x : nat) (l : list nat) :
  (forall y, y ∈ l -> y <> h -> less h y = true \/ less y h = true) -> h ∉ l ->
  x ∈ set_insert less h l <-> x = h \/ x ∈ l.
Proof using.
  clear less_irrefl less_trans. intros Hcmp Hh. induction l as [|y l IH]; cbn; [set_solver|].
  destruct (less h y) eqn:E1; [set_solver|]. destruct (less y h) eqn:E2.
  - rewrite !elem_of_cons, IH by set_solver. tauto.
  - destruct (Hcmp y); [set_solver|set_solver|congruence|congruence].
Qed.

Lemma set_insert_sorted (h : nat) (l : list nat) :
  StronglySorted (fun x y => less x y = true) l ->
  StronglySorted (fun x y => less x y = true) (set_insert less h l).
Proof using less_trans.
  induction 1 as [|y l Hl IH Hy]; cbn; [repeat constructor|].
  destruct (less h y) eqn:E1.
  - constructor; [by constructor|]. constructor; [done|].
    eapply List.Forall_impl; [|exact Hy]. cbn. eauto.
  - destruct (less y h) eqn:E2; [|by constructor]. constructor; [done|].
    clear -Hy E2. induction l as [|z l IH]; cbn; [by repeat constructor|].
    apply list.Forall_cons in Hy as [Hz Hy].
    destruct (less h z); [by repeat constructor|].
    destruct (less z h); constructor; auto.
Qed.

Lemma set_erase_elem (h x : nat) (l : list nat) :
  (forall y, y ∈ l -> y <> h -> less h y = true \/ less y h = true) ->
  x ∈ set_erase less h l <-> x ∈ l /\ x <> h.
Proof using less_irrefl.
  intros Hcmp. unfold set_erase. rewrite list_elem_of_In, filter_In, <- list_elem_of_In, orb_true_iff.
  split.
  - intros [Hx Hl]. split; [done|]. intros ->. rewrite !less_irrefl in Hl. naive_solver.
  - intros [Hx Hne]. auto.
Qed.

Lemma set_erase_length (h : nat) (l : list nat) : h ∈ l -> (length (set_erase less h l) < length l)%nat.
Proof using less_irrefl.
  intros Hh. unfold set_erase. induction l as [|y l IH]; [by apply elem_of_nil in Hh|].
  apply elem_of_cons in Hh as [<-|Hh]; cbn.
  - rewrite less_irrefl. cbn. pose proof (filter_length_le (fun x => less h x || less x h) l). lia.
  - specialize (IH Hh). destruct (_ || _); cbn; lia.
Qed.

Lemma strongly_sorted_filter (f : nat -> bool) (l : list nat) :
  StronglySorted (fun x y => less x y = true) l ->
  StronglySorted (fun x y => less x y = true) (List.filter f l).
Proof.
  induction 1 as [|y l Hl IH Hy]; cbn; [constructor|]. destruct (f y); [|done].
  constructor; [done|]. rewrite List.Forall_forall in *. intros x Hx%filter_In. apply Hy, Hx.
Qed.
End OrderedSet.

Lemma ChunkComparator_irrefl (cs : list Chunk) (x : nat) : ChunkComparator cs x x = false.
Proof. unfold ChunkComparator. rewrite Z.eqb_refl. cbn. apply Z.ltb_irrefl. Qed.

Lemma ChunkComparator_spec (cs : list Chunk) (x y : nat) :
  ChunkComparator cs x y = true <->
  size (chunk_at cs x) < size (chunk_at cs y) \/
  (size (chunk_at cs x) = size (chunk_at cs y) /\ ptr (chunk_at cs x) < ptr (chunk_at cs y)).
Proof. unfold ChunkComparator. case_if; zbool; rewrite Z.ltb_lt; lia. Qed.

Lemma ChunkComparator_trans (cs : list Chunk) (x y z : nat) :
  ChunkComparator cs x y = true -> ChunkComparator cs y z = true -> ChunkComparator cs x z = true.
Proof. rewrite !ChunkComparator_spec. lia. Qed.

(** Distinct live chunks are comparable. *)
Lemma ChunkComparator_total (rs : list AllocationRegion) (cs : list Chunk) (h k : nat) (c d : Chunk) :
  live rs cs h c -> live rs cs k d -> k <> h ->
  ChunkComparator cs h k = true \/ ChunkComparator cs k h = true.
Proof.
  intros Hh Hk Hne.
  assert (ptr c <> ptr d) by (intros E; apply Hne; symmetry; by eapply live_ptr_inj).
  rewrite !ChunkComparator_spec. unfold chunk_at. destruct Hh as [-> _], Hk as [-> _]. cbn. lia.
Qed.

Lemma sorted_comparator_ext_in (cs cs' : list Chunk) (l : list nat) :
  (forall x y, x ∈ l -> y ∈ l -> ChunkComparator cs' x y = ChunkComparator cs x y) ->
  StronglySorted (fun x y => ChunkComparator cs x y = true) l ->
  StronglySorted (fun x y => ChunkComparator cs' x y = true) l.
Proof.
  intros Hcmp. induction 1 as [|x l Hl IH Hx]; constructor.
  - apply IH. intros a b Ha Hb. apply Hcmp; by right.
  - rewrite list.Forall_forall in *. intros y Hy.
    rewrite Hcmp; [by apply Hx|by left|by right].
Qed.

Lemma sorted_comparator_ext (cs cs' : list Chunk) (l : list nat) :
  (forall x y, ChunkComparator cs' x y = ChunkComparator cs x y) ->
  StronglySorted (fun x y => ChunkComparator cs x y = true) l ->
  StronglySorted (fun x y => ChunkComparator cs' x y = true) l.
Proof. intros Hcmp. apply sorted_comparator_ext_in. auto. Qed.

(** ** Updates of one chunk *)

Lemma free_path_insert (cs : list Chunk) (fl : option nat) (l : list nat) (h : nat) (c : Chunk) :
  h ∉ l -> free_path cs fl l -> free_path (<[h := c]> cs) fl l.
Proof.
  revert fl. induction l as [|x l IH]; intros fl Hh; cbn; [done|].
  apply not_elem_of_cons in Hh as [Hx Hh].
  intros (-> & d & Hd & Hu & Hb & Hp). split; [done|]. exists d.
  rewrite list_lookup_insert_ne by done. auto.
Qed.

Lemma free_ok_insert (rs : list AllocationRegion) (cs : list Chunk) (fl : option nat) (h : nat)
    (c c' : Chunk) :
  live rs cs h c -> free_ok rs cs fl -> free_ok rs (<[h := c']> cs) fl.
Proof.
  intros [_ Hs] (l & Hp & Hn & Hl). exists l. split; [|done].
  apply free_path_insert; [|done]. intros Hin. by apply (Hl h (ptr c)) in Hin.
Qed.

Lemma dead_ok_insert (rs : list AllocationRegion) (cs : list Chunk) (h : nat) (c c' : Chunk) :
  live rs cs h c -> ptr c' = ptr c -> dead_ok rs cs -> dead_ok rs (<[h := c']> cs).
Proof.
  intros [Hc Hs] Hp Hd k d. destruct (decide (k = h)) as [->|Hne].
  - rewrite list_lookup_insert_eq by (by eapply lookup_lt_Some). intros [= <-]. left. congruence.
  - rewrite list_lookup_insert_ne by done. apply Hd.
Qed.

Section Update.
Context (rs : list AllocationRegion) (cs : list Chunk) (h : nat) (c c' : Chunk).
Hypothesis Hlive : live rs cs h c.
Hypothesis Hsh : shape c' = shape c.

Lemma live_insert (k : nat) (d : Chunk) :
  live rs (<[h := c']> cs) k d <-> (k = h /\ d = c') \/ (k <> h /\ live rs cs k d).
Proof.
  destruct Hlive as [Hc Hs]. pose proof (lookup_lt_Some _ _ _ Hc).
  unfold live. destruct (decide (k = h)) as [->|Hne].
  - rewrite list_lookup_insert_eq by done. unfold shape in Hsh. split.
    + intros [[= <-] _]. auto.
    + intros [[_ ->]|[? _]]; [|done]. split; [done|]. congruence.
  - rewrite list_lookup_insert_ne by done. naive_solver.
Qed.

Lemma comparator_insert (x y : nat) : ChunkComparator (<[h := c']> cs) x y = ChunkComparator cs x y.
Proof.
  apply shape_comparator. apply shape_insert with c; [by destruct Hlive|done].
Qed.

Lemma layout_insert : layout_ok rs cs -> layout_ok rs (<[h := c']> cs).
Proof. apply shape_layout. apply shape_insert with c; [by destruct Hlive|done]. Qed.
End Update.

Lemma set_bin_num_shape (c : Chunk) (b : option nat) : shape (set_bin_num c b) = shape c.
Proof. done. Qed.

Section BinUpdate.
Context {SA : Type}.
Implicit Types s : t SA.

(** Taking a free chunk out of its bin. *)
Lemma unbin_ok s (hold : list nat) (h b : nat) (c : Chunk) (l l' : list nat) :
  heap_ok hold s -> live (regions s) (chunks s) h c -> bin_num c = Some b -> in_use c = false ->
  bins s !! b = Some l -> (forall x, x ∈ l' <-> x ∈ l /\ x <> h) ->
  StronglySorted (fun x y => ChunkComparator (chunks s) x y = true) l' ->
  heap_ok (h :: hold)
    (with_chunks (with_bins s (<[b := l']> (bins s))) (<[h := set_bin_num c None]> (chunks s))).
Proof.
  intros [Hlay [Hlen Hsrt Hel Hbin] [Hst Hex] Hfree Hdead] Hlive Hb Hu Hl Hl' Hsort.
  pose proof (live_insert _ _ _ _ _ Hlive (set_bin_num_shape c None)) as Hli.
  pose proof (comparator_insert _ _ _ _ _ Hlive (set_bin_num_shape c None)) as Hcmp.
  assert (b < length (bins s))%nat as Hblt by (by eapply lookup_lt_Some).
  split; cbn.
  - by apply layout_insert with c.
  - split.
    + by rewrite length_insert.
    + intros b' k Hk. apply (sorted_comparator_ext (chunks s) _ _ Hcmp).
      destruct (decide (b' = b)) as [->|Hne].
      * rewrite list_lookup_insert_eq in Hk by done. by simplify_eq.
      * rewrite list_lookup_insert_ne in Hk by done. by apply (Hsrt b').
    + intros b' k x Hk Hx. setoid_rewrite Hli. destruct (decide (b' = b)) as [->|Hne].
      * rewrite list_lookup_insert_eq in Hk by done. simplify_eq.
        apply Hl' in Hx as [Hx Hxh]. destruct (Hel b l x Hl Hx) as (d & Hd & Hdb). eauto.
      * rewrite list_lookup_insert_ne in Hk by done.
        destruct (Hel b' k x Hk Hx) as (d & Hd & Hdb). exists d. split; [|done]. right.
        split; [|done]. intros ->. destruct Hd as [Hd _], Hlive as [Hc _]. congruence.
    + intros x d b' [[-> ->]|[Hne Hd]]%Hli Hdb; [done|].
      destruct (Hbin x d b' Hd Hdb) as [-> (k & Hk & Hx)]. split; [done|].
      destruct (decide (BinNumForSize (size d) = b)) as [Heq|Hbne].
      * exists l'. rewrite Heq. rewrite list_lookup_insert_eq by done. split; [done|].
        apply Hl'. split; [|done]. congruence.
      * exists k. by rewrite list_lookup_insert_ne by done.
  - split.
    + intros x d [[-> ->]|[Hne Hd]]%Hli.
      * rewrite decide_True by set_solver. done.
      * specialize (Hst x d Hd). destruct (decide (x ∈ h :: hold)); destruct (decide (x ∈ hold));
          set_solver.
    + intros x [->|Hx]%elem_of_cons.
      * exists (set_bin_num c None). apply Hli. auto.
      * destruct (decide (x = h)) as [->|Hne]; [exists (set_bin_num c None); apply Hli; auto|].
        destruct (Hex x Hx) as [d Hd]. exists d. apply Hli. auto.
  - by eapply free_ok_insert.
  - by apply dead_ok_insert with c.
Qed.

Lemma user_insert s (h : nat) (c c' : Chunk) (p : Z) :
  chunks s !! h = Some c -> shape c' = shape c -> requested_size c' = requested_size c ->
  allocation_id c' = allocation_id c -> user (with_chunks s (<[h := c']> (chunks s))) p = user s p.
Proof.
  intros Hc Hsh Hr Hi. unfold user, user_at. cbn. destruct (slot (regions s) p) as [k|]; [|done].
  destruct (decide (h = k)) as [<-|Hne].
  - rewrite list_lookup_insert_eq by (by eapply lookup_lt_Some). rewrite Hc.
    unfold in_use, shape in *. injection Hsh as _ -> _ _. by rewrite Hi, Hr.
  - by rewrite list_lookup_insert_ne.
Qed.

(** A live free chunk that is not held is in the bin of its size. *)
Lemma binned s (hold : list nat) (h : nat) (c : Chunk) :
  heap_ok hold s -> live (regions s) (chunks s) h c -> in_use c = false -> h ∉ hold ->
  exists l, bin_num c = Some (BinNumForSize (size c)) /\ bins s !! BinNumForSize (size c) = Some l /\
    h ∈ l.
Proof.
  intros [_ [_ _ _ Hbin] [Hst _] _ _] Hlive Hu Hh. specialize (Hst h c Hlive).
  rewrite decide_False in Hst by done. destruct (bin_num c) as [b|] eqn:Hb.
  - destruct (Hbin h c b Hlive Hb) as [-> (l & Hl & Hin)]. eauto.
  - destruct Hst as [_ Hst]. rewrite Hst in Hu; done.
Qed.

(** The members of a bin are comparable with every live chunk. *)
Lemma bin_comparable s (hold : list nat) (b h : nat) (c : Chunk) (l : list nat) :
  heap_ok hold s -> live (regions s) (chunks s) h c -> bins s !! b = Some l ->
  forall y, y ∈ l -> y <> h ->
  ChunkComparator (chunks s) h y = true \/ ChunkComparator (chunks s) y h = true.
Proof.
  intros [_ [_ _ Hel _] _ _ _] Hlive Hl y Hy Hne. destruct (Hel b l y Hl Hy) as (d & Hd & _).
  by eapply ChunkComparator_total.
Qed.

(** What the bin operations leave alone. *)
Definition bin_step (h : nat) (b : option nat) s s' : Prop :=
  regions s' = regions s /\ free_chunks_list s' = free_chunks_list s /\ same_rest s s' /\
  (exists c, chunks s !! h = Some c /\ chunks s' = <[h := set_bin_num c b]> (chunks s)).

Lemma RemoveFreeChunkFromBin_ok s (hold : list nat) (h : nat) (c : Chunk) :
  heap_ok hold s -> live (regions s) (chunks s) h c -> in_use c = false -> h ∉ hold ->
  runs (RemoveFreeChunkFromBin h) s (fun _ s' => heap_ok (h :: hold) s' /\ bin_step h None s s').
Proof.
  intros Hok Hlive Hu Hh. destruct (binned s hold h c Hok Hlive Hu Hh) as (l & Hb & Hl & Hin).
  pose proof (bin_comparable s hold _ h c l Hok Hlive Hl) as Hcmp.
  pose proof (ChunkComparator_irrefl (chunks s)) as Hirr.
  unfold RemoveFreeChunkFromBin.
  apply runs_bind. eapply runs_chunk; [exact (proj1 Hlive)|].
  apply runs_bind. apply runs_CHECK.
  { rewrite Hu, bool_decide_eq_true_2; [done|]. by rewrite Hb. }
  apply runs_bind. eapply runs_asks; [exact Hb|].
  apply runs_bind. eapply runs_asks; [exact Hl|].
  apply runs_bind. apply runs_gets. apply runs_bind. apply runs_CHECK.
  { apply Nat.ltb_lt, set_erase_length; done. }
  apply runs_bind. apply runs_modify. eapply runs_modify_chunk; [exact (proj1 Hlive)|].
  split.
  - apply (unbin_ok s hold h _ c l _ Hok Hlive Hb Hu Hl).
    + intros x. by apply set_erase_elem.
    + apply strongly_sorted_filter. destruct Hok as [_ [_ Hsrt _ _] _ _ _]. by apply (Hsrt _ _ Hl).
  - split; [done|]. split; [done|]. split; [done|]. exists c. split; [exact (proj1 Hlive)|done].
Qed.

(** The bins after a held chunk [h] was put into its bin, and the hold without it *)
Lemma bin_insert_bins s (hold : list nat) (h b : nat) (c : Chunk) (l l' : list nat) :
  heap_ok (h :: hold) s -> live (regions s) (chunks s) h c -> bin_num c = None -> b = BinNumForSize (size c) ->
  bins s !! b = Some l -> (forall x, x ∈ l' <-> x = h \/ x ∈ l) ->
  StronglySorted (fun x y => ChunkComparator (<[h := set_bin_num c (Some b)]> (chunks s)) x y = true) l' ->
  bins_ok (regions s) (<[h := set_bin_num c (Some b)]> (chunks s)) (<[b := l']> (bins s)).
Proof.
  intros [Hlay [Hlen Hsrt Hel Hbin] _ _ _] Hlive Hnb Hbc Hl Hl' Hs'.
  pose proof (live_insert _ _ _ _ _ Hlive (set_bin_num_shape c (Some b))) as Hli.
  pose proof (comparator_insert _ _ _ _ _ Hlive (set_bin_num_shape c (Some b))) as Hcins.
  pose proof (lookup_lt_Some _ _ _ Hl) as Hb.
  assert (forall b' k x, bins s !! b' = Some k -> x ∈ k -> x <> h) as Hxh.
  { intros b' k x Hk Hx ->. destruct (Hel b' k h Hk Hx) as (d & [Hd _] & Hdb). destruct Hlive as [Hc _]. congruence. }
  split; cbn.
  - by rewrite length_insert.
  - intros b' k Hk. destruct (decide (b' = b)) as [->|Hne].
    + rewrite list_lookup_insert_eq in Hk by done. by injection Hk as <-.
    + rewrite list_lookup_insert_ne in Hk by done.
      apply (sorted_comparator_ext (chunks s) _ _ Hcins). by apply (Hsrt b').
  - intros b' k x Hk Hx. setoid_rewrite Hli. destruct (decide (b' = b)) as [->|Hne].
    + rewrite list_lookup_insert_eq in Hk by done. injection Hk as <-. apply Hl' in Hx as [->|Hx]; [eauto|].
      destruct (Hel b l x Hl Hx) as (d & Hd & Hdb). exists d. split; [|done]. right. split; [by eapply Hxh|done].
    + rewrite list_lookup_insert_ne in Hk by done.
      destruct (Hel b' k x Hk Hx) as (d & Hd & Hdb). exists d. split; [|done]. right. split; [by eapply Hxh|done].
  - intros x d b' [[-> ->]|[Hne Hd]]%Hli Hdb.
    + cbn in Hdb. injection Hdb as <-. split; [done|]. exists l'.
      rewrite list_lookup_insert_eq by done. split; [done|]. apply Hl'. by left.
    + destruct (Hbin x d b' Hd Hdb) as [-> (k & Hk & Hx)]. split; [done|].
      destruct (decide (BinNumForSize (size d) = b)) as [Heq|Hbne].
      * exists l'. rewrite Heq. rewrite list_lookup_insert_eq by done. split; [done|]. apply Hl'. right. congruence.
      * exists k. by rewrite list_lookup_insert_ne by done.
Qed.

Lemma bin_insert_hold s (hold : list nat) (h b : nat) (c : Chunk) :
  heap_ok (h :: hold) s -> live (regions s) (chunks s) h c -> in_use c = false -> h ∉ hold ->
  hold_ok hold (regions s) (<[h := set_bin_num c (Some b)]> (chunks s)).
Proof.
  intros [_ _ [Hst Hex] _ _] Hlive Hu Hh. pose proof (live_insert _ _ _ _ _ Hlive (set_bin_num_shape c (Some b))) as Hli. split.
  - intros x d [[-> ->]|[Hne Hd]]%Hli.
    + rewrite decide_False by done. cbn. unfold in_use in *. cbn. rewrite Hu. done.
    + specialize (Hst x d Hd). destruct (decide (x ∈ h :: hold)); destruct (decide (x ∈ hold)); set_solver.
  - intros x Hx. destruct (Hex x) as [d Hd]; [set_solver|].
    exists d. apply Hli. right. split; [|done]. intros ->. done.
Qed.

Lemma InsertFreeChunkIntoBin_ok s (hold : list nat) (h : nat) :
  heap_ok (h :: hold) s -> h ∉ hold ->
  runs (InsertFreeChunkIntoBin h) s (fun _ s' => heap_ok hold s' /\
    exists b, bin_step h (Some b) s s').
Proof.
  intros Hok Hh. pose proof Hok as [Hlay [Hlen Hsrt Hel _] [Hst Hex] Hfree Hdead].
  destruct (Hex h) as [c Hlive]; [set_solver|].
  pose proof (Hst h c Hlive) as Hc. rewrite decide_True in Hc by set_solver. destruct Hc as [Hu Hnb].
  set (b := BinNumForSize (size c)).
  assert (b < length (bins s))%nat as Hb by (rewrite Hlen; unfold b, BinNumForSize, kNumBins; lia).
  destruct (lookup_lt_is_Some_2 _ _ Hb) as [l Hl].
  pose proof (bin_comparable s _ b h c l Hok Hlive Hl) as Hcmp.
  assert (h ∉ l) as Hhl.
  { intros Hin. destruct (Hel b l h Hl Hin) as (d & [Hd _] & Hdb). destruct Hlive as [Hc _]. congruence. }
  pose proof (comparator_insert _ _ _ _ _ Hlive (set_bin_num_shape c (Some b))) as Hcins.
  unfold InsertFreeChunkIntoBin.
  apply runs_bind. eapply runs_chunk; [exact (proj1 Hlive)|].
  apply runs_bind. apply runs_CHECK; [by rewrite Hu, bool_decide_eq_true_2|].
  apply runs_bind. eapply runs_modify_chunk; [exact (proj1 Hlive)|]. fold b.
  eapply runs_updates; [cbn; rewrite Hl; cbn; reflexivity|]. cbn.
  split; [|exists b; split; [done|]; split; [done|]; split; [done|]; exists c; split; [exact (proj1 Hlive)|done]].
  split; cbn.
  - by apply layout_insert with c.
  - apply (bin_insert_bins s hold h b c l); try done.
    + intros x. apply set_insert_elem; [|done]. intros y Hy Hne. rewrite !Hcins. auto.
    + apply set_insert_sorted; [apply ChunkComparator_trans|].
      apply (sorted_comparator_ext (chunks s) _ _ Hcins). by apply (Hsrt b).
  - by apply bin_insert_hold.
  - by eapply free_ok_insert.
  - by apply dead_ok_insert with c.
Qed.
End BinUpdate.

(** ** Merging *)

Lemma slots_handle_inj (rs : list AllocationRegion) (cs : list Chunk) (h : nat) (c : Chunk) (q : Z) :
  layout_ok rs cs -> cs !! h = Some c -> slot rs q = Some h -> q = ptr c.
Proof. intros Hlay Hc Hq. destruct (lo_slots _ _ Hlay _ _ Hq) as (d & Hd & <-). congruence. Qed.

Lemma next_same_region (rs : list AllocationRegion) (cs : list Chunk) (h n : nat) (c cn : Chunk)
    (lo hi : Z) :
  layout_ok rs cs -> live rs cs h c -> next c = Some n -> live rs cs n cn ->
  ptr cn = ptr c + size c ->
  bounds rs (ptr c) = Some (lo, hi) -> bounds rs (ptr cn) = Some (lo, hi).
Proof.
  intros Hlay Hl Hn Hln Hp Hb. destruct (lo_chunks _ _ Hlay _ _ Hl) as [Hs _ Hbs _ _ _].
  destruct Hbs as (lo' & hi' & Hb' & _ & Hle & _ & Hend).
  rewrite Hb in Hb'. injection Hb' as <- <-.
  destruct (lo_chunks _ _ Hlay _ _ Hln) as [_ _ (lo2 & hi2 & Hb2 & _) _ _ _].
  destruct (bounds_disjoint rs (ptr c) (ptr cn) lo hi lo2 hi2) as [-> ->]; try done.
  - by apply lo_regions in Hlay.
  - apply bounds_Some in Hb as (r & _ & <- & <- & ?); [|by apply lo_regions in Hlay].
    assert (ptr c + size c <> r_end_ptr r) by (intros E; apply Hend in E; congruence). lia.
Qed.

Lemma next_link (rs : list AllocationRegion) (cs : list Chunk) (h1 h2 : nat) (c1 c2 : Chunk) :
  layout_ok rs cs -> live rs cs h1 c1 -> live rs cs h2 c2 -> next c1 = Some h2 ->
  ptr c2 = ptr c1 + size c1 /\ prev c2 = Some h1 /\ h1 <> h2.
Proof.
  intros Hlay Hl1 Hl2 Hn1. destruct (lo_chunks _ _ Hlay _ _ Hl1) as [Hs _ _ _ Hnx _].
  destruct (Hnx _ Hn1) as (d & Hd & Hp & Hpr).
  assert (d = c2) as -> by (destruct Hd, Hl2; congruence).
  split; [done|]. split; [done|]. intros ->.
  assert (c1 = c2) as -> by (destruct Hl1, Hl2; congruence). lia.
Qed.

Section Merge.
Context (rs rs' : list AllocationRegion) (cs cs' : list Chunk) (h1 h2 : nat) (c1 c2 c1' : Chunk).
Hypothesis Hlay : layout_ok rs cs.
Hypothesis Hl1 : live rs cs h1 c1.
Hypothesis Hl2 : live rs cs h2 c2.
Hypothesis Hn1 : next c1 = Some h2.
Hypothesis Hrs' : regions_ok rs'.
Hypothesis Hslot' : forall q, slot rs' q = if decide (q = ptr c2) then None else slot rs q.
Hypothesis Hbounds' : forall q, bounds rs' q = bounds rs q.
Hypothesis Hcs1 : cs' !! h1 = Some c1'.
Hypothesis Hsh1 : shape c1' = (ptr c1, size c1 + size c2, prev c1, next c2).

(** What happens to the chunks other than the two merged ones. *)
Definition relink (k : nat) (d : Chunk) : Chunk :=
  if decide (next c2 = Some k) then set_prev d (Some h1) else d.

Hypothesis Hcs : forall k, k <> h1 -> k <> h2 -> cs' !! k = relink k <$> cs !! k.

Lemma relink_fields (k : nat) (d : Chunk) :
  ptr (relink k d) = ptr d /\ size (relink k d) = size d /\ next (relink k d) = next d /\
  allocation_id (relink k d) = allocation_id d /\ requested_size (relink k d) = requested_size d /\
  bin_num (relink k d) = bin_num d /\ freed_at_count (relink k d) = freed_at_count d.
Proof. unfold relink. case_decide; done. Qed.

Lemma merge_live1 : live rs' cs' h1 c1'.
Proof.
  destruct (next_link _ _ _ _ _ _ Hlay Hl1 Hl2 Hn1) as (Hp & _ & _). destruct (lo_chunks _ _ Hlay _ _ Hl1) as [Hs _ _ _ _ _].
  unfold shape in Hsh1. split; [done|]. injection Hsh1 as -> _ _ _.
  rewrite Hslot', decide_False by lia. apply Hl1.
Qed.

Lemma merge_live (k : nat) (d : Chunk) :
  live rs cs k d -> k <> h1 -> k <> h2 -> live rs' cs' k (relink k d).
Proof.
  intros [Hd Hs] H1 H2. destruct (relink_fields k d) as (Hp & _). split.
  - rewrite Hcs by done. by rewrite Hd.
  - rewrite Hp, Hslot'. rewrite decide_False; [done|]. intros E.
    apply H2. destruct Hl2 as [_ Hs2]. congruence.
Qed.

Lemma merge_live_inv (k : nat) (d : Chunk) :
  live rs' cs' k d ->
  (k = h1 /\ d = c1') \/ (k <> h1 /\ k <> h2 /\ exists d0, live rs cs k d0 /\ d = relink k d0).
Proof.
  intros [Hd Hs]. rewrite Hslot' in Hs. case_decide as Hp2; [done|].
  destruct (decide (k = h1)) as [->|H1]; [left; split; [done|congruence]|].
  assert (k <> h2) as H2.
  { intros ->. apply Hp2. destruct Hl2 as [Hc2 _]. by eapply slots_handle_inj. }
  right. split; [done|]. split; [done|]. rewrite Hcs in Hd by done.
  apply fmap_Some in Hd as (d0 & Hd0 & ->). exists d0. split; [|done].
  destruct (relink_fields k d0) as (Hp & _). rewrite Hp in Hs. by split.
Qed.

Lemma merged_chunk_ok : chunk_ok rs' cs' h1 c1'.
Proof.
  destruct (next_link _ _ _ _ _ _ Hlay Hl1 Hl2 Hn1) as (Hp2 & Hpr2 & Hne).
  destruct (lo_chunks _ _ Hlay _ _ Hl1) as [Hs1 Hm1 (lo & hi & Hb & Hal & Hle & Hprev & Hnext) Hi1 _ Hv1].
  destruct (lo_chunks _ _ Hlay _ _ Hl2) as [Hs2 Hm2 (lo2 & hi2 & Hb2 & _ & Hle2 & _ & Hnext2) Hi2 Hx2 _].
  pose proof (next_same_region _ _ _ _ _ _ _ _ Hlay Hl1 Hn1 Hl2 Hp2 Hb) as Hb2'.
  rewrite Hb2 in Hb2'. injection Hb2' as -> ->.
  unfold shape in Hsh1. injection Hsh1 as Ep Es Epr En.
  split; rewrite ?Ep, ?Es, ?Epr, ?En.
  - lia.
  - rewrite Z.add_mod, Hm1, Hm2 by lia. done.
  - exists lo, hi. rewrite Hbounds'. rewrite Hnext2, Hp2, Z.add_assoc in *.
    split; [done|]. split; [done|]. split; [lia|]. done.
  - intros q Hq. rewrite Hslot'. case_decide as Hqp; [done|].
    destruct (decide (q < ptr c2)); [apply Hi1; lia|apply Hi2; lia].
  - intros n Hn. destruct (Hx2 n Hn) as (cn & Hln & Hpn & _).
    assert (n <> h1) as Hnh1.
    { intros ->. assert (cn = c1) as -> by (destruct Hln, Hl1; congruence). lia. }
    assert (n <> h2) as Hnh2.
    { intros ->. assert (cn = c2) as -> by (destruct Hln, Hl2; congruence). lia. }
    exists (relink n cn). split; [by apply merge_live|]. destruct (relink_fields n cn) as (-> & _).
    split; [lia|]. unfold relink. by rewrite decide_True.
  - intros m Hm. destruct (Hv1 m Hm) as (cm & Hlm & Hnm).
    destruct (lo_chunks _ _ Hlay _ _ Hlm) as [Hsm _ _ _ Hxm _].
    destruct (Hxm _ Hnm) as (d & Hd & Hpd & _).
    assert (d = c1) as -> by (destruct Hd, Hl1; congruence).
    assert (m <> h1) as Hmh1.
    { intros ->. assert (cm = c1) as -> by (destruct Hlm, Hl1; congruence). lia. }
    assert (m <> h2) as Hmh2.
    { intros ->. assert (cm = c2) as -> by (destruct Hlm, Hl2; congruence). lia. }
    exists (relink m cm). split; [by apply merge_live|]. by destruct (relink_fields m cm) as (_ & _ & -> & _).
Qed.

Lemma other_chunk_ok (k : nat) (d : Chunk) :
  live rs cs k d -> k <> h1 -> k <> h2 -> chunk_ok rs' cs' k (relink k d).
Proof.
  intros Hl H1 H2. destruct (next_link _ _ _ _ _ _ Hlay Hl1 Hl2 Hn1) as (Hp2 & Hpr2 & Hne).
  destruct (lo_chunks _ _ Hlay _ _ Hl) as [Hs Hm (lo & hi & Hb & Hal & Hle & Hprev & Hnext) Hi Hx Hv].
  destruct (relink_fields k d) as (Ep & Es & En & _).
  pose proof (lo_chunks _ _ Hlay _ _ Hl2) as [_ _ _ _ Hx2 _].
  assert (next c2 = Some k -> prev d = Some h2) as Hpd.
  { intros E. destruct (Hx2 k E) as (dk & Hdk & _ & Hprk).
    assert (dk = d) as -> by (destruct Hdk, Hl; congruence). done. }
  split; rewrite ?Ep, ?Es, ?En.
  - done.
  - done.
  - exists lo, hi. rewrite Hbounds'. do 3 (split; [done|]). split; [|done].
    rewrite <- Hprev. unfold relink. case_decide as E; [|done]. rewrite (Hpd E). cbn. done.
  - intros q Hq. rewrite Hslot'. case_decide; [done|auto].
  - intros n Hn. destruct (Hx n Hn) as (cn & Hln & Hpn & Hprn).
    assert (n <> h2) as Hnh2.
    { intros ->. assert (cn = c2) as -> by (destruct Hln, Hl2; congruence). congruence. }
    destruct (decide (n = h1)) as [->|Hnh1].
    + exists c1'. split; [apply merge_live1|]. assert (cn = c1) as -> by (destruct Hln, Hl1; congruence).
      unfold shape in Hsh1. injection Hsh1 as -> _ -> _. done.
    + exists (relink n cn). split; [by apply merge_live|]. destruct (relink_fields n cn) as (-> & _).
      split; [done|]. unfold relink. case_decide as E; [|done].
      destruct (Hx2 n E) as (dn & Hdn & _ & Hprdn).
      assert (dn = cn) as -> by (destruct Hdn, Hln; congruence). congruence.
  - intros m. unfold relink. case_decide as E; cbn.
    + intros [= <-]. exists c1'. split; [apply merge_live1|].
      unfold shape in Hsh1. injection Hsh1 as _ _ _ ->. done.
    + intros Hpm. destruct (Hv m Hpm) as (cm & Hlm & Hnm).
      assert (m <> h1) as Hmh1.
      { intros ->. assert (cm = c1) as -> by (destruct Hlm, Hl1; congruence). congruence. }
      assert (m <> h2) as Hmh2.
      { intros ->. assert (cm = c2) as -> by (destruct Hlm, Hl2; congruence). congruence. }
      exists (relink m cm). split; [by apply merge_live|].
      by destruct (relink_fields m cm) as (_ & _ & -> & _).
Qed.

Lemma merge_layout : layout_ok rs' cs'.
Proof.
  destruct (next_link _ _ _ _ _ _ Hlay Hl1 Hl2 Hn1) as (Hp2 & Hpr2 & Hne). split.
  - done.
  - intros q k Hq. rewrite Hslot' in Hq. case_decide as Hqp; [done|].
    destruct (lo_slots _ _ Hlay _ _ Hq) as (d & Hd & <-).
    destruct (decide (k = h1)) as [->|H1].
    { exists c1'. split; [done|]. unfold shape in Hsh1. injection Hsh1 as -> _ _ _.
      destruct Hl1. congruence. }
    assert (k <> h2) as H2 by (intros ->; destruct Hl2; congruence).
    exists (relink k d). split; [rewrite Hcs by done; by rewrite Hd|]. apply relink_fields.
  - intros q lo hi Hq. rewrite Hbounds' in Hq. rewrite Hslot'. case_decide as E.
    + exfalso. destruct (lo_chunks _ _ Hlay _ _ Hl2) as [_ _ (lo2 & hi2 & Hb2 & _ & _ & Hv & _) _ _ _].
      destruct (bounds_disjoint rs q lo lo hi lo2 hi2) as [-> ->]; [apply Hlay|done|by rewrite E| |].
      * apply bounds_Some in Hq as (r & _ & <- & <- & ?); [lia|apply Hlay].
      * rewrite E in Hv. destruct Hv as [_ Hv]. rewrite Hv in Hpr2 by done. done.
    + by apply (lo_first _ _ Hlay q lo hi).
  - intros k d [[-> ->]|(H1 & H2 & d0 & Hd0 & ->)]%merge_live_inv.
    + apply merged_chunk_ok.
    + by apply other_chunk_ok.
Qed.

(** Bins only hold chunks that keep size and address. *)
Lemma merge_bins (bs : list (list nat)) :
  bin_num c1 = None -> bin_num c2 = None -> bin_num c1' = None ->
  bins_ok rs cs bs -> bins_ok rs' cs' bs.
Proof.
  intros Hb1 Hb2 Hb1' [Hlen Hsrt Hel Hbin].
  assert (forall b l x, bs !! b = Some l -> x ∈ l ->
            exists d, live rs cs x d /\ x <> h1 /\ x <> h2 /\ bin_num d = Some b) as Hmem.
  { intros b l x Hl Hx. destruct (Hel b l x Hl Hx) as (d & Hd & Hdb). exists d.
    split; [done|]. split; [|split; [|done]]; intros ->.
    - assert (d = c1) as -> by (destruct Hd, Hl1; congruence). congruence.
    - assert (d = c2) as -> by (destruct Hd, Hl2; congruence). congruence. }
  split; [done| | |].
  - intros b l Hl. eapply sorted_comparator_ext_in; [|by apply (Hsrt b)].
    intros x y Hx Hy. unfold ChunkComparator, chunk_at.
    destruct (Hmem b l x Hl Hx) as (dx & [Hdx _] & H1x & H2x & _).
    destruct (Hmem b l y Hl Hy) as (dy & [Hdy _] & H1y & H2y & _).
    rewrite !Hcs, Hdx, Hdy by done. cbn.
    destruct (relink_fields x dx) as (-> & -> & _), (relink_fields y dy) as (-> & -> & _). done.
  - intros b l x Hl Hx. destruct (Hmem b l x Hl Hx) as (d & Hd & H1 & H2 & Hdb).
    exists (relink x d). split; [by apply merge_live|].
    destruct (relink_fields x d) as (_ & _ & _ & _ & _ & -> & _). done.
  - intros x d b [[-> ->]|(H1 & H2 & d0 & Hd0 & ->)]%merge_live_inv Hdb; [congruence|].
    destruct (relink_fields x d0) as (_ & Es & _ & _ & _ & Eb & _). rewrite Eb in Hdb. rewrite Es.
    by apply Hbin.
Qed.

Lemma merge_hold (X : list nat) :
  h1 ∉ X -> h2 ∉ X -> in_use c1' = false -> bin_num c1' = None ->
  hold_ok (h1 :: h2 :: X) rs cs -> hold_ok (h1 :: X) rs' cs'.
Proof.
  intros H1X H2X Hu Hb [Hst Hex]. destruct (next_link _ _ _ _ _ _ Hlay Hl1 Hl2 Hn1) as (_ & _ & Hne). split.
  - intros x d [[-> ->]|(H1 & H2 & d0 & Hd0 & ->)]%merge_live_inv.
    + rewrite decide_True by set_solver. done.
    + specialize (Hst x d0 Hd0).
      destruct (relink_fields x d0) as (_ & _ & _ & Ea & _ & Eb & _). unfold in_use in *.
      rewrite Ea, Eb. destruct (decide (x ∈ h1 :: X)); destruct (decide (x ∈ h1 :: h2 :: X)); set_solver.
  - intros x [->|Hx]%elem_of_cons; [exists c1'; apply merge_live1|].
    destruct (Hex x) as [d Hd]; [set_solver|]. exists (relink x d).
    apply merge_live; [done|set_solver|set_solver].
Qed.

Lemma merge_free (fl : option nat) (c2' : Chunk) :
  cs' !! h2 = Some c2' -> in_use c2' = false -> bin_num c2' = None -> next c2' = fl ->
  free_ok rs cs fl -> free_ok rs' cs' (Some h2).
Proof.
  intros Hc2 Hu Hb Hn (l & Hp & Hnd & Hl).
  assert (h2 ∉ l) as H2l. { intros H. apply (Hl h2 (ptr c2)) in H. by destruct Hl2. }
  assert (h1 ∉ l) as H1l. { intros H. apply (Hl h1 (ptr c1)) in H. by destruct Hl1. }
  assert (forall k, k ∈ l -> next c2 <> Some k) as H3l.
  { intros k Hk E. destruct (lo_chunks _ _ Hlay _ _ Hl2) as [_ _ _ _ Hx2 _].
    destruct (Hx2 k E) as (d & [_ Hd] & _). by apply (Hl k (ptr d)) in Hk. }
  exists (h2 :: l). split; [|split].
  - cbn. split; [done|]. exists c2'. do 3 (split; [done|]). rewrite Hn.
    clear Hnd Hl Hc2 Hn. revert fl Hp. induction l as [|x l IH]; intros fl; cbn; [done|].
    intros (-> & d & Hd & Hud & Hbd & Hpd). split; [done|]. exists d.
    apply not_elem_of_cons in H1l as [Hx1 H1l]. apply not_elem_of_cons in H2l as [Hx2 H2l].
    split; [|split; [done|]; split; [done|]; apply IH; auto; intros k Hk; apply H3l; by right].
    rewrite Hcs by done. rewrite Hd. cbn. unfold relink.
    rewrite decide_False; [done|]. apply H3l. by left.
  - by constructor.
  - intros k q [->|Hk]%elem_of_cons; rewrite Hslot'; case_decide as E; try done; [|by apply Hl].
    intros Hq. apply E. destruct Hl2 as [Hc _]. by eapply slots_handle_inj.
Qed.

Lemma merge_dead (c2' : Chunk) :
  cs' !! h2 = Some c2' -> in_use c2' = false -> bin_num c2' = None ->
  dead_ok rs cs -> dead_ok rs' cs'.
Proof.
  intros Hc2 Hu Hb Hd k d Hk.
  destruct (decide (k = h1)) as [->|H1]; [left; destruct merge_live1; congruence|].
  destruct (decide (k = h2)) as [->|H2]; [right; by simplify_eq|].
  rewrite Hcs in Hk by done. apply fmap_Some in Hk as (d0 & Hd0 & ->).
  destruct (relink_fields k d0) as (Ep & _ & _ & Ea & _ & Eb & _). unfold in_use. rewrite Ea, Eb, Ep.
  destruct (Hd k d0 Hd0) as [Hs|Hs]; [left|by right]. rewrite Hslot', decide_False; [done|].
  intros E. apply H2. destruct Hl2 as [_ Hs2]. congruence.
Qed.

Lemma merge_used (c2' : Chunk) :
  cs' !! h2 = Some c2' -> in_use c1 = false -> in_use c2 = false -> in_use c1' = false ->
  in_use c2' = false -> used <$> cs' = used <$> cs.
Proof.
  intros Hc2' H1 H2 H1' H2'. apply list_eq. intros k. rewrite !list_lookup_fmap.
  destruct (decide (k = h1)) as [->|Hk1].
  { destruct Hl1 as [-> _]. rewrite Hcs1. cbn. unfold used. by rewrite H1, H1'. }
  destruct (decide (k = h2)) as [->|Hk2].
  { destruct Hl2 as [-> _]. rewrite Hc2'. cbn. unfold used. by rewrite H2, H2'. }
  rewrite Hcs by done. destruct (cs !! k) as [d|]; [|done]. cbn. unfold used, in_use.
  by destruct (relink_fields k d) as (_ & -> & _ & -> & _).
Qed.

Lemma merge_points (c2' : Chunk) :
  cs' !! h2 = Some c2' -> ptr c2' = ptr c2 ->
  (forall h c, cs !! h = Some c -> slot_point rs (ptr c)) ->
  forall h c, cs' !! h = Some c -> slot_point rs' (ptr c).
Proof.
  intros Hc2' Hp2 Hpt k d Hk.
  assert (exists k0 d0, cs !! k0 = Some d0 /\ ptr d = ptr d0) as (k0 & d0 & Hd0 & ->).
  { destruct (decide (k = h1)) as [->|Hk1].
    { exists h1, c1. unfold shape in Hsh1. split; [apply Hl1|congruence]. }
    destruct (decide (k = h2)) as [->|Hk2].
    { exists h2, c2. split; [apply Hl2|congruence]. }
    rewrite Hcs in Hk by done. apply fmap_Some in Hk as (d0 & Hd0 & ->).
    exists k, d0. split; [done|]. apply relink_fields. }
  destruct (Hpt _ _ Hd0) as (lo & hi & Hb & Hm). exists lo, hi. by rewrite Hbounds'.
Qed.

(** No allocation of the user is touched. *)
Lemma merge_user (p : Z) :
  in_use c1 = false -> in_use c2 = false -> in_use c1' = false ->
  user_at rs' cs' p = user_at rs cs p.
Proof.
  intros Hu1 Hu2 Hu1'. unfold user_at. rewrite Hslot'. case_decide as E.
  - subst p. destruct Hl2 as [Hc ->]. by rewrite Hc, Hu2.
  - destruct (slot rs p) as [k|] eqn:Hs; [|done].
    destruct (decide (k = h1)) as [->|H1]; [destruct Hl1 as [-> _]; by rewrite Hcs1, Hu1, Hu1'|].
    destruct (decide (k = h2)) as [->|H2].
    { exfalso. apply E. destruct Hl2 as [Hc _]. by eapply slots_handle_inj. }
    rewrite Hcs by done. destruct (cs !! k) as [d|]; [|done]. cbn. unfold in_use.
    by destruct (relink_fields k d) as (_ & -> & _ & -> & -> & _).
Qed.
End Merge.

Lemma heap_ok_hold {SA : Type} (X Y : list nat) (s : t SA) :
  (forall x, x ∈ X <-> x ∈ Y) -> heap_ok X s -> heap_ok Y s.
Proof.
  intros HXY [Hl Hb [Hst Hex] Hf Hd]. split; try done. split.
  - intros h c Hc. specialize (Hst h c Hc).
    destruct (decide (h ∈ X)); destruct (decide (h ∈ Y)); naive_solver.
  - intros h Hh. apply Hex, HXY, Hh.
Qed.

(** A chunk of the heap that keeps what the coalescing decisions look at. *)
Definition same_chunk (d d' : Chunk) : Prop :=
  ptr d' = ptr d /\ size d' = size d /\ allocation_id d' = allocation_id d /\
  requested_size d' = requested_size d /\ freed_at_count d' = freed_at_count d.

Section Coalesce.
Context {SA : Type}.
Implicit Types s : t SA.

(** The record that [Merge] leaves for the first chunk. *)
Definition merged (c1 c2 : Chunk) : Chunk :=
  set_freed_at_count (set_size (set_next c1 (next c2)) (wrap_u64 (size c1 + size c2)))
    (Z.max (freed_at_count c1) (freed_at_count c2)).

(** What coalescing keeps: the rest of the allocator, the user's allocations, and the record of
    every chunk not in [gone]. *)
Record heap_step (gone : list nat) s s' : Prop := {
  hs_rest : same_rest s s';
  hs_keeps : keeps s s';
  hs_live : forall k d, k ∉ gone -> live (regions s) (chunks s) k d ->
    exists d', live (regions s') (chunks s') k d' /\ same_chunk d d'
}.

(** The chunks after [Merge] has relinked the chunk after the second one *)
Definition merge_links (cs : list Chunk) (h1 : nat) (c1 c2 : Chunk) : list Chunk :=
  match next c2 with
  | Some h3 => <[h3 := set_prev (chunk_at cs h3) (Some h1)]> (<[h1 := set_next c1 (next c2)]> cs)
  | None => <[h1 := set_next c1 (next c2)]> cs
  end.

Section MergeLinks.
Context (rs : list AllocationRegion) (cs : list Chunk) (h1 h2 : nat) (c1 c2 : Chunk).
Context (Hlay : layout_ok rs cs) (Hl1 : live rs cs h1 c1) (Hl2 : live rs cs h2 c2) (Hn1 : next c1 = Some h2).

Lemma third_chunk h3 : next c2 = Some h3 -> h3 <> h1 /\ h3 <> h2 /\ exists c3, cs !! h3 = Some c3.
Proof.
  intros En. destruct (next_link _ _ _ _ _ _ Hlay Hl1 Hl2 Hn1) as (Hp2 & _ & _).
  destruct (ck_next _ _ _ _ (lo_chunks _ _ Hlay _ _ Hl2) _ En) as (c3 & Hl3 & Hp3 & _).
  pose proof (live_range _ _ Hlay _ _ Hl2). pose proof (live_range _ _ Hlay _ _ Hl1).
  split; [|split; [|exists c3; apply Hl3]]; intros ->;
    [assert (c3 = c1) as -> by (destruct Hl3, Hl1; congruence)
    |assert (c3 = c2) as -> by (destruct Hl3, Hl2; congruence)]; lia.
Qed.

Lemma merge_links_length : length (merge_links cs h1 c1 c2) = length cs.
Proof. unfold merge_links. destruct (next c2); by rewrite ?length_insert. Qed.

Lemma merge_links_first : merge_links cs h1 c1 c2 !! h1 = Some (set_next c1 (next c2)).
Proof.
  pose proof (lookup_lt_Some _ _ _ (proj1 Hl1)). unfold merge_links. destruct (next c2) as [h3|] eqn:En.
  - destruct (third_chunk h3 En) as (? & _). rewrite list_lookup_insert_ne by done. by apply list_lookup_insert_eq.
  - by apply list_lookup_insert_eq.
Qed.

Lemma merge_links_other k : k <> h1 -> merge_links cs h1 c1 c2 !! k = relink h1 c2 k <$> cs !! k.
Proof.
  intros Hk. unfold merge_links, relink. destruct (next c2) as [h3|] eqn:En.
  - destruct (third_chunk h3 En) as (? & ? & c3 & Hc3). destruct (decide (h3 = k)) as [->|Hn3].
    + rewrite list_lookup_insert_eq by (rewrite length_insert; by eapply lookup_lt_Some).
      unfold chunk_at. rewrite Hc3. cbn. by rewrite decide_True.
    + rewrite !list_lookup_insert_ne by done. destruct (cs !! k); [cbn|done]. by rewrite decide_False by congruence.
  - rewrite list_lookup_insert_ne by done. destruct (cs !! k); [cbn|done]. by rewrite decide_False.
Qed.

Lemma merge_links_second : merge_links cs h1 c1 c2 !! h2 = Some c2.
Proof.
  destruct (next_link _ _ _ _ _ _ Hlay Hl1 Hl2 Hn1) as (_ & _ & Hne). rewrite merge_links_other by done.
  destruct Hl2 as [-> _]. cbn. unfold relink. rewrite decide_False; [done|]. intros E. by destruct (third_chunk h2 E) as (_ & ? & _).
Qed.
End MergeLinks.

(** The run of [Merge] as one state change. *)
Lemma Merge_run s (h1 h2 : nat) (c1 c2 : Chunk) :
  layout_ok (regions s) (chunks s) ->
  live (regions s) (chunks s) h1 c1 -> live (regions s) (chunks s) h2 c2 -> next c1 = Some h2 ->
  in_use c1 = false -> in_use c2 = false ->
  exists cs',
    (forall Q, (forall rs', regions_ok rs' ->
       (forall q, slot rs' q = if decide (q = ptr c2) then None else slot (regions s) q) ->
       (forall q, bounds rs' q = bounds (regions s) q) ->
       Q tt (with_free_list (with_chunks (with_regions s rs') cs') (Some h2))) ->
     runs (Merge h1 h2) s Q) /\
    (forall k, k <> h1 -> k <> h2 -> cs' !! k = relink h1 c2 k <$> chunks s !! k) /\
    cs' !! h1 = Some (merged c1 c2) /\
    cs' !! h2 = Some (set_next (set_bin_num (set_allocation_id c2 (-1)) None) (free_chunks_list s)).
Proof.
  intros Hlay Hl1 Hl2 Hn1 Hu1 Hu2. destruct (next_link _ _ _ _ _ _ Hlay Hl1 Hl2 Hn1) as (Hp2 & Hpr2 & Hne).
  pose proof (lookup_lt_Some _ _ _ (proj1 Hl1)) as Hlt1.
  set (L2 := merge_links (chunks s) h1 c1 c2).
  assert (length L2 = length (chunks s)) as Hlen2 by apply merge_links_length.
  set (L3 := <[h1 := set_size (set_next c1 (next c2)) (wrap_u64 (size c1 + size c2))]> L2). set (L4 := <[h1 := merged c1 c2]> L3).
  assert (L4 !! h2 = Some c2) as HL42.
  { unfold L4, L3. rewrite !list_lookup_insert_ne by done. by eapply merge_links_second. }
  exists (<[h2 := set_next (set_bin_num (set_allocation_id c2 (-1)) None) (free_chunks_list s)]> L4). split; [|split; [|split]].
  - intros Q HQ. unfold Merge.
    apply runs_bind. eapply runs_chunk; [exact (proj1 Hl1)|].
    apply runs_bind. eapply runs_chunk; [exact (proj1 Hl2)|].
    apply runs_bind. apply runs_CHECK; [by rewrite Hu1, Hu2|].
    apply runs_bind. eapply runs_modify_chunk; [exact (proj1 Hl1)|].
    apply runs_bind. apply runs_CHECK; [by apply bool_decide_eq_true_2|].
    apply runs_bind. apply (runs_mono _ _ (fun _ s' => s' = with_chunks s L2)).
    { unfold L2, merge_links. destruct (next c2) as [h3|] eqn:En; [|by apply runs_mret].
      destruct (third_chunk _ _ _ _ _ _ Hlay Hl1 Hl2 Hn1 h3 En) as (? & ? & c3 & Hc3). unfold chunk_at. rewrite Hc3.
      eapply runs_modify_chunk; [|done]. cbn. by rewrite list_lookup_insert_ne. }
    intros _ s' ->.
    apply runs_bind. eapply runs_modify_chunk; [by eapply merge_links_first|].
    apply runs_bind. eapply runs_modify_chunk; [cbn; apply list_lookup_insert_eq; by rewrite Hlen2|].
    unfold DeleteChunk. apply runs_bind. eapply runs_chunk; [exact HL42|].
    apply runs_bind. apply runs_set_handle; [apply Hlay|by eapply live_slot_point|].
    intros rs' Hr Hs Hb. unfold DeallocateChunk. apply runs_bind. apply runs_gets.
    apply runs_bind. eapply runs_modify_chunk; [exact HL42|]. apply runs_modify. by apply HQ.
  - intros k H1 H2. unfold L4, L3. rewrite !list_lookup_insert_ne by done. by eapply merge_links_other.
  - rewrite list_lookup_insert_ne by done. unfold L4. apply list_lookup_insert_eq. unfold L3. by rewrite length_insert, Hlen2.
  - apply list_lookup_insert_eq. by eapply lookup_lt_Some.
Qed.

(** A free chunk that may be merged without looking at timestamps. *)
Definition safe_free (c : Chunk) : Prop := in_use c = false /\ freed_at_count c = 0.

(** No two adjacent chunks outside [E] are both safe to merge. *)
Definition coalesced (E : list nat) s : Prop :=
  forall k d k' d', k ∉ E -> k' ∉ E ->
    live (regions s) (chunks s) k d -> live (regions s) (chunks s) k' d' ->
    next d = Some k' -> safe_free d -> safe_free d' -> False.

Lemma Merge_ok s (X : list nat) (h1 h2 : nat) (c1 c2 : Chunk) :
  heap_ok (h1 :: h2 :: X) s -> h1 ∉ X -> h2 ∉ X ->
  live (regions s) (chunks s) h1 c1 -> live (regions s) (chunks s) h2 c2 -> next c1 = Some h2 ->
  runs (Merge h1 h2) s (fun _ s' => heap_ok (h1 :: X) s' /\ heap_step [h1; h2] s s' /\
    (forall E, coalesced (h1 :: h2 :: E) s -> coalesced (h1 :: E) s') /\
    live (regions s') (chunks s') h1 (merged c1 c2)).
Proof.
  intros [Hlay Hbins Hhold Hfree Hdead] H1X H2X Hl1 Hl2 Hn1.
  pose proof (live_range _ _ Hlay _ _ Hl2) as Hr2. pose proof (live_range _ _ Hlay _ _ Hl1) as Hr1.
  pose proof (proj1 Hhold h1 c1 Hl1) as Hh1. rewrite decide_True in Hh1 by set_solver.
  pose proof (proj1 Hhold h2 c2 Hl2) as Hh2. rewrite decide_True in Hh2 by set_solver.
  destruct Hh1 as [Hu1 Hb1], Hh2 as [Hu2 Hb2].
  destruct (Merge_run s h1 h2 c1 c2 Hlay Hl1 Hl2 Hn1 Hu1 Hu2) as (cs' & Hrun & Hcs & Hcs1 & Hcs2).
  apply Hrun. intros rs' Hrs' Hslot' Hbounds'.
  assert (shape (merged c1 c2) = (ptr c1, size c1 + size c2, prev c1, next c2)) as Hsh.
  { unfold merged, shape. cbn. by rewrite wrap_u64_id by (unfold in_u64; lia). }
  assert (bin_num (merged c1 c2) = None) as Hb1' by exact Hb1.
  assert (in_use (merged c1 c2) = false) as Hu1' by exact Hu1.
  assert (used <$> cs' = used <$> chunks s) as Hused
    by (by eapply (merge_used (regions s) (chunks s) cs' h1 h2 c1 c2)).
  split; [split; cbn|split; [split; cbn|split; cbn]].
  - by apply (merge_layout (regions s) rs' (chunks s) cs' h1 h2 c1 c2 (merged c1 c2)).
  - by apply (merge_bins (regions s) rs' (chunks s) cs' h1 h2 c1 c2 (merged c1 c2)).
  - by apply (merge_hold (regions s) rs' (chunks s) cs' h1 h2 c1 c2 (merged c1 c2)).
  - by eapply (merge_free (regions s) rs' (chunks s) cs' h1 h2 c1 c2).
  - by eapply (merge_dead (regions s) rs' (chunks s) cs' h1 h2 c1 c2).
  - by split.
  - split.
    + intros p. unfold user. cbn. by apply (merge_user (regions s) rs' (chunks s) cs' h1 h2 c1 c2 (merged c1 c2)).
    + unfold used_bytes. cbn. by rewrite Hused.
    + unfold points_ok. cbn. by eapply (merge_points (regions s) rs' (chunks s) cs' h1 h2 c1 c2).
    + done.
    + cbn. apply (f_equal length) in Hused. rewrite !length_fmap in Hused. lia.
  - intros k d Hk Hd. exists (relink h1 c2 k d). split.
    + eapply (merge_live _ _ _ _ h1 h2 c1 c2); try done; set_solver.
    + destruct (relink_fields h1 c2 k d) as (? & ? & ? & ? & ? & ? & ?). by repeat split.
  - intros E HE k d k' d' Hk Hk' Hd Hd' Hnx Hsf Hsf'.
    assert (forall k d, live rs' cs' k d -> (k = h1 /\ d = merged c1 c2) \/ (k <> h1 /\ k <> h2 /\
              exists d0, live (regions s) (chunks s) k d0 /\ d = relink h1 c2 k d0)) as Hinv
      by (intros x y; by apply merge_live_inv).
    apply Hinv in Hd as [[-> _]|(Hk1 & Hk2 & d0 & Hd0 & ->)]; [set_solver|].
    apply Hinv in Hd' as [[-> _]|(Hk1' & Hk2' & d0' & Hd0' & ->)]; [set_solver|].
    unfold safe_free, in_use in *.
    destruct (relink_fields h1 c2 k d0) as (_ & _ & En & Ea & _ & _ & Ef).
    destruct (relink_fields h1 c2 k' d0') as (_ & _ & _ & Ea' & _ & _ & Ef').
    rewrite En in Hnx. rewrite Ea, Ef in Hsf. rewrite Ea', Ef' in Hsf'.
    apply (HE k d0 k' d0'); set_solver.
  - by apply (merge_live1 (regions s) rs' (chunks s) cs' h1 h2 c1 c2 (merged c1 c2)).
Qed.
End Coalesce.
