(* ===== verification/BfcSplit.v ===== *)
(** * Splitting a chunk of the BFC allocator

    The layout lemmas of [SplitChunk] and of the chunk entries that
    [AllocateChunk] hands out: cutting a free chunk in two keeps the layout,
    the bins, the unused entries and the user's allocations. *)

From S2P Require Import Prelude BfcRegion Bfc BfcInv.
Import Region Bfc.

(** ** Entries handed out by [AllocateChunk] *)

(** The list of unused entries, which does not contain [h]. *)
Definition free_without (h : nat) (rs : list AllocationRegion) (cs : list Chunk) (fl : option nat)
    : Prop :=
  exists l, free_path cs fl l /\ NoDup l /\ (h ∉ l) /\ forall k q, k ∈ l -> slot rs q <> Some k.

(** What is known of an entry [h] with record [cn] that [AllocateChunk] returned: [cs] is the
    vector before and [cs0] after the call. *)
Record fresh_entry (rs : list AllocationRegion) (cs cs0 : list Chunk) (fl : option nat) (h : nat)
    (cn : Chunk) : Prop := {
  fe_entry : cs0 !! h = Some cn;
  fe_unused : in_use cn = false;
  fe_unbinned : bin_num cn = None;
  fe_unregistered : forall q, slot rs q <> Some h;
  fe_others : forall k, k <> h -> cs0 !! k = cs !! k;
  fe_used : foldr Z.add 0 (used <$> cs0) = foldr Z.add 0 (used <$> cs);
  fe_length : (length cs <= length cs0)%nat;
  fe_free : free_without h rs cs0 fl
}.

Lemma free_path_app (cs : list Chunk) (x : Chunk) (fl : option nat) (l : list nat) :
  free_path cs fl l -> free_path (cs ++ [x]) fl l.
Proof.
  revert fl. induction l as [|h l IH]; intros fl; cbn; [done|].
  intros (-> & c & Hc & Hu & Hb & Hp). split; [done|]. exists c.
  rewrite lookup_app_l by (by eapply lookup_lt_Some). auto.
Qed.

Lemma foldr_add_app (l k : list Z) : foldr Z.add 0 (l ++ k) = foldr Z.add 0 l + foldr Z.add 0 k.
Proof. induction l as [|x l IH]; cbn; [done|]. rewrite IH. lia. Qed.

Lemma with_id {SA : Type} (s : t SA) : with_free_list (with_chunks s (chunks s)) (free_chunks_list s) = s.
Proof. by destruct s. Qed.

Lemma AllocateChunk_run {SA : Type} (s : t SA) :
  layout_ok (regions s) (chunks s) -> free_ok (regions s) (chunks s) (free_chunks_list s) ->
  exists h cn cs0 fl,
    AllocateChunk s = Some (h, with_free_list (with_chunks s cs0) fl) /\
    fresh_entry (regions s) (chunks s) cs0 fl h cn.
Proof.
  intros Hlay (l & Hp & Hnd & Hl). unfold AllocateChunk. destruct l as [|h l]; cbn in Hp.
  - rewrite Hp. exists (length (chunks s)), new_chunk, (chunks s ++ [new_chunk]), None.
    split; [destruct s; cbn in *; by subst|].
    split; try done.
    + rewrite lookup_app_r, Nat.sub_diag by done. done.
    + intros q Hq. destruct (lo_slots _ _ Hlay _ _ Hq) as (c & Hc & _).
      apply lookup_lt_Some in Hc. lia.
    + intros k Hk. destruct (decide (k < length (chunks s))%nat).
      * by apply lookup_app_l.
      * rewrite !lookup_ge_None_2; [done|lia|rewrite length_app; cbn; lia].
    + rewrite fmap_app, foldr_add_app. cbn. lia.
    + rewrite length_app. lia.
    + exists []. set_solver.
  - destruct Hp as (-> & c & Hc & Hu & Hb & Hp). apply NoDup_cons in Hnd as [Hh Hnd].
    exists h, c, (chunks s), (next c). rewrite Hc. cbn. split; [by destruct s|].
    split; try done.
    + intros q. apply Hl. by left.
    + exists l. split; [done|]. split; [done|]. split; [done|]. intros k q Hk. apply Hl. by right.
Qed.

Lemma free_without_insert (h : nat) (rs : list AllocationRegion) (cs : list Chunk) (fl : option nat)
    (c : Chunk) :
  free_without h rs cs fl -> free_without h rs (<[h := c]> cs) fl.
Proof.
  intros (l & Hp & Hnd & Hh & Hl). exists l. split; [by apply free_path_insert|]. done.
Qed.

Section Split.
Context (rs rs' : list AllocationRegion) (cs cs' : list Chunk) (h hn : nat) (c c' cn : Chunk) (n : Z).
Hypothesis Hlay : layout_ok rs cs.
Hypothesis Hl : live rs cs h c.
Hypothesis Hn : 0 < n < size c.
Hypothesis Hmul : n mod 256 = 0.
Hypothesis Hfresh : forall q, slot rs q <> Some hn.
Hypothesis Hrs' : regions_ok rs'.
Hypothesis Hslot' : forall q, slot rs' q = if decide (q = ptr c + n) then Some hn else slot rs q.
Hypothesis Hbounds' : forall q, bounds rs' q = bounds rs q.
Hypothesis Hcs1 : cs' !! h = Some c'.
Hypothesis Hsh1 : shape c' = (ptr c, n, prev c, Some hn).
Hypothesis Hcsn : cs' !! hn = Some cn.
Hypothesis Hshn : shape cn = (ptr c + n, size c - n, Some h, next c).
Hypothesis Hcs : forall k, k <> h -> k <> hn -> cs' !! k = relink hn c k <$> cs !! k.

Lemma split_ne : h <> hn.
Proof using Hl Hfresh. clear -Hl Hfresh. intros ->. by apply (Hfresh (ptr c)), Hl. Qed.

Lemma split_live1 : live rs' cs' h c'.
Proof using Hl Hn Hslot' Hcs1 Hsh1.
  unfold shape in Hsh1. split; [done|]. injection Hsh1 as -> _ _ _.
  rewrite Hslot', decide_False by lia. apply Hl.
Qed.

Lemma split_liven : live rs' cs' hn cn.
Proof using Hslot' Hcsn Hshn.
  unfold shape in Hshn. split; [done|]. injection Hshn as -> _ _ _. by rewrite Hslot', decide_True.
Qed.

Lemma split_hole : slot rs (ptr c + n) = None.
Proof using Hlay Hl Hn. apply (ck_inside _ _ _ _ (lo_chunks _ _ Hlay _ _ Hl)). lia. Qed.

Lemma split_live (k : nat) (d : Chunk) :
  live rs cs k d -> k <> h -> live rs' cs' k (relink hn c k d).
Proof using Hlay Hl Hn Hfresh Hslot' Hcs.
  intros [Hd Hs] H1. destruct (relink_fields hn c k d) as (Hp & _).
  assert (k <> hn) by (intros ->; by apply (Hfresh (ptr d))). split.
  - rewrite Hcs by done. by rewrite Hd.
  - rewrite Hp, Hslot'. rewrite decide_False; [done|]. intros E. rewrite E, split_hole in Hs. done.
Qed.

Lemma split_live_inv (k : nat) (d : Chunk) :
  live rs' cs' k d ->
  (k = h /\ d = c') \/ (k = hn /\ d = cn) \/
  (k <> h /\ k <> hn /\ exists d0, live rs cs k d0 /\ d = relink hn c k d0).
Proof using Hlay Hslot' Hcs1 Hcsn Hcs Hfresh.
  intros [Hd Hs]. rewrite Hslot' in Hs.
  destruct (decide (k = hn)) as [->|H2]; [right; left; split; [done|congruence]|].
  destruct (decide (k = h)) as [->|H1]; [left; split; [done|congruence]|].
  case_decide as Hp2; [congruence|].
  right; right. split; [done|]. split; [done|]. rewrite Hcs in Hd by done.
  apply fmap_Some in Hd as (d0 & Hd0 & ->). exists d0. split; [|done].
  destruct (relink_fields hn c k d0) as (Hp & _). rewrite Hp in Hs. by split.
Qed.

Lemma split_chunk_ok1 : chunk_ok rs' cs' h c'.
Proof.
  destruct (lo_chunks _ _ Hlay _ _ Hl) as [Hs Hm (lo & hi & Hb & Hal & Hle & Hprev & Hnext) Hi _ Hv].
  pose proof split_liven as Hln. pose proof Hsh1 as E. pose proof Hshn as En.
  unfold shape in E, En. injection E as Ep Es Epr Enx. injection En as Epn Esn Eprn Enn.
  split; rewrite ?Ep, ?Es, ?Epr, ?Enx.
  - lia.
  - done.
  - exists lo, hi. rewrite Hbounds'. split; [done|]. split; [done|]. split; [lia|]. split; [done|].
    split; [done|]. lia.
  - intros q Hq. rewrite Hslot', decide_False by lia. apply Hi. lia.
  - intros m [= <-]. exists cn. by rewrite Epn, Eprn.
  - intros m Hpm. destruct (Hv m Hpm) as (cm & Hlm & Hnm).
    destruct (next_link _ _ _ _ _ _ Hlay Hlm Hl Hnm) as (_ & _ & Hmh).
    exists (relink hn c m cm). split; [by apply split_live|].
    by destruct (relink_fields hn c m cm) as (_ & _ & -> & _).
Qed.

Lemma split_chunk_okn : chunk_ok rs' cs' hn cn.
Proof.
  destruct (lo_chunks _ _ Hlay _ _ Hl) as [Hs Hm (lo & hi & Hb & Hal & Hle & Hprev & Hnext) Hi Hx _].
  pose proof split_live1 as Hl1. pose proof Hsh1 as E. pose proof Hshn as En.
  unfold shape in E, En. injection E as Ep Es Epr Enx. injection En as Epn Esn Eprn Enn.
  pose proof (lo_regions _ _ Hlay) as Hrs.
  split; rewrite ?Epn, ?Esn, ?Eprn, ?Enn.
  - lia.
  - rewrite Zminus_mod, Hm, Hmul. done.
  - exists lo, hi. rewrite Hbounds'. replace (ptr c + n + (size c - n)) with (ptr c + size c) by lia.
    pose proof Hb as Hb0. apply bounds_Some in Hb0 as (r & Hin & <- & <- & Hr); [|done].
    split; [apply bounds_Some; [done|]; exists r; repeat split; [done|lia|lia]|].
    replace (ptr c + n - r_ptr r) with ((ptr c - r_ptr r) + n) by lia.
    split; [by rewrite Z.add_mod, Hal, Hmul by lia|]. split; [done|]. split; [|done].
    split; [done|]. lia.
  - intros q Hq. rewrite Hslot', decide_False by lia. apply Hi. lia.
  - intros m Hnm. destruct (Hx m Hnm) as (cm & Hlm & Hpm & Hprm).
    destruct (next_link _ _ _ _ _ _ Hlay Hl Hlm Hnm) as (_ & _ & Hmh).
    exists (relink hn c m cm). split; [by apply split_live|].
    destruct (relink_fields hn c m cm) as (-> & _). split; [lia|].
    unfold relink. by rewrite decide_True.
  - intros m [= <-]. by exists c'.
Qed.

Lemma split_chunk_ok_other (k : nat) (d : Chunk) :
  live rs cs k d -> k <> h -> chunk_ok rs' cs' k (relink hn c k d).
Proof.
  intros Hk Hkh.
  destruct (lo_chunks _ _ Hlay _ _ Hk) as [Hs Hm (lo & hi & Hb & Hal & Hle & Hprev & Hnext) Hi Hx Hv].
  destruct (lo_chunks _ _ Hlay _ _ Hl) as [_ _ _ _ Hxh _].
  destruct (relink_fields hn c k d) as (Ep & Es & Enx & _).
  pose proof split_live1 as Hl1. pose proof split_liven as Hln. pose proof Hsh1 as E. pose proof Hshn as En.
  unfold shape in E, En. injection E as Ep1 Es1 Epr1 Enx1. injection En as Epn Esn Eprn Enn.
  assert (next c = Some k -> prev d = Some h) as Hpd.
  { intros E. destruct (Hxh k E) as (dk & Hdk & _ & Hprk).
    assert (dk = d) as -> by (destruct Hdk, Hk; congruence). done. }
  split; rewrite ?Ep, ?Es, ?Enx.
  - done.
  - done.
  - exists lo, hi. rewrite Hbounds'. do 3 (split; [done|]). split; [|done].
    rewrite <- Hprev. unfold relink. case_decide as E; [|done]. rewrite (Hpd E). cbn. done.
  - intros q Hq. rewrite Hslot'. case_decide as Eq; [|auto]. exfalso. subst q.
    pose proof (live_disjoint _ _ Hlay k h d c Hk Hl Hkh). lia.
  - intros m Hnm. destruct (Hx m Hnm) as (cm & Hlm & Hpm & Hprm).
    destruct (decide (m = h)) as [->|Hmh].
    + exists c'. split; [done|]. assert (cm = c) as -> by (destruct Hlm, Hl; congruence).
      by rewrite Ep1, Epr1.
    + exists (relink hn c m cm). split; [by apply split_live|].
      destruct (relink_fields hn c m cm) as (-> & _). split; [done|].
      unfold relink. case_decide as E; [|done]. exfalso.
      destruct (Hxh m E) as (dm & Hdm & _ & Hprdm).
      assert (dm = cm) as -> by (destruct Hdm, Hlm; congruence). congruence.
  - intros m. unfold relink. case_decide as E; cbn.
    + intros [= <-]. exists cn. by rewrite Enn.
    + intros Hpm. destruct (Hv m Hpm) as (cm & Hlm & Hnm).
      assert (m <> h) as Hmh.
      { intros ->. assert (cm = c) as -> by (destruct Hlm, Hl; congruence). congruence. }
      exists (relink hn c m cm). split; [by apply split_live|].
      by destruct (relink_fields hn c m cm) as (_ & _ & -> & _).
Qed.

Lemma split_layout : layout_ok rs' cs'.
Proof.
  split.
  - done.
  - intros q k Hq. rewrite Hslot' in Hq. case_decide as Hqp.
    { injection Hq as <-. exists cn. split; [done|]. unfold shape in Hshn. congruence. }
    destruct (lo_slots _ _ Hlay _ _ Hq) as (d & Hd & <-).
    destruct (decide (k = h)) as [->|H1].
    { exists c'. split; [done|]. unfold shape in Hsh1. destruct Hl. congruence. }
    assert (k <> hn) as H2 by (intros ->; by apply (Hfresh (ptr d))).
    exists (relink hn c k d). split; [rewrite Hcs by done; by rewrite Hd|]. apply relink_fields.
  - intros q lo hi Hq. rewrite Hbounds' in Hq. rewrite Hslot'. case_decide; [done|].
    by apply (lo_first _ _ Hlay q lo hi).
  - intros k d [[-> ->]|[[-> ->]|(H1 & H2 & d0 & Hd0 & ->)]]%split_live_inv.
    + apply split_chunk_ok1.
    + apply split_chunk_okn.
    + by apply split_chunk_ok_other.
Qed.

Lemma split_bins (bs : list (list nat)) :
  bin_num c = None -> bin_num c' = None -> bin_num cn = None ->
  bins_ok rs cs bs -> bins_ok rs' cs' bs.
Proof.
  intros Hb Hb' Hbn [Hlen Hsrt Hel Hbin].
  assert (forall b l x, bs !! b = Some l -> x ∈ l ->
            exists d, live rs cs x d /\ x <> h /\ x <> hn /\ bin_num d = Some b) as Hmem.
  { intros b l x Hbl Hx. destruct (Hel b l x Hbl Hx) as (d & Hd & Hdb). exists d.
    split; [done|]. split; [|split; [|done]]; intros ->.
    - assert (d = c) as -> by (destruct Hd, Hl; congruence). congruence.
    - destruct Hd as [_ Hd]. by apply (Hfresh (ptr d)). }
  split; [done| | |].
  - intros b l Hbl. eapply sorted_comparator_ext_in; [|by apply (Hsrt b)].
    intros x y Hx Hy. unfold ChunkComparator, chunk_at.
    destruct (Hmem b l x Hbl Hx) as (dx & [Hdx _] & H1x & H2x & _).
    destruct (Hmem b l y Hbl Hy) as (dy & [Hdy _] & H1y & H2y & _).
    rewrite !Hcs, Hdx, Hdy by done. cbn.
    destruct (relink_fields hn c x dx) as (-> & -> & _), (relink_fields hn c y dy) as (-> & -> & _). done.
  - intros b l x Hbl Hx. destruct (Hmem b l x Hbl Hx) as (d & Hd & H1 & H2 & Hdb).
    exists (relink hn c x d). split; [by apply split_live|].
    destruct (relink_fields hn c x d) as (_ & _ & _ & _ & _ & -> & _). done.
  - intros x d b [[-> ->]|[[-> ->]|(H1 & H2 & d0 & Hd0 & ->)]]%split_live_inv Hdb; [congruence..|].
    destruct (relink_fields hn c x d0) as (_ & Es & _ & _ & _ & Eb & _). rewrite Eb in Hdb. rewrite Es.
    by apply Hbin.
Qed.

Lemma split_hold (X : list nat) :
  in_use c' = false -> bin_num c' = None -> in_use cn = false -> bin_num cn = None ->
  hold_ok (h :: X) rs cs -> hold_ok (hn :: h :: X) rs' cs'.
Proof.
  intros Hu Hb Hun Hbn [Hst Hex]. split.
  - intros x d [[-> ->]|[[-> ->]|(H1 & H2 & d0 & Hd0 & ->)]]%split_live_inv.
    + rewrite decide_True by set_solver. done.
    + rewrite decide_True by set_solver. done.
    + specialize (Hst x d0 Hd0).
      destruct (relink_fields hn c x d0) as (_ & _ & _ & Ea & _ & Eb & _). unfold in_use in *.
      rewrite Ea, Eb. destruct (decide (x ∈ hn :: h :: X)); destruct (decide (x ∈ h :: X)); set_solver.
  - intros x [->|Hx]%elem_of_cons; [exists cn; apply split_liven|].
    destruct (decide (x = h)) as [->|Hxh]; [exists c'; apply split_live1|].
    destruct (Hex x Hx) as [d Hd]. exists (relink hn c x d). by apply split_live.
Qed.

Lemma split_dead : dead_ok rs cs -> dead_ok rs' cs'.
Proof.
  intros Hd k d Hk.
  destruct (decide (k = h)) as [->|H1]; [left; destruct split_live1; congruence|].
  destruct (decide (k = hn)) as [->|H2]; [left; destruct split_liven; congruence|].
  rewrite Hcs in Hk by done. apply fmap_Some in Hk as (d0 & Hd0 & ->).
  destruct (relink_fields hn c k d0) as (Ep & _ & _ & Ea & _ & Eb & _). unfold in_use.
  rewrite Ea, Eb, Ep.
  destruct (Hd k d0 Hd0) as [Hs|Hs]; [left|by right]. rewrite Hslot', decide_False; [done|].
  intros E. rewrite E, split_hole in Hs. done.
Qed.

Lemma split_points :
  (forall h c, cs !! h = Some c -> slot_point rs (ptr c)) ->
  forall h c, cs' !! h = Some c -> slot_point rs' (ptr c).
Proof.
  intros Hpt k d Hk. destruct (decide (k = hn)) as [->|Hkn].
  { apply (live_slot_point rs' cs' split_layout hn). simplify_eq. apply split_liven. }
  assert (exists k0 d0, cs !! k0 = Some d0 /\ ptr d = ptr d0) as (k0 & d0 & Hd0 & ->).
  { destruct (decide (k = h)) as [->|Hk1].
    { exists h, c. unfold shape in Hsh1. split; [apply Hl|congruence]. }
    rewrite Hcs in Hk by done. apply fmap_Some in Hk as (d0 & Hd0 & ->).
    exists k, d0. split; [done|]. apply relink_fields. }
  destruct (Hpt _ _ Hd0) as (lo & hi & Hb & Hm). exists lo, hi. by rewrite Hbounds'.
Qed.

Lemma split_user (p : Z) :
  in_use c = false -> in_use c' = false -> in_use cn = false ->
  user_at rs' cs' p = user_at rs cs p.
Proof.
  intros Hu Hu' Hun. unfold user_at. rewrite Hslot'. case_decide as E.
  - subst p. by rewrite Hcsn, Hun, split_hole.
  - destruct (slot rs p) as [k|] eqn:Hs; [|done].
    destruct (decide (k = h)) as [->|H1]; [destruct Hl as [-> _]; by rewrite Hcs1, Hu, Hu'|].
    rewrite Hcs by (try done; intros ->; by apply (Hfresh p)).
    destruct (cs !! k) as [d|]; [|done]. cbn. unfold in_use.
    by destruct (relink_fields hn c k d) as (_ & -> & _ & -> & -> & _).
Qed.

(** No entry changes the number of bytes in use. *)
Lemma split_used (cs0 : list Chunk) (cn0 : Chunk) :
  in_use c = false -> in_use c' = false -> in_use cn = false -> cs0 !! hn = Some cn0 -> in_use cn0 = false ->
  (forall k, k <> hn -> cs0 !! k = cs !! k) -> used <$> cs' = used <$> cs0.
Proof.
  intros Hu Hu' Hun Hcn0 Hun0 Hcs0. apply list_eq. intros k. rewrite !list_lookup_fmap. unfold used.
  destruct (decide (k = h)) as [->|Hkh].
  { rewrite Hcs1, (Hcs0 h split_ne), (proj1 Hl). cbn. by rewrite Hu, Hu'. }
  destruct (decide (k = hn)) as [->|Hkn]; [rewrite Hcsn, Hcn0; cbn; by rewrite Hun, Hun0|].
  rewrite Hcs, Hcs0 by done. destruct (cs !! k) as [d|]; [|done]. cbn. unfold in_use.
  by destruct (relink_fields hn c k d) as (_ & -> & _ & -> & _).
Qed.

(** Two neighbours outside [h] that are free now were free before. *)
Lemma split_pairs (k k' : nat) (d d' : Chunk) :
  freed_at_count cn = freed_at_count c -> in_use c = false -> k <> h -> k' <> h ->
  live rs' cs' k d -> live rs' cs' k' d' -> next d = Some k' -> safe_free d -> safe_free d' ->
  exists j e e', live rs cs j e /\ live rs cs k' e' /\ next e = Some k' /\ safe_free e /\ safe_free e'.
Proof.
  intros Hfr Hu Hk Hk' Hd Hd' Hnx Hsf Hsf'.
  assert (forall j e, live rs cs j e -> next e <> Some hn) as Hno.
  { intros j e He En. destruct (ck_next _ _ _ _ (lo_chunks _ _ Hlay _ _ He) _ En) as (e' & He' & _).
    by apply (Hfresh (ptr e')), He'. }
  assert (exists j e, live rs cs j e /\ next e = Some k' /\ safe_free e) as (j & e & He & Hne & Hse).
  { apply split_live_inv in Hd as [[-> _]|[[-> ->]|(_ & _ & d0 & Hd0 & ->)]]; [done| |].
    - exists h, c. unfold shape in Hshn. injection Hshn as _ _ _ Hx. rewrite Hx in Hnx.
      destruct Hsf as [_ Hf0]. split; [done|]. split; [done|]. split; [done|congruence].
    - exists k, d0. destruct (relink_fields hn c k d0) as (_ & _ & En & Ea & _ & _ & Ef).
      unfold safe_free, in_use in *. rewrite Ea, Ef in Hsf. by rewrite En in Hnx. }
  exists j, e. apply split_live_inv in Hd' as [[-> _]|[[-> ->]|(_ & _ & d0 & Hd0 & ->)]]; [done|by destruct (Hno j e)|].
  exists d0. destruct (relink_fields hn c k' d0) as (_ & _ & _ & Ea & _ & _ & Ef).
  unfold safe_free, in_use in *. by rewrite Ea, Ef in Hsf'.
Qed.

(** The unused entries: only [h], [hn] and the old neighbour changed. *)
Lemma split_free (cs0 : list Chunk) (fl : option nat) :
  (forall k, k <> hn -> cs0 !! k = cs !! k) ->
  free_without hn rs cs0 fl -> free_ok rs' cs' fl.
Proof.
  intros Hcs0 (l & Hp & Hnd & Hhn & Hfl). exists l. split; [|split; [done|]].
  - assert (h ∉ l) as Hhl. { intros H. apply (Hfl h (ptr c)) in H. by destruct Hl. }
    assert (forall k, k ∈ l -> next c <> Some k) as H3l.
    { intros k Hk E. destruct (lo_chunks _ _ Hlay _ _ Hl) as [_ _ _ _ Hx _].
      destruct (Hx k E) as (d & [_ Hd] & _). by apply (Hfl k (ptr d)) in Hk. }
    clear Hnd Hfl. revert fl Hp. induction l as [|x l IH]; intros fl; cbn; [done|].
    intros (-> & d & Hd & Hud & Hbd & Hpd). split; [done|]. exists d.
    apply not_elem_of_cons in Hhl as [Hxh Hhl]. apply not_elem_of_cons in Hhn as [Hxn Hhn].
    split; [|split; [done|]; split; [done|]; apply IH; auto; intros k Hk; apply H3l; by right].
    rewrite Hcs by done. rewrite <- Hcs0, Hd by done. cbn. unfold relink.
    rewrite decide_False; [done|]. apply H3l. by left.
  - intros k q Hk. rewrite Hslot'. case_decide; [congruence|]. by apply Hfl.
Qed.
End Split.
