(* ===== verification/BfcOps.v ===== *)
(** * The operations of the BFC allocator keep its invariant

    On top of the lemmas on merging and bins of [BfcInv]: coalescing, splitting,
    the search for a chunk and the release of an allocation all run without a
    failed [CHECK], keep [heap_ok] and change the user's allocations only as
    they promise. *)

From S2P Require Import Prelude BfcRegion Bfc BfcInv BfcSplit.
Import Region Bfc.

(** Simplifies a lookup in a list updated at known positions. *)
Ltac look :=
  repeat first
    [ rewrite list_lookup_insert_ne by (done || congruence)
    | rewrite list_lookup_insert_eq by (rewrite ?length_insert; done || lia) ].

Section Ops.
Context {SA : Type}.
Implicit Types s : t SA.

(** ** Coalescing *)

Lemma live_fun (rs : list AllocationRegion) (cs : list Chunk) (h : nat) (c d : Chunk) :
  live rs cs h c -> live rs cs h d -> c = d.
Proof. intros [Hc _] [Hd _]. congruence. Qed.

Lemma bin_step_live s s' (h : nat) (b : option nat) (k : nat) (d' : Chunk) :
  bin_step h b s s' ->
  live (regions s') (chunks s') k d' <->
  exists d, live (regions s) (chunks s) k d /\ d' = if decide (k = h) then set_bin_num d b else d.
Proof.
  intros (-> & _ & _ & c & Hc & ->). pose proof (lookup_lt_Some _ _ _ Hc). unfold live.
  destruct (decide (k = h)) as [->|Hne].
  - rewrite list_lookup_insert_eq by done. split.
    + intros [[= <-] Hs]. by exists c.
    + intros (d & [Hd Hs] & ->). simplify_eq. done.
  - rewrite list_lookup_insert_ne by done. naive_solver.
Qed.

Lemma bin_step_step s s' (h : nat) (b : option nat) : bin_step h b s s' -> heap_step [] s s'.
Proof.
  intros Hbs. pose proof (fun k d => bin_step_live s s' h b k d Hbs) as Hl.
  destruct Hbs as (Hr & _ & Hsr & c & Hc & Hcs). split; [done| |].
  - split.
    + intros p. unfold user. rewrite Hr, Hcs.
      apply (user_insert s h c (set_bin_num c b) p); done.
    + unfold used_bytes. f_equal. rewrite Hcs, list_fmap_insert. apply list_insert_id.
      by rewrite list_lookup_fmap, Hc.
    + intros Hp k d. rewrite Hr, Hcs. destruct (decide (k = h)) as [->|Hne].
      * rewrite list_lookup_insert_eq by (by eapply lookup_lt_Some). intros [= <-]. exact (Hp h c Hc).
      * rewrite list_lookup_insert_ne by done. apply Hp.
    + by rewrite Hr.
    + by rewrite Hcs, length_insert.
  - intros k d _ Hd. eexists. split; [apply Hl; by exists d|]. case_decide; done.
Qed.

Lemma bin_step_coalesced s s' (h : nat) (b : option nat) (E : list nat) :
  bin_step h b s s' -> coalesced E s -> coalesced E s'.
Proof.
  intros Hbs HE k d k' d' Hk Hk' (d0 & Hd & ->)%(bin_step_live _ _ _ _ _ _ Hbs)
    (d0' & Hd' & ->)%(bin_step_live _ _ _ _ _ _ Hbs) Hn Hs Hs'.
  apply (HE k d0 k' d0'); try done; case_decide; try done; case_decide; done.
Qed.

(** The only pairs that [h] may be in are excluded by its neighbours. *)
Lemma coalesced_drop s (E : list nat) (h : nat) (c : Chunk) :
  layout_ok (regions s) (chunks s) -> coalesced (h :: E) s -> live (regions s) (chunks s) h c ->
  (safe_free c ->
   (forall n cn, next c = Some n -> live (regions s) (chunks s) n cn -> ~ safe_free cn) /\
   (forall m cm, prev c = Some m -> live (regions s) (chunks s) m cm -> ~ safe_free cm)) ->
  coalesced E s.
Proof.
  intros Hlay HE Hc Hnb k d k' d' Hk Hk' Hd Hd' Hn Hs Hs'.
  destruct (decide (k = h)) as [->|H1].
  { assert (d = c) as -> by (by eapply live_fun). by apply (proj1 (Hnb Hs) k' d'). }
  destruct (decide (k' = h)) as [->|H2].
  { assert (d' = c) as -> by (by eapply live_fun).
    destruct (next_link _ _ _ _ _ _ Hlay Hd Hc Hn) as (_ & Hp & _).
    by apply (proj2 (Hnb Hs') k d). }
  apply (HE k d k' d'); set_solver.
Qed.

Definition coalesced_next s (h : nat) : Prop :=
  forall c n cn, live (regions s) (chunks s) h c -> next c = Some n ->
    live (regions s) (chunks s) n cn -> ~ safe_free cn.

Lemma keeps_step (g : list nat) s s' : heap_step g s s' -> same_rest s s' /\ keeps s s'.
Proof. by intros []. Qed.

(** The first half of [TryToCoalesce]. *)
Lemma coalesce_next_ok s (h : nat) (c : Chunk) (ig : bool) :
  heap_ok [h] s -> live (regions s) (chunks s) h c ->
  runs (match next c with
        | Some hn =>
            n ← ChunkFromHandle hn;
            if negb (in_use n) && ((freed_at_count n =? 0) || ig)
            then RemoveFreeChunkFromBin hn ;; Merge h hn else mret tt
        | None => mret tt
        end) s (fun _ s' =>
    heap_ok [h] s' /\ same_rest s s' /\ keeps s s' /\
    (exists c', live (regions s') (chunks s') h c' /\ prev c' = prev c) /\
    (ig = false -> coalesced [h] s -> coalesced [h] s' /\ coalesced_next s' h)).
Proof.
  intros Hok Hl. destruct (next c) as [hn|] eqn:En.
  2:{ apply runs_mret. split; [done|]. split; [done|]. split; [done|]. split; [by exists c|].
      intros _ HE. split; [done|]. intros c' n cn Hc' Hn. assert (c' = c) by (by eapply live_fun). congruence. }
  pose proof (ho_layout _ _ Hok) as Hlay.
  destruct (ck_next _ _ _ _ (lo_chunks _ _ Hlay _ _ Hl) _ En) as (cn & Hln & Hpn & Hprn).
  destruct (next_link _ _ _ _ _ _ Hlay Hl Hln En) as (_ & _ & Hne).
  apply runs_bind. eapply runs_chunk; [exact (proj1 Hln)|].
  destruct (negb (in_use cn) && _) eqn:Ec.
  2:{ apply runs_mret. split; [done|]. split; [done|]. split; [done|]. split; [by exists c|].
      intros -> HE. split; [done|]. intros c' n cn' Hc' Hn Hcn' [Hu Hf].
      assert (c' = c) as -> by (by eapply live_fun). simplify_eq.
      assert (cn' = cn) as -> by (by eapply live_fun). rewrite Hu, Hf in Ec. done. }
  apply andb_true_iff in Ec as [Hu%negb_true_iff Hf].
  apply runs_bind.
  eapply runs_mono; [apply (RemoveFreeChunkFromBin_ok s [h] hn cn Hok Hln Hu); set_solver|].
  cbn. intros _ s1 [Hok1 Hbs1]. pose proof (bin_step_step _ _ _ _ Hbs1) as [Hr1 Hk1 Hl1].
  pose proof (fun k d => bin_step_live s s1 hn None k d Hbs1) as Hb1.
  assert (live (regions s1) (chunks s1) h c) as Hlh.
  { apply Hb1. exists c. by rewrite decide_False. }
  assert (live (regions s1) (chunks s1) hn (set_bin_num cn None)) as Hlhn.
  { apply Hb1. exists cn. by rewrite decide_True. }
  eapply runs_mono.
  { eapply (Merge_ok s1 [] h hn c _); try done; try set_solver.
    eapply heap_ok_hold; [|exact Hok1]. set_solver. }
  cbn. intros _ s2 (Hok2 & [Hr2 Hk2 Hl2] & HE2 & Hm).
  split; [done|]. split; [by etransitivity|]. split; [by etransitivity|].
  split; [eexists; split; [exact Hm|done]|].
  intros -> HE. split.
  { apply HE2. apply (bin_step_coalesced _ _ _ _ _ Hbs1).
    intros k d k' d' Hk Hk'. apply HE; set_solver. }
  intros c' n c3' Hc' Hn Hc3' Hs3.
  assert (c' = merged c (set_bin_num cn None)) as -> by (by eapply live_fun). cbn in Hn.
  destruct (ck_next _ _ _ _ (lo_chunks _ _ Hlay _ _ Hln) _ Hn) as (c3 & Hl3 & Hp3 & _).
  pose proof (live_range _ _ Hlay _ _ Hl). pose proof (live_range _ _ Hlay _ _ Hln).
  assert (n <> hn) by (intros ->; assert (c3 = cn) as -> by (by eapply live_fun); lia).
  assert (n <> h) by (intros ->; assert (c3 = c) as -> by (by eapply live_fun); lia).
  assert (live (regions s1) (chunks s1) n c3) as Hl31 by (apply Hb1; exists c3; by rewrite decide_False).
  destruct (Hl2 n c3) as (d & Hd & _ & _ & Ha & _ & Hfd); [set_solver|done|].
  assert (d = c3') as -> by (by eapply live_fun).
  unfold safe_free, in_use in Hs3. rewrite Ha, Hfd in Hs3.
  apply (HE hn cn n c3); try done; [set_solver|set_solver|]. rewrite orb_false_r in Hf.
  zbool. done.
Qed.

(** Merging the held chunk [h] into the free chunk [hp] before it, when nothing safe follows [h] *)
Lemma merge_prev_ok s (h hp : nat) (c cp : Chunk) :
  heap_ok [h] s -> live (regions s) (chunks s) h c -> live (regions s) (chunks s) hp cp -> next cp = Some h ->
  in_use cp = false ->
  runs (RemoveFreeChunkFromBin hp ;; Merge hp h ;; mret hp) s (fun h' s' => heap_ok [h'] s' /\ same_rest s s' /\ keeps s s' /\
    (safe_free cp -> coalesced [h] s -> coalesced_next s h -> coalesced [] s')).
Proof.
  intros Hok Hl Hlp Hnp Hu. pose proof (ho_layout _ _ Hok) as Hlay.
  destruct (next_link _ _ _ _ _ _ Hlay Hlp Hl Hnp) as (Hpp & _ & Hne).
  apply runs_bind.
  eapply runs_mono; [apply (RemoveFreeChunkFromBin_ok s [h] hp cp Hok Hlp Hu); set_solver|].
  cbn. intros _ s2 [Hok2 Hbs2]. pose proof (bin_step_step _ _ _ _ Hbs2) as [Hr2 Hk2 Hl2].
  pose proof (fun k d => bin_step_live s s2 hp None k d Hbs2) as Hb2.
  apply runs_bind. eapply runs_mono.
  { eapply (Merge_ok s2 [] hp h (set_bin_num cp None) c); try done; [set_solver|set_solver|..].
    - apply Hb2. exists cp. by rewrite decide_True.
    - apply Hb2. exists c. by rewrite decide_False. }
  cbn. intros _ s3 (Hok3 & [Hr3 Hk3 Hl3] & HE3 & Hm). apply runs_mret.
  split; [done|]. split; [by etransitivity|]. split; [by etransitivity|]. intros Hsp HEs HEn.
  apply (coalesced_drop s3 [] hp _ (ho_layout _ _ Hok3)) with (2 := Hm).
  { apply HE3. apply (bin_step_coalesced _ _ _ _ _ Hbs2). intros k d k' d' Hk Hk'. apply HEs; set_solver. }
  pose proof (live_range _ _ Hlay _ _ Hl). pose proof (live_range _ _ Hlay _ _ Hlp).
  assert (forall k d d3, live (regions s) (chunks s) k d -> k <> h -> k <> hp ->
            live (regions s3) (chunks s3) k d3 -> safe_free d3 -> safe_free d) as Hback.
  { intros k d d3 Hd Hkh Hkp Hd3 Hs3. destruct (Hl3 k d) as (d' & Hd' & _ & _ & Ha & _ & Hfd); [set_solver| |].
    { apply Hb2. exists d. by rewrite decide_False. }
    assert (d' = d3) as -> by (by eapply live_fun). unfold safe_free, in_use in *. by rewrite Ha, Hfd in Hs3. }
  intros _. cbn. split.
  - intros n cn Hn Hln Hsn. destruct (ck_next _ _ _ _ (lo_chunks _ _ Hlay _ _ Hl) _ Hn) as (d & Hd & Hpd & _).
    apply (HEn c n d Hl Hn Hd), (Hback n d cn); try done; intros ->.
    + assert (d = c) as -> by (by eapply live_fun). lia.
    + assert (d = cp) as -> by (by eapply live_fun). lia.
  - intros m cm Hm' Hlm Hsm. destruct (ck_prev _ _ _ _ (lo_chunks _ _ Hlay _ _ Hlp) _ Hm') as (d & Hd & Hnd).
    destruct (next_link _ _ _ _ _ _ Hlay Hd Hlp Hnd) as (Hpd & _ & Hmp). pose proof (live_range _ _ Hlay _ _ Hd).
    assert (m <> h) by (intros ->; assert (d = c) as -> by (by eapply live_fun); lia).
    apply (HEs m d hp cp); try done; [set_solver|set_solver|]. by apply (Hback m d cm).
Qed.

Lemma TryToCoalesce_ok s (h : nat) (ig : bool) :
  heap_ok [h] s ->
  runs (TryToCoalesce h ig) s (fun h' s' => heap_ok [h'] s' /\ same_rest s s' /\ keeps s s' /\
    (ig = false -> coalesced [h] s -> coalesced [] s')).
Proof.
  intros Hok. destruct (proj2 (ho_hold _ _ Hok) h) as [c Hl]; [set_solver|].
  unfold TryToCoalesce. apply runs_bind. eapply runs_chunk; [exact (proj1 Hl)|].
  destruct (negb ig && (0 <? freed_at_count c)) eqn:Ec.
  { zbool. apply runs_mret. split; [done|]. split; [done|]. split; [done|]. intros _ HE.
    apply (coalesced_drop s [] h c); try done; [apply Hok|]. intros [_ Hf]. lia. }
  apply runs_bind. eapply runs_mono; [by apply coalesce_next_ok|]. cbn.
  intros _ s1 (Hok1 & Hr1 & Hk1 & (c1 & Hl1 & Hp1) & HE1).
  pose proof (ho_layout _ _ Hok1) as Hlay1.
  apply runs_bind. eapply runs_chunk; [exact (proj1 Hl1)|].
  destruct (prev c1) as [hp|] eqn:Ep.
  2:{ apply runs_mret. split; [done|]. split; [done|]. split; [done|]. intros -> HE.
      destruct (HE1 eq_refl HE) as [HEs HEn]. apply (coalesced_drop s1 [] h c1); try done.
      intros _. split; [|congruence]. intros n cn. by apply HEn. }
  destruct (ck_prev _ _ _ _ (lo_chunks _ _ Hlay1 _ _ Hl1) _ Ep) as (cp & Hlp & Hnp).
  apply runs_bind. eapply runs_chunk; [exact (proj1 Hlp)|].
  destruct (negb (in_use cp) && _) eqn:Ec'.
  2:{ apply runs_mret. split; [done|]. split; [done|]. split; [done|]. intros -> HE.
      destruct (HE1 eq_refl HE) as [HEs HEn]. apply (coalesced_drop s1 [] h c1); try done.
      intros _. split; [intros n cn; by apply HEn|]. intros m cm Hm Hlm [Hu Hf]. simplify_eq.
      assert (cm = cp) as -> by (by eapply live_fun). rewrite Hu, Hf in Ec'. done. }
  apply andb_true_iff in Ec' as [Hu%negb_true_iff Hf].
  eapply runs_mono; [by apply (merge_prev_ok s1 h hp c1 cp)|]. cbn. intros h' s3 (Hok3 & Hr3 & Hk3 & HE3).
  split; [done|]. split; [by etransitivity|]. split; [by etransitivity|].
  intros -> HE. destruct (HE1 eq_refl HE) as [HEs HEn]. apply HE3; try done.
  rewrite orb_false_r in Hf. by split; [|apply Z.eqb_eq].
Qed.

(** ** Splitting *)

(** The record that [SplitChunk] fills in for the second part of [c]. *)
Definition split_rest (c : Chunk) (h : nat) (n : Z) (d : Chunk) : Prop :=
  shape d = (ptr c + n, size c - n, Some h, next c) /\ in_use d = false /\ bin_num d = None /\
  freed_at_count d = freed_at_count c.

(** The address at which a chunk is cut may be registered. *)
Lemma split_slot_point (rs : list AllocationRegion) (cs : list Chunk) (h : nat) (c : Chunk) (n : Z) :
  layout_ok rs cs -> live rs cs h c -> 0 < n < size c -> n mod 256 = 0 -> slot_point rs (ptr c + n).
Proof.
  intros Hlay Hl Hn Hmul. pose proof (live_range _ _ Hlay _ _ Hl) as Hrange.
  destruct (lo_chunks _ _ Hlay _ _ Hl) as [_ _ (lo & hi & Hbd & Hal & Hle & _) _ _ _].
  exists lo, hi. apply bounds_Some in Hbd as (r & Hin & <- & <- & Hr); [|apply Hlay].
  split; [apply bounds_Some; [apply Hlay|]; exists r; repeat split; [done|lia|lia]|].
  replace (ptr c + n - r_ptr r) with ((ptr c - r_ptr r) + n) by lia.
  by rewrite Z.add_mod, Hal, Hmul by lia.
Qed.

Lemma SplitChunk_run s (h : nat) (c : Chunk) (n : Z) :
  layout_ok (regions s) (chunks s) -> free_ok (regions s) (chunks s) (free_chunks_list s) ->
  live (regions s) (chunks s) h c -> in_use c = false -> bin_num c = None ->
  0 < n < size c -> n mod 256 = 0 ->
  exists hn cn cs0 fl, fresh_entry (regions s) (chunks s) cs0 fl hn cn /\
    forall Q, (forall rs' cs' cn', regions_ok rs' ->
      (forall q, slot rs' q = if decide (q = ptr c + n) then Some hn else slot (regions s) q) ->
      (forall q, bounds rs' q = bounds (regions s) q) ->
      length cs' = length cs0 ->
      cs' !! h = Some (set_next (set_size c n) (Some hn)) ->
      cs' !! hn = Some cn' -> split_rest c h n cn' ->
      (forall k, k <> h -> k <> hn -> cs' !! k = relink hn c k <$> chunks s !! k) ->
      runs (InsertFreeChunkIntoBin hn)
        (with_free_list (with_chunks (with_regions s rs') cs') fl) Q) ->
    runs (SplitChunk h n) s Q.
Proof.
  intros Hlay Hfree Hl Hu Hb Hn Hmul.
  destruct (AllocateChunk_run s Hlay Hfree) as (hn & cn & cs0 & fl & Hrun & Hfe).
  pose proof Hfe as [Hcn Hun Hbn Hunreg Hoth _ Hlen _].
  exists hn, cn, cs0, fl. split; [done|]. intros Q HQ.
  assert (h <> hn) as Hne by (intros ->; by apply (Hunreg (ptr c)), Hl).
  assert (cs0 !! h = Some c) as Hch by (rewrite Hoth by done; apply Hl).
  pose proof (lookup_lt_Some _ _ _ Hch) as Hlth. pose proof (lookup_lt_Some _ _ _ Hcn) as Hltn.
  pose proof (live_range _ _ Hlay _ _ Hl) as Hrange.
  pose proof (split_slot_point _ _ h c n Hlay Hl Hn Hmul) as Hsp.
  unfold SplitChunk.
  apply runs_bind. eexists _, _. split; [exact Hrun|].
  apply runs_bind. eapply runs_chunk; [exact Hch|].
  apply runs_bind. apply runs_CHECK; [by rewrite Hu, bool_decide_eq_true_2|].
  apply runs_bind. eapply runs_modify_chunk; [exact Hcn|].
  apply runs_bind. apply runs_set_handle; [apply Hlay|exact Hsp|]. intros rs' Hr Hs Hbd.
  do 6 (apply runs_bind; eapply runs_modify_chunk; [cbn; by look|]).
  cbn [chunks with_chunks with_regions with_free_list regions].
  set (cn' := set_next (set_prev _ (Some h)) (next c)).
  assert (split_rest c h n cn') as Hrest.
  { repeat split; try done. unfold shape. cbn. by rewrite wrap_u64_id by (unfold in_u64; lia). }
  apply runs_bind. destruct (next c) as [h3|] eqn:En.
  - destruct (ck_next _ _ _ _ (lo_chunks _ _ Hlay _ _ Hl) _ En) as (c3 & Hl3 & _).
    assert (h3 <> hn) by (intros ->; by apply (Hunreg (ptr c3)), Hl3).
    destruct (next_link _ _ _ _ _ _ Hlay Hl Hl3 En) as (_ & _ & Hne3).
    assert (cs0 !! h3 = Some c3) as Hc3 by (rewrite Hoth by done; apply Hl3).
    pose proof (lookup_lt_Some _ _ _ Hc3).
    eapply runs_modify_chunk; [cbn; look; exact Hc3|]. cbn [chunks with_chunks].
    match goal with |- runs _ ?st _ => apply (HQ rs' (chunks st) cn') end;
      cbn [chunks with_chunks with_regions with_free_list]; try done; [by rewrite !length_insert|by look|by look|].
    intros k Hk Hkn. unfold relink. rewrite En. destruct (decide (k = h3)) as [->|Hk3]; look.
    + rewrite (proj1 Hl3). cbn. by rewrite decide_True.
    + rewrite Hoth by done. destruct (chunks s !! k); cbn; [|done]. by rewrite decide_False by congruence.
  - apply runs_mret. match goal with |- runs _ ?st _ => apply (HQ rs' (chunks st) cn') end;
      cbn [chunks with_chunks with_regions with_free_list]; try done; [by rewrite !length_insert|by look|by look|].
    intros k Hk Hkn. unfold relink. rewrite En. look. rewrite Hoth by done.
    destruct (chunks s !! k); cbn; [|done]. by rewrite decide_False.
Qed.

(** [SplitChunk] on a held chunk [h] leaves it with [n] bytes and puts the rest into a bin. *)
Lemma SplitChunk_ok s (h : nat) (c : Chunk) (n : Z) :
  heap_ok [h] s -> live (regions s) (chunks s) h c -> 0 < n < size c -> n mod 256 = 0 ->
  runs (SplitChunk h n) s (fun _ s' => heap_ok [h] s' /\ same_rest s s' /\ keeps s s' /\
    (exists hn, live (regions s') (chunks s') h (set_next (set_size c n) (Some hn))) /\
    (coalesced [] s -> coalesced [h] s')).
Proof.
  intros [Hlay Hbins Hhold Hfree Hdead] Hl Hn Hmul.
  pose proof (proj1 Hhold h c Hl) as Hh. rewrite decide_True in Hh by set_solver. destruct Hh as [Hu Hb].
  destruct (SplitChunk_run s h c n Hlay Hfree Hl Hu Hb Hn Hmul) as (hn & cn & cs0 & fl & Hfe & Hrun).
  destruct Hfe as [Hcn Hun Hbn Hunreg Hoth Hused Hlen0 Hfw].
  apply Hrun. intros rs' cs' cn' Hrs' Hslot' Hbounds' Hlen' Hc' Hcn' (Hsh & Hun' & Hbn' & Hfr) Hcs.
  set (c' := set_next (set_size c n) (Some hn)) in *.
  assert (shape c' = (ptr c, n, prev c, Some hn)) as Hsh' by done.
  pose proof (split_ne _ _ _ _ _ Hl Hunreg) as Hne.
  pose proof (split_layout _ _ _ _ _ _ _ _ _ _ Hlay Hl Hn Hmul Hunreg Hrs' Hslot' Hbounds' Hc' Hsh' Hcn' Hsh Hcs) as Hlay'.
  set (s1 := with_free_list (with_chunks (with_regions s rs') cs') fl).
  assert (heap_ok [hn; h] s1) as Hok1.
  { split; cbn.
    - done.
    - by eapply (split_bins (regions s) rs' (chunks s) cs' h hn c c' cn').
    - by eapply (split_hold (regions s) rs' (chunks s) cs' h hn c c' cn').
    - by eapply (split_free (regions s) rs' (chunks s) cs' h hn c).
    - by eapply (split_dead (regions s) rs' (chunks s) cs' h hn c c' cn'). }
  assert (keeps s s1) as Hk1.
  { split; cbn.
    - intros p. by eapply (split_user (regions s) rs' (chunks s) cs' h hn c c' cn').
    - unfold used_bytes. rewrite <- Hused. f_equal. by eapply (split_used (regions s) (chunks s) cs' h hn c c' cn').
    - unfold points_ok. cbn. by eapply (split_points (regions s) rs' (chunks s) cs' h hn c c' cn').
    - done.
    - lia. }
  eapply runs_mono; [apply InsertFreeChunkIntoBin_ok; [exact Hok1|set_solver]|].
  cbn. intros _ s2 (Hok2 & b & Hbs). pose proof (bin_step_step _ _ _ _ Hbs) as [Hr2 Hk2 _].
  split; [done|]. split; [by etransitivity; [|exact Hr2]|]. split; [by etransitivity|]. split.
  { exists hn. apply (bin_step_live _ _ _ _ _ _ Hbs). exists c'. rewrite decide_False by done.
    split; [|done]. by eapply (split_live1 (regions s) rs' (chunks s) cs' h hn c c' n). }
  intros HE. apply (bin_step_coalesced _ _ _ _ _ Hbs).
  intros k d k' d' Hk Hk' Hd Hd' Hnx Hsf Hsf'.
  destruct (split_pairs (regions s) rs' (chunks s) cs' h hn c c' cn' n Hlay Hl Hunreg Hslot' Hc' Hcn' Hsh Hcs k k' d d')
    as (j & e & e' & ? & ? & ? & ? & ?); try done; [set_solver|set_solver|]. apply (HE j e k' e'); try done; set_solver.
Qed.
End Ops.
