(* ===== verification/BfcFind.v ===== *)
(** * Best fit: the search of the BFC allocator

    [FindChunkPtr] takes the smallest free chunk that is large enough, lowest
    address first, splits it when too much would be wasted and hands it out;
    it returns [nullptr] only if no free chunk fits. *)

From S2P Require Import Prelude BfcRegion Bfc BfcInv BfcSplit BfcOps.
Import Region Bfc.

(** ** Updates that keep the shape of a chunk *)
Section ShapeUpdate.
Context {SA : Type}.
Implicit Types s : t SA.

Lemma heap_ok_ext (X : list nat) s s' :
  regions s' = regions s -> chunks s' = chunks s -> bins s' = bins s ->
  free_chunks_list s' = free_chunks_list s -> heap_ok X s -> heap_ok X s'.
Proof. intros E1 E2 E3 E4 [H1 H2 H3 H4 H5]. split; by rewrite ?E1, ?E2, ?E3, ?E4. Qed.

Lemma coalesced_ext (E : list nat) s s' :
  regions s' = regions s -> chunks s' = chunks s -> coalesced E s -> coalesced E s'.
Proof. intros E1 E2. unfold coalesced. by rewrite E1, E2. Qed.

Lemma update_ok s (X Y : list nat) (h : nat) (c c' : Chunk) :
  heap_ok X s -> live (regions s) (chunks s) h c -> shape c' = shape c -> bin_num c' = bin_num c ->
  (forall x, x <> h -> x ∈ X <-> x ∈ Y) ->
  (if decide (h ∈ Y) then in_use c' = false /\ bin_num c' = None
   else (in_use c' = true <-> bin_num c' = None)) ->
  heap_ok Y (with_chunks s (<[h := c']> (chunks s))).
Proof.
  intros [Hlay [Hlen Hsrt Hel Hbin] [Hst Hex] Hfree Hdead] Hl Hsh Hb HXY HY.
  pose proof (live_insert _ _ _ _ _ Hl Hsh) as Hli.
  pose proof (comparator_insert _ _ _ _ _ Hl Hsh) as Hcmp. split; cbn.
  - by apply layout_insert with c.
  - split; [done| | |].
    + intros b l Hbl. apply (sorted_comparator_ext (chunks s) _ _ Hcmp). by apply (Hsrt b).
    + intros b l x Hbl Hx. destruct (Hel b l x Hbl Hx) as (d & Hd & Hdb).
      destruct (decide (x = h)) as [->|Hne].
      * exists c'. split; [apply Hli; by left|]. assert (d = c) by (by eapply live_fun). congruence.
      * exists d. split; [apply Hli; by right|done].
    + intros x d b [[-> ->]|[Hne Hd]]%Hli Hdb; [|by apply Hbin].
      unfold shape in Hsh. injection Hsh as _ -> _ _. rewrite Hb in Hdb. by apply Hbin.
  - split.
    + intros x d [[-> ->]|[Hne Hd]]%Hli; [done|]. specialize (Hst x d Hd).
      destruct (decide (x ∈ X)); destruct (decide (x ∈ Y)); naive_solver.
    + intros x Hx. destruct (decide (x = h)) as [->|Hne]; [exists c'; apply Hli; by left|].
      destruct (Hex x) as [d Hd]; [by apply HXY|]. exists d. apply Hli. by right.
  - by eapply free_ok_insert.
  - apply dead_ok_insert with c; try done. unfold shape in Hsh. congruence.
Qed.

Lemma update_coalesced s (E : list nat) (h : nat) (c c' : Chunk) :
  live (regions s) (chunks s) h c -> shape c' = shape c ->
  coalesced (h :: E) s -> coalesced (h :: E) (with_chunks s (<[h := c']> (chunks s))).
Proof.
  intros Hl Hsh HE k d k' d' Hk Hk'. cbn.
  intros [[-> ->]|[Hne Hd]]%(live_insert _ _ _ _ _ Hl Hsh); [set_solver|].
  intros [[-> ->]|[Hne' Hd']]%(live_insert _ _ _ _ _ Hl Hsh); [set_solver|]. by apply (HE k d k' d').
Qed.

Lemma foldr_add_insert (l : list Z) (h : nat) (x y : Z) :
  l !! h = Some x -> foldr Z.add 0 (<[h := y]> l) = foldr Z.add 0 l - x + y.
Proof.
  revert h. induction l as [|z l IH]; intros [|h] Hx; cbn in *; [done..| |].
  - injection Hx as ->. lia.
  - change (z + foldr Z.add 0 (<[h := y]> l) = z + foldr Z.add 0 l - x + y).
    rewrite (IH h Hx). lia.
Qed.

Lemma update_used s (h : nat) (c c' : Chunk) :
  chunks s !! h = Some c ->
  used_bytes (with_chunks s (<[h := c']> (chunks s))) = used_bytes s - used c + used c'.
Proof.
  intros Hc. unfold used_bytes. cbn. rewrite list_fmap_insert.
  by rewrite foldr_add_insert with (x := used c) by (by rewrite list_lookup_fmap, Hc).
Qed.

Lemma update_points s (h : nat) (c c' : Chunk) :
  chunks s !! h = Some c -> ptr c' = ptr c ->
  points_ok s -> points_ok (with_chunks s (<[h := c']> (chunks s))).
Proof.
  intros Hc Hp Hpt k d. cbn. destruct (decide (k = h)) as [->|Hne].
  - rewrite list_lookup_insert_eq by (by eapply lookup_lt_Some). intros [= <-].
    rewrite Hp. exact (Hpt h c Hc).
  - rewrite list_lookup_insert_ne by done. apply Hpt.
Qed.

Lemma update_user s (h : nat) (c c' : Chunk) (q : Z) :
  layout_ok (regions s) (chunks s) -> live (regions s) (chunks s) h c -> ptr c' = ptr c ->
  user (with_chunks s (<[h := c']> (chunks s))) q =
  if decide (q = ptr c)
  then if in_use c' then Some (size c', requested_size c', allocation_id c') else None
  else user s q.
Proof.
  intros Hlay Hl Hp. unfold user, user_at. cbn.
  pose proof (lookup_lt_Some _ _ _ (proj1 Hl)). case_decide as E.
  - subst q. rewrite (proj2 Hl). by rewrite list_lookup_insert_eq.
  - destruct (slot (regions s) q) as [k|] eqn:Hs; [|done].
    rewrite list_lookup_insert_ne; [done|]. intros ->. apply E.
    by eapply slots_handle_inj; [|apply Hl|].
Qed.
End ShapeUpdate.

(** ** Taking a chunk out of a bin by position *)

Lemma sorted_delete {A : Type} (R : A -> A -> Prop) (l : list A) (k : nat) :
  StronglySorted R l -> StronglySorted R (delete k l).
Proof.
  intros Hs. revert k. induction Hs as [|x l Hs IH Hx]; intros [|k]; cbn; try done; [by constructor..|].
  constructor; [apply IH|]. by apply Forall_delete.
Qed.

Lemma sorted_lookup {A : Type} (R : A -> A -> Prop) (l : list A) (i j : nat) (x y : A) :
  StronglySorted R l -> l !! i = Some x -> l !! j = Some y -> (i < j)%nat -> R x y.
Proof.
  intros Hs. revert i j. induction Hs as [|z l Hs IH Hz]; intros [|i] [|j] Hi Hj Hij;
    cbn in *; try done; try lia.
  - injection Hi as <-. rewrite list.Forall_forall in Hz. apply Hz. by eapply list_elem_of_lookup_2.
  - apply (IH i j); [done..|lia].
Qed.

Lemma sorted_nodup (cs : list Chunk) (l : list nat) :
  StronglySorted (fun x y => ChunkComparator cs x y = true) l -> NoDup l.
Proof.
  induction 1 as [|x l Hs IH Hx]; constructor; [|done]. intros Hin.
  rewrite list.Forall_forall in Hx. specialize (Hx x Hin). by rewrite ChunkComparator_irrefl in Hx.
Qed.

Section Find.
Context {SA : Type}.
Implicit Types s : t SA.

Lemma RemoveFreeChunkIterFromBin_ok s (hold : list nat) (b k h : nat) (l : list nat) :
  heap_ok hold s -> bins s !! b = Some l -> l !! k = Some h -> h ∉ hold ->
  runs (RemoveFreeChunkIterFromBin b k) s (fun _ s' => heap_ok (h :: hold) s' /\ bin_step h None s s').
Proof.
  intros Hok Hl Hk Hh. pose proof Hok as [Hlay [Hlen Hsrt Hel Hbin] [Hst Hex] Hfree Hdead].
  destruct (Hel b l h Hl) as (c & Hlive & Hb); [by eapply list_elem_of_lookup_2|].
  pose proof (Hst h c Hlive) as Hu. rewrite decide_False in Hu by done.
  assert (in_use c = false) as Hu' by (destruct (in_use c); [|done]; destruct Hu as [Hu _]; by rewrite Hu in Hb).
  unfold RemoveFreeChunkIterFromBin.
  apply runs_bind. eapply runs_asks; [exact Hl|].
  apply runs_bind. eapply runs_asks; [exact Hk|].
  apply runs_bind. eapply runs_chunk; [exact (proj1 Hlive)|].
  apply runs_bind. apply runs_CHECK.
  { rewrite Hu', bool_decide_eq_true_2; [done|]. by rewrite Hb. }
  apply runs_bind. apply runs_modify. eapply runs_modify_chunk; [exact (proj1 Hlive)|].
  split; [|split; [done|]; split; [done|]; split; [done|]; exists c; split; [exact (proj1 Hlive)|done]].
  apply (unbin_ok s hold h b c l _ Hok Hlive Hb Hu' Hl); [|by apply sorted_delete, (Hsrt b)].
  pose proof (sorted_nodup _ _ (Hsrt b l Hl)) as Hnd. pose proof (delete_Permutation l k h Hk) as Hp.
  rewrite Hp in Hnd. apply NoDup_cons in Hnd as [Hnh Hnd].
  intros x. assert (x ∈ l <-> x ∈ h :: delete k l) as -> by (by rewrite Hp at 1).
  rewrite elem_of_cons. naive_solver.
Qed.

(** ** The search *)

(** The chunk may be handed out for [rounded_bytes]. *)
Definition fits (rounded_bytes freed_before : Z) (c : Chunk) : bool :=
  negb ((0 <? freed_before) && (freed_before <? freed_at_count c)) && (rounded_bytes <=? size c).

(** The first position of [l] whose chunk fits. *)
Definition first_fit (cs : list Chunk) (rb fb : Z) (l : list nat) (j h : nat) : Prop :=
  l !! j = Some h /\ (exists c, cs !! h = Some c /\ fits rb fb c = true) /\
  forall i x d, (i < j)%nat -> l !! i = Some x -> cs !! x = Some d -> fits rb fb d = false.

Definition no_fit (cs : list Chunk) (rb fb : Z) (l : list nat) : Prop :=
  forall x d, x ∈ l -> cs !! x = Some d -> fits rb fb d = false.

Lemma find_in_bin_ok (cs : list Chunk) (rb fb : Z) (k0 : nat) (l : list nat) :
  (forall x, x ∈ l -> is_Some (cs !! x)) ->
  (find_in_bin cs rb fb k0 l = Some None /\ no_fit cs rb fb l) \/
  (exists j h, find_in_bin cs rb fb k0 l = Some (Some (k0 + j, h)%nat) /\ first_fit cs rb fb l j h).
Proof.
  revert k0. induction l as [|x l IH]; intros k0 Hl.
  { left. split; [done|]. intros y d Hy. by apply elem_of_nil in Hy. }
  destruct (Hl x) as [c Hc]; [by left|]. cbn. rewrite Hc. cbn.
  assert (fits rb fb c = true -> first_fit cs rb fb (x :: l) 0 x) as Hfit.
  { intros Ef. split; [done|]. split; [by exists c|lia]. }
  assert (fits rb fb c = false ->
    (find_in_bin cs rb fb (S k0) l = Some None /\ no_fit cs rb fb (x :: l)) \/
    (exists j h, find_in_bin cs rb fb (S k0) l = Some (Some (k0 + j, h)%nat) /\
       first_fit cs rb fb (x :: l) j h)) as Hno.
  { intros Ef. destruct (IH (S k0)) as [[H1 H2]|(j & h & H1 & H2 & H3 & H4)].
    - intros y Hy. apply Hl. by right.
    - left. split; [done|]. intros y d [->|Hy]%elem_of_cons Hd; [congruence|by eapply H2].
    - right. exists (S j), h. rewrite <- Nat.add_succ_comm. split; [done|]. split; [done|]. split; [done|].
      intros [|i] y d Hi Hy Hd; cbn in Hy; [congruence|]. apply (H4 i y d); [lia|done..]. }
  unfold fits in Hfit, Hno. destruct ((0 <? fb) && _) eqn:E1; cbn in *; [by apply Hno|].
  destruct (rb <=? size c) eqn:E2; [|by apply Hno].
  right. exists 0%nat, x. rewrite Nat.add_0_r. auto.
Qed.

Lemma find_in_bins_ok (cs : list Chunk) (rb fb : Z) (b0 : nat) (bs : list (list nat)) :
  (forall b l x, bs !! b = Some l -> x ∈ l -> is_Some (cs !! x)) ->
  (find_in_bins cs rb fb b0 bs = Some None /\ forall b l, bs !! b = Some l -> no_fit cs rb fb l) \/
  (exists i k h l, find_in_bins cs rb fb b0 bs = Some (Some (b0 + i, k, h)%nat) /\
     bs !! i = Some l /\ first_fit cs rb fb l k h /\
     forall j l', (j < i)%nat -> bs !! j = Some l' -> no_fit cs rb fb l').
Proof.
  revert b0. induction bs as [|l bs IH]; intros b0 Hbs; [left; by split|]. cbn.
  destruct (find_in_bin_ok cs rb fb 0 l) as [[-> Hno]|(k & h & -> & Hf)].
  - intros x. by apply (Hbs 0%nat).
  - destruct (IH (S b0)) as [[H1 H2]|(i & k & h & l' & H1 & H2 & H3 & H4)].
    + intros b l' x Hb. by apply (Hbs (S b)).
    + left. split; [done|]. intros [|b] l' Hb; cbn in Hb; [by simplify_eq|by eapply H2].
    + right. exists (S i), k, h, l'. cbn. rewrite <- Nat.add_succ_comm.
      split; [done|]. split; [done|]. split; [done|].
      intros [|j] l'' Hj Hb; cbn in Hb; [by simplify_eq|]. apply (H4 j); [lia|done].
  - right. exists 0%nat, k, h, l. rewrite Nat.add_0_r. split; [done|]. split; [done|].
    split; [done|]. lia.
Qed.

Definition no_worse (c d : Chunk) : Prop := size c < size d \/ (size c = size d /\ ptr c <= ptr d).

(** The search of [FindChunkPtr] finds the best free chunk that fits, if there is one. *)
Lemma search_ok s (rb fb : Z) :
  heap_ok [] s -> rb < 2 ^ 64 ->
  let r := find_in_bins (chunks s) rb fb (BinNumForSize rb) (drop (BinNumForSize rb) (bins s)) in
  (r = Some None /\
   forall h c, live (regions s) (chunks s) h c -> in_use c = false -> fits rb fb c = false) \/
  (exists b k h l c, r = Some (Some (b, k, h)) /\ bins s !! b = Some l /\ l !! k = Some h /\
     live (regions s) (chunks s) h c /\ in_use c = false /\ fits rb fb c = true /\
     forall x d, live (regions s) (chunks s) x d -> in_use d = false -> fits rb fb d = true ->
       no_worse c d).
Proof.
  intros Hok Hrb. pose proof Hok as [Hlay [Hlen Hsrt Hel Hbin] [Hst _] _ _]. cbn.
  assert (forall x d, live (regions s) (chunks s) x d -> in_use d = false -> fits rb fb d = true ->
            exists i l, drop (BinNumForSize rb) (bins s) !! i = Some l /\ x ∈ l /\
              BinNumForSize (size d) = (BinNumForSize rb + i)%nat) as Hin.
  { intros x d Hd Hu Hf. destruct (binned s [] x d Hok Hd Hu) as (l & Hb & Hl & Hx); [set_solver|].
    pose proof (live_range _ _ Hlay _ _ Hd). unfold fits in Hf. zbool.
    pose proof (BinNumForSize_mono rb (size d) ltac:(lia)).
    exists (BinNumForSize (size d) - BinNumForSize rb)%nat, l. rewrite lookup_drop.
    replace (_ + _)%nat with (BinNumForSize (size d)) by lia. split; [done|]. split; [done|]. lia. }
  assert (forall b l x, drop (BinNumForSize rb) (bins s) !! b = Some l -> x ∈ l ->
            exists c, live (regions s) (chunks s) x c /\ bin_num c = Some (BinNumForSize rb + b)%nat)
    as Hmem.
  { intros b l x Hb Hx. rewrite lookup_drop in Hb. by apply (Hel _ l). }
  destruct (find_in_bins_ok (chunks s) rb fb (BinNumForSize rb) (drop (BinNumForSize rb) (bins s)))
    as [[-> Hno]|(i & k & h & l & -> & Hl & (Hk & (c & Hc & Hf) & Hfirst) & Hbefore)].
  - intros b l x Hb Hx. destruct (Hmem b l x Hb Hx) as (c & [Hc _] & _). by exists c.
  - left. split; [done|]. intros h c Hl Hu. destruct (fits rb fb c) eqn:Ef; [|done].
    destruct (Hin h c Hl Hu Ef) as (i & l & Hi & Hx & _).
    by rewrite (Hno i l Hi h c Hx (proj1 Hl)) in Ef.
  - right. destruct (Hmem i l h Hl) as (c0 & Hlc & Hbc); [by eapply list_elem_of_lookup_2|].
    assert (c0 = c) as -> by (destruct Hlc; congruence).
    exists (BinNumForSize rb + i)%nat, k, h, l, c. rewrite lookup_drop in Hl.
    split; [done|]. split; [done|]. split; [done|]. split; [done|].
    assert (in_use c = false) as Hu.
    { specialize (Hst h c Hlc). rewrite decide_False in Hst by set_solver.
      destruct (in_use c); [|done]. destruct Hst as [Hst _]. by rewrite Hst in Hbc. }
    split; [done|]. split; [done|]. intros x d Hd Hud Hfd.
    destruct (Hin x d Hd Hud Hfd) as (j & l' & Hj & Hx & Hbd).
    destruct (Hbin h c _ Hlc Hbc) as [Hbe _].
    pose proof (live_range _ _ Hlay _ _ Hd). pose proof (live_range _ _ Hlay _ _ Hlc).
    destruct (decide (j < i)%nat) as [Hji|Hji].
    { by rewrite (Hbefore j l' Hji Hj x d Hx (proj1 Hd)) in Hfd. }
    destruct (decide (j = i)) as [->|Hne].
    2:{ left. destruct (decide (size c < size d)); [done|].
        pose proof (BinNumForSize_mono (size d) (size c) ltac:(lia)). lia. }
    rewrite lookup_drop, Hl in Hj. injection Hj as <-.
    apply list_elem_of_lookup in Hx as [m Hm].
    destruct (decide (m < k)%nat) as [Hmk|Hmk].
    { by rewrite (Hfirst m x d Hmk Hm (proj1 Hd)) in Hfd. }
    destruct (decide (m = k)) as [->|Hmne].
    { rewrite Hk in Hm. injection Hm as <-. assert (d = c) as -> by (by eapply live_fun).
      right. lia. }
    pose proof (sorted_lookup _ l k m h x (Hsrt _ l Hl) Hk Hm ltac:(lia)) as Hcmp. cbn in Hcmp.
    apply ChunkComparator_spec in Hcmp. unfold chunk_at in Hcmp.
    rewrite Hc, (proj1 Hd) in Hcmp. cbn in Hcmp. unfold no_worse. lia.
Qed.

(** ** Handing out a chunk *)

Definition opts_ok (o : Options) : Prop := 0 < max_internal_fragmentation_bytes o < 2 ^ 63.

(** The split decision of [FindChunkPtr]. *)
Lemma split_ok s (h : nat) (c : Chunk) (rb : Z) :
  heap_ok [h] s -> live (regions s) (chunks s) h c -> opts_ok (opts s) ->
  0 < rb <= size c -> rb mod 256 = 0 ->
  runs (if (wrap_u64 (rb * 2) <=? size c)
           || (wrap_u64 (max_internal_fragmentation_bytes (opts s)) <=? wrap_u64 (size c - rb))
        then SplitChunk h rb else mret tt) s (fun _ s' =>
    heap_ok [h] s' /\ same_rest s s' /\ keeps s s' /\ (coalesced [] s -> coalesced [h] s') /\
    exists c', live (regions s') (chunks s') h c' /\ ptr c' = ptr c /\
      (size c' = rb \/ (size c' = size c /\ size c < 2 * rb /\
                        size c - rb < max_internal_fragmentation_bytes (opts s)))).
Proof.
  intros Hok Hl [Hf1 Hf2] Hrb Hmul. pose proof (live_range _ _ (ho_layout _ _ Hok) _ _ Hl) as Hr.
  rewrite !wrap_u64_id by (unfold in_u64; lia). destruct (_ || _) eqn:E.
  - apply orb_true_iff in E.
    eapply runs_mono; [apply (SplitChunk_ok s h c rb); try done|].
    { destruct E; zbool; lia. }
    cbn. intros _ s' (H1 & H2 & H3 & (hn & H4) & H5). do 4 (split; [done|]).
    eexists. split; [exact H4|]. split; [done|]. by left.
  - zbool. apply runs_mret. do 3 (split; [done|]). split.
    { intros HE k d k' d' Hk Hk'. apply HE; set_solver. }
    exists c. split; [done|]. split; [done|]. right. lia.
Qed.

(** What a successful search leaves behind: [p] is the address of the best chunk [c] that was free
    and the user now holds it with [sz] bytes. *)
Record granted (s s' : t SA) (rb nb fb p sz : Z) : Prop := {
  gr_best : exists h c, live (regions s) (chunks s) h c /\ in_use c = false /\ ptr c = p /\
    fits rb fb c = true /\
    (forall x d, live (regions s) (chunks s) x d -> in_use d = false -> fits rb fb d = true ->
       no_worse c d) /\
    (sz = rb \/ (sz = size c /\ sz < 2 * rb /\ sz - rb < max_internal_fragmentation_bytes (opts s)));
  gr_user : forall q, user s' q =
    if decide (q = p) then Some (sz, nb, next_allocation_id s) else user s q;
  gr_used : used_bytes s' = used_bytes s + sz;
  gr_rest : same_rest (with_stats (with_next_id s (next_allocation_id s + 1))
                         (count_alloc (stats s) sz)) s';
  gr_points : points_ok s -> points_ok s';
  gr_bounds : forall q, bounds (regions s') q = bounds (regions s) q;
  gr_length : (length (chunks s) <= length (chunks s'))%nat
}.

(** The end of [FindChunkPtr]: marking the held chunk as used. *)
Lemma grab_ok s (h : nat) (c : Chunk) (nb : Z) :
  heap_ok [h] s -> live (regions s) (chunks s) h c -> 0 < next_allocation_id s ->
  runs (modify_chunk h (fun c => set_requested_size c nb) ;;
        id ← gets next_allocation_id;
        modify_chunk h (fun c => set_allocation_id c id) ;;
        modify (fun s => with_next_id s (id + 1)) ;;
        c ← ChunkFromHandle h;
        modify (fun s => with_stats s (count_alloc (stats s) (size c))) ;;
        mret (ptr c)) s (fun p s' =>
    p = ptr c /\ heap_ok [] s' /\ (coalesced [h] s -> coalesced [] s') /\
    (forall q, user s' q = if decide (q = ptr c) then Some (size c, nb, next_allocation_id s)
                          else user s q) /\
    used_bytes s' = used_bytes s + size c /\
    same_rest (with_stats (with_next_id s (next_allocation_id s + 1)) (count_alloc (stats s) (size c))) s' /\
    (points_ok s -> points_ok s') /\ regions s' = regions s /\ length (chunks s') = length (chunks s)).
Proof.
  intros Hok Hl Hid. pose proof (lookup_lt_Some _ _ _ (proj1 Hl)) as Hlt.
  pose proof (proj1 (ho_hold _ _ Hok) h c Hl) as Hh. rewrite decide_True in Hh by set_solver.
  destruct Hh as [Hu Hb].
  apply runs_bind. eapply runs_modify_chunk; [exact (proj1 Hl)|].
  apply runs_bind. apply runs_gets. apply runs_bind.
  eapply runs_modify_chunk; [cbn; by apply list_lookup_insert_eq|].
  apply runs_bind. apply runs_modify. apply runs_bind.
  eapply runs_chunk; [cbn; apply list_lookup_insert_eq; by rewrite length_insert|].
  apply runs_bind. apply runs_modify. apply runs_mret.
  cbn [chunks with_chunks with_next_id with_stats next_allocation_id stats size ptr
       set_requested_size set_allocation_id]. rewrite list_insert_insert_eq.
  set (id := next_allocation_id s).
  set (c' := set_allocation_id (set_requested_size c nb) id).
  assert (in_use c' = true) as Hu' by (unfold in_use; cbn; apply negb_true_iff, Z.eqb_neq; lia).
  set (s1 := with_chunks s (<[h := c']> (chunks s))).
  assert (heap_ok [] s1) as Hok1.
  { apply (update_ok s [h] [] h c c' Hok Hl); [done..|set_solver|].
    rewrite decide_False by set_solver. done. }
  split; [done|]. split; [by apply (heap_ok_ext [] s1)|]. split.
  { intros HE. apply (coalesced_ext [] s1); [done..|].
    apply (coalesced_drop s1 [] h c' (ho_layout _ _ Hok1)).
    - by apply update_coalesced with c.
    - apply (live_insert _ _ _ _ _ Hl); [done|by left].
    - intros [H _]. congruence. }
  split.
  { intros q. pose proof (update_user s h c c' q (ho_layout _ _ Hok) Hl eq_refl) as E.
    rewrite Hu' in E. exact E. }
  split.
  { pose proof (update_used s h c c' (proj1 Hl)) as E. unfold used in E. rewrite Hu, Hu' in E.
    transitivity (used_bytes s1); [done|]. change (used_bytes s1 = used_bytes s - 0 + size c) in E. lia. }
  split; [by split|]. split; [|split; [done|apply length_insert]].
  intros Hp. exact (update_points s h c c' (proj1 Hl) eq_refl Hp).
Qed.

Lemma FindChunkPtr_ok s (rb nb fb : Z) :
  heap_ok [] s -> opts_ok (opts s) -> 0 < next_allocation_id s ->
  0 < rb < 2 ^ 64 -> rb mod 256 = 0 ->
  runs (FindChunkPtr (BinNumForSize rb) rb nb fb) s (fun p s' =>
    heap_ok [] s' /\ (coalesced [] s -> coalesced [] s') /\
    ((p = 0 /\ s' = s /\
      forall h c, live (regions s) (chunks s) h c -> in_use c = false -> fits rb fb c = false) \/
     (0 < p /\ exists sz, granted s s' rb nb fb p sz))).
Proof.
  intros Hok Ho Hid Hrb Hmul. unfold FindChunkPtr.
  destruct (search_ok s rb fb Hok) as [[Hr Hno]|(b & k & h & l & c & Hr & Hb & Hk & Hl & Hu & Hf & Hbest)];
    [lia| |]; apply runs_bind; (eapply runs_asks; [exact Hr|]).
  { apply runs_mret. split; [done|]. split; [done|]. by left. }
  pose proof (live_range _ _ (ho_layout _ _ Hok) _ _ Hl) as Hrange.
  apply runs_bind. eapply runs_mono.
  { apply (RemoveFreeChunkIterFromBin_ok s [] b k h l Hok Hb Hk). set_solver. }
  intros _ s1 [Hok1 Hbs]. pose proof (bin_step_step _ _ _ _ Hbs) as [Hr1 Hk1 _].
  assert (live (regions s1) (chunks s1) h (set_bin_num c None)) as Hl1.
  { apply (bin_step_live _ _ _ _ _ _ Hbs). exists c. by rewrite decide_True. }
  apply runs_bind. eapply runs_chunk; [exact (proj1 Hl1)|].
  apply runs_bind. apply runs_gets. rewrite (sr_opts _ _ Hr1).
  apply runs_bind. eapply runs_mono.
  { rewrite <- (sr_opts _ _ Hr1).
    apply (split_ok s1 h (set_bin_num c None) rb Hok1 Hl1); [by rewrite (sr_opts _ _ Hr1)| |done].
    unfold fits in Hf. zbool. cbn. lia. }
  intros _ s2 (Hok2 & Hr2 & Hk2 & HE2 & c2 & Hl2 & Hp2 & Hsz). cbn in Hp2, Hsz.
  pose proof (same_rest_trans _ _ _ Hr1 Hr2) as Hr12.
  eapply runs_mono; [apply (grab_ok s2 h c2 nb Hok2 Hl2); by rewrite (sr_id _ _ Hr12)|].
  intros p s3 (-> & Hok3 & HE3 & Hus & Hub & Hr3 & Hpt & Hrg & Hlen).
  split; [done|]. split.
  { intros HE. apply HE3, HE2, (bin_step_coalesced _ _ _ _ _ Hbs), HE. }
  right. split; [rewrite Hp2; lia|]. exists (size c2).
  pose proof (keeps_trans _ _ _ Hk1 Hk2) as [Ku Kub Kp Ks Kl].
  rewrite Hp2 in *. split.
  - exists h, c. do 5 (split; [done|]). rewrite (sr_opts _ _ Hr1) in Hsz.
    destruct Hsz as [->|(-> & H1 & H2)]; [by left|right]. lia.
  - intros q. rewrite Hus. by rewrite (sr_id _ _ Hr12), Ku.
  - by rewrite Hub, Kub.
  - destruct Hr12, Hr3. cbn in *. split; cbn; congruence.
  - auto.
  - intros q. by rewrite Hrg.
  - lia.
Qed.
End Find.
