(* ===== verification/BfcGrow.v ===== *)
(** * Growing the heap of the BFC allocator

    [Extend] asks the sub-allocator for a block, registers it as a new region
    or as the growth of the region that ends where the block starts, and puts
    the new free chunk into a bin.  The lemmas show that the invariant
    survives, and when the search for a block size ends. *)

From S2P Require Import Prelude BfcRegion Bfc BfcInv BfcSplit BfcOps BfcFind.
Import Region Bfc.

(** ** A chunk at the end of a region *)
Section AddBlock.
Context (rs rs' : list AllocationRegion) (cs cs' : list Chunk) (h : nat) (cn : Chunk) (p n lo : Z)
  (o : option nat).
Hypothesis Hlay : layout_ok rs cs.
Hypothesis Hfresh : forall q, slot rs q <> Some h.
Hypothesis Hrs' : regions_ok rs'.
Hypothesis Hn : 0 < n.
Hypothesis Hmul : n mod 256 = 0.
Hypothesis Hblock : forall q, p <= q < p + n -> bounds rs q = None.
Hypothesis Hslot' : forall q, slot rs' q = if decide (q = p) then Some h else slot rs q.
Hypothesis Hbounds' : forall q,
  bounds rs' q = if decide (lo <= q < p + n) then Some (lo, p + n) else bounds rs q.
Hypothesis Hcsn : cs' !! h = Some cn.
Hypothesis Hshn : shape cn = (p, n, o, None).

(** The chunk before the new one, if the block extends a region. *)
Hypothesis Hlast :
  match o with
  | None => lo = p
  | Some l => exists cl, live rs cs l cl /\ ptr cl + size cl = p /\ next cl = None /\
                bounds rs (ptr cl) = Some (lo, p)
  end.

Definition append (k : nat) (d : Chunk) : Chunk :=
  if decide (o = Some k) then set_next d (Some h) else d.

Hypothesis Hcs : forall k, k <> h -> cs' !! k = append k <$> cs !! k.

Lemma append_fields (k : nat) (d : Chunk) :
  ptr (append k d) = ptr d /\ size (append k d) = size d /\ prev (append k d) = prev d /\
  allocation_id (append k d) = allocation_id d /\ requested_size (append k d) = requested_size d /\
  bin_num (append k d) = bin_num d /\ freed_at_count (append k d) = freed_at_count d.
Proof using. clear. unfold append. case_decide; done. Qed.

Lemma block_slot (q : Z) : p <= q < p + n -> slot rs q = None.
Proof using Hlay Hblock.
  clear -Hlay Hblock. intros Hq. destruct (slot rs q) as [k|] eqn:Hs; [|done]. exfalso.
  apply slot_Some in Hs as (r & Hin & Hr & _); [|apply Hlay].
  assert (bounds rs q = Some (r_ptr r, r_end_ptr r)) as E.
  { apply bounds_Some; [apply Hlay|]. exists r. repeat split; try done; lia. }
  by rewrite Hblock in E.
Qed.

Lemma grow_live1 : live rs' cs' h cn.
Proof using Hslot' Hcsn Hshn.
  unfold shape in Hshn. split; [done|]. injection Hshn as -> _ _ _. by rewrite Hslot', decide_True.
Qed.

Lemma grow_live (k : nat) (d : Chunk) : live rs cs k d -> live rs' cs' k (append k d).
Proof using Hlay Hblock Hfresh Hslot' Hcs Hn.
  intros [Hd Hs]. destruct (append_fields k d) as (Hp & _).
  assert (k <> h) by (intros ->; by apply (Hfresh (ptr d))). split.
  - rewrite Hcs by done. by rewrite Hd.
  - rewrite Hp, Hslot', decide_False; [done|]. intros E. rewrite E, block_slot in Hs; [done|lia].
Qed.

Lemma grow_live_inv (k : nat) (d : Chunk) :
  live rs' cs' k d -> (k = h /\ d = cn) \/ (k <> h /\ exists d0, live rs cs k d0 /\ d = append k d0).
Proof using Hfresh Hslot' Hcsn Hcs.
  intros [Hd Hs]. rewrite Hslot' in Hs.
  destruct (decide (k = h)) as [->|H1]; [left; split; [done|congruence]|].
  right. split; [done|]. case_decide; [congruence|]. rewrite Hcs in Hd by done.
  apply fmap_Some in Hd as (d0 & Hd0 & ->). exists d0. split; [|done].
  destruct (append_fields k d0) as (Hp & _). rewrite Hp in Hs. by split.
Qed.

Lemma grow_chunk_ok_new : chunk_ok rs' cs' h cn.
Proof.
  pose proof Hshn as E. unfold shape in E. injection E as Ep Es Epr En.
  assert (lo <= p /\ (p - lo) mod 256 = 0 /\ (o = None <-> p = lo)) as (Hlo & Hm & Ho).
  { destruct o as [l|]; [|rewrite Hlast; rewrite Z.sub_diag; repeat split; lia].
    destruct Hlast as (cl & Hl & Hend & _ & Hb).
    destruct (lo_chunks _ _ Hlay _ _ Hl) as [Hs Hms (lo' & hi' & Hb' & Hal & _) _ _ _].
    rewrite Hb in Hb'. injection Hb' as <- <-.
    apply bounds_Some in Hb as (r & _ & <- & _ & Hr); [|apply Hlay].
    split; [lia|]. split; [|split; [done|lia]].
    replace (p - r_ptr r) with ((ptr cl - r_ptr r) + size cl) by lia.
    by rewrite Z.add_mod, Hal, Hms by lia. }
  split; rewrite ?Ep, ?Es, ?Epr, ?En; try done.
  - exists lo, (p + n). rewrite Hbounds', decide_True by lia. split; [done|]. split; [done|].
    split; [lia|]. split; [done|]. done.
  - intros q Hq. rewrite Hslot', decide_False by lia. apply block_slot. lia.
  - intros m Hm'. pose proof Hlast as HL. rewrite Hm' in HL. destruct HL as (cl & Hl & _).
    exists (append m cl). split; [by apply grow_live|]. unfold append. by rewrite decide_True.
Qed.

Lemma grow_chunk_ok (k : nat) (d : Chunk) : live rs cs k d -> chunk_ok rs' cs' k (append k d).
Proof.
  intros Hk.
  destruct (lo_chunks _ _ Hlay _ _ Hk) as [Hs Hm (lo1 & hi1 & Hb & Hal & Hle & Hprev & Hnext) Hi Hx Hv].
  destruct (append_fields k d) as (Ep & Es & Epr & _).
  pose proof Hb as Hb0. apply bounds_Some in Hb0 as (r & Hin & Hr1 & Hr2 & Hr); [|apply Hlay].
  split; rewrite ?Ep, ?Es, ?Epr.
  - done.
  - done.
  - pose proof Hlast as HL. destruct (decide (lo <= ptr d < p + n)) as [Hin'|Hout].
    + assert (ptr d < p) as Hdp.
      { destruct (decide (ptr d < p)); [done|]. rewrite Hblock in Hb; [done|lia]. }
      destruct o as [l|] eqn:Eo; [|lia]. destruct HL as (cl & Hl & Hend & Hnl & Hbl).
      destruct (bounds_disjoint rs (ptr cl) (ptr d) lo p lo1 hi1) as [-> ->];
        [apply Hlay|done|done|lia|].
      exists lo, (p + n). rewrite Hbounds', decide_True by lia.
      split; [done|]. split; [done|]. split; [lia|]. split; [done|].
      unfold append. rewrite Eo. case_decide as E; cbn; [split; [done|lia]|].
      split; [|lia]. intros Hnd%Hnext. exfalso. apply E. f_equal.
      destruct (decide (l = k)) as [|Hne]; [done|].
      pose proof (lo_chunks _ _ Hlay _ _ Hl) as [? _ _ _ _ _].
      pose proof (live_disjoint _ _ Hlay l k cl d Hl Hk Hne). lia.
    + exists lo1, hi1. rewrite Hbounds', decide_False by lia. do 4 (split; [done|]).
      unfold append. case_decide as E; [|done]. exfalso. rewrite E in HL.
      destruct HL as (cl & Hl & Hend & Hnl & Hbl). assert (cl = d) as -> by (by eapply live_fun).
      rewrite Hb in Hbl. injection Hbl as -> ->. lia.
  - intros q Hq. rewrite Hslot'. case_decide as Eq; [|by apply Hi]. exfalso. subst q.
    assert (bounds rs p = Some (lo1, hi1)) as E by (apply bounds_Some; [apply Hlay|]; exists r; repeat split; try done; lia).
    rewrite Hblock in E; [done|lia].
  - intros m. unfold append. case_decide as E; cbn.
    + intros [= <-]. exists cn. split; [apply grow_live1|]. unfold shape in Hshn.
      injection Hshn as -> _ -> _. split; [|done].
      rewrite E in Hlast. destruct Hlast as (cl & Hl & Hend & _).
      assert (cl = d) as -> by (by eapply live_fun). done.
    + intros Hnm. destruct (Hx m Hnm) as (cm & Hlm & Hpm & Hprm).
      exists (append m cm). split; [by apply grow_live|].
      destruct (append_fields m cm) as (-> & _ & -> & _). done.
  - intros m Hpm. destruct (Hv m Hpm) as (cm & Hlm & Hnm).
    exists (append m cm). split; [by apply grow_live|]. unfold append. case_decide as E; [|done].
    exfalso. rewrite E in Hlast. destruct Hlast as (cl & Hl & _ & Hnl' & _).
    assert (cl = cm) as -> by (by eapply live_fun). congruence.
Qed.

Lemma grow_layout : layout_ok rs' cs'.
Proof.
  split.
  - done.
  - intros q k Hq. rewrite Hslot' in Hq. case_decide as Hqp.
    { injection Hq as <-. exists cn. split; [done|]. unfold shape in Hshn. congruence. }
    destruct (lo_slots _ _ Hlay _ _ Hq) as (d & Hd & <-).
    exists (append k d). split; [|apply append_fields].
    rewrite Hcs; [by rewrite Hd|]. intros ->. by apply (Hfresh (ptr d)).
  - intros q lo1 hi1. rewrite Hbounds', Hslot'. case_decide as Hq.
    + intros [= <- <-]. case_decide as Elo; [done|]. pose proof Hlast as HL.
      destruct o as [l|]; [|done]. destruct HL as (cl & _ & _ & _ & Hb).
      by apply (lo_first _ _ Hlay (ptr cl) lo p).
    + intros Hb. case_decide; [done|]. by apply (lo_first _ _ Hlay q lo1 hi1).
  - intros k d [[-> ->]|(Hne & d0 & Hd0 & ->)]%grow_live_inv;
      [apply grow_chunk_ok_new|by apply grow_chunk_ok].
Qed.

Lemma grow_bins (bs : list (list nat)) :
  bin_num cn = None -> bins_ok rs cs bs -> bins_ok rs' cs' bs.
Proof.
  intros Hbn [Hlen Hsrt Hel Hbin].
  assert (forall b l x, bs !! b = Some l -> x ∈ l ->
            exists d, live rs cs x d /\ x <> h /\ bin_num d = Some b) as Hmem.
  { intros b l x Hbl Hx. destruct (Hel b l x Hbl Hx) as (d & Hd & Hdb). exists d.
    split; [done|]. split; [|done]. intros ->. destruct Hd as [_ Hd]. by apply (Hfresh (ptr d)). }
  split; [done| | |].
  - intros b l Hbl. eapply sorted_comparator_ext_in; [|by apply (Hsrt b)].
    intros x y Hx Hy. unfold ChunkComparator, chunk_at.
    destruct (Hmem b l x Hbl Hx) as (dx & [Hdx _] & H1x & _).
    destruct (Hmem b l y Hbl Hy) as (dy & [Hdy _] & H1y & _).
    rewrite !Hcs, Hdx, Hdy by done. cbn.
    destruct (append_fields x dx) as (-> & -> & _), (append_fields y dy) as (-> & -> & _). done.
  - intros b l x Hbl Hx. destruct (Hmem b l x Hbl Hx) as (d & Hd & H1 & Hdb).
    exists (append x d). split; [by apply grow_live|].
    destruct (append_fields x d) as (_ & _ & _ & _ & _ & -> & _). done.
  - intros x d b [[-> ->]|(H1 & d0 & Hd0 & ->)]%grow_live_inv Hdb; [congruence|].
    destruct (append_fields x d0) as (_ & Es & _ & _ & _ & Eb & _). rewrite Eb in Hdb. rewrite Es.
    by apply Hbin.
Qed.

Lemma grow_hold (X : list nat) :
  in_use cn = false -> bin_num cn = None -> hold_ok X rs cs -> hold_ok (h :: X) rs' cs'.
Proof.
  intros Hun Hbn [Hst Hex]. split.
  - intros x d [[-> ->]|(H1 & d0 & Hd0 & ->)]%grow_live_inv.
    + rewrite decide_True by set_solver. done.
    + specialize (Hst x d0 Hd0).
      destruct (append_fields x d0) as (_ & _ & _ & Ea & _ & Eb & _). unfold in_use in *.
      rewrite Ea, Eb. destruct (decide (x ∈ h :: X)); destruct (decide (x ∈ X)); set_solver.
  - intros x [->|Hx]%elem_of_cons; [exists cn; apply grow_live1|].
    destruct (Hex x Hx) as [d Hd]. exists (append x d). by apply grow_live.
Qed.

Lemma grow_dead : dead_ok rs cs -> dead_ok rs' cs'.
Proof.
  intros Hd k d Hk.
  destruct (decide (k = h)) as [->|H1]; [left; destruct grow_live1; congruence|].
  rewrite Hcs in Hk by done. apply fmap_Some in Hk as (d0 & Hd0 & ->).
  destruct (append_fields k d0) as (Ep & _ & _ & Ea & _ & Eb & _). unfold in_use.
  rewrite Ea, Eb, Ep.
  destruct (Hd k d0 Hd0) as [Hs|Hs]; [left|by right]. rewrite Hslot', decide_False; [done|].
  intros E. rewrite E, block_slot in Hs; [done|lia].
Qed.

Lemma grow_free (cs0 : list Chunk) (fl : option nat) :
  (forall k, k <> h -> cs0 !! k = cs !! k) -> free_without h rs cs0 fl -> free_ok rs' cs' fl.
Proof.
  intros Hcs0 (l & Hp & Hnd & Hh & Hfl). exists l. split; [|split; [done|]].
  - assert (forall k, k ∈ l -> o <> Some k) as Hol.
    { intros k Hk E. pose proof Hlast as HL. rewrite E in HL. destruct HL as (cl & [_ Hl] & _).
      by apply (Hfl k (ptr cl)) in Hk. }
    clear Hnd Hfl. revert fl Hp. induction l as [|x l IH]; intros fl; cbn; [done|].
    intros (-> & d & Hd & Hud & Hbd & Hpd). split; [done|]. exists d.
    apply not_elem_of_cons in Hh as [Hxh Hh].
    split; [|split; [done|]; split; [done|]; apply IH; auto; intros k Hk; apply Hol; by right].
    rewrite Hcs by done. rewrite <- Hcs0, Hd by done. cbn. unfold append.
    rewrite decide_False; [done|]. apply Hol. by left.
  - intros k q Hk. rewrite Hslot'. case_decide; [congruence|]. by apply Hfl.
Qed.

Lemma grow_slot_point (q : Z) : slot_point rs q -> slot_point rs' q.
Proof.
  intros (lo1 & hi1 & Hb & Hm). unfold slot_point. rewrite Hbounds'. case_decide as Hq; [|by exists lo1, hi1].
  exists lo, (p + n). split; [done|]. pose proof Hlast as HL. destruct o as [l|].
  - destruct HL as (cl & Hl & Hend & Hnl & Hbl).
    assert (q < p). { destruct (decide (q < p)); [done|]. rewrite Hblock in Hb; [done|lia]. }
    destruct (bounds_disjoint rs (ptr cl) q lo p lo1 hi1) as [-> ->]; [apply Hlay|done|done|lia|done].
  - subst lo. rewrite Hblock in Hb; [done|lia].
Qed.

Lemma grow_points :
  (forall h c, cs !! h = Some c -> slot_point rs (ptr c)) ->
  forall h c, cs' !! h = Some c -> slot_point rs' (ptr c).
Proof.
  intros Hpt k d Hk. destruct (decide (k = h)) as [->|Hkn].
  { apply (live_slot_point rs' cs' grow_layout h). simplify_eq. apply grow_live1. }
  rewrite Hcs in Hk by done. apply fmap_Some in Hk as (d0 & Hd0 & ->).
  destruct (append_fields k d0) as (-> & _). by eapply grow_slot_point, Hpt.
Qed.

Lemma grow_user (q : Z) : in_use cn = false -> user_at rs' cs' q = user_at rs cs q.
Proof.
  intros Hun. unfold user_at. rewrite Hslot'. case_decide as E.
  - subst q. rewrite Hcsn, Hun, block_slot; [done|lia].
  - destruct (slot rs q) as [k|] eqn:Hs; [|done].
    rewrite Hcs by (intros ->; by apply (Hfresh q)).
    destruct (cs !! k) as [d|]; [|done]. cbn. unfold in_use.
    by destruct (append_fields k d) as (_ & -> & _ & -> & -> & _).
Qed.

Lemma grow_coalesced (E : list nat) (SA : Type) (s s' : t SA) :
  regions s = rs -> chunks s = cs -> regions s' = rs' -> chunks s' = cs' ->
  coalesced E s -> coalesced (h :: E) s'.
Proof.
  intros E1 E2 E3 E4 HE k d k' d' Hk Hk'. rewrite E3, E4.
  intros [[-> ->]|(H1 & d0 & Hd0 & ->)]%grow_live_inv; [set_solver|].
  intros [[-> ->]|(H1' & d0' & Hd0' & ->)]%grow_live_inv; [set_solver|].
  destruct (append_fields k d0) as (_ & _ & _ & Ea & _ & _ & Ef).
  destruct (append_fields k' d0') as (_ & _ & _ & Ea' & _ & _ & Ef').
  unfold safe_free, in_use. rewrite Ea, Ef, Ea', Ef'. unfold append at 1.
  case_decide; cbn; [congruence|]. rewrite <- E1, <- E2 in *.
  intros Hn' Hs Hs'. apply (HE k d0 k' d0'); set_solver.
Qed.
End AddBlock.

(** ** The walk to the last chunk *)
Section Walk.
Context (rs : list AllocationRegion) (cs cs0 : list Chunk) (h : nat).
Hypothesis Hlay : layout_ok rs cs.
Hypothesis Hfresh : forall q, slot rs q <> Some h.
Hypothesis Hcs0 : forall k, k <> h -> cs0 !! k = cs !! k.

(** The number of entries above address [a]; it bounds the rest of a walk. *)
Definition above (a : Z) : nat :=
  length (List.filter (fun k => match cs !! k with Some d => a <? ptr d | None => false end)
            (seq 0 (length cs))).

Lemma above_lt (k : nat) (d : Chunk) (a : Z) :
  cs !! k = Some d -> a < ptr d -> (above (ptr d) < above a)%nat.
Proof using.
  clear. intros Hd Ha. unfold above.
  assert (k ∈ seq 0 (length cs)) as Hk.
  { apply list_elem_of_In, in_seq. apply lookup_lt_Some in Hd. lia. }
  revert Hk. generalize (seq 0 (length cs)). intros l Hk.
  set (f := fun b x => match cs !! x with Some d => b <? ptr d | None => false end).
  change (length (List.filter (f (ptr d)) l) < length (List.filter (f a) l))%nat.
  assert (forall x, f (ptr d) x = true -> f a x = true) as Himp.
  { intros x. unfold f. destruct (cs !! x); [|done]. rewrite !Z.ltb_lt. lia. }
  assert (f (ptr d) k = false) as Hf1 by (unfold f; rewrite Hd; apply Z.ltb_irrefl).
  assert (f a k = true) as Hf2 by (unfold f; rewrite Hd; by apply Z.ltb_lt).
  assert (forall l, length (List.filter (f (ptr d)) l) <= length (List.filter (f a) l))%nat as Hle.
  { clear -Himp. induction l as [|x l IH]; cbn; [done|].
    destruct (f (ptr d) x) eqn:E; [rewrite (Himp x E); cbn; lia|]. destruct (f a x); cbn; lia. }
  induction l as [|x l IH]; [by apply elem_of_nil in Hk|].
  apply elem_of_cons in Hk as [<-|Hk]; cbn.
  - rewrite Hf1, Hf2. cbn. pose proof (Hle l). lia.
  - specialize (IH Hk). destruct (f (ptr d) x) eqn:E; [rewrite (Himp x E); cbn; lia|].
    destruct (f a x); cbn; lia.
Qed.

Lemma above_total (k : nat) (d : Chunk) : cs !! k = Some d -> (above (ptr d) < length cs)%nat.
Proof using.
  clear. intros Hd. pose proof (above_lt k d (ptr d - 1) Hd ltac:(lia)).
  unfold above in *. pose proof (filter_length_le (fun k => match cs !! k with
    Some d0 => ptr d - 1 <? ptr d0 | None => false end) (seq 0 (length cs))) as H'.
  rewrite length_seq in H'. lia.
Qed.

Lemma last_chunk_ok (fuel k : nat) (c : Chunk) (lo hi : Z) :
  live rs cs k c -> (above (ptr c) < fuel)%nat -> bounds rs (ptr c) = Some (lo, hi) ->
  exists l cl, last_chunk fuel cs0 k = Some l /\ live rs cs l cl /\ next cl = None /\
    bounds rs (ptr cl) = Some (lo, hi).
Proof.
  revert k c. induction fuel as [|fuel IH]; intros k c Hl Hf Hb; [lia|]. cbn.
  rewrite Hcs0 by (intros ->; by apply (Hfresh (ptr c)), Hl). rewrite (proj1 Hl). cbn.
  destruct (next c) as [n|] eqn:En; [|by exists k, c].
  destruct (ck_next _ _ _ _ (lo_chunks _ _ Hlay _ _ Hl) _ En) as (cn & Hln & Hpn & _).
  pose proof (live_range _ _ Hlay _ _ Hl).
  apply (IH n cn Hln).
  - pose proof (above_lt n cn (ptr c) (proj1 Hln) ltac:(lia)). lia.
  - by eapply (next_same_region rs cs k n c cn).
Qed.

End Walk.

(** Every address of a region lies in a chunk. *)
Lemma chunk_cover (rs : list AllocationRegion) (cs : list Chunk) (q lo hi : Z) :
  layout_ok rs cs -> bounds rs q = Some (lo, hi) ->
  exists h c, live rs cs h c /\ ptr c <= q < ptr c + size c.
Proof.
  intros Hlay Hb. pose proof Hb as Hb0.
  apply bounds_Some in Hb0 as (r & Hin & Hr1 & Hr2 & Hr); [|apply Hlay].
  assert (forall n h c, (above cs (ptr c) < n)%nat -> live rs cs h c -> ptr c <= q ->
            bounds rs (ptr c) = Some (lo, hi) ->
            exists h c, live rs cs h c /\ ptr c <= q < ptr c + size c) as Hwalk.
  { induction n as [|n IH]; intros h c Ha Hl Hq Hbc; [lia|].
    destruct (decide (q < ptr c + size c)); [by exists h, c|].
    destruct (lo_chunks _ _ Hlay _ _ Hl) as [Hs _ (lo' & hi' & Hb' & _ & _ & _ & Hend) _ Hnx _].
    rewrite Hbc in Hb'. injection Hb' as <- <-.
    destruct (next c) as [m|] eqn:En; [|assert (ptr c + size c = hi) by (by apply Hend); lia].
    destruct (Hnx m eq_refl) as (cm & Hlm & Hpm & _). apply (IH m cm); [|done|lia|].
    - pose proof (above_lt cs m cm (ptr c) (proj1 Hlm) ltac:(lia)). lia.
    - by eapply (next_same_region rs cs h m c cm). }
  destruct (lo_first _ _ Hlay _ _ _ Hb) as [h Hh]. destruct (lo_slots _ _ Hlay _ _ Hh) as (c & Hc & Hp).
  apply (Hwalk (S (above cs (ptr c))) h c); [lia|split; congruence|lia|].
  rewrite Hp. apply bounds_Some; [apply Hlay|]. exists r. repeat split; try done; lia.
Qed.

(** ** Registering a block *)

Lemma set_handle_ptr (rs rs' : list AllocationRegion) (p : Z) (h : option nat) (i : nat) :
  set_handle rs p h = Some rs' -> r_ptr <$> rs' !! i = r_ptr <$> rs !! i.
Proof.
  unfold set_handle, RegionFor. destruct (rs !! upper_bound rs p) as [r|] eqn:E; [|done]. cbn.
  unfold region_set_handle. case_match; [|done]. cbn. intros [= <-].
  destruct (decide (i = upper_bound rs p)) as [->|Hne].
  - rewrite list_lookup_insert_eq by (by eapply lookup_lt_Some). by rewrite E.
  - by rewrite list_lookup_insert_ne.
Qed.

(** The handle of the first slot of a region. *)
Lemma region_first (rs : list AllocationRegion) (i : nat) (r : AllocationRegion) :
  regions_ok rs -> rs !! i = Some r -> region_get_handle r (r_ptr r) = Some (slot rs (r_ptr r)).
Proof.
  intros Hok Hi. pose proof (list_elem_of_lookup_2 _ _ _ Hi) as Hin.
  pose proof (regions_ok_elem _ _ Hok Hin) as [].
  assert (slot_point rs (r_ptr r)) as Hsp.
  { exists (r_ptr r), (r_end_ptr r). rewrite Z.sub_diag. split; [|done].
    apply bounds_Some; [done|]. exists r. repeat split; try done; lia. }
  rewrite <- (get_handle_slot _ _ Hok Hsp). unfold get_handle.
  rewrite (RegionFor_find rs (r_ptr r) r) by (try done; lia). done.
Qed.

Section Grow.
Context {SA : Type}.
Implicit Types s : t SA.

(** What growing the heap by the block [p, p + n) keeps. *)
Record grown s s' (p n : Z) : Prop := {
  gw_user : forall q, user s' q = user s q;
  gw_used : used_bytes s' = used_bytes s;
  gw_points : points_ok s -> points_ok s';
  gw_slots : forall q, slot_point (regions s) q -> slot_point (regions s') q;
  gw_bounds : forall q, is_Some (bounds (regions s') q) ->
    is_Some (bounds (regions s) q) \/ p <= q < p + n;
  gw_length : (length (chunks s) <= length (chunks s'))%nat
}.

(** The region part of [add_block]. *)
Lemma added_region s (p n : Z) :
  layout_ok (regions s) (chunks s) -> 0 < p -> 0 < n -> n mod 256 = 0 -> p + n < 2 ^ 63 ->
  (forall q, p <= q < p + n -> bounds (regions s) q = None) ->
  exists rs1 o lo,
    (if coalesce_regions s then AddOrExtendAllocationRegion (regions s) p n
     else (AddAllocationRegion (regions s) p n, None)) = (rs1, o) /\
    added_views (regions s) p n rs1 lo /\ slot_point rs1 p /\
    match o with
    | None => lo = p
    | Some i => exists r, r_ptr <$> rs1 !! i = Some lo /\ regions s !! i = Some r /\
                  r_ptr r = lo /\ r_end_ptr r = p
    end.
Proof.
  intros Hlay Hp Hn Hm Ht Hfree. pose proof (lo_regions _ _ Hlay) as Hok.
  assert (forall rs1 lo, added_views (regions s) p n rs1 lo -> lo <= p -> (p - lo) mod 256 = 0 ->
            slot_point rs1 p) as Hsp.
  { intros rs1 lo (_ & _ & Hb) Hle Hmod. exists lo, (p + n). by rewrite Hb, decide_True by lia. }
  assert (added_views (regions s) p n (AddAllocationRegion (regions s) p n) p) as Hnew
    by (by apply AddAllocationRegion_views).
  destruct (coalesce_regions s).
  2:{ exists (AddAllocationRegion (regions s) p n), None, p. split; [done|]. split; [done|].
      split; [|done]. apply (Hsp _ p Hnew); [lia|by rewrite Z.sub_diag]. }
  destruct (AddOrExtendAllocationRegion (regions s) p n) as [rs1 o] eqn:E.
  pose proof (AddOrExtendAllocationRegion_views _ p n Hok Hp Hn Hm Ht Hfree _ _ E) as Hv.
  destruct o as [i|].
  - destruct Hv as (r & r' & Hi & Hend & Hi' & Hptr & Hv). exists rs1, (Some i), (r_ptr r).
    split; [done|]. split; [done|].
    pose proof (regions_ok_elem _ _ Hok (list_elem_of_lookup_2 _ _ _ Hi)) as [? He ? Hmr _ _].
    split; [apply (Hsp _ _ Hv); [lia|]; by replace (p - r_ptr r) with (r_memory_size r) by lia|].
    exists r. rewrite Hi'. cbn. by rewrite Hptr.
  - exists rs1, None, p. split; [done|]. split; [done|]. split; [|done].
    apply (Hsp _ p Hv); [lia|by rewrite Z.sub_diag].
Qed.

(** A region has a last chunk, which the walk from its first chunk reaches. *)
Lemma region_last s (i h : nat) (r : AllocationRegion) (cs0 : list Chunk) (rs2 : list AllocationRegion) :
  layout_ok (regions s) (chunks s) -> regions s !! i = Some r ->
  (forall q, slot (regions s) q <> Some h) -> (forall k, k <> h -> cs0 !! k = chunks s !! k) ->
  (length (chunks s) <= length cs0)%nat ->
  regions_ok rs2 -> r_ptr <$> rs2 !! i = Some (r_ptr r) ->
  slot rs2 (r_ptr r) = slot (regions s) (r_ptr r) ->
  exists first l cl,
    (r2 ← rs2 !! i; o ← region_get_handle r2 (r_ptr r2); o) = Some first /\
    last_chunk (length cs0) cs0 first = Some l /\
    live (regions s) (chunks s) l cl /\ next cl = None /\ ptr cl + size cl = r_end_ptr r /\
    bounds (regions s) (ptr cl) = Some (r_ptr r, r_end_ptr r).
Proof.
  intros Hlay Hi Hunreg Hoth Hlen Hok2 Hi2 Hs2.
  pose proof (list_elem_of_lookup_2 _ _ _ Hi) as Hin. pose proof (lo_regions _ _ Hlay) as Hok.
  pose proof (regions_ok_elem _ _ Hok Hin) as [? ? ? _ _ _].
  assert (bounds (regions s) (r_ptr r) = Some (r_ptr r, r_end_ptr r)) as Hb.
  { apply bounds_Some; [done|]. exists r. repeat split; try done; lia. }
  destruct (lo_first _ _ Hlay _ _ _ Hb) as [first Hfirst].
  destruct (lo_slots _ _ Hlay _ _ Hfirst) as (cf & Hcf & Hpf).
  assert (live (regions s) (chunks s) first cf) as Hlf by (split; congruence).
  destruct (last_chunk_ok _ _ cs0 h Hlay Hunreg Hoth (length cs0) first cf (r_ptr r) (r_end_ptr r))
    as (l & cl & Hlast & Hll & Hnl & Hbl); [done| |congruence|].
  { pose proof (above_total (chunks s) first cf Hcf). lia. }
  exists first, l, cl. split; [|split; [done|split; [done|split; [done|split; [|done]]]]].
  - apply fmap_Some in Hi2 as (r2 & Hi2 & Er2). rewrite Hi2. cbn.
    rewrite (region_first rs2 i r2 Hok2 Hi2). cbn. congruence.
  - destruct (lo_chunks _ _ Hlay _ _ Hll) as [_ _ (lo' & hi' & Hb' & _ & _ & _ & Hend) _ _ _].
    rewrite Hbl in Hb'. injection Hb' as <- <-. by apply Hend.
Qed.

Lemma AllocateChunk_regions s (rs1 : list AllocationRegion) (h : nat) (cs0 : list Chunk)
    (fl : option nat) :
  AllocateChunk s = Some (h, with_free_list (with_chunks s cs0) fl) ->
  AllocateChunk (with_regions s rs1) =
    Some (h, with_free_list (with_chunks (with_regions s rs1) cs0) fl).
Proof.
  destruct s. unfold AllocateChunk, with_free_list, with_chunks, with_regions. cbn.
  destruct free_chunks_list0 as [k|]; [|by intros [= <- <- <-]].
  destruct (chunks0 !! k); [|done]. cbn. by intros [= <- <- <-].
Qed.

(** The record of the chunk for a new block. *)
Definition block_chunk (p n : Z) (o : option nat) (c : Chunk) : Prop :=
  shape c = (p, n, o, None) /\ in_use c = false /\ bin_num c = None.

(** [add_block] after its region and its entry have been made *)
Definition add_block_rest (oi : option nat) (h : nat) : M (SA := SA) unit :=
  (match oi with
   | Some i =>
       first ← asks (fun s => r ← regions s !! i; o ← region_get_handle r (r_ptr r); o);
       last ← asks (fun s => last_chunk (length (chunks s)) (chunks s) first);
       modify_chunk h (fun c => set_prev c (Some last)) ;;
       modify_chunk last (fun c => set_next c (Some h))
   | None => mret tt
   end) ;; h' ← TryToCoalesce h false; InsertFreeChunkIntoBin h'.

Definition new_block (cn0 : Chunk) (p n : Z) : Chunk :=
  set_freed_at_count (set_next (set_prev (set_allocation_id (set_size (set_ptr cn0 p) n) (-1)) None) None) 0.

(** The state in which the rest runs *)
Lemma add_block_start s (p n : Z) rs1 oi rs2 h cn0 cs0 fl Q :
  (if coalesce_regions s then AddOrExtendAllocationRegion (regions s) p n else (AddAllocationRegion (regions s) p n, None)) = (rs1, oi) ->
  AllocateChunk s = Some (h, with_free_list (with_chunks s cs0) fl) -> cs0 !! h = Some cn0 -> set_handle rs1 p (Some h) = Some rs2 ->
  runs (add_block_rest oi h) (with_regions (with_chunks (with_free_list (with_chunks (with_regions s rs1) cs0) fl)
    (<[h := new_block cn0 p n]> cs0)) rs2) Q ->
  runs (add_block p n) s Q.
Proof.
  intros Hadd Hrun Hcn0 Hset HQ. unfold add_block.
  apply runs_bind. apply runs_gets. rewrite Hadd. cbn [fst snd].
  apply runs_bind. apply runs_modify.
  apply runs_bind. eexists _, _. split; [by apply AllocateChunk_regions|].
  apply runs_bind. eapply runs_modify_chunk; [exact Hcn0|].
  apply runs_bind. eapply runs_updates; [|exact HQ].
  transitivity (rs ← set_handle rs1 p (Some h); Some (with_regions (with_chunks (with_free_list
    (with_chunks (with_regions s rs1) cs0) fl) (<[h := new_block cn0 p n]> cs0)) rs)); [done|]. by rewrite Hset.
Qed.

(** [add_block] up to coalescing, as one state change. *)
Lemma add_block_run s (p n : Z) :
  layout_ok (regions s) (chunks s) -> free_ok (regions s) (chunks s) (free_chunks_list s) ->
  0 < p -> 0 < n -> n mod 256 = 0 -> p + n < 2 ^ 63 ->
  (forall q, p <= q < p + n -> bounds (regions s) q = None) ->
  exists h cn0 cs0 fl lo o, fresh_entry (regions s) (chunks s) cs0 fl h cn0 /\
    match o with
    | None => lo = p
    | Some l => exists cl, live (regions s) (chunks s) l cl /\ ptr cl + size cl = p /\
                  next cl = None /\ bounds (regions s) (ptr cl) = Some (lo, p)
    end /\
    forall Q, (forall rs' cs' cn, regions_ok rs' ->
      (forall q, slot rs' q = if decide (q = p) then Some h else slot (regions s) q) ->
      (forall q, bounds rs' q = if decide (lo <= q < p + n) then Some (lo, p + n)
                                else bounds (regions s) q) ->
      length cs' = length cs0 -> cs' !! h = Some cn -> block_chunk p n o cn ->
      (forall k, k <> h -> cs' !! k = append h o k <$> chunks s !! k) ->
      runs (h' ← TryToCoalesce h false; InsertFreeChunkIntoBin h')
        (with_free_list (with_chunks (with_regions s rs') cs') fl) Q) ->
    runs (add_block p n) s Q.
Proof.
  intros Hlay Hfree Hp Hn Hm Ht Hblock.
  destruct (AllocateChunk_run s Hlay Hfree) as (h & cn0 & cs0 & fl & Hrun & Hfe).
  pose proof Hfe as [Hcn0 Hun Hbn Hunreg Hoth _ Hlen _].
  pose proof (lookup_lt_Some _ _ _ Hcn0) as Hlt.
  destruct (added_region s p n Hlay Hp Hn Hm Ht Hblock)
    as (rs1 & oi & lo & Hadd & (Hok1 & Hs1 & Hb1) & Hsp & Hoi).
  destruct (set_handle_slot rs1 p (Some h) Hok1 Hsp) as (rs2 & Hset & Hok2 & Hs2 & Hb2).
  assert (forall q, slot rs2 q = if decide (q = p) then Some h else slot (regions s) q) as Hs2'
    by (intros q; rewrite Hs2, Hs1; done).
  set (cn1 := new_block cn0 p n). set (cs1 := <[h := cn1]> cs0).
  pose proof (fun Q => add_block_start s p n rs1 oi rs2 h cn0 cs0 fl Q Hadd Hrun Hcn0 Hset) as Hprog. fold cn1 in Hprog. fold cs1 in Hprog.
  assert (cs1 !! h = Some cn1) as Hcs1 by (by apply list_lookup_insert_eq).
  assert (forall k, k <> h -> cs1 !! k = chunks s !! k) as Hoth1.
  { intros k Hk. unfold cs1. rewrite list_lookup_insert_ne by done. auto. }
  assert (length cs1 = length cs0) as Hlen1 by apply length_insert.
  destruct oi as [i|].
  - destruct Hoi as (r & Hi1 & Hi & Hlo & Hend).
    rewrite <- (set_handle_ptr rs1 rs2 p (Some h) i Hset), <- Hlo in Hi1.
    pose proof (regions_ok_elem _ _ (lo_regions _ _ Hlay) (list_elem_of_lookup_2 _ _ _ Hi)) as [? ? ? _ _ _].
    destruct (region_last s i h r cs1 rs2 Hlay Hi Hunreg Hoth1) as
      (first & l & cl & Hfirst & Hlast & Hll & Hnl & Hendl & Hbl); [lia|done|done| |].
    { rewrite Hs2', decide_False by lia. done. }
    assert (l <> h) as Hlh by (intros ->; by apply (Hunreg (ptr cl)), Hll).
    exists h, cn0, cs0, fl, lo, (Some l). split; [done|].
    split; [exists cl; rewrite <- Hlo, <- Hend; done|]. intros Q HQ. apply Hprog.
    apply runs_bind. apply runs_bind. eapply runs_asks; [exact Hfirst|].
    apply runs_bind. eapply runs_asks; [exact Hlast|].
    apply runs_bind. eapply runs_modify_chunk; [exact Hcs1|].
    eapply runs_modify_chunk.
    { cbn. rewrite list_lookup_insert_ne by done. rewrite Hoth1 by done. exact (proj1 Hll). }
    match goal with |- runs _ ?st _ => apply (HQ rs2 (chunks st) (set_prev cn1 (Some l))) end;
      cbn [chunks with_chunks with_regions with_free_list]; try done.
    + intros q. by rewrite Hb2, Hb1.
    + by rewrite !length_insert.
    + rewrite list_lookup_insert_ne by done. apply list_lookup_insert_eq. by rewrite Hlen1.
    + intros k Hk. unfold append. destruct (decide (k = l)) as [->|Hkl].
      * rewrite list_lookup_insert_eq by (rewrite length_insert, Hlen1;
          pose proof (lookup_lt_Some _ _ _ (proj1 Hll)); lia).
        rewrite (proj1 Hll). cbn. by rewrite decide_True.
      * rewrite !list_lookup_insert_ne by done. rewrite Hoth1 by done.
        destruct (chunks s !! k); cbn; [|done]. by rewrite decide_False by congruence.
  - exists h, cn0, cs0, fl, lo, None. split; [done|]. split; [done|]. intros Q HQ. apply Hprog.
    apply runs_bind. apply runs_mret. apply (HQ rs2 cs1 cn1); try done.
    + intros q. by rewrite Hb2, Hb1.
    + intros k Hk. rewrite Hoth1 by done. unfold append.
      destruct (chunks s !! k); cbn; [|done]. by rewrite decide_False.
Qed.

Lemma add_block_ok s (p n : Z) :
  heap_ok [] s -> 0 < p -> 0 < n -> n mod 256 = 0 -> p + n < 2 ^ 63 ->
  (forall q, p <= q < p + n -> bounds (regions s) q = None) ->
  runs (add_block p n) s (fun _ s' => heap_ok [] s' /\ same_rest s s' /\ grown s s' p n /\
    (coalesced [] s -> coalesced [] s')).
Proof.
  intros [Hlay Hbins Hhold Hfree Hdead] Hp Hn Hm Ht Hblock.
  destruct (add_block_run s p n Hlay Hfree Hp Hn Hm Ht Hblock)
    as (h & cn0 & cs0 & fl & lo & o & [Hcn0 Hun0 _ Hunreg Hoth Hused Hlen0 Hfw] & Ho & Hrun).
  apply Hrun. intros rs' cs' cn Hrs' Hs' Hb' Hlen' Hcn (Hsh & Hun & Hbn) Hcs.
  set (s1 := with_free_list (with_chunks (with_regions s rs') cs') fl).
  assert (heap_ok [h] s1) as Hok1.
  { split; cbn.
    - by eapply (grow_layout (regions s) rs' (chunks s) cs' h cn p n lo o).
    - by eapply (grow_bins (regions s) rs' (chunks s) cs' h cn p n o).
    - by eapply (grow_hold (regions s) rs' (chunks s) cs' h cn p n lo o).
    - by eapply (grow_free (regions s) rs' (chunks s) cs' h p lo o).
    - by eapply (grow_dead (regions s) rs' (chunks s) cs' h cn p n o). }
  assert (grown s s1 p n) as Hg1.
  { split; cbn.
    - intros q. by eapply (grow_user (regions s) rs' (chunks s) cs' h cn p n o).
    - unfold used_bytes. rewrite <- Hused. f_equal. apply list_eq. intros k. cbn.
      rewrite !list_lookup_fmap. unfold used.
      destruct (decide (k = h)) as [->|Hkn]; [rewrite Hcn, Hcn0; cbn; by rewrite Hun, Hun0|].
      rewrite Hcs, Hoth by done. destruct (chunks s !! k) as [d|]; [|done]. cbn. unfold in_use.
      by destruct (append_fields h o k d) as (_ & -> & _ & -> & _).
    - unfold points_ok. cbn. by eapply (grow_points (regions s) rs' (chunks s) cs' h cn p n lo o).
    - intros q. by eapply (grow_slot_point (regions s) rs' (chunks s) cn p n lo o).
    - intros q. rewrite Hb'. case_decide as Hq; [|by left]. intros _.
      destruct (decide (p <= q)); [right; lia|left]. destruct o as [l|]; [|lia].
      destruct Ho as (cl & _ & _ & _ & Hbl). exists (lo, p).
      apply bounds_Some; [apply Hlay|]. apply bounds_Some in Hbl as (r & Hin & E1 & E2 & _); [|apply Hlay].
      exists r. repeat split; try done; lia.
    - lia. }
  apply runs_bind. eapply runs_mono; [apply (TryToCoalesce_ok s1 h false Hok1)|].
  intros h' s2 (Hok2 & Hr2 & [Ku Kus Kp Kb Kl] & HE2).
  eapply runs_mono; [apply (InsertFreeChunkIntoBin_ok s2 [] h' Hok2); set_solver|].
  intros _ s3 (Hok3 & b & Hbs). pose proof (bin_step_step _ _ _ _ Hbs) as [Hr3 [Ju Jus Jp Jb Jl] _].
  destruct Hg1 as [Gu Gus Gp Gs Gb Gl].
  split; [done|]. split; [destruct Hr2, Hr3; split; cbn in *; congruence|]. split.
  - split; [|congruence|by auto| | |lia].
    + intros q. by rewrite Ju, Ku.
    + intros q Hq%Gs. destruct Hq as (l1 & h1 & Hq & Hm1). exists l1, h1. by rewrite Jb, Kb.
    + intros q. rewrite Jb, Kb. apply Gb.
  - intros HE. apply (bin_step_coalesced _ _ _ _ _ Hbs), HE2; [done|].
    by apply (grow_coalesced (regions s) rs' (chunks s) cs' h cn p n lo o Hlay Hunreg Hrs' Hn Hm
      Hblock Hs' Hb' Hcn Hsh Ho Hcs [] SA s s1).
Qed.
End Grow.
