(* ===== verification/BfcExtend.v ===== *)
(** * [Extend] and its sub-allocator

    The contract of [class SubAllocator] that the allocator relies on, a bump
    allocator that satisfies it, the two loops of [Extend] and the proof that
    [Extend] keeps the heap invariant whenever its loops end. *)

From S2P Require Import Prelude BfcRegion Bfc BfcInv BfcSplit BfcOps BfcFind BfcGrow.
Import Region Bfc.

(** ** The contract of the sub-allocator *)

(** [owned sa q]: the byte at [q] belongs to a block that [Alloc] handed out.  [Alloc] gives at
    least the bytes asked for (a whole number of slots, as the [DCHECK] of [AllocationRegion]
    demands), in fresh addresses; a failed call changes nothing that matters. *)
Class SubAllocatorLaws (SA : Type) `{!SubAllocator SA} := {
  owned : SA -> Z -> Prop;
  alloc_block : forall sa alignment n p r sa', 0 < n -> n mod 256 = 0 ->
    sub_Alloc sa alignment n = (Some (p, r), sa') ->
    0 < p /\ n <= r /\ r mod 256 = 0 /\ p + r < 2 ^ 63 /\
    (forall q, p <= q < p + r -> ~ owned sa q) /\
    (forall q, owned sa q \/ p <= q < p + r -> owned sa' q);
  alloc_none : forall sa alignment n sa', sub_Alloc sa alignment n = (None, sa') ->
    forall q, owned sa q -> owned sa' q
}.

(** A sub-allocator that hands out consecutive blocks below a limit. *)
Module Bump.
Record t := mk { next : Z; limit : Z; coalescing : bool }.

Definition Alloc (sa : t) (alignment n : Z) : option (Z * Z) * t :=
  if (0 <? next sa) && (0 <=? n) && (n mod 256 =? 0) && (next sa + n <=? Z.min (limit sa) (2 ^ 63 - 1))
  then (Some (next sa, n), mk (next sa + n) (limit sa) (coalescing sa))
  else (None, sa).

#[global] Instance sub : SubAllocator t := {
  sub_Alloc := Alloc;
  sub_Free := fun sa _ _ => sa;
  sub_SupportsCoalescing := coalescing
}.

#[global, refine] Instance laws : SubAllocatorLaws t := {
  owned := fun sa q => q < next sa
}.
Proof.
  - intros sa al n p r sa' Hn Hm. cbn. unfold Alloc. case_if; [|done]. intros [= <- <- <-]. cbn.
    repeat split; try lia.
  - intros sa al n sa'. cbn. unfold Alloc. case_if; [done|]. by intros [= <-].
Defined.
End Bump.

(** ** The doubling loop *)

(** Requests below 2^63 end the loop after at most 64 rounds. *)
Lemma double_until_ok (rb curr : Z) (inc : bool) (fuel : nat) :
  0 < curr < 2 ^ 64 -> rb < 2 ^ 63 -> rb <= curr * 2 ^ Z.of_nat fuel ->
  exists curr' inc', double_until (S fuel) rb curr inc = Some (curr', inc') /\
    rb <= curr' < 2 ^ 64 /\ curr <= curr' /\ (curr mod 256 = 0 -> curr' mod 256 = 0) /\
    (curr' = curr \/ (inc' = true /\ curr' < 2 * rb)) /\ (inc' = inc \/ inc' = true).
Proof.
  revert curr inc. induction fuel as [|fuel IH]; intros curr inc Hc Hrb Hf.
  - cbn. change (2 ^ Z.of_nat 0) with 1 in Hf. case_if; [lia|]. exists curr, inc. repeat split; auto; lia.
  - cbn [double_until]. case_if; [|exists curr, inc; repeat split; auto; lia].
    rewrite wrap_u64_id by (unfold in_u64; lia).
    rewrite Nat2Z.inj_succ, Z.pow_succ_r in Hf by lia.
    destruct (IH (curr * 2) true) as (c & i & Hr & H1 & H2 & H3 & H4 & H5); [lia|lia|lia|].
    cbn [double_until] in Hr. exists c, i. split; [exact Hr|]. split; [done|]. split; [lia|].
    assert (i = true) as -> by (by destruct H5).
    split; [|split; [|by right]].
    + intros Hm. apply H3. by rewrite Z.mul_mod, Hm by lia.
    + destruct H4 as [->|[_ H4]]; right; split; try done; lia.
Qed.

Lemma wrap_u64_mod256 (z : Z) : z mod 256 = 0 -> wrap_u64 z mod 256 = 0.
Proof. unfold wrap_u64. intros H. change (2 ^ 64) with (256 * 2 ^ 56). dlia. Qed.

Lemma double_until_result (fuel : nat) (rb curr c : Z) (inc i : bool) :
  double_until fuel rb curr inc = Some (c, i) -> rb <= c /\ (curr mod 256 = 0 -> c mod 256 = 0).
Proof.
  revert curr inc. induction fuel as [|fuel IH]; intros curr inc; cbn; [done|].
  case_if; [|by intros [= <- <-]]. intros [H1 H2]%IH. split; [done|]. intros Hm.
  apply H2, wrap_u64_mod256. by rewrite Z.mul_mod, Hm by lia.
Qed.

(** Once the region size has wrapped to zero, doubling it never reaches a request. *)
Lemma double_until_zero (rb : Z) (fuel : nat) (inc : bool) : 0 < rb -> double_until fuel rb 0 inc = None.
Proof.
  intros Hrb. revert inc. induction fuel as [|fuel IH]; intros inc; [done|]. cbn.
  rewrite (proj2 (Z.ltb_lt 0 rb)) by lia. apply IH.
Qed.

(** ** The back-pedalling loop *)

Lemma round24_bounds (n : Z) : 0 <= n -> 0 <= round24 n /\ round24 n * 2 ^ 24 <= n * (2 ^ 24 + 1).
Proof.
  intros Hn. unfold round24. case_if; [lia|].
  pose proof (Z.log2_spec n ltac:(lia)) as [Hlo Hhi].
  assert (24 <= Z.log2 n) as Hlog by (apply Z.log2_le_pow2; lia).
  set (e := Z.log2 n - 23) in *.
  assert (2 ^ Z.log2 n = 2 ^ 24 * 2 ^ (e - 1)) as El by (rewrite <- Z.pow_add_r; [f_equal|..]; lia).
  assert (2 ^ e = 2 * 2 ^ (e - 1)) as Ee by (rewrite <- Z.pow_succ_r; [f_equal|]; lia).
  pose proof (Z.pow_pos_nonneg 2 (e - 1) ltac:(lia) ltac:(lia)) as Hp.
  rewrite El in Hlo. clear El Hhi Hlog.
  pose proof (Z.div_mod n (2 ^ e) ltac:(lia)) as Hdm.
  pose proof (Z.mod_pos_bound n (2 ^ e) ltac:(lia)) as Hmb.
  assert (0 <= n / 2 ^ e) by (apply Z.div_pos; lia).
  rewrite Ee in *. set (w := 2 ^ (e - 1)) in *. set (q := n / (2 * w)) in *. set (r := n mod (2 * w)) in *.
  destruct ((w <? r) || _) eqn:Er.
  - assert (w <= r) by (apply orb_true_iff in Er as [H'|H']; zbool; lia). split; nia.
  - split; nia.
Qed.

Lemma times_backpedal_bounds (b : Z) :
  0 <= b < 2 ^ 64 ->
  0 <= times_backpedal_factor b /\ times_backpedal_factor b * 1000000 <= b * 900001.
Proof.
  intros Hb. unfold times_backpedal_factor.
  pose proof (round24_bounds b ltac:(lia)) as [H1 H2].
  pose proof (round24_bounds (round24 b * 15099494) ltac:(lia)) as [H3 H4].
  pose proof (Z.div_mod (round24 (round24 b * 15099494)) (2 ^ 24)).
  pose proof (Z.mod_pos_bound (round24 (round24 b * 15099494)) (2 ^ 24)).
  split; [apply Z.div_pos; lia|]. lia.
Qed.

(** One step: the request shrinks by a tenth, up to rounding. *)
Definition backpedal (b : Z) : Z := RoundedBytes (times_backpedal_factor b).

Lemma backpedal_bounds (b : Z) :
  0 <= b < 2 ^ 64 ->
  0 <= backpedal b /\ backpedal b mod 256 = 0 /\ backpedal b * 1000000 <= b * 900001 + 255000000.
Proof.
  intros Hb. pose proof (times_backpedal_bounds b Hb).
  pose proof (RoundedBytes_spec (times_backpedal_factor b) ltac:(lia)). unfold backpedal. lia.
Qed.

Lemma backpedal_le (b : Z) : 0 <= b < 2 ^ 64 -> b mod 256 = 0 -> backpedal b <= b.
Proof.
  intros Hb Hm. pose proof (times_backpedal_bounds b Hb).
  pose proof (RoundedBytes_spec (times_backpedal_factor b) ltac:(lia)) as [H1 H2].
  unfold backpedal. generalize dependent (RoundedBytes (times_backpedal_factor b)).
  intros r H1 H2. assert (r < b + 256) by lia. clear -Hm H2 H0. dlia.
Qed.

(** The largest request that [n] further rounds bring down to 2304 bytes. *)
Fixpoint backpedal_reach (n : nat) : Z :=
  match n with
  | O => 2559
  | S n' => ((backpedal_reach n' - 255) * 1000000 + 999999) / 900001 / 256 * 256 + 255
  end.

Lemma backpedal_reach_ok : 2 ^ 64 <= backpedal_reach 420.
Proof. apply Z.leb_le. vm_compute. reflexivity. Qed.

Lemma backpedal_base (b g : Z) :
  b mod 256 = 0 -> b <= 2559 -> g mod 256 = 0 -> g * 1000000 <= b * 900001 + 255000000 -> g <= 2304.
Proof. intros. dlia. Qed.

Lemma backpedal_next (b g u : Z) :
  b mod 256 = 0 -> b <= ((u - 255) * 1000000 + 999999) / 900001 / 256 * 256 + 255 ->
  g * 1000000 <= b * 900001 + 255000000 -> g <= u.
Proof. intros. dlia. Qed.

Section Backpedal.
Context {SA : Type} `{!SubAllocator SA}.

Lemma backpedal_loop_S (n : nat) (sa : SA) (al rb b : Z) :
  backpedal_loop (S n) sa al rb b =
  if backpedal b <? rb then Some (None, sa)
  else match sub_Alloc sa al (backpedal b) with
       | (Some r, sa') => Some (Some r, sa')
       | (None, sa') => backpedal_loop n sa' al rb (backpedal b)
       end.
Proof. done. Qed.

Lemma backpedal_loop_ends (n : nat) (sa : SA) (al rb b : Z) :
  2304 < rb -> 0 <= b < 2 ^ 64 -> b mod 256 = 0 -> b <= backpedal_reach n ->
  is_Some (backpedal_loop (S n) sa al rb b).
Proof.
  intros Hrb. revert sa b. induction n as [|n IH]; intros sa b Hb Hm Hr; rewrite backpedal_loop_S;
    pose proof (backpedal_bounds b Hb) as (H1 & H2 & H3);
    generalize dependent (backpedal b); intros g H1 H2 H3.
  - pose proof (backpedal_base b g Hm Hr H2 H3). case_if; [done|lia].
  - pose proof (backpedal_next b g _ Hm Hr H3). case_if; [done|].
    destruct (sub_Alloc sa al g) as [[r|] sa']; [done|]. apply IH; [|done..]. clear -H1 H3 Hb. lia.
Qed.

(** A request of more than 2304 bytes ends the loop within 421 rounds. *)
Lemma backpedal_loop_total (sa : SA) (al rb b : Z) :
  2304 < rb -> 0 <= b < 2 ^ 64 -> b mod 256 = 0 -> is_Some (backpedal_loop 421 sa al rb b).
Proof.
  intros Hrb Hb Hm. assert (b <= 2 ^ 64) as Hle by lia.
  exact (backpedal_loop_ends 420 sa al rb b Hrb Hb Hm (Z.le_trans _ _ _ Hle backpedal_reach_ok)).
Qed.
End Backpedal.

Lemma round24_lower (n : Z) : 0 <= n -> n * (2 ^ 24 - 1) <= round24 n * 2 ^ 24.
Proof.
  intros Hn. unfold round24. case_if; [lia|].
  pose proof (Z.log2_spec n ltac:(lia)) as [Hlo Hhi].
  assert (24 <= Z.log2 n) as Hlog by (apply Z.log2_le_pow2; lia).
  set (e := Z.log2 n - 23) in *.
  assert (2 ^ Z.log2 n = 2 ^ 24 * 2 ^ (e - 1)) as El by (rewrite <- Z.pow_add_r; [f_equal|..]; lia).
  assert (2 ^ e = 2 * 2 ^ (e - 1)) as Ee by (rewrite <- Z.pow_succ_r; [f_equal|]; lia).
  pose proof (Z.pow_pos_nonneg 2 (e - 1) ltac:(lia) ltac:(lia)) as Hp.
  rewrite El in Hlo. clear El Hhi Hlog.
  pose proof (Z.div_mod n (2 ^ e) ltac:(lia)) as Hdm.
  pose proof (Z.mod_pos_bound n (2 ^ e) ltac:(lia)) as Hmb.
  rewrite Ee in *. set (w := 2 ^ (e - 1)) in *. set (q := n / (2 * w)) in *. set (r := n mod (2 * w)) in *.
  destruct ((w <? r) || _) eqn:Er; [nia|]. zbool. nia.
Qed.

(** Back-pedalling never gets below 2304 bytes. *)
Lemma backpedal_floor (b : Z) : 2304 <= b < 2 ^ 64 -> 2304 <= backpedal b < 2 ^ 64.
Proof.
  intros Hb. pose proof (backpedal_bounds b ltac:(lia)) as (H1 & H2 & H3). split; [|lia].
  pose proof (times_backpedal_bounds b ltac:(lia)) as [H4 H5].
  pose proof (RoundedBytes_spec (times_backpedal_factor b) ltac:(lia)) as [H6 _].
  unfold backpedal in *. clear H3.
  assert (2048 < times_backpedal_factor b); [|clear -H6 H2 H; dlia].
  unfold times_backpedal_factor. pose proof (round24_lower b ltac:(lia)) as H7.
  pose proof (round24_lower (round24 b * 15099494) ltac:(lia)) as H8.
  set (x := round24 (round24 b * 15099494)) in *. clear H1 H2 H4 H5 H6.
  pose proof (Z.div_mod x (2 ^ 24) ltac:(lia)). pose proof (Z.mod_pos_bound x (2 ^ 24) ltac:(lia)). lia.
Qed.

Section Diverge.
Context {SA : Type} `{!SubAllocator SA}.

(** A request of at most 2304 bytes to an exhausted sub-allocator never ends the loop. *)
Lemma backpedal_loop_diverges (fuel : nat) (sa : SA) (al rb b : Z) :
  (forall n, 2304 <= n -> sub_Alloc sa al n = (None, sa)) -> rb <= 2304 -> 2304 <= b < 2 ^ 64 ->
  backpedal_loop fuel sa al rb b = None.
Proof.
  intros Hsa Hrb. revert b. induction fuel as [|fuel IH]; intros b Hb; [done|].
  rewrite backpedal_loop_S. pose proof (backpedal_floor b Hb).
  rewrite (proj2 (Z.ltb_ge _ _)) by lia. rewrite Hsa by lia. by apply IH.
Qed.
End Diverge.

(** ** The block that the sub-allocator hands out *)
Section Block.
Context {SA : Type} `{!SubAllocator SA} `{!SubAllocatorLaws SA}.
Implicit Types s : t SA.

(** A block [p, p + r) obtained for [n] bytes, fresh with respect to [sa]. *)
Record fresh_block (sa sa' : SA) (n p r : Z) : Prop := {
  fb_ptr : 0 < p;
  fb_size : n <= r;
  fb_multiple : r mod 256 = 0;
  fb_top : p + r < 2 ^ 63;
  fb_fresh : forall q, p <= q < p + r -> ~ owned sa q;
  fb_owned : forall q, p <= q < p + r -> owned sa' q
}.

Lemma backpedal_loop_block (fuel : nat) (sa sa' : SA) (al rb b : Z) (mem : option (Z * Z)) :
  0 < rb -> 0 <= b < 2 ^ 64 -> b mod 256 = 0 -> backpedal_loop fuel sa al rb b = Some (mem, sa') ->
  (forall q, owned sa q -> owned sa' q) /\
  forall p r, mem = Some (p, r) -> exists n sa0, rb <= n <= b /\
    sub_Alloc sa0 al n = (Some (p, r), sa') /\ fresh_block sa sa' n p r.
Proof.
  intros Hrb. revert sa b. induction fuel as [|fuel IH]; intros sa b Hb Hm; [done|].
  rewrite backpedal_loop_S. pose proof (backpedal_bounds b Hb) as (H1 & H2 & _).
  pose proof (backpedal_le b Hb Hm) as H3.
  generalize dependent (backpedal b). intros g H1 H2 H3.
  case_if; [by intros [= <- <-]|].
  destruct (sub_Alloc sa al g) as [[[p0 r0]|] sa1] eqn:Ea.
  - intros [= <- <-]. destruct (alloc_block _ _ g _ _ _ ltac:(lia) H2 Ea) as (A1 & A2 & A3 & A4 & A5 & A6).
    split; [auto|]. intros p r [= <- <-]. exists g, sa. split; [lia|]. split; [done|]. split; auto.
  - intros Hr. pose proof (alloc_none _ _ _ _ Ea) as Ho.
    destruct (IH sa1 g ltac:(lia) H2 Hr) as [B1 B2]. split; [auto|].
    intros p r Hmem. destruct (B2 p r Hmem) as (n & sa0 & C1 & C3 & [D1 D2 D3 D4 D5 D6]).
    exists n, sa0. split; [lia|]. split; [done|]. split; try done.
    intros q Hq Hoq. by apply (D5 q Hq), Ho.
Qed.

Lemma sub_alloc_block_ok (fuel : nat) s (al rb b : Z) (mem : option (Z * Z)) (sa : SA) (bp : bool) :
  0 < rb <= b -> b < 2 ^ 64 -> b mod 256 = 0 -> sub_alloc_block fuel s al rb b = Some (mem, sa, bp) ->
  (forall q, owned (sub_allocator s) q -> owned sa q) /\ (started_backpedal s = true -> bp = true) /\
  forall p r, mem = Some (p, r) -> exists n sa0, rb <= n <= b /\
    (bp = started_backpedal s -> n = b) /\ (bp <> started_backpedal s -> bp = true) /\
    sub_Alloc sa0 al n = (Some (p, r), sa) /\ fresh_block (sub_allocator s) sa n p r.
Proof.
  intros Hrb Hb Hm. unfold sub_alloc_block.
  destruct (sub_Alloc (sub_allocator s) al b) as [[[p0 r0]|] sa1] eqn:Ea.
  - intros [= <- <- <-]. destruct (alloc_block _ _ b _ _ _ ltac:(lia) Hm Ea) as (A1 & A2 & A3 & A4 & A5 & A6).
    split; [auto|]. split; [done|]. intros p r [= <- <-]. exists b, (sub_allocator s). split; [lia|].
    split; [done|]. split; [done|]. split; [done|]. split; auto.
  - pose proof (alloc_none _ _ _ _ Ea) as Ho. destruct (started_backpedal s) eqn:Es; cbn.
    { intros [= <- <- <-]. done. }
    destruct (backpedal_loop fuel sa1 al rb b) as [[mem' sa']|] eqn:El; [|done]. cbn.
    intros [= <- <- <-].
    destruct (backpedal_loop_block fuel sa1 sa' al rb b mem' ltac:(lia) ltac:(lia) Hm El) as [B1 B2].
    split; [auto|]. split; [done|]. intros p r Hmem. destruct (B2 p r Hmem) as (n & sa0 & C1 & C3 & [D1 D2 D3 D4 D5 D6]).
    exists n, sa0. split; [lia|]. split; [done|]. split; [done|]. split; [done|]. split; try done.
    intros q Hq Hoq. by apply (D5 q Hq), Ho.
Qed.

(** ** [Extend] *)

(** [m] runs to a state that satisfies [Q], or a loop does not end, for the reason [D]. *)
Definition goes {A : Type} (D : Prop) (m : M A) s (Q : A -> t SA -> Prop) : Prop :=
  runs m s Q \/ (D /\ m s = None).

Lemma goes_bind {A B : Type} (D : Prop) (m : M A) (k : A -> M B) s (Q : B -> t SA -> Prop) :
  goes D m s (fun a s' => goes D (k a) s' Q) -> goes D (m ≫= k) s Q.
Proof.
  unfold goes, runs, mbind, M_bind.
  intros [(a & s' & Hm & [(b & s'' & Hk & HQ)|[HD Hk]])|[HD Hm]]; rewrite Hm; eauto.
Qed.

Lemma goes_runs {A : Type} (D : Prop) (m : M A) s (Q : A -> t SA -> Prop) : runs m s Q -> goes D m s Q.
Proof. by left. Qed.

Lemma goes_mono {A : Type} (D E : Prop) (m : M A) s (P Q : A -> t SA -> Prop) :
  goes D m s P -> (D -> E) -> (forall a s', P a s' -> Q a s') -> goes E m s Q.
Proof. intros [Hr|[HD Hm]] HDE HPQ; [left; by eapply runs_mono|right; auto]. Qed.

(** Every address of a region belongs to a block of the sub-allocator. *)
Definition owned_ok s : Prop :=
  forall q, is_Some (bounds (regions s) q) -> owned (sub_allocator s) q.

(** One of the loops of [Extend] does not end (within [fuel] rounds of back-pedalling). *)
Definition stuck (fuel : nat) (al rb : Z) s : Prop :=
  rb <= available_bytes s /\
  match double_until 65 rb (curr_region_allocation_bytes s) false with
  | Some (curr, _) => sub_alloc_block fuel s al rb (Z.min curr (available_bytes s)) = None
  | None => True
  end.

(** The fields that growing leaves alone. *)
Record same_config s s' : Prop := {
  sc_opts : opts s' = opts s;
  sc_limit : memory_limit s' = memory_limit s;
  sc_coalesce : coalesce_regions s' = coalesce_regions s;
  sc_timing : timing_counter s' = timing_counter s;
  sc_timestamped : timestamped_chunks s' = timestamped_chunks s;
  sc_frontier : safe_frontier s' = safe_frontier s;
  sc_id : next_allocation_id s' = next_allocation_id s;
  sc_stats : stats s' = stats s
}.

(** How [Extend] with result [b] moves the growth fields. *)
Inductive growth (al rb : Z) s s' : bool -> Prop :=
| growth_none : s' = s -> growth al rb s s' false
| growth_failed curr inc :
    rb <= available_bytes s ->
    (started_backpedal s = true -> started_backpedal s' = true) ->
    double_until 65 rb (curr_region_allocation_bytes s) false = Some (curr, inc) ->
    curr_region_allocation_bytes s' = curr ->
    total_region_allocated_bytes s' = total_region_allocated_bytes s -> growth al rb s s' false
| growth_block curr inc n p r sa0 :
    double_until 65 rb (curr_region_allocation_bytes s) false = Some (curr, inc) ->
    rb <= n <= Z.min curr (available_bytes s) ->
    sub_Alloc sa0 al n = (Some (p, r), sub_allocator s') ->
    (started_backpedal s' = started_backpedal s -> n = Z.min curr (available_bytes s)) ->
    (started_backpedal s' <> started_backpedal s -> started_backpedal s' = true) ->
    curr_region_allocation_bytes s' = (if inc then curr else wrap_u64 (curr * 2)) ->
    total_region_allocated_bytes s' = wrap_u64 (total_region_allocated_bytes s + r) ->
    growth al rb s s' true.

Record extended (al rb : Z) (b : bool) s s' : Prop := {
  ex_config : same_config s s';
  ex_user : forall q, user s' q = user s q;
  ex_used : used_bytes s' = used_bytes s;
  ex_points : points_ok s -> points_ok s';
  ex_slots : forall q, slot_point (regions s) q -> slot_point (regions s') q;
  ex_length : (length (chunks s) <= length (chunks s'))%nat;
  ex_growth : growth al rb s s' b
}.

Lemma Extend_ok (fuel : nat) (al rb : Z) s :
  heap_ok [] s -> owned_ok s -> curr_region_allocation_bytes s mod 256 = 0 -> 0 < rb ->
  goes (stuck fuel al rb s) (Extend fuel al rb) s (fun b s' => heap_ok [] s' /\ owned_ok s' /\
    curr_region_allocation_bytes s' mod 256 = 0 /\ (coalesced [] s -> coalesced [] s') /\
    extended al rb b s s').
Proof.
  intros Hok Hown Hcurr Hrb. unfold Extend, goes, runs, stuck. case_if.
  { left. exists false, s. do 4 (split; [done|]). split; [done|]. split; try done. by constructor. }
  assert (available_bytes s mod 256 = 0 /\ available_bytes s < 2 ^ 64) as [Ham Hal].
  { unfold available_bytes, kMinAllocationSize. pose proof (wrap_u64_range (memory_limit s - total_region_allocated_bytes s)) as Hr.
    unfold in_u64 in Hr. split; [apply Z.mod_mul; lia|dlia]. }
  destruct (double_until 65 rb _ false) as [[curr inc]|] eqn:Ed; [|by right].
  destruct (double_until_result _ _ _ _ _ _ Ed) as [Hc Hcm]. specialize (Hcm Hcurr).
  set (b := Z.min curr (available_bytes s)) in *.
  assert (b mod 256 = 0) as Hbm by (unfold b; destruct (Z.min_spec curr (available_bytes s)) as [[_ ->]|[_ ->]]; done).
  destruct (sub_alloc_block fuel s al rb b) as [[[mem sa] bp]|] eqn:Es.
  2:{ right. split; [done|]. cbn. fold b. by rewrite Es. }
  destruct (sub_alloc_block_ok fuel s al rb b mem sa bp ltac:(lia) ltac:(lia) Hbm Es) as (Ho & Hbp & Hblk).
  left. cbn. fold b. rewrite Es. cbn. destruct mem as [[p r]|].
  2:{ eexists _, _. split; [done|]. split; [by apply (heap_ok_ext [] s)|].
      split; [intros q Hq; by apply Ho, Hown|]. split; [done|]. split; [by apply (coalesced_ext [] s)|].
      split; try done. by eapply growth_failed. }
  destruct (Hblk p r eq_refl) as (n & sa0 & Hn & Hbp1 & Hbp2 & Hsub & [Hp Hr Hrm Ht Hfr Hob]).
  set (s0 := with_growth s sa (if inc then curr else wrap_u64 (curr * 2))
               (wrap_u64 (total_region_allocated_bytes s + r)) bp).
  destruct (add_block_ok s0 p r) as (u & s' & Hrun & Hok' & Hrest & [Gu Gus Gp Gs Gb Gl] & HE).
  - by apply (heap_ok_ext [] s).
  - done.
  - lia.
  - done.
  - done.
  - intros q Hq. change (regions s0) with (regions s). destruct (bounds (regions s) q) eqn:Eb; [|done].
    exfalso. apply (Hfr q Hq), Hown. by rewrite Eb.
  - exists true, s'. split; [by rewrite Hrun|]. split; [done|]. destruct Hrest.
    split; [|split; [|split]].
    + intros q [Hq|Hq]%Gb; rewrite sr_sub; cbn; [|by apply Hob]. by apply Ho, Hown.
    + rewrite sr_curr. cbn. destruct inc; [done|]. apply wrap_u64_mod256.
      by rewrite Z.mul_mod, Hcm by lia.
    + intros Hc'. apply HE. by apply (coalesced_ext [] s).
    + split; try done. eapply growth_block with (sa0 := sa0) (n := n) (p := p); try done; try lia;
        rewrite ?sr_sub, ?sr_backpedal; done.
Qed.

(** ** The memory limit *)

(** [Alloc] gives exactly the bytes asked for. *)
Definition exact_sub : Prop :=
  forall (sa sa' : SA) al n p r, sub_Alloc sa al n = (Some (p, r), sa') -> r = n.

(** The regions stay within the limit and the next region size does not wrap to zero. *)
Record grow_ok s : Prop := {
  go_limit : 0 <= memory_limit s <= 2 ^ 60;
  go_total : 0 <= total_region_allocated_bytes s <= memory_limit s;
  go_curr : 0 < curr_region_allocation_bytes s;
  go_top : curr_region_allocation_bytes s <= 2 ^ 61 \/
    (started_backpedal s = true /\ curr_region_allocation_bytes s <= 2 ^ 62) \/
    (available_bytes s = 0 /\ curr_region_allocation_bytes s <= 2 ^ 63)
}.

Lemma available_exact s :
  grow_ok s -> available_bytes s = (memory_limit s - total_region_allocated_bytes s) / 256 * 256.
Proof. intros [H1 H2 _ _]. unfold available_bytes. by rewrite wrap_u64_id by (unfold in_u64; lia). Qed.

Lemma grow_ok_ext s s' :
  memory_limit s' = memory_limit s -> total_region_allocated_bytes s' = total_region_allocated_bytes s ->
  curr_region_allocation_bytes s' = curr_region_allocation_bytes s ->
  started_backpedal s' = started_backpedal s -> grow_ok s -> grow_ok s'.
Proof.
  intros E1 E2 E3 E4 [H1 H2 H4 H5]. unfold available_bytes in *.
  split; unfold available_bytes; by rewrite ?E1, ?E2, ?E3, ?E4.
Qed.

(** A request that passes the limit check ends the doubling loop. *)
Lemma grow_doubling s (rb : Z) :
  grow_ok s -> 0 < rb <= available_bytes s ->
  exists curr inc,
    double_until 65 rb (curr_region_allocation_bytes s) false = Some (curr, inc) /\
    0 < curr /\
    (curr = curr_region_allocation_bytes s \/ (inc = true /\ curr <= 2 ^ 61)) /\
    (curr_region_allocation_bytes s mod 256 = 0 -> curr mod 256 = 0).
Proof.
  intros Hg Hrb. pose proof (available_exact s Hg) as Ha. destruct Hg as [G1 G2 G4 G5].
  assert (rb <= 2 ^ 60) by dlia.
  destruct (double_until_ok rb (curr_region_allocation_bytes s) false 64)
    as (c & i & Hd & H1 & H2 & H3 & H4 & _); [lia|lia|lia|].
  exists c, i. split; [done|]. split; [lia|]. split; [|done].
  destruct H4 as [->|[-> H4]]; [by left|]. right. split; [done|lia].
Qed.

Lemma growth_keeps (al rb : Z) (b : bool) s s' :
  exact_sub -> grow_ok s -> curr_region_allocation_bytes s mod 256 = 0 -> 0 < rb ->
  growth al rb s s' b -> memory_limit s' = memory_limit s -> grow_ok s'.
Proof.
  intros Hex Hg Hcm Hrb Hgr Hlim. pose proof (available_exact s Hg) as Ha.
  pose proof (fun H => grow_doubling s rb Hg (conj Hrb H)) as Hdb. pose proof Hg as [G1 G2 G4 G5].
  destruct Hgr as [-> |curr inc Hav Hbp Hd Hc Ht|curr inc n p r sa0 Hd Hn Hsub Hn1 Hn2 Hc Ht]; [done| |].
  - destruct (Hdb Hav) as (c & i & Hd' & D1 & D2 & D3). rewrite Hd in Hd'. injection Hd' as <- <-.
    split; unfold available_bytes in *; rewrite ?Hlim, ?Ht, ?Hc; try done.
    destruct D2 as [->|[_ D2]]; [|by left].
    destruct G5 as [G5|[[G5 G5']|G5]]; [by left|right; left; auto|by right; right].
  - destruct (Hdb ltac:(lia)) as (c & i & Hd' & D1 & D2 & D3). rewrite Hd in Hd'. injection Hd' as <- <-.
    assert (r = n) as -> by (by eapply Hex).
    assert (available_bytes s mod 256 = 0 /\ 0 <= available_bytes s <=
              memory_limit s - total_region_allocated_bytes s) as [Hav1 Hav2].
    { rewrite Ha. split; [apply Z.mod_mul; lia|dlia]. }
    rewrite wrap_u64_id in Ht by (unfold in_u64; lia).
    assert (n = available_bytes s -> available_bytes s' = 0) as Hfull.
    { intros ->. unfold available_bytes. rewrite Hlim, Ht, wrap_u64_id by (unfold in_u64; lia).
      rewrite Ha. unfold kMinAllocationSize. dlia. }
    assert (curr_region_allocation_bytes s <= 2 ^ 61 \/
            (started_backpedal s = true /\ curr_region_allocation_bytes s <= 2 ^ 62)) as Hcur
      by (destruct G5 as [?|[?|[? _]]]; [by left|by right|lia]).
    assert (started_backpedal s = true -> started_backpedal s' = true) as Hst.
    { intros E. destruct (started_backpedal s') eqn:E'; [done|]. apply Hn2. congruence. }
    assert (started_backpedal s' = true \/ n = Z.min curr (available_bytes s)) as Hor.
    { destruct (started_backpedal s') eqn:E'; [by left|right]. apply Hn1.
      destruct (started_backpedal s); [|done]. specialize (Hst eq_refl). congruence. }
    assert (0 < n <= memory_limit s) as Hnpos by lia.
    split; rewrite ?Hlim, ?Ht, ?Hc; try lia.
    + destruct inc; [lia|]. destruct D2 as [->|[? _]]; [|done].
      rewrite wrap_u64_id by (unfold in_u64; lia). lia.
    + destruct inc.
      * destruct D2 as [->|[_ D2]]; [|by left]. destruct Hcur as [?|[? ?]]; auto.
      * destruct D2 as [->|[? _]]; [|done]. rewrite wrap_u64_id by (unfold in_u64; lia).
        destruct (decide (curr_region_allocation_bytes s <= 2 ^ 60)); [left; lia|].
        assert (started_backpedal s = true -> n = available_bytes s) as Hbt.
        { intros E. rewrite Hn1; [lia|]. by rewrite Hst, E. }
        destruct Hcur as [Hcur|[Hcur1 Hcur2]].
        -- destruct Hor as [Hor|Hor]; [right; left; split; [done|lia]|].
           right; right. split; [apply Hfull; lia|lia].
        -- right; right. split; [by apply Hfull, Hbt|lia].
Qed.

(** With an exact sub-allocator within the limit, a request above 2304 bytes, or any request after
    back-pedalling has been used, is never stuck. *)
Lemma never_stuck (fuel : nat) (al rb : Z) s :
  (2304 < rb -> forall (sa : SA) b, 0 <= b < 2 ^ 64 -> b mod 256 = 0 ->
     is_Some (backpedal_loop fuel sa al rb b)) ->
  grow_ok s -> curr_region_allocation_bytes s mod 256 = 0 -> 0 < rb ->
  started_backpedal s = true \/ 2304 < rb -> ~ stuck fuel al rb s.
Proof.
  intros Hloop Hg Hm Hrb Hcase [Hav Hst]. destruct (grow_doubling s rb Hg (conj Hrb Hav)) as (c & i & Hd & H1 & _ & H3).
  rewrite Hd in Hst. pose proof (available_exact s Hg) as Ha. pose proof Hg as [G1 G2 _ _].
  unfold sub_alloc_block in Hst. destruct (sub_Alloc _ al _) as [[?|] sa]; [done|].
  destruct (started_backpedal s); [done|]. cbn [negb] in Hst. destruct Hcase as [?|Hbig]; [done|].
  assert (Z.min c (available_bytes s) mod 256 = 0) as Hbm.
  { destruct (Z.min_spec c (available_bytes s)) as [[_ ->]|[_ ->]]; [auto|]. rewrite Ha. apply Z.mod_mul. lia. }
  destruct (Hloop Hbig sa (Z.min c (available_bytes s))) as [[? ?] E]; [|done|].
  { rewrite Ha. split; [|dlia]. dlia. }
  by rewrite E in Hst.
Qed.
End Block.
