(* ===== verification/BfcFree.v ===== *)
(** * Releasing memory: [DeallocateRaw] and timestamped frees

    A freed chunk is coalesced at once or, with a timing counter, stamped and
    queued; [MergeTimestampedChunks] later coalesces what is safe to reuse.
    Both keep the heap invariant and touch no other allocation of the user. *)

From S2P Require Import Prelude BfcRegion Bfc BfcInv BfcSplit BfcOps BfcFind.
Import Region Bfc.

(** The statistics after [sz] bytes were freed. *)
Definition uncount (st : Stats) (sz : Z) : Stats :=
  mkStats (num_allocs st) (wrap_i64 (bytes_in_use st - sz)) (peak_bytes_in_use st)
    (largest_alloc_size st) (bytes_limit st).

Definition tick (tc : option Z) : option Z := match tc with Some v => Some (v + 1) | None => None end.

Section Free.
Context {SA : Type}.
Implicit Types s : t SA.

(** What the release of the allocation at [p] with [sz] bytes leaves behind. *)
Record released s s' (p sz : Z) : Prop := {
  rl_user : forall q, user s' q = if decide (q = p) then None else user s q;
  rl_used : used_bytes s' = used_bytes s - sz;
  rl_rest : exists ts, same_rest (with_stats (with_timing s (tick (timing_counter s)) ts (safe_frontier s))
                                    (uncount (stats s) sz)) s' /\
              (timing_counter s = None -> ts = timestamped_chunks s) /\
              (Forall (fun h => is_Some (chunks s !! h)) (timestamped_chunks s) ->
               Forall (fun h => is_Some (chunks s !! h)) ts);
  rl_points : points_ok s -> points_ok s';
  rl_bounds : forall q, bounds (regions s') q = bounds (regions s) q;
  rl_length : (length (chunks s) <= length (chunks s'))%nat
}.

(** The chunk of a user allocation. *)
Lemma user_live s (p sz rq id : Z) :
  layout_ok (regions s) (chunks s) -> user s p = Some (sz, rq, id) ->
  exists h c, live (regions s) (chunks s) h c /\ ptr c = p /\ in_use c = true /\
    size c = sz /\ requested_size c = rq /\ allocation_id c = id.
Proof.
  intros Hlay. unfold user, user_at. destruct (slot (regions s) p) as [h|] eqn:Hs; [|done].
  destruct (lo_slots _ _ Hlay _ _ Hs) as (c & Hc & Hp). rewrite Hc.
  destruct (in_use c) eqn:Hu; [|done]. intros [= <- <- <-]. exists h, c.
  split; [split; congruence|]. done.
Qed.

Lemma live_user s (h : nat) (c : Chunk) :
  live (regions s) (chunks s) h c ->
  user s (ptr c) = if in_use c then Some (size c, requested_size c, allocation_id c) else None.
Proof. intros [Hc Hs]. unfold user, user_at. by rewrite Hs, Hc. Qed.

Lemma MarkFree_ok s (h : nat) (c : Chunk) :
  heap_ok [] s -> live (regions s) (chunks s) h c -> in_use c = true ->
  runs (MarkFree h) s (fun _ s' => heap_ok [h] s' /\ released s s' (ptr c) (size c) /\
    timestamped_chunks s' = timestamped_chunks s /\
    (coalesced [] s -> coalesced [h] s')).
Proof.
  intros Hok Hl Hu. pose proof (proj1 (ho_hold _ _ Hok) h c Hl) as Hh.
  rewrite decide_False in Hh by set_solver. destruct Hh as [Hb _]. specialize (Hb Hu).
  pose proof (lookup_lt_Some _ _ _ (proj1 Hl)) as Hlt.
  set (c' := match timing_counter s with
             | Some v => set_freed_at_count (set_allocation_id c (-1)) (v + 1)
             | None => set_allocation_id c (-1) end).
  set (s1 := with_chunks s (<[h := c']> (chunks s))).
  set (s2 := with_stats (with_timing s1 (tick (timing_counter s)) (timestamped_chunks s) (safe_frontier s))
               (uncount (stats s) (size c))).
  assert (shape c' = shape c /\ in_use c' = false /\ bin_num c' = None) as (Hsh & Hu' & Hb').
  { unfold c'. destruct (timing_counter s); done. }
  exists tt, s2. split.
  { unfold MarkFree, mbind, M_bind, ChunkFromHandle, asks. rewrite (proj1 Hl). cbn.
    unfold CHECK. rewrite Hu, bool_decide_eq_true_2 by done. cbn.
    unfold modify_chunk, updates. rewrite (proj1 Hl). cbn. unfold gets. cbn.
    unfold s2, s1, c'. destruct (timing_counter s) as [v|] eqn:Et; cbn.
    - rewrite list_lookup_insert_eq by done. cbn. by rewrite list_insert_insert_eq.
    - destruct s. cbn in *. by subst. }
  assert (heap_ok [h] s1) as Hok1.
  { apply (update_ok s [] [h] h c c' Hok Hl); [done|by rewrite Hb'|set_solver|].
    rewrite decide_True by set_solver. done. }
  split; [by apply (heap_ok_ext [h] s1)|]. split.
  - split.
    + intros q. pose proof (update_user s h c c' q (ho_layout _ _ Hok) Hl) as E.
      rewrite Hu' in E. apply E. unfold shape in Hsh. congruence.
    + pose proof (update_used s h c c' (proj1 Hl)) as E. unfold used in E. rewrite Hu, Hu' in E.
      change (used_bytes s1 = used_bytes s - size c + 0) in E. rewrite Z.add_0_r in E. exact E.
    + exists (timestamped_chunks s). done.
    + intros Hp. apply (update_points s h c c' (proj1 Hl)); [|done]. unfold shape in Hsh. congruence.
    + done.
    + cbn. by rewrite length_insert.
  - split; [done|]. intros HE. apply (coalesced_ext [h] s1); [done..|].
    apply update_coalesced with c; [done..|]. intros k d k' d' Hk Hk'. apply HE; set_solver.
Qed.

Lemma released_keeps s s1 s2 (p sz : Z) :
  released s s1 p sz -> same_rest s1 s2 -> keeps s1 s2 -> released s s2 p sz.
Proof.
  intros [R1 R2 (ts & R3 & R4 & R4') R5 R6 R7] Hr [K1 K2 K3 K4 K5]. split.
  - intros q. by rewrite K1.
  - lia.
  - exists ts. split; [by etransitivity|done].
  - auto.
  - intros q. by rewrite K4.
  - lia.
Qed.

(** [DeallocateRaw] of an allocation of the user. *)
Lemma DeallocateRaw_ok s (p sz rq id : Z) :
  heap_ok [] s -> user s p = Some (sz, rq, id) ->
  runs (DeallocateRaw p) s (fun _ s' => heap_ok [] s' /\ released s s' p sz /\
    (timing_counter s = None -> coalesced [] s -> coalesced [] s')).
Proof.
  intros Hok Hus. pose proof (ho_layout _ _ Hok) as Hlay.
  destruct (user_live s p sz rq id Hlay Hus) as (h & c & Hl & <- & Hu & <- & _ & _).
  pose proof (live_range _ _ Hlay _ _ Hl) as Hr.
  unfold DeallocateRaw. rewrite (proj2 (Z.eqb_neq _ 0)) by lia.
  apply runs_bind. apply runs_get_handle; [apply Hlay|by eapply live_slot_point|].
  rewrite (proj2 Hl). apply runs_bind. eapply runs_asks; [done|].
  apply runs_bind. eapply runs_mono; [by apply (MarkFree_ok s h c)|].
  intros _ s1 (Hok1 & Hrel & Hts & HE1). apply runs_bind. apply runs_gets.
  pose proof Hrel as [_ _ (ts & Hrest & _) _ _ _]. rewrite (sr_timing _ _ Hrest).
  change (timing_counter (with_stats _ _)) with (tick (timing_counter s)).
  destruct (timing_counter s) as [v|] eqn:Et; cbn [tick].
  - apply runs_bind. eapply runs_mono; [apply (InsertFreeChunkIntoBin_ok s1 [] h Hok1); set_solver|].
    intros _ s2 (Hok2 & b & Hbs). pose proof (bin_step_step _ _ _ _ Hbs) as [Hr2 Hk2 _].
    apply runs_modify. split; [by apply (heap_ok_ext [] s2)|]. split; [|done].
    pose proof (released_keeps _ _ _ _ _ Hrel Hr2 Hk2) as [R1 R2 (ts' & R3 & R4 & R4') R5 R6 R7].
    split; try done. exists (timestamped_chunks s ++ [h]). split; [|split; [by rewrite Et|]].
    + destruct R3, Hr2, Hrest. cbn in *. split; cbn; try congruence.
    + intros Hf. apply list.Forall_app. split; [done|]. apply list.Forall_singleton.
      exists c. exact (proj1 Hl).
  - apply runs_bind. eapply runs_mono; [apply (TryToCoalesce_ok s1 h false Hok1)|].
    intros h' s2 (Hok2 & Hr2 & Hk2 & HE2).
    eapply runs_mono; [apply (InsertFreeChunkIntoBin_ok s2 [] h' Hok2); set_solver|].
    intros _ s3 (Hok3 & b & Hbs). pose proof (bin_step_step _ _ _ _ Hbs) as [Hr3 Hk3 _].
    split; [done|]. split.
    + eapply released_keeps; [done| |]; by etransitivity.
    + intros _ HE. apply (bin_step_coalesced _ _ _ _ _ Hbs). auto.
Qed.

(** [DeallocateRaw] of the address of a slot that is not allocated fails a [CHECK]. *)
Lemma DeallocateRaw_invalid s (p : Z) :
  heap_ok [] s -> p <> 0 -> slot_point (regions s) p -> user s p = None -> DeallocateRaw p s = None.
Proof.
  intros Hok Hp Hsp Hus. pose proof (ho_layout _ _ Hok) as Hlay. unfold DeallocateRaw.
  rewrite (proj2 (Z.eqb_neq _ 0)) by done.
  unfold mbind, M_bind, get_handle_M, asks. rewrite (get_handle_slot _ _ (lo_regions _ _ Hlay) Hsp). cbn.
  unfold user, user_at in Hus. destruct (slot (regions s) p) as [h|] eqn:Hs; [|done]. cbn.
  destruct (lo_slots _ _ Hlay _ _ Hs) as (c & Hc & Hpc). rewrite Hc in Hus.
  destruct (in_use c) eqn:Hu; [done|].
  unfold MarkFree, mbind, M_bind, ChunkFromHandle, asks. rewrite Hc. cbn. unfold CHECK. by rewrite Hu.
Qed.

(** ** Timestamped chunks *)

(** The queued handles are entries of [chunks_]. *)
Definition queue_ok s : Prop := Forall (fun h => is_Some (chunks s !! h)) (timestamped_chunks s).

Lemma valid_mono s s' (l : list nat) :
  (length (chunks s) <= length (chunks s'))%nat ->
  Forall (fun h => is_Some (chunks s !! h)) l -> Forall (fun h => is_Some (chunks s' !! h)) l.
Proof.
  intros Hlen. apply List.Forall_impl. intros h. rewrite !lookup_lt_is_Some. lia.
Qed.

(** An update of a chunk that only changes its timestamp. *)
Lemma stamp_ok s (h : nat) (c : Chunk) (v : Z) :
  heap_ok [] s -> live (regions s) (chunks s) h c ->
  let s' := with_chunks s (<[h := set_freed_at_count c v]> (chunks s)) in
  heap_ok [] s' /\ same_rest s s' /\ keeps s s'.
Proof.
  intros Hok Hl. cbn. split; [|split; [done|split]].
  - apply (update_ok s [] [] h c _ Hok Hl); [done..|].
    exact (proj1 (ho_hold _ _ Hok) h c Hl).
  - intros p. by apply user_insert with c; [apply Hl|..].
  - rewrite (update_used s h c); [|apply Hl]. unfold used. change (in_use (set_freed_at_count c v)) with (in_use c).
    cbn. lia.
  - apply update_points with c; [apply Hl|done].
  - done.
  - cbn. by rewrite length_insert.
Qed.

(** The address of a slot where the user holds nothing. *)
Definition idle s (p : Z) : Prop := slot_point (regions s) p /\ user s p = None.

Lemma idle_keeps s s' (p : Z) : keeps s s' -> idle s p -> idle s' p.
Proof. intros Hk [H1 H2]. split; [by eapply keeps_slots|]. by rewrite (kp_user _ _ Hk). Qed.

Lemma sweep_ok (rb : Z) (q : list nat) s :
  heap_ok [] s -> points_ok s -> Forall (fun h => is_Some (chunks s !! h)) q ->
  runs (sweep_timestamped rb q) s (fun r s' => heap_ok [] s' /\ same_rest s s' /\ keeps s s' /\
    Forall (idle s') r.1 /\ Forall (fun h => is_Some (chunks s' !! h)) r.2).
Proof.
  revert s. induction q as [|h0 q IH]; intros s Hok Hpt Hq; cbn [sweep_timestamped].
  { apply runs_mret. done. }
  apply list.Forall_cons in Hq as [[c Hc] Hq].
  apply runs_bind. eapply runs_chunk; [exact Hc|].
  apply runs_bind. apply runs_get_handle; [apply Hok|by eapply Hpt|].
  destruct (slot (regions s) (ptr c)) as [h|] eqn:Hs; [|by apply IH].
  destruct (in_use c || _) eqn:Eu; [by apply IH|].
  apply orb_false_iff in Eu as [Hu Hb%bool_decide_eq_false].
  assert (live (regions s) (chunks s) h0 c) as Hl.
  { split; [done|]. destruct (ho_dead _ _ Hok h0 c Hc) as [|[_ ?]]; done. }
  assert (idle s (ptr c)) as Hidle.
  { split; [by eapply Hpt|]. rewrite (live_user _ _ _ Hl). by rewrite Hu. }
  assert (forall s1, heap_ok [] s1 -> same_rest s s1 -> keeps s s1 ->
    runs (r ← sweep_timestamped rb q; mret (ptr c :: r.1, r.2)) s1 (fun r s' => heap_ok [] s' /\
      same_rest s s' /\ keeps s s' /\ Forall (idle s') r.1 /\
      Forall (fun h => is_Some (chunks s' !! h)) r.2)) as Hrec.
  { intros s1 Hok1 Hr1 Hk1. apply runs_bind. eapply runs_mono; [apply IH; [done|by apply Hk1|]|].
    { eapply valid_mono; [apply Hk1|done]. }
    intros r s2 (Hok2 & Hr2 & Hk2 & Hi2 & Hv2). apply runs_mret. cbn.
    split; [done|]. split; [by etransitivity|]. split; [by etransitivity|]. split; [|done].
    constructor; [|done]. apply (idle_keeps s s2); [by etransitivity|done]. }
  destruct (freed_at_count c =? 0); [by apply Hrec|].
  apply runs_bind. apply runs_gets. destruct (freed_at_count c <? safe_frontier s).
  { apply runs_bind. eapply runs_modify_chunk; [exact Hc|].
    destruct (stamp_ok s h0 c 0 Hok Hl) as (H1 & H2 & H3). by apply Hrec. }
  destruct (0 <? rb); [by apply Hrec|].
  apply runs_bind. eapply runs_mono; [by apply IH|].
  intros r s2 (Hok2 & Hr2 & Hk2 & Hi2 & Hv2). apply runs_mret. cbn.
  do 4 (split; [done|]). constructor; [|done]. apply lookup_lt_is_Some.
  destruct (lo_slots _ _ (ho_layout _ _ Hok) _ _ Hs) as (d & Hd & _).
  pose proof (lookup_lt_Some _ _ _ Hd). pose proof (kp_length _ _ Hk2). lia.
Qed.

(** The state up to the queue of timestamped chunks. *)
Definition same_but_queue s s' : Prop :=
  same_rest (with_timing s (timing_counter s) (timestamped_chunks s') (safe_frontier s)) s'.

Lemma same_but_queue_trans s1 s2 s3 :
  same_but_queue s1 s2 -> same_but_queue s2 s3 -> same_but_queue s1 s3.
Proof. intros [] []. cbn in *. split; cbn; congruence. Qed.

Lemma same_rest_queue s s' : same_rest s s' -> same_but_queue s s'.
Proof. intros []. split; cbn; congruence. Qed.

Lemma push_ok s (h : nat) :
  heap_ok [] s -> queue_ok s -> is_Some (chunks s !! h) ->
  runs (push_timestamped h) s (fun _ s' => heap_ok [] s' /\ queue_ok s' /\ same_but_queue s s' /\
    keeps s s').
Proof.
  intros Hok Hq Hh. apply runs_modify. split; [by apply (heap_ok_ext [] s)|]. split; [|split; by split].
  unfold queue_ok. cbn. apply list.Forall_app. split; [done|]. by apply list.Forall_singleton.
Qed.

Lemma merge_timestamped_ok (rb : Z) (ps : list Z) (sat : bool) s :
  heap_ok [] s -> queue_ok s -> Forall (idle s) ps ->
  runs (merge_timestamped rb sat ps) s (fun _ s' => heap_ok [] s' /\ queue_ok s' /\
    same_but_queue s s' /\ keeps s s').
Proof.
  revert sat s. induction ps as [|p ps IH]; intros sat s Hok Hq Hps; cbn [merge_timestamped].
  { apply runs_mret. split; [done|]. split; [done|]. split; [by apply same_rest_queue|done]. }
  apply list.Forall_cons in Hps as [[Hsp Hus] Hps].
  apply runs_bind. apply runs_get_handle; [apply Hok|done|].
  assert (forall sat' s1, heap_ok [] s1 -> queue_ok s1 -> same_but_queue s s1 -> keeps s s1 ->
    runs (merge_timestamped rb sat' ps) s1 (fun _ s' => heap_ok [] s' /\ queue_ok s' /\
      same_but_queue s s' /\ keeps s s')) as Hrec.
  { intros sat' s1 H1 H2 H3 H4. eapply runs_mono; [apply IH; [done|done|]|].
    { eapply List.Forall_impl; [|exact Hps]. intros x. by apply idle_keeps. }
    intros _ s2 (G1 & G2 & G3 & G4). split; [done|]. split; [done|].
    split; [by eapply same_but_queue_trans|by etransitivity]. }
  destruct (slot (regions s) p) as [h|] eqn:Hs; [|apply Hrec; [done|done|by apply same_rest_queue|done]].
  destruct (lo_slots _ _ (ho_layout _ _ Hok) _ _ Hs) as (c & Hc & <-).
  assert (live (regions s) (chunks s) h c) as Hl by done.
  assert (in_use c = false) as Hu by (rewrite (live_user _ _ _ Hl) in Hus; by destruct (in_use c)).
  destruct ((rb =? 0) || negb sat).
  2:{ apply runs_bind. eapply runs_mono; [apply push_ok; [done|done|by exists c]|].
      intros _ s1 (H1 & H2 & H3 & H4). by apply Hrec. }
  apply runs_bind. eapply runs_mono; [apply (RemoveFreeChunkFromBin_ok s [] h c Hok Hl Hu); set_solver|].
  intros _ s1 (Hok1 & Hbs1). pose proof (bin_step_step _ _ _ _ Hbs1) as [Hr1 Hk1 _].
  apply runs_bind. eapply runs_mono; [apply (TryToCoalesce_ok s1 h _ Hok1)|].
  intros h' s2 (Hok2 & Hr2 & Hk2 & _).
  apply runs_bind. eapply runs_mono; [apply (InsertFreeChunkIntoBin_ok s2 [] h' Hok2); set_solver|].
  intros _ s3 (Hok3 & b & Hbs3). pose proof (bin_step_step _ _ _ _ Hbs3) as [Hr3 Hk3 _].
  pose proof (same_rest_trans _ _ _ (same_rest_trans _ _ _ Hr1 Hr2) Hr3) as Hr.
  pose proof (keeps_trans _ _ _ (keeps_trans _ _ _ Hk1 Hk2) Hk3) as Hk.
  assert (queue_ok s3) as Hq3.
  { unfold queue_ok. rewrite (sr_timestamped _ _ Hr). eapply valid_mono; [apply Hk|done]. }
  destruct (0 <? rb); [|apply Hrec; [done|done|by apply same_rest_queue|done]].
  assert (exists c3, chunks s3 !! h' = Some c3) as [c3 Hc3].
  { destruct Hbs3 as (_ & _ & _ & d & Hd & ->). eexists. apply list_lookup_insert_eq.
    by eapply lookup_lt_Some. }
  apply runs_bind. eapply runs_chunk; [exact Hc3|]. apply runs_bind.
  destruct (negb (h' =? h)%nat && _).
  - eapply runs_mono; [apply push_ok; [done|done|by exists c3]|]. intros _ s4 (H1 & H2 & H3 & H4).
    apply Hrec; [done|done| |by etransitivity].
    by eapply same_but_queue_trans; [apply same_rest_queue|].
  - apply runs_mret. apply Hrec; [done|done|by apply same_rest_queue|done].
Qed.

Lemma MergeTimestampedChunks_ok (rb : Z) s :
  heap_ok [] s -> points_ok s -> queue_ok s ->
  runs (MergeTimestampedChunks rb) s (fun _ s' => heap_ok [] s' /\ queue_ok s' /\
    same_but_queue s s' /\ keeps s s').
Proof.
  intros Hok Hpt Hq. unfold MergeTimestampedChunks.
  apply runs_bind. apply runs_gets. apply runs_bind. apply runs_modify. apply runs_bind.
  set (s0 := with_timing s (timing_counter s) [] (safe_frontier s)).
  eapply runs_mono.
  { apply (sweep_ok rb (timestamped_chunks s) s0); [by apply (heap_ok_ext [] s)|done|done]. }
  intros [ps qs] s1 (Hok1 & Hr1 & Hk1 & Hi1 & Hv1). cbn [fst snd] in *.
  apply runs_bind. apply runs_modify.
  set (s2 := with_timing s1 (timing_counter s1) qs (safe_frontier s1)).
  assert (keeps s s2) as Hk2 by (destruct Hk1; by split).
  eapply runs_mono.
  { apply (merge_timestamped_ok rb ps _ s2); [by apply (heap_ok_ext [] s1)|done|done]. }
  intros _ s3 (Hok3 & Hq3 & Hs3 & Hk3). split; [done|]. split; [done|].
  split; [|by etransitivity]. eapply same_but_queue_trans; [|exact Hs3].
  destruct Hr1. split; cbn in *; congruence.
Qed.
End Free.
