(* ===== verification/BfcMain.v ===== *)
(** * The BFC allocator as a whole

    The invariant of a whole allocator, kept by [AllocateRawInternal],
    [DeallocateRaw], [SetSafeFrontier], [SetTimingCounter] and [ClearStats]
    from the constructor on (with garbage collection of regions switched off),
    and what it means to the user: allocations are disjoint, large enough,
    uniquely numbered, untouched until they are freed and accounted for. *)

From S2P Require Import Prelude BfcRegion Bfc BfcInv BfcSplit BfcOps BfcFind BfcGrow BfcExtend.
From S2P Require Import BfcFree.
Import Region Bfc.

Section Main.
Context {SA : Type} `{!SubAllocator SA} `{!SubAllocatorLaws SA}.
Implicit Types s : t SA.

(** The numbers of the user's allocations are unique and below the next one. *)
Definition ids_ok s : Prop :=
  (forall p sz rq id, user s p = Some (sz, rq, id) -> 0 < rq <= sz /\ 0 < id < next_allocation_id s) /\
  (forall p p' sz sz' rq rq' id, user s p = Some (sz, rq, id) -> user s p' = Some (sz', rq', id) -> p = p').

Record inv s : Prop := {
  iv_heap : heap_ok [] s;
  iv_owned : owned_ok s;
  iv_opts : opts_ok (opts s);
  iv_nogc : garbage_collection (opts s) = false;
  iv_curr : curr_region_allocation_bytes s mod 256 = 0;
  iv_id : 0 < next_allocation_id s;
  iv_ids : ids_ok s;
  iv_points : points_ok s;
  iv_queue : queue_ok s;
  iv_stats : bytes_in_use (stats s) = wrap_i64 (used_bytes s);
  iv_untimed : timing_counter s = None -> timestamped_chunks s = [] /\ coalesced [] s
}.

(** The growth bookkeeping survives, if the sub-allocator is exact. *)
Definition grows s s' : Prop := exact_sub (SA := SA) -> grow_ok s -> grow_ok s'.

(** A step that the user cannot see. *)
Definition quiet s s' : Prop :=
  (forall q, user s' q = user s q) /\ next_allocation_id s' = next_allocation_id s /\ grows s s'.

(** The user holds a new allocation of [nb] requested bytes at [p]. *)
Definition allocated s s' (nb p : Z) : Prop :=
  0 < p /\ user s p = None /\ exists sz, RoundedBytes nb <= sz /\
    (forall q, user s' q = if decide (q = p) then Some (sz, nb, next_allocation_id s) else user s q) /\
    grows s s'.

Lemma ids_quiet s s' : quiet s s' -> ids_ok s -> ids_ok s'.
Proof.
  intros (Hu & Hi & _) [H1 H2]. split.
  - intros p sz rq id. rewrite Hu, Hi. apply H1.
  - intros p p' sz sz' rq rq' id. rewrite !Hu. apply H2.
Qed.

Lemma wrap_i64_congr (a b c : Z) : a = wrap_i64 b -> wrap_i64 (a + c) = wrap_i64 (b + c).
Proof.
  intros ->. unfold wrap_i64. f_equal.
  replace ((b + 2 ^ 63) mod 2 ^ 64 - 2 ^ 63 + c + 2 ^ 63) with ((b + 2 ^ 63) mod 2 ^ 64 + c) by lia.
  rewrite Zplus_mod_idemp_l. f_equal. lia.
Qed.

(** Two states with the same regions, chunks and heap bookkeeping. *)
Lemma queue_valid s s' :
  timestamped_chunks s' = timestamped_chunks s -> (length (chunks s) <= length (chunks s'))%nat ->
  queue_ok s -> queue_ok s'.
Proof. intros E Hl Hq. unfold queue_ok. rewrite E. by eapply valid_mono. Qed.

Lemma owned_bounds s s' :
  (forall q, bounds (regions s') q = bounds (regions s) q) -> sub_allocator s' = sub_allocator s ->
  owned_ok s -> owned_ok s'.
Proof. intros Hb Hs Ho q. rewrite Hb, Hs. apply Ho. Qed.

Lemma inv_merge (rb : Z) s :
  inv s -> timestamped_chunks s <> [] ->
  runs (MergeTimestampedChunks rb) s (fun _ s' => inv s' /\ quiet s s' /\ same_but_queue s s').
Proof.
  intros [I1 I2 I3 I4 I5 I6 I7 I8 I9 I10 I11] Hq.
  eapply runs_mono; [by apply MergeTimestampedChunks_ok|].
  intros _ s' (Hok & Hqu & Hs & [K1 K2 K3 K4 K5]). pose proof Hs as Hsq. destruct Hs. cbn in *.
  assert (quiet s s') as Hqt by (split; [done|split; [done|]]; intros _; by apply grow_ok_ext).
  split; [|done]. split; try done; try congruence.
  - by eapply owned_bounds.
  - by eapply ids_quiet.
  - auto.
  - intros Ht. rewrite sr_timing in Ht. by destruct (I11 Ht).
Qed.

Lemma inv_extend (fuel : nat) (al rb : Z) s :
  inv s -> 0 < rb ->
  goes (stuck fuel al rb s) (Extend fuel al rb) s (fun b s' => inv s' /\ quiet s s' /\ extended al rb b s s').
Proof.
  intros [I1 I2 I3 I4 I5 I6 I7 I8 I9 I10 I11] Hrb.
  eapply goes_mono; [by apply Extend_ok|done|].
  intros b s' (Hok & Hown & Hcurr & HE & Hx). pose proof Hx as [[] E2 E3 E4 E5 E6 E7].
  assert (quiet s s') as Hqt.
  { split; [done|split; [done|]]. intros Hex Hg. by eapply growth_keeps. }
  split; [|done]. split; try done; try congruence.
  - by eapply ids_quiet.
  - auto.
  - by apply (queue_valid s).
  - rewrite sc_timing, sc_timestamped. intros Ht. destruct (I11 Ht). auto.
Qed.

Lemma inv_find (rb nb fb : Z) s :
  inv s -> 0 < nb -> nb <= RoundedBytes nb -> rb = RoundedBytes nb -> 0 < rb < 2 ^ 64 -> rb mod 256 = 0 ->
  runs (FindChunkPtr (BinNumForSize rb) rb nb fb) s (fun p s' => inv s' /\
    ((p = 0 /\ s' = s /\
      forall h c, live (regions s) (chunks s) h c -> in_use c = false -> fits rb fb c = false) \/
     (0 < p /\ exists sz, granted s s' rb nb fb p sz /\ allocated s s' nb p))).
Proof.
  intros Hinv Hnb Hle Erb Hrb Hm. pose proof Hinv as [I1 I2 I3 I4 I5 I6 I7 I8 I9 I10 I11].
  eapply runs_mono; [by apply FindChunkPtr_ok|].
  intros p s' (Hok & HE & [(-> & -> & Hno)|(Hp & sz & Hg)]); [split; [done|]; by left|].
  pose proof Hg as [(h & c & Hl & Hu & Hpc & Hf & _ & Hsz) G2 G3 G4 G5 G6 G7]. destruct G4. cbn in *.
  assert (rb <= sz) as Hrsz. { unfold fits in Hf. zbool. lia. }
  assert (user s p = None) as Hup by (rewrite <- Hpc, (live_user _ _ _ Hl); by rewrite Hu).
  split.
  2:{ right. split; [done|]. exists sz. split; [done|]. split; [done|]. split; [done|].
      exists sz. split; [lia|]. split; [done|]. intros _. by apply grow_ok_ext. }
  destruct I7 as [D1 D2].
  split; try done; try congruence; try lia.
  - by eapply owned_bounds.
  - split.
    + intros q sz1 rq id. rewrite G2, sr_id. case_decide as Eq.
      * intros [= <- <- <-]. lia.
      * intros H1%D1. lia.
    + intros q q' sz1 sz1' rq rq' id. rewrite !G2. case_decide as E1; case_decide as E2.
      * congruence.
      * intros [= <- <- <-] H1%D1. lia.
      * intros H1%D1 [= <- <- <-]. lia.
      * apply D2.
  - auto.
  - by apply (queue_valid s).
  - rewrite sr_stats, G3. cbn. by apply wrap_i64_congr.
  - rewrite sr_timing, sr_timestamped. intros Ht. destruct (I11 Ht). auto.
Qed.

Lemma stuck_same (fuel : nat) (al rb : Z) s s' :
  same_but_queue s s' -> stuck fuel al rb s' -> stuck fuel al rb s.
Proof.
  intros []. unfold stuck, available_bytes, sub_alloc_block. cbn in *.
  by rewrite sr_limit, sr_total, sr_curr, sr_sub, sr_backpedal.
Qed.

Lemma quiet_trans s1 s2 s3 : quiet s1 s2 -> quiet s2 s3 -> quiet s1 s3.
Proof.
  intros (H1 & H2 & H3) (G1 & G2 & G3). split; [intros q; by rewrite G1|]. split; [congruence|].
  intros Hex Hg. auto.
Qed.

Lemma quiet_refl s : quiet s s.
Proof. split; [done|]. split; [done|]. by intros _. Qed.

Lemma quiet_allocated s1 s2 s3 (nb p : Z) : quiet s1 s2 -> allocated s2 s3 nb p -> allocated s1 s3 nb p.
Proof.
  intros (H1 & H2 & H3) (G1 & G2 & sz & G3 & G4 & G5). split; [done|]. split; [by rewrite <- H1|].
  exists sz. split; [done|]. split; [intros q; by rewrite G4, H1, H2|]. intros Hex Hg. auto.
Qed.

(** The outcome of an allocation request. *)
Definition alloc_post s (nb p : Z) s' : Prop :=
  inv s' /\ ((p = 0 /\ quiet s s') \/ allocated s s' nb p).

Lemma alloc_post_quiet s s1 s2 (nb p : Z) :
  quiet s s1 -> alloc_post s1 nb p s2 -> alloc_post s nb p s2.
Proof.
  intros Hq [Hi [[-> Hq']|Ha]]; split; try done.
  - left. split; [done|by eapply quiet_trans].
  - right. by eapply quiet_allocated.
Qed.

Section Request.
Context (fuel : nat) (al nb fb : Z).
Hypothesis Hnb : 0 < nb <= 2 ^ 64 - 256.
Let rb := RoundedBytes nb.

Lemma request_rounded : 0 < rb < 2 ^ 64 /\ rb mod 256 = 0 /\ nb <= rb.
Proof using Hnb. pose proof (RoundedBytes_spec nb ltac:(lia)) as [H1 H2]. subst rb.
  split; [|split; [done|lia]]. split; [lia|]. unfold RoundedBytes. apply wrap_u64_range.
Qed.

Lemma find_post s :
  inv s ->
  runs (FindChunkPtr (BinNumForSize rb) rb nb fb) s (fun p s' => alloc_post s nb p s').
Proof using Hnb SubAllocatorLaws0.
  intros Hinv. destruct request_rounded as (H1 & H2 & H3).
  eapply runs_mono; [by apply (inv_find rb); try done; lia|].
  intros p s' (Hi & [(-> & -> & _)|(Hp & sz & _ & Ha)]); split; try done; [left; split; [done|apply quiet_refl]|by right].
Qed.

(** The end of a request: what follows a failed growth. *)
Lemma last_resort s :
  inv s ->
  runs (q ← gets timestamped_chunks;
        p ← (if (fb =? 0) && negb (bool_decide (q = []))
             then ok ← MergeTimestampedChunks rb;
                  if ok : bool then FindChunkPtr (BinNumForSize rb) rb nb fb else mret 0
             else mret 0);
        if negb (p =? 0) then mret p
        else d ← DeallocateFreeRegions rb;
             e ← (if d : bool then Extend fuel al rb else mret false);
             if e : bool then FindChunkPtr (BinNumForSize rb) rb nb fb else mret 0) s
    (fun p s' => alloc_post s nb p s').
Proof using Hnb SubAllocatorLaws0.
  intros Hinv.
  assert (forall p s1, alloc_post s nb p s1 ->
    runs (if negb (p =? 0) then mret p
          else d ← DeallocateFreeRegions rb;
               e ← (if d : bool then Extend fuel al rb else mret false);
               if e : bool then FindChunkPtr (BinNumForSize rb) rb nb fb else mret 0) s1
      (fun p s' => alloc_post s nb p s')) as Hend.
  { intros p s1 [Hi Hp]. destruct (Z.eqb_spec p 0) as [->|Hne]; cbn [negb]; [|by apply runs_mret].
    apply runs_bind. unfold DeallocateFreeRegions. apply runs_bind. apply runs_gets.
    rewrite (iv_nogc _ Hi). cbn. apply runs_mret. apply runs_bind. apply runs_mret.
    apply runs_mret. by split. }
  apply runs_bind. apply runs_gets. apply runs_bind.
  destruct ((fb =? 0) && _) eqn:Eq.
  - zbool. apply runs_bind. eapply runs_mono; [apply inv_merge; [done|]|].
    { intros E. rewrite E in *. by rewrite bool_decide_eq_true_2 in *. }
    intros ok s1 (Hi1 & Hq1 & _). destruct ok.
    + eapply runs_mono; [by apply find_post|]. intros p s2 Hp. apply Hend.
      by apply (alloc_post_quiet s s1).
    + apply runs_mret. apply Hend. split; [done|]. by left.
  - apply runs_mret. apply Hend. split; [done|]. left. split; [done|apply quiet_refl].
Qed.

Lemma AllocateRawInternal_post s :
  inv s ->
  goes (stuck fuel al rb s) (AllocateRawInternal fuel al nb fb) s (fun p s' => alloc_post s nb p s').
Proof using Hnb SubAllocatorLaws0.
  intros Hinv. destruct request_rounded as (H1 & H2 & H3).
  unfold AllocateRawInternal. rewrite (proj2 (Z.eqb_neq nb 0)) by lia. cbn zeta. fold rb.
  apply goes_bind, goes_runs, runs_gets.
  assert (runs (match timestamped_chunks s with [] => mret tt | _ => MergeTimestampedChunks 0 ;; mret tt end)
            s (fun _ s' => inv s' /\ quiet s s' /\ same_but_queue s s')) as Hmerge.
  { destruct (timestamped_chunks s) eqn:E.
    - apply runs_mret. split; [done|]. split; [apply quiet_refl|by apply same_rest_queue].
    - apply runs_bind. eapply runs_mono; [apply inv_merge; [done|by rewrite E]|].
      intros b s1 H. by apply runs_mret. }
  apply goes_bind, goes_runs. eapply runs_mono; [exact Hmerge|]. intros _ s1 (Hi1 & Hq1 & Hs1).
  apply goes_bind, goes_runs. eapply runs_mono; [by apply (inv_find rb); try done; lia|].
  intros p s2 (Hi2 & [(-> & -> & _)|(Hp & sz & _ & Ha)]).
  2:{ rewrite (proj2 (Z.eqb_neq p 0)) by lia. apply goes_runs, runs_mret. split; [done|].
      right. by eapply quiet_allocated. }
  cbn [negb Z.eqb]. apply goes_bind. eapply goes_mono; [apply (inv_extend fuel al rb s1); [done|lia]| |].
  { by apply stuck_same. }
  intros e s3 (Hi3 & Hq3 & _). pose proof (quiet_trans _ _ _ Hq1 Hq3) as Hq.
  apply goes_bind, goes_runs.
  assert (runs (if e then FindChunkPtr (BinNumForSize rb) rb nb fb else mret 0) s3
            (fun p s' => alloc_post s nb p s')) as Hfind.
  { destruct e; [|apply runs_mret; split; [done|by left]].
    eapply runs_mono; [by apply find_post|]. intros p s4. by apply alloc_post_quiet. }
  eapply runs_mono; [exact Hfind|]. intros p s4 [Hi4 Hp4].
  destruct (Z.eqb_spec p 0) as [->|Hne]; cbn [negb]; [|apply goes_runs, runs_mret; by split].
  destruct Hp4 as [[_ Hq4]|[? _]]; [|lia].
  apply goes_runs. eapply runs_mono; [by apply last_resort|]. intros p s5. by apply alloc_post_quiet.
Qed.
End Request.

(** ** Reachable states *)

(** One call of the client; a free names an allocation that the client holds. *)
Inductive step : t SA -> t SA -> Prop :=
| step_alloc fuel al nb fb p s s' :
    0 <= nb <= 2 ^ 64 - 256 -> AllocateRawInternal fuel al nb fb s = Some (p, s') -> step s s'
| step_free p u s s' : is_Some (user s p) -> DeallocateRaw p s = Some (u, s') -> step s s'
| step_frontier c u s s' : SetSafeFrontier c s = Some (u, s') -> step s s'
| step_timing v u s s' : SetTimingCounter v s = Some (u, s') -> step s s'
| step_clear u s s' : ClearStats s = Some (u, s') -> step s s'.

(** The states of an allocator built with [total_memory] and without garbage collection. *)
Inductive reachable (total_memory : Z) : t SA -> Prop :=
| reach_init sub o s :
    opts_ok o -> garbage_collection o = false -> BFCAllocator sub total_memory o = Some s ->
    reachable total_memory s
| reach_step s s' : reachable total_memory s -> step s s' -> reachable total_memory s'.

Lemma constructor_runs (sub : SA) (total_memory : Z) (o : Options) :
  BFCAllocator sub total_memory o =
  Some (mkBfc o total_memory (sub_SupportsCoalescing sub) sub
          (if allow_growth o then RoundedBytes (Z.min total_memory (2 * 2 ^ 20))
           else RoundedBytes total_memory)
          0 false None [] 0 [] [] None (replicate kNumBins []) 1
          (mkStats 0 0 0 0 (wrap_i64 total_memory))).
Proof. unfold BFCAllocator. replace (forallb _ _) with true; [done|]. vm_compute. reflexivity. Qed.

Lemma RoundedBytes_multiple (n : Z) : RoundedBytes n mod 256 = 0.
Proof. apply wrap_u64_mod256. unfold kMinAllocationSize. by rewrite Z.mul_comm, Z.mod_mul. Qed.

Lemma bounds_nil (q : Z) : bounds [] q = None.
Proof. done. Qed.

Lemma constructor_inv (sub : SA) (total_memory : Z) (o : Options) s :
  opts_ok o -> garbage_collection o = false -> BFCAllocator sub total_memory o = Some s -> inv s.
Proof.
  intros Ho Hgc. rewrite constructor_runs. intros E. apply (inj Some) in E. subst s.
  split; cbn [opts regions chunks bins free_chunks_list curr_region_allocation_bytes stats
    next_allocation_id timing_counter timestamped_chunks]; try done.
  - split; cbn [regions chunks bins free_chunks_list].
    + split; try done; [by split; constructor|]. by intros h c [? _].
    + split; [by rewrite length_replicate| | |].
      * intros b l [-> _]%lookup_replicate. constructor.
      * intros b l h [-> _]%lookup_replicate Hh. by apply elem_of_nil in Hh.
      * by intros h c b [? _].
    + split; [by intros h c [? _]|]. intros h Hh. by apply elem_of_nil in Hh.
    + exists []. split; [done|]. split; [constructor|]. intros h q Hh. by apply elem_of_nil in Hh.
    + done.
  - intros q. cbn. by intros [? ?].
  - case_if; apply RoundedBytes_multiple.
  - constructor.
  - intros _. split; [done|]. by intros k d k' d' _ _ [? _].
Qed.

Lemma constructor_grow (sub : SA) (total_memory : Z) (o : Options) s :
  0 < total_memory <= 2 ^ 60 -> BFCAllocator sub total_memory o = Some s -> grow_ok s.
Proof.
  intros Ht. rewrite constructor_runs. intros [= <-].
  pose proof (RoundedBytes_spec total_memory ltac:(lia)).
  pose proof (RoundedBytes_spec (Z.min total_memory (2 * 2 ^ 20)) ltac:(lia)).
  split; cbn; try lia; case_if; lia.
Qed.

(** [DeallocateRaw] of an allocation of the user, on a whole allocator. *)
Lemma DeallocateRaw_inv s (p sz rq id : Z) :
  inv s -> user s p = Some (sz, rq, id) ->
  runs (DeallocateRaw p) s (fun _ s' => inv s' /\ grows s s' /\ released s s' p sz).
Proof.
  intros [I1 I2 I3 I4 I5 I6 I7 I8 I9 I10 I11] Hus.
  eapply runs_mono; [by apply (DeallocateRaw_ok s p sz rq id)|].
  intros u s' (Hok & Hr & HE). pose proof Hr as [R1 R2 (ts & R3 & R4 & R4') R5 R6 R7].
  destruct R3. cbn in *. split; [|split; [|done]].
  - split; try done; try congruence.
    + by eapply owned_bounds.
    + destruct I7 as [D1 D2]. split.
      * intros q sz1 rq1 id1. rewrite R1. case_decide; [done|]. rewrite sr_id. apply D1.
      * intros q q' sz1 sz1' rq1 rq1' id1. rewrite !R1. repeat case_decide; try done. apply D2.
    + auto.
    + unfold queue_ok. rewrite sr_timestamped. eapply valid_mono; [done|]. auto.
    + rewrite sr_stats, R2. cbn. by apply (wrap_i64_congr _ _ (- sz)).
    + rewrite sr_timing, sr_timestamped. destruct (timing_counter s); [done|]. intros _.
      destruct I11 as [H1 H2]; [done|]. rewrite R4 by done. auto.
  - intros _. by apply grow_ok_ext.
Qed.

Lemma step_inv s s' : step s s' -> inv s -> inv s' /\ grows s s'.
Proof.
  intros Hs Hinv. destruct Hs as [fuel al nb fb p s s' Hnb Hrun|p u s s' [[[sz rq] id] Hp] Hrun|c u s s' Hrun
    |v u s s' Hrun|u s s' Hrun].
  - destruct (decide (nb = 0)) as [->|Hne].
    { unfold AllocateRawInternal in Hrun. cbn in Hrun. injection Hrun as <- <-. split; [done|by intros _]. }
    destruct (AllocateRawInternal_post fuel al nb fb ltac:(lia) s Hinv)
      as [(a & s1 & Hr & Hi & Hp)|[_ Hnone]]; [|congruence].
    rewrite Hr in Hrun. injection Hrun as <- <-. split; [done|].
    destruct Hp as [[_ (_ & _ & Hg)]|(_ & _ & sz & _ & _ & Hg)]; done.
  - destruct (DeallocateRaw_inv s p sz rq id Hinv Hp) as (a & s1 & Hr & Hi & Hg & _).
    rewrite Hr in Hrun. injection Hrun as _ <-. done.
  - injection Hrun as _ <-. destruct (safe_frontier s <? c); [|by split; [|intros _]].
    split; [|intros _; by apply grow_ok_ext]. destruct Hinv. split; try done.
    by apply (heap_ok_ext [] s).
  - injection Hrun as _ <-. split; [|intros _; by apply grow_ok_ext]. destruct Hinv. split; try done.
    by apply (heap_ok_ext [] s).
  - injection Hrun as _ <-. split; [|intros _; by apply grow_ok_ext]. destruct Hinv. split; try done.
    by apply (heap_ok_ext [] s).
Qed.

Lemma reachable_inv (total_memory : Z) s : reachable total_memory s -> inv s.
Proof.
  induction 1 as [sub o s Ho Hgc Hs|s s' _ IH Hs]; [by eapply constructor_inv|].
  by apply (step_inv s s').
Qed.

Lemma reachable_grow (total_memory : Z) s :
  exact_sub (SA := SA) -> 0 < total_memory <= 2 ^ 60 -> reachable total_memory s -> grow_ok s.
Proof.
  intros Hex Ht. induction 1 as [sub o s Ho Hgc Hs|s s' Hr IH Hs]; [by eapply constructor_grow|].
  by apply (step_inv s s' Hs (reachable_inv _ _ Hr)).
Qed.
End Main.
