(* ===== verification/BfcTheorems.v ===== *)
(** * What the BFC allocator promises to its users

    The theorems about whole allocators, stated for every state that calls of
    the public interface reach from the constructor, and their instances on a
    small allocator over the bump sub-allocator. *)

From S2P Require Import Prelude BfcRegion Bfc BfcInv BfcSplit BfcOps BfcFind BfcGrow BfcExtend.
From S2P Require Import BfcFree BfcMain.
Import Region Bfc.

(** ** A small allocator *)

Definition demo_opts : Options := mkOptions false true false None.

(** The state that the constructor gives for 8192 bytes over a bump allocator. *)
Definition demo0 : t Bump.t :=
  mkBfc demo_opts 8192 true (Bump.mk 4096 (2 ^ 40) true) 8192 0 false None [] 0 [] [] None
    (replicate kNumBins []) 1 (mkStats 0 0 0 0 8192).

Definition after {A : Type} (m : M (SA := Bump.t) A) (s : t Bump.t) : t Bump.t :=
  match m s with Some (_, s') => s' | None => s end.

(** Two allocations, and the release of the first. *)
Definition demo1 : t Bump.t := Eval vm_compute in after (AllocateRawInternal 1 64 2500 0) demo0.
Definition demo2 : t Bump.t := Eval vm_compute in after (AllocateRawInternal 1 64 2600 0) demo1.
Definition demo3 : t Bump.t := Eval vm_compute in after (DeallocateRaw 4096) demo2.

Lemma demo0_reachable : reachable 8192 demo0.
Proof.
  apply (reach_init 8192 (Bump.mk 4096 (2 ^ 40) true) demo_opts); [done|done|].
  vm_compute. reflexivity.
Qed.

Lemma demo1_reachable : reachable 8192 demo1.
Proof.
  apply (reach_step 8192 demo0 demo1 demo0_reachable).
  apply (step_alloc 1 64 2500 0 4096); [lia|]. vm_compute. reflexivity.
Qed.

Lemma demo2_reachable : reachable 8192 demo2.
Proof.
  apply (reach_step 8192 demo1 demo2 demo1_reachable).
  apply (step_alloc 1 64 2600 0 6656); [lia|]. vm_compute. reflexivity.
Qed.

Lemma demo3_reachable : reachable 8192 demo3.
Proof.
  apply (reach_step 8192 demo2 demo3 demo2_reachable).
  apply (step_free 4096 tt); [by eexists|]. vm_compute. reflexivity.
Qed.

Lemma bump_exact : exact_sub (SA := Bump.t).
Proof. intros sa sa' al n p r. cbn. unfold Bump.Alloc. case_if; [|done]. by intros [= <- <- <-]. Qed.

Section Theorems.
Context {SA : Type} `{!SubAllocator SA} `{!SubAllocatorLaws SA}.
Implicit Types s : t SA.

(** C5: In every reachable state the memory blocks that the user holds are pairwise disjoint. *)
Theorem allocations_disjoint (total_memory : Z) s (p q sz sz' rq rq' id id' : Z) :
  reachable total_memory s ->
  user s p = Some (sz, rq, id) -> user s q = Some (sz', rq', id') -> p <> q ->
  p + sz <= q \/ q + sz' <= p.
Proof.
  intros Hr%reachable_inv Hp Hq Hne. pose proof (ho_layout _ _ (iv_heap _ Hr)) as Hlay.
  destruct (user_live s p sz rq id Hlay Hp) as (h & c & Hl & <- & _ & <- & _).
  destruct (user_live s q sz' rq' id' Hlay Hq) as (h' & c' & Hl' & <- & _ & <- & _).
  apply (live_disjoint _ _ Hlay h h'); [done..|]. intros ->.
  apply Hne. by rewrite (live_fun _ _ _ _ _ Hl Hl').
Qed.

(** C9: Every address of a region lies in exactly one chunk: the chunks of a region cover it
    without gaps and do not overlap. *)
Theorem chunks_tile_regions (total_memory : Z) s (q : Z) :
  reachable total_memory s -> is_Some (bounds (regions s) q) ->
  exists h c, live (regions s) (chunks s) h c /\ ptr c <= q < ptr c + size c /\
    forall h' c', live (regions s) (chunks s) h' c' -> ptr c' <= q < ptr c' + size c' -> h' = h.
Proof.
  intros Hr%reachable_inv [[lo hi] Hb]. pose proof (ho_layout _ _ (iv_heap _ Hr)) as Hlay.
  destruct (chunk_cover _ _ q lo hi Hlay Hb) as (h & c & Hl & Hq). exists h, c.
  split; [done|]. split; [done|]. intros h' c' Hl' Hq'. destruct (decide (h' = h)) as [|Hne]; [done|].
  destruct (live_disjoint _ _ Hlay h' h c' c Hl' Hl Hne); lia.
Qed.

(** Without a timing counter no two neighbouring chunks are both free and safe to merge: freed
    memory is always coalesced. *)
Theorem free_chunks_coalesced (total_memory : Z) s (h h' : nat) (c c' : Chunk) :
  reachable total_memory s -> timing_counter s = None ->
  live (regions s) (chunks s) h c -> live (regions s) (chunks s) h' c' -> next c = Some h' ->
  freed_at_count c = 0 -> freed_at_count c' = 0 -> in_use c = true \/ in_use c' = true.
Proof.
  intros Hr%reachable_inv Ht Hl Hl' Hn Hf Hf'. destruct (iv_untimed _ Hr Ht) as [_ HE].
  destruct (in_use c) eqn:Hu; [by left|]. destruct (in_use c') eqn:Hu'; [by right|].
  exfalso. apply (HE h c h' c'); try done; set_solver.
Qed.

(** C6: An allocation request that returns either fails without any visible effect or hands out a
    block of at least the rounded size, at an address where the user held nothing, under the next
    allocation number; all other allocations are untouched. *)
Theorem AllocateRaw_result (total_memory : Z) (fuel : nat) (al nb fb p : Z) s s' :
  reachable total_memory s -> 0 < nb <= 2 ^ 64 - 256 ->
  AllocateRawInternal fuel al nb fb s = Some (p, s') ->
  (p = 0 /\ forall q, user s' q = user s q) \/
  (0 < p /\ user s p = None /\ exists sz, nb <= sz /\ RoundedBytes nb <= sz /\
     forall q, user s' q = if decide (q = p) then Some (sz, nb, next_allocation_id s) else user s q).
Proof.
  intros Hr%reachable_inv Hnb Hrun.
  destruct (AllocateRawInternal_post fuel al nb fb Hnb s Hr) as [(a & s1 & Hr1 & _ & Hp)|[_ Hnone]];
    [|congruence].
  rewrite Hr1 in Hrun. injection Hrun as <- <-.
  destruct Hp as [[-> (Hq & _)]|(H1 & H2 & sz & H3 & H4 & _)]; [by left|right].
  split; [done|]. split; [done|]. exists sz. split; [|done].
  pose proof (RoundedBytes_spec nb ltac:(lia)). lia.
Qed.


(** C8: Freeing an allocation always succeeds, removes exactly that allocation and subtracts its
    size from the bytes in use. *)
Theorem DeallocateRaw_result (total_memory : Z) s (p sz rq id : Z) :
  reachable total_memory s -> user s p = Some (sz, rq, id) ->
  exists u s', DeallocateRaw p s = Some (u, s') /\
    (forall q, user s' q = if decide (q = p) then None else user s q) /\
    stats s' = uncount (stats s) sz.
Proof.
  intros Hr%reachable_inv Hp.
  destruct (DeallocateRaw_inv s p sz rq id Hr Hp) as (u & s' & Hrun & _ & _ & [H1 _ (ts & H3 & _) _ _ _]).
  exists u, s'. split; [done|]. split; [done|]. apply H3.
Qed.

(** Freeing an allocation a second time fails a [CHECK]. *)
Theorem double_free_fails (total_memory : Z) s s' (p sz rq id : Z) (u : unit) :
  reachable total_memory s -> user s p = Some (sz, rq, id) -> DeallocateRaw p s = Some (u, s') ->
  DeallocateRaw p s' = None.
Proof.
  intros Hr%reachable_inv Hp Hrun.
  destruct (DeallocateRaw_inv s p sz rq id Hr Hp) as (u1 & s1 & Hrun1 & Hi & _ & [H1 _ _ _ H5 _]).
  rewrite Hrun in Hrun1. injection Hrun1 as _ <-.
  pose proof (ho_layout _ _ (iv_heap _ Hr)) as Hlay.
  destruct (user_live s p sz rq id Hlay Hp) as (h & c & Hl & <- & _).
  pose proof (live_range _ _ Hlay _ _ Hl).
  apply DeallocateRaw_invalid; [apply Hi|lia| |by rewrite H1, decide_True].
  destruct (live_slot_point _ _ Hlay _ _ Hl) as (lo & hi & Hb & Hm). exists lo, hi. by rewrite H5.
Qed.

(** [FindChunkPtr] is best fit: it returns [nullptr] only if no free chunk fits, and otherwise
    the smallest chunk that fits, the lowest address first. *)
Theorem FindChunkPtr_best_fit (total_memory : Z) (nb fb p : Z) s s' :
  reachable total_memory s -> 0 < nb <= 2 ^ 64 - 256 ->
  let rb := RoundedBytes nb in
  FindChunkPtr (BinNumForSize rb) rb nb fb s = Some (p, s') ->
  (p = 0 /\ forall h c, live (regions s) (chunks s) h c -> in_use c = false -> fits rb fb c = false) \/
  (exists h c, live (regions s) (chunks s) h c /\ ptr c = p /\ in_use c = false /\ fits rb fb c = true /\
     forall x d, live (regions s) (chunks s) x d -> in_use d = false -> fits rb fb d = true ->
       size c < size d \/ (size c = size d /\ ptr c <= ptr d)).
Proof.
  intros Hr%reachable_inv Hnb rb Hrun. destruct (request_rounded nb Hnb) as (H1 & H2 & H3).
  destruct (FindChunkPtr_ok s rb nb fb (iv_heap _ Hr) (iv_opts _ Hr) (iv_id _ Hr) H1 H2)
    as (a & s1 & Hr1 & _ & _ & Hp).
  rewrite Hr1 in Hrun. injection Hrun as <- <-.
  destruct Hp as [(-> & _ & Hno)|(_ & sz & [(h & c & G1 & G2 & G3 & G4 & G5 & _) _ _ _ _ _ _])];
    [by left|right]. by exists h, c.
Qed.

(** The statistic [bytes_in_use] is the sum of the sizes of the chunks in use (as an [int64]),
    and every entry in use is a registered chunk. *)
Theorem bytes_in_use_exact (total_memory : Z) s :
  reachable total_memory s ->
  bytes_in_use (stats s) = wrap_i64 (used_bytes s) /\
  forall h c, chunks s !! h = Some c -> in_use c = true -> slot (regions s) (ptr c) = Some h.
Proof.
  intros Hr%reachable_inv. split; [apply Hr|]. intros h c Hc Hu.
  destruct (ho_dead _ _ (iv_heap _ Hr) h c Hc) as [|[Hu' _]]; [done|congruence].
Qed.

(** Over an exact sub-allocator the regions never exceed the memory limit, and the size of the
    next region never wraps to zero. *)
Theorem memory_limit_respected (total_memory : Z) s :
  exact_sub (SA := SA) -> 0 < total_memory <= 2 ^ 60 -> reachable total_memory s ->
  0 <= total_region_allocated_bytes s <= memory_limit s /\ 0 < curr_region_allocation_bytes s.
Proof. intros Hex Ht Hr. by destruct (reachable_grow _ _ Hex Ht Hr). Qed.

(** [RequestedSize], [AllocatedSize] and [AllocationId] report what the allocation was made
    with, without changing the state; allocation numbers identify allocations. *)
Theorem queries_report (total_memory : Z) s (p sz rq id : Z) :
  reachable total_memory s -> user s p = Some (sz, rq, id) ->
  RequestedSize p s = Some (rq, s) /\ AllocatedSize p s = Some (sz, s) /\ AllocationId p s = Some (id, s) /\
  rq <= sz /\ forall q sz' rq', user s q = Some (sz', rq', id) -> q = p.
Proof.
  intros Hr%reachable_inv Hp. pose proof (ho_layout _ _ (iv_heap _ Hr)) as Hlay.
  destruct (iv_ids _ Hr) as [D1 D2]. pose proof (D1 _ _ _ _ Hp).
  assert (forall A (f : Chunk -> A) h c, live (regions s) (chunks s) h c -> ptr c = p ->
            (c ← chunk_of_ptr p; mret (f c)) s = Some (f c, s)) as Hq.
  { intros A f h c Hl <-. unfold chunk_of_ptr, mbind, M_bind, get_handle_M, asks.
    rewrite (get_handle_slot _ _ (lo_regions _ _ Hlay) (live_slot_point _ _ Hlay _ _ Hl)).
    rewrite (proj2 Hl). cbn. unfold ChunkFromHandle, asks. by rewrite (proj1 Hl). }
  destruct (user_live s p sz rq id Hlay Hp) as (h & c & Hl & Hpc & _ & <- & <- & <-).
  pose proof (live_range _ _ Hlay _ _ Hl).
  split; [|split; [by eapply Hq|split; [by eapply Hq|split; [lia|]]]].
  - unfold RequestedSize. unfold CHECK. rewrite (proj2 (Z.eqb_neq p 0)) by lia. by eapply Hq.
  - intros q sz' rq' Hq'. by eapply D2.
Qed.
End Theorems.

(** ** The theorems on the small allocator *)

Lemma allocations_disjoint_witness :
  user demo2 4096 = Some (2560, 2500, 1) /\ user demo2 6656 = Some (2816, 2600, 2) /\
  (4096 + 2560 <= 6656 \/ 6656 + 2816 <= 4096).
Proof.
  split; [reflexivity|]. split; [reflexivity|].
  apply (allocations_disjoint 8192 demo2 4096 6656 2560 2816 2500 2600 1 2 demo2_reachable);
    [reflexivity|reflexivity|lia].
Defined.

Lemma chunks_tile_regions_witness :
  exists h c, live (regions demo2) (chunks demo2) h c /\ ptr c <= 7000 < ptr c + size c /\
    forall h' c', live (regions demo2) (chunks demo2) h' c' -> ptr c' <= 7000 < ptr c' + size c' -> h' = h.
Proof.
  apply (chunks_tile_regions 8192 demo2 7000 demo2_reachable). vm_compute. by eexists.
Defined.

Lemma free_chunks_coalesced_witness :
  exists c c', live (regions demo3) (chunks demo3) 0 c /\ live (regions demo3) (chunks demo3) 1 c' /\
    next c = Some 1%nat /\ (in_use c = true \/ in_use c' = true).
Proof.
  destruct (chunks demo3 !! 0%nat) as [c|] eqn:E0; [|by vm_compute in E0].
  destruct (chunks demo3 !! 1%nat) as [c'|] eqn:E1; [|by vm_compute in E1].
  exists c, c'. vm_compute in E0, E1. injection E0 as <-. injection E1 as <-.
  split; [split; reflexivity|]. split; [split; reflexivity|]. split; [reflexivity|].
  eapply (free_chunks_coalesced 8192 demo3 0 1 _ _ demo3_reachable); [reflexivity|split; reflexivity..|
    reflexivity|reflexivity|reflexivity].
Defined.

Lemma AllocateRaw_result_witness :
  AllocateRawInternal 1 64 2600 0 demo1 = Some (6656, demo2) /\ user demo1 6656 = None.
Proof.
  split; [vm_compute; reflexivity|].
  destruct (AllocateRaw_result 8192 1 64 2600 0 6656 demo1 demo2 demo1_reachable) as [[H _]|[_ [H _]]];
    [lia|vm_compute; reflexivity|lia|exact H].
Defined.


Lemma DeallocateRaw_result_witness :
  exists u s', DeallocateRaw 4096 demo2 = Some (u, s') /\
    (forall q, user s' q = if decide (q = 4096) then None else user demo2 q) /\
    stats s' = uncount (stats demo2) 2560.
Proof. apply (DeallocateRaw_result 8192 demo2 4096 2560 2500 1 demo2_reachable). reflexivity. Defined.

Lemma double_free_fails_witness :
  DeallocateRaw 4096 demo2 = Some (tt, demo3) /\ DeallocateRaw 4096 demo3 = None.
Proof.
  split; [vm_compute; reflexivity|].
  apply (double_free_fails 8192 demo2 demo3 4096 2560 2500 1 tt demo2_reachable);
    [reflexivity|vm_compute; reflexivity].
Defined.

Lemma FindChunkPtr_best_fit_witness :
  exists p s', FindChunkPtr (BinNumForSize (RoundedBytes 300)) (RoundedBytes 300) 300 0 demo3 = Some (p, s') /\
  ((p = 0 /\ forall h c, live (regions demo3) (chunks demo3) h c -> in_use c = false ->
      fits (RoundedBytes 300) 0 c = false) \/
   (exists h c, live (regions demo3) (chunks demo3) h c /\ ptr c = p /\ in_use c = false /\
      fits (RoundedBytes 300) 0 c = true /\
      forall x d, live (regions demo3) (chunks demo3) x d -> in_use d = false ->
        fits (RoundedBytes 300) 0 d = true -> size c < size d \/ (size c = size d /\ ptr c <= ptr d))).
Proof.
  destruct (FindChunkPtr (BinNumForSize (RoundedBytes 300)) (RoundedBytes 300) 300 0 demo3)
    as [[p s']|] eqn:E; [|by vm_compute in E].
  exists p, s'. split; [reflexivity|].
  apply (FindChunkPtr_best_fit 8192 300 0 p demo3 s' demo3_reachable); [lia|exact E].
Defined.

Lemma bytes_in_use_exact_witness : bytes_in_use (stats demo2) = wrap_i64 (used_bytes demo2).
Proof. apply (bytes_in_use_exact 8192 demo2 demo2_reachable). Defined.

Lemma memory_limit_respected_witness : 0 <= total_region_allocated_bytes demo2 <= memory_limit demo2.
Proof. apply (memory_limit_respected 8192 demo2 bump_exact ltac:(lia) demo2_reachable). Defined.

Lemma queries_report_witness : RequestedSize 6656 demo2 = Some (2600, demo2).
Proof.
  apply (queries_report 8192 demo2 6656 2816 2600 2 demo2_reachable). reflexivity.
Defined.

(** ** Sizes and bins *)

(** The portable and the intrinsic variant of the integer logarithm agree. *)
Theorem Log2FloorNonZero_variants (n : Z) :
  0 < n < 2 ^ 64 -> Log2FloorNonZero n = Log2FloorNonZeroSlow n.
Proof. intros Hn. by rewrite Log2FloorNonZero_log2, Log2FloorNonZeroSlow_log2. Qed.

Lemma Log2FloorNonZero_variants_witness : Log2FloorNonZero 40000 = Log2FloorNonZeroSlow 40000.
Proof. apply Log2FloorNonZero_variants. lia. Defined.

(** [BinNumForSize] picks the bin whose range [BinNumToSize b, 2 * BinNumToSize b) contains the
    size (the last bin takes everything above), and larger sizes never go to smaller bins. *)
Theorem bin_contains_size (x y : Z) :
  256 <= x <= y -> y < 2 ^ 64 ->
  let b := BinNumForSize x in
  (b < kNumBins)%nat /\ BinNumToSize b <= x /\ ((S b < kNumBins)%nat -> x < BinNumToSize (S b)) /\
  (b <= BinNumForSize y)%nat.
Proof.
  intros Hx Hy. cbn. pose proof (BinNumForSize_lt x). pose proof (BinNumForSize_range x ltac:(lia)) as [H1 H2].
  split; [done|]. split; [done|]. split; [|apply BinNumForSize_mono; lia]. intros Hb.
  rewrite BinNumToSize_pow in * by lia. specialize (H2 Hb). rewrite Nat2Z.inj_succ, Z.pow_succ_r by lia. lia.
Qed.

Lemma bin_contains_size_witness : (BinNumForSize 5000 < kNumBins)%nat /\ BinNumToSize (BinNumForSize 5000) <= 5000.
Proof.
  split.
  - apply (bin_contains_size 5000 6000); lia.
  - apply (bin_contains_size 5000 6000); lia.
Defined.

(** ** Where the code falls short *)

(** An allocator whose sub-allocator has nothing to give. *)
Definition exhausted : t Bump.t :=
  mkBfc demo_opts 8192 true (Bump.mk 4096 4096 true) 8192 0 false None [] 0 [] [] None
    (replicate kNumBins []) 1 (mkStats 0 0 0 0 8192).

Lemma exhausted_fails (n : Z) : 2304 <= n -> Bump.Alloc (Bump.mk 4096 4096 true) 64 n = (None, Bump.mk 4096 4096 true).
Proof. intros Hn. unfold Bump.Alloc. cbn [Bump.next Bump.limit]. case_if; [lia|done]. Qed.

(** A request of at most 2304 bytes never returns when the sub-allocator is exhausted at the
    first back-pedalling: the loop reaches 2304 bytes, where a step of 0.9 rounds back to 2304. *)
Theorem small_request_never_returns (fuel : nat) (nb : Z) :
  0 < nb <= 2304 -> AllocateRawInternal fuel 64 nb 0 exhausted = None.
Proof.
  intros Hnb. pose proof (RoundedBytes_spec nb ltac:(lia)) as [H1 H2].
  assert (RoundedBytes nb <= 2304) as Hrb by dlia.
  unfold AllocateRawInternal. rewrite (proj2 (Z.eqb_neq nb 0)) by lia. cbn zeta.
  generalize dependent (RoundedBytes nb). intros rb H1 H2 Hrb.
  assert (FindChunkPtr (BinNumForSize rb) rb nb 0 exhausted = Some (0, exhausted)) as Hf.
  { unfold FindChunkPtr, mbind, M_bind, asks. change (chunks exhausted) with (@nil Chunk).
    assert (forall b n, find_in_bins [] rb 0 b (replicate n []) = Some None) as E.
    { intros b n. revert b. induction n as [|n IH]; intros b; cbn; [done|]. apply IH. }
    change (bins exhausted) with (replicate kNumBins (@nil nat)). rewrite drop_replicate, E. done. }
  assert (Extend fuel 64 rb exhausted = None) as He.
  { unfold Extend. change (available_bytes exhausted) with 8192.
    rewrite (proj2 (Z.ltb_ge _ _)) by lia. change (curr_region_allocation_bytes exhausted) with 8192.
    cbn [double_until]. rewrite (proj2 (Z.ltb_ge 8192 rb)) by lia. cbn.
    unfold sub_alloc_block. change (sub_allocator exhausted) with (Bump.mk 4096 4096 true).
    cbn [sub_Alloc Bump.sub]. rewrite exhausted_fails by lia. change (started_backpedal exhausted) with false.
    cbn [negb]. rewrite backpedal_loop_diverges; [done|apply exhausted_fails|lia|lia]. }
  unfold mbind, M_bind, gets. change (timestamped_chunks exhausted) with (@nil nat).
  cbn [mret M_ret]. unfold mret, M_ret. rewrite Hf. change (negb (0 =? 0)) with false. cbn match. cbn beta. by rewrite He.
Qed.

Lemma small_request_never_returns_witness : AllocateRawInternal 1000 64 100 0 exhausted = None.
Proof. apply small_request_never_returns. lia. Defined.

(** A request within 255 bytes of 2^64 is rounded to zero and answered with an empty chunk that
    shares its address with a free one. *)
Example huge_request_wraps :
  RoundedBytes (2 ^ 64 - 100) = 0 /\
  exists s', AllocateRawInternal 1 64 (2 ^ 64 - 100) 0 demo3 = Some (4096, s') /\
    user s' 4096 = None /\ (size <$> chunks s' !! 0%nat) = Some 0.
Proof. split; [reflexivity|]. eexists. split; [vm_compute; reflexivity|]. split; reflexivity. Qed.

Definition calls (l : list (M (SA := Bump.t) unit)) (s : t Bump.t) : option (t Bump.t) :=
  foldl (fun o m => s ← o; '(_, s') ← m s; Some s') (Some s) l.

Definition alloc (nb fb : Z) : M (SA := Bump.t) unit := AllocateRawInternal 1 64 nb fb ;; mret tt.

(** Merging the timestamped chunks in the order of their addresses leaves two neighbouring free
    chunks that are both safe to merge. *)
Example timestamped_merge_incomplete :
  exists s c c', calls [SetTimingCounter 0; alloc 2500 0; alloc 2600 0; DeallocateRaw 4096; DeallocateRaw 6656;
      SetSafeFrontier 100; MergeTimestampedChunks 0 ;; mret tt] demo0 = Some s /\
    live (regions s) (chunks s) 0 c /\ live (regions s) (chunks s) 2 c' /\ next c = Some 2%nat /\
    safe_free c /\ safe_free c'.
Proof.
  do 3 eexists. split; [vm_compute; reflexivity|]. split; [split; reflexivity|].
  split; [split; reflexivity|]. split; [reflexivity|]. split; split; reflexivity.
Qed.

(** A forced merge that does not move a chunk drops it from the queue with its timestamp still set:
    no later merge clears the timestamp. *)
Example forced_merge_drops_timestamp :
  exists s c, calls [SetTimingCounter 0; alloc 2500 0; alloc 2600 0; alloc 2600 0; DeallocateRaw 6656;
      alloc 7000 0] demo0 = Some s /\
    live (regions s) (chunks s) 1 c /\ in_use c = false /\ freed_at_count c = 1 /\
    timestamped_chunks s = [].
Proof.
  do 2 eexists. split; [vm_compute; reflexivity|]. split; [split; reflexivity|]. repeat split.
Qed.

(** The same allocator with garbage collection of regions. *)
Definition collecting : t Bump.t :=
  mkBfc (mkOptions true true true None) 8192 false (Bump.mk 4096 (2 ^ 40) false) 8192 0 false None [] 0
    [] [] None (replicate kNumBins []) 1 (mkStats 0 0 0 0 8192).

(** Garbage collection frees a region while one of its chunks is queued; the next request looks the
    chunk up in a region that is gone. *)
Example collection_breaks_queue :
  exists s, calls [SetTimingCounter 5; alloc 4000 0; alloc 4000 0; DeallocateRaw 4096; DeallocateRaw 8192;
      alloc 8000 1] collecting = Some s /\ alloc 300 0 s = None.
Proof. eexists. split; [vm_compute; reflexivity|]. vm_compute. reflexivity. Qed.
