(* ===== verification/TensorShape.v ===== *)
(** * Tensor shapes ([core/framework/tensor_shape.{h,cc}], [core/util/overflow.h])

    [TensorShape] and [PartialTensorShape] share one packed representation:
    up to six 16-bit sizes, up to three 32-bit sizes, or a heap vector of
    64-bit sizes, with the rank in a byte and the number of elements cached.
    The template parameter [kIsPartial] is a parameter of the definitions.

    A function that returns [Status] gives a [res] with the status code; a
    function that only [CHECK]s gives an option, with [None] for a failed
    [CHECK].  The data type byte, error texts and iterators as objects are
    left out, and so is the half-filled shape that an update which fails with
    a status leaves behind.  A loop over the dimensions of a shape of unknown
    rank never ends (it counts up from 0 to reach -1) and is [None]. *)

From S2P Require Import Prelude.

Module Shape.

Open Scope res_scope.

(** The status codes that these functions return. *)
Inductive code := InvalidArgument | Internal.

(** ** [MultiplyWithoutOverflow] *)

(** [inline int64_t MultiplyWithoutOverflow(const int64_t x, const int64_t y)] *)
Definition MultiplyWithoutOverflow (x y : Z) : Z :=
  if x <? 0 then -1
  else if y <? 0 then -1
  else if x =? 0 then 0
  else
    let ux := wrap_u64 x in
    let uy := wrap_u64 y in
    let uxy := wrap_u64 (ux * uy) in
    if negb (Z.shiftr (Z.lor ux uy) 32 =? 0) && negb (uxy / ux =? uy) then -1
    else wrap_i64 uxy.

(** ** The representation *)

Inductive RepTag := REP16 | REP32 | REP_OUT_OF_LINE.

(** [class TensorShapeRep]: [raw] holds the stored values of the first [ndims_byte] dimensions. *)
Record t := mk {
  tag : RepTag;
  raw : list Z;
  ndims_byte : Z;
  num_elements : Z
}.

Definition MaxDimensions : Z := 254.
Definition kUnknownRank : Z := 255.
Definition kMaxRep16 : Z := 65534.
Definition kMaxRep32 : Z := 4294967294.
Definition kUnknownRep16 : Z := 65535.
Definition kUnknownRep32 : Z := 4294967295.

(** [struct TensorShapeProto]: sizes of the dimensions, and the flag [unknown_rank]. *)
Record Proto := mkProto { proto_dim : list Z; proto_unknown_rank : bool }.

(** [TensorShapeRep::ClearAllButDataType] and [Clear] *)
Definition Clear : t := mk REP16 [] 0 1.

Section Base.
Context (kIsPartial : bool).

(** [TensorShapeBase::TensorShapeBase()] *)
Definition TensorShapeBase : t :=
  if kIsPartial then mk REP16 [] kUnknownRank (-1) else mk REP16 [] 0 1.

(** [TensorShapeBase(DataType dt)]: the shape of an empty vector. *)
Definition empty_vector : t := mk REP16 [0] 1 0.

Definition unknown_rank (s : t) : bool := kIsPartial && (ndims_byte s =? kUnknownRank).

Definition dims (s : t) : Z :=
  if kIsPartial && (ndims_byte s =? kUnknownRank) then -1 else ndims_byte s.

(** The size that a stored value stands for. *)
Definition decode (tg : RepTag) (v : Z) : Z :=
  match tg with
  | REP16 => if kIsPartial && (v =? kUnknownRep16) then -1 else v
  | REP32 => if kIsPartial && (v =? kUnknownRep32) then -1 else v
  | REP_OUT_OF_LINE => v
  end.

(** [TensorShapeBase::dim_size] *)
Definition dim_size (s : t) (d : Z) : Z :=
  if unknown_rank s then -1 else decode (tag s) (nth (Z.to_nat d) (raw s) 0).

(** The loop [for (auto dim : *this)]: the sizes it visits. *)
Definition iterate (s : t) : option (list Z) :=
  if unknown_rank s then None
  else Some (map (fun d => dim_size s (Z.of_nat d)) (seq 0 (Z.to_nat (dims s)))).

(** [TensorShapeBase::dim_sizes] *)
Definition dim_sizes (s : t) : option (list Z) := iterate s.

Definition IsFullyDefined (s : t) : bool := negb kIsPartial || negb (num_elements s =? -1).

(** ** Validity *)

(** The loop of [IsValid] and [IsValidShape] over the dimensions. *)
Fixpoint valid_dims (num : Z) (l : list Z) : bool :=
  match l with
  | [] => true
  | d :: l' =>
      if d <? (if kIsPartial then -1 else 0) then false
      else if d =? -1 then valid_dims (-1) l'
      else if negb kIsPartial || (0 <=? num) then
        let num' := MultiplyWithoutOverflow num d in
        if num' <? 0 then false else valid_dims num' l'
      else valid_dims num l'
  end.

(** [bool TensorShapeBase::IsValid()] *)
Definition IsValid (s : t) : option bool :=
  if kIsPartial && unknown_rank s then Some (dims s =? 0)
  else if MaxDimensions <? dims s then Some false
  else l ← dim_sizes s; Some (valid_dims 1 l).

(** [static bool TensorShapeBase::IsValid(const TensorShapeProto&)] *)
Definition IsValid_proto (p : Proto) : bool :=
  if kIsPartial && proto_unknown_rank p then (length (proto_dim p) =? 0)%nat
  else if MaxDimensions <? Z.of_nat (length (proto_dim p)) then false
  else valid_dims 1 (proto_dim p).

(** The loop of [IsValidShape]. *)
Fixpoint valid_dims_status (num : Z) (l : list Z) : res code unit :=
  match l with
  | [] => Ok tt
  | d :: l' =>
      if d <? (if kIsPartial then -1 else 0) then Err InvalidArgument
      else if d =? -1 then valid_dims_status (-1) l'
      else if negb kIsPartial || (0 <=? num) then
        let num' := MultiplyWithoutOverflow num d in
        if num' <? 0 then Err InvalidArgument else valid_dims_status num' l'
      else valid_dims_status num l'
  end.

(** [TensorShapeBase::IsValidShape] *)
Definition IsValidShape (p : Proto) : res code unit :=
  if kIsPartial && proto_unknown_rank p then
    if (0 <? length (proto_dim p))%nat then Err InvalidArgument else Ok tt
  else if MaxDimensions <? Z.of_nat (length (proto_dim p)) then Err InvalidArgument
  else valid_dims_status 1 (proto_dim p).

(** ** Adding dimensions *)

Definition store16 (size : Z) : Z :=
  if kIsPartial && (size <? 0) then kUnknownRep16 else size mod 2 ^ 16.
Definition store32 (size : Z) : Z :=
  if kIsPartial && (size <? 0) then kUnknownRep32 else size mod 2 ^ 32.

(** [TensorShapeBase::UnsafeAddDim] *)
Definition UnsafeAddDim (s : t) (size new_num_elements : Z) : t :=
  let nd := ndims_byte s in
  let old := take (Z.to_nat nd) (raw s) in
  let '(tg, v) :=
    match tag s with
    | REP16 =>
        if (nd <? 6) && (size <? kMaxRep16) then (REP16, old ++ [store16 size])
        else
          let vals := map (fun d => dim_size s (Z.of_nat d)) (seq 0 (Z.to_nat nd)) ++ [size] in
          if (length vals <=? 3)%nat && forallb (fun v => v <? kMaxRep32) vals
          then (REP32, map store32 vals) else (REP_OUT_OF_LINE, vals)
    | REP32 =>
        if (nd <? 3) && (size <? kMaxRep32) then (REP32, old ++ [store32 size])
        else
          let vals := map (fun d => dim_size s (Z.of_nat d)) (seq 0 (Z.to_nat nd)) ++ [size] in
          if (length vals <=? 3)%nat && forallb (fun v => v <? kMaxRep32) vals
          then (REP32, map store32 vals) else (REP_OUT_OF_LINE, vals)
    | REP_OUT_OF_LINE => (REP_OUT_OF_LINE, old ++ [size])
    end in
  mk tg v (nd + 1) new_num_elements.

(** [TensorShapeBase::AddDim] *)
Definition AddDim (s : t) (size : Z) : option t :=
  if negb kIsPartial && (size <? 0) then None
  else if unknown_rank s then Some s
  else if negb (ndims_byte s <? MaxDimensions) then None
  else if kIsPartial && ((num_elements s <? 0) || (size <? 0))
  then Some (UnsafeAddDim s size (-1))
  else
    let n := MultiplyWithoutOverflow (num_elements s) size in
    if n <? 0 then None else Some (UnsafeAddDim s size n).

(** [TensorShapeBase::AddDimWithStatus] *)
Definition AddDimWithStatus (s : t) (size : Z) : res code t :=
  check! negb (negb kIsPartial && (size <? 0)) else InvalidArgument in
  if unknown_rank s then Ok s
  else
    check! ndims_byte s <? MaxDimensions else InvalidArgument in
    if kIsPartial && ((num_elements s <? 0) || (size <? 0))
    then Ok (UnsafeAddDim s size (-1))
    else
      let n := MultiplyWithoutOverflow (num_elements s) size in
      check! negb (n <? 0) else InvalidArgument in
      Ok (UnsafeAddDim s size n).

(** [for (auto dval : vals) AddDim(dval)] *)
Fixpoint add_dims (s : t) (l : list Z) : option t :=
  match l with
  | [] => Some s
  | d :: l' => s' ← AddDim s d; add_dims s' l'
  end.

(** The same loop with [AddDimWithStatus]. *)
Fixpoint add_dims_status (s : t) (l : list Z) : res code t :=
  match l with
  | [] => Ok s
  | d :: l' => let! s' := AddDimWithStatus s d in add_dims_status s' l'
  end.

(** [TensorShapeBase::AppendShape] and [AppendShapeWithStatus] *)
Definition AppendShape (s shape : t) : option t := l ← iterate shape; add_dims s l.
Definition AppendShapeWithStatus (s shape : t) : option (res code t) :=
  l ← iterate shape; Some (add_dims_status s l).

(** ** Construction *)

Definition kMaxSmall : Z := 0xd744.

(** [TensorShapeBase::InitDims] *)
Definition InitDims (l : list Z) : res code t :=
  let large_size := existsb (fun s => kMaxSmall <? s) l in
  let slow := add_dims_status (mk REP16 [] 0 1) l in
  if negb kIsPartial && negb large_size && existsb (fun s => s <? 0) l then Err InvalidArgument
  else if negb large_size then
    match l with
    | [s0] =>
        let neg := kIsPartial && (s0 <? 0) in
        Ok (mk REP16 [store16 s0] 1 (if neg then -1 else s0))
    | [s0; s1] =>
        let neg := kIsPartial && ((s0 <? 0) || (s1 <? 0)) in
        Ok (mk REP16 [store16 s0; store16 s1] 2 (if neg then -1 else wrap_i64 (s0 * s1)))
    | [s0; s1; s2] =>
        let neg := kIsPartial && ((s0 <? 0) || (s1 <? 0) || (s2 <? 0)) in
        Ok (mk REP16 [store16 s0; store16 s1; store16 s2] 3
              (if neg then -1 else wrap_i64 (s0 * s1 * s2)))
    | [s0; s1; s2; s3] =>
        let neg := kIsPartial && ((s0 <? 0) || (s1 <? 0) || (s2 <? 0) || (s3 <? 0)) in
        Ok (mk REP16 [store16 s0; store16 s1; store16 s2; store16 s3] 4
              (if neg then -1 else wrap_i64 (s0 * s1 * s2 * s3)))
    | _ => slow
    end
  else slow.

(** [TensorShapeBase(gtl::ArraySlice<int64_t>)] and the factory on sizes *)
Definition FromDims (l : list Z) : option t :=
  match InitDims l with Ok s => Some s | Err _ => None end.
Definition BuildFromDims (l : list Z) : res code t := InitDims l.

(** [TensorShapeBase(const TensorShapeProto&)] *)
Definition FromProto (p : Proto) : option t :=
  if kIsPartial && proto_unknown_rank p then Some (mk REP16 [] kUnknownRank (-1))
  else add_dims (mk REP16 [] 0 1) (proto_dim p).

(** The loop of [BuildTensorShapeBase(const TensorShapeProto&, ...)]; [excl] is
    [num_elements_excluding_zero_dims]. *)
Fixpoint build_dims (s : t) (excl : Z) (l : list Z) : res code t :=
  match l with
  | [] => Ok s
  | d :: l' =>
      let! s' := AddDimWithStatus s d in
      if 0 <? d then
        let excl' := MultiplyWithoutOverflow excl d in
        if excl' <? 0 then Err InvalidArgument else build_dims s' excl' l'
      else build_dims s' excl l'
  end.

(** [TensorShapeBase::BuildTensorShapeBase] on a proto *)
Definition BuildFromProto (p : Proto) : res code t :=
  if kIsPartial && proto_unknown_rank p then Ok (mk REP16 [] kUnknownRank (-1))
  else build_dims (mk REP16 [] 0 1) 1 (proto_dim p).

(** [TensorShapeBase::AsProto] *)
Definition AsProto (s : t) : Proto :=
  if unknown_rank s then mkProto [] true
  else mkProto (map (fun i => dim_size s (Z.of_nat i)) (seq 0 (Z.to_nat (dims s)))) false.

(** ** Updates *)

(** The loop of [RecomputeNumElements]. *)
Fixpoint count_loop (n : Z) (l : list Z) : res code Z :=
  match l with
  | [] => Ok n
  | d :: l' =>
      if kIsPartial && (d <? 0) then Ok (-1)
      else
        let n' := MultiplyWithoutOverflow n d in
        if n' <? 0 then Err InvalidArgument else count_loop n' l'
  end.

Definition set_num_elements (s : t) (n : Z) : t := mk (tag s) (raw s) (ndims_byte s) n.

(** [TensorShapeBase::RecomputeNumElements] *)
Definition RecomputeNumElements (s : t) : res code t :=
  match iterate s with
  | None => Ok (set_num_elements s (-1))
  | Some l => let! n := count_loop 1 l in Ok (set_num_elements s n)
  end.

(** The sizes of a shape of known rank, as [AppendTo] collects them. *)
Definition AppendTo (s : t) : list Z := default [] (iterate s).

(** [TensorShapeBase::InsertDim] *)
Definition InsertDim (s : t) (d size : Z) : option t :=
  if (0 <=? d) && (d <=? dims s) && (kIsPartial || (0 <=? size)) && (dims s <? MaxDimensions) then
    let vals := AppendTo s in
    add_dims Clear (take (Z.to_nat d) vals ++ size :: drop (Z.to_nat d) vals)
  else None.

(** [TensorShapeBase::InsertDimWithStatus] *)
Definition InsertDimWithStatus (s : t) (d size : Z) : res code t :=
  check! negb (negb kIsPartial && (size <? 0)) else InvalidArgument in
  check! 0 <=? d else Internal in
  check! d <=? dims s else Internal in
  check! dims s <? MaxDimensions else Internal in
  let vals := AppendTo s in
  add_dims_status Clear (take (Z.to_nat d) vals ++ size :: drop (Z.to_nat d) vals).

(** The store of [set_dim] into the current representation, if it fits. *)
Definition set_in_place (s : t) (d size : Z) : option t :=
  let put v := Some (mk (tag s) (<[Z.to_nat d := v]> (raw s)) (ndims_byte s) (num_elements s)) in
  match tag s with
  | REP16 => if size <? kMaxRep16 then put (store16 size) else None
  | REP32 => if size <? kMaxRep32 then put (store32 size) else None
  | REP_OUT_OF_LINE => put size
  end.

(** [TensorShapeBase::set_dim] *)
Definition set_dim (s : t) (d size : Z) : option t :=
  if (0 <=? d) && (d <? dims s) && (kIsPartial || (0 <=? size)) then
    s' ← (match set_in_place s d size with
          | Some s' => Some s'
          | None => add_dims Clear (<[Z.to_nat d := size]> (AppendTo s))
          end);
    match RecomputeNumElements s' with Ok s'' => Some s'' | Err _ => None end
  else None.

(** [TensorShapeBase::SetDimWithStatus] *)
Definition SetDimWithStatus (s : t) (d size : Z) : res code t :=
  check! 0 <=? d else InvalidArgument in
  check! d <? dims s else InvalidArgument in
  check! negb (negb kIsPartial && (size <? 0)) else InvalidArgument in
  let! s' := (match set_in_place s d size with
              | Some s' => Ok s'
              | None => add_dims_status Clear (<[Z.to_nat d := size]> (AppendTo s))
              end) in
  RecomputeNumElements s'.

(** [begin]/[end] of [RemoveDimRange] after the adjustment of negative values. *)
Definition adjust (s : t) (i : Z) : Z := if i <? 0 then dims s + i + 1 else i.

(** [TensorShapeBase::RemoveDimRange] *)
Definition RemoveDimRange (s : t) (b e : Z) : option t :=
  if unknown_rank s then Some s
  else
    let b := adjust s b in
    let e := adjust s e in
    if (0 <=? b) && (b <=? dims s) && (0 <=? e) && (e <=? dims s) then
      if e <=? b then Some s
      else
        let vals := AppendTo s in
        s' ← add_dims Clear (take (Z.to_nat b) vals ++ drop (Z.to_nat e) vals);
        match RecomputeNumElements s' with Ok s'' => Some s'' | Err _ => None end
    else None.

(** [TensorShapeBase::RemoveDimRangeWithStatus] *)
Definition RemoveDimRangeWithStatus (s : t) (b e : Z) : res code t :=
  if unknown_rank s then Ok s
  else
    let b := adjust s b in
    let e := adjust s e in
    check! 0 <=? b else Internal in
    check! b <=? dims s else Internal in
    check! 0 <=? e else Internal in
    check! e <=? dims s else Internal in
    if e <=? b then Ok s
    else
      let vals := AppendTo s in
      let! s' := add_dims_status Clear (take (Z.to_nat b) vals ++ drop (Z.to_nat e) vals) in
      RecomputeNumElements s'.

(** [RemoveDim], [RemoveDimWithStatus], [RemoveLastDims] and [RemoveLastDimsWithStatus] *)
Definition RemoveDim (s : t) (d : Z) : option t :=
  if 0 <=? d then RemoveDimRange s d (wrap_i32 (d + 1)) else None.
Definition RemoveDimWithStatus (s : t) (d : Z) : res code t :=
  check! 0 <=? d else Internal in RemoveDimRangeWithStatus s (wrap_i32 d) (wrap_i32 (d + 1)).
Definition RemoveLastDims (s : t) (n : Z) : option t :=
  if n <=? dims s then RemoveDimRange s (wrap_i32 (dims s - n)) (dims s) else None.
Definition RemoveLastDimsWithStatus (s : t) (n : Z) : res code t :=
  check! negb (n <? dims s) else Internal in
  RemoveDimRangeWithStatus s (wrap_i32 (dims s - n)) (dims s).

(** The loop of [MakeShapeHelper] over [dims]. *)
Fixpoint make_dims (s : t) (l : list Z) : res code t :=
  match l with
  | [] => Ok s
  | d :: l' =>
      if d <? 0 then
        if negb kIsPartial then Err InvalidArgument
        else if d <? -1 then Err InvalidArgument
        else make_dims (UnsafeAddDim s (-1) (-1)) l'
      else if num_elements s <? 0 then make_dims (UnsafeAddDim s d (-1)) l'
      else
        let n := MultiplyWithoutOverflow (num_elements s) d in
        if n <? 0 then Err InvalidArgument else make_dims (UnsafeAddDim s d n) l'
  end.

(** [MakeShapeHelper] on an array of [n] dimensions ([TensorShapeUtils::MakeShape]) *)
Definition MakeShape (l : list Z) : res code t :=
  check! negb (MaxDimensions <? Z.of_nat (length l)) else InvalidArgument in
  make_dims Clear l.
End Base.

(** ** Comparisons of [TensorShape] *)

(** A loop over [n] positions that returns false at the first one that fails. *)
Definition all_below (n : Z) (f : Z -> bool) : bool :=
  forallb (fun i => f (Z.of_nat i)) (seq 0 (Z.to_nat n)).

(** [TensorShape::IsSameSize] *)
Definition IsSameSize (a b : t) : bool :=
  if negb (dims false b =? dims false a) then false
  else all_below (dims false a) (fun d => dim_size false a d =? dim_size false b d).

(** [TensorShapeUtils::StartsWith] and [EndsWith] *)
Definition StartsWith (shape prefix : t) : bool :=
  if dims false shape <? dims false prefix then false
  else all_below (dims false prefix) (fun i => dim_size false shape i =? dim_size false prefix i).
Definition EndsWith (shape suffix : t) : bool :=
  let suffix_size := dims false suffix in
  if dims false shape <? suffix_size then false
  else all_below suffix_size (fun i =>
         dim_size false shape (dims false shape - suffix_size + i) =? dim_size false suffix i).

(** The loop of [TensorShapeUtils::NumElements]. *)
Fixpoint num_loop (n : Z) (l : list Z) : res code Z :=
  match l with
  | [] => Ok n
  | d :: l' =>
      let n' := MultiplyWithoutOverflow n d in
      if n' <? 0 then Err InvalidArgument else num_loop n' l'
  end.
Definition NumElements (l : list Z) : res code Z := num_loop 1 l.

(** ** [PartialTensorShape] *)

(** [PartialTensorShape::Concatenate] *)
Definition Concatenate (s : t) (size : Z) : option t := AddDim true s size.
Definition ConcatenateShape (s shape : t) : option t :=
  if unknown_rank true s || unknown_rank true shape then Some (TensorShapeBase true)
  else l ← iterate true shape; add_dims true s l.

(** [PartialTensorShape::ConcatenateWithStatus]: the status, [*this] and [*out] after the call.  The
    function makes its local [out] point to [*this]; on an error the dimensions added so far stay. *)
Definition ConcatenateWithStatus (this out : t) (size : Z) : res code unit * t * t :=
  match AddDimWithStatus true this size with
  | Ok this' => (Ok tt, this', out)
  | Err e => (Err e, this, out)
  end.

Fixpoint append_status (s : t) (l : list Z) : res code unit * t :=
  match l with
  | [] => (Ok tt, s)
  | d :: l' =>
      match AddDimWithStatus true s d with
      | Ok s' => append_status s' l'
      | Err e => (Err e, s)
      end
  end.

Definition ConcatenateShapeWithStatus (this out shape : t) : res code unit * t * t :=
  if unknown_rank true this || unknown_rank true shape then (Ok tt, this, TensorShapeBase true)
  else let '(st, this') := append_status this (AppendTo true shape) in (st, this', out).

(** The loop of [MergeWith] from dimension [i] on. *)
Fixpoint merge_dims (a b result : t) (l : list nat) : res code t :=
  match l with
  | [] => Ok result
  | i :: l' =>
      let dim0 := dim_size true a (Z.of_nat i) in
      let dim1 := dim_size true b (Z.of_nat i) in
      if (0 <=? dim0) && (0 <=? dim1) && negb (dim0 =? dim1) then Err InvalidArgument
      else
        let! result' := AddDimWithStatus true result (if 0 <=? dim0 then dim0 else dim1) in
        merge_dims a b result' l'
  end.

(** [PartialTensorShape::MergeWith] into a [result] that is not [this] *)
Definition MergeWith (this shape : t) : res code t :=
  if unknown_rank true this then Ok shape
  else if unknown_rank true shape then Ok this
  else if negb (dims true this =? dims true shape) then Err InvalidArgument
  else merge_dims this shape Clear (seq 0 (Z.to_nat (dims true this))).

(** [PartialTensorShape::AsTensorShape] *)
Definition AsTensorShape (s : t) : option t := if IsFullyDefined true s then Some s else None.

(** [PartialTensorShape::IsIdenticalTo] *)
Definition IsIdenticalTo (a b : t) : bool :=
  if unknown_rank true a || unknown_rank true b
  then Bool.eqb (unknown_rank true a) (unknown_rank true b)
  else if negb (dims true a =? dims true b) then false
  else all_below (dims true a) (fun i => dim_size true a i =? dim_size true b i).

(** [PartialTensorShape::IsCompatibleWith] *)
Definition IsCompatibleWith (a b : t) : bool :=
  if unknown_rank true a || unknown_rank true b then true
  else if negb (dims true a =? dims true b) then false
  else all_below (dims true a) (fun i =>
         let dim0 := dim_size true a i in
         let dim1 := dim_size true b i in
         negb ((0 <=? dim0) && (0 <=? dim1) && negb (dim0 =? dim1))).

(** [PartialTensorShapeUtils::AreCompatible] and [AreIdentical] *)
Definition AreCompatible (l k : list t) : bool :=
  if (length l =? length k)%nat then forallb (fun p => IsCompatibleWith p.1 p.2) (zip l k) else false.
Definition AreIdentical (l k : list t) : bool :=
  if (length l =? length k)%nat then forallb (fun p => IsIdenticalTo p.1 p.2) (zip l k) else false.
End Shape.
