(* ===== verification/ShapeSpec.v ===== *)
(** * Tensor shapes refine lists of dimension sizes

    The packed representation is an implementation detail: under the
    invariant [wf] every operation of [TensorShape] acts on the list [sizes]
    of dimension sizes, fails exactly when the result would be illegal, and
    keeps the cached number of elements equal to the product. *)

From S2P Require Import Prelude TensorShape.
Import Shape.

(** ** [MultiplyWithoutOverflow] *)

Lemma small_operands (x y : Z) :
  0 <= x -> 0 <= y -> Z.shiftr (Z.lor x y) 32 = 0 -> x < 2 ^ 32 /\ y < 2 ^ 32.
Proof.
  intros Hx Hy. rewrite Z.shiftr_lor, Z.lor_eq_0_iff, !Z.shiftr_div_pow2 by lia.
  intros [H1 H2]. apply Z.div_small_iff in H1, H2; lia.
Qed.

Lemma multiply_ok (x y : Z) :
  0 <= x < 2 ^ 63 -> 0 <= y < 2 ^ 63 -> x * y < 2 ^ 63 -> MultiplyWithoutOverflow x y = x * y.
Proof.
  intros Hx Hy Hxy. unfold MultiplyWithoutOverflow.
  rewrite (proj2 (Z.ltb_ge x 0)), (proj2 (Z.ltb_ge y 0)) by lia. destruct (Z.eqb_spec x 0) as [->|Hx0]; [done|].
  rewrite (wrap_u64_id x), (wrap_u64_id y) by (unfold in_u64; lia). cbn zeta.
  assert (0 <= x * y) by nia.
  rewrite (wrap_u64_id (x * y)) by (unfold in_u64; lia).
  rewrite Z.mul_comm, Z.div_mul, Z.eqb_refl, andb_false_r by lia.
  rewrite wrap_i64_id by (unfold in_i64; lia). lia.
Qed.

Lemma multiply_overflow (x y : Z) :
  0 <= x < 2 ^ 63 -> 0 <= y < 2 ^ 63 -> 2 ^ 63 <= x * y -> MultiplyWithoutOverflow x y < 0.
Proof.
  intros Hx Hy Hxy. unfold MultiplyWithoutOverflow.
  rewrite (proj2 (Z.ltb_ge x 0)), (proj2 (Z.ltb_ge y 0)) by lia. destruct (Z.eqb_spec x 0) as [->|Hx0]; [lia|].
  rewrite (wrap_u64_id x), (wrap_u64_id y) by (unfold in_u64; lia). cbn zeta.
  destruct (decide (x * y < 2 ^ 64)) as [Hs|Hl].
  - rewrite (wrap_u64_id (x * y)) by (unfold in_u64; lia).
    rewrite (Z.mul_comm x y), Z.div_mul, Z.eqb_refl, andb_false_r by lia. rewrite Z.mul_comm.
    unfold wrap_i64. generalize dependent (x * y). intros z H1 H2.
    replace ((z + 2 ^ 63) mod 2 ^ 64) with (z + 2 ^ 63 - 2 ^ 64); [lia|].
    apply Z.mod_unique with 1; lia.
  - assert (negb (Z.shiftr (Z.lor x y) 32 =? 0) = true) as ->.
    { apply negb_true_iff, Z.eqb_neq. intros E. apply small_operands in E; [|lia..]. nia. }
    assert (negb (wrap_u64 (x * y) / x =? y) = true) as ->; [|done].
    apply negb_true_iff, Z.eqb_neq. intros E.
    assert (wrap_u64 (x * y) < x * y) as Hlt.
    { pose proof (wrap_u64_range (x * y)) as Hr. unfold in_u64 in Hr. lia. }
    pose proof (Z.mul_div_le (wrap_u64 (x * y)) x ltac:(lia)). pose proof (Z.div_mod (wrap_u64 (x * y)) x ltac:(lia)).
    pose proof (Z.mod_pos_bound (wrap_u64 (x * y)) x ltac:(lia)). rewrite E in *. lia.
Qed.

(** ** The abstract view *)

(** The number of elements of a list of sizes: unknown (-1) if one of them is. *)
Fixpoint count (l : list Z) : Z :=
  match l with
  | [] => 1
  | d :: l' => if (d <? 0) || (count l' <? 0) then -1 else d * count l'
  end.

(** A list of sizes that a shape may have: the number of elements of no prefix overflows
    (a later 0 does not make up for it, an earlier unknown size does). *)
Definition legal (p : bool) (l : list Z) : Prop :=
  Z.of_nat (length l) <= 254 /\ Forall (fun d => (if p then -1 else 0) <= d) l /\
  forall k, count (take k l) < 2 ^ 63.

(** The sizes of the dimensions, as [dim_size] reports them. *)
Definition sizes (p : bool) (s : t) : list Z := map (decode p (tag s)) (raw s).

(** The stored values fit the representation. *)
Definition rep_ok (p : bool) (tg : RepTag) (l : list Z) : Prop :=
  match tg with
  | REP16 => (length l <= 6)%nat /\ Forall (fun v => 0 <= v < kMaxRep16 \/ (p = true /\ v = kUnknownRep16)) l
  | REP32 => (length l <= 3)%nat /\ Forall (fun v => 0 <= v < kMaxRep32 \/ (p = true /\ v = kUnknownRep32)) l
  | REP_OUT_OF_LINE => Forall (fun v => (if p then -1 else 0) <= v < 2 ^ 63) l
  end.

(** A shape of known rank. *)
Record wf (p : bool) (s : t) : Prop := {
  wf_dims : ndims_byte s = Z.of_nat (length (raw s));
  wf_rep : rep_ok p (tag s) (raw s);
  wf_num : num_elements s = count (sizes p s);
  wf_legal : legal p (sizes p s)
}.

Lemma count_range (l : list Z) : -1 <= count l.
Proof.
  induction l as [|d l IH]; cbn; [lia|]. case_if; [lia|]. zbool. nia.
Qed.

Lemma count_app (l k : list Z) :
  count (l ++ k) = if (count l <? 0) || (count k <? 0) then -1 else count l * count k.
Proof.
  induction l as [|d l IH]; cbn [app count].
  - cbn [orb]. pose proof (count_range k). change (1 <? 0) with false. cbn [orb].
    destruct (count k <? 0) eqn:E; zbool; lia.
  - rewrite IH. pose proof (count_range l). pose proof (count_range k).
    destruct (d <? 0) eqn:E1; [done|]. destruct (count l <? 0) eqn:E2; [done|].
    destruct (count k <? 0) eqn:E3; cbn [orb]; zbool.
    + by rewrite orb_true_r.
    + rewrite (proj2 (Z.ltb_ge (count l * count k) 0)) by nia. cbn [orb].
      rewrite (proj2 (Z.ltb_ge (d * count l) 0)) by nia. cbn [orb]. lia.
Qed.

Lemma count_snoc (l : list Z) (d : Z) :
  count (l ++ [d]) = if (count l <? 0) || (d <? 0) then -1 else count l * d.
Proof.
  rewrite count_app. cbn [count]. change (1 <? 0) with false. rewrite orb_false_r.
  destruct (d <? 0) eqn:E; [by cbn; rewrite !orb_true_r|]. by rewrite Z.mul_1_r, E.
Qed.

Section Refine.
Context (p : bool).

Lemma wf_known (s : t) : wf p s -> unknown_rank p s = false.
Proof.
  intros [H1 _ _ [H2 _]]. unfold sizes in H2. rewrite length_map in H2.
  unfold unknown_rank, kUnknownRank. rewrite H1, (proj2 (Z.eqb_neq _ _)) by lia. by rewrite andb_false_r.
Qed.

Lemma wf_dims_eq (s : t) : wf p s -> dims p s = Z.of_nat (length (sizes p s)).
Proof.
  intros H. pose proof (wf_known s H) as Hu. unfold unknown_rank in Hu. unfold dims. rewrite Hu.
  destruct H as [H1 _ _ _]. unfold sizes. by rewrite length_map.
Qed.

Lemma dim_size_eq (s : t) (d : nat) :
  unknown_rank p s = false -> (d < length (sizes p s))%nat ->
  sizes p s !! d = Some (dim_size p s (Z.of_nat d)).
Proof.
  intros Hu Hd. unfold sizes in *. rewrite length_map in Hd. unfold dim_size. rewrite Hu, Nat2Z.id.
  rewrite list_lookup_fmap. destruct (lookup_lt_is_Some_2 _ _ Hd) as [v Hv]. rewrite Hv. cbn.
  by rewrite (nth_lookup_Some _ _ _ _ Hv).
Qed.

Lemma dim_sizes_eq (s : t) (n : nat) :
  unknown_rank p s = false -> n = length (sizes p s) ->
  map (fun d => dim_size p s (Z.of_nat d)) (seq 0 n) = sizes p s.
Proof.
  intros Hu ->. apply list_eq. intros i. rewrite list_lookup_fmap.
  destruct (decide (i < length (sizes p s))%nat) as [Hi|Hi].
  - rewrite lookup_seq_lt by done. cbn. by rewrite (dim_size_eq s i Hu Hi).
  - rewrite !lookup_ge_None_2; [done|lia|]. rewrite length_seq. lia.
Qed.

Lemma iterate_ok (s : t) : wf p s -> iterate p s = Some (sizes p s).
Proof.
  intros H. unfold iterate. rewrite (wf_known s H), (wf_dims_eq s H), Nat2Z.id.
  by rewrite dim_sizes_eq; [|apply wf_known|].
Qed.

Lemma AppendTo_ok (s : t) : wf p s -> AppendTo p s = sizes p s.
Proof. intros H. unfold AppendTo. by rewrite iterate_ok. Qed.


(** *** The stored values *)

Lemma store16_ok (size : Z) :
  (if p then -1 else 0) <= size < kMaxRep16 ->
  (0 <= store16 p size < kMaxRep16 \/ (p = true /\ store16 p size = kUnknownRep16)) /\
  decode p REP16 (store16 p size) = size.
Proof.
  unfold store16, decode, kMaxRep16, kUnknownRep16. intros H.
  destruct p; cbn [andb]; [destruct (Z.ltb_spec size 0)|].
  - split; [by right|]. rewrite Z.eqb_refl. lia.
  - rewrite Z.mod_small by lia. rewrite (proj2 (Z.eqb_neq size 65535)) by lia. split; [left; lia|done].
  - rewrite Z.mod_small by lia. split; [left; lia|done].
Qed.

Lemma store32_ok (size : Z) :
  (if p then -1 else 0) <= size < kMaxRep32 ->
  (0 <= store32 p size < kMaxRep32 \/ (p = true /\ store32 p size = kUnknownRep32)) /\
  decode p REP32 (store32 p size) = size.
Proof.
  unfold store32, decode, kMaxRep32, kUnknownRep32. intros H.
  destruct p; cbn [andb]; [destruct (Z.ltb_spec size 0)|].
  - split; [by right|]. rewrite Z.eqb_refl. lia.
  - rewrite Z.mod_small by lia. rewrite (proj2 (Z.eqb_neq size 4294967295)) by lia. split; [left; lia|done].
  - rewrite Z.mod_small by lia. split; [left; lia|done].
Qed.

(** Every stored value stands for a size of the range of [int64_t]. *)
Lemma rep_ok_range (tg : RepTag) (l : list Z) :
  rep_ok p tg l -> Forall (fun d => (if p then -1 else 0) <= d < 2 ^ 63) (map (decode p tg) l).
Proof.
  intros H. apply list.Forall_fmap.
  destruct tg; [destruct H as [_ H]..|]; refine (list.Forall_impl _ _ _ H _); intros v Hv; cbn;
    unfold kMaxRep16, kUnknownRep16, kMaxRep32, kUnknownRep32 in *;
    destruct p; cbn [andb]; try case_if; destruct_or?; destruct_and?; subst; try lia; done.
Qed.

(** The wide representation that [UnsafeAddDim] falls back to. *)
Lemma store_wide_ok (l : list Z) :
  Forall (fun d => (if p then -1 else 0) <= d < 2 ^ 63) l ->
  let '(tg, v) := if (length l <=? 3)%nat && forallb (fun v => v <? kMaxRep32) l
                  then (REP32, map (store32 p) l) else (REP_OUT_OF_LINE, l) in
  rep_ok p tg v /\ map (decode p tg) v = l.
Proof.
  intros H. destruct (_ && _) eqn:E.
  - apply andb_true_iff in E as [E1 E2]. apply Nat.leb_le in E1.
    assert (Forall (fun d => (if p then -1 else 0) <= d < kMaxRep32) l) as H'.
    { apply list.Forall_forall. intros d Hd. rewrite list.Forall_forall in H. specialize (H d Hd).
      rewrite forallb_forall in E2. specialize (E2 d (proj1 (list_elem_of_In _ _) Hd)). zbool. lia. }
    repeat split.
    + by rewrite length_map.
    + apply list.Forall_fmap. refine (list.Forall_impl _ _ _ H' _). intros d Hd. by apply store32_ok.
    + clear -H'. induction H' as [|d l Hd _ IH]; [done|]. cbn [map]. rewrite IH. f_equal. by apply store32_ok.
  - split; [done|]. cbn. apply map_id.
Qed.

(** *** Adding a dimension *)

Lemma wf_sizes_range (s : t) :
  wf p s -> Forall (fun d => (if p then -1 else 0) <= d < 2 ^ 63) (sizes p s).
Proof. intros H. apply rep_ok_range, H. Qed.

Lemma take_raw (s : t) : wf p s -> take (Z.to_nat (ndims_byte s)) (raw s) = raw s.
Proof. intros H. rewrite (wf_dims p s H). apply take_ge. lia. Qed.

Lemma all_sizes (s : t) :
  wf p s -> map (fun d => dim_size p s (Z.of_nat d)) (seq 0 (Z.to_nat (ndims_byte s))) = sizes p s.
Proof.
  intros H. apply dim_sizes_eq; [by apply wf_known|].
  rewrite (wf_dims p s H). unfold sizes. rewrite length_map. lia.
Qed.

(** What [UnsafeAddDim] stores stands for the old sizes and the new one. *)
Lemma UnsafeAddDim_rep (s : t) (size n : Z) :
  wf p s -> (if p then -1 else 0) <= size < 2 ^ 63 ->
  rep_ok p (tag (UnsafeAddDim p s size n)) (raw (UnsafeAddDim p s size n)) /\
  sizes p (UnsafeAddDim p s size n) = sizes p s ++ [size].
Proof.
  intros H Hs. pose proof (wf_rep p s H) as Hr. pose proof (wf_dims p s H) as Hd.
  pose proof (wf_sizes_range s H) as Hz.
  assert (Forall (fun d => (if p then -1 else 0) <= d < 2 ^ 63) (sizes p s ++ [size])) as Hv.
  { apply list.Forall_app. split; [done|]. by apply list.Forall_singleton. }
  pose proof (store_wide_ok _ Hv) as Hw. unfold UnsafeAddDim. rewrite (all_sizes s H), (take_raw s H).
  unfold sizes in *. destruct (tag s) eqn:Et; cbn [rep_ok] in Hr.
  - destruct ((ndims_byte s <? 6) && (size <? kMaxRep16)) eqn:E.
    + zbool. destruct (store16_ok size) as [Hs1 Hs2]; [lia|]. cbn [tag raw rep_ok]. repeat split.
      * rewrite length_app. cbn. lia.
      * apply list.Forall_app. split; [apply Hr|]. by apply list.Forall_singleton.
      * rewrite map_app. cbn [map]. by rewrite Hs2.
    + cbn [length]. destruct (_ && forallb _ _); cbn [tag raw]; exact Hw.
  - destruct ((ndims_byte s <? 3) && (size <? kMaxRep32)) eqn:E.
    + zbool. destruct (store32_ok size) as [Hs1 Hs2]; [lia|]. cbn [tag raw rep_ok]. repeat split.
      * rewrite length_app. cbn. lia.
      * apply list.Forall_app. split; [apply Hr|]. by apply list.Forall_singleton.
      * rewrite map_app. cbn [map]. by rewrite Hs2.
    + cbn [length]. destruct (_ && forallb _ _); cbn [tag raw]; exact Hw.
  - cbn [tag raw rep_ok]. split; [|by rewrite map_app].
    apply list.Forall_app. split; [done|]. by apply list.Forall_singleton.
Qed.

Lemma UnsafeAddDim_ok (s : t) (size n : Z) :
  wf p s -> (if p then -1 else 0) <= size < 2 ^ 63 ->
  legal p (sizes p s ++ [size]) -> n = count (sizes p s ++ [size]) ->
  wf p (UnsafeAddDim p s size n) /\ sizes p (UnsafeAddDim p s size n) = sizes p s ++ [size].
Proof.
  intros H Hs Hl Hn. destruct (UnsafeAddDim_rep s size n H Hs) as [Hr Hz]. split; [|done].
  assert (ndims_byte (UnsafeAddDim p s size n) = ndims_byte s + 1 /\
          num_elements (UnsafeAddDim p s size n) = n) as [H1 H2].
  { unfold UnsafeAddDim. cbn zeta. by repeat case_match. }
  split; [|done| |].
  - apply (f_equal length) in Hz. unfold sizes in Hz. rewrite length_app, !length_map in Hz. cbn in Hz.
    rewrite H1, (wf_dims p s H). lia.
  - by rewrite H2, Hz.
  - by rewrite Hz.
Qed.

(** [AddDimWithStatus] succeeds exactly when the longer list of sizes is legal. *)
Lemma legal_snoc (s : t) (size : Z) :
  wf p s -> (if p then -1 else 0) <= size ->
  legal p (sizes p s ++ [size]) <->
  Z.of_nat (length (sizes p s)) < 254 /\ count (sizes p s ++ [size]) < 2 ^ 63.
Proof.
  intros [_ _ _ (H1 & H2 & H3)] Hs. unfold legal.
  rewrite length_app, list.Forall_app, list.Forall_singleton. cbn [length]. split.
  - intros (Ha & _ & Hb). split; [lia|]. specialize (Hb (S (length (sizes p s)))).
    by rewrite take_ge in Hb by (rewrite length_app; cbn; lia).
  - intros [Ha Hb]. repeat split; [lia|done|done|]. intros k.
    destruct (decide (k <= length (sizes p s))%nat).
    + rewrite take_app_le by done. apply H3.
    + by rewrite take_ge by (rewrite length_app; cbn; lia).
Qed.

Lemma AddDimWithStatus_ok (s : t) (size : Z) :
  wf p s -> (if p then -1 else 0) <= size < 2 ^ 63 ->
  match AddDimWithStatus p s size with
  | Ok s' => wf p s' /\ sizes p s' = sizes p s ++ [size]
  | Err e => e = InvalidArgument /\ ~ legal p (sizes p s ++ [size])
  end.
Proof.
  intros H Hs. unfold AddDimWithStatus. rewrite (wf_known s H).
  assert (negb (negb p && (size <? 0)) = true) as ->.
  { destruct p; cbn [negb andb]; [done|]. rewrite (proj2 (Z.ltb_ge size 0)) by lia. done. }
  pose proof (legal_snoc s size H ltac:(lia)) as Hl. pose proof (wf_dims p s H) as Hd.
  assert (length (sizes p s) = length (raw s)) as Hlen by (unfold sizes; by rewrite length_map).
  destruct (Z.ltb_spec (ndims_byte s) MaxDimensions) as [Hm|Hm]; unfold MaxDimensions in Hm;
    [|split; [done|]; rewrite Hl; lia].
  rewrite (wf_num p s H). pose proof (count_snoc (sizes p s) size) as Hc.
  pose proof (wf_legal p s H) as (_ & Hp & Hcount). pose proof (count_range (sizes p s)).
  specialize (Hcount (length (sizes p s))). rewrite take_ge in Hcount by lia.
  destruct (p && _) eqn:E.
  - apply andb_true_iff in E as [_ E]. rewrite E in Hc.
    apply UnsafeAddDim_ok; [done|done|apply Hl; lia|done].
  - assert ((count (sizes p s) <? 0) || (size <? 0) = false) as E'.
    { destruct p; [done|]. rewrite (proj2 (Z.ltb_ge size 0)), orb_false_r by lia. apply Z.ltb_ge.
      clear -Hp. induction Hp; cbn [count]; [lia|]. case_if; nia. }
    rewrite E' in Hc. zbool. destruct (Z.ltb_spec (count (sizes p s) * size) (2 ^ 63)) as [Hf|Hf].
    + rewrite multiply_ok by lia. rewrite (proj2 (Z.ltb_ge _ _)) by nia. cbn [negb].
      apply UnsafeAddDim_ok; [done|done|apply Hl; lia|done].
    + pose proof (multiply_overflow (count (sizes p s)) size ltac:(lia) ltac:(lia) Hf) as Hneg.
      rewrite (proj2 (Z.ltb_lt _ _) Hneg). cbn [negb]. split; [done|]. rewrite Hl. lia.
Qed.

Lemma legal_prefix (l k : list Z) : legal p (l ++ k) -> legal p l.
Proof.
  intros (H1 & H2 & H3). rewrite length_app in H1. apply list.Forall_app in H2 as [H2 _].
  repeat split; [lia|done|]. intros n. destruct (decide (n <= length l)%nat).
  - specialize (H3 n). by rewrite take_app_le in H3.
  - specialize (H3 (length l)). rewrite take_app_length in H3. by rewrite take_ge by lia.
Qed.

Lemma add_dims_status_ok (l : list Z) (s : t) :
  wf p s -> Forall (fun d => (if p then -1 else 0) <= d < 2 ^ 63) l ->
  match add_dims_status p s l with
  | Ok s' => wf p s' /\ sizes p s' = sizes p s ++ l
  | Err e => e = InvalidArgument /\ ~ legal p (sizes p s ++ l)
  end.
Proof.
  revert s. induction l as [|d l IH]; intros s H Hl; cbn [add_dims_status].
  - by rewrite app_nil_r.
  - apply list.Forall_cons in Hl as [Hd Hl]. pose proof (AddDimWithStatus_ok s d H Hd) as Ha.
    rewrite (cons_middle d (sizes p s) l), app_assoc.
    destruct (AddDimWithStatus p s d) as [s'|e]; cbn [res_bind].
    + destruct Ha as [Hw <-]. by apply IH.
    + destruct Ha as [-> Hn]. split; [done|]. intros Hg. by apply legal_prefix in Hg.
Qed.

Lemma Clear_ok : wf p Clear /\ sizes p Clear = [].
Proof.
  split; [|done]. split; [done| |done|].
  - split; [cbn; lia|constructor].
  - split; [cbn; lia|]. split; [constructor|]. intros k. cbn. rewrite take_nil. cbn. lia.
Qed.

(** A shape built from scratch: it exists exactly when the sizes are legal. *)
Definition builds (r : res code t) (l : list Z) : Prop :=
  match r with
  | Ok s' => wf p s' /\ sizes p s' = l
  | Err e => e = InvalidArgument /\ ~ legal p l
  end.

Lemma build_ok (l : list Z) :
  Forall (fun d => (if p then -1 else 0) <= d < 2 ^ 63) l -> builds (add_dims_status p Clear l) l.
Proof.
  intros Hl. destruct Clear_ok as [Hw Hz]. pose proof (add_dims_status_ok l Clear Hw Hl) as H.
  by rewrite Hz in H.
Qed.

(** ** The variants that [CHECK] *)

(** The result of a function whose status is [CHECK]ed. *)
Definition checked {A} (r : res code A) : option A :=
  match r with Ok a => Some a | Err _ => None end.

Lemma AddDim_checked (s : t) (size : Z) : AddDim p s size = checked (AddDimWithStatus p s size).
Proof.
  unfold AddDim, AddDimWithStatus. cbn zeta. destruct (negb p && (size <? 0)); [done|]. cbn [negb].
  destruct (unknown_rank p s); [done|]. destruct (_ <? MaxDimensions); [|done]. cbn [negb].
  destruct (p && _); [done|]. by destruct (MultiplyWithoutOverflow _ _ <? 0).
Qed.

Lemma add_dims_checked (l : list Z) (s : t) : add_dims p s l = checked (add_dims_status p s l).
Proof.
  revert s. induction l as [|d l IH]; intros s; cbn [add_dims add_dims_status]; [done|].
  rewrite AddDim_checked. destruct (AddDimWithStatus p s d); cbn; [apply IH|done].
Qed.

Lemma InsertDim_checked (s : t) (d size : Z) :
  InsertDim p s d size = checked (InsertDimWithStatus p s d size).
Proof.
  unfold InsertDim, InsertDimWithStatus. rewrite add_dims_checked.
  destruct p; cbn [negb andb orb]; rewrite ?andb_true_r;
    [|rewrite (Z.ltb_antisym 0 size); destruct (0 <=? size); cbn [negb andb]];
    destruct (0 <=? d), (d <=? _), (_ <? MaxDimensions); reflexivity.
Qed.

Lemma set_dim_checked (s : t) (d size : Z) :
  set_dim p s d size = checked (SetDimWithStatus p s d size).
Proof.
  unfold set_dim, SetDimWithStatus. rewrite add_dims_checked.
  destruct p; cbn [negb andb orb]; rewrite ?andb_true_r;
    [|rewrite (Z.ltb_antisym 0 size); destruct (0 <=? size); cbn [negb andb]];
    destruct (0 <=? d), (d <? _); cbn [andb]; try done;
    (destruct (set_in_place _ _ _ _) as [s'|]; cbn; [done|]);
    destruct (add_dims_status _ _ _); done.
Qed.

Lemma RemoveDimRange_checked (s : t) (b e : Z) :
  RemoveDimRange p s b e = checked (RemoveDimRangeWithStatus p s b e).
Proof.
  unfold RemoveDimRange, RemoveDimRangeWithStatus. destruct (unknown_rank p s); [done|]. cbn zeta.
  rewrite add_dims_checked. destruct (0 <=? adjust p s b), (adjust p s b <=? dims p s),
    (0 <=? adjust p s e), (adjust p s e <=? dims p s); cbn [andb]; try done.
  destruct (_ <=? _); [done|]. by destruct (add_dims_status _ _ _).
Qed.

(** ** Counting the elements again *)

Definition no_overflow (l : list Z) : Prop := forall k, count (take k l) < 2 ^ 63.

Lemma no_overflow_app (l k : list Z) :
  no_overflow l -> (forall n, count (l ++ take n k) < 2 ^ 63) -> no_overflow (l ++ k).
Proof.
  intros H1 H2 n. destruct (decide (n <= length l)%nat).
  - rewrite take_app_le by done. apply H1.
  - rewrite take_app_ge by lia. apply H2.
Qed.

Lemma no_overflow_end (l : list Z) : no_overflow l -> count l < 2 ^ 63.
Proof. intros H. specialize (H (length l)). by rewrite take_ge in H by lia. Qed.

Lemma count_unknown (l k : list Z) : count l < 0 -> count (l ++ k) = -1.
Proof. intros H. rewrite count_app. by rewrite (proj2 (Z.ltb_lt _ _) H). Qed.

Lemma count_loop_ok (l pre : list Z) :
  0 <= count pre -> no_overflow pre -> Forall (fun d => (if p then -1 else 0) <= d < 2 ^ 63) l ->
  match count_loop p (count pre) l with
  | Ok n => n = count (pre ++ l) /\ no_overflow (pre ++ l)
  | Err e => e = InvalidArgument /\ ~ no_overflow (pre ++ l)
  end.
Proof.
  revert pre. induction l as [|d l IH]; intros pre Hc Hn Hl; cbn [count_loop].
  - by rewrite app_nil_r.
  - apply list.Forall_cons in Hl as [Hd Hl]. pose proof (no_overflow_end pre Hn) as He.
    pose proof (count_snoc pre d) as Hs. rewrite (proj2 (Z.ltb_ge _ _) Hc) in Hs. cbn [orb] in Hs.
    rewrite (cons_middle d pre l), app_assoc.
    assert (count (pre ++ [d]) < 2 ^ 63 -> no_overflow (pre ++ [d])) as Hn'.
    { intros H. apply no_overflow_app; [done|]. intros [|n]; cbn [take]; [by rewrite app_nil_r|].
      by rewrite take_nil. }
    destruct (p && (d <? 0)) eqn:E; cbn zeta.
    + apply andb_true_iff in E as [_ E]. rewrite E in Hs. rewrite count_unknown by lia. split; [done|].
      apply no_overflow_app; [apply Hn'; lia|]. intros n. rewrite count_unknown; lia.
    + assert (0 <= d) as Hd0 by (destruct p; cbn [andb] in E; zbool; lia).
      rewrite (proj2 (Z.ltb_ge d 0)) in Hs by lia.
      destruct (Z.ltb_spec (count pre * d) (2 ^ 63)) as [Hf|Hf].
      * rewrite multiply_ok by lia. rewrite (proj2 (Z.ltb_ge _ _)) by nia. rewrite <- Hs.
        apply IH; [nia|apply Hn'; lia|done].
      * rewrite (proj2 (Z.ltb_lt _ _)) by (apply multiply_overflow; lia). split; [done|].
        intros H. specialize (H (S (length pre))).
        rewrite take_app_le, take_ge in H by (rewrite length_app; cbn; lia). lia.
Qed.

Lemma iterate_raw (s : t) :
  ndims_byte s = Z.of_nat (length (raw s)) -> Z.of_nat (length (raw s)) <= 254 ->
  iterate p s = Some (sizes p s).
Proof.
  intros H1 H2. assert (unknown_rank p s = false) as Hu.
  { unfold unknown_rank, kUnknownRank. rewrite (proj2 (Z.eqb_neq _ _)) by lia. apply andb_false_r. }
  unfold iterate, dims. rewrite Hu. unfold unknown_rank in Hu. rewrite Hu.
  rewrite dim_sizes_eq; [done|done|]. unfold sizes. rewrite length_map. lia.
Qed.

(** [RecomputeNumElements] makes a shape of any stored sizes whose count does not overflow. *)
Lemma RecomputeNumElements_ok (s : t) :
  ndims_byte s = Z.of_nat (length (raw s)) -> Z.of_nat (length (raw s)) <= 254 ->
  rep_ok p (tag s) (raw s) -> builds (RecomputeNumElements p s) (sizes p s).
Proof.
  intros H1 H2 H3. unfold RecomputeNumElements. rewrite iterate_raw by done.
  pose proof (rep_ok_range _ _ H3) as Hr. fold (sizes p s) in Hr.
  assert (Forall (fun d => (if p then -1 else 0) <= d) (sizes p s)) as Hlo
    by (refine (list.Forall_impl _ _ _ Hr _); intros d Hd; lia).
  assert (no_overflow []) as H0 by (intros k; rewrite take_nil; cbn; lia).
  assert (Z.of_nat (length (sizes p s)) <= 254) as Hlen by (unfold sizes; by rewrite length_map).
  pose proof (count_loop_ok (sizes p s) [] ltac:(cbn; lia) H0 Hr) as Hc. cbn [app] in Hc.
  change (count []) with 1 in Hc. destruct (count_loop p 1 (sizes p s)) as [n|e]; cbn.
  - destruct Hc as [-> Hn]. split; [|done]. by split.
  - destruct Hc as [-> Hn]. split; [done|]. intros (_ & _ & H). by apply Hn.
Qed.

(** ** Updates *)

Lemma insert_range (l : list Z) (d : nat) (size : Z) :
  Forall (fun d => (if p then -1 else 0) <= d < 2 ^ 63) l ->
  (if p then -1 else 0) <= size < 2 ^ 63 ->
  Forall (fun d => (if p then -1 else 0) <= d < 2 ^ 63) (<[d := size]> l).
Proof. intros H1 H2. apply list.Forall_insert; done. Qed.

Lemma set_in_place_ok (s s' : t) (d size : Z) :
  wf p s -> (if p then -1 else 0) <= size < 2 ^ 63 -> set_in_place p s d size = Some s' ->
  ndims_byte s' = ndims_byte s /\ length (raw s') = length (raw s) /\
  rep_ok p (tag s') (raw s') /\ sizes p s' = <[Z.to_nat d := size]> (sizes p s).
Proof.
  intros H Hs. pose proof (wf_rep p s H) as Hr. unfold set_in_place, sizes.
  destruct (tag s) eqn:Et; [destruct (Z.ltb_spec size kMaxRep16)|destruct (Z.ltb_spec size kMaxRep32)|];
    intros Hp; simplify_eq; cbn [ndims_byte raw tag rep_ok] in *; rewrite ?length_insert;
    (split; [done|]); (split; [done|]).
  - destruct (store16_ok size) as [Ha Hb]; [lia|]. destruct Hr as [Hr1 Hr2]. repeat split; [done| |].
    + by apply list.Forall_insert.
    + change (map ?f ?l) with (f <$> l). by rewrite list_fmap_insert, Hb.
  - destruct (store32_ok size) as [Ha Hb]; [lia|]. destruct Hr as [Hr1 Hr2]. repeat split; [done| |].
    + by apply list.Forall_insert.
    + change (map ?f ?l) with (f <$> l). by rewrite list_fmap_insert, Hb.
  - split; [by apply list.Forall_insert|].
    change (map ?f ?l) with (f <$> l). by rewrite list_fmap_insert.
Qed.

Lemma rebuild_recompute (r : res code t) (l : list Z) :
  builds r l -> builds (res_bind r (RecomputeNumElements p)) l.
Proof.
  destruct r as [s|e]; [|done]. intros [H <-]. cbn. apply RecomputeNumElements_ok.
  - apply H.
  - pose proof (wf_legal p s H) as [Hl _]. unfold sizes in Hl. by rewrite length_map in Hl.
  - apply H.
Qed.

(** [SetDimWithStatus] in the range of the dimensions *)
Lemma SetDimWithStatus_ok (s : t) (d size : Z) :
  wf p s -> 0 <= d < dims p s -> (if p then -1 else 0) <= size < 2 ^ 63 ->
  builds (SetDimWithStatus p s d size) (<[Z.to_nat d := size]> (sizes p s)).
Proof.
  intros H Hd Hs. unfold SetDimWithStatus.
  rewrite (proj2 (Z.leb_le 0 d)), (proj2 (Z.ltb_lt d (dims p s))) by lia.
  assert (negb (negb p && (size <? 0)) = true) as ->.
  { destruct p; cbn [negb andb]; [done|]. rewrite (proj2 (Z.ltb_ge size 0)) by lia. done. }
  rewrite AppendTo_ok by done. pose proof (wf_sizes_range s H) as Hr.
  destruct (set_in_place p s d size) as [s'|] eqn:E.
  - destruct (set_in_place_ok s s' d size H Hs E) as (H1 & H2 & H3 & <-).
    cbn [res_bind]. apply RecomputeNumElements_ok; [| |done].
    + rewrite H1, H2. apply H.
    + rewrite H2. pose proof (wf_legal p s H) as [Hl _]. unfold sizes in Hl. by rewrite length_map in Hl.
  - apply rebuild_recompute, build_ok. by apply insert_range.
Qed.

(** [InsertDimWithStatus] at a position up to the rank *)
Lemma InsertDimWithStatus_ok (s : t) (d size : Z) :
  wf p s -> 0 <= d <= dims p s -> (if p then -1 else 0) <= size < 2 ^ 63 -> dims p s < 254 ->
  builds (InsertDimWithStatus p s d size)
         (take (Z.to_nat d) (sizes p s) ++ size :: drop (Z.to_nat d) (sizes p s)).
Proof.
  intros H Hd Hs Hm. unfold InsertDimWithStatus, MaxDimensions.
  rewrite (proj2 (Z.leb_le 0 d)), (proj2 (Z.leb_le d (dims p s))), (proj2 (Z.ltb_lt _ 254)) by lia.
  assert (negb (negb p && (size <? 0)) = true) as ->.
  { destruct p; cbn [negb andb]; [done|]. rewrite (proj2 (Z.ltb_ge size 0)) by lia. done. }
  rewrite AppendTo_ok by done. apply build_ok. pose proof (wf_sizes_range s H) as Hr.
  apply list.Forall_app. split; [by apply list.Forall_take|]. constructor; [done|]. by apply list.Forall_drop.
Qed.

(** [RemoveDimRangeWithStatus], with the adjusted bounds in range *)
Lemma RemoveDimRangeWithStatus_ok (s : t) (b e : Z) :
  wf p s -> 0 <= adjust p s b <= dims p s -> 0 <= adjust p s e <= dims p s ->
  builds (RemoveDimRangeWithStatus p s b e)
    (if adjust p s e <=? adjust p s b then sizes p s
     else take (Z.to_nat (adjust p s b)) (sizes p s) ++ drop (Z.to_nat (adjust p s e)) (sizes p s)).
Proof.
  intros H Hb He. unfold RemoveDimRangeWithStatus. rewrite (wf_known s H). cbn zeta.
  rewrite (proj2 (Z.leb_le 0 (adjust p s b))), (proj2 (Z.leb_le 0 (adjust p s e))) by lia.
  rewrite (proj2 (Z.leb_le (adjust p s b) _)), (proj2 (Z.leb_le (adjust p s e) (dims p s))) by lia.
  destruct (_ <=? _); [done|]. rewrite AppendTo_ok by done.
  apply (rebuild_recompute (add_dims_status p Clear _)), build_ok. pose proof (wf_sizes_range s H) as Hr.
  apply list.Forall_app. split; [by apply list.Forall_take|by apply list.Forall_drop].
Qed.
End Refine.
