(* ===== verification/ShapeTheorems.v ===== *)
(** * Theorems on tensor shapes

    Construction (the fast path of [InitDims], protos), updates, validity,
    the merge of partial shapes, and the functions that do not do what their
    names or comments say. *)

From S2P Require Import Prelude TensorShape ShapeSpec.
Import Shape.

(** ** Construction from a list of sizes *)

Section Build.
Context (p : bool).

Lemma count_small (l : list Z) :
  Forall (fun d => (if p then -1 else 0) <= d <= kMaxSmall) l ->
  count l <= kMaxSmall ^ Z.of_nat (length l).
Proof.
  induction 1 as [|d l Hd _ IH]; [cbn; lia|]. cbn [count length].
  rewrite Nat2Z.inj_succ, Z.pow_succ_r by lia. pose proof (Z.pow_nonneg kMaxSmall (Z.of_nat (length l))).
  unfold kMaxSmall in *. case_if; [lia|]. zbool. nia.
Qed.

Lemma small_legal (l : list Z) :
  (length l <= 4)%nat -> Forall (fun d => (if p then -1 else 0) <= d <= kMaxSmall) l -> legal p l.
Proof.
  intros Hn Hl. split; [lia|]. split.
  - refine (list.Forall_impl _ _ _ Hl _). intros d Hd. lia.
  - intros k. pose proof (count_small (take k l) (list.Forall_take _ _ _ Hl)) as Hc.
    rewrite length_take in Hc.
    assert (kMaxSmall ^ Z.of_nat (k `min` length l) <= kMaxSmall ^ 4) by (apply Z.pow_le_mono_r; unfold kMaxSmall; lia).
    change (kMaxSmall ^ 4) with 9222710978872688896 in *. lia.
Qed.

(** The shape that the fast path of [InitDims] fills in. *)
Lemma fast_ok (l : list Z) (n : Z) :
  (length l <= 4)%nat -> Forall (fun d => (if p then -1 else 0) <= d <= kMaxSmall) l -> n = count l ->
  builds p (Ok (mk REP16 (map (store16 p) l) (Z.of_nat (length l)) n)) l.
Proof.
  intros Hn Hl ->. assert (sizes p (mk REP16 (map (store16 p) l) (Z.of_nat (length l)) (count l)) = l) as Hz.
  { unfold sizes. cbn [tag raw]. clear Hn. induction Hl as [|d l Hd _ IH]; [done|]. cbn [map]. f_equal; [|done].
    apply store16_ok. unfold kMaxRep16, kMaxSmall in *. lia. }
  split; [|done]. split; [by cbn; rewrite length_map| |by rewrite Hz|rewrite Hz; by apply small_legal].
  cbn [tag raw rep_ok]. split; [rewrite length_map; lia|]. apply list.Forall_fmap.
  refine (list.Forall_impl _ _ _ Hl _). intros d Hd. apply store16_ok.
  unfold kMaxRep16, kMaxSmall in *. lia.
Qed.

Lemma AddDimWithStatus_code (s : t) (size : Z) (e : code) :
  AddDimWithStatus p s size = Err e -> e = InvalidArgument.
Proof. unfold AddDimWithStatus. cbn zeta. repeat case_if; congruence. Qed.

Lemma negative_refused (l : list Z) (s : t) :
  p = false -> existsb (fun s => s <? 0) l = true -> add_dims_status p s l = Err InvalidArgument.
Proof.
  intros Hp. revert s. induction l as [|d l IH]; intros s; cbn [existsb add_dims_status]; [done|].
  intros H. destruct (d <? 0) eqn:E.
  - unfold AddDimWithStatus. by rewrite Hp, E.
  - destruct (AddDimWithStatus p s d) as [s'|e] eqn:Ea; cbn [res_bind]; [by apply IH|].
    by rewrite (AddDimWithStatus_code _ _ _ Ea).
Qed.

(** The sizes an [int64_t] array may hold; a partial shape takes no size below -1. *)
Definition arg (d : Z) : Prop := (if p then -1 else - 2 ^ 63) <= d < 2 ^ 63.

Lemma existsb_none (f : Z -> bool) (l : list Z) :
  existsb f l = false -> Forall (fun d => f d = false) l.
Proof. induction l as [|d l IH]; cbn; intros H; [constructor|]. zbool. constructor; auto. Qed.

(** Either the sizes are in the range of a shape, or one of a full shape is negative. *)
Lemma arg_cases (l : list Z) :
  Forall arg l ->
  Forall (fun d => (if p then -1 else 0) <= d < 2 ^ 63) l \/
  (p = false /\ existsb (fun s => s <? 0) l = true /\ ~ legal p l).
Proof.
  unfold arg. intros H. destruct p; [by left|]. destruct (existsb _ l) eqn:E.
  - right. repeat split. intros (_ & Hl & _). apply existsb_exists in E as (d & Hd & Hneg).
    rewrite list.Forall_forall in Hl. specialize (Hl d (proj2 (list_elem_of_In _ _) Hd)). zbool. lia.
  - left. apply existsb_none in E. rewrite list.Forall_forall in *. intros d Hd.
    specialize (H d Hd). specialize (E d Hd). cbn in E. zbool. lia.
Qed.

(** [count] as the product unless a size is unknown. *)
Lemma count_fold (l : list Z) :
  count l = if existsb (fun s => s <? 0) l then -1 else fold_right Z.mul 1 l.
Proof.
  induction l as [|d l IH]; cbn [count existsb fold_right]; [done|]. rewrite IH.
  destruct (d <? 0) eqn:E; [done|]. cbn [orb]. destruct (existsb _ l) eqn:El; [done|].
  assert (0 <= fold_right Z.mul 1 l) as H; [|by rewrite (proj2 (Z.ltb_ge _ _) H)].
  clear IH. apply existsb_none in El.
  induction El; cbn; [lia|]. zbool. nia.
Qed.

(** The number of elements that the fast path computes. *)
Lemma fast_num (l : list Z) (q : Z) :
  (length l <= 4)%nat -> Forall (fun d => (if p then -1 else 0) <= d <= kMaxSmall) l ->
  q = fold_right Z.mul 1 l ->
  (if p && existsb (fun s => s <? 0) l then -1 else wrap_i64 q) = count l.
Proof.
  intros Hn Hl ->. pose proof (small_legal l Hn Hl) as (_ & Hlo & Hc). apply no_overflow_end in Hc.
  pose proof (count_range l) as Hr. rewrite count_fold in *. destruct (existsb _ l) eqn:E.
  - destruct p; [done|]. exfalso. apply existsb_exists in E as (d & Hd & He).
    rewrite list.Forall_forall in Hlo. specialize (Hlo d (proj2 (list_elem_of_In _ _) Hd)). zbool. lia.
  - rewrite andb_false_r. apply wrap_i64_id. unfold in_i64. lia.
Qed.

(** Whichever path [InitDims] takes, the shape exists exactly when the sizes are legal. *)
Lemma InitDims_ok (l : list Z) : Forall arg l -> builds p (InitDims p l) l.
Proof.
  intros Ha. destruct (arg_cases l Ha) as [Hl|(Hp & He & Hn)]; cycle 1.
  { unfold InitDims. fold (Clear). rewrite (negative_refused l Clear Hp He), Hp, He. cbn [negb andb].
    rewrite Hp in Hn. destruct (negb (existsb _ l)); done. }
  pose proof (build_ok p l Hl) as Hslow. unfold InitDims. fold Clear.
  assert (negb p && existsb (fun s => s <? 0) l = false) as Hneg.
  { destruct p; [done|]. cbn [negb andb]. apply not_true_iff_false. intros He.
    apply existsb_exists in He as (d & Hd & He). rewrite list.Forall_forall in Hl.
    specialize (Hl d (proj2 (list_elem_of_In _ _) Hd)). zbool. lia. }
  destruct (existsb (fun s => kMaxSmall <? s) l) eqn:Elarge; cbn [negb];
    [rewrite andb_false_r; done|]. rewrite andb_true_r, Hneg.
  assert (Forall (fun d => (if p then -1 else 0) <= d <= kMaxSmall) l) as Hs.
  { apply existsb_none in Elarge. rewrite list.Forall_forall in *. intros d Hd. specialize (Hl d Hd).
    specialize (Elarge d Hd). cbn in Elarge. zbool. lia. }
  destruct l as [|s0 [|s1 [|s2 [|s3 [|? ?]]]]]; [done| | | | |done].
  - apply (fast_ok [s0]); [cbn; lia|done|]. rewrite <- (fast_num [s0] s0); [|cbn; lia|done|cbn; lia].
    cbn [existsb]. rewrite orb_false_r. apply list.Forall_cons in Hl as [Hd _].
    case_if; [done|]. rewrite wrap_i64_id; [done|]. unfold in_i64. destruct p; lia.
  - apply (fast_ok [s0; s1]); [cbn; lia|done|].
    rewrite <- (fast_num [s0; s1] (s0 * s1)); [|cbn; lia|done|cbn; lia].
    cbn [existsb]. by rewrite orb_false_r.
  - apply (fast_ok [s0; s1; s2]); [cbn; lia|done|].
    rewrite <- (fast_num [s0; s1; s2] (s0 * s1 * s2)); [|cbn; lia|done|cbn; lia].
    cbn [existsb]. by rewrite orb_false_r, orb_assoc.
  - apply (fast_ok [s0; s1; s2; s3]); [cbn; lia|done|].
    rewrite <- (fast_num [s0; s1; s2; s3] (s0 * s1 * s2 * s3)); [|cbn; lia|done|cbn; lia].
    cbn [existsb]. by rewrite orb_false_r, !orb_assoc.
Qed.
End Build.

(** ** Sequences of updates *)

Section Run.
Context (p : bool).

Definition legalb (l : list Z) : bool :=
  (Z.of_nat (length l) <=? 254) && forallb (fun d => (if p then -1 else 0) <=? d) l &&
  forallb (fun k => count (take k l) <? 2 ^ 63) (seq 0 (S (length l))).

Lemma forallb_Forall_Z {A} (f : A -> bool) (l : list A) : forallb f l = true <-> Forall (fun x => f x = true) l.
Proof. rewrite forallb_forall, list.Forall_forall. by setoid_rewrite list_elem_of_In. Qed.

Lemma legalb_spec (l : list Z) : legalb l = true <-> legal p l.
Proof.
  unfold legalb, legal. rewrite !andb_true_iff, Z.leb_le, !forallb_Forall_Z.
  setoid_rewrite Z.leb_le. setoid_rewrite Z.ltb_lt. split.
  - intros [[H1 H2] H3]. repeat split; [done|done|]. intros k.
    rewrite list.Forall_forall in H3. destruct (decide (k <= length l)%nat).
    + apply H3, elem_of_seq. lia.
    + rewrite take_ge by lia. specialize (H3 (length l)). rewrite take_ge in H3 by lia.
      apply H3, elem_of_seq. lia.
  - intros (H1 & H2 & H3). repeat split; [done|done|]. by apply list.Forall_forall.
Qed.

#[global] Instance legal_dec (l : list Z) : Decision (legal p l).
Proof. destruct (legalb l) eqn:E; [left; by apply legalb_spec|right; rewrite <- legalb_spec; congruence]. Defined.

(** The updates of a shape that report a status; [None] is a crash. *)
Inductive op :=
| Add (size : Z)
| Insert (d size : Z)
| SetDim (d size : Z)
| RemoveRange (b e : Z)
| Remove (d : Z)
| RemoveLast (n : Z)
| Append (shape : t).

Definition step (s : t) (o : op) : option (res code t) :=
  match o with
  | Add size => Some (AddDimWithStatus p s size)
  | Insert d size => Some (InsertDimWithStatus p s d size)
  | SetDim d size => Some (SetDimWithStatus p s d size)
  | RemoveRange b e => Some (RemoveDimRangeWithStatus p s b e)
  | Remove d => Some (RemoveDimWithStatus p s d)
  | RemoveLast n => Some (RemoveLastDimsWithStatus p s n)
  | Append shape => AppendShapeWithStatus p s shape
  end.

(** The specification: the same updates on a list of sizes. *)
Definition spec_build (l : list Z) : res code (list Z) := if legalb l then Ok l else Err InvalidArgument.
Definition spec_pos (l : list Z) (i : Z) : Z := if i <? 0 then Z.of_nat (length l) + i + 1 else i.
Definition spec_remove (l : list Z) (b e : Z) : res code (list Z) :=
  let n := Z.of_nat (length l) in
  let b := spec_pos l b in
  let e := spec_pos l e in
  if (0 <=? b) && (b <=? n) && (0 <=? e) && (e <=? n)
  then (if e <=? b then Ok l else spec_build (take (Z.to_nat b) l ++ drop (Z.to_nat e) l))
  else Err Internal.

(** The last dimensions are removed only if [n] is not less than their number: all of them if it is
    equal; a larger [n] is a negative start, counted from the end. *)
Definition spec_step (l : list Z) (o : op) : res code (list Z) :=
  let n := Z.of_nat (length l) in
  match o with
  | Add size => spec_build (l ++ [size])
  | Insert d size =>
      if negb p && (size <? 0) then Err InvalidArgument
      else if (0 <=? d) && (d <=? n) && (n <? 254)
      then spec_build (take (Z.to_nat d) l ++ size :: drop (Z.to_nat d) l) else Err Internal
  | SetDim d size =>
      if (0 <=? d) && (d <? n) then spec_build (<[Z.to_nat d := size]> l) else Err InvalidArgument
  | RemoveRange b e => spec_remove l b e
  | Remove d => if (0 <=? d) && (d <? n) then spec_build (take (Z.to_nat d) l ++ drop (Z.to_nat (d + 1)) l) else Err Internal
  | RemoveLast k => if k <? n then Err Internal else spec_remove l (wrap_i32 (n - k)) n
  | Append shape => spec_build (l ++ sizes p shape)
  end.

Fixpoint run (s : t) (os : list op) : option (res code t) :=
  match os with
  | [] => Some (Ok s)
  | o :: os' => r ← step s o; match r with Ok s' => run s' os' | Err e => Some (Err e) end
  end.
Fixpoint spec_run (l : list Z) (os : list op) : res code (list Z) :=
  match os with [] => Ok l | o :: os' => res_bind (spec_step l o) (fun l' => spec_run l' os') end.

(** The sizes in a request are [int64_t] values; a partial shape is given none below -1.  The index of a
    dimension to remove is one of an [int], to which the code converts it, and so is the next; a shape to
    append is well formed. *)
Definition op_arg (o : op) : Prop :=
  match o with
  | Add size | Insert _ size | SetDim _ size => arg p size
  | RemoveRange _ _ | RemoveLast _ => True
  | Remove d => d < 2 ^ 31 - 1
  | Append shape => wf p shape
  end.

(** A shape (or error) simulates a list of sizes (or the same error). *)
Definition simulates (r : res code t) (m : res code (list Z)) : Prop :=
  match r with
  | Ok s => wf p s /\ m = Ok (sizes p s)
  | Err e => m = Err e
  end.

Lemma builds_simulates (r : res code t) (l : list Z) : builds p r l -> simulates r (spec_build l).
Proof.
  unfold spec_build. destruct r as [s|e]; cbn.
  - intros [H <-]. split; [done|]. by rewrite (proj2 (legalb_spec _) (wf_legal p s H)).
  - intros [-> H]. destruct (legalb l) eqn:E; [by apply legalb_spec in E|done].
Qed.

Lemma legalb_app_neg (l k : list Z) (size : Z) :
  p = false -> size < 0 -> legalb (l ++ size :: k) = false.
Proof.
  intros Hp Hs. destruct (legalb _) eqn:E; [|done]. apply legalb_spec in E as (_ & H & _).
  rewrite Hp in H. apply list.Forall_app in H as [_ H]. apply list.Forall_cons in H as [H _]. lia.
Qed.

Lemma arg_split (size : Z) :
  arg p size -> (if p then -1 else 0) <= size < 2 ^ 63 \/ (p = false /\ size < 0).
Proof. unfold arg. destruct p; lia. Qed.

Lemma remove_simulates (s : t) (b e : Z) :
  wf p s -> simulates (RemoveDimRangeWithStatus p s b e) (spec_remove (sizes p s) b e).
Proof.
  intros H. pose proof (wf_dims_eq p s H) as Hd. unfold spec_remove.
  assert (forall i, adjust p s i = spec_pos (sizes p s) i) as Hadj
    by (intros i; unfold adjust, spec_pos; by rewrite Hd).
  cbn zeta. rewrite <- !Hadj, <- Hd. destruct (_ && _ && _ && _) eqn:E.
  - zbool. pose proof (RemoveDimRangeWithStatus_ok p s b e H ltac:(lia) ltac:(lia)) as Hr.
    apply builds_simulates in Hr. destruct (adjust p s e <=? adjust p s b) eqn:Ele; [|done].
    unfold spec_build in Hr. by rewrite (proj2 (legalb_spec _) (wf_legal p s H)) in Hr.
  - unfold RemoveDimRangeWithStatus. rewrite (wf_known p s H). cbn zeta.
    destruct (0 <=? adjust p s b), (adjust p s b <=? dims p s), (0 <=? adjust p s e),
      (adjust p s e <=? dims p s); done.
Qed.

Lemma remove_one (s : t) (d : Z) : 0 <= d < 2 ^ 31 - 1 ->
  spec_remove (sizes p s) d (d + 1) =
  if d <? Z.of_nat (length (sizes p s)) then spec_build (take (Z.to_nat d) (sizes p s) ++ drop (Z.to_nat (d + 1)) (sizes p s)) else Err Internal.
Proof.
  intros Hd. unfold spec_remove, spec_pos. rewrite (proj2 (Z.ltb_ge d 0)), (proj2 (Z.ltb_ge (d + 1) 0)) by lia.
  rewrite (proj2 (Z.leb_le 0 d)), (proj2 (Z.leb_le 0 (d + 1))), (proj2 (Z.leb_gt (d + 1) d)) by lia. cbn [andb].
  destruct (Z.ltb_spec d (Z.of_nat (length (sizes p s)))) as [Hlt|Hge].
  - rewrite (proj2 (Z.leb_le d _)), (proj2 (Z.leb_le (d + 1) _)) by lia. done.
  - rewrite (proj2 (Z.leb_gt (d + 1) _)) by lia. by rewrite andb_false_r.
Qed.

Lemma step_simulates (s : t) (o : op) :
  wf p s -> op_arg o -> exists r, step s o = Some r /\ simulates r (spec_step (sizes p s) o).
Proof.
  intros H Ho. pose proof (wf_dims_eq p s H) as Hd.
  destruct o as [size|d size|d size|b e|d|n|shape]; cbn [step spec_step op_arg] in *; try (eexists; split; [reflexivity|]).
  - destruct (arg_split size Ho) as [Hs|[Hp Hs]].
    + apply builds_simulates. pose proof (AddDimWithStatus_ok p s size H Hs) as Ha. by destruct (AddDimWithStatus p s size).
    + unfold AddDimWithStatus, spec_build. rewrite legalb_app_neg by done.
      rewrite Hp, (proj2 (Z.ltb_lt _ _) Hs). done.
  - destruct (arg_split size Ho) as [Hs|[Hp Hs]]; cycle 1.
    { unfold InsertDimWithStatus. rewrite Hp, (proj2 (Z.ltb_lt _ _) Hs). done. }
    assert (negb p && (size <? 0) = false) as Hneg by (destruct p; [done|]; cbn [negb andb]; apply Z.ltb_ge; lia).
    rewrite Hneg, <- Hd.
    destruct ((0 <=? d) && (d <=? dims p s) && (dims p s <? 254)) eqn:E.
    + zbool. apply builds_simulates, InsertDimWithStatus_ok; [done|lia|done|lia].
    + unfold InsertDimWithStatus, MaxDimensions. rewrite Hneg. cbn [negb].
      destruct (0 <=? d), (d <=? dims p s), (dims p s <? 254); done.
  - rewrite <- Hd. destruct (_ && _) eqn:E.
    + zbool. destruct (arg_split size Ho) as [Hs|[Hp Hs]].
      * apply builds_simulates, SetDimWithStatus_ok; [done|lia|done].
      * unfold SetDimWithStatus, spec_build.
        rewrite (proj2 (Z.leb_le 0 d)), (proj2 (Z.ltb_lt d _)) by lia.
        rewrite (insert_take_drop (sizes p s)) by lia. rewrite legalb_app_neg by done.
        rewrite Hp, (proj2 (Z.ltb_lt _ _) Hs). done.
    + unfold SetDimWithStatus. destruct (0 <=? d), (d <? dims p s); done.
  - by apply remove_simulates.
  - unfold RemoveDimWithStatus. destruct (Z.leb_spec 0 d) as [H0|H0]; [|done]. cbn [andb].
    rewrite !wrap_i32_id by (unfold in_i32; lia). rewrite <- (remove_one s d) by lia. by apply remove_simulates.
  - unfold RemoveLastDimsWithStatus. rewrite <- Hd. destruct (n <? dims p s); [done|]. cbn [negb]. by apply remove_simulates.
  - unfold AppendShapeWithStatus. rewrite (iterate_ok p shape Ho). cbn. eexists. split; [reflexivity|].
    apply builds_simulates. unfold builds. pose proof (add_dims_status_ok p (sizes p shape) s H (wf_sizes_range p shape Ho)) as Ha.
    by destruct (add_dims_status p s (sizes p shape)).
Qed.

Lemma run_simulates (os : list op) (s : t) :
  wf p s -> Forall op_arg os -> exists r, run s os = Some r /\ simulates r (spec_run (sizes p s) os).
Proof.
  revert s. induction os as [|o os IH]; intros s H Ho; cbn [run spec_run]; [by eexists|].
  apply list.Forall_cons in Ho as [Ho Hos]. destruct (step_simulates s o H Ho) as (r & -> & Hs). cbn [mbind option_bind].
  destruct r as [s'|e]; cbn [simulates res_bind] in *.
  - destruct Hs as [H' ->]. by apply IH.
  - rewrite Hs. by eexists.
Qed.
End Run.

(** ** Validity and protos *)

Section Protos.
Context (p : bool).

(** The loop of [IsValid] from a prefix [pre] on. *)
Lemma valid_dims_ok (l pre : list Z) :
  Forall (fun d => d < 2 ^ 63) l -> no_overflow pre -> (p = false -> 0 <= count pre) ->
  valid_dims p (count pre) l = true <-> Forall (fun d => (if p then -1 else 0) <= d) l /\ no_overflow (pre ++ l).
Proof.
  revert pre. induction l as [|d l IH]; intros pre Hl Hn Hp; cbn [valid_dims].
  - rewrite app_nil_r. split; [|done]. by repeat constructor.
  - apply list.Forall_cons in Hl as [Hd Hl]. rewrite list.Forall_cons.
    destruct (Z.ltb_spec d (if p then -1 else 0)) as [Hlo|Hlo]; [split; [done|]; intros [[? _] _]; lia|].
    rewrite (cons_middle d pre l), app_assoc. pose proof (count_snoc pre d) as Hs.
    pose proof (count_range pre) as Hc. pose proof (no_overflow_end pre Hn) as He.
    assert (count (pre ++ [d]) < 2 ^ 63 -> no_overflow (pre ++ [d])) as Hn'.
    { intros H. apply no_overflow_app; [done|]. intros [|n]; cbn [take]; [by rewrite app_nil_r|].
      by rewrite take_nil. }
    assert (count (pre ++ [d]) < 2 ^ 63 -> (p = false -> 0 <= count (pre ++ [d])) ->
            valid_dims p (count (pre ++ [d])) l = true <->
            ((if p then -1 else 0) <= d /\ Forall (fun d => (if p then -1 else 0) <= d) l) /\ no_overflow ((pre ++ [d]) ++ l)) as Hstep.
    { intros H1 H2. rewrite IH by auto. tauto. }
    destruct (Z.eqb_spec d (-1)) as [->|Hd1].
    { change (-1 <? 0) with true in Hs. rewrite orb_true_r in Hs. rewrite <- Hs at 1. apply Hstep; [lia|]. intros ->. lia. }
    rewrite (proj2 (Z.ltb_ge d 0)) in Hs by (destruct p; lia). rewrite orb_false_r in Hs.
    destruct (negb p || (0 <=? count pre)) eqn:E; cbn zeta.
    + assert (0 <= count pre) as Hc0 by (destruct p; cbn [negb orb] in E; zbool; auto).
      rewrite (proj2 (Z.ltb_ge _ _) Hc0) in Hs. assert (0 <= d) by (destruct p; lia).
      destruct (Z.ltb_spec (count pre * d) (2 ^ 63)) as [Hf|Hf].
      * rewrite multiply_ok by lia. rewrite (proj2 (Z.ltb_ge _ _)) by nia. rewrite <- Hs. apply Hstep; nia.
      * rewrite (proj2 (Z.ltb_lt _ _)) by (apply multiply_overflow; lia). split; [done|]. intros [_ Hov].
        specialize (Hov (S (length pre))).
        rewrite take_app_le, take_ge in Hov by (rewrite length_app; cbn; lia). lia.
    + apply orb_false_iff in E as [E1 E2]. zbool. rewrite (proj2 (Z.ltb_lt _ _) E2) in Hs.
      replace (count pre) with (count (pre ++ [d])) by lia. apply Hstep; [lia|]. intros ->. done.
Qed.

Lemma valid_dims_start (l : list Z) :
  Forall (fun d => d < 2 ^ 63) l ->
  valid_dims p 1 l = true <-> Forall (fun d => (if p then -1 else 0) <= d) l /\ no_overflow l.
Proof.
  intros Hl. apply (valid_dims_ok l []); [done| |cbn; lia]. intros k. rewrite take_nil. cbn. lia.
Qed.

Lemma valid_dims_status_eq (l : list Z) (n : Z) :
  valid_dims_status p n l = if valid_dims p n l then Ok tt else Err InvalidArgument.
Proof.
  revert n. induction l as [|d l IH]; intros n; cbn [valid_dims valid_dims_status]; [done|]. cbn zeta.
  destruct (d <? _); [done|]. destruct (d =? -1); [apply IH|]. destruct (_ || _); [|apply IH].
  destruct (MultiplyWithoutOverflow n d <? 0); [done|apply IH].
Qed.

(** The checks on a proto of known rank accept exactly the legal sizes. *)
Lemma IsValid_proto_ok (l : list Z) :
  Forall (fun d => d < 2 ^ 63) l ->
  IsValid_proto p (mkProto l false) = true <-> legal p l.
Proof.
  intros Hl. unfold IsValid_proto, MaxDimensions. cbn [proto_dim proto_unknown_rank]. rewrite andb_false_r.
  unfold legal. fold (no_overflow l). destruct (Z.ltb_spec 254 (Z.of_nat (length l))).
  - split; [done|]. lia.
  - rewrite valid_dims_start by done. tauto.
Qed.

Lemma IsValidShape_eq (q : Proto) :
  IsValidShape p q = if IsValid_proto p q then Ok tt else Err InvalidArgument.
Proof.
  unfold IsValidShape, IsValid_proto. destruct (_ && _).
  - by destruct (proto_dim q).
  - destruct (_ <? _); [done|]. apply valid_dims_status_eq.
Qed.

Lemma sizes_below (s : t) : wf p s -> Forall (fun d => d < 2 ^ 63) (sizes p s).
Proof.
  intros H. refine (list.Forall_impl _ _ _ (wf_sizes_range p s H) _). intros d Hd. lia.
Qed.

Lemma IsValid_ok (s : t) : wf p s -> IsValid p s = Some true.
Proof.
  intros H. unfold IsValid. rewrite (wf_known p s H), andb_false_r, (wf_dims_eq p s H).
  pose proof (wf_legal p s H) as (H1 & H2 & H3). unfold MaxDimensions.
  rewrite (proj2 (Z.ltb_ge _ _) H1). unfold dim_sizes. rewrite (iterate_ok p s H). cbn. f_equal.
  apply valid_dims_start; [by apply sizes_below|done].
Qed.

Lemma AsProto_ok (s : t) : wf p s -> AsProto p s = mkProto (sizes p s) false.
Proof.
  intros H. unfold AsProto. rewrite (wf_known p s H), (wf_dims_eq p s H), Nat2Z.id.
  by rewrite dim_sizes_eq; [|apply wf_known|].
Qed.

(** The product of the positive sizes, which [BuildTensorShapeBase] also bounds. *)
Fixpoint positive_count (l : list Z) : Z :=
  match l with [] => 1 | d :: l' => (if 0 <? d then d else 1) * positive_count l' end.

Lemma positive_count_pos (l : list Z) : 1 <= positive_count l.
Proof. induction l as [|d l IH]; cbn; [lia|]. case_if; nia. Qed.

Lemma build_dims_eq (l : list Z) (s : t) (excl : Z) :
  1 <= excl < 2 ^ 63 -> Forall (fun d => d < 2 ^ 63) l ->
  build_dims p s excl l =
  if excl * positive_count l <? 2 ^ 63 then add_dims_status p s l else Err InvalidArgument.
Proof.
  revert s excl. induction l as [|d l IH]; intros s excl He Hl; cbn [build_dims add_dims_status positive_count].
  - rewrite (proj2 (Z.ltb_lt _ _)) by lia. done.
  - apply list.Forall_cons in Hl as [Hd Hl]. pose proof (positive_count_pos l) as Hp.
    destruct (AddDimWithStatus p s d) as [s'|e] eqn:Ea; cbn [res_bind];
      [|rewrite (AddDimWithStatus_code p _ _ _ Ea); by destruct (_ <? _)].
    destruct (Z.ltb_spec 0 d) as [Hpos|Hpos]; [|rewrite IH by done; by rewrite Z.mul_1_l].
    cbn zeta. destruct (Z.ltb_spec (excl * d) (2 ^ 63)) as [Hf|Hf].
    + rewrite multiply_ok by lia. rewrite (proj2 (Z.ltb_ge _ _)) by nia. rewrite IH by (done || nia).
      by rewrite Z.mul_assoc.
    + rewrite (proj2 (Z.ltb_lt _ _)) by (apply multiply_overflow; lia).
      rewrite (proj2 (Z.ltb_ge _ _)); [done|]. nia.
Qed.

(** Both ways to build a shape of known rank from a proto. *)
Lemma BuildFromProto_eq (l : list Z) :
  Forall (fun d => d < 2 ^ 63) l ->
  BuildFromProto p (mkProto l false) =
  if positive_count l <? 2 ^ 63 then add_dims_status p Clear l else Err InvalidArgument.
Proof.
  intros Hl. unfold BuildFromProto. cbn [proto_dim proto_unknown_rank]. rewrite andb_false_r. fold Clear.
  rewrite build_dims_eq by (done || lia). by rewrite Z.mul_1_l.
Qed.
End Protos.

(** ** Merging partial shapes *)

(** Two sizes agree unless both are known and differ; the merged size is the known one. *)
Definition agree (x y : Z) : Prop := 0 <= x -> 0 <= y -> x = y.
Definition join (x y : Z) : Z := if 0 <=? x then x else y.

Definition agreeb (x y : Z) : bool := negb ((0 <=? x) && (0 <=? y) && negb (x =? y)).

Lemma agreeb_spec (x y : Z) : agreeb x y = true <-> agree x y.
Proof.
  unfold agreeb, agree. destruct (Z.leb_spec 0 x), (Z.leb_spec 0 y), (Z.eqb_spec x y); cbn; split;
    intros; try done; lia.
Qed.

Lemma seq_sizes (s : t) (l k : list Z) (d : Z) :
  wf true s -> sizes true s = l ++ d :: k -> dim_size true s (Z.of_nat (length l)) = d.
Proof.
  intros H Hz. pose proof (dim_size_eq true s (length l) (wf_known true s H)) as He.
  rewrite Hz, list_lookup_middle in He by done. rewrite length_app in He. cbn in He.
  specialize (He ltac:(lia)). congruence.
Qed.

Lemma merge_dims_ok (a b : t) (xs ys pa pb : list Z) (r : t) :
  wf true a -> wf true b -> wf true r -> sizes true a = pa ++ xs -> sizes true b = pb ++ ys ->
  length pa = length pb -> length xs = length ys ->
  match merge_dims a b r (seq (length pa) (length xs)) with
  | Ok r' => wf true r' /\ Forall2 agree xs ys /\ sizes true r' = sizes true r ++ zip_with join xs ys
  | Err e => e = InvalidArgument /\
      (~ Forall2 agree xs ys \/ ~ legal true (sizes true r ++ zip_with join xs ys))
  end.
Proof.
  intros Ha Hb. revert ys pa pb r. induction xs as [|x xs IH]; intros [|y ys] pa pb r Hr Hxa Hyb Hp Hl; try done.
  { cbn. rewrite app_nil_r. auto. }
  cbn [length seq merge_dims]. rewrite (seq_sizes a pa xs x Ha Hxa).
  rewrite Hp, (seq_sizes b pb ys y Hb Hyb), <- Hp. cbn zeta. fold (join x y).
  destruct ((0 <=? x) && (0 <=? y) && negb (x =? y)) eqn:E.
  - split; [done|]. left. intros H. inversion H as [|? ? ? ? Hxy]; subst. apply agreeb_spec in Hxy.
    unfold agreeb in Hxy. by rewrite E in Hxy.
  - assert (agree x y) as Hxy by (apply agreeb_spec; unfold agreeb; by rewrite E).
    pose proof (wf_sizes_range true a Ha) as Hra. rewrite Hxa in Hra. apply list.Forall_app in Hra as [_ Hra].
    pose proof (wf_sizes_range true b Hb) as Hrb. rewrite Hyb in Hrb. apply list.Forall_app in Hrb as [_ Hrb].
    apply list.Forall_cons in Hra as [Hra _]. apply list.Forall_cons in Hrb as [Hrb _].
    pose proof (AddDimWithStatus_ok true r (join x y) Hr ltac:(unfold join; case_if; lia)) as Hadd.
    cbn [zip_with]. rewrite (cons_middle (join x y) (sizes true r)), app_assoc.
    destruct (AddDimWithStatus true r (join x y)) as [r'|e]; cbn [res_bind].
    + destruct Hadd as [Hw <-]. rewrite (cons_middle x pa xs), app_assoc in Hxa.
      rewrite (cons_middle y pb ys), app_assoc in Hyb.
      pose proof (IH ys (pa ++ [x]) (pb ++ [y]) r' Hw Hxa Hyb) as H. rewrite !length_app in H. cbn [length] in H.
      specialize (H ltac:(lia) ltac:(cbn in Hl; lia)). rewrite Nat.add_comm in H. cbn [Nat.add] in H.
      destruct (merge_dims a b r' _); [destruct H as (H1 & H2 & H3); split; [done|]; split; [by constructor|done]|].
      destruct H as [-> [H|H]]; split; auto. left. intros H2. inversion H2. auto.
    + destruct Hadd as [-> Hn]. split; [done|]. right. intros Hg. by apply legal_prefix in Hg.
Qed.

Lemma all_below_sizes (a b : t) (f : Z -> Z -> bool) :
  wf true a -> wf true b -> length (sizes true a) = length (sizes true b) ->
  all_below (dims true a) (fun i => f (dim_size true a i) (dim_size true b i)) = true <->
  Forall2 (fun x y => f x y = true) (sizes true a) (sizes true b).
Proof.
  intros Ha Hb Hl. unfold all_below. rewrite (wf_dims_eq true a Ha), Nat2Z.id, forallb_forall, Forall2_lookup.
  setoid_rewrite <- list_elem_of_In. setoid_rewrite elem_of_seq. split.
  - intros H i. destruct (decide (i < length (sizes true a))%nat) as [Hi|Hi].
    + rewrite (dim_size_eq true a i (wf_known true a Ha) Hi).
      rewrite (dim_size_eq true b i (wf_known true b Hb)) by lia. constructor. apply H. lia.
    + rewrite !lookup_ge_None_2 by lia. constructor.
  - intros H i Hi. specialize (H i). rewrite (dim_size_eq true a i (wf_known true a Ha)) in H by lia.
    rewrite (dim_size_eq true b i (wf_known true b Hb)) in H by lia. by inversion H.
Qed.

Lemma IsCompatibleWith_ok (a b : t) :
  wf true a -> wf true b ->
  IsCompatibleWith a b = true <-> Forall2 agree (sizes true a) (sizes true b).
Proof.
  intros Ha Hb. unfold IsCompatibleWith. rewrite (wf_known true a Ha), (wf_known true b Hb). cbn [orb].
  rewrite (wf_dims_eq true b Hb). destruct (Z.eqb_spec (dims true a) (Z.of_nat (length (sizes true b)))) as [E|E];
    rewrite (wf_dims_eq true a Ha) in E; cbn [negb].
  - cbn zeta. pose proof (all_below_sizes a b agreeb Ha Hb ltac:(lia)) as H. unfold agreeb in H at 1. rewrite H.
    split; intros Hf; refine (Forall2_impl _ _ _ _ Hf _); intros x y; apply agreeb_spec.
  - split; [done|]. intros H. apply Forall2_length in H. lia.
Qed.

(** ** The theorems *)

(** [MultiplyWithoutOverflow] on [int64_t] operands returns the exact product if neither of them
    is negative and the product fits in [int64_t], and a negative number otherwise. *)
Theorem MultiplyWithoutOverflow_exact (x y : Z) :
  in_i64 x -> in_i64 y ->
  if (0 <=? x) && (0 <=? y) && (x * y <? 2 ^ 63)
  then MultiplyWithoutOverflow x y = x * y else MultiplyWithoutOverflow x y < 0.
Proof.
  unfold in_i64. intros Hx Hy. destruct (Z.leb_spec 0 x) as [Hx0|Hx0]; cbn [andb].
  - destruct (Z.leb_spec 0 y) as [Hy0|Hy0]; cbn [andb].
    + destruct (Z.ltb_spec (x * y) (2 ^ 63)); [apply multiply_ok|apply multiply_overflow]; lia.
    + unfold MultiplyWithoutOverflow. rewrite (proj2 (Z.ltb_lt _ _) Hy0). by case_if.
  - unfold MultiplyWithoutOverflow. by rewrite (proj2 (Z.ltb_lt _ _) Hx0).
Qed.

Lemma MultiplyWithoutOverflow_exact_witness :
  MultiplyWithoutOverflow (2 ^ 40) (2 ^ 22) = 2 ^ 62 /\ MultiplyWithoutOverflow (2 ^ 40) (2 ^ 24) < 0.
Proof.
  split.
  - apply (MultiplyWithoutOverflow_exact (2 ^ 40) (2 ^ 22)); unfold in_i64; lia.
  - apply (MultiplyWithoutOverflow_exact (2 ^ 40) (2 ^ 24)); unfold in_i64; lia.
Defined.

(** C10: A [TensorShape] or [PartialTensorShape] of known rank is a list of dimension sizes: a shape
    built from an array of sizes and then updated by any sequence of [AddDimWithStatus],
    [InsertDimWithStatus], [SetDimWithStatus], [RemoveDimRangeWithStatus], [RemoveDimWithStatus] (of an
    index that fits an [int]), [AppendShapeWithStatus] and [RemoveLastDimsWithStatus] never crashes and
    holds the list that the same updates give on lists, with the cached number of elements equal to its
    product, whichever of the three representations it is in; and the sequence fails at the same update
    with the same code, namely when a position is out of range, a size is negative, there are more than
    254 dimensions or the number of elements of a prefix overflows.  [RemoveLastDimsWithStatus] is taken
    as it is written: it refuses to remove fewer dimensions than there are. *)
Theorem shapes_refine_lists (p : bool) (l : list Z) (os : list op) :
  Forall (arg p) l -> Forall (op_arg p) os ->
  exists r, match InitDims p l with Ok s => run p s os | Err e => Some (Err e) end = Some r /\
    simulates p r (res_bind (spec_build p l) (fun l' => spec_run p l' os)).
Proof.
  intros Hl Ho. pose proof (builds_simulates p _ _ (InitDims_ok p l Hl)) as Hi.
  destruct (InitDims p l) as [s|e]; cbn [simulates res_bind] in *.
  - destruct Hi as [Hw ->]. by apply run_simulates.
  - rewrite Hi. by eexists.
Qed.

Lemma shapes_refine_lists_witness :
  exists r, match InitDims false [2; 3; 70000] with
            | Ok s => run false s [Add 5; Insert 1 7; SetDim 0 (2 ^ 33); RemoveRange 3 (-1); Remove 1; Append Clear; RemoveLast 3]
            | Err e => Some (Err e)
            end = Some r /\ simulates false r (Ok [2 ^ 33; 3]).
Proof.
  apply (shapes_refine_lists false [2; 3; 70000]
           [Add 5; Insert 1 7; SetDim 0 (2 ^ 33); RemoveRange 3 (-1); Remove 1; Append Clear; RemoveLast 3]);
    repeat (apply list.Forall_cons; split); try apply list.Forall_nil; try exact (proj1 (Clear_ok false)); cbn; unfold arg; try lia; done.
Defined.

(** The functions that [CHECK] their arguments compute what the functions that return a status
    compute, and crash exactly when those report an error ([wrap_i32 d] is any value of type [int]). *)
Theorem checked_variants_agree (p : bool) (s shape : t) (d size b e : Z) (l : list Z) :
  AddDim p s size = checked (AddDimWithStatus p s size) /\
  InsertDim p s d size = checked (InsertDimWithStatus p s d size) /\
  set_dim p s d size = checked (SetDimWithStatus p s d size) /\
  RemoveDimRange p s b e = checked (RemoveDimRangeWithStatus p s b e) /\
  RemoveDim p s (wrap_i32 d) = checked (RemoveDimWithStatus p s (wrap_i32 d)) /\
  AppendShape p s shape = AppendShapeWithStatus p s shape ≫= checked /\
  FromDims p l = checked (BuildFromDims p l).
Proof.
  repeat split.
  - apply AddDim_checked.
  - apply InsertDim_checked.
  - apply set_dim_checked.
  - apply RemoveDimRange_checked.
  - unfold RemoveDim, RemoveDimWithStatus. rewrite (wrap_i32_id (wrap_i32 d)) by apply wrap_i32_range.
    destruct (0 <=? wrap_i32 d); [apply RemoveDimRange_checked|done].
  - unfold AppendShape, AppendShapeWithStatus. destruct (iterate p shape); cbn; [apply add_dims_checked|done].
Qed.

(** Every shape of known rank is valid ([IsValid]), so is its proto ([IsValid] and [IsValidShape]
    on a [TensorShapeProto]), and the constructor gives back a shape with the same sizes from that
    proto; the factory [BuildTensorShapeBase] does so too unless the product of the positive sizes
    overflows, in which case it fails with [InvalidArgument]. *)
Theorem proto_round_trip (p : bool) (s : t) :
  wf p s ->
  IsValid p s = Some true /\ IsValid_proto p (AsProto p s) = true /\ IsValidShape p (AsProto p s) = Ok tt /\
  exists s', FromProto p (AsProto p s) = Some s' /\ wf p s' /\ sizes p s' = sizes p s /\
    BuildFromProto p (AsProto p s) =
      (if positive_count (sizes p s) <? 2 ^ 63 then Ok s' else Err InvalidArgument).
Proof.
  intros H. rewrite IsValidShape_eq, (AsProto_ok p s H). pose proof (sizes_below p s H) as Hb.
  rewrite (proj2 (IsValid_proto_ok p _ Hb) (wf_legal p s H)), (IsValid_ok p s H).
  rewrite (BuildFromProto_eq p _ Hb). unfold FromProto. cbn [proto_dim proto_unknown_rank].
  rewrite andb_false_r. fold Clear. rewrite add_dims_checked.
  pose proof (build_ok p _ (wf_sizes_range p s H)) as Hr.
  destruct (add_dims_status p Clear (sizes p s)) as [s'|e]; [|destruct Hr as [_ []]; apply H].
  repeat split. exists s'. by destruct Hr.
Qed.

Lemma proto_round_trip_witness :
  exists s, InitDims true [-1; 4; 0] = Ok s /\
    exists s', FromProto true (AsProto true s) = Some s' /\ sizes true s' = [-1; 4; 0].
Proof.
  pose proof (InitDims_ok true [-1; 4; 0]) as H. cbn [InitDims] in H.
  eexists. split; [reflexivity|].
  destruct (proto_round_trip true (mk REP16 [65535; 4; 0] 3 (-1))) as (_ & _ & _ & s' & H1 & _ & H2 & _).
  - apply H. repeat (apply list.Forall_cons; split); try apply list.Forall_nil; unfold arg; lia.
  - exists s'. split; [exact H1|exact H2].
Defined.

(** [PartialTensorShape::MergeWith] on shapes of known rank succeeds only on shapes for which
    [IsCompatibleWith] holds and gives the pointwise merge of their sizes; it fails, with
    [InvalidArgument], only if the shapes are not compatible or no shape has the merged sizes. *)
Theorem MergeWith_result (a b : t) :
  wf true a -> wf true b ->
  match MergeWith a b with
  | Ok r => wf true r /\ IsCompatibleWith a b = true /\
            sizes true r = zip_with join (sizes true a) (sizes true b)
  | Err e => e = InvalidArgument /\
             (IsCompatibleWith a b = false \/ ~ legal true (zip_with join (sizes true a) (sizes true b)))
  end.
Proof.
  intros Ha Hb. pose proof (IsCompatibleWith_ok a b Ha Hb) as Hc. unfold MergeWith.
  rewrite (wf_known true a Ha), (wf_known true b Hb), (wf_dims_eq true a Ha), (wf_dims_eq true b Hb).
  destruct (Z.eqb_spec (Z.of_nat (length (sizes true a))) (Z.of_nat (length (sizes true b)))) as [E|E]; cbn [negb].
  - destruct (Clear_ok true) as [Hw Hz].
    pose proof (merge_dims_ok a b _ _ [] [] Clear Ha Hb Hw eq_refl eq_refl eq_refl ltac:(lia)) as H.
    rewrite Hz in H. cbn [app length] in H. rewrite Nat2Z.id.
    destruct (merge_dims a b Clear _) as [r|e].
    + destruct H as (H1 & H2 & H3). by rewrite Hc.
    + destruct H as [-> H]. split; [done|]. rewrite <- Hc, not_true_iff_false in H. done.
  - split; [done|]. left. apply not_true_iff_false. rewrite Hc. intros H. apply Forall2_length in H. lia.
Qed.

Lemma MergeWith_result_witness :
  exists r, MergeWith (mk REP16 [65535; 4] 2 (-1)) (mk REP16 [3; 65535] 2 (-1)) = Ok r /\ wf true r /\
            sizes true r = [3; 4].
Proof.
  pose proof (MergeWith_result (mk REP16 [65535; 4] 2 (-1)) (mk REP16 [3; 65535] 2 (-1))) as H.
  eexists. split; [reflexivity|]. destruct H as (H1 & _ & H2).
  - apply (InitDims_ok true [-1; 4]).
    repeat (apply list.Forall_cons; split); try apply list.Forall_nil; unfold arg; lia.
  - apply (InitDims_ok true [3; -1]).
    repeat (apply list.Forall_cons; split); try apply list.Forall_nil; unfold arg; lia.
  - split; [exact H1|exact H2].
Defined.

(** [RemoveLastDimsWithStatus] has its range check inverted: removing [n] dimensions of a shape
    with more than [n] dimensions is refused with an internal error, while [RemoveLastDims], the
    variant that [CHECK]s, removes them. *)
Theorem RemoveLastDimsWithStatus_inverted (p : bool) (s : t) (n : Z) :
  wf p s -> 0 <= n < dims p s ->
  RemoveLastDimsWithStatus p s n = Err Internal /\
  exists s', RemoveLastDims p s n = Some s' /\ wf p s' /\
             sizes p s' = take (Z.to_nat (dims p s - n)) (sizes p s).
Proof.
  intros H Hn. unfold RemoveLastDimsWithStatus, RemoveLastDims. rewrite (proj2 (Z.ltb_lt _ _)) by lia. split; [done|].
  assert (legal p (take (Z.to_nat (dims p s - n)) (sizes p s))) as Hl.
  { pose proof (wf_legal p s H) as Hl.
    rewrite <- (take_drop (Z.to_nat (dims p s - n)) (sizes p s)) in Hl. by apply legal_prefix in Hl. }
  pose proof (wf_dims_eq p s H) as Hdims. pose proof (wf_legal p s H) as [Hmax _].
  rewrite (proj2 (Z.leb_le _ _)), wrap_i32_id, RemoveDimRange_checked by (unfold in_i32; lia).
  assert (forall i, 0 <= i -> adjust p s i = i) as Ha
    by (intros i Hi; unfold adjust; by rewrite (proj2 (Z.ltb_ge _ _) Hi)).
  pose proof (RemoveDimRangeWithStatus_ok p s (dims p s - n) (dims p s) H) as Hr.
  rewrite !Ha in Hr by lia. specialize (Hr ltac:(lia) ltac:(lia)).
  rewrite (drop_ge (sizes p s) (Z.to_nat (dims p s))), app_nil_r in Hr by (rewrite (wf_dims_eq p s H); lia).
  assert ((if dims p s <=? dims p s - n then sizes p s else take (Z.to_nat (dims p s - n)) (sizes p s)) =
          take (Z.to_nat (dims p s - n)) (sizes p s)) as Heq.
  { case_if; [|done]. rewrite take_ge; [done|]. pose proof (wf_dims_eq p s H). lia. }
  rewrite Heq in Hr. destruct (RemoveDimRangeWithStatus _ _ _ _) as [s'|e]; cbn in *.
  - exists s'. done.
  - by destruct Hr.
Qed.

Lemma RemoveLastDimsWithStatus_inverted_witness :
  exists s, InitDims false [2; 3; 4] = Ok s /\ RemoveLastDimsWithStatus false s 1 = Err Internal.
Proof.
  eexists. split; [reflexivity|].
  apply (RemoveLastDimsWithStatus_inverted false (mk REP16 [2; 3; 4] 3 24) 1).
  - apply (InitDims_ok false [2; 3; 4]).
    repeat (apply list.Forall_cons; split); try apply list.Forall_nil; unfold arg; lia.
  - cbn. lia.
Defined.

(** [ConcatenateWithStatus] changes the shape it is called on and leaves [*out] as it was. *)
Example ConcatenateWithStatus_writes_this :
  ConcatenateWithStatus Clear (TensorShapeBase true) 7 = (Ok tt, mk REP16 [7] 1 7, TensorShapeBase true).
Proof. reflexivity. Qed.
