(* ===== verification/StridedSlice.v ===== *)
(** * Strided slices ([core/util/strided_slice_op.{h,cc}])

    The validation of a [StridedSlice] request: a sparse specification (one
    entry per index expression, with bit masks for omitted bounds, [...],
    [newaxis] and single indices) becomes a dense one (one entry per input
    dimension), the bounds are made canonical and the shapes of the result
    are computed; and the broadcast of a value to a slice it is assigned to.

    A failure is a status, a failed [CHECK], or undefined behaviour: the
    masks have 32 bits and [1 << i] is undefined for [i >= 32].  [1 << 31] is
    the sign bit.  The output arguments are a record; the vectors [begin],
    [end] and [strides] are empty before the call, as every caller has them. *)

From S2P Require Import Prelude TensorShape.
Import Shape.

Module Slice.

Open Scope res_scope.

Inductive failure := Status (c : code) | CheckFailed | Undefined.

Definition kShrinkAxis : Z := -1.
Definition kNewAxis : Z := -2.

(** What the validation reads of a [Tensor]. *)
Inductive DataType := DT_INT16 | DT_INT32 | DT_INT64 | DT_OTHER.
Record Tensor := mkTensor { t_shape : list Z; t_dtype : DataType; t_flat : list Z }.

#[global] Instance DataType_eq_dec : EqDecision DataType.
Proof. solve_decision. Defined.

Definition IsVector (x : Tensor) : bool := (length (t_shape x) =? 1)%nat.
Definition NumElements (x : Tensor) : Z := Z.of_nat (length (t_flat x)).

(** [tensor->vec<T>().data()], or nothing for a null pointer. *)
Definition vec_data (dt : DataType) (x : option Tensor) : res failure (option (list Z)) :=
  match x with
  | None => Ok None
  | Some x => if decide (t_dtype x = dt) then Ok (Some (t_flat x)) else Err CheckFailed
  end.

(** [1 << i] *)
Definition shl1 (i : Z) : Z := wrap_i32 (Z.shiftl 1 i).
Definition bit (i : Z) : res failure Z := if (0 <=? i) && (i <? 32) then Ok (shl1 i) else Err Undefined.

(** [mask & (1 << i)] as a condition *)
Definition has (mask i : Z) : bool := negb (Z.land mask (shl1 i) =? 0).

(** [struct StridedSliceSparseSpec] *)
Record Sparse := mkSparse {
  s_dims : Z;
  num_add_axis_after_ellipsis : Z;
  s_begin : option Tensor;
  s_end : option Tensor;
  s_strides : Tensor;
  s_begin_mask : Z;
  s_end_mask : Z;
  s_ellipsis_mask : Z;
  s_new_axis_mask : Z;
  s_shrink_axis_mask : Z
}.

(** [struct StridedSliceDenseSpec], with the loop variable [full_index] of [BuildDenseSpec]. *)
Record Dense := mkDense {
  full_index : Z;
  d_begin_mask : Z;
  d_end_mask : Z;
  d_begin : list Z;
  d_end : list Z;
  d_strides : list Z;
  final_shape_gather_indices : list Z;
  final_shape_gather_indices_sparse : list Z;
  input_shape_gather_indices_sparse : list Z;
  d_shrink_axis_mask : Z
}.

Definition put (i v : Z) (l : list Z) : list Z := <[Z.to_nat i := v]> l.
Definition get (i : Z) (l : list Z) : Z := nth (Z.to_nat i) l 0.

(** ** [BuildDenseSpec] *)

(** The body of the loop that expands the ellipsis at sparse index [i]. *)
Definition expand_one (i : Z) (d : Dense) : res failure Dense :=
  let f := full_index d in
  let! b := bit f in
  Ok (mkDense (f + 1) (Z.lor (d_begin_mask d) b) (Z.lor (d_end_mask d) b)
        (put f 0 (d_begin d)) (put f 0 (d_end d)) (put f 1 (d_strides d))
        (final_shape_gather_indices d ++ [f]) (final_shape_gather_indices_sparse d ++ [-1])
        (put f i (input_shape_gather_indices_sparse d)) (d_shrink_axis_mask d)).

Fixpoint expand (i : Z) (n : nat) (d : Dense) : res failure Dense :=
  match n with
  | O => Ok d
  | S n' => let! d' := expand_one i d in expand i n' d'
  end.

(** A new axis. *)
Definition new_axis (d : Dense) : Dense :=
  mkDense (full_index d) (d_begin_mask d) (d_end_mask d) (d_begin d) (d_end d) (d_strides d)
    (final_shape_gather_indices d ++ [kNewAxis]) (final_shape_gather_indices_sparse d ++ [-1])
    (input_shape_gather_indices_sparse d) (d_shrink_axis_mask d).

(** [if (c) mask |= (1 << i)] *)
Definition set_bit (c : bool) (mask i : Z) : res failure Z :=
  if c then let! b := bit i in Ok (Z.lor mask b) else Ok mask.

(** An index or a range for the next input dimension. *)
Definition gather (s : Sparse) (bs es : option (list Z)) (ss : list Z) (i : Z) (d : Dense) : res failure Dense :=
  let f := full_index d in
  check! negb (f =? Z.of_nat (length (d_begin d))) else Status InvalidArgument in
  let shrink := has (s_shrink_axis_mask s) i in
  let! bm := set_bit (has (s_begin_mask s) i) (d_begin_mask d) f in
  let! em := set_bit (has (s_end_mask s) i) (d_end_mask d) f in
  let! sm := set_bit shrink (d_shrink_axis_mask d) f in
  Ok (mkDense (f + 1) bm em
        (match bs with Some l => put f (get i l) (d_begin d) | None => d_begin d end)
        (match es with Some l => put f (get i l) (d_end d) | None => d_end d end)
        (put f (get i ss) (d_strides d))
        (final_shape_gather_indices d ++ [if shrink then kShrinkAxis else f])
        (final_shape_gather_indices_sparse d ++ [if shrink then -1 else i])
        (put f i (input_shape_gather_indices_sparse d)) sm).

(** The body of the loop over the sparse entries. *)
Definition build_step (s : Sparse) (dims : Z) (bs es : option (list Z)) (ss : list Z) (i : Z) (d : Dense) :
  res failure Dense :=
  let! _ := bit i in
  if has (s_ellipsis_mask s) i then
    let next_index := Z.min (dims - (s_dims s - i) + 1 + num_add_axis_after_ellipsis s) dims in
    expand i (Z.to_nat (next_index - full_index d)) d
  else if has (s_new_axis_mask s) i then Ok (new_axis d)
  else gather s bs es ss i d.

Fixpoint build_loop (s : Sparse) (dims : Z) (bs es : option (list Z)) (ss : list Z) (i : Z) (n : nat)
  (d : Dense) : res failure Dense :=
  match n with
  | O => Ok d
  | S n' => let! d' := build_step s dims bs es ss i d in build_loop s dims bs es ss (i + 1) n' d'
  end.

Definition BuildDenseSpec (s : Sparse) (dims : Z) : res failure Dense :=
  check! negb (dims <? 0) else Status InvalidArgument in
  check! negb (1024 <=? dims) else Status InvalidArgument in
  let zeros := replicate (Z.to_nat dims) 0 in
  let! bs := vec_data (t_dtype (s_strides s)) (s_begin s) in
  let! es := vec_data (t_dtype (s_strides s)) (s_end s) in
  build_loop s dims bs es (t_flat (s_strides s)) 0 (Z.to_nat (s_dims s))
    (mkDense 0 0 0 zeros zeros zeros [] [] zeros 0).

(** ** [ValidateStridedSliceOp] *)

(** The loop that looks for the ellipsis: whether it was seen, and the new axes after it. *)
Fixpoint find_ellipsis (ellipsis_mask new_axis_mask i : Z) (n : nat) (seen : bool) (num_add : Z) :
  res failure (bool * Z) :=
  match n with
  | O => Ok (seen, num_add)
  | S n' =>
      let! _ := bit i in
      let num_add' := if seen && has new_axis_mask i then num_add + 1 else num_add in
      find_ellipsis ellipsis_mask new_axis_mask (i + 1) n' (seen || has ellipsis_mask i) num_add'
  end.

(** The bounds that the mask, the sign of the stride and the size of the dimension allow. *)
Definition valid_range (stride dim c : Z) : Z :=
  if c =? 0 then (if 0 <? stride then 0 else -1) else (if 0 <? stride then dim else dim - 1).

(** The lambda [canonical] *)
Definition canonical (stride dim : Z) (masked : bool) (x c : Z) : Z :=
  if masked then (if 0 <? stride then valid_range stride dim c else valid_range stride dim (Z.land (c + 1) 1))
  else
    let x_fwd := if x <? 0 then dim + x else x in
    if x_fwd <? valid_range stride dim 0 then valid_range stride dim 0
    else if valid_range stride dim 1 <? x_fwd then valid_range stride dim 1 else x_fwd.

(** The number of steps in an interval; C++ division truncates. *)
Definition interval_size (interval_length stride : Z) : Z :=
  if (interval_length =? 0) || negb (Bool.eqb (interval_length <? 0) (stride <? 0)) then 0
  else Z.quot interval_length stride + (if Z.rem interval_length stride =? 0 then 0 else 1).

(** The output arguments that the loop over the input dimensions fills in. *)
Record Proc := mkProc {
  processing_shape : Shape.t;
  is_identity : bool;
  slice_dim0 : bool;
  is_simple_slice : bool;
  o_begin : list Z;
  o_end : list Z;
  o_strides : list Z
}.

Definition add_processing (size : Z) (p : Proc) : res failure Proc :=
  match AddDim true (processing_shape p) size with
  | Some s => Ok (mkProc s (is_identity p) (slice_dim0 p) (is_simple_slice p) (o_begin p) (o_end p) (o_strides p))
  | None => Err CheckFailed
  end.

(** The canonical bounds of dimension [i], with both bounds given. *)
Definition canonical_bounds (shrink : bool) (stride dim : Z) (bm em : bool) (b e : Z) : res failure (Z * Z) :=
  if shrink then
    let x_fwd := if b <? 0 then dim + b else b in
    if (x_fwd <? 0) || (dim <=? x_fwd) then Err (Status InvalidArgument)
    else Ok (x_fwd, wrap_i64 (x_fwd + 1))
  else Ok (canonical stride dim bm b 0, canonical stride dim em e 1).

(** The body of the loop over the input dimensions, for a dimension of known size. *)
Definition known_dim (d : Dense) (valid : bool) (i dim : Z) (shrink : bool) (p : Proc) : res failure Proc :=
  let stride := get i (o_strides p) in
  check! negb (shrink && (stride <=? 0)) else Status InvalidArgument in
  let simple := is_simple_slice p && (stride =? 1) in
  let bm := has (d_begin_mask d) i in
  let em := has (d_end_mask d) i in
  let first := (i =? 0) && (stride =? 1) in
  if valid then
    let! (b, e) := canonical_bounds shrink stride dim bm em (get i (o_begin p)) (get i (o_end p)) in
    let all := (stride =? 1) && (b =? 0) && (e =? dim) in
    add_processing (interval_size (wrap_i64 (e - b)) stride)
      (mkProc (processing_shape p) (is_identity p && all) (slice_dim0 p && (first || all)) simple
         (put i b (o_begin p)) (put i e (o_end p)) (o_strides p))
  else
    let p' := mkProc (processing_shape p) (is_identity p && ((stride =? 1) && (bm && em)))
                (slice_dim0 p && (first || (bm && em))) simple (o_begin p) (o_end p) (o_strides p) in
    if shrink then add_processing (interval_size 1 stride) p'
    else if bm && em && (0 <=? dim)
    then add_processing (interval_size (if stride <? 0 then - dim else dim) stride) p'
    else add_processing (-1) p'.

Definition dim_step (input : Shape.t) (d : Dense) (valid : bool) (i : Z) (p : Proc) : res failure Proc :=
  let dim := dim_size true input i in
  check! negb (get i (o_strides p) =? 0) else Status InvalidArgument in
  let! _ := bit i in
  let shrink := has (d_shrink_axis_mask d) i in
  if dim =? -1 then add_processing (if shrink then 1 else -1) p
  else known_dim d valid i dim shrink p.

Fixpoint dim_loop (input : Shape.t) (d : Dense) (valid : bool) (i : Z) (n : nat) (p : Proc) : res failure Proc :=
  match n with
  | O => Ok p
  | S n' => let! p' := dim_step input d valid i p in dim_loop input d valid (i + 1) n' p'
  end.

(** [struct StridedSliceShapeSpec] *)
Record ShapeSpec := mkSpec {
  begin_dense_mask : Z;
  end_dense_mask : Z;
  shrink_axis_dense_mask : Z;
  output_to_sparse_mapping : list Z;
  output_to_processing_mapping : list Z;
  processing_to_sparse_mapping : list Z
}.

(** Step 4: the final shape, and the mappings from its dimensions. *)
Fixpoint final_loop (processing : Shape.t) (l : list (Z * Z)) (final : Shape.t) (to_sparse to_proc : list Z) :
  res failure (Shape.t * list Z * list Z) :=
  match l with
  | [] => Ok (final, to_sparse, to_proc)
  | (gather_index, sparse_index) :: l' =>
      if 0 <=? gather_index then
        match AddDim true final (dim_size true processing gather_index) with
        | Some final' => final_loop processing l' final' (to_sparse ++ [sparse_index]) (to_proc ++ [gather_index])
        | None => Err CheckFailed
        end
      else if gather_index =? kNewAxis then
        match AddDim true final 1 with
        | Some final' => final_loop processing l' final' (to_sparse ++ [-1]) (to_proc ++ [-1])
        | None => Err CheckFailed
        end
      else final_loop processing l' final to_sparse to_proc
  end.

Record Result := mkResult { proc : Proc; final_shape : Shape.t; shape_spec : ShapeSpec }.

(** The size and shape checks on the three tensors. *)
Definition begin_is_wrong (x : option Tensor) (strides : Tensor) : bool :=
  match x with
  | None => false
  | Some x => negb (IsVector x && (NumElements x =? NumElements strides) && (NumElements x <? 32))
  end.
Definition end_is_wrong (x : option Tensor) (strides : Tensor) : bool :=
  match x with
  | None => false
  | Some x => negb (IsVector x && (NumElements x =? NumElements strides))
  end.

(** Step 1: the sparse specification with exactly one ellipsis. *)
Definition sparse_spec (begin_ end_ : option Tensor) (strides : Tensor)
  (begin_mask end_mask ellipsis_mask new_axis_mask shrink_axis_mask : Z) : res failure Sparse :=
  let n := NumElements strides in
  let! (seen, num_add) := find_ellipsis ellipsis_mask new_axis_mask 0 (Z.to_nat n) false 0 in
  if seen then
    Ok (mkSparse n num_add begin_ end_ strides begin_mask end_mask ellipsis_mask new_axis_mask shrink_axis_mask)
  else
    let! b := bit n in
    Ok (mkSparse (n + 1) num_add begin_ end_ strides begin_mask end_mask (Z.lor ellipsis_mask b)
          new_axis_mask shrink_axis_mask).

(** [ValidateStridedSliceOp] with partial shapes as outputs *)
Definition ValidateStridedSliceOp (begin_ end_ : option Tensor) (strides : Tensor) (input : Shape.t)
  (begin_mask end_mask ellipsis_mask new_axis_mask shrink_axis_mask : Z) : res failure Result :=
  check! negb (unknown_rank true input) else Status InvalidArgument in
  check! negb (begin_is_wrong begin_ strides || end_is_wrong end_ strides || negb (IsVector strides))
    else Status InvalidArgument in
  check! (ellipsis_mask =? 0) || (Z.land ellipsis_mask (wrap_i32 (ellipsis_mask - 1)) =? 0)
    else Status InvalidArgument in
  let! s := sparse_spec begin_ end_ strides begin_mask end_mask ellipsis_mask new_axis_mask shrink_axis_mask in
  check! bool_decide (t_dtype strides <> DT_OTHER) else CheckFailed in
  let! d := BuildDenseSpec s (dims true input) in
  let valid := bool_decide (is_Some begin_) && bool_decide (is_Some end_) in
  let! p := dim_loop input d valid 0 (Z.to_nat (dims true input))
              (mkProc Clear true true true (d_begin d) (d_end d) (d_strides d)) in
  let! (f, to_sparse, to_proc) :=
    final_loop (processing_shape p)
      (zip (final_shape_gather_indices d) (final_shape_gather_indices_sparse d)) Clear [] [] in
  Ok (mkResult p f
        (mkSpec (d_begin_mask d) (d_end_mask d) (d_shrink_axis_mask d) to_sparse to_proc
           (input_shape_gather_indices_sparse d))).

(** [ValidateStridedSliceOp] with full shapes as outputs *)
Definition ValidateStridedSliceOpFull (begin_ end_ : option Tensor) (strides : Tensor) (input : Shape.t)
  (begin_mask end_mask ellipsis_mask new_axis_mask shrink_axis_mask : Z) : res failure (Result * Shape.t * Shape.t) :=
  let! r := ValidateStridedSliceOp begin_ end_ strides input begin_mask end_mask ellipsis_mask
              new_axis_mask shrink_axis_mask in
  match AsTensorShape (processing_shape (proc r)), AsTensorShape (final_shape r) with
  | Some p, Some f => Ok (r, p, f)
  | _, _ => Err (Status Internal)
  end.

(** ** [StridedSliceAssignBCast] *)
Record BCast := mkBCast {
  valid_ : bool;
  broadcasting_required_ : bool;
  reshape_ : list Z;
  bcast_ : list Z;
  result_shape_ : list Z
}.

(** The loop over the output dimensions. *)
Fixpoint bcast_loop (i : nat) (n : nat) (output_shape : list Z) (b : BCast) : BCast :=
  match n with
  | O => b
  | S n' =>
      let r := nth i (reshape_ b) 0 in
      let o := nth i output_shape 0 in
      if r =? o then
        bcast_loop (S i) n' output_shape
          (mkBCast (valid_ b) (broadcasting_required_ b) (reshape_ b) (<[i := 1]> (bcast_ b)) (result_shape_ b))
      else if r =? 1 then
        bcast_loop (S i) n' output_shape
          (mkBCast (valid_ b) true (reshape_ b) (<[i := o]> (bcast_ b)) (result_shape_ b))
      else mkBCast false (broadcasting_required_ b) (reshape_ b) (bcast_ b) (result_shape_ b)
  end.

(** [StridedSliceAssignBCast::StridedSliceAssignBCast] *)
Definition StridedSliceAssignBCast (input_shape output_shape : list Z) : BCast :=
  let n := length output_shape in
  let zeros := replicate n 0 in
  if (n <? length input_shape)%nat then
    let input_start := (length input_shape - n)%nat in
    if existsb (fun d => negb (d =? 1)) (take input_start input_shape)
    then mkBCast false false zeros zeros output_shape
    else bcast_loop 0 n output_shape (mkBCast true false (drop input_start input_shape) zeros output_shape)
  else
    let prepend_size := (n - length input_shape)%nat in
    bcast_loop 0 n output_shape
      (mkBCast true false (replicate prepend_size 1 ++ input_shape) zeros output_shape).

(** The loop of [RemapDimensions] over the map. *)
Fixpoint remap_loop (l : list (Z * (Z * Z * Z))) (b : BCast) : BCast :=
  match l with
  | [] => b
  | (dim, (r, c, o)) :: l' =>
      remap_loop l'
        (if 0 <=? dim then
           mkBCast (valid_ b) (broadcasting_required_ b) (put dim r (reshape_ b)) (put dim c (bcast_ b))
             (put dim o (result_shape_ b))
         else b)
  end.

(** [StridedSliceAssignBCast::RemapDimensions] *)
Definition RemapDimensions (b : BCast) (num_dims : nat) (dimension_map : list Z) : bool * BCast :=
  if negb (length dimension_map =? length (result_shape_ b))%nat then (false, b)
  else if existsb (fun dim => Z.of_nat num_dims <=? dim) dimension_map then (false, b)
  else
    let ones := replicate num_dims 1 in
    (true, remap_loop (zip dimension_map (zip (zip (reshape_ b) (bcast_ b)) (result_shape_ b)))
             (mkBCast (valid_ b) (broadcasting_required_ b) ones ones ones)).
End Slice.
