(* ===== verification/SliceDense.v ===== *)
(** * The dense specification of a slice

    [BuildDenseSpec] on a specification with both bounds given and a single
    ellipsis gives every input dimension the entry of its sparse index, or
    the whole range for a dimension under the ellipsis, and leaves no
    dimension out. *)

From S2P Require Import Prelude TensorShape StridedSlice.
Import Shape Slice.

(** ** The 32-bit masks of a slice specification

    [1 << i] and the tests and updates of [int32] masks in terms of single
    bits, and the test for at most one ellipsis. *)

Lemma testbit_div (z i : Z) : 0 <= i -> Z.testbit z i = Z.odd (z / 2 ^ i).
Proof. intros Hi. by rewrite Z.testbit_odd, Z.shiftr_div_pow2. Qed.

(** The bits from 31 on of an [int32] are its sign. *)
Lemma sign_bits (m n : Z) : in_i32 m -> 31 <= n -> Z.testbit m n = (m <? 0).
Proof.
  unfold in_i32. intros Hm Hn. rewrite testbit_div by lia.
  assert (2 ^ 31 <= 2 ^ n) by (apply Z.pow_le_mono_r; lia).
  destruct (Z.ltb_spec m 0).
  - replace (m / 2 ^ n) with (-1); [done|]. apply Z.div_unique with (m + 2 ^ n); lia.
  - by rewrite Z.div_small by lia.
Qed.

Lemma shl1_low (i : Z) : 0 <= i < 31 -> shl1 i = 2 ^ i.
Proof.
  intros Hi. unfold shl1. rewrite Z.shiftl_1_l. apply wrap_i32_id. unfold in_i32.
  pose proof (Z.pow_pos_nonneg 2 i). assert (2 ^ i <= 2 ^ 30) by (apply Z.pow_le_mono_r; lia). lia.
Qed.

Lemma shl1_bits (i n : Z) : 0 <= i < 32 -> 0 <= n < 32 -> Z.testbit (shl1 i) n = (i =? n).
Proof.
  intros Hi Hn. destruct (decide (i = 31)) as [->|].
  - change (shl1 31) with (- 2 ^ 31). destruct (Z.eqb_spec 31 n) as [<-|]; [done|].
    rewrite testbit_div by lia. replace (- 2 ^ 31) with (- 2 ^ (31 - n) * 2 ^ n).
    + rewrite Z.div_mul by (apply Z.pow_nonzero; lia). rewrite Z.odd_opp.
      replace (31 - n) with (Z.succ (30 - n)) by lia. rewrite Z.pow_succ_r, Z.odd_mul by lia. done.
    + rewrite Z.mul_opp_l, <- Z.pow_add_r by lia. do 2 f_equal. lia.
  - rewrite shl1_low by lia. apply Z.pow2_bits_eqb. lia.
Qed.

Lemma shl1_range (i : Z) : in_i32 (shl1 i).
Proof. apply wrap_i32_range. Qed.

Lemma low_bits_zero (z : Z) : in_i32 z -> (forall n, 0 <= n < 32 -> Z.testbit z n = false) -> z = 0.
Proof.
  intros Hz H. apply Z.bits_inj'. intros n Hn. rewrite Z.bits_0.
  destruct (decide (n < 32)); [apply H; lia|]. rewrite sign_bits by (done || lia).
  rewrite <- (sign_bits z 31) by (done || lia). apply H. lia.
Qed.

Lemma land_range (m b : Z) : in_i32 m -> in_i32 b -> in_i32 (Z.land m b).
Proof.
  unfold in_i32. intros Hm Hb.
  assert (forall z, - 2 ^ 31 <= z < 2 ^ 31 <-> z / 2 ^ 31 = 0 \/ z / 2 ^ 31 = -1) as Hr by (intros z; dlia).
  apply Hr. rewrite <- Z.shiftr_div_pow2, Z.shiftr_land, !Z.shiftr_div_pow2 by lia.
  apply Hr in Hm, Hb. destruct Hm as [->| ->], Hb as [->| ->]; auto.
Qed.

Lemma lor_range (m b : Z) : in_i32 m -> in_i32 b -> in_i32 (Z.lor m b).
Proof.
  unfold in_i32. intros Hm Hb.
  assert (forall z, - 2 ^ 31 <= z < 2 ^ 31 <-> z / 2 ^ 31 = 0 \/ z / 2 ^ 31 = -1) as Hr by (intros z; dlia).
  apply Hr. rewrite <- Z.shiftr_div_pow2, Z.shiftr_lor, !Z.shiftr_div_pow2 by lia.
  apply Hr in Hm, Hb. destruct Hm as [->| ->], Hb as [->| ->]; auto.
Qed.

(** [mask & (1 << i)] tests bit [i]. *)
Lemma has_testbit (m i : Z) : in_i32 m -> 0 <= i < 32 -> has m i = Z.testbit m i.
Proof.
  intros Hm Hi. unfold has. destruct (Z.testbit m i) eqn:E.
  - apply negb_true_iff, Z.eqb_neq. intros H. apply (f_equal (fun z => Z.testbit z i)) in H.
    rewrite Z.land_spec, E, shl1_bits, Z.eqb_refl, Z.bits_0 in H by lia. done.
  - apply negb_false_iff, Z.eqb_eq, low_bits_zero; [apply land_range; [done|apply shl1_range]|].
    intros n Hn. rewrite Z.land_spec, shl1_bits by lia. destruct (Z.eqb_spec i n) as [<-|]; [by rewrite E|].
    apply andb_false_r.
Qed.

Lemma set_range (m f : Z) : in_i32 m -> in_i32 (Z.lor m (shl1 f)).
Proof. intros Hm. apply lor_range; [done|apply shl1_range]. Qed.

(** [mask |= (1 << f)] sets bit [f] and no other. *)
Lemma has_set (m f i : Z) :
  in_i32 m -> 0 <= f < 32 -> 0 <= i < 32 -> has (Z.lor m (shl1 f)) i = has m i || (f =? i).
Proof.
  intros Hm Hf Hi. rewrite !has_testbit by (done || by apply set_range).
  by rewrite Z.lor_spec, shl1_bits by lia.
Qed.

Lemma has_zero (i : Z) : has 0 i = false.
Proof. done. Qed.

Lemma wrap_i32_bits (z n : Z) : 0 <= n < 32 -> Z.testbit (wrap_i32 z) n = Z.testbit z n.
Proof.
  intros Hn. rewrite <- (Z.mod_pow2_bits_low z 32), <- (Z.mod_pow2_bits_low (wrap_i32 z) 32) by lia.
  f_equal. unfold wrap_i32. rewrite Zminus_mod_idemp_l. f_equal. lia.
Qed.

(** Subtracting one from a number with a lower bit set keeps a bit. *)
Lemma pred_keeps_bit (m e k : Z) :
  0 <= e < k -> Z.testbit m e = true -> Z.testbit (m - 1) k = Z.testbit m k.
Proof.
  intros He Hb. rewrite !testbit_div by lia. f_equal.
  assert (m mod 2 ^ k <> 0) as Hne.
  { intros H. rewrite <- (Z.mod_pow2_bits_low m k) in Hb by lia. by rewrite H, Z.bits_0 in Hb. }
  pose proof (Z.pow_pos_nonneg 2 k ltac:(lia) ltac:(lia)) as Hpos.
  pose proof (Z.mod_pos_bound m (2 ^ k) Hpos). pose proof (Z.div_mod m (2 ^ k) ltac:(lia)).
  symmetry. apply Z.div_unique with (m mod 2 ^ k - 1); lia.
Qed.

(** The test for at most one ellipsis. *)
Lemma one_ellipsis (m i j : Z) :
  in_i32 m -> (m =? 0) || (Z.land m (wrap_i32 (m - 1)) =? 0) = true ->
  0 <= i < 32 -> 0 <= j < 32 -> has m i = true -> has m j = true -> i = j.
Proof.
  intros Hm H Hi Hj. rewrite !has_testbit by done. intros Hbi Hbj.
  assert (forall a b, 0 <= a < b -> b < 32 -> Z.testbit m a = true -> Z.testbit m b = true -> False) as Hlt.
  { intros a b Hab Hb Ha Hbb. apply orb_true_iff in H as [H|H]; apply Z.eqb_eq in H; [by rewrite H, Z.bits_0 in Ha|].
    apply (f_equal (fun z => Z.testbit z b)) in H.
    rewrite Z.land_spec, wrap_i32_bits, (pred_keeps_bit m a b), Hbb, Z.bits_0 in H by (done || lia). done. }
  destruct (Z.lt_trichotomy i j) as [Hl|[Hl|Hl]]; [|done|]; exfalso.
  - by apply (Hlt i j); [lia|lia| |].
  - by apply (Hlt j i); [lia|lia| |].
Qed.

Lemma get_put_eq (i v : Z) (l : list Z) : 0 <= i < Z.of_nat (length l) -> get i (put i v l) = v.
Proof.
  intros Hi. unfold get, put. apply nth_lookup_Some. apply list_lookup_insert_eq. lia.
Qed.

Lemma get_put_ne (i j v : Z) (l : list Z) : 0 <= i -> 0 <= j -> i <> j -> get i (put j v l) = get i l.
Proof.
  intros Hi Hj Hn. unfold get, put. rewrite !nth_lookup. rewrite list_lookup_insert_ne by lia. done.
Qed.

Lemma length_put (i v : Z) (l : list Z) : length (put i v l) = length l.
Proof. apply length_insert. Qed.

Lemma take_put (l : list Z) (i : nat) (v : Z) :
  (i < length l)%nat -> take (S i) (put (Z.of_nat i) v l) = take i l ++ [v].
Proof.
  intros Hi. unfold put. rewrite Nat2Z.id. rewrite insert_take_drop by done.
  rewrite take_app_ge by (rewrite length_take; lia).
  rewrite length_take. replace (S i - i `min` length l)%nat with 1%nat by lia. by rewrite firstn_cons, take_0.
Qed.

Lemma bit_ok (i : Z) : 0 <= i < 32 -> bit i = Ok (shl1 i).
Proof. intros Hi. unfold bit. rewrite (proj2 (Z.leb_le _ _)), (proj2 (Z.ltb_lt _ _)) by lia. done. Qed.

(** ** The search for the ellipsis *)

(** The number of new axes among the [n] entries from [i] on. *)
Fixpoint axes (nm i : Z) (n : nat) : Z :=
  match n with O => 0 | S n' => (if has nm i then 1 else 0) + axes nm (i + 1) n' end.

Lemma axes_bound (nm : Z) (n : nat) (i : Z) : 0 <= axes nm i n <= Z.of_nat n.
Proof. revert i. induction n as [|n IH]; intros i; cbn [axes]; [lia|]. specialize (IH (i + 1)). case_if; lia. Qed.

Lemma find_none (em nm : Z) (n : nat) (i num : Z) (seen : bool) :
  0 <= i -> i + Z.of_nat n <= 32 -> (forall k, i <= k < i + Z.of_nat n -> has em k = false) ->
  find_ellipsis em nm i n seen num = Ok (seen, if seen then num + axes nm i n else num).
Proof.
  revert i num. induction n as [|n IH]; intros i num Hi Hn He; cbn [find_ellipsis axes].
  - destruct seen; do 2 f_equal; lia.
  - rewrite bit_ok by lia. cbn [res_bind]. rewrite (He i), orb_false_r by lia.
    rewrite IH by (lia || intros k Hk; apply He; lia). do 2 f_equal. destruct seen; [|done]. cbn [andb]. case_if; lia.
Qed.

Lemma find_at (em nm : Z) (n : nat) (i e num : Z) :
  0 <= i <= e -> e < i + Z.of_nat n -> i + Z.of_nat n <= 32 ->
  (forall k, i <= k < i + Z.of_nat n -> has em k = (k =? e)) ->
  find_ellipsis em nm i n false num = Ok (true, num + axes nm (e + 1) (Z.to_nat (i + Z.of_nat n - (e + 1)))).
Proof.
  revert i num. induction n as [|n IH]; intros i num Hi He Hn Hk; [lia|]. cbn [find_ellipsis andb orb].
  rewrite bit_ok by lia. cbn [res_bind]. rewrite (Hk i) by lia. destruct (Z.eqb_spec i e) as [->|Hne].
  - rewrite find_none; [|lia|lia|].
    + do 3 f_equal. f_equal. lia.
    + intros k Hr. rewrite Hk by lia. apply Z.eqb_neq. lia.
  - rewrite IH by (lia || intros k Hr; apply Hk; lia). do 4 f_equal. lia.
Qed.

(** The sparse specification that [BuildDenseSpec] gets has exactly one ellipsis. *)
Lemma sparse_spec_ok (b e : option Tensor) (st : Tensor) (bm em ell nm sm : Z) :
  NumElements st < 32 -> in_i32 ell -> (ell =? 0) || (Z.land ell (wrap_i32 (ell - 1)) =? 0) = true ->
  exists s k, sparse_spec b e st bm em ell nm sm = Ok s /\
    0 <= k < s_dims s /\ s_dims s <= 32 /\
    s_dims s = (if k <? NumElements st then NumElements st else NumElements st + 1) /\
    k <= NumElements st /\ (forall j, 0 <= j < NumElements st -> has ell j = (j =? k)) /\
    (forall j, 0 <= j < s_dims s -> has (s_ellipsis_mask s) j = (j =? k)) /\
    num_add_axis_after_ellipsis s = axes nm (k + 1) (Z.to_nat (s_dims s - (k + 1))) /\
    s_begin s = b /\ s_end s = e /\ s_strides s = st /\
    s_begin_mask s = bm /\ s_end_mask s = em /\ s_new_axis_mask s = nm /\ s_shrink_axis_mask s = sm.
Proof.
  intros Hn Hell Hone. unfold sparse_spec. cbn zeta. pose proof (Nat2Z.is_nonneg (length (t_flat st))) as Hpos.
  fold (NumElements st) in Hpos. set (n := NumElements st) in *.
  destruct (decide (Exists (fun k => has ell k = true) (seqZ 0 n))) as [Hex|Hex].
  - apply list.Exists_exists in Hex as (k & Hk%elem_of_seqZ & Hb).
    assert (forall j, 0 <= j < n -> has ell j = (j =? k)) as Huniq.
    { intros j Hj. destruct (Z.eqb_spec j k) as [->|Hne]; [done|]. apply not_true_iff_false. intros Hjb.
      apply Hne, (one_ellipsis ell j k Hell Hone); done || lia. }
    rewrite (find_at ell nm (Z.to_nat n) 0 k 0) by (lia || intros j Hj; apply Huniq; lia). cbn [res_bind].
    eexists _, k. split; [reflexivity|]. cbn [s_dims s_ellipsis_mask num_add_axis_after_ellipsis].
    rewrite (proj2 (Z.ltb_lt k n)) by lia. repeat split; try done; try lia.
    rewrite Z.add_0_l. do 2 f_equal. lia.
  - assert (forall j, 0 <= j < n -> has ell j = false) as Hno.
    { intros j Hj. apply not_true_iff_false. intros Hjb. apply Hex, list.Exists_exists.
      exists j. split; [|done]. apply elem_of_seqZ. lia. }
    rewrite find_none by (lia || intros k Hk; apply Hno; lia). cbn [res_bind]. rewrite bit_ok by lia. cbn [res_bind].
    eexists _, n. split; [reflexivity|]. cbn [s_dims s_ellipsis_mask num_add_axis_after_ellipsis].
    rewrite Z.ltb_irrefl. repeat split; try done; try lia.
    + intros j Hj. rewrite Hno by lia. symmetry. apply Z.eqb_neq. lia.
    + intros j Hj. rewrite has_set by (done || lia). destruct (Z.eqb_spec n j) as [->|Hne].
      * by rewrite orb_true_r, Z.eqb_refl.
      * rewrite Hno by lia. symmetry. apply Z.eqb_neq. lia.
    + replace (n + 1 - (n + 1)) with 0 by lia. done.
Qed.

Section Dense.
Context (s : Sparse) (dims : Z) (bl el ss : list Z).
Context (Hdims : 0 <= dims <= 32) (Hs : 0 <= s_dims s <= 32).

(** The entry for the next input dimension, all fields at once. *)
Definition push (j vb ve vs : Z) (cb ce cs : bool) (g gs : Z) (d : Dense) : Dense :=
  let f := full_index d in
  let set (c : bool) (m : Z) := if c then Z.lor m (shl1 f) else m in
  mkDense (f + 1) (set cb (d_begin_mask d)) (set ce (d_end_mask d))
    (put f vb (d_begin d)) (put f ve (d_end d)) (put f vs (d_strides d))
    (final_shape_gather_indices d ++ [g]) (final_shape_gather_indices_sparse d ++ [gs])
    (put f j (input_shape_gather_indices_sparse d)) (set cs (d_shrink_axis_mask d)).

(** Dimension [f] has the entry of its sparse index. *)
Definition entry (d : Dense) (f : Z) : Prop :=
  let j := get f (input_shape_gather_indices_sparse d) in
  0 <= j < s_dims s /\
  if has (s_ellipsis_mask s) j then
    get f (d_begin d) = 0 /\ get f (d_end d) = 0 /\ get f (d_strides d) = 1 /\
    has (d_begin_mask d) f = true /\ has (d_end_mask d) f = true /\ has (d_shrink_axis_mask d) f = false
  else
    has (s_new_axis_mask s) j = false /\
    get f (d_begin d) = get j bl /\ get f (d_end d) = get j el /\ get f (d_strides d) = get j ss /\
    has (d_begin_mask d) f = has (s_begin_mask s) j /\ has (d_end_mask d) f = has (s_end_mask s) j /\
    has (d_shrink_axis_mask d) f = has (s_shrink_axis_mask s) j.

Record inv (i : Z) (d : Dense) : Prop := {
  inv_full : 0 <= full_index d <= dims;
  inv_begin : Z.of_nat (length (d_begin d)) = dims;
  inv_end : Z.of_nat (length (d_end d)) = dims;
  inv_strides : Z.of_nat (length (d_strides d)) = dims;
  inv_input : Z.of_nat (length (input_shape_gather_indices_sparse d)) = dims;
  inv_range : in_i32 (d_begin_mask d) /\ in_i32 (d_end_mask d) /\ in_i32 (d_shrink_axis_mask d);
  inv_unset : forall f, full_index d <= f < 32 ->
    has (d_begin_mask d) f = false /\ has (d_end_mask d) f = false /\ has (d_shrink_axis_mask d) f = false;
  inv_entry : forall f, 0 <= f < full_index d -> entry d f;
  inv_gather : filter (fun g => 0 <= g) (final_shape_gather_indices d) =
    filter (fun f => has (d_shrink_axis_mask d) f = false) (seqZ 0 (full_index d));
  inv_gather_range : Forall (fun g => g < full_index d) (final_shape_gather_indices d);
  inv_gather_length : length (final_shape_gather_indices d) = length (final_shape_gather_indices_sparse d);
  inv_gather_bound : Z.of_nat (length (final_shape_gather_indices d)) <= full_index d + i
}.

(** A conditional [|=] of bit [f] reads back at every bit. *)
Lemma has_cond (c : bool) (m f k : Z) :
  in_i32 m -> 0 <= f < 32 -> 0 <= k < 32 -> has m f = false ->
  has (if c then Z.lor m (shl1 f) else m) k = if f =? k then c else has m k.
Proof.
  intros Hm Hf Hk Hz. destruct c.
  - rewrite has_set by done. destruct (f =? k); [apply orb_true_r|apply orb_false_r].
  - destruct (Z.eqb_spec f k) as [<-|]; done.
Qed.

Lemma cond_range (c : bool) (m f : Z) : in_i32 m -> in_i32 (if c then Z.lor m (shl1 f) else m).
Proof. intros Hm. destruct c; [by apply set_range|done]. Qed.

(** What the masks of the new entry are. *)
Lemma push_masks (j vb ve vs g gs : Z) (cb ce cs : bool) (i : Z) (d : Dense) (k : Z) :
  inv i d -> full_index d < dims -> 0 <= k < 32 ->
  let d' := push j vb ve vs cb ce cs g gs d in
  let at_ (c : bool) (m : Z) := if full_index d =? k then c else has m k in
  has (d_begin_mask d') k = at_ cb (d_begin_mask d) /\ has (d_end_mask d') k = at_ ce (d_end_mask d) /\
  has (d_shrink_axis_mask d') k = at_ cs (d_shrink_axis_mask d).
Proof.
  intros H Hf Hk. pose proof (inv_range i d H) as (H1 & H2 & H3). pose proof (inv_full i d H).
  destruct (inv_unset i d H (full_index d)) as (U1 & U2 & U3); [lia|].
  cbn. by rewrite !has_cond by (done || lia).
Qed.

Lemma push_old (j vb ve vs g gs : Z) (cb ce cs : bool) (i : Z) (d : Dense) (f : Z) :
  inv i d -> full_index d < dims -> 0 <= f < full_index d ->
  entry (push j vb ve vs cb ce cs g gs d) f.
Proof.
  intros H Hf Hr. pose proof (inv_entry i d H f Hr) as He.
  destruct (push_masks j vb ve vs g gs cb ce cs i d f H Hf) as (M1 & M2 & M3); [lia|].
  unfold entry in *. rewrite M1, M2, M3, (proj2 (Z.eqb_neq _ _)) by lia. cbn [push input_shape_gather_indices_sparse d_begin d_end d_strides].
  by rewrite !get_put_ne by lia.
Qed.

Lemma push_inv (j vb ve vs g gs : Z) (cb ce cs : bool) (i : Z) (d : Dense) :
  inv i d -> full_index d < dims ->
  entry (push j vb ve vs cb ce cs g gs d) (full_index d) ->
  g = (if cs then kShrinkAxis else full_index d) -> inv i (push j vb ve vs cb ce cs g gs d).
Proof.
  intros H Hf He Hg. pose proof H as [A1 A2 A3 A4 A5 (R1 & R2 & R3) A7 A8 A9 A10 A11 A12].
  pose proof (fun k => push_masks j vb ve vs g gs cb ce cs i d k H Hf) as HM. cbn zeta in HM.
  split; rewrite ?length_put; try done.
  - cbn. lia.
  - cbn [push d_begin]. by rewrite length_put.
  - cbn [push d_end]. by rewrite length_put.
  - cbn [push d_strides]. by rewrite length_put.
  - cbn [push input_shape_gather_indices_sparse]. by rewrite length_put.
  - cbn. repeat split; by apply cond_range.
  - intros f Hr. cbn [push full_index] in Hr. destruct (HM f) as (M1 & M2 & M3); [lia|].
    rewrite M1, M2, M3, (proj2 (Z.eqb_neq _ _)) by lia. apply A7. lia.
  - intros f Hr. cbn [push full_index] in Hr. destruct (decide (f = full_index d)) as [->|]; [done|].
    apply (push_old j vb ve vs g gs cb ce cs i d f H Hf). lia.
  - change (full_index (push j vb ve vs cb ce cs g gs d)) with (full_index d + 1).
    rewrite seqZ_snoc, Z.add_0_l, filter_app by lia. cbn [push final_shape_gather_indices]. rewrite filter_app.
    f_equal.
    + rewrite A9. apply filter_strong. intros f Hr%elem_of_seqZ. destruct (HM f) as (_ & _ & M3); [lia|].
      by rewrite M3, (proj2 (Z.eqb_neq _ _)) by lia.
    + destruct (HM (full_index d)) as (_ & _ & M3); [lia|]. rewrite Z.eqb_refl in M3.
      rewrite !filter_cons, !filter_nil. rewrite Hg. destruct cs; unfold kShrinkAxis.
      * rewrite decide_False by lia. rewrite decide_False; [done|].
        intros Hx. enough (true = false) by done. rewrite <- M3. exact Hx.
      * rewrite decide_True by lia. rewrite decide_True; [done|exact M3].
  - cbn [push final_shape_gather_indices full_index]. apply list.Forall_app. split.
    + refine (list.Forall_impl _ _ _ A10 _). intros x Hx. lia.
    + apply list.Forall_singleton. rewrite Hg. destruct cs; unfold kShrinkAxis; lia.
  - cbn [push final_shape_gather_indices final_shape_gather_indices_sparse]. rewrite !length_app. cbn. lia.
  - cbn [push final_shape_gather_indices full_index]. rewrite !length_app. cbn [length]. lia.
Qed.

(** The sparse indices of the dimensions so far. *)
Definition mapping (d : Dense) : list Z := take (Z.to_nat (full_index d)) (input_shape_gather_indices_sparse d).

Lemma push_mapping (j vb ve vs g gs : Z) (cb ce cs : bool) (i : Z) (d : Dense) :
  inv i d -> full_index d < dims -> mapping (push j vb ve vs cb ce cs g gs d) = mapping d ++ [j].
Proof.
  intros H Hf. pose proof (inv_full i d H). pose proof (inv_input i d H). unfold mapping.
  cbn [push full_index input_shape_gather_indices_sparse].
  replace (Z.to_nat (full_index d + 1)) with (S (Z.to_nat (full_index d))) by lia.
  rewrite <- (Z2Nat.id (full_index d)) at 2 by lia. apply take_put. lia.
Qed.

Lemma inv_next (i : Z) (d : Dense) : inv i d -> inv (i + 1) d.
Proof. intros [A1 A2 A3 A4 A5 A6 A7 A8 A9 A10 A11 A12]. split; try done. lia. Qed.

Lemma new_axis_inv (i : Z) (d : Dense) : inv i d -> inv (i + 1) (new_axis d).
Proof.
  intros [A1 A2 A3 A4 A5 A6 A7 A8 A9 A10 A11 A12].
  split; cbn [new_axis full_index d_begin_mask d_end_mask d_begin d_end d_strides final_shape_gather_indices
    final_shape_gather_indices_sparse input_shape_gather_indices_sparse d_shrink_axis_mask]; try done.
  - rewrite filter_app, A9, filter_cons, filter_nil. rewrite decide_False by (unfold kNewAxis; lia).
    apply app_nil_r.
  - apply list.Forall_app. split; [done|]. apply list.Forall_singleton. unfold kNewAxis. lia.
  - rewrite !length_app. cbn. lia.
  - rewrite length_app. cbn [length]. lia.
Qed.

(** The ellipsis at index [i] covers the dimensions up to the next index. *)
Lemma expand_inv (i : Z) (n : nat) (d : Dense) (k : Z) :
  0 <= i < s_dims s -> has (s_ellipsis_mask s) i = true -> inv k d -> full_index d + Z.of_nat n <= dims ->
  exists d', expand i n d = Ok d' /\ inv k d' /\ full_index d' = full_index d + Z.of_nat n /\
    mapping d' = mapping d ++ replicate n i.
Proof.
  intros Hi He. revert d. induction n as [|n IH]; intros d H Hn.
  - exists d. split; [done|]. split; [done|]. split; [lia|]. by rewrite app_nil_r.
  - cbn [expand]. unfold expand_one at 1. pose proof (inv_full k d H).
    rewrite bit_ok by lia. cbn [res_bind].
    change (mkDense _ _ _ _ _ _ _ _ _ _) with (push i 0 0 1 true true false (full_index d) (-1) d).
    assert (inv k (push i 0 0 1 true true false (full_index d) (-1) d)) as H'.
    { apply push_inv; [done|lia| |done].
      destruct (push_masks i 0 0 1 (full_index d) (-1) true true false k d (full_index d) H) as (M1 & M2 & M3); [lia|lia|].
      unfold entry. rewrite M1, M2, M3, Z.eqb_refl. destruct H as [_ A2 A3 A4 A5 _ _ _ _ _ _ _].
      cbn [push input_shape_gather_indices_sparse d_begin d_end d_strides]. rewrite !get_put_eq by lia. by rewrite He. }
    destruct (IH _ H') as (d' & E & Hd & Hf & Hm); [cbn [push full_index]; lia|].
    exists d'. split; [done|]. split; [done|]. split; [rewrite Hf; cbn [push full_index]; lia|].
    rewrite Hm, (push_mapping i _ _ _ _ _ _ _ _ k d H) by lia. by rewrite <- app_assoc.
Qed.

(** An index or a range takes the next dimension, if there is one. *)
Lemma gather_inv (i : Z) (d : Dense) :
  0 <= i < s_dims s -> has (s_ellipsis_mask s) i = false -> has (s_new_axis_mask s) i = false -> inv i d ->
  match gather s (Some bl) (Some el) ss i d with
  | Ok d' => inv (i + 1) d' /\ full_index d' = full_index d + 1 /\ mapping d' = mapping d ++ [i]
  | Err e => e = Status InvalidArgument /\ full_index d = dims
  end.
Proof.
  intros Hi He Hn H. pose proof (inv_full i d H) as Hf. unfold gather. rewrite (inv_begin i d H).
  destruct (Z.eqb_spec (full_index d) dims) as [Hd|Hd]; cbn [negb]; [done|].
  unfold set_bit. rewrite bit_ok by lia.
  set (cb := has (s_begin_mask s) i). set (ce := has (s_end_mask s) i). set (cs := has (s_shrink_axis_mask s) i).
  set (g := if cs then kShrinkAxis else full_index d). set (gs := if cs then -1 else i).
  assert (forall c m, (if c : bool then res_bind (Ok (shl1 (full_index d))) (fun b => Ok (Z.lor m b)) else Ok m)
                      = Ok (E := failure) (if c then Z.lor m (shl1 (full_index d)) else m)) as Hset by (by intros []).
  rewrite !Hset. cbn [res_bind].
  change (mkDense _ _ _ _ _ _ _ _ _ _) with (push i (get i bl) (get i el) (get i ss) cb ce cs g gs d).
  split; [|split; [done|apply (push_mapping i _ _ _ _ _ _ _ _ i d H); lia]]. apply inv_next, push_inv; [done|lia| |done].
  destruct (push_masks i (get i bl) (get i el) (get i ss) g gs cb ce cs i d (full_index d) H) as (M1 & M2 & M3); [lia|lia|].
  unfold entry. rewrite M1, M2, M3, Z.eqb_refl. destruct H as [_ A2 A3 A4 A5 _ _ _ _ _ _ _].
  cbn [push input_shape_gather_indices_sparse d_begin d_end d_strides]. rewrite !get_put_eq by lia. by rewrite He.
Qed.

(** ** The whole loop *)

(** The entries from [i] on that take an input dimension. *)
Definition taken (i n : Z) : list Z := filter (fun k => has (s_new_axis_mask s) k = false) (seqZ i n).

Lemma taken_cons (i : Z) (n : nat) :
  taken i (Z.of_nat (S n)) =
  (if has (s_new_axis_mask s) i then [] else [i]) ++ taken (i + 1) (Z.of_nat n).
Proof.
  unfold taken. rewrite seqZ_cons, filter_cons by lia.
  replace (Z.pred (Z.of_nat (S n))) with (Z.of_nat n) by lia.
  destruct (has (s_new_axis_mask s) i); [by rewrite decide_False by done|by rewrite decide_True].
Qed.

(** After the ellipsis, the entries that are left reach the last dimension. *)
Lemma build_tail (n : nat) (i : Z) (d : Dense) :
  0 <= i -> i + Z.of_nat n = s_dims s ->
  (forall k, i <= k < s_dims s -> has (s_ellipsis_mask s) k = false) ->
  inv i d -> dims - Z.of_nat n + axes (s_new_axis_mask s) i n <= full_index d ->
  match build_loop s dims (Some bl) (Some el) ss i n d with
  | Ok d' => inv (s_dims s) d' /\ full_index d' = dims /\ mapping d' = mapping d ++ taken i (Z.of_nat n)
  | Err e => e = Status InvalidArgument
  end.
Proof.
  revert i d. induction n as [|n IH]; intros i d Hi Hn He H Hf; cbn [build_loop axes] in *.
  - pose proof (inv_full i d H). replace (s_dims s) with i by lia. split; [done|]. split; [lia|].
    symmetry. apply app_nil_r.
  - unfold build_step. rewrite bit_ok by lia. cbn [res_bind]. rewrite (He i) by lia. rewrite taken_cons.
    destruct (has (s_new_axis_mask s) i) eqn:En; cbn [res_bind app].
    + apply (IH (i + 1) (new_axis d)); [lia|lia|intros k Hk; apply He; lia|by apply new_axis_inv|].
      cbn [new_axis full_index]. lia.
    + pose proof (gather_inv i d ltac:(lia) (He i ltac:(lia)) En H) as Hg.
      destruct (gather s (Some bl) (Some el) ss i d) as [d'|e]; cbn [res_bind]; [|apply Hg].
      destruct Hg as (H' & Hf' & Hm). rewrite (cons_middle i), app_assoc, <- Hm.
      apply IH; [lia|lia|intros k Hk; apply He; lia|done|lia].
Qed.

(** The loop up to the ellipsis at [e] and beyond. *)
Lemma build_loop_ok (n : nat) (i e : Z) (d : Dense) :
  0 <= i <= e -> e < s_dims s -> i + Z.of_nat n = s_dims s ->
  (forall k, 0 <= k < s_dims s -> has (s_ellipsis_mask s) k = (k =? e)) ->
  num_add_axis_after_ellipsis s = axes (s_new_axis_mask s) (e + 1) (Z.to_nat (s_dims s - (e + 1))) ->
  inv i d ->
  match build_loop s dims (Some bl) (Some el) ss i n d with
  | Ok d' => inv (s_dims s) d' /\ full_index d' = dims /\
      exists m, mapping d' = mapping d ++ taken i (e - i) ++ replicate m e ++ taken (e + 1) (s_dims s - (e + 1))
  | Err e => e = Status InvalidArgument
  end.
Proof.
  intros Hi He Hn Hell Hadd. revert i d Hi Hn. induction n as [|n IH]; intros i d Hi Hn H; [lia|].
  cbn [build_loop]. unfold build_step. rewrite bit_ok by lia. cbn [res_bind]. rewrite (Hell i) by lia.
  destruct (Z.eqb_spec i e) as [->|Hne].
  - cbn zeta. pose proof (inv_full e d H) as Hf.
    pose proof (axes_bound (s_new_axis_mask s) (Z.to_nat (s_dims s - (e + 1))) (e + 1)).
    set (next := Z.min (dims - (s_dims s - e) + 1 + num_add_axis_after_ellipsis s) dims).
    destruct (expand_inv e (Z.to_nat (next - full_index d)) d e) as (d' & Ed & Hd & Hf' & Hm);
      [lia|rewrite Hell by lia; apply Z.eqb_refl|done|lia|].
    rewrite Ed. cbn [res_bind]. replace (s_dims s - (e + 1)) with (Z.of_nat n) in * by lia. rewrite Nat2Z.id in *.
    pose proof (build_tail n (e + 1) d' ltac:(lia) ltac:(lia)) as Ht.
    destruct (build_loop s dims (Some bl) (Some el) ss (e + 1) n d') as [d''|]; cycle 1.
    { apply Ht; [|by apply inv_next|lia]. intros k Hk. rewrite Hell by lia. apply Z.eqb_neq. lia. }
    destruct Ht as (T1 & T2 & T3); [|by apply inv_next|lia|].
    { intros k Hk. rewrite Hell by lia. apply Z.eqb_neq. lia. }
    split; [done|]. split; [done|]. exists (Z.to_nat (next - full_index d)).
    rewrite T3, Hm, <- app_assoc, Z.sub_diag. done.
  - replace (e - i) with (Z.of_nat (S (Z.to_nat (e - (i + 1))))) by lia. rewrite taken_cons.
    replace (Z.of_nat (Z.to_nat (e - (i + 1)))) with (e - (i + 1)) by lia.
    destruct (has (s_new_axis_mask s) i) eqn:En; cbn [res_bind app].
    + apply (IH (i + 1) (new_axis d)); [lia|lia|by apply new_axis_inv].
    + pose proof (gather_inv i d ltac:(lia) ltac:(rewrite Hell by lia; by apply Z.eqb_neq) En H) as Hg.
      destruct (gather s (Some bl) (Some el) ss i d) as [d'|e']; cbn [res_bind]; [|apply Hg].
      destruct Hg as (H' & _ & Hm). specialize (IH (i + 1) d' ltac:(lia) ltac:(lia) H').
      destruct (build_loop s dims (Some bl) (Some el) ss (i + 1) n d') as [d''|]; [|done].
      destruct IH as (I1 & I2 & m & I3). split; [done|]. split; [done|]. exists m. rewrite I3, Hm.
      by rewrite <- app_assoc.
Qed.

Lemma start_inv : inv 0 (mkDense 0 0 0 (replicate (Z.to_nat dims) 0) (replicate (Z.to_nat dims) 0)
                           (replicate (Z.to_nat dims) 0) [] [] (replicate (Z.to_nat dims) 0) 0).
Proof.
  split; cbn [full_index d_begin_mask d_end_mask d_begin d_end d_strides final_shape_gather_indices
    final_shape_gather_indices_sparse input_shape_gather_indices_sparse d_shrink_axis_mask];
    rewrite ?length_replicate; try done; try lia.
Qed.
End Dense.
