(* ===== verification/SliceSpec.v ===== *)
(** * Strided slices select what Python slices select

    The specification of one dimension is the Python [slice]: its [indices]
    method gives the bounds, the positions are those of the [range].  The
    loop of [ValidateStridedSliceOp] computes it for every dimension and the
    shape of the result. *)

From S2P Require Import Prelude TensorShape ShapeSpec ShapeTheorems StridedSlice SliceDense.
Import Shape Slice.

(** ** Python slices of a sequence of [len] elements *)

(** [slice(start, stop, step).indices(len)]; [None] is an omitted bound. *)
Definition py_start (len : Z) (start : option Z) (step : Z) : Z :=
  match start with
  | None => if step <? 0 then len - 1 else 0
  | Some x =>
      if x <? 0 then (if x + len <? 0 then (if step <? 0 then -1 else 0) else x + len)
      else if len <=? x then (if step <? 0 then len - 1 else len) else x
  end.
Definition py_stop (len : Z) (stop : option Z) (step : Z) : Z :=
  match stop with
  | None => if step <? 0 then -1 else len
  | Some x =>
      if x <? 0 then (if x + len <? 0 then (if step <? 0 then -1 else 0) else x + len)
      else if len <=? x then (if step <? 0 then len - 1 else len) else x
  end.

(** [len(range(start, stop, step))] *)
Definition py_len (start stop step : Z) : Z :=
  if step <? 0 then (if stop <? start then (start - stop - 1) / (- step) + 1 else 0)
  else (if start <? stop then (stop - start - 1) / step + 1 else 0).

Lemma canonical_start (stride dim x : Z) (masked : bool) :
  stride <> 0 -> 0 <= dim ->
  canonical stride dim masked x 0 = py_start dim (if masked then None else Some x) stride.
Proof.
  intros Hs Hd. unfold canonical, valid_range, py_start. change (Z.land (0 + 1) 1) with 1.
  change (0 =? 0) with true. change (1 =? 0) with false. cbn match.
  destruct (Z.ltb_spec stride 0), (Z.ltb_spec 0 stride); try lia; destruct masked; try lia; cbn zeta;
    destruct (Z.ltb_spec x 0); repeat case_if; lia.
Qed.

Lemma canonical_stop (stride dim x : Z) (masked : bool) :
  stride <> 0 -> 0 <= dim ->
  canonical stride dim masked x 1 = py_stop dim (if masked then None else Some x) stride.
Proof.
  intros Hs Hd. unfold canonical, valid_range, py_stop. change (Z.land (1 + 1) 1) with 0.
  change (0 =? 0) with true. change (1 =? 0) with false. cbn match.
  destruct (Z.ltb_spec stride 0), (Z.ltb_spec 0 stride); try lia; destruct masked; try lia; cbn zeta;
    destruct (Z.ltb_spec x 0); repeat case_if; lia.
Qed.

(** Rounding a quotient up. *)
Lemma ceil_div (x s : Z) : 0 < x -> 0 < s -> Z.quot x s + (if Z.rem x s =? 0 then 0 else 1) = (x - 1) / s + 1.
Proof.
  intros Hx Hs. rewrite Z.quot_div_nonneg, Z.rem_mod_nonneg by lia.
  pose proof (Z.div_mod x s ltac:(lia)). pose proof (Z.mod_pos_bound x s ltac:(lia)).
  case_if.
  - rewrite Z.add_0_r. assert ((x - 1) / s = x / s - 1); [|lia].
    symmetry. apply Z.div_unique with (s - 1); lia.
  - f_equal. apply Z.div_unique with (x mod s - 1); lia.
Qed.

Lemma interval_size_py (b e stride : Z) :
  stride <> 0 -> interval_size (e - b) stride = py_len b e stride.
Proof.
  intros Hs. unfold interval_size, py_len.
  destruct (Z.ltb_spec stride 0) as [Hn|Hn].
  - destruct (Z.ltb_spec e b).
    + rewrite (proj2 (Z.eqb_neq _ _)), (proj2 (Z.ltb_lt (e - b) 0)) by lia. cbn [orb Bool.eqb negb].
      replace (e - b) with (- (b - e)) by lia. replace stride with (- - stride) at 1 2 by lia.
      rewrite Z.quot_opp_opp, Z.rem_opp_opp by lia.
      rewrite <- ceil_div by lia. repeat case_if; lia.
    + destruct (Z.eqb_spec (e - b) 0); [done|]. rewrite (proj2 (Z.ltb_ge (e - b) 0)) by lia. done.
  - destruct (Z.ltb_spec b e).
    + rewrite (proj2 (Z.eqb_neq _ _)), (proj2 (Z.ltb_ge (e - b) 0)) by lia. cbn [orb Bool.eqb negb].
      rewrite <- ceil_div by lia. done.
    + destruct (Z.eqb_spec (e - b) 0); [done|]. rewrite (proj2 (Z.ltb_lt (e - b) 0)) by lia. done.
Qed.

Lemma py_start_range (len step : Z) (x : option Z) :
  0 <= len -> step <> 0 ->
  (if step <? 0 then -1 else 0) <= py_start len x step <= (if step <? 0 then len - 1 else len).
Proof. intros Hl Hs. unfold py_start. destruct x; repeat case_if; lia. Qed.

Lemma py_stop_range (len step : Z) (x : option Z) :
  0 <= len -> step <> 0 ->
  (if step <? 0 then -1 else 0) <= py_stop len x step <= (if step <? 0 then len - 1 else len).
Proof. intros Hl Hs. unfold py_stop. destruct x; repeat case_if; lia. Qed.

(** Every position of a slice is in the sequence, and there are no more than its elements. *)
Lemma py_positions (len b e step k : Z) :
  step <> 0 ->
  (if step <? 0 then -1 else 0) <= b <= (if step <? 0 then len - 1 else len) ->
  (if step <? 0 then -1 else 0) <= e <= (if step <? 0 then len - 1 else len) ->
  0 <= k < py_len b e step -> 0 <= b + k * step < len.
Proof.
  intros Hs. unfold py_len. destruct (Z.ltb_spec step 0) as [Hn|Hn]; intros Hb He Hk.
  - destruct (Z.ltb_spec e b); [|lia].
    pose proof (Z.mul_div_le (b - e - 1) (- step) ltac:(lia)). nia.
  - destruct (Z.ltb_spec b e); [|lia].
    pose proof (Z.mul_div_le (e - b - 1) step ltac:(lia)). nia.
Qed.

Lemma py_len_bound (len b e step : Z) :
  step <> 0 -> 0 <= len ->
  (if step <? 0 then -1 else 0) <= b <= (if step <? 0 then len - 1 else len) ->
  (if step <? 0 then -1 else 0) <= e <= (if step <? 0 then len - 1 else len) ->
  0 <= py_len b e step <= len.
Proof.
  intros Hs Hl. unfold py_len. destruct (Z.ltb_spec step 0) as [Hn|Hn]; intros Hb He.
  - destruct (Z.ltb_spec e b); [|lia]. pose proof (Z.div_pos (b - e - 1) (- step) ltac:(lia) ltac:(lia)).
    pose proof (Z.div_le_upper_bound (b - e - 1) (- step) (b - e - 1) ltac:(lia)). nia.
  - destruct (Z.ltb_spec b e); [|lia]. pose proof (Z.div_pos (e - b - 1) step ltac:(lia) ltac:(lia)).
    pose proof (Z.div_le_upper_bound (e - b - 1) step (e - b - 1) ltac:(lia)). nia.
Qed.

(** ** One dimension *)

(** The bounds and the number of positions that dimension [i] of the dense specification selects:
    an index in range selects one position, a range what the Python slice selects. *)
Definition dim_result (d : Dense) (dim i : Z) : option (Z * Z * Z) :=
  let stride := get i (d_strides d) in
  let b := get i (d_begin d) in
  let e := get i (d_end d) in
  if stride =? 0 then None
  else if has (d_shrink_axis_mask d) i then
    let x := if b <? 0 then dim + b else b in
    if (0 <? stride) && (0 <=? x) && (x <? dim) then Some (x, x + 1, 1) else None
  else
    let b' := py_start dim (if has (d_begin_mask d) i then None else Some b) stride in
    let e' := py_stop dim (if has (d_end_mask d) i then None else Some e) stride in
    Some (b', e', py_len b' e' stride).

(** The flags after a dimension with the given result. *)
Definition takes_all (dim stride : Z) (r : Z * Z * Z) : bool :=
  (stride =? 1) && (r.1.1 =? 0) && (r.1.2 =? dim).

Definition put_result (i dim : Z) (r : Z * Z * Z) (p : Proc) (s : Shape.t) : Proc :=
  let stride := get i (o_strides p) in
  mkProc s (is_identity p && takes_all dim stride r)
    (slice_dim0 p && ((i =? 0) && (stride =? 1) || takes_all dim stride r))
    (is_simple_slice p && (stride =? 1)) (put i r.1.1 (o_begin p)) (put i r.1.2 (o_end p)) (o_strides p).

Lemma dim_result_bound (d : Dense) (dim i b e n : Z) :
  0 <= dim < 2 ^ 63 -> dim_result d dim i = Some (b, e, n) ->
  0 <= n <= dim /\ (forall k, 0 <= k < n -> 0 <= b + k * get i (d_strides d) < dim) /\
  -1 <= b <= dim /\ -1 <= e <= dim.
Proof.
  intros Hd. unfold dim_result. cbn zeta. set (st := get i (d_strides d)).
  destruct (Z.eqb_spec st 0) as [|Hs]; [done|]. destruct (has (d_shrink_axis_mask d) i).
  - destruct (_ && _ && _) eqn:E; [|done]. intros [= <- <- <-]. zbool.
    repeat split; try lia; intros k Hk; assert (k = 0) as -> by lia; lia.
  - intros [= <- <- <-].
    set (x := if has (d_begin_mask d) i then None else Some (get i (d_begin d))).
    set (y := if has (d_end_mask d) i then None else Some (get i (d_end d))).
    pose proof (py_start_range dim st x ltac:(lia) Hs) as H1. pose proof (py_stop_range dim st y ltac:(lia) Hs) as H2.
    split; [apply py_len_bound; done || lia|]. split; [intros k; by apply py_positions|].
    destruct (st <? 0); lia.
Qed.

(** The body of the loop computes the result of the dimension. *)
Lemma known_dim_ok (d : Dense) (dim i : Z) (p : Proc) :
  0 <= dim < 2 ^ 63 -> get i (d_strides d) <> 0 -> o_strides p = d_strides d ->
  get i (o_begin p) = get i (d_begin d) -> get i (o_end p) = get i (d_end d) ->
  known_dim d true i dim (has (d_shrink_axis_mask d) i) p =
  match dim_result d dim i with
  | Some r => match AddDim true (processing_shape p) r.2 with
              | Some s => Ok (put_result i dim r p s)
              | None => Err CheckFailed
              end
  | None => Err (Status InvalidArgument)
  end.
Proof.
  intros Hd Hs Ho Hb He. unfold known_dim. rewrite Ho, Hb, He. cbn zeta.
  pose proof (dim_result_bound d dim i) as Hbound. unfold dim_result, put_result, takes_all in *. rewrite Ho. cbn zeta in *.
  rewrite (proj2 (Z.eqb_neq (get i (d_strides d)) 0) Hs) in *. set (st := get i (d_strides d)) in *.
  unfold canonical_bounds. destruct (has (d_shrink_axis_mask d) i); cbn [andb].
  - rewrite (Z.leb_antisym 0 st). destruct (0 <? st) eqn:Est; cbn [negb andb]; [|done]. zbool.
    set (x := if get i (d_begin d) <? 0 then dim + get i (d_begin d) else get i (d_begin d)) in *.
    rewrite (Z.ltb_antisym 0 x), (Z.leb_antisym x dim). destruct (0 <=? x) eqn:E1, (x <? dim) eqn:E2; cbn [negb orb andb res_bind]; try done.
    zbool. rewrite !wrap_i64_id by (unfold in_i64; rewrite ?wrap_i64_id by (unfold in_i64; lia); lia).
    replace (x + 1 - x) with 1 by lia. unfold add_processing. cbn [processing_shape fst snd].
    replace (interval_size 1 st) with 1; [done|].
    replace 1 with (1 - 0) at 2 by lia. rewrite interval_size_py by lia. unfold py_len.
    rewrite (proj2 (Z.ltb_ge st 0)) by lia. cbn. by rewrite Z.div_0_l by lia.
  - rewrite canonical_start, canonical_stop by (done || lia). cbn [res_bind fst snd].
    destruct (Hbound _ _ _ Hd eq_refl) as (_ & _ & H1 & H2).
    assert (forall b e, -1 <= b <= dim -> -1 <= e <= dim -> b <> -1 \/ e <> dim -> e <> -1 \/ b <> dim -> wrap_i64 (e - b) = e - b) as Hw
      by (intros; apply wrap_i64_id; unfold in_i64; lia).
    set (x := if has (d_begin_mask d) i then None else Some (get i (d_begin d))) in *.
    set (y := if has (d_end_mask d) i then None else Some (get i (d_end d))) in *.
    pose proof (py_start_range dim st x ltac:(lia) Hs) as R1. pose proof (py_stop_range dim st y ltac:(lia) Hs) as R2.
    rewrite Hw by (done || destruct (st <? 0); lia). rewrite interval_size_py by done. done.
Qed.

(** ** All dimensions *)

Definition below (x y : Z) : Prop := 0 <= x <= y.

Lemma count_below (l k : list Z) : Forall2 below l k -> 0 <= count l <= count k.
Proof.
  induction 1 as [|x y l k Hxy _ IH]; cbn [count]; [lia|]. unfold below in Hxy.
  rewrite !(proj2 (Z.ltb_ge _ 0)) by lia. cbn [orb]. nia.
Qed.

(** Sizes that do not exceed the sizes of a shape are the sizes of a shape. *)
Lemma legal_below (l k : list Z) : Forall2 below l k -> legal true k -> legal true l.
Proof.
  intros H (H1 & H2 & H3). pose proof (Forall2_length _ _ _ H) as Hlen. split; [lia|]. split.
  - apply list.Forall_forall. intros x (i & Hx)%list_elem_of_lookup.
    destruct (Forall2_lookup_l _ _ _ _ _ H Hx) as (y & _ & Hy). unfold below in Hy. lia.
  - intros n. pose proof (count_below _ _ (Forall2_take _ _ _ n H)). specialize (H3 n). lia.
Qed.

Lemma AddDim_below (s : Shape.t) (n : Z) (k : list Z) :
  wf true s -> Forall2 below (sizes true s ++ [n]) k -> legal true k -> Forall (fun y => y < 2 ^ 63) k ->
  exists s', AddDim true s n = Some s' /\ wf true s' /\ sizes true s' = sizes true s ++ [n].
Proof.
  intros H Hb Hk Hr. assert (-1 <= n < 2 ^ 63) as Hn.
  { destruct (Forall2_lookup_l _ _ _ (length (sizes true s)) n Hb) as (y & Hy & Hxy); [by rewrite list_lookup_middle|].
    rewrite list.Forall_lookup in Hr. specialize (Hr _ _ Hy). unfold below in Hxy. cbn in Hr. lia. }
  rewrite AddDim_checked. pose proof (AddDimWithStatus_ok true s n H Hn) as Ha.
  destruct (AddDimWithStatus true s n) as [s'|e]; cbn.
  - by exists s'.
  - destruct Ha as [_ []]. by apply (legal_below _ k).
Qed.

Lemma get_lookup (l : list Z) (i : nat) : (i < length l)%nat -> l !! i = Some (get (Z.of_nat i) l).
Proof.
  intros Hi. unfold get. rewrite Nat2Z.id. destruct (lookup_lt_is_Some_2 l i Hi) as [x Hx].
  by rewrite (nth_lookup_Some _ _ _ _ Hx).
Qed.

Section Dims.
Context (input : Shape.t) (d : Dense).
Context (Hin : wf true input) (Hfull : Forall (fun y => 0 <= y) (sizes true input)).
Context (Hrank : (length (sizes true input) <= 32)%nat).
Let ds := sizes true input.

(** What each dimension selects. *)
Definition results (i n : Z) : option (list (Z * Z * Z)) :=
  mapM (fun k => dim_result d (get k ds) k) (seqZ i n).

Definition flags_step (acc : bool * bool * bool) (kr : Z * (Z * Z * Z)) : bool * bool * bool :=
  let '(k, r) := kr in
  let stride := get k (d_strides d) in
  (acc.1.1 && takes_all (get k ds) stride r,
   acc.1.2 && ((k =? 0) && (stride =? 1) || takes_all (get k ds) stride r),
   acc.2 && (stride =? 1)).

Lemma ds_range (i : nat) : (i < length ds)%nat -> 0 <= get (Z.of_nat i) ds < 2 ^ 63.
Proof.
  intros Hi. pose proof (get_lookup ds i Hi) as Hx.
  pose proof (wf_sizes_range true input Hin) as Hr. fold ds in Hr. rewrite list.Forall_lookup in Hr.
  unfold ds in Hx at 1. pose proof Hfull as Hf. rewrite list.Forall_lookup in Hf.
  specialize (Hr _ _ Hx). specialize (Hf _ _ Hx). cbn in Hr, Hf. lia.
Qed.

Lemma dim_step_ok (i : nat) (p : Proc) :
  (i < length ds)%nat -> o_strides p = d_strides d ->
  get (Z.of_nat i) (o_begin p) = get (Z.of_nat i) (d_begin d) ->
  get (Z.of_nat i) (o_end p) = get (Z.of_nat i) (d_end d) ->
  dim_step input d true (Z.of_nat i) p =
  match dim_result d (get (Z.of_nat i) ds) (Z.of_nat i) with
  | Some r => match AddDim true (processing_shape p) r.2 with
              | Some s => Ok (put_result (Z.of_nat i) (get (Z.of_nat i) ds) r p s)
              | None => Err CheckFailed
              end
  | None => Err (Status InvalidArgument)
  end.
Proof.
  intros Hi Hs Hb He. pose proof (ds_range i Hi) as Hr. unfold dim_step.
  assert (dim_size true input (Z.of_nat i) = get (Z.of_nat i) ds) as ->.
  { pose proof (dim_size_eq true input i (wf_known true input Hin) Hi) as H1. fold ds in H1. rewrite (get_lookup ds i Hi) in H1. congruence. }
  rewrite Hs. destruct (Z.eqb_spec (get (Z.of_nat i) (d_strides d)) 0) as [E|E]; cbn [negb].
  - unfold dim_result. cbn zeta. by rewrite E.
  - rewrite bit_ok by (unfold ds in Hi; lia). cbn [res_bind]. rewrite (proj2 (Z.eqb_neq _ (-1))) by lia.
    by apply known_dim_ok.
Qed.

(** The state of the loop before dimension [i]. *)
Record before (i : nat) (p : Proc) : Prop := {
  b_wf : wf true (processing_shape p);
  b_below : Forall2 below (sizes true (processing_shape p)) (take i ds);
  b_strides : o_strides p = d_strides d;
  b_len_begin : length (o_begin p) = length ds;
  b_len_end : length (o_end p) = length ds;
  b_begin : forall k : nat, (i <= k)%nat -> get (Z.of_nat k) (o_begin p) = get (Z.of_nat k) (d_begin d);
  b_end : forall k : nat, (i <= k)%nat -> get (Z.of_nat k) (o_end p) = get (Z.of_nat k) (d_end d)
}.

Lemma before_next (i : nat) (p : Proc) (r : Z * Z * Z) :
  before i p -> (i < length ds)%nat -> dim_result d (get (Z.of_nat i) ds) (Z.of_nat i) = Some r ->
  exists s, AddDim true (processing_shape p) r.2 = Some s /\
    sizes true s = sizes true (processing_shape p) ++ [r.2] /\
    before (S i) (put_result (Z.of_nat i) (get (Z.of_nat i) ds) r p s).
Proof.
  intros [H1 H2 H3 H4 H5 H6 H7] Hi Hr. destruct r as [[b e] n]. pose proof (ds_range i Hi) as Hd.
  destruct (dim_result_bound d _ _ b e n Hd Hr) as (Hn & _). cbn [fst snd].
  assert (Forall2 below (sizes true (processing_shape p) ++ [n]) (take (S i) ds)) as Hb.
  { rewrite (take_S_r ds i _ (get_lookup ds i Hi)). apply Forall2_app; [done|]. constructor; [exact Hn|constructor]. }
  destruct (AddDim_below (processing_shape p) n (take (S i) ds) H1 Hb) as (s & Hs & Hw & Hz).
  { pose proof (wf_legal true input Hin) as Hl. fold ds in Hl. rewrite <- (take_drop (S i) ds) in Hl.
    by apply legal_prefix in Hl. }
  { apply list.Forall_take. apply (sizes_below true input Hin). }
  exists s. split; [done|]. split; [done|]. split; cbn [put_result processing_shape o_strides o_begin o_end fst snd];
    rewrite ?length_put; try done.
  - by rewrite Hz.
  - intros k Hk. rewrite get_put_ne by lia. apply H6. lia.
  - intros k Hk. rewrite get_put_ne by lia. apply H7. lia.
Qed.

Lemma dim_loop_ok (n i : nat) (p : Proc) :
  (i + n)%nat = length ds -> before i p ->
  match dim_loop input d true (Z.of_nat i) n p with
  | Ok p' => exists rs, results (Z.of_nat i) (Z.of_nat n) = Some rs /\ before (length ds) p' /\
      sizes true (processing_shape p') = sizes true (processing_shape p) ++ map snd rs /\
      o_begin p' = take i (o_begin p) ++ map (fun r => r.1.1) rs /\
      o_end p' = take i (o_end p) ++ map (fun r => r.1.2) rs /\
      (is_identity p', slice_dim0 p', is_simple_slice p') =
        foldl flags_step (is_identity p, slice_dim0 p, is_simple_slice p) (zip (seqZ (Z.of_nat i) (Z.of_nat n)) rs)
  | Err e => e = Status InvalidArgument /\ results (Z.of_nat i) (Z.of_nat n) = None
  end.
Proof.
  revert i p. induction n as [|n IH]; intros i p Hn H.
  - exists []. replace i with (length ds) in * by lia. cbn [map]. rewrite !app_nil_r.
    split; [done|]. split; [done|]. split; [done|]. rewrite !take_ge; [done|..]; destruct H; lia.
  - cbn [dim_loop]. unfold results. rewrite seqZ_cons by lia. cbn [mapM].
    rewrite dim_step_ok; [|lia|apply H|by apply H|by apply H].
    destruct (dim_result d (get (Z.of_nat i) ds) (Z.of_nat i)) as [r|] eqn:Er; cbn [res_bind mbind option_bind]; [|done].
    destruct (before_next i p r H ltac:(lia) Er) as (s & -> & Hz & Hb). cbn [res_bind].
    replace (Z.of_nat i + 1) with (Z.of_nat (S i)) by lia.
    replace (Z.succ (Z.of_nat i)) with (Z.of_nat (S i)) by lia.
    replace (Z.pred (Z.of_nat (S n))) with (Z.of_nat n) by lia.
    specialize (IH (S i) _ ltac:(lia) Hb). unfold results in IH.
    destruct (dim_loop input d true (Z.of_nat (S i)) n _) as [p'|e].
    + destruct IH as (rs & -> & I1 & I2 & I3 & I4 & I5). exists (r :: rs). split; [done|]. split; [done|].
      destruct H as [_ _ Hst Hlb Hle _ _].
      cbn [put_result processing_shape o_begin o_end is_identity slice_dim0 is_simple_slice] in *.
      rewrite take_put in I3, I4 by lia. rewrite Hz, <- app_assoc in I2. rewrite <- app_assoc in I3, I4.
      repeat split; [done..|]. cbn [zip_with foldl]. rewrite I5. unfold flags_step at 3. cbn [fst snd]. by rewrite Hst.
    + destruct IH as [-> ->]. done.
Qed.
End Dims.

(** ** The final shape *)

Lemma AddDim_room (s : Shape.t) (n : Z) :
  wf true s -> 0 <= n < 2 ^ 63 -> Z.of_nat (length (sizes true s)) < 254 -> count (sizes true s ++ [n]) < 2 ^ 63 ->
  exists s', AddDim true s n = Some s' /\ wf true s' /\ sizes true s' = sizes true s ++ [n].
Proof.
  intros H Hn Hl Hc. rewrite AddDim_checked. pose proof (AddDimWithStatus_ok true s n H ltac:(lia)) as Ha.
  destruct (AddDimWithStatus true s n) as [s'|e]; cbn; [by exists s'|].
  destruct Ha as [_ []]. apply legal_snoc; [done|lia|done].
Qed.

(** The next dimension that is kept; those before it are shrunk. *)
Lemma next_kept (f : Z -> bool) (m : nat) (q g : Z) (l : list Z) :
  filter (fun k => f k = false) (seqZ q (Z.of_nat m)) = g :: l ->
  q <= g < q + Z.of_nat m /\ f g = false /\ (forall k, q <= k < g -> f k = true) /\
  l = filter (fun k => f k = false) (seqZ (g + 1) (q + Z.of_nat m - (g + 1))).
Proof.
  revert q. induction m as [|m IH]; intros q; [done|]. rewrite seqZ_cons, filter_cons by lia.
  replace (Z.pred (Z.of_nat (S m))) with (Z.of_nat m) by lia. destruct (decide (f q = false)) as [Hq|Hq].
  - intros [= <- <-]. repeat split; [lia|lia|done|intros k Hk; lia|].
    f_equal. f_equal; lia.
  - intros H. destruct (IH _ H) as (H1 & H2 & H3 & H4). repeat split; [lia|lia|done| |].
    + intros k Hk. destruct (decide (k = q)) as [->|]; [by destruct (f q)|]. apply H3. lia.
    + rewrite H4. do 2 f_equal. lia.
Qed.

Lemma all_shrunk (f : Z -> bool) (q m : Z) :
  filter (fun k => f k = false) (seqZ q m) = [] -> forall k, q <= k < q + m -> f k = true.
Proof.
  intros H k Hk. destruct (f k) eqn:E; [done|].
  assert (k ∈ filter (fun k => f k = false) (seqZ q m)) as Hin; [|rewrite H in Hin; by apply not_elem_of_nil in Hin].
  apply list_elem_of_filter. split; [done|]. by apply elem_of_seqZ.
Qed.

(** Dimensions of size one do not change the number of elements. *)
Lemma count_ones (l : list Z) (q g : nat) :
  (q <= g <= length l)%nat -> (forall k : nat, (q <= k < g)%nat -> get (Z.of_nat k) l = 1) ->
  count (take g l) = count (take q l).
Proof.
  intros Hq H. induction g as [|g IH]; [by replace q with 0%nat by lia|].
  destruct (decide (q = S g)) as [->|]; [done|].
  rewrite (take_S_r l g (get (Z.of_nat g) l)) by (apply get_lookup; lia).
  rewrite count_snoc, (H g) by lia. change (1 <? 0) with false. rewrite orb_false_r.
  pose proof (count_range (take g l)). rewrite IH by (lia || intros k Hk; apply H; lia).
  rewrite IH in * by (lia || intros k Hk; apply H; lia). case_if; lia.
Qed.

(** The sizes of the final shape. *)
Definition final_sizes (ps gs : list Z) : list Z :=
  omap (fun g => if 0 <=? g then Some (get g ps) else if g =? kNewAxis then Some 1 else None) gs.

Section Final.
Context (processing : Shape.t) (shrunk : Z -> bool).
Let ps := sizes true processing.
Context (Hproc : wf true processing) (Hpos : Forall (fun y => 0 <= y) ps).
Context (Hone : forall k : nat, (k < length ps)%nat -> shrunk (Z.of_nat k) = true -> get (Z.of_nat k) ps = 1).

Lemma ps_range (i : nat) : (i < length ps)%nat -> 0 <= get (Z.of_nat i) ps < 2 ^ 63.
Proof.
  intros Hi. pose proof (get_lookup ps i Hi) as Hx.
  pose proof (wf_sizes_range true processing Hproc) as Hr. fold ps in Hr. rewrite list.Forall_lookup in Hr.
  pose proof Hpos as Hf. rewrite list.Forall_lookup in Hf.
  specialize (Hr _ _ Hx). specialize (Hf _ _ Hx). cbn in Hr, Hf. lia.
Qed.

Lemma ps_count (q : nat) : 0 <= count (take q ps) < 2 ^ 63.
Proof.
  split; [|apply (wf_legal true processing Hproc)].
  assert (Forall2 below (take q ps) (take q ps)) as H by
    (apply Forall_Forall2_diag, list.Forall_take; refine (list.Forall_impl _ _ _ Hpos _); unfold below; lia).
  apply (count_below _ _ H).
Qed.

(** From a final shape with the elements of the first [q] dimensions on. *)
Lemma final_loop_ok (l : list (Z * Z)) (q : nat) (final : Shape.t) (ts tp : list Z) :
  wf true final -> (q <= length ps)%nat -> count (sizes true final) = count (take q ps) ->
  Z.of_nat (length (sizes true final)) + Z.of_nat (length l) <= 254 ->
  filter (fun g => 0 <= g) l.*1 = filter (fun k => shrunk k = false) (seqZ (Z.of_nat q) (Z.of_nat (length ps - q))) ->
  exists f ts' tp', final_loop processing l final ts tp = Ok (f, ts', tp') /\ wf true f /\
    sizes true f = sizes true final ++ final_sizes ps l.*1 /\ count (sizes true f) = count ps.
Proof.
  revert q final ts tp. induction l as [|[g sp] l IH]; intros q final ts tp Hf Hq Hc Hlen Hg; cbn [final_loop].
  - exists final, ts, tp. split; [done|]. split; [done|]. cbn. rewrite app_nil_r. split; [done|].
    rewrite Hc. symmetry. rewrite <- (take_ge ps (length ps)) at 1 by lia. apply count_ones; [lia|].
    intros k Hk. apply Hone; [lia|].
    apply (all_shrunk shrunk _ _ (eq_sym Hg)). lia.
  - rewrite fmap_cons in *. cbn [fst] in *. rewrite filter_cons in Hg.
    assert (forall x final', wf true final' -> sizes true final' = sizes true final ++ [x] ->
      Z.of_nat (length (sizes true final')) + Z.of_nat (length l) <= 254) as Hroom.
    { intros x final' _ ->. rewrite length_app. cbn [length] in *. lia. }
    cbn [length] in Hlen. destruct (Z.leb_spec 0 g) as [Hg0|Hg0].
    + rewrite decide_True in Hg by done. symmetry in Hg. apply next_kept in Hg as (G1 & G2 & G3 & G4).
      replace g with (Z.of_nat (Z.to_nat g)) in * by lia. set (k := Z.to_nat g) in *.
      assert (dim_size true processing (Z.of_nat k) = get (Z.of_nat k) ps) as ->.
      { pose proof (dim_size_eq true processing k (wf_known true _ Hproc) ltac:(fold ps; lia)) as H1. fold ps in H1.
        rewrite (get_lookup ps k ltac:(lia)) in H1. congruence. }
      pose proof (ps_range k ltac:(lia)) as Hr.
      assert (count (take (S k) ps) = count (sizes true final ++ [get (Z.of_nat k) ps])) as Hcount.
      { rewrite (take_S_r ps k (get (Z.of_nat k) ps)) by (apply get_lookup; lia). rewrite !count_snoc.
        rewrite (count_ones ps q k), Hc; [done|lia|]. intros j Hj. apply Hone; [lia|]. apply G3. lia. }
      destruct (AddDim_room final (get (Z.of_nat k) ps) Hf Hr) as (f' & -> & Hf' & Hz); [lia|rewrite <- Hcount; apply ps_count|].
      destruct (IH (S k) f' (ts ++ [sp]) (tp ++ [Z.of_nat k])) as (f & ts' & tp' & -> & I1 & I2 & I3);
        [done|lia|by rewrite Hz|by apply (Hroom _ _ Hf' Hz)| |].
      { rewrite G4. do 2 f_equal; lia. }
      exists f, ts', tp'. repeat split; [apply I1..| |done]. rewrite I2, Hz, <- app_assoc. f_equal.
      cbn [final_sizes omap list_omap app]. by rewrite (proj2 (Z.leb_le 0 (Z.of_nat k))) by lia.
    + rewrite decide_False in Hg by lia. destruct (Z.eqb_spec g kNewAxis) as [->|Hna].
      * assert (count (sizes true final ++ [1]) = count (sizes true final)) as Hcount.
        { rewrite count_snoc. change (1 <? 0) with false. rewrite orb_false_r. pose proof (count_range (sizes true final)).
          case_if; lia. }
        destruct (AddDim_room final 1 Hf) as (f' & -> & Hf' & Hz); [lia|lia|rewrite Hcount, Hc; apply ps_count|].
        destruct (IH q f' (ts ++ [-1]) (tp ++ [-1])) as (f & ts' & tp' & -> & I1 & I2 & I3);
          [done|done|by rewrite Hz, Hcount|by apply (Hroom _ _ Hf' Hz)|done|].
        exists f, ts', tp'. repeat split; [apply I1..| |done]. rewrite I2, Hz, <- app_assoc. done.
      * destruct (IH q final ts tp) as (f & ts' & tp' & -> & I1 & I2 & I3); [done|done|done|lia|done|].
        exists f, ts', tp'. repeat split; [apply I1..| |done]. rewrite I2. f_equal.
        cbn [final_sizes omap list_omap]. rewrite (proj2 (Z.leb_gt 0 g)), (proj2 (Z.eqb_neq g _)) by done. done.
Qed.
End Final.
