(* ===== verification/SliceTheorems.v ===== *)
(** * Theorems on strided slices

    Both bounds are given and the input shape is fully defined, as they are
    when the kernel runs: the validation then returns a status or a slice
    that is the one Python selects, reads only inside the input, and has a
    final shape with as many elements as the slice.  With a partial input
    shape the validation can crash. *)

From S2P Require Import Prelude TensorShape ShapeSpec ShapeTheorems StridedSlice SliceDense SliceSpec.
Import Shape Slice.

(** ** The specification of a request *)

(** What the sparse entry [j] selects of a dimension of size [dim]: stride, first and last bound and
    the number of positions; [ell] tells the ellipsis. *)
Definition selects (bl el sl : list Z) (bm em sm : Z) (ell : Z) (j dim : Z) : option (Z * (Z * Z * Z)) :=
  if j =? ell then Some (1, (0, dim, dim))
  else
    let stride := get j sl in
    if stride =? 0 then None
    else if has sm j then
      let x := if get j bl <? 0 then dim + get j bl else get j bl in
      if (0 <? stride) && (0 <=? x) && (x <? dim) then Some (stride, (x, x + 1, 1)) else None
    else
      let b := py_start dim (if has bm j then None else Some (get j bl)) stride in
      let e := py_stop dim (if has em j then None else Some (get j el)) stride in
      Some (stride, (b, e, py_len b e stride)).

(** The position of the ellipsis; without one it comes after the last entry. *)
Definition ellipsis_at (ell n k : Z) : Prop :=
  0 <= k <= n /\ (forall j, 0 <= j < n -> has ell j = (j =? k)).

(** The sparse indices of [m] entries from [i] on that are no new axes. *)
Definition entries (nm i m : Z) : list Z := filter (fun k => has nm k = false) (seqZ i m).

Section Validate.
Context (bt et st : Tensor) (input : Shape.t) (bm em ell nm sm : Z).
Context (Hin : wf true input) (Hfull : Forall (fun y => 0 <= y) (sizes true input)).
Context (Hrank : (length (sizes true input) <= 32)%nat).
Context (Hbt : t_dtype bt = t_dtype st) (Het : t_dtype et = t_dtype st) (Hst : t_dtype st <> DT_OTHER).
Context (Hell : in_i32 ell).
Let n := NumElements st.
Let ds := sizes true input.

Record valid_slice (r : Result) : Prop := {
  v_shape : ShapeSpec.wf true (processing_shape (proc r)) /\ ShapeSpec.wf true (final_shape r);
  v_count : count (sizes true (final_shape r)) = count (sizes true (processing_shape (proc r)));
  v_length : length (sizes true (processing_shape (proc r))) = length ds /\
             length (o_begin (proc r)) = length ds /\ length (o_end (proc r)) = length ds;
  v_full : Forall (fun y => 0 <= y) (sizes true (processing_shape (proc r)));
  v_select : exists k m,
    ellipsis_at ell n k /\
    processing_to_sparse_mapping (shape_spec r) =
      entries nm 0 k ++ replicate m k ++ entries nm (k + 1) (n - (k + 1)) /\
    forall i : nat, (i < length ds)%nat ->
      selects (t_flat bt) (t_flat et) (t_flat st) bm em sm k
        (get (Z.of_nat i) (processing_to_sparse_mapping (shape_spec r))) (get (Z.of_nat i) ds) =
      Some (get (Z.of_nat i) (o_strides (proc r)),
            (get (Z.of_nat i) (o_begin (proc r)), get (Z.of_nat i) (o_end (proc r)),
             get (Z.of_nat i) (sizes true (processing_shape (proc r)))));
  v_flags :
    let all i := get i (o_strides (proc r)) = 1 /\ get i (o_begin (proc r)) = 0 /\
                 get i (o_end (proc r)) = get i ds in
    let each (P : Z -> Prop) := forall i : nat, (i < length ds)%nat -> P (Z.of_nat i) in
    (is_identity (proc r) = true <-> each all) /\
    (slice_dim0 (proc r) = true <-> each (fun i => (i = 0 /\ get i (o_strides (proc r)) = 1) \/ all i)) /\
    (is_simple_slice (proc r) = true <-> each (fun i => get i (o_strides (proc r)) = 1))
}.

(** The result of a dense dimension is what its sparse entry selects. *)
Lemma selects_entry (s : Sparse) (d : Dense) (k f dim : Z) :
  0 <= dim -> 0 <= f < 32 -> s_begin_mask s = bm -> s_end_mask s = em -> s_shrink_axis_mask s = sm ->
  (forall j, 0 <= j < s_dims s -> has (s_ellipsis_mask s) j = (j =? k)) ->
  entry s (t_flat bt) (t_flat et) (t_flat st) d f ->
  selects (t_flat bt) (t_flat et) (t_flat st) bm em sm k (get f (input_shape_gather_indices_sparse d)) dim =
  (r ← dim_result d dim f; Some (get f (d_strides d), r)).
Proof.
  intros Hd Hf <- <- <- Hk [Hj He]. unfold selects, dim_result. rewrite Hk in He by done. cbn zeta.
  destruct (_ =? k).
  - destruct He as (-> & -> & -> & -> & -> & ->). change (1 =? 0) with false. cbn.
    unfold py_len. change (1 <? 0) with false. cbn iota. do 3 f_equal.
    destruct (Z.ltb_spec 0 dim); [rewrite Z.div_1_r|]; lia.
  - destruct He as (_ & -> & -> & -> & -> & -> & ->).
    destruct (_ =? 0); [done|]. destruct (has _ _); [|done]. by destruct (_ && _ && _).
Qed.

(** The dense specification of an accepted request. *)
Lemma dense_ok (s : Sparse) (k : Z) :
  n < 32 -> 0 <= k < s_dims s -> s_dims s <= 32 ->
  (forall j, 0 <= j < s_dims s -> has (s_ellipsis_mask s) j = (j =? k)) ->
  num_add_axis_after_ellipsis s = axes (s_new_axis_mask s) (k + 1) (Z.to_nat (s_dims s - (k + 1))) ->
  s_begin s = Some bt -> s_end s = Some et -> s_strides s = st ->
  match BuildDenseSpec s (dims true input) with
  | Ok d => inv s (dims true input) (t_flat bt) (t_flat et) (t_flat st) (s_dims s) d /\
      full_index d = dims true input /\
      exists m, input_shape_gather_indices_sparse d =
        entries (s_new_axis_mask s) 0 k ++ replicate m k ++ entries (s_new_axis_mask s) (k + 1) (s_dims s - (k + 1))
  | Err e => e = Status InvalidArgument
  end.
Proof.
  intros Hn Hk Hd Huniq Hadd E1 E2 E3. pose proof (wf_dims_eq true input Hin) as Hdim.
  unfold BuildDenseSpec. rewrite (proj2 (Z.ltb_ge _ 0)), (proj2 (Z.leb_gt 1024 _)) by lia. cbn [negb].
  rewrite E1, E2, E3. unfold vec_data. rewrite !decide_True by done. cbn [res_bind].
  pose proof (build_loop_ok s (dims true input) (t_flat bt) (t_flat et) (t_flat st) ltac:(lia) ltac:(lia)
    (Z.to_nat (s_dims s)) 0 k _ ltac:(lia) ltac:(lia) ltac:(lia) Huniq Hadd
    (start_inv s (dims true input) (t_flat bt) (t_flat et) (t_flat st) ltac:(lia))) as H.
  destruct (build_loop _ _ _ _ _ _ _ _) as [d|]; [|done]. destruct H as (H1 & H2 & m & H3).
  split; [done|]. split; [done|]. exists m. unfold mapping in H3. rewrite H2 in H3.
  pose proof (inv_input _ _ _ _ _ _ d H1). rewrite take_ge in H3 by lia. rewrite H3.
  cbn [full_index]. rewrite take_0. cbn [app]. unfold taken. by rewrite Z.sub_0_r.
Qed.

(** The loop over the dimensions starts with nothing done. *)
Lemma before_start (d : Dense) (s : Sparse) (i : Z) :
  inv s (dims true input) (t_flat bt) (t_flat et) (t_flat st) i d ->
  before input d 0 (mkProc Clear true true true (d_begin d) (d_end d) (d_strides d)).
Proof.
  intros H. pose proof (wf_dims_eq true input Hin). destruct H as [_ A2 A3 A4 _ _ _ _ _ _ _ _].
  destruct (Clear_ok true) as [Hw Hz]. split; cbn [processing_shape o_strides o_begin o_end]; try done; lia.
Qed.

(** A dimension that an index selects has size one. *)
Lemma shrunk_one (d : Dense) (dim i : Z) (r : Z * Z * Z) :
  dim_result d dim i = Some r -> has (d_shrink_axis_mask d) i = true -> r.2 = 1.
Proof.
  unfold dim_result. cbn zeta. intros H Hs. rewrite Hs in H. destruct (_ =? 0); [done|].
  destruct (_ && _ && _); [|done]. by simplify_eq.
Qed.

Lemma results_lookup (d : Dense) (m : nat) (rs : list (Z * Z * Z)) :
  results input d 0 (Z.of_nat m) = Some rs ->
  length rs = m /\ forall i : nat, (i < m)%nat ->
    exists r, rs !! i = Some r /\ dim_result d (get (Z.of_nat i) ds) (Z.of_nat i) = Some r.
Proof.
  intros H. apply mapM_Some in H. pose proof (Forall2_length _ _ _ H) as Hl. rewrite length_seqZ, Nat2Z.id in Hl.
  split; [lia|]. intros i Hi. assert (seqZ 0 (Z.of_nat m) !! i = Some (Z.of_nat i)) as Hk.
  { apply lookup_seqZ. lia. }
  destruct (Forall2_lookup_l _ _ _ _ _ H Hk) as (r & Hr & He). by exists r.
Qed.

Lemma get_map {A} (g : A -> Z) (l : list A) (i : nat) (x : A) : l !! i = Some x -> get (Z.of_nat i) (map g l) = g x.
Proof.
  intros H. unfold get. rewrite Nat2Z.id. apply nth_lookup_Some. change (map g l) with (g <$> l).
  by rewrite list_lookup_fmap, H.
Qed.

(** The three flags as conjunctions over the dimensions. *)
Lemma flags_fold (d : Dense) (l : list (Z * (Z * Z * Z))) (x y z : bool) :
  foldl (flags_step input d) (x, y, z) l =
  (x && forallb (fun kr => takes_all (get kr.1 ds) (get kr.1 (d_strides d)) kr.2) l,
   y && forallb (fun kr => (kr.1 =? 0) && (get kr.1 (d_strides d) =? 1) ||
                           takes_all (get kr.1 ds) (get kr.1 (d_strides d)) kr.2) l,
   z && forallb (fun kr => get kr.1 (d_strides d) =? 1) l).
Proof.
  revert x y z. induction l as [|[k r] l IH]; intros x y z; cbn [foldl forallb]; [by rewrite !andb_true_r|].
  unfold flags_step at 2. cbn [fst snd]. rewrite IH. by rewrite !andb_assoc.
Qed.

Lemma forallb_zip (g : Z * (Z * Z * Z) -> bool) (rs : list (Z * Z * Z)) :
  forallb g (zip (seqZ 0 (Z.of_nat (length rs))) rs) = true <->
  forall (i : nat) r, rs !! i = Some r -> g (Z.of_nat i, r) = true.
Proof.
  rewrite forallb_Forall_Z, list.Forall_lookup. split; intros H i r Hr.
  - apply (H i (Z.of_nat i, r)). rewrite lookup_zip_with, Hr. rewrite (proj2 (lookup_seqZ _ _ _ (Z.of_nat i))); [done|].
    apply lookup_lt_Some in Hr. lia.
  - rewrite lookup_zip_with in Hr. destruct (seqZ _ _ !! i) as [k|] eqn:Ek; [|done].
    apply lookup_seqZ in Ek as [-> _]. destruct (rs !! i) as [q|] eqn:Eq; [|done].
    cbn in Hr. injection Hr as <-. rewrite Z.add_0_l. by apply H.
Qed.

(** The loop over the dimensions is done: the results of all of them are in the outputs. *)
Record done_dims (d : Dense) (p : Proc) (rs : list (Z * Z * Z)) : Prop := {
  dd_results : results input d 0 (Z.of_nat (length ds)) = Some rs;
  dd_before : before input d (length ds) p;
  dd_sizes : sizes true (processing_shape p) = map snd rs;
  dd_begin : o_begin p = map (fun r => r.1.1) rs;
  dd_end : o_end p = map (fun r => r.1.2) rs;
  dd_flags : (is_identity p, slice_dim0 p, is_simple_slice p) =
    foldl (flags_step input d) (true, true, true) (zip (seqZ 0 (Z.of_nat (length ds))) rs)
}.

Lemma flags_ok (d : Dense) (p : Proc) (rs : list (Z * Z * Z)) :
  done_dims d p rs ->
  let all i := get i (o_strides p) = 1 /\ get i (o_begin p) = 0 /\ get i (o_end p) = get i ds in
  let each (P : Z -> Prop) := forall i : nat, (i < length ds)%nat -> P (Z.of_nat i) in
  (is_identity p = true <-> each all) /\
  (slice_dim0 p = true <-> each (fun i => (i = 0 /\ get i (o_strides p) = 1) \/ all i)) /\
  (is_simple_slice p = true <-> each (fun i => get i (o_strides p) = 1)).
Proof.
  intros [R1 R2 R3 R4 R5 R6]. destruct (results_lookup d (length ds) rs R1) as [Hlen Hres].
  rewrite <- Hlen, flags_fold in R6 at 1. cbn [andb] in R6. injection R6 as -> -> ->.
  intros all each. assert (forall i r, rs !! i = Some r -> all (Z.of_nat i) <->
    get (Z.of_nat i) (d_strides d) = 1 /\ r.1.1 = 0 /\ r.1.2 = get (Z.of_nat i) ds) as Hall.
  { intros i r Hr. unfold all. by rewrite (b_strides _ _ _ _ R2), R4, R5, !(get_map _ rs i r Hr). }
  assert (forall (P : Z -> Prop) (g : Z * (Z * Z * Z) -> bool),
    (forall (i : nat) r, rs !! i = Some r -> g (Z.of_nat i, r) = true <-> P (Z.of_nat i)) ->
    forallb g (zip (seqZ 0 (Z.of_nat (length rs))) rs) = true <->
    each P) as Heach.
  { intros P g Hg. rewrite forallb_zip. split.
    - intros H i Hi. destruct (Hres i Hi) as (r & Hr & _). by apply (Hg i r Hr), H.
    - intros H i r Hr. apply (Hg i r Hr), H. rewrite <- Hlen. by apply lookup_lt_Some in Hr. }
  split; [|split]; apply Heach; intros i r Hr; rewrite ?(Hall i r Hr), ?(b_strides _ _ _ _ R2);
    unfold takes_all; cbn [fst snd]; rewrite ?orb_true_iff, ?andb_true_iff, ?Z.eqb_eq; tauto.
Qed.

(** The last step, from the results of the dimensions on. *)
Lemma final_ok (s : Sparse) (d : Dense) (p : Proc) (rs : list (Z * Z * Z)) :
  s_dims s <= 32 -> inv s (dims true input) (t_flat bt) (t_flat et) (t_flat st) (s_dims s) d ->
  full_index d = dims true input -> done_dims d p rs ->
  Forall (fun y => 0 <= y) (sizes true (processing_shape p)) /\
  exists f ts tp,
    final_loop (processing_shape p) (zip (final_shape_gather_indices d) (final_shape_gather_indices_sparse d))
      Clear [] [] = Ok (f, ts, tp) /\ wf true f /\ count (sizes true f) = count (sizes true (processing_shape p)).
Proof.
  intros K2 D1 D2 [R1 R2 R3 R4 R5 _]. pose proof (wf_dims_eq true input Hin) as Hdim. fold ds in Hdim.
  destruct (results_lookup d (length ds) rs R1) as [Hlen Hres]. destruct (Clear_ok true) as [HC1 HC2].
  assert (Forall (fun y => 0 <= y) (sizes true (processing_shape p))) as Hpos.
  { apply list.Forall_forall. intros y (i & Hy)%list_elem_of_lookup.
    destruct (Forall2_lookup_l _ _ _ _ _ (b_below _ _ _ _ R2) Hy) as (z & _ & Hz). unfold below in Hz. lia. }
  split; [done|].
  destruct (final_loop_ok (processing_shape p) (has (d_shrink_axis_mask d)) (b_wf _ _ _ _ R2) Hpos) with
    (l := zip (final_shape_gather_indices d) (final_shape_gather_indices_sparse d)) (q := 0%nat) (final := Clear)
    (ts := @nil Z) (tp := @nil Z) as (f & ts & tp & Hf & Hw & _ & Hc); [| |lia| | | |by exists f, ts, tp].
  - intros i Hi Hs. rewrite R3, length_map in Hi. destruct (Hres i) as (r & Hr & Hdr); [lia|].
    rewrite R3, (get_map snd rs i r Hr). by apply (shrunk_one d (get (Z.of_nat i) ds) (Z.of_nat i)).
  - done.
  - by rewrite HC2.
  - rewrite HC2, length_zip_with. pose proof (inv_gather_bound _ _ _ _ _ _ d D1). cbn [length]. unfold ds in *. lia.
  - rewrite fst_zip by (rewrite (inv_gather_length _ _ _ _ _ _ d D1); lia).
    rewrite (inv_gather _ _ _ _ _ _ d D1), D2. do 2 f_equal. rewrite R3, length_map. lia.
Qed.

Lemma Validate_ok :
  match ValidateStridedSliceOp (Some bt) (Some et) st input bm em ell nm sm with
  | Ok r => valid_slice r
  | Err e => e = Status InvalidArgument
  end.
Proof.
  unfold ValidateStridedSliceOp. rewrite (wf_known true input Hin). cbn [negb].
  destruct (begin_is_wrong _ _ || _ || _) eqn:Ew; [done|]. cbn [negb].
  destruct ((ell =? 0) || _) eqn:Ell; [|done].
  assert (n < 32) as Hn.
  { apply orb_false_iff in Ew as [Ew _]. apply orb_false_iff in Ew as [Ew _]. unfold begin_is_wrong in Ew.
    apply negb_false_iff in Ew. zbool. unfold n. lia. }
  destruct (sparse_spec_ok (Some bt) (Some et) st bm em ell nm sm Hn Hell Ell)
    as (s & k & -> & K1 & K2 & K3 & K6 & K7 & K4 & K5 & F1 & F2 & F3 & F4 & F5 & F6 & F7). cbn [res_bind].
  rewrite bool_decide_true by done. rewrite <- F6 in K5.
  pose proof (dense_ok s k Hn K1 K2 K4 K5 F1 F2 F3) as Hd.
  destruct (BuildDenseSpec s (dims true input)) as [d|]; cbn [res_bind]; [|done].
  destruct Hd as (D1 & D2 & m & D3). rewrite !bool_decide_true by done. cbn [andb].
  pose proof (wf_dims_eq true input Hin) as Hdim. rewrite Hdim, Nat2Z.id.
  pose proof (dim_loop_ok input d Hin Hfull Hrank (length ds) 0 _ eq_refl (before_start d s _ D1)) as Hp.
  unfold ds in Hp at 1. cbn [Z.of_nat] in Hp.
  destruct (dim_loop _ _ _ _ _ _) as [p|]; cbn [res_bind]; [|apply Hp].
  destruct Hp as (rs & R1 & R2 & R3 & R4 & R5 & R6). fold ds in R1, R2, R6. cbn [Z.of_nat] in R1, R6.
  cbn [processing_shape o_begin o_end is_identity slice_dim0 is_simple_slice app take] in *.
  destruct (Clear_ok true) as [HC1 HC2]. rewrite HC2 in R3. rewrite take_0 in R4, R5. cbn [app] in R3, R4, R5.
  assert (done_dims d p rs) as Hdone by (by split).
  destruct (final_ok s d p rs K2 D1 D2 Hdone) as (Hpos & f & ts & tp & -> & Hw & Hc). cbn [res_bind].
  destruct (results_lookup d (length ds) rs R1) as [Hlen Hres].
  split; cbn [proc final_shape shape_spec processing_to_sparse_mapping].
  - split; [apply R2|done].
  - done.
  - rewrite R3, R4, R5, !length_map. by rewrite Hlen.
  - done.
  - exists k, m. split; [split; [lia|done]|]. split.
    { rewrite D3, F6, K3. do 2 f_equal. unfold n. destruct (Z.ltb_spec k (NumElements st)); [done|].
      unfold entries. by rewrite !seqZ_nil by lia. }
    intros i Hi. destruct (Hres i Hi) as (r & Hr & Hdr). pose proof (ds_range input Hin Hfull Hrank i Hi) as Hdr0.
    rewrite (selects_entry s d k (Z.of_nat i)); try done; [|apply Hdr0|unfold ds in Hi; lia|].
    + fold ds. rewrite Hdr, R3, R4, R5, (b_strides _ _ _ _ R2). cbn.
      rewrite !(get_map _ rs i r Hr). by destruct r as [[? ?] ?].
    + apply (inv_entry _ _ _ _ _ _ d D1). unfold ds in Hi. lia.
  - by apply (flags_ok d p rs).
Qed.
End Validate.

(** ** The theorems *)

(** A request as the kernel makes it: index tensors of one integer type, a full input shape that fits
    the masks. *)
Record kernel_request (bt et st : Tensor) (input : Shape.t) (ell : Z) : Prop := {
  kr_shape : wf true input;
  kr_full : Forall (fun y => 0 <= y) (sizes true input);
  kr_rank : (length (sizes true input) <= 32)%nat;
  kr_begin : t_dtype bt = t_dtype st;
  kr_end : t_dtype et = t_dtype st;
  kr_type : t_dtype st <> DT_OTHER;
  kr_ellipsis : in_i32 ell
}.

Lemma request_ok (bt et st : Tensor) (input : Shape.t) (bm em ell nm sm : Z) :
  kernel_request bt et st input ell ->
  match ValidateStridedSliceOp (Some bt) (Some et) st input bm em ell nm sm with
  | Ok r => valid_slice bt et st input bm em ell nm sm r
  | Err e => e = Status InvalidArgument
  end.
Proof. intros []. by apply Validate_ok. Qed.

(** C11: The validation of a request of the kernel returns (no failed [CHECK], no undefined shift) either
    [InvalidArgument] or a slice in which every input dimension has the entry that the request means
    for it: the entries before the ellipsis, as many copies of the ellipsis as needed, and the entries
    after it, without the new axes; a dimension under the ellipsis is taken whole, an index selects
    the one position it names from either end, and a range selects what the Python slice with these
    bounds and this stride selects. *)
Theorem slice_is_python (bt et st : Tensor) (input : Shape.t) (bm em ell nm sm : Z) :
  kernel_request bt et st input ell ->
  match ValidateStridedSliceOp (Some bt) (Some et) st input bm em ell nm sm with
  | Ok r => exists k m,
      ellipsis_at ell (NumElements st) k /\
      processing_to_sparse_mapping (shape_spec r) =
        entries nm 0 k ++ replicate m k ++ entries nm (k + 1) (NumElements st - (k + 1)) /\
      forall i : nat, (i < length (sizes true input))%nat ->
        selects (t_flat bt) (t_flat et) (t_flat st) bm em sm k
          (get (Z.of_nat i) (processing_to_sparse_mapping (shape_spec r)))
          (get (Z.of_nat i) (sizes true input)) =
        Some (get (Z.of_nat i) (o_strides (proc r)),
              (get (Z.of_nat i) (o_begin (proc r)), get (Z.of_nat i) (o_end (proc r)),
               get (Z.of_nat i) (sizes true (processing_shape (proc r)))))
  | Err e => e = Status InvalidArgument
  end.
Proof.
  intros H. pose proof (request_ok bt et st input bm em ell nm sm H) as Hv.
  destruct (ValidateStridedSliceOp _ _ _ _ _ _ _ _ _); [apply Hv|done].
Qed.

(** A position that is selected lies in its dimension. *)
Lemma selects_bounds (bl el sl : list Z) (bm em sm ell j dim stride b e n k : Z) :
  0 <= dim -> selects bl el sl bm em sm ell j dim = Some (stride, (b, e, n)) -> 0 <= k < n ->
  0 <= b + k * stride < dim.
Proof.
  intros Hd H Hk. unfold selects in H. cbn zeta in H. destruct (j =? ell); [simplify_eq; lia|].
  destruct (Z.eqb_spec (get j sl) 0) as [|Hs]; [done|]. destruct (has sm j).
  - destruct (_ && _ && _) eqn:E; [|done]. zbool. simplify_eq. assert (k = 0) as -> by lia. lia.
  - simplify_eq. apply (py_positions dim) with (e := py_stop dim (if has em j then None else Some (get j el)) (get j sl)); [done| | |done].
    + by apply py_start_range.
    + by apply py_stop_range.
Qed.

(** Every position that an accepted slice visits, [begin + k * stride] for [k] below the size that
    the processing shape gives for the dimension, lies inside the input. *)
Theorem slice_in_bounds (bt et st : Tensor) (input : Shape.t) (bm em ell nm sm : Z) (r : Result) (i : nat) (k : Z) :
  kernel_request bt et st input ell ->
  ValidateStridedSliceOp (Some bt) (Some et) st input bm em ell nm sm = Ok r ->
  (i < length (sizes true input))%nat ->
  0 <= k < get (Z.of_nat i) (sizes true (processing_shape (proc r))) ->
  0 <= get (Z.of_nat i) (o_begin (proc r)) + k * get (Z.of_nat i) (o_strides (proc r))
    < get (Z.of_nat i) (sizes true input).
Proof.
  intros H Hr Hi Hk. pose proof (request_ok bt et st input bm em ell nm sm H) as Hv. rewrite Hr in Hv.
  destruct (v_select _ _ _ _ _ _ _ _ _ _ Hv) as (j & m & _ & _ & Hs).
  pose proof (ds_range input (kr_shape _ _ _ _ _ H) (kr_full _ _ _ _ _ H) (kr_rank _ _ _ _ _ H) i Hi) as Hd.
  eapply selects_bounds; [|by apply Hs|done]. lia.
Qed.

(** The variant with full shapes as outputs accepts what the variant with partial shapes accepts;
    the final shape, without the indexed dimensions and with the new axes, has as many elements as
    the slice, and the flags tell exactly the slices that take everything, that take everything but
    of the first dimension, and that have unit strides. *)
Theorem slice_shapes (bt et st : Tensor) (input : Shape.t) (bm em ell nm sm : Z) (r : Result) :
  kernel_request bt et st input ell ->
  ValidateStridedSliceOp (Some bt) (Some et) st input bm em ell nm sm = Ok r ->
  ValidateStridedSliceOpFull (Some bt) (Some et) st input bm em ell nm sm =
    Ok (r, processing_shape (proc r), final_shape r) /\
  num_elements (final_shape r) = num_elements (processing_shape (proc r)) /\
  let ds := sizes true input in
  let all i := get i (o_strides (proc r)) = 1 /\ get i (o_begin (proc r)) = 0 /\
               get i (o_end (proc r)) = get i ds in
  let each (P : Z -> Prop) := forall i : nat, (i < length ds)%nat -> P (Z.of_nat i) in
  (is_identity (proc r) = true <-> each all) /\
  (slice_dim0 (proc r) = true <-> each (fun i => (i = 0 /\ get i (o_strides (proc r)) = 1) \/ all i)) /\
  (is_simple_slice (proc r) = true <-> each (fun i => get i (o_strides (proc r)) = 1)).
Proof.
  intros H Hr. pose proof (request_ok bt et st input bm em ell nm sm H) as Hv. rewrite Hr in Hv.
  destruct Hv as [[W1 W2] Hc _ Hf _ Hflags]. unfold ValidateStridedSliceOpFull. rewrite Hr. cbn [res_bind].
  assert (0 <= count (sizes true (processing_shape (proc r)))) as H0.
  { apply (count_below _ (sizes true (processing_shape (proc r)))), Forall_Forall2_diag.
    refine (list.Forall_impl _ _ _ Hf _). intros y Hy. unfold below. lia. }
  unfold AsTensorShape, IsFullyDefined. cbn [negb orb].
  rewrite (wf_num true _ W1), (wf_num true _ W2), Hc.
  rewrite (proj2 (Z.eqb_neq _ (-1))) by lia. cbn [negb]. split; [done|]. split; [done|]. exact Hflags.
Qed.

(** [foo[3, ..., 8:2:-2]] of a tensor of shape [[10, 4, 9]] *)
Definition sample_begin : Tensor := mkTensor [3] DT_INT32 [3; 0; 8].
Definition sample_end : Tensor := mkTensor [3] DT_INT32 [4; 0; 2].
Definition sample_strides : Tensor := mkTensor [3] DT_INT32 [1; 1; -2].
Definition sample_input : Shape.t := mk REP16 [10; 4; 9] 3 360.

Lemma sample_request : kernel_request sample_begin sample_end sample_strides sample_input 2.
Proof.
  split; try done.
  - apply (InitDims_ok true [10; 4; 9]).
    repeat (apply list.Forall_cons; split); try apply list.Forall_nil; unfold arg; lia.
  - cbn. repeat (apply list.Forall_cons; split); try apply list.Forall_nil; lia.
  - cbn. lia.
Qed.

Lemma slice_is_python_witness :
  exists r, ValidateStridedSliceOp (Some sample_begin) (Some sample_end) sample_strides sample_input 0 0 2 0 1 = Ok r /\
    exists k m, ellipsis_at 2 3 k /\
      processing_to_sparse_mapping (shape_spec r) = entries 0 0 k ++ replicate m k ++ entries 0 (k + 1) (3 - (k + 1)).
Proof.
  pose proof (slice_is_python sample_begin sample_end sample_strides sample_input 0 0 2 0 1 sample_request) as H.
  destruct (ValidateStridedSliceOp (Some sample_begin) (Some sample_end) sample_strides sample_input 0 0 2 0 1)
    as [r|e] eqn:E; [|vm_compute in E; discriminate].
  exists r. split; [reflexivity|]. destruct H as (k & m & H1 & H2 & _).
  exists k, m. split; [exact H1|exact H2].
Defined.

Lemma slice_in_bounds_witness :
  exists r, ValidateStridedSliceOp (Some sample_begin) (Some sample_end) sample_strides sample_input 0 0 2 0 1 = Ok r /\
    0 <= get 2 (o_begin (proc r)) + 2 * get 2 (o_strides (proc r)) < 9.
Proof.
  destruct (ValidateStridedSliceOp (Some sample_begin) (Some sample_end) sample_strides sample_input 0 0 2 0 1)
    as [r|e] eqn:E; [|vm_compute in E; discriminate].
  exists r. split; [reflexivity|].
  apply (slice_in_bounds sample_begin sample_end sample_strides sample_input 0 0 2 0 1 r 2 2 sample_request E);
    [cbn; lia|]. vm_compute in E. injection E as <-. vm_compute. split; [discriminate|reflexivity].
Defined.

Lemma slice_shapes_witness :
  exists r, ValidateStridedSliceOp (Some sample_begin) (Some sample_end) sample_strides sample_input 0 0 2 0 1 = Ok r /\
    num_elements (final_shape r) = 12 /\ is_identity (proc r) = false.
Proof.
  destruct (ValidateStridedSliceOp (Some sample_begin) (Some sample_end) sample_strides sample_input 0 0 2 0 1)
    as [r|e] eqn:E; [|vm_compute in E; discriminate].
  exists r. split; [reflexivity|].
  destruct (slice_shapes sample_begin sample_end sample_strides sample_input 0 0 2 0 1 r sample_request E) as (_ & H & _).
  rewrite H. vm_compute in E. injection E as <-. split; reflexivity.
Defined.

(** With a partial input shape the validation can crash: indexing the first dimension, of unknown
    size, of a shape [[?, 2^40, 2^40]] makes the processing shape [[1, 2^40, 2^40]], whose number of
    elements overflows, and [AddDim] fails its [CHECK]. *)
Example partial_shape_crashes :
  InitDims true [-1; 2 ^ 40; 2 ^ 40] = Ok (mk REP_OUT_OF_LINE [-1; 2 ^ 40; 2 ^ 40] 3 (-1)) /\
  ValidateStridedSliceOp (Some (mkTensor [1] DT_INT32 [0])) (Some (mkTensor [1] DT_INT32 [1]))
    (mkTensor [1] DT_INT32 [1]) (mk REP_OUT_OF_LINE [-1; 2 ^ 40; 2 ^ 40] 3 (-1)) 0 0 0 0 1 = Err CheckFailed.
Proof. split; vm_compute; reflexivity. Qed.
