(* ===== verification/SliceAssign.v ===== *)
(** * Assigning to a slice: [StridedSliceAssignBCast]

    The constructor accepts exactly the values that NumPy broadcasts to the
    slice, and the reshaped value repeated by the broadcast factors has the
    shape of the slice, also after its dimensions are mapped to those of the
    tensor that is assigned to. *)

From S2P Require Import Prelude StridedSlice.
Import Slice.

(** ** The specification: shapes aligned at their last dimensions *)

Fixpoint broadcasts (input output : list Z) : bool :=
  match input, output with
  | [], _ => true
  | x :: i, [] => (x =? 1) && broadcasts i []
  | x :: i, y :: o => ((x =? y) || (x =? 1)) && broadcasts i o
  end.

(** The value, reshaped to [r] and repeated [b] times, fills the shape [o]. *)
Definition fills (r b o : list Z) : Prop :=
  length r = length o /\ length b = length o /\
  forall i : nat, (i < length o)%nat -> nth i r 0 * nth i b 0 = nth i o 0.

Definition fits (x y : Z) : bool := (x =? y) || (x =? 1).

Fixpoint fits_all (r o : list Z) : bool :=
  match r, o with x :: r', y :: o' => fits x y && fits_all r' o' | _, _ => true end.

Lemma fits_all_app (r1 r2 o1 o2 : list Z) :
  length r1 = length o1 -> fits_all (r1 ++ r2) (o1 ++ o2) = fits_all r1 o1 && fits_all r2 o2.
Proof.
  revert o1. induction r1 as [|x r1 IH]; intros [|y o1] H; try done. cbn [app fits_all].
  rewrite IH by (cbn in H; lia). by rewrite andb_assoc.
Qed.

Lemma fits_all_rev (r o : list Z) : length r = length o -> fits_all (rev r) (rev o) = fits_all r o.
Proof.
  revert o. induction r as [|x r IH]; intros [|y o] H; try done. cbn [rev fits_all].
  rewrite fits_all_app by (rewrite !length_rev; cbn in H; lia). rewrite IH by (cbn in H; lia).
  cbn [fits_all]. rewrite andb_true_r. apply andb_comm.
Qed.

Lemma broadcasts_nil (i : list Z) : broadcasts i [] = negb (existsb (fun d => negb (d =? 1)) i).
Proof.
  induction i as [|x i IH]; cbn; [done|]. rewrite IH, negb_orb, negb_involutive. done.
Qed.

(** Leading dimensions of the input beyond the output must be one. *)
Lemma broadcasts_app (r k o : list Z) :
  length r = length o -> broadcasts (r ++ k) o = fits_all r o && broadcasts k [].
Proof.
  revert o. induction r as [|x r IH]; intros [|y o] H; try done. cbn [app broadcasts fits_all].
  rewrite IH by (cbn in H; lia). unfold fits. by rewrite andb_assoc.
Qed.

Lemma existsb_rev {A} (f : A -> bool) (l : list A) : existsb f (rev l) = existsb f l.
Proof.
  induction l as [|x l IH]; [done|]. cbn [rev existsb]. rewrite existsb_app, IH. cbn [existsb].
  rewrite orb_false_r. apply orb_comm.
Qed.

(** Missing leading dimensions of the input count as one. *)
Lemma broadcasts_short (i o : list Z) (m : nat) :
  (length i + m)%nat = length o -> broadcasts i o = fits_all (i ++ replicate m 1) o.
Proof.
  revert o. induction i as [|x i IH]; intros o H; cbn [app broadcasts].
  - revert o H. induction m as [|m IHm]; intros [|y o] H; try done. cbn [replicate fits_all].
    unfold fits. rewrite Z.eqb_refl, orb_true_r. cbn [andb]. apply IHm. cbn in *. lia.
  - destruct o as [|y o]; [done|]. cbn [fits_all]. rewrite IH by (cbn in H; lia). done.
Qed.

(** ** The loop of the constructor *)

Lemma nth_insert_eq (l : list Z) (i : nat) (v : Z) : (i < length l)%nat -> nth i (<[i := v]> l) 0 = v.
Proof. intros H. apply nth_lookup_Some, list_lookup_insert_eq, H. Qed.

Lemma nth_insert_ne (l : list Z) (i j : nat) (v : Z) : i <> j -> nth i (<[j := v]> l) 0 = nth i l 0.
Proof. intros H. rewrite !nth_lookup. by rewrite list_lookup_insert_ne by done. Qed.

Lemma drop_nth (l : list Z) (i : nat) : (i < length l)%nat -> drop i l = nth i l 0 :: drop (S i) l.
Proof.
  intros H. destruct (lookup_lt_is_Some_2 l i H) as [x Hx]. rewrite (drop_S _ _ _ Hx).
  by rewrite (nth_lookup_Some _ _ _ _ Hx).
Qed.

Lemma bcast_loop_ok (n i : nat) (o : list Z) (b : BCast) :
  (i + n)%nat = length o -> length (reshape_ b) = length o -> length (bcast_ b) = length o -> valid_ b = true ->
  let b' := bcast_loop i n o b in
  valid_ b' = fits_all (drop i (reshape_ b)) (drop i o) /\ reshape_ b' = reshape_ b /\
  result_shape_ b' = result_shape_ b /\ length (bcast_ b') = length o /\
  (forall j : nat, (j < i)%nat -> nth j (bcast_ b') 0 = nth j (bcast_ b) 0) /\
  (valid_ b' = true -> forall j : nat, (i <= j < length o)%nat ->
    nth j (reshape_ b) 0 * nth j (bcast_ b') 0 = nth j o 0).
Proof.
  revert i b. induction n as [|n IH]; intros i b Hn Hr Hb Hv; cbn [bcast_loop].
  - cbn zeta. rewrite (drop_ge o), (drop_ge (reshape_ b)) by lia. repeat split; try done. lia.
  - cbn zeta. rewrite (drop_nth (reshape_ b) i), (drop_nth o i) by lia. cbn [fits_all].
    unfold fits. destruct (Z.eqb_spec (nth i (reshape_ b) 0) (nth i o 0)) as [E|E];
      [|destruct (Z.eqb_spec (nth i (reshape_ b) 0) 1) as [E1|E1]].
    + cbn [orb andb]. destruct (IH (S i) (mkBCast (valid_ b) (broadcasting_required_ b) (reshape_ b)
        (<[i := 1]> (bcast_ b)) (result_shape_ b))) as (I1 & I2 & I3 & I4 & I5 & I6);
        cbn [reshape_ bcast_ valid_ result_shape_] in *; [lia|done|by rewrite length_insert|done|].
      repeat split; try done.
      * intros j Hj. rewrite I5 by lia. apply nth_insert_ne. lia.
      * intros Hval j Hj. destruct (decide (j = i)) as [->|]; [|apply I6; [done|lia]].
        rewrite I5, nth_insert_eq, E by lia. lia.
    + cbn [orb andb]. destruct (IH (S i) (mkBCast (valid_ b) true (reshape_ b)
        (<[i := nth i o 0]> (bcast_ b)) (result_shape_ b))) as (I1 & I2 & I3 & I4 & I5 & I6);
        cbn [reshape_ bcast_ valid_ result_shape_] in *; [lia|done|by rewrite length_insert|done|].
      repeat split; try done.
      * intros j Hj. rewrite I5 by lia. apply nth_insert_ne. lia.
      * intros Hval j Hj. destruct (decide (j = i)) as [->|]; [|apply I6; [done|lia]].
        rewrite I5, nth_insert_eq, E1 by lia. lia.
    + by repeat split.
Qed.

(** ** The theorems *)

Lemma constructor_ok (i o : list Z) :
  let b := StridedSliceAssignBCast i o in
  valid_ b = broadcasts (rev i) (rev o) /\ result_shape_ b = o /\
  (valid_ b = true -> fills (reshape_ b) (bcast_ b) o).
Proof.
  unfold StridedSliceAssignBCast. cbn zeta. destruct (Nat.ltb_spec (length o) (length i)) as [Hl|Hl].
  - set (k := (length i - length o)%nat).
    assert (broadcasts (rev i) (rev o) =
            fits_all (drop k i) o && negb (existsb (fun d => negb (d =? 1)) (take k i))) as ->.
    { rewrite <- (take_drop k i) at 1. rewrite rev_app_distr, broadcasts_app by (rewrite !length_rev, length_drop; lia).
      rewrite fits_all_rev by (rewrite length_drop; lia). by rewrite broadcasts_nil, existsb_rev. }
    destruct (existsb _ _); [rewrite andb_false_r; done|]. rewrite andb_true_r.
    pose proof (bcast_loop_ok (length o) 0 o (mkBCast true false (drop k i) (replicate (length o) 0) o) eq_refl) as H.
    cbn [reshape_ bcast_ valid_ result_shape_] in H.
    destruct H as (H1 & H2 & H3 & H4 & _ & H6); [rewrite length_drop; lia|apply length_replicate|done|].
    rewrite !drop_0 in H1. repeat split; try done; [rewrite H2, length_drop; lia|].
    intros j Hj. rewrite H2. apply H6; [done|lia].
  - set (k := (length o - length i)%nat).
    assert (broadcasts (rev i) (rev o) = fits_all (replicate k 1 ++ i) o) as ->.
    { rewrite (broadcasts_short _ _ k) by (rewrite !length_rev; lia).
      rewrite <- (fits_all_rev (replicate k 1 ++ i) o) by (rewrite length_app, length_replicate; lia). rewrite rev_app_distr.
      do 2 f_equal. generalize k. clear. intros k. induction k as [|k IH]; [done|].
      cbn [rev replicate]. rewrite <- IH. apply replicate_cons_app. }
    pose proof (bcast_loop_ok (length o) 0 o (mkBCast true false (replicate k 1 ++ i) (replicate (length o) 0) o) eq_refl) as H.
    cbn [reshape_ bcast_ valid_ result_shape_] in H.
    destruct H as (H1 & H2 & H3 & H4 & _ & H6);
      [rewrite length_app, length_replicate; lia|apply length_replicate|done|].
    rewrite !drop_0 in H1. repeat split; try done; [rewrite H2, length_app, length_replicate; lia|].
    intros j Hj. rewrite H2. apply H6; [done|lia].
Qed.

(** ** Remapping *)

Definition filled (b : BCast) (n : nat) : Prop :=
  length (reshape_ b) = n /\ length (bcast_ b) = n /\ length (result_shape_ b) = n /\
  forall i : nat, (i < n)%nat -> nth i (reshape_ b) 0 * nth i (bcast_ b) 0 = nth i (result_shape_ b) 0.

Lemma put_filled (b : BCast) (n : nat) (dim r c o : Z) :
  filled b n -> r * c = o ->
  filled (mkBCast (valid_ b) (broadcasting_required_ b) (put dim r (reshape_ b)) (put dim c (bcast_ b))
            (put dim o (result_shape_ b))) n.
Proof.
  intros (H1 & H2 & H3 & H4) Ho. unfold put, filled. cbn [reshape_ bcast_ result_shape_]. rewrite !length_insert.
  repeat split; [done..|]. intros i Hi. destruct (decide (i = Z.to_nat dim)) as [->|Hne].
  - rewrite !nth_insert_eq by lia. done.
  - rewrite !nth_insert_ne by done. by apply H4.
Qed.

Lemma remap_filled (l : list (Z * (Z * Z * Z))) (b : BCast) (n : nat) :
  filled b n -> Forall (fun e => e.2.1.1 * e.2.1.2 = e.2.2) l ->
  filled (remap_loop l b) n.
Proof.
  intros Hb Hl. revert b Hb. induction Hl as [|[dim [[r c] o]] l Ho _ IH]; intros b Hb; cbn [remap_loop]; [done|].
  apply IH. destruct (0 <=? dim); [|done]. by apply put_filled.
Qed.

(** An entry that no later entry overwrites. *)
Lemma remap_keeps (l : list (Z * (Z * Z * Z))) (b : BCast) (d : Z) :
  0 <= d -> Forall (fun e => e.1 <> d) l ->
  get d (result_shape_ (remap_loop l b)) = get d (result_shape_ b).
Proof.
  intros Hd Hl. revert b. induction Hl as [|[dim [[r c] o]] l Hne _ IH]; intros b; cbn [remap_loop]; [done|].
  rewrite IH. cbn in Hne. destruct (Z.leb_spec 0 dim); [|done]. cbn [result_shape_]. unfold get, put.
  apply nth_insert_ne. lia.
Qed.

Lemma remap_result (l : list (Z * (Z * Z * Z))) (b : BCast) (n i : nat) (d r c o : Z) :
  filled b n -> 0 <= d < Z.of_nat n -> l !! i = Some (d, (r, c, o)) ->
  (forall (j : nat) e, j <> i -> l !! j = Some e -> e.1 <> d) ->
  Forall (fun e => e.2.1.1 * e.2.1.2 = e.2.2) l ->
  get d (result_shape_ (remap_loop l b)) = o.
Proof.
  intros Hb Hd. revert b i Hb. induction l as [|[dim [[r' c'] o']] l IH]; intros b i Hb Hi Hother Hl; [done|].
  apply list.Forall_cons in Hl as [Ho Hl]. cbn [remap_loop]. cbn in Ho. destruct i as [|i].
  - cbn in Hi. simplify_eq. rewrite (proj2 (Z.leb_le 0 d)) by lia. rewrite remap_keeps; [|lia|].
    + cbn [result_shape_]. unfold get, put. apply nth_insert_eq. destruct Hb as (_ & _ & H3 & _). lia.
    + apply list.Forall_lookup. intros j e He. apply (Hother (S j) e); [lia|done].
  - apply (IH _ i); [|done| |done].
    + destruct (0 <=? dim); [by apply put_filled|done].
    + intros j e Hj He. apply (Hother (S j) e); [lia|done].
Qed.

(** The entries that the remapping writes. *)
Lemma remap_entries (b : BCast) (o m : list Z) :
  fills (reshape_ b) (bcast_ b) o -> length m = length o ->
  let es := zip m (zip (zip (reshape_ b) (bcast_ b)) o) in
  (forall (k : nat) d, m !! k = Some d ->
    es !! k = Some (d, (nth k (reshape_ b) 0, nth k (bcast_ b) 0, nth k o 0))) /\
  (forall (k : nat) e, es !! k = Some e -> m !! k = Some e.1) /\
  Forall (fun e => e.2.1.1 * e.2.1.2 = e.2.2) es.
Proof.
  intros (F1 & F2 & F3) Hl es.
  assert (forall (k : nat) d, m !! k = Some d ->
    es !! k = Some (d, (nth k (reshape_ b) 0, nth k (bcast_ b) 0, nth k o 0))) as Hes.
  { intros k d Hk. pose proof (lookup_lt_Some _ _ _ Hk) as Hlt. unfold es. rewrite !lookup_zip_with, Hk.
    destruct (lookup_lt_is_Some_2 (reshape_ b) k ltac:(lia)) as [x Hx].
    destruct (lookup_lt_is_Some_2 (bcast_ b) k ltac:(lia)) as [y Hy].
    destruct (lookup_lt_is_Some_2 o k ltac:(lia)) as [z Hz].
    by rewrite Hx, Hy, Hz, (nth_lookup_Some _ _ _ _ Hx), (nth_lookup_Some _ _ _ _ Hy), (nth_lookup_Some _ _ _ _ Hz). }
  assert (forall (k : nat) e, es !! k = Some e -> m !! k = Some e.1) as Hfst.
  { intros k e He. pose proof (lookup_lt_Some _ _ _ He) as Hlt. unfold es in Hlt. rewrite length_zip_with in Hlt.
    destruct (lookup_lt_is_Some_2 m k ltac:(lia)) as [d Hd]. rewrite (Hes k d Hd) in He. by simplify_eq. }
  repeat split; [done..|]. apply list.Forall_lookup. intros k e He. pose proof (Hfst k e He) as Hk.
  rewrite (Hes k _ Hk) in He. injection He as <-. cbn in *. apply F3. apply lookup_lt_Some in Hk. lia.
Qed.

Lemma remap_guard (n : nat) (m : list Z) :
  existsb (fun dim => Z.of_nat n <=? dim) m = false <-> Forall (fun d => d < Z.of_nat n) m.
Proof.
  rewrite <- not_true_iff_false, existsb_exists, list.Forall_forall. split.
  - intros H d Hd. apply Z.nle_gt. intros Hle. apply H. exists d. split; [by apply list_elem_of_In|by apply Z.leb_le].
  - intros H (d & Hd & Hle). specialize (H d (proj2 (list_elem_of_In _ _) Hd)). zbool. lia.
Qed.

Lemma ones_filled (n : nat) (v w : bool) : filled (mkBCast v w (replicate n 1) (replicate n 1) (replicate n 1)) n.
Proof.
  repeat split; try apply length_replicate. intros i Hi. cbn [reshape_ bcast_ result_shape_].
  by rewrite (nth_lookup_Some _ _ _ 1) by (by apply lookup_replicate_2).
Qed.

(** [StridedSliceAssignBCast] is valid exactly for values that NumPy broadcasts to the shape of the
    slice (aligned at the last dimension; leading dimensions of the value beyond the slice are one);
    then the reshaped value, repeated by the broadcast factors, has the shape of the slice.
    [RemapDimensions] succeeds exactly for a map with an entry for every dimension and no entry
    beyond the new rank, changes nothing if it fails, and otherwise keeps that property and moves
    the size of a dimension that is mapped to a place of its own to that place. *)
Theorem assign_broadcast (i o : list Z) (num_dims : nat) (dimension_map : list Z) :
  let b := StridedSliceAssignBCast i o in
  let '(ok, b') := RemapDimensions b num_dims dimension_map in
  valid_ b = broadcasts (rev i) (rev o) /\
  (valid_ b = true -> fills (reshape_ b) (bcast_ b) o) /\
  (ok = true <-> length dimension_map = length o /\ Forall (fun d => d < Z.of_nat num_dims) dimension_map) /\
  (ok = false -> b' = b) /\
  (ok = true -> valid_ b = true ->
    filled b' num_dims /\
    forall (k : nat) d, dimension_map !! k = Some d -> 0 <= d ->
      (forall (j : nat) d', j <> k -> dimension_map !! j = Some d' -> d' <> d) ->
      get d (result_shape_ b') = nth k o 0).
Proof.
  intros b. destruct (constructor_ok i o) as (Hv & Ho & Hf). fold b in Hv, Ho, Hf. unfold RemapDimensions.
  rewrite Ho. pose proof (remap_guard num_dims dimension_map) as Hg.
  destruct (Nat.eqb_spec (length dimension_map) (length o)) as [El|El]; cbn [negb]; cycle 1.
  { split; [done|]. split; [done|]. split; [|done]. split; [done|]. by intros []. }
  destruct (existsb _ dimension_map).
  { split; [done|]. split; [done|]. split; [|done]. split; [done|]. intros [_ H]. by apply Hg in H. }
  split; [done|]. split; [done|]. split; [tauto|]. split; [done|]. intros _ Hval.
  destruct (remap_entries b o dimension_map (Hf Hval) El) as (E1 & E2 & E3).
  split; [apply remap_filled; [apply ones_filled|done]|].
  intros k d Hk Hd Hother.
  apply (remap_result _ _ num_dims k d (nth k (reshape_ b) 0) (nth k (bcast_ b) 0)); [apply ones_filled| |by apply E1| |done].
  - split; [done|]. destruct Hg as [Hg _]. specialize (Hg eq_refl). rewrite list.Forall_lookup in Hg. by apply (Hg k).
  - intros j e Hj He. apply (Hother j); [done|]. by apply E2.
Qed.
