(* ===== verification/ArenaPlanner.v ===== *)
(** * The TFLite memory planner ([lite/arena_planner.{h,cc}])

    [ArenaPlanner] decides from the graph when each tensor is first and last
    used ([PlanAllocations]), gives every tensor of the arena types a place in
    one of two [SimpleMemoryArena]s ([CalculateAllocations]) and sets the data
    pointers of the tensors ([ExecuteAllocations]).

    The graph ([GraphInfo], an interface) is a record; the tensors it owns are
    part of the state, since the planner writes their data pointers.  A failed
    [TF_LITE_ENSURE] is [Err tt]; the half-done state it leaves behind is not
    tracked.  The iteration order of [std::unordered_set] is unspecified: it is
    the parameter [iter].  [std::sort] is a stable sort.  The blocks that
    [new char[]] returns are arguments, as in [Arena.Commit]. *)

From S2P Require Import Prelude Arena.

Module Planner.
Import Arena.

Open Scope res_scope.

Definition kDefaultArenaAlignment : Z := 64.
Definition kTfLiteOptionalTensor : Z := -1.
Definition kNodeNotAssigned : Z := i32_max.
Definition kLastActiveNodeUndefined : Z := i32_max.

(** [TfLiteAllocationType]: the two arena types and all others. *)
Inductive TfLiteAllocationType := kTfLiteArenaRw | kTfLiteArenaRwPersistent | kTfLiteOther.

#[global] Instance TfLiteAllocationType_eq_dec : EqDecision TfLiteAllocationType.
Proof. solve_decision. Defined.

(** What the planner uses of [TfLiteTensor] and [TfLiteNode]. *)
Record TfLiteTensor := mkTensor { allocation_type : TfLiteAllocationType; bytes : Z; data : option Z }.
Record TfLiteNode := mkNode { n_inputs : list Z; n_outputs : list Z; n_temporaries : list Z }.

(** [class GraphInfo] without its tensors *)
Record GraphInfo := mkGraph { nodes : list TfLiteNode; inputs : list Z; outputs : list Z; variables : list Z }.

(** The members of [class ArenaPlanner], and the tensors of the graph. *)
Record t := mkPlanner {
  tensors : list TfLiteTensor;
  allocs : list Alloc;
  nodes_to_tensors : list (list Z);
  alloc_node : list Z;
  dealloc_node : list Z;
  arena : Arena.t;
  persistent_arena : Arena.t;
  preserve_all_tensors : bool;
  tensor_alignment : Z;
  last_active_node : Z
}.

(** [ArenaPlanner::ArenaPlanner] *)
Definition ArenaPlanner (ts : list TfLiteTensor) (preserve : bool) (alignment junk1 junk2 : Z) : t :=
  mkPlanner ts [] [] [] [] (SimpleMemoryArena kDefaultArenaAlignment junk1)
    (SimpleMemoryArena kDefaultArenaAlignment junk2) preserve alignment kLastActiveNodeUndefined.

Definition at_ (i : Z) (l : list Z) : Z := nth (Z.to_nat i) l kNodeNotAssigned.
Definition set_at {A} (i : Z) (v : A) (l : list A) : list A := <[Z.to_nat i := v]> l.
Definition alloc_at (i : Z) (l : list Alloc) : Alloc := nth (Z.to_nat i) l reset.
Definition tensor_at (i : Z) (l : list TfLiteTensor) : TfLiteTensor :=
  nth (Z.to_nat i) l (mkTensor kTfLiteOther 0 None).

Definition with_allocs (s : t) (a : list Alloc) : t :=
  mkPlanner (tensors s) a (nodes_to_tensors s) (alloc_node s) (dealloc_node s) (arena s)
    (persistent_arena s) (preserve_all_tensors s) (tensor_alignment s) (last_active_node s).
Definition with_arenas (s : t) (a p : Arena.t) : t :=
  mkPlanner (tensors s) (allocs s) (nodes_to_tensors s) (alloc_node s) (dealloc_node s) a p
    (preserve_all_tensors s) (tensor_alignment s) (last_active_node s).
Definition with_last (s : t) (n : Z) : t :=
  mkPlanner (tensors s) (allocs s) (nodes_to_tensors s) (alloc_node s) (dealloc_node s) (arena s)
    (persistent_arena s) (preserve_all_tensors s) (tensor_alignment s) n.
Definition with_tensors (s : t) (ts : list TfLiteTensor) : t :=
  mkPlanner ts (allocs s) (nodes_to_tensors s) (alloc_node s) (dealloc_node s) (arena s)
    (persistent_arena s) (preserve_all_tensors s) (tensor_alignment s) (last_active_node s).
Definition with_nodes (s : t) (n2t : list (list Z)) (an dn : list Z) : t :=
  mkPlanner (tensors s) (allocs s) n2t an dn (arena s)
    (persistent_arena s) (preserve_all_tensors s) (tensor_alignment s) (last_active_node s).

Definition set_data (p : option Z) (x : TfLiteTensor) : TfLiteTensor := mkTensor (allocation_type x) (bytes x) p.

(** [ArenaPlanner::BasePointer] *)
Definition BasePointer (s : t) (ty : TfLiteAllocationType) : Z :=
  match ty with
  | kTfLiteArenaRwPersistent => Arena.BasePointer (persistent_arena s)
  | kTfLiteArenaRw => Arena.BasePointer (arena s)
  | kTfLiteOther => 0
  end.

(** [ArenaPlanner::ResetAllocations] *)
Definition ResetAllocations (s : t) : t :=
  with_last
    (with_allocs (with_arenas s (ClearPlan (arena s)) (ClearPlan (persistent_arena s)))
       (replicate (length (tensors s)) reset))
    kLastActiveNodeUndefined.

(** The loop of [ResetAllocationsAfter]: the allocations and tensors after it. *)
Fixpoint reset_after (node : Z) (l : list Alloc) (ts : list TfLiteTensor) : list Alloc * list TfLiteTensor :=
  match l, ts with
  | a :: l', x :: ts' =>
      let '(l'', ts'') := reset_after node l' ts' in
      if (node <? first_node a) && (0 <? alloc_size a) && bool_decide (allocation_type x = kTfLiteArenaRw)
      then (reset :: l'', set_data None x :: ts'') else (a :: l'', x :: ts'')
  | _, _ => (l, ts)
  end.

(** [ArenaPlanner::ResetAllocationsAfter] *)
Definition ResetAllocationsAfter (s : t) (node : Z) : t :=
  let '(l, ts) := reset_after node (allocs s) (tensors s) in
  let a := if node <? last_active_node s then CalculateActiveAllocs (arena s) l node
           else PurgeAfter (arena s) node in
  with_last (with_arenas (with_tensors (with_allocs s l) ts) a (persistent_arena s)) node.

(** ** [PlanAllocations] *)

(** The variables of [PlanAllocations]. *)
Record Plan := mkPlan { p_alloc : list Z; p_dealloc : list Z; p_sets : list (list Z); refcounts : list Z }.

Definition count_at (i : Z) (l : list Z) : Z := nth (Z.to_nat i) l 0.
Definition add_ref (d : Z) (i : Z) (p : Plan) : Plan :=
  mkPlan (p_alloc p) (p_dealloc p) (p_sets p) (set_at i (wrap_i32 (count_at i (refcounts p) + d)) (refcounts p)).

(** The lambdas [allocate] and [deallocate] *)
Definition allocate (node ten : Z) (p : Plan) : res unit Plan :=
  if negb (at_ ten (p_alloc p) =? kNodeNotAssigned) then Ok p
  else
    check! at_ ten (p_dealloc p) =? kNodeNotAssigned else tt in
    Ok (mkPlan (set_at ten node (p_alloc p)) (p_dealloc p) (p_sets p) (refcounts p)).

Definition deallocate (node ten : Z) (p : Plan) : res unit Plan :=
  if at_ ten (p_alloc p) =? kNodeNotAssigned then Ok p
  else
    check! at_ ten (p_dealloc p) =? kNodeNotAssigned else tt in
    Ok (mkPlan (p_alloc p) (set_at ten node (p_dealloc p)) (p_sets p) (refcounts p)).

(** [std::unordered_set::insert] *)
Definition set_insert (x : Z) (l : list Z) : list Z := if decide (x ∈ l) then l else l ++ [x].
Definition insert_tensor (node ten : Z) (p : Plan) : Plan :=
  mkPlan (p_alloc p) (p_dealloc p)
    (set_at node (set_insert ten (nth (Z.to_nat node) (p_sets p) [])) (p_sets p)) (refcounts p).

(** [for (x : l) ...] with a body that may fail *)
Fixpoint each {S A} (body : A -> S -> res unit S) (l : list A) (s : S) : res unit S :=
  match l with
  | [] => Ok s
  | x :: l' => let! s' := body x s in each body l' s'
  end.

Definition plan_output (ten : Z) (p : Plan) : res unit Plan := Ok (add_ref 1 ten p).

Definition plan_variable (ten : Z) (p : Plan) : res unit Plan :=
  let p := add_ref 1 ten p in
  check! negb (ten =? kTfLiteOptionalTensor) else tt in
  let! p := allocate 0 ten p in Ok (insert_tensor 0 ten p).

Definition plan_input (ten : Z) (p : Plan) : res unit Plan :=
  if negb (ten =? kTfLiteOptionalTensor) then
    let! p := allocate 0 ten (add_ref 1 ten p) in Ok (insert_tensor 0 ten p)
  else Ok p.

Definition count_input (ten : Z) (p : Plan) : res unit Plan :=
  if negb (ten =? kTfLiteOptionalTensor) then Ok (add_ref 1 ten p) else Ok p.

Definition node_output (i : Z) (ten : Z) (p : Plan) : res unit Plan :=
  let! p := allocate i ten p in Ok (insert_tensor i ten p).

Definition node_input (i : Z) (ten : Z) (p : Plan) : res unit Plan :=
  if negb (ten =? kTfLiteOptionalTensor) then
    let p := add_ref (-1) ten p in
    if count_at ten (refcounts p) =? 0 then deallocate i ten p else Ok p
  else Ok p.

(** The body of the loop over the nodes. *)
Definition plan_node (preserve : bool) (i : Z) (n : TfLiteNode) (p : Plan) : res unit Plan :=
  let! p := each (node_output i) (n_outputs n) p in
  if negb preserve then each (node_input i) (n_inputs n) p else Ok p.

Fixpoint plan_nodes (preserve : bool) (i : Z) (l : list TfLiteNode) (p : Plan) : res unit Plan :=
  match l with
  | [] => Ok p
  | n :: l' => let! p' := plan_node preserve i n p in plan_nodes preserve (i + 1) l' p'
  end.

Definition plan (g : GraphInfo) (preserve : bool) (num_tensors : nat) : res unit Plan :=
  let p := mkPlan (replicate num_tensors kNodeNotAssigned) (replicate num_tensors kNodeNotAssigned)
             (replicate (Nat.max (length (nodes g)) 1) []) (replicate num_tensors 0) in
  let! p := each plan_output (outputs g) p in
  let! p := each plan_variable (variables g) p in
  let! p := each plan_input (inputs g) p in
  let! p := each (fun n p => each count_input (n_inputs n) p) (nodes g) p in
  plan_nodes preserve 0 (nodes g) p.

(** [ArenaPlanner::PlanAllocations] *)
Definition PlanAllocations (g : GraphInfo) (s : t) : res unit t :=
  let s := ResetAllocations s in
  let! p := plan g (preserve_all_tensors s) (length (tensors s)) in
  Ok (with_nodes s (p_sets p) (p_alloc p) (p_dealloc p)).

(** ** [CalculateAllocations] *)

(** The lambda [tensor_compare] *)
Definition whole_life (s : t) (i : Z) : bool :=
  (at_ i (alloc_node s) =? 0) && (at_ i (dealloc_node s) =? kNodeNotAssigned).
Definition tensor_compare (s : t) (idx1 idx2 : Z) : bool :=
  if whole_life s idx1 then (if whole_life s idx2 then idx1 <? idx2 else true)
  else if whole_life s idx2 then false
  else
    let size1 := bytes (tensor_at idx1 (tensors s)) in
    let size2 := bytes (tensor_at idx2 (tensors s)) in
    if negb (size1 =? size2) then size2 <? size1
    else at_ idx1 (alloc_node s) <? at_ idx2 (alloc_node s).

(** [std::sort] *)
Fixpoint sort_insert (lt : Z -> Z -> bool) (x : Z) (l : list Z) : list Z :=
  match l with
  | [] => [x]
  | y :: l' => if lt y x then y :: sort_insert lt x l' else x :: l
  end.
Definition sort_by (lt : Z -> Z -> bool) (l : list Z) : list Z := fold_right (sort_insert lt) [] l.

(** [ArenaPlanner::CreateTensorAllocationVector] *)
Definition CreateTensorAllocationVector (s : t) (l : list Z) : list Z := sort_by (tensor_compare s) l.

Section Iteration.
Context (iter : list Z -> list Z).

(** [ArenaPlanner::GetTensorsToAllocate] *)
Definition GetTensorsToAllocate (s : t) (first last : Z) : list Z :=
  concat (map (fun i => iter (nth (Z.to_nat i) (nodes_to_tensors s) [])) (seqZ first (last - first + 1))).

(** The tensors of a list that need an allocation. *)
Definition needs_allocation (s : t) (i : Z) : bool :=
  match allocation_type (tensor_at i (tensors s)) with
  | kTfLiteArenaRw => alloc_size (alloc_at i (allocs s)) <? bytes (tensor_at i (tensors s))
  | kTfLiteArenaRwPersistent => true
  | kTfLiteOther => false
  end.

(** The body of the loop that allocates the tensors. *)
Definition allocate_tensor (i : Z) (s : t) : res unit t :=
  let x := tensor_at i (tensors s) in
  match allocation_type x with
  | kTfLiteArenaRw =>
      let! (a, al) := Allocate (arena s) (tensor_alignment s) (bytes x) i
                        (at_ i (alloc_node s)) (at_ i (dealloc_node s)) in
      Ok (with_allocs (with_arenas s a (persistent_arena s)) (set_at i al (allocs s)))
  | kTfLiteArenaRwPersistent =>
      if (alloc_size (alloc_at i (allocs s)) =? 0) && (alloc_size (alloc_at i (allocs s)) <? bytes x) then
        let! (a, al) := Allocate (persistent_arena s) (tensor_alignment s) (bytes x) i
                          (at_ i (alloc_node s)) i32_max in
        Ok (with_allocs (with_arenas s (arena s) a) (set_at i al (allocs s)))
      else Ok s
  | kTfLiteOther => Ok s
  end.

(** [ArenaPlanner::CalculateAllocations]: the new state and [tensors_allocated]. *)
Definition CalculateAllocations (s : t) (first last : Z) : res unit (t * list Z) :=
  let l := List.filter (needs_allocation s) (GetTensorsToAllocate s first last) in
  match l with
  | [] => Ok (with_last s last, [])
  | _ =>
      let s := if first <? last_active_node s
               then with_last (with_arenas s (ResetAllocs (arena s)) (persistent_arena s)) first
               else with_arenas s (PurgeActiveAllocs (arena s) first) (persistent_arena s) in
      let l := CreateTensorAllocationVector s l in
      let! s := each allocate_tensor l s in
      Ok (with_last s last, l)
  end.

(** [ArenaPlanner::Commit] *)
Definition Commit (s : t) (fresh pfresh : Z * list Z) : res unit (t * bool) :=
  let '(a, r, ok) := Arena.Commit (arena s) fresh.1 fresh.2 in
  check! ok else tt in
  let '(p, pr, pok) := Arena.Commit (persistent_arena s) pfresh.1 pfresh.2 in
  check! pok else tt in
  Ok (with_arenas s a p, r || pr).

(** [ArenaPlanner::ResolveTensorAllocation] *)
Definition ResolveTensorAllocation (i : Z) (s : t) : res unit t :=
  let x := tensor_at i (tensors s) in
  let a := alloc_at i (allocs s) in
  let resolve ar :=
    let! p := ResolveAlloc ar a in Ok (with_tensors s (set_at i (set_data p x) (tensors s))) in
  match allocation_type x with
  | kTfLiteArenaRw => if negb (alloc_size a =? 0) then resolve (arena s) else Ok s
  | kTfLiteArenaRwPersistent => resolve (persistent_arena s)
  | kTfLiteOther => Ok s
  end.

(** ** [ExecuteAllocations] *)

(** [vector::resize] *)
Definition resize {A} (n : nat) (x : A) (l : list A) : list A := take n l ++ replicate (n - length l) x.

(** The nodes in [first..last] with their indices. *)
Definition node_range (g : GraphInfo) (first last : Z) : list (Z * TfLiteNode) :=
  List.filter (fun e => (first <=? e.1) && (e.1 <=? last)) (zip (seqZ 0 (Z.of_nat (length (nodes g)))) (nodes g)).

(** The body of the loops over the temporaries. *)
Definition add_temporary (i ten : Z) (s : t) : t :=
  with_nodes s (set_at i (set_insert ten (nth (Z.to_nat i) (nodes_to_tensors s) [])) (nodes_to_tensors s))
    (set_at ten i (alloc_node s))
    (if preserve_all_tensors s then dealloc_node s else set_at ten i (dealloc_node s)).

Definition add_temporaries (l : list (Z * TfLiteNode)) (s : t) : t :=
  fold_left (fun s e => fold_left (fun s ten => add_temporary e.1 ten s) (n_temporaries e.2) s) l s.

Definition resize_all (s : t) : t :=
  let n := length (tensors s) in
  with_allocs
    (with_nodes s (nodes_to_tensors s) (resize n kNodeNotAssigned (alloc_node s))
       (resize n kNodeNotAssigned (dealloc_node s)))
    (resize n reset (allocs s)).

(** [ArenaPlanner::ExecuteAllocations] *)
Definition ExecuteAllocations (g : GraphInfo) (s : t) (first last : Z) (fresh pfresh : Z * list Z) : res unit t :=
  check! (length (allocs s) <=? length (tensors s))%nat else tt in
  let s := add_temporaries (node_range g first last) (resize_all s) in
  let! (s, allocated) := CalculateAllocations s first last in
  let! (s, reallocated) := Commit s fresh pfresh in
  if (reallocated : bool) then each ResolveTensorAllocation (seqZ 0 (Z.of_nat (length (tensors s)))) s
  else each ResolveTensorAllocation allocated s.
End Iteration.

(** [ArenaPlanner::ReleaseNonPersistentMemory] *)
Definition ReleaseNonPersistentMemory (s : t) : t :=
  with_tensors (with_arenas s (ReleaseBuffer (arena s)) (persistent_arena s))
    (map (fun x => if bool_decide (allocation_type x = kTfLiteArenaRw) then set_data None x else x) (tensors s)).

(** [ArenaPlanner::AcquireNonPersistentMemory] *)
Definition AcquireNonPersistentMemory (s : t) (fresh : Z * list Z) : res unit t :=
  let '(a, _, ok) := Arena.Commit (arena s) fresh.1 fresh.2 in
  check! ok else tt in
  let s := with_arenas s a (persistent_arena s) in
  each (fun i s =>
          if bool_decide (allocation_type (tensor_at i (tensors s)) = kTfLiteArenaRw)
          then ResolveTensorAllocation i s else Ok s)
    (seqZ 0 (Z.of_nat (length (tensors s)))) s.

(** [ArenaPlanner::HasNonPersistentMemory] and [GetAllocInfo] *)
Definition HasNonPersistentMemory (s : t) : bool := negb (GetBufferSize (arena s) =? 0).
Definition GetAllocInfo (s : t) : Z * Z := (GetBufferSize (arena s), GetBufferSize (persistent_arena s)).
End Planner.
