(* ===== verification/PlannerPlan.v ===== *)
(** * The lifetimes that [PlanAllocations] computes

    On a graph with valid tensor indices the planning always succeeds, a
    tensor is allocated at the node that first writes it (or at the start, for
    inputs and variables) and freed after the node that last reads it, unless
    it has to survive. *)

From S2P Require Import Prelude Arena ArenaPlanner.
Import Planner.

(** ** The specification *)

(** How often [x] occurs in a list. *)
Fixpoint cnt (x : Z) (l : list Z) : Z :=
  match l with [] => 0 | y :: l' => (if y =? x then 1 else 0) + cnt x l' end.

(** How often the nodes read a tensor. *)
Fixpoint reads (x : Z) (l : list TfLiteNode) : Z :=
  match l with [] => 0 | n :: l' => cnt x (n_inputs n) + reads x l' end.

(** The references that keep a tensor alive to the end. *)
Definition extra (g : GraphInfo) (x : Z) : Z := cnt x (outputs g) + cnt x (variables g) + cnt x (inputs g).

(** The first node from [i] on that writes a tensor which is not allocated yet. *)
Fixpoint first_write (x i : Z) (l : list TfLiteNode) (acc : Z) : Z :=
  match l with
  | [] => acc
  | n :: l' =>
      first_write x (i + 1) l' (if (acc =? kNodeNotAssigned) && (0 <? cnt x (n_outputs n)) then i else acc)
  end.

(** The last node from [i] on that reads a tensor. *)
Fixpoint last_read (x i : Z) (l : list TfLiteNode) (acc : option Z) : option Z :=
  match l with
  | [] => acc
  | n :: l' => last_read x (i + 1) l' (if 0 <? cnt x (n_inputs n) then Some i else acc)
  end.

Definition spec_alloc (g : GraphInfo) (x : Z) : Z :=
  first_write x 0 (nodes g) (if 0 <? cnt x (variables g) + cnt x (inputs g) then 0 else kNodeNotAssigned).

Definition free_at (preserve : bool) (refs : Z) (last : option Z) (a : Z) : Z :=
  if preserve || negb (refs =? 0) then kNodeNotAssigned
  else match last with Some d => if a <=? d then d else kNodeNotAssigned | None => kNodeNotAssigned end.

Definition spec_dealloc (preserve : bool) (g : GraphInfo) (x : Z) : Z :=
  free_at preserve (extra g x) (last_read x 0 (nodes g) None) (spec_alloc g x).

(** Tensor indices are in range; an input may be missing. *)
Definition index (n : nat) (x : Z) : Prop := 0 <= x < Z.of_nat n.
Definition optional (n : nat) (x : Z) : Prop := x = kTfLiteOptionalTensor \/ index n x.

Record graph_ok (g : GraphInfo) (n : nat) : Prop := {
  g_outputs : Forall (index n) (outputs g);
  g_variables : Forall (index n) (variables g);
  g_inputs : Forall (optional n) (inputs g);
  g_node_inputs : Forall (fun nd => Forall (optional n) (n_inputs nd)) (nodes g);
  g_node_outputs : Forall (fun nd => Forall (index n) (n_outputs nd)) (nodes g);
  g_nodes : Z.of_nat (length (nodes g)) < i32_max;
  g_refs : forall x, extra g x + reads x (nodes g) < 2 ^ 31
}.

(** ** Lemmas *)

Lemma cnt_nonneg (x : Z) (l : list Z) : 0 <= cnt x l.
Proof. induction l as [|y l IH]; cbn; [lia|]. case_if; lia. Qed.

Lemma reads_nonneg (x : Z) (l : list TfLiteNode) : 0 <= reads x l.
Proof. induction l as [|n l IH]; cbn; [lia|]. pose proof (cnt_nonneg x (n_inputs n)). lia. Qed.

Lemma extra_nonneg (g : GraphInfo) (x : Z) : 0 <= extra g x.
Proof.
  unfold extra. pose proof (cnt_nonneg x (outputs g)). pose proof (cnt_nonneg x (variables g)).
  pose proof (cnt_nonneg x (inputs g)). lia.
Qed.

Lemma at_set (i j v : Z) (l : list Z) :
  0 <= j -> index (length l) i -> at_ j (set_at i v l) = if i =? j then v else at_ j l.
Proof.
  unfold index. intros Hj Hi. unfold at_, set_at. rewrite !nth_lookup. destruct (Z.eqb_spec i j) as [->|Hne].
  - rewrite list_lookup_insert_eq by lia. done.
  - rewrite list_lookup_insert_ne by lia. done.
Qed.

Lemma count_set (i j v : Z) (l : list Z) :
  0 <= j -> index (length l) i -> count_at j (set_at i v l) = if i =? j then v else count_at j l.
Proof.
  unfold index. intros Hj Hi. unfold count_at, set_at. rewrite !nth_lookup. destruct (Z.eqb_spec i j) as [->|Hne].
  - rewrite list_lookup_insert_eq by lia. done.
  - rewrite list_lookup_insert_ne by lia. done.
Qed.

Section Plan.
Context (n : nat).

(** The state of the planning, tensor by tensor. *)
Record view (al de re : Z -> Z) (p : Plan) : Prop := {
  v_len_alloc : length (p_alloc p) = n;
  v_len_dealloc : length (p_dealloc p) = n;
  v_len_refs : length (refcounts p) = n;
  v_alloc : forall x, index n x -> at_ x (p_alloc p) = al x;
  v_dealloc : forall x, index n x -> at_ x (p_dealloc p) = de x;
  v_refs : forall x, index n x -> count_at x (refcounts p) = re x
}.

Definition bump (x d : Z) (f : Z -> Z) (y : Z) : Z := if x =? y then f y + d else f y.
Definition upd (x v : Z) (f : Z -> Z) (y : Z) : Z := if x =? y then v else f y.

Lemma view_ext (al de re al' de' re' : Z -> Z) (p : Plan) :
  (forall x, index n x -> al x = al' x) -> (forall x, index n x -> de x = de' x) ->
  (forall x, index n x -> re x = re' x) -> view al de re p -> view al' de' re' p.
Proof. intros H1 H2 H3 [A B C D E F]. split; try done; intros x Hx; [rewrite <- H1|rewrite <- H2|rewrite <- H3]; auto. Qed.

Lemma add_ref_view (al de re : Z -> Z) (p : Plan) (x d : Z) :
  view al de re p -> index n x -> - 2 ^ 31 <= re x + d < 2 ^ 31 -> view al de (bump x d re) (add_ref d x p).
Proof.
  intros [A B C D E F] Hx Hr. split; cbn [add_ref p_alloc p_dealloc refcounts]; try done.
  - unfold set_at. by rewrite length_insert.
  - intros y Hy. unfold index in *. rewrite count_set by (unfold index; lia). unfold bump.
    destruct (Z.eqb_spec x y) as [->|]; [|by apply F]. rewrite F by done. apply wrap_i32_id. done.
Qed.

Lemma insert_view (al de re : Z -> Z) (p : Plan) (i x : Z) :
  view al de re p -> view al de re (insert_tensor i x p).
Proof. intros [A B C D E F]. by split. Qed.

(** [allocate] gives a tensor its first node. *)
Lemma allocate_view (al de re : Z -> Z) (p : Plan) (i x : Z) :
  view al de re p -> index n x -> (al x = kNodeNotAssigned -> de x = kNodeNotAssigned) ->
  exists p', allocate i x p = Ok p' /\ p_sets p' = p_sets p /\
    view (upd x (if al x =? kNodeNotAssigned then i else al x) al) de re p'.
Proof.
  intros H Hx Hd. unfold allocate. rewrite (v_alloc _ _ _ _ H x Hx), (v_dealloc _ _ _ _ H x Hx).
  destruct (Z.eqb_spec (al x) kNodeNotAssigned) as [E|E]; cbn [negb].
  - rewrite Hd, Z.eqb_refl by done. eexists. split; [done|]. split; [done|].
    destruct H as [A B C D F G]. split; cbn [p_alloc p_dealloc refcounts]; try done.
    + unfold set_at. by rewrite length_insert.
    + intros y Hy. unfold index in *. rewrite at_set by (unfold index; lia). unfold upd. case_if; [done|].
      by apply D.
  - exists p. split; [done|]. split; [done|]. revert H. apply view_ext; [|done|done].
    intros y _. unfold upd. case_if; [by subst|done].
Qed.

(** [deallocate] gives an allocated tensor its last node. *)
Lemma deallocate_view (al de re : Z -> Z) (p : Plan) (i x : Z) :
  view al de re p -> index n x -> de x = kNodeNotAssigned ->
  exists p', deallocate i x p = Ok p' /\ p_sets p' = p_sets p /\
    view al (upd x (if al x =? kNodeNotAssigned then kNodeNotAssigned else i) de) re p'.
Proof.
  intros H Hx Hd. unfold deallocate. rewrite (v_alloc _ _ _ _ H x Hx), (v_dealloc _ _ _ _ H x Hx), Hd, Z.eqb_refl.
  destruct (Z.eqb_spec (al x) kNodeNotAssigned) as [E|E].
  - exists p. split; [done|]. split; [done|]. revert H. apply view_ext; [done| |done].
    intros y _. unfold upd. case_if; [by subst|done].
  - eexists. split; [done|]. split; [done|].
    destruct H as [A B C D F G]. split; cbn [p_alloc p_dealloc refcounts]; try done.
    + unfold set_at. by rewrite length_insert.
    + intros y Hy. unfold index in *. rewrite at_set by (unfold index; lia). unfold upd. case_if; [done|].
      by apply F.
Qed.

(** ** The sets of tensors of the nodes *)
Context (m : nat).

Record sets_ok (p : Plan) : Prop := {
  s_len : length (p_sets p) = m;
  s_range : forall i x, x ∈ nth i (p_sets p) [] -> index n x;
  s_member : forall x, index n x -> at_ x (p_alloc p) <> kNodeNotAssigned ->
    x ∈ nth (Z.to_nat (at_ x (p_alloc p))) (p_sets p) [];
  s_later : forall (i : nat) x, x ∈ nth i (p_sets p) [] -> at_ x (p_alloc p) <= Z.of_nat i
}.

Lemma uset_insert_elem (x y : Z) (l : list Z) : y ∈ set_insert x l <-> y = x \/ y ∈ l.
Proof. unfold set_insert. case_decide; set_solver. Qed.

Lemma insert_tensor_elem (i y : Z) (k : nat) (x : Z) (p : Plan) :
  0 <= i < Z.of_nat (length (p_sets p)) ->
  y ∈ nth k (p_sets (insert_tensor i x p)) [] <->
  (Z.of_nat k = i /\ y = x) \/ y ∈ nth k (p_sets p) [].
Proof.
  intros Hi. cbn [insert_tensor p_sets]. unfold set_at. destruct (decide (k = Z.to_nat i)) as [->|Hne].
  - erewrite nth_lookup_Some; [|apply list_lookup_insert_eq; lia]. rewrite uset_insert_elem.
    rewrite Z2Nat.id by lia. tauto.
  - rewrite !nth_lookup, list_lookup_insert_ne by done.
    assert (Z.of_nat k <> i) by lia. tauto.
Qed.

(** [allocate] and the [insert] that follows it. *)
Lemma alloc_insert (al de re : Z -> Z) (p : Plan) (i x : Z) :
  view al de re p -> sets_ok p -> index n x -> 0 <= i < Z.of_nat m -> i < kNodeNotAssigned ->
  (al x = kNodeNotAssigned -> de x = kNodeNotAssigned) -> (al x = kNodeNotAssigned \/ al x <= i) ->
  exists p', res_bind (allocate i x p) (fun p => Ok (insert_tensor i x p)) = Ok p' /\ sets_ok p' /\
    view (upd x (if al x =? kNodeNotAssigned then i else al x) al) de re p'.
Proof.
  intros H Hs Hx Hi Hna Hd Hle. destruct (allocate_view al de re p i x H Hx Hd) as (q & -> & Hq & Hv).
  cbn [res_bind]. eexists. split; [done|]. split; [|by apply insert_view].
  assert (forall y, index n y -> at_ y (p_alloc q) = if x =? y then (if al x =? kNodeNotAssigned then i else al x) else at_ y (p_alloc p)) as Hq'.
  { intros y Hy. rewrite (v_alloc _ _ _ _ Hv y Hy). unfold upd. case_if; [done|]. by rewrite (v_alloc _ _ _ _ H y Hy). }
  pose proof (v_alloc _ _ _ _ H x Hx) as Hax.
  destruct Hs as [S1 S2 S3 S4]. rewrite <- Hq in *.
  split; cbn [insert_tensor p_alloc].
  - cbn [insert_tensor p_sets]. unfold set_at. by rewrite length_insert.
  - intros k y Hy. apply insert_tensor_elem in Hy as [[_ ->]|Hy]; [done|by eapply S2|lia].
  - intros y Hy Hne. apply insert_tensor_elem; [lia|]. rewrite Hq' in * by done.
    destruct (Z.eqb_spec x y) as [->|]; [|right; by apply S3].
    destruct (Z.eqb_spec (al y) kNodeNotAssigned) as [E|E]; [left; split; [lia|done]|].
    right. rewrite <- Hax. apply S3; [done|]. by rewrite Hax.
  - intros k y Hy. apply insert_tensor_elem in Hy; [|lia].
    assert (index n y) as Hiy by (destruct Hy as [[_ ->]|Hy]; [done|by eapply S2]).
    rewrite Hq' by done. destruct (Z.eqb_spec x y) as [->|Hne].
    + destruct (Z.eqb_spec (al y) kNodeNotAssigned) as [E|E].
      * destruct Hy as [[Hk _]|Hy]; [lia|]. specialize (S4 k y Hy). rewrite Hax, E in S4. unfold index in *. lia.
      * destruct Hy as [[Hk _]|Hy]; [destruct Hle; [done|lia]|]. specialize (S4 k y Hy). lia.
    + destruct Hy as [[_ ->]|Hy]; [done|]. by apply S4.
Qed.
End Plan.

(** A loop whose body never fails keeps an invariant of the elements that are left. *)
Lemma each_inv {S A} (body : A -> S -> res unit S) (P : list A -> S -> Prop) (l : list A) (s : S) :
  P l s -> (forall x l' s, P (x :: l') s -> exists s', body x s = Ok s' /\ P l' s') ->
  exists s', each body l s = Ok s' /\ P [] s'.
Proof.
  intros H Hb. revert s H. induction l as [|x l IH]; intros s H; [by exists s|].
  destruct (Hb x l s H) as (s' & Hs & Hp). cbn [each]. rewrite Hs. by apply IH.
Qed.

Section Loops.
Context (g : GraphInfo) (n : nat) (preserve : bool) (Hg : graph_ok g n).
Let m : nat := Nat.max (length (nodes g)) 1.
Let NA := kNodeNotAssigned.

Lemma refs_bound (x : Z) (k : Z) : k <= extra g x + reads x (nodes g) -> 0 <= k -> - 2 ^ 31 <= k < 2 ^ 31.
Proof. intros H H0. pose proof (g_refs g n Hg x). lia. Qed.

Definition start : Plan :=
  mkPlan (replicate n kNodeNotAssigned) (replicate n kNodeNotAssigned) (replicate m []) (replicate n 0).

Lemma start_view : view n (fun _ => NA) (fun _ => NA) (fun _ => 0) start /\ sets_ok n m start.
Proof.
  assert (forall (k : nat) (v : Z) (d : Z) x, index k x -> nth (Z.to_nat x) (replicate k v) d = v) as Hr.
  { intros k v d x Hx. apply nth_lookup_Some, lookup_replicate_2. unfold index in Hx. lia. }
  split; split; cbn [start p_alloc p_dealloc p_sets refcounts]; try apply length_replicate;
    try (intros x Hx; unfold at_, count_at; by rewrite Hr).
  - intros i x Hx. rewrite nth_lookup in Hx. destruct (replicate m [] !! i) eqn:E; cbn in Hx;
      [apply lookup_replicate in E as [-> _]|]; by apply not_elem_of_nil in Hx.
  - intros i x Hx. rewrite nth_lookup in Hx. destruct (replicate m [] !! i) eqn:E; cbn in Hx;
      [apply lookup_replicate in E as [-> _]|]; by apply not_elem_of_nil in Hx.
Qed.

(** The first four loops: references of outputs, variables, inputs and nodes. *)
Lemma outputs_loop :
  exists p, each plan_output (outputs g) start = Ok p /\ sets_ok n m p /\
    view n (fun _ => NA) (fun _ => NA) (fun x => cnt x (outputs g)) p.
Proof.
  destruct start_view as [Hv Hs].
  destruct (each_inv plan_output (fun l p => Forall (index n) l /\ sets_ok n m p /\
      (forall x, cnt x l <= cnt x (outputs g)) /\
      view n (fun _ => NA) (fun _ => NA) (fun x => cnt x (outputs g) - cnt x l) p) (outputs g) start)
    as (p & Hp & _ & H1 & _ & H2).
  - split; [apply Hg|]. split; [done|]. split; [intros x; lia|]. revert Hv. apply view_ext; try done. intros x _. lia.
  - intros x l p (Hl & H1 & Hc & H2). apply list.Forall_cons in Hl as [Hx Hl].
    eexists. split; [done|]. split; [done|]. split; [by destruct H1|].
    split; [intros y; specialize (Hc y); cbn [cnt] in Hc; case_if_in Hc; lia|].
    pose proof (Hc x) as Hcx. cbn [cnt] in Hcx. rewrite Z.eqb_refl in Hcx. pose proof (cnt_nonneg x l).
    refine (view_ext n _ _ _ _ _ _ _ _ _ _ (add_ref_view n _ _ _ p x 1 H2 Hx _)); try done.
    + intros y Hy. unfold bump. cbn [cnt]. destruct (x =? y); lia.
    + cbn [cnt]. rewrite Z.eqb_refl. apply (refs_bound x); [|lia]. unfold extra. pose proof (reads_nonneg x (nodes g)).
      pose proof (cnt_nonneg x (variables g)). pose proof (cnt_nonneg x (inputs g)). lia.
  - exists p. split; [done|]. split; [done|]. revert H2. apply view_ext; try done. intros x _. cbn. lia.
Qed.

(** What inputs and variables have in common: another reference, and an allocation at the start. *)
Lemma keep_alive (x : Z) (al re : Z -> Z) (p : Plan) :
  view n al (fun _ => NA) re p -> sets_ok n m p -> index n x -> (al x = NA \/ al x = 0) ->
  - 2 ^ 31 <= re x + 1 < 2 ^ 31 ->
  exists p', res_bind (allocate 0 x (add_ref 1 x p)) (fun p => Ok (insert_tensor 0 x p)) = Ok p' /\
    sets_ok n m p' /\ view n (upd x 0 al) (fun _ => NA) (bump x 1 re) p'.
Proof.
  intros Hv Hs Hx Ha Hr. pose proof (add_ref_view n _ _ _ p x 1 Hv Hx Hr) as Hv1.
  destruct (alloc_insert n m al (fun _ => NA) (bump x 1 re) (add_ref 1 x p) 0 x) as (p' & Hp & H1 & H2);
    try done; [by destruct Hs|unfold m; lia|destruct Ha; [by left|right; lia]|].
  exists p'. split; [done|]. split; [done|]. revert H2. apply view_ext; try done.
  intros y _. unfold upd. destruct (x =? y); [|done].
  destruct Ha as [->| ->]; [by rewrite Z.eqb_refl|done].
Qed.

Definition seen (k : Z) : Z := if 0 <? k then 0 else NA.

Lemma seen_cases (k : Z) : seen k = NA \/ seen k = 0.
Proof. unfold seen. case_if; auto. Qed.

Lemma variables_loop (p : Plan) :
  sets_ok n m p -> view n (fun _ => NA) (fun _ => NA) (fun x => cnt x (outputs g)) p ->
  exists p', each plan_variable (variables g) p = Ok p' /\ sets_ok n m p' /\
    view n (fun x => seen (cnt x (variables g))) (fun _ => NA) (fun x => cnt x (outputs g) + cnt x (variables g)) p'.
Proof.
  intros Hs Hv.
  destruct (each_inv plan_variable (fun l p => Forall (index n) l /\ sets_ok n m p /\
      (forall x, cnt x l <= cnt x (variables g)) /\
      view n (fun x => seen (cnt x (variables g) - cnt x l)) (fun _ => NA)
        (fun x => cnt x (outputs g) + cnt x (variables g) - cnt x l) p) (variables g) p)
    as (p' & Hp & _ & H1 & _ & H2).
  - split; [apply Hg|]. split; [done|]. split; [lia|]. revert Hv. apply view_ext; try done; intros x _; [|lia].
    by rewrite Z.sub_diag.
  - intros x l q (Hl & H1 & Hc & H2). apply list.Forall_cons in Hl as [Hx Hl].
    pose proof (Hc x) as Hcx. cbn [cnt] in Hcx. rewrite Z.eqb_refl in Hcx. pose proof (cnt_nonneg x l).
    destruct (keep_alive x _ _ q H2 H1 Hx (seen_cases _)) as (q' & Hq & I1 & I2).
    { cbn [cnt]. rewrite Z.eqb_refl. apply (refs_bound x); [|pose proof (cnt_nonneg x (outputs g)); lia].
      unfold extra. pose proof (reads_nonneg x (nodes g)). pose proof (cnt_nonneg x (inputs g)). lia. }
    exists q'. split.
    { unfold plan_variable. unfold index in Hx. rewrite (proj2 (Z.eqb_neq x _)) by (unfold kTfLiteOptionalTensor; lia). done. }
    split; [done|]. split; [done|]. split; [intros y; specialize (Hc y); cbn [cnt] in Hc; case_if_in Hc; lia|].
    revert I2. apply view_ext; try done; intros y _; unfold upd, bump; cbn [cnt].
    + destruct (Z.eqb_spec x y) as [->|]; [|f_equal; lia]. unfold seen. rewrite (proj2 (Z.ltb_lt _ _)) by lia. done.
    + destruct (x =? y); lia.
  - exists p'. split; [done|]. split; [done|]. revert H2. apply view_ext; try done; intros x _; cbn; [f_equal; lia|lia].
Qed.

Lemma inputs_loop (p : Plan) :
  sets_ok n m p ->
  view n (fun x => seen (cnt x (variables g))) (fun _ => NA) (fun x => cnt x (outputs g) + cnt x (variables g)) p ->
  exists p', each plan_input (inputs g) p = Ok p' /\ sets_ok n m p' /\
    view n (fun x => seen (cnt x (variables g) + cnt x (inputs g))) (fun _ => NA) (extra g) p'.
Proof.
  intros Hs Hv.
  destruct (each_inv plan_input (fun l p => Forall (optional n) l /\ sets_ok n m p /\
      (forall x, cnt x l <= cnt x (inputs g)) /\
      view n (fun x => seen (cnt x (variables g) + cnt x (inputs g) - cnt x l)) (fun _ => NA)
        (fun x => extra g x - cnt x l) p) (inputs g) p) as (p' & Hp & _ & H1 & _ & H2).
  - split; [apply Hg|]. split; [done|]. split; [lia|]. revert Hv. apply view_ext; try done; intros x _.
    + f_equal. lia.
    + unfold extra. lia.
  - intros x l q (Hl & H1 & Hc & H2). apply list.Forall_cons in Hl as [Hx Hl].
    assert (forall y, cnt y l <= cnt y (inputs g)) as Hc' by (intros y; specialize (Hc y); cbn [cnt] in Hc; case_if_in Hc; lia).
    unfold plan_input. destruct (Z.eqb_spec x kTfLiteOptionalTensor) as [->|Hne]; cbn [negb].
    + exists q. split; [done|]. split; [done|]. split; [done|]. split; [done|].
      revert H2. apply view_ext; try done; unfold index, kTfLiteOptionalTensor; intros y Hy; cbn [cnt];
        rewrite (proj2 (Z.eqb_neq (-1) y)) by lia; done.
    + destruct Hx as [|Hx]; [done|]. pose proof (Hc x) as Hcx. cbn [cnt] in Hcx. rewrite Z.eqb_refl in Hcx.
      pose proof (cnt_nonneg x l). pose proof (cnt_nonneg x (variables g)).
      destruct (keep_alive x _ _ q H2 H1 Hx (seen_cases _)) as (q' & Hq & I1 & I2).
      { cbn [cnt]. rewrite Z.eqb_refl. pose proof (reads_nonneg x (nodes g)). pose proof (cnt_nonneg x (outputs g)).
        apply (refs_bound x); unfold extra; lia. }
      exists q'. split; [done|]. split; [done|]. split; [done|]. split; [done|].
      revert I2. apply view_ext; try done; intros y _; unfold upd, bump; cbn [cnt].
      * destruct (Z.eqb_spec x y) as [->|]; [|f_equal; lia]. unfold seen. rewrite (proj2 (Z.ltb_lt _ _)) by lia. done.
      * destruct (x =? y); lia.
  - exists p'. split; [done|]. split; [done|]. revert H2. apply view_ext; try done; intros x _; cbn; [f_equal; lia|lia].
Qed.

(** The references of the nodes. *)
Lemma count_loop (p : Plan) (al : Z -> Z) :
  sets_ok n m p -> view n al (fun _ => NA) (extra g) p ->
  exists p', each (fun nd p => each count_input (n_inputs nd) p) (nodes g) p = Ok p' /\ sets_ok n m p' /\
    view n al (fun _ => NA) (fun x => extra g x + reads x (nodes g)) p'.
Proof.
  intros Hs Hv.
  destruct (each_inv (fun nd p => each count_input (n_inputs nd) p) (fun l p =>
      Forall (fun nd => Forall (optional n) (n_inputs nd)) l /\ sets_ok n m p /\
      (forall x, reads x l <= reads x (nodes g)) /\
      view n al (fun _ => NA) (fun x => extra g x + reads x (nodes g) - reads x l) p) (nodes g) p)
    as (p' & Hp & _ & H1 & _ & H2).
  - split; [apply Hg|]. split; [done|]. split; [intros x; lia|]. revert Hv. apply view_ext; try done. intros x _. lia.
  - intros nd l q (Hl & H1 & Hc & H2). apply list.Forall_cons in Hl as [Hnd Hl]. cbn [reads] in *.
    assert (forall y, reads y l <= reads y (nodes g)) as Hc'
      by (intros y; specialize (Hc y); pose proof (cnt_nonneg y (n_inputs nd)); lia).
    destruct (each_inv count_input (fun k p => Forall (optional n) k /\ sets_ok n m p /\
        (forall x, cnt x k + reads x l <= reads x (nodes g)) /\
        view n al (fun _ => NA) (fun x => extra g x + reads x (nodes g) - (cnt x k + reads x l)) p) (n_inputs nd) q)
      as (q' & Hq & _ & I1 & _ & I2); [done| |exists q'; split; [done|]; by repeat (split; [done|])].
    intros x k r (Hk & J1 & Jc & J2). apply list.Forall_cons in Hk as [Hx Hk].
    assert (forall y, cnt y k + reads y l <= reads y (nodes g)) as Jc'
      by (intros y; specialize (Jc y); cbn [cnt] in Jc; case_if_in Jc; lia).
    unfold count_input. destruct (Z.eqb_spec x kTfLiteOptionalTensor) as [->|Hne]; cbn [negb].
    + exists r. split; [done|]. split; [done|]. split; [done|]. split; [done|].
      revert J2. apply view_ext; try done; unfold index, kTfLiteOptionalTensor; intros y Hy; cbn [cnt];
        rewrite (proj2 (Z.eqb_neq (-1) y)) by lia; done.
    + destruct Hx as [|Hx]; [done|]. eexists. split; [done|]. split; [done|]. split; [by destruct J1|]. split; [done|].
      pose proof (Jc x) as Jcx. cbn [cnt] in Jcx. rewrite Z.eqb_refl in Jcx. pose proof (cnt_nonneg x k).
      pose proof (reads_nonneg x l). pose proof (extra_nonneg g x).
      refine (view_ext n _ _ _ _ _ _ _ _ _ _ (add_ref_view n _ _ _ r x 1 J2 Hx _)); try done.
      * intros y Hy. unfold bump. cbn [cnt]. destruct (x =? y); lia.
      * cbn [cnt]. rewrite Z.eqb_refl. apply (refs_bound x); lia.
  - exists p'. split; [done|]. split; [done|]. revert H2. apply view_ext; try done. intros x _. cbn. lia.
Qed.

(** ** The loop over the nodes *)

(** The outputs of node [i] are allocated. *)
Lemma node_outputs_loop (i : Z) (outs : list Z) (al de re : Z -> Z) (p : Plan) :
  0 <= i < Z.of_nat m -> i < NA -> Forall (index n) outs -> sets_ok n m p -> view n al de re p ->
  (forall x, al x = NA -> de x = NA) -> (forall x, al x = NA \/ al x <= i) ->
  exists p', each (node_output i) outs p = Ok p' /\ sets_ok n m p' /\
    view n (fun x => if (al x =? NA) && (0 <? cnt x outs) then i else al x) de re p'.
Proof.
  intros Hi Hna Ho Hs Hv Hd Hle.
  destruct (each_inv (node_output i) (fun l p => Forall (index n) l /\ sets_ok n m p /\
      (forall x, cnt x l <= cnt x outs) /\
      view n (fun x => if (al x =? NA) && (0 <? cnt x outs - cnt x l) then i else al x) de re p) outs p)
    as (p' & Hp & _ & H1 & _ & H2).
  - split; [done|]. split; [done|]. split; [intros x; lia|]. revert Hv. apply view_ext; try done. intros x _.
    by rewrite Z.sub_diag, andb_false_r.
  - intros x l q (Hl & H1 & Hc & H2). apply list.Forall_cons in Hl as [Hx Hl].
    pose proof (Hc x) as Hcx. cbn [cnt] in Hcx. rewrite Z.eqb_refl in Hcx. pose proof (cnt_nonneg x l).
    destruct (alloc_insert n m _ _ _ q i x H2 H1 Hx Hi Hna) as (q' & Hq & I1 & I2).
    { cbn beta. case_if; [lia|]. apply Hd. }
    { cbn beta. case_if; [by right|]. apply Hle. }
    exists q'. split; [done|]. split; [done|]. split; [done|].
    split; [intros y; specialize (Hc y); cbn [cnt] in Hc; case_if_in Hc; lia|].
    revert I2. apply view_ext; try done. intros y _. unfold upd. cbn [cnt].
    destruct (Z.eqb_spec x y) as [->|]; [|by rewrite Z.add_0_l].
    rewrite Z.eqb_refl. rewrite (proj2 (Z.ltb_lt 0 (cnt y outs - cnt y l))) by lia. rewrite andb_true_r.
    fold NA. destruct (Z.eqb_spec (al y) NA) as [E|E]; cbn [andb].
    + destruct (0 <? _); [by destruct (i =? NA)|]. by rewrite E, Z.eqb_refl.
    + by rewrite (proj2 (Z.eqb_neq _ _) E).
  - exists p'. split; [done|]. split; [done|]. revert H2. apply view_ext; try done. intros x _. cbn [cnt].
    by rewrite Z.sub_0_r.
Qed.

(** The inputs of node [i] lose a reference each; at the last one the tensor is freed. *)
Lemma node_inputs_loop (i : Z) (ins : list Z) (al rest : Z -> Z) (last : Z -> option Z) (p : Plan) :
  0 <= i < NA -> Forall (optional n) ins -> sets_ok n m p ->
  (forall x, 0 <= rest x) -> (forall x, extra g x + cnt x ins + rest x <= extra g x + reads x (nodes g)) ->
  (forall x, al x = NA \/ al x <= i) ->
  view n al (fun x => free_at false (extra g x + cnt x ins + rest x) (last x) (al x))
    (fun x => extra g x + cnt x ins + rest x) p ->
  exists p', each (node_input i) ins p = Ok p' /\ sets_ok n m p' /\
    view n al (fun x => free_at false (extra g x + rest x) (if 0 <? cnt x ins then Some i else last x) (al x))
      (fun x => extra g x + rest x) p'.
Proof.
  intros Hi Ho Hs Hrest Hbound Hle Hv.
  set (de := fun k x => free_at false (extra g x + cnt x k + rest x)
                          (if 0 <? cnt x ins - cnt x k then Some i else last x) (al x)).
  destruct (each_inv (node_input i) (fun l p => Forall (optional n) l /\ sets_ok n m p /\
      (forall x, cnt x l <= cnt x ins) /\ view n al (de l) (fun x => extra g x + cnt x l + rest x) p) ins p)
    as (p' & Hp & _ & H1 & _ & H2).
  - split; [done|]. split; [done|]. split; [intros x; lia|]. revert Hv. apply view_ext; try done. intros x _.
    unfold de. by rewrite Z.sub_diag.
  - intros x l q (Hl & H1 & Hc & H2). apply list.Forall_cons in Hl as [Hx Hl].
    assert (forall y, cnt y l <= cnt y ins) as Hc' by (intros y; specialize (Hc y); cbn [cnt] in Hc; case_if_in Hc; lia).
    unfold node_input. destruct (Z.eqb_spec x kTfLiteOptionalTensor) as [->|Hne]; cbn [negb].
    { exists q. split; [done|]. split; [done|]. split; [done|]. split; [done|].
      revert H2. unfold de. apply view_ext; try done; unfold index, kTfLiteOptionalTensor; intros y Hy; cbn [cnt];
        rewrite (proj2 (Z.eqb_neq (-1) y)) by lia; by rewrite Z.add_0_l. }
    destruct Hx as [|Hx]; [done|]. pose proof (Hc x) as Hcx. cbn [cnt] in Hcx. rewrite Z.eqb_refl in Hcx.
    pose proof (cnt_nonneg x l). pose proof (extra_nonneg g x). specialize (Hbound x). specialize (Hrest x).
    assert (view n al (de (x :: l)) (fun y => extra g y + cnt y l + rest y) (add_ref (-1) x q)) as H3.
    { refine (view_ext n _ _ _ _ _ _ _ _ _ _ (add_ref_view n _ _ _ q x (-1) H2 Hx _)); try done.
      - intros y Hy. unfold bump. cbn [cnt]. destruct (x =? y); lia.
      - cbn [cnt]. rewrite Z.eqb_refl. apply (refs_bound x); lia. }
    assert (de (x :: l) x = NA) as Hold.
    { unfold de, free_at. cbn [cnt]. rewrite Z.eqb_refl. by rewrite (proj2 (Z.eqb_neq (extra g x + (1 + cnt x l) + rest x) 0)) by lia. }
    assert (forall y, x <> y -> de (x :: l) y = de l y) as Hother.
    { intros y Hy. unfold de. cbn [cnt]. rewrite (proj2 (Z.eqb_neq x y)) by done. by rewrite Z.add_0_l. }
    assert (de l x = if extra g x + cnt x l + rest x =? 0 then (if al x =? NA then NA else i) else NA) as Hnew.
    { unfold de, free_at. cbn [orb]. destruct (_ =? 0); [|done]. cbn [negb].
      rewrite (proj2 (Z.ltb_lt 0 _)) by lia. destruct (Hle x) as [E|E].
      - rewrite E, Z.eqb_refl. fold NA. by rewrite (proj2 (Z.leb_gt NA i)) by lia.
      - rewrite (proj2 (Z.leb_le _ _)), (proj2 (Z.eqb_neq _ _)) by lia. done. }
    rewrite (v_refs _ _ _ _ _ H3 x Hx). destruct (_ =? 0) eqn:E0.
    + destruct (deallocate_view n _ _ _ _ i x H3 Hx Hold) as (q' & Hq & Hsets & Hq').
      exists q'. split; [done|]. split; [done|]. split.
      { destruct H1 as [S1 S2 S3 S4]. pose proof (v_alloc _ _ _ _ _ Hq') as Ha. pose proof (v_alloc _ _ _ _ _ H2) as Hb.
        cbn [add_ref p_sets] in Hsets. split; rewrite Hsets; try done.
        - intros y Hy Hny. rewrite Ha in * by done. rewrite <- Hb by done. apply S3; [done|]. by rewrite Hb.
        - intros k y Hy. rewrite Ha by (by eapply S2). rewrite <- Hb by (by eapply S2). by apply S4. }
      split; [done|]. revert Hq'. apply view_ext; try done. intros y _. unfold upd.
      destruct (Z.eqb_spec x y) as [<-|Hy]; [by rewrite Hnew|by apply Hother].
    + eexists. split; [done|]. split; [done|]. split; [by destruct H1|]. split; [done|].
      revert H3. apply view_ext; try done. intros y _. destruct (Z.eq_dec x y) as [<-|Hy]; [by rewrite Hold, Hnew|by apply Hother].
  - exists p'. split; [done|]. split; [done|]. revert H2. unfold de. apply view_ext; try done; intros x _; cbn [cnt]; [|lia].
    by rewrite Z.sub_0_r, Z.add_0_r.
Qed.

(** A tensor that is first written at [i] was not freed at an earlier read. *)
Lemma free_at_write (pr : bool) (refs i a : Z) (last : option Z) (c : bool) :
  (forall d, last = Some d -> d < i) -> i < NA ->
  free_at pr refs last a = free_at pr refs last (if (a =? NA) && c then i else a).
Proof.
  intros Hl Hi. destruct (Z.eqb_spec a NA) as [->|]; [|done]. destruct c; [|done]. cbn [andb].
  unfold free_at. destruct (pr || _); [done|]. destruct last as [d|]; [|done]. specialize (Hl d eq_refl).
  rewrite (proj2 (Z.leb_gt NA d)), (proj2 (Z.leb_gt i d)) by lia. done.
Qed.

Lemma free_at_unwritten (pr : bool) (refs i : Z) (last : option Z) :
  (forall d, last = Some d -> d < i) -> i < NA -> free_at pr refs last NA = NA.
Proof.
  intros Hl Hi. unfold free_at. destruct (pr || _); [done|]. destruct last as [d|]; [|done].
  specialize (Hl d eq_refl). by rewrite (proj2 (Z.leb_gt NA d)) by lia.
Qed.

Definition refs_left (l : list TfLiteNode) (x : Z) : Z :=
  extra g x + (if preserve then reads x (nodes g) else reads x l).

Lemma plan_node_ok (nd : TfLiteNode) (l : list TfLiteNode) (i : Z) (al : Z -> Z) (last : Z -> option Z) (p : Plan) :
  0 <= i < Z.of_nat m -> i < NA -> Forall (optional n) (n_inputs nd) -> Forall (index n) (n_outputs nd) ->
  (forall x, reads x (nd :: l) <= reads x (nodes g)) ->
  (forall x, al x = NA \/ al x <= i) -> (forall x d, last x = Some d -> d < i) ->
  sets_ok n m p ->
  view n al (fun x => free_at preserve (extra g x + reads x (nd :: l)) (last x) (al x)) (refs_left (nd :: l)) p ->
  let al' x := if (al x =? NA) && (0 <? cnt x (n_outputs nd)) then i else al x in
  let last' x := if 0 <? cnt x (n_inputs nd) then Some i else last x in
  exists p', plan_node preserve i nd p = Ok p' /\ sets_ok n m p' /\
    view n al' (fun x => free_at preserve (extra g x + reads x l) (last' x) (al' x)) (refs_left l) p'.
Proof.
  intros Hi Hna Hin Hout Hreads Hal Hlast Hs Hv al' last'.
  destruct (node_outputs_loop i (n_outputs nd) _ _ _ p Hi Hna Hout Hs Hv) as (q & Hq & Hsq & Hvq).
  { intros x E. rewrite E. by apply (free_at_unwritten _ _ i); [apply Hlast|]. }
  { done. }
  unfold plan_node. rewrite Hq. cbn [res_bind].
  apply (view_ext n _ _ _ al' (fun x => free_at preserve (extra g x + reads x (nd :: l)) (last x) (al' x))
           (refs_left (nd :: l))) in Hvq; [|done| |done].
  2:{ intros x _. by apply free_at_write; [apply Hlast|]. }
  unfold refs_left in *. destruct preserve eqn:Ep; cbn [negb].
  - exists q. split; [done|]. split; [done|]. revert Hvq. by apply view_ext.
  - cbn [reads] in Hvq. refine (node_inputs_loop i (n_inputs nd) al' (fun x => reads x l) last q _ Hin Hsq _ _ _ _).
    + unfold m in Hi. lia.
    + intros x. apply reads_nonneg.
    + intros x. specialize (Hreads x). cbn [reads] in Hreads. lia.
    + intros x. unfold al'. case_if; [right; lia|]. apply Hal.
    + revert Hvq. apply view_ext; try done; intros x _; [|lia]. by rewrite Z.add_assoc.
Qed.

Lemma plan_nodes_ok (l : list TfLiteNode) (i : Z) (al : Z -> Z) (last : Z -> option Z) (p : Plan) :
  0 <= i -> i + Z.of_nat (length l) = Z.of_nat (length (nodes g)) ->
  Forall (fun nd => Forall (optional n) (n_inputs nd)) l -> Forall (fun nd => Forall (index n) (n_outputs nd)) l ->
  (forall x, reads x l <= reads x (nodes g)) ->
  (forall x, al x = NA \/ al x <= i) -> (forall x d, last x = Some d -> d < i) ->
  sets_ok n m p ->
  view n al (fun x => free_at preserve (extra g x + reads x l) (last x) (al x)) (refs_left l) p ->
  exists p', plan_nodes preserve i l p = Ok p' /\ sets_ok n m p' /\
    view n (fun x => first_write x i l (al x))
      (fun x => free_at preserve (extra g x) (last_read x i l (last x)) (first_write x i l (al x))) (refs_left []) p'.
Proof.
  pose proof (g_nodes g n Hg) as Hnodes.
  revert i al last p. induction l as [|nd l IH]; intros i al last p Hi Hlen Hin Hout Hreads Hal Hlast Hs Hv.
  - exists p. split; [done|]. split; [done|]. revert Hv. apply view_ext; try done. intros x _. cbn [reads first_write last_read].
    by rewrite Z.add_0_r.
  - apply list.Forall_cons in Hin as [Hin1 Hin]. apply list.Forall_cons in Hout as [Hout1 Hout]. cbn [length] in Hlen.
    assert (i < NA) as Hna by (unfold NA, kNodeNotAssigned; lia).
    destruct (plan_node_ok nd l i al last p) as (q & Hq & Hsq & Hvq); try done; [unfold m; lia|].
    cbn [plan_nodes first_write last_read]. rewrite Hq. cbn [res_bind]. apply IH; try done; try lia.
    + intros x. specialize (Hreads x). cbn [reads] in Hreads. pose proof (cnt_nonneg x (n_inputs nd)). lia.
    + intros x. case_if; [right; lia|]. destruct (Hal x); [by left|right; lia].
    + intros x d. case_if; [intros [= <-]; lia|]. intros E. specialize (Hlast x d E). lia.
Qed.

(** The whole planning. *)
Lemma plan_ok : exists p, plan g preserve n = Ok p /\ sets_ok n m p /\
  view n (spec_alloc g) (spec_dealloc preserve g) (refs_left []) p.
Proof.
  unfold plan. change (mkPlan _ _ _ _) with start.
  destruct outputs_loop as (p1 & -> & S1 & V1). cbn [res_bind].
  destruct (variables_loop p1 S1 V1) as (p2 & -> & S2 & V2). cbn [res_bind].
  destruct (inputs_loop p2 S2 V2) as (p3 & -> & S3 & V3). cbn [res_bind].
  destruct (count_loop p3 _ S3 V3) as (p4 & -> & S4 & V4). cbn [res_bind].
  destruct (plan_nodes_ok (nodes g) 0 (fun x => seen (cnt x (variables g) + cnt x (inputs g))) (fun _ => None) p4)
    as (p & Hp & Hs & Hv); try done; try apply Hg.
  - intros x. destruct (seen_cases (cnt x (variables g) + cnt x (inputs g))) as [E|E]; rewrite E; [by left|by right].
  - revert V4. apply view_ext; try done; intros x _; [|unfold refs_left; by destruct preserve].
    unfold free_at. by destruct (preserve || _).
  - exists p. done.
Qed.
End Loops.
