(* ===== verification/PlannerSafety.v ===== *)
(** * The memory that the planner gives to tensors

    After [PlanAllocations] and [ExecuteAllocations] of the whole graph every
    tensor of the arena types that is used has memory of its size inside the
    block of its arena, disjoint from that of every other tensor that is alive
    at the same time. *)

From S2P Require Import Prelude Arena ArenaPlanner PlannerPlan.
Import Arena Planner.

(** The allocation of tensor [x] is in the plan of an arena. *)
Record placed (ar : Arena.t) (al : Alloc) (x size first last : Z) : Prop := {
  pl_in : al ∈ active_allocs ar;
  pl_tensor : tensor al = x;
  pl_size : alloc_size al = size;
  pl_first : first_node al = first;
  pl_last : last_node al = last
}.

Lemma placed_more (ar ar' : Arena.t) (al b : Alloc) (x size first last : Z) :
  active_allocs ar' ≡ₚ b :: active_allocs ar -> placed ar al x size first last -> placed ar' al x size first last.
Proof. intros Hp [H1 H2 H3 H4 H5]. split; try done. rewrite Hp. by right. Qed.

(** Two tensors in one plan whose lifetimes meet do not overlap. *)
Lemma placed_disjoint (ar : Arena.t) (al bl : Alloc) (x y sx sy fx fy lx ly : Z) :
  plan_ok ar -> placed ar al x sx fx lx -> placed ar bl y sy fy ly -> x <> y -> fx <= ly -> fy <= lx ->
  offset al + sx <= offset bl \/ offset bl + sy <= offset al.
Proof.
  intros Hp [H1 H2 H3 H4 H5] [K1 K2 K3 K4 K5] Hne Hm1 Hm2.
  apply list_elem_of_lookup in H1 as [i Hi], K1 as [j Hj].
  destruct (plan_no_overlap _ Hp i j al bl Hi Hj) as [Hd|Hd]; [congruence|split; lia|left|right]; lia.
Qed.

Lemma alloc_set (i j : Z) (v : Alloc) (l : list Alloc) :
  0 <= j -> index (length l) i -> alloc_at j (set_at i v l) = if i =? j then v else alloc_at j l.
Proof.
  unfold index. intros Hj Hi. unfold alloc_at, set_at. rewrite !nth_lookup. destruct (Z.eqb_spec i j) as [->|Hne].
  - rewrite list_lookup_insert_eq by lia. done.
  - rewrite list_lookup_insert_ne by lia. done.
Qed.

(** The most that allocating the tensors of a list can add to a high-water mark. *)
Fixpoint cost (s : t) (l : list Z) : Z :=
  match l with [] => 0 | x :: l' => bytes (tensor_at x (tensors s)) + tensor_alignment s + cost s l' end.

(** An arena whose plan and block are sound. *)
Definition sound (ar : Arena.t) : Prop := plan_ok ar /\ buffer_ok ar.

(** ** Commit and resolve *)

Lemma Commit_sound (ar : Arena.t) (fresh : Z * list Z) :
  sound ar -> fresh_ok ar fresh.1 fresh.2 -> high_water_mark ar + 2 * arena_alignment ar < 2 ^ 63 ->
  exists ar' r, Arena.Commit ar fresh.1 fresh.2 = (ar', r, true) /\ sound ar' /\ committed ar' = true /\
    active_allocs ar' = active_allocs ar /\ high_water_mark ar' = high_water_mark ar /\
    high_water_mark ar <= underlying_buffer_size ar' /\ is_Some (underlying_buffer ar') /\
    arena_alignment ar' = arena_alignment ar /\
    high_water_mark ar + 2 * arena_alignment ar <= underlying_buffer_size ar'.
Proof.
  intros [Hp Hb] Hf Hroom. pose proof (Commit_buffer ar fresh.1 fresh.2 Hp Hb Hf Hroom) as H. cbn zeta in H.
  destruct (Arena.Commit ar fresh.1 fresh.2) as [[ar' r] ok]. cbn in H.
  destruct H as (-> & H1 & H2 & H3 & H4 & H5 & H6 & H7 & _). rewrite (RequiredBufferSize_eq ar Hp Hroom) in H4.
  exists ar', r. destruct Hp as [P1 P2 P3 P4 P5]. repeat split; rewrite ?H5, ?H6, ?H7; try done; lia.
Qed.

(** A placed allocation resolves to its offset from the base. *)
Lemma Resolve_placed (ar : Arena.t) (al : Alloc) (x size first last : Z) :
  sound ar -> committed ar = true -> high_water_mark ar <= underlying_buffer_size ar ->
  underlying_buffer_size ar < 2 ^ 63 ->
  placed ar al x size first last -> ResolveAlloc ar al = Ok (Some (Arena.BasePointer ar + offset al)).
Proof.
  intros [Hp _] Hc Hh Hsz [Hin _ _ _ _]. pose proof (plan_bounded _ Hp) as Hf.
  rewrite list.Forall_forall in Hf. destruct (Hf al Hin) as (B1 & B2 & B3).
  unfold ResolveAlloc. rewrite Hc, wrap_u64_id by (unfold in_u64; lia). cbn [negb].
  rewrite (proj2 (Z.leb_le _ _)), (proj2 (Z.eqb_neq _ 0)) by lia. done.
Qed.

(** Arenas with a block for their whole plan. *)
Definition backed (ar : Arena.t) : Prop :=
  sound ar /\ committed ar = true /\ high_water_mark ar <= underlying_buffer_size ar /\
  underlying_buffer_size ar < 2 ^ 63.

Lemma tensor_set (i j : Z) (v : TfLiteTensor) (l : list TfLiteTensor) :
  0 <= j -> index (length l) i -> tensor_at j (set_at i v l) = if i =? j then v else tensor_at j l.
Proof.
  unfold index. intros Hj Hi. unfold tensor_at, set_at. rewrite !nth_lookup. destruct (Z.eqb_spec i j) as [->|Hne].
  - rewrite list_lookup_insert_eq by lia. done.
  - rewrite list_lookup_insert_ne by lia. done.
Qed.

Section Allocate.
Context (s0 : t) (B : Z).
Let n := length (tensors s0).
Let ty (x : Z) := allocation_type (tensor_at x (tensors s0)).
Let sz (x : Z) := bytes (tensor_at x (tensors s0)).
Context (Halign : 0 < tensor_alignment s0) (HB : B + 2 < 2 ^ 63).

(** Everything but the arenas, the allocations and the last active node is as in [s0]. *)
Definition same (s : t) : Prop :=
  tensors s = tensors s0 /\ alloc_node s = alloc_node s0 /\ dealloc_node s = dealloc_node s0 /\
  tensor_alignment s = tensor_alignment s0 /\ nodes_to_tensors s = nodes_to_tensors s0.

(** The allocations of the tensors: none yet, or a place in the arena of their type. *)
Record allocated (s : t) : Prop := {
  a_same : same s;
  a_len : length (allocs s) = n;
  a_rw : forall x, index n x -> ty x = kTfLiteArenaRw ->
    alloc_size (alloc_at x (allocs s)) = 0 \/
    placed (arena s) (alloc_at x (allocs s)) x (sz x) (at_ x (alloc_node s0)) (at_ x (dealloc_node s0));
  a_persistent : forall x, index n x -> ty x = kTfLiteArenaRwPersistent ->
    (alloc_size (alloc_at x (allocs s)) = 0 /\ offset (alloc_at x (allocs s)) = 0) \/
    placed (persistent_arena s) (alloc_at x (allocs s)) x (sz x) (at_ x (alloc_node s0)) i32_max
}.

Record inv (todo : list Z) (s : t) : Prop := {
  i_alloc : allocated s;
  i_arena : sound (arena s);
  i_persistent : sound (persistent_arena s);
  i_align : tensor_alignment s0 <= arena_alignment (arena s) /\ tensor_alignment s0 <= arena_alignment (persistent_arena s);
  i_room : high_water_mark (arena s) + cost s0 todo <= B /\ high_water_mark (persistent_arena s) + cost s0 todo <= B
}.

(** [Allocate] in a sound arena with room. *)
Lemma Allocate_in (ar : Arena.t) (x first last size rest : Z) :
  sound ar -> tensor_alignment s0 <= arena_alignment ar -> 0 < size -> 0 <= rest ->
  high_water_mark ar + (size + tensor_alignment s0 + rest) <= B ->
  exists ar' al, Allocate ar (tensor_alignment s0) size x first last = Ok (ar', al) /\ sound ar' /\
    placed ar' al x size first last /\ active_allocs ar' ≡ₚ al :: active_allocs ar /\
    arena_alignment ar' = arena_alignment ar /\ high_water_mark ar' + rest <= B.
Proof.
  intros [Hp Hb] Ha Hs Hr Hroom.
  destruct (Allocate_sound ar (tensor_alignment s0) size x first last Hp) as
    (ar' & al & HA & Hp' & E1 & E2 & E3 & E4 & E5 & E6 & E7 & E8 & _ & _ & _ & Hperm & Hh); [lia|lia|lia|].
  specialize (Hperm Hs). exists ar', al. split; [done|]. split; [|split; [|split; [done|split; [done|lia]]]].
  - split; [done|]. unfold buffer_ok in *. by rewrite E5, E6, E7, E8.
  - split; try done. rewrite Hperm. by left.
Qed.

(** One turn of the loop that allocates the tensors. *)
Lemma allocate_tensor_inv (x : Z) (todo : list Z) (s : t) :
  inv (x :: todo) s -> index n x -> 0 <= cost s0 todo -> (ty x = kTfLiteArenaRw -> 0 < sz x) -> 0 <= sz x ->
  exists s', allocate_tensor x s = Ok s' /\ inv todo s' /\
    (ty x <> kTfLiteOther -> alloc_size (alloc_at x (allocs s')) = sz x) /\
    (forall y, index n y -> y <> x -> alloc_at y (allocs s') = alloc_at y (allocs s)).
Proof.
  intros [[(T1 & T2 & T3 & T4 & T5) Hlen Hrw Hps] Ha Hp [Al1 Al2] [R1 R2]] Hx Hcost Hpos Hnn.
  unfold allocate_tensor. rewrite T1, T2, T3, T4. fold (ty x) (sz x). cbn [cost] in *. fold (sz x) in *.
  assert (forall al y, index n y -> alloc_at y (set_at x al (allocs s)) = if x =? y then al else alloc_at y (allocs s)) as Hset.
  { intros al y Hy. apply alloc_set; [unfold index in Hy; lia|by rewrite Hlen]. }
  destruct (ty x) eqn:Et.
  - destruct (Allocate_in (arena s) x (at_ x (alloc_node s0)) (at_ x (dealloc_node s0)) (sz x) (cost s0 todo))
      as (ar' & al & -> & Hs' & Hpl & Hperm & Hal & Hh); [done|done|by apply Hpos|done|lia|].
    eexists. split; [done|]. cbn [with_allocs with_arenas allocs arena persistent_arena]. split; [|split].
    + split; cbn [with_allocs with_arenas allocs arena persistent_arena]; try done; [|lia|lia].
      split; [done| | |]; cbn [with_allocs with_arenas allocs arena persistent_arena].
      * unfold set_at. by rewrite length_insert.
      * intros y Hy Ey. rewrite Hset by done. destruct (Z.eqb_spec x y) as [<-|]; [by right|].
        destruct (Hrw y Hy Ey) as [E|E]; [by left|right]. by eapply placed_more.
      * intros y Hy Ey. rewrite Hset by done. destruct (Z.eqb_spec x y) as [<-|]; [congruence|]. by apply Hps.
    + intros _. rewrite Hset, Z.eqb_refl by done. apply Hpl.
    + intros y Hy Hne. rewrite Hset, (proj2 (Z.eqb_neq x y)) by done. done.
  - destruct (_ && _) eqn:Ez.
    + zbool. destruct (Allocate_in (persistent_arena s) x (at_ x (alloc_node s0)) i32_max (sz x) (cost s0 todo))
        as (ar' & al & -> & Hs' & Hpl & Hperm & Hal & Hh); [done|done|lia|done|lia|].
      eexists. split; [done|]. cbn [with_allocs with_arenas allocs arena persistent_arena]. split; [|split].
      * split; cbn [with_allocs with_arenas allocs arena persistent_arena]; try done; [|lia|lia].
        split; [done| | |]; cbn [with_allocs with_arenas allocs arena persistent_arena].
        -- unfold set_at. by rewrite length_insert.
        -- intros y Hy Ey. rewrite Hset by done. destruct (Z.eqb_spec x y) as [<-|]; [congruence|]. by apply Hrw.
        -- intros y Hy Ey. rewrite Hset by done. destruct (Z.eqb_spec x y) as [<-|]; [by right|].
           destruct (Hps y Hy Ey) as [E|E]; [by left|right]. by eapply placed_more.
      * intros _. rewrite Hset, Z.eqb_refl by done. apply Hpl.
      * intros y Hy Hne. rewrite Hset, (proj2 (Z.eqb_neq x y)) by done. done.
    + exists s. split; [done|]. split; [|split; [|done]].
      * split; try done; lia.
      * intros _. destruct (Hps x Hx Et) as [[E _]|E]; [|apply E].
        rewrite E in *. apply andb_false_iff in Ez as [Ez|Ez]; zbool; lia.
  - exists s. split; [done|]. split; [|split; done]. split; try done; lia.
Qed.

Context (Hnn : forall x, 0 <= sz x).

Lemma cost_nonneg (l : list Z) : 0 <= cost s0 l.
Proof. induction l as [|x l IH]; cbn; [lia|]. specialize (Hnn x). unfold sz in Hnn. lia. Qed.

(** The whole loop: every tensor of the list has its size. *)
Lemma allocate_all (l : list Z) (s : t) :
  inv l s -> Forall (index n) l -> Forall (fun x => ty x = kTfLiteArenaRw -> 0 < sz x) l ->
  exists s', each allocate_tensor l s = Ok s' /\ inv [] s' /\
    forall x, x ∈ l -> ty x <> kTfLiteOther -> alloc_size (alloc_at x (allocs s')) = sz x.
Proof.
  intros H Hi Hpos.
  destruct (each_inv allocate_tensor (fun todo s => inv todo s /\ Forall (index n) todo /\
      Forall (fun x => ty x = kTfLiteArenaRw -> 0 < sz x) todo /\
      forall x, x ∈ l -> ty x <> kTfLiteOther -> x ∈ todo \/ alloc_size (alloc_at x (allocs s)) = sz x) l s)
    as (s' & Hs & I1 & _ & _ & I4); [by auto 6| |].
  - intros x todo q (J1 & J2 & J3 & J4). apply list.Forall_cons in J2 as [Hx J2]. apply list.Forall_cons in J3 as [Hx0 J3].
    destruct (allocate_tensor_inv x todo q J1 Hx (cost_nonneg todo) Hx0 (Hnn x)) as (q' & Hq & K1 & K2 & K3).
    exists q'. split; [done|]. split; [done|]. split; [done|]. split; [done|].
    intros y Hy Ey. rewrite list.Forall_forall in Hi. specialize (Hi y Hy).
    destruct (Z.eq_dec y x) as [->|Hne]; [right; by apply K2|]. rewrite K3 by done.
    destruct (J4 y Hy Ey) as [Hin|Hin]; [|by right]. apply elem_of_cons in Hin as [->|Hin]; [done|by left].
  - exists s'. split; [done|]. split; [done|]. intros x Hx Ex. destruct (I4 x Hx Ex) as [Hin|]; [by apply elem_of_nil in Hin|done].
Qed.

(** ** Resolving the pointers *)

(** While pointers are resolved only the data of tensors changes. *)
Record resolving (c s : t) : Prop := {
  r_state : s = with_tensors c (tensors s);
  r_len : length (tensors s) = n;
  r_type : forall x, index n x -> allocation_type (tensor_at x (tensors s)) = ty x;
  r_bytes : forall x, index n x -> bytes (tensor_at x (tensors s)) = sz x
}.

(** The pointer that a tensor with a place should have. *)
Definition resolved (c : t) (x : Z) (p : option Z) : Prop :=
  (ty x = kTfLiteArenaRw ->
   placed (arena c) (alloc_at x (allocs c)) x (sz x) (at_ x (alloc_node s0)) (at_ x (dealloc_node s0)) ->
   p = Some (Arena.BasePointer (arena c) + offset (alloc_at x (allocs c)))) /\
  (ty x = kTfLiteArenaRwPersistent ->
   placed (persistent_arena c) (alloc_at x (allocs c)) x (sz x) (at_ x (alloc_node s0)) i32_max ->
   p = Some (Arena.BasePointer (persistent_arena c) + offset (alloc_at x (allocs c)))).

Lemma store_pointer (c s : t) (x : Z) (p : option Z) :
  resolving c s -> index n x -> resolved c x p ->
  let s' := with_tensors s (set_at x (set_data p (tensor_at x (tensors s))) (tensors s)) in
  resolving c s' /\ resolved c x (data (tensor_at x (tensors s'))) /\
  forall y, index n y -> y <> x -> tensor_at y (tensors s') = tensor_at y (tensors s).
Proof.
  intros [R1 R2 R3 R4] Hx Hp s'.
  assert (forall y, index n y -> tensor_at y (tensors s') =
    if x =? y then set_data p (tensor_at x (tensors s)) else tensor_at y (tensors s)) as Hset.
  { intros y Hy. unfold s'. cbn [with_tensors tensors]. apply tensor_set; [unfold index in Hy; lia|by rewrite R2]. }
  split; [split|split].
  - unfold s'. rewrite R1. done.
  - unfold s'. cbn [with_tensors tensors]. unfold set_at. by rewrite length_insert.
  - intros y Hy. rewrite Hset by done. destruct (Z.eqb_spec x y) as [->|]; [|by apply R3]. cbn. by apply R3.
  - intros y Hy. rewrite Hset by done. destruct (Z.eqb_spec x y) as [->|]; [|by apply R4]. cbn. by apply R4.
  - rewrite Hset, Z.eqb_refl by done. done.
  - intros y Hy Hne. rewrite Hset, (proj2 (Z.eqb_neq x y)) by done. done.
Qed.

Lemma ResolveTensor_ok (c s : t) (x : Z) :
  allocated c -> backed (arena c) -> backed (persistent_arena c) -> resolving c s -> index n x ->
  exists s', ResolveTensorAllocation x s = Ok s' /\ resolving c s' /\
    resolved c x (data (tensor_at x (tensors s'))) /\
    forall y, index n y -> y <> x -> tensor_at y (tensors s') = tensor_at y (tensors s).
Proof.
  intros [_ _ Hrw Hps] (S1 & C1 & H1 & U1) (S2 & C2 & H2 & U2) Hr Hx.
  unfold ResolveTensorAllocation. rewrite (r_type _ _ Hr x Hx).
  assert (allocs s = allocs c /\ arena s = arena c /\ persistent_arena s = persistent_arena c) as (-> & -> & ->)
    by (rewrite (r_state _ _ Hr); done).
  pose proof (store_pointer c s x) as Hstore. unfold resolved in *.
  destruct (ty x) eqn:Et.
  - destruct (Z.eqb_spec (alloc_size (alloc_at x (allocs c))) 0) as [E|E]; cbn [negb].
    + exists s. split; [done|]. split; [done|]. split; [|done]. split; [|done]. intros _ Hpl.
      destruct S1 as [Hp _]. pose proof (plan_bounded _ Hp) as Hf. rewrite list.Forall_forall in Hf.
      destruct (Hf _ (pl_in _ _ _ _ _ _ Hpl)) as (_ & Hpos & _). lia.
    + destruct (Hrw x Hx Et) as [|Hpl]; [done|]. rewrite (Resolve_placed _ _ _ _ _ _ S1 C1 H1 U1 Hpl). cbn [res_bind].
      eexists. split; [done|]. apply Hstore; try done.
  - destruct (Hps x Hx Et) as [[E1 E2]|Hpl].
    + assert (ResolveAlloc (persistent_arena c) (alloc_at x (allocs c)) = Ok None) as ->.
      { unfold ResolveAlloc. rewrite C2, E1, E2. change (wrap_u64 (0 + 0)) with 0. cbn [negb].
        destruct S2 as [Hp _]. pose proof (plan_hwm _ Hp). rewrite (proj2 (Z.leb_le 0 _)) by lia. done. }
      cbn [res_bind]. eexists. split; [done|]. apply Hstore; try done. split; [done|]. intros _ Hpl.
      destruct S2 as [Hp _]. pose proof (plan_bounded _ Hp) as Hf. rewrite list.Forall_forall in Hf.
      destruct (Hf _ (pl_in _ _ _ _ _ _ Hpl)) as (_ & Hpos & _). lia.
    + rewrite (Resolve_placed _ _ _ _ _ _ S2 C2 H2 U2 Hpl). cbn [res_bind].
      eexists. split; [done|]. apply Hstore; try done.
  - exists s. split; [done|]. done.
Qed.

Lemma resolve_all (c : t) (l : list Z) :
  allocated c -> backed (arena c) -> backed (persistent_arena c) -> Forall (index n) l ->
  exists s', each ResolveTensorAllocation l c = Ok s' /\ resolving c s' /\
    forall x, x ∈ l -> resolved c x (data (tensor_at x (tensors s'))).
Proof.
  intros Hc B1 B2 Hl. assert (resolving c c) as Hrc.
  { pose proof (a_same c Hc) as (T1 & _). split; [by destruct c|by rewrite T1|..]; intros x _; by rewrite T1. }
  destruct (each_inv ResolveTensorAllocation (fun todo s => resolving c s /\ Forall (index n) todo /\
      forall x, x ∈ l -> x ∈ todo \/ resolved c x (data (tensor_at x (tensors s)))) l c)
    as (s' & Hs & I1 & _ & I3); [by auto| |].
  - intros x todo q (J1 & J2 & J3). apply list.Forall_cons in J2 as [Hx J2].
    destruct (ResolveTensor_ok c q x Hc B1 B2 J1 Hx) as (q' & Hq & K1 & K2 & K3).
    exists q'. split; [done|]. split; [done|]. split; [done|]. intros y Hy. rewrite list.Forall_forall in Hl.
    destruct (Z.eq_dec y x) as [->|Hne]; [by right|]. rewrite K3 by auto.
    destruct (J3 y Hy) as [Hin|]; [|by right]. apply elem_of_cons in Hin as [->|Hin]; [done|by left].
  - exists s'. split; [done|]. split; [done|]. intros x Hx. destruct (I3 x Hx) as [Hin|]; [by apply elem_of_nil in Hin|done].
Qed.
End Allocate.
