(* ===== verification/PlannerTheorems.v ===== *)
(** * Theorems on the memory planner

    The lifetimes that [PlanAllocations] computes, and the memory that the
    tensors of the graph have after [ExecuteAllocations] of all nodes. *)

From S2P Require Import Prelude Arena ArenaPlanner PlannerPlan PlannerSafety.
Import Arena Planner.

(** ** Sorting and costs *)

Lemma sort_by_perm (lt : Z -> Z -> bool) (l : list Z) : sort_by lt l ≡ₚ l.
Proof.
  assert (forall x k, sort_insert lt x k ≡ₚ x :: k) as Hi.
  { intros x k. induction k as [|y k IH]; cbn; [done|]. destruct (lt y x); [|done].
    rewrite IH. apply Permutation_swap. }
  induction l as [|x l IH]; [done|]. cbn [sort_by fold_right]. rewrite Hi. by rewrite <- IH at 2.
Qed.

Lemma cost_perm (s : t) (l k : list Z) : l ≡ₚ k -> cost s l = cost s k.
Proof. induction 1; cbn [cost]; lia. Qed.

Lemma cost_filter (s : t) (f : Z -> bool) (l : list Z) :
  0 < tensor_alignment s -> (forall x, 0 <= bytes (tensor_at x (tensors s))) -> cost s (List.filter f l) <= cost s l.
Proof.
  intros Ha Hb. induction l as [|x l IH]; cbn; [lia|]. specialize (Hb x). destruct (f x); cbn [cost]; lia.
Qed.

(** ** One run of the planner *)

Section Run.
Context (iter : list Z -> list Z) (Hiter : forall l, iter l ≡ₚ l).
Context (s : t) (last B : Z).
Let n := length (tensors s).

(** A state in which nothing is allocated yet. *)
Record prepared : Prop := {
  p_align : 0 < tensor_alignment s;
  p_align_arena : tensor_alignment s <= arena_alignment (arena s);
  p_align_persistent : tensor_alignment s <= arena_alignment (persistent_arena s);
  p_arena : sound (arena s) /\ high_water_mark (arena s) = 0;
  p_persistent : sound (persistent_arena s) /\ high_water_mark (persistent_arena s) = 0;
  p_allocs : allocs s = replicate n reset;
  p_bytes : forall x, 0 <= bytes (tensor_at x (tensors s));
  p_cost : cost s (GetTensorsToAllocate iter s 0 last) <= B;
  p_last : last_active_node s = kLastActiveNodeUndefined;
  p_range : forall i x, x ∈ nth i (nodes_to_tensors s) [] -> index n x;
  p_member : forall x, index n x -> at_ x (alloc_node s) <> kNodeNotAssigned ->
    0 <= at_ x (alloc_node s) <= last /\ x ∈ nth (Z.to_nat (at_ x (alloc_node s))) (nodes_to_tensors s) [];
  p_node : last <= i32_max;
  p_room : B + 2 * arena_alignment (arena s) < 2 ^ 63 /\ B + 2 * arena_alignment (persistent_arena s) < 2 ^ 63
}.
Context (Hs : prepared).

Lemma room : B + 2 < 2 ^ 63.
Proof. destruct Hs. lia. Qed.

Lemma elem_of_tensors (x : Z) :
  x ∈ GetTensorsToAllocate iter s 0 last <->
  exists i, 0 <= i <= last /\ x ∈ nth (Z.to_nat i) (nodes_to_tensors s) [].
Proof.
  unfold GetTensorsToAllocate. rewrite list_elem_of_In, in_concat. split.
  - intros (l & Hl & Hx). apply in_map_iff in Hl as (i & <- & Hi). apply list_elem_of_In, elem_of_seqZ in Hi.
    apply list_elem_of_In in Hx. rewrite Hiter in Hx. exists i. split; [lia|done].
  - intros (i & Hi & Hx). exists (iter (nth (Z.to_nat i) (nodes_to_tensors s) [])). split.
    + apply in_map_iff. exists i. split; [done|]. apply list_elem_of_In, elem_of_seqZ. lia.
    + apply list_elem_of_In. by rewrite Hiter.
Qed.

Lemma reset_allocs (x : Z) : alloc_at x (allocs s) = reset.
Proof.
  rewrite (p_allocs Hs). unfold alloc_at. rewrite nth_lookup. destruct (_ !! _) eqn:E; [|done].
  by apply lookup_replicate in E as [-> _].
Qed.

(** Clearing the active allocations of an arena keeps it sound. *)
Lemma ResetAllocs_sound (ar : Arena.t) : sound ar -> sound (ResetAllocs ar).
Proof.
  intros [[P1 P2 _ _ _] Hb]. split; [|done]. split; cbn; try done; by constructor.
Qed.

Lemma run_start_inv (q : t) (l : list Z) :
  same s q -> allocs q = allocs s -> arena q = ResetAllocs (arena s) \/ arena q = arena s ->
  persistent_arena q = persistent_arena s -> cost s l <= B -> inv s B l q.
Proof.
  intros Hq Ha Har Hpe Hc. destruct Hs as [A1 A2 A3 [A4 A5] [A6 A7] A8 _ _ _ _ _ _ _].
  assert (high_water_mark (arena q) = 0 /\ arena_alignment (arena q) = arena_alignment (arena s) /\ sound (arena q)) as (E1 & E2 & E3).
  { destruct Har as [-> | ->]; [|done]. split; [done|]. split; [done|]. by apply ResetAllocs_sound. }
  split; rewrite ?Hpe, ?E1, ?E2; try done.
  - split; [done|rewrite Ha, A8; apply length_replicate| |]; intros x Hx _; rewrite Ha, reset_allocs; auto.
  - lia.
Qed.

Lemma Calculate_ok :
  exists q l, CalculateAllocations iter s 0 last = Ok (q, l) /\ inv s B [] q /\ Forall (index n) l /\
    (forall x, x ∈ l <-> x ∈ GetTensorsToAllocate iter s 0 last /\ needs_allocation s x = true) /\
    forall x, x ∈ l -> allocation_type (tensor_at x (tensors s)) <> kTfLiteOther ->
      alloc_size (alloc_at x (allocs q)) = bytes (tensor_at x (tensors s)).
Proof.
  pose proof Hs as [A1 _ _ _ _ _ A7 A8 A9 A10 _ _ _].
  unfold CalculateAllocations. set (l := List.filter (needs_allocation s) (GetTensorsToAllocate iter s 0 last)).
  assert (forall x, x ∈ l <-> x ∈ GetTensorsToAllocate iter s 0 last /\ needs_allocation s x = true) as Hl.
  { intros x. unfold l. rewrite !list_elem_of_In. apply filter_In. }
  assert (cost s l <= B) as Hc by (pose proof (cost_filter s (needs_allocation s) (GetTensorsToAllocate iter s 0 last) A1 A7); unfold l; lia).
  destruct l as [|x0 l0] eqn:El.
  { exists (with_last s last), []. split; [done|]. split; [by apply run_start_inv; auto|].
    split; [constructor|]. split; [done|]. intros x Hx. by apply elem_of_nil in Hx. }
  rewrite A9. change (0 <? kLastActiveNodeUndefined) with true. cbn iota.
  set (q0 := with_last (with_arenas s (ResetAllocs (arena s)) (persistent_arena s)) 0).
  set (k := CreateTensorAllocationVector q0 (x0 :: l0)).
  assert (k ≡ₚ x0 :: l0) as Hk by apply sort_by_perm.
  assert (Forall (index n) k) as Hki.
  { apply list.Forall_forall. intros x Hx. rewrite Hk, Hl, elem_of_tensors in Hx.
    destruct Hx as ((i & _ & Hx) & _). by eapply A10. }
  assert (inv s B k q0) as Hinv by (apply run_start_inv; [done|done|by left|done|by rewrite (cost_perm s _ _ Hk)]).
  destruct (allocate_all s B A1 room A7 k q0 Hinv Hki) as (q & Hq & I1 & I2).
  { apply list.Forall_forall. intros x Hx. rewrite Hk, Hl in Hx. destruct Hx as [_ Hx].
    unfold needs_allocation in Hx. intros E. rewrite E, reset_allocs in Hx. cbn in Hx. zbool. done. }
  rewrite Hq. cbn [res_bind]. exists (with_last q last), k. split; [done|]. split; [by destruct I1 as [[? ? ? ?] ? ? ? ?]|].
  split; [done|]. split; [intros x; by rewrite Hk|]. done.
Qed.

(** ** The memory of the tensors *)

Definition arena_of (ty : TfLiteAllocationType) (q : t) : Arena.t :=
  match ty with kTfLiteArenaRwPersistent => persistent_arena q | _ => arena q end.

(** A tensor of an arena type that some node uses. *)
Definition used (q : t) (x : Z) : Prop :=
  index (length (tensors q)) x /\ allocation_type (tensor_at x (tensors q)) <> kTfLiteOther /\
  0 < bytes (tensor_at x (tensors q)) /\ at_ x (alloc_node q) <> kNodeNotAssigned.

(** The data of a tensor is at [p], inside the block of its arena. *)
Definition has_memory (q : t) (x p : Z) : Prop :=
  data (tensor_at x (tensors q)) = Some p /\
  exists blk, underlying_buffer (arena_of (allocation_type (tensor_at x (tensors q))) q) = Some blk /\
    block_base blk <= p /\
    p + bytes (tensor_at x (tensors q)) <= block_base blk + Z.of_nat (length (block_bytes blk)).

(** Tensors of one arena that may not share memory: persistent ones, and others that are
    alive together.  The two arenas are different blocks. *)
Definition alive_together (q : t) (x y : Z) : Prop :=
  let ty := allocation_type (tensor_at x (tensors q)) in
  ty = allocation_type (tensor_at y (tensors q)) /\
  (ty = kTfLiteArenaRwPersistent \/
   (at_ x (alloc_node q) <= at_ y (dealloc_node q) /\ at_ y (alloc_node q) <= at_ x (dealloc_node q))).

Definition disjoint (q : t) (x y px py : Z) : Prop :=
  px + bytes (tensor_at x (tensors q)) <= py \/ py + bytes (tensor_at y (tensors q)) <= px.

Definition memory_ok (q : t) : Prop :=
  (forall x, used q x -> exists p, has_memory q x p) /\
  (forall x y px py, used q x -> used q y -> x <> y -> alive_together q x y ->
     has_memory q x px -> has_memory q y py -> disjoint q x y px py).

(** What holds of a placed allocation of a committed arena. *)
Lemma placed_bounds (ar : Arena.t) (al : Alloc) (x size first last' : Z) :
  sound ar -> is_Some (underlying_buffer ar) ->
  high_water_mark ar + 2 * arena_alignment ar <= underlying_buffer_size ar ->
  placed ar al x size first last' ->
  exists blk, underlying_buffer ar = Some blk /\ block_base blk <= Arena.BasePointer ar + offset al /\
    Arena.BasePointer ar + offset al + size <= block_base blk + Z.of_nat (length (block_bytes blk)).
Proof.
  intros [Hp Hb] [blk Hblk] Hsz [Hin _ Hsize _ _]. exists blk. split; [done|].
  unfold buffer_ok in Hb. rewrite Hblk in Hb. destruct Hb as (B0 & B1 & B2 & B3 & B4).
  pose proof (plan_alignment _ Hp). pose proof (plan_bounded _ Hp) as Hf. rewrite list.Forall_forall in Hf.
  destruct (Hf al Hin) as (F1 & F2 & F3). pose proof (plan_hwm _ Hp).
  destruct (AlignTo_spec (arena_alignment ar) (block_base blk)) as [Hal _]; [lia|lia|lia|].
  unfold Arena.BasePointer. rewrite B4. lia.
Qed.

(** The last node at which the memory of a tensor is reserved. *)
Definition life_end (x : Z) : Z :=
  match allocation_type (tensor_at x (tensors s)) with
  | kTfLiteArenaRw => at_ x (dealloc_node s)
  | _ => i32_max
  end.

(** The state after the commit: [c] before the pointers are set, [q] after. *)
Record finished (c q : t) : Prop := {
  f_alloc : allocated s c;
  f_sound : forall ty, sound (arena_of ty c) /\ is_Some (underlying_buffer (arena_of ty c)) /\
    high_water_mark (arena_of ty c) + 2 * arena_alignment (arena_of ty c) <= underlying_buffer_size (arena_of ty c);
  f_resolving : resolving s c q;
  f_used : forall x, used s x -> alloc_size (alloc_at x (allocs c)) = bytes (tensor_at x (tensors s)) /\
                                 resolved s c x (data (tensor_at x (tensors q)))
}.

Lemma finished_fields (c q : t) :
  finished c q -> length (tensors q) = n /\ alloc_node q = alloc_node s /\ dealloc_node q = dealloc_node s /\
  (forall ty, arena_of ty q = arena_of ty c) /\
  (forall x, index n x -> allocation_type (tensor_at x (tensors q)) = allocation_type (tensor_at x (tensors s))) /\
  (forall x, index n x -> bytes (tensor_at x (tensors q)) = bytes (tensor_at x (tensors s))) /\
  forall x, used q x -> used s x.
Proof.
  intros [Hc _ Hr _]. pose proof (a_same s c Hc) as (T1 & T2 & T3 & T4 & T5).
  destruct Hr as [Hq Hlen Hty Hby].
  assert (alloc_node q = alloc_node s /\ dealloc_node q = dealloc_node s) as [E1 E2] by (rewrite Hq; cbn; by rewrite T2, T3).
  split; [done|]. split; [done|]. split; [done|]. split; [intros []; by rewrite Hq|]. split; [done|]. split; [done|].
  intros x (X1 & X2 & X3 & X4). rewrite Hlen in X1. rewrite Hty in X2 by done. rewrite Hby in X3 by done.
  rewrite E1 in X4. done.
Qed.

(** The place of a tensor that is used. *)
Lemma place_of (c q : t) (x : Z) :
  finished c q -> used s x ->
  let ar := arena_of (allocation_type (tensor_at x (tensors s))) c in
  exists al, placed ar al x (bytes (tensor_at x (tensors s))) (at_ x (alloc_node s)) (life_end x) /\
    data (tensor_at x (tensors q)) = Some (Arena.BasePointer ar + offset al).
Proof.
  intros [Hc _ _ Hres] Hx ar. destruct (Hres x Hx) as [Hsz [D1 D2]]. destruct Hx as (X1 & X2 & X3 & X4).
  unfold life_end, ar in *. exists (alloc_at x (allocs c)).
  destruct (allocation_type (tensor_at x (tensors s))) eqn:Et; [| |done].
  - destruct (a_rw s c Hc x X1 Et) as [|P]; [lia|]. split; [done|]. by apply D1.
  - destruct (a_persistent s c Hc x X1 Et) as [[? _]|P]; [lia|]. split; [done|]. by apply D2.
Qed.

Lemma lives_meet (x y : Z) : used s x -> used s y -> alive_together s x y -> at_ x (alloc_node s) <= life_end y.
Proof.
  intros (X1 & X2 & _ & X4) (Y1 & _ & _ & Y4) [Hta Hal]. destruct (p_member Hs x X1 X4) as [Mx _].
  pose proof (p_node Hs). unfold life_end. rewrite <- Hta.
  destruct (allocation_type (tensor_at x (tensors s))); [|lia|done]. destruct Hal as [|[Hal _]]; done.
Qed.

Lemma finished_memory (c q : t) : finished c q -> memory_ok q.
Proof.
  intros H. destruct (finished_fields c q H) as (Hlen & E1 & E2 & Har & Hty & Hby & Hused). split.
  - intros x Hx. pose proof (proj1 Hx) as X1. rewrite Hlen in X1.
    destruct (place_of c q x H (Hused x Hx)) as (al & P & Hd).
    destruct (f_sound c q H (allocation_type (tensor_at x (tensors s)))) as (A1 & A2 & A3).
    destruct (placed_bounds _ al x _ _ _ A1 A2 A3 P) as (blk & K1 & K2 & K3).
    eexists. split; [exact Hd|]. rewrite Hty, Hby, Har by done. by exists blk.
  - intros x y px py Hx Hy Hne Halive [Dx _] [Dy _].
    pose proof (proj1 Hx) as X1. pose proof (proj1 Hy) as Y1. rewrite Hlen in X1, Y1.
    unfold alive_together in Halive. rewrite !Hty, E1, E2 in Halive by done.
    destruct (place_of c q x H (Hused x Hx)) as (ax & Px & Hdx).
    destruct (place_of c q y H (Hused y Hy)) as (ay & Py & Hdy).
    pose proof (lives_meet x y (Hused x Hx) (Hused y Hy) Halive) as M1.
    assert (alive_together s y x) as Halive' by (destruct Halive as [A1 A2]; split; [done|]; rewrite <- A1; destruct A2; [by left|right; tauto]).
    pose proof (lives_meet y x (Hused y Hy) (Hused x Hx) Halive') as M2.
    rewrite <- (proj1 Halive) in Py, Hdy.
    destruct (f_sound c q H (allocation_type (tensor_at x (tensors s)))) as (A1 & _ & _).
    unfold disjoint. rewrite !Hby by done. rewrite Dx in Hdx. rewrite Dy in Hdy. injection Hdx as ->. injection Hdy as ->.
    destruct (placed_disjoint _ ax ay x y _ _ _ _ _ _ (proj1 A1) Px Py Hne M1 M2) as [Hd|Hd]; [left|right]; lia.
Qed.

(** ** From the plan to the pointers *)

(** What [new char[]] returns for the two arenas. *)
Definition fresh_blocks (fresh pfresh : Z * list Z) : Prop :=
  forall q l, CalculateAllocations iter s 0 last = Ok (q, l) ->
    fresh_ok (arena q) fresh.1 fresh.2 /\ fresh_ok (persistent_arena q) pfresh.1 pfresh.2.

Lemma commit_ok (q : t) (fresh pfresh : Z * list Z) :
  inv s B [] q -> fresh_ok (arena q) fresh.1 fresh.2 -> fresh_ok (persistent_arena q) pfresh.1 pfresh.2 ->
  arena_alignment (arena q) = arena_alignment (arena s) ->
  arena_alignment (persistent_arena q) = arena_alignment (persistent_arena s) ->
  exists c r, Planner.Commit q fresh pfresh = Ok (c, r) /\ allocated s c /\ allocs c = allocs q /\
    forall ty, backed (arena_of ty c) /\ is_Some (underlying_buffer (arena_of ty c)) /\
      high_water_mark (arena_of ty c) + 2 * arena_alignment (arena_of ty c) <= underlying_buffer_size (arena_of ty c).
Proof.
  intros [Ha S1 S2 _ [R1 R2]] F1 F2 L1 L2. pose proof (p_room Hs) as [M1 M2]. cbn [cost] in *.
  destruct (Commit_sound (arena q) fresh S1 F1) as (a & r & C1 & C2 & C3 & C4 & C5 & C6 & C7 & C8 & C9); [lia|].
  destruct (Commit_sound (persistent_arena q) pfresh S2 F2) as (b & pr & D1 & D2 & D3 & D4 & D5 & D6 & D7 & D8 & D9); [lia|].
  unfold Planner.Commit. rewrite C1, D1. eexists _, _. split; [done|]. split; [|split; [done|]].
  - destruct Ha as [A1 A2 A3 A4]. split; cbn [with_arenas allocs arena persistent_arena]; try done.
    + intros x Hx Ex. destruct (A3 x Hx Ex) as [|[]]; [by left|right]. split; try done. by rewrite C4.
    + intros x Hx Ex. destruct (A4 x Hx Ex) as [|[]]; [by left|right]. split; try done. by rewrite D4.
  - assert (forall ar, sound ar -> is_Some (underlying_buffer ar) -> underlying_buffer_size ar < 2 ^ 63) as Hsize.
    { intros ar [_ Hb] [blk Hblk]. unfold buffer_ok in Hb. rewrite Hblk in Hb. lia. }
    intros []; cbn [arena_of with_arenas arena persistent_arena]; unfold backed; rewrite ?C5, ?C8, ?D5, ?D8;
      (split; [split; [done|split; [done|split; [lia|by apply Hsize]]]|]); done.
Qed.

(** [Allocate] and the loop keep the alignment of the arenas. *)
Lemma allocate_tensor_align (x : Z) (q q' : t) :
  allocate_tensor x q = Ok q' ->
  arena_alignment (arena q') = arena_alignment (arena q) /\
  arena_alignment (persistent_arena q') = arena_alignment (persistent_arena q).
Proof.
  assert (forall ar al sz x f l ar' a, Allocate ar al sz x f l = Ok (ar', a) -> arena_alignment ar' = arena_alignment ar) as HA.
  { intros ar al sz y f l ar' a. unfold Allocate. repeat case_if; try done; [by intros; simplify_eq|].
    destruct (find_gap _ _ _ _ _ _ _ _). by intros; simplify_eq. }
  unfold allocate_tensor. destruct (allocation_type _).
  - destruct (Allocate _ _ _ _ _ _) as [[ar a]|] eqn:E; cbn; [|done]. intros [= <-]. apply HA in E. done.
  - destruct (_ && _); [|by intros [= <-]]. destruct (Allocate _ _ _ _ _ _) as [[ar a]|] eqn:E; cbn; [|done].
    intros [= <-]. apply HA in E. done.
  - by intros [= <-].
Qed.

Lemma each_align (l : list Z) (q q' : t) :
  each allocate_tensor l q = Ok q' ->
  arena_alignment (arena q') = arena_alignment (arena q) /\
  arena_alignment (persistent_arena q') = arena_alignment (persistent_arena q).
Proof.
  revert q. induction l as [|x l IH]; intros q; cbn [each]; [by intros [= <-]|].
  destruct (allocate_tensor x q) as [q1|] eqn:E; cbn [res_bind]; [|done]. intros H.
  destruct (allocate_tensor_align x q q1 E) as [<- <-]. by apply IH.
Qed.

Lemma Calculate_align (q : t) (l : list Z) :
  CalculateAllocations iter s 0 last = Ok (q, l) ->
  arena_alignment (arena q) = arena_alignment (arena s) /\
  arena_alignment (persistent_arena q) = arena_alignment (persistent_arena s).
Proof.
  unfold CalculateAllocations. destruct (List.filter _ _) as [|x0 l0]; [by intros [= <- _]|].
  destruct (0 <? _); (destruct (each _ _ _) as [q1|] eqn:E; cbn [res_bind]; [|done]); intros [= <- _];
    apply each_align in E; done.
Qed.

Lemma needs_used (x : Z) : used s x -> x ∈ GetTensorsToAllocate iter s 0 last /\ needs_allocation s x = true.
Proof.
  intros (X1 & X2 & X3 & X4). destruct (p_member Hs x X1 X4) as [Hr Hx]. split.
  - apply elem_of_tensors. eauto.
  - unfold needs_allocation. rewrite reset_allocs. destruct (allocation_type _); [|done|done].
    cbn [alloc_size reset]. apply Z.ltb_lt. done.
Qed.

(** The part of [ExecuteAllocations] after the temporaries. *)
Definition execute (fresh pfresh : Z * list Z) : res unit t :=
  (let! (q, l) := CalculateAllocations iter s 0 last in
   let! (c, r) := Planner.Commit q fresh pfresh in
   if (r : bool) then each ResolveTensorAllocation (seqZ 0 (Z.of_nat (length (tensors c)))) c
   else each ResolveTensorAllocation l c)%res.

Lemma execute_ok (fresh pfresh : Z * list Z) :
  fresh_blocks fresh pfresh ->
  exists q, execute fresh pfresh = Ok q /\ memory_ok q /\ alloc_node q = alloc_node s /\ dealloc_node q = dealloc_node s.
Proof.
  intros Hf. destruct Calculate_ok as (q & l & Hc & Hi & Hl & Hel & Hsz). unfold execute. rewrite Hc. cbn [res_bind].
  destruct (Hf q l Hc) as [F1 F2]. destruct (Calculate_align q l Hc) as [L1 L2].
  destruct (commit_ok q fresh pfresh Hi F1 F2 L1 L2) as (c & r & -> & Hal & Hall & Hback). cbn [res_bind].
  set (k := if r then seqZ 0 (Z.of_nat (length (tensors c))) else l).
  assert ((if r then each ResolveTensorAllocation (seqZ 0 (Z.of_nat (length (tensors c)))) c
           else each ResolveTensorAllocation l c) = each ResolveTensorAllocation k c) as -> by (unfold k; by destruct r).
  assert (length (tensors c) = n) as Hn by (pose proof (a_same s c Hal) as (-> & _); done).
  assert (Forall (index n) k) as Hk.
  { unfold k. destruct r; [|done]. apply list.Forall_forall. intros x Hx%elem_of_seqZ. unfold index. lia. }
  destruct (resolve_all s c k Hal (proj1 (Hback kTfLiteArenaRw)) (proj1 (Hback kTfLiteArenaRwPersistent)) Hk)
    as (q' & Hq & Hr & Hres).
  exists q'. split; [done|]. assert (finished c q') as Hfin.
  { split; try done.
    - intros ty. destruct (Hback ty) as ((B1 & _) & B2 & B3). done.
    - intros x Hx. pose proof (needs_used x Hx) as Hneed. apply Hel in Hneed. rewrite Hall. split.
      + apply Hsz; [done|apply Hx].
      + apply Hres. unfold k. destruct r; [|done]. apply elem_of_seqZ. destruct Hx as [Hx _]. unfold index in Hx.
        rewrite Hn. unfold n. lia. }
  split; [by apply (finished_memory c)|]. destruct (finished_fields c q' Hfin) as (_ & E1 & E2 & _). done.
Qed.
End Run.

(** ** Temporaries *)

(** The state between [PlanAllocations] and [CalculateAllocations]. *)
Definition last_node_of (g : GraphInfo) : Z := Z.of_nat (Nat.max (length (nodes g)) 1) - 1.
Definition prepare (g : GraphInfo) (s : t) : t :=
  add_temporaries (node_range g 0 (last_node_of g)) (resize_all s).

(** The sets of the nodes cover every tensor that has a node. *)
Record covered (m : nat) (s : t) : Prop := {
  c_alloc : length (alloc_node s) = length (tensors s);
  c_dealloc : length (dealloc_node s) = length (tensors s);
  c_sets : length (nodes_to_tensors s) = m;
  c_range : forall i x, x ∈ nth i (nodes_to_tensors s) [] -> index (length (tensors s)) x;
  c_member : forall x, index (length (tensors s)) x -> at_ x (alloc_node s) <> kNodeNotAssigned ->
    0 <= at_ x (alloc_node s) < Z.of_nat m /\ x ∈ nth (Z.to_nat (at_ x (alloc_node s))) (nodes_to_tensors s) []
}.

(** Everything but the nodes of the tensors is the same. *)
Definition same_rest (s q : t) : Prop :=
  tensors q = tensors s /\ allocs q = allocs s /\ arena q = arena s /\ persistent_arena q = persistent_arena s /\
  preserve_all_tensors q = preserve_all_tensors s /\ tensor_alignment q = tensor_alignment s /\
  last_active_node q = last_active_node s.

Lemma add_temporary_ok (m : nat) (s : t) (i x : Z) :
  covered m s -> 0 <= i < Z.of_nat m -> index (length (tensors s)) x ->
  covered m (add_temporary i x s) /\ same_rest s (add_temporary i x s) /\
  forall y, 0 <= y -> y <> x -> at_ y (alloc_node (add_temporary i x s)) = at_ y (alloc_node s) /\
                  at_ y (dealloc_node (add_temporary i x s)) = at_ y (dealloc_node s).
Proof.
  intros [C1 C2 C3 C4 C5] Hi Hx.
  assert (forall k y, y ∈ nth k (nodes_to_tensors (add_temporary i x s)) [] <->
    (Z.of_nat k = i /\ y = x) \/ y ∈ nth k (nodes_to_tensors s) []) as Hsets.
  { intros k y. exact (insert_tensor_elem i y k x (mkPlan [] [] (nodes_to_tensors s) []) ltac:(cbn; lia)). }
  assert (forall y, 0 <= y -> at_ y (alloc_node (add_temporary i x s)) = if x =? y then i else at_ y (alloc_node s)) as Hal.
  { intros y Hy. apply at_set; [done|by rewrite C1]. }
  split; [|split; [done|]].
  - split; cbn [add_temporary with_nodes alloc_node dealloc_node nodes_to_tensors tensors].
    + unfold set_at. by rewrite length_insert.
    + destruct (preserve_all_tensors s); [done|]. unfold set_at. by rewrite length_insert.
    + unfold set_at. by rewrite length_insert.
    + intros k y Hy. apply Hsets in Hy as [[_ ->]|Hy]; [done|by eapply C4].
    + intros y Hy Hne. pose proof (proj1 Hy). change (set_at x i (alloc_node s)) with (alloc_node (add_temporary i x s)) in *.
      rewrite Hal in * by done. destruct (Z.eqb_spec x y) as [->|].
      * split; [lia|]. apply Hsets. left. split; [lia|done].
      * destruct (C5 y Hy Hne) as [R1 R2]. split; [done|]. apply Hsets. by right.
  - intros y Hy Hne. rewrite Hal by done. rewrite (proj2 (Z.eqb_neq x y)) by done. split; [done|].
    cbn [add_temporary with_nodes dealloc_node]. destruct (preserve_all_tensors s); [done|].
    rewrite at_set by (done || by rewrite C2). by rewrite (proj2 (Z.eqb_neq x y)) by done.
Qed.

(** A tensor that is no temporary of the nodes. *)
Definition no_temporary (l : list TfLiteNode) (x : Z) : Prop := Forall (fun nd => x ∉ n_temporaries nd) l.

Lemma add_temporaries_ok (m : nat) (l : list (Z * TfLiteNode)) (s : t) :
  covered m s -> Forall (fun e => 0 <= e.1 < Z.of_nat m /\ Forall (index (length (tensors s))) (n_temporaries e.2)) l ->
  covered m (add_temporaries l s) /\ same_rest s (add_temporaries l s) /\
  forall y, 0 <= y -> Forall (fun e => y ∉ n_temporaries e.2) l ->
    at_ y (alloc_node (add_temporaries l s)) = at_ y (alloc_node s) /\
    at_ y (dealloc_node (add_temporaries l s)) = at_ y (dealloc_node s).
Proof.
  unfold add_temporaries. revert s. induction l as [|[i nd] l IH]; intros s Hc Hl; [done|].
  apply list.Forall_cons in Hl as [[Hi Ht] Hl]. cbn [fst snd fold_left] in *.
  assert (covered m (fold_left (fun s ten => add_temporary i ten s) (n_temporaries nd) s) /\
    same_rest s (fold_left (fun s ten => add_temporary i ten s) (n_temporaries nd) s) /\
    forall y, 0 <= y -> y ∉ n_temporaries nd ->
      at_ y (alloc_node (fold_left (fun s ten => add_temporary i ten s) (n_temporaries nd) s)) = at_ y (alloc_node s) /\
      at_ y (dealloc_node (fold_left (fun s ten => add_temporary i ten s) (n_temporaries nd) s)) = at_ y (dealloc_node s)) as (H1 & H2 & H3).
  { clear IH Hl. revert s Hc Ht. induction (n_temporaries nd) as [|x k IH]; intros s Hc Ht; [done|].
    apply list.Forall_cons in Ht as [Hx Ht]. cbn [fold_left].
    destruct (add_temporary_ok m s i x Hc Hi Hx) as (A1 & A2 & A3).
    destruct (IH (add_temporary i x s) A1) as (B1 & B2 & B3); [done|].
    split; [done|]. split; [by unfold same_rest in *; destruct_and!; repeat split; congruence|].
    intros y Hy Hn. destruct (B3 y Hy) as [-> ->]; [set_solver|]. apply A3; [done|set_solver]. }
  destruct (IH _ H1) as (I1 & I2 & I3); [by rewrite (proj1 H2)|].
  split; [done|]. split; [by unfold same_rest in *; destruct_and!; repeat split; congruence|].
  intros y Hy Hn. apply list.Forall_cons in Hn as [Hn1 Hn]. destruct (I3 y Hy Hn) as [-> ->]. by apply H3.
Qed.

(** ** Lifetimes *)

Lemma first_write_range (x : Z) (l : list TfLiteNode) (i acc : Z) :
  first_write x i l acc = acc \/ i <= first_write x i l acc < i + Z.of_nat (length l).
Proof.
  revert i acc. induction l as [|nd l IH]; intros i acc; cbn [first_write length]; [by left|].
  destruct (IH (i + 1) (if (acc =? kNodeNotAssigned) && (0 <? cnt x (n_outputs nd)) then i else acc)) as [E|E]; [|right; lia].
  rewrite E. destruct (_ && _); [right; lia|by left].
Qed.

Lemma spec_alloc_range (g : GraphInfo) (x : Z) :
  spec_alloc g x <> kNodeNotAssigned -> 0 <= spec_alloc g x <= last_node_of g.
Proof.
  unfold spec_alloc, last_node_of. intros H. destruct (first_write_range x (nodes g) 0
    (if 0 <? cnt x (variables g) + cnt x (inputs g) then 0 else kNodeNotAssigned)) as [E|E]; [|lia].
  rewrite E in *. case_if; [lia|done].
Qed.

(** A node writes only tensors that are allocated by then. *)
Lemma first_write_le (x : Z) (l : list TfLiteNode) (i acc : Z) (k : nat) (nd : TfLiteNode) :
  l !! k = Some nd -> 0 < cnt x (n_outputs nd) -> acc = kNodeNotAssigned \/ acc <= i ->
  i + Z.of_nat (length l) < kNodeNotAssigned ->
  first_write x i l acc <= i + Z.of_nat k.
Proof.
  revert i acc k. induction l as [|n l IH]; intros i acc k Hk Hc Ha Hb; [done|]. cbn [first_write length] in *.
  destruct k as [|k].
  - cbn in Hk. injection Hk as ->. rewrite (proj2 (Z.ltb_lt _ _) Hc), andb_true_r.
    assert (forall b j, j <= i -> first_write x (i + 1) b j = j) as Hfix.
    { clear -Hb. intros b. revert i Hb. generalize (length l). intros len.
      assert (forall b i' j, j <> kNodeNotAssigned -> first_write x i' b j = j) as H.
      { clear. induction b as [|n b IHb]; intros i' j Hj; cbn [first_write]; [done|].
        rewrite (proj2 (Z.eqb_neq j _)) by done. cbn [andb]. by apply IHb. }
      intros i Hb j Hj. apply H. lia. }
    destruct (Z.eqb_spec acc kNodeNotAssigned); rewrite Hfix by lia; lia.
  - cbn in Hk. specialize (IH (i + 1) (if (acc =? kNodeNotAssigned) && (0 <? cnt x (n_outputs n)) then i else acc) k Hk Hc).
    etransitivity; [apply IH; [|lia]|lia]. case_if; [right; lia|]. destruct Ha; [by left|right; lia].
Qed.

(** A tensor is not freed before a node that reads it. *)
Lemma last_read_ge (x : Z) (l : list TfLiteNode) (i : Z) (acc : option Z) :
  (forall (k : nat) nd, l !! k = Some nd -> 0 < cnt x (n_inputs nd) ->
     exists d, last_read x i l acc = Some d /\ i + Z.of_nat k <= d) /\
  (forall a, acc = Some a -> a <= i -> exists d, last_read x i l acc = Some d /\ a <= d).
Proof.
  revert i acc. induction l as [|n l IH]; intros i acc; [split; [done|]; intros a -> _; cbn; eauto with lia|].
  cbn [last_read]. destruct (IH (i + 1) (if 0 <? cnt x (n_inputs n) then Some i else acc)) as [IH1 IH2]. split.
  - intros [|k] nd Hk Hc.
    + cbn in Hk. injection Hk as ->. rewrite (proj2 (Z.ltb_lt _ _) Hc) in *.
      destruct (IH2 i eq_refl ltac:(lia)) as (d & -> & Hd). exists d. split; [done|lia].
    + cbn in Hk. destruct (IH1 k nd Hk Hc) as (d & -> & Hd). exists d. split; [done|lia].
  - intros a -> Ha. destruct (0 <? _).
    + destruct (IH2 i eq_refl ltac:(lia)) as (d & -> & Hd). exists d. split; [done|lia].
    + destruct (IH2 a eq_refl ltac:(lia)) as (d & -> & Hd). by exists d.
Qed.

Lemma Plan_covered (g : GraphInfo) (s : t) :
  graph_ok g (length (tensors s)) ->
  exists q, PlanAllocations g s = Ok q /\ covered (Nat.max (length (nodes g)) 1) q /\
    same_rest (ResetAllocations s) q /\
    forall x, index (length (tensors s)) x ->
      at_ x (alloc_node q) = spec_alloc g x /\ at_ x (dealloc_node q) = spec_dealloc (preserve_all_tensors s) g x.
Proof.
  intros Hg. destruct (PlannerPlan.plan_ok g (length (tensors s)) (preserve_all_tensors s) Hg) as (p & Hp & [S1 S2 S3 S4] & [V1 V2 V3 V4 V5 V6]).
  unfold PlanAllocations. cbn [ResetAllocations with_last with_allocs with_arenas preserve_all_tensors tensors].
  rewrite Hp. cbn [res_bind]. eexists. split; [done|]. split; [|split; [done|]].
  - split; cbn [with_nodes alloc_node dealloc_node nodes_to_tensors tensors]; try done.
    intros x Hx Hne. split; [|by apply S3]. rewrite V4 in * by done.
    pose proof (spec_alloc_range g x Hne). unfold last_node_of in *. lia.
  - intros x Hx. split; [by apply V4|by apply V5].
Qed.

(** The lifetime of a planned tensor covers the nodes that write and read it. *)
Lemma spec_covers (g : GraphInfo) (n : nat) (preserve : bool) (x : Z) (k : nat) (nd : TfLiteNode) :
  graph_ok g n -> nodes g !! k = Some nd ->
  (0 < cnt x (n_outputs nd) -> spec_alloc g x <= Z.of_nat k) /\
  (0 < cnt x (n_inputs nd) -> Z.of_nat k <= spec_dealloc preserve g x).
Proof.
  intros Hg Hk. pose proof (g_nodes g n Hg) as Hlen. pose proof (lookup_lt_Some _ _ _ Hk) as Hlt. split; intros Hc.
  - apply (first_write_le x (nodes g) 0 _ k nd Hk Hc); [case_if; [right; lia|by left]|]. unfold kNodeNotAssigned. lia.
  - destruct (last_read_ge x (nodes g) 0 None) as [H _]. destruct (H k nd Hk Hc) as (d & E & Hd).
    unfold spec_dealloc, free_at, kNodeNotAssigned. rewrite E. repeat case_if; lia.
Qed.

(** On a graph whose tensor indices are valid, [PlanAllocations] always
    succeeds and gives every tensor its exact lifetime: it is allocated at the
    first node that writes it (at the start if it is an input or a variable)
    and freed at the last node that reads it, or never if it is a graph
    input, output or variable, if all tensors are preserved, or if no node
    reads it after it is written.  In particular no node
    writes a tensor before it is allocated or reads one after it is freed. *)
Theorem plan_lifetimes (g : GraphInfo) (s : t) :
  graph_ok g (length (tensors s)) ->
  exists q, PlanAllocations g s = Ok q /\
    forall x, index (length (tensors s)) x ->
      at_ x (alloc_node q) = spec_alloc g x /\
      at_ x (dealloc_node q) = spec_dealloc (preserve_all_tensors s) g x /\
      (0 < extra g x -> at_ x (dealloc_node q) = kNodeNotAssigned) /\
      forall k nd, nodes g !! k = Some nd ->
        (0 < cnt x (n_outputs nd) -> at_ x (alloc_node q) <= Z.of_nat k) /\
        (0 < cnt x (n_inputs nd) -> Z.of_nat k <= at_ x (dealloc_node q)).
Proof.
  intros Hg. destruct (Plan_covered g s Hg) as (q & Hq & _ & _ & H). exists q. split; [done|].
  intros x Hx. destruct (H x Hx) as [-> ->]. split; [done|]. split; [done|]. split.
  - intros He. unfold spec_dealloc, free_at. by rewrite (proj2 (Z.eqb_neq _ _)), orb_true_r by lia.
  - intros k nd Hk. by apply (spec_covers g _ _ x k nd Hg).
Qed.

(** ** A whole run *)

Lemma resize_id {A} (n : nat) (x : A) (l : list A) : length l = n -> resize n x l = l.
Proof. intros <-. unfold resize. by rewrite Nat.sub_diag, take_ge, app_nil_r by lia. Qed.

Lemma resize_all_id (m : nat) (s : t) :
  covered m s -> length (allocs s) = length (tensors s) -> resize_all s = s.
Proof. intros [H1 H2 _ _ _] H3. unfold resize_all. rewrite !resize_id by done. by destruct s. Qed.

Lemma ClearPlan_sound (ar : Arena.t) :
  0 < arena_alignment ar -> buffer_ok ar -> sound (ClearPlan ar) /\ high_water_mark (ClearPlan ar) = 0.
Proof.
  intros Ha Hb. split; [|done]. split; [|done]. split; cbn; try done; by constructor.
Qed.

Lemma node_range_all (g : GraphInfo) :
  Forall (fun e => 0 <= e.1 < Z.of_nat (Nat.max (length (nodes g)) 1) /\ e.2 ∈ nodes g)
    (node_range g 0 (last_node_of g)).
Proof.
  apply list.Forall_forall. intros [i nd] He. unfold node_range in He. apply list_elem_of_In, filter_In in He as [He _].
  apply in_combine_l in He as Hi. apply in_combine_r in He. apply list_elem_of_In in He, Hi.
  apply elem_of_seqZ in Hi. cbn. split; [lia|done].
Qed.

(** What a run of the planner over the whole graph needs: valid indices, an
    alignment that the arenas have, room for all tensors, the blocks that
    [new char[]] returns, and some order of iteration. *)
Record run_ok (iter : list Z -> list Z) (g : GraphInfo) (s : t) (fresh pfresh : Z * list Z) (B : Z) : Prop := {
  r_iter : forall l, iter l ≡ₚ l;
  r_graph : graph_ok g (length (tensors s));
  r_temps : Forall (fun nd => Forall (index (length (tensors s))) (n_temporaries nd)) (nodes g);
  r_align : 0 < tensor_alignment s <= arena_alignment (arena s) /\
            tensor_alignment s <= arena_alignment (persistent_arena s);
  r_blocks : buffer_ok (arena s) /\ buffer_ok (persistent_arena s);
  r_bytes : forall x, 0 <= bytes (tensor_at x (tensors s));
  r_cost : forall q, PlanAllocations g s = Ok q ->
    cost (prepare g q) (GetTensorsToAllocate iter (prepare g q) 0 (last_node_of g)) <= B;
  r_room : B + 2 * arena_alignment (arena s) < 2 ^ 63 /\ B + 2 * arena_alignment (persistent_arena s) < 2 ^ 63;
  r_fresh : forall q, PlanAllocations g s = Ok q ->
    fresh_blocks iter (prepare g q) (last_node_of g) fresh pfresh
}.

Lemma prepare_ok (g : GraphInfo) (s q : t) :
  graph_ok g (length (tensors s)) ->
  Forall (fun nd => Forall (index (length (tensors s))) (n_temporaries nd)) (nodes g) ->
  PlanAllocations g s = Ok q ->
  covered (Nat.max (length (nodes g)) 1) (prepare g q) /\ same_rest (ResetAllocations s) (prepare g q) /\
  length (allocs q) = length (tensors q) /\
  forall y, index (length (tensors s)) y -> no_temporary (nodes g) y ->
    at_ y (alloc_node (prepare g q)) = spec_alloc g y /\
    at_ y (dealloc_node (prepare g q)) = spec_dealloc (preserve_all_tensors s) g y.
Proof.
  intros Hg Ht Hq. destruct (Plan_covered g s Hg) as (q' & Hq' & Hc & Hr & Hs). rewrite Hq in Hq'. injection Hq' as <-.
  pose proof Hr as (R1 & R2 & _). assert (tensors q = tensors s) as R1' by done.
  assert (length (allocs q) = length (tensors q)) as Hlen by (rewrite R1', R2; apply length_replicate).
  unfold prepare. rewrite (resize_all_id _ q Hc Hlen).
  destruct (add_temporaries_ok _ (node_range g 0 (last_node_of g)) q Hc) as (A1 & A2 & A3).
  { eapply list.Forall_impl; [apply node_range_all|]. intros [i nd] [He1 He2]. split; [done|]. rewrite R1'.
    rewrite list.Forall_forall in Ht. by apply Ht. }
  split; [done|]. split; [by unfold same_rest in *; destruct_and!; repeat split; congruence|]. split; [done|].
  intros y Hy Hn. destruct (A3 y) as [-> ->]; [apply Hy| |by apply Hs].
  eapply list.Forall_impl; [apply node_range_all|]. intros [i nd] [_ He]. unfold no_temporary in Hn.
  rewrite list.Forall_forall in Hn. by apply Hn.
Qed.

Lemma run_prepared (iter : list Z -> list Z) (g : GraphInfo) (s q : t) (fresh pfresh : Z * list Z) (B : Z) :
  run_ok iter g s fresh pfresh B -> PlanAllocations g s = Ok q -> prepared iter (prepare g q) (last_node_of g) B.
Proof.
  intros [H1 H2 H3 [H4 H5] [H6 H7] H8 H9 [H10 H11] _] Hq.
  destruct (prepare_ok g s q H2 H3 Hq) as ([C1 C2 C3 C4 C5] & (E1 & E2 & E3 & E4 & E5 & E6 & E7) & _ & _).
  pose proof (g_nodes g _ H2).
  split; rewrite ?E1, ?E3, ?E4, ?E6, ?E7; try done; try (cbn; lia).
  - by apply ClearPlan_sound; [lia|].
  - by apply ClearPlan_sound; [lia|].
  - by apply H9.
  - intros i x Hx. specialize (C4 i x Hx). by rewrite E1 in C4.
  - intros x Hx Hne. destruct (C5 x) as [R1 R2]; [by rewrite E1|done|]. unfold last_node_of. split; [lia|done].
  - unfold last_node_of. lia.
Qed.

(** C12: a run of the planner over the whole graph never fails, and after it
    every tensor that some node uses has a data pointer to its bytes inside
    the block of its arena; two tensors whose lifetimes meet never share a
    byte, and neither do two persistent tensors.  Tensors that are not
    temporaries keep the lifetimes of the plan. *)
Theorem planned_memory (iter : list Z -> list Z) (g : GraphInfo) (s : t) (fresh pfresh : Z * list Z) (B : Z) :
  run_ok iter g s fresh pfresh B ->
  exists s1 s2, PlanAllocations g s = Ok s1 /\
    ExecuteAllocations iter g s1 0 (last_node_of g) fresh pfresh = Ok s2 /\ memory_ok s2 /\
    forall x, index (length (tensors s)) x -> no_temporary (nodes g) x ->
      at_ x (alloc_node s2) = spec_alloc g x /\
      at_ x (dealloc_node s2) = spec_dealloc (preserve_all_tensors s) g x.
Proof.
  intros H. destruct (Plan_covered g s (r_graph _ _ _ _ _ _ H)) as (q & Hq & _).
  destruct (prepare_ok g s q (r_graph _ _ _ _ _ _ H) (r_temps _ _ _ _ _ _ H) Hq) as (_ & _ & Hlen & Hspec).
  destruct (execute_ok iter (r_iter _ _ _ _ _ _ H) (prepare g q) (last_node_of g) B (run_prepared _ _ _ _ _ _ _ H Hq)
              fresh pfresh (r_fresh _ _ _ _ _ _ H q Hq)) as (s2 & Hs2 & Hmem & Ha & Hd).
  exists q, s2. split; [done|]. split; [|split; [done|by rewrite Ha, Hd]].
  unfold ExecuteAllocations. by rewrite (proj2 (Nat.leb_le _ _)) by lia.
Qed.

(** ** An example *)

(** Two nodes in a row, with a persistent variable, a temporary and a missing input. *)
Definition example_graph : GraphInfo :=
  mkGraph [mkNode [0; 1] [2] [4]; mkNode [2; -1] [3] []] [0] [3] [1].
Definition example_planner : t :=
  ArenaPlanner
    [mkTensor kTfLiteArenaRw 64 None; mkTensor kTfLiteArenaRwPersistent 32 None;
     mkTensor kTfLiteArenaRw 100 None; mkTensor kTfLiteArenaRw 64 None; mkTensor kTfLiteArenaRw 10 None]
    false 64 0 0.

Lemma example_graph_ok : graph_ok example_graph (length (tensors example_planner)).
Proof.
  split; cbn -[Z.pow cnt reads]; [..|done|];
    repeat (apply List.Forall_cons || apply List.Forall_nil); unfold optional, index, kTfLiteOptionalTensor; try lia.
  intros x. unfold extra. cbn [cnt reads example_graph nodes inputs outputs variables n_inputs].
  repeat destruct (_ =? x); lia.
Qed.

Lemma example_fresh (q : t) :
  PlanAllocations example_graph example_planner = Ok q ->
  fresh_blocks (fun l => l) (prepare example_graph q) (last_node_of example_graph)
    (1000, replicate 384 0) (5000, replicate 160 0).
Proof.
  intros Hq. vm_compute in Hq. injection Hq as <-. intros r l Hr. vm_compute in Hr. injection Hr as <- <-.
  split; (split; [cbn; lia|]; split; [vm_compute; reflexivity|]; vm_compute; reflexivity).
Qed.

Lemma example_run : run_ok (fun l => l) example_graph example_planner (1000, replicate 384 0) (5000, replicate 160 0) 1000.
Proof.
  split; try done.
  - apply example_graph_ok.
  - by repeat constructor.
  - intros x. unfold tensor_at. cbn [example_planner ArenaPlanner tensors].
    generalize (Z.to_nat x). intros k. do 6 (destruct k as [|k]; [cbn; lia|]). cbn; lia.
  - intros q Hq. vm_compute in Hq. by injection Hq as <-.
  - apply example_fresh.
Qed.

(** What the run makes of the example: the temporary 4 reuses the place of
    the output 3, which is written later. *)
Example example_result :
  (let! q := PlanAllocations example_graph example_planner in
   let! r := ExecuteAllocations (fun l => l) example_graph q 0 1 (1000, replicate 384 0) (5000, replicate 160 0) in
   Ok (map data (tensors r)))%res =
  Ok [Some 1024; Some 5056; Some 1088; Some 1216; Some 1216].
Proof. vm_compute. reflexivity. Qed.

Lemma plan_lifetimes_witness :
  exists q, PlanAllocations example_graph example_planner = Ok q /\
    at_ 2 (alloc_node q) <= 0 /\ 1 <= at_ 2 (dealloc_node q) /\ at_ 3 (dealloc_node q) = kNodeNotAssigned.
Proof.
  destruct (plan_lifetimes example_graph example_planner example_graph_ok) as (q & Hq & H). exists q. split; [done|].
  destruct (H 2) as (_ & _ & _ & H2); [unfold index; cbn; lia|]. split; [by apply (H2 0%nat _ eq_refl)|].
  split; [by apply (H2 1%nat _ eq_refl)|]. apply (H 3); [unfold index; cbn; lia|]. by vm_compute.
Defined.

Lemma planned_memory_witness :
  exists s1 s2, PlanAllocations example_graph example_planner = Ok s1 /\
    ExecuteAllocations (fun l => l) example_graph s1 0 1 (1000, replicate 384 0) (5000, replicate 160 0) = Ok s2 /\
    memory_ok s2.
Proof.
  destruct (planned_memory (fun l => l) example_graph example_planner (1000, replicate 384 0) (5000, replicate 160 0) 1000
              example_run) as (s1 & s2 & H1 & H2 & H3 & _).
  by exists s1, s2.
Defined.
