(* ===== verification/GraphPartition.v ===== *)
(** * Partitioning a TFLite graph ([lite/graph_info.{h,cc}])

    [PartitionGraphIntoIndependentNodeSubsets] splits the nodes of a graph
    into subsets of one type each (to be given to a delegate or not), in an
    order in which they can be executed, and finds the tensors that cross
    the borders of the subsets.

    The interface [GraphInfo] is a record of what the code asks it.  The two
    [while (true)] loops have fuel; an access to [node_subsets_] out of range
    is an error. *)

From S2P Require Import Prelude.

Module Partition.

Open Scope res_scope.

(** [std::sort] and [std::unique], and [Uniquefy] made of them. *)
Section Uniquefy.
Context {A : Type} `{EqDecision A} (lt : A -> A -> bool).

Fixpoint sort_insert (x : A) (l : list A) : list A :=
  match l with
  | [] => [x]
  | y :: l' => if lt y x then y :: sort_insert x l' else x :: l
  end.

Definition sort (l : list A) : list A := fold_right sort_insert [] l.

Fixpoint unique (l : list A) : list A :=
  match l with
  | x :: (y :: _) as l' => if decide (x = y) then unique l' else x :: unique l'
  | _ => l
  end.

Definition Uniquefy (items : list A) : list A := unique (sort items).
End Uniquefy.

(** [NodeSubset::Type] *)
Inductive Type_ := kTfUnexplored | kTfPartition | kTfNonPartition.

#[global] Instance Type_eq_dec : EqDecision Type_.
Proof. solve_decision. Defined.

(** [struct NodeSubset] *)
Record NodeSubset := mkSubset {
  type : Type_;
  nodes : list Z;
  input_tensors : list Z;
  output_tensors : list Z
}.

(** [node(i)] and [node_index(i)] for a node of the execution plan *)
Record Node := mkNode { n_inputs : list Z; n_outputs : list Z; might_have_side_effect : bool; node_index : Z }.

(** [class GraphInfo] *)
Record GraphInfo := mkInfo { exec : list Node; num_tensors : nat; num_total_nodes : nat; outputs : list Z }.

(** [ControlEdge]: the second node depends on the first. *)
Definition ControlEdge : Type := Z * Z.
Definition edge_lt (a b : ControlEdge) : bool := (a.1 <? b.1) || ((a.1 =? b.1) && (a.2 <? b.2)).

Definition kTfLiteOptionalTensor : Z := -1.
Definition kEpochNotReady : Z := -1.
Definition kEpochAlwaysReady : Z := -2.

(** The members of the class that change. *)
Record t := mkState {
  node_subsets : list NodeSubset;
  tensor_epochs : list Z;
  node_epochs : list Z;
  num_incoming_control_edges : list Z
}.

Definition at_ (i : Z) (l : list Z) : Z := nth (Z.to_nat i) l kEpochNotReady.
Definition set_at {A} (i : Z) (v : A) (l : list A) : list A := <[Z.to_nat i := v]> l.
Definition count_at (i : Z) (l : list Z) : Z := nth (Z.to_nat i) l 0.

Definition add_input (x : Z) (s : NodeSubset) : NodeSubset :=
  mkSubset (type s) (nodes s) (input_tensors s ++ [x]) (output_tensors s).
Definition add_output (x : Z) (s : NodeSubset) : NodeSubset :=
  mkSubset (type s) (nodes s) (input_tensors s) (output_tensors s ++ [x]).
Definition add_node (ty : Type_) (i : Z) (s : NodeSubset) : NodeSubset :=
  mkSubset ty (nodes s ++ [i]) (input_tensors s) (output_tensors s).

(** [node_type_] as the constructor fills it *)
Definition node_type (info : GraphInfo) (nodes_to_partition : list Z) : list Type_ :=
  fold_left (fun l i => set_at i kTfPartition l) nodes_to_partition
    (replicate (num_total_nodes info) kTfNonPartition).

(** [std::lower_bound], and the edges from there on that leave the node *)
Fixpoint lower_bound (e : ControlEdge) (l : list ControlEdge) : list ControlEdge :=
  match l with
  | [] => []
  | x :: l' => if edge_lt x e then lower_bound e l' else l
  end.

Fixpoint edges_from (i : Z) (l : list ControlEdge) : list ControlEdge :=
  match l with
  | [] => []
  | x :: l' => if x.1 =? i then x :: edges_from i l' else []
  end.

Section Partition.
Context (info : GraphInfo) (types : list Type_) (greedily : bool) (control_edges : list ControlEdge).

Definition no_node : Node := mkNode [] [] false 0.
Definition node (i : nat) : Node := nth i (exec info) no_node.
Definition num_execution_nodes : nat := length (exec info).
Definition type_of (i : nat) : Type_ := nth (Z.to_nat (node_index (node i))) types kTfNonPartition.

(** [node_subsets_->back()] *)
Definition back (s : t) : NodeSubset := List.last (node_subsets s) (mkSubset kTfUnexplored [] [] []).

(** The loop over the inputs of a node that joins epoch [e]. *)
Definition note_input (e : nat) (epochs : list Z) (ss : list NodeSubset) (x : Z) : list NodeSubset :=
  if x =? kTfLiteOptionalTensor then ss
  else
    let input_epoch := at_ x epochs in
    if negb (input_epoch =? Z.of_nat e) then
      let ss := alter (add_input x) e ss in
      if 0 <=? input_epoch then alter (add_output x) (Z.to_nat input_epoch) ss else ss
    else ss.

Definition release_edge (l : list Z) (e : ControlEdge) : list Z :=
  set_at e.2 (wrap_i32 (count_at e.2 l - 1)) l.

(** The test that a node may be scheduled. *)
Definition schedulable (i : nat) (s : t) : bool :=
  (at_ (Z.of_nat i) (node_epochs s) =? kEpochNotReady) &&
  forallb (fun x => (x =? kTfLiteOptionalTensor) || negb (at_ x (tensor_epochs s) =? kEpochNotReady)) (n_inputs (node i)) &&
  (count_at (Z.of_nat i) (num_incoming_control_edges s) =? 0).

(** [UpdateNode] *)
Definition UpdateNode (i : nat) (s : t) : t * bool :=
  if negb (schedulable i s) then (s, false)
  else
    let ty := if decide (type (back s) = kTfUnexplored) then type_of i else type (back s) in
    if decide (ty = type_of i) then
      let e := (length (node_subsets s) - 1)%nat in
      let epochs := fold_left (fun l x => set_at x (Z.of_nat e) l) (n_outputs (node i)) (tensor_epochs s) in
      (mkState
         (fold_left (note_input e epochs) (n_inputs (node i))
            (alter (add_node ty (node_index (node i))) e (node_subsets s)))
         epochs
         (set_at (Z.of_nat i) (Z.of_nat e) (node_epochs s))
         (fold_left release_edge (edges_from (Z.of_nat i) (lower_bound (Z.of_nat i, 0) control_edges))
            (num_incoming_control_edges s)),
       true)
    else (s, false).

(** The [for] loop of [BuildNodeSubset]: [did_something], and whether it returns. *)
Fixpoint scan (l : list nat) (did_something : bool) (s : t) : t * bool * bool :=
  match l with
  | [] => (s, did_something, false)
  | i :: l' =>
      let '(s', updated) := UpdateNode i s in
      if updated then scan l' true s'
      else if did_something && negb greedily then (s', did_something, true)
      else scan l' did_something s'
  end.

(** The [while] loop of [BuildNodeSubset] *)
Fixpoint rounds (fuel : nat) (s : t) : option t :=
  match fuel with
  | O => None
  | S f =>
      let '(s', did_something, returned) := scan (seq 0 num_execution_nodes) false s in
      if returned then Some s' else if (did_something : bool) then rounds f s' else Some s'
  end.

Definition with_subsets (s : t) (ss : list NodeSubset) : t :=
  mkState ss (tensor_epochs s) (node_epochs s) (num_incoming_control_edges s).

(** [BuildNodeSubset] *)
Definition BuildNodeSubset (s : t) : option t :=
  rounds (S num_execution_nodes) (with_subsets s (node_subsets s ++ [mkSubset kTfUnexplored [] [] []])).

(** The [while] loop of [Partition] *)
Fixpoint epochs (fuel : nat) (s : t) : option t :=
  match fuel with
  | O => None
  | S f =>
      match BuildNodeSubset s with
      | None => None
      | Some s' =>
          match nodes (back s') with
          | [] => Some (with_subsets s' (removelast (node_subsets s')))
          | _ => epochs f s'
          end
      end
  end.

(** The state at the start of the first epoch *)
Definition start : t :=
  mkState []
    (fold_left (fun l n => fold_left (fun l x => set_at x kEpochNotReady l) (n_outputs n) l) (exec info)
       (replicate (num_tensors info) kEpochAlwaysReady))
    (replicate num_execution_nodes kEpochNotReady)
    (fold_left (fun l (e : ControlEdge) => set_at e.2 (wrap_i32 (count_at e.2 l + 1)) l) control_edges
       (replicate num_execution_nodes 0)).

Inductive fault := OutOfFuel | OutOfRange.

(** The loop over the outputs of the model *)
Fixpoint mark_outputs (l : list Z) (epochs : list Z) (ss : list NodeSubset) : res fault (list NodeSubset) :=
  match l with
  | [] => Ok ss
  | x :: l' =>
      let output_epoch := at_ x epochs in
      if output_epoch =? kEpochAlwaysReady then mark_outputs l' epochs ss
      else
        check! (0 <=? output_epoch) && (output_epoch <? Z.of_nat (length ss)) else OutOfRange in
        mark_outputs l' epochs (alter (add_output x) (Z.to_nat output_epoch) ss)
  end.

Definition uniquefy_subset (s : NodeSubset) : NodeSubset :=
  mkSubset (type s) (nodes s) (Uniquefy Z.ltb (input_tensors s)) (Uniquefy Z.ltb (output_tensors s)).

(** [Partition] *)
Definition Partition_ : res fault (list NodeSubset) :=
  match epochs (S num_execution_nodes) start with
  | None => Err OutOfFuel
  | Some s =>
      let! ss := mark_outputs (outputs info) (tensor_epochs s) (node_subsets s) in
      Ok (map uniquefy_subset ss)
  end.
End Partition.

(** The chain of control edges between the nodes with side effects *)
Fixpoint side_effect_chain (last : Z) (i : Z) (l : list Node) : list ControlEdge :=
  match l with
  | [] => []
  | n :: l' =>
      if might_have_side_effect n then
        (if negb (last =? -1) then [(last, i)] else []) ++ side_effect_chain i (i + 1) l'
      else side_effect_chain last (i + 1) l'
  end.

(** The control edges the partitioner works with: those of the caller, or the chain. *)
Definition edges_of (info : GraphInfo) (greedily : bool) (control_edges : option (list ControlEdge)) : list ControlEdge :=
  match control_edges with
  | Some l => l
  | None => if greedily then side_effect_chain (-1) 0 (exec info) else []
  end.

(** [PartitionGraphIntoIndependentNodeSubsets] *)
Definition PartitionGraphIntoIndependentNodeSubsets (info : GraphInfo) (nodes_to_partition : list Z)
    (greedily : bool) (control_edges : option (list ControlEdge)) : res fault (list NodeSubset) :=
  Partition_ info (node_type info nodes_to_partition) greedily
    (Uniquefy edge_lt (edges_of info greedily control_edges)).

(** The examples of the header: six nodes, of which 2 and 3 go to the delegate;
    3 and 4 might have side effects. *)
Definition doc_graph : GraphInfo :=
  mkInfo [mkNode [0] [1] false 0; mkNode [1] [2] false 1; mkNode [2] [3] false 2; mkNode [3] [4] true 3;
          mkNode [2] [5] true 4; mkNode [4; 5; -1] [6] false 5] 7 6 [6].

Example doc_data_dependencies :
  PartitionGraphIntoIndependentNodeSubsets doc_graph [2; 3] true (Some []) =
  Ok [mkSubset kTfNonPartition [0; 1; 4] [0] [2; 5]; mkSubset kTfPartition [2; 3] [2] [4];
      mkSubset kTfNonPartition [5] [4; 5] [6]].
Proof. reflexivity. Qed.

Example doc_control_dependency :
  (let! ss := PartitionGraphIntoIndependentNodeSubsets doc_graph [2; 3] true (Some [(3, 4)]) in
   Ok (map nodes ss)) = Ok [[0; 1]; [2; 3]; [4; 5]].
Proof. reflexivity. Qed.

Example doc_side_effects :
  PartitionGraphIntoIndependentNodeSubsets doc_graph [2; 3] true None =
  PartitionGraphIntoIndependentNodeSubsets doc_graph [2; 3] true (Some [(3, 4)]).
Proof. reflexivity. Qed.
End Partition.
