(* ===== verification/PartitionInv.v ===== *)
(** * The invariant of the graph partitioner

    What the vectors of the partitioner say about the nodes scheduled so far,
    and that [UpdateNode] and the loops around it keep it. *)

From S2P Require Import Prelude GraphPartition.
Import Partition.

(** ** Vectors *)

Definition index (n : nat) (x : Z) : Prop := 0 <= x < Z.of_nat n.

Lemma epoch_set (i j v : Z) (l : list Z) :
  0 <= j -> index (length l) i -> at_ j (set_at i v l) = if i =? j then v else at_ j l.
Proof.
  unfold index, at_, set_at. intros Hj Hi. rewrite !nth_lookup. destruct (Z.eqb_spec i j) as [->|Hne].
  - by rewrite list_lookup_insert_eq by lia.
  - by rewrite list_lookup_insert_ne by lia.
Qed.

Lemma counter_set (i j v : Z) (l : list Z) :
  0 <= j -> index (length l) i -> count_at j (set_at i v l) = if i =? j then v else count_at j l.
Proof.
  unfold index, count_at, set_at. intros Hj Hi. rewrite !nth_lookup. destruct (Z.eqb_spec i j) as [->|Hne].
  - by rewrite list_lookup_insert_eq by lia.
  - by rewrite list_lookup_insert_ne by lia.
Qed.

(** Writing one value at several positions. *)
Lemma fold_set (v : Z) (xs l : list Z) :
  Forall (index (length l)) xs ->
  length (fold_left (fun l x => set_at x v l) xs l) = length l /\
  forall y, 0 <= y -> at_ y (fold_left (fun l x => set_at x v l) xs l) = if decide (y ∈ xs) then v else at_ y l.
Proof.
  revert l. induction xs as [|x xs IH]; intros l Hx; cbn [fold_left].
  - split; [done|]. intros y _. by rewrite decide_False by set_solver.
  - apply list.Forall_cons in Hx as [Hx Hxs].
    assert (length (set_at x v l) = length l) as Hl by (unfold set_at; by rewrite length_insert).
    destruct (IH (set_at x v l)) as [I1 I2]; [by rewrite Hl|]. split; [by rewrite I1|].
    intros y Hy. rewrite I2, epoch_set by done. destruct (Z.eqb_spec x y) as [->|Hne].
    + rewrite (decide_True (P := y ∈ y :: xs)) by set_solver. by destruct (decide _).
    + destruct (decide (y ∈ xs)); [by rewrite decide_True by set_solver|by rewrite decide_False by set_solver].
Qed.

(** How many elements of a list satisfy a test. *)
Fixpoint count {A} (p : A -> bool) (l : list A) : Z :=
  match l with [] => 0 | x :: l' => (if p x then 1 else 0) + count p l' end.

Lemma count_bounds {A} (p : A -> bool) (l : list A) : 0 <= count p l <= Z.of_nat (length l).
Proof. induction l as [|x l IH]; cbn [count length]; [lia|]. destruct (p x); lia. Qed.

Lemma count_ext {A} (p q : A -> bool) (l : list A) : (forall x, x ∈ l -> p x = q x) -> count p l = count q l.
Proof.
  induction l as [|x l IH]; cbn [count]; intros H; [done|]. rewrite (H x), IH by set_solver. done.
Qed.

Lemma count_filter {A} (p q : A -> bool) (l : list A) : count p (List.filter q l) = count (fun x => q x && p x) l.
Proof. induction l as [|x l IH]; cbn; [done|]. destruct (q x); cbn; by rewrite IH. Qed.

Lemma count_split {A} (p q r : A -> bool) (l : list A) :
  (forall x, x ∈ l -> (if p x then 1 else 0) = (if q x then 1 else 0) + (if r x then 1 else 0)) ->
  count p l = count q l + count r l.
Proof.
  induction l as [|x l IH]; cbn [count]; intros H; [done|]. rewrite (H x), IH by set_solver. lia.
Qed.

Lemma count_zero {A} (p : A -> bool) (l : list A) : count p l = 0 <-> forall x, x ∈ l -> p x = false.
Proof.
  induction l as [|x l IH]; cbn [count]; [split; [set_solver|done]|]. pose proof (count_bounds p l).
  destruct (p x) eqn:E; split.
  - lia.
  - intros Hx. specialize (Hx x ltac:(set_solver)). congruence.
  - intros Hx y Hy. apply elem_of_cons in Hy as [->|Hy]; [done|]. apply IH; [lia|done].
  - intros Hx. rewrite (proj2 IH); [lia|]. intros y Hy. apply Hx. set_solver.
Qed.

Lemma between (c d k : Z) : 0 <= k -> in_i32 c -> in_i32 (c + d * (1 + k)) -> in_i32 (c + d).
Proof. unfold in_i32. intros. destruct (Z.le_ge_cases 0 d); [assert (0 <= d * k) by nia|assert (d * k <= 0) by nia]; lia. Qed.

(** Adding [d] to the counters of the targets of some edges. *)
Lemma fold_counts (d : Z) (es : list ControlEdge) (l : list Z) :
  Forall (fun e : ControlEdge => index (length l) e.2) es ->
  (forall b, 0 <= b -> in_i32 (count_at b l) /\ in_i32 (count_at b l + d * count (fun e : ControlEdge => e.2 =? b) es)) ->
  let l' := fold_left (fun l (e : ControlEdge) => set_at e.2 (wrap_i32 (count_at e.2 l + d)) l) es l in
  length l' = length l /\ forall b, 0 <= b -> count_at b l' = count_at b l + d * count (fun e : ControlEdge => e.2 =? b) es.
Proof.
  revert l. induction es as [|e es IH]; intros l Hr Hb; cbn [fold_left count]; [by split; [done|]; intros; lia|].
  apply list.Forall_cons in Hr as [He Hr]. set (l1 := set_at e.2 _ l).
  assert (length l1 = length l) as Hl by (unfold l1, set_at; by rewrite length_insert).
  assert (forall b, 0 <= b -> count_at b l1 = count_at b l + (if e.2 =? b then d else 0)) as H1.
  { intros b Hb0. unfold l1. rewrite counter_set by done. destruct (Z.eqb_spec e.2 b) as [<-|]; [|lia].
    pose proof (Hb e.2 (proj1 He)) as [B1 B2]. cbn [count] in B2. rewrite Z.eqb_refl in B2.
    pose proof (count_bounds (fun x : ControlEdge => x.2 =? e.2) es). rewrite wrap_i32_id; [done|].
    eapply between; [|done|exact B2]. apply count_bounds. }
  destruct (IH l1) as [I1 I2].
  - by rewrite Hl.
  - intros b Hb0. rewrite H1 by done. pose proof (Hb b Hb0) as [B1 B2]. cbn [count] in B2.
    pose proof (count_bounds (fun x : ControlEdge => x.2 =? b) es).
    destruct (e.2 =? b).
    + split; [eapply between; [|done|exact B2]; apply count_bounds|]. by rewrite <- Z.add_assoc, <- (Z.mul_1_r d) at 1; rewrite <- Z.mul_add_distr_l.
    + by rewrite !Z.add_0_l in *; rewrite Z.add_0_r.
  - split; [by rewrite I1|]. intros b Hb0. rewrite I2, H1 by done. destruct (e.2 =? b); lia.
Qed.

(** The order of edges as a proposition. *)
Lemma edge_lt_iff (a b : ControlEdge) : edge_lt a b = true <-> a.1 < b.1 \/ (a.1 = b.1 /\ a.2 < b.2).
Proof. unfold edge_lt. rewrite orb_true_iff, andb_true_iff, !Z.ltb_lt, Z.eqb_eq. done. Qed.

Definition edges_sorted (l : list ControlEdge) : Prop := StronglySorted (fun a b => edge_lt a b = true) l.

Lemma filter_none {A} (p : A -> bool) (l : list A) : Forall (fun x => p x = false) l -> List.filter p l = [].
Proof. induction 1 as [|x l Hx _ IH]; cbn; [done|]. by rewrite Hx. Qed.

(** On sorted edges the search finds all edges that leave a node. *)
Lemma edges_from_sorted (i : Z) (l : list ControlEdge) :
  edges_sorted l -> Forall (fun e : ControlEdge => i <= e.1) l -> edges_from i l = List.filter (fun e : ControlEdge => e.1 =? i) l.
Proof.
  induction 1 as [|x l Hs IH Hx]; intros Hr; cbn; [done|]. apply list.Forall_cons in Hr as [H1 Hr].
  destruct (Z.eqb_spec x.1 i) as [E|E]; [by rewrite IH|]. symmetry. apply filter_none.
  refine (list.Forall_impl _ _ _ Hx _). intros y Hy%edge_lt_iff. lia.
Qed.

Lemma edges_found (i : Z) (l : list ControlEdge) :
  edges_sorted l -> Forall (fun e : ControlEdge => 0 <= e.2) l ->
  edges_from i (lower_bound (i, 0) l) = List.filter (fun e : ControlEdge => e.1 =? i) l.
Proof.
  induction 1 as [|x l Hs IH Hx]; intros Hr; cbn; [done|]. apply list.Forall_cons in Hr as [H1 Hr].
  destruct (edge_lt x (i, 0)) eqn:E.
  - apply edge_lt_iff in E. cbn in E. rewrite (proj2 (Z.eqb_neq x.1 i)) by lia. by apply IH.
  - assert (i <= x.1) as Hi.
    { destruct (Z.le_gt_cases i x.1); [done|]. rewrite (proj2 (edge_lt_iff x (i, 0))) in E; [done|]. left. cbn. lia. }
    apply (edges_from_sorted i (x :: l)); [by constructor|]. constructor; [done|].
    refine (list.Forall_impl _ _ _ Hx _). intros y Hy%edge_lt_iff. lia.
Qed.

Lemma count_zeros (i : Z) (m : nat) : count_at i (replicate m 0) = 0.
Proof.
  unfold count_at. rewrite nth_lookup. destruct (_ !! _) eqn:E; [|done]. by apply lookup_replicate in E as [-> _].
Qed.

(** Changing one element of a list that is related to another list. *)
Lemma Forall2_alter_one {A B} (R : A -> B -> Prop) (f : B -> B) (k : nat) (l : list A) (l' : list B) :
  Forall2 R l l' -> (forall x y, R x y -> R x (f y)) -> Forall2 R l (alter f k l').
Proof.
  intros H Hf. revert k. induction H as [|x y l l' Hx H IH]; intros [|k]; cbn; constructor; auto.
Qed.

Lemma concat_snoc {A} (hs : list (list A)) (g : list A) (i : A) : concat (hs ++ [g ++ [i]]) = concat (hs ++ [g]) ++ [i].
Proof. rewrite !concat_app. cbn. by rewrite !app_nil_r, app_assoc. Qed.

(** ** The invariant *)

Section Invariant.
Context (info : GraphInfo) (types : list Type_) (greedily : bool) (edges : list ControlEdge).
Abbreviation n := (num_execution_nodes info).
Abbreviation node := (node info).
Abbreviation type_of := (type_of info types).

Definition writes (i : nat) (x : Z) : Prop := (i < n)%nat /\ x ∈ n_outputs (node i).
Definition reads (i : nat) (x : Z) : Prop := (i < n)%nat /\ x ∈ n_inputs (node i) /\ x <> kTfLiteOptionalTensor.
Definition written (d : list nat) (x : Z) : Prop := exists j, j ∈ d /\ writes j x.
Definition computed (x : Z) : Prop := exists j, writes j x.

(** Valid indices and sorted control edges. *)
Record info_ok : Prop := {
  i_inputs : forall i x, reads i x -> index (num_tensors info) x;
  i_outputs : forall i, (i < n)%nat -> Forall (index (num_tensors info)) (n_outputs (node i));
  i_edges : Forall (fun e : ControlEdge => index n e.1 /\ index n e.2) edges;
  i_sorted : edges_sorted edges;
  i_few : Z.of_nat (length edges) < 2 ^ 31;
  i_types : forall i, type_of i <> kTfUnexplored
}.

(** The dependencies of node [k] are among the nodes [d]. *)
Definition deps_in (d : list nat) (k : nat) : Prop :=
  (forall x, reads k x -> computed x -> written d x) /\
  (forall a, (a, Z.of_nat k) ∈ edges -> Z.to_nat a ∈ d).

Definition ready (d : list nat) (k : nat) : Prop := (k < n)%nat /\ (k ∉ d) /\ deps_in d k.

(** The type of a group of nodes is that of its first one. *)
Definition group_type (g : list nat) : Type_ := match g with [] => kTfUnexplored | i :: _ => type_of i end.

(** How many edges to [b] wait for nodes that are not among [d]. *)
Definition pending (d : list nat) (b : Z) : Z :=
  count (fun e : ControlEdge => (e.2 =? b) && bool_decide (Z.to_nat (e.1) ∉ d)) edges.

(** The epoch of a tensor after the nodes of the groups [gs] are scheduled. *)
Record epoch_ok (gs : list (list nat)) (x e : Z) : Prop := {
  e_always : ~ computed x -> e = kEpochAlwaysReady;
  e_not_ready : computed x -> ~ written (concat gs) x -> e = kEpochNotReady;
  e_group : written (concat gs) x -> exists k g, gs !! k = Some g /\ written g x /\ e = Z.of_nat k
}.

(** The subset that belongs to a group. *)
Definition subset_ok (g : list nat) (s : NodeSubset) : Prop :=
  nodes s = map (fun i => node_index (node i)) g /\ type s = group_type g /\
  Forall (fun i => type_of i = group_type g) g.

(** The nodes are scheduled after their dependencies. *)
Definition in_order (l : list nat) : Prop :=
  forall p k q, l = p ++ k :: q -> deps_in p k.

(** No tensor is written by two nodes. *)
Definition single : Prop := forall i j x, writes i x -> writes j x -> i = j.

(** The tensors that cross the borders of the groups so far. *)
Definition crosses_in (g : list nat) (x : Z) : Prop := (exists i, i ∈ g /\ reads i x) /\ ~ written g x.
Definition crosses_out (d g : list nat) (x : Z) : Prop := written g x /\ exists i, i ∈ d /\ (i ∉ g) /\ reads i x.
Definition borders_ok (gs : list (list nat)) (ss : list NodeSubset) : Prop :=
  forall k g sub, gs !! k = Some g -> ss !! k = Some sub ->
    (forall x, x ∈ input_tensors sub <-> crosses_in g x) /\
    (forall x, x ∈ output_tensors sub <-> crosses_out (concat gs) g x).

Record inv (gs : list (list nat)) (s : t) : Prop := {
  v_subsets : Forall2 subset_ok gs (node_subsets s);
  v_nodup : NoDup (concat gs);
  v_range : Forall (fun i => i < n)%nat (concat gs);
  v_order : in_order (concat gs);
  v_len_tensors : length (tensor_epochs s) = num_tensors info;
  v_tensors : forall x, index (num_tensors info) x -> epoch_ok gs x (at_ x (tensor_epochs s));
  v_len_nodes : length (node_epochs s) = n;
  v_nodes : forall i, (i < n)%nat -> (at_ (Z.of_nat i) (node_epochs s) = kEpochNotReady <-> i ∉ concat gs);
  v_len_edges : length (num_incoming_control_edges s) = n;
  v_edges : forall i, (i < n)%nat -> count_at (Z.of_nat i) (num_incoming_control_edges s) = pending (concat gs) (Z.of_nat i);
  v_borders : single -> borders_ok gs (node_subsets s)
}.

Context (Hok : info_ok).

Lemma written_dec (d : list nat) (x : Z) : written d x \/ ~ written d x.
Proof.
  assert (forall j, Decision (writes j x)) as Hd by (intros j; unfold writes; apply _).
  destruct (decide (Exists (fun j => writes j x) d)) as [H|H]; [left|right].
  - apply list.Exists_exists in H as (j & H1 & H2). by exists j.
  - intros (j & H1 & H2). apply H. apply list.Exists_exists. by exists j.
Qed.

Lemma computed_written (x : Z) : computed x <-> written (seq 0 n) x.
Proof.
  split.
  - intros [j Hj]. exists j. split; [|done]. apply elem_of_seq. destruct Hj. lia.
  - intros (j & _ & Hj). by exists j.
Qed.

Lemma computed_dec (x : Z) : computed x \/ ~ computed x.
Proof. rewrite computed_written. apply written_dec. Qed.

Lemma written_mono (d d' : list nat) (x : Z) : d ⊆ d' -> written d x -> written d' x.
Proof. intros H (j & H1 & H2). exists j. split; [by apply H|done]. Qed.

(** A tensor is ready when it is not computed or some node has written it. *)
Lemma epoch_ready (gs : list (list nat)) (x e : Z) :
  epoch_ok gs x e -> (e <> kEpochNotReady <-> (computed x -> written (concat gs) x)).
Proof.
  intros [H1 H2 H3]. split.
  - intros He Hc. destruct (written_dec (concat gs) x) as [|Hw]; [done|]. by destruct He; apply H2.
  - intros H. destruct (computed_dec x) as [Hc|Hc]; [|by rewrite H1].
    destruct (H3 (H Hc)) as (k & g & _ & _ & ->). unfold kEpochNotReady. lia.
Qed.

Lemma pending_zero (d : list nat) (i : nat) :
  pending d (Z.of_nat i) = 0 <-> forall a, (a, Z.of_nat i) ∈ edges -> Z.to_nat a ∈ d.
Proof.
  unfold pending. rewrite count_zero. split.
  - intros H a Ha. specialize (H _ Ha). cbn in H. rewrite Z.eqb_refl in H. cbn in H.
    apply bool_decide_eq_false in H. destruct (decide (Z.to_nat a ∈ d)); [done|]. by destruct H.
  - intros H [a b] He. cbn. destruct (Z.eqb_spec b (Z.of_nat i)) as [->|]; [|done]. cbn.
    apply bool_decide_eq_false. intros Hn. by apply Hn, H.
Qed.

Lemma schedulable_ready (gs : list (list nat)) (s : t) (i : nat) :
  inv gs s -> (i < n)%nat -> schedulable info i s = true <-> ready (concat gs) i.
Proof.
  intros [_ _ _ _ _ V1 _ V2 _ V3 _] Hi. unfold schedulable, ready, deps_in.
  rewrite !andb_true_iff, !Z.eqb_eq, (V2 i Hi), (V3 i Hi), pending_zero, forallb_forall.
  assert ((forall x, In x (n_inputs (node i)) ->
             (x =? kTfLiteOptionalTensor) || negb (at_ x (tensor_epochs s) =? kEpochNotReady) = true) <->
          forall x, reads i x -> computed x -> written (concat gs) x) as ->; [|tauto].
  split; intros H x Hx.
  - pose proof (i_inputs Hok i x Hx) as Hr. destruct Hx as (_ & Hx & Hne). apply list_elem_of_In, H, orb_true_iff in Hx.
    apply (epoch_ready gs x _ (V1 x Hr)). destruct Hx as [Hx|Hx]; zbool; done.
  - apply orb_true_iff. destruct (Z.eqb_spec x kTfLiteOptionalTensor) as [|Hne]; [by left|right].
    assert (reads i x) as Hr by (split; [done|]; split; [by apply list_elem_of_In|done]).
    apply negb_true_iff, Z.eqb_neq. apply (epoch_ready gs x _ (V1 x (i_inputs Hok i x Hr))). by apply H.
Qed.

(** ** Scheduling a node *)

(** Node [i] may join the group [g] after the nodes [d]. *)
Definition can_join (d g : list nat) (i : nat) : Prop := ready d i /\ (g = [] \/ type_of i = group_type g).

Lemma note_inputs_keep (gs : list (list nat)) (e : nat) (ep xs : list Z) (ss : list NodeSubset) :
  Forall2 subset_ok gs ss -> Forall2 subset_ok gs (fold_left (note_input e ep) xs ss).
Proof.
  revert ss. induction xs as [|x xs IH]; intros ss H; cbn [fold_left]; [done|]. apply IH. unfold note_input.
  repeat case_if; try done; repeat (apply Forall2_alter_one; [|done]); done.
Qed.

Lemma add_node_keeps (hs : list (list nat)) (g : list nat) (ss : list NodeSubset) (i : nat) :
  Forall2 subset_ok (hs ++ [g]) ss -> g = [] \/ type_of i = group_type g ->
  Forall2 subset_ok (hs ++ [g ++ [i]]) (alter (add_node (type_of i) (node_index (node i))) (length ss - 1)%nat ss).
Proof.
  intros H Hg. apply Forall2_app_inv_l in H as (ss1 & ss2 & H1 & H2 & ->).
  apply Forall2_cons_inv_l in H2 as (c & ? & (C1 & C2 & C3) & ?%Forall2_nil_inv_l & ->). subst.
  rewrite length_app. cbn [length]. replace (length ss1 + 1 - 1)%nat with (length ss1 + 0)%nat by lia.
  rewrite alter_app_r. cbn. apply Forall2_app; [done|]. constructor; [|constructor].
  assert (group_type (g ++ [i]) = type_of i) as Ht.
  { destruct g; [done|]. destruct Hg as [|Hg]; [done|]. by rewrite Hg. }
  split; [cbn; by rewrite C1, map_app|]. rewrite Ht. split; [done|]. apply list.Forall_app. split; [|by repeat constructor].
  destruct Hg as [->|Hg]; [constructor|]. refine (list.Forall_impl _ _ _ C3 _). intros j Hj. congruence.
Qed.

Lemma epochs_after (hs : list (list nat)) (g : list nat) (s : t) (i : nat) :
  inv (hs ++ [g]) s -> (i < n)%nat ->
  let ep := fold_left (fun l x => set_at x (Z.of_nat (length hs)) l) (n_outputs (node i)) (tensor_epochs s) in
  length ep = num_tensors info /\
  forall x, index (num_tensors info) x -> epoch_ok (hs ++ [g ++ [i]]) x (at_ x ep).
Proof.
  intros [_ _ _ _ V1 V2 _ _ _ _ _] Hi ep. destruct (fold_set (Z.of_nat (length hs)) (n_outputs (node i)) (tensor_epochs s)) as [F1 F2].
  { rewrite V1. by apply i_outputs. }
  split; [unfold ep; by rewrite F1|]. intros x Hx. unfold ep. rewrite F2 by apply Hx. destruct (V2 x Hx) as [E1 E2 E3].
  destruct (decide (x ∈ n_outputs (node i))) as [Hin|Hin].
  - split.
    + intros Hc. destruct Hc. by exists i.
    + intros _ Hw. destruct Hw. exists i. split; [rewrite concat_snoc; set_solver|done].
    + intros _. exists (length hs), (g ++ [i]). split; [by apply list_lookup_middle|].
      split; [|done]. exists i. split; [set_solver|done].
  - assert (written (concat (hs ++ [g ++ [i]])) x <-> written (concat (hs ++ [g])) x) as Hw.
    { rewrite concat_snoc. split; [|apply written_mono; set_solver]. intros (j & Hj & Hwj).
      apply elem_of_app in Hj as [Hj|Hj]; [by exists j|]. apply list_elem_of_singleton in Hj as ->. by destruct Hwj. }
    split; [done|by rewrite Hw|]. rewrite Hw. intros H. destruct (E3 H) as (k & g' & K1 & K2 & K3).
    apply lookup_app_Some in K1 as [K1|[K0 K1]].
    + exists k, g'. split; [by apply lookup_app_l_Some|done].
    + apply list_lookup_singleton_Some in K1 as [K1 <-]. exists k, (g ++ [i]).
      split; [apply list_lookup_middle; lia|]. split; [|done]. revert K2. apply written_mono. set_solver.
Qed.

Lemma edges_after (d : list nat) (i : nat) (l : list Z) :
  i ∉ d -> length l = n -> (forall b, (b < n)%nat -> count_at (Z.of_nat b) l = pending d (Z.of_nat b)) ->
  let l' := fold_left release_edge (edges_from (Z.of_nat i) (lower_bound (Z.of_nat i, 0) edges)) l in
  length l' = n /\ forall b, (b < n)%nat -> count_at (Z.of_nat b) l' = pending (d ++ [i]) (Z.of_nat b).
Proof.
  intros Hi Hl Hc. pose proof (i_edges Hok) as He. pose proof (i_few Hok) as Hfew. cbn zeta.
  rewrite edges_found; [|apply Hok|refine (list.Forall_impl _ _ _ He _); intros e [_ []]; lia].
  assert (forall b, pending d b = pending (d ++ [i]) b +
    count (fun e : ControlEdge => (e.1 =? Z.of_nat i) && (e.2 =? b)) edges) as Hsum.
  { intros b. apply count_split. intros e Hin. rewrite list.Forall_forall in He. destruct (He e Hin) as [[H1 _] _].
    destruct (e.2 =? b); [|by rewrite andb_false_r]. rewrite andb_true_r. cbn.
    destruct (Z.eqb_spec e.1 (Z.of_nat i)) as [E|E].
    - rewrite E, Nat2Z.id. rewrite bool_decide_eq_true_2 by done. by rewrite bool_decide_eq_false_2 by set_solver.
    - assert (Z.to_nat e.1 ∉ d <-> Z.to_nat e.1 ∉ d ++ [i]) as Hiff.
      { rewrite elem_of_app, list_elem_of_singleton. split; [|tauto]. intros H [|H']; [done|lia]. }
      rewrite (bool_decide_ext _ _ Hiff). lia. }
  destruct (fold_counts (-1) (List.filter (fun e : ControlEdge => e.1 =? Z.of_nat i) edges) l) as [F1 F2].
  - apply list.Forall_forall. intros e Hin. apply list_elem_of_In, filter_In in Hin as [Hin _]. rewrite Hl.
    rewrite list.Forall_forall in He. apply He. by apply list_elem_of_In.
  - intros b Hb. rewrite count_filter. cbn beta. pose proof (count_bounds (fun e : ControlEdge => (e.2 =? b) && bool_decide (Z.to_nat (e.1) ∉ d)) edges) as R1.
    pose proof (count_bounds (fun e : ControlEdge => (e.2 =? b) && bool_decide (Z.to_nat (e.1) ∉ d ++ [i])) edges) as R2.
    specialize (Hsum b). unfold pending in Hsum.
    destruct (decide (b < Z.of_nat n)).
    + specialize (Hc (Z.to_nat b)). rewrite Z2Nat.id in Hc by done. rewrite Hc by lia. unfold pending, in_i32. lia.
    + assert (count_at b l = 0) as -> by (unfold count_at; apply nth_overflow; lia). unfold in_i32. lia.
  - split; [etransitivity; [exact F1|done]|]. intros b Hb. etransitivity; [apply F2; lia|].
    rewrite count_filter, Hc by done. cbn beta. specialize (Hsum (Z.of_nat b)). lia.
Qed.

Lemma in_order_snoc (l : list nat) (i : nat) : in_order l -> deps_in l i -> in_order (l ++ [i]).
Proof.
  intros Hl Hi p k q E. destruct q as [|k' q _] using rev_ind.
  - apply app_inj_tail in E as [-> ->]. done.
  - rewrite app_comm_cons, app_assoc in E. apply app_inj_tail in E as [-> _]. by apply (Hl p k q).
Qed.

(** The subset at the back belongs to the last group. *)
Lemma back_ok (hs : list (list nat)) (g : list nat) (s : t) :
  inv (hs ++ [g]) s -> subset_ok g (back s) /\ length (node_subsets s) = S (length hs).
Proof.
  intros [H _ _ _ _ _ _ _ _ _ _]. unfold back. pose proof (Forall2_length _ _ _ H) as Hlen. rewrite length_app in Hlen. cbn in Hlen.
  apply Forall2_app_inv_l in H as (ss1 & ss2 & H1 & H2 & E).
  apply Forall2_cons_inv_l in H2 as (c & ? & Hc & ?%Forall2_nil_inv_l & ->). subst. rewrite E, last_last. split; [done|].
  rewrite <- E. lia.
Qed.

Lemma node_epochs_after (d : list nat) (i : nat) (e : nat) (l : list Z) :
  (i < n)%nat -> length l = n -> (forall j, (j < n)%nat -> (at_ (Z.of_nat j) l = kEpochNotReady <-> j ∉ d)) ->
  forall j, (j < n)%nat -> (at_ (Z.of_nat j) (set_at (Z.of_nat i) (Z.of_nat e) l) = kEpochNotReady <-> j ∉ d ++ [i]).
Proof.
  intros Hi Hl H j Hj. rewrite epoch_set by (lia || (unfold index; lia)). rewrite elem_of_app, list_elem_of_singleton.
  destruct (Z.eqb_spec (Z.of_nat i) (Z.of_nat j)) as [E|E].
  - unfold kEpochNotReady. split; [lia|]. intros Hn. destruct Hn. right. lia.
  - rewrite H by done. split; [|tauto]. intros Hn [|]; [done|lia].
Qed.

(** *** Borders *)

(** One input, subset by subset. *)
Lemma note_input_borders (e : nat) (ep : list Z) (y : Z) (ss : list NodeSubset) (k : nat) (sub1 : NodeSubset) :
  note_input e ep ss y !! k = Some sub1 ->
  exists sub, ss !! k = Some sub /\
    (forall x, x ∈ input_tensors sub1 <-> x ∈ input_tensors sub \/
       (k = e /\ x = y /\ y <> kTfLiteOptionalTensor /\ at_ y ep <> Z.of_nat e)) /\
    (forall x, x ∈ output_tensors sub1 <-> x ∈ output_tensors sub \/
       (k <> e /\ x = y /\ y <> kTfLiteOptionalTensor /\ at_ y ep = Z.of_nat k)).
Proof.
  intros E1. unfold note_input in E1. destruct (Z.eqb_spec y kTfLiteOptionalTensor) as [->|Hy].
  { exists sub1. split; [done|]. split; intros x; tauto. }
  destruct (Z.eqb_spec (at_ y ep) (Z.of_nat e)) as [Ee|Ee]; cbn [negb] in E1.
  { exists sub1. split; [done|]. split; intros x; [tauto|]. split; [by left|]. intros [|(? & _ & _ & ?)]; [done|lia]. }
  set (ss1 := alter (add_input y) e ss) in E1.
  assert (exists sub2, ss1 !! k = Some sub2 /\ input_tensors sub1 = input_tensors sub2 /\
    (forall x, x ∈ output_tensors sub1 <-> x ∈ output_tensors sub2 \/ (x = y /\ at_ y ep = Z.of_nat k))) as (sub2 & E2 & K1 & K2).
  { destruct (Z.leb_spec 0 (at_ y ep)) as [Hp|Hp].
    - destruct (decide (Z.to_nat (at_ y ep) = k)) as [<-|Hk].
      + rewrite list_lookup_alter_eq in E1. destruct (ss1 !! _) as [sub2|] eqn:E2; [|done]. injection E1 as <-.
        exists sub2. split; [done|]. split; [done|]. intros x. cbn. rewrite elem_of_app, list_elem_of_singleton.
        rewrite Z2Nat.id by done. tauto.
      + rewrite list_lookup_alter_ne in E1 by done. exists sub1. split; [done|]. split; [done|]. intros x.
        split; [by left|]. intros [|[_ ?]]; [done|lia].
    - exists sub1. split; [done|]. split; [done|]. intros x. split; [by left|]. intros [|[_ ?]]; [done|lia]. }
  unfold ss1 in E2. destruct (decide (e = k)) as [<-|Hk].
  - rewrite list_lookup_alter_eq in E2. destruct (ss !! e) as [sub|] eqn:E; [|done]. injection E2 as <-.
    exists sub. split; [done|]. split; intros x; [rewrite K1; cbn; rewrite elem_of_app, list_elem_of_singleton|rewrite K2; cbn]; tauto.
  - rewrite list_lookup_alter_ne in E2 by done. exists sub2. split; [done|]. split; intros x.
    + rewrite K1. split; [by left|]. intros [|[? _]]; [done|congruence].
    + rewrite K2. split; [|tauto]. intros [|]; [by left|right]. split; [congruence|tauto].
Qed.

(** The loop over the inputs, subset by subset. *)
Lemma note_inputs_borders (e : nat) (ep xs : list Z) (ss : list NodeSubset) (k : nat) (sub' : NodeSubset) :
  fold_left (note_input e ep) xs ss !! k = Some sub' ->
  exists sub, ss !! k = Some sub /\
    (forall x, x ∈ input_tensors sub' <-> x ∈ input_tensors sub \/
       (k = e /\ x ∈ xs /\ x <> kTfLiteOptionalTensor /\ at_ x ep <> Z.of_nat e)) /\
    (forall x, x ∈ output_tensors sub' <-> x ∈ output_tensors sub \/
       (k <> e /\ x ∈ xs /\ x <> kTfLiteOptionalTensor /\ at_ x ep = Z.of_nat k)).
Proof.
  revert ss. induction xs as [|y xs IH]; intros ss H; cbn [fold_left] in H.
  - exists sub'. split; [done|]. split; intros x; set_solver.
  - destruct (IH _ H) as (sub1 & E1 & I1 & I2). destruct (note_input_borders _ _ _ _ _ _ E1) as (sub & E & J1 & J2).
    exists sub. split; [done|]. split; intros x; [rewrite I1, J1|rewrite I2, J2]; rewrite elem_of_cons;
      (split; [|intros [|(? & [->|?] & ?)]; tauto]); intros [[|(? & -> & ?)]|]; tauto.
Qed.

Lemma group_unique (gs : list (list nat)) (k k' : nat) (g g' : list nat) (i : nat) :
  NoDup (concat gs) -> gs !! k = Some g -> gs !! k' = Some g' -> i ∈ g -> i ∈ g' -> k = k'.
Proof.
  assert (forall (l : list (list nat)) m h, l !! m = Some h -> i ∈ h -> i ∈ concat l) as Hin.
  { intros l m h Hm Hi. apply list_elem_of_In, in_concat. exists h. split; apply list_elem_of_In; [|done].
    by eapply list_elem_of_lookup_2. }
  revert k k'. induction gs as [|h gs IH]; intros k k' Hn Hk Hk' Hi Hi'; [done|].
  cbn in Hn. apply NoDup_app in Hn as (_ & Hd & Hn). destruct k as [|k], k' as [|k']; cbn in *; simplify_eq; try done.
  - destruct (Hd i Hi). by eapply Hin.
  - destruct (Hd i Hi'). by eapply Hin.
  - f_equal. by apply IH.
Qed.

(** With single writers, the epoch of a tensor is the group of its writer. *)
Lemma epoch_group (gs : list (list nat)) (x e : Z) (k : nat) (g : list nat) :
  single -> NoDup (concat gs) -> epoch_ok gs x e -> gs !! k = Some g -> e = Z.of_nat k <-> written g x.
Proof.
  intros Hs Hn [H1 H2 H3] Hk.
  assert (written (concat gs) x -> e = Z.of_nat k <-> written g x) as H.
  { intros Hw. destruct (H3 Hw) as (k' & g' & K1 & (j & K2 & K3) & ->). split.
    - intros E%Nat2Z.inj. rewrite E, Hk in K1. injection K1 as <-. by exists j.
    - intros (j' & L1 & L2). rewrite (Hs j' j x L2 K3) in L1. f_equal. by apply (group_unique gs _ _ _ _ j Hn K1 Hk). }
  destruct (written_dec (concat gs) x) as [Hw|Hw]; [by apply H|]. split.
  - intros ->. destruct (computed_dec x) as [Hc|Hc]; [specialize (H2 Hc Hw)|specialize (H1 Hc)];
      unfold kEpochNotReady, kEpochAlwaysReady in *; lia.
  - intros Hg. destruct Hw. revert Hg. apply written_mono. intros j Hj. apply list_elem_of_In, in_concat.
    exists g. split; apply list_elem_of_In; [by eapply list_elem_of_lookup_2|done].
Qed.

(** The nodes scheduled so far read no tensor that a later node writes. *)
Lemma not_read_before (l : list nat) (i j : nat) (x : Z) :
  single -> in_order l -> i ∉ l -> writes i x -> j ∈ l -> ~ reads j x.
Proof.
  intros Hs Ho Hi Hw Hj Hr. apply list_elem_of_split in Hj as (p & q & ->).
  destruct (Ho p j q eq_refl) as [H _]. destruct (H x Hr (ex_intro _ i Hw)) as (i' & Hp & Hw').
  rewrite (Hs i i' x Hw Hw') in Hi. set_solver.
Qed.

(** Node [i] joins the last group [g]; [ep] are the epochs after that. *)
Section Step.
Context (hs : list (list nat)) (g : list nat) (ss : list NodeSubset) (i : nat) (ep : list Z).
Context (Hs : single) (Hb : borders_ok (hs ++ [g]) ss) (Ho : in_order (concat (hs ++ [g]))).
Context (Hni : i ∉ concat (hs ++ [g])) (Hi : (i < n)%nat).

(** The new input and output tensors of a group [g'] with subset [sub]. *)
Definition new_input (k : nat) (x : Z) : Prop := k = length hs /\ reads i x /\ at_ x ep <> Z.of_nat k.
Definition new_output (k : nat) (x : Z) : Prop := k <> length hs /\ reads i x /\ at_ x ep = Z.of_nat k.

Lemma borders_earlier (k : nat) (g' : list nat) (sub : NodeSubset) :
  hs !! k = Some g' -> ss !! k = Some sub -> (forall x, reads i x -> at_ x ep = Z.of_nat k <-> written g' x) ->
  (forall x, x ∈ input_tensors sub \/ new_input k x <-> crosses_in g' x) /\
  (forall x, x ∈ output_tensors sub \/ new_output k x <-> crosses_out (concat (hs ++ [g]) ++ [i]) g' x).
Proof.
  intros Hk E Hepoch. assert (k <> length hs) as Hne by (apply lookup_lt_Some in Hk; lia).
  destruct (Hb k g' sub) as [B1 B2]; [by apply lookup_app_l_Some|done|].
  assert (i ∉ g') as Hig.
  { intros Hig. apply Hni. apply list_elem_of_In, in_concat. exists g'. split; apply list_elem_of_In; [|done].
    apply elem_of_app. left. by eapply list_elem_of_lookup_2. }
  split; intros x.
  - rewrite B1. split; [by intros [|[? _]]|by left].
  - rewrite B2. unfold crosses_out, new_output. split.
    + intros [(Hw & j & J1 & J2)|(_ & Hr & He)].
      * split; [done|]. exists j. split; [set_solver|done].
      * split; [by apply Hepoch|]. exists i. split; [set_solver|done].
    + intros (Hw & j & J1 & J2 & J3). apply elem_of_app in J1 as [J1|J1%list_elem_of_singleton]; [left; eauto|].
      subst j. right. split; [done|]. split; [done|]. by apply Hepoch.
Qed.

Lemma borders_last (sub : NodeSubset) :
  ss !! length hs = Some sub -> (forall x, reads i x -> at_ x ep = Z.of_nat (length hs) <-> written (g ++ [i]) x) ->
  (forall x, x ∈ input_tensors sub \/ new_input (length hs) x <-> crosses_in (g ++ [i]) x) /\
  (forall x, x ∈ output_tensors sub \/ new_output (length hs) x <-> crosses_out (concat (hs ++ [g]) ++ [i]) (g ++ [i]) x).
Proof.
  intros E Hepoch. destruct (Hb (length hs) g sub) as [B1 B2]; [by apply list_lookup_middle|done|].
  assert (forall j, j ∈ g -> j ∈ concat (hs ++ [g])) as Hgin by (intros j Hj; rewrite concat_app; cbn; rewrite app_nil_r; set_solver).
  assert (forall x, written (g ++ [i]) x <-> written g x \/ writes i x) as Hwr.
  { intros x. unfold written. setoid_rewrite elem_of_app. setoid_rewrite list_elem_of_singleton. split.
    - intros (j & [Hj| ->] & Hw); [left; by exists j|by right].
    - intros [(j & Hj & Hw)|Hw]; [exists j; tauto|exists i; tauto]. }
  pose proof (fun j x => not_read_before _ i j x Hs Ho Hni) as Hbefore.
  split; intros x; unfold crosses_in, crosses_out, new_input, new_output in *.
  - rewrite B1. split.
    + intros [[(j & Hj & Hr) Hw]|(_ & Hr & He)].
      * split; [exists j; split; [set_solver|done]|]. rewrite Hwr. intros [|Hwi]; [done|]. by apply (Hbefore j x Hwi (Hgin j Hj)).
      * split; [exists i; split; [set_solver|done]|]. by rewrite <- (Hepoch x Hr).
    + intros [(j & Hj & Hr) Hw]. apply elem_of_app in Hj as [Hj|Hj%list_elem_of_singleton].
      * left. split; [by exists j|]. rewrite Hwr in Hw. tauto.
      * subst j. right. split; [done|]. split; [done|]. by rewrite (Hepoch x Hr).
  - rewrite B2. split.
    + intros [(Hw & j & J1 & J2 & J3)|[? _]]; [|done]. split; [rewrite Hwr; by left|]. exists j.
      split; [set_solver|]. split; [|done]. intros [|J%list_elem_of_singleton]%elem_of_app; [done|]. subst j. by destruct Hni.
    + intros (Hw & j & J1 & J2 & J3). left. apply elem_of_app in J1 as [J1|J1]; [|set_solver]. split.
      * apply Hwr in Hw as [Hw|Hw]; [done|]. by destruct (Hbefore j x Hw J1).
      * exists j. split; [done|]. split; [set_solver|done].
Qed.
End Step.

Lemma borders_step (hs : list (list nat)) (g : list nat) (ss : list NodeSubset) (i : nat) (ep : list Z) (ty : Type_) :
  single -> borders_ok (hs ++ [g]) ss -> in_order (concat (hs ++ [g])) ->
  NoDup (concat (hs ++ [g ++ [i]])) -> (i < n)%nat ->
  (forall x, index (num_tensors info) x -> epoch_ok (hs ++ [g ++ [i]]) x (at_ x ep)) ->
  borders_ok (hs ++ [g ++ [i]])
    (fold_left (note_input (length hs) ep) (n_inputs (node i)) (alter (add_node ty (node_index (node i))) (length hs) ss)).
Proof.
  intros Hs Hb Ho Hn Hi Hep k g' sub' Hg' Hsub'.
  destruct (note_inputs_borders _ _ _ _ _ _ Hsub') as (sub1 & E1 & I1 & I2).
  assert (exists sub, ss !! k = Some sub /\ input_tensors sub1 = input_tensors sub /\ output_tensors sub1 = output_tensors sub)
    as (sub & E & K1 & K2).
  { destruct (decide (length hs = k)) as [E0|]; [|rewrite list_lookup_alter_ne in E1 by done; by exists sub1].
    rewrite E0, list_lookup_alter_eq in E1. destruct (ss !! k) as [sub|]; [|done]. injection E1 as <-. by exists sub. }
  assert (forall x, reads i x -> at_ x ep = Z.of_nat k <-> written g' x) as Hepoch.
  { intros x Hx. apply (epoch_group (hs ++ [g ++ [i]])); try done. apply Hep. by eapply i_inputs. }
  rewrite concat_snoc in *. apply NoDup_app in Hn as (_ & Hnew & _).
  assert (i ∉ concat (hs ++ [g])) as Hni by (intros H; apply (Hnew i H); set_solver).
  assert ((forall x, x ∈ input_tensors sub \/ new_input hs i ep k x <-> crosses_in g' x) /\
    (forall x, x ∈ output_tensors sub \/ new_output hs i ep k x <-> crosses_out (concat (hs ++ [g]) ++ [i]) g' x)) as [B1 B2].
  { apply lookup_app_Some in Hg' as [Hk|[Hk0 Hk]]; [by eapply borders_earlier|].
    apply list_lookup_singleton_Some in Hk as [Hk <-]. assert (k = length hs) as -> by lia. by eapply borders_last. }
  split; intros x; [rewrite I1, <- B1, K1|rewrite I2, <- B2, K2]; unfold new_input, new_output, reads.
  - split; (intros [|H]; [by left|right]); destruct H as (-> & H); tauto.
  - tauto.
Qed.

(** [UpdateNode] schedules exactly the nodes that may join the current group. *)
Lemma UpdateNode_ok (hs : list (list nat)) (g : list nat) (s : t) (i : nat) :
  inv (hs ++ [g]) s -> (i < n)%nat ->
  (can_join (concat (hs ++ [g])) g i /\
   exists s', UpdateNode info types edges i s = (s', true) /\ inv (hs ++ [g ++ [i]]) s') \/
  (~ can_join (concat (hs ++ [g])) g i /\ UpdateNode info types edges i s = (s, false)).
Proof.
  intros Hinv Hi. destruct (back_ok hs g s Hinv) as [(_ & Hb & _) Hlen]. unfold UpdateNode.
  destruct (schedulable info i s) eqn:Es; cbn [negb].
  2:{ right. split; [|done]. intros [Hr _]. apply (schedulable_ready _ _ _ Hinv Hi) in Hr. congruence. }
  apply (schedulable_ready _ _ _ Hinv Hi) in Es as Hr. rewrite Hb.
  assert ((if decide (group_type g = kTfUnexplored) then type_of i else group_type g) = type_of i <->
          g = [] \/ type_of i = group_type g) as Hty.
  { destruct g as [|j g]; cbn [group_type]; [rewrite decide_True by done; tauto|].
    rewrite decide_False by apply (i_types Hok). split; [by right|]. by intros [|]. }
  destruct (decide ((if decide (group_type g = kTfUnexplored) then type_of i else group_type g) = type_of i)) as [E|E].
  2:{ right. split; [|done]. intros [_ Hj]. by apply E, Hty. }
  left. apply Hty in E as Hj. split; [by split|]. eexists. split; [done|]. rewrite E, Hlen.
  replace (S (length hs) - 1)%nat with (length hs) by lia.
  pose proof Hinv as [V1 V2 V3 V4 V5 V6 V7 V8 V9 V10 V11]. destruct Hr as (_ & Hnew & Hdeps).
  destruct (epochs_after hs g s i Hinv Hi) as [A1 A2].
  destruct (edges_after _ i _ Hnew V9 V10) as [B1 B2].
  split; cbn [node_subsets tensor_epochs node_epochs num_incoming_control_edges]; rewrite ?concat_snoc; try done.
  - apply note_inputs_keep. replace (length hs) with (length (node_subsets s) - 1)%nat by lia. by apply add_node_keeps.
  - apply NoDup_app. split; [done|]. split; [set_solver|apply NoDup_singleton].
  - apply list.Forall_app. by split; [|repeat constructor].
  - by apply in_order_snoc.
  - unfold set_at. by rewrite length_insert.
  - by apply node_epochs_after.
  - intros Hs. apply borders_step; auto; rewrite concat_snoc. apply NoDup_app. split; [done|]. split; [set_solver|apply NoDup_singleton].
Qed.

(** ** The loops *)

Lemma scan_ok (hs : list (list nat)) (l : list nat) (g : list nat) (did : bool) (s : t) :
  inv (hs ++ [g]) s -> Forall (fun i => i < n)%nat l ->
  exists s' g' did' ret, scan info types greedily edges l did s = (s', did', ret) /\ inv (hs ++ [g ++ g']) s' /\
    did' = did || negb (bool_decide (g' = [])) /\ (ret = true -> did' = true /\ greedily = false) /\
    (did' = false -> forall i, i ∈ l -> ~ can_join (concat (hs ++ [g])) g i).
Proof.
  revert g did s. induction l as [|i l IH]; intros g did s Hinv Hl; cbn [scan].
  - exists s, [], did, false. rewrite app_nil_r. split; [done|]. split; [done|]. cbn. rewrite orb_false_r.
    split; [done|]. split; [done|]. intros _ i Hi. by apply elem_of_nil in Hi.
  - apply list.Forall_cons in Hl as [Hi Hl].
    destruct (UpdateNode_ok hs g s i Hinv Hi) as [(_ & s1 & -> & H1)|[Hno ->]].
    + destruct (IH _ true s1 H1 Hl) as (s' & g' & did' & ret & E & I1 & I2 & I3 & I4).
      exists s', (i :: g'), did', ret. split; [done|]. rewrite <- app_assoc in I1. split; [done|].
      rewrite I2. cbn. rewrite orb_true_r. split; [done|]. split; [by rewrite I2 in I3|done].
    + destruct (did && negb greedily) eqn:Ed.
      * exists s, [], did, true. rewrite app_nil_r. split; [done|]. split; [done|]. cbn. rewrite orb_false_r.
        split; [done|]. apply andb_true_iff in Ed as [-> ?%negb_true_iff]. done.
      * destruct (IH g did s Hinv Hl) as (s' & g' & did' & ret & E & I1 & I2 & I3 & I4).
        exists s', g', did', ret. split; [done|]. split; [done|]. split; [done|]. split; [done|].
        intros Hd j Hj. apply elem_of_cons in Hj as [->|Hj]; [done|by apply I4].
Qed.

(** At most all nodes are scheduled. *)
Lemma scheduled_le (gs : list (list nat)) (s : t) : inv gs s -> (length (concat gs) <= n)%nat.
Proof.
  intros [_ H1 H2 _ _ _ _ _ _ _ _]. rewrite <- (length_seq n 0). apply submseteq_length, NoDup_submseteq; [done|].
  intros i Hi. rewrite list.Forall_forall in H2. apply elem_of_seq. specialize (H2 i Hi). lia.
Qed.

Lemma rounds_ok (fuel : nat) (hs : list (list nat)) (g : list nat) (s : t) :
  inv (hs ++ [g]) s -> (n < fuel + length (concat (hs ++ [g])))%nat ->
  exists s' g', rounds info types greedily edges fuel s = Some s' /\ inv (hs ++ [g']) s' /\
    (g' = [] \/ greedily = true -> forall i, (i < n)%nat -> ~ can_join (concat (hs ++ [g'])) g' i).
Proof.
  revert g s. induction fuel as [|fuel IH]; intros g s Hinv Hf.
  - pose proof (scheduled_le _ _ Hinv). lia.
  - cbn [rounds]. destruct (scan_ok hs (seq 0 n) g false s Hinv) as (s' & g' & did' & ret & -> & I1 & I2 & I3 & I4).
    { apply list.Forall_forall. intros i Hi%elem_of_seq. lia. }
    destruct ret.
    { destruct (I3 eq_refl) as [Hd Hg]. exists s', (g ++ g'). split; [done|]. split; [done|]. rewrite Hg.
      intros [Hnil|]; [|done]. apply app_eq_nil in Hnil as [_ ->]. by rewrite Hd in I2. }
    destruct did'.
    + apply (IH (g ++ g')); [done|]. destruct g' as [|i g']; [done|].
      rewrite !concat_app, !length_app in *. cbn [concat] in *. rewrite !app_nil_r, ?length_app in *. cbn [length]. lia.
    + exists s', (g ++ g'). split; [done|]. split; [done|]. symmetry in I2. apply negb_false_iff, bool_decide_eq_true in I2 as ->.
      rewrite app_nil_r. intros _ i Hi. apply I4; [done|]. apply elem_of_seq. lia.
Qed.

Lemma concat_empty {A} (gs : list (list A)) : concat (gs ++ [[]]) = concat gs.
Proof. rewrite concat_app. cbn. by rewrite !app_nil_r. Qed.

(** Adding or dropping an empty group changes nothing. *)
Lemma epoch_ok_empty (gs : list (list nat)) (x e : Z) : epoch_ok (gs ++ [[]]) x e <-> epoch_ok gs x e.
Proof.
  pose proof (concat_empty gs) as Hc. split; intros [H1 H2 H3]; rewrite ?Hc in *; split; rewrite ?Hc; try done; intros H; destruct (H3 H) as (k & g & K1 & K2 & K3).
  - exists k, g. split; [|done]. apply lookup_app_Some in K1 as [K1|[_ K1]]; [done|].
    apply list_lookup_singleton_Some in K1 as [_ <-]. destruct K2 as (j & Hj & _). by apply elem_of_nil in Hj.
  - exists k, g. split; [by apply lookup_app_l_Some|done].
Qed.

Definition new_subset : NodeSubset := mkSubset kTfUnexplored [] [] [].

Lemma inv_push (gs : list (list nat)) (s : t) : inv gs s -> inv (gs ++ [[]]) (with_subsets s (node_subsets s ++ [new_subset])).
Proof.
  intros [V1 V2 V3 V4 V5 V6 V7 V8 V9 V10 V11]. pose proof (Forall2_length _ _ _ V1) as Hlen.
  split; cbn [with_subsets node_subsets tensor_epochs node_epochs num_incoming_control_edges]; rewrite ?concat_empty; try done.
  - apply Forall2_app; [done|]. constructor; [|constructor]. split; [done|]. split; [done|constructor].
  - intros x Hx. apply epoch_ok_empty. by apply V6.
  - intros Hs k g sub Hk Hsub. rewrite concat_empty. apply lookup_app_Some in Hk as [Hk|[Hk0 Hk]].
    + rewrite lookup_app_l in Hsub by (apply lookup_lt_Some in Hk; lia). by apply (V11 Hs k).
    + apply list_lookup_singleton_Some in Hk as [Hk <-]. rewrite lookup_app_r in Hsub by lia.
      apply list_lookup_singleton_Some in Hsub as [_ <-]. unfold crosses_in, crosses_out, written. split; intros x; cbn; set_solver.
Qed.

Lemma inv_pop (gs : list (list nat)) (s : t) (ss : list NodeSubset) (c : NodeSubset) :
  node_subsets s = ss ++ [c] -> inv (gs ++ [[]]) s -> inv gs (with_subsets s ss).
Proof.
  intros Es [V1 V2 V3 V4 V5 V6 V7 V8 V9 V10 V11]. pose proof (Forall2_length _ _ _ V1) as Hlen.
  rewrite Es, !length_app in Hlen. cbn in Hlen. rewrite concat_empty in *.
  split; cbn [with_subsets node_subsets tensor_epochs node_epochs num_incoming_control_edges]; try done.
  - rewrite Es in V1. apply Forall2_app_inv in V1 as [V1 _]; [done|]. lia.
  - intros x Hx. apply epoch_ok_empty. by apply V6.
  - intros Hs k g sub Hk Hsub. rewrite <- concat_empty. apply (V11 Hs k); [by apply lookup_app_l_Some|].
    rewrite Es. by apply lookup_app_l_Some.
Qed.

Lemma BuildNodeSubset_ok (gs : list (list nat)) (s : t) :
  inv gs s ->
  exists s' g, BuildNodeSubset info types greedily edges s = Some s' /\ inv (gs ++ [g]) s' /\
    (g = [] \/ greedily = true -> forall i, (i < n)%nat -> ~ can_join (concat (gs ++ [g])) g i).
Proof.
  intros Hinv. unfold BuildNodeSubset. apply (rounds_ok _ gs []); [|lia].
  by apply inv_push.
Qed.

(** In greedy mode nothing can be added to a group once it is closed. *)
Definition closed (gs : list (list nat)) : Prop :=
  forall k g, gs !! k = Some g -> forall i, (i < n)%nat -> ~ can_join (concat (take (S k) gs)) g i.

Lemma epochs_ok (fuel : nat) (gs : list (list nat)) (s : t) :
  inv gs s -> Forall (fun g => g <> []) gs -> (greedily = true -> closed gs) -> (n < fuel + length (concat gs))%nat ->
  exists s' gs', epochs info types greedily edges fuel s = Some s' /\ inv gs' s' /\ Forall (fun g => g <> []) gs' /\
    (greedily = true -> closed gs') /\ forall i, ~ ready (concat gs') i.
Proof.
  revert gs s. induction fuel as [|fuel IH]; intros gs s Hinv Hne Hcl Hf; [pose proof (scheduled_le _ _ Hinv); lia|].
  cbn [epochs]. destruct (BuildNodeSubset_ok gs s Hinv) as (s' & g & -> & Hs' & Hg).
  destruct (back_ok gs g s' Hs') as [(Hb & Hbt & _) Hlen]. rewrite Hb. destruct g as [|j g]; cbn [map].
  - exists (with_subsets s' (removelast (node_subsets s'))), gs. split; [done|]. split; [|split; [done|]; split; [done|]].
    + apply (inv_pop gs s' _ (back s')); [|done]. apply app_removelast_last. by destruct (node_subsets s').
    + intros i Hr. rewrite concat_empty in Hg. apply (Hg (or_introl eq_refl) i); [apply Hr|]. split; [done|by left].
  - apply (IH (gs ++ [j :: g])); [done|apply list.Forall_app; by split; [|repeat constructor]| |].
    + intros Hgr k g' Hk. apply lookup_app_Some in Hk as [Hk|[Hk0 Hk]].
      * rewrite take_app_le by (apply lookup_lt_Some in Hk; lia). by apply (Hcl Hgr).
      * apply list_lookup_singleton_Some in Hk as [Hk <-]. rewrite take_ge by (rewrite length_app; cbn; lia).
        apply Hg. by right.
    + rewrite concat_app, length_app. cbn. lia.
Qed.

(** ** The start *)

Lemma fold_outputs (l : list Node) (ep : list Z) :
  Forall (fun nd => Forall (index (length ep)) (n_outputs nd)) l ->
  let ep' := fold_left (fun l nd => fold_left (fun l x => set_at x kEpochNotReady l) (n_outputs nd) l) l ep in
  length ep' = length ep /\
  forall x, 0 <= x -> (Exists (fun nd => x ∈ n_outputs nd) l -> at_ x ep' = kEpochNotReady) /\
                  (~ Exists (fun nd => x ∈ n_outputs nd) l -> at_ x ep' = at_ x ep).
Proof.
  revert ep. induction l as [|nd l IH]; intros ep H; cbn [fold_left].
  - split; [done|]. intros x Hx. split; [|done]. intros He. by inversion He.
  - apply list.Forall_cons in H as [H1 H]. destruct (fold_set kEpochNotReady (n_outputs nd) ep H1) as [F1 F2].
    destruct (IH (fold_left (fun l x => set_at x kEpochNotReady l) (n_outputs nd) ep)) as [I1 I2]; [by rewrite F1|].
    split; [by rewrite I1|]. intros x Hx. destruct (I2 x Hx) as [J1 J2]. rewrite F2 in J2 by done.
    rewrite List.Exists_cons. destruct (decide (Exists (fun nd => x ∈ n_outputs nd) l)) as [He|He].
    + split; [by intros _; apply J1|tauto].
    + rewrite J2 by done. destruct (decide (x ∈ n_outputs nd)); [split; [done|tauto]|split; [tauto|done]].
Qed.

Lemma elem_of_exec (nd : Node) : nd ∈ exec info <-> exists i, (i < n)%nat /\ node i = nd.
Proof.
  rewrite list_elem_of_lookup. unfold num_execution_nodes, Partition.node. split.
  - intros [i Hi]. exists i. split; [by eapply lookup_lt_Some|]. by rewrite nth_lookup, Hi.
  - intros (i & Hi & <-). exists i. destruct (lookup_lt_is_Some_2 _ _ Hi) as [nd Hnd]. by rewrite nth_lookup, Hnd.
Qed.

Lemma start_ok : inv [] (start info edges).
Proof.
  destruct (fold_outputs (exec info) (replicate (num_tensors info) kEpochAlwaysReady)) as [F1 F2].
  { rewrite length_replicate. apply list.Forall_forall. intros nd (i & Hi & <-)%elem_of_exec. by apply i_outputs. }
  rewrite length_replicate in F1. pose proof (i_few Hok). pose proof (i_edges Hok) as He.
  destruct (fold_counts 1 edges (replicate n 0)) as [G1 G2].
  { rewrite length_replicate. refine (list.Forall_impl _ _ _ He _). by intros e []. }
  { intros b _. rewrite count_zeros.
    pose proof (count_bounds (fun e : ControlEdge => e.2 =? b) edges). unfold in_i32. lia. }
  rewrite length_replicate in G1.
  split; cbn [start node_subsets tensor_epochs node_epochs num_incoming_control_edges concat]; try done; try by constructor.
  - intros p k q E. by destruct p.
  - intros x Hx. destruct (F2 x (proj1 Hx)) as [J1 J2].
    assert (computed x <-> Exists (fun nd => x ∈ n_outputs nd) (exec info)) as Hc.
    { rewrite list.Exists_exists. split.
      - intros (j & Hj & Hin). exists (node j). split; [apply elem_of_exec; by exists j|done].
      - intros (nd & (j & Hj & <-)%elem_of_exec & Hin). by exists j. }
    split; rewrite ?Hc; [|by intros Hw _; apply J1|].
    + intros Hn. rewrite J2 by done. unfold at_, kEpochAlwaysReady. rewrite nth_lookup, lookup_replicate_2; [done|].
      destruct Hx. lia.
    + intros (j & Hj & _). by apply elem_of_nil in Hj.
  - by rewrite length_replicate.
  - intros i Hi. split; [intros _; apply not_elem_of_nil|]. intros _. unfold at_. rewrite nth_lookup, lookup_replicate_2; [done|lia].
  - intros i Hi. etransitivity; [apply G2; lia|].
    rewrite count_zeros.
    unfold pending. rewrite Z.mul_1_l. apply count_ext. intros e _. rewrite bool_decide_eq_true_2; [by rewrite andb_true_r|].
    apply not_elem_of_nil.
Qed.
End Invariant.
