(* ===== verification/PartitionRun.v ===== *)
(** * A whole run of the graph partitioner

    [Uniquefy], the types of nodes, completeness of the schedule on acyclic
    graphs, and the outputs of the model. *)

From S2P Require Import Prelude GraphPartition PartitionInv.
Import Partition.

(** ** [Uniquefy] *)

Section Uniquefy.
Context {A : Type} `{EqDecision A} (lt : A -> A -> bool).
Context (lt_trans : forall a b c, lt a b = true -> lt b c = true -> lt a c = true).
Context (lt_total : forall a b, a <> b -> lt a b = true \/ lt b a = true).

Let le (a b : A) : Prop := a = b \/ lt a b = true.

Lemma le_trans (a b c : A) : le a b -> le b c -> le a c.
Proof. intros [->|H1] [->|H2]; [by left|by right|by right|right; by eapply lt_trans]. Qed.

Lemma sort_insert_elem (x y : A) (l : list A) : y ∈ sort_insert lt x l <-> y = x \/ y ∈ l.
Proof.
  induction l as [|z l IH]; cbn; [set_solver|]. destruct (lt z x); [|set_solver]. rewrite !elem_of_cons, IH. tauto.
Qed.

Lemma sort_elem (x : A) (l : list A) : x ∈ sort lt l <-> x ∈ l.
Proof. induction l as [|y l IH]; cbn; [done|]. by rewrite sort_insert_elem, IH, elem_of_cons. Qed.

Lemma sort_insert_sorted (x : A) (l : list A) : StronglySorted le l -> StronglySorted le (sort_insert lt x l).
Proof.
  induction 1 as [|y l Hs IH Hy]; cbn; [by repeat constructor|]. destruct (lt y x) eqn:E.
  - constructor; [done|]. apply list.Forall_forall. intros z Hz. apply sort_insert_elem in Hz as [->|Hz]; [by right|].
    rewrite list.Forall_forall in Hy. by apply Hy.
  - assert (le x y) as Hxy by (destruct (decide (x = y)) as [|Hne]; [by left|]; destruct (lt_total x y Hne); [by right|congruence]).
    constructor; [by constructor|]. constructor; [done|]. refine (list.Forall_impl _ _ _ Hy _). intros z. by apply le_trans.
Qed.

Lemma sort_sorted (l : list A) : StronglySorted le (sort lt l).
Proof. induction l as [|x l IH]; cbn; [constructor|]. by apply sort_insert_sorted. Qed.

Lemma unique_elem (x : A) (l : list A) : x ∈ unique l <-> x ∈ l.
Proof.
  induction l as [|y l IH]; [done|]. cbn [unique]. destruct l as [|z l]; [done|].
  destruct (decide (y = z)) as [->|]; [rewrite IH; set_solver|]. by rewrite !(elem_of_cons _ x), IH, elem_of_cons.
Qed.

Lemma unique_sorted (l : list A) : StronglySorted le l -> StronglySorted (fun a b => lt a b = true) (unique l).
Proof.
  induction 1 as [|x l Hs IH Hx]; cbn [unique]; [constructor|]. destruct l as [|y l]; [by repeat constructor|].
  destruct (decide (x = y)) as [|Hne]; [done|]. constructor; [done|]. apply list.Forall_forall. intros z Hz.
  rewrite unique_elem in Hz. apply list.Forall_cons in Hx as [[|Hxy] _]; [done|].
  apply elem_of_cons in Hz as [->|Hz]; [done|]. apply StronglySorted_inv in Hs as [_ Hy]. rewrite list.Forall_forall in Hy.
  destruct (Hy z Hz) as [<-|]; [done|by eapply lt_trans].
Qed.

(** [Uniquefy] gives the strictly sorted list of the same elements. *)
Lemma Uniquefy_ok (l : list A) :
  StronglySorted (fun a b => lt a b = true) (Uniquefy lt l) /\ forall x, x ∈ Uniquefy lt l <-> x ∈ l.
Proof.
  split; [apply unique_sorted, sort_sorted|]. intros x. unfold Uniquefy. by rewrite unique_elem, sort_elem.
Qed.

Lemma Uniquefy_length (l : list A) : (length (Uniquefy lt l) <= length l)%nat.
Proof.
  assert (forall x k, length (sort_insert lt x k) = S (length k)) as H1.
  { intros x k. induction k as [|y k IH]; cbn; [done|]. destruct (lt y x); cbn; lia. }
  assert (length (sort lt l) = length l) as H2 by (induction l as [|x l IH]; cbn; [done|]; rewrite H1; by f_equal).
  unfold Uniquefy. rewrite <- H2. generalize (sort lt l). intros k. induction k as [|x k IH]; [done|]. cbn [unique].
  destruct k as [|y k]; [done|]. destruct (decide (x = y)); cbn [length] in *; lia.
Qed.
End Uniquefy.

Lemma Uniquefy_edges (l : list ControlEdge) :
  edges_sorted (Uniquefy edge_lt l) /\ forall x, x ∈ Uniquefy edge_lt l <-> x ∈ l.
Proof.
  apply Uniquefy_ok.
  - intros a b c. rewrite !edge_lt_iff. lia.
  - intros [a1 a2] [b1 b2] Hne. rewrite !edge_lt_iff. cbn. destruct (decide (a1 = b1)) as [->|]; [|lia].
    destruct (decide (a2 = b2)) as [->|]; [done|lia].
Qed.

Lemma Uniquefy_Z (l : list Z) :
  StronglySorted (fun a b => (a <? b) = true) (Uniquefy Z.ltb l) /\ forall x, x ∈ Uniquefy Z.ltb l <-> x ∈ l.
Proof. apply Uniquefy_ok; [intros a b c|intros a b]; rewrite !Z.ltb_lt; lia. Qed.

(** ** The types of the nodes *)

Lemma fold_types (ks : list Z) (l : list Type_) (k : Z) :
  Forall (index (length l)) ks -> index (length l) k ->
  nth (Z.to_nat k) (fold_left (fun l i => set_at i kTfPartition l) ks l) kTfNonPartition =
  if decide (k ∈ ks) then kTfPartition else nth (Z.to_nat k) l kTfNonPartition.
Proof.
  revert l. induction ks as [|i ks IH]; intros l Hi Hk; cbn [fold_left]; [by rewrite decide_False by set_solver|].
  apply list.Forall_cons in Hi as [Hi Hks].
  assert (length (set_at i kTfPartition l) = length l) as Hl by (unfold set_at; by rewrite length_insert).
  rewrite IH by (by rewrite Hl). unfold set_at, index in *. destruct (decide (k = i)) as [->|Hne].
  - rewrite (decide_True (P := i ∈ i :: ks)) by set_solver. destruct (decide _); [done|].
    by rewrite nth_lookup, list_lookup_insert_eq by lia.
  - destruct (decide (k ∈ ks)); [by rewrite decide_True by set_solver|]. rewrite decide_False by set_solver.
    by rewrite !nth_lookup, list_lookup_insert_ne by lia.
Qed.

Lemma node_type_ok (info : GraphInfo) (ntp : list Z) (k : Z) :
  Forall (index (num_total_nodes info)) ntp -> index (num_total_nodes info) k ->
  nth (Z.to_nat k) (node_type info ntp) kTfNonPartition = if decide (k ∈ ntp) then kTfPartition else kTfNonPartition.
Proof.
  intros H1 H2. unfold node_type. rewrite fold_types by (by rewrite length_replicate). destruct (decide _); [done|].
  rewrite nth_lookup. destruct (_ !! _) eqn:E; [|done]. by apply lookup_replicate in E as [-> _].
Qed.

Lemma node_type_explored (info : GraphInfo) (ntp : list Z) (k : nat) :
  nth k (node_type info ntp) kTfNonPartition <> kTfUnexplored.
Proof.
  unfold node_type. assert (Forall (fun ty => ty <> kTfUnexplored) (replicate (num_total_nodes info) kTfNonPartition)) as H.
  { apply list.Forall_forall. by intros x [-> _]%elem_of_replicate. }
  revert H. generalize (replicate (num_total_nodes info) kTfNonPartition). induction ntp as [|i l IH]; intros ty H; cbn [fold_left].
  - rewrite nth_lookup. destruct (_ !! _) eqn:E; [|done]. cbn. rewrite list.Forall_lookup in H. by apply (H k).
  - apply IH. unfold set_at. by apply list.Forall_insert.
Qed.

(** ** The outputs of the model *)

Definition same_nodes (a b : NodeSubset) : Prop := type a = type b /\ nodes a = nodes b /\ input_tensors a = input_tensors b.

Lemma mark_outputs_ok (l ep : list Z) (ss : list NodeSubset) :
  (forall x, x ∈ l -> at_ x ep = kEpochAlwaysReady \/ index (length ss) (at_ x ep)) ->
  exists ss', mark_outputs l ep ss = Ok ss' /\ Forall2 same_nodes ss ss' /\
    forall k a b, ss !! k = Some a -> ss' !! k = Some b ->
      forall x, x ∈ output_tensors b <-> x ∈ output_tensors a \/ (x ∈ l /\ at_ x ep = Z.of_nat k).
Proof.
  revert ss. induction l as [|y l IH]; intros ss H; cbn [mark_outputs].
  - exists ss. split; [done|]. split; [by apply Forall_Forall2_diag, list.Forall_forall|]. intros k a b Ha Hb x. rewrite Ha in Hb. injection Hb as <-. set_solver.
  - destruct (Z.eqb_spec (at_ y ep) kEpochAlwaysReady) as [E|E].
    + destruct (IH ss) as (ss' & I1 & I2 & I3); [intros x Hx; apply H; set_solver|]. exists ss'. split; [done|]. split; [done|].
      intros k a b Ha Hb x. rewrite (I3 k a b Ha Hb), elem_of_cons. split; [tauto|].
      intros [|[[->|] ?]]; [tauto| |tauto]. unfold kEpochAlwaysReady in E. lia.
    + destruct (H y) as [|Hy]; [set_solver|done|]. unfold index in Hy.
      rewrite (proj2 (Z.leb_le _ _)), (proj2 (Z.ltb_lt _ _)) by lia. cbn [andb].
      destruct (IH (alter (add_output y) (Z.to_nat (at_ y ep)) ss)) as (ss' & I1 & I2 & I3).
      { intros x Hx. rewrite length_alter. apply H. set_solver. }
      exists ss'. split; [done|]. split.
      { apply Forall2_same_length_lookup_2; [pose proof (Forall2_length _ _ _ I2) as Hl; by rewrite length_alter in Hl|].
        intros k a b Ha Hb. destruct (decide (Z.to_nat (at_ y ep) = k)) as [<-|Hk].
        - eapply Forall2_lookup_lr in I2; [|by rewrite list_lookup_alter_eq, Ha|done]. done.
        - eapply Forall2_lookup_lr in I2; [|by rewrite list_lookup_alter_ne, Ha by done|done]. done. }
      intros k a b Ha Hb x. rewrite elem_of_cons. destruct (decide (Z.to_nat (at_ y ep) = k)) as [Hk|Hk].
      * rewrite (I3 k (add_output y a) b); [|by rewrite <- Hk, list_lookup_alter_eq, Hk, Ha|done].
        cbn. rewrite elem_of_app, list_elem_of_singleton. split; [|intros [|[[->|] ?]]; tauto].
        intros [[| ->]|]; [tauto| |tauto]. right. split; [tauto|lia].
      * rewrite (I3 k a b); [|by rewrite list_lookup_alter_ne, Ha by done|done]. split; [tauto|].
        intros [|[[->|] ?]]; [tauto|lia|tauto].
Qed.

(** ** Requests *)

(** A call with valid indices on a graph whose data and control dependencies
    have no cycle: they all increase [rank]. *)
Record request_ok (rank : nat -> nat) (info : GraphInfo) (ntp : list Z) (edges : list ControlEdge) : Prop := {
  q_inputs : forall i x, reads info i x -> index (num_tensors info) x;
  q_outputs : forall i, (i < num_execution_nodes info)%nat -> Forall (index (num_tensors info)) (n_outputs (node info i));
  q_nodes : forall i, (i < num_execution_nodes info)%nat -> index (num_total_nodes info) (node_index (node info i));
  q_partition : Forall (index (num_total_nodes info)) ntp;
  q_results : Forall (index (num_tensors info)) (outputs info);
  q_edges : Forall (fun e : ControlEdge => index (num_execution_nodes info) e.1 /\ index (num_execution_nodes info) e.2) edges;
  q_few : Z.of_nat (length edges) < 2 ^ 31;
  q_data : forall i x, reads info i x -> computed info x -> exists j, writes info j x /\ (rank j < rank i)%nat;
  q_control : forall a b, (a, b) ∈ edges -> (rank (Z.to_nat a) < rank (Z.to_nat b))%nat
}.

Section Run.
Context (rank : nat -> nat) (info : GraphInfo) (ntp : list Z) (greedily : bool) (control : list ControlEdge).
Context (Hreq : request_ok rank info ntp control).
Abbreviation types := (node_type info ntp).
Abbreviation edges := (Uniquefy edge_lt control).
Abbreviation n := (num_execution_nodes info).

Lemma request_info : info_ok info types edges.
Proof.
  destruct Hreq as [Q1 Q2 Q3 Q4 Q5 Q6 Q7 Q8 Q9]. destruct (Uniquefy_edges control) as [U1 U2]. split; try done.
  - apply list.Forall_forall. intros e He. rewrite list.Forall_forall in Q6. apply Q6. by apply U2.
  - pose proof (Uniquefy_length edge_lt control). lia.
  - intros i. apply node_type_explored.
Qed.

(** The type of a node tells whether it is to be partitioned. *)
Lemma type_of_request (i : nat) :
  (i < n)%nat -> type_of info types i = if decide (node_index (node info i) ∈ ntp) then kTfPartition else kTfNonPartition.
Proof. intros Hi. apply node_type_ok; [apply Hreq|by apply (q_nodes _ _ _ _ Hreq)]. Qed.

(** When no node is ready, all nodes are scheduled. *)
Lemma all_scheduled (d : list nat) : (forall i, ~ ready info edges d i) -> forall i, (i < n)%nat -> i ∈ d.
Proof.
  intros Hn. assert (forall m i, (rank i < m)%nat -> (i < n)%nat -> i ∈ d) as H; [|intros i Hi; by apply (H (S (rank i))); [lia|]].
  induction m as [|m IH]; intros i Hm Hi; [lia|]. destruct (decide (i ∈ d)) as [|Hd]; [done|]. destruct (Hn i).
  split; [done|]. split; [done|]. split.
  - intros x Hr Hc. destruct (q_data _ _ _ _ Hreq i x Hr Hc) as (j & Hw & Hj). exists j. split; [|done]. apply IH; [lia|apply Hw].
  - intros a Ha. apply (proj2 (Uniquefy_edges control)) in Ha. pose proof (q_control _ _ _ _ Hreq _ _ Ha) as Hr.
    pose proof (q_edges _ _ _ _ Hreq) as He. rewrite list.Forall_forall in He. destruct (He _ Ha) as [Ha' _]. cbn in Ha'.
    rewrite Nat2Z.id in Hr. unfold index in Ha'. apply IH; lia.
Qed.

(** ** The result *)

(** What a returned subset is, for its group of nodes [g]. *)
Record described (g : list nat) (sub : NodeSubset) : Prop := {
  d_nodes : nodes sub = map (fun i => node_index (node info i)) g;
  d_type : type sub = group_type info types g;
  d_uniform : Forall (fun i => type_of info types i = group_type info types g) g;
  d_inputs_sorted : StronglySorted (fun a b => (a <? b) = true) (input_tensors sub);
  d_outputs_sorted : StronglySorted (fun a b => (a <? b) = true) (output_tensors sub);
  d_inputs : single info -> forall x, x ∈ input_tensors sub <-> crosses_in info g x;
  d_outputs : single info -> forall x, x ∈ output_tensors sub <->
    written info g x /\ (x ∈ outputs info \/ exists i, (i ∉ g) /\ reads info i x)
}.

(** Marking the outputs and sorting the tensors, after all nodes are scheduled. *)
Lemma finish (gs : list (list nat)) (s : t) :
  epochs info types greedily edges (S n) (start info edges) = Some s -> inv info types edges gs s ->
  (forall i, (i < n)%nat -> i ∈ concat gs) ->
  exists ss, Partition_ info types greedily edges = Ok ss /\ Forall2 described gs ss.
Proof.
  intros He Hinv Hall. pose proof Hinv as [V1 V2 _ _ _ V6 _ _ _ _ V11]. pose proof (Forall2_length _ _ _ V1) as Hlen.
  pose proof (q_results _ _ _ _ Hreq) as Hres. rewrite list.Forall_forall in Hres.
  destruct (mark_outputs_ok (outputs info) (tensor_epochs s) (node_subsets s)) as (ss & Hm & M1 & M2).
  { intros x Hx. destruct (V6 x (Hres x Hx)) as [E1 E2 E3]. destruct (computed_dec info x) as [[j Hj]|Hc]; [right|left; by apply E1].
    destruct E3 as (k & g & K1 & _ & ->); [exists j; split; [apply Hall, Hj|done]|].
    apply lookup_lt_Some in K1. unfold index. lia. }
  exists (map uniquefy_subset ss). split; [unfold Partition_; by rewrite He, Hm|].
  pose proof (Forall2_length _ _ _ M1) as Hlen'.
  apply Forall2_same_length_lookup_2; [rewrite length_map; lia|]. intros k g sub Hg Hsub.
  rewrite list_lookup_fmap in Hsub. destruct (ss !! k) as [b|] eqn:Eb; [|done]. injection Hsub as <-.
  destruct (lookup_lt_is_Some_2 (node_subsets s) k) as [a Ea]; [apply lookup_lt_Some in Eb; lia|].
  destruct (Forall2_lookup_lr _ _ _ _ _ _ M1 Ea Eb) as (T1 & T2 & T3).
  destruct (Forall2_lookup_lr _ _ _ _ _ _ V1 Hg Ea) as (S1 & S2 & S3).
  split; cbn [uniquefy_subset nodes type input_tensors output_tensors]; try done; try congruence; try apply Uniquefy_Z.
  - intros Hs x. rewrite (proj2 (Uniquefy_Z _)), <- T3. by apply (V11 Hs k g a).
  - intros Hs x. rewrite (proj2 (Uniquefy_Z _)), (M2 k a b Ea Eb), (proj2 (V11 Hs k g a Hg Ea)).
    assert (x ∈ outputs info -> at_ x (tensor_epochs s) = Z.of_nat k <-> written info g x) as Hep.
    { intros Hx. apply (epoch_group info gs); try done. by apply V6, Hres. }
    unfold crosses_out. split.
    + intros [(Hw & i & _ & Hi)|[Hx Hk]]; [split; [done|]; right; by exists i|split; [by apply Hep|by left]].
    + intros [Hw [Hx|(i & Hi & Hr)]]; [right; split; [done|by apply Hep]|left; split; [done|]].
      exists i. split; [apply Hall, Hr|done].
Qed.

Lemma all_nodes (gs : list (list nat)) (s : t) :
  inv info types edges gs s -> (forall i, (i < n)%nat -> i ∈ concat gs) -> concat gs ≡ₚ seq 0 n.
Proof.
  intros [_ V2 V3 _ _ _ _ _ _ _ _] Hall. apply NoDup_Permutation; [done|apply NoDup_seq|]. intros i.
  rewrite elem_of_seq. rewrite list.Forall_forall in V3. split; [intros Hi; specialize (V3 i Hi); lia|intros Hi; apply Hall; lia].
Qed.

(** Neighbouring groups of a greedy run have different types. *)
Lemma closed_alternates (gs : list (list nat)) (s : t) (k : nat) (g h : list nat) :
  inv info types edges gs s -> Forall (fun g => g <> []) gs -> closed info types edges gs ->
  gs !! k = Some g -> gs !! S k = Some h -> group_type info types g <> group_type info types h.
Proof.
  intros [_ V2 V3 V4 _ _ _ _ _ _ _] Hne Hcl Hg Hh E. rewrite list.Forall_lookup in Hne. pose proof (Hne _ _ Hh) as Hh0.
  destruct h as [|i h]; [done|]. assert (concat gs = concat (take (S k) gs) ++ i :: (h ++ concat (drop (S (S k)) gs))) as Es.
  { rewrite <- (take_drop (S k) gs) at 1. rewrite concat_app. f_equal. by rewrite (drop_S _ _ _ Hh). }
  assert (i < n)%nat as Hi by (rewrite list.Forall_forall in V3; apply V3; rewrite Es; set_solver).
  apply (Hcl k g Hg i Hi). split; [|right; by rewrite E]. split; [done|]. split.
  - rewrite Es in V2. apply NoDup_app in V2 as (_ & V2 & _). intros Hin. apply (V2 i Hin). set_solver.
  - by apply (V4 _ _ _ Es).
Qed.

Lemma run_complete :
  exists gs s ss, Partition_ info types greedily edges = Ok ss /\ Forall2 described gs ss /\
    inv info types edges gs s /\ concat gs ≡ₚ seq 0 n /\ Forall (fun g => g <> []) gs /\
    (greedily = true -> closed info types edges gs).
Proof.
  pose proof request_info as Hok. destruct (epochs_ok info types greedily edges Hok (S n) [] (start info edges)) as (s & gs & He & Hi & Hne & Hcl & Hr).
  - by apply start_ok.
  - constructor.
  - intros _ k g Hk. done.
  - cbn. lia.
  - pose proof (all_scheduled (concat gs) Hr) as Hall. destruct (finish gs s He Hi Hall) as (ss & Hp & Hd).
    exists gs, s, ss. split; [done|]. split; [done|]. split; [done|]. split; [by eapply all_nodes|done].
Qed.
End Run.
