(* ===== verification/PartitionTheorems.v ===== *)
(** * Theorems on the graph partitioner *)

From S2P Require Import Prelude GraphPartition PartitionInv PartitionRun.
Import Partition.

(** ** The order that keeps the execution plan *)

(** The maximal runs of neighbours on which [f] agrees. *)
Section Runs.
Context {A B : Type} `{EqDecision B} (f : A -> B).

Fixpoint runs (l : list A) : list (list A) :=
  match l with
  | [] => []
  | x :: l' =>
      match runs l' with
      | (y :: g) :: gs => if decide (f x = f y) then (x :: y :: g) :: gs else [x] :: (y :: g) :: gs
      | gs => [x] :: gs
      end
  end.

(** How many elements at the start of a list have the value [b]. *)
Fixpoint prefix_length (b : B) (l : list A) : nat :=
  match l with
  | [] => 0%nat
  | x :: l' => if decide (f x = b) then S (prefix_length b l') else 0%nat
  end.

Lemma runs_head (x : A) (l : list A) : exists g gs, runs (x :: l) = (x :: g) :: gs.
Proof.
  cbn. destruct (runs l) as [|[|y g] gs]; [by eexists _, _|by eexists _, _|]. destruct (decide _); by eexists _, _.
Qed.

Lemma runs_cons (x : A) (l : list A) :
  runs (x :: l) = (x :: take (prefix_length (f x) l) l) :: runs (drop (prefix_length (f x) l) l).
Proof.
  revert x. induction l as [|y l IH]; intros x; [done|].
  cbn [prefix_length]. destruct (decide (f y = f x)) as [E|E].
  - cbn [take drop]. rewrite <- E. specialize (IH y). cbn [runs] in IH |- *. rewrite IH. by rewrite decide_True by done.
  - cbn [take drop]. destruct (runs_head y l) as (g & gs & Hr). cbn [runs] in Hr |- *. rewrite Hr. by rewrite decide_False by congruence.
Qed.

Lemma runs_concat (l : list A) : concat (runs l) = l.
Proof.
  induction l as [|x l IH]; [done|]. cbn [runs]. destruct (runs l) as [|[|y g] gs]; cbn in *; [by rewrite <- IH|by rewrite <- IH|].
  destruct (decide _); cbn; by rewrite <- IH.
Qed.

Lemma runs_nonempty (l : list A) : Forall (fun g => g <> []) (runs l).
Proof.
  induction l as [|x l IH]; cbn [runs]; [constructor|]. destruct (runs l) as [|[|y g] gs]; [by repeat constructor|by constructor|].
  destruct (decide _); [|by constructor]. apply list.Forall_cons in IH as [_ IH]. by constructor.
Qed.
End Runs.

Lemma runs_ext {A B C : Type} `{EqDecision B} `{EqDecision C} (f : A -> B) (g : A -> C) (l : list A) :
  (forall x y, x ∈ l -> y ∈ l -> f x = f y <-> g x = g y) -> runs f l = runs g l.
Proof.
  induction l as [|x l IH]; intros H; [done|]. cbn [runs]. rewrite <- IH by (intros; apply H; set_solver).
  pose proof (runs_concat f l) as Hc. destruct (runs f l) as [|[|y h] gs]; [done|done|].
  assert (f x = f y <-> g x = g y) as E by (apply H; [set_solver|rewrite <- Hc; cbn; set_solver]).
  destruct (decide (f x = f y)), (decide (g x = g y)); tauto.
Qed.

Section InOrder.
Context (info : GraphInfo) (ntp : list Z) (control : list ControlEdge).
Context (Hreq : request_ok (fun i => i) info ntp control).
Abbreviation types := (node_type info ntp).
Abbreviation edges := (Uniquefy edge_lt control).
Abbreviation n := (num_execution_nodes info).
Abbreviation ty := (type_of info types).
Abbreviation inv := (inv info types edges).

(** When the first [m] nodes are scheduled, the next one is ready and no earlier one is. *)
Lemma next_ready (m : nat) : (m < n)%nat -> ready info edges (seq 0 m) m.
Proof.
  intros Hm. split; [done|]. split; [rewrite elem_of_seq; lia|]. split.
  - intros x Hr Hc. destruct (q_data _ _ _ _ Hreq m x Hr Hc) as (j & Hw & Hj). exists j. split; [apply elem_of_seq; lia|done].
  - intros a Ha. apply (proj2 (Uniquefy_edges control)) in Ha. pose proof (q_control _ _ _ _ Hreq _ _ Ha) as Hr. cbn in Hr.
    rewrite Nat2Z.id in Hr. apply elem_of_seq. lia.
Qed.

(** The scan adds the nodes of the same type and stops at the first other one. *)
Lemma scan_run (k len : nat) (hs : list (list nat)) (g : list nat) (s : t) :
  inv (hs ++ [g]) s -> concat (hs ++ [g]) = seq 0 k -> (k + len = n)%nat -> g <> [] ->
  let j := prefix_length ty (group_type info types g) (seq k len) in
  exists s', scan info types false edges (seq k len) true s = (s', true, negb (bool_decide (j = len))) /\
    inv (hs ++ [g ++ take j (seq k len)]) s'.
Proof.
  revert k g s. induction len as [|len IH]; intros k g s Hinv Hc Hk Hg j.
  - exists s. unfold j. cbn. by rewrite app_nil_r.
  - unfold j. cbn [seq scan prefix_length].
    destruct (UpdateNode_ok info types edges (request_info _ _ _ _ Hreq) hs g s k Hinv) as [([_ Hj] & s1 & -> & H1)|[Hj ->]]; [lia| |].
    + destruct Hj as [|Hj]; [done|]. rewrite decide_True by done.
      assert (group_type info types (g ++ [k]) = group_type info types g) as Ht by (by destruct g).
      destruct (IH (S k) (g ++ [k]) s1 H1) as (s' & Hs & Hi); [rewrite concat_snoc, Hc; by rewrite seq_S|lia|by destruct g|].
      rewrite Ht, <- app_assoc in *. exists s'. split; [|done]. rewrite Hs. do 2 f_equal. apply bool_decide_ext. lia.
    + cbn [negb andb]. destruct (decide (ty k = group_type info types g)) as [E|E].
      { destruct Hj. rewrite Hc. split; [apply next_ready; lia|by right]. }
      exists s. rewrite app_nil_r. split; [done|done].
Qed.

(** Nodes that are scheduled are passed over. *)
Lemma scan_skip (l r : list nat) (hs : list (list nat)) (g : list nat) (s : t) :
  inv (hs ++ [g]) s -> Forall (fun i => i < n)%nat l -> Forall (fun i => ~ can_join info types edges (concat (hs ++ [g])) g i) l ->
  scan info types false edges (l ++ r) false s = scan info types false edges r false s.
Proof.
  intros Hinv. induction 1 as [|i l Hi Hl IH]; intros Hn; [done|]. apply list.Forall_cons in Hn as [Hi' Hn]. cbn [app scan].
  destruct (UpdateNode_ok info types edges (request_info _ _ _ _ Hreq) hs g s i Hinv Hi) as [[? _]|[_ ->]]; [done|]. by apply IH.
Qed.

Lemma not_join_scheduled (d g : list nat) (l : list nat) :
  Forall (fun i => i ∈ d) l -> Forall (fun i => ~ can_join info types edges d g i) l.
Proof. intros H. refine (list.Forall_impl _ _ _ H _). by intros i Hi [(_ & Hn & _) _]. Qed.

(** When all nodes are scheduled a scan does nothing. *)
Lemma scan_done (hs : list (list nat)) (g : list nat) (s : t) :
  inv (hs ++ [g]) s -> concat (hs ++ [g]) = seq 0 n ->
  scan info types false edges (seq 0 n) false s = (s, false, false).
Proof.
  intros Hinv Hc. rewrite <- (app_nil_r (seq 0 n)) at 1. rewrite (scan_skip _ _ hs g); try done.
  - apply list.Forall_forall. intros i Hi%elem_of_seq. lia.
  - apply not_join_scheduled. rewrite Hc. by apply list.Forall_forall.
Qed.

(** One epoch takes the next run. *)
Lemma Build_run (gs : list (list nat)) (s : t) (m : nat) :
  inv gs s -> concat gs = seq 0 m -> (m <= n)%nat ->
  exists s', BuildNodeSubset info types false edges s = Some s' /\
    inv (gs ++ [match seq m (n - m) with [] => [] | i :: l => i :: take (prefix_length ty (ty i) l) l end]) s'.
Proof.
  intros Hinv Hc Hm. pose proof (inv_push info types edges (request_info _ _ _ _ Hreq) gs s Hinv) as H0. unfold BuildNodeSubset.
  change (mkSubset kTfUnexplored [] [] []) with new_subset. set (s0 := with_subsets s (node_subsets s ++ [new_subset])) in *.
  assert (concat (gs ++ [[]]) = seq 0 m) as Hc0 by (by rewrite concat_empty). cbn [rounds].
  destruct (decide (m = n)) as [->|Hne].
  { rewrite (scan_done gs [] s0 H0 Hc0), Nat.sub_diag. by exists s0. }
  assert (exists s', scan info types false edges (seq 0 n) false s0 =
      (s', true, negb (bool_decide (prefix_length ty (ty m) (seq (S m) (n - S m)) = (n - S m)%nat))) /\
      inv (gs ++ [m :: take (prefix_length ty (ty m) (seq (S m) (n - S m))) (seq (S m) (n - S m))]) s') as (s' & Hs & Hi).
  { replace (seq 0 n) with (seq 0 m ++ seq m (n - m)) by (rewrite <- seq_app; f_equal; lia).
    rewrite (scan_skip _ _ gs [] s0 H0);
      [|apply list.Forall_forall; intros i Hi%elem_of_seq; lia|apply not_join_scheduled; rewrite Hc0; by apply list.Forall_forall].
    replace (n - m)%nat with (S (n - S m)) by lia. cbn [seq scan].
    destruct (UpdateNode_ok info types edges (request_info _ _ _ _ Hreq) gs [] s0 m H0) as [(_ & s1 & -> & H1)|[Hj _]]; [lia| |].
    2:{ destruct Hj. rewrite Hc0. split; [apply next_ready; lia|by left]. }
    apply (scan_run (S m) (n - S m) gs [m] s1 H1); [|lia|done]. rewrite (concat_snoc gs [] m : concat (gs ++ [[m]]) = _), Hc0. by rewrite seq_S. }
  replace (n - m)%nat with (S (n - S m)) by lia. cbn [seq]. exists s'. rewrite Hs. split; [|done].
  destruct (bool_decide_reflect (prefix_length ty (ty m) (seq (S m) (n - S m)) = (n - S m)%nat)) as [E|E]; cbn [negb]; [|done].
  destruct n as [|n'] eqn:En; [lia|]. cbn [rounds]. rewrite <- En in *. rewrite (scan_done gs _ s' Hi); [done|].
  rewrite E, take_ge by (rewrite length_seq; lia). rewrite concat_app, Hc. cbn [concat]. rewrite app_nil_r.
  change (m :: seq (S m) (n - S m)) with (seq m (S (n - S m))). rewrite <- seq_app. f_equal. lia.
Qed.

Lemma epochs_runs (fuel : nat) (gs : list (list nat)) (s : t) (m : nat) :
  inv gs s -> concat gs = seq 0 m -> (m <= n)%nat -> (n < fuel + m)%nat ->
  exists s', epochs info types false edges fuel s = Some s' /\ inv (gs ++ runs ty (seq m (n - m))) s'.
Proof.
  revert gs s m. induction fuel as [|fuel IH]; intros gs s m Hinv Hc Hm Hf; [lia|]. cbn [epochs].
  destruct (Build_run gs s m Hinv Hc Hm) as (s' & -> & Hi). destruct (back_ok _ _ _ _ _ _ Hi) as [(Hb & _ & _) _]. rewrite Hb.
  destruct (decide (m = n)) as [->|Hne].
  - rewrite Nat.sub_diag in *. cbn [seq map runs] in *. eexists. split; [done|]. rewrite app_nil_r.
    refine (inv_pop _ _ _ gs s' _ (back s') _ Hi). apply app_removelast_last.
    pose proof (back_ok _ _ _ _ _ _ Hi) as [_ Hl]. by destruct (node_subsets s').
  - replace (n - m)%nat with (S (n - S m)) in * by lia. cbn [seq map] in *. rewrite runs_cons.
    set (l := seq (S m) (n - S m)) in *. set (p := prefix_length ty (ty m) l) in *.
    assert (p <= length l)%nat as Hp.
    { unfold p. clear. induction l as [|x l IH]; cbn [prefix_length length]; [lia|]. destruct (decide _); lia. }
    unfold l in Hp. rewrite length_seq in Hp.
    assert (take p l = seq (S m) p) as Htake by (unfold l; rewrite take_seq; f_equal; lia).
    assert (drop p l = seq (m + S p) (n - (m + S p))) as Hdrop by (unfold l; rewrite drop_seq; f_equal; lia).
    destruct (IH (gs ++ [m :: take p l]) s' (m + S p)%nat Hi) as (s2 & Hs2 & Hi2).
    + rewrite concat_app, Hc, Htake. cbn [concat]. rewrite app_nil_r. change (m :: seq (S m) p) with (seq m (S p)).
      rewrite <- seq_app. done.
    + lia.
    + lia.
    + exists s2. split; [done|]. rewrite Hdrop. by rewrite <- app_assoc in Hi2.
Qed.
End InOrder.

(** ** Theorems *)

Section Statements.
Context (info : GraphInfo) (ntp : list Z).

(** The nodes in execution order, group by group; the groups are the returned subsets. *)
Definition are_groups (gs : list (list nat)) (ss : list NodeSubset) : Prop :=
  Forall2 (fun g sub => nodes sub = map (fun i => node_index (node info i)) g) gs ss.

(** A subset is not empty and its type tells whether its nodes are to be partitioned. *)
Definition right_type (g : list nat) (sub : NodeSubset) : Prop :=
  g <> [] /\ type sub <> kTfUnexplored /\
  Forall (fun i => type sub = kTfPartition <-> node_index (node info i) ∈ ntp) g.
End Statements.

Lemma described_type (rank : nat -> nat) (info : GraphInfo) (ntp : list Z) (control : list ControlEdge) (g : list nat) (sub : NodeSubset) :
  request_ok rank info ntp control -> described info ntp g sub -> g <> [] ->
  Forall (fun i => i < num_execution_nodes info)%nat g -> right_type info ntp g sub.
Proof.
  intros Hreq [_ Ht Hu _ _ _ _] Hg Hr. split; [done|]. rewrite Ht. split.
  - destruct g; [done|]. apply node_type_explored.
  - apply list.Forall_forall. intros i Hi. rewrite list.Forall_forall in Hu, Hr. rewrite <- (Hu i Hi).
    rewrite (type_of_request rank info ntp control Hreq) by (by apply Hr). by destruct (decide _).
Qed.

Lemma groups_typed (rank : nat -> nat) (info : GraphInfo) (ntp : list Z) (control : list ControlEdge) (gs : list (list nat))
    (s : t) (ss : list NodeSubset) :
  request_ok rank info ntp control -> inv info (node_type info ntp) (Uniquefy edge_lt control) gs s ->
  Forall2 (described info ntp) gs ss -> Forall (fun g => g <> []) gs -> Forall2 (right_type info ntp) gs ss.
Proof.
  intros Hreq Hi Hd Hne. apply Forall2_same_length_lookup_2; [by eapply Forall2_length|]. intros k g sub Hg Hsub.
  apply (described_type rank info ntp _ g sub Hreq); [by eapply Forall2_lookup_lr| |].
  - rewrite list.Forall_lookup in Hne. by eapply Hne.
  - apply list.Forall_forall. intros i Hin. pose proof (v_range _ _ _ _ _ Hi) as Hr. rewrite list.Forall_forall in Hr.
    apply Hr. apply list_elem_of_In, in_concat. exists g. split; apply list_elem_of_In; [by eapply list_elem_of_lookup_2|done].
Qed.

Lemma deps_in_edges (info : GraphInfo) (control : list ControlEdge) (d : list nat) (k : nat) :
  deps_in info (Uniquefy edge_lt control) d k <-> deps_in info control d k.
Proof. unfold deps_in. pose proof (proj2 (Uniquefy_edges control)) as H. split; intros [H1 H2]; (split; [done|]); intros a Ha; by apply H2, H. Qed.

(** C13: on an acyclic graph with valid indices the partitioner returns, every
    node is in exactly one subset, a node comes after nodes that write its
    inputs and after the nodes its control edges start from, every subset has
    one type, which says whether its nodes are to be partitioned, and in
    greedy mode neighbouring subsets have different types. *)
Theorem partition_schedules (rank : nat -> nat) (info : GraphInfo) (ntp : list Z) (greedily : bool)
    (control : option (list ControlEdge)) :
  request_ok rank info ntp (edges_of info greedily control) ->
  exists gs ss, PartitionGraphIntoIndependentNodeSubsets info ntp greedily control = Ok ss /\
    are_groups info gs ss /\ concat gs ≡ₚ seq 0 (num_execution_nodes info) /\
    (forall p k q, concat gs = p ++ k :: q -> deps_in info (edges_of info greedily control) p k) /\
    Forall2 (right_type info ntp) gs ss /\
    (greedily = true -> forall k a b, ss !! k = Some a -> ss !! S k = Some b -> type a <> type b).
Proof.
  intros Hreq. destruct (run_complete rank info ntp greedily _ Hreq) as (gs & s & ss & Hp & Hd & Hi & Hc & Hne & Hcl).
  exists gs, ss. split; [done|]. split; [refine (Forall2_impl _ _ _ _ Hd _); by intros g sub []|]. split; [done|].
  split; [intros p k q E; by apply deps_in_edges, (v_order _ _ _ _ _ Hi p k q E)|]. split.
  - by apply (groups_typed rank info ntp _ gs s ss Hreq Hi Hd).
  - intros Hgr k a b Ha Hb. destruct (Forall2_lookup_r _ _ _ _ _ Hd Ha) as (g & Hg & [_ -> _ _ _ _ _]).
    destruct (Forall2_lookup_r _ _ _ _ _ Hd Hb) as (h & Hh & [_ -> _ _ _ _ _]).
    by apply (closed_alternates rank info ntp _ Hreq gs s k g h Hi Hne (Hcl Hgr)).
Qed.

(** When no tensor is written twice, the input tensors of a subset are
    exactly those its nodes read and do not write, and its output tensors are
    those it writes that are outputs of the model or are read by nodes of
    other subsets; both lists are sorted and free of duplicates. *)
Theorem partition_borders (rank : nat -> nat) (info : GraphInfo) (ntp : list Z) (greedily : bool)
    (control : option (list ControlEdge)) :
  request_ok rank info ntp (edges_of info greedily control) -> single info ->
  exists gs ss, PartitionGraphIntoIndependentNodeSubsets info ntp greedily control = Ok ss /\
    are_groups info gs ss /\ concat gs ≡ₚ seq 0 (num_execution_nodes info) /\
    Forall2 (fun g sub =>
      StronglySorted (fun a b => (a <? b) = true) (input_tensors sub) /\
      StronglySorted (fun a b => (a <? b) = true) (output_tensors sub) /\
      (forall x, x ∈ input_tensors sub <-> (exists i, i ∈ g /\ reads info i x) /\ ~ written info g x) /\
      (forall x, x ∈ output_tensors sub <->
         written info g x /\ (x ∈ outputs info \/ exists i, (i ∉ g) /\ reads info i x))) gs ss.
Proof.
  intros Hreq Hs. destruct (run_complete rank info ntp greedily _ Hreq) as (gs & s & ss & Hp & Hd & Hi & Hc & Hne & Hcl).
  exists gs, ss. split; [done|]. split; [refine (Forall2_impl _ _ _ _ Hd _); by intros g sub []|]. split; [done|].
  refine (Forall2_impl _ _ _ _ Hd _). intros g sub [_ _ _ D1 D2 D3 D4]. auto.
Qed.

(** Without the greedy mode the subsets are the maximal runs of nodes of
    one kind in the execution plan, in its order. *)
Theorem partition_keeps_order (info : GraphInfo) (ntp : list Z) (control : option (list ControlEdge)) :
  request_ok (fun i => i) info ntp (edges_of info false control) ->
  let kind i := bool_decide (node_index (node info i) ∈ ntp) in
  let gs := runs kind (seq 0 (num_execution_nodes info)) in
  exists ss, PartitionGraphIntoIndependentNodeSubsets info ntp false control = Ok ss /\
    are_groups info gs ss /\ Forall2 (right_type info ntp) gs ss /\
    concat gs = seq 0 (num_execution_nodes info).
Proof.
  intros Hreq kind gs. pose proof (request_info _ _ _ _ Hreq) as Hok. set (n := num_execution_nodes info) in *.
  assert (runs (type_of info (node_type info ntp)) (seq 0 n) = gs) as Hgs.
  { apply runs_ext. intros i j Hi%elem_of_seq Hj%elem_of_seq. unfold kind.
    rewrite !(type_of_request _ _ _ _ Hreq) by (fold n; lia).
    do 2 case_bool_decide; repeat ((rewrite decide_True by done) || (rewrite decide_False by done)); split; intros ?; congruence. }
  destruct (epochs_runs info ntp _ Hreq (S n) [] (start info (Uniquefy edge_lt (edges_of info false control))) 0) as (s & He & Hi);
    [by apply start_ok|done|lia|lia|]. fold n in Hi. rewrite Nat.sub_0_r, Hgs in Hi. cbn [app] in Hi.
  assert (concat gs = seq 0 n) as Hc by apply runs_concat.
  destruct (finish _ info ntp false _ Hreq gs s He Hi) as (ss & Hp & Hd); [intros i Hin; rewrite Hc; apply elem_of_seq; lia|].
  exists ss. split; [done|]. split; [refine (Forall2_impl _ _ _ _ Hd _); by intros g sub []|]. split; [|done].
  by apply (groups_typed _ _ _ _ gs s ss Hreq Hi Hd), runs_nonempty.
Qed.

(** ** Nodes with side effects *)

Definition has_side_effect (info : GraphInfo) (i : nat) : Prop :=
  (i < num_execution_nodes info)%nat /\ might_have_side_effect (node info i) = true.

(** The chain has an edge into every such node from the one before it. *)
Lemma chain_edges (l : list Node) (last i : Z) :
  0 <= i -> forall j nd, l !! j = Some nd -> might_have_side_effect nd = true ->
  (last <> -1 \/ exists k nd', (k < j)%nat /\ l !! k = Some nd' /\ might_have_side_effect nd' = true) ->
  ((forall k nd', (k < j)%nat -> l !! k = Some nd' -> might_have_side_effect nd' = false) /\
   (last, i + Z.of_nat j) ∈ side_effect_chain last i l) \/
  exists c nd', (c < j)%nat /\ l !! c = Some nd' /\ might_have_side_effect nd' = true /\
    (forall k nd', (c < k < j)%nat -> l !! k = Some nd' -> might_have_side_effect nd' = false) /\
    (i + Z.of_nat c, i + Z.of_nat j) ∈ side_effect_chain last i l.
Proof.
  revert last i. induction l as [|x l IH]; intros last i Hi j nd Hj Hs Hlast; [done|]. cbn [side_effect_chain].
  destruct j as [|j]; cbn in Hj.
  - injection Hj as ->. rewrite Hs. left. split; [intros; lia|]. destruct Hlast as [Hl|(k & _ & ? & _)]; [|lia].
    rewrite (proj2 (Z.eqb_neq _ _)) by done. cbn. rewrite Z.add_0_r. set_solver.
  - destruct (might_have_side_effect x) eqn:Ex.
    + right. destruct (IH i (i + 1) ltac:(lia) j nd Hj Hs) as [[H1 H2]|(c & nd' & C1 & C2 & C3 & C4 & C5)]; [left; lia| |].
      * exists 0%nat, x. split; [lia|]. split; [done|]. split; [done|]. split.
        { intros [|k] nd' Hk; [lia|]. cbn. intros Hl. apply (H1 k nd'); [lia|done]. }
        apply elem_of_app. right. replace (i + Z.of_nat 0) with i by lia. by replace (i + Z.of_nat (S j)) with (i + 1 + Z.of_nat j) by lia.
      * exists (S c), nd'. split; [lia|]. split; [done|]. split; [done|]. split.
        { intros [|k] nd1 Hk; [lia|]. cbn. intros Hl. apply (C4 k nd1); [lia|done]. }
        apply elem_of_app. right. by replace (i + Z.of_nat (S c)) with (i + 1 + Z.of_nat c) by lia; replace (i + Z.of_nat (S j)) with (i + 1 + Z.of_nat j) by lia.
    + destruct (IH last (i + 1) ltac:(lia) j nd Hj Hs) as [[H1 H2]|(c & nd' & C1 & C2 & C3 & C4 & C5)].
      * destruct Hlast as [|(k & nd' & K1 & K2 & K3)]; [by left|right]. destruct k as [|k]; cbn in K2; [congruence|].
        exists k, nd'. split; [lia|done].
      * left. split; [|by replace (i + Z.of_nat (S j)) with (i + 1 + Z.of_nat j) by lia].
        intros [|k] nd' Hk; cbn; [intros [= <-]; done|]. intros Hl. apply (H1 k nd'); [lia|done].
      * right. exists (S c), nd'. split; [lia|]. split; [done|]. split; [done|]. split.
        { intros [|k] nd1 Hk; [lia|]. cbn. intros Hl. apply (C4 k nd1); [lia|done]. }
        by replace (i + Z.of_nat (S c)) with (i + 1 + Z.of_nat c) by lia; replace (i + Z.of_nat (S j)) with (i + 1 + Z.of_nat j) by lia.
Qed.

Lemma chain_previous (info : GraphInfo) (a b : nat) :
  has_side_effect info a -> has_side_effect info b -> (a < b)%nat ->
  exists c, (a <= c < b)%nat /\ has_side_effect info c /\ (Z.of_nat c, Z.of_nat b) ∈ side_effect_chain (-1) 0 (exec info).
Proof.
  assert (forall i, has_side_effect info i -> exists nd, exec info !! i = Some nd /\ might_have_side_effect nd = true) as Hlook.
  { intros i [Hi Hs]. destruct (lookup_lt_is_Some_2 _ _ Hi) as [nd Hnd]. exists nd. split; [done|].
    unfold node in Hs. by rewrite nth_lookup, Hnd in Hs. }
  intros Ha Hb Hab. destruct (Hlook a Ha) as (na & A1 & A2). destruct (Hlook b Hb) as (nb & B1 & B2).
  destruct (chain_edges (exec info) (-1) 0 ltac:(lia) b nb B1 B2) as [[H _]|(c & nc & C1 & C2 & C3 & C4 & C5)].
  - right. by exists a, na.
  - rewrite (H a na Hab A1) in A2. done.
  - exists c. split; [|split; [|by rewrite !Z.add_0_l in C5]].
    + destruct (decide (a <= c)%nat); [lia|]. rewrite (C4 a na) in A2; [done|lia|done].
    + split; [by eapply lookup_lt_Some|]. unfold node. by rewrite nth_lookup, C2.
Qed.

(** without control edges of the caller, the greedy mode keeps the order of
    the nodes that might have side effects. *)
Theorem partition_keeps_side_effects (rank : nat -> nat) (info : GraphInfo) (ntp : list Z) :
  request_ok rank info ntp (edges_of info true None) ->
  exists gs ss, PartitionGraphIntoIndependentNodeSubsets info ntp true None = Ok ss /\
    are_groups info gs ss /\ concat gs ≡ₚ seq 0 (num_execution_nodes info) /\
    forall a b, has_side_effect info a -> has_side_effect info b -> (a < b)%nat ->
      exists p q, concat gs = p ++ b :: q /\ a ∈ p.
Proof.
  intros Hreq. destruct (run_complete rank info ntp true _ Hreq) as (gs & s & ss & Hp & Hd & Hi & Hc & _).
  exists gs, ss. split; [done|]. split; [refine (Forall2_impl _ _ _ _ Hd _); by intros g sub []|]. split; [done|].
  assert (forall p b q, concat gs = p ++ b :: q -> deps_in info (edges_of info true None) p b) as Hdeps
    by (intros p k q E; by apply deps_in_edges, (v_order _ _ _ _ _ Hi p k q E)).
  assert (forall m a b p q, (b < m)%nat -> has_side_effect info a -> has_side_effect info b -> (a < b)%nat ->
    concat gs = p ++ b :: q -> a ∈ p) as H.
  { induction m as [|m IH]; intros a b p q Hm Ha Hb Hab E; [lia|].
    destruct (chain_previous info a b Ha Hb Hab) as (c & Hac & Hsc & Hedge).
    apply (proj2 (Hdeps p b q E)) in Hedge. rewrite Nat2Z.id in Hedge. destruct (decide (a = c)) as [->|Hne]; [done|].
    apply list_elem_of_split in Hedge as (p1 & p2 & ->). apply elem_of_app. left.
    apply (IH a c p1 (p2 ++ b :: q)); [lia|done|done|lia|]. by rewrite <- app_assoc in E. }
  intros a b Ha Hb Hab. assert (b ∈ concat gs) as Hin by (rewrite Hc; apply elem_of_seq; destruct Hb; lia).
  apply list_elem_of_split in Hin as (p & q & E). exists p, q. split; [done|]. by apply (H (S b) a b p q); [lia|..].
Qed.

(** ** Witnesses *)

Lemma doc_reads (i : nat) (x : Z) : reads doc_graph i x -> 0 <= x <= 5 /\ x <= Z.of_nat i.
Proof.
  intros (Hi & Hx & Hne). cbn in Hi. do 6 (destruct i as [|i]; [cbn in Hx; set_solver by lia|]). lia.
Qed.

Lemma doc_writes (i : nat) (x : Z) : writes doc_graph i x <-> (i < 6)%nat /\ x = Z.of_nat i + 1.
Proof.
  unfold writes. change (num_execution_nodes doc_graph) with 6%nat.
  do 6 (destruct i as [|i]; [cbn; rewrite list_elem_of_singleton; lia|]). lia.
Qed.

Lemma doc_request (edges : list ControlEdge) : edges = [] \/ edges = [(3, 4)] -> request_ok (fun i => i) doc_graph [2; 3] edges.
Proof.
  intros He. split.
  - intros i x Hr%doc_reads. unfold index. cbn. lia.
  - intros i Hi. apply list.Forall_forall. intros x Hx. destruct (proj1 (doc_writes i x)) as [H1 ->]; [done|]. unfold index. cbn. lia.
  - intros i Hi. cbn in Hi. do 6 (destruct i as [|i]; [cbn; unfold index; lia|]). lia.
  - repeat (apply List.Forall_cons || apply List.Forall_nil); unfold index; cbn; lia.
  - repeat (apply List.Forall_cons || apply List.Forall_nil); unfold index; cbn; lia.
  - destruct He as [->| ->]; repeat (apply List.Forall_cons || apply List.Forall_nil); unfold index; cbn; lia.
  - destruct He as [->| ->]; cbn [length]; lia.
  - intros i x Hr [j Hj%doc_writes]. apply doc_reads in Hr. exists j. split; [by apply doc_writes|lia].
  - intros a b Hab. destruct He as [->| ->]; [set_solver|]. apply list_elem_of_singleton in Hab. injection Hab as -> ->. lia.
Qed.

Lemma doc_single : single doc_graph.
Proof. intros i j x [_ Hi]%doc_writes [_ Hj]%doc_writes. lia. Qed.

Lemma partition_schedules_witness :
  exists gs ss, PartitionGraphIntoIndependentNodeSubsets doc_graph [2; 3] true (Some [(3, 4)]) = Ok ss /\
    are_groups doc_graph gs ss /\ concat gs ≡ₚ seq 0 6.
Proof.
  destruct (partition_schedules (fun i => i) doc_graph [2; 3] true (Some [(3, 4)])) as (gs & ss & H1 & H2 & H3 & _).
  - apply doc_request. by right.
  - exists gs, ss. split; [exact H1|]. split; [exact H2|exact H3].
Defined.

Lemma partition_borders_witness :
  exists ss, PartitionGraphIntoIndependentNodeSubsets doc_graph [2; 3] true (Some []) = Ok ss /\
    Forall (fun sub => StronglySorted (fun a b => (a <? b) = true) (input_tensors sub)) ss.
Proof.
  destruct (partition_borders (fun i => i) doc_graph [2; 3] true (Some [])) as (gs & ss & H1 & H2 & H3 & H4).
  - apply doc_request. by left.
  - apply doc_single.
  - exists ss. split; [exact H1|]. eapply Forall2_Forall_r; [exact H4|]. apply list.Forall_forall. by intros g _ sub (? & _).
Defined.

Lemma partition_keeps_order_witness :
  exists ss, PartitionGraphIntoIndependentNodeSubsets doc_graph [2; 3] false None = Ok ss /\ map nodes ss = [[0; 1]; [2; 3]; [4; 5]].
Proof.
  destruct (partition_keeps_order doc_graph [2; 3] None) as (ss & H1 & H2 & _).
  - apply doc_request. by left.
  - exists ss. split; [exact H1|]. vm_compute in H1. by injection H1 as <-.
Defined.

Lemma partition_keeps_side_effects_witness :
  exists gs ss, PartitionGraphIntoIndependentNodeSubsets doc_graph [2; 3] true None = Ok ss /\ are_groups doc_graph gs ss /\
    exists p q, concat gs = p ++ 4%nat :: q /\ 3%nat ∈ p.
Proof.
  destruct (partition_keeps_side_effects (fun i => i) doc_graph [2; 3]) as (gs & ss & H1 & H2 & _ & H3).
  - apply doc_request. by right.
  - exists gs, ss. split; [exact H1|]. split; [exact H2|]. apply H3; [split; [cbn; lia|reflexivity]|split; [cbn; lia|reflexivity]|lia].
Defined.
