(* ===== verification/BCast.v ===== *)
(** * Broadcasting ([core/util/bcast.{h,cc}])

    [BCastList<N>] computes, for the shapes of [N] operands, the shape of the
    result of a broadcast operation and the vectors with which its callers
    reshape and repeat the operands.  The [N] operands are a list. *)

From S2P Require Import Prelude TensorShape.

Module BCast.

Abbreviation Vec := (list Z).

(** The members of [BCastList] *)
Record t := mkBCast {
  valid : bool;
  broadcasting_required : bool;
  reshape : list Vec;
  bcast : list Vec;
  result : Vec;
  output : Vec;
  grad_reduce_idx : list Vec;
  output_batch_size : Z;
  batch_indices : list (list Z)
}.

(** The lambda [mul_dims] *)
Definition mul_dims (dim1 dim2 : Z) : Z :=
  if negb (dim1 =? 0) && negb (dim2 =? 0) && ((dim1 <? 0) || (dim2 <? 0)) then -1 else wrap_i64 (dim1 * dim2).

(** [ComputeBatchIndices] *)
Section ComputeBatchIndices.

(** The loop that fills [count] entries from [k] on. *)
Fixpoint replicate_mapping (num_output_elements incr : Z) (count : nat) (k : Z) (out_indices : list Z) : list Z :=
  match count with
  | O => out_indices
  | S c =>
      replicate_mapping num_output_elements incr c (k + 1)
        (<[Z.to_nat (num_output_elements + k) := wrap_i64 (nth (Z.to_nat k) out_indices 0 + incr)]> out_indices)
  end.

(** The loop over the dimensions, from the last one on. *)
Fixpoint batch_loop (dims : list (Z * Z)) (num_output_elements num_input_elements : Z) (out_indices : list Z) : list Z :=
  match dims with
  | [] => out_indices
  | (r, b) :: dims' =>
      let dim := Z.max r b in
      let incr := if 1 <? b then 0 else num_input_elements in
      batch_loop dims' (wrap_i64 (num_output_elements * dim)) (wrap_i64 (num_input_elements * r))
        (replicate_mapping num_output_elements incr (Z.to_nat (wrap_i64 ((dim - 1) * num_output_elements))) 0 out_indices)
  end.

Definition ComputeBatchIndices (output_batch_size : Z) (reshape bcast : Vec) : list Z :=
  batch_loop (zip (rev reshape) (rev bcast)) 1 1 (replicate (Z.to_nat output_batch_size) 0).
End ComputeBatchIndices.

(** ** The loop over the dimensions *)

(** Its variables; the vectors are in the order in which they are filled. *)
Record Loop := mkLoop {
  l_output : Vec;
  l_batch : Z;
  l_result : Vec;
  l_reshape : list Vec;
  l_bcast : list Vec;
  l_grad : list Vec;
  prev_is_one : list bool;
  set_one : bool
}.

(** The scan over the operands: [output_dim] and [output_dim_set], or an invalid broadcast. *)
Fixpoint find_dim (col : list Z) (output_dim : Z) (output_dim_set : bool) : option (Z * bool) :=
  match col with
  | [] => Some (output_dim, output_dim_set)
  | c :: col' =>
      if c =? 1 then find_dim col' output_dim output_dim_set
      else if negb output_dim_set || (c =? output_dim) then find_dim col' c true
      else None
  end.

Definition push_back {A} (x : A) (l : list A) : list A := l ++ [x].
(** [v.back() = f (v.back())] *)
Definition set_back {A} (f : A -> A) (l : list A) : list A := alter f (length l - 1)%nat l.

(** [if (cond[i]) grad_reduce_idx_[i].push_back(idx)] for all [i] *)
Definition push_grad (idx : Z) (cond : list bool) (grad : list Vec) : list Vec :=
  zip_with (fun (c : bool) g => if c then push_back idx g else g) cond grad.

Section Constructor.
Context (fewer_dims_optimization : bool) (largest_rank : nat).

(** The body of the loop for dimension [j], whose sizes are the list [col]. *)
Definition dim_step (j : nat) (col : list Z) (s : Loop) : option Loop :=
  match find_dim col (-1) false with
  | None => None
  | Some (output_dim, output_dim_set) =>
      let current_is_one := map (fun c => c =? 1) col in
      let none_is_one := forallb negb current_is_one in
      let output := push_back (if output_dim_set then output_dim else 1) (l_output s) in
      let batch := mul_dims (l_batch s) (if output_dim_set then output_dim else 1) in
      let idx := Z.of_nat largest_rank - 1 - Z.of_nat j in
      if negb output_dim_set then
        let '(result, reshape, bcast) :=
          if negb fewer_dims_optimization
          then (push_back 1 (l_result s), map (push_back 1) (l_reshape s), map (push_back 1) (l_bcast s))
          else (l_result s, l_reshape s, l_bcast s) in
        Some (mkLoop output batch result reshape bcast (map (push_back idx) (l_grad s)) (prev_is_one s) (set_one s))
      else
        let grad := push_grad idx (map (fun c => c && negb none_is_one) current_is_one) (l_grad s) in
        let '(result, reshape, bcast) :=
          if fewer_dims_optimization && bool_decide (current_is_one = prev_is_one s) && set_one s
          then (set_back (fun r => mul_dims r output_dim) (l_result s),
                zip_with (fun c v => set_back (fun r => mul_dims r c) v) col (l_reshape s),
                zip_with (fun (o : bool) v => set_back (fun b => mul_dims b (if o then output_dim else 1)) v)
                  current_is_one (l_bcast s))
          else (push_back output_dim (l_result s),
                zip_with push_back col (l_reshape s),
                zip_with (fun (o : bool) v => push_back (if o then output_dim else 1) v) current_is_one (l_bcast s)) in
        Some (mkLoop output batch result reshape bcast grad current_is_one true)
  end.

(** The loop: the final variables and whether the broadcast is valid. *)
Fixpoint dim_loop (j : nat) (cols : list (list Z)) (s : Loop) : Loop * bool :=
  match cols with
  | [] => (s, true)
  | col :: cols' =>
      match dim_step j col s with
      | None => (s, false)
      | Some s' => dim_loop (S j) cols' s'
      end
  end.
End Constructor.

(** [copy[i]]: reversed and extended by ones *)
Definition extend (largest_rank : nat) (x : Vec) : Vec := rev x ++ replicate (largest_rank - length x) 1.

(** The sizes [copy[0][j], copy[1][j], ...] for every [j] *)
Definition columns (largest_rank : nat) (copy : list Vec) : list (list Z) :=
  map (fun j => map (fun v => nth j v 1) copy) (seq 0 largest_rank).

Definition largest_rank (x : list Vec) : nat := list_max (map length x).

(** [BCastList<N>::BCastList] *)
Definition BCastList (x : list Vec) (fewer_dims_optimization return_flattened_batch_indices : bool) : t :=
  let x0 := nth 0 x [] in
  let empty := map (fun _ => []) x in
  let all_equal := forallb (fun v => bool_decide (v = x0)) x in
  if all_equal && fewer_dims_optimization then
    let elements := fold_left mul_dims x0 1 in
    mkBCast true false (map (fun _ => [elements]) x) (map (fun _ => [1]) x) [elements] x0 empty elements empty
  else
    let rank := largest_rank x in
    let copy := map (extend rank) x in
    let start := mkLoop [] 1 [] empty empty empty (map (fun _ => false) x) false in
    let '(s, ok) := dim_loop fewer_dims_optimization rank 0 (columns rank copy) start in
    if negb ok then
      mkBCast false (negb all_equal) (l_reshape s) (l_bcast s) (l_result s) (l_output s) (l_grad s) (l_batch s) empty
    else
      let is_empty := bool_decide (l_result s = []) in
      let result := if is_empty then [1] else l_result s in
      let reshape := map (@rev Z) (if is_empty then map (push_back 1) (l_reshape s) else l_reshape s) in
      let bcast := map (@rev Z) (if is_empty then map (push_back 1) (l_bcast s) else l_bcast s) in
      mkBCast true (negb all_equal) reshape bcast (rev result) (rev (l_output s)) (map (@rev Z) (l_grad s)) (l_batch s)
        (if return_flattened_batch_indices && negb all_equal && (0 <? l_batch s)
         then zip_with (ComputeBatchIndices (l_batch s)) reshape bcast else empty).

(** [class BCast] and its conversions from and to shapes *)
Definition BCast (x y : Vec) (fewer_dims_optimization return_flattened_batch_indices : bool) : t :=
  BCastList [x; y] fewer_dims_optimization return_flattened_batch_indices.

Definition FromShape (shape : Shape.t) : Vec :=
  map (Shape.dim_size false shape) (seqZ 0 (Shape.dims false shape)).
Definition ToShape (vec : Vec) : option Shape.t := Shape.FromDims false vec.

Example two_operands :
  let b := BCast [2; 3; 1; 5] [3; 4; 1] true true in
  (valid b, output b, result b, reshape b, bcast b, grad_reduce_idx b) =
  (true, [2; 3; 4; 5], [2; 3; 4; 5], [[2; 3; 1; 5]; [1; 3; 4; 1]], [[1; 1; 4; 1]; [2; 1; 1; 5]], [[2]; [0; 3]]).
Proof. vm_compute. reflexivity. Qed.

Example fewer_dims :
  let b := BCast [7; 2; 3; 1; 4; 5] [4; 5] true true in
  (valid b, output b, result b, reshape b, bcast b, grad_reduce_idx b) =
  (true, [7; 2; 3; 1; 4; 5], [42; 20], [[42; 20]; [1; 20]], [[1; 1]; [42; 1]], [[3]; [0; 1; 2; 3]]).
Proof. vm_compute. reflexivity. Qed.
End BCast.
