(* ===== verification/BCastSpec.v ===== *)
(** * The loop of the broadcasting helper

    A reference for broadcasting on flat indices, and that the vectors the
    loop builds describe it. *)

From S2P Require Import Prelude BCast.
Import BCast.

(** ** Products and flat indices *)

(** Sizes are listed from the inner-most dimension on. *)
Fixpoint prod (l : list Z) : Z := match l with [] => 1 | d :: l' => d * prod l' end.

(** The product in which empty dimensions count as one. *)
Definition bound (l : list Z) : Z := prod (map (Z.max 1) l).

(** The flat index in an operand of shape [ds] of the element that is
    broadcast to the flat index [f] of a result of shape [os]: in a dimension
    of size 1 the only element, in the others the one at the same position. *)
Fixpoint src (ds os : list Z) (f : Z) : Z :=
  match ds, os with
  | d :: ds', o :: os' => (if d =? 1 then 0 else f mod o) + d * src ds' os' (f / o)
  | _, _ => 0
  end.

Lemma prod_app (l k : list Z) : prod (l ++ k) = prod l * prod k.
Proof. induction l as [|d l IH]; cbn [app prod]; [lia|]. rewrite IH. lia. Qed.

Lemma prod_snoc (l : list Z) (d : Z) : prod (l ++ [d]) = prod l * d.
Proof. rewrite prod_app. cbn [prod]. lia. Qed.

Lemma prod_rev (l : list Z) : prod (rev l) = prod l.
Proof. induction l as [|d l IH]; cbn [rev prod]; [done|]. rewrite prod_snoc, IH. lia. Qed.

Lemma prod_pos (l : list Z) : Forall (fun d => 0 < d) l -> 0 < prod l.
Proof. induction 1; cbn [prod]; nia. Qed.

Lemma prod_nonneg (l : list Z) : Forall (fun d => 0 <= d) l -> 0 <= prod l.
Proof. induction 1; cbn [prod]; nia. Qed.

Lemma bound_snoc (l : list Z) (d : Z) : bound (l ++ [d]) = bound l * Z.max 1 d.
Proof. unfold bound. rewrite map_app. apply prod_snoc. Qed.

Lemma bound_pos (l : list Z) : 1 <= bound l.
Proof. unfold bound. induction l as [|d l IH]; cbn [map prod]; [done|]. assert (1 <= Z.max 1 d) by lia. nia. Qed.

Lemma prod_le_bound (l : list Z) : Forall (fun d => 0 <= d) l -> prod l <= bound l.
Proof.
  induction 1 as [|d l Hd Hl IH]; [done|]. cbn [prod]. unfold bound in *. cbn [map prod].
  pose proof (prod_nonneg l Hl). assert (d <= Z.max 1 d) by lia. nia.
Qed.

Lemma mul_dims_exact (a b : Z) : 0 <= a -> 0 <= b -> a * b < 2 ^ 63 -> mul_dims a b = a * b.
Proof.
  intros Ha Hb H. unfold mul_dims. rewrite (proj2 (Z.ltb_ge a 0)), (proj2 (Z.ltb_ge b 0)) by lia. rewrite andb_false_r.
  apply wrap_i64_id. unfold in_i64. nia.
Qed.

Lemma src_snoc (ds os : list Z) (d o f : Z) :
  length ds = length os -> Forall (fun d => 0 < d) os -> 0 < o -> 0 <= f ->
  src (ds ++ [d]) (os ++ [o]) f = src ds os f + prod ds * (if d =? 1 then 0 else (f / prod os) mod o).
Proof.
  revert os f. induction ds as [|c ds IH]; intros [|p os] f Hl Hp Ho Hf; try done.
  - cbn [app src prod]. rewrite Z.div_1_r. destruct (d =? 1); lia.
  - apply list.Forall_cons in Hp as [Hp Hos]. cbn [app src prod]. rewrite IH; [|by injection Hl|done|done|by apply Z.div_pos].
    pose proof (prod_pos os Hos). rewrite Z.div_div by lia. lia.
Qed.

Lemma src_ones (k : nat) (os : list Z) (f : Z) : src (replicate k 1) os f = 0.
Proof. revert os f. induction k as [|k IH]; intros [|o os] f; cbn; [done..|]. by rewrite IH. Qed.

Lemma src_app_ones (ds os : list Z) (k : nat) (f : Z) :
  src (ds ++ replicate k 1) os f = src ds os f.
Proof.
  revert os f. induction ds as [|d ds IH]; intros os f; cbn [app]; [rewrite src_ones; by destruct os|].
  destruct os as [|o os]; cbn [src]; [done|]. by rewrite IH.
Qed.

Lemma src_all_ones (ds os : list Z) (f : Z) : Forall (fun d => d = 1) ds -> src ds os f = 0.
Proof.
  intros H. revert os f. induction H as [|d ds -> _ IH]; intros [|o os] f; cbn [src]; [done..|]. rewrite IH. done.
Qed.

(** ** One operand *)

(** What the vectors say of one operand whose sizes so far are [ds], for the
    sizes [os] of the output; [prev] tells whether it is repeated in the last group. *)
Record result_ok (fewer set : bool) (os R : list Z) : Prop := {
  r_nonneg : Forall (fun d => 0 <= d) R;
  r_prod : prod R = prod os;
  r_bound : bound R <= bound os;
  r_pos : Forall (fun d => 0 < d) os -> Forall (fun d => 0 < d) R;
  r_last : fewer = true -> set = true -> exists R0 r, R = R0 ++ [r] /\ r <> 1
}.

Record operand_ok (fewer set prev : bool) (ds os R Q B : list Z) : Prop := {
  o_length : length Q = length R;
  o_length' : length B = length R;
  o_mul : zip_with Z.mul Q B = R;
  o_one : Forall2 (fun q b => q = 1 \/ b = 1) Q B;
  o_prod : prod Q = prod ds;
  o_src : Forall (fun d => 0 < d) os -> forall f, 0 <= f -> src Q R f = src ds os f;
  o_last : fewer = true -> set = true -> forall R0 r, R = R0 ++ [r] ->
    exists Q0 B0, Q = Q0 ++ [if prev then 1 else r] /\ B = B0 ++ [if prev then r else 1]
}.

Lemma zip_snoc {A B C} (f : A -> B -> C) (l : list A) (k : list B) (x : A) (y : B) :
  length l = length k -> zip_with f (l ++ [x]) (k ++ [y]) = zip_with f l k ++ [f x y].
Proof. intros H. by rewrite zip_with_app by done. Qed.

(** A new dimension with sizes [d] and [o]. *)
Lemma push_result (fewer set : bool) (os R : list Z) (o : Z) :
  result_ok fewer set os R -> 0 <= o -> o <> 1 \/ fewer = false -> result_ok fewer true (os ++ [o]) (R ++ [o]).
Proof.
  intros [H1 H2 H3 H4 _] Ho Hf. split.
  - apply list.Forall_app. by split; [|repeat constructor].
  - rewrite !prod_snoc. by f_equal.
  - rewrite !bound_snoc. assert (1 <= Z.max 1 o) by lia. nia.
  - intros Hp. apply list.Forall_app in Hp as [Hp Hp1]. apply list.Forall_app. by split; [apply H4|].
  - intros Hfe _. exists R, o. split; [done|]. destruct Hf; [done|congruence].
Qed.

Lemma push_operand (fewer set prev : bool) (ds os R Q B : list Z) (d o : Z) :
  operand_ok fewer set prev ds os R Q B -> result_ok fewer set os R -> length ds = length os -> d = 1 \/ d = o ->
  operand_ok fewer true (d =? 1) (ds ++ [d]) (os ++ [o]) (R ++ [o]) (Q ++ [d]) (B ++ [if d =? 1 then o else 1]).
Proof.
  intros [H1 H2 H3 Ho H4 H5 _] [_ G2 _ G4 _] Hl Hd. split.
  - rewrite !length_app. cbn. lia.
  - rewrite !length_app. cbn. lia.
  - rewrite zip_snoc, H3 by lia. do 2 f_equal. destruct (Z.eqb_spec d 1) as [->|]; lia.
  - apply Forall2_app; [done|]. constructor; [|constructor]. destruct (Z.eqb_spec d 1); [by left|by right].
  - by rewrite !prod_snoc, H4.
  - intros Hp f Hf. apply list.Forall_app in Hp as [Hp Hpo]. apply list.Forall_cons in Hpo as [Hpo _].
    rewrite !src_snoc by (done || by apply G4). by rewrite H5, H4, G2 by done.
  - intros _ _ R0 r [-> ->]%app_inj_tail. exists Q, B. destruct (Z.eqb_spec d 1) as [->|]; [done|]. by destruct Hd as [| ->].
Qed.

(** A dimension in which every operand has size 1 changes nothing. *)
Lemma skip_result (fewer set : bool) (os R : list Z) : result_ok fewer set os R -> result_ok fewer set (os ++ [1]) R.
Proof.
  intros [H1 H2 H3 H4 H5]. split; try done.
  - rewrite prod_snoc. lia.
  - rewrite bound_snoc. lia.
  - intros Hp. apply list.Forall_app in Hp as [Hp _]. by apply H4.
Qed.

Lemma skip_operand (fewer set prev : bool) (ds os R Q B : list Z) :
  operand_ok fewer set prev ds os R Q B -> length ds = length os ->
  operand_ok fewer set prev (ds ++ [1]) (os ++ [1]) R Q B.
Proof.
  intros [H1 H2 H3 Ho H4 H5 H6] Hl. split; try done.
  - rewrite prod_snoc. lia.
  - intros Hp f Hf. apply list.Forall_app in Hp as [Hp _]. rewrite src_snoc by (done || lia). rewrite H5 by done. cbn. lia.
Qed.

(** A dimension that is merged with the last group. *)
Lemma merge_result (os R0 : list Z) (r o : Z) :
  result_ok true true os (R0 ++ [r]) -> 0 <= o -> o <> 1 -> result_ok true true (os ++ [o]) (R0 ++ [r * o]).
Proof.
  intros [H1 H2 H3 H4 H5] Ho Hne. apply list.Forall_app in H1 as [H1 Hr]. apply list.Forall_cons in Hr as [Hr _]. split.
  - apply list.Forall_app. split; [done|]. constructor; [nia|constructor].
  - rewrite !prod_snoc in *. lia.
  - rewrite !bound_snoc in *. pose proof (bound_pos R0). assert (Z.max 1 (r * o) <= Z.max 1 r * Z.max 1 o) by nia.
    assert (1 <= Z.max 1 o) by lia. nia.
  - intros Hp. apply list.Forall_app in Hp as [Hp Hp1]. apply list.Forall_cons in Hp1 as [Hp1 _].
    apply H4, list.Forall_app in Hp as [Hp2 Hp3]. apply list.Forall_cons in Hp3 as [Hp3 _].
    apply list.Forall_app. split; [done|]. constructor; [nia|constructor].
  - intros _ _. exists R0, (r * o). split; [done|]. destruct (H5 eq_refl eq_refl) as (R1 & r1 & [_ <-]%app_inj_tail & Hr1).
    intros E. destruct (Z.mul_eq_1 r o E); lia.
Qed.

Lemma mod_mul_split (a r o : Z) : 0 < r -> 0 < o -> a mod (r * o) = a mod r + r * ((a / r) mod o).
Proof. intros Hr Ho. apply Z.rem_mul_r; lia. Qed.

Lemma merge_operand (prev : bool) (ds os R0 Q B : list Z) (r d o : Z) :
  operand_ok true true prev ds os (R0 ++ [r]) Q B -> result_ok true true os (R0 ++ [r]) -> length ds = length os ->
  o <> 1 -> (if prev then d = 1 else d = o) ->
  operand_ok true true prev (ds ++ [d]) (os ++ [o]) (R0 ++ [r * o])
    (set_back (fun q => q * d) Q) (set_back (fun b => b * (if prev then o else 1)) B).
Proof.
  intros [H1 H2 H3 Hone H4 H5 H6] [_ G2 _ G4 G5] Hl Ho Hd. destruct (H6 eq_refl eq_refl R0 r eq_refl) as (Q0 & B0 & -> & ->).
  destruct (G5 eq_refl eq_refl) as (R1 & r1 & [_ <-]%app_inj_tail & Hr).
  assert (forall (l : list Z) x g, set_back g (l ++ [x]) = l ++ [g x]) as Hset.
  { intros l x g. unfold set_back. rewrite length_app. cbn [length]. replace (length l + 1 - 1)%nat with (length l + 0)%nat by lia.
    by rewrite alter_app_r. }
  rewrite !Hset. rewrite !length_app in H1, H2. cbn in H1, H2. rewrite zip_snoc in H3 by lia. apply app_inj_tail in H3 as [H3 _].
  rewrite prod_snoc in H4, G2. split.
  - rewrite !length_app. cbn. lia.
  - rewrite !length_app. cbn. lia.
  - rewrite zip_snoc, H3 by lia. do 2 f_equal. destruct prev; subst d; lia.
  - apply Forall2_app_inv in Hone as [Hone _]; [|lia]. apply Forall2_app; [done|]. constructor; [|constructor].
    destruct prev; subst d; lia.
  - rewrite !prod_snoc, <- H4. lia.
  - intros Hp f Hf. apply list.Forall_app in Hp as [Hp Hpo]. apply list.Forall_cons in Hpo as [Hpo _].
    pose proof (H5 Hp f Hf) as Hs. pose proof (G4 Hp) as Hpr. apply list.Forall_app in Hpr as [Hp0 Hpr]. apply list.Forall_cons in Hpr as [Hpr _].
    rewrite (src_snoc ds os) by done. rewrite <- Hs, <- G2, <- H4. pose proof (prod_pos _ Hp0).
    rewrite !src_snoc by (done || lia || nia). destruct prev; subst d; [change (1 * 1) with 1; rewrite !Z.eqb_refl; lia|].
    rewrite (proj2 (Z.eqb_neq r 1)), (proj2 (Z.eqb_neq o 1)) by done.
    rewrite (proj2 (Z.eqb_neq (r * o) 1)) by (intros E; destruct (Z.mul_eq_1 r o E); lia).
    rewrite mod_mul_split, Z.div_div by lia. lia.
  - intros _ _ R2 r2 [_ <-]%app_inj_tail. exists Q0, B0. destruct prev; subst d; split; do 2 f_equal; lia.
Qed.

(** ** One dimension *)

(** NumPy's rule: sizes agree unless they are 1, and the result has the other size. *)
Definition agree (col : list Z) : Prop := forall a b, a ∈ col -> b ∈ col -> a = 1 \/ b = 1 \/ a = b.
Fixpoint bdim (col : list Z) : Z :=
  match col with [] => 1 | c :: col' => if c =? 1 then bdim col' else c end.

Lemma bdim_cases (col : list Z) :
  (bdim col = 1 /\ Forall (fun c => c = 1) col) \/ (bdim col <> 1 /\ bdim col ∈ col).
Proof.
  induction col as [|c col IH]; cbn; [by left; split; [|constructor]|]. destruct (Z.eqb_spec c 1) as [->|Hc].
  - destruct IH as [[-> IH]|[H1 H2]]; [left; by split; [|constructor]|right; split; [done|set_solver]].
  - right. split; [done|set_solver].
Qed.

Lemma bdim_ge (col : list Z) : Forall (fun c => 0 <= c) col -> 0 <= bdim col.
Proof. intros Hcol. destruct (bdim_cases col) as [[-> _]|[_ H]]; [lia|]. rewrite list.Forall_forall in Hcol. by apply Hcol. Qed.

(** In a column that agrees, every size is 1 or that of the result. *)
Lemma agree_bdim (col : list Z) (c : Z) : agree col -> c ∈ col -> c = 1 \/ c = bdim col.
Proof.
  intros Ha Hc. destruct (bdim_cases col) as [[_ H]|[H1 H2]].
  - left. rewrite list.Forall_forall in H. by apply H.
  - destruct (Ha c (bdim col) Hc H2) as [|[|]]; tauto.
Qed.

Lemma find_dim_set (col : list Z) (d : Z) :
  match find_dim col d true with
  | Some r => r = (d, true) /\ Forall (fun c => c = 1 \/ c = d) col
  | None => exists a, a ∈ col /\ a <> 1 /\ a <> d
  end.
Proof.
  induction col as [|c col IH]; cbn [find_dim]; [by split; [|constructor]|]. destruct (Z.eqb_spec c 1) as [->|Hc].
  - destruct (find_dim col d true) as [r|]; [destruct IH; split; [done|by constructor; [left|]]|destruct IH as (a & ? & ?); exists a; set_solver].
  - cbn [negb orb]. destruct (Z.eqb_spec c d) as [->|Hd].
    + destruct (find_dim col d true) as [r|]; [destruct IH; split; [done|by constructor; [right|]]|destruct IH as (a & ? & ?); exists a; set_solver].
    + exists c. set_solver.
Qed.

Lemma find_dim_ok (col : list Z) :
  match find_dim col (-1) false with
  | Some (d, true) => agree col /\ d = bdim col /\ d <> 1
  | Some (_, false) => Forall (fun c => c = 1) col
  | None => ~ agree col
  end.
Proof.
  induction col as [|c col IH]; cbn [find_dim bdim]; [constructor|]. destruct (Z.eqb_spec c 1) as [->|Hc].
  - assert (agree (1 :: col) <-> agree col) as Hag.
    { split; intros H a b Ha Hb; [apply H; set_solver|]. apply elem_of_cons in Ha as [->|Ha], Hb as [->|Hb]; [tauto..|by apply H]. }
    destruct (find_dim col (-1) false) as [[d []]|]; rewrite ?Hag; try done. by constructor.
  - cbn [negb orb]. pose proof (find_dim_set col c) as H. destruct (find_dim col c true) as [[d b]|].
    + destruct H as [[= -> ->] H]. split; [|done]. rewrite list.Forall_forall in H. intros x y Hx Hy.
      apply elem_of_cons in Hx as [->|Hx], Hy as [->|Hy]; try tauto;
        [destruct (H y Hy) as [->| ->]; tauto|destruct (H x Hx) as [->| ->]; tauto|].
      destruct (H x Hx) as [->| ->], (H y Hy) as [->| ->]; tauto.
    + destruct H as (a & Ha & H1 & H2). intros Hag. destruct (Hag a c) as [|[|]]; set_solver.
Qed.

(** The axes, counted from the outer-most dimension, in which an operand has size 1. *)
Fixpoint axes (rank : nat) (j : nat) (ds : list Z) : list Z :=
  match ds with
  | [] => []
  | d :: ds' => (if d =? 1 then [Z.of_nat rank - 1 - Z.of_nat j] else []) ++ axes rank (S j) ds'
  end.

Lemma axes_snoc (rank j : nat) (ds : list Z) (d : Z) :
  axes rank j (ds ++ [d]) = axes rank j ds ++ (if d =? 1 then [Z.of_nat rank - 1 - Z.of_nat (j + length ds)] else []).
Proof.
  revert j. induction ds as [|c ds IH]; intros j; cbn [app axes length].
  - rewrite app_nil_r, Nat.add_0_r. done.
  - rewrite IH, <- app_assoc. do 3 f_equal. by replace (S j + length ds)%nat with (j + S (length ds))%nat by lia.
Qed.

(** ** The loop *)

Section Loop.
Context (fewer : bool) (rank N : nat).

Definition operand (i : nat) (cols : list (list Z)) : list Z := map (fun col => nth i col 1) cols.

Record loop_ok (cols : list (list Z)) (s : Loop) : Prop := {
  m_output : l_output s = map bdim cols;
  m_batch : l_batch s = prod (map bdim cols);
  m_result : result_ok fewer (set_one s) (map bdim cols) (l_result s);
  m_reshape : length (l_reshape s) = N;
  m_bcast : length (l_bcast s) = N;
  m_prev : length (prev_is_one s) = N;
  m_grad : length (l_grad s) = N;
  m_operand : forall i Q B p g,
    l_reshape s !! i = Some Q -> l_bcast s !! i = Some B -> prev_is_one s !! i = Some p -> l_grad s !! i = Some g ->
    operand_ok fewer (set_one s) p (operand i cols) (map bdim cols) (l_result s) Q B /\
    g = axes rank 0 (operand i cols)
}.

Lemma result_any (set set' : bool) (os R : list Z) : result_ok false set os R -> result_ok false set' os R.
Proof. by intros [H1 H2 H3 H4 _]. Qed.

Lemma operand_any (set set' p p' : bool) (ds os R Q B : list Z) :
  operand_ok false set p ds os R Q B -> operand_ok false set' p' ds os R Q B.
Proof. by intros [H1 H2 H3 Ho H4 H5 _]. Qed.

Lemma loop_start : loop_ok [] (mkLoop [] 1 [] (replicate N []) (replicate N []) (replicate N []) (replicate N false) false).
Proof.
  split; try done; try apply length_replicate.
  cbn. intros i Q B p g HQ HB Hp Hg. apply lookup_replicate in HQ as [-> _], HB as [-> _], Hg as [-> _]. split; [|done].
  split; try done.
Qed.

(** Every size of the column belongs to an operand. *)
Lemma column_elem (i : nat) (col : list Z) : (i < length col)%nat -> nth i col 1 ∈ col.
Proof. intros Hi. destruct (lookup_lt_is_Some_2 _ _ Hi) as [c Hc]. rewrite nth_lookup, Hc. by eapply list_elem_of_lookup_2. Qed.

Lemma operand_snoc (i : nat) (cols : list (list Z)) (col : list Z) :
  operand i (cols ++ [col]) = operand i cols ++ [nth i col 1].
Proof. unfold operand. by rewrite map_app. Qed.

Lemma set_back_ext (f g : Z -> Z) (l : list Z) (x : Z) : f x = g x -> set_back f (l ++ [x]) = set_back g (l ++ [x]).
Proof.
  intros H. unfold set_back. rewrite length_app. cbn [length]. replace (length l + 1 - 1)%nat with (length l + 0)%nat by lia.
  rewrite !alter_app_r. cbn. by rewrite H.
Qed.

Context (cols : list (list Z)) (col : list Z) (s : Loop).
Context (Hs : loop_ok cols s) (Hlen : length col = N) (Hcol : Forall (fun c => 0 <= c) col) (Hag : agree col).
Context (Hroom : bound (map bdim (cols ++ [col])) < 2 ^ 63).

Lemma bdim_nonneg : 0 <= bdim col.
Proof. by apply bdim_ge. Qed.

Lemma entry_cases (i : nat) : (i < N)%nat -> nth i col 1 = 1 \/ nth i col 1 = bdim col.
Proof. intros Hi. apply agree_bdim; [done|]. apply column_elem. lia. Qed.

Lemma batch_exact : mul_dims (l_batch s) (bdim col) = prod (map bdim (cols ++ [col])).
Proof.
  destruct Hs as [_ -> [R1 R2 R3 _ _] _ _ _ _ _]. rewrite map_app in *. cbn [map] in *. rewrite bound_snoc in Hroom. rewrite prod_snoc.
  pose proof bdim_nonneg. pose proof (prod_nonneg _ R1). pose proof (prod_le_bound _ R1). pose proof (bound_pos (map bdim cols)).
  assert (bdim col <= Z.max 1 (bdim col)) by lia. apply mul_dims_exact; [lia|lia|nia].
Qed.

(** All sizes are 1. *)
Lemma ones_step :
  Forall (fun c => c = 1) col -> let idx := Z.of_nat rank - 1 - Z.of_nat (length cols) in
  loop_ok (cols ++ [col])
    (mkLoop (l_output s ++ [1]) (mul_dims (l_batch s) 1)
       (if fewer then l_result s else push_back 1 (l_result s))
       (if fewer then l_reshape s else map (push_back 1) (l_reshape s))
       (if fewer then l_bcast s else map (push_back 1) (l_bcast s))
       (map (push_back idx) (l_grad s)) (prev_is_one s) (set_one s)).
Proof.
  intros H1 idx. pose proof batch_exact as Hb. destruct (bdim_cases col) as [[Ed _]|[Hd1 Hd2]].
  2:{ rewrite list.Forall_forall in H1. by destruct Hd1; apply H1. }
  assert (forall i, nth i col 1 = 1) as Hnth.
  { intros i. rewrite nth_lookup. destruct (col !! i) eqn:E; [|done]. rewrite list.Forall_lookup in H1. by apply (H1 i). }
  rewrite Ed in Hb. pose proof Hs as [S1 S2 S3 S4 S5 S6 S7 S8].
  split; cbn [l_output l_batch l_result l_reshape l_bcast l_grad prev_is_one set_one]; rewrite ?map_app; cbn [map]; rewrite ?Ed.
  - by rewrite S1.
  - rewrite Hb, map_app. cbn [map]. by rewrite Ed.
  - destruct fewer eqn:Ef; [by apply skip_result|]. apply (result_any true). eapply push_result; [done|lia|by right].
  - destruct fewer; by rewrite ?length_map.
  - destruct fewer; by rewrite ?length_map.
  - done.
  - by rewrite length_map.
  - intros i Q B p g HQ HB Hp Hg. rewrite operand_snoc, Hnth, axes_snoc, Z.eqb_refl. cbn [Nat.add].
    rewrite list_lookup_fmap in Hg. destruct (l_grad s !! i) as [g0|] eqn:Eg; [|done]. injection Hg as <-.
    assert (length (operand i cols) = length cols) as Hl by apply length_map. rewrite Hl.
    destruct fewer eqn:Ef.
    + destruct (S8 i Q B p g0 HQ HB Hp Eg) as [O1 ->]. split; [|done]. apply skip_operand; [done|]. by rewrite Hl, length_map.
    + rewrite list_lookup_fmap in HQ, HB. destruct (l_reshape s !! i) as [Q0|] eqn:EQ; [|done]. injection HQ as <-.
      destruct (l_bcast s !! i) as [B0|] eqn:EB; [|done]. injection HB as <-.
      destruct (S8 i Q0 B0 p g0 EQ EB Hp Eg) as [O1 ->]. split; [|done]. apply (operand_any true _ true).
      apply (push_operand false (set_one s) p _ _ _ _ _ 1 1 O1 S3); [by rewrite Hl, length_map|by left].
Qed.

(** The lists of the operands after a step, element by element. *)
Lemma zip_lookup {A B C} (f : A -> B -> C) (l : list A) (k : list B) (i : nat) (z : C) :
  zip_with f l k !! i = Some z -> exists x y, l !! i = Some x /\ k !! i = Some y /\ z = f x y.
Proof. intros H. apply lookup_zip_with_Some in H as (x & y & -> & Hx & Hy). eauto. Qed.

Lemma is_one_lookup (i : nat) (b : bool) : map (fun c => c =? 1) col !! i = Some b -> b = (nth i col 1 =? 1) /\ (i < N)%nat.
Proof.
  rewrite list_lookup_fmap. destruct (col !! i) as [c|] eqn:E; [|done]. intros [= <-]. rewrite nth_lookup, E.
  apply lookup_lt_Some in E. split; [done|lia].
Qed.

Definition grad_after : list Vec :=
  push_grad (Z.of_nat rank - 1 - Z.of_nat (length cols))
    (map (fun c => c && negb (forallb negb (map (fun c => c =? 1) col))) (map (fun c => c =? 1) col)) (l_grad s).

Lemma grad_lookup (i : nat) (g : list Z) :
  grad_after !! i = Some g -> exists g0, l_grad s !! i = Some g0 /\
    (g0 = axes rank 0 (operand i cols) -> g = axes rank 0 (operand i (cols ++ [col]))).
Proof.
  intros H. apply zip_lookup in H as (c & g0 & Hc & Hg & ->). exists g0. split; [done|]. intros ->.
  rewrite operand_snoc, axes_snoc. cbn [Nat.add]. unfold operand. rewrite length_map.
  rewrite list_lookup_fmap in Hc. destruct (map (fun c => c =? 1) col !! i) as [o|] eqn:E; [|done]. injection Hc as <-.
  destruct (is_one_lookup i o E) as [-> Hi]. destruct (nth i col 1 =? 1) eqn:E1; cbn [andb]; [|by rewrite app_nil_r].
  assert (forallb negb (map (fun c => c =? 1) col) = false) as ->; [|done].
  apply not_true_iff_false. intros Hf. rewrite forallb_forall in Hf. assert (In true (map (fun c => c =? 1) col)) as Hin by (apply list_elem_of_In; by eapply list_elem_of_lookup_2).
  by apply Hf in Hin.
Qed.

Lemma grad_length : length grad_after = N.
Proof. unfold grad_after, push_grad. rewrite length_zip_with, !length_map, (m_grad _ _ Hs). lia. Qed.

(** A new group. *)
Lemma push_step :
  bdim col <> 1 ->
  loop_ok (cols ++ [col])
    (mkLoop (l_output s ++ [bdim col]) (mul_dims (l_batch s) (bdim col)) (push_back (bdim col) (l_result s))
       (zip_with push_back col (l_reshape s))
       (zip_with (fun (o : bool) v => push_back (if o then bdim col else 1) v) (map (fun c => c =? 1) col) (l_bcast s))
       grad_after (map (fun c => c =? 1) col) true).
Proof.
  intros Hd. pose proof Hs as [S1 S2 S3 S4 S5 S6 S7 S8]. pose proof bdim_nonneg.
  split; cbn [l_output l_batch l_result l_reshape l_bcast l_grad prev_is_one set_one].
  - by rewrite S1, map_app.
  - apply batch_exact.
  - rewrite map_app. eapply push_result; [done|done|by left].
  - rewrite length_zip_with. lia.
  - rewrite length_zip_with, length_map. lia.
  - by rewrite length_map.
  - apply grad_length.
  - intros i Q B p g HQ HB Hp Hg. apply zip_lookup in HQ as (c & Q0 & Hc & HQ & ->). apply zip_lookup in HB as (o & B0 & Ho & HB & ->).
    apply is_one_lookup in Ho as [-> Hi]. apply is_one_lookup in Hp as [-> _]. destruct (grad_lookup i g Hg) as (g0 & Hg0 & Hga).
    destruct (lookup_lt_is_Some_2 (prev_is_one s) i) as [p Hp]; [lia|].
    destruct (S8 i Q0 B0 p g0 HQ HB Hp Hg0) as [O1 O2]. split; [|by apply Hga].
    assert (nth i col 1 = c) as Hn by (by rewrite nth_lookup, Hc). rewrite operand_snoc, Hn, map_app. cbn [map].
    apply (push_operand fewer (set_one s) p); [done|done|unfold operand; by rewrite !length_map|].
    rewrite <- Hn. by apply entry_cases.
Qed.

(** The last group goes on. *)
Lemma merge_step :
  fewer = true -> set_one s = true -> map (fun c => c =? 1) col = prev_is_one s -> bdim col <> 1 ->
  loop_ok (cols ++ [col])
    (mkLoop (l_output s ++ [bdim col]) (mul_dims (l_batch s) (bdim col)) (set_back (fun r => mul_dims r (bdim col)) (l_result s))
       (zip_with (fun c v => set_back (fun r => mul_dims r c) v) col (l_reshape s))
       (zip_with (fun (o : bool) v => set_back (fun b => mul_dims b (if o then bdim col else 1)) v)
          (map (fun c => c =? 1) col) (l_bcast s))
       grad_after (map (fun c => c =? 1) col) true).
Proof.
  intros Hf Hset Hprev Hd. pose proof Hs as [S1 S2 S3 S4 S5 S6 S7 S8]. pose proof bdim_nonneg as Hnn. rewrite Hf, Hset in *.
  destruct (r_last _ _ _ _ S3 eq_refl eq_refl) as (R0 & r & ER & Hr). rewrite ER in *.
  assert (0 <= r /\ r * bdim col < 2 ^ 63 /\ r < 2 ^ 63) as (Hr0 & Hrd & Hr63).
  { pose proof (r_bound _ _ _ _ S3) as Hb. pose proof (r_nonneg _ _ _ _ S3) as Hn. apply list.Forall_app in Hn as [_ Hn].
    apply list.Forall_cons in Hn as [Hn _]. rewrite map_app in Hroom. cbn [map] in Hroom. rewrite bound_snoc in Hroom, Hb.
    pose proof (bound_pos R0). assert (r <= Z.max 1 r) by lia. assert (bdim col <= Z.max 1 (bdim col)) by lia.
    assert (1 <= Z.max 1 r) by lia. assert (1 <= Z.max 1 (bdim col)) by lia. assert (r <= bound (map bdim cols)) by nia. split; [done|]. split; nia. }
  assert (set_back (fun r => mul_dims r (bdim col)) (R0 ++ [r]) = R0 ++ [r * bdim col]) as HR.
  { rewrite (set_back_ext _ (fun x => x * bdim col)) by (by apply mul_dims_exact). unfold set_back. rewrite length_app. cbn [length].
    replace (length R0 + 1 - 1)%nat with (length R0 + 0)%nat by lia. by rewrite alter_app_r. }
  split; cbn [l_output l_batch l_result l_reshape l_bcast l_grad prev_is_one set_one]; rewrite ?HR, ?Hf.
  - by rewrite S1, map_app.
  - apply batch_exact.
  - rewrite map_app. by apply merge_result.
  - rewrite length_zip_with. lia.
  - rewrite length_zip_with, length_map. lia.
  - by rewrite length_map.
  - apply grad_length.
  - intros i Q B p g HQ HB Hp Hg. apply zip_lookup in HQ as (c & Q0 & Hc & HQ & ->). apply zip_lookup in HB as (o & B0 & Ho & HB & ->).
    rewrite Hprev in Ho, Hp. rewrite Hp in Ho. injection Ho as <-. destruct (grad_lookup i g Hg) as (g0 & Hg0 & Hga).
    destruct (S8 i Q0 B0 p g0 HQ HB Hp Hg0) as [O1 O2]. split; [|by apply Hga].
    assert (nth i col 1 = c) as Hn by (by rewrite nth_lookup, Hc). rewrite operand_snoc, Hn, map_app. cbn [map].
    rewrite <- Hprev in Hp. apply is_one_lookup in Hp as [Hp Hi]. rewrite Hn in Hp.
    destruct (o_last _ _ _ _ _ _ _ _ O1 eq_refl eq_refl R0 r eq_refl) as (Q1 & B1 & EQ & EB).
    assert (if p then c = 1 else c = bdim col) as Hcase.
    { destruct (entry_cases i Hi) as [E|E]; rewrite Hn in E; subst p; destruct (Z.eqb_spec c 1); congruence. }
    rewrite EQ, EB, (set_back_ext (fun r => mul_dims r c) (fun q => q * c)),
      (set_back_ext (fun b => mul_dims b (if p then bdim col else 1)) (fun b => b * (if p then bdim col else 1))).
    + rewrite <- EQ, <- EB. apply merge_operand; try done. unfold operand. by rewrite !length_map.
    + destruct p; apply mul_dims_exact; lia.
    + destruct p; subst c; apply mul_dims_exact; lia.
Qed.

(** The body of the loop. *)
Lemma blist_step_ok : exists s', dim_step fewer rank (length cols) col s = Some s' /\ loop_ok (cols ++ [col]) s'.
Proof.
  unfold dim_step. pose proof (find_dim_ok col) as Hfd. destruct (find_dim col (-1) false) as [[d []]|]; [| |done].
  - destruct Hfd as (_ & -> & Hd). cbn [negb]. fold grad_after.
    destruct (fewer && bool_decide (map (fun c => c =? 1) col = prev_is_one s) && set_one s) eqn:E.
    + apply andb_true_iff in E as [[Ef Ep%bool_decide_eq_true]%andb_true_iff Es]. eexists. split; [done|]. by apply merge_step.
    + eexists. split; [done|]. by apply push_step.
  - cbn [negb]. pose proof (ones_step Hfd) as H. destruct fewer; cbn [negb]; eexists; (split; [done|exact H]).
Qed.
End Loop.

(** The whole loop on columns that agree, and its end at one that does not. *)
Lemma blist_loop_ok (fewer : bool) (rank N : nat) (todo cols : list (list Z)) (s : Loop) :
  loop_ok fewer rank N cols s -> Forall (fun col => length col = N) todo -> Forall (Forall (fun c => 0 <= c)) todo ->
  Forall agree todo -> bound (map bdim (cols ++ todo)) < 2 ^ 63 ->
  exists s', dim_loop fewer rank (length cols) todo s = (s', true) /\ loop_ok fewer rank N (cols ++ todo) s'.
Proof.
  revert cols s. induction todo as [|col todo IH]; intros cols s Hs Hlen Hnn Hag Hroom; cbn [dim_loop].
  - exists s. by rewrite app_nil_r.
  - apply list.Forall_cons in Hlen as [Hl Hlen], Hnn as [Hn Hnn], Hag as [Ha Hag].
    assert (bound (map bdim (cols ++ [col])) < 2 ^ 63) as Hr1.
    { replace (cols ++ col :: todo) with ((cols ++ [col]) ++ todo) in Hroom by (by rewrite <- app_assoc).
      rewrite map_app in Hroom. unfold bound in *. rewrite map_app, prod_app in Hroom.
      pose proof (bound_pos (map bdim todo)) as B1. pose proof (bound_pos (map bdim (cols ++ [col]))) as B2. unfold bound in *. nia. }
    destruct (blist_step_ok fewer rank N cols col s Hs Hl Hn Ha Hr1) as (s1 & -> & H1).
    destruct (IH (cols ++ [col]) s1 H1 Hlen Hnn Hag) as (s' & Hs' & H2); [by rewrite <- app_assoc|].
    rewrite length_app, Nat.add_1_r in Hs'. exists s'. split; [done|]. by rewrite <- app_assoc in H2.
Qed.

Lemma dim_loop_valid (fewer : bool) (rank j : nat) (cols : list (list Z)) (s : Loop) :
  (dim_loop fewer rank j cols s).2 = true <-> Forall agree cols.
Proof.
  revert j s. induction cols as [|col cols IH]; intros j s; cbn [dim_loop]; [by split; [constructor|]|].
  rewrite list.Forall_cons. unfold dim_step. pose proof (find_dim_ok col) as Hfd.
  destruct (find_dim col (-1) false) as [[d []]|].
  - destruct Hfd as (Ha & _). cbn [negb]. destruct (_ && _ && _); rewrite IH; tauto.
  - assert (agree col) as Ha by (rewrite list.Forall_forall in Hfd; intros a b Hx _; left; by apply Hfd).
    cbn [negb]. destruct fewer; cbn [negb]; rewrite IH; tauto.
  - cbn. split; [done|]. by intros [? _].
Qed.
