(* ===== verification/BCastTheorems.v ===== *)
(** * Theorems on broadcasting *)

From S2P Require Import Prelude BCast BCastSpec.
Import BCast.

(** ** The columns of the operands *)

(** The size of an operand in dimension [j], counted from the inner-most one. *)
Definition size_at (j : nat) (v : list Z) : Z := nth j (rev v) 1.

(** NumPy's broadcast shape. *)
Definition broadcastable (x : list (list Z)) : Prop := forall j, agree (map (size_at j) x).
Definition numpy (x : list (list Z)) : list Z := rev (map (fun j => bdim (map (size_at j) x)) (seq 0 (largest_rank x))).

Lemma extend_nth (rank j : nat) (v : list Z) : nth j (extend rank v) 1 = size_at j v.
Proof.
  unfold extend, size_at. destruct (decide (j < length (rev v))%nat) as [H|H]; [by rewrite app_nth1|].
  rewrite app_nth2, (nth_overflow (rev v)) by lia. rewrite nth_lookup. destruct (_ !! _) eqn:E; [|done].
  by apply lookup_replicate in E as [-> _].
Qed.

Lemma columns_eq (x : list (list Z)) :
  columns (largest_rank x) (map (extend (largest_rank x)) x) = map (fun j => map (size_at j) x) (seq 0 (largest_rank x)).
Proof.
  unfold columns. apply map_ext. intros j. rewrite map_map. apply map_ext. intros v. apply extend_nth.
Qed.

Abbreviation cols_of x := (map (fun j => map (size_at j) x) (seq 0 (largest_rank x))).

Lemma rank_le (x : list (list Z)) (v : list Z) : v ∈ x -> (length v <= largest_rank x)%nat.
Proof.
  intros Hv. unfold largest_rank. pose proof (proj1 (list_max_le (map length x) _) (Nat.le_refl _)) as H.
  rewrite List.Forall_forall in H. apply H. apply in_map. by apply list_elem_of_In.
Qed.

Lemma agree_columns (x : list (list Z)) : Forall agree (cols_of x) <-> broadcastable x.
Proof.
  rewrite list.Forall_forall. split.
  - intros H j. destruct (decide (j < largest_rank x)%nat) as [Hj|Hj].
    + apply H. apply list_elem_of_In, in_map_iff. exists j. split; [done|]. apply in_seq. lia.
    + intros a b Ha _. left. apply list_elem_of_In, in_map_iff in Ha as (v & <- & Hv). apply nth_overflow. rewrite length_rev.
      apply list_elem_of_In, rank_le in Hv. lia.
  - intros H col Hcol. apply list_elem_of_In, in_map_iff in Hcol as (j & <- & _). apply H.
Qed.

(** The sizes of operand [i] in all columns: its own, then ones. *)
Lemma operand_columns (x : list (list Z)) (i : nat) (v : list Z) :
  x !! i = Some v -> operand i (cols_of x) = rev v ++ replicate (largest_rank x - length v) 1.
Proof.
  intros Hv. unfold operand. rewrite map_map. pose proof (rank_le x v (list_elem_of_lookup_2 _ _ _ Hv)) as Hr.
  apply (list_eq_same_length _ _ (largest_rank x)); [|by rewrite length_map, length_seq|].
  { rewrite length_app, length_rev, length_replicate. lia. }
  intros j a b Hj Ha Hb. rewrite list_lookup_fmap in Ha. rewrite lookup_seq_lt in Ha by lia. cbn in Ha. injection Ha as <-.
  rewrite nth_lookup, list_lookup_fmap, Hv. cbn. rewrite <- (extend_nth (largest_rank x)). unfold extend.
  by rewrite nth_lookup, Hb.
Qed.

(** All operands have the same shape. *)
Definition all_equal (x : list (list Z)) : bool := forallb (fun v => bool_decide (v = nth 0 x [])) x.

Lemma all_equal_spec (x : list (list Z)) (v : list Z) : all_equal x = true -> v ∈ x -> v = nth 0 x [].
Proof.
  unfold all_equal. rewrite forallb_forall. intros H Hv. apply list_elem_of_In, H in Hv. by apply bool_decide_eq_true in Hv.
Qed.

Lemma map_const {A B} (b : B) (l : list A) : map (fun _ => b) l = replicate (length l) b.
Proof. induction l as [|a l IH]; cbn; [done|]. by rewrite IH. Qed.

Lemma bdim_const (n : nat) (c : Z) : (0 < n)%nat -> bdim (replicate n c) = c.
Proof.
  intros Hn. destruct n as [|n]; [lia|]. clear Hn. destruct (Z.eqb_spec c 1) as [E|E]; [subst c|cbn; by rewrite (proj2 (Z.eqb_neq c 1))].
  by induction n.
Qed.

Lemma numpy_equal (x : list (list Z)) : x <> [] -> all_equal x = true -> broadcastable x /\ numpy x = nth 0 x [].
Proof.
  intros Hx He. set (x0 := nth 0 x []) in *.
  assert (x = replicate (length x) x0) as Ex.
  { symmetry. apply replicate_as_Forall_2; [done|]. apply list.Forall_forall. intros v Hv. symmetry. by apply all_equal_spec. }
  assert (0 < length x)%nat as Hl by (destruct x; [done|cbn; lia]).
  assert (forall j, map (size_at j) x = replicate (length x) (size_at j x0)) as Hcol.
  { intros j. rewrite Ex at 1. exact (fmap_replicate (size_at j) _ _). }
  split.
  - intros j a b Ha Hb. rewrite Hcol in *. apply elem_of_replicate in Ha as [-> _], Hb as [-> _]. tauto.
  - assert (largest_rank x = length x0) as Hr.
    { unfold largest_rank. rewrite Ex. clear -Hl. destruct (length x) as [|n]; [lia|]. clear.
      induction n as [|n IH]; cbn in *; lia. }
    unfold numpy. rewrite Hr. rewrite <- (rev_involutive x0) at 2. f_equal.
    apply (list_eq_same_length _ _ (length x0)); [by rewrite length_rev|by rewrite length_map, length_seq|].
    intros j a b Hj Ha Hb. rewrite list_lookup_fmap, lookup_seq_lt in Ha by lia. cbn in Ha. injection Ha as <-.
    rewrite Hcol, bdim_const by done. unfold size_at. by rewrite nth_lookup, Hb.
Qed.

(** ** The constructor *)

Lemma dim_loop_output (fewer : bool) (rank j : nat) (cols : list (list Z)) (s s' : Loop) :
  dim_loop fewer rank j cols s = (s', true) -> l_output s' = l_output s ++ map bdim cols.
Proof.
  revert j s. induction cols as [|col cols IH]; intros j s; cbn [dim_loop map]; [intros [= <-]; by rewrite app_nil_r|].
  unfold dim_step. pose proof (find_dim_ok col) as Hfd. destruct (find_dim col (-1) false) as [[d []]|]; [| |done].
  - destruct Hfd as (_ & -> & _). cbn [negb]. destruct (_ && _ && _); intros H; rewrite (IH _ _ H); cbn; unfold push_back; by rewrite <- app_assoc.
  - destruct (bdim_cases col) as [[-> _]|[Hd1 Hd2]]; [|rewrite list.Forall_forall in Hfd; by destruct Hd1; apply Hfd].
    cbn [negb]. destruct fewer; cbn [negb]; intros H; rewrite (IH _ _ H); cbn; unfold push_back; by rewrite <- app_assoc.
Qed.

Section Constructor.
Context (x : list (list Z)) (fewer ret : bool).

Definition loop_init : Loop :=
  mkLoop [] 1 [] (replicate (length x) []) (replicate (length x) []) (replicate (length x) []) (replicate (length x) false) false.

Definition finish (s : Loop) : t :=
  let is_empty := bool_decide (l_result s = []) in
  let result := if is_empty then [1] else l_result s in
  let reshape := map (@rev Z) (if is_empty then map (push_back 1) (l_reshape s) else l_reshape s) in
  let bcast := map (@rev Z) (if is_empty then map (push_back 1) (l_bcast s) else l_bcast s) in
  mkBCast true (negb (all_equal x)) reshape bcast (rev result) (rev (l_output s)) (map (@rev Z) (l_grad s)) (l_batch s)
    (if ret && negb (all_equal x) && (0 <? l_batch s)
     then zip_with (ComputeBatchIndices (l_batch s)) reshape bcast else replicate (length x) []).

(** The constructor outside of its fast path. *)
Lemma BCastList_loop :
  all_equal x && fewer = false ->
  let '(s, ok) := dim_loop fewer (largest_rank x) 0 (cols_of x) loop_init in
  if ok then BCastList x fewer ret = finish s else valid (BCastList x fewer ret) = false.
Proof.
  intros H. unfold BCastList. fold (all_equal x). rewrite H, columns_eq, !map_const. fold loop_init.
  destruct (dim_loop _ _ _ _ _) as [s []]; done.
Qed.

Lemma BCastList_fast :
  all_equal x && fewer = true ->
  BCastList x fewer ret =
  let elements := fold_left mul_dims (nth 0 x []) 1 in
  mkBCast true false (replicate (length x) [elements]) (replicate (length x) [1]) [elements] (nth 0 x [])
    (replicate (length x) []) elements (replicate (length x) []).
Proof. intros H. unfold BCastList. fold (all_equal x). by rewrite H, !map_const. Qed.

Lemma valid_iff : x <> [] -> valid (BCastList x fewer ret) = true <-> broadcastable x.
Proof.
  intros Hx. destruct (all_equal x && fewer) eqn:E.
  - rewrite BCastList_fast by done. apply andb_true_iff in E as [E _]. destruct (numpy_equal x Hx E). by split.
  - pose proof (BCastList_loop E) as H. rewrite <- agree_columns, <- (dim_loop_valid fewer (largest_rank x) 0 _ loop_init).
    destruct (dim_loop _ _ _ _ _) as [s []]; cbn; rewrite H; done.
Qed.
End Constructor.

(** The output shape. *)
Lemma output_numpy (x : list (list Z)) (fewer ret : bool) :
  x <> [] -> broadcastable x -> output (BCastList x fewer ret) = numpy x.
Proof.
  intros Hx Hb. destruct (all_equal x && fewer) eqn:E.
  - rewrite BCastList_fast by done. apply andb_true_iff in E as [E _]. by destruct (numpy_equal x Hx E).
  - pose proof (BCastList_loop x fewer ret E) as H. apply agree_columns in Hb.
    apply (dim_loop_valid fewer (largest_rank x) 0 _ (loop_init x)) in Hb. destruct (dim_loop _ _ _ _ _) as [s ok] eqn:Ed. cbn in Hb. subst ok.
    rewrite H. cbn. rewrite (dim_loop_output _ _ _ _ _ _ Ed). cbn. unfold numpy. by rewrite map_map.
Qed.

(** ** Reshaping and repeating *)

(** Operands with known sizes whose broadcast fits in 63 bits. *)
Record operands_ok (x : list (list Z)) : Prop := {
  b_some : x <> [];
  b_nonneg : forall v, v ∈ x -> Forall (fun d => 0 <= d) v;
  b_agree : broadcastable x;
  b_bound : bound (numpy x) < 2 ^ 63
}.

(** What the final vectors of an operand with sizes [ds] say (inner-most dimension first). *)
Record final_ok (ds os R Q B : list Z) : Prop := {
  n_length : length Q = length R /\ length B = length R;
  n_mul : zip_with Z.mul Q B = R;
  n_one : Forall2 (fun q b => q = 1 \/ b = 1) Q B;
  n_prod : prod Q = prod ds;
  n_result : prod R = prod os;
  n_pos : Forall (fun d => 0 < d) os -> Forall (fun d => 0 < d) R;
  n_src : Forall (fun d => 0 < d) os -> forall f, 0 <= f -> src Q R f = src ds os f
}.

Lemma rev_zip_with {A B C} (f : A -> B -> C) (l : list A) (k : list B) :
  length l = length k -> rev (zip_with f l k) = zip_with f (rev l) (rev k).
Proof.
  revert k. induction l as [|a l IH]; intros [|b k] H; try done. cbn [zip_with rev]. injection H as H.
  rewrite IH by done. symmetry. apply zip_snoc. by rewrite !length_rev.
Qed.

Lemma bound_rev (l : list Z) : bound (rev l) = bound l.
Proof. unfold bound. by rewrite map_rev, prod_rev. Qed.

Lemma prod_factors (l : list Z) : Forall (fun d => 0 <= d) l -> 0 < prod l -> Forall (fun d => 0 < d) l.
Proof.
  induction 1 as [|d l Hd Hl IH]; intros H; [constructor|]. cbn [prod] in H. pose proof (prod_nonneg l Hl).
  constructor; [|apply IH]; nia.
Qed.

Lemma src_same (os : list Z) (f : Z) : Forall (fun d => 0 < d) os -> 0 <= f -> src os os f = f mod prod os.
Proof.
  intros H. revert f. induction H as [|o os Ho Hos IH]; intros f Hf; cbn [src prod]; [by rewrite Z.mod_1_r|].
  pose proof (prod_pos os Hos). rewrite IH by (by apply Z.div_pos). rewrite mod_mul_split by done.
  destruct (Z.eqb_spec o 1) as [->|]; [by rewrite Z.mod_1_r|done].
Qed.

Lemma fold_mul_exact (l : list Z) (a : Z) :
  0 <= a -> Forall (fun d => 0 <= d) l -> Z.max 1 a * bound l < 2 ^ 63 -> fold_left mul_dims l a = a * prod l.
Proof.
  intros Ha H. revert a Ha. induction H as [|d l Hd Hl IH]; intros a Ha Hb; cbn [fold_left prod]; [lia|].
  unfold bound in Hb. cbn [map prod] in Hb. fold (bound l) in Hb. pose proof (bound_pos l).
  assert (a * d <= Z.max 1 a * Z.max 1 d) by nia. assert (1 <= Z.max 1 a * Z.max 1 d) by nia.
  rewrite mul_dims_exact by nia. rewrite IH; [lia|nia|]. assert (Z.max 1 (a * d) <= Z.max 1 a * Z.max 1 d) by lia. nia.
Qed.

Section Final.
Context (x : list (list Z)) (fewer ret : bool).
Context (Hx : operands_ok x).

Lemma columns_ok :
  Forall (fun col => length col = length x) (cols_of x) /\ Forall (Forall (fun c => 0 <= c)) (cols_of x).
Proof.
  split; apply list.Forall_forall; intros col Hcol; apply list_elem_of_In, in_map_iff in Hcol as (j & <- & _); [by rewrite length_map|].
  apply list.Forall_forall. intros c Hc. apply list_elem_of_In, in_map_iff in Hc as (v & <- & Hv). unfold size_at.
  rewrite nth_lookup. destruct (rev v !! j) as [d|] eqn:E; cbn; [|lia]. apply list_elem_of_lookup_2, list_elem_of_In, in_rev, list_elem_of_In in E.
  pose proof (b_nonneg x Hx v) as Hn. rewrite list.Forall_forall in Hn. apply Hn; [by apply list_elem_of_In|done].
Qed.

Lemma loop_result :
  all_equal x && fewer = false ->
  exists s, BCastList x fewer ret = finish x ret s /\ loop_ok fewer (largest_rank x) (length x) (cols_of x) s.
Proof.
  intros E. pose proof (BCastList_loop x fewer ret E) as H. destruct columns_ok as [C1 C2].
  destruct (blist_loop_ok fewer (largest_rank x) (length x) (cols_of x) [] (loop_init x)) as (s & Hs & Hok); try done.
  - apply loop_start.
  - apply agree_columns, Hx.
  - cbn [app]. rewrite map_map. rewrite <- bound_rev. apply Hx.
  - cbn [length] in Hs. rewrite Hs in H. by exists s.
Qed.

Lemma operand_final (s : Loop) (i : nat) (v : list Z) :
  loop_ok fewer (largest_rank x) (length x) (cols_of x) s -> x !! i = Some v ->
  exists Q B, reshape (finish x ret s) !! i = Some (rev Q) /\ bcast (finish x ret s) !! i = Some (rev B) /\
    grad_reduce_idx (finish x ret s) !! i = Some (rev (axes (largest_rank x) 0 (extend (largest_rank x) v))) /\
    final_ok (extend (largest_rank x) v) (map bdim (cols_of x)) (rev (result (finish x ret s))) Q B.
Proof.
  intros [S1 S2 [R1 R2 R3 R4 R5] S4 S5 S6 S7 S8] Hv. pose proof (lookup_lt_Some _ _ _ Hv) as Hi.
  destruct (lookup_lt_is_Some_2 (l_reshape s) i) as [Q HQ]; [lia|]. destruct (lookup_lt_is_Some_2 (l_bcast s) i) as [B HB]; [lia|].
  destruct (lookup_lt_is_Some_2 (prev_is_one s) i) as [p Hp]; [lia|]. destruct (lookup_lt_is_Some_2 (l_grad s) i) as [g Hg]; [lia|].
  destruct (S8 i Q B p g HQ HB Hp Hg) as [[O1 O2 O3 O4 O5 O6 _] ->]. rewrite (operand_columns x i v Hv) in *.
  fold (extend (largest_rank x) v) in *. cbn [finish reshape bcast grad_reduce_idx result]. rewrite rev_involutive.
  destruct (bool_decide_reflect (l_result s = [])) as [ER|ER].
  - rewrite ER in *. apply length_zero_iff_nil in O1, O2. subst Q B. exists [1], [1].
    split; [by rewrite !list_lookup_fmap, HQ|]. split; [by rewrite !list_lookup_fmap, HB|]. split; [by rewrite list_lookup_fmap, Hg|].
    split.
    + done.
    + done.
    + constructor; [by left|constructor].
    + done.
    + done.
    + intros _. by constructor.
    + intros Hp' f Hf. by rewrite <- O6.
  - exists Q, B. split; [by rewrite list_lookup_fmap, HQ|]. split; [by rewrite list_lookup_fmap, HB|]. split; [by rewrite list_lookup_fmap, Hg|].
    by split.
Qed.

Lemma fast_final (i : nat) (v : list Z) :
  all_equal x && fewer = true -> x !! i = Some v ->
  exists Q B, reshape (BCastList x fewer ret) !! i = Some (rev Q) /\ bcast (BCastList x fewer ret) !! i = Some (rev B) /\
    grad_reduce_idx (BCastList x fewer ret) !! i = Some [] /\
    output_batch_size (BCastList x fewer ret) = prod v /\ output (BCastList x fewer ret) = v /\
    final_ok (rev v) (rev v) (rev (result (BCastList x fewer ret))) Q B.
Proof.
  intros E Hv. rewrite BCastList_fast by done. apply andb_true_iff in E as [E _]. pose proof (lookup_lt_Some _ _ _ Hv) as Hi.
  assert (nth 0 x [] = v) as -> by (symmetry; apply (all_equal_spec x v E); by eapply list_elem_of_lookup_2).
  assert (v = numpy x) as Hn.
  { destruct (numpy_equal x (b_some x Hx) E) as [_ ->]. apply (all_equal_spec x v E). by eapply list_elem_of_lookup_2. }
  pose proof (b_nonneg x Hx v (list_elem_of_lookup_2 _ _ _ Hv)) as Hnn. pose proof (b_bound x Hx) as Hb. rewrite <- Hn in Hb.
  assert (fold_left mul_dims v 1 = prod v) as -> by (rewrite fold_mul_exact by (done || (change (Z.max 1 1) with 1; lia)); lia).
  cbn [reshape bcast grad_reduce_idx output_batch_size output result]. exists [prod v], [1].
  rewrite !lookup_replicate_2 by done. repeat (split; [done|]). split; cbn [rev app zip_with length prod].
  - done.
  - f_equal. lia.
  - constructor; [by right|constructor].
  - rewrite prod_rev. lia.
  - rewrite prod_rev. lia.
  - intros Hp. constructor; [|constructor]. rewrite <- prod_rev. by apply prod_pos.
  - intros Hp f Hf. rewrite (src_same (rev v)) by done. rewrite prod_rev. cbn [src]. rewrite Z.mul_0_r, Z.add_0_r.
    destruct (Z.eqb_spec (prod v) 1) as [->|]; [by rewrite Z.mod_1_r|done].
Qed.
End Final.

Lemma elem_of_axes (rank j : nat) (ds : list Z) (k : Z) :
  k ∈ axes rank j ds <-> exists m, ds !! m = Some 1 /\ k = Z.of_nat rank - 1 - Z.of_nat (j + m).
Proof.
  revert j. induction ds as [|d ds IH]; intros j; cbn [axes]; [split; [set_solver|by intros (m & ? & _)]|].
  rewrite elem_of_app, IH. split.
  - intros [H|(m & H1 & H2)]; [|exists (S m); split; [done|lia]].
    destruct (Z.eqb_spec d 1) as [->|]; [|set_solver]. apply list_elem_of_singleton in H. exists 0%nat. split; [done|lia].
  - intros ([|m] & H1 & H2); cbn in H1.
    + injection H1 as ->. left. rewrite Z.eqb_refl. apply list_elem_of_singleton. lia.
    + right. exists m. split; [done|lia].
Qed.

(** The axes of size 1 of an operand, counted from the outer-most one. *)
Definition reduced_axes (rank : nat) (v g : list Z) : Prop :=
  forall k, k ∈ g <-> 0 <= k < Z.of_nat rank /\ size_at (rank - 1 - Z.to_nat k) v = 1.

Lemma axes_reduced (rank : nat) (v : list Z) : (length v <= rank)%nat -> reduced_axes rank v (rev (axes rank 0 (extend rank v))).
Proof.
  intros Hv k. rewrite list_elem_of_In, <- in_rev, <- list_elem_of_In, elem_of_axes. cbn [Nat.add].
  assert (length (extend rank v) = rank) as Hl by (unfold extend; rewrite length_app, length_rev, length_replicate; lia).
  split.
  - intros (m & Hm & ->). pose proof (lookup_lt_Some _ _ _ Hm) as Hlt. split; [lia|].
    replace (rank - 1 - Z.to_nat (Z.of_nat rank - 1 - Z.of_nat m))%nat with m by lia.
    rewrite <- (extend_nth rank), nth_lookup, Hm. done.
  - intros [Hk Hs]. exists (rank - 1 - Z.to_nat k)%nat. split; [|lia]. rewrite <- (extend_nth rank), nth_lookup in Hs.
    destruct (lookup_lt_is_Some_2 (extend rank v) (rank - 1 - Z.to_nat k)) as [d Hd]; [lia|]. rewrite Hd in *. cbn in Hs. by subst d.
Qed.

Lemma numpy_nonneg (x : list (list Z)) : operands_ok x -> Forall (fun d => 0 <= d) (numpy x).
Proof.
  intros Hx. destruct (columns_ok x Hx) as [_ H]. apply list.Forall_forall. intros d Hd.
  apply list_elem_of_In, in_rev, in_map_iff in Hd as (j & <- & Hj). apply bdim_ge.
  rewrite list.Forall_forall in H. apply H. apply list_elem_of_In, in_map_iff. by exists j.
Qed.

Lemma numpy_rank (x : list (list Z)) : length (numpy x) = largest_rank x.
Proof. unfold numpy. by rewrite length_rev, length_map, length_seq. Qed.

(** The final vectors of an operand, for both paths of the constructor. *)
Lemma operand_vectors (x : list (list Z)) (fewer ret : bool) (i : nat) (v : list Z) :
  operands_ok x -> x !! i = Some v ->
  let b := BCastList x fewer ret in
  exists Q B ds, reshape b !! i = Some (rev Q) /\ bcast b !! i = Some (rev B) /\
    final_ok ds (rev (numpy x)) (rev (result b)) Q B /\ prod ds = prod v /\
    (forall f, src ds (rev (numpy x)) f = src (rev v) (rev (numpy x)) f) /\
    output_batch_size b = prod (numpy x) /\
    (all_equal x && fewer = false -> exists g, grad_reduce_idx b !! i = Some g /\ reduced_axes (largest_rank x) v g).
Proof.
  intros Hx Hv b. pose proof (list_elem_of_lookup_2 _ _ _ Hv) as Hin. pose proof (rank_le x v Hin) as Hr.
  assert (rev (numpy x) = map bdim (cols_of x)) as Hn by (unfold numpy; by rewrite rev_involutive, map_map).
  destruct (all_equal x && fewer) eqn:E.
  - destruct (fast_final x fewer ret Hx i v E Hv) as (Q & B & H1 & H2 & _ & H4 & H5 & H6).
    pose proof (output_numpy x fewer ret (b_some x Hx) (b_agree x Hx)) as Ho. fold b in H5, Ho. rewrite H5 in Ho. rewrite <- Ho. exists Q, B, (rev v).
    split; [done|]. split; [done|]. split; [done|]. split; [apply prod_rev|]. done.
  - destruct (loop_result x fewer ret Hx E) as (s & Hs & Hok). destruct (operand_final x fewer ret s i v Hok Hv) as (Q & B & H1 & H2 & H3 & H4).
    unfold b. rewrite Hs, Hn. exists Q, B, (extend (largest_rank x) v). split; [done|]. split; [done|]. split; [done|]. split.
    { unfold extend. rewrite prod_app, prod_rev. assert (forall k, prod (replicate k 1) = 1) as -> by (intros k; induction k; cbn; lia). lia. }
    split; [intros f; apply src_app_ones|]. split; [rewrite <- (prod_rev (numpy x)), Hn; apply (m_batch _ _ _ _ _ Hok)|].
    intros _. eexists. split; [exact H3|by apply axes_reduced].
Qed.

(** ** Batch indices *)

(** Filling: entry [f] is the entry of the first block with [f / num] increments. *)
Lemma replicate_mapping_ok (h : Z -> Z) (num incr total : Z) (count : nat) (k : Z) (out : list Z) :
  0 < num -> 0 <= k -> num + k + Z.of_nat count <= total -> total <= Z.of_nat (length out) ->
  (forall f, 0 <= f < total -> in_i64 (h (f mod num) + f / num * incr)) ->
  (forall f, 0 <= f < num + k -> out !! Z.to_nat f = Some (h (f mod num) + f / num * incr)) ->
  let out' := replicate_mapping num incr count k out in
  length out' = length out /\
  forall f, 0 <= f < num + k + Z.of_nat count -> out' !! Z.to_nat f = Some (h (f mod num) + f / num * incr).
Proof.
  intros Hnum. revert k out. induction count as [|c IH]; intros k out Hk Ht Hlen Hrange Hout; cbn [replicate_mapping].
  - split; [done|]. intros f Hf. apply Hout. lia.
  - assert (nth (Z.to_nat k) out 0 = h (k mod num) + k / num * incr) as Hn by (rewrite nth_lookup, Hout by lia; done).
    assert ((num + k) mod num = k mod num /\ (num + k) / num = 1 + k / num) as [Em Ed].
    { replace (num + k) with (k + 1 * num) by lia. rewrite Z.mod_add, Z.div_add by lia. split; lia. }
    assert (wrap_i64 (nth (Z.to_nat k) out 0 + incr) = h ((num + k) mod num) + (num + k) / num * incr) as Hw.
    { rewrite Hn, Em, Ed. rewrite wrap_i64_id; [lia|]. pose proof (Hrange (num + k) ltac:(lia)) as Hr. rewrite Em, Ed in Hr.
      by replace (h (k mod num) + k / num * incr + incr) with (h (k mod num) + (1 + k / num) * incr) by lia. }
    destruct (IH (k + 1) (<[Z.to_nat (num + k) := wrap_i64 (nth (Z.to_nat k) out 0 + incr)]> out)) as [I1 I2]; [lia|lia|by rewrite length_insert|done| |].
    + intros f Hf. destruct (Z.eq_dec f (num + k)) as [->|Hne].
      * rewrite list_lookup_insert_eq by lia. by rewrite Hw.
      * rewrite list_lookup_insert_ne by lia. apply Hout. lia.
    + rewrite length_insert in I1. split; [done|]. intros f Hf. apply I2. lia.
Qed.

(** The index of an element of an operand is smaller than their number. *)
Lemma src_bound (Q B R : list Z) (f : Z) :
  Forall2 (fun q b => q = 1 \/ b = 1) Q B -> zip_with Z.mul Q B = R -> Forall (fun d => 0 < d) R ->
  Forall (fun d => 0 < d) Q -> 0 <= f -> 0 <= src Q R f < prod Q.
Proof.
  intros H. revert R f. induction H as [|q b Q B Hqb H IH]; intros R f <- HR HQ Hf; cbn [zip_with src prod]; [lia|].
  cbn [zip_with] in HR. apply list.Forall_cons in HR as [Hr HR]. apply list.Forall_cons in HQ as [Hq HQ].
  destruct (IH _ (f / (q * b)) eq_refl HR HQ) as [I1 I2]; [by apply Z.div_pos|].
  destruct (Z.eqb_spec q 1) as [->|Hne]; [lia|]. destruct Hqb as [| ->]; [done|]. rewrite Z.mul_1_r in *.
  pose proof (Z.mod_pos_bound f q Hq). nia.
Qed.

Lemma src_mod (ds os : list Z) (f : Z) :
  length ds = length os -> Forall (fun d => 0 < d) os -> 0 <= f -> src ds os (f mod prod os) = src ds os f.
Proof.
  intros Hl H. revert ds f Hl. induction H as [|o os Ho Hos IH]; intros [|d ds] f Hl Hf; cbn [src prod]; try done.
  pose proof (prod_pos os Hos). rewrite mod_mul_split by done. rewrite (Z.mul_comm o), Z.mod_add, Z.mod_mod, Z.div_add by lia.
  rewrite (Z.div_small (f mod o)) by (by apply Z.mod_pos_bound). rewrite Z.add_0_l. rewrite IH; [done|by injection Hl|by apply Z.div_pos].
Qed.

Lemma prod_le_zip (Q B : list Z) :
  length Q = length B -> Forall (fun d => 0 < d) Q -> Forall (fun d => 0 < d) B -> prod Q <= prod (zip_with Z.mul Q B).
Proof.
  intros Hl HQ. revert B Hl. induction HQ as [|q Q Hq HQ IH]; intros [|b B] Hl HB; cbn [zip_with prod]; try done.
  apply list.Forall_cons in HB as [Hb HB]. injection Hl as Hl. specialize (IH B Hl HB). pose proof (prod_pos Q HQ).
  transitivity (q * prod (zip_with Z.mul Q B)); [nia|]. assert (q <= q * b) by nia. nia.
Qed.

Lemma zip_pos (Q B : list Z) :
  Forall (fun d => 0 < d) Q -> Forall (fun d => 0 < d) B -> Forall (fun d => 0 < d) (zip_with Z.mul Q B).
Proof.
  intros HQ. revert B. induction HQ as [|q Q Hq HQ IH]; intros [|b B] HB; cbn [zip_with]; try constructor;
    apply list.Forall_cons in HB as [Hb HB]; [nia|by apply IH].
Qed.

Lemma factors_pos (Q B : list Z) :
  length Q = length B -> Forall2 (fun q b => q = 1 \/ b = 1) Q B -> Forall (fun d => 0 < d) (zip_with Z.mul Q B) ->
  Forall (fun d => 0 < d) Q /\ Forall (fun d => 0 < d) B.
Proof.
  intros _. induction 1 as [|q b Q B Hqb H IH]; cbn [zip_with]; [done|]. intros HR. apply list.Forall_cons in HR as [Hr HR].
  destruct (IH HR). split; constructor; try done; destruct Hqb; nia.
Qed.

(** One dimension of [ComputeBatchIndices]. *)
Lemma batch_step (Q B out : list Z) (q b total : Z) :
  let R := zip_with Z.mul Q B in
  length Q = length B -> Forall (fun d => 0 < d) Q -> Forall (fun d => 0 < d) B -> 0 < q -> 0 < b -> q = 1 \/ b = 1 ->
  Forall2 (fun q b => q = 1 \/ b = 1) Q B ->
  prod R * (q * b) <= total -> total < 2 ^ 63 -> Z.of_nat (length out) = total ->
  (forall f, 0 <= f < prod R -> out !! Z.to_nat f = Some (src Q R f)) ->
  let out' := replicate_mapping (prod R) (if 1 <? b then 0 else prod Q)
                (Z.to_nat (wrap_i64 ((Z.max q b - 1) * prod R))) 0 out in
  Z.of_nat (length out') = total /\
  forall f, 0 <= f < prod R * (q * b) -> out' !! Z.to_nat f = Some (src (Q ++ [q]) (R ++ [q * b]) f).
Proof.
  intros R Hl HQ HB Hq Hb Hone Hones Htot Hsize Hlen Hout.
  assert (Forall (fun d => 0 < d) R) as HR by (by apply zip_pos). pose proof (prod_pos R HR) as HpR. pose proof (prod_pos Q HQ) as HpQ.
  assert (length Q = length R) as HlR by (unfold R; rewrite length_zip_with; lia).
  assert (Z.max q b = q * b) as Hmax by (destruct Hone as [-> | ->]; lia).
  assert (1 <= q * b) as Hqb by nia.
  set (incr := if 1 <? b then 0 else prod Q).
  assert (forall f, 0 <= f < prod R * (q * b) -> src Q R (f mod prod R) + f / prod R * incr = src (Q ++ [q]) (R ++ [q * b]) f) as Hval.
  { intros f Hf. rewrite src_snoc, src_mod by (done || lia). f_equal.
    assert (0 <= f / prod R < q * b) as Hd by (split; [apply Z.div_pos; lia|apply Z.div_lt_upper_bound; lia]).
    unfold incr. destruct (Z.ltb_spec 1 b); destruct (Z.eqb_spec q 1) as [E|E]; try lia.
    assert (b = 1) as E1 by lia. rewrite Z.mod_small by done. lia. }
  destruct (replicate_mapping_ok (src Q R) (prod R) incr (prod R * (q * b)) (Z.to_nat (wrap_i64 ((Z.max q b - 1) * prod R))) 0 out)
    as [M1 M2]; [done|lia| |lia| | |].
  - rewrite Hmax, wrap_i64_id by (unfold in_i64; nia). nia.
  - intros f Hf. rewrite Hval by done.
    assert (0 <= src (Q ++ [q]) (R ++ [q * b]) f < prod (Q ++ [q])) as Hs.
    { apply (src_bound _ (B ++ [b])); [apply Forall2_app; [done|by constructor]|by rewrite zip_snoc|apply list.Forall_app; by split; [|constructor; [lia|]]|apply list.Forall_app; by split; [|constructor]|lia]. }
    pose proof (prod_le_zip Q B Hl HQ HB) as Hle. fold R in Hle. rewrite prod_snoc in Hs. unfold in_i64. nia.
  - intros f Hf. rewrite Z.mod_small, Z.div_small by lia. rewrite Hout by lia. f_equal. lia.
  - split; [rewrite M1; done|]. intros f Hf. rewrite M2; [f_equal; by apply Hval|].
    rewrite Hmax, wrap_i64_id by (unfold in_i64; nia). nia.
Qed.

Lemma batch_loop_ok (total : Z) (todo : list (Z * Z)) (Q B : list Z) (out : list Z) :
  let R := zip_with Z.mul Q B in
  let Q' := Q ++ map fst todo in
  let B' := B ++ map snd todo in
  total < 2 ^ 63 -> length Q = length B -> Forall2 (fun q b => q = 1 \/ b = 1) Q' B' ->
  Forall (fun d => 0 < d) Q' -> Forall (fun d => 0 < d) B' ->
  prod (zip_with Z.mul Q' B') = total -> Z.of_nat (length out) = total ->
  (forall f, 0 <= f < prod R -> out !! Z.to_nat f = Some (src Q R f)) ->
  let out' := batch_loop todo (prod R) (prod Q) out in
  Z.of_nat (length out') = total /\
  forall f, 0 <= f < total -> out' !! Z.to_nat f = Some (src Q' (zip_with Z.mul Q' B') f).
Proof.
  revert Q B out. induction todo as [|[q b] todo IH]; intros Q B out R Q' B' Ht Hl Hone HQ HB Hprod Hlen Hout; cbn [batch_loop].
  - unfold Q', B' in *. cbn [map] in *. rewrite !app_nil_r in *. fold R in Hprod. fold R. split; [done|]. by rewrite <- Hprod.
  - assert (Q' = (Q ++ [q]) ++ map fst todo /\ B' = (B ++ [b]) ++ map snd todo) as [EQ EB] by (unfold Q', B'; by rewrite <- !app_assoc).
    rewrite EQ, EB in *. clear EQ EB Q' B'.
    pose proof HQ as HQ'. pose proof HB as HB'. pose proof Hone as Hone'.
    apply list.Forall_app in HQ' as [HQ1 HQt]. apply list.Forall_app in HB' as [HB1 HBt].
    apply Forall2_app_inv in Hone' as [Hone1 _]; [|rewrite !length_app; cbn; lia].
    assert (prod R * (q * b) <= total) as Hle.
    { rewrite <- Hprod, zip_with_app, zip_snoc, prod_app, prod_snoc by (rewrite ?length_app; cbn; lia). fold R.
      pose proof (prod_pos _ (zip_pos _ _ HQt HBt)). apply list.Forall_app in HQ1 as [HQ0 Hq], HB1 as [HB0 Hb].
      apply list.Forall_cons in Hq as [Hq _], Hb as [Hb _]. pose proof (prod_pos _ (zip_pos _ _ HQ0 HB0)) as HpR. fold R in HpR.
      assert (0 < prod R * (q * b)) by nia. nia. }
    pose proof HQ1 as HQ0. pose proof HB1 as HB0. apply list.Forall_app in HQ0 as [HQ0 Hq], HB0 as [HB0 Hb].
    apply list.Forall_cons in Hq as [Hq _], Hb as [Hb _]. apply Forall2_app_inv in Hone1 as [Hones Hone2]; [|done].
    apply Forall2_cons_1 in Hone2 as [Hone2 _]. pose proof (prod_le_zip Q B Hl HQ0 HB0) as HleQ. fold R in HleQ.
    pose proof (prod_pos Q HQ0). destruct (batch_step Q B out q b total Hl HQ0 HB0 Hq Hb Hone2 Hones Hle Ht Hlen Hout) as [L1 L2]. fold R in L1, L2.
    assert (Z.max q b = q * b) as Hmax by (destruct Hone2 as [-> | ->]; lia).
    assert (wrap_i64 (prod R * Z.max q b) = prod (zip_with Z.mul (Q ++ [q]) (B ++ [b]))) as ->.
    { rewrite zip_snoc, prod_snoc, Hmax by done. apply wrap_i64_id. unfold in_i64. fold R. nia. }
    assert (wrap_i64 (prod Q * q) = prod (Q ++ [q])) as ->.
    { rewrite prod_snoc. apply wrap_i64_id. unfold in_i64. nia. }
    apply IH; try done; [rewrite !length_app; cbn; lia|]. rewrite zip_snoc, prod_snoc by done. fold R. done.
Qed.

(** ** Theorems *)

(** [BCastList] accepts exactly the shapes that NumPy broadcasts together,
    also with unknown ([-1]) sizes, and its output shape is then NumPy's:
    aligned at the last dimension, in every dimension the size that is not 1. *)
Theorem bcast_shape (x : list (list Z)) (fewer ret : bool) :
  x <> [] ->
  (valid (BCastList x fewer ret) = true <-> broadcastable x) /\
  (broadcastable x -> output (BCastList x fewer ret) = numpy x).
Proof. intros Hx. split; [by apply valid_iff|by apply output_numpy]. Qed.

Lemma bcast_shape_witness :
  valid (BCastList [[2; 1; 5]; [3; 1]] true false) = true /\ output (BCastList [[2; 1; 5]; [3; 1]] true false) = [2; 3; 5].
Proof.
  assert (broadcastable [[2; 1; 5]; [3; 1]]) as H.
  { intros j a b Ha Hb. do 3 (destruct j as [|j]; [cbn in Ha, Hb; set_solver by lia|]). cbn in Ha, Hb.
    destruct j; set_solver by lia. }
  destruct (bcast_shape [[2; 1; 5]; [3; 1]] true false) as [H1 H2]; [done|]. split; [by apply H1|]. exact (H2 H).
Defined.


(** The axes have size 1 in an operand and include those along which it is repeated. *)
Definition covers_repeated (out v g : list Z) : Prop :=
  (forall k, k ∈ g -> size_at (length out - 1 - Z.to_nat k) v = 1) /\
  (forall k, 0 <= k < Z.of_nat (length out) -> size_at (length out - 1 - Z.to_nat k) v = 1 ->
     size_at (length out - 1 - Z.to_nat k) out <> 1 -> k ∈ g).

(** C19: of operands that broadcast, with known sizes and a result that fits
    63 bits, reshaping one and repeating it along the dimensions of the
    (possibly shorter) vectors of [BCastList] gives every element of the
    result the element that broadcasting the operand itself would give: the
    reduction of dimensions is invisible.  The reshaped operand keeps its
    number of elements, repeated sizes give the result shape, which has as
    many elements as the output.  The axes to reduce for a gradient are those in
    which the operand has size 1, but on the fast path for identical operands
    (with [fewer_dims_optimization]), where there are none; in both cases they
    are axes of size 1 and include all along which the operand is repeated. *)
Theorem bcast_reshape (x : list (list Z)) (fewer ret : bool) (i : nat) (v : list Z) :
  operands_ok x -> x !! i = Some v ->
  let b := BCastList x fewer ret in
  exists Q B, reshape b !! i = Some Q /\ bcast b !! i = Some B /\
    zip_with Z.mul Q B = result b /\ prod Q = prod v /\
    prod (result b) = prod (output b) /\ output_batch_size b = prod (output b) /\
    (forall f, 0 <= f < prod (output b) -> src (rev Q) (rev (result b)) f = src (rev v) (rev (output b)) f) /\
    (exists g, grad_reduce_idx b !! i = Some g /\
       (if all_equal x && fewer then g = [] else reduced_axes (length (output b)) v g) /\
       covers_repeated (output b) v g).
Proof.
  intros Hx Hv b. destruct (operand_vectors x fewer ret i v Hx Hv) as (Q & B & ds & H1 & H2 & [[L1 L2] F1 F2 F3 F4 F5 F6] & H4 & H5 & H6 & H7).
  fold b in H1, H2, F1, F4, F5, F6, H6, H7, L1, L2. assert (output b = numpy x) as Ho by (apply output_numpy; apply Hx). rewrite Ho.
  exists (rev Q), (rev B). split; [done|]. split; [done|]. split.
  { rewrite <- (rev_involutive (result b)), <- F1. symmetry. apply rev_zip_with. lia. }
  split; [by rewrite prod_rev, F3|]. split; [by rewrite <- prod_rev, F4, prod_rev|]. split; [done|]. split.
  - intros f Hf. rewrite rev_involutive. rewrite F6; [apply H5| |lia]. apply List.Forall_rev, prod_factors; [by apply numpy_nonneg|lia].
  - destruct (all_equal x && fewer) eqn:E.
    + destruct (fast_final x fewer ret Hx i v E Hv) as (_ & _ & _ & _ & Hg & _ & Hout & _). exists [].
      split; [done|]. split; [done|]. assert (numpy x = v) as -> by (by rewrite <- Ho). split; [set_solver|done].
    + destruct H7 as (g & Hg & Hax); [done|]. exists g. rewrite numpy_rank. split; [done|]. split; [done|].
      split; intros k; rewrite ?numpy_rank; intros Hk; [by apply Hax in Hk as [_ ?]|]. intros H1' _. apply Hax. done.
Qed.

(** When they are asked for and the operands differ, the batch indices of
    an operand list, for every element of the output in order, the flat index
    of the element of the operand that is broadcast to it. *)
Theorem bcast_batch_indices (x : list (list Z)) (fewer : bool) (i : nat) (v : list Z) :
  operands_ok x -> x !! i = Some v -> all_equal x = false ->
  let b := BCastList x fewer true in
  0 < prod (output b) ->
  exists l, batch_indices b !! i = Some l /\ Z.of_nat (length l) = prod (output b) /\
    forall f, 0 <= f < prod (output b) -> l !! Z.to_nat f = Some (src (rev v) (rev (output b)) f).
Proof.
  intros Hx Hv Hne b Hpos. destruct (operand_vectors x fewer true i v Hx Hv) as (Q & B & ds & H1 & H2 & [[L1 L2] F1 F2 F3 F4 F5 F6] & H4 & H5 & H6 & _).
  fold b in H1, H2, F1, F4, F5, F6, H6, L1, L2. assert (output b = numpy x) as Ho by (apply output_numpy; apply Hx). rewrite Ho in *.
  assert (Forall (fun d => 0 < d) (rev (numpy x))) as Hp by (apply List.Forall_rev, prod_factors; [by apply numpy_nonneg|done]).
  assert (prod (numpy x) < 2 ^ 63) as Hroom.
  { pose proof (prod_le_bound _ (numpy_nonneg x Hx)). pose proof (b_bound x Hx). lia. }
  exists (ComputeBatchIndices (prod (numpy x)) (rev Q) (rev B)). split.
  { assert (batch_indices b = zip_with (ComputeBatchIndices (output_batch_size b)) (reshape b) (bcast b)) as ->.
    { destruct (loop_result x fewer true Hx) as (s & Hs & _); [by rewrite Hne|]. unfold b in *. rewrite Hs in *. cbn in *.
      rewrite Hne. by rewrite H6, (proj2 (Z.ltb_lt _ _)) by done. }
    rewrite lookup_zip_with, H1, H2, H6. done. }
  destruct (factors_pos Q B) as [HQ HB]; [lia|done|rewrite F1; by apply F5|].
  unfold ComputeBatchIndices. rewrite !rev_involutive.
  assert (map fst (zip Q B) = Q /\ map snd (zip Q B) = B) as [E1 E2] by (split; [apply fst_zip; lia|apply snd_zip; lia]).
  destruct (batch_loop_ok (prod (numpy x)) (zip Q B) [] [] (replicate (Z.to_nat (prod (numpy x))) 0)) as [M1 M2];
    cbn [app]; rewrite ?E1, ?E2; try done.
  - rewrite F1, F4. apply prod_rev.
  - rewrite length_replicate. lia.
  - cbn. intros f Hf. assert (f = 0) as -> by lia. rewrite lookup_replicate_2 by lia. done.
  - cbn [zip_with prod app] in M1, M2. rewrite E1, E2 in M2. split; [exact M1|]. intros f Hf. etransitivity; [by apply M2|].
    rewrite F1, F6 by (done || lia). by rewrite H5.
Qed.

(** ** Witnesses *)

Lemma example_operands : operands_ok [[2; 3; 1; 5]; [3; 4; 1]].
Proof.
  split; [done| | |vm_compute; reflexivity].
  - intros v Hv. apply elem_of_cons in Hv as [->|Hv%list_elem_of_singleton]; [|subst v]; by repeat constructor.
  - intros j a b Ha Hb. do 4 (destruct j as [|j]; [cbn in Ha, Hb; set_solver by lia|]). cbn in Ha, Hb. destruct j; set_solver by lia.
Qed.

Lemma bcast_reshape_witness :
  exists Q B, reshape (BCastList [[2; 3; 1; 5]; [3; 4; 1]] true false) !! 1%nat = Some Q /\
    bcast (BCastList [[2; 3; 1; 5]; [3; 4; 1]] true false) !! 1%nat = Some B /\
    src (rev Q) [5; 4; 3; 2] 67 = src [1; 4; 3] [5; 4; 3; 2] 67.
Proof.
  destruct (bcast_reshape [[2; 3; 1; 5]; [3; 4; 1]] true false 1 [3; 4; 1] example_operands eq_refl) as (Q & B & H1 & H2 & _ & _ & _ & _ & H & _).
  exists Q, B. split; [exact H1|]. split; [exact H2|]. apply (H 67). vm_compute. split; [discriminate|reflexivity].
Defined.

Lemma bcast_batch_indices_witness :
  exists l, batch_indices (BCastList [[2; 3; 1; 5]; [3; 4; 1]] true true) !! 0%nat = Some l /\ length l = 120%nat /\ l !! 67%nat = Some 17.
Proof.
  destruct (bcast_batch_indices [[2; 3; 1; 5]; [3; 4; 1]] true 0 [2; 3; 1; 5] example_operands eq_refl eq_refl ltac:(vm_compute; reflexivity))
    as (l & H1 & H2 & H3).
  exists l. split; [exact H1|]. split; [assert (Z.of_nat (length l) = 120) by (rewrite H2; vm_compute; reflexivity); lia|]. apply (H3 67). vm_compute. split; [discriminate|reflexivity].
Defined.
