(* ===== verification/ShapeInference.v ===== *)
(** * Shape inference ([core/framework/shape_inference.{h,cc}])

    [InferenceContext] is the object through which the shape function of an
    op computes the shapes of its outputs from what is known of its inputs.

    [Dimension] and [Shape] objects are immutable and live as long as the
    context; a handle is a pointer to one, here its position in the list of
    all objects ([None] is [nullptr]), so that [SameHandle] is equality.
    Member functions are computations that read and update the context and
    return a value, a [Status] that is not OK, or crash: a failed [CHECK], an
    index out of range, a null or uninitialised read.  An error keeps the
    updates made before it.  The output argument of a call that fails is not
    modelled (the code sets it to [nullptr] or leaves it alone). *)

From Stdlib Require Import String.
From stdpp Require Import strings.
From S2P Require Import Prelude TensorShape.

Module Inference.

Inductive err := Status (c : Shape.code) | Crash | OutOfFuel.

(** [kUnknownDim] and [kUnknownRank] *)
Definition kUnknownDim : Z := -1.
Definition kUnknownRank : Z := -1.
Definition kint32max : Z := i32_max.

(** [DataType] ([core/framework/types.proto]): the numbers of the enum *)
Abbreviation DataType := Z.
Definition DT_INVALID : DataType := 0.
Definition DT_INT32 : DataType := 3.
Definition DT_INT64 : DataType := 9.

(** [FullTypeDef] ([core/framework/full_type.proto]) *)
Inductive FullTypeAttr := attr_none | attr_s (s : string) | attr_i (i : Z).
#[warnings="-register-all"]
Inductive FullTypeDef := mkFullType (type_id : Z) (args : list FullTypeDef) (attr : FullTypeAttr).
Definition unset_type : FullTypeDef := mkFullType 0 [] attr_none.

(** [DimensionHandle] and [ShapeHandle] *)
Abbreviation DimensionHandle := (option nat).
Abbreviation ShapeHandle := (option nat).

(** [class Shape] *)
Record Shape := mkShape { rank_ : Z; dims_ : list DimensionHandle }.
Definition Shape_unknown : Shape := mkShape kUnknownRank [].
Definition Shape_of (dims : list DimensionHandle) : Shape :=
  mkShape (wrap_i32 (Z.of_nat (length dims))) dims.

(** [struct DimensionOrConstant]; [val] is not initialised when it is made of a handle. *)
Record DimensionOrConstant := mkDimOr { dim : DimensionHandle; val : option Z }.
Definition of_dim (d : DimensionHandle) : DimensionOrConstant := mkDimOr d None.
Definition of_val (v : Z) : DimensionOrConstant := mkDimOr None (Some v).

(** [struct ShapeAndType] *)
Record ShapeAndType := mkShapeAndType { shape : ShapeHandle; dtype : DataType; type : FullTypeDef }.

(** What the code asks a [Tensor]: its type, its rank and its integers. *)
Record Tensor := mkTensor { tensor_dtype : DataType; tensor_dims : Z; flat : list Z }.

(** [NameRangeMap]: the range of positions of a named argument *)
Abbreviation NameRangeMap := (list (string * (Z * Z))).

(** The members of [InferenceContext] *)
Record t := mkContext {
  all_shapes_ : list Shape;
  all_dims_ : list Z;
  inputs_ : list ShapeHandle;
  input_tensors_ : list (option Tensor);
  requested_input_tensor_ : list bool;
  outputs_ : list ShapeHandle;
  input_tensors_as_shapes_ : list ShapeHandle;
  requested_input_tensor_as_partial_shape_ : list bool;
  input_handle_shapes_and_types_ : list (option (list ShapeAndType));
  output_handle_shapes_and_types_ : list (option (list ShapeAndType));
  ret_types_ : FullTypeDef;
  input_name_map_ : NameRangeMap;
  output_name_map_ : NameRangeMap;
  construction_status_ : option Shape.code;
  merged_shapes_ : list (ShapeHandle * ShapeHandle);
  merged_dims_ : list (DimensionHandle * DimensionHandle)
}.

(** ** Computations on a context *)
Definition M (A : Type) : Type := t -> res err A * t.

#[global] Instance M_ret : MRet M := fun A a st => (Ok a, st).
#[global] Instance M_bind : MBind M := fun A B k m st =>
  match m st with
  | (Ok a, st') => k a st'
  | (Err e, st') => (Err e, st')
  end.

Definition fail {A} (e : err) : M A := fun st => (Err e, st).
Definition gets {A} (f : t -> A) : M A := fun st => (Ok (f st), st).
Definition modify (f : t -> t) : M unit := fun st => (Ok tt, f st).
Definition InvalidArgument {A} : M A := fail (Status Shape.InvalidArgument).

(** A [CHECK] *)
Definition check (b : bool) : M unit := if b then mret tt else fail Crash.

(** An [int] subscript of a vector *)
Definition at_ {A} (l : list A) (i : Z) : M A :=
  match (if 0 <=? i then l !! Z.to_nat i else None) with
  | Some a => mret a
  | None => fail Crash
  end.
Definition set_at {A} (l : list A) (i : Z) (a : A) : M (list A) :=
  _ ← at_ l i; mret (<[Z.to_nat i := a]> l).

(** The status of a call as a value, and [TF_CHECK_OK] *)
Definition status {A} (m : M A) : M (res Shape.code A) := fun st =>
  match m st with
  | (Ok a, st') => (Ok (Ok a), st')
  | (Err (Status c), st') => (Ok (Err c), st')
  | (Err e, st') => (Err e, st')
  end.
Definition check_ok {A} (m : M A) : M A :=
  r ← status m; match r with Ok a => mret a | Err _ => fail Crash end.

Definition set_objects (shapes : list Shape) (dims : list Z) (c : t) : t :=
  mkContext shapes dims (inputs_ c) (input_tensors_ c) (requested_input_tensor_ c) (outputs_ c)
    (input_tensors_as_shapes_ c) (requested_input_tensor_as_partial_shape_ c)
    (input_handle_shapes_and_types_ c) (output_handle_shapes_and_types_ c) (ret_types_ c)
    (input_name_map_ c) (output_name_map_ c) (construction_status_ c) (merged_shapes_ c) (merged_dims_ c).
Definition set_inputs (inputs : list ShapeHandle) (c : t) : t :=
  mkContext (all_shapes_ c) (all_dims_ c) inputs (input_tensors_ c) (requested_input_tensor_ c) (outputs_ c)
    (input_tensors_as_shapes_ c) (requested_input_tensor_as_partial_shape_ c)
    (input_handle_shapes_and_types_ c) (output_handle_shapes_and_types_ c) (ret_types_ c)
    (input_name_map_ c) (output_name_map_ c) (construction_status_ c) (merged_shapes_ c) (merged_dims_ c).
Definition set_tensors (tensors : list (option Tensor)) (as_shapes : list ShapeHandle) (c : t) : t :=
  mkContext (all_shapes_ c) (all_dims_ c) (inputs_ c) tensors (requested_input_tensor_ c) (outputs_ c)
    as_shapes (requested_input_tensor_as_partial_shape_ c)
    (input_handle_shapes_and_types_ c) (output_handle_shapes_and_types_ c) (ret_types_ c)
    (input_name_map_ c) (output_name_map_ c) (construction_status_ c) (merged_shapes_ c) (merged_dims_ c).
Definition set_requested (requested as_partial : list bool) (c : t) : t :=
  mkContext (all_shapes_ c) (all_dims_ c) (inputs_ c) (input_tensors_ c) requested (outputs_ c)
    (input_tensors_as_shapes_ c) as_partial
    (input_handle_shapes_and_types_ c) (output_handle_shapes_and_types_ c) (ret_types_ c)
    (input_name_map_ c) (output_name_map_ c) (construction_status_ c) (merged_shapes_ c) (merged_dims_ c).
Definition set_outputs (outputs : list ShapeHandle) (c : t) : t :=
  mkContext (all_shapes_ c) (all_dims_ c) (inputs_ c) (input_tensors_ c) (requested_input_tensor_ c) outputs
    (input_tensors_as_shapes_ c) (requested_input_tensor_as_partial_shape_ c)
    (input_handle_shapes_and_types_ c) (output_handle_shapes_and_types_ c) (ret_types_ c)
    (input_name_map_ c) (output_name_map_ c) (construction_status_ c) (merged_shapes_ c) (merged_dims_ c).
Definition set_handles (inputs outputs : list (option (list ShapeAndType))) (c : t) : t :=
  mkContext (all_shapes_ c) (all_dims_ c) (inputs_ c) (input_tensors_ c) (requested_input_tensor_ c) (outputs_ c)
    (input_tensors_as_shapes_ c) (requested_input_tensor_as_partial_shape_ c)
    inputs outputs (ret_types_ c)
    (input_name_map_ c) (output_name_map_ c) (construction_status_ c) (merged_shapes_ c) (merged_dims_ c).
Definition set_merged (shapes : list (ShapeHandle * ShapeHandle)) (dims : list (DimensionHandle * DimensionHandle)) (c : t) : t :=
  mkContext (all_shapes_ c) (all_dims_ c) (inputs_ c) (input_tensors_ c) (requested_input_tensor_ c) (outputs_ c)
    (input_tensors_as_shapes_ c) (requested_input_tensor_as_partial_shape_ c)
    (input_handle_shapes_and_types_ c) (output_handle_shapes_and_types_ c) (ret_types_ c)
    (input_name_map_ c) (output_name_map_ c) (construction_status_ c) shapes dims.
Definition set_node (ret : FullTypeDef) (ins outs : NameRangeMap) (status : option Shape.code) (c : t) : t :=
  mkContext (all_shapes_ c) (all_dims_ c) (inputs_ c) (input_tensors_ c) (requested_input_tensor_ c) (outputs_ c)
    (input_tensors_as_shapes_ c) (requested_input_tensor_as_partial_shape_ c)
    (input_handle_shapes_and_types_ c) (output_handle_shapes_and_types_ c) ret
    ins outs status (merged_shapes_ c) (merged_dims_ c).

(** ** Objects and their handles *)

(** [ShapeManager::MakeShape], [UnknownShape] and [MakeDim] *)
Definition push_shape (s : Shape) : M ShapeHandle := fun st =>
  (Ok (Some (length (all_shapes_ st))), set_objects (all_shapes_ st ++ [s]) (all_dims_ st) st).
Definition MakeShape (dims : list DimensionHandle) : M ShapeHandle := push_shape (Shape_of dims).
Definition UnknownShape : M ShapeHandle := push_shape Shape_unknown.
Definition MakeDim (d : DimensionOrConstant) : M DimensionHandle :=
  match dim d, val d with
  | Some i, _ => mret (Some i)
  | None, Some v => fun st =>
      (Ok (Some (length (all_dims_ st))), set_objects (all_shapes_ st) (all_dims_ st ++ [v]) st)
  | None, None => fail Crash
  end.
Definition UnknownDim : M DimensionHandle := MakeDim (of_val kUnknownDim).

(** [MakeShape(std::initializer_list<DimensionOrConstant>)] *)
Definition MakeShapeOf (dims : list DimensionOrConstant) : M ShapeHandle :=
  dims_actual ← mapM MakeDim dims; MakeShape dims_actual.

(** [s->] *)
Definition deref (s : ShapeHandle) : M Shape := fun st =>
  match s ≫= (fun i => all_shapes_ st !! i) with
  | Some o => (Ok o, st)
  | None => (Err Crash, st)
  end.

Definition Rank (s : ShapeHandle) : M Z :=
  match s with Some _ => o ← deref s; mret (rank_ o) | None => mret kUnknownRank end.
Definition RankKnown (s : ShapeHandle) : M bool :=
  match s with Some _ => r ← Rank s; mret (negb (r =? kUnknownRank)) | None => mret false end.

Definition Value (d : DimensionOrConstant) : M Z := fun st =>
  match (match dim d with Some i => all_dims_ st !! i | None => val d end) with
  | Some v => (Ok v, st)
  | None => (Err Crash, st)
  end.
Definition ValueKnown (d : DimensionOrConstant) : M bool :=
  v ← Value d; mret (negb (v =? kUnknownDim)).

Definition DimKnownRank (s : ShapeHandle) (idx : Z) : M DimensionHandle :=
  o ← deref s;
  check (negb (rank_ o =? kUnknownRank));;
  if idx <? 0 then at_ (dims_ o) (wrap_u64 (Z.of_nat (length (dims_ o)) + idx))
  else at_ (dims_ o) idx.
Definition Dim (s : ShapeHandle) (idx : Z) : M DimensionHandle :=
  match s with
  | None => UnknownDim
  | Some _ => o ← deref s; if rank_ o =? kUnknownRank then UnknownDim else DimKnownRank s idx
  end.

(** [for (int i = 0; i < n; ++i)] over the dimensions of a shape *)
Definition upto (n : Z) : list Z := seqZ 0 n.
Definition Dims (s : ShapeHandle) (l : list Z) : M (list DimensionHandle) := mapM (Dim s) l.

(** [ShapeHandleToProto] *)
Definition dim_to_proto (d : DimensionHandle) : M Z :=
  known ← ValueKnown (of_dim d); if known : bool then Value (of_dim d) else mret (-1).
Definition ShapeHandleToProto (handle : ShapeHandle) : M Shape.Proto :=
  known ← RankKnown handle;
  if negb known then mret (Shape.mkProto [] true)
  else
    r ← Rank handle;
    sizes ← mapM (fun i => d ← Dim handle i; dim_to_proto d) (upto r);
    mret (Shape.mkProto sizes false).

(** [FullyDefined] and its loop *)
Fixpoint all_known (s : ShapeHandle) (l : list Z) : M bool :=
  match l with
  | [] => mret true
  | i :: l' => d ← Dim s i; known ← ValueKnown (of_dim d); if known : bool then all_known s l' else mret false
  end.
Definition FullyDefined (s : ShapeHandle) : M bool :=
  known ← RankKnown s;
  if negb known then mret false else r ← Rank s; all_known s (upto r).

(** [NumElements] and its loop, which returns early at a zero *)
Fixpoint num_elements_loop (s : ShapeHandle) (found_unknown : bool) (size : Z) (l : list Z) : M DimensionHandle :=
  match l with
  | [] => if found_unknown then UnknownDim else MakeDim (of_val size)
  | i :: l' =>
      d ← Dim s i;
      dim_val ← Value (of_dim d);
      if dim_val =? kUnknownDim then num_elements_loop s true size l'
      else if dim_val =? 0 then MakeDim (of_val 0)
      else num_elements_loop s found_unknown (wrap_i64 (size * dim_val)) l'
  end.
Definition NumElements (s : ShapeHandle) : M DimensionHandle :=
  rank ← Rank s;
  if rank =? kUnknownRank then UnknownDim else num_elements_loop s false 1 (upto rank).

(** ** Merging and relaxing *)

Definition ForgetMerges : M unit := modify (set_merged [] []).
Definition record_dims (d0 d1 : DimensionHandle) : M unit :=
  modify (fun st => set_merged (merged_shapes_ st) (merged_dims_ st ++ [(d0, d1)]) st).
Definition record_shapes (s0 s1 : ShapeHandle) : M unit :=
  modify (fun st => set_merged (merged_shapes_ st ++ [(s0, s1)]) (merged_dims_ st) st).

Definition SameHandle (a b : option nat) : bool := bool_decide (a = b).

(** [Merge(DimensionHandle, DimensionHandle, ...)] *)
Definition MergeDim (d0 d1 : DimensionHandle) : M DimensionHandle :=
  if SameHandle d0 d1 then mret d0
  else
    k1 ← ValueKnown (of_dim d1);
    if negb k1 then record_dims d0 d1;; mret d0
    else
      k0 ← ValueKnown (of_dim d0);
      if negb k0 then record_dims d0 d1;; mret d1
      else
        v0 ← Value (of_dim d0);
        v1 ← Value (of_dim d1);
        if v0 =? v1 then mret d0 else InvalidArgument.

(** The first loop of [Merge] on shapes *)
Fixpoint merge_scan (s0 s1 : ShapeHandle) (return_s0 return_s1 : bool) (l : list Z) : M (bool * bool) :=
  match l with
  | [] => mret (return_s0, return_s1)
  | i :: l' =>
      d0 ← Dim s0 i;
      d1 ← Dim s1 i;
      if SameHandle d0 d1 then merge_scan s0 s1 return_s0 return_s1 l'
      else
        v0 ← Value (of_dim d0);
        v1 ← Value (of_dim d1);
        if v0 =? kUnknownDim then
          merge_scan s0 s1 (if negb (v1 =? kUnknownDim) then false else return_s0) return_s1 l'
        else if v1 =? kUnknownDim then merge_scan s0 s1 return_s0 false l'
        else if negb (v0 =? v1) then InvalidArgument
        else merge_scan s0 s1 return_s0 return_s1 l'
  end.

(** [Merge(ShapeHandle, ShapeHandle, ...)] *)
Definition Merge (s0 s1 : ShapeHandle) : M ShapeHandle :=
  if SameHandle s0 s1 then mret s0
  else
    k1 ← RankKnown s1;
    if negb k1 then record_shapes s0 s1;; mret s0
    else
      k0 ← RankKnown s0;
      if negb k0 then record_shapes s0 s1;; mret s1
      else
        rank ← Rank s0;
        rank1 ← Rank s1;
        if negb (rank =? rank1) then InvalidArgument
        else
          '(return_s0, return_s1) ← merge_scan s0 s1 true true (upto rank);
          record_shapes s0 s1;;
          if return_s0 || return_s1 then mret (if return_s0 then s0 else s1)
          else
            dims ← mapM (fun i => d0 ← Dim s0 i; d1 ← Dim s1 i; check_ok (MergeDim d0 d1)) (upto rank);
            out ← MakeShape dims;
            record_shapes s0 out;;
            mret out.

(** [Relax(DimensionHandle, DimensionHandle, ...)] *)
Definition RelaxDim (d_old d_new : DimensionHandle) : M DimensionHandle :=
  if SameHandle d_old d_new then mret d_old
  else
    k_old ← ValueKnown (of_dim d_old);
    k_new ← ValueKnown (of_dim d_new);
    if negb k_old && negb k_new then ForgetMerges;; mret d_new
    else if negb k_new then ForgetMerges;; mret d_new
    else
      v_old ← Value (of_dim d_old);
      v_new ← Value (of_dim d_new);
      if v_old =? v_new then mret d_old else ForgetMerges;; UnknownDim.

(** The first loop of [Relax] on shapes *)
Fixpoint relax_scan (s_old s_new : ShapeHandle) (l : list Z) : M bool :=
  match l with
  | [] => mret true
  | i :: l' =>
      d0 ← Dim s_old i;
      d1 ← Dim s_new i;
      if SameHandle d0 d1 then relax_scan s_old s_new l'
      else
        v0 ← Value (of_dim d0);
        v1 ← Value (of_dim d1);
        if (v0 =? kUnknownDim) || (v1 =? kUnknownDim) || negb (v0 =? v1) then mret false
        else relax_scan s_old s_new l'
  end.

(** [Relax(ShapeHandle, ShapeHandle, ...)] *)
Definition Relax (s_old s_new : ShapeHandle) : M ShapeHandle :=
  if SameHandle s_old s_new then mret s_old
  else
    k_new ← RankKnown s_new;
    if negb k_new || negb (bool_decide (is_Some s_old)) then ForgetMerges;; mret s_new
    else
      rank ← Rank s_old;
      rank_new ← Rank s_new;
      if negb (rank =? rank_new) then ForgetMerges;; UnknownShape
      else
        return_s_old ← relax_scan s_old s_new (upto rank);
        if return_s_old : bool then mret s_old
        else
          dims ← mapM (fun i => d0 ← Dim s_old i; d1 ← Dim s_new i; RelaxDim d0 d1) (upto rank);
          ForgetMerges;;
          MakeShape dims.

(** ** Asserting ranks and values *)

(** [std::vector::reserve] with a negative argument throws. *)
Definition WithRank (shape : ShapeHandle) (rank : Z) : M ShapeHandle :=
  if kint32max <? rank then InvalidArgument
  else
    existing ← Rank shape;
    if existing =? rank then mret shape
    else if existing =? kUnknownRank then
      check (0 <=? rank);;
      dims ← mapM (fun _ => UnknownDim) (upto rank);
      shp ← MakeShape dims;
      Merge shape shp
    else InvalidArgument.

Definition WithRankAtLeast (shape : ShapeHandle) (rank : Z) : M ShapeHandle :=
  if kint32max <? rank then InvalidArgument
  else
    existing ← Rank shape;
    if (rank <=? existing) || (existing =? kUnknownRank) then mret shape else InvalidArgument.

Definition WithRankAtMost (shape : ShapeHandle) (rank : Z) : M ShapeHandle :=
  if kint32max <? rank then InvalidArgument
  else
    existing ← Rank shape;
    if (existing <=? rank) || (existing =? kUnknownRank) then mret shape else InvalidArgument.

Definition WithValue (dim : DimensionHandle) (value : Z) : M DimensionHandle :=
  existing ← Value (of_dim dim);
  if existing =? value then mret dim
  else if existing =? kUnknownDim then d ← MakeDim (of_val value); MergeDim dim d
  else InvalidArgument.

(** [MergePrefix]: the new shape and the new prefix *)
Definition MergePrefix (s prefix : ShapeHandle) : M (ShapeHandle * ShapeHandle) :=
  k_prefix ← RankKnown prefix;
  k_s ← (if k_prefix : bool then RankKnown s else mret false);
  if negb k_prefix || negb k_s then mret (s, prefix)
  else
    rank ← Rank prefix;
    s ← WithRankAtLeast s rank;
    rank_s ← Rank s;
    dims ← mapM (fun i => d0 ← Dim s i; d1 ← Dim prefix i; MergeDim d0 d1) (upto rank);
    prefix_out ← MakeShape dims;
    rest ← Dims s (seqZ rank (rank_s - rank));
    s_out ← MakeShape (dims ++ rest);
    mret (s_out, prefix_out).

(** ** Building shapes from shapes *)

(** The loop of [Subshape]: [i] is an [int] and [stride] an [int64_t]. *)
Fixpoint subshape_loop (fuel : nat) (s : ShapeHandle) (i end_ stride : Z) : M (list DimensionHandle) :=
  if (if 0 <? stride then i <? end_ else end_ <? i) then
    match fuel with
    | O => fail OutOfFuel
    | S fuel' =>
        d ← Dim s i;
        rest ← subshape_loop fuel' s (wrap_i32 (wrap_i64 (i + stride))) end_ stride;
        mret (d :: rest)
    end
  else mret [].

(** [Subshape(s, start, end, stride, out)] *)
Definition Subshape (fuel : nat) (s : ShapeHandle) (start end_ stride : Z) : M ShapeHandle :=
  rank ← Rank s;
  known ← RankKnown s;
  if (start =? 0) && (stride =? 1) && ((known && (rank <=? end_)) || (end_ =? i64_max)) then mret s
  else if negb known then UnknownShape
  else
    let start := if rank <? start then rank else start in
    let end_ := if rank <? end_ then rank else end_ in
    let start := if (stride <? 0) && (start =? rank) then start - 1 else start in
    let start' := if start <? 0 then rank + start else start in
    if start' <? 0 then InvalidArgument
    else
      let end' := if end_ <? 0 then rank + end_ else end_ in
      if end' <? 0 then InvalidArgument
      else if (0 <? stride) && (end' <? start') then InvalidArgument
      else if (stride <? 0) && (start' <? end') then InvalidArgument
      else
        dims ← subshape_loop fuel s (wrap_i32 start') end' stride;
        MakeShape dims.

(** [Subshape(s, start, end, out)] and [Subshape(s, start, out)] *)
Definition SubshapeRange (fuel : nat) (s : ShapeHandle) (start end_ : Z) : M ShapeHandle :=
  Subshape fuel s start end_ 1.
Definition SubshapeFrom (fuel : nat) (s : ShapeHandle) (start : Z) : M ShapeHandle :=
  SubshapeRange fuel s start i64_max.

Definition Concatenate (s1 s2 : ShapeHandle) : M ShapeHandle :=
  k1 ← RankKnown s1;
  k2 ← (if k1 : bool then RankKnown s2 else mret false);
  if negb k1 || negb k2 then UnknownShape
  else
    s1_rank ← Rank s1;
    s2_rank ← Rank s2;
    d1 ← Dims s1 (upto s1_rank);
    d2 ← Dims s2 (upto s2_rank);
    MakeShape (d1 ++ d2).

(** [FastBoundsCheck] ([core/framework/bounds_check.h]) on an [int64_t] and a [size_t] *)
Definition FastBoundsCheck (index limit : Z) : bool := wrap_u64 index <? wrap_u64 limit.

Definition ReplaceDim (s : ShapeHandle) (dim_index_in : Z) (new_dim : DimensionHandle) : M ShapeHandle :=
  known ← RankKnown s;
  if negb known then UnknownShape
  else
    o ← deref s;
    let size := Z.of_nat (length (dims_ o)) in
    let dim_index := if dim_index_in <? 0 then wrap_i64 (size + dim_index_in) else dim_index_in in
    if negb (FastBoundsCheck dim_index size) then InvalidArgument
    else dims ← set_at (dims_ o) dim_index new_dim; MakeShape dims.

Definition UnknownShapeOfRank (rank : Z) : M ShapeHandle :=
  check (rank <=? kint32max);;
  if rank =? kUnknownRank then UnknownShape
  else
    check (0 <=? rank);;
    dims ← mapM (fun _ => UnknownDim) (upto rank);
    MakeShape dims.

Definition Scalar : M ShapeHandle := MakeShapeOf [].
Definition Vector (dim : DimensionOrConstant) : M ShapeHandle := MakeShapeOf [dim].
Definition Matrix (dim1 dim2 : DimensionOrConstant) : M ShapeHandle := MakeShapeOf [dim1; dim2].

(** ** Arithmetic on dimensions *)

Definition Divide (dividend : DimensionHandle) (divisor : DimensionOrConstant) (evenly_divisible : bool) : M DimensionHandle :=
  divisor_value ← Value divisor;
  if divisor_value =? 1 then mret dividend
  else
    k ← ValueKnown (of_dim dividend);
    unknown ← (if negb k then mret true
               else if bool_decide (is_Some (dim divisor)) then
                 kd ← ValueKnown (of_dim (dim divisor)); mret (negb kd)
               else mret false);
    if unknown : bool then UnknownDim
    else
      v ← Value (of_dim dividend);
      if divisor_value <=? 0 then InvalidArgument
      else if evenly_divisible && negb (Z.rem v divisor_value =? 0) then InvalidArgument
      else MakeDim (of_val (Z.quot v divisor_value)).

Definition Add (first : DimensionHandle) (second : DimensionOrConstant) : M DimensionHandle :=
  first_value ← Value (of_dim first);
  second_value ← Value second;
  if first_value =? 0 then MakeDim second
  else if second_value =? 0 then mret first
  else if (first_value =? kUnknownDim) || (second_value =? kUnknownDim) then UnknownDim
  else
    let sum := wrap_i64 (wrap_u64 (wrap_u64 first_value + wrap_u64 second_value)) in
    if sum <? 0 then InvalidArgument else MakeDim (of_val sum).

Definition Subtract (first : DimensionHandle) (second : DimensionOrConstant) : M DimensionHandle :=
  first_value ← Value (of_dim first);
  second_value ← Value second;
  if second_value =? 0 then mret first
  else if (first_value =? kUnknownDim) || (second_value =? kUnknownDim) then UnknownDim
  else if first_value <? second_value then InvalidArgument
  else MakeDim (of_val (wrap_i64 (first_value - second_value))).

Definition Multiply (first : DimensionHandle) (second : DimensionOrConstant) : M DimensionHandle :=
  first_value ← Value (of_dim first);
  second_value ← Value second;
  if first_value =? 0 then mret first
  else if second_value =? 0 then MakeDim second
  else if first_value =? 1 then MakeDim second
  else if second_value =? 1 then mret first
  else if (first_value =? kUnknownDim) || (second_value =? kUnknownDim) then UnknownDim
  else
    let product := Shape.MultiplyWithoutOverflow first_value second_value in
    if product <? 0 then InvalidArgument else MakeDim (of_val product).

Definition Min (first : DimensionHandle) (second : DimensionOrConstant) : M DimensionHandle :=
  first_value ← Value (of_dim first);
  second_value ← Value second;
  if first_value =? 0 then mret first
  else if second_value =? 0 then MakeDim second
  else if (first_value =? kUnknownDim) || (second_value =? kUnknownDim) then UnknownDim
  else if first_value <=? second_value then mret first
  else MakeDim second.

Definition Max (first : DimensionHandle) (second : DimensionOrConstant) : M DimensionHandle :=
  first_value ← Value (of_dim first);
  second_value ← Value second;
  if (first_value =? kUnknownDim) || (second_value =? kUnknownDim) then UnknownDim
  else if second_value <=? first_value then mret first
  else MakeDim second.

(** ** Inputs and outputs *)

Definition input (idx : Z) : M ShapeHandle := l ← gets inputs_; at_ l idx.
Definition SetInput (idx : Z) (shape : ShapeHandle) : M unit :=
  l ← gets inputs_; l' ← set_at l idx shape; modify (set_inputs l').
Definition output (idx : Z) : M ShapeHandle := l ← gets outputs_; at_ l idx.
Definition set_output (idx : Z) (shape : ShapeHandle) : M unit :=
  l ← gets outputs_; l' ← set_at l idx shape; modify (set_outputs l').

(** [NameRangeMap::find] *)
Definition find_name (name : string) (m : NameRangeMap) : option (Z * Z) :=
  snd <$> List.find (fun e => String.eqb name (fst e)) m.

(** [input(StringPiece, ...)] and [output(StringPiece, ...)] *)
Definition named (name : string) (m : NameRangeMap) (l : list ShapeHandle) : M (list ShapeHandle) :=
  match find_name name m with
  | None => InvalidArgument
  | Some (b, e) => mapM (at_ l) (seqZ b (e - b))
  end.
Definition input_named (name : string) : M (list ShapeHandle) :=
  m ← gets input_name_map_; l ← gets inputs_; named name m l.
Definition output_named (name : string) : M (list ShapeHandle) :=
  m ← gets output_name_map_; l ← gets outputs_; named name m l.

(** [set_output(StringPiece, ...)] *)
Fixpoint assign (l : list ShapeHandle) (start : Z) (shapes : list ShapeHandle) : M (list ShapeHandle) :=
  match shapes with
  | [] => mret l
  | s :: shapes' => l' ← set_at l start s; assign l' (start + 1) shapes'
  end.
Definition set_output_named (output_name : string) (shapes : list ShapeHandle) : M unit :=
  m ← gets output_name_map_;
  match find_name output_name m with
  | None => InvalidArgument
  | Some (start, e) =>
      if negb (e - start =? Z.of_nat (length shapes)) then InvalidArgument
      else l ← gets outputs_; l' ← assign l start shapes; modify (set_outputs l')
  end.

(** [std::vector::resize] *)
Definition resize {A} (l : list A) (n : Z) (a : A) : list A :=
  take (Z.to_nat n) l ++ replicate (Z.to_nat n - length l) a.

Definition ExpandOutputs (new_output_size : Z) : M unit :=
  outs ← gets outputs_;
  if new_output_size <? Z.of_nat (length outs) then InvalidArgument
  else
    modify (fun c => set_outputs (resize (outputs_ c) new_output_size None) c);;
    modify (fun c => set_handles (input_handle_shapes_and_types_ c)
                       (resize (output_handle_shapes_and_types_ c) new_output_size None) c).

Definition MergeInput (idx : Z) (shape : ShapeHandle) : M bool :=
  old ← input idx;
  r ← status (Merge old shape);
  match r with
  | Err _ => mret false
  | Ok new_shape => SetInput idx new_shape;; mret true
  end.

Definition RelaxInput (idx : Z) (shape : ShapeHandle) : M bool :=
  old ← input idx;
  new_shape ← Relax old shape;
  if SameHandle old new_shape then mret false else SetInput idx new_shape;; mret true.

(** ** Shapes from tensors, from other representations and from inputs *)

Definition request_input_tensor (idx : Z) : M unit :=
  l ← gets requested_input_tensor_; l' ← set_at l idx true;
  modify (fun c => set_requested l' (requested_input_tensor_as_partial_shape_ c) c).
Definition request_input_tensor_as_partial_shape (idx : Z) : M unit :=
  l ← gets requested_input_tensor_as_partial_shape_; l' ← set_at l idx true;
  modify (fun c => set_requested (requested_input_tensor_ c) l' c).
Definition input_tensor (idx : Z) : M (option Tensor) :=
  request_input_tensor idx;; l ← gets input_tensors_; at_ l idx.

(** The loops over the elements of a shape tensor *)
Definition dim_of_element (v : Z) : M DimensionHandle :=
  if v <? -1 then InvalidArgument else MakeDim (of_val v).

(** [1 << 25] *)
Definition max_dimensions : Z := 2 ^ 25.

(** [InternalMakeShapeFromTensor] *)
Definition InternalMakeShapeFromTensor (treat_unknown_scalar_tensor_as_unknown_shape : bool)
    (tensor : option Tensor) (tensor_shape : ShapeHandle) : M ShapeHandle :=
  tensor_shape ← (if negb treat_unknown_scalar_tensor_as_unknown_shape
                  then WithRank tensor_shape 1 else mret tensor_shape);
  match tensor with
  | None =>
      r ← Rank tensor_shape;
      if r =? 0 then UnknownShape
      else
        shape_dim ← Dim tensor_shape 0;
        known ← ValueKnown (of_dim shape_dim);
        if negb known then UnknownShape
        else
          num_dims ← Value (of_dim shape_dim);
          if max_dimensions <=? num_dims then fail (Status Shape.Internal)
          else
            check (0 <=? num_dims);;
            dims ← mapM (fun _ => UnknownDim) (upto num_dims);
            MakeShape dims
  | Some tn =>
      if tensor_dims tn =? 0 then
        if (tensor_dtype tn =? DT_INT32) || (tensor_dtype tn =? DT_INT64) then
          v ← at_ (flat tn) 0;
          if negb (v =? -1) then InvalidArgument else UnknownShape
        else InvalidArgument
      else if negb (tensor_dims tn =? 1) then InvalidArgument
      else if (tensor_dtype tn =? DT_INT32) || (tensor_dtype tn =? DT_INT64) then
        dims ← mapM dim_of_element (flat tn);
        MakeShape dims
      else InvalidArgument
  end.

Definition MakeShapeFromTensor (tensor : option Tensor) (tensor_shape : ShapeHandle) : M ShapeHandle :=
  InternalMakeShapeFromTensor false tensor tensor_shape.

(** The common part of the two functions below: [input_tensors_as_shapes_] if it is known *)
Definition from_shape_tensor (treat : bool) (input_idx : Z) (input_shape : ShapeHandle) : M ShapeHandle :=
  request_input_tensor_as_partial_shape input_idx;;
  as_shapes ← gets input_tensors_as_shapes_;
  known ← (if input_idx <? Z.of_nat (length as_shapes) then
             s ← at_ as_shapes input_idx;
             if bool_decide (is_Some s) then RankKnown s else mret false
           else mret false);
  if known : bool then at_ as_shapes input_idx
  else tensor ← input_tensor input_idx; InternalMakeShapeFromTensor treat tensor input_shape.

Definition MakeShapeFromShapeTensorTreatScalarAsUnknownShape (input_idx : Z) : M ShapeHandle :=
  s ← input input_idx;
  input_shape ← WithRankAtMost s 1;
  from_shape_tensor true input_idx input_shape.

Definition MakeShapeFromShapeTensor (input_idx : Z) : M ShapeHandle :=
  s ← input input_idx;
  input_shape ← WithRank s 1;
  from_shape_tensor false input_idx input_shape.

(** [MakeShapeFromPartialTensorShape], [MakeShapeFromTensorShape] and [MakeShapeFromShapeProto] *)
Definition MakeShapeFromPartialTensorShape (partial_shape : Shape.t) : M ShapeHandle :=
  if Shape.dims true partial_shape =? -1 then UnknownShape
  else
    dims ← mapM (fun i => MakeDim (of_val (Shape.dim_size true partial_shape i)))
             (upto (Shape.dims true partial_shape));
    MakeShape dims.

Definition MakeShapeFromTensorShape (s : Shape.t) : M ShapeHandle :=
  match l ← Shape.dim_sizes false s; Shape.FromDims true l with
  | Some p => MakeShapeFromPartialTensorShape p
  | None => fail Crash
  end.

Definition MakeShapeFromShapeProto (proto : Shape.Proto) : M ShapeHandle :=
  match Shape.IsValidShape true proto with
  | Err c => fail (Status c)
  | Ok _ =>
      match Shape.FromProto true proto with
      | Some p => MakeShapeFromPartialTensorShape p
      | None => fail Crash
      end
  end.

(** [GetScalarFromTensor], on a scalar and on an element of a vector *)
Definition GetScalarFromTensor (tn : Tensor) : M Z :=
  if negb (tensor_dims tn =? 0) then InvalidArgument
  else if (tensor_dtype tn =? DT_INT32) || (tensor_dtype tn =? DT_INT64) then at_ (flat tn) 0
  else InvalidArgument.
Definition GetScalarFromTensorAt (tn : Tensor) (idx : Z) : M Z :=
  if negb (tensor_dims tn =? 1) then InvalidArgument
  else if (tensor_dtype tn =? DT_INT32) || (tensor_dtype tn =? DT_INT64) then
    if (idx <? 0) || (Z.of_nat (length (flat tn)) <=? idx) then InvalidArgument else at_ (flat tn) idx
  else InvalidArgument.

Definition MakeDimForScalarInput (idx : Z) : M DimensionHandle :=
  tensor ← input_tensor idx;
  match tensor with
  | None => UnknownDim
  | Some tn =>
      v ← GetScalarFromTensor tn;
      if v <? 0 then InvalidArgument else MakeDim (of_val v)
  end.

Definition MakeDimForScalarInputWithNegativeIndexing (idx input_rank : Z) : M DimensionHandle :=
  tensor ← input_tensor idx;
  match tensor with
  | None => UnknownDim
  | Some tn =>
      v ← GetScalarFromTensor tn;
      if v <? 0 then
        if input_rank <? 0 then UnknownDim
        else if v + input_rank <? 0 then InvalidArgument
        else MakeDim (of_val (v + input_rank))
      else if (0 <=? input_rank) && (input_rank <=? v) then InvalidArgument
      else MakeDim (of_val v)
  end.

(** ** Shapes and types behind resource handles *)

(** The loop of [MergeHandleShapesAndTypes]: the new values and [refined],
    or [None] for [return false]; the type of a new value stays unset. *)
Fixpoint merge_handles (l olds : list ShapeAndType) (refined : bool) : M (option (list ShapeAndType * bool)) :=
  match l, olds with
  | n :: l', existing :: olds' =>
      if negb (dtype n =? dtype existing) && negb (dtype existing =? DT_INVALID) then mret None
      else
        let refined := if dtype n =? dtype existing then refined else true in
        r ← status (Merge (shape existing) (shape n));
        let s := match r with Ok s => s | Err _ => shape existing end in
        let refined := if negb (SameHandle (shape existing) s) then true else refined in
        rest ← merge_handles l' olds' refined;
        mret (p ← rest; Some (mkShapeAndType s (dtype n) unset_type :: fst p, snd p))
  | _, _ => mret (Some ([], refined))
  end.

(** [MergeHandleShapesAndTypes]: the result and the new [*to_update] *)
Definition MergeHandleShapesAndTypes (shapes_and_types to_update : list ShapeAndType) : M (bool * list ShapeAndType) :=
  if negb (length shapes_and_types =? length to_update)%nat then mret (false, to_update)
  else
    r ← merge_handles shapes_and_types to_update false;
    match r with
    | Some (new_values, true) => mret (true, new_values)
    | _ => mret (false, to_update)
    end.

Fixpoint relax_handles (l olds : list ShapeAndType) : M (option (list ShapeAndType)) :=
  match l, olds with
  | n :: l', existing :: olds' =>
      if negb (dtype n =? dtype existing) && negb (dtype existing =? DT_INVALID) then mret None
      else
        s ← Relax (shape existing) (shape n);
        rest ← relax_handles l' olds';
        mret (p ← rest; Some (mkShapeAndType s (dtype n) unset_type :: p))
  | _, _ => mret (Some [])
  end.

Definition RelaxHandleShapesAndMergeTypes (shapes_and_types to_update : list ShapeAndType) : M (bool * list ShapeAndType) :=
  if negb (length shapes_and_types =? length to_update)%nat then mret (false, to_update)
  else
    r ← relax_handles shapes_and_types to_update;
    match r with
    | Some new_values => mret (true, new_values)
    | None => mret (false, to_update)
    end.

(** The common part of the four functions below *)
Definition update_handles (f : list ShapeAndType -> list ShapeAndType -> M (bool * list ShapeAndType))
    (l : list (option (list ShapeAndType))) (idx : Z) (shapes_and_types : list ShapeAndType) :
    M (bool * list (option (list ShapeAndType))) :=
  o ← at_ l idx;
  match o with
  | None => l' ← set_at l idx (Some shapes_and_types); mret (true, l')
  | Some olds =>
      '(b, news) ← f shapes_and_types olds;
      l' ← set_at l idx (Some news);
      mret (b, l')
  end.
Definition update_input (f : list ShapeAndType -> list ShapeAndType -> M (bool * list ShapeAndType))
    (idx : Z) (shapes_and_types : list ShapeAndType) : M bool :=
  l ← gets input_handle_shapes_and_types_;
  '(b, l') ← update_handles f l idx shapes_and_types;
  modify (fun c => set_handles l' (output_handle_shapes_and_types_ c) c);;
  mret b.
Definition update_output (f : list ShapeAndType -> list ShapeAndType -> M (bool * list ShapeAndType))
    (idx : Z) (shapes_and_types : list ShapeAndType) : M bool :=
  l ← gets output_handle_shapes_and_types_;
  '(b, l') ← update_handles f l idx shapes_and_types;
  modify (fun c => set_handles (input_handle_shapes_and_types_ c) l' c);;
  mret b.

Definition MergeInputHandleShapesAndTypes := update_input MergeHandleShapesAndTypes.
Definition MergeOutputHandleShapesAndTypes := update_output MergeHandleShapesAndTypes.
Definition RelaxInputHandleShapesAndMergeTypes := update_input RelaxHandleShapesAndMergeTypes.
Definition RelaxOutputHandleShapesAndMergeTypes := update_output RelaxHandleShapesAndMergeTypes.

Definition set_input_handle_shapes_and_types (idx : Z) (shapes_and_types : list ShapeAndType) : M unit :=
  l ← gets input_handle_shapes_and_types_;
  l' ← set_at l idx (Some shapes_and_types);
  modify (fun c => set_handles l' (output_handle_shapes_and_types_ c) c).
Definition set_output_handle_shapes_and_types (idx : Z) (shapes_and_types : list ShapeAndType) : M unit :=
  l ← gets output_handle_shapes_and_types_;
  l' ← set_at l idx (Some shapes_and_types);
  modify (fun c => set_handles (input_handle_shapes_and_types_ c) l' c).

(** ** Construction and [Run] *)

Definition initial (shapes : list Shape) (dims : list Z) : t :=
  mkContext shapes dims [] [] [] [] [] [] [] [] unset_type [] [] None [] [].

(** [construction_status_ = s] *)
Definition set_status (s : option Shape.code) : M unit :=
  modify (fun c => set_node (ret_types_ c) (input_name_map_ c) (output_name_map_ c) s c).

(** The largest end of a range, at least 0 *)
Definition range_end (m : NameRangeMap) : Z := fold_left (fun n e => Z.max n (snd (snd e))) m 0.

Section Construction.
(** The results of [full_type::SpecializeType] and [NameRangesForNode] on the node. *)
Context (specialized : res Shape.code FullTypeDef) (name_ranges : res Shape.code (NameRangeMap * NameRangeMap)).

Definition PreInputInit (input_tensors : list (option Tensor)) (input_tensors_as_shapes : list ShapeHandle) : M unit :=
  match specialized with
  | Err c => set_status (Some c)
  | Ok ret =>
      modify (fun c => set_node ret (input_name_map_ c) (output_name_map_ c) (construction_status_ c) c);;
      modify (set_tensors input_tensors input_tensors_as_shapes);;
      match name_ranges with
      | Err c => set_status (Some c)
      | Ok (ins, outs) =>
          modify (set_node ret ins outs None);;
          modify (set_outputs (replicate (Z.to_nat (range_end outs)) None));;
          modify (fun c => set_handles (input_handle_shapes_and_types_ c)
                             (resize (output_handle_shapes_and_types_ c) (range_end outs) None) c)
      end
  end.

Definition PostInputInit (input_handle_data : list (option (list ShapeAndType))) : M unit :=
  ins ← gets inputs_;
  m ← gets input_name_map_;
  let num := Z.of_nat (length ins) in
  if negb (length input_handle_data =? 0)%nat && negb (length input_handle_data =? length ins)%nat
  then set_status (Some Shape.InvalidArgument)
  else
    modify (fun c => set_handles
      (if (length input_handle_data =? 0)%nat then resize (input_handle_shapes_and_types_ c) num None
       else input_handle_data) (output_handle_shapes_and_types_ c) c);;
    if negb (num =? range_end m) then set_status (Some Shape.InvalidArgument)
    else
      tensors ← gets input_tensors_;
      check (length tensors <=? length ins)%nat;;
      modify (fun c => set_tensors (resize (input_tensors_ c) num None) (input_tensors_as_shapes_ c) c);;
      modify (fun c => set_requested (resize (requested_input_tensor_ c) num false)
                         (resize (requested_input_tensor_as_partial_shape_ c) num false) c).

(** [if (!construction_status_.ok()) return;] *)
Definition unless_failed (m : M unit) : M unit :=
  s ← gets construction_status_;
  match s with Some _ => mret tt | None => m end.

(** The constructor from handles *)
Definition InferenceContext (input_shapes : list ShapeHandle) (input_tensors : list (option Tensor))
    (input_tensors_as_shapes : list ShapeHandle)
    (input_handle_shapes_and_types : list (option (list ShapeAndType))) : M unit :=
  PreInputInit input_tensors input_tensors_as_shapes;;
  unless_failed (
    modify (set_inputs input_shapes);;
    PostInputInit input_handle_shapes_and_types).

(** One entry of the handle data of the constructor below *)
Definition handle_entry (v : option (list (Shape.t * DataType))) : M (option (list ShapeAndType)) :=
  match v with
  | None => mret None
  | Some l =>
      new_v ← mapM (fun p => s ← MakeShapeFromPartialTensorShape (fst p);
                             mret (mkShapeAndType s (snd p) unset_type)) l;
      mret (Some new_v)
  end.

(** The constructor from partial shapes; [MakeShapeFromPartialTensorShape] always succeeds. *)
Definition InferenceContextFromPartial (input_shapes : list Shape.t) (input_tensors : list (option Tensor))
    (input_tensors_as_shapes : list Shape.t)
    (input_handle_shapes_and_types : list (option (list (Shape.t * DataType)))) : M unit :=
  as_shapes ← mapM MakeShapeFromPartialTensorShape input_tensors_as_shapes;
  PreInputInit input_tensors as_shapes;;
  unless_failed (
    inputs ← mapM MakeShapeFromPartialTensorShape input_shapes;
    modify (set_inputs inputs);;
    check (forallb (fun v => negb (bool_decide (is_Some v))) (drop (length input_shapes) input_handle_shapes_and_types));;
    handle_data ← mapM handle_entry input_handle_shapes_and_types;
    PostInputInit (resize handle_data (Z.of_nat (length input_shapes)) None)).
End Construction.

(** [Run]; the message that [AttachContext] adds to an error is not modelled. *)
Definition Run (fn : M unit) : M unit :=
  ForgetMerges;;
  r ← status fn;
  match r with
  | Ok _ => mret tt
  | Err c => ForgetMerges;; fail (Status c)
  end.

End Inference.
