(* ===== verification/InferenceSpec.v ===== *)
(** * Shape inference: handles, views and concrete sizes

    What a handle stands for, in two ways.  The view of a shape is what the
    context knows of it: nothing, or a list of sizes of which some are -1.
    An interpretation gives every unknown dimension a size and every shape of
    unknown rank a list of sizes, as an execution of the graph does.

    Calls are specified by two judgements: [outcome], a call does not crash and
    keeps the context well-formed, and [sound], for the sizes of a given
    execution the call succeeds and its result denotes the right sizes. *)

From S2P Require Import Prelude TensorShape ShapeInference.

Import Inference.

Module InferenceSpec.

(** ** Handles *)
Definition dim_at (st : t) (d : DimensionHandle) : option Z := i ← d; all_dims_ st !! i.
Definition shape_at (st : t) (s : ShapeHandle) : option Shape := i ← s; all_shapes_ st !! i.

Definition dim_ok (st : t) (d : DimensionHandle) : Prop := is_Some (dim_at st d).
Definition shape_ok (st : t) (s : ShapeHandle) : Prop := is_Some (shape_at st s).

(** The dimensions of a shape of known rank *)
Definition known (st : t) (s : ShapeHandle) : option (list DimensionHandle) :=
  o ← shape_at st s; if rank_ o =? kUnknownRank then None else Some (dims_ o).

(** What is known of a dimension and of a shape *)
Definition dimv (st : t) (d : DimensionHandle) : Z := default kUnknownDim (dim_at st d).
Definition view (st : t) (s : ShapeHandle) : option (list Z) := map (dimv st) <$> known st s.

(** ** Well-formed contexts *)
Definition shape_wf (st : t) (o : Shape) : Prop :=
  o = Shape_unknown \/
  (rank_ o = Z.of_nat (length (dims_ o)) /\ rank_ o <= kint32max /\ Forall (dim_ok st) (dims_ o)).

Record wf (st : t) : Prop := {
  wf_shapes : Forall (shape_wf st) (all_shapes_ st);
  wf_dims : Forall (fun v => -1 <= v < 2 ^ 63) (all_dims_ st)
}.

(** Later contexts have more objects and other merges, and nothing else changes. *)
Definition grow (st st' : t) : Prop :=
  exists shapes dims ms md,
    st' = set_merged ms md (set_objects (all_shapes_ st ++ shapes) (all_dims_ st ++ dims) st).

#[global] Instance grow_preorder : PreOrder grow.
Proof.
  split.
  - intros st. exists [], [], (merged_shapes_ st), (merged_dims_ st). rewrite !app_nil_r. by destruct st.
  - intros a b c (s1 & d1 & m1 & e1 & ->) (s2 & d2 & m2 & e2 & ->).
    exists (s1 ++ s2), (d1 ++ d2), m2, e2. simpl. unfold set_merged, set_objects. simpl. by rewrite !app_assoc.
Qed.

Lemma dim_at_grow st st' d v : grow st st' -> dim_at st d = Some v -> dim_at st' d = Some v.
Proof. intros (? & ? & ? & ? & ->). destruct d; simpl; [|done]. apply lookup_app_l_Some. Qed.

Lemma shape_at_grow st st' s o : grow st st' -> shape_at st s = Some o -> shape_at st' s = Some o.
Proof. intros (? & ? & ? & ? & ->). destruct s; simpl; [|done]. apply lookup_app_l_Some. Qed.

Lemma dim_ok_grow st st' d : grow st st' -> dim_ok st d -> dim_ok st' d.
Proof. intros G [v Hv]. exists v. by eapply dim_at_grow. Qed.

Lemma shape_ok_grow st st' s : grow st st' -> shape_ok st s -> shape_ok st' s.
Proof. intros G [v Hv]. exists v. by eapply shape_at_grow. Qed.

Lemma dims_ok_grow st st' l : grow st st' -> Forall (dim_ok st) l -> Forall (dim_ok st') l.
Proof. intros G H. eapply list.Forall_impl; [exact H|]. intros d. by apply dim_ok_grow. Qed.

Lemma dimv_grow st st' d : grow st st' -> dim_ok st d -> dimv st' d = dimv st d.
Proof. intros G [v Hv]. unfold dimv. by rewrite (dim_at_grow _ _ _ _ G Hv), Hv. Qed.

Lemma vals_grow st st' ds : grow st st' -> Forall (dim_ok st) ds -> map (dimv st') ds = map (dimv st) ds.
Proof. intros G. induction 1; simpl; [done|]. rewrite (dimv_grow st st') by done. by f_equal. Qed.

Lemma known_grow st st' s : grow st st' -> shape_ok st s -> known st' s = known st s.
Proof. intros G [o Ho]. unfold known. by rewrite (shape_at_grow _ _ _ _ G Ho), Ho. Qed.

Lemma known_ok st s ds : wf st -> known st s = Some ds ->
  Forall (dim_ok st) ds /\ Z.of_nat (length ds) <= kint32max /\ exists o, shape_at st s = Some o /\ rank_ o = Z.of_nat (length ds) /\ dims_ o = ds.
Proof.
  intros [Hs _] Hk. unfold known in Hk. destruct (shape_at st s) as [o|] eqn:Ho; [|done]. simpl in Hk.
  destruct (rank_ o =? kUnknownRank) eqn:E; [done|]. injection Hk as <-.
  destruct s as [i|]; [|done]. simpl in Ho. apply (list.Forall_lookup_1 _ _ _ _ Hs) in Ho as Hw.
  destruct Hw as [-> | (H1 & H2 & H3)]; [done|]. rewrite <- H1. eauto 6.
Qed.

Lemma known_at st s o : shape_at st s = Some o -> 0 <= rank_ o -> known st s = Some (dims_ o).
Proof. intros H Hr. unfold known, kUnknownRank. rewrite H. simpl. destruct (Z.eqb_spec (rank_ o) (-1)); [lia|done]. Qed.

Lemma known_shape st s ds : known st s = Some ds -> shape_ok st s.
Proof. unfold known. destruct (shape_at st s) eqn:E; [|done]. intros _. by exists s0. Qed.

Lemma view_grow st st' s : grow st st' -> wf st -> shape_ok st s -> view st' s = view st s.
Proof.
  intros G W Hs. unfold view. rewrite (known_grow _ _ _ G Hs).
  destruct (known st s) as [ds|] eqn:E; [|done]. simpl. f_equal. apply vals_grow; [done|]. by apply (known_ok _ _ _ W E).
Qed.

Lemma dimv_range st d : wf st -> -1 <= dimv st d < 2 ^ 63.
Proof.
  intros [_ Hd]. unfold dimv, dim_at, kUnknownDim. destruct d as [i|]; simpl; [|lia].
  destruct (all_dims_ st !! i) as [v|] eqn:E; simpl; [|lia]. by apply (list.Forall_lookup_1 _ _ _ _ Hd) in E.
Qed.

Create HintDb inference.
#[export] Hint Resolve dim_ok_grow shape_ok_grow dims_ok_grow known_shape : inference.

(** ** Interpretations *)
Record interp := mkInterp { dimI : nat -> Z; shapeI : nat -> list Z }.

Definition dI (I : interp) (d : DimensionHandle) : Z := match d with Some i => dimI I i | None => 0 end.
Definition sI (I : interp) (st : t) (s : ShapeHandle) : list Z :=
  match known st s with
  | Some ds => map (dI I) ds
  | None => match s with Some i => shapeI I i | None => [] end
  end.

(** The size of a dimension of a tensor *)
Definition size (x : Z) : Prop := 0 <= x < 2 ^ 63.

(** A dimension has its known value, and handles that were merged are equal. *)
Record models (I : interp) (st : t) : Prop := {
  models_dims : forall i v, all_dims_ st !! i = Some v -> size (dimI I i) /\ (v <> kUnknownDim -> dimI I i = v);
  models_shapes : forall i, (i < length (all_shapes_ st))%nat -> Forall size (shapeI I i);
  models_merged_shapes : Forall (fun p => sI I st p.1 = sI I st p.2 /\ shape_ok st p.1 /\ shape_ok st p.2) (merged_shapes_ st);
  models_merged_dims : Forall (fun p => dI I p.1 = dI I p.2 /\ dim_ok st p.1 /\ dim_ok st p.2) (merged_dims_ st)
}.

(** Interpretations that agree on the objects of a context *)
Definition agree (st : t) (I J : interp) : Prop :=
  (forall i, (i < length (all_dims_ st))%nat -> dimI J i = dimI I i) /\
  (forall i, (i < length (all_shapes_ st))%nat -> shapeI J i = shapeI I i).

Lemma agree_refl st I : agree st I I.
Proof. done. Qed.

Lemma grow_length st st' : grow st st' ->
  (length (all_dims_ st) <= length (all_dims_ st'))%nat /\ (length (all_shapes_ st) <= length (all_shapes_ st'))%nat.
Proof. intros (? & ? & ? & ? & ->). simpl. rewrite !length_app. lia. Qed.

Lemma agree_trans st st' I J K : grow st st' -> agree st I J -> agree st' J K -> agree st I K.
Proof.
  intros G%grow_length [A1 A2] [B1 B2].
  split; intros i Hi; [rewrite B1, A1 by lia|rewrite B2, A2 by lia]; done.
Qed.

Lemma dI_agree st I J d : agree st I J -> dim_ok st d -> dI J d = dI I d.
Proof. intros [A _] [v Hv]. destruct d as [i|]; [|done]. apply A. by apply lookup_lt_Some in Hv. Qed.

Lemma dIs_agree st I J ds : agree st I J -> Forall (dim_ok st) ds -> map (dI J) ds = map (dI I) ds.
Proof. intros Ag. induction 1; simpl; [done|]. rewrite (dI_agree st I J) by done. by f_equal. Qed.

Lemma sI_agree st st' I J s : wf st -> grow st st' -> agree st I J -> shape_ok st s -> sI J st' s = sI I st s.
Proof.
  intros W G A Hs. unfold sI. rewrite (known_grow _ _ _ G Hs). destruct (known st s) as [ds|] eqn:E.
  - apply (dIs_agree st); [done|]. by apply (known_ok _ _ _ W E).
  - destruct s as [i|]; [|done]. destruct Hs as [o Ho]. apply A. by apply lookup_lt_Some in Ho.
Qed.

Lemma dI_models I st d : models I st -> dim_ok st d ->
  size (dI I d) /\ (dimv st d <> kUnknownDim -> dI I d = dimv st d).
Proof.
  intros HM [v Hv]. unfold dimv. rewrite Hv. destruct d as [i|]; [|done]. simpl in *.
  by apply (models_dims _ _ HM).
Qed.

Lemma sI_size I st s : wf st -> models I st -> shape_ok st s -> Forall size (sI I st s).
Proof.
  intros W HM Hs. unfold sI. destruct (known st s) as [ds|] eqn:E.
  - destruct (known_ok _ _ _ W E) as [F _]. apply Forall_map. eapply list.Forall_impl; [exact F|].
    intros d Hd. by apply (dI_models I st).
  - destruct s as [i|], Hs as [o Ho]; [|done]. apply HM. by apply lookup_lt_Some in Ho.
Qed.

(** ** Judgements *)

(** The call does not crash, keeps the context well-formed and only adds to it; it fails only if [F]. *)
Definition outcome (F : Prop) {A} (m : M A) (st : t) (Q : A -> t -> Prop) : Prop :=
  match m st with
  | (Ok a, st') => grow st st' /\ wf st' /\ Q a st'
  | (Err e, st') => (F /\ exists c, e = Status c) /\ grow st st' /\ wf st'
  end.
Abbreviation safe := (outcome True).

(** For the sizes of [I] the call returns, and there are sizes of the new objects with which its result
    satisfies [Q]. *)
Definition sound {A} (I : interp) (m : M A) (st : t) (Q : interp -> A -> t -> Prop) : Prop :=
  exists a st' J, m st = (Ok a, st') /\ grow st st' /\ wf st' /\ agree st I J /\ models J st' /\ Q J a st'.

Section Rules.
Context {A B : Type} (F : Prop).
Implicit Types (m : M A) (k : A -> M B).

Lemma safe_ret (a : A) st (Q : A -> t -> Prop) : wf st -> Q a st -> outcome F (mret a) st Q.
Proof. by intros. Qed.

Lemma safe_status c st (Q : A -> t -> Prop) : wf st -> F -> outcome F (fail (Status c)) st Q.
Proof. intros W HF. split; [split; [done|by exists c]|done]. Qed.

Lemma safe_read m k a st Q : m st = (Ok a, st) -> outcome F (k a) st Q -> outcome F (m ≫= k) st Q.
Proof. intros E. unfold outcome, mbind, M_bind. by rewrite E. Qed.

Lemma safe_bind m k st P Q :
  outcome F m st P ->
  (forall a st', grow st st' -> wf st' -> P a st' -> outcome F (k a) st' Q) ->
  outcome F (m ≫= k) st Q.
Proof.
  unfold outcome, mbind, M_bind. destruct (m st) as [[a|e] st'].
  - intros (G & W & HP) Hk. specialize (Hk a st' G W HP). destruct (k a st') as [[b|e] st''].
    + destruct Hk as (G' & ? & ?). split; [by etrans|done].
    + destruct Hk as (? & G' & ?). split; [done|]. split; [by etrans|done].
  - done.
Qed.

Lemma safe_mono m st (P Q : A -> t -> Prop) :
  outcome F m st P -> (forall a st', grow st st' -> wf st' -> P a st' -> Q a st') -> outcome F m st Q.
Proof. unfold outcome. destruct (m st) as [[a|e] st']; [|done]. intros (? & ? & ?) HPQ. eauto. Qed.

Lemma safe_weaken (F' : Prop) m st (Q : A -> t -> Prop) : (F' -> F) -> outcome F' m st Q -> outcome F m st Q.
Proof. unfold outcome. intros H. destruct (m st) as [[a|e] st']; [done|]. intuition. Qed.

Lemma sound_ret I (a : A) st (Q : interp -> A -> t -> Prop) : wf st -> models I st -> Q I a st -> sound I (mret a) st Q.
Proof. intros. exists a, st, I. split_and!; done. Qed.

Lemma sound_read I m k a st Q : m st = (Ok a, st) -> sound I (k a) st Q -> sound I (m ≫= k) st Q.
Proof. intros E. unfold sound, mbind, M_bind. by rewrite E. Qed.

Lemma sound_bind I m k st P Q :
  sound I m st P ->
  (forall J a st', grow st st' -> wf st' -> agree st I J -> models J st' -> P J a st' -> sound J (k a) st' Q) ->
  sound I (m ≫= k) st Q.
Proof.
  intros (a & st1 & J & E & G & W & Ag & HM & HP) Hk.
  destruct (Hk J a st1 G W Ag HM HP) as (b & st2 & K & E2 & G2 & W2 & Ag2 & HM2 & HQ).
  exists b, st2, K. unfold mbind, M_bind. rewrite E. split_and!; try done; [by etrans|by eapply agree_trans].
Qed.

Lemma sound_mono I m st (P Q : interp -> A -> t -> Prop) :
  sound I m st P ->
  (forall J a st', grow st st' -> wf st' -> agree st I J -> P J a st' -> Q J a st') -> sound I m st Q.
Proof. intros (a & st' & J & ? & ? & ? & ? & ? & ?) HPQ. exists a, st', J. eauto 10. Qed.
End Rules.

(** Loops that collect results *)
Lemma mapM_cons {A B} (f : A -> M B) x l : mapM f (x :: l) = (y ← f x; k ← mapM f l; mret (y :: k)).
Proof. done. Qed.

Lemma safe_mapM (F : Prop) {A B} (f : A -> M B) l st (P : A -> B -> t -> Prop) :
  wf st ->
  (forall a b st1 st2, grow st1 st2 -> P a b st1 -> P a b st2) ->
  (forall x st', x ∈ l -> grow st st' -> wf st' -> outcome F (f x) st' (P x)) ->
  outcome F (mapM f l) st (fun bs st' => Forall2 (fun a b => P a b st') l bs).
Proof.
  intros W HP. revert st W. induction l as [|x l IH]; intros st W Hf; [by apply safe_ret|].
  rewrite mapM_cons. eapply safe_bind; [apply Hf; [by left|done|done]|]. intros b st1 G1 W1 Hb.
  eapply safe_bind.
  - apply IH; [done|]. intros y st2 Hy G2 W2. apply Hf; [by right|by etrans|done].
  - intros bs st2 G2 W2 Hbs. apply safe_ret; [done|]. constructor; [|done]. by eapply HP.
Qed.

Lemma mapM_read {A B} (f : A -> M B) (g : A -> B) l st :
  (forall x, x ∈ l -> f x st = (Ok (g x), st)) -> mapM f l st = (Ok (map g l), st).
Proof.
  induction l as [|x l IH]; intros Hf; [done|]. rewrite mapM_cons. unfold mbind, M_bind.
  rewrite Hf by by left. unfold mbind, M_bind in IH. rewrite IH; [done|]. intros y Hy. apply Hf. by right.
Qed.

Lemma sound_mapM {A B} (f : A -> M B) l st I (P : interp -> A -> B -> t -> Prop) :
  wf st -> models I st ->
  (forall I1 I2 a b st1 st2, wf st1 -> grow st1 st2 -> agree st1 I1 I2 -> P I1 a b st1 -> P I2 a b st2) ->
  (forall x st' J, x ∈ l -> grow st st' -> wf st' -> agree st I J -> models J st' -> sound J (f x) st' (fun K b st'' => P K x b st'')) ->
  sound I (mapM f l) st (fun J bs st' => Forall2 (fun a b => P J a b st') l bs).
Proof.
  intros W HM HP. revert st I W HM. induction l as [|x l IH]; intros st I W HM Hf; [by apply sound_ret|].
  rewrite mapM_cons. eapply sound_bind; [apply Hf; [by left|done..]|]. intros J b st1 G1 W1 A1 M1 Hb.
  eapply sound_bind.
  - apply IH; [done|done|]. intros y st2 K Hy G2 W2 A2 M2.
    apply Hf; [by right|by etrans|done|by eapply agree_trans|done].
  - intros K bs st2 G2 W2 A2 M2 Hbs. apply sound_ret; [done|done|]. constructor; [|done]. exact (HP _ _ _ _ _ _ W1 G2 A2 Hb).
Qed.

(** [TF_CHECK_OK] of a call that does not fail *)
Lemma safe_check_ok (F : Prop) {A} (m : M A) st Q : outcome False m st Q -> outcome F (check_ok m) st Q.
Proof.
  unfold outcome, check_ok, mbind, M_bind, status. destruct (m st) as [[a|e] st']; [done|]. by intros [[? _] _].
Qed.

Lemma sound_check_ok I {A} (m : M A) st Q : sound I m st Q -> sound I (check_ok m) st Q.
Proof.
  intros (a & st' & J & E & H). exists a, st', J. split; [|done].
  unfold check_ok, mbind, M_bind, status. by rewrite E.
Qed.

(** Calls that do the same *)
Lemma safe_ext F {A} (m m' : M A) st Q : m st = m' st -> outcome F m' st Q -> outcome F m st Q.
Proof. unfold outcome. by intros ->. Qed.

Lemma sound_ext I {A} (m m' : M A) st Q : m st = m' st -> sound I m' st Q -> sound I m st Q.
Proof. unfold sound. by intros ->. Qed.

Lemma sound_safe I F {A} (m : M A) st P Q : outcome F m st P -> sound I m st Q -> sound I m st (fun J a st' => P a st' /\ Q J a st').
Proof.
  intros HP (a & st' & J & E & ? & ? & ? & ? & ?). unfold outcome in HP. rewrite E in HP.
  exists a, st', J. by destruct HP as (_ & _ & ?).
Qed.

(** Loops over the positions of a vector *)
Lemma Forall2_upto {B} (P : Z -> B -> Prop) n bs : 0 <= n ->
  Forall2 P (upto n) bs <-> Z.of_nat (length bs) = n /\ forall i b, bs !! i = Some b -> P (Z.of_nat i) b.
Proof.
  intros Hn. unfold upto. split.
  - intros H. pose proof (Forall2_length _ _ _ H) as E. rewrite length_seqZ in E. split; [lia|].
    intros i b Hb. destruct (Forall2_lookup_r _ _ _ _ _ H Hb) as (x & Hx & HP).
    apply lookup_seqZ in Hx as [-> _]. exact HP.
  - intros [E H]. apply Forall2_same_length_lookup_2; [rewrite length_seqZ; lia|].
    intros i x b Hx Hb. apply lookup_seqZ in Hx as [-> _]. by apply H.
Qed.

(** ** Reading *)
Section Reading.
Context (st : t) (W : wf st).

Definition rankv (s : ShapeHandle) : Z :=
  match known st s with Some ds => Z.of_nat (length ds) | None => kUnknownRank end.

Lemma Value_dim d : dim_ok st d -> Value (of_dim d) st = (Ok (dimv st d), st).
Proof. intros [v Hv]. unfold Value, dimv. rewrite Hv. destruct d as [i|]; [|done]. simpl in *. by rewrite Hv. Qed.

Lemma ValueKnown_dim d : dim_ok st d -> ValueKnown (of_dim d) st = (Ok (negb (dimv st d =? kUnknownDim)), st).
Proof. intros Hd. unfold ValueKnown, mbind, M_bind. by rewrite Value_dim. Qed.

Lemma Value_val v : Value (of_val v) st = (Ok v, st).
Proof. done. Qed.

Lemma deref_at s o : shape_at st s = Some o -> deref s st = (Ok o, st).
Proof. intros H. unfold deref, shape_at in *. by rewrite H. Qed.

Lemma Rank_ok s : shape_ok st s -> Rank s st = (Ok (rankv s), st).
Proof.
  intros [o Ho]. unfold Rank. destruct s as [i|]; [|done]. unfold mbind, M_bind. rewrite (deref_at _ _ Ho).
  unfold mret, M_ret, rankv. destruct (known st (Some i)) as [ds|] eqn:E.
  - destruct (known_ok _ _ _ W E) as (_ & _ & o' & Ho' & <- & _). by simplify_eq.
  - unfold known in E. rewrite Ho in E. simpl in E. destruct (rank_ o =? kUnknownRank) eqn:Er; [|done]. apply Z.eqb_eq in Er. by rewrite Er.
Qed.

Lemma rankv_known s : (rankv s =? kUnknownRank) = negb (bool_decide (is_Some (known st s))).
Proof.
  unfold rankv, kUnknownRank. destruct (known st s) as [ds|] eqn:E.
  - rewrite (bool_decide_eq_true_2 (is_Some (Some ds))) by eauto. apply Z.eqb_neq. lia.
  - rewrite bool_decide_eq_false_2; [done|]. by intros [? ?].
Qed.

Lemma RankKnown_ok s : shape_ok st s -> RankKnown s st = (Ok (bool_decide (is_Some (known st s))), st).
Proof.
  intros H. unfold RankKnown. destruct s as [i|]; [|by destruct H].
  unfold mbind, M_bind. rewrite Rank_ok by done. by rewrite rankv_known, negb_involutive.
Qed.

Lemma Dim_known s ds i d : known st s = Some ds -> 0 <= i -> ds !! Z.to_nat i = Some d -> Dim s i st = (Ok d, st).
Proof.
  intros Hk Hi Hd. destruct (known_ok _ _ _ W Hk) as (_ & _ & o & Ho & Hr & <-).
  unfold Dim. destruct s as [j|]; [|done]. unfold mbind, M_bind. rewrite (deref_at _ _ Ho).
  destruct (rank_ o =? kUnknownRank) eqn:E; [rewrite Hr in E; unfold kUnknownRank in E; lia|].
  unfold DimKnownRank, mbind, M_bind. rewrite (deref_at _ _ Ho), E. simpl.
  destruct (Z.ltb_spec i 0); [lia|]. unfold at_. destruct (Z.leb_spec 0 i); [|lia]. by rewrite Hd.
Qed.

Lemma Dim_negative s ds i d : known st s = Some ds -> i < 0 -> 0 <= Z.of_nat (length ds) + i ->
  ds !! Z.to_nat (Z.of_nat (length ds) + i) = Some d -> Dim s i st = (Ok d, st).
Proof.
  intros Hk Hi Hl Hd. destruct (known_ok _ _ _ W Hk) as (_ & Hm & o & Ho & Hr & <-).
  unfold Dim. destruct s as [j|]; [|done]. unfold mbind, M_bind. rewrite (deref_at _ _ Ho).
  destruct (rank_ o =? kUnknownRank) eqn:E; [rewrite Hr in E; unfold kUnknownRank in E; lia|].
  unfold DimKnownRank, mbind, M_bind. rewrite (deref_at _ _ Ho), E. simpl.
  destruct (Z.ltb_spec i 0); [|lia]. unfold kint32max, i32_max in Hm. rewrite wrap_u64_id by (unfold in_u64; lia).
  unfold at_. destruct (Z.leb_spec 0 (Z.of_nat (length (dims_ o)) + i)); [|lia]. by rewrite Hd.
Qed.

Lemma Dim_unknown s i : shape_ok st s -> known st s = None -> Dim s i st = UnknownDim st.
Proof.
  intros [o Ho] Hk. unfold Dim. destruct s as [j|]; [|done]. unfold mbind, M_bind. rewrite (deref_at _ _ Ho).
  unfold known in Hk. rewrite Ho in Hk. simpl in Hk. by destruct (rank_ o =? kUnknownRank).
Qed.
End Reading.

(** ** New objects and merges *)

Lemma wf_grow_shapes st st' : wf st -> grow st st' -> Forall (shape_wf st') (all_shapes_ st).
Proof.
  intros [Hs _] G. eapply list.Forall_impl; [exact Hs|]. intros o [-> | (H1 & H2 & H3)]; [by left|right].
  split_and!; try done. by eapply dims_ok_grow.
Qed.

Definition push_dim (v : Z) (st : t) : t := set_objects (all_shapes_ st) (all_dims_ st ++ [v]) st.
Definition push_obj (o : Shape) (st : t) : t := set_objects (all_shapes_ st ++ [o]) (all_dims_ st) st.

Lemma push_dim_grow v st : grow st (push_dim v st).
Proof. exists [], [v], (merged_shapes_ st), (merged_dims_ st). by rewrite app_nil_r. Qed.

Lemma push_obj_grow o st : grow st (push_obj o st).
Proof. exists [o], [], (merged_shapes_ st), (merged_dims_ st). by rewrite app_nil_r. Qed.

Lemma merges_grow ms md st : grow st (set_merged ms md st).
Proof. exists [], [], ms, md. rewrite !app_nil_r. by destruct st. Qed.

Lemma push_dim_wf v st : wf st -> -1 <= v < 2 ^ 63 -> wf (push_dim v st).
Proof.
  intros W Hv. split; simpl.
  - apply wf_grow_shapes; [done|apply push_dim_grow].
  - apply Forall_app. split; [apply W|by constructor].
Qed.

Lemma push_obj_wf o st : wf st -> shape_wf st o -> wf (push_obj o st).
Proof.
  intros W Ho. pose proof (push_obj_grow o st) as G. split; simpl; [|apply W].
  apply Forall_app. split; [by apply wf_grow_shapes|]. constructor; [|done].
  destruct Ho as [-> | (H1 & H2 & H3)]; [by left|right]. by split_and!.
Qed.

Lemma merges_wf ms md st : wf st -> wf (set_merged ms md st).
Proof. intros W. split; simpl; [|apply W]. apply (wf_grow_shapes st); [done|apply merges_grow]. Qed.

(** An interpretation with a new size or a new list of sizes *)
Definition with_dim (I : interp) (i : nat) (x : Z) : interp :=
  mkInterp (fun j => if (j =? i)%nat then x else dimI I j) (shapeI I).
Definition with_shape (I : interp) (i : nat) (l : list Z) : interp :=
  mkInterp (dimI I) (fun j => if (j =? i)%nat then l else shapeI I j).

Lemma agree_with_dim st I x : agree st I (with_dim I (length (all_dims_ st)) x).
Proof. split; [|done]. intros i Hi. simpl. destruct (Nat.eqb_spec i (length (all_dims_ st))); [lia|done]. Qed.

Lemma agree_with_shape st I l : agree st I (with_shape I (length (all_shapes_ st)) l).
Proof. split; [done|]. intros i Hi. simpl. destruct (Nat.eqb_spec i (length (all_shapes_ st))); [lia|done]. Qed.

Lemma models_extend st st' I J :
  wf st -> grow st st' -> agree st I J -> models I st ->
  merged_shapes_ st' = merged_shapes_ st -> merged_dims_ st' = merged_dims_ st ->
  (forall i v, (length (all_dims_ st) <= i)%nat -> all_dims_ st' !! i = Some v ->
    size (dimI J i) /\ (v <> kUnknownDim -> dimI J i = v)) ->
  (forall i, (length (all_shapes_ st) <= i < length (all_shapes_ st'))%nat -> Forall size (shapeI J i)) ->
  models J st'.
Proof.
  intros W G Ag HM Es Ed Hnew Hnew'. split.
  - intros i v Hv. destruct (decide (length (all_dims_ st) <= i)%nat) as [Hi|Hi]; [by apply Hnew|].
    rewrite (proj1 Ag) by lia. apply (models_dims _ _ HM). destruct G as (? & ? & ? & ? & ->). simpl in Hv.
    by rewrite lookup_app_l in Hv by lia.
  - intros i Hi. destruct (decide (length (all_shapes_ st) <= i)%nat); [by apply Hnew'|].
    rewrite (proj2 Ag) by lia. apply HM. lia.
  - rewrite Es. eapply list.Forall_impl; [apply HM|]. intros [s0 s1] (E & H0 & H1). simpl in *.
    rewrite !(sI_agree st st' I J) by done. split_and!; eauto with inference.
  - rewrite Ed. eapply list.Forall_impl; [apply HM|]. intros [d0 d1] (E & H0 & H1). simpl in *.
    rewrite !(dI_agree st I J) by done. split_and!; eauto with inference.
Qed.

(** Specifications of the primitives *)
Section Primitives.
Context (st : t) (W : wf st) (F : Prop).

Lemma dim_at_push v : dim_at (push_dim v st) (Some (length (all_dims_ st))) = Some v.
Proof. simpl. by rewrite lookup_app_r, Nat.sub_diag by lia. Qed.

Lemma shape_at_push o : shape_at (push_obj o st) (Some (length (all_shapes_ st))) = Some o.
Proof. simpl. by rewrite lookup_app_r, Nat.sub_diag by lia. Qed.

Lemma safe_MakeDim_val v : -1 <= v < 2 ^ 63 ->
  outcome F (MakeDim (of_val v)) st (fun d st' => dim_ok st' d /\ dimv st' d = v).
Proof.
  intros Hv. change (MakeDim (of_val v)) with (fun st => (Ok (E:=err) (Some (length (all_dims_ st))), push_dim v st)).
  split_and!; [apply push_dim_grow|by apply push_dim_wf|exists v; apply dim_at_push|].
  unfold dimv. by rewrite dim_at_push.
Qed.

Lemma safe_UnknownDim : outcome F UnknownDim st (fun d st' => dim_ok st' d /\ dimv st' d = kUnknownDim).
Proof. apply safe_MakeDim_val. unfold kUnknownDim. lia. Qed.

Lemma Shape_of_wf ds : Forall (dim_ok st) ds -> Z.of_nat (length ds) <= kint32max ->
  shape_wf st (Shape_of ds) /\ rank_ (Shape_of ds) = Z.of_nat (length ds).
Proof.
  intros Hd Hl. unfold Shape_of, kint32max, i32_max in *. rewrite wrap_i32_id by (unfold in_i32; lia). by split; [right|].
Qed.

Lemma known_push ds : Forall (dim_ok st) ds -> Z.of_nat (length ds) <= kint32max ->
  known (push_obj (Shape_of ds) st) (Some (length (all_shapes_ st))) = Some ds.
Proof.
  intros Hd Hl. destruct (Shape_of_wf ds Hd Hl) as [_ Hr]. by rewrite (known_at _ _ _ (shape_at_push _)) by lia.
Qed.

Lemma safe_MakeShape ds : Forall (dim_ok st) ds -> Z.of_nat (length ds) <= kint32max ->
  outcome F (MakeShape ds) st (fun s st' => known st' s = Some ds /\ view st' s = Some (map (dimv st) ds)).
Proof.
  intros Hd Hl. change (MakeShape ds) with (fun st => (Ok (E:=err) (Some (length (all_shapes_ st))), push_obj (Shape_of ds) st)).
  split_and!; [apply push_obj_grow|by apply push_obj_wf, Shape_of_wf|by apply known_push|].
  unfold view. by rewrite known_push.
Qed.

Lemma safe_UnknownShape : outcome F UnknownShape st (fun s st' => shape_ok st' s /\ known st' s = None).
Proof.
  change UnknownShape with (fun st => (Ok (E:=err) (Some (length (all_shapes_ st))), push_obj Shape_unknown st)).
  split_and!; [apply push_obj_grow|by apply push_obj_wf; [|left]|eexists; apply shape_at_push|].
  unfold known. by rewrite shape_at_push.
Qed.

Lemma safe_ForgetMerges : outcome F ForgetMerges st (fun _ _ => True).
Proof. split_and!; [apply merges_grow|by apply merges_wf|done]. Qed.

Lemma safe_record_shapes s0 s1 : outcome F (record_shapes s0 s1) st (fun _ _ => True).
Proof. split_and!; [apply merges_grow|by apply merges_wf|done]. Qed.

Lemma safe_record_dims d0 d1 : outcome F (record_dims d0 d1) st (fun _ _ => True).
Proof. split_and!; [apply merges_grow|by apply merges_wf|done]. Qed.

Context (I : interp) (HM : models I st).

(** A new dimension may have any size its value allows. *)
Lemma sound_MakeDim v x : -1 <= v < 2 ^ 63 -> size x -> (v <> kUnknownDim -> x = v) ->
  sound I (MakeDim (of_val v)) st (fun J d st' => dim_ok st' d /\ dimv st' d = v /\ dI J d = x).
Proof.
  intros Hv Hx Hvx. exists (Some (length (all_dims_ st))), (push_dim v st), (with_dim I (length (all_dims_ st)) x).
  pose proof (push_dim_grow v st) as G. pose proof (agree_with_dim st I x) as Ag.
  split_and!; try done; [by apply push_dim_wf| |eexists; apply dim_at_push|by unfold dimv; rewrite dim_at_push|].
  - apply (models_extend st _ I); try done; [|simpl; lia]. intros i u Hi Hu. simpl in *.
    rewrite lookup_app_r in Hu by lia. destruct (i - length (all_dims_ st))%nat as [|[|?]] eqn:E; try done.
    injection Hu as <-. by replace i with (length (all_dims_ st)) by lia; rewrite Nat.eqb_refl.
  - simpl. by rewrite Nat.eqb_refl.
Qed.

Lemma sound_UnknownDim x : size x ->
  sound I UnknownDim st (fun J d st' => dim_ok st' d /\ dimv st' d = kUnknownDim /\ dI J d = x).
Proof. intros Hx. by apply sound_MakeDim. Qed.

Lemma sound_push o l : shape_wf st o -> Forall size l ->
  sound I (push_shape o) st (fun J s st' => shape_at st' s = Some o /\ (rank_ o = kUnknownRank -> sI J st' s = l)).
Proof.
  intros Ho Hl. exists (Some (length (all_shapes_ st))), (push_obj o st), (with_shape I (length (all_shapes_ st)) l).
  pose proof (push_obj_grow o st) as G. pose proof (agree_with_shape st I l) as Ag.
  split_and!; try done; [by apply push_obj_wf| | |].
  - apply (models_extend st _ I); try done.
    + intros i u Hi Hu%lookup_lt_Some. simpl in *. lia.
    + intros i Hi. simpl in *. rewrite length_app in Hi. simpl in Hi.
      replace i with (length (all_shapes_ st)) by lia. by rewrite Nat.eqb_refl.
  - apply shape_at_push.
  - intros Hr. unfold sI, known. rewrite shape_at_push. simpl. by rewrite Hr, Nat.eqb_refl.
Qed.

Lemma sound_UnknownShape l : Forall size l ->
  sound I UnknownShape st (fun J s st' => shape_ok st' s /\ known st' s = None /\ sI J st' s = l).
Proof.
  intros Hl. eapply sound_mono; [apply (sound_push Shape_unknown l); [by left|done]|]. intros J s st' _ _ _ [Hs Hl'].
  unfold shape_ok, known. rewrite Hs. split_and!; [done|done|by apply Hl'].
Qed.

Lemma sound_MakeShape ds : Forall (dim_ok st) ds -> Z.of_nat (length ds) <= kint32max ->
  sound I (MakeShape ds) st (fun J s st' => known st' s = Some ds /\ sI J st' s = map (dI I) ds).
Proof.
  intros Hd Hl. destruct (Shape_of_wf ds Hd Hl) as [Hw Hr].
  eapply sound_mono; [by apply (sound_push (Shape_of ds) [])|]. intros J s st' _ _ Ag [Hs _].
  assert (known st' s = Some ds) as Hk by by rewrite (known_at _ _ _ Hs) by lia.
  split; [done|]. unfold sI. rewrite Hk. by apply (dIs_agree st).
Qed.

Lemma sound_merges ms md :
  Forall (fun p => sI I st p.1 = sI I st p.2 /\ shape_ok st p.1 /\ shape_ok st p.2) ms ->
  Forall (fun p => dI I p.1 = dI I p.2 /\ dim_ok st p.1 /\ dim_ok st p.2) md ->
  sound I (modify (set_merged ms md)) st (fun J _ st' => J = I).
Proof.
  intros Hms Hmd. exists tt, (set_merged ms md st), I.
  split_and!; [done|apply merges_grow|by apply merges_wf|done| |done]. split; [apply HM|apply HM|done|done].
Qed.

Lemma sound_record_shapes s0 s1 : shape_ok st s0 -> shape_ok st s1 -> sI I st s0 = sI I st s1 ->
  sound I (record_shapes s0 s1) st (fun J _ st' => J = I).
Proof.
  intros H0 H1 E. destruct (sound_merges (merged_shapes_ st ++ [(s0, s1)]) (merged_dims_ st)) as (a & st' & J & ?); [|apply HM|by exists a, st', J].
  apply Forall_app. split; [apply HM|]. by constructor.
Qed.

Lemma sound_record_dims d0 d1 : dim_ok st d0 -> dim_ok st d1 -> dI I d0 = dI I d1 ->
  sound I (record_dims d0 d1) st (fun J _ st' => J = I).
Proof.
  intros H0 H1 E. destruct (sound_merges (merged_shapes_ st) (merged_dims_ st ++ [(d0, d1)])) as (a & st' & J & ?); [apply HM| |by exists a, st', J].
  apply Forall_app. split; [apply HM|]. by constructor.
Qed.
End Primitives.

End InferenceSpec.
