(* ===== verification/InferenceMerge.v ===== *)
(** * Shape inference: merging and relaxing

    The information order on views and what [Merge], [Relax], [WithRank],
    [WithValue] and [MergePrefix] do in it. *)

From S2P Require Import Prelude TensorShape ShapeInference InferenceSpec.

Import Inference InferenceSpec.

Module InferenceMerge.

(** ** The order of information *)
Definition dim_le (x y : Z) : Prop := x = kUnknownDim \/ x = y.
Definition shape_le (a b : option (list Z)) : Prop :=
  match a, b with
  | None, _ => True
  | Some l, Some k => Forall2 dim_le l k
  | Some _, None => False
  end.

(** Two pieces of information together, and what they have in common *)
Definition join_dim (x y : Z) : Z := if y =? kUnknownDim then x else if x =? kUnknownDim then y else x.
Definition join (a b : option (list Z)) : option (list Z) :=
  match a, b with
  | None, _ => b
  | _, None => a
  | Some l, Some k => Some (zip_with join_dim l k)
  end.
Definition meet_dim (x y : Z) : Z := if x =? y then x else kUnknownDim.
Definition meet (a b : option (list Z)) : option (list Z) :=
  match a, b with
  | Some l, Some k => if (length l =? length k)%nat then Some (zip_with meet_dim l k) else None
  | _, _ => None
  end.

Definition compat_dim (x y : Z) : Prop := x = kUnknownDim \/ y = kUnknownDim \/ x = y.
Definition compat (a b : option (list Z)) : Prop :=
  match a, b with Some l, Some k => Forall2 compat_dim l k | _, _ => True end.

#[global] Instance dim_le_po : PartialOrder dim_le.
Proof.
  unfold dim_le. split; [split|].
  - intros x. by right.
  - intros x y z [-> | ->]; eauto.
  - intros x y [-> | ->] [E | E]; congruence.
Qed.

#[global] Instance shape_le_preorder : PreOrder shape_le.
Proof.
  split.
  - intros [l|]; [|done]. simpl. reflexivity.
  - intros [a|] [b|] [c|]; simpl; try done. intros. by etrans.
Qed.

(** The join of compatible views is their least upper bound; others have none. *)
Definition is_lub (v a b : option (list Z)) : Prop :=
  shape_le a v /\ shape_le b v /\ forall w, shape_le a w -> shape_le b w -> shape_le v w.

Lemma join_dim_lub x y : compat_dim x y ->
  dim_le x (join_dim x y) /\ dim_le y (join_dim x y) /\ forall z, dim_le x z -> dim_le y z -> dim_le (join_dim x y) z.
Proof. unfold compat_dim, dim_le, join_dim. intros H. split_and!; repeat case_if; intuition congruence. Qed.

Lemma join_lub a b : compat a b -> is_lub (join a b) a b.
Proof.
  destruct a as [l|], b as [k|]; simpl; intros H; try by split_and!.
  split_and!.
  - simpl. induction H; simpl; constructor; [by apply join_dim_lub|done].
  - simpl. induction H; simpl; constructor; [by apply join_dim_lub|done].
  - intros [w|] Hl Hk; [|done]. simpl in *. revert w Hl Hk.
    induction H; intros w Hl Hk; inversion Hl; simplify_eq; inversion Hk; simplify_eq; simpl; constructor; [by apply join_dim_lub|by eauto].
Qed.

Lemma compat_upper a b w : shape_le a w -> shape_le b w -> compat a b.
Proof.
  destruct a as [l|], b as [k|], w as [w|]; simpl; try done. intros Hl. revert k.
  induction Hl as [|x z l w Hx _ IH]; intros k Hk; inversion Hk; simplify_eq; constructor; [|by apply IH].
  unfold dim_le, compat_dim in *. intuition congruence.
Qed.

(** The meet of two views is their greatest lower bound. *)
Definition is_glb (v a b : option (list Z)) : Prop :=
  shape_le v a /\ shape_le v b /\ forall w, shape_le w a -> shape_le w b -> shape_le w v.

Lemma meet_dim_glb x y :
  dim_le (meet_dim x y) x /\ dim_le (meet_dim x y) y /\ forall z, dim_le z x -> dim_le z y -> dim_le z (meet_dim x y).
Proof. unfold dim_le, meet_dim. split_and!; intros; repeat case_if; intuition congruence. Qed.

Lemma meet_glb a b : is_glb (meet a b) a b.
Proof.
  destruct a as [l|], b as [k|]; simpl; try by (split_and!; [..|intros [w|]]).
  destruct (Nat.eqb_spec (length l) (length k)) as [E|E].
  - revert k E. induction l as [|x l IH]; intros [|y k] E; try done.
    injection E as E. destruct (IH k E) as (H1 & H2 & H3). destruct (meet_dim_glb x y) as (D1 & D2 & D3).
    split_and!; simpl in *; [by constructor..|]. intros [w|] Hl Hk; [|done].
    inversion Hl; simplify_eq; inversion Hk; simplify_eq. constructor; [by apply D3|]. by apply (H3 (Some _)).
  - split_and!; [done|done|]. intros [w|]; [|done]. simpl. intros Hl%Forall2_length Hk%Forall2_length. lia.
Qed.

(** ** Dimensions *)
Section Dims.
Context (st : t) (W : wf st) (d0 d1 : DimensionHandle) (H0 : dim_ok st d0) (H1 : dim_ok st d1).

Lemma MergeDim_run :
  MergeDim d0 d1 st =
    if SameHandle d0 d1 then (Ok d0, st)
    else if dimv st d1 =? kUnknownDim then (record_dims d0 d1;; mret d0) st
    else if dimv st d0 =? kUnknownDim then (record_dims d0 d1;; mret d1) st
    else if dimv st d0 =? dimv st d1 then (Ok d0, st) else (Err (Status Shape.InvalidArgument), st).
Proof.
  unfold MergeDim. destruct (SameHandle d0 d1); [done|].
  unfold mbind at 1, M_bind at 1. rewrite ValueKnown_dim, negb_involutive by done.
  destruct (dimv st d1 =? kUnknownDim); [done|].
  unfold mbind at 1, M_bind at 1. rewrite ValueKnown_dim, negb_involutive by done.
  destruct (dimv st d0 =? kUnknownDim); [done|].
  unfold mbind, M_bind. rewrite !Value_dim by done. by destruct (dimv st d0 =? dimv st d1).
Qed.

Lemma same_handle a b : SameHandle a b = true -> a = b.
Proof. apply bool_decide_eq_true_1. Qed.

(** The merged dimension is one of the two and knows what either of them knows. *)
Lemma safe_MergeDim :
  outcome (~ compat_dim (dimv st d0) (dimv st d1)) (MergeDim d0 d1) st (fun d st' =>
    (d = d0 \/ d = d1) /\ dimv st d = join_dim (dimv st d0) (dimv st d1)
    /\ all_shapes_ st' = all_shapes_ st /\ all_dims_ st' = all_dims_ st).
Proof.
  unfold outcome. rewrite MergeDim_run. unfold join_dim, compat_dim.
  destruct (SameHandle d0 d1) eqn:Es; [apply same_handle in Es as ->|].
  { split_and!; try done; [by left|]. by repeat case_if. }
  destruct (dimv st d1 =? kUnknownDim) eqn:E1.
  { split_and!; try done; [apply merges_grow|by apply merges_wf|by left]. }
  destruct (dimv st d0 =? kUnknownDim) eqn:E0.
  { split_and!; try done; [apply merges_grow|by apply merges_wf|by right]. }
  zbool. destruct (Z.eqb_spec (dimv st d0) (dimv st d1)).
  - split_and!; try done. by left.
  - split_and!; try done; [intuition congruence|by eexists].
Qed.

Lemma sound_MergeDim I : models I st -> dI I d0 = dI I d1 ->
  sound I (MergeDim d0 d1) st (fun J d st' =>
    J = I /\ (d = d0 \/ d = d1) /\ dI I d = dI I d0 /\ all_shapes_ st' = all_shapes_ st /\ all_dims_ st' = all_dims_ st).
Proof.
  intros HM E. unfold sound. rewrite MergeDim_run.
  destruct (SameHandle d0 d1) eqn:Es; [exists d0, st, I; split_and!; try done; by left|].
  destruct (sound_record_dims st W I HM d0 d1 H0 H1 E) as ([] & st' & J & Er & G & W' & Ag & HM' & ->).
  injection Er as <-. destruct (dI_models _ _ _ HM H0) as [_ K0], (dI_models _ _ _ HM H1) as [_ K1].
  destruct (Z.eqb_spec (dimv st d1) kUnknownDim); [eexists d0, _, I; by split_and!; try done; eauto|].
  destruct (Z.eqb_spec (dimv st d0) kUnknownDim); [eexists d1, _, I; split_and!; try done; eauto|].
  destruct (Z.eqb_spec (dimv st d0) (dimv st d1)); [exists d0, st, I; split_and!; try done; eauto|].
  exfalso. rewrite K0, K1 in E by done. done.
Qed.
End Dims.

(** ** Shapes *)

Lemma upto_elem i n : i ∈ upto n <-> 0 <= i < n.
Proof. unfold upto. rewrite elem_of_seqZ. lia. Qed.

Lemma drop_next {A} (l : list A) k x r : drop k l = x :: r -> l !! k = Some x /\ drop (S k) l = r.
Proof.
  intros H. split.
  - by rewrite <- (Nat.add_0_r k), <- lookup_drop, H.
  - replace (S k) with (k + 1)%nat by lia. by rewrite <- drop_drop, H.
Qed.

Section Scan.
Context (st : t) (W : wf st) (s0 s1 : ShapeHandle) (ds0 ds1 : list DimensionHandle).
Context (K0 : known st s0 = Some ds0) (K1 : known st s1 = Some ds1).

Abbreviation vals := (map (dimv st)).

Lemma dim_ok_drop s ds k d r : known st s = Some ds -> drop k ds = d :: r ->
  dim_ok st d /\ Dim s (Z.of_nat k) st = (Ok d, st).
Proof.
  intros Hk [Hd _]%drop_next. split.
  - destruct (known_ok _ _ _ W Hk) as [F _]. by apply (list.Forall_lookup_1 _ _ _ _ F Hd).
  - eapply Dim_known; [done|done|lia|]. by rewrite Nat2Z.id.
Qed.

(** The first loop of [Merge] compares and finds whether one of the shapes has all the information. *)
Definition scanned (r0 r1 : bool) (v0 v1 : list Z) (r : res err (bool * bool)) : Prop :=
  match r with
  | Ok (b0, b1) =>
      Forall2 compat_dim v0 v1 /\ (b0 = true <-> r0 = true /\ zip_with join_dim v0 v1 = v0)
      /\ (b1 = true <-> r1 = true /\ zip_with join_dim v0 v1 = v1)
  | Err e => e = Status Shape.InvalidArgument /\ ~ Forall2 compat_dim v0 v1
  end.

Lemma scanned_cons r0 r1 v0 v1 x y r0' r1' r :
  compat_dim x y -> (r0' = true <-> r0 = true /\ join_dim x y = x) -> (r1' = true <-> r1 = true /\ join_dim x y = y) ->
  scanned r0' r1' v0 v1 r -> scanned r0 r1 (x :: v0) (y :: v1) r.
Proof.
  intros Hc E0 E1. destruct r as [[b0 b1]|e]; simpl.
  - intros (Hf & H0 & H1). split_and!; [by constructor|..].
    + rewrite H0, E0. intuition congruence.
    + rewrite H1, E1. intuition congruence.
  - intros [-> Hn]. split; [done|]. intros H. by inversion H.
Qed.

Lemma merge_scan_run l0 l1 k r0 r1 :
  drop k ds0 = l0 -> drop k ds1 = l1 -> length l0 = length l1 ->
  exists r, merge_scan s0 s1 r0 r1 (seqZ (Z.of_nat k) (Z.of_nat (length l0))) st = (r, st)
    /\ scanned r0 r1 (vals l0) (vals l1) r.
Proof.
  revert l1 k r0 r1. induction l0 as [|d0 l0 IH]; intros [|d1 l1] k r0 r1 H0 H1 E; try done.
  { eexists. split; [done|]. simpl. split_and!; [done|tauto..]. }
  destruct (dim_ok_drop _ _ _ _ _ K0 H0) as [O0 D0], (dim_ok_drop _ _ _ _ _ K1 H1) as [O1 D1].
  apply drop_next in H0 as [_ H0], H1 as [_ H1]. injection E as E.
  rewrite seqZ_cons by (simpl; lia).
  replace (Z.succ (Z.of_nat k)) with (Z.of_nat (S k)) by lia.
  replace (Z.pred (Z.of_nat (length (d0 :: l0)))) with (Z.of_nat (length l0)) by (simpl; lia).
  simpl merge_scan. unfold mbind, M_bind. rewrite D0, D1.
  assert (forall r0' r1', compat_dim (dimv st d0) (dimv st d1) ->
    (r0' = true <-> r0 = true /\ join_dim (dimv st d0) (dimv st d1) = dimv st d0) ->
    (r1' = true <-> r1 = true /\ join_dim (dimv st d0) (dimv st d1) = dimv st d1) ->
    exists r, merge_scan s0 s1 r0' r1' (seqZ (Z.of_nat (S k)) (Z.of_nat (length l0))) st = (r, st)
      /\ scanned r0 r1 (vals (d0 :: l0)) (vals (d1 :: l1)) r) as Hstep.
  { intros r0' r1' Hc E0 E1. destruct (IH l1 (S k) r0' r1' H0 H1 E) as (r & Hr & Hs).
    exists r. split; [done|]. by eapply scanned_cons. }
  clear IH. unfold compat_dim, join_dim in Hstep.
  destruct (SameHandle d0 d1) eqn:Es; [apply same_handle in Es as ->|].
  { apply Hstep; [tauto|repeat case_if; tauto..]. }
  rewrite !Value_dim by done. unfold kUnknownDim in *.
  destruct (Z.eqb_spec (dimv st d0) (-1)) as [V0|V0], (Z.eqb_spec (dimv st d1) (-1)) as [V1|V1]; simpl;
    try (apply Hstep; [tauto|intuition congruence..]).
  destruct (Z.eqb_spec (dimv st d0) (dimv st d1)) as [V|V]; simpl; [apply Hstep; [tauto|intuition congruence..]|].
  eexists. split; [done|]. split; [done|]. intros Hf. inversion Hf as [|? ? ? ? Hc]; simplify_eq.
  unfold compat_dim, kUnknownDim in Hc. intuition congruence.
Qed.
End Scan.

(** The loops of [Merge], [MergePrefix] and [Relax] over the first dimensions of two shapes *)
Definition starts (st : t) (s : ShapeHandle) (ds : list DimensionHandle) : Prop :=
  exists rest, known st s = Some (ds ++ rest).

Lemma known_starts st s ds : known st s = Some ds -> starts st s ds.
Proof. exists []. by rewrite app_nil_r. Qed.

Section MergeLoop.
Context (st : t) (W : wf st) (s0 s1 : ShapeHandle) (ds0 ds1 : list DimensionHandle).
Context (K0 : starts st s0 ds0) (K1 : starts st s1 ds1) (EL : length ds0 = length ds1).

Abbreviation vals := (map (dimv st)).

Lemma starts_ok s ds : starts st s ds -> Forall (dim_ok st) ds.
Proof. intros [rest E]. destruct (known_ok _ _ _ W E) as [F _]. by apply Forall_app in F as [F _]. Qed.

Lemma starts_dim s ds st' i d : starts st s ds -> grow st st' -> wf st' -> 0 <= i -> ds !! Z.to_nat i = Some d ->
  dim_ok st d /\ Dim s i st' = (Ok d, st').
Proof.
  intros HS G W' Hi Hd. split; [by apply (list.Forall_lookup_1 _ _ _ _ (starts_ok _ _ HS) Hd)|].
  destruct HS as [rest E]. apply (Dim_known _ W' _ (ds ++ rest)); [|done|by apply lookup_app_l_Some].
  rewrite (known_grow st); eauto with inference.
Qed.

Lemma dims_at st' i : grow st st' -> wf st' -> 0 <= i < Z.of_nat (length ds0) ->
  exists d0 d1, ds0 !! Z.to_nat i = Some d0 /\ ds1 !! Z.to_nat i = Some d1
    /\ dim_ok st d0 /\ dim_ok st d1 /\ Dim s0 i st' = (Ok d0, st') /\ Dim s1 i st' = (Ok d1, st').
Proof.
  intros G W' Hi. destruct (lookup_lt_is_Some_2 ds0 (Z.to_nat i)) as [d0 E0]; [lia|].
  destruct (lookup_lt_is_Some_2 ds1 (Z.to_nat i)) as [d1 E1]; [lia|]. exists d0, d1.
  destruct (starts_dim s0 ds0 st' i d0), (starts_dim s1 ds1 st' i d1); try done; lia.
Qed.

(** What merging two dimensions promises, for one of the loops *)
Definition merged (st' : t) (d0 d1 d : DimensionHandle) : Prop :=
  (d = d0 \/ d = d1) /\ dimv st' d = join_dim (dimv st' d0) (dimv st' d1).

Lemma merged_vals ds : Z.of_nat (length ds) = Z.of_nat (length ds0) ->
  (forall i d, ds !! i = Some d -> exists d0 d1, ds0 !! i = Some d0 /\ ds1 !! i = Some d1 /\ merged st d0 d1 d) ->
  Forall (dim_ok st) ds /\ vals ds = zip_with join_dim (vals ds0) (vals ds1).
Proof.
  intros E H. pose proof (starts_ok _ _ K0) as F0. pose proof (starts_ok _ _ K1) as F1. split.
  - apply list.Forall_lookup_2. intros i d Hd. destruct (H i d Hd) as (d0 & d1 & E0 & E1 & Hor & _).
    destruct Hor as [-> | ->]; [by apply (list.Forall_lookup_1 _ _ _ _ F0 E0)|by apply (list.Forall_lookup_1 _ _ _ _ F1 E1)].
  - apply list_eq. intros i. rewrite lookup_zip_with, !list_lookup_fmap.
    destruct (ds !! i) as [d|] eqn:Hd; simpl.
    + destruct (H i d Hd) as (d0 & d1 & E0 & E1 & _ & ->). by rewrite E0, E1.
    + apply lookup_ge_None in Hd. rewrite (proj2 (lookup_ge_None ds0 i)) by lia. done.
Qed.

Context (f : DimensionHandle -> DimensionHandle -> M DimensionHandle).

(** Every dimension is one of the two, so that it has a size both of them have. *)
Lemma safe_merge_loop F :
  (forall st' i d0 d1, wf st' -> grow st st' -> dim_ok st' d0 -> dim_ok st' d1 -> ds0 !! i = Some d0 -> ds1 !! i = Some d1 ->
    outcome F (f d0 d1) st' (fun d _ => merged st' d0 d1 d)) ->
  outcome F (mapM (fun i => d0 ← Dim s0 i; d1 ← Dim s1 i; f d0 d1) (upto (Z.of_nat (length ds0)))) st
    (fun ds st' => Forall (dim_ok st) ds /\ length ds = length ds0 /\ vals ds = zip_with join_dim (vals ds0) (vals ds1)).
Proof.
  intros Hf. eapply safe_mono.
  - apply (safe_mapM _ _ _ _ (fun i d _ =>
      exists d0 d1, ds0 !! Z.to_nat i = Some d0 /\ ds1 !! Z.to_nat i = Some d1 /\ merged st d0 d1 d)); [done|done|].
    intros i st' Hi G W'. apply upto_elem in Hi.
    destruct (dims_at st' i G W' Hi) as (d0 & d1 & E0 & E1 & O0 & O1 & D0 & D1).
    eapply safe_read; [exact D0|]. eapply safe_read; [exact D1|].
    eapply safe_mono; [by apply (Hf st' (Z.to_nat i)); eauto with inference|].
    intros d st'' _ _ [Hor Hv]. exists d0, d1. do 2 (split; [done|]). split; [done|].
    rewrite <- !(dimv_grow st st') by (done || by destruct Hor as [-> | ->]). done.
  - intros ds st' _ _ Hds. apply Forall2_upto in Hds as [E H]; [|lia].
    destruct (merged_vals ds E) as [? ?]; [|by split_and!; [|lia|]].
    intros i d Hd. destruct (H i d Hd) as (d0 & d1 & ?). rewrite Nat2Z.id in *. eauto.
Qed.

Lemma sound_merge_loop I :
  (forall st' J d0 d1, wf st' -> models J st' -> dim_ok st' d0 -> dim_ok st' d1 -> dI J d0 = dI J d1 ->
    sound J (f d0 d1) st' (fun K d _ => d = d0 \/ d = d1)) ->
  models I st -> map (dI I) ds0 = map (dI I) ds1 ->
  sound I (mapM (fun i => d0 ← Dim s0 i; d1 ← Dim s1 i; f d0 d1) (upto (Z.of_nat (length ds0)))) st
    (fun J ds st' => Forall (dim_ok st) ds /\ map (dI I) ds = map (dI I) ds0).
Proof.
  intros Hf HM HE. eapply sound_mono.
  - apply (sound_mapM _ _ _ _ (fun _ i d _ => exists d0, ds0 !! Z.to_nat i = Some d0 /\ dim_ok st d /\ dI I d = dI I d0)); [done|done|done|].
    intros i st' J Hi G W' Ag HM'. apply upto_elem in Hi.
    destruct (dims_at st' i G W' Hi) as (d0 & d1 & E0 & E1 & O0 & O1 & D0 & D1).
    eapply sound_read; [exact D0|]. eapply sound_read; [exact D1|].
    assert (dI I d0 = dI I d1) as Hd.
    { assert (map (dI I) ds0 !! Z.to_nat i = map (dI I) ds1 !! Z.to_nat i) as Hl by by rewrite HE.
      rewrite !list_lookup_fmap, E0, E1 in Hl. by injection Hl. }
    eapply sound_mono; [apply (Hf st' J); [done|done|by eauto with inference..|by rewrite !(dI_agree st I J)]|].
    intros K d st'' _ _ _ [-> | ->]; exists d0; by rewrite ?Hd.
  - intros J ds st' _ _ _ Hds. apply Forall2_upto in Hds as [E H]; [|lia]. split.
    { apply list.Forall_lookup_2. intros i d Hd. by destruct (H i d Hd) as (? & _ & ? & _). }
    apply list_eq. intros i. rewrite !list_lookup_fmap. destruct (ds !! i) as [d|] eqn:Hd; simpl.
    + destruct (H i d Hd) as (d0 & E0 & _ & ->). rewrite Nat2Z.id in E0. by rewrite E0.
    + apply lookup_ge_None in Hd. by rewrite (proj2 (lookup_ge_None ds0 i)) by lia.
Qed.
End MergeLoop.

Lemma safe_merge_compat F st d0 d1 : wf st -> dim_ok st d0 -> dim_ok st d1 -> compat_dim (dimv st d0) (dimv st d1) ->
  outcome F (MergeDim d0 d1) st (fun d _ => merged st d0 d1 d).
Proof.
  intros W O0 O1 Hc. eapply safe_weaken; [|eapply safe_mono; [by apply safe_MergeDim|by intros ? ? _ _ (? & ? & _)]].
  by intros [].
Qed.

Lemma compat_at st st' ds0 ds1 i d0 d1 : grow st st' -> Forall (dim_ok st) ds0 -> Forall (dim_ok st) ds1 ->
  Forall2 compat_dim (map (dimv st) ds0) (map (dimv st) ds1) -> ds0 !! i = Some d0 -> ds1 !! i = Some d1 ->
  compat_dim (dimv st' d0) (dimv st' d1).
Proof.
  intros G F0 F1 Hc E0 E1.
  rewrite !(dimv_grow st st'); [|done|by apply (list.Forall_lookup_1 _ _ _ _ F1 E1)|done|by apply (list.Forall_lookup_1 _ _ _ _ F0 E0)].
  apply (Forall2_lookup_lr _ _ _ i _ _ Hc); by rewrite list_lookup_fmap, ?E0, ?E1.
Qed.

Lemma sound_merge_either st I d0 d1 : wf st -> models I st -> dim_ok st d0 -> dim_ok st d1 -> dI I d0 = dI I d1 ->
  sound I (MergeDim d0 d1) st (fun K d _ => d = d0 \/ d = d1).
Proof. intros. eapply sound_mono; [by apply sound_MergeDim|]. by intros ? ? ? _ _ _ (_ & ? & _). Qed.

Lemma join_self a : join a a = a.
Proof.
  destruct a as [l|]; [|done]. simpl. f_equal. induction l as [|x l IH]; simpl; [done|]. rewrite IH. f_equal.
  unfold join_dim. by repeat case_if.
Qed.

Lemma compat_self a : compat a a.
Proof. destruct a as [l|]; [|done]. simpl. induction l; constructor; [by right; right|done]. Qed.

Lemma view_known st s ds : known st s = Some ds -> view st s = Some (map (dimv st) ds).
Proof. unfold view. by intros ->. Qed.

Lemma view_unknown st s : known st s = None -> view st s = None.
Proof. unfold view. by intros ->. Qed.

(** The branches of a test on what is known *)
Ltac known_cases s :=
  destruct (known _ s) as [?ds|] eqn:?Hk;
  [rewrite bool_decide_eq_true_2 by eauto|rewrite bool_decide_eq_false_2 by (by intros [? ?])]; cbn [negb orb andb].

(** [Merge] once both ranks are known and equal *)
Definition merge_known (s0 s1 : ShapeHandle) (rank : Z) : M ShapeHandle :=
  '(return_s0, return_s1) ← merge_scan s0 s1 true true (upto rank);
  record_shapes s0 s1;;
  if return_s0 || return_s1 then mret (if return_s0 then s0 else s1)
  else
    dims ← mapM (fun i => d0 ← Dim s0 i; d1 ← Dim s1 i; check_ok (MergeDim d0 d1)) (upto rank);
    out ← MakeShape dims;
    record_shapes s0 out;;
    mret out.

Section MergeKnown.
Context (st : t) (W : wf st) (s0 s1 : ShapeHandle) (ds0 ds1 : list DimensionHandle).
Context (K0 : known st s0 = Some ds0) (K1 : known st s1 = Some ds1) (EL : length ds0 = length ds1).

Lemma safe_merge_known :
  outcome (~ compat (view st s0) (view st s1)) (merge_known s0 s1 (Z.of_nat (length ds0))) st (fun s st' =>
    shape_ok st' s /\ compat (view st s0) (view st s1) /\ view st' s = join (view st s0) (view st s1)).
Proof.
  destruct (merge_scan_run st W s0 s1 ds0 ds1 K0 K1 ds0 ds1 0 true true) as (r & Hr & Hs); [done|done|lia|].
  change (seqZ (Z.of_nat 0) _) with (upto (Z.of_nat (length ds0))) in Hr.
  unfold merge_known. rewrite (view_known _ _ _ K0), (view_known _ _ _ K1). simpl compat. simpl join.
  destruct r as [[b0 b1]|e]; simpl in Hs; [|destruct Hs as [-> Hn]].
  2:{ unfold outcome, mbind, M_bind. rewrite Hr. split_and!; try done. by eexists. }
  eapply safe_read; [exact Hr|]. destruct Hs as (Hc & Hb0 & Hb1).
  eapply safe_bind; [by apply safe_record_shapes|]. intros _ st1 G1 W1 _.
  assert (view st1 s0 = view st s0 /\ view st1 s1 = view st s1) as [V0 V1]
    by (split; apply view_grow; eauto with inference).
  destruct b0; [|destruct b1]; simpl.
  - apply safe_ret; [done|]. rewrite V0, (view_known _ _ _ K0). destruct (proj1 Hb0 eq_refl) as [_ ->]. eauto with inference.
  - apply safe_ret; [done|]. rewrite V1, (view_known _ _ _ K1). destruct (proj1 Hb1 eq_refl) as [_ ->]. eauto with inference.
  - assert (known st1 s0 = Some ds0 /\ known st1 s1 = Some ds1) as [K0' K1'].
    { rewrite !(known_grow st st1) by eauto with inference. done. }
    rewrite (view_known _ _ _ K0'), (view_known _ _ _ K0) in V0. injection V0 as V0.
    rewrite (view_known _ _ _ K1'), (view_known _ _ _ K1) in V1. injection V1 as V1.
    eapply safe_bind.
    { apply (safe_merge_loop st1 W1 s0 s1 ds0 ds1 (known_starts _ _ _ K0') (known_starts _ _ _ K1') EL).
      intros st' i d0 d1 W' G' O0 O1 E0 E1. apply safe_check_ok, safe_merge_compat; try done.
      apply (compat_at st st' ds0 ds1 i); try done; [by etrans|by eapply known_ok..]. }
    intros ds st2 G2 W2 (Hok & Hlen & Hv). eapply safe_bind.
    { apply safe_MakeShape; [done|by eapply dims_ok_grow|]. rewrite Hlen. by apply (known_ok _ _ _ W K0). }
    intros s st3 G3 W3 [Ks Vs]. eapply safe_bind; [by apply safe_record_shapes|]. intros _ st4 G4 W4 _.
    apply safe_ret; [done|]. split_and!; [by eapply shape_ok_grow, known_shape|done|].
    rewrite (view_grow st3) by eauto with inference. rewrite Vs, <- V0, <- V1, <- Hv. f_equal. by apply vals_grow.
Qed.

Lemma models_compat I : models I st -> map (dI I) ds0 = map (dI I) ds1 ->
  Forall2 compat_dim (map (dimv st) ds0) (map (dimv st) ds1).
Proof.
  intros HM HE. destruct (known_ok _ _ _ W K0) as [F0 _], (known_ok _ _ _ W K1) as [F1 _].
  clear K0 K1 EL. revert ds1 HE F1. induction F0 as [|d0 l0 O0 _ IH]; intros [|d1 l1] HE F1; try done.
  injection HE as E HE. apply Forall_cons in F1 as [O1 F1]. constructor; [|by apply IH].
  destruct (dI_models _ _ _ HM O0) as [_ V0], (dI_models _ _ _ HM O1) as [_ V1]. unfold compat_dim.
  destruct (decide (dimv st d0 = kUnknownDim)); [by left|]. destruct (decide (dimv st d1 = kUnknownDim)); [by right; left|].
  right; right. rewrite <- V0, <- V1; done.
Qed.

Lemma sound_merge_known I : models I st -> sI I st s0 = sI I st s1 ->
  sound I (merge_known s0 s1 (Z.of_nat (length ds0))) st (fun J s st' => sI J st' s = sI I st s0).
Proof.
  intros HM HE. assert (map (dI I) ds0 = map (dI I) ds1) as HE' by (unfold sI in HE; by rewrite K0, K1 in HE).
  destruct (merge_scan_run st W s0 s1 ds0 ds1 K0 K1 ds0 ds1 0 true true) as (r & Hr & Hs); [done|done|lia|].
  change (seqZ (Z.of_nat 0) _) with (upto (Z.of_nat (length ds0))) in Hr.
  destruct r as [[b0 b1]|e]; simpl in Hs; [|by destruct Hs as [-> []]; apply (models_compat I)].
  unfold merge_known. eapply sound_read; [exact Hr|]. clear Hr Hs.
  eapply sound_bind; [by apply sound_record_shapes; eauto with inference|].
  intros J0 [] st1 G1 W1 Ag1 HM1 ->.
  assert (forall s, shape_ok st s -> sI I st1 s = sI I st s) as HsI by (intros; by apply sI_agree).
  destruct (b0 || b1).
  { apply sound_ret; [done|done|]. destruct b0; rewrite HsI; eauto with inference. }
  assert (known st1 s0 = Some ds0 /\ known st1 s1 = Some ds1) as [K0' K1'].
  { rewrite !(known_grow st st1) by eauto with inference. done. }
  eapply sound_bind.
  { apply (sound_merge_loop st1 W1 s0 s1 ds0 ds1 (known_starts _ _ _ K0') (known_starts _ _ _ K1') EL); [|done|done].
    intros. by apply sound_check_ok, sound_merge_either. }
  intros J ds st2 G2 W2 Ag2 HM2 [Hok Hds]. eapply sound_bind.
  { apply sound_MakeShape; [done|done|by eapply dims_ok_grow|].
    apply (f_equal length) in Hds. rewrite !length_map in Hds. rewrite Hds. by apply (known_ok _ _ _ W K0). }
  intros J' s st3 G3 W3 Ag3 HM3 [Ks Hs]. 
  assert (sI J' st3 s = sI I st s0) as Hres.
  { rewrite Hs. unfold sI. rewrite K0, <- Hds. by apply (dIs_agree st1). }
  assert (sI J' st3 s0 = sI I st s0) as Hs0.
  { rewrite (sI_agree st2 st3 J J'), (sI_agree st1 st2 I J) by eauto with inference. by apply HsI; eauto with inference. }
  eapply sound_bind; [apply sound_record_shapes; [done|done|eauto with inference..|by rewrite Hs0]|].
  intros J'' [] st4 G4 W4 Ag4 HM4 ->. apply sound_ret; [done|done|].
  rewrite (sI_agree st3 st4 J' J'); eauto with inference.
Qed.
End MergeKnown.

Section MergeShapes.
Context (st : t) (W : wf st) (s0 s1 : ShapeHandle) (H0 : shape_ok st s0) (H1 : shape_ok st s1).

(** The merged shape knows what either of the shapes knows; only incompatible shapes are refused. *)
Lemma safe_Merge :
  outcome (~ compat (view st s0) (view st s1)) (Merge s0 s1) st (fun s st' =>
    shape_ok st' s /\ compat (view st s0) (view st s1) /\ view st' s = join (view st s0) (view st s1)).
Proof.
  unfold Merge. destruct (SameHandle s0 s1) eqn:Es.
  { apply same_handle in Es as ->. apply safe_ret; [done|]. by rewrite join_self; eauto using compat_self. }
  eapply safe_read; [by apply RankKnown_ok|]. known_cases s1.
  2:{ eapply safe_bind; [by apply safe_record_shapes|]. intros _ st' G W' _. apply safe_ret; [done|].
      rewrite (view_grow st st') by done. rewrite (view_unknown st s1) by done.
      split_and!; [by eapply shape_ok_grow|by destruct (view st s0)..]. }
  eapply safe_read; [by apply RankKnown_ok|]. known_cases s0.
  2:{ eapply safe_bind; [by apply safe_record_shapes|]. intros _ st' G W' _. apply safe_ret; [done|].
      rewrite (view_grow st st') by done. rewrite (view_unknown st s0) by done. split_and!; [by eapply shape_ok_grow|done..]. }
  do 2 (eapply safe_read; [by apply Rank_ok|]). unfold rankv. rewrite Hk, Hk0.
  destruct (Z.eqb_spec (Z.of_nat (length ds0)) (Z.of_nat (length ds))) as [E|E]; simpl negb; cbn match.
  - apply (safe_merge_known st W s0 s1 ds0 ds); [done|done|lia].
  - apply safe_status; [done|]. rewrite (view_known _ _ _ Hk), (view_known _ _ _ Hk0).
    intros Hc%Forall2_length. rewrite !length_map in Hc. lia.
Qed.

(** Shapes that an execution gives the same sizes are merged into a shape with these sizes. *)
Lemma sound_Merge I : models I st -> sI I st s0 = sI I st s1 ->
  sound I (Merge s0 s1) st (fun J s st' =>
    shape_ok st' s /\ sI J st' s = sI I st s0 /\ view st' s = join (view st s0) (view st s1)).
Proof.
  intros HM HE. enough (sound I (Merge s0 s1) st (fun J s st' => sI J st' s = sI I st s0)) as HS.
  { eapply sound_mono; [apply (sound_safe _ _ _ _ _ _ safe_Merge HS)|]. intros J s st' _ _ _ [(? & _ & ?) ?]. done. }
  unfold Merge. destruct (SameHandle s0 s1); [by apply sound_ret|].
  assert (forall s, shape_ok st s -> sI I st s = sI I st s0 ->
    sound I (record_shapes s0 s1;; mret s) st (fun J s st' => sI J st' s = sI I st s0)) as Hrec.
  { intros s Hs Es. eapply sound_bind; [by apply sound_record_shapes|]. intros J [] st' G W' Ag HM' ->.
    apply sound_ret; [done|done|]. by rewrite (sI_agree st st' I I). }
  eapply sound_read; [by apply RankKnown_ok|]. known_cases s1; [|by apply Hrec].
  eapply sound_read; [by apply RankKnown_ok|]. known_cases s0; [|by apply Hrec].
  do 2 (eapply sound_read; [by apply Rank_ok|]). unfold rankv. rewrite Hk, Hk0.
  assert (length ds0 = length ds) as E.
  { unfold sI in HE. rewrite Hk, Hk0 in HE. apply (f_equal length) in HE. by rewrite !length_map in HE. }
  rewrite E, Z.eqb_refl. simpl negb. cbn match. rewrite <- E. by apply (sound_merge_known st W s0 s1 ds0 ds).
Qed.
End MergeShapes.

(** ** Asserted ranks and values *)

(** The loops that make unknown dimensions *)
Lemma safe_unknown_dims F st n : wf st -> 0 <= n ->
  outcome F (mapM (fun _ => UnknownDim) (upto n)) st (fun ds st' =>
    Z.of_nat (length ds) = n /\ Forall (dim_ok st') ds /\ map (dimv st') ds = replicate (Z.to_nat n) kUnknownDim).
Proof.
  intros W Hn. eapply safe_mono.
  - apply (safe_mapM F _ _ _ (fun _ d st' => dim_ok st' d /\ dimv st' d = kUnknownDim)); [done| |].
    + intros _ d st1 st2 G [Hd Hv]. split; [by eapply dim_ok_grow|]. by rewrite (dimv_grow st1).
    + intros _ st' _ _ W'. by apply safe_UnknownDim.
  - intros ds st' _ _ H. apply Forall2_upto in H as [E H]; [|done]. split; [done|]. split.
    + apply list.Forall_lookup_2. intros i d Hd. by apply (H i d Hd).
    + apply list_eq. intros i. rewrite list_lookup_fmap. destruct (ds !! i) as [d|] eqn:Hd; simpl.
      * destruct (H i d Hd) as [_ ->]. symmetry. apply lookup_replicate_2. apply lookup_lt_Some in Hd. lia.
      * symmetry. apply lookup_replicate_None. apply lookup_ge_None in Hd. lia.
Qed.

Lemma sound_unknown_dims st I (l : list Z) : wf st -> models I st -> Forall size l ->
  sound I (mapM (fun _ => UnknownDim) (upto (Z.of_nat (length l)))) st (fun J ds st' =>
    Forall (dim_ok st') ds /\ map (dI J) ds = l).
Proof.
  intros W HM Hl. eapply sound_mono.
  - apply (sound_mapM _ _ _ _ (fun J i d st' => dim_ok st' d /\ l !! Z.to_nat i = Some (dI J d))); [done|done| |].
    + intros I1 I2 i d st1 st2 _ G Ag [Hd E]. split; [by eapply dim_ok_grow|]. by rewrite (dI_agree st1 I1).
    + intros i st' J Hi _ W' _ HM'. apply upto_elem in Hi.
      destruct (lookup_lt_is_Some_2 l (Z.to_nat i)) as [x Hx]; [lia|].
      eapply sound_mono; [apply (sound_UnknownDim st' W' J HM' x); by apply (list.Forall_lookup_1 _ _ _ _ Hl Hx)|].
      intros K d st'' _ _ _ (? & _ & <-). done.
  - intros J ds st' _ _ _ H. apply Forall2_upto in H as [E H]; [|lia]. split.
    + apply list.Forall_lookup_2. intros i d Hd. by apply (H i d Hd).
    + apply list_eq. intros i. rewrite list_lookup_fmap. destruct (ds !! i) as [d|] eqn:Hd; simpl.
      * destruct (H i d Hd) as [_ E']. by rewrite Nat2Z.id in E'.
      * symmetry. apply lookup_ge_None. apply lookup_ge_None in Hd. lia.
Qed.

Section Asserts.
Context (st : t) (W : wf st) (s : ShapeHandle) (Hs : shape_ok st s).

Lemma join_unknowns l : join (Some l) (Some (replicate (length l) kUnknownDim)) = Some l.
Proof. simpl. f_equal. by induction l as [|x l IH]; simpl; f_equal. Qed.

Lemma safe_WithRank rank : 0 <= rank ->
  outcome (kint32max < rank \/ exists l, view st s = Some l /\ Z.of_nat (length l) <> rank) (WithRank s rank) st
    (fun s' st' => shape_ok st' s' /\ view st' s' = join (view st s) (Some (replicate (Z.to_nat rank) kUnknownDim))).
Proof.
  intros Hr. unfold WithRank. destruct (Z.ltb_spec kint32max rank); [by apply safe_status; [|left]|].
  eapply safe_read; [by apply Rank_ok|]. unfold rankv. destruct (known st s) as [ds|] eqn:Hk.
  - rewrite (view_known _ _ _ Hk). destruct (Z.eqb_spec (Z.of_nat (length ds)) rank) as [<-|E].
    + apply safe_ret; [done|]. split; [done|]. rewrite Nat2Z.id, (view_known _ _ _ Hk).
      rewrite <- (length_map (dimv st) ds). by rewrite join_unknowns.
    + unfold kUnknownRank. destruct (Z.eqb_spec (Z.of_nat (length ds)) (-1)); [lia|].
      apply safe_status; [done|]. right. eexists. split; [done|]. by rewrite length_map.
  - unfold kUnknownRank. destruct (Z.eqb_spec (-1) rank); [lia|]. rewrite Z.eqb_refl.
    destruct (Z.leb_spec 0 rank); [|lia]. eapply safe_read; [done|].
    eapply safe_bind; [by apply safe_unknown_dims|]. intros ds st1 G1 W1 (E & Hd & Hv).
    eapply safe_bind; [by apply safe_MakeShape; [done|done|lia]|]. intros shp st2 G2 W2 [Ks Vs].
    assert (grow st st2) as G by by etrans.
    pose proof (safe_Merge st2 W2 s shp (shape_ok_grow _ _ _ G Hs) (known_shape _ _ _ Ks)) as HS.
    rewrite Vs, Hv, (view_grow st st2), (view_unknown st s) in HS by done. simpl in HS.
    unfold outcome in *. destruct (Merge s shp st2) as [[s'|e] st3].
    + destruct HS as (? & ? & ? & _ & Hv'). split_and!; try done. by rewrite (view_unknown st s).
    + destruct HS as [[[] _] _]. done.
Qed.

Lemma sound_WithRank I rank : models I st -> Z.of_nat (length (sI I st s)) = rank -> rank <= kint32max ->
  sound I (WithRank s rank) st (fun J s' st' =>
    sI J st' s' = sI I st s /\ exists ds, known st' s' = Some ds /\ Z.of_nat (length ds) = rank).
Proof.
  intros HM HL Hr. pose proof (safe_WithRank rank ltac:(lia)) as HP.
  enough (sound I (WithRank s rank) st (fun J s' st' => sI J st' s' = sI I st s)) as HS.
  { eapply sound_mono; [apply (sound_safe _ _ _ _ _ _ HP HS)|]. intros J s' st' _ _ _ [[Hs' Hv] He]. split; [done|].
    destruct (known st' s') as [ds|] eqn:Hk.
    - exists ds. split; [done|]. unfold sI at 1 in He. rewrite Hk in He. rewrite <- HL, <- He. by rewrite length_map.
    - rewrite (view_unknown _ _ Hk) in Hv. by destruct (view st s). }
  clear HP. unfold WithRank. destruct (Z.ltb_spec kint32max rank); [lia|].
  eapply sound_read; [by apply Rank_ok|]. unfold rankv. destruct (known st s) as [ds|] eqn:Hk.
  - assert (Z.of_nat (length ds) = rank) as ->.
    { rewrite <- HL. unfold sI. rewrite Hk. by rewrite length_map. }
    rewrite Z.eqb_refl. by apply sound_ret.
  - unfold kUnknownRank. destruct (Z.eqb_spec (-1) rank); [lia|]. rewrite Z.eqb_refl.
    destruct (Z.leb_spec 0 rank); [|lia]. eapply sound_read; [done|]. rewrite <- HL.
    eapply sound_bind; [by apply sound_unknown_dims; eauto using sI_size|]. intros J ds st1 G1 W1 A1 HM1 [Hd E].
    eapply sound_bind; [apply sound_MakeShape; [done..|]|].
    { apply (f_equal length) in E. rewrite length_map in E. lia. }
    intros K shp st2 G2 W2 A2 HM2 [Ks Es]. assert (grow st st2) as G by by etrans.
    assert (agree st I K) as A by by apply (agree_trans st st1 I J K).
    assert (sI K st2 s = sI I st s) as Ee by by apply sI_agree.
    eapply sound_mono; [apply (sound_Merge st2 W2 s shp); eauto with inference; congruence|].
    intros J' s' st' _ _ _ (_ & He & _). by rewrite He.
Qed.

(** [WithRankAtLeast] and [WithRankAtMost] give back the shape, or refuse its known rank. *)
Lemma safe_WithRankAtLeast rank :
  outcome (kint32max < rank \/ exists l, view st s = Some l /\ Z.of_nat (length l) < rank) (WithRankAtLeast s rank) st
    (fun s' st' => s' = s /\ st' = st /\ forall ds, known st s = Some ds -> rank <= Z.of_nat (length ds)).
Proof.
  unfold WithRankAtLeast. destruct (Z.ltb_spec kint32max rank); [by apply safe_status; [|left]|].
  eapply safe_read; [by apply Rank_ok|]. rewrite rankv_known. unfold rankv.
  destruct (known st s) as [ds|] eqn:Hk.
  - rewrite bool_decide_eq_true_2 by eauto. cbn [negb]. rewrite orb_false_r.
    destruct (Z.leb_spec rank (Z.of_nat (length ds))).
    + apply safe_ret; [done|]. split_and!; try done. by intros ? [= <-].
    + apply safe_status; [done|]. right. rewrite (view_known _ _ _ Hk). eexists. split; [done|]. by rewrite length_map.
  - rewrite bool_decide_eq_false_2 by (by intros [? ?]). cbn [negb]. rewrite orb_true_r. by apply safe_ret.
Qed.

Lemma safe_WithRankAtMost rank :
  outcome (kint32max < rank \/ exists l, view st s = Some l /\ rank < Z.of_nat (length l)) (WithRankAtMost s rank) st
    (fun s' st' => s' = s /\ st' = st /\ forall ds, known st s = Some ds -> Z.of_nat (length ds) <= rank).
Proof.
  unfold WithRankAtMost. destruct (Z.ltb_spec kint32max rank); [by apply safe_status; [|left]|].
  eapply safe_read; [by apply Rank_ok|]. rewrite rankv_known. unfold rankv.
  destruct (known st s) as [ds|] eqn:Hk.
  - rewrite bool_decide_eq_true_2 by eauto. cbn [negb]. rewrite orb_false_r.
    destruct (Z.leb_spec (Z.of_nat (length ds)) rank).
    + apply safe_ret; [done|]. split_and!; try done. by intros ? [= <-].
    + apply safe_status; [done|]. right. rewrite (view_known _ _ _ Hk). eexists. split; [done|]. by rewrite length_map.
  - rewrite bool_decide_eq_false_2 by (by intros [? ?]). cbn [negb]. rewrite orb_true_r. by apply safe_ret.
Qed.

(** A call whose reasons to fail do not hold for an execution succeeds there. *)
Lemma sound_pure I F {A} (m : M A) (a : A) :
  models I st -> outcome F m st (fun a' st' => a' = a /\ st' = st) -> ~ F ->
  sound I m st (fun J a' st' => J = I /\ a' = a /\ st' = st).
Proof.
  intros HM HP HF. unfold outcome in HP. destruct (m st) as [[a'|e] st'] eqn:E.
  - destruct HP as (_ & W' & -> & ->). exists a, st, I. by split_and!.
  - by destruct HP as [[? _] _].
Qed.

Lemma sI_known_length I ds : known st s = Some ds -> length (sI I st s) = length ds.
Proof. unfold sI. intros ->. apply length_map. Qed.

Lemma sI_view_length I l : view st s = Some l -> length (sI I st s) = length l.
Proof.
  intros Hv. destruct (known st s) as [ds|] eqn:Hk; [|by rewrite (view_unknown _ _ Hk) in Hv].
  rewrite (view_known _ _ _ Hk) in Hv. injection Hv as <-. by rewrite (sI_known_length I ds), length_map.
Qed.

Lemma sound_WithRankAtLeast I rank : models I st -> rank <= Z.of_nat (length (sI I st s)) -> rank <= kint32max ->
  sound I (WithRankAtLeast s rank) st (fun J s' st' => J = I /\ s' = s /\ st' = st).
Proof.
  intros HM HL Hr. eapply sound_pure; [done| |].
  - eapply safe_mono; [apply safe_WithRankAtLeast|]. by intros ? ? _ _ (? & ? & _).
  - intros [?|(l & Hv & ?)]; [lia|]. rewrite (sI_view_length I l Hv) in HL. lia.
Qed.

Lemma sound_WithRankAtMost I rank : models I st -> Z.of_nat (length (sI I st s)) <= rank -> rank <= kint32max ->
  sound I (WithRankAtMost s rank) st (fun J s' st' => J = I /\ s' = s /\ st' = st).
Proof.
  intros HM HL Hr. eapply sound_pure; [done| |].
  - eapply safe_mono; [apply safe_WithRankAtMost|]. by intros ? ? _ _ (? & ? & _).
  - intros [?|(l & Hv & ?)]; [lia|]. rewrite (sI_view_length I l Hv) in HL. lia.
Qed.
End Asserts.

Section Values.
Context (st : t) (W : wf st) (d : DimensionHandle) (Hd : dim_ok st d).

Lemma safe_WithValue v : 0 <= v < 2 ^ 63 ->
  outcome (dimv st d <> kUnknownDim /\ dimv st d <> v) (WithValue d v) st (fun d' st' => dim_ok st' d' /\ dimv st' d' = v).
Proof.
  intros Hv. unfold WithValue. eapply safe_read; [by apply Value_dim|].
  destruct (Z.eqb_spec (dimv st d) v); [by apply safe_ret|].
  destruct (Z.eqb_spec (dimv st d) kUnknownDim) as [Eu|Eu]; [|by apply safe_status].
  eapply safe_bind; [apply safe_MakeDim_val; [done|lia]|]. intros d1 st1 G1 W1 [O1 V1].
  pose proof (safe_MergeDim st1 W1 d d1 (dim_ok_grow _ _ _ G1 Hd) O1) as HS.
  rewrite V1, (dimv_grow st st1), Eu in HS by done. unfold compat_dim, join_dim, outcome in *. simpl in HS.
  destruct (MergeDim d d1 st1) as [[d'|e] st2]; [|by destruct HS as [[[] _] _]; left].
  destruct HS as (G2 & W2 & Hor & HV & _). destruct (Z.eqb_spec v kUnknownDim); [unfold kUnknownDim in *; lia|].
  assert (dim_ok st1 d') by (destruct Hor as [-> | ->]; eauto with inference).
  split_and!; try done; [by eapply dim_ok_grow|]. by rewrite (dimv_grow st1).
Qed.

Lemma sound_WithValue I v : models I st -> dI I d = v ->
  sound I (WithValue d v) st (fun J d' st' => dim_ok st' d' /\ dI J d' = v /\ dimv st' d' = v).
Proof.
  intros HM Hv. destruct (dI_models _ _ _ HM Hd) as [Hsz Hval]. rewrite Hv in *.
  pose proof (safe_WithValue v Hsz) as HP.
  enough (sound I (WithValue d v) st (fun J d' st' => dI J d' = v)) as HS.
  { eapply sound_mono; [apply (sound_safe _ _ _ _ _ _ HP HS)|]. intros ? ? ? _ _ _ [[? ?] ?]. done. }
  clear HP. unfold WithValue. eapply sound_read; [by apply Value_dim|].
  destruct (Z.eqb_spec (dimv st d) v); [by apply sound_ret|].
  destruct (Z.eqb_spec (dimv st d) kUnknownDim) as [Eu|Eu]; [|by rewrite Hval in n].
  eapply sound_bind; [apply (sound_MakeDim st W I HM v v); [unfold size in *; lia|done|done]|].
  intros J d1 st1 G1 W1 A1 HM1 (O1 & V1 & E1).
  eapply sound_mono; [apply (sound_MergeDim st1 W1 d d1); eauto with inference|].
  - by rewrite E1, (dI_agree st I J).
  - intros K d' st' _ _ _ (-> & _ & -> & _). by rewrite (dI_agree st I J).
Qed.
End Values.

End InferenceMerge.

(** ** Relaxing: what the old and the new shape have in common *)

Import InferenceMerge.

Module InferenceRelax.

Lemma safe_RelaxDim F st d0 d1 : wf st -> dim_ok st d0 -> dim_ok st d1 ->
  outcome F (RelaxDim d0 d1) st (fun d st' => dim_ok st' d /\ dimv st' d = meet_dim (dimv st d0) (dimv st d1)).
Proof.
  intros W O0 O1. unfold RelaxDim, meet_dim, kUnknownDim in *. destruct (SameHandle d0 d1) eqn:Es.
  { apply same_handle in Es as ->. apply safe_ret; [done|]. by rewrite Z.eqb_refl. }
  assert (forall d, dim_ok st d -> dimv st d = (if dimv st d0 =? dimv st d1 then dimv st d0 else -1) ->
    outcome F (ForgetMerges;; mret d) st (fun d st' => dim_ok st' d /\ dimv st' d = if dimv st d0 =? dimv st d1 then dimv st d0 else -1)) as Hf.
  { intros d Od Ed. eapply safe_bind; [by apply safe_ForgetMerges|]. intros _ st' G W' _. apply safe_ret; [done|].
    split; [by eapply dim_ok_grow|]. by rewrite (dimv_grow st). }
  do 2 (eapply safe_read; [by apply ValueKnown_dim|]). rewrite !negb_involutive. unfold kUnknownDim.
  destruct (Z.eqb_spec (dimv st d1) (-1)) as [V1|V1]; rewrite ?andb_true_r, ?andb_false_r.
  - destruct (dimv st d0 =? -1) eqn:E0; apply Hf; try done; repeat case_if; congruence.
  - do 2 (eapply safe_read; [by apply Value_dim|]).
    destruct (Z.eqb_spec (dimv st d0) (dimv st d1)) as [E|E]; [by apply safe_ret|].
    eapply safe_bind; [by apply safe_ForgetMerges|]. intros _ st' G W' _. by apply safe_UnknownDim.
Qed.

Section Loops.
Context (st : t) (W : wf st) (s0 s1 : ShapeHandle) (ds0 ds1 : list DimensionHandle).
Context (K0 : known st s0 = Some ds0) (K1 : known st s1 = Some ds1) (EL : length ds0 = length ds1).

Abbreviation vals := (map (dimv st)).

(** Two dimensions that [Relax] takes for equal *)
Definition same_dim (d0 d1 : DimensionHandle) : Prop :=
  d0 = d1 \/ (dimv st d0 = dimv st d1 /\ dimv st d0 <> kUnknownDim).

Lemma relax_scan_run l0 l1 k : drop k ds0 = l0 -> drop k ds1 = l1 -> length l0 = length l1 ->
  exists b, relax_scan s0 s1 (seqZ (Z.of_nat k) (Z.of_nat (length l0))) st = (Ok b, st)
    /\ (b = true <-> Forall2 same_dim l0 l1).
Proof.
  revert l1 k. induction l0 as [|d0 l0 IH]; intros [|d1 l1] k H0 H1 E; try done; [by eexists|].
  destruct (dim_ok_drop st W _ _ _ _ _ K0 H0) as [O0 D0], (dim_ok_drop st W _ _ _ _ _ K1 H1) as [O1 D1].
  apply drop_next in H0 as [_ H0], H1 as [_ H1]. injection E as E.
  rewrite seqZ_cons by (simpl; lia).
  replace (Z.succ (Z.of_nat k)) with (Z.of_nat (S k)) by lia.
  replace (Z.pred (Z.of_nat (length (d0 :: l0)))) with (Z.of_nat (length l0)) by (simpl; lia).
  simpl relax_scan. unfold mbind, M_bind. rewrite D0, D1.
  destruct (IH l1 (S k) H0 H1 E) as (b & Hb & Hi).
  assert (same_dim d0 d1 -> (b = true <-> Forall2 same_dim (d0 :: l0) (d1 :: l1))) as Hsame.
  { intros Hs. rewrite Hi. split; [by constructor|]. by inversion 1. }
  unfold same_dim in Hsame at 1. unfold kUnknownDim in *.
  destruct (SameHandle d0 d1) eqn:Es; [apply same_handle in Es as ->; exists b; eauto|].
  rewrite !Value_dim by done.
  destruct ((dimv st d0 =? -1) || (dimv st d1 =? -1) || negb (dimv st d0 =? dimv st d1)) eqn:Et.
  - exists false. split; [done|]. split; [done|]. intros Hf. inversion Hf as [|? ? ? ? Hc]; simplify_eq.
    destruct Hc as [-> | [Hv Hu]]; [by unfold SameHandle in Es; rewrite bool_decide_eq_true_2 in Es|].
    unfold kUnknownDim in Hu. rewrite <- Hv, Z.eqb_refl, orb_false_r in Et.
    destruct (Z.eqb_spec (dimv st d0) (-1)); [done|]. done.
  - exists b. split; [done|]. apply Hsame. zbool. by right.
Qed.

Lemma same_meet l0 l1 : Forall2 same_dim l0 l1 -> vals l0 = zip_with meet_dim (vals l0) (vals l1).
Proof.
  induction 1 as [|d0 d1 l0 l1 Hs _ IH]; simpl; [done|]. rewrite <- IH. f_equal. unfold meet_dim.
  destruct Hs as [-> | [-> _]]; by rewrite Z.eqb_refl.
Qed.

Lemma safe_relax_loop F :
  outcome F (mapM (fun i => d0 ← Dim s0 i; d1 ← Dim s1 i; RelaxDim d0 d1) (upto (Z.of_nat (length ds0)))) st
    (fun ds st' => Forall (dim_ok st') ds /\ length ds = length ds0 /\ map (dimv st') ds = zip_with meet_dim (vals ds0) (vals ds1)).
Proof.
  eapply safe_mono.
  - apply (safe_mapM F _ _ _ (fun i d st' => dim_ok st' d /\
      exists d0 d1, ds0 !! Z.to_nat i = Some d0 /\ ds1 !! Z.to_nat i = Some d1 /\ dimv st' d = meet_dim (dimv st d0) (dimv st d1))); [done| |].
    + intros i d st1 st2 G [O (d0 & d1 & ? & ? & E)]. split; [by eapply dim_ok_grow|]. exists d0, d1. by rewrite (dimv_grow st1).
    + intros i st' Hi G W'. apply upto_elem in Hi.
      destruct (dims_at st W s0 s1 ds0 ds1 (known_starts _ _ _ K0) (known_starts _ _ _ K1) EL st' i G W' Hi) as (d0 & d1 & E0 & E1 & O0 & O1 & D0 & D1).
      eapply safe_read; [exact D0|]. eapply safe_read; [exact D1|].
      eapply safe_mono; [by apply safe_RelaxDim; eauto with inference|]. intros d st'' _ _ [O V]. split; [done|].
      exists d0, d1. by rewrite V, !(dimv_grow st st').
  - intros ds st' _ _ H. apply Forall2_upto in H as [E H]; [|lia]. split_and!.
    + apply list.Forall_lookup_2. intros i d Hd. by apply (H i d Hd).
    + lia.
    + apply list_eq. intros i. rewrite lookup_zip_with, !list_lookup_fmap.
      destruct (ds !! i) as [d|] eqn:Hd; simpl.
      * destruct (H i d Hd) as (_ & d0 & d1 & E0 & E1 & ->). rewrite Nat2Z.id in E0, E1. by rewrite E0, E1.
      * apply lookup_ge_None in Hd. by rewrite (proj2 (lookup_ge_None ds0 i)) by lia.
Qed.
End Loops.

(** Relaxing never fails, keeps exactly what both shapes know, and gives back the old shape when it
    lost nothing by it. *)
Lemma safe_Relax st s0 s1 : wf st -> shape_ok st s0 -> shape_ok st s1 ->
  outcome False (Relax s0 s1) st (fun s st' =>
    shape_ok st' s /\ view st' s = meet (view st s0) (view st s1)
    /\ (forall l, view st s0 = Some l -> view st s1 = Some l -> kUnknownDim ∉ l -> s = s0)).
Proof.
  intros W H0 H1. unfold Relax. destruct (SameHandle s0 s1) eqn:Es.
  { apply same_handle in Es as ->. apply safe_ret; [done|]. split_and!; [done| |done].
    destruct (view st s1) as [l|]; [|done]. simpl. rewrite Nat.eqb_refl. f_equal.
    induction l as [|x l IH]; simpl; [done|]. rewrite <- IH. unfold meet_dim. by rewrite Z.eqb_refl. }
  eapply safe_read; [by apply RankKnown_ok|].
  rewrite (bool_decide_eq_true_2 (is_Some s0)) by (destruct s0; [eauto|by destruct H0]).
  rewrite orb_false_r. known_cases s1.
  2:{ eapply safe_bind; [by apply safe_ForgetMerges|]. intros _ st' G W' _. apply safe_ret; [done|].
      rewrite (view_grow st st') by done. rewrite (view_unknown st s1) by done.
      split_and!; [by eapply shape_ok_grow|by destruct (view st s0)|done]. }
  do 2 (eapply safe_read; [by apply Rank_ok|]). unfold rankv. rewrite Hk. rewrite (view_known _ _ _ Hk).
  destruct (known st s0) as [ds0|] eqn:Hk0.
  2:{ destruct (Z.eqb_spec kUnknownRank (Z.of_nat (length ds))); [unfold kUnknownRank in *; lia|]. simpl negb. cbn match.
      eapply safe_bind; [by apply safe_ForgetMerges|]. intros _ st' G W' _. rewrite (view_unknown st s0) by done.
      eapply safe_mono; [by apply safe_UnknownShape|]. intros s st'' _ _ [? ?]. split_and!; [done|by apply view_unknown|done]. }
  rewrite (view_known _ _ _ Hk0). simpl meet. rewrite !length_map.
  destruct (Z.eqb_spec (Z.of_nat (length ds0)) (Z.of_nat (length ds))) as [E|E]; simpl negb; cbn match.
  2:{ eapply safe_bind; [by apply safe_ForgetMerges|]. intros _ st' G W' _.
      eapply safe_mono; [by apply safe_UnknownShape|]. intros s st'' _ _ [? ?].
      destruct (Nat.eqb_spec (length ds0) (length ds)); [lia|]. split_and!; [done|by apply view_unknown|].
      intros l [= <-] [= Hl%(f_equal length)]. rewrite !length_map in Hl. lia. }
  apply Nat2Z.inj in E. rewrite E, Nat.eqb_refl, <- E.
  destruct (relax_scan_run st W s0 s1 ds0 ds Hk0 Hk E ds0 ds 0) as (b & Hb & Hi); [done|done|done|].
  eapply safe_read; [exact Hb|]. destruct b.
  { apply safe_ret; [done|]. split_and!; try done. rewrite (view_known _ _ _ Hk0). f_equal. by apply same_meet, Hi. }
  eapply safe_bind; [by apply (safe_relax_loop st W s0 s1 ds0 ds)|]. intros dl st1 G1 W1 (O & EL & V).
  eapply safe_bind; [by apply safe_ForgetMerges|]. intros _ st2 G2 W2 _.
  eapply safe_mono; [apply safe_MakeShape; [done|by eapply dims_ok_grow|]|].
  { rewrite EL. by apply (known_ok _ _ _ W Hk0). }
  intros s st3 G3 W3 [Ks Vs]. split_and!; [by eapply known_shape|by rewrite Vs, (vals_grow st1), V|].
  intros l [= <-] [= Hl] Hu. exfalso. enough (false = true) by done. apply Hi. clear -Hl Hu.
  revert ds Hl. induction ds0 as [|d0 ds0 IH]; intros [|d1 ds] Hl; try done. injection Hl as Hd Hl.
  rewrite map_cons, not_elem_of_cons in Hu. destruct Hu as [Hu1 Hu2]. constructor; [right; split; congruence|by apply IH].
Qed.

End InferenceRelax.
