(* ===== verification/InferenceArith.v ===== *)
(** * Shape inference: arithmetic on dimensions

    [Add], [Subtract], [Multiply], [Divide], [Min] and [Max] against the
    arithmetic of sizes they stand for. *)

From S2P Require Import Prelude TensorShape ShapeSpec ShapeInference InferenceSpec InferenceMerge.

Import Inference InferenceSpec InferenceMerge.

Module InferenceArith.

(** ** A dimension or a constant *)
Definition dc_ok (st : t) (c : DimensionOrConstant) : Prop :=
  match dim c with
  | Some _ => dim_ok st (dim c)
  | None => exists v, val c = Some v /\ -1 <= v < 2 ^ 63
  end.
Definition dcv (st : t) (c : DimensionOrConstant) : Z :=
  match dim c with Some _ => dimv st (dim c) | None => default kUnknownDim (val c) end.

(** The sizes that an operand may have: a constant -1 stands for any. *)
Definition denotes (I : interp) (c : DimensionOrConstant) (y : Z) : Prop :=
  size y /\ match dim c with
            | Some i => y = dimI I i
            | None => forall v, val c = Some v -> v <> kUnknownDim -> y = v
            end.

Section Operands.
Context (st : t) (W : wf st) (c : DimensionOrConstant) (Hc : dc_ok st c).

Lemma Value_dc : Value c st = (Ok (dcv st c), st).
Proof.
  unfold dc_ok, dcv, Value in *. destruct (dim c) as [i|].
  - destruct Hc as [v Hv]. unfold dimv. rewrite Hv. simpl in *. by rewrite Hv.
  - by destruct Hc as (v & -> & _).
Qed.

Lemma dcv_range : -1 <= dcv st c < 2 ^ 63.
Proof.
  unfold dc_ok, dcv in *. destruct (dim c) as [i|]; [by apply dimv_range|]. by destruct Hc as (v & -> & ?).
Qed.

Lemma safe_MakeDim_dc F : outcome F (MakeDim c) st (fun d st' => dim_ok st' d /\ dimv st' d = dcv st c).
Proof.
  unfold dc_ok, dcv in *. destruct c as [[i|] v]; simpl in *; [by apply safe_ret|].
  destruct Hc as (u & -> & Hu). by apply (safe_MakeDim_val st W F u).
Qed.

Lemma denotes_dcv I y : models I st -> denotes I c y -> dcv st c <> kUnknownDim -> y = dcv st c.
Proof.
  intros HM [_ Hy] Hk. unfold dc_ok, dcv in *. destruct (dim c) as [i|].
  - subst y. by apply (dI_models I st (Some i)).
  - destruct Hc as (v & E & _). rewrite E in *. by apply Hy.
Qed.

Lemma sound_MakeDim_dc I y : models I st -> denotes I c y ->
  sound I (MakeDim c) st (fun J d st' => dim_ok st' d /\ dimv st' d = dcv st c /\ dI J d = y).
Proof.
  intros HM [Hs Hy]. unfold dc_ok, dcv in *. destruct c as [[i|] v]; simpl in *.
  - apply sound_ret; [done|done|]. by subst y.
  - destruct Hc as (u & -> & Hu). apply (sound_MakeDim st W I HM u y); [done|done|]. by apply Hy.
Qed.
End Operands.

(** ** The operations *)
Inductive ArithOp := OpAdd | OpSubtract | OpMultiply | OpMin | OpMax | OpDivide (evenly_divisible : bool).

Definition run (op : ArithOp) (first : DimensionHandle) (second : DimensionOrConstant) : M DimensionHandle :=
  match op with
  | OpAdd => Add first second
  | OpSubtract => Subtract first second
  | OpMultiply => Multiply first second
  | OpMin => Min first second
  | OpMax => Max first second
  | OpDivide evenly_divisible => Divide first second evenly_divisible
  end.

Definition result (op : ArithOp) (x y : Z) : Z :=
  match op with
  | OpAdd => x + y
  | OpSubtract => x - y
  | OpMultiply => x * y
  | OpMin => Z.min x y
  | OpMax => Z.max x y
  | OpDivide _ => x / y
  end.

(** The sizes on which an operation makes sense and has a size as its result *)
Definition legal (op : ArithOp) (x y : Z) : Prop :=
  match op with
  | OpAdd | OpMultiply => result op x y < 2 ^ 63
  | OpSubtract => y <= x
  | OpMin | OpMax => True
  | OpDivide evenly_divisible => 0 < y /\ (evenly_divisible = true -> x mod y = 0)
  end.

Lemma legal_size op x y : size x -> size y -> legal op x y -> size (result op x y).
Proof.
  unfold size. intros Hx Hy. destruct op; simpl; try lia.
  intros [Hp _]. split; [apply Z.div_pos; lia|]. apply (Z.le_lt_trans _ x); [|lia]. apply Z.div_le_upper_bound; nia.
Qed.

(** The addition in [uint64] is exact or negative as an [int64_t]. *)
Lemma add_wraps x y : size x -> size y ->
  wrap_i64 (wrap_u64 (wrap_u64 x + wrap_u64 y)) = if x + y <? 2 ^ 63 then x + y else x + y - 2 ^ 64.
Proof.
  unfold size. intros Hx Hy. rewrite (wrap_u64_id x), (wrap_u64_id y), wrap_u64_id by (unfold in_u64; lia).
  unfold wrap_i64. case_if; [rewrite Z.mod_small by lia; lia|].
  rewrite <- (Z_mod_plus_full _ (-1)), Z.mod_small by lia. lia.
Qed.

(** The test of [Divide] for an unknown divisor *)
Lemma Divide_unknown st c : dc_ok st c -> (dim c = None -> dcv st c <> kUnknownDim) ->
  (if bool_decide (is_Some (dim c)) then kd ← ValueKnown (of_dim (dim c)); mret (negb kd) else mret false) st
    = (Ok (dcv st c =? kUnknownDim), st).
Proof.
  intros Hc Hdiv. unfold dcv, dc_ok in *. destruct (dim c) as [i|].
  - rewrite bool_decide_eq_true_2 by eauto. unfold mbind, M_bind. rewrite ValueKnown_dim by done. by rewrite negb_involutive.
  - rewrite bool_decide_eq_false_2 by (by intros [? ?]). destruct (Z.eqb_spec (default kUnknownDim (val c)) kUnknownDim); [|done].
    by destruct Hdiv.
Qed.

Section Arith.
Context (st : t) (W : wf st) (I : interp) (HM : models I st).
Context (d : DimensionHandle) (c : DimensionOrConstant) (Hd : dim_ok st d) (Hc : dc_ok st c).

Abbreviation x := (dI I d).

(** A divisor that is a constant is not -1. *)
Definition divisor_ok (op : ArithOp) : Prop :=
  match op with OpDivide _ => dim c = None -> dcv st c <> kUnknownDim | _ => True end.

Definition good (r : Z) (J : interp) (d' : DimensionHandle) (st' : t) : Prop := dim_ok st' d' /\ dI J d' = r.

Lemma sound_first r : r = x -> sound I (mret d) st (good r).
Proof. intros ->. by apply sound_ret. Qed.

Lemma sound_second r y : denotes I c y -> r = y -> sound I (MakeDim c) st (good r).
Proof.
  intros Hy ->. eapply sound_mono; [by apply (sound_MakeDim_dc st W c Hc I y)|]. by intros ? ? ? _ _ _ (? & _ & ?).
Qed.

Lemma sound_fresh r : size r -> sound I UnknownDim st (good r).
Proof. intros Hr. eapply sound_mono; [by apply (sound_UnknownDim st W I HM r)|]. by intros ? ? ? _ _ _ (? & _ & ?). Qed.

Lemma sound_value v r : size r -> v = r -> sound I (MakeDim (of_val v)) st (good r).
Proof.
  intros Hr ->. eapply sound_mono; [apply (sound_MakeDim st W I HM r r); [unfold size in *; lia|done|done]|].
  by intros ? ? ? _ _ _ (? & _ & ?).
Qed.

Context (y : Z) (Hy : denotes I c y).

(** What is known of the operands agrees with their sizes. *)
Lemma operands : size x /\ size y /\ (dimv st d = -1 \/ dimv st d = x) /\ (dcv st c = -1 \/ dcv st c = y).
Proof.
  destruct (dI_models _ _ _ HM Hd) as [Sx Vx]. pose proof (denotes_dcv st c Hc I y HM Hy) as Vy.
  split_and!; [done|by destruct Hy|..].
  - destruct (decide (dimv st d = -1)); [by left|right]. symmetry. by apply Vx.
  - destruct (decide (dcv st c = -1)); [by left|right]. symmetry. by apply Vy.
Qed.

(** Splits the first test of the code and solves the branch by what it returns. *)
Ltac operand_test :=
  match goal with
  | |- sound _ (if ?a =? ?b then _ else _) _ _ => destruct (Z.eqb_spec a b)
  | |- sound _ (if (?a =? ?b) || (?a' =? ?b') then _ else _) _ _ =>
      destruct (Z.eqb_spec a b), (Z.eqb_spec a' b'); cbn [orb]
  end;
  try solve [apply sound_fresh; unfold size in *; first [lia|nia]
            |apply sound_first; unfold size in *; first [lia|nia]
            |eapply sound_second; [eassumption|unfold size in *; first [lia|nia]]].

Ltac operation f :=
  pose proof operands as (Sx & Sy & Vx & Vy); simpl legal in *; simpl result in *; unfold run, f, kUnknownDim;
  eapply sound_read; [by apply Value_dim|]; eapply sound_read; [by apply Value_dc|]; repeat operand_test;
  replace (dimv st d) with x by lia; replace (dcv st c) with y by lia; unfold size in *.

Lemma sound_Add : legal OpAdd x y -> sound I (run OpAdd d c) st (good (result OpAdd x y)).
Proof.
  intros Hl. operation Add. rewrite add_wraps by done. destruct (Z.ltb_spec (x + y) (2 ^ 63)); [|lia].
  destruct (Z.ltb_spec (x + y) 0); [lia|]. apply sound_value; unfold size; lia.
Qed.

Lemma sound_Subtract : legal OpSubtract x y -> sound I (run OpSubtract d c) st (good (result OpSubtract x y)).
Proof.
  intros Hl. operation Subtract. destruct (Z.ltb_spec x y); [lia|]. rewrite wrap_i64_id by (unfold in_i64; lia).
  apply sound_value; unfold size; lia.
Qed.

Lemma sound_Multiply : legal OpMultiply x y -> sound I (run OpMultiply d c) st (good (result OpMultiply x y)).
Proof.
  intros Hl. operation Multiply. rewrite multiply_ok by lia. destruct (Z.ltb_spec (x * y) 0); [lia|].
  apply sound_value; unfold size; lia.
Qed.

Lemma sound_Min : sound I (run OpMin d c) st (good (result OpMin x y)).
Proof.
  operation Min. destruct (Z.leb_spec x y); [apply sound_first; lia|eapply sound_second; [done|lia]].
Qed.

Lemma sound_Max : sound I (run OpMax d c) st (good (result OpMax x y)).
Proof.
  operation Max. destruct (Z.leb_spec y x); [apply sound_first; lia|eapply sound_second; [done|lia]].
Qed.

Lemma sound_Divide e : divisor_ok (OpDivide e) -> legal (OpDivide e) x y ->
  sound I (run (OpDivide e) d c) st (good (result (OpDivide e) x y)).
Proof.
  intros Hdiv Hl. pose proof operands as (Sx & Sy & Vx & Vy). pose proof (legal_size (OpDivide e) x y Sx Sy Hl) as Sr.
  simpl in *. destruct Hl as [Hp He]. unfold Divide. eapply sound_read; [by apply Value_dc|].
  operand_test. { apply sound_first. replace y with 1 by lia. apply Z.div_1_r. }
  eapply sound_read; [by apply ValueKnown_dim|]. unfold kUnknownDim. rewrite negb_involutive.
  destruct (Z.eqb_spec (dimv st d) (-1)); [eapply sound_read; [done|]; by apply sound_fresh|].
  eapply sound_read; [by apply Divide_unknown|]. unfold kUnknownDim.
  destruct (Z.eqb_spec (dcv st c) (-1)); [by apply sound_fresh|].
  eapply sound_read; [by apply Value_dim|].
  replace (dimv st d) with x by lia. replace (dcv st c) with y by lia. unfold size in *.
  destruct (Z.leb_spec y 0); [lia|]. rewrite Z.rem_mod_nonneg, Z.quot_div_nonneg by lia.
  destruct e; [rewrite He by done|]; by apply sound_value.
Qed.

(** For the sizes of an execution on which it is legal, an operation returns a dimension with the right size. *)
Lemma sound_run op : divisor_ok op -> legal op x y -> sound I (run op d c) st (good (result op x y)).
Proof.
  destruct op; intros; [by apply sound_Add|by apply sound_Subtract|by apply sound_Multiply|apply sound_Min|apply sound_Max|by apply sound_Divide].
Qed.
End Arith.

(** ** Known operands *)
Section Known.
Context (st : t) (W : wf st) (d : DimensionHandle) (c : DimensionOrConstant) (Hd : dim_ok st d) (Hc : dc_ok st c).

Abbreviation x := (dimv st d).
Abbreviation y := (dcv st c).

Definition refused (op : ArithOp) : Prop := x <> kUnknownDim /\ y <> kUnknownDim /\ ~ legal op x y.
Definition exact_result (op : ArithOp) (d' : DimensionHandle) (st' : t) : Prop :=
  dim_ok st' d' /\ (x <> kUnknownDim -> y <> kUnknownDim -> legal op x y /\ dimv st' d' = result op x y).

Lemma safe_first F op : (x <> kUnknownDim -> y <> kUnknownDim -> legal op x y /\ x = result op x y) ->
  outcome F (mret d) st (exact_result op).
Proof. intros H. by apply safe_ret. Qed.

Lemma safe_second F op : (x <> kUnknownDim -> y <> kUnknownDim -> legal op x y /\ y = result op x y) ->
  outcome F (MakeDim c) st (exact_result op).
Proof.
  intros H. eapply safe_mono; [by apply safe_MakeDim_dc|]. intros d' st' _ _ [? E]. split; [done|]. by rewrite E.
Qed.

Lemma safe_fresh F op : x = kUnknownDim \/ y = kUnknownDim -> outcome F UnknownDim st (exact_result op).
Proof. intros H. eapply safe_mono; [by apply safe_UnknownDim|]. intros d' st' _ _ [? _]. split; [done|]. intuition. Qed.

Lemma safe_value F op v : size v -> legal op x y -> v = result op x y -> outcome F (MakeDim (of_val v)) st (exact_result op).
Proof.
  intros Hv Hl E. eapply safe_mono; [apply safe_MakeDim_val; [done|unfold size in *; lia]|]. intros d' st' _ _ [? E'].
  split; [done|]. intros. split; [done|]. by rewrite E'.
Qed.

Lemma safe_refused op : x <> kUnknownDim -> y <> kUnknownDim -> ~ legal op x y ->
  outcome (refused op) InvalidArgument st (exact_result op).
Proof. intros. by apply safe_status. Qed.

Ltac known_test :=
  match goal with
  | |- outcome _ (if ?a =? ?b then _ else _) _ _ => destruct (Z.eqb_spec a b)
  | |- outcome _ (if (?a =? ?b) || (?a' =? ?b') then _ else _) _ _ =>
      destruct (Z.eqb_spec a b), (Z.eqb_spec a' b'); cbn [orb]
  end;
  try solve [apply safe_fresh; unfold kUnknownDim; lia
            |apply safe_first; simpl; unfold kUnknownDim; nia
            |apply safe_second; simpl; unfold kUnknownDim; nia].

Ltac known_operation f :=
  pose proof (dimv_range st d W) as Rx; pose proof (dcv_range st W c Hc) as Ry; unfold run, f;
  eapply safe_read; [by apply Value_dim|]; eapply safe_read; [by apply Value_dc|]; unfold kUnknownDim; repeat known_test.

Lemma safe_Add : outcome (refused OpAdd) (run OpAdd d c) st (exact_result OpAdd).
Proof.
  known_operation Add. rewrite add_wraps by (unfold size; lia).
  destruct (Z.ltb_spec (x + y) (2 ^ 63)).
  - destruct (Z.ltb_spec (x + y) 0); [lia|]. apply safe_value; unfold size; simpl; lia.
  - destruct (Z.ltb_spec (x + y - 2 ^ 64) 0); [|lia]. apply safe_refused; simpl; unfold kUnknownDim; lia.
Qed.

Lemma safe_Subtract : outcome (refused OpSubtract) (run OpSubtract d c) st (exact_result OpSubtract).
Proof.
  known_operation Subtract. destruct (Z.ltb_spec x y).
  - apply safe_refused; simpl; unfold kUnknownDim; lia.
  - rewrite wrap_i64_id by (unfold in_i64; lia). apply safe_value; unfold size; simpl; lia.
Qed.

Lemma safe_Multiply : outcome (refused OpMultiply) (run OpMultiply d c) st (exact_result OpMultiply).
Proof.
  known_operation Multiply. destruct (Z.ltb_spec (x * y) (2 ^ 63)).
  - rewrite multiply_ok by lia. destruct (Z.ltb_spec (x * y) 0); [nia|]. apply safe_value; unfold size; simpl; lia.
  - pose proof (multiply_overflow x y ltac:(lia) ltac:(lia) ltac:(lia)).
    destruct (Z.ltb_spec (Shape.MultiplyWithoutOverflow x y) 0); [|lia]. apply safe_refused; simpl; unfold kUnknownDim; lia.
Qed.

Lemma safe_Min : outcome (refused OpMin) (run OpMin d c) st (exact_result OpMin).
Proof. known_operation Min. destruct (Z.leb_spec x y); [apply safe_first|apply safe_second]; simpl; lia. Qed.

Lemma safe_Max : outcome (refused OpMax) (run OpMax d c) st (exact_result OpMax).
Proof. known_operation Max. destruct (Z.leb_spec y x); [apply safe_first|apply safe_second]; simpl; lia. Qed.

Lemma safe_Divide e : (dim c = None -> y <> kUnknownDim) ->
  outcome (refused (OpDivide e)) (run (OpDivide e) d c) st (exact_result (OpDivide e)).
Proof.
  intros Hdiv. pose proof (dimv_range st d W) as Rx. pose proof (dcv_range st W c Hc) as Ry. simpl run. unfold Divide.
  eapply safe_read; [by apply Value_dc|]. destruct (Z.eqb_spec y 1) as [E|E].
  { apply safe_first. intros. simpl. rewrite E, Z.div_1_r, Z.mod_1_r. lia. }
  eapply safe_read; [by apply ValueKnown_dim|]. rewrite negb_involutive.
  destruct (Z.eqb_spec x kUnknownDim); [eapply safe_read; [done|]; apply safe_fresh; by left|].
  eapply safe_read; [by apply Divide_unknown|]. destruct (Z.eqb_spec y kUnknownDim); [apply safe_fresh; by right|].
  eapply safe_read; [by apply Value_dim|]. unfold kUnknownDim in *.
  destruct (Z.leb_spec y 0); [apply safe_refused; simpl; unfold kUnknownDim; lia|].
  rewrite Z.rem_mod_nonneg, Z.quot_div_nonneg by lia.
  destruct e; simpl; [destruct (Z.eqb_spec (x mod y) 0); simpl|].
  - apply safe_value; [unfold size; split; [apply Z.div_pos; lia|]|done|done].
    apply (Z.le_lt_trans _ x); [|lia]. apply Z.div_le_upper_bound; nia.
  - apply safe_refused; simpl; unfold kUnknownDim; [lia|lia|]. intros [_ He]. by apply n1, He.
  - apply safe_value; [unfold size; split; [apply Z.div_pos; lia|]|done|done].
    apply (Z.le_lt_trans _ x); [|lia]. apply Z.div_le_upper_bound; nia.
Qed.

(** Known operands give a known result; an operation is refused only for known operands on which it is not legal. *)
Lemma safe_run op : divisor_ok st c op -> outcome (refused op) (run op d c) st (exact_result op).
Proof.
  destruct op; intros; [apply safe_Add|apply safe_Subtract|apply safe_Multiply|apply safe_Min|apply safe_Max|by apply safe_Divide].
Qed.
End Known.

End InferenceArith.
