(* ===== verification/InferenceShapes.v ===== *)
(** * Shape inference: shapes made of shapes

    [Subshape], [Concatenate], [ReplaceDim], [MergePrefix] and [NumElements]
    against the operations on lists of sizes they stand for. *)

From S2P Require Import Prelude TensorShape ShapeSpec SliceSpec ShapeInference InferenceSpec InferenceMerge ShapeTheorems.

Import Inference InferenceSpec InferenceMerge.

Module InferenceShapes.

(** ** [Subshape] *)

(** Python's [l[start:stop:step]] *)
Definition py_range {A} (l : list A) (b e step : Z) : list A :=
  omap (fun k => l !! Z.to_nat (b + k * step)) (seqZ 0 (py_len b e step)).
Definition py_slice {A} (l : list A) (start stop step : Z) : list A :=
  let len := Z.of_nat (length l) in
  py_range l (py_start len (Some start) step) (py_stop len (Some stop) step) step.

Lemma py_len_step b e step : step <> 0 -> (if 0 <? step then b <? e else e <? b) = true ->
  py_len b e step = py_len (b + step) e step + 1.
Proof.
  intros Hs Ht. unfold py_len. destruct (Z.ltb_spec 0 step) as [Hp|Hp]; zbool.
  - destruct (Z.ltb_spec step 0); [lia|]. destruct (Z.ltb_spec b e); [|lia].
    destruct (Z.ltb_spec (b + step) e).
    + replace (e - b - 1) with (e - (b + step) - 1 + 1 * step) by lia. rewrite Z.div_add by lia. lia.
    + rewrite Z.div_small by lia. lia.
  - destruct (Z.ltb_spec step 0); [|lia]. destruct (Z.ltb_spec e b); [|lia].
    destruct (Z.ltb_spec e (b + step)).
    + replace (b - e - 1) with (b + step - e - 1 + 1 * (- step)) by lia. rewrite Z.div_add by lia. lia.
    + rewrite Z.div_small by lia. lia.
Qed.

Lemma py_len_stop b e step : step <> 0 -> (if 0 <? step then b <? e else e <? b) = false -> py_len b e step = 0.
Proof.
  intros Hs Ht. unfold py_len. destruct (Z.ltb_spec 0 step); zbool.
  - destruct (Z.ltb_spec step 0); [lia|]. destruct (Z.ltb_spec b e); lia.
  - destruct (Z.ltb_spec step 0); [|lia]. destruct (Z.ltb_spec e b); lia.
Qed.

Lemma py_len_nonneg b e step : step <> 0 -> 0 <= py_len b e step.
Proof.
  intros Hs. unfold py_len. repeat case_if; try lia.
  - pose proof (Z.div_pos (b - e - 1) (- step) ltac:(lia) ltac:(lia)). lia.
  - pose proof (Z.div_pos (e - b - 1) step ltac:(lia) ltac:(lia)). lia.
Qed.

Lemma py_range_step {A} (l : list A) b e step x : step <> 0 -> (if 0 <? step then b <? e else e <? b) = true ->
  l !! Z.to_nat b = Some x -> py_range l b e step = x :: py_range l (b + step) e step.
Proof.
  intros Hs Ht Hx. unfold py_range. rewrite py_len_step by done. pose proof (py_len_nonneg (b + step) e step Hs).
  rewrite seqZ_cons by lia. simpl. rewrite Z.add_0_r, Hx. f_equal.
  replace (Z.pred (py_len (b + step) e step + 1)) with (py_len (b + step) e step) by lia.
  change (Z.succ 0) with (1 + 0). rewrite <- fmap_add_seqZ.
  apply list_omap_ext, Forall2_fmap_l, Forall_Forall2_diag, list.Forall_true. intros k. do 2 f_equal. lia.
Qed.

Lemma py_range_map {A B} (f : A -> B) l b e step : map f (py_range l b e step) = py_range (map f l) b e step.
Proof.
  unfold py_range. change (map f) with (fmap (M:=list) f). rewrite list_fmap_omap.
  apply list_omap_ext, Forall_Forall2_diag, list.Forall_true. intros k. by rewrite list_lookup_fmap.
Qed.

Lemma py_slice_map {A B} (f : A -> B) l start stop step : map f (py_slice l start stop step) = py_slice (map f l) start stop step.
Proof. unfold py_slice. by rewrite py_range_map, length_map. Qed.

Lemma py_range_length {A} (l : list A) b e step : step <> 0 -> Z.of_nat (length (py_range l b e step)) <= py_len b e step.
Proof.
  intros Hs. pose proof (py_len_nonneg b e step Hs). unfold py_range.
  assert (length (seqZ 0 (py_len b e step)) = Z.to_nat (py_len b e step)) as HL by apply length_seqZ.
  enough (forall ks, (length (omap (fun k => l !! Z.to_nat (b + k * step)) ks) <= length ks)%nat) as Hk.
  { specialize (Hk (seqZ 0 (py_len b e step))). lia. }
  induction ks as [|k ks IH]; [done|]. simpl. destruct (l !! _); [apply le_n_S|apply Nat.le_le_succ_r]; exact IH.
Qed.

Lemma py_range_incl {A} (P : A -> Prop) l b e step : Forall P l -> Forall P (py_range l b e step).
Proof.
  intros H. apply list.Forall_forall. intros x Hx. unfold py_range in Hx.
  apply list_elem_of_omap in Hx as (k & _ & E). by apply (list.Forall_lookup_1 _ _ _ _ H E).
Qed.

Lemma py_range_take {A} (l : list A) k e : (k <= e <= length l)%nat -> py_range l (Z.of_nat k) (Z.of_nat e) 1 = take (e - k) (drop k l).
Proof.
  remember (e - k)%nat as n eqn:En. revert k En. induction n as [|n IH]; intros k En Hk.
  - unfold py_range. rewrite py_len_stop; [|done|by apply Z.ltb_ge; lia]. done.
  - destruct (lookup_lt_is_Some_2 l k) as [x Hx]; [lia|].
    rewrite (py_range_step _ _ _ _ x); [|done|by apply Z.ltb_lt; lia|by rewrite Nat2Z.id].
    replace (Z.of_nat k + 1) with (Z.of_nat (S k)) by lia. rewrite IH by lia. by rewrite (drop_S l x k).
Qed.

Lemma py_range_suffix {A} (l : list A) k : (k <= length l)%nat -> py_range l (Z.of_nat k) (Z.of_nat (length l)) 1 = drop k l.
Proof. intros Hk. rewrite py_range_take by lia. rewrite take_ge; [done|]. rewrite length_drop. lia. Qed.

Lemma py_slice_full {A} (l : list A) stop : Z.of_nat (length l) <= stop -> py_slice l 0 stop 1 = l.
Proof.
  intros Hs. unfold py_slice, py_start, py_stop. simpl. destruct (Z.ltb_spec stop 0); [lia|].
  destruct (Z.leb_spec (Z.of_nat (length l)) stop); [|lia].
  replace (if Z.of_nat (length l) <=? 0 then Z.of_nat (length l) else 0) with (Z.of_nat 0) by (repeat case_if; lia).
  by rewrite py_range_suffix by lia.
Qed.

Lemma py_slice_prefix {A} (a b : list A) stop : stop = Z.of_nat (length a) \/ (b <> [] /\ stop = - Z.of_nat (length b)) ->
  py_slice (a ++ b) 0 stop 1 = a /\ py_stop (Z.of_nat (length (a ++ b))) (Some stop) 1 = Z.of_nat (length a).
Proof.
  intros Hs. unfold py_slice, py_start, py_stop. simpl. rewrite length_app in *.
  assert (stop = Z.of_nat (length a) \/ ((0 < length b)%nat /\ stop = - Z.of_nat (length b))) as Hs'
    by (destruct Hs as [|[? ?]]; [by left|right]; split; [destruct b; [done|simpl; lia]|done]).
  match goal with |- py_range _ ?x ?y _ = _ /\ _ => replace x with (Z.of_nat 0) by (repeat case_if; lia); replace y with (Z.of_nat (length a)) by (repeat case_if; lia) end.
  split; [|done]. rewrite py_range_take by (rewrite ?length_app; lia). by rewrite drop_0, Nat.sub_0_r, take_app_length.
Qed.

Lemma py_slice_suffix {A} (a b : list A) start :
  start = Z.of_nat (length a) \/ (b <> [] /\ start = - Z.of_nat (length b)) -> Z.of_nat (length (a ++ b)) < 2 ^ 63 ->
  py_slice (a ++ b) start i64_max 1 = b
  /\ py_start (Z.of_nat (length (a ++ b))) (Some start) 1 <= py_stop (Z.of_nat (length (a ++ b))) (Some i64_max) 1.
Proof.
  intros Hs Hl. unfold py_slice, py_start, py_stop, i64_max in *. simpl. rewrite length_app in *.
  assert (start = Z.of_nat (length a) \/ ((0 < length b)%nat /\ start = - Z.of_nat (length b))) as Hs'
    by (destruct Hs as [|[? ?]]; [by left|right]; split; [destruct b; [done|simpl; lia]|done]).
  match goal with |- py_range _ ?x ?y _ = _ /\ _ => replace x with (Z.of_nat (length a)) by (repeat case_if; lia);
    replace y with (Z.of_nat (length a + length b)) by (repeat case_if; lia) end.
  split; [|lia]. rewrite py_range_take by (rewrite ?length_app; lia). rewrite drop_app_length, take_ge by lia. done.
Qed.

(** What [Subshape] refuses: a bound before the first dimension, or bounds in the wrong order (for a
    negative stride, any bounds of an empty slice) *)
Definition subshape_refused {A} (l : list A) (start stop stride : Z) : Prop :=
  let len := Z.of_nat (length l) in
  start < - len \/ stop < - len \/
  if 0 <? stride then py_stop len (Some stop) stride < py_start len (Some start) stride
  else py_slice l start stop stride = [].

Lemma subshape_refused_map {A B} (f : A -> B) l start stop stride :
  subshape_refused l start stop stride -> subshape_refused (map f l) start stop stride.
Proof. unfold subshape_refused. rewrite length_map, <- py_slice_map. destruct (0 <? stride); [done|]. intros [?|[?| ->]]; tauto. Qed.

Section Subshape.
Context (st : t) (W : wf st) (s : ShapeHandle) (ds : list DimensionHandle) (K : known st s = Some ds).

Abbreviation r := (Z.of_nat (length ds)).

(** The loop collects the dimensions at the positions of the range; the [int] counter does not wrap. *)
Lemma subshape_loop_run fuel i e stride :
  stride <> 0 -> r + Z.abs stride < 2 ^ 31 -> 0 <= e <= r -> - 2 ^ 31 <= i ->
  (if 0 <? stride then 0 <= i else i < r) -> py_len i e stride <= Z.of_nat fuel ->
  subshape_loop fuel s i e stride st = (Ok (py_range ds i e stride), st).
Proof.
  intros Hs Hb He. revert i. induction fuel as [|fuel IH]; intros i Hi0 Hi Hf; simpl.
  - destruct (if 0 <? stride then i <? e else e <? i) eqn:Ht.
    + rewrite py_len_step in Hf by done. pose proof (py_len_nonneg (i + stride) e stride Hs). lia.
    + unfold py_range. by rewrite (py_len_stop _ _ _ Hs Ht).
  - destruct (if 0 <? stride then i <? e else e <? i) eqn:Ht.
    2:{ unfold py_range. by rewrite (py_len_stop _ _ _ Hs Ht). }
    assert (0 <= i < r) as Hr by (destruct (0 <? stride); zbool; lia).
    destruct (lookup_lt_is_Some_2 ds (Z.to_nat i)) as [d Hd]; [lia|].
    unfold mbind, M_bind. rewrite (Dim_known st W s ds i d) by (done || lia).
    rewrite wrap_i64_id by (unfold in_i64; lia). rewrite wrap_i32_id by (unfold in_i32; lia).
    rewrite IH; [by rewrite (py_range_step ds i e stride d)|lia| |].
    + destruct (Z.ltb_spec 0 stride); lia.
    + rewrite py_len_step in Hf by done. lia.
Qed.

Lemma py_slice_empty start stop stride : stride <> 0 ->
  (if 0 <? stride then py_stop r (Some stop) stride <= py_start r (Some start) stride
   else py_start r (Some start) stride <= py_stop r (Some stop) stride) -> py_slice ds start stop stride = [].
Proof.
  intros Hs Hle. unfold py_slice, py_range. rewrite py_len_stop; [done|done|].
  destruct (0 <? stride); apply Z.ltb_ge; lia.
Qed.

(** The bounds that the code computes are Python's, unless it refuses them. *)
Lemma subshape_bounds start stop stride :
  stride <> 0 ->
  let start1 := if r <? start then r else start in
  let stop1 := if r <? stop then r else stop in
  let start2 := if (stride <? 0) && (start1 =? r) then start1 - 1 else start1 in
  let b := if start2 <? 0 then r + start2 else start2 in
  let e := if stop1 <? 0 then r + stop1 else stop1 in
  if b <? 0 then subshape_refused ds start stop stride
  else if e <? 0 then subshape_refused ds start stop stride
  else if (0 <? stride) && (e <? b) then subshape_refused ds start stop stride
  else if (stride <? 0) && (b <? e) then subshape_refused ds start stop stride
  else b = py_start r (Some start) stride /\ e = py_stop r (Some stop) stride.
Proof.
  intros Hs start1 stop1 start2 b e. unfold subshape_refused. cbn zeta.
  pose proof (py_slice_empty start stop stride Hs) as Hempty. unfold py_start, py_stop in *.
  subst b e start2 start1 stop1. revert Hempty. generalize (py_slice ds start stop stride = []). intros P.
  destruct (Z.ltb_spec stride 0), (Z.ltb_spec 0 stride); try lia; cbn [andb];
    destruct (Z.ltb_spec r start), (Z.ltb_spec r stop), (Z.leb_spec r start), (Z.leb_spec r stop); try lia;
    repeat case_if; intros Hempty;
    repeat match goal with H : context [if _ then _ else _] |- _ => case_if_in H end;
    first [lia|right; right; apply Hempty; lia].
Qed.

(** [Subshape] gives back the shape, makes the shape of the slice, or refuses. *)
Lemma Subshape_run fuel start stop stride :
  stride <> 0 -> r + Z.abs stride < 2 ^ 31 -> (length ds <= fuel)%nat ->
  (Subshape fuel s start stop stride st = (Ok s, st) /\ py_slice ds start stop stride = ds)
  \/ (Subshape fuel s start stop stride st = (Err (Status Shape.InvalidArgument), st) /\ subshape_refused ds start stop stride)
  \/ (Subshape fuel s start stop stride st = MakeShape (py_slice ds start stop stride) st
      /\ (length (py_slice ds start stop stride) <= length ds)%nat).
Proof.
  intros Hs Hb Hf. pose proof (known_shape _ _ _ K) as Hok. unfold Subshape, mbind, M_bind.
  rewrite (Rank_ok st W s Hok), (RankKnown_ok st W s Hok). unfold rankv. rewrite K.
  rewrite bool_decide_eq_true_2 by eauto. cbn [negb andb].
  destruct ((start =? 0) && (stride =? 1) && ((r <=? stop) || (stop =? i64_max))) eqn:Eid.
  { left. split; [done|]. zbool. subst start stride. apply py_slice_full.
    apply orb_true_iff in H0 as [?|?]; zbool; [lia|]. subst. unfold i64_max. lia. }
  right. clear Eid. pose proof (subshape_bounds start stop stride Hs) as HB. cbn zeta in HB |- *.
  set (b := if _ <? 0 then r + _ else _) in *. set (e := if (if r <? stop then r else stop) <? 0 then _ else _) in *.
  destruct (b <? 0) eqn:Eb; [by left|]. destruct (e <? 0) eqn:Ee; [by left|].
  destruct ((0 <? stride) && (e <? b)) eqn:E1; [by left|].
  destruct ((stride <? 0) && (b <? e)) eqn:E2; [by left|]. right. destruct HB as [HB HE].
  pose proof (py_start_range r stride (Some start) ltac:(lia) Hs) as Rb. rewrite <- HB in Rb.
  pose proof (py_stop_range r stride (Some stop) ltac:(lia) Hs) as Re. rewrite <- HE in Re.
  pose proof (py_len_bound r b e stride Hs ltac:(lia) Rb Re). zbool.
  assert (0 <= b <= r /\ 0 <= e <= r) as [? ?] by (destruct (stride <? 0); lia).
  rewrite wrap_i32_id by (unfold in_i32; lia).
  rewrite (subshape_loop_run fuel b e stride); [|done|done|lia|lia| |lia].
  2:{ destruct (Z.ltb_spec 0 stride), (Z.ltb_spec stride 0); lia. }
  pose proof (py_range_length ds b e stride Hs).
  assert (py_range ds b e stride = py_slice ds start stop stride) as Epy by (unfold py_slice; by rewrite <- HB, <- HE).
  rewrite Epy in *. split; [done|lia].
Qed.

Lemma safe_Subshape fuel start stop stride :
  stride <> 0 -> r + Z.abs stride < 2 ^ 31 -> (length ds <= fuel)%nat ->
  outcome (subshape_refused ds start stop stride) (Subshape fuel s start stop stride) st
    (fun s' st' => known st' s' = Some (py_slice ds start stop stride)).
Proof.
  intros Hs Hb Hf. destruct (known_ok _ _ _ W K) as (F & Hm & _).
  destruct (Subshape_run fuel start stop stride Hs Hb Hf) as [[E Hsl]|[[E Hr]|[E Hl]]].
  - apply (safe_ext _ _ (mret s)); [done|]. apply safe_ret; [done|]. by rewrite Hsl.
  - apply (safe_ext _ _ InvalidArgument); [done|]. by apply safe_status.
  - apply (safe_ext _ _ _ _ _ E). eapply safe_mono; [apply safe_MakeShape; [done|by apply py_range_incl|lia]|].
    by intros ? ? _ _ [? _].
Qed.
End Subshape.

(** For the sizes of an execution, the result has the sizes of the slice. *)
Lemma sound_Subshape st I s l fuel start stop stride :
  wf st -> models I st -> shape_ok st s -> sI I st s = l ->
  stride <> 0 -> Z.of_nat (length l) + Z.abs stride < 2 ^ 31 -> (is_Some (known st s) -> (length l <= fuel)%nat) ->
  ~ subshape_refused l start stop stride ->
  sound I (Subshape fuel s start stop stride) st (fun J s' st' =>
    shape_ok st' s' /\ sI J st' s' = py_slice l start stop stride).
Proof.
  intros W HM Hok Hl Hs Hb Hf Hr. destruct (known st s) as [ds|] eqn:K.
  - assert (map (dI I) ds = l) as Hds by (rewrite <- Hl; unfold sI; by rewrite K).
    assert (length ds = length l) as El by (rewrite <- Hds; by rewrite length_map).
    rewrite <- El in *. specialize (Hf ltac:(by eexists)). destruct (known_ok _ _ _ W K) as (F & Hm & _). rewrite <- Hds, <- py_slice_map.
    destruct (Subshape_run st W s ds K fuel start stop stride Hs Hb Hf) as [[E Hsl]|[[E Hr']|[E Hlen]]].
    + apply (sound_ext _ _ (mret s)); [done|]. apply sound_ret; [done|done|]. by rewrite Hsl, Hl, Hds.
    + destruct Hr. rewrite <- Hds. by apply subshape_refused_map.
    + apply (sound_ext _ _ _ _ _ E). eapply sound_mono; [apply sound_MakeShape; [done|done|by apply py_range_incl|lia]|].
      intros J s' st' _ _ _ [Hk ->]. split; [by eapply known_shape|done].
  - unfold Subshape. eapply sound_read; [by apply Rank_ok|]. eapply sound_read; [by apply RankKnown_ok|].
    unfold rankv. rewrite K. rewrite bool_decide_eq_false_2 by (by intros [? ?]). cbn [negb andb orb].
    destruct ((start =? 0) && (stride =? 1) && (stop =? i64_max)) eqn:E.
    + zbool. subst. apply sound_ret; [done|done|]. split; [done|]. rewrite py_slice_full; [done|]. unfold i64_max. lia.
    + eapply sound_mono; [apply (sound_UnknownShape st W I HM (py_slice l start stop stride))|by intros ? ? ? _ _ _ (? & _ & ?)].
      apply py_range_incl. rewrite <- Hl. by apply sI_size.
Qed.

(** ** Reading all dimensions *)
Lemma Dims_suffix st s ds k : wf st -> known st s = Some ds -> (k <= length ds)%nat ->
  Dims s (seqZ (Z.of_nat k) (Z.of_nat (length ds) - Z.of_nat k)) st = (Ok (drop k ds), st).
Proof.
  intros W K. remember (length ds - k)%nat as n eqn:En. revert k En. induction n as [|n IH]; intros k En Hk.
  - replace (Z.of_nat (length ds) - Z.of_nat k) with 0 by lia. by rewrite drop_ge by lia.
  - destruct (lookup_lt_is_Some_2 ds k) as [d Hd]; [lia|]. rewrite seqZ_cons by lia. unfold Dims. rewrite mapM_cons.
    unfold mbind at 1, M_bind at 1. rewrite (Dim_known st W s ds _ d) by (done || lia || by rewrite Nat2Z.id).
    replace (Z.succ (Z.of_nat k)) with (Z.of_nat (S k)) by lia.
    replace (Z.pred (Z.of_nat (length ds) - Z.of_nat k)) with (Z.of_nat (length ds) - Z.of_nat (S k)) by lia.
    unfold mbind, M_bind. unfold Dims in IH. rewrite IH by lia. by rewrite (drop_S _ d k).
Qed.

Lemma Dims_all st s ds : wf st -> known st s = Some ds -> Dims s (upto (Z.of_nat (length ds))) st = (Ok ds, st).
Proof.
  intros W K. pose proof (Dims_suffix st s ds 0 W K ltac:(lia)) as H. rewrite Z.sub_0_r in H. exact H.
Qed.

(** ** [Concatenate] *)
Definition concat (a b : option (list Z)) : option (list Z) :=
  match a, b with Some l, Some k => Some (l ++ k) | _, _ => None end.

Section Concatenate.
Context (st : t) (W : wf st) (s1 s2 : ShapeHandle) (H1 : shape_ok st s1) (H2 : shape_ok st s2).

Lemma Concatenate_run :
  Concatenate s1 s2 st =
    match known st s1, known st s2 with
    | Some ds1, Some ds2 => MakeShape (ds1 ++ ds2) st
    | _, _ => UnknownShape st
    end.
Proof.
  unfold Concatenate, mbind, M_bind. rewrite (RankKnown_ok st W s1 H1).
  destruct (known st s1) as [ds1|] eqn:K1; [|done].
  rewrite bool_decide_eq_true_2 by eauto. rewrite (RankKnown_ok st W s2 H2).
  destruct (known st s2) as [ds2|] eqn:K2; [|by rewrite bool_decide_eq_false_2 by (by intros [? ?])].
  rewrite bool_decide_eq_true_2 by eauto. cbn [negb orb].
  rewrite (Rank_ok st W s1 H1), (Rank_ok st W s2 H2). unfold rankv. rewrite K1, K2.
  by rewrite (Dims_all st s1 ds1 W K1), (Dims_all st s2 ds2 W K2).
Qed.

Lemma safe_Concatenate F :
  (forall l1 l2, view st s1 = Some l1 -> view st s2 = Some l2 -> Z.of_nat (length l1 + length l2) <= kint32max) ->
  outcome F (Concatenate s1 s2) st (fun s st' => shape_ok st' s /\ view st' s = concat (view st s1) (view st s2)).
Proof.
  intros HL. pose proof Concatenate_run as E.
  destruct (known st s1) as [ds1|] eqn:K1; [rewrite (view_known _ _ _ K1) in *; destruct (known st s2) as [ds2|] eqn:K2|].
  - rewrite (view_known _ _ _ K2) in *. specialize (HL _ _ eq_refl eq_refl). rewrite !length_map in HL.
    apply (safe_ext _ _ _ _ _ E). eapply safe_mono; [apply safe_MakeShape; [done| |by rewrite length_app]|].
    + apply Forall_app. split; by eapply known_ok.
    + intros s st' _ _ [Hk Hv]. split; [by eapply known_shape|]. by rewrite Hv, map_app.
  - rewrite (view_unknown _ _ K2). apply (safe_ext _ _ _ _ _ E). eapply safe_mono; [by apply safe_UnknownShape|].
    intros s st' _ _ [? ?]. split; [done|]. by rewrite view_unknown by done.
  - rewrite (view_unknown _ _ K1). apply (safe_ext _ _ _ _ _ E). eapply safe_mono; [by apply safe_UnknownShape|].
    intros s st' _ _ [? ?]. split; [done|]. by rewrite view_unknown by done.
Qed.

Lemma sound_Concatenate I : models I st -> Z.of_nat (length (sI I st s1 ++ sI I st s2)) <= kint32max ->
  sound I (Concatenate s1 s2) st (fun J s st' => shape_ok st' s /\ sI J st' s = sI I st s1 ++ sI I st s2).
Proof.
  intros HM HL.
  assert (sound I UnknownShape st (fun J s st' => shape_ok st' s /\ sI J st' s = sI I st s1 ++ sI I st s2)) as HU.
  { eapply sound_mono; [apply (sound_UnknownShape st W I HM (sI I st s1 ++ sI I st s2))|by intros ? ? ? _ _ _ (? & _ & ?)].
    apply Forall_app. by split; apply sI_size. }
  destruct (known st s1) as [ds1|] eqn:K1; [destruct (known st s2) as [ds2|] eqn:K2|].
  - apply (sound_ext _ _ (MakeShape (ds1 ++ ds2))); [by rewrite Concatenate_run, K1, K2|].
    eapply sound_mono; [apply sound_MakeShape; [done|done|apply Forall_app; split; by eapply known_ok|]|].
    + unfold sI in HL. rewrite K1, K2, length_app, !length_map in HL. by rewrite length_app.
    + intros J s st' _ _ _ [Hk Hv]. split; [by eapply known_shape|]. unfold sI at 2 3. by rewrite Hv, K1, K2, map_app.
  - apply (sound_ext _ _ UnknownShape); [by rewrite Concatenate_run, K1, K2|done].
  - apply (sound_ext _ _ UnknownShape); [by rewrite Concatenate_run, K1|done].
Qed.
End Concatenate.

(** ** [ReplaceDim] *)
Section ReplaceDim.
Context (st : t) (W : wf st) (s : ShapeHandle) (Hs : shape_ok st s) (d : DimensionHandle) (Hd : dim_ok st d).

(** The position that an index, possibly negative, means *)
Definition position (len i : Z) : Z := if i <? 0 then len + i else i.

Lemma ReplaceDim_run i : in_i64 i ->
  ReplaceDim s i d st =
    match known st s with
    | None => UnknownShape st
    | Some ds =>
        let p := position (Z.of_nat (length ds)) i in
        if (0 <=? p) && (p <? Z.of_nat (length ds)) then MakeShape (<[Z.to_nat p := d]> ds) st
        else (Err (Status Shape.InvalidArgument), st)
    end.
Proof.
  unfold in_i64. intros Hi. unfold ReplaceDim, mbind, M_bind. rewrite (RankKnown_ok st W s Hs).
  destruct (known st s) as [ds|] eqn:K; [|by rewrite bool_decide_eq_false_2 by (by intros [? ?])].
  rewrite bool_decide_eq_true_2 by eauto. cbn [negb].
  destruct (known_ok _ _ _ W K) as (_ & Hm & o & Ho & _ & Eo). rewrite (deref_at _ _ _ Ho), Eo.
  unfold kint32max, i32_max, position, FastBoundsCheck in *. rewrite (wrap_u64_id (Z.of_nat (length ds))) by (unfold in_u64; lia).
  cbn zeta.
  set (n := Z.of_nat (length ds)) in *.
  assert (forall p, - 2 ^ 63 <= p < 2 ^ 63 -> (wrap_u64 p <? n) = ((0 <=? p) && (p <? n))) as Hc.
  { intros p Hp. destruct (Z.leb_spec 0 p).
    - rewrite wrap_u64_id by (unfold in_u64; lia). done.
    - simpl. apply Z.ltb_ge. unfold wrap_u64. rewrite <- (Z_mod_plus_full p 1), Z.mod_small by lia. lia. }
  destruct (Z.ltb_spec i 0).
  - rewrite wrap_i64_id by (unfold in_i64; lia). rewrite Hc by lia.
    destruct ((0 <=? n + i) && (n + i <? n)) eqn:E; [|done]. zbool. cbn [negb]. unfold set_at, at_, mbind, M_bind.
    destruct (Z.leb_spec 0 (n + i)); [|lia]. by destruct (lookup_lt_is_Some_2 ds (Z.to_nat (n + i))) as [x ->]; [lia|].
  - rewrite Hc by lia. destruct ((0 <=? i) && (i <? n)) eqn:E; [|done]. zbool. cbn [negb]. unfold set_at, at_, mbind, M_bind.
    destruct (Z.leb_spec 0 i); [|lia]. by destruct (lookup_lt_is_Some_2 ds (Z.to_nat i)) as [x ->]; [lia|].
Qed.

Lemma sound_ReplaceDim I i : models I st -> in_i64 i ->
  let p := position (Z.of_nat (length (sI I st s))) i in 0 <= p < Z.of_nat (length (sI I st s)) ->
  sound I (ReplaceDim s i d) st (fun J s' st' => shape_ok st' s' /\ sI J st' s' = <[Z.to_nat p := dI I d]> (sI I st s)).
Proof.
  intros HM Hi p Hp. destruct (known st s) as [ds|] eqn:K.
  - assert (length (sI I st s) = length ds) as EL by by apply sI_known_length.
    apply (sound_ext _ _ (MakeShape (<[Z.to_nat p := d]> ds))).
    { rewrite ReplaceDim_run by done. rewrite K. cbn zeta. subst p. rewrite EL in *.
      destruct (Z.leb_spec 0 (position (Z.of_nat (length ds)) i)), (Z.ltb_spec (position (Z.of_nat (length ds)) i) (Z.of_nat (length ds))); done || lia. }
    destruct (known_ok _ _ _ W K) as (F & Hm & _).
    eapply sound_mono; [apply sound_MakeShape; [done|done|by apply Forall_insert|by rewrite length_insert]|].
    intros J s' st' _ _ _ [Hk ->]. split; [by eapply known_shape|]. unfold sI. rewrite K. by rewrite list_fmap_insert.
  - apply (sound_ext _ _ UnknownShape); [by rewrite ReplaceDim_run, K|].
    eapply sound_mono; [apply (sound_UnknownShape st W I HM (<[Z.to_nat p := dI I d]> (sI I st s)))|by intros ? ? ? _ _ _ (? & _ & ?)].
    apply Forall_insert; [by apply sI_size|]. by apply (dI_models I st).
Qed.
End ReplaceDim.

(** ** [NumElements] *)
Definition product (l : list Z) : Z := fold_right Z.mul 1 l.

Lemma wrap_i64_mul x y : wrap_i64 (wrap_i64 x * y) = wrap_i64 (x * y).
Proof.
  assert (wrap_i64 x = x + - ((x + 2 ^ 63) / 2 ^ 64) * 2 ^ 64) as ->.
  { unfold wrap_i64. pose proof (Z.div_mod (x + 2 ^ 63) (2 ^ 64)). lia. }
  unfold wrap_i64. f_equal. rewrite <- (Z_mod_plus_full (x * y + 2 ^ 63) (- ((x + 2 ^ 63) / 2 ^ 64) * y)). f_equal. ring.
Qed.

Section NumElements.
Context (st : t) (W : wf st) (I : interp) (HM : models I st) (s : ShapeHandle).

(** [total] is the product of the sizes before position [k]; an overflow matters only without unknown sizes. *)
Lemma sound_num_loop ds l k found total num : known st s = Some ds -> drop k ds = l ->
  (found = false -> num = wrap_i64 total) -> size (total * product (map (dI I) l)) ->
  sound I (num_elements_loop s found num (seqZ (Z.of_nat k) (Z.of_nat (length l)))) st
    (fun J d st' => dim_ok st' d /\ dI J d = total * product (map (dI I) l)).
Proof.
  intros K. revert k found total num. induction l as [|d l IH]; intros k found total num Hl Hn Hs.
  - simpl in *. rewrite Z.mul_1_r in *. destruct found.
    + eapply sound_mono; [by apply (sound_UnknownDim st W I HM total)|]. by intros ? ? ? _ _ _ (? & _ & ?).
    + rewrite Hn, wrap_i64_id by (done || (unfold in_i64, size in *; lia)).
      eapply sound_mono; [apply (sound_MakeDim st W I HM total total); [unfold size in *; lia|done|done]|].
      by intros ? ? ? _ _ _ (? & _ & ?).
  - destruct (dim_ok_drop st W s ds k d l K Hl) as [Od Dd]. apply drop_next in Hl as [_ Hl].
    rewrite seqZ_cons by (simpl; lia).
    replace (Z.succ (Z.of_nat k)) with (Z.of_nat (S k)) by lia.
    replace (Z.pred (Z.of_nat (length (d :: l)))) with (Z.of_nat (length l)) by (simpl; lia).
    simpl num_elements_loop. simpl map in *. simpl product in *. rewrite Z.mul_assoc in *.
    eapply sound_read; [exact Dd|]. eapply sound_read; [by apply Value_dim|].
    destruct (dI_models _ _ _ HM Od) as [Sd Vd].
    destruct (Z.eqb_spec (dimv st d) kUnknownDim) as [E|E]; [by apply IH|].
    rewrite <- Vd by done. destruct (Z.eqb_spec (dI I d) 0) as [E0|E0].
    + rewrite E0, Z.mul_0_r, Z.mul_0_l in *.
      eapply sound_mono; [by apply (sound_MakeDim st W I HM 0 0)|]. by intros ? ? ? _ _ _ (? & _ & ?).
    + apply IH; [done| |done]. intros Ef. rewrite Hn by done. apply wrap_i64_mul.
Qed.

(** The number of elements, if it is an [int64_t] *)
Lemma sound_NumElements : shape_ok st s -> size (product (sI I st s)) ->
  sound I (NumElements s) st (fun J d st' => dim_ok st' d /\ dI J d = product (sI I st s)).
Proof.
  intros Hok Hs. unfold NumElements. eapply sound_read; [by apply Rank_ok|]. rewrite rankv_known. unfold rankv.
  destruct (known st s) as [ds|] eqn:K.
  - rewrite bool_decide_eq_true_2 by eauto. cbn [negb]. unfold sI in *. rewrite K in *.
    pose proof (sound_num_loop ds ds 0 false 1 1 K eq_refl ltac:(by intros)) as H. rewrite !Z.mul_1_l in H. by apply H.
  - rewrite bool_decide_eq_false_2 by (by intros [? ?]). cbn [negb].
    eapply sound_mono; [by apply (sound_UnknownDim st W I HM (product (sI I st s)))|]. by intros ? ? ? _ _ _ (? & _ & ?).
Qed.
End NumElements.

(** ** [MergePrefix] *)
Section MergePrefix.
Context (st : t) (W : wf st) (s prefix : ShapeHandle) (Hs : shape_ok st s) (Hp : shape_ok st prefix).

(** The new shapes have the sizes of the old ones if the prefix is a prefix of the sizes. *)
Lemma sound_MergePrefix I : models I st ->
  take (length (sI I st prefix)) (sI I st s) = sI I st prefix ->
  sound I (MergePrefix s prefix) st (fun J p st' =>
    shape_ok st' p.1 /\ shape_ok st' p.2 /\ sI J st' p.1 = sI I st s /\ sI J st' p.2 = sI I st prefix).
Proof.
  intros HM HE. unfold MergePrefix. eapply sound_read; [by apply RankKnown_ok|].
  destruct (known st prefix) as [dp|] eqn:Kp.
  2:{ rewrite bool_decide_eq_false_2 by (by intros [? ?]). eapply sound_read; [done|]. by apply sound_ret. }
  rewrite bool_decide_eq_true_2 by eauto. eapply sound_read; [by apply RankKnown_ok|].
  destruct (known st s) as [ds|] eqn:Ks.
  2:{ rewrite bool_decide_eq_false_2 by (by intros [? ?]). by apply sound_ret. }
  rewrite bool_decide_eq_true_2 by eauto. cbn [negb orb].
  destruct (known_ok _ _ _ W Kp) as (Fp & Hmp & _), (known_ok _ _ _ W Ks) as (Fs & Hms & _).
  assert (sI I st prefix = map (dI I) dp /\ sI I st s = map (dI I) ds) as [Ep Es] by (unfold sI; by rewrite Kp, Ks).
  assert (length dp <= length ds)%nat as Hlen.
  { apply (f_equal length) in HE. rewrite length_take, Ep, Es, !length_map in HE. lia. }
  eapply sound_read; [by apply Rank_ok|]. unfold rankv. rewrite Kp.
  eapply sound_bind; [apply sound_WithRankAtLeast; [done|done|done|rewrite Es, length_map; lia|lia]|].
  intros ? ? ? _ _ _ _ (-> & -> & ->). eapply sound_read; [by apply Rank_ok|]. unfold rankv. rewrite Ks.
  assert (length (take (length dp) ds) = length dp) as ET by (rewrite length_take; lia).
  assert (starts st s (take (length dp) ds)) as HS by (exists (drop (length dp) ds); by rewrite take_drop).
  eapply sound_bind.
  { rewrite <- ET at 1. apply (sound_merge_loop st W s prefix _ dp HS (known_starts _ _ _ Kp) ET MergeDim I); [|done|].
    - intros. by apply sound_merge_either.
    - rewrite Ep, Es, length_map in HE. change (map (dI I)) with (fmap (M:=list) (dI I)) in *. by rewrite fmap_take. }
  intros J dims st1 G1 W1 A1 HM1 [Od Ed].
  assert (map (dI I) dims = map (dI I) dp) as Ed'.
  { rewrite Ed. rewrite Ep, Es, length_map in HE. change (map (dI I)) with (fmap (M:=list) (dI I)) in *. by rewrite fmap_take. }
  assert (length dims = length dp) as Ldims by (apply (f_equal length) in Ed'; by rewrite !length_map in Ed').
  eapply sound_bind; [by apply sound_MakeShape; [done|done|by eapply dims_ok_grow|lia]|].
  intros K po st2 G2 W2 A2 HM2 [Kpo Epo]. assert (grow st st2) as G by by etrans.
  assert (agree st I K) as A by by apply (agree_trans st st1 I J K).
  assert (known st2 s = Some ds) as Ks' by by rewrite (known_grow st st2).
  eapply sound_read; [apply (Dims_suffix st2 s ds (length dp)); done|].
  assert (Forall (dim_ok st) (dims ++ drop (length dp) ds)) as Fo by (apply Forall_app; split; [done|by apply Forall_drop]).
  eapply sound_bind; [apply sound_MakeShape; [done|done|by eapply dims_ok_grow|]|].
  { rewrite length_app, length_drop. lia. }
  intros K' so st3 G3 W3 A3 HM3 [Kso Eso]. apply sound_ret; [done|done|]. simpl.
  split_and!; [by eapply known_shape|by eapply shape_ok_grow, known_shape|..].
  - rewrite Eso, (dIs_agree st I K _ A Fo), map_app, Ed', <- Ep, Es. rewrite <- HE at 1. rewrite Ep, Es, length_map.
    change (map (dI I)) with (fmap (M:=list) (dI I)). by rewrite <- fmap_take, <- fmap_app, take_drop.
  - rewrite (sI_agree st2 st3 K K'), Epo, (dIs_agree st I J _ A1 Od), Ed', Ep by eauto with inference. done.
Qed.
End MergePrefix.

End InferenceShapes.

(** ** Shapes from protos, partial shapes and tensors *)

Module InferenceConvert.

(** ** Protos *)
Definition proto_of (v : option (list Z)) : Shape.Proto :=
  match v with Some l => Shape.mkProto l false | None => Shape.mkProto [] true end.

Lemma dim_to_proto_run st d : dim_ok st d -> dim_to_proto d st = (Ok (dimv st d), st).
Proof.
  intros Hd. unfold dim_to_proto, mbind, M_bind. rewrite ValueKnown_dim by done.
  destruct (Z.eqb_spec (dimv st d) kUnknownDim) as [E|E]; simpl; [by rewrite E|by apply Value_dim].
Qed.

Lemma ShapeHandleToProto_run st s : wf st -> shape_ok st s -> ShapeHandleToProto s st = (Ok (proto_of (view st s)), st).
Proof.
  intros W Hs. unfold ShapeHandleToProto. unfold mbind at 1, M_bind at 1. rewrite RankKnown_ok by done.
  destruct (known st s) as [ds|] eqn:K.
  2:{ rewrite bool_decide_eq_false_2 by (by intros [? ?]). by rewrite (view_unknown _ _ K). }
  rewrite bool_decide_eq_true_2 by eauto. cbn [negb].
  unfold mbind at 1, M_bind at 1. rewrite Rank_ok by done. unfold rankv. rewrite K, (view_known _ _ _ K).
  enough (mapM (fun i => d ← Dim s i; dim_to_proto d) (upto (Z.of_nat (length ds))) st = (Ok (map (dimv st) ds), st)) as E.
  { unfold mbind at 1, M_bind at 1. by rewrite E. }
  rewrite (mapM_read _ (fun i => dimv st (default None (ds !! Z.to_nat i)))).
  - do 2 f_equal. apply list_eq. intros i. rewrite !list_lookup_fmap. unfold upto.
    destruct (decide (i < length ds)%nat) as [Hi|Hi].
    + rewrite lookup_seqZ_lt, Z.add_0_l by lia. destruct (lookup_lt_is_Some_2 ds i Hi) as [d Hd]. rewrite Hd. simpl. by rewrite Nat2Z.id, Hd.
    + rewrite lookup_seqZ_ge by lia. by rewrite (proj2 (lookup_ge_None ds i)) by lia.
  - intros i Hi%upto_elem. destruct (lookup_lt_is_Some_2 ds (Z.to_nat i)) as [d Hd]; [lia|]. rewrite Hd. simpl.
    unfold mbind, M_bind. rewrite (Dim_known st W s ds i d) by (done || lia). apply dim_to_proto_run.
    destruct (known_ok _ _ _ W K) as [F _]. by apply (list.Forall_lookup_1 _ _ _ _ F Hd).
Qed.

(** The loops that make known or unknown dimensions of a list of values *)
Lemma safe_make_dims {A} (f : A -> Z) F st (l : list A) : wf st -> Forall (fun a => -1 <= f a < 2 ^ 63) l ->
  outcome F (mapM (fun a => MakeDim (of_val (f a))) l) st (fun ds st' =>
    Forall (dim_ok st') ds /\ map (dimv st') ds = map f l).
Proof.
  intros W Hl. eapply safe_mono.
  - apply (safe_mapM F _ _ _ (fun a d st' => dim_ok st' d /\ dimv st' d = f a)); [done| |].
    + intros a d st1 st2 G [O V]. split; [by eapply dim_ok_grow|]. by rewrite (dimv_grow st1).
    + intros a st' Ha G W'. apply safe_MakeDim_val; [done|]. rewrite list.Forall_forall in Hl. by apply Hl.
  - intros ds st' _ _ H. clear -H. induction H as [|a d l ds [O V] _ [IH1 IH2]]; [done|]. split; [by constructor|]. simpl. by rewrite V, IH2.
Qed.

Lemma sound_make_dims st I (vs l : list Z) : wf st -> models I st ->
  Forall2 (fun v x => -1 <= v < 2 ^ 63 /\ size x /\ dim_le v x) vs l ->
  sound I (mapM (fun v => MakeDim (of_val v)) vs) st (fun J ds st' => Forall (dim_ok st') ds /\ map (dI J) ds = l).
Proof.
  intros W HM H. revert st I W HM. induction H as [|v x vs l (Hv & Hx & Hle) _ IH]; intros st I W HM.
  - by apply sound_ret.
  - rewrite mapM_cons. eapply sound_bind; [apply (sound_MakeDim st W I HM v x); [done|done|]|].
    { intros. by destruct Hle. }
    intros J d st1 G1 W1 A1 HM1 (O & _ & E). eapply sound_bind; [by apply IH|].
    intros K ds st2 G2 W2 A2 HM2 [Os Es]. apply sound_ret; [done|done|]. split.
    + constructor; [by eapply dim_ok_grow|done].
    + simpl. by rewrite (dI_agree st1 J K), E, Es.
Qed.

(** ** Partial shapes *)
Definition partial_view (p : Shape.t) : option (list Z) :=
  if Shape.unknown_rank true p then None else Some (sizes true p).

(** A partial shape as its constructors make it *)
Definition partial_ok (p : Shape.t) : Prop := Shape.unknown_rank true p = true \/ ShapeSpec.wf true p.

Lemma safe_MakeShapeFromPartialTensorShape F st p : wf st -> partial_ok p ->
  outcome F (MakeShapeFromPartialTensorShape p) st (fun s st' => shape_ok st' s /\ view st' s = partial_view p).
Proof.
  intros W Hp. unfold MakeShapeFromPartialTensorShape, partial_view. destruct Hp as [Hu|Hw].
  - unfold Shape.unknown_rank in Hu. unfold Shape.dims, Shape.unknown_rank. rewrite Hu. simpl.
    eapply safe_mono; [by apply safe_UnknownShape|]. intros s st' _ _ [? ?]. split; [done|]. by apply view_unknown.
  - rewrite (wf_known true p Hw), (wf_dims_eq true p Hw). destruct (Z.eqb_spec (Z.of_nat (length (sizes true p))) (-1)); [lia|].
    pose proof (wf_sizes_range true p Hw) as Hr. pose proof (wf_legal true p Hw) as [H254 _].
    assert (map (fun i => Shape.dim_size true p i) (upto (Z.of_nat (length (sizes true p)))) = sizes true p) as Em.
    { apply list_eq. intros i. rewrite list_lookup_fmap. unfold upto. destruct (decide (i < length (sizes true p))%nat) as [Hi|Hi].
      - rewrite lookup_seqZ_lt, Z.add_0_l by lia. symmetry. apply dim_size_eq; [by apply wf_known|done].
      - rewrite lookup_seqZ_ge by lia. symmetry. apply lookup_ge_None. lia. }
    eapply safe_bind; [apply (safe_make_dims (fun i => Shape.dim_size true p i)); [done|]|].
    { apply (Forall_map (fun i => Shape.dim_size true p i) (fun d => -1 <= d < 2 ^ 63)). rewrite Em. exact Hr. }
    intros ds st1 G1 W1 [O V]. rewrite Em in V.
    assert (length ds = length (sizes true p)) as EL by (apply (f_equal length) in V; by rewrite length_map in V).
    eapply safe_mono; [apply safe_MakeShape; [done|done|unfold kint32max, i32_max; lia]|].
    intros s st' _ _ [Hk Hv]. split; [by eapply known_shape|]. by rewrite Hv, V.
Qed.

(** ** Round trips *)

(** A valid proto becomes a shape from which the same proto is read; others are refused. *)
Lemma proto_handle_round_trip st p : wf st -> Forall (fun d => d < 2 ^ 63) (Shape.proto_dim p) ->
  if Shape.IsValid_proto true p
  then exists s st', MakeShapeFromShapeProto p st = (Ok s, st') /\ grow st st' /\ wf st' /\ shape_ok st' s
         /\ ShapeHandleToProto s st' = (Ok p, st')
  else MakeShapeFromShapeProto p st = (Err (Status Shape.InvalidArgument), st).
Proof.
  intros W Hd. unfold MakeShapeFromShapeProto. rewrite IsValidShape_eq.
  destruct (Shape.IsValid_proto true p) eqn:E; [|done].
  assert (exists q, Shape.FromProto true p = Some q /\ partial_ok q /\ proto_of (partial_view q) = p) as (q & Eq & Hq & Ev).
  { destruct p as [l []]; simpl in *.
    - unfold Shape.IsValid_proto in E. simpl in E. destruct l; [|done]. eexists. split; [done|]. by split; [left|].
    - apply IsValid_proto_ok in E as HL; [|done].
      assert (Forall (fun d => (if true then -1 else 0) <= d < 2 ^ 63) l) as Hl.
      { destruct HL as (_ & Hn & _). rewrite list.Forall_forall in Hn, Hd |- *. intros d Hin. split; [by apply Hn|by apply Hd]. }
      pose proof (build_ok true l Hl) as HB. unfold Shape.FromProto. simpl. fold Shape.Clear. rewrite add_dims_checked.
      destruct (Shape.add_dims_status true Shape.Clear l) as [q|e]; [|by destruct HB as [_ []]]. destruct HB as [Hw Hs].
      exists q. split_and!; [done|by right|]. unfold partial_view. by rewrite wf_known, Hs. }
  rewrite Eq. pose proof (safe_MakeShapeFromPartialTensorShape False st q W Hq) as HS. unfold outcome in HS.
  destruct (MakeShapeFromPartialTensorShape q st) as [[s|e] st']; [|by destruct HS as [[[] _] _]].
  destruct HS as (G & W' & Hs & Hv). exists s, st'. split_and!; try done. by rewrite ShapeHandleToProto_run, Hv, Ev.
Qed.

(** ** Shape tensors *)

(** What is known at inference of a tensor whose value at execution is the list of sizes [l]: nothing, the
    scalar -1, or a vector of integers in which -1 stands for a size not known yet. *)
Definition tensor_of (treat : bool) (tensor : option Tensor) (l : list Z) : Prop :=
  match tensor with
  | None => True
  | Some tn =>
      (tensor_dtype tn = DT_INT32 \/ tensor_dtype tn = DT_INT64)
      /\ ((treat = true /\ tensor_dims tn = 0 /\ flat tn = [-1]) \/ (tensor_dims tn = 1 /\ Forall2 dim_le (flat tn) l))
  end.

Section ShapeTensors.
Context (st : t) (W : wf st) (I : interp) (HM : models I st) (l : list Z).
Context (Hl : Forall size l) (Hlen : Z.of_nat (length l) < max_dimensions).

Abbreviation denotes_list := (fun J s st' => shape_ok st' s /\ sI J st' s = l).

Lemma sound_any_shape : sound I UnknownShape st denotes_list.
Proof. eapply sound_mono; [by apply (sound_UnknownShape st W I HM l)|]. by intros ? ? ? _ _ _ (? & _ & ?). Qed.

(** The loop over the elements of a vector *)
Lemma sound_elements vs : Forall2 dim_le vs l -> sound I (dims ← mapM dim_of_element vs; MakeShape dims) st denotes_list.
Proof.
  intros Hv. assert (Forall2 (fun v x => -1 <= v < 2 ^ 63 /\ size x /\ dim_le v x) vs l) as H.
  { revert Hl. clear -Hv. induction Hv as [|v x vs l Hle _ IH]; intros Hl; [constructor|]. apply Forall_cons in Hl as [Hx Hl].
    constructor; [|by apply IH]. unfold size, dim_le, kUnknownDim in *. split_and!; try done; lia. }
  eapply sound_bind.
  - apply (sound_ext _ _ (mapM (fun v => MakeDim (of_val v)) vs)); [|by apply sound_make_dims].
    clear -H. revert st. induction H as [|v x vs l (Hv & _) _ IH]; intros st; [done|]. rewrite !mapM_cons.
    unfold mbind, M_bind, dim_of_element at 1. destruct (Z.ltb_spec v (-1)); [lia|].
    destruct (MakeDim (of_val v) st) as [[d|e] st']; [|done]. by rewrite IH.
  - intros J ds st1 G1 W1 A1 HM1 [O E]. eapply sound_mono; [apply sound_MakeShape; [done|done|done|]|].
    + apply (f_equal length) in E. rewrite length_map in E. unfold max_dimensions, kint32max, i32_max in *. lia.
    + intros K s st2 _ _ _ [Hk ->]. split; [by eapply known_shape|done].
Qed.

(** Only the number of the sizes is known. *)
Lemma sound_length_only : sound I (dims ← mapM (fun _ => UnknownDim) (upto (Z.of_nat (length l))); MakeShape dims) st denotes_list.
Proof.
  eapply sound_bind; [by apply sound_unknown_dims|]. intros J ds st1 G1 W1 A1 HM1 [O E].
  eapply sound_mono; [apply sound_MakeShape; [done|done|done|]|].
  - apply (f_equal length) in E. rewrite length_map in E. unfold max_dimensions, kint32max, i32_max in *. lia.
  - intros K s st2 _ _ _ [Hk ->]. split; [by eapply known_shape|done].
Qed.
End ShapeTensors.

(** The shape made of a shape tensor has the sizes that the tensor holds at execution. *)
Lemma sound_InternalMakeShapeFromTensor st I treat tensor tensor_shape l :
  wf st -> models I st -> shape_ok st tensor_shape -> Forall size l -> Z.of_nat (length l) < max_dimensions ->
  tensor_of treat tensor l ->
  sI I st tensor_shape = [Z.of_nat (length l)] \/ (treat = true /\ sI I st tensor_shape = []) ->
  sound I (InternalMakeShapeFromTensor treat tensor tensor_shape) st (fun J s st' => shape_ok st' s /\ sI J st' s = l).
Proof.
  intros W HM Hs Hl Hlen Ht Hsh. unfold InternalMakeShapeFromTensor.
  eapply (sound_bind _ _ _ _ (fun J s st' => shape_ok st' s /\ sI J st' s = sI I st tensor_shape)).
  { destruct treat; simpl; [by apply sound_ret|]. destruct Hsh as [Hsh|[? _]]; [|done].
    eapply sound_mono; [apply (sound_WithRank st W tensor_shape Hs I 1); [done|by rewrite Hsh|by unfold kint32max, i32_max]|].
    intros J s st' _ _ _ (E & ds & Hk & _). split; [by eapply known_shape|done]. }
  intros J s st1 G1 W1 A1 HM1 [Hs1 E1]. rewrite <- E1 in Hsh. clear E1. destruct tensor as [tn|].
  - destruct Ht as [Hdt [(-> & -> & ->)|[-> Hf]]]; simpl;
      replace ((tensor_dtype tn =? DT_INT32) || (tensor_dtype tn =? DT_INT64)) with true by (destruct Hdt as [-> | ->]; done).
    + eapply sound_read; [done|]. by apply sound_any_shape.
    + by apply sound_elements.
  - eapply sound_read; [by apply Rank_ok|]. unfold rankv. destruct (known st1 s) as [ds|] eqn:K.
    + destruct (Z.eqb_spec (Z.of_nat (length ds)) 0) as [E0|E0]; [by apply sound_any_shape|].
      assert (sI J st1 s = map (dI J) ds) as Es by (unfold sI; by rewrite K). rewrite Es in Hsh.
      destruct ds as [|d [|]]; [done| |by destruct Hsh as [?|[_ ?]]].
      destruct Hsh as [[= Hd]|[_ ?]]; [|done].
      eapply sound_read; [by apply (Dim_known st1 W1 s [d] 0 d)|].
      assert (dim_ok st1 d) as Od by (destruct (known_ok _ _ _ W1 K) as [F _]; by apply Forall_cons in F as [? _]).
      eapply sound_read; [by apply ValueKnown_dim|]. rewrite negb_involutive.
      destruct (Z.eqb_spec (dimv st1 d) kUnknownDim) as [Eu|Eu]; [by apply sound_any_shape|].
      eapply sound_read; [by apply Value_dim|]. destruct (dI_models _ _ _ HM1 Od) as [_ Vd]. rewrite <- Vd, Hd by done.
      destruct (Z.leb_spec max_dimensions (Z.of_nat (length l))); [lia|].
      destruct (Z.leb_spec 0 (Z.of_nat (length l))); [|lia]. eapply sound_read; [done|]. by apply sound_length_only.
    + simpl. eapply sound_bind.
      { apply (sound_ext _ _ UnknownDim); [by apply Dim_unknown|]. by apply (sound_UnknownDim st1 W1 J HM1 0). }
      intros J' d st2 G2 W2 A2 HM2 (Od & Vd & _). eapply sound_read; [by apply ValueKnown_dim|].
      rewrite Vd. simpl. by apply sound_any_shape.
Qed.

End InferenceConvert.
