(* ===== verification/InferenceTheorems.v ===== *)
(** * Shape inference: what [InferenceContext] guarantees *)

From S2P Require Import Prelude TensorShape ShapeSpec SliceSpec ShapeInference InferenceSpec InferenceMerge InferenceArith InferenceShapes.

Import Inference InferenceSpec InferenceMerge InferenceArith InferenceShapes InferenceConvert.

Module InferenceTheorems.

(** What a successful call leaves: a well-formed context in which every old shape is known as before. *)
Definition extends (st st' : t) : Prop :=
  wf st' /\ grow st st' /\ forall s, shape_ok st s -> shape_ok st' s /\ view st' s = view st s.

Lemma extends_intro st st' : wf st -> wf st' -> grow st st' -> extends st st'.
Proof. intros W W' G. split_and!; [done|done|]. intros s Hs. split; [by eapply shape_ok_grow|by apply view_grow]. Qed.

(** The sizes of an execution, extended to the objects that a call makes, give its result the sizes [l]. *)
Definition realizes (I : interp) (st : t) (s : ShapeHandle) (st' : t) (l : list Z) : Prop :=
  exists J, agree st I J /\ models J st' /\ sI J st' s = l.

(** C20: [Merge] of two shapes gives the least shape that knows what both know, and refuses them only when no
    shape does; the shapes that existed keep their meaning; and if an execution gives both shapes the same
    sizes, the result has these sizes and the recorded merges hold in the execution. *)
Theorem merge_shapes (st : t) (s0 s1 : ShapeHandle) :
  wf st -> shape_ok st s0 -> shape_ok st s1 ->
  match Merge s0 s1 st with
  | (Ok s, st') =>
      extends st st' /\ shape_ok st' s /\ is_lub (view st' s) (view st s0) (view st s1)
      /\ forall I, models I st -> sI I st s0 = sI I st s1 -> realizes I st s st' (sI I st s0)
  | (Err e, st') =>
      (exists c, e = Status c) /\ extends st st'
      /\ (~ exists w, shape_le (view st s0) w /\ shape_le (view st s1) w)
      /\ forall I, models I st -> sI I st s0 <> sI I st s1
  end.
Proof.
  intros W H0 H1. pose proof (safe_Merge st W s0 s1 H0 H1) as HS.
  assert (forall I, models I st -> sI I st s0 = sI I st s1 -> exists s st', Merge s0 s1 st = (Ok s, st') /\ realizes I st s st' (sI I st s0)) as HI.
  { intros I HM E. destruct (sound_Merge st W s0 s1 H0 H1 I HM E) as (s & st' & J & ? & ? & ? & ? & ? & ? & ? & ?).
    exists s, st'. split; [done|]. by exists J. }
  unfold outcome in HS. destruct (Merge s0 s1 st) as [[s|e] st'].
  - destruct HS as (G & W' & Hs & Hc & Hv). split_and!; [by apply extends_intro|done|rewrite Hv; by apply join_lub|].
    intros I HM E. destruct (HI I HM E) as (? & ? & [= <- <-] & ?). done.
  - destruct HS as ((Hn & He) & G & W'). split_and!; [done|by apply extends_intro|..].
    + intros (w & ? & ?). apply Hn. by eapply compat_upper.
    + intros I HM E. by destruct (HI I HM E) as (? & ? & ? & _).
Qed.

(** A context with the shapes [2,?], [?,3] and ? *)
Definition example_context : t := initial
  [mkShape 2 [Some 0%nat; Some 1%nat]; mkShape 2 [Some 2%nat; Some 3%nat]; Shape_unknown] [2; -1; -1; 3].

Lemma example_wf : wf example_context.
Proof.
  assert (forall i, (i < 4)%nat -> dim_ok example_context (Some i)) as Hd.
  { intros i Hi. unfold dim_ok. by do 4 (destruct i as [|i]; [eexists; reflexivity|]); lia. }
  split; simpl; [|repeat constructor; lia].
  repeat (apply Forall_cons; split); [right|right|by left|done]; split_and!; try done;
    repeat (apply Forall_cons; split); try done; apply Hd; lia.
Qed.

Lemma merge_shapes_witness :
  exists s st', Merge (Some 0%nat) (Some 1%nat) example_context = (Ok s, st') /\ view st' s = Some [2; 3]
    /\ is_lub (view st' s) (view example_context (Some 0%nat)) (view example_context (Some 1%nat)).
Proof.
  pose proof (merge_shapes example_context (Some 0%nat) (Some 1%nat) example_wf
    ltac:(eexists; reflexivity) ltac:(eexists; reflexivity)) as H.
  destruct (Merge (Some 0%nat) (Some 1%nat) example_context) as [[s|e] st'] eqn:E; [|by vm_compute in E].
  exists s, st'. split; [done|]. split; [|exact (proj1 (proj2 (proj2 H)))].
  vm_compute in E. injection E as <- <-. reflexivity.
Defined.

(** [Relax] never fails; its result knows exactly what the old and the new shape both know, and it is the old
    handle itself when the two shapes are known and equal, which ends the propagation of the change. *)
Theorem relax_shapes (st : t) (s_old s_new : ShapeHandle) :
  wf st -> shape_ok st s_old -> shape_ok st s_new ->
  exists s st', Relax s_old s_new st = (Ok s, st') /\ extends st st' /\ shape_ok st' s
    /\ is_glb (view st' s) (view st s_old) (view st s_new)
    /\ (forall l, view st s_old = Some l -> view st s_new = Some l -> kUnknownDim ∉ l -> s = s_old).
Proof.
  intros W H0 H1. pose proof (InferenceRelax.safe_Relax st s_old s_new W H0 H1) as HS. unfold outcome in HS.
  destruct (Relax s_old s_new st) as [[s|e] st']; [|by destruct HS as [[[] _] _]].
  destruct HS as (G & W' & Hs & Hv & Hk). exists s, st'.
  split_and!; [done|by apply extends_intro|done|rewrite Hv; apply meet_glb|done].
Qed.

Lemma relax_shapes_witness :
  exists s st', Relax (Some 0%nat) (Some 1%nat) example_context = (Ok s, st') /\ view st' s = Some [-1; -1].
Proof.
  destruct (relax_shapes example_context (Some 0%nat) (Some 1%nat) example_wf
    ltac:(eexists; reflexivity) ltac:(eexists; reflexivity)) as (s & st' & E & _).
  exists s, st'. split; [exact E|]. vm_compute in E. injection E as <- <-. reflexivity.
Defined.

(** On known operands [Add], [Subtract], [Multiply], [Divide], [Min] and [Max] compute the exact result, or
    fail if it is negative, does not fit an [int64_t] or the division is not allowed; they fail for no other
    operands; and for the sizes of any execution on which the operation is legal, the result has the size that
    the operation gives, whatever of the operands is known. *)
Theorem dimension_arithmetic (st : t) (op : ArithOp) (d : DimensionHandle) (c : DimensionOrConstant) :
  wf st -> dim_ok st d -> dc_ok st c -> divisor_ok st c op ->
  (match run op d c st with
   | (Ok d', st') => extends st st' /\ exact_result st d c op d' st'
   | (Err e, st') => (exists k, e = Status k) /\ extends st st' /\ refused st d c op
   end)
  /\ forall I y, models I st -> denotes I c y -> legal op (dI I d) y ->
       exists d' st' J, run op d c st = (Ok d', st') /\ agree st I J /\ models J st'
         /\ dI J d' = result op (dI I d) y.
Proof.
  intros W Hd Hc Ho. split.
  - pose proof (safe_run st W d c Hd Hc op Ho) as HS. unfold outcome in HS.
    destruct (run op d c st) as [[d'|e] st'].
    + destruct HS as (G & W' & Hr). split; [by apply extends_intro|done].
    + destruct HS as ((Hr & He) & G & W'). split_and!; [done|by apply extends_intro|apply Hr..].
  - intros I y HM Hy Hl. destruct (sound_run st W I HM d c Hd Hc y Hy op Ho Hl) as (d' & st' & J & ? & _ & _ & ? & ? & _ & ?).
    by exists d', st', J.
Qed.

Lemma dimension_arithmetic_witness :
  exists d' st', Multiply (Some 0%nat) (of_dim (Some 3%nat)) example_context = (Ok d', st') /\ dimv st' d' = 6.
Proof.
  destruct (dimension_arithmetic example_context OpMultiply (Some 0%nat) (of_dim (Some 3%nat)) example_wf
    ltac:(eexists; reflexivity) ltac:(eexists; reflexivity) Logic.I) as [H _].
  simpl run in H. destruct (Multiply (Some 0%nat) (of_dim (Some 3%nat)) example_context) as [[d'|e] st'] eqn:E; [|by vm_compute in E].
  exists d', st'. split; [reflexivity|]. destruct H as [_ [_ H]]. destruct H as [_ H]; [done|done|exact H].
Defined.

(** [Subshape] of a shape of known rank, with a stride other than 0, returns the dimensions of Python's slice
    [s[start:stop:stride]]; it refuses only a bound before the first dimension, bounds in the wrong order, or, for
    a negative stride, an empty slice.  One round more than the rank of the loop is enough. *)
Theorem subshape_slices (st : t) (s : ShapeHandle) (ds : list DimensionHandle) (fuel : nat) (start stop stride : Z) :
  wf st -> known st s = Some ds -> stride <> 0 -> Z.of_nat (length ds) + Z.abs stride < 2 ^ 31 -> (length ds <= fuel)%nat ->
  match Subshape fuel s start stop stride st with
  | (Ok s', st') => extends st st' /\ known st' s' = Some (py_slice ds start stop stride)
  | (Err e, st') => (exists k, e = Status k) /\ extends st st' /\ subshape_refused ds start stop stride
  end.
Proof.
  intros W K Hs Hb Hf. pose proof (safe_Subshape st W s ds K fuel start stop stride Hs Hb Hf) as HS. unfold outcome in HS.
  destruct (Subshape fuel s start stop stride st) as [[s'|e] st'].
  - destruct HS as (G & W' & Hk). split; [by apply extends_intro|done].
  - destruct HS as ((Hr & He) & G & W'). split_and!; [done|by apply extends_intro|done].
Qed.

Lemma subshape_slices_witness :
  exists s st', Subshape 2 (Some 1%nat) (-1) 0 (-1) example_context = (Ok s, st') /\ known st' s = Some [Some 3%nat].
Proof.
  pose proof (subshape_slices example_context (Some 1%nat) [Some 2%nat; Some 3%nat] 2 (-1) 0 (-1) example_wf
    eq_refl ltac:(lia) ltac:(simpl; lia) ltac:(simpl; lia)) as H.
  destruct (Subshape 2 (Some 1%nat) (-1) 0 (-1) example_context) as [[s|e] st'] eqn:E; [|by vm_compute in E].
  exists s, st'. split; [reflexivity|]. exact (proj2 H).
Defined.

(** With stride 0 and [start > stop] the loop of [Subshape] never ends. *)
Theorem subshape_zero_stride (fuel : nat) :
  fst (Subshape fuel (Some 0%nat) 1 0 0 example_context) = Err OutOfFuel.
Proof.
  assert (forall n, subshape_loop n (Some 0%nat) 1 0 0 example_context = (Err OutOfFuel, example_context)) as H.
  { induction n as [|n IH]; [done|]. cbn [subshape_loop]. unfold mbind, M_bind.
    change (if 0 <? 0 then 1 <? 0 else 0 <? 1) with true. cbv beta iota.
    change (Dim (Some 0%nat) 1 example_context) with (Ok (E:=err) (Some 1%nat), example_context).
    change (wrap_i32 (wrap_i64 (1 + 0))) with 1. cbv beta iota. by rewrite IH. }
  unfold Subshape, mbind, M_bind. simpl. change (wrap_i32 1) with 1. by rewrite H.
Qed.

(** [MakeShapeFromShapeProto] accepts exactly the valid protos, and [ShapeHandleToProto] reads the same proto
    back from the handle. *)
Theorem proto_handles (st : t) (p : Shape.Proto) :
  wf st -> Forall (fun d => d < 2 ^ 63) (Shape.proto_dim p) ->
  if Shape.IsValid_proto true p
  then exists s st', MakeShapeFromShapeProto p st = (Ok s, st') /\ extends st st' /\ shape_ok st' s
         /\ ShapeHandleToProto s st' = (Ok p, st')
  else MakeShapeFromShapeProto p st = (Err (Status Shape.InvalidArgument), st).
Proof.
  intros W Hd. pose proof (proto_handle_round_trip st p W Hd) as H. destruct (Shape.IsValid_proto true p); [|done].
  destruct H as (s & st' & ? & ? & ? & ? & ?). exists s, st'. split_and!; try done. by apply extends_intro.
Qed.

Lemma proto_handles_witness :
  exists s st', MakeShapeFromShapeProto (Shape.mkProto [4; -1] false) example_context = (Ok s, st')
    /\ ShapeHandleToProto s st' = (Ok (Shape.mkProto [4; -1] false), st').
Proof.
  destruct (proto_handles example_context (Shape.mkProto [4; -1] false) example_wf
    ltac:(repeat constructor; lia)) as (s & st' & ? & _ & _ & ?). by exists s, st'.
Defined.

(** If an execution gives a shape tensor the value [l] (fewer than 2^25 sizes), then [InternalMakeShapeFromTensor]
    succeeds on whatever inference knows of the tensor (nothing, its length, or its elements with -1 for the unknown
    ones) and its result has the sizes [l] in the execution. *)
Theorem shape_of_tensor (st : t) (I : interp) (treat : bool) (tensor : option Tensor) (tensor_shape : ShapeHandle) (l : list Z) :
  wf st -> models I st -> shape_ok st tensor_shape -> Forall size l -> Z.of_nat (length l) < max_dimensions ->
  tensor_of treat tensor l ->
  sI I st tensor_shape = [Z.of_nat (length l)] \/ (treat = true /\ sI I st tensor_shape = []) ->
  exists s st', InternalMakeShapeFromTensor treat tensor tensor_shape st = (Ok s, st')
    /\ extends st st' /\ shape_ok st' s /\ realizes I st s st' l.
Proof.
  intros W HM Hs Hl Hlen Ht Hsh.
  destruct (sound_InternalMakeShapeFromTensor st I treat tensor tensor_shape l W HM Hs Hl Hlen Ht Hsh)
    as (s & st' & J & ? & ? & ? & ? & ? & ? & ?).
  exists s, st'. split_and!; [done|by apply extends_intro|done|by exists J].
Qed.

(** The sizes of an execution of the example *)
Definition example_interp : interp := mkInterp (fun i => nth i [2; 3; 2; 3] 0) (fun _ => [2]).

Lemma example_models : models example_interp example_context.
Proof.
  split; simpl; [|intros; repeat constructor; unfold size; lia|done|done].
  intros i v H. do 4 (destruct i as [|i]; [simpl in *; injection H as <-; unfold size; simpl; split; [lia|]; by intros|]).
  by destruct i.
Qed.

Lemma shape_of_tensor_witness :
  exists s st', InternalMakeShapeFromTensor false (Some (mkTensor DT_INT32 1 [7; -1])) (Some 2%nat) example_context = (Ok s, st')
    /\ view st' s = Some [7; -1].
Proof.
  destruct (shape_of_tensor example_context example_interp false (Some (mkTensor DT_INT32 1 [7; -1])) (Some 2%nat) [7; 5]
    example_wf example_models ltac:(eexists; reflexivity) ltac:(repeat constructor; unfold size; lia) ltac:(vm_compute; reflexivity)
    ltac:(split; [by left|right; split; [reflexivity|repeat constructor; unfold dim_le, kUnknownDim; lia]])
    ltac:(left; reflexivity)) as (s & st' & E & _).
  exists s, st'. split; [exact E|]. vm_compute in E. injection E as <- <-. reflexivity.
Defined.

(** [NumElements] multiplies without a check: for [2^32, 2^32] it returns 0. *)
Example NumElements_overflows :
  let st := initial [mkShape 2 [Some 0%nat; Some 0%nat]] [2 ^ 32] in
  exists d st', NumElements (Some 0%nat) st = (Ok d, st') /\ dimv st' d = 0.
Proof. do 2 eexists. split; vm_compute; reflexivity. Qed.

(** Merging handle data forgets the full types of the entries it refines. *)
Example merge_handles_drops_type :
  let full := mkFullType 1000 [] attr_none in
  exists new st', MergeHandleShapesAndTypes [mkShapeAndType (Some 0%nat) DT_INT32 full] [mkShapeAndType (Some 2%nat) DT_INT32 full]
    example_context = (Ok (true, new), st') /\ map type new = [unset_type].
Proof. do 2 eexists. split; vm_compute; reflexivity. Qed.

(** Two fully known shapes are recorded as merged although nothing is unknown. *)
Example known_shapes_recorded :
  let st := initial [mkShape 1 [Some 0%nat]; mkShape 1 [Some 1%nat]] [4; 4] in
  exists st', Merge (Some 0%nat) (Some 1%nat) st = (Ok (Some 0%nat), st') /\ merged_shapes_ st' = [(Some 0%nat, Some 1%nat)].
Proof. eexists. split; vm_compute; reflexivity. Qed.

End InferenceTheorems.
