(* ===== verification/CommonShapeFns.v ===== *)
(** * Shape functions of ops ([core/framework/common_shape_fns.{h,cc}])

    The shape functions that many ops share, clients of [InferenceContext].
    The results of [GetAttr] are arguments.  A loop of [Subshape] with stride
    1 runs once for every dimension it takes, so that it gets the rank of the
    shape as fuel. *)

From S2P Require Import Prelude TensorShape ShapeInference.

Import Inference.

Module ShapeFns.

(** The result of [GetAttr] on the node *)
Definition attr {A} (r : res Shape.code A) : M A :=
  match r with Ok a => mret a | Err c => fail (Status c) end.

(** [c->Subshape(s, start, end, ...)] and [c->Subshape(s, start, ...)] *)
Definition Subshape2 (s : ShapeHandle) (start end_ : Z) : M ShapeHandle :=
  r ← Rank s; SubshapeRange (Z.to_nat r) s start end_.
Definition Subshape1 (s : ShapeHandle) (start : Z) : M ShapeHandle :=
  r ← Rank s; SubshapeFrom (Z.to_nat r) s start.

(** [c->input_handle_shapes_and_types(idx)] *)
Definition input_handle_shapes_and_types (idx : Z) : M (option (list ShapeAndType)) :=
  l ← gets input_handle_shapes_and_types_; at_ l idx.

(** ** Windows ([Padding] is [core/util/padding.h]) *)
Inductive Padding := VALID | SAME | EXPLICIT.

Definition GetWindowedOutputSizeFromDimsV2 (input_size : DimensionHandle) (filter_size : DimensionOrConstant)
    (dilation_rate stride : Z) (padding_type : Padding) (padding_before padding_after : Z) : M DimensionHandle :=
  if stride <=? 0 then InvalidArgument
  else if dilation_rate <? 1 then InvalidArgument
  else
    match padding_type with
    | SAME =>
        output_size ← Add input_size (of_val (stride - 1));
        Divide output_size (of_val stride) false
    | _ =>
        let padding := match padding_type with VALID => 0 | _ => wrap_i64 (padding_before + padding_after) end in
        input_size ← Add input_size (of_val padding);
        output_size ←
          (if 1 <? dilation_rate then
             d ← MakeDim filter_size;
             window_size ← Subtract d (of_val 1);
             window_size ← Multiply window_size (of_val dilation_rate);
             window_size ← Add window_size (of_val 1);
             Subtract input_size (of_dim window_size)
           else Subtract input_size filter_size);
        output_size ← Add output_size (of_val stride);
        Divide output_size (of_val stride) false
    end.

Definition GetWindowedOutputSizeFromDims (input_size : DimensionHandle) (filter_size : DimensionOrConstant)
    (stride : Z) (padding_type : Padding) : M DimensionHandle :=
  match padding_type with
  | EXPLICIT => fail (Status Shape.Internal)
  | _ => GetWindowedOutputSizeFromDimsV2 input_size filter_size 1 stride padding_type (-1) (-1)
  end.

(** ** Shapes that are passed on *)
Definition UnchangedShape : M unit :=
  s ← input 0;
  set_output 0 s;;
  handle_data ← input_handle_shapes_and_types 0;
  match handle_data with
  | Some l => set_output_handle_shapes_and_types 0 l
  | None => mret tt
  end.
Definition UnchangedShapeWithRank (rank : Z) : M unit := s ← input 0; out ← WithRank s rank; set_output 0 out.
Definition UnchangedShapeWithRankAtLeast (rank : Z) : M unit := s ← input 0; out ← WithRankAtLeast s rank; set_output 0 out.
Definition UnchangedShapeWithRankAtMost (rank : Z) : M unit := s ← input 0; out ← WithRankAtMost s rank; set_output 0 out.
Definition NoOutputs : M unit := mret tt.
Definition ScalarShape : M unit := s ← Scalar; set_output 0 s.
Definition MergeBothInputsShapeFn : M unit := s0 ← input 0; s1 ← input 1; out ← Merge s0 s1; set_output 0 out.

(** [UnknownShape(c)] *)
Definition UnknownShapes : M unit :=
  outs ← gets outputs_;
  _ ← mapM (fun i => s ← UnknownShape; set_output i s) (upto (Z.of_nat (length outs)));
  mret tt.

Definition RandomShape : M unit := out ← MakeShapeFromShapeTensor 0; set_output 0 out.

(** ** Products of matrices *)

(** The shape of the product; [MatMulShape] sets it as the output. *)
Definition MatMul_out (transpose_a transpose_b : res Shape.code bool) : M ShapeHandle :=
  s0 ← input 0;
  a ← WithRank s0 2;
  s1 ← input 1;
  b ← WithRank s1 2;
  transpose_a ← attr transpose_a;
  transpose_b ← attr transpose_b;
  output_rows ← (if transpose_a : bool then Dim a 1 else Dim a 0);
  output_cols ← (if transpose_b : bool then Dim b 0 else Dim b 1);
  inner_a ← (if transpose_a : bool then Dim a 0 else Dim a 1);
  inner_b ← (if transpose_b : bool then Dim b 1 else Dim b 0);
  _ ← MergeDim inner_a inner_b;
  Matrix (of_dim output_rows) (of_dim output_cols).
Definition MatMulShape (transpose_a transpose_b : res Shape.code bool) : M unit :=
  out ← MatMul_out transpose_a transpose_b; set_output 0 out.

(** ** Broadcasting *)

(** The body of the loop of [BroadcastBinaryOpOutputShapeFnHelper]: the dimension that is pushed, or the
    shape that is returned early *)
Definition broadcast_dim (dim_x dim_y : DimensionHandle) (dim_y_is_one incompatible_shape_error : bool) :
    M (ShapeHandle + DimensionHandle) :=
  kx ← ValueKnown (of_dim dim_x);
  ky ← ValueKnown (of_dim dim_y);
  vx ← Value (of_dim dim_x);
  vy ← Value (of_dim dim_y);
  let return_unknown := (s ← UnknownShape; mret (inl s)) in
  if negb kx || negb ky then
    if 1 <? vx then if negb incompatible_shape_error then return_unknown else mret (inr dim_x)
    else if 1 <? vy then if negb incompatible_shape_error then return_unknown else mret (inr dim_y)
    else if vx =? 1 then mret (inr dim_y)
    else if vy =? 1 then mret (inr dim_x)
    else if SameHandle dim_y dim_x then mret (inr dim_x)
    else if negb kx && negb ky then d ← UnknownDim; mret (inr d)
    else if negb incompatible_shape_error then return_unknown else d ← UnknownDim; mret (inr d)
  else if (vx =? 1) || (vy =? 1) then
    if (vx =? 1) && negb dim_y_is_one then mret (inr dim_y) else mret (inr dim_x)
  else
    s ← status (MergeDim dim_x dim_y);
    match s with
    | Ok d => mret (inr d)
    | Err c => if negb incompatible_shape_error then s ← MakeShapeOf []; mret (inl s) else fail (Status c)
    end.

Fixpoint broadcast_loop (shape_x shape_y : ShapeHandle) (rank_x rank_y rank_out : Z) (dim_one : DimensionHandle)
    (incompatible_shape_error : bool) (dims : list DimensionHandle) (l : list Z) : M ShapeHandle :=
  match l with
  | [] => MakeShape dims
  | i :: l' =>
      dim_x ← (if i <? rank_out - rank_x then mret dim_one else Dim shape_x (i - (rank_out - rank_x)));
      let dim_y_is_one := i <? rank_out - rank_y in
      dim_y ← (if dim_y_is_one then mret dim_one else Dim shape_y (i - (rank_out - rank_y)));
      r ← broadcast_dim dim_x dim_y dim_y_is_one incompatible_shape_error;
      match r with
      | inl out => mret out
      | inr d => broadcast_loop shape_x shape_y rank_x rank_y rank_out dim_one incompatible_shape_error (dims ++ [d]) l'
      end
  end.

Definition BroadcastBinaryOpOutputShapeFnHelper (shape_x shape_y : ShapeHandle) (incompatible_shape_error : bool) : M ShapeHandle :=
  kx ← RankKnown shape_x;
  ky ← (if kx : bool then RankKnown shape_y else mret false);
  if negb kx || negb ky then UnknownShape
  else
    rank_x ← Rank shape_x;
    rank_y ← Rank shape_y;
    let rank_out := Z.max rank_x rank_y in
    dim_one ← (if negb (rank_x =? rank_y) then MakeDim (of_val 1) else mret None);
    broadcast_loop shape_x shape_y rank_x rank_y rank_out dim_one incompatible_shape_error [] (upto rank_out).

Definition BroadcastBinaryOpOutputShapeFn (output_index : Z) : M unit :=
  s0 ← input 0; s1 ← input 1;
  out ← BroadcastBinaryOpOutputShapeFnHelper s0 s1 true;
  set_output output_index out.
Definition BroadcastBinaryOpShapeFn : M unit := BroadcastBinaryOpOutputShapeFn 0.

(** ** Batches of matrices *)
Definition BatchMatMulV2_out (adj_x adj_y : res Shape.code bool) : M ShapeHandle :=
  s0 ← input 0;
  a_shape ← WithRankAtLeast s0 2;
  s1 ← input 1;
  b_shape ← WithRankAtLeast s1 2;
  adj_x ← attr adj_x;
  adj_y ← attr adj_y;
  output_rows ← Dim a_shape (if adj_x : bool then -1 else -2);
  output_cols ← Dim b_shape (if adj_y : bool then -2 else -1);
  inner_a ← Dim a_shape (if adj_x : bool then -2 else -1);
  inner_b ← Dim b_shape (if adj_y : bool then -1 else -2);
  _ ← MergeDim inner_a inner_b;
  a_batch_shape ← Subshape2 a_shape 0 (-2);
  b_batch_shape ← Subshape2 b_shape 0 (-2);
  output_batch_shape ← BroadcastBinaryOpOutputShapeFnHelper a_batch_shape b_batch_shape true;
  m ← Matrix (of_dim output_rows) (of_dim output_cols);
  Concatenate output_batch_shape m.
Definition BatchMatMulV2Shape (adj_x adj_y : res Shape.code bool) : M unit :=
  out ← BatchMatMulV2_out adj_x adj_y; set_output 0 out.

Definition BatchMatMul_out (adj_x adj_y : res Shape.code bool) : M ShapeHandle :=
  s0 ← input 0;
  a_shape ← WithRankAtLeast s0 2;
  s1 ← input 1;
  b_shape ← WithRankAtLeast s1 2;
  adj_x ← attr adj_x;
  adj_y ← attr adj_y;
  output_rows ← Dim a_shape (if adj_x : bool then -1 else -2);
  output_cols ← Dim b_shape (if adj_y : bool then -2 else -1);
  a_batch_dims ← Subshape2 a_shape 0 (-2);
  b_batch_dims ← Subshape2 b_shape 0 (-2);
  batch_dims ← Merge a_batch_dims b_batch_dims;
  inner_a ← Dim a_shape (if adj_x : bool then -2 else -1);
  inner_b ← Dim b_shape (if adj_y : bool then -1 else -2);
  _ ← MergeDim inner_a inner_b;
  m ← Matrix (of_dim output_rows) (of_dim output_cols);
  Concatenate batch_dims m.
Definition BatchMatMulShape (adj_x adj_y : res Shape.code bool) : M unit :=
  out ← BatchMatMul_out adj_x adj_y; set_output 0 out.

(** ** Biases; [nchw] says that the attribute data_format is present and is NCHW *)
Definition BiasAdd_out (nchw : bool) : M ShapeHandle :=
  s0 ← input 0;
  input_shape ← (if nchw then WithRankAtLeast s0 3 else WithRankAtLeast s0 2);
  s1 ← input 1;
  bias_shape ← WithRank s1 1;
  bias_dim ← Dim bias_shape 0;
  known ← RankKnown input_shape;
  if negb known then UnknownShape
  else if nchw then
    first ← Subshape2 input_shape 0 1;
    last ← Subshape1 input_shape 2;
    input_bias_dim ← Dim input_shape 1;
    merged_bias_dim ← MergeDim input_bias_dim bias_dim;
    merged_bias ← Vector (of_dim merged_bias_dim);
    temp ← Concatenate first merged_bias;
    Concatenate temp last
  else
    all_but_bias ← Subshape2 input_shape 0 (-1);
    input_bias_dim ← Dim input_shape (-1);
    merged_bias_dim ← MergeDim input_bias_dim bias_dim;
    merged_bias ← Vector (of_dim merged_bias_dim);
    Concatenate all_but_bias merged_bias.
Definition BiasAddShape (nchw : bool) : M unit := out ← BiasAdd_out nchw; set_output 0 out.

Definition BiasAddGradShape (nchw : bool) : M unit :=
  s0 ← input 0;
  input_shape ← (if nchw then WithRankAtLeast s0 3 else WithRankAtLeast s0 2);
  d ← Dim input_shape (if nchw then 1 else -1);
  s ← Vector (of_dim d);
  set_output 0 s.

(** ** Reductions *)

(** [ReductionShapeHelper]: the positions of the reduced dimensions *)
Fixpoint ReductionShapeHelper (indices : list Z) (input_rank : Z) : M (list Z) :=
  match indices with
  | [] => mret []
  | i :: l =>
      if (i <? - input_rank) || (input_rank <=? i) then InvalidArgument
      else rest ← ReductionShapeHelper l input_rank; mret ((if i <? 0 then i + input_rank else i) :: rest)
  end.

(** The loop over the dimensions of the input *)
Fixpoint reduce_dims (input : ShapeHandle) (true_indices : list Z) (keep_dims : bool) (l : list Z) : M (list DimensionHandle) :=
  match l with
  | [] => mret []
  | i :: l' =>
      if bool_decide (i ∈ true_indices) then
        if keep_dims then
          d ← MakeDim (of_val 1); rest ← reduce_dims input true_indices keep_dims l'; mret (d :: rest)
        else reduce_dims input true_indices keep_dims l'
      else d ← Dim input i; rest ← reduce_dims input true_indices keep_dims l'; mret (d :: rest)
  end.

Definition ReductionShape (graph_def_version : Z) (keep_dims : res Shape.code bool) : M unit :=
  s ← input 0;
  s1 ← input 1;
  _ ← (if graph_def_version <? 21 then mret s1 else WithRankAtMost s1 1);
  keep_dims ← attr keep_dims;
  reduction_indices_t ← input_tensor 1;
  known ← RankKnown s;
  match reduction_indices_t with
  | Some tn =>
      if negb known then UnknownShapes
      else
        input_rank ← Rank s;
        true_indices ←
          (if (tensor_dtype tn =? DT_INT32) || (tensor_dtype tn =? DT_INT64)
           then ReductionShapeHelper (flat tn) input_rank else InvalidArgument);
        dims ← reduce_dims s true_indices keep_dims (upto input_rank);
        out ← MakeShape dims;
        set_output 0 out
  | None =>
      if keep_dims && known then r ← Rank s; out ← UnknownShapeOfRank r; set_output 0 out
      else UnknownShapes
  end.

(** ** Concatenation *)

(** The first loop: the first known rank of the inputs *)
Fixpoint first_rank (l : list Z) : M Z :=
  match l with
  | [] => mret kUnknownRank
  | i :: l' => s ← input i; r ← Rank s; if negb (r =? kUnknownRank) then mret r else first_rank l'
  end.

(** The parts of an input before, at and after the concatenated dimension *)
Definition split_input (i concat_dim min_rank : Z) : M (ShapeHandle * DimensionHandle * ShapeHandle) :=
  s ← input i;
  s ← WithRankAtLeast s min_rank;
  before ← Subshape2 s 0 concat_dim;
  middle ← Dim s concat_dim;
  after ← (if concat_dim =? -1 then Scalar else Subshape1 s (wrap_i64 (concat_dim + 1)));
  mret (before, middle, after).

(** The loop over the other inputs, from the last to the first *)
Fixpoint concat_loop (concat_dim min_rank : Z) (output_before : ShapeHandle) (output_middle : DimensionHandle)
    (output_after : ShapeHandle) (l : list Z) : M (ShapeHandle * DimensionHandle * ShapeHandle) :=
  match l with
  | [] => mret (output_before, output_middle, output_after)
  | i :: l' =>
      '(before, middle, after) ← split_input i concat_dim min_rank;
      output_before ← Merge before output_before;
      output_middle ← Add output_middle (of_dim middle);
      output_after ← Merge after output_after;
      concat_loop concat_dim min_rank output_before output_middle output_after l'
  end.

(** The shape when the position of the concatenated dimension is not known: one of the rank of the inputs *)
Definition concat_unknown (start_value_index end_value_index : Z) : M ShapeHandle :=
  let indices := seqZ start_value_index (end_value_index - start_value_index) in
  rank ← first_rank indices;
  if rank =? kUnknownRank then UnknownShape
  else if rank =? 0 then InvalidArgument
  else
    _ ← mapM (fun i => s ← input i; WithRank s rank) indices;
    dims ← mapM (fun _ => UnknownDim) (upto rank);
    MakeShape dims.

(** The shape when it is known: the merged other dimensions and the sum *)
Definition concat_known (start_value_index end_value_index concat_dim : Z) : M ShapeHandle :=
  let min_rank := if concat_dim <? 0 then wrap_i64 (- concat_dim) else wrap_i64 (concat_dim + 1) in
  '(output_before, output_middle, output_after) ← split_input (end_value_index - 1) concat_dim min_rank;
  '(output_before, output_middle, output_after) ←
    concat_loop concat_dim min_rank output_before output_middle output_after
      (rev (seqZ start_value_index (end_value_index - 1 - start_value_index)));
  v ← Vector (of_dim output_middle);
  s ← Concatenate output_before v;
  Concatenate s output_after.

Definition ConcatShapeHelper (start_value_index end_value_index dim_index : Z) : M unit :=
  sd ← input dim_index;
  _ ← WithRank sd 0;
  concat_dim_t ← input_tensor dim_index;
  match concat_dim_t with
  | None => s ← concat_unknown start_value_index end_value_index; set_output 0 s
  | Some tn =>
      concat_dim ← (if (tensor_dtype tn =? DT_INT32) || (tensor_dtype tn =? DT_INT64) then at_ (flat tn) 0 else fail Crash);
      s ← concat_known start_value_index end_value_index concat_dim;
      set_output 0 s
  end.

Definition ConcatShape (num_inputs_to_concat : Z) : M unit := ConcatShapeHelper 1 (1 + num_inputs_to_concat) 0.
Definition ConcatV2Shape : M unit :=
  ins ← gets inputs_; let n := Z.of_nat (length ins) in ConcatShapeHelper 0 (n - 1) (n - 1).
Definition QuantizedConcatV2Shape (num_inputs_to_concat : Z) : M unit :=
  ConcatShapeHelper 0 num_inputs_to_concat num_inputs_to_concat.

(** ** Segments, gathering and scattering *)

Definition UnsortedSegmentReductionShapeFn : M unit :=
  s_data ← input 0;
  s_segment_ids ← input 1;
  s_num_segments ← input 2;
  _ ← WithRank s_num_segments 0;
  known ← RankKnown s_segment_ids;
  out ←
    (if known : bool then
       '(s_data, s_segment_ids) ← MergePrefix s_data s_segment_ids;
       num_segments_dim ← MakeDimForScalarInput 2;
       r ← Rank s_segment_ids;
       s_data_suffix ← Subshape1 s_data r;
       v ← Vector (of_dim num_segments_dim);
       Concatenate v s_data_suffix
     else UnknownShape);
  set_output 0 out.

Definition ValidateVariableResourceHandle (dtype_attr : res Shape.code DataType) : M (list ShapeAndType) :=
  handle_data ← input_handle_shapes_and_types 0;
  match handle_data with
  | Some (h :: l) =>
      value_dtype ← attr dtype_attr;
      if negb (dtype h =? value_dtype) then InvalidArgument else mret (h :: l)
  | _ => s ← UnknownShape; mret [mkShapeAndType s DT_INVALID unset_type]
  end.

Definition GatherNdShape (dtype_attr : res Shape.code DataType) : M unit :=
  handle_data ← input_handle_shapes_and_types 0;
  params ←
    match handle_data with
    | Some _ => l ← ValidateVariableResourceHandle dtype_attr; h ← at_ l 0; mret (shape h)
    | None => input 0
    end;
  s1 ← input 1;
  indices ← WithRankAtLeast s1 1;
  r_dim ← Dim indices (-1);
  kp ← RankKnown params;
  kr ← ValueKnown (of_dim r_dim);
  if negb kp || negb kr then s ← UnknownShape; set_output 0 s
  else
    v ← Value (of_dim r_dim);
    r ← Rank params;
    if r <? v then InvalidArgument
    else
      indices_slice ← Subshape2 indices 0 (-1);
      params_slice ← Subshape1 params v;
      out ← Concatenate indices_slice params_slice;
      set_output 0 out.

End ShapeFns.
