(* ===== verification/ShapeFnsBroadcast.v ===== *)
(** * Shape functions: broadcasting

    [BroadcastBinaryOpOutputShapeFnHelper] agrees with the broadcasting that
    [BCast] does when the op runs. *)

From S2P Require Import Prelude TensorShape BCast BCastSpec BCastTheorems ShapeInference InferenceSpec InferenceMerge InferenceShapes CommonShapeFns.

Import Inference InferenceSpec InferenceMerge InferenceShapes ShapeFns.

Module ShapeFnsBroadcast.

(** ** NumPy's rule for two operands, from the outer-most dimension *)
Definition pad {A} (one : A) (n : nat) (l : list A) : list A := replicate (n - length l) one ++ l.
Definition bsize (a b : Z) : Z := if a =? 1 then b else a.
Definition bcompat (a b : Z) : Prop := a = 1 \/ b = 1 \/ a = b.

Lemma length_pad {A} (one : A) n l : (length l <= n)%nat -> length (pad one n l) = n.
Proof. intros H. unfold pad. rewrite length_app, length_replicate. lia. Qed.

Lemma pad_map {A B} (f : A -> B) one n l : map f (pad one n l) = pad (f one) n (map f l).
Proof. unfold pad. rewrite map_app, length_map. f_equal. exact (fmap_replicate f _ _). Qed.

Lemma nth_pad (n j : nat) (l : list Z) : (length l <= n)%nat -> (j < n)%nat -> nth j (pad 1 n l) 1 = size_at (n - 1 - j) l.
Proof.
  intros Hl Hj. unfold pad, size_at. destruct (decide (j < n - length l)%nat) as [H|H].
  - rewrite app_nth1 by (rewrite length_replicate; lia). rewrite (nth_overflow (rev l)) by (rewrite length_rev; lia).
    rewrite nth_lookup. by rewrite lookup_replicate_2 by lia.
  - rewrite app_nth2, length_replicate by (rewrite length_replicate; lia). rewrite rev_nth by lia. f_equal. lia.
Qed.

Lemma nth_zip_with (f : Z -> Z -> Z) (l k : list Z) (j : nat) : length l = length k -> (j < length l)%nat ->
  nth j (zip_with f l k) 1 = f (nth j l 1) (nth j k 1).
Proof.
  intros E Hj. destruct (lookup_lt_is_Some_2 l j Hj) as [x Hx]. destruct (lookup_lt_is_Some_2 k j) as [y Hy]; [lia|].
  rewrite !nth_lookup, lookup_zip_with, Hx, Hy. done.
Qed.

Section Numpy.
Context (x y : list Z).
Let n := Nat.max (length x) (length y).

Lemma largest_two : BCast.largest_rank [x; y] = n.
Proof. unfold BCast.largest_rank. simpl. lia. Qed.

Lemma numpy_two : numpy [x; y] = zip_with bsize (pad 1 n x) (pad 1 n y).
Proof.
  assert (length (pad 1 n x) = n /\ length (pad 1 n y) = n) as [Lx Ly] by (split; apply length_pad; lia).
  apply (nth_ext _ _ 1 1).
  { unfold numpy. rewrite length_rev, length_map, length_seq, largest_two, length_zip_with. lia. }
  intros j Hj. unfold numpy in *. rewrite length_rev, length_map, length_seq, largest_two in Hj.
  rewrite rev_nth by (by rewrite length_map, length_seq, largest_two). rewrite length_map, length_seq, largest_two.
  rewrite nth_zip_with, !nth_pad by lia. rewrite nth_lookup, list_lookup_fmap, lookup_seq_lt by lia. cbn.
  replace (n - S j)%nat with (n - 1 - j)%nat by lia. unfold bsize. repeat case_match; zbool; lia.
Qed.

Lemma broadcastable_two : broadcastable [x; y] -> Forall2 bcompat (pad 1 n x) (pad 1 n y).
Proof.
  assert (length (pad 1 n x) = n /\ length (pad 1 n y) = n) as [Lx Ly] by (split; apply length_pad; lia).
  intros H. apply Forall2_same_length_lookup_2; [lia|]. intros j a b Ha Hb. pose proof (lookup_lt_Some _ _ _ Ha) as Hj.
  pose proof (nth_pad n j x ltac:(lia) ltac:(lia)) as Ea. pose proof (nth_pad n j y ltac:(lia) ltac:(lia)) as Eb.
  rewrite nth_lookup, Ha in Ea. rewrite nth_lookup, Hb in Eb. cbn in Ea, Eb. subst a b. apply (H (n - 1 - j)%nat); set_solver.
Qed.
End Numpy.

Lemma bsizes_ok (l k : list Z) (n : nat) : Forall size l -> Forall size k -> Forall size (zip_with bsize (pad 1 n l) (pad 1 n k)).
Proof.
  assert (forall l, Forall size l -> Forall size (pad 1 n l)) as HP.
  { intros l' F. apply Forall_app. split; [|done]. apply Forall_replicate. unfold size. lia. }
  intros Fl%HP Fk%HP. apply Forall_lookup_2. intros i v Hv. apply lookup_zip_with_Some in Hv as (a & b & -> & Ha & Hb).
  unfold bsize. case_if; [by eapply list.Forall_lookup_1, Hb|by eapply list.Forall_lookup_1, Ha].
Qed.

(** ** What is known of a dimension of the result *)
Definition bview (a b : Z) : Z :=
  if (a =? kUnknownDim) || (b =? kUnknownDim)
  then if 1 <? a then a else if 1 <? b then b else if a =? 1 then b else if b =? 1 then a else kUnknownDim
  else bsize a b.
Definition clash (a b : Z) : Prop := a <> kUnknownDim /\ b <> kUnknownDim /\ ~ bcompat a b.

Lemma orb_eqb a b c d : ((a =? b) || (c =? d)) = true <-> a = b \/ c = d.
Proof. by rewrite orb_true_iff, !Z.eqb_eq. Qed.

Lemma sound_status_val {A} I (m : M A) st Q : sound I m st Q ->
  sound I (status m) st (fun J r st' => exists a, r = Ok a /\ Q J a st').
Proof.
  intros (a & st' & J & E & G & W' & Ag & HM & HQ). exists (Ok a), st', J. unfold status. rewrite E. split_and!; try done. by exists a.
Qed.

Section Step.
Context (st : t) (W : wf st) (dx dy : DimensionHandle) (Ox : dim_ok st dx) (Oy : dim_ok st dy) (y_one error : bool).
Let a := dimv st dx.
Let b := dimv st dy.

(** The step after its four reads *)
Definition step_body : M (ShapeHandle + DimensionHandle) :=
  let return_unknown := (s ← UnknownShape; mret (inl s)) in
  if (a =? kUnknownDim) || (b =? kUnknownDim) then
    if 1 <? a then if negb error then return_unknown else mret (inr dx)
    else if 1 <? b then if negb error then return_unknown else mret (inr dy)
    else if a =? 1 then mret (inr dy)
    else if b =? 1 then mret (inr dx)
    else if SameHandle dy dx then mret (inr dx)
    else if (a =? kUnknownDim) && (b =? kUnknownDim) then d ← UnknownDim; mret (inr d)
    else if negb error then return_unknown else d ← UnknownDim; mret (inr d)
  else if (a =? 1) || (b =? 1) then
    if (a =? 1) && negb y_one then mret (inr dy) else mret (inr dx)
  else
    s ← status (MergeDim dx dy);
    match s with
    | Ok d => mret (inr d)
    | Err c => if negb error then s ← MakeShapeOf []; mret (inl s) else fail (Status c)
    end.

Lemma broadcast_dim_run : broadcast_dim dx dy y_one error st = step_body st.
Proof.
  unfold broadcast_dim, step_body. do 4 (unfold mbind at 1, M_bind at 1; rewrite ?ValueKnown_dim, ?Value_dim by done; cbv beta iota).
  fold a b. by rewrite !negb_involutive.
Qed.

(** With [error] the step fails exactly if the known sizes clash. *)
Definition step_post (r : ShapeHandle + DimensionHandle) (st' : t) : Prop :=
  match r with
  | inl s => shape_ok st' s /\ error = false
  | inr d => dim_ok st' d /\ dimv st' d = bview a b /\ ~ clash a b
  end.

Lemma step_unknown F : error = false -> outcome F (s ← UnknownShape; mret (inl s)) st step_post.
Proof. intros He. eapply safe_bind; [by apply safe_UnknownShape|]. intros s st' _ W' [? _]. by apply safe_ret. Qed.

Lemma step_scalar F : error = false -> outcome F (s ← MakeShapeOf []; mret (inl s)) st step_post.
Proof.
  intros He. eapply safe_bind; [by apply (safe_MakeShape st W F [])|]. intros s st' _ W' [? _].
  apply safe_ret; [done|]. split; [by eapply known_shape|done].
Qed.

Lemma step_fresh F : bview a b = kUnknownDim -> ~ clash a b -> outcome F (d ← UnknownDim; mret (inr d)) st step_post.
Proof.
  intros Hv Hc. eapply safe_bind; [by apply safe_UnknownDim|]. intros d st' _ W' [? ?]. apply safe_ret; [done|].
  unfold step_post. by rewrite Hv.
Qed.

Lemma step_dim F d : dim_ok st d -> dimv st d = bview a b -> ~ clash a b -> outcome F (mret (inr d)) st step_post.
Proof. intros. by apply safe_ret. Qed.

Lemma MergeDim_known : a <> kUnknownDim -> b <> kUnknownDim ->
  MergeDim dx dy st = if a =? b then (Ok dx, st) else (Err (Status Shape.InvalidArgument), st).
Proof.
  intros Na Nb. rewrite MergeDim_run by done. fold a b. destruct (SameHandle dx dy) eqn:Es.
  { apply same_handle in Es. subst a b. by rewrite Es, Z.eqb_refl. }
  by rewrite (proj2 (Z.eqb_neq _ _) Na), (proj2 (Z.eqb_neq _ _) Nb).
Qed.

Lemma safe_broadcast_dim : (y_one = true -> b = 1) ->
  outcome (error = true /\ clash a b) (broadcast_dim dx dy y_one error) st step_post.
Proof.
  intros Hy. apply (safe_ext _ _ _ _ _ broadcast_dim_run). unfold step_body.
  destruct ((a =? kUnknownDim) || (b =? kUnknownDim)) eqn:Eu.
  - assert (~ clash a b) as Hc by (unfold clash; apply orb_eqb in Eu; tauto).
    assert (bview a b = if 1 <? a then a else if 1 <? b then b else if a =? 1 then b else if b =? 1 then a else kUnknownDim) as Hv
      by (unfold bview; by rewrite Eu).
    destruct (1 <? a); [destruct error eqn:He; [by apply step_dim|by apply step_unknown]|].
    destruct (1 <? b); [destruct error eqn:He; [by apply step_dim|by apply step_unknown]|].
    destruct (a =? 1); [by apply step_dim|]. destruct (b =? 1); [by apply step_dim|].
    destruct (SameHandle dy dx) eqn:Es.
    { apply same_handle in Es. apply step_dim; [done| |done]. rewrite Hv. subst a b. rewrite Es in Eu.
      apply orb_eqb in Eu. tauto. }
    destruct ((a =? kUnknownDim) && (b =? kUnknownDim)); [by apply step_fresh|].
    destruct error eqn:He; [by apply step_fresh|by apply step_unknown].
  - assert (bview a b = bsize a b) as Hv by (unfold bview; by rewrite Eu). apply orb_false_iff in Eu as [Ea Eb].
    apply Z.eqb_neq in Ea, Eb. destruct ((a =? 1) || (b =? 1)) eqn:E1.
    + assert (~ clash a b) as Hc by (unfold clash, bcompat; apply orb_eqb in E1; tauto).
      destruct ((a =? 1) && negb y_one) eqn:E2; apply step_dim; try done; rewrite Hv; unfold bsize;
        destruct (Z.eqb_spec a 1) as [E|]; try done. destruct y_one; [|done]. rewrite Hy by done. exact E.
    + apply orb_false_iff in E1 as [E1 E2]. unfold status, outcome, mbind, M_bind. rewrite MergeDim_known by done.
      unfold bsize in Hv. rewrite E1 in Hv. apply Z.eqb_neq in E1, E2. destruct (Z.eqb_spec a b) as [Eab|Eab].
      * split_and!; try done. unfold step_post, clash, bcompat. rewrite Hv. tauto.
      * destruct error eqn:He.
        { split; [|done]. split; [|by eexists]. split; [done|]. unfold clash, bcompat. tauto. }
        exact (step_scalar True He).
Qed.

(** For sizes that broadcast, the pushed dimension has the size of the result. *)
Definition step_denotes (l : list Z) (v : Z) (J : interp) (r : ShapeHandle + DimensionHandle) (st' : t) : Prop :=
  match r with
  | inl s => shape_ok st' s /\ sI J st' s = l
  | inr d => dim_ok st' d /\ dI J d = v
  end.

Lemma sound_broadcast_dim I (l : list Z) : models I st -> bcompat (dI I dx) (dI I dy) -> (y_one = true -> b = 1) -> Forall size l ->
  sound I (broadcast_dim dx dy y_one error) st (step_denotes l (bsize (dI I dx) (dI I dy))).
Proof.
  intros HM Hc Hy Hl. apply (sound_ext _ _ _ _ _ broadcast_dim_run). unfold step_body.
  destruct (dI_models I st dx HM Ox) as [Sx Kx], (dI_models I st dy HM Oy) as [Sy Ky]. fold a in Kx. fold b in Ky.
  assert (-1 <= a /\ -1 <= b) as [Ra Rb] by (split; by apply dimv_range).
  set (x := dI I dx) in *. set (y := dI I dy) in *. set (Q := step_denotes l (bsize x y)).
  assert (sound I (s ← UnknownShape; mret (inl s)) st Q) as HU.
  { eapply sound_bind; [by apply (sound_UnknownShape st W I HM l)|]. intros J s st' _ W' _ M' (? & _ & ?). by apply sound_ret. }
  assert (forall d, dim_ok st d -> dI I d = bsize x y -> sound I (mret (inr d)) st Q) as HR by (intros; by apply sound_ret).
  assert (sound I (d ← UnknownDim; mret (inr d)) st Q) as HN.
  { eapply sound_bind; [apply (sound_UnknownDim st W I HM (bsize x y)); unfold bsize; by case_if|].
    intros J d st' _ W' _ M' (? & _ & ?). by apply sound_ret. }
  destruct ((a =? kUnknownDim) || (b =? kUnknownDim)) eqn:Eu; [apply orb_eqb in Eu|apply orb_false_iff in Eu];
  unfold bcompat, bsize, size, kUnknownDim in *;
  repeat match goal with |- sound _ (if ?c then _ else _) _ _ => destruct c eqn:? end; zbool; try done;
    try (apply HR; [done|]; case_if; lia).
  - apply HR; [done|]. assert (x = y) by (subst x y; by rewrite (same_handle dy dx)). case_if; lia.
  - apply HR; [done|]. case_if; [|done]. destruct y_one; [specialize (Hy eq_refl); lia|].
    change (negb false) with true in *. rewrite andb_true_r in *. zbool. lia.
  - eapply sound_bind; [apply sound_status_val, (sound_MergeDim st W dx dy Ox Oy I HM); unfold x, y in *; lia|].
    intros J r st' G W' Ag M' (d & -> & -> & Hd & Ed & _). apply sound_ret; [done|done|]. split.
    + destruct Hd as [-> | ->]; eauto with inference.
    + rewrite Ed. fold x. case_if; lia.
Qed.
End Step.

(** ** The loop *)

(** One operand, padded to [n] dimensions *)
Section Operand.
Context (st0 : t) (W0 : wf st0) (s : ShapeHandle) (ds : list DimensionHandle) (K : known st0 s = Some ds).
Context (one : DimensionHandle) (n : nat) (Hn : (length ds <= n)%nat).
Context (One : (length ds < n)%nat -> dim_ok st0 one /\ dimv st0 one = 1).

Lemma pad_ok : Forall (dim_ok st0) (pad one n ds).
Proof.
  apply Forall_app. split; [|by apply (known_ok _ _ _ W0 K)].
  destruct (decide (length ds < n)%nat) as [E|E]; [by apply Forall_replicate, One|]. by replace (n - length ds)%nat with 0%nat by lia.
Qed.

Lemma pad_read st i d : grow st0 st -> wf st -> pad one n ds !! i = Some d ->
  (if Z.of_nat i <? Z.of_nat n - Z.of_nat (length ds) then mret one
   else Dim s (Z.of_nat i - (Z.of_nat n - Z.of_nat (length ds)))) st = (Ok d, st)
  /\ ((Z.of_nat i <? Z.of_nat n - Z.of_nat (length ds)) = true -> dimv st d = 1).
Proof.
  intros G W Hd. unfold pad in Hd. destruct (Z.ltb_spec (Z.of_nat i) (Z.of_nat n - Z.of_nat (length ds))).
  - rewrite lookup_app_l in Hd by (rewrite length_replicate; lia). apply lookup_replicate in Hd as [-> _]. split; [done|].
    intros _. destruct One as [? ?]; [lia|]. by rewrite (dimv_grow st0 st).
  - rewrite lookup_app_r, length_replicate in Hd by (rewrite length_replicate; lia). split; [|done].
    apply (Dim_known st W s ds); [|lia|by replace (Z.to_nat _) with (i - (n - length ds))%nat by lia].
    rewrite (known_grow st0 st); eauto with inference.
Qed.
End Operand.

Section Loop.
Context (st0 : t) (W0 : wf st0) (sx sy : ShapeHandle) (xs ys : list DimensionHandle) (one : DimensionHandle) (error : bool).
Context (Kx : known st0 sx = Some xs) (Ky : known st0 sy = Some ys).
Let n := Nat.max (length xs) (length ys).
Context (One : length xs <> length ys -> dim_ok st0 one /\ dimv st0 one = 1).
Let px := pad one n xs.
Let py := pad one n ys.
Let loop := broadcast_loop sx sy (Z.of_nat (length xs)) (Z.of_nat (length ys)) (Z.of_nat n) one error.

Lemma loop_lengths : length px = n /\ length py = n /\ Z.of_nat n <= kint32max.
Proof.
  destruct (known_ok _ _ _ W0 Kx) as (_ & ? & _), (known_ok _ _ _ W0 Ky) as (_ & ? & _).
  split_and!; [apply length_pad; lia|apply length_pad; lia|lia].
Qed.

Lemma loop_ok i dx dy : px !! i = Some dx -> py !! i = Some dy -> dim_ok st0 dx /\ dim_ok st0 dy.
Proof.
  intros Hx Hy. split.
  - eapply list.Forall_lookup_1, Hx. apply (pad_ok st0 W0 sx); [done|lia|]. intros. apply One. lia.
  - eapply list.Forall_lookup_1, Hy. apply (pad_ok st0 W0 sy); [done|lia|]. intros. apply One. lia.
Qed.

(** One round of the loop *)
Lemma loop_round st k dims l dx dy : grow st0 st -> wf st -> px !! k = Some dx -> py !! k = Some dy ->
  exists y_one, (y_one = true -> dimv st dy = 1) /\
  loop dims (Z.of_nat k :: l) st =
    (r ← broadcast_dim dx dy y_one error; match r with inl out => mret out | inr d => loop (dims ++ [d]) l end) st.
Proof.
  intros G W Hx Hy.
  destruct (pad_read st0 sx xs Kx one n ltac:(lia) ltac:(intros; apply One; lia) st k dx G W Hx) as [Ex _].
  destruct (pad_read st0 sy ys Ky one n ltac:(lia) ltac:(intros; apply One; lia) st k dy G W Hy) as [Ey H1].
  exists (Z.of_nat k <? Z.of_nat n - Z.of_nat (length ys)). split; [done|]. unfold loop. cbn [broadcast_loop].
  unfold mbind at 1, M_bind at 1. rewrite Ex. unfold mbind at 1, M_bind at 1. by rewrite Ey.
Qed.

(** From position [k] on, known sizes that do not broadcast *)
Definition clash_from (k : nat) : Prop :=
  exists i dx dy, (k <= i)%nat /\ px !! i = Some dx /\ py !! i = Some dy /\ clash (dimv st0 dx) (dimv st0 dy).
Definition views_from (k : nat) : list Z := zip_with bview (map (dimv st0) (drop k px)) (map (dimv st0) (drop k py)).

Lemma next_dims k : (k < n)%nat -> exists dx dy,
  px !! k = Some dx /\ py !! k = Some dy /\ drop k px = dx :: drop (S k) px /\ drop k py = dy :: drop (S k) py.
Proof.
  intros Hk. destruct loop_lengths as (Lx & Ly & _). destruct (lookup_lt_is_Some_2 px k) as [dx Hx]; [lia|].
  destruct (lookup_lt_is_Some_2 py k) as [dy Hy]; [lia|]. exists dx, dy. split_and!; try done; by apply drop_S.
Qed.

Lemma safe_loop m : forall k st dims, (k + m = n)%nat -> grow st0 st -> wf st -> Forall (dim_ok st) dims -> length dims = k ->
  outcome (error = true /\ clash_from k) (loop dims (seqZ (Z.of_nat k) (Z.of_nat m))) st (fun s st' =>
    shape_ok st' s /\ (error = true -> ~ clash_from k /\ view st' s = Some (map (dimv st) dims ++ views_from k))).
Proof.
  destruct loop_lengths as (Lx & Ly & Hm). induction m as [|m IH]; intros k st dims Hk G W F L.
  - eapply safe_mono; [apply (safe_MakeShape st W _ dims F); lia|]. intros s st' _ _ [Ks Hv]. split; [by eapply known_shape|].
    intros _. split; [intros (i & ? & ? & ? & Hi%lookup_lt_Some & _); lia|].
    unfold views_from. rewrite Hv, !drop_ge by lia. by rewrite app_nil_r.
  - destruct (next_dims k) as (dx & dy & Hx & Hy & Dx & Dy); [lia|]. destruct (loop_ok k dx dy Hx Hy) as [Ox Oy].
    rewrite seqZ_cons by lia. destruct (loop_round st k dims (seqZ (Z.succ (Z.of_nat k)) (Z.pred (Z.of_nat (S m)))) dx dy G W Hx Hy)
      as (y_one & H1 & E). apply (safe_ext _ _ _ _ _ E). pose proof (dim_ok_grow _ _ _ G Ox) as Ox1. pose proof (dim_ok_grow _ _ _ G Oy) as Oy1.
    eapply safe_bind; [eapply safe_weaken; [|by apply (safe_broadcast_dim st W dx dy Ox1 Oy1 y_one error)]|].
    { cbv zeta. rewrite !(dimv_grow st0 st) by done. intros [-> Hc]. split; [done|]. by exists k, dx, dy. }
    intros [s|d] st1 G1 W1; unfold step_post; cbv zeta; rewrite ?(dimv_grow st0 st) by done.
    { intros [? ->]. by apply safe_ret. }
    intros (Od & Vd & Hc). replace (Z.succ (Z.of_nat k)) with (Z.of_nat (S k)) by lia. replace (Z.pred (Z.of_nat (S m))) with (Z.of_nat m) by lia.
    eapply safe_mono; [eapply safe_weaken; [|apply (IH (S k))]|].
    + intros [-> (i & a & b & ? & ?)]. split; [done|]. exists i, a, b. split; [lia|done].
    + lia.
    + by etrans.
    + done.
    + apply Forall_app. split; [by eapply dims_ok_grow|by constructor].
    + rewrite length_app. simpl. lia.
    + intros s st2 _ _ [? Hok]. split; [done|]. intros He. destruct (Hok He) as [Hn Hv]. split.
      * intros (i & a & b & Hi & Ha & Hb & Hcl). destruct (decide (i = k)) as [-> |]; [by simplify_eq|].
        apply Hn. exists i, a, b. split; [lia|done].
      * rewrite Hv. unfold views_from. rewrite Dx, Dy, map_app, <- app_assoc. simpl. by rewrite (vals_grow st st1), Vd.
Qed.

(** The sizes of the result in an execution *)
Context (I0 : interp) (HM0 : models I0 st0) (Hc : Forall2 bcompat (map (dI I0) px) (map (dI I0) py)).
Definition sizes_from (k : nat) : list Z := zip_with bsize (map (dI I0) (drop k px)) (map (dI I0) (drop k py)).

Lemma sizes_ok : Forall size (sizes_from 0).
Proof.
  apply Forall_lookup_2. intros i v Hv. unfold sizes_from in Hv. rewrite !drop_0 in Hv.
  apply lookup_zip_with_Some in Hv as (a & b & -> & Ha & Hb). rewrite list_lookup_fmap in Ha, Hb.
  destruct (px !! i) as [dx|] eqn:Hx; [|done]. destruct (py !! i) as [dy|] eqn:Hy; [|done].
  destruct (loop_ok i dx dy Hx Hy) as [Ox Oy]. simplify_eq/=. unfold bsize. case_if; by apply (dI_models I0 st0).
Qed.

Lemma sound_loop m : forall k st I dims, (k + m = n)%nat -> grow st0 st -> wf st -> agree st0 I0 I -> models I st ->
  Forall (dim_ok st) dims -> length dims = k -> map (dI I) dims ++ sizes_from k = sizes_from 0 ->
  sound I (loop dims (seqZ (Z.of_nat k) (Z.of_nat m))) st (fun J s st' => shape_ok st' s /\ sI J st' s = sizes_from 0).
Proof.
  destruct loop_lengths as (Lx & Ly & Hm). induction m as [|m IH]; intros k st I dims Hk G W A HM F L Hs.
  - eapply sound_mono; [apply (sound_MakeShape st W I HM dims F); lia|]. intros J s st' _ _ _ [Ks Hv]. split; [by eapply known_shape|].
    unfold sizes_from in Hs at 1. rewrite !drop_ge, app_nil_r in Hs by lia. by rewrite Hv.
  - destruct (next_dims k) as (dx & dy & Hx & Hy & Dx & Dy); [lia|]. destruct (loop_ok k dx dy Hx Hy) as [Ox Oy].
    rewrite seqZ_cons by lia. destruct (loop_round st k dims (seqZ (Z.succ (Z.of_nat k)) (Z.pred (Z.of_nat (S m)))) dx dy G W Hx Hy)
      as (y_one & H1 & E). apply (sound_ext _ _ _ _ _ E). pose proof (dim_ok_grow _ _ _ G Ox) as Ox1. pose proof (dim_ok_grow _ _ _ G Oy) as Oy1.
    eapply sound_bind; [apply (sound_broadcast_dim st W dx dy Ox1 Oy1 y_one error I (sizes_from 0)); try done; [|apply sizes_ok]|].
    { rewrite !(dI_agree st0 I0 I) by done. apply (Forall2_lookup_lr _ _ _ k _ _ Hc); by rewrite list_lookup_fmap, ?Hx, ?Hy. }
    intros J [s|d] st1 G1 W1 A1 M1; unfold step_denotes; rewrite ?(dI_agree st0 I0 I) by done; [by intros [? ?]; apply sound_ret|].
    intros (Od & Vd). replace (Z.succ (Z.of_nat k)) with (Z.of_nat (S k)) by lia. replace (Z.pred (Z.of_nat (S m))) with (Z.of_nat m) by lia.
    apply (IH (S k)); [lia|by etrans|done|by eapply agree_trans|done| |rewrite length_app; simpl; lia|].
    + apply Forall_app. split; [by eapply dims_ok_grow|by constructor].
    + rewrite <- Hs, map_app, <- app_assoc, (dIs_agree st I J) by done. unfold sizes_from. rewrite Dx, Dy. simpl. by rewrite Vd.
Qed.
End Loop.

(** ** The helper *)

(** What is known of the result, and known sizes that do not broadcast *)
Definition bshape (x y : option (list Z)) : option (list Z) :=
  match x, y with
  | Some l, Some k => let n := Nat.max (length l) (length k) in Some (zip_with bview (pad 1 n l) (pad 1 n k))
  | _, _ => None
  end.
Definition clashing (x y : option (list Z)) : Prop :=
  match x, y with
  | Some l, Some k => let n := Nat.max (length l) (length k) in exists i a b, pad 1 n l !! i = Some a /\ pad 1 n k !! i = Some b /\ clash a b
  | _, _ => False
  end.

(** Padding with a dimension that is 1, if there is any padding *)
Lemma pad_vals {A} (f : A -> Z) (one : A) n l : ((length l < n)%nat -> f one = 1) -> map f (pad one n l) = pad 1 n (map f l).
Proof.
  intros H. rewrite pad_map. unfold pad. destruct (decide (length l < n)%nat) as [E|E]; [by rewrite H|].
  rewrite length_map. by replace (n - length l)%nat with 0%nat by lia.
Qed.

Section Helper.
Context (st : t) (W : wf st) (sx sy : ShapeHandle) (Hx : shape_ok st sx) (Hy : shape_ok st sy) (error : bool).

(** The helper on shapes of known rank, after its reads *)
Lemma Helper_known xs ys : known st sx = Some xs -> known st sy = Some ys ->
  let n := Z.of_nat (Nat.max (length xs) (length ys)) in
  BroadcastBinaryOpOutputShapeFnHelper sx sy error st =
    (dim_one ← (if negb (Z.of_nat (length xs) =? Z.of_nat (length ys)) then MakeDim (of_val 1) else mret None);
     broadcast_loop sx sy (Z.of_nat (length xs)) (Z.of_nat (length ys)) n dim_one error [] (seqZ 0 n)) st.
Proof.
  intros Kx Ky n. unfold BroadcastBinaryOpOutputShapeFnHelper.
  unfold mbind at 1, M_bind at 1. rewrite RankKnown_ok, Kx by done. rewrite bool_decide_eq_true_2 by eauto.
  unfold mbind at 1, M_bind at 1. rewrite RankKnown_ok, Ky by done. rewrite bool_decide_eq_true_2 by eauto. cbn [negb orb].
  unfold mbind at 1, M_bind at 1. rewrite Rank_ok by done. unfold mbind at 1, M_bind at 1. rewrite Rank_ok by done.
  unfold rankv. rewrite Kx, Ky. subst n. by rewrite Nat2Z.inj_max.
Qed.

Lemma Helper_unknown : known st sx = None \/ known st sy = None ->
  BroadcastBinaryOpOutputShapeFnHelper sx sy error st = UnknownShape st.
Proof.
  intros Hu. unfold BroadcastBinaryOpOutputShapeFnHelper, mbind, M_bind. rewrite RankKnown_ok by done.
  destruct (known st sx) as [xs|] eqn:Kx; [|by rewrite bool_decide_eq_false_2 by (by intros [? ?])].
  rewrite bool_decide_eq_true_2 by eauto. rewrite RankKnown_ok by done.
  destruct (known st sy) as [ys|] eqn:Ky; [by destruct Hu|]. by rewrite bool_decide_eq_false_2 by (by intros [? ?]).
Qed.

(** The dimension that pads the shorter operand *)
Lemma safe_one F (b : bool) :
  outcome F (if negb b then MakeDim (of_val 1) else mret None) st (fun d st' => b = false -> dim_ok st' d /\ dimv st' d = 1).
Proof. destruct b; simpl; [by apply safe_ret|]. eapply safe_mono; [by apply safe_MakeDim_val|]. by intros ? ? _ _ [? ?]. Qed.

Lemma sound_one I (b : bool) : models I st ->
  sound I (if negb b then MakeDim (of_val 1) else mret None) st (fun J d st' => b = false -> dim_ok st' d /\ dimv st' d = 1).
Proof.
  intros HM. destruct b; simpl; [by apply sound_ret|].
  eapply sound_mono; [by apply (sound_MakeDim st W I HM 1 1)|]. by intros ? ? ? _ _ _ (? & ? & ?).
Qed.

Lemma safe_Helper :
  outcome (error = true /\ clashing (view st sx) (view st sy)) (BroadcastBinaryOpOutputShapeFnHelper sx sy error) st (fun s st' =>
    shape_ok st' s /\ (error = true -> ~ clashing (view st sx) (view st sy) /\ view st' s = bshape (view st sx) (view st sy))).
Proof.
  assert (known st sx = None \/ known st sy = None -> clashing (view st sx) (view st sy) = False /\ bshape (view st sx) (view st sy) = None) as HN.
  { intros [K|K]; rewrite (view_unknown _ _ K); [done|]. by destruct (view st sx). }
  destruct (known st sx) as [xs|] eqn:Kx; [destruct (known st sy) as [ys|] eqn:Ky|].
  2, 3: destruct HN as [HN1 HN2]; [by (left + right)|]; rewrite HN1, HN2; apply (safe_ext _ _ UnknownShape); [apply Helper_unknown; by (left + right)|];
    eapply safe_mono; [by apply safe_UnknownShape|]; intros s st' _ _ [? ?]; split; [done|]; intros _; split; [tauto|by apply view_unknown].
  clear HN. rewrite (view_known _ _ _ Kx), (view_known _ _ _ Ky). apply (safe_ext _ _ _ _ _ (Helper_known xs ys Kx Ky)).
  eapply safe_bind; [apply safe_one|]. intros one st1 G W1 H1.
  assert (known st1 sx = Some xs /\ known st1 sy = Some ys) as [Kx1 Ky1] by (rewrite !(known_grow st st1) by done; done).
  assert (length xs <> length ys -> dim_ok st1 one /\ dimv st1 one = 1) as One by (intros; apply H1, Z.eqb_neq; lia).
  set (n := Nat.max (length xs) (length ys)).
  assert (forall ds, ds = xs \/ ds = ys -> Forall (dim_ok st) ds -> map (dimv st1) (pad one n ds) = pad 1 n (map (dimv st) ds)) as HP.
  { intros ds Hd F. rewrite pad_vals by (destruct Hd as [-> | ->]; intros; apply One; lia). by rewrite (vals_grow st st1). }
  destruct (known_ok _ _ _ W Kx) as [Fx _], (known_ok _ _ _ W Ky) as [Fy _].
  pose proof (HP xs (or_introl eq_refl) Fx) as Px. pose proof (HP ys (or_intror eq_refl) Fy) as Py.
  pose proof (safe_loop st1 W1 sx sy xs ys one error Kx1 Ky1 One n 0 st1 [] ltac:(lia) ltac:(done) W1 ltac:(done) ltac:(done)) as HS.
  assert (clash_from st1 xs ys one 0 <-> clashing (Some (map (dimv st) xs)) (Some (map (dimv st) ys))) as HC.
  { unfold clash_from, clashing. rewrite !length_map. fold n. rewrite <- Px, <- Py. split.
    - intros (i & dx & dy & _ & Ex & Ey & Hc). exists i, (dimv st1 dx), (dimv st1 dy). by rewrite !list_lookup_fmap, Ex, Ey.
    - intros (i & a & b & Ea & Eb & Hc). rewrite list_lookup_fmap in Ea, Eb. apply fmap_Some in Ea as (dx & Ex & ->), Eb as (dy & Ey & ->).
      exists i, dx, dy. split_and!; try done. lia. }
  eapply safe_mono; [eapply safe_weaken; [|exact HS]|].
  - by rewrite HC.
  - intros s st2 _ _ [Hs Hok]. split; [done|]. rewrite HC in Hok. intros He. destruct (Hok He) as [? ->]. split; [done|].
    unfold views_from, bshape. rewrite !length_map, !drop_0. fold n. by rewrite Px, Py.
Qed.

Lemma sound_Helper I : models I st -> broadcastable [sI I st sx; sI I st sy] ->
  sound I (BroadcastBinaryOpOutputShapeFnHelper sx sy error) st (fun J s st' =>
    shape_ok st' s /\ sI J st' s = numpy [sI I st sx; sI I st sy]).
Proof.
  intros HM Hb. pose proof (broadcastable_two _ _ Hb) as Hc. rewrite numpy_two. clear Hb.
  destruct (known st sx) as [xs|] eqn:Kx; [destruct (known st sy) as [ys|] eqn:Ky|].
  2, 3: apply (sound_ext _ _ UnknownShape); [apply Helper_unknown; by (left + right)|];
    eapply sound_mono; [apply (sound_UnknownShape st W I HM)|by intros ? ? ? _ _ _ (? & _ & ?)]; apply bsizes_ok; by apply sI_size.
  apply (sound_ext _ _ _ _ _ (Helper_known xs ys Kx Ky)).
  eapply sound_bind; [by apply sound_one|]. intros J one st1 G W1 Ag M1 H1.
  assert (known st1 sx = Some xs /\ known st1 sy = Some ys) as [Kx1 Ky1] by (rewrite !(known_grow st st1) by done; done).
  assert (length xs <> length ys -> dim_ok st1 one /\ dimv st1 one = 1) as One by (intros; apply H1, Z.eqb_neq; lia).
  set (n := Nat.max (length xs) (length ys)).
  assert (forall ds, ds = xs \/ ds = ys -> Forall (dim_ok st) ds -> map (dI J) (pad one n ds) = pad 1 n (map (dI I) ds)) as HP.
  { intros ds Hd F. rewrite pad_vals; [by rewrite (dIs_agree st I J)|]. intros Hl. destruct One as [O1 V1]; [destruct Hd as [-> | ->]; lia|].
    destruct (dI_models J st1 one M1 O1) as [_ ->]; [done|]. by rewrite V1. }
  destruct (known_ok _ _ _ W Kx) as [Fx _], (known_ok _ _ _ W Ky) as [Fy _].
  pose proof (HP xs (or_introl eq_refl) Fx) as Px. pose proof (HP ys (or_intror eq_refl) Fy) as Py.
  unfold sI in Hc |- * at 2 3 4 5 6 7. rewrite Kx, Ky, !length_map in *. fold n in Hc |- *. rewrite <- Px, <- Py in *.
  eapply sound_mono; [apply (sound_loop st1 W1 sx sy xs ys one error Kx1 Ky1 One J M1 Hc n 0 st1 J []); try done; lia|].
  intros K s st2 _ _ _ [? ->]. unfold sizes_from. by rewrite !drop_0.
Qed.
End Helper.

End ShapeFnsBroadcast.
