(* ===== verification/ShapeFnsSpec.v ===== *)
(** * Shape functions: broadcasting and products of matrices

    Soundness of the shape functions, from the specifications of the calls
    they make. *)

From S2P Require Import Prelude TensorShape SliceSpec BCast BCastSpec BCastTheorems ShapeInference InferenceSpec InferenceMerge InferenceArith InferenceShapes CommonShapeFns ShapeFnsBroadcast.

Import Inference InferenceSpec InferenceMerge InferenceArith InferenceShapes ShapeFns ShapeFnsBroadcast.

Module ShapeFnsSpec.

(** ** Inputs *)
Lemma grow_inputs st st' : grow st st' -> inputs_ st' = inputs_ st /\ outputs_ st' = outputs_ st /\ input_tensors_ st' = input_tensors_ st.
Proof. by intros (? & ? & ? & ? & ->). Qed.

Lemma input_run st i s : 0 <= i -> inputs_ st !! Z.to_nat i = Some s -> input i st = (Ok s, st).
Proof. intros Hi H. unfold input, gets, mbind, M_bind, at_. destruct (Z.leb_spec 0 i); [|lia]. by rewrite H. Qed.

(** A shape that has the asserted rank already *)
Lemma WithRank_same st s ds rank : wf st -> known st s = Some ds -> Z.of_nat (length ds) = rank -> WithRank s rank st = (Ok s, st).
Proof.
  intros W K E. unfold WithRank. destruct (known_ok _ _ _ W K) as (_ & Hm & _).
  destruct (Z.ltb_spec kint32max rank); [lia|]. unfold mbind, M_bind. rewrite Rank_ok by eauto with inference.
  unfold rankv. rewrite K, E, Z.eqb_refl. done.
Qed.

(** ** What a handle has in an execution *)
Definition has (I : interp) (st : t) (s : ShapeHandle) (l : list Z) : Prop := shape_ok st s /\ sI I st s = l.
Definition dim_has (I : interp) (st : t) (d : DimensionHandle) (x : Z) : Prop := dim_ok st d /\ dI I d = x.

Lemma has_grow st st' I J s l : wf st -> grow st st' -> agree st I J -> has I st s l -> has J st' s l.
Proof. intros W G A [Hs <-]. split; [by eapply shape_ok_grow|by apply sI_agree]. Qed.

Lemma dim_has_grow st st' I J d x : grow st st' -> agree st I J -> dim_has I st d x -> dim_has J st' d x.
Proof. intros G A [Hd <-]. split; [by eapply dim_ok_grow|by eapply dI_agree]. Qed.

(** The same for the handles of a list *)
Abbreviation all_have I st := (Forall2 (has I st)).

Lemma all_have_grow st st' I J ss ls : wf st -> grow st st' -> agree st I J -> all_have I st ss ls -> all_have J st' ss ls.
Proof. intros W G A H. eapply Forall2_impl; [exact H|]. intros s l. by apply has_grow. Qed.

Lemma inputs_grow st st' l : grow st st' -> inputs_ st = l -> inputs_ st' = l.
Proof. intros G <-. by apply grow_inputs. Qed.

(** Takes what is known before a call to the context after it, and forgets the context before. *)
Ltac transport :=
  match goal with
  | G : grow ?st ?st', W : wf ?st, A : agree ?st ?I ?J |- _ =>
      repeat match goal with
      | H : has I st _ _ |- _ => apply (has_grow st st' I J _ _ W G A) in H
      | H : all_have I st _ _ |- _ => apply (all_have_grow st st' I J _ _ W G A) in H
      | H : dim_has I st _ _ |- _ => apply (dim_has_grow st st' I J _ _ G A) in H
      | H : inputs_ st = _ |- _ => apply (inputs_grow st st' _ G) in H
      end;
      repeat match goal with H : models I st |- _ => clear H end; clear W A G
  end.

(** ** The calls of shape functions, for the sizes of an execution *)
Lemma call_Dim x st I s l i : wf st -> models I st -> has I st s l -> 0 <= position (Z.of_nat (length l)) i -> l !! Z.to_nat (position (Z.of_nat (length l)) i) = Some x ->
  sound I (Dim s i) st (fun J d st' => dim_has J st' d x).
Proof.
  intros W HM [Hs <-] Hp Hx. assert (size x) as Sx by (eapply list.Forall_lookup_1, Hx; by apply sI_size). destruct (known st s) as [ds|] eqn:K.
  - unfold sI in Hx, Hp. rewrite K, length_map in *. rewrite list_lookup_fmap in Hx. apply fmap_Some in Hx as (d & Hd & ->).
    assert (dim_ok st d) as Od by (eapply list.Forall_lookup_1, Hd; by apply (known_ok _ _ _ W K)).
    apply (sound_ext _ _ (mret d)); [|by apply sound_ret]. unfold position in *. destruct (Z.ltb_spec i 0).
    + by apply (Dim_negative st W s ds).
    + by apply (Dim_known st W s ds).
  - apply (sound_ext _ _ UnknownDim); [by apply Dim_unknown|].
    eapply sound_mono; [by apply (sound_UnknownDim st W I HM x)|]. by intros ? ? ? _ _ _ (? & _ & ?).
Qed.

Section Calls.
Context (st : t) (W : wf st) (I : interp) (HM : models I st).

Lemma call_WithRank s l rank : has I st s l -> Z.of_nat (length l) = rank -> rank <= kint32max ->
  sound I (WithRank s rank) st (fun J s' st' => has J st' s' l).
Proof.
  intros [Hs <-] Hl Hr. eapply sound_mono; [by apply (sound_WithRank st W s Hs I rank)|].
  intros J s' st' _ _ _ (E & ds & K & _). split; [by eapply known_shape|done].
Qed.

Lemma call_WithRankAtLeast s l rank : has I st s l -> rank <= Z.of_nat (length l) -> rank <= kint32max ->
  sound I (WithRankAtLeast s rank) st (fun J s' st' => has J st' s' l).
Proof.
  intros [Hs <-] Hl Hr. eapply sound_mono; [by apply (sound_WithRankAtLeast st W s Hs I rank)|]. by intros J s' st' _ _ _ (-> & -> & ->).
Qed.

Lemma call_MergeDim d0 d1 x : dim_has I st d0 x -> dim_has I st d1 x -> sound I (MergeDim d0 d1) st (fun J d st' => dim_has J st' d x).
Proof.
  intros [O0 E0] [O1 E1]. eapply sound_mono; [apply (sound_MergeDim st W d0 d1 O0 O1 I HM); congruence|].
  intros J d st' G _ _ (-> & Hor & Hd & _). split; [destruct Hor as [-> | ->]; eauto with inference|congruence].
Qed.

Lemma call_op op d c x y : dim_has I st d x -> dc_ok st c -> denotes I c y -> divisor_ok st c op -> legal op x y ->
  sound I (run op d c) st (fun J d' st' => dim_has J st' d' (result op x y)).
Proof. intros [Od <-] Oc Hy Ho Hl. by apply (sound_run st W I HM d c Od Oc y Hy op Ho Hl). Qed.

Lemma operand_dim d x : dim_has I st d x -> dc_ok st (of_dim d) /\ denotes I (of_dim d) x.
Proof.
  intros [Od <-]. destruct (dI_models I st d HM Od) as [Hsz _]. destruct Od as [v Hv]. destruct d as [i|]; [|done].
  split; [by exists v|by split].
Qed.

Lemma operand_val v : size v -> dc_ok st (of_val v) /\ denotes I (of_val v) v.
Proof. intros Hv. split; [exists v; unfold size in Hv; simpl; split; [done|lia]|]. split; [done|]. by intros u [= ->]. Qed.

Lemma call_Add d0 d1 x y : dim_has I st d0 x -> dim_has I st d1 y -> x + y < 2 ^ 63 ->
  sound I (Add d0 (of_dim d1)) st (fun J d st' => dim_has J st' d (x + y)).
Proof. intros H0 H1 Hlt. destruct (operand_dim d1 y H1). by apply (call_op OpAdd d0 (of_dim d1)). Qed.

Lemma call_Merge s0 s1 l : has I st s0 l -> has I st s1 l -> sound I (Merge s0 s1) st (fun J s st' => has J st' s l).
Proof.
  intros [H0 E0] [H1 E1]. eapply sound_mono; [apply (sound_Merge st W s0 s1 H0 H1 I HM); congruence|].
  intros J s st' _ _ _ (? & Es & _). split; [done|]. by rewrite Es.
Qed.

Lemma call_Concatenate s0 s1 l0 l1 : has I st s0 l0 -> has I st s1 l1 -> Z.of_nat (length (l0 ++ l1)) <= kint32max ->
  sound I (Concatenate s0 s1) st (fun J s st' => has J st' s (l0 ++ l1)).
Proof. intros [H0 <-] [H1 <-] Hl. by apply sound_Concatenate. Qed.

Lemma call_Broadcast s0 s1 l0 l1 e : has I st s0 l0 -> has I st s1 l1 -> broadcastable [l0; l1] ->
  sound I (BroadcastBinaryOpOutputShapeFnHelper s0 s1 e) st (fun J s st' => has J st' s (numpy [l0; l1])).
Proof. intros [H0 <-] [H1 <-] Hb. by apply sound_Helper. Qed.

Lemma MakeDim_of_dim d : dim_ok st d -> MakeDim (of_dim d) st = (Ok d, st).
Proof. intros [v Hv]. by destruct d. Qed.

Lemma call_Scalar : sound I Scalar st (fun J s st' => has J st' s []).
Proof.
  eapply sound_mono; [by apply (sound_MakeShape st W I HM [])|]. intros J s st' _ _ _ [? ?]. split; [by eapply known_shape|done].
Qed.

Lemma call_Vector d x : dim_has I st d x -> sound I (Vector (of_dim d)) st (fun J s st' => has J st' s [x]).
Proof.
  intros [Od <-]. apply (sound_ext _ _ (MakeShape [d])).
  { unfold Vector, MakeShapeOf. rewrite !mapM_cons. unfold mbind, M_bind. by rewrite !MakeDim_of_dim by done. }
  eapply sound_mono; [apply (sound_MakeShape st W I HM [d]); [by repeat constructor|done]|].
  intros J s st' _ _ _ [? ?]. split; [by eapply known_shape|done].
Qed.

Lemma call_Matrix d0 d1 x y : dim_has I st d0 x -> dim_has I st d1 y ->
  sound I (Matrix (of_dim d0) (of_dim d1)) st (fun J s st' => has J st' s [x; y]).
Proof.
  intros [O0 <-] [O1 <-]. apply (sound_ext _ _ (MakeShape [d0; d1])).
  { unfold Matrix, MakeShapeOf. rewrite !mapM_cons. unfold mbind, M_bind. by rewrite !MakeDim_of_dim by done. }
  eapply sound_mono; [apply (sound_MakeShape st W I HM [d0; d1]); [by repeat constructor|done]|].
  intros J s st' _ _ _ [? ?]. split; [by eapply known_shape|done].
Qed.

(** Parts of a shape *)
Lemma call_part s l start stop k : has I st s l -> Z.of_nat (length l) < kint32max ->
  ~ subshape_refused l start stop 1 -> py_slice l start stop 1 = k ->
  sound I (r ← Rank s; SubshapeRange (Z.to_nat r) s start stop) st (fun J s' st' => has J st' s' k).
Proof.
  intros [Hs E] Hlen Hr <-. eapply sound_read; [by apply Rank_ok|]. unfold kint32max, i32_max in Hlen.
  apply sound_Subshape; try done; [lia|]. intros [ds K]. unfold rankv. rewrite K.
  rewrite <- E. unfold sI. rewrite K, length_map. lia.
Qed.

Lemma call_prefix s a b stop : has I st s (a ++ b) -> Z.of_nat (length (a ++ b)) < kint32max ->
  stop = Z.of_nat (length a) \/ (b <> [] /\ stop = - Z.of_nat (length b)) ->
  sound I (Subshape2 s 0 stop) st (fun J s' st' => has J st' s' a).
Proof.
  intros H Hlen Hstop. destruct (py_slice_prefix a b stop Hstop) as [E1 E2]. apply (call_part s (a ++ b)); [done|done| |done].
  unfold subshape_refused. change (0 <? 1) with true. rewrite E2. unfold py_start. rewrite length_app. simpl.
  case_if; rewrite length_app in *; lia.
Qed.

Lemma call_suffix s a b start : has I st s (a ++ b) -> Z.of_nat (length (a ++ b)) < kint32max ->
  start = Z.of_nat (length a) \/ (b <> [] /\ start = - Z.of_nat (length b)) ->
  sound I (Subshape1 s start) st (fun J s' st' => has J st' s' b).
Proof.
  intros H Hlen Hstart. unfold kint32max, i32_max in Hlen. destruct (py_slice_suffix a b start Hstart) as [E1 E2]; [lia|].
  apply (call_part s (a ++ b)); [done|done| |done]. unfold subshape_refused. change (0 <? 1) with true. unfold i64_max in *.
  rewrite length_app in *. destruct Hstart as [|[_ ?]]; lia.
Qed.
End Calls.

(** Runs the first call of a shape function. *)
Tactic Notation "call" uconstr(lem) "as" simple_intropattern(r) simple_intropattern(H) :=
  eapply sound_bind; [eapply lem; try eassumption|intros ? r ? ? ? ? ? H; cbv beta in *; transport].
Tactic Notation "read_input" hyp(Hin) := eapply sound_read; [by apply input_run; [|rewrite Hin]|].

(** ** Shape functions: the first output has the sizes [l]. *)
Definition delivers (I : interp) (fn : M unit) (st : t) (l : list Z) : Prop :=
  exists s st' J, fn st = (Ok tt, st') /\ wf st' /\ outputs_ st' = <[0%nat := s]> (outputs_ st)
    /\ agree st I J /\ models J st' /\ has J st' s l.

Section Delivers.
Context (st : t) (I : interp) (l : list Z).

(** Contexts that differ in what a shape function may change besides objects and merges *)
Lemma wf_outputs outs : wf st -> wf (set_outputs outs st).
Proof. intros [? ?]. by split. Qed.

Lemma models_outputs outs : models I st -> models I (set_outputs outs st).
Proof. intros [? ? ? ?]. by split. Qed.

Lemma deliver_output s : wf st -> models I st -> has I st s l -> outputs_ st <> [] -> delivers I (set_output 0 s) st l.
Proof.
  intros W HM Hs Ho. destruct (outputs_ st) as [|o outs] eqn:E; [done|].
  exists s, (set_outputs (s :: outs) st), I. split_and!; [|by apply wf_outputs|by rewrite E|done|by apply models_outputs|done].
  unfold set_output, gets, set_at, at_, modify, mbind, M_bind. rewrite E. simpl. done.
Qed.

End Delivers.

Section DeliverSteps.
Context (st : t) (I : interp) (l : list Z).

Lemma deliver_bind {A} (m : M A) k P : sound I m st P ->
  (forall J a st', grow st st' -> wf st' -> agree st I J -> models J st' -> P J a st' -> delivers J (k a) st' l) ->
  delivers I (m ≫= k) st l.
Proof.
  intros (a & st1 & J & E & G & W & Ag & HM & HP) Hk.
  destruct (Hk J a st1 G W Ag HM HP) as (s & st2 & K & E2 & W2 & Ho & Ag2 & HM2 & Hs).
  exists s, st2, K. unfold mbind, M_bind. rewrite E. split_and!; try done; [|by eapply agree_trans].
  by rewrite Ho, (proj1 (proj2 (grow_inputs _ _ G))).
Qed.

Lemma deliver_read {A} (m : M A) k a : m st = (Ok a, st) -> delivers I (k a) st l -> delivers I (m ≫= k) st l.
Proof. intros E. unfold delivers, mbind, M_bind. by rewrite E. Qed.

(** A function that computes the shape and sets it *)
Lemma deliver_out (out : M ShapeHandle) : sound I out st (fun J s st' => has J st' s l) -> outputs_ st <> [] ->
  delivers I (s ← out; set_output 0 s) st l.
Proof.
  intros HS Ho. eapply deliver_bind; [exact HS|]. intros J s st' G W' _ M' Hs. apply deliver_output; try done.
  by rewrite (proj1 (proj2 (grow_inputs _ _ G))).
Qed.

(** Reading a tensor marks it as requested. *)
Lemma deliver_tensor i k tn rq : 0 <= i -> input_tensors_ st !! Z.to_nat i = Some tn -> requested_input_tensor_ st !! Z.to_nat i = Some rq ->
  delivers I (k tn) (set_requested (<[Z.to_nat i := true]> (requested_input_tensor_ st)) (requested_input_tensor_as_partial_shape_ st) st) l ->
  delivers I (input_tensor i ≫= k) st l.
Proof.
  intros Hi Ht Hr (s & st' & J & E & H). exists s, st', J. split; [|exact H]. rewrite <- E.
  unfold input_tensor, request_input_tensor, gets, set_at, at_, modify, mbind, M_bind.
  destruct (Z.leb_spec 0 i); [|lia]. rewrite Hr. simpl. by rewrite Ht.
Qed.

Lemma requested_same r p : wf st -> models I st ->
  wf (set_requested r p st) /\ models I (set_requested r p st) /\ (forall s k, has I st s k -> has I (set_requested r p st) s k).
Proof. intros [? ?] [? ? ? ?]. split_and!; [by split|by split|done]. Qed.
End DeliverSteps.

(** ** [MatMulShape] *)

(** The sizes of an operand that may be transposed *)
Definition oriented (transposed : bool) (rows cols : Z) : list Z := if transposed then [cols; rows] else [rows; cols].

Lemma sound_MatMul_out st I s0 s1 l ta tb m k n :
  wf st -> models I st -> inputs_ st = s0 :: s1 :: l -> has I st s0 (oriented ta m k) -> has I st s1 (oriented tb k n) ->
  sound I (MatMul_out (Ok ta) (Ok tb)) st (fun J s st' => has J st' s [m; n]).
Proof.
  intros W HM Hin H0 H1. unfold MatMul_out.
  read_input Hin. call call_WithRank as a Ha; [by destruct ta|done|].
  read_input Hin. call call_WithRank as b Hb; [by destruct tb|done|].
  do 2 (eapply sound_read; [done|]).
  assert (forall (c : bool) d0 d1, (if c then Dim d0 d1 else Dim d0 (1 - d1)) = Dim d0 (if c then d1 else 1 - d1)) as Hif by by intros [].
  rewrite !(Hif _ _ 1), !(Hif _ _ 0).
  call (call_Dim m) as rows Hr; [by destruct ta|by destruct ta|].
  call (call_Dim n) as cols Hc; [by destruct tb|by destruct tb|].
  call (call_Dim k) as ia Hia; [by destruct ta|by destruct ta|].
  call (call_Dim k) as ib Hib; [by destruct tb|by destruct tb|].
  call call_MergeDim as d Hd. by apply call_Matrix.
Qed.

(** Matrices whose known inner sizes differ are refused. *)
Lemma MatMul_out_refused st s0 s1 l ta tb m0 k0 k1 n1 :
  wf st -> inputs_ st = s0 :: s1 :: l -> view st s0 = Some (oriented ta m0 k0) -> view st s1 = Some (oriented tb k1 n1) ->
  k0 <> kUnknownDim -> k1 <> kUnknownDim -> k0 <> k1 ->
  exists e st', MatMul_out (Ok ta) (Ok tb) st = (Err (Status e), st').
Proof.
  intros W Hin V0 V1 N0 N1 Hne.
  assert (forall s x y, view st s = Some [x; y] -> exists d0 d1, known st s = Some [d0; d1] /\ dimv st d0 = x /\ dimv st d1 = y
    /\ dim_ok st d0 /\ dim_ok st d1) as Hv.
  { intros s x y Hv. destruct (known st s) as [ds|] eqn:K; [|by rewrite (view_unknown _ _ K) in Hv].
    rewrite (view_known _ _ _ K) in Hv. destruct ds as [|d0 [|d1 [|]]]; simplify_eq/=. exists d0, d1.
    destruct (known_ok _ _ _ W K) as [F _]. apply Forall_cons in F as [? F]. by apply Forall_cons in F as [? _]. }
  destruct (Hv s0 (if ta then k0 else m0) (if ta then m0 else k0)) as (a0 & a1 & Ka & Va0 & Va1 & Oa0 & Oa1); [by destruct ta|].
  destruct (Hv s1 (if tb then n1 else k1) (if tb then k1 else n1)) as (b0 & b1 & Kb & Vb0 & Vb1 & Ob0 & Ob1); [by destruct tb|].
  unfold MatMul_out. unfold mbind at 1, M_bind at 1. rewrite (input_run st 0 s0) by (done || by rewrite Hin).
  unfold mbind at 1, M_bind at 1. rewrite (WithRank_same st s0 [a0; a1]) by done.
  unfold mbind at 1, M_bind at 1. rewrite (input_run st 1 s1) by (done || by rewrite Hin).
  unfold mbind at 1, M_bind at 1. rewrite (WithRank_same st s1 [b0; b1]) by done.
  unfold mbind, M_bind. simpl attr. unfold mret, M_ret.
  assert (forall i d, 0 <= i -> [a0; a1] !! Z.to_nat i = Some d -> Dim s0 i st = (Ok d, st)) as Da by (intros; by eapply Dim_known).
  assert (forall i d, 0 <= i -> [b0; b1] !! Z.to_nat i = Some d -> Dim s1 i st = (Ok d, st)) as Db by (intros; by eapply Dim_known).
  assert (forall d d', dim_ok st d -> dim_ok st d' -> dimv st d = k0 -> dimv st d' = k1 ->
    MergeDim d d' st = (Err (Status Shape.InvalidArgument), st)) as HMg.
  { intros d d' Od Od' <- <-. rewrite MergeDim_known by done. by destruct (Z.eqb_spec (dimv st d) (dimv st d')). }
  destruct ta, tb; cbv beta iota; repeat first [rewrite (Da 0 a0) by done|rewrite (Da 1 a1) by done|rewrite (Db 0 b0) by done|rewrite (Db 1 b1) by done];
    rewrite HMg by done; eauto.
Qed.

(** ** [BatchMatMulV2Shape] and [BatchMatMulShape] *)

Lemma lookup_oriented (batch : list Z) (transposed : bool) (rows cols : Z) i :
  let l := batch ++ oriented transposed rows cols in
  i = -1 \/ i = -2 -> 0 <= position (Z.of_nat (length l)) i
    /\ l !! Z.to_nat (position (Z.of_nat (length l)) i) = Some (if Bool.eqb transposed (i =? -1) then rows else cols).
Proof.
  intros l Hi. assert (length l = (length batch + 2)%nat) as Hl by (unfold l; rewrite length_app; by destruct transposed).
  unfold position. rewrite Hl. destruct Hi as [-> | ->]; simpl; (split; [lia|]).
  - replace (Z.to_nat _) with (length batch + 1)%nat by lia. unfold l. rewrite lookup_app_r by lia.
    replace (length batch + 1 - length batch)%nat with 1%nat by lia. by destruct transposed.
  - replace (Z.to_nat _) with (length batch + 0)%nat by lia. unfold l. rewrite lookup_app_r by lia.
    replace (length batch + 0 - length batch)%nat with 0%nat by lia. by destruct transposed.
Qed.

Lemma oriented_length batch transposed rows cols : Z.of_nat (length (batch ++ oriented transposed rows cols)) = Z.of_nat (length batch) + 2.
Proof. rewrite length_app. destruct transposed; simpl; lia. Qed.

Section Batches.
Context (st : t) (I : interp) (s0 s1 : ShapeHandle) (l : list ShapeHandle) (adj_x adj_y : bool) (ba bb : list Z) (m k n : Z).
Context (W : wf st) (HM : models I st) (Hin : inputs_ st = s0 :: s1 :: l).
Context (H0 : has I st s0 (ba ++ oriented adj_x m k)) (H1 : has I st s1 (bb ++ oriented adj_y k n)).
Context (La : Z.of_nat (length ba) + 2 < kint32max) (Lb : Z.of_nat (length bb) + 2 < kint32max).

Lemma sound_BatchMatMulV2_out : broadcastable [ba; bb] ->
  sound I (BatchMatMulV2_out (Ok adj_x) (Ok adj_y)) st (fun J s st' => has J st' s (numpy [ba; bb] ++ [m; n])).
Proof.
  intros Hb. unfold BatchMatMulV2_out. pose proof (oriented_length ba adj_x m k) as Ea. pose proof (oriented_length bb adj_y k n) as Eb.
  read_input Hin. call call_WithRankAtLeast as a Ha; [lia|done|].
  read_input Hin. call call_WithRankAtLeast as b Hb'; [lia|done|].
  do 2 (eapply sound_read; [done|]).
  call (call_Dim m) as rows Hr; [by destruct adj_x; apply lookup_oriented; tauto..|].
  call (call_Dim n) as cols Hc; [by destruct adj_y; apply lookup_oriented; tauto..|].
  call (call_Dim k) as ia Hia; [by destruct adj_x; apply lookup_oriented; tauto..|].
  call (call_Dim k) as ib Hib; [by destruct adj_y; apply lookup_oriented; tauto..|].
  call call_MergeDim as d Hd.
  call call_prefix as a_batch Hba; [lia|right; by destruct adj_x|].
  call call_prefix as b_batch Hbb; [lia|right; by destruct adj_y|].
  call call_Broadcast as batch Hbatch. call call_Matrix as mat Hmat.
  apply call_Concatenate; try done. unfold numpy. rewrite length_app, length_rev, length_map, length_seq, largest_two. simpl. lia.
Qed.

(** The older version does not broadcast: the batches have the same sizes. *)
Lemma sound_BatchMatMul_out : ba = bb ->
  sound I (BatchMatMul_out (Ok adj_x) (Ok adj_y)) st (fun J s st' => has J st' s (ba ++ [m; n])).
Proof.
  intros <-. unfold BatchMatMul_out. pose proof (oriented_length ba adj_x m k) as Ea. pose proof (oriented_length ba adj_y k n) as Eb.
  read_input Hin. call call_WithRankAtLeast as a Ha; [lia|done|].
  read_input Hin. call call_WithRankAtLeast as b Hb'; [lia|done|].
  do 2 (eapply sound_read; [done|]).
  call (call_Dim m) as rows Hr; [by destruct adj_x; apply lookup_oriented; tauto..|].
  call (call_Dim n) as cols Hc; [by destruct adj_y; apply lookup_oriented; tauto..|].
  call call_prefix as a_batch Hba; [lia|right; by destruct adj_x|].
  call call_prefix as b_batch Hbb; [lia|right; by destruct adj_y|].
  call call_Merge as batch Hbatch.
  call (call_Dim k) as ia Hia; [by destruct adj_x; apply lookup_oriented; tauto..|].
  call (call_Dim k) as ib Hib; [by destruct adj_y; apply lookup_oriented; tauto..|].
  call call_MergeDim as d Hd. call call_Matrix as mat Hmat.
  apply call_Concatenate; try done. rewrite length_app. simpl. lia.
Qed.
End Batches.

End ShapeFnsSpec.
