(* ===== verification/KernelShapes.v ===== *)
(** * Output sizes of windowed kernels ([core/framework/kernel_shape_util.cc])

    The sizes and paddings that a convolution or pooling kernel computes when
    it runs.  All quantities are [int64_t]: additions and products wrap, and
    divisions truncate.  [padding_before] and [padding_after] are read for
    explicit padding and returned otherwise. *)

From S2P Require Import Prelude TensorShape ShapeInference CommonShapeFns.

Import ShapeFns.

Module KernelShapes.

Record Windowed := mkWindowed { output_size : Z; padding_before : Z; padding_after : Z }.

Definition GetWindowedOutputSizeVerboseV2 (input_size filter_size dilation_rate stride : Z) (padding_type : Padding)
    (padding_before padding_after : Z) : res Shape.code Windowed :=
  if stride <=? 0 then Err Shape.InvalidArgument
  else if dilation_rate <? 1 then Err Shape.InvalidArgument
  else
    let effective_filter_size := wrap_i64 (wrap_i64 (wrap_i64 (filter_size - 1) * dilation_rate) + 1) in
    let r :=
      match padding_type with
      | VALID => mkWindowed (Z.quot (wrap_i64 (wrap_i64 (input_size - effective_filter_size) + stride)) stride) 0 0
      | EXPLICIT =>
          mkWindowed
            (Z.quot (wrap_i64 (wrap_i64 (wrap_i64 (wrap_i64 (input_size + padding_before) + padding_after)
                                         - effective_filter_size) + stride)) stride)
            padding_before padding_after
      | SAME =>
          let output_size := Z.quot (wrap_i64 (wrap_i64 (input_size + stride) - 1)) stride in
          let padding_needed :=
            Z.max 0 (wrap_i64 (wrap_i64 (wrap_i64 (wrap_i64 (output_size - 1) * stride) + effective_filter_size) - input_size)) in
          mkWindowed output_size (Z.quot padding_needed 2) (wrap_i64 (padding_needed - Z.quot padding_needed 2))
      end in
    if output_size r <? 0 then Err Shape.InvalidArgument else Ok r.

Definition GetWindowedOutputSizeVerbose (input_size filter_size stride : Z) (padding_type : Padding)
    (padding_before padding_after : Z) : res Shape.code Windowed :=
  GetWindowedOutputSizeVerboseV2 input_size filter_size 1 stride padding_type padding_before padding_after.

(** The functions that do not take explicit paddings return the output size and the padding before; [uninit] is
    the content of the variables that receive the paddings, which is not read. *)
Definition first_padding (r : res Shape.code Windowed) : res Shape.code (Z * Z) :=
  match r with Ok r => Ok (output_size r, padding_before r) | Err c => Err c end.
Definition GetWindowedOutputSize (uninit input_size filter_size stride : Z) (padding_type : Padding) : res Shape.code (Z * Z) :=
  match padding_type with
  | EXPLICIT => Err Shape.Internal
  | _ => first_padding (GetWindowedOutputSizeVerbose input_size filter_size stride padding_type uninit uninit)
  end.
Definition GetWindowedOutputSizeV2 (uninit input_size filter_size dilation_rate stride : Z) (padding_type : Padding) :
    res Shape.code (Z * Z) :=
  match padding_type with
  | EXPLICIT => Err Shape.Internal
  | _ => first_padding (GetWindowedOutputSizeVerboseV2 input_size filter_size dilation_rate stride padding_type uninit uninit)
  end.

(** [Get3dOutputSize] and [Get3dOutputSizeV2]: one dimension after the other, up to the first that is refused *)
Fixpoint all_sizes (l : list (res Shape.code (Z * Z))) : res Shape.code (list (Z * Z)) :=
  match l with
  | [] => Ok []
  | Err c :: _ => Err c
  | Ok r :: l' => match all_sizes l' with Ok rs => Ok (r :: rs) | Err c => Err c end
  end.
Definition Get3dOutputSize (uninit : Z) (input window strides : list Z) (padding_type : Padding) : res Shape.code (list (Z * Z)) :=
  all_sizes (zip_with (fun '(i, w) s => GetWindowedOutputSize uninit i w s padding_type) (zip input window) strides).
Definition Get3dOutputSizeV2 (uninit : Z) (input window dilations strides : list Z) (padding_type : Padding) :
    res Shape.code (list (Z * Z)) :=
  all_sizes (zip_with (fun '(i, w) '(d, s) => GetWindowedOutputSizeV2 uninit i w d s padding_type) (zip input window) (zip dilations strides)).

End KernelShapes.
