(* ===== verification/ShapeFnsConcat.v ===== *)
(** * Shape functions: concatenation

    [ConcatShapeHelper] for the sizes of an execution: inputs [a ++ m_i :: c],
    concatenated at the dimension after [a]. *)

From S2P Require Import Prelude TensorShape ShapeInference InferenceSpec InferenceMerge InferenceArith InferenceShapes CommonShapeFns ShapeFnsSpec KernelShapes.

Import Inference InferenceSpec InferenceMerge InferenceArith InferenceShapes ShapeFns ShapeFnsSpec.

Module ShapeFnsConcat.

Lemma Forall2_rev {A B} (P : A -> B -> Prop) l k : Forall2 P l k -> Forall2 P (rev l) (rev k).
Proof. intros H. rewrite !rev_alt. by apply Forall2_reverse. Qed.

Section Concat.
Context (a c : list Z) (concat_dim : Z).
Context (Hdim : concat_dim = Z.of_nat (length a) \/ concat_dim = - Z.of_nat (S (length c))).
Context (Hrank : Z.of_nat (length a + S (length c)) < kint32max).

Abbreviation min_rank := (if concat_dim <? 0 then wrap_i64 (- concat_dim) else wrap_i64 (concat_dim + 1)).

Lemma dims_length m : length (a ++ m :: c) = (length a + S (length c))%nat.
Proof. by rewrite length_app. Qed.

Lemma min_rank_le m : min_rank <= Z.of_nat (length (a ++ m :: c)) /\ min_rank <= kint32max.
Proof.
  rewrite dims_length. unfold kint32max, i32_max in *.
  destruct (Z.ltb_spec concat_dim 0); rewrite wrap_i64_id by (unfold in_i64; lia); lia.
Qed.

Definition parts_have (m : Z) (J : interp) (p : ShapeHandle * DimensionHandle * ShapeHandle) (st' : t) : Prop :=
  has J st' p.1.1 a /\ dim_has J st' p.1.2 m /\ has J st' p.2 c.

(** The inputs at the positions [l] *)
Definition at_inputs (ins : list ShapeHandle) (l : list Z) (ss : list ShapeHandle) : Prop :=
  Forall2 (fun i s => 0 <= i /\ ins !! Z.to_nat i = Some s) l ss.

Lemma sound_split_input st I ins i s m : wf st -> models I st -> inputs_ st = ins -> 0 <= i -> ins !! Z.to_nat i = Some s ->
  has I st s (a ++ m :: c) -> sound I (split_input i concat_dim min_rank) st (parts_have m).
Proof.
  intros W HM Hins Hi Hs Hh. destruct (min_rank_le m) as [Hm1 Hm2]. pose proof (dims_length m) as Hl. unfold split_input.
  eapply sound_read; [by apply (input_run _ _ s); [|rewrite Hins]|]. call call_WithRankAtLeast as s' Hs'.
  call call_prefix as before Hb; [lia|destruct Hdim; [by left|right; simpl; split; [done|lia]]|].
  call (call_Dim m) as middle Hmid.
  { unfold position. rewrite Hl. case_if; lia. }
  { unfold position. rewrite Hl. replace (Z.to_nat _) with (length a + 0)%nat by (case_if; lia). by rewrite list_lookup_middle by lia. }
  eapply (sound_bind _ _ _ _ (fun J r st' => has J st' r c)).
  - destruct (Z.eqb_spec concat_dim (-1)) as [E|E].
    + destruct c; [by apply call_Scalar|simpl in Hdim; lia].
    + unfold kint32max, i32_max in Hrank. rewrite wrap_i64_id by (unfold in_i64; lia).
      eapply call_suffix with (a := a ++ [m]) (b := c) (s := s'); try done.
      * by rewrite <- app_assoc.
      * rewrite <- app_assoc. simpl. unfold kint32max, i32_max. lia.
      * rewrite length_app. simpl. destruct Hdim; [left; lia|right]. split; [|lia]. destruct c; [simpl in *; lia|done].
  - intros ? after ? ? ? ? ? Ha. transport. by apply sound_ret.
Qed.

Context (sz : Z -> Z).
Definition total (l : list Z) : Z := foldr (fun i x => sz i + x) 0 l.

Lemma total_app l k : total (l ++ k) = total l + total k.
Proof. induction l as [|i l IH]; simpl; [done|]. rewrite IH. lia. Qed.

Lemma total_rev l : total (rev l) = total l.
Proof. induction l as [|i l IH]; simpl; [done|]. rewrite total_app, IH. simpl. lia. Qed.

Lemma total_nonneg l : Forall (fun i => 0 <= sz i) l -> 0 <= total l.
Proof. induction 1; simpl; lia. Qed.

Lemma sound_concat_loop ins ss l : forall st I before middle after x, wf st -> models I st -> inputs_ st = ins ->
  at_inputs ins l ss -> all_have I st ss (map (fun i => a ++ sz i :: c) l) ->
  has I st before a -> dim_has I st middle x -> has I st after c -> Forall (fun i => 0 <= sz i) l -> x + total l < 2 ^ 63 ->
  sound I (concat_loop concat_dim min_rank before middle after l) st (parts_have (x + total l)).
Proof.
  revert ss. induction l as [|i l IH]; intros ss st I before middle after x W HM Hins Hat Hall Hb Hm Ha Hsz Hlt; simpl in *.
  { apply sound_ret; [done|done|]. split_and!; try done. by replace (x + 0) with x by lia. }
  inversion Hat as [|? s ? ss' [Hi Hs] Hat']; subst ss. apply Forall2_cons in Hall as [Hh Hall].
  apply Forall_cons in Hsz as [Hz Hsz]. pose proof (total_nonneg l Hsz).
  call sound_split_input as ((b, m), f) (Hb' & Hm' & Ha'). simpl in *.
  call call_Merge as before' Hb2. call call_Add as middle' Hm2; [lia|]. call call_Merge as after' Ha2.
  rewrite Z.add_assoc. eapply IH; try done. lia.
Qed.

(** All inputs, at the positions from [start] on *)
Context (st : t) (I : interp) (W : wf st) (HM : models I st) (ins ss : list ShapeHandle) (start : Z) (n : nat) (Hn : (0 < n)%nat).
Abbreviation positions := (seqZ start (Z.of_nat n)).
Context (Hins : inputs_ st = ins) (Hat : at_inputs ins positions ss) (Hall : all_have I st ss (map (fun i => a ++ sz i :: c) positions)).
Context (Htotal : total positions < 2 ^ 63).

Lemma sizes_nonneg : Forall (fun i => 0 <= sz i) positions.
Proof.
  apply list.Forall_forall. intros i Hi. apply list_elem_of_lookup in Hi as (j & Hj).
  destruct (Forall2_lookup_r _ _ _ j (a ++ sz i :: c) Hall) as (s & _ & Hs & E); [by rewrite list_lookup_fmap, Hj|].
  pose proof (sI_size I st s W HM Hs) as F. rewrite E in F. apply Forall_app in F as [_ F]. apply Forall_cons in F as [F _]. apply F.
Qed.

Lemma sound_concat_known :
  sound I (concat_known start (start + Z.of_nat n) concat_dim) st (fun J s st' => has J st' s (a ++ total positions :: c)).
Proof.
  pose proof sizes_nonneg as Hnn. unfold concat_known.
  assert (positions = seqZ start (start + Z.of_nat n - 1 - start) ++ [start + Z.of_nat n - 1]) as Hp.
  { replace (Z.of_nat n) with (Z.of_nat n - 1 + 1) at 1 by lia. rewrite seqZ_app by lia.
    f_equal; [f_equal; lia|]. rewrite seqZ_cons by lia. simpl. f_equal. lia. }
  set (front := seqZ start (start + Z.of_nat n - 1 - start)) in *. set (last := start + Z.of_nat n - 1) in *.
  rewrite Hp in *. rewrite total_app in *. simpl in *. apply Forall_app in Hnn as [Hnf Hnl]. rewrite map_app in Hall.
  apply Forall2_app_inv_r in Hall as (ssf & ssl & Hf & Hl & Ess). apply Forall2_cons_inv_r in Hl as (sl & ? & Hsl & ->%Forall2_nil_inv_r & ->).
  rewrite Ess in Hat. apply Forall2_app_inv in Hat as [Hatf Hatl]; [|by apply Forall2_length in Hf; rewrite length_map in Hf].
  apply Forall2_cons in Hatl as [[Hi Hl] _].
  apply Forall2_rev in Hf, Hatf. rewrite <- map_rev in Hf. pose proof (total_rev front) as Hrev.
  call sound_split_input as ((b, m), f) (Hb' & Hm' & Ha'). simpl in *.
  eapply (sound_bind _ _ _ _ (parts_have (sz last + total (rev front)))).
  { eapply sound_concat_loop; try eassumption; [by apply List.Forall_rev|lia]. }
  intros ? ((b', m'), f') ? ? ? ? ? (Hb2 & Hm2 & Ha2). simpl in *. transport.
  call call_Vector as v Hv. call call_Concatenate as s Hs; [rewrite length_app; simpl; lia|].
  replace (a ++ total front + (sz last + 0) :: c) with ((a ++ [sz last + total (rev front)]) ++ c)
    by (rewrite <- app_assoc; simpl; do 2 f_equal; lia).
  apply call_Concatenate; try done. rewrite <- app_assoc, length_app. simpl. lia.
Qed.

(** Without the position, all that is known is the rank. *)
Lemma sound_first_rank l ss' : at_inputs ins l ss' -> all_have I st ss' (map (fun i => a ++ sz i :: c) l) ->
  exists r, first_rank l st = (Ok r, st) /\ (r = kUnknownRank \/ r = Z.of_nat (length a + S (length c))).
Proof.
  intros Hat'. revert l Hat'. induction ss' as [|s ss' IH]; intros l Hat' Hall'; inversion Hat' as [|i ? ? ? [Hi Hs] Hat2]; subst.
  { exists kUnknownRank. by split; [|left]. }
  simpl in Hall'. apply Forall2_cons in Hall' as [[Hok E] Hall']. simpl. unfold mbind at 1, M_bind at 1. rewrite (input_run _ _ s) by done.
  unfold mbind at 1, M_bind at 1. rewrite Rank_ok by done. destruct (Z.eqb_spec (rankv st s) kUnknownRank) as [Er|Er]; simpl.
  - by apply IH.
  - eexists. split; [done|]. right. unfold rankv in *. destruct (known st s) as [ds|] eqn:K; [|done].
    unfold sI in E. rewrite K in E. apply (f_equal length) in E. rewrite length_map, dims_length in E. lia.
Qed.

Lemma sound_concat_unknown :
  sound I (concat_unknown start (start + Z.of_nat n)) st (fun J s st' => has J st' s (a ++ total positions :: c)).
Proof.
  unfold concat_unknown. replace (start + Z.of_nat n - start) with (Z.of_nat n) by lia.
  destruct (sound_first_rank positions ss Hat Hall) as (r & E & Hr). eapply sound_read; [exact E|].
  assert (Forall size (a ++ total positions :: c)) as Hsz.
  { pose proof (total_nonneg _ sizes_nonneg). destruct (lookup_lt_is_Some_2 positions 0) as [i Hi]; [rewrite length_seqZ; lia|].
    destruct (Forall2_lookup_r _ _ _ 0%nat (a ++ sz i :: c) Hall) as (s & _ & Hs & Es); [by rewrite list_lookup_fmap, Hi|].
    pose proof (sI_size I st s W HM Hs) as F. rewrite Es in F. apply Forall_app in F as [Fa F]. apply Forall_cons in F as [_ Fc].
    apply Forall_app. split; [done|]. apply Forall_cons. unfold size. split; [lia|done]. }
  destruct Hr as [-> | ->].
  { eapply sound_mono; [by apply (sound_UnknownShape st W I HM)|]. by intros J s st' _ _ _ (? & _ & ?). }
  destruct (Z.eqb_spec (Z.of_nat (length a + S (length c))) kUnknownRank); [unfold kUnknownRank in *; lia|].
  destruct (Z.eqb_spec (Z.of_nat (length a + S (length c))) 0); [lia|].
  call (sound_mapM _ _ _ _ (fun _ _ _ _ => True)) as us _; [done|..].
  { intros i st' J Hi G W' A M'. apply list_elem_of_lookup in Hi as (j & Hj).
    destruct (Forall2_lookup_l _ _ _ j i Hat Hj) as (s & Hs & Hi & Hsi).
    pose proof (Forall2_lookup_lr _ _ _ j s (a ++ sz i :: c) Hall Hs ltac:(by rewrite list_lookup_fmap, Hj)) as Hh.
    eapply sound_read; [apply (input_run _ _ s); [done|by rewrite (proj1 (grow_inputs _ _ G)), Hins]|].
    eapply sound_mono; [|done]. eapply (call_WithRank st' W' J M' s (a ++ sz i :: c)); [by apply (has_grow st st' I J)|by rewrite dims_length|lia]. }
  rewrite <- (dims_length (total positions)). call sound_unknown_dims as ds (Fd & Ed).
  eapply sound_mono; [apply sound_MakeShape; try eassumption|].
  - apply (f_equal length) in Ed. rewrite length_map, dims_length in Ed. lia.
  - intros J' s st'' _ _ _ [? ?]. split; [by eapply known_shape|congruence].
Qed.
End Concat.

(** What is known of the position, a scalar of type int32 or int64 *)
Definition concat_tensor (concat_dim : Z) (tn : option Tensor) : Prop :=
  match tn with
  | None => True
  | Some v => (tensor_dtype v = DT_INT32 \/ tensor_dtype v = DT_INT64) /\ flat v = [concat_dim]
  end.

Lemma deliver_concat a c concat_dim sz st I ins ss start n dim_index sd tn rq :
  concat_dim = Z.of_nat (length a) \/ concat_dim = - Z.of_nat (S (length c)) -> Z.of_nat (length a + S (length c)) < kint32max ->
  wf st -> models I st -> (0 < n)%nat -> inputs_ st = ins -> at_inputs ins (seqZ start (Z.of_nat n)) ss ->
  all_have I st ss (map (fun i => a ++ sz i :: c) (seqZ start (Z.of_nat n))) -> total sz (seqZ start (Z.of_nat n)) < 2 ^ 63 ->
  0 <= dim_index -> ins !! Z.to_nat dim_index = Some sd -> has I st sd [] -> outputs_ st <> [] ->
  input_tensors_ st !! Z.to_nat dim_index = Some tn -> requested_input_tensor_ st !! Z.to_nat dim_index = Some rq -> concat_tensor concat_dim tn ->
  delivers I (ConcatShapeHelper start (start + Z.of_nat n) dim_index) st (a ++ total sz (seqZ start (Z.of_nat n)) :: c).
Proof.
  intros Hdim Hrank W HM Hn Hins Hat Hall Ht Hi Hsd Hd Ho Htn Hrq Hct. unfold ConcatShapeHelper.
  eapply deliver_read; [by apply (input_run _ _ sd); [|rewrite Hins]|].
  eapply deliver_bind; [by apply (call_WithRank st W I HM sd [])|]. intros J s st1 G1 W1 A1 M1 _.
  destruct (grow_inputs _ _ G1) as (Ei & Eo & Et).
  assert (requested_input_tensor_ st1 = requested_input_tensor_ st) as Er by (by destruct G1 as (? & ? & ? & ? & ->)).
  eapply (deliver_tensor _ _ _ _ _ tn); [done|by rewrite Et|by rewrite Er|].
  set (st2 := set_requested _ _ st1). destruct (requested_same st1 J (<[Z.to_nat dim_index := true]> (requested_input_tensor_ st1))
    (requested_input_tensor_as_partial_shape_ st1) W1 M1) as (W2 & M2 & Hh). fold st2 in W2, M2, Hh.
  assert (all_have J st2 ss (map (fun i => a ++ sz i :: c) (seqZ start (Z.of_nat n)))) as Hall2.
  { eapply Forall2_impl; [exact (all_have_grow _ _ _ _ _ _ W G1 A1 Hall)|]. intros. by apply Hh. }
  assert (inputs_ st2 = ins) as Hins2 by (simpl; by rewrite Ei). assert (outputs_ st2 <> []) as Ho2 by (simpl; by rewrite Eo).
  destruct tn as [v|].
  - destruct Hct as [Hty Hfl]. eapply (deliver_read _ _ _ _ _ concat_dim).
    { rewrite Hfl. by destruct Hty as [-> | ->]. }
    apply deliver_out; [|done]. by eapply sound_concat_known.
  - apply deliver_out; [|done]. by eapply sound_concat_unknown.
Qed.

(** The sizes as a list *)
Definition sum (ms : list Z) : Z := foldr Z.add 0 ms.

Definition size_of (start : Z) (ms : list Z) (i : Z) : Z := nth (Z.to_nat (i - start)) ms 0.

Lemma sizes_map start ms : map (size_of start ms) (seqZ start (Z.of_nat (length ms))) = ms.
Proof.
  apply (nth_ext _ _ 0 0); rewrite length_map, length_seqZ, Nat2Z.id; [done|]. intros j Hj.
  rewrite !nth_lookup, list_lookup_fmap, lookup_seqZ_lt by lia. simpl. unfold size_of.
  replace (Z.to_nat _) with j by lia. by rewrite nth_lookup.
Qed.

Lemma total_sum sz l : total sz l = sum (map sz l).
Proof. induction l as [|i l IH]; simpl; [done|]. by rewrite IH. Qed.

Lemma at_inputs_segment pre ss post : at_inputs (pre ++ ss ++ post) (seqZ (Z.of_nat (length pre)) (Z.of_nat (length ss))) ss.
Proof.
  apply Forall2_same_length_lookup_2; [rewrite length_seqZ; lia|]. intros j i s Hi Hs. apply lookup_seqZ in Hi as [-> Hj].
  split; [lia|]. apply lookup_lt_Some in Hs as Hlt. rewrite lookup_app_r by lia.
  replace (Z.to_nat _ - length pre)%nat with j by lia. by rewrite lookup_app_l by lia.
Qed.

(** The inputs of the op and what is known of the position, at input [d] *)
Record concat_inputs (a c : list Z) (concat_dim : Z) (I : interp) (st : t) (ss : list ShapeHandle) (ms : list Z) (d : nat) : Prop := {
  concat_at : concat_dim = Z.of_nat (length a) \/ concat_dim = - Z.of_nat (S (length c));
  concat_rank : Z.of_nat (length a + S (length c)) < kint32max;
  concat_sizes : all_have I st ss (map (fun m => a ++ m :: c) ms);
  concat_some : ms <> [];
  concat_total : sum ms < 2 ^ 63;
  concat_scalar : exists sd, inputs_ st !! d = Some sd /\ has I st sd [];
  concat_value : exists tn, input_tensors_ st !! d = Some tn /\ concat_tensor concat_dim tn;
  concat_requested : (d < length (requested_input_tensor_ st))%nat;
  concat_output : outputs_ st <> []
}.

Lemma deliver_segment a c concat_dim I st pre ss post ms d : wf st -> models I st ->
  concat_inputs a c concat_dim I st ss ms d -> inputs_ st = pre ++ ss ++ post ->
  delivers I (ConcatShapeHelper (Z.of_nat (length pre)) (Z.of_nat (length pre) + Z.of_nat (length ss)) (Z.of_nat d)) st (a ++ sum ms :: c).
Proof.
  intros W HM [Hdim Hr Hs Hne Ht (sd & Hsd & Hh) (tn & Htn & Hct) Hrq Ho] Hin.
  pose proof (Forall2_length _ _ _ Hs) as El. rewrite length_map in El.
  destruct (lookup_lt_is_Some_2 _ _ Hrq) as [rq Hrq'].
  pose proof (at_inputs_segment pre ss post) as Hat. rewrite El in *.
  pose proof (sizes_map (Z.of_nat (length pre)) ms) as Em.
  assert (sum ms = total (size_of (Z.of_nat (length pre)) ms) (seqZ (Z.of_nat (length pre)) (Z.of_nat (length ms)))) as Es
    by by rewrite total_sum, Em.
  rewrite Es in *. rewrite <- Em, map_map in Hs.
  rewrite Hin in Hsd. eapply deliver_concat with (sd := sd) (tn := tn); try rewrite Nat2Z.id; try eassumption; [|lia].
  destruct ms; [done|simpl; lia].
Qed.

Lemma deliver_ConcatV2 a c concat_dim I st ss sd ms : wf st -> models I st -> inputs_ st = ss ++ [sd] ->
  concat_inputs a c concat_dim I st ss ms (length ss) -> delivers I ConcatV2Shape st (a ++ sum ms :: c).
Proof.
  intros W HM Hin Hc. pose proof (deliver_segment a c concat_dim I st [] ss [sd] ms _ W HM Hc Hin) as H. simpl in H.
  unfold ConcatV2Shape. eapply deliver_read; [done|]. rewrite Hin, length_app. simpl.
  by replace (Z.of_nat (length ss + 1) - 1) with (Z.of_nat (length ss)) by lia.
Qed.

Lemma deliver_Concat a c concat_dim I st ss sd ms : wf st -> models I st -> inputs_ st = sd :: ss ->
  concat_inputs a c concat_dim I st ss ms 0 -> delivers I (ConcatShape (Z.of_nat (length ss))) st (a ++ sum ms :: c).
Proof.
  intros W HM Hin Hc. apply (deliver_segment a c concat_dim I st [sd] ss [] ms _ W HM Hc). by rewrite app_nil_r.
Qed.

End ShapeFnsConcat.

(** ** Reductions: [ReductionShape] for the sizes of an execution *)

Module ShapeFnsReduce.

(** The axis that an index, possibly negative, means *)
Definition axis (rank i : Z) : Z := if i <? 0 then i + rank else i.

(** The sizes [l] of the dimensions from [k] on, without those that are reduced, or with 1 for them *)
Fixpoint reduce (axes : list Z) (keep_dims : bool) (k : Z) (l : list Z) : list Z :=
  match l with
  | [] => []
  | x :: l' =>
      (if bool_decide (k ∈ axes) then if keep_dims then [1] else [] else [x]) ++ reduce axes keep_dims (k + 1) l'
  end.

Lemma reduce_keep_length axes k l : length (reduce axes true k l) = length l.
Proof. revert k. induction l as [|x l IH]; intros k; simpl; [done|]. rewrite length_app, IH. by case_bool_decide. Qed.

Lemma reduce_length axes keep k l : (length (reduce axes keep k l) <= length l)%nat.
Proof. revert k. induction l as [|x l IH]; intros k; simpl; [done|]. rewrite length_app. specialize (IH (k + 1)). case_bool_decide; destruct keep; simpl; lia. Qed.

Lemma reduce_size axes keep k l : Forall size l -> Forall size (reduce axes keep k l).
Proof.
  intros H. revert k. induction H as [|x l Hx H IH]; intros k; simpl; [done|]. apply Forall_app. split; [|done].
  assert (size 1) by (unfold size; lia). case_bool_decide; [destruct keep|]; repeat (apply Forall_cons; split); done.
Qed.

(** Indices in range are turned into axes, others are refused. *)
Lemma ReductionShapeHelper_run st indices rank :
  ReductionShapeHelper indices rank st =
    if forallb (fun i => (- rank <=? i) && (i <? rank)) indices then (Ok (map (axis rank) indices), st)
    else (Err (Status Shape.InvalidArgument), st).
Proof.
  induction indices as [|i indices IH]; simpl; [done|].
  destruct (Z.ltb_spec i (- rank)), (Z.leb_spec rank i), (Z.leb_spec (- rank) i), (Z.ltb_spec i rank); simpl; try done; try lia.
  unfold mbind, M_bind. rewrite IH. by destruct (forallb _ indices).
Qed.

Lemma sound_reduce_dims axes keep s l : forall rest k st I, wf st -> models I st -> has I st s l -> drop k l = rest ->
  sound I (reduce_dims s axes keep (seqZ (Z.of_nat k) (Z.of_nat (length rest)))) st (fun J ds st' =>
    Forall (dim_ok st') ds /\ map (dI J) ds = reduce axes keep (Z.of_nat k) rest).
Proof.
  intros rest. induction rest as [|x rest IH]; intros k st I W HM Hs Hd; [by apply sound_ret|].
  apply drop_next in Hd as [Hx Hd]. pose proof (lookup_lt_Some _ _ _ Hx) as Hlt. simpl length. rewrite seqZ_cons by lia.
  replace (Z.succ (Z.of_nat k)) with (Z.of_nat (S k)) by lia. replace (Z.pred (Z.of_nat (S (length rest)))) with (Z.of_nat (length rest)) by lia.
  cbn [reduce_dims reduce]. replace (Z.of_nat k + 1) with (Z.of_nat (S k)) by lia.
  assert (forall y (m : M DimensionHandle), sound I m st (fun J d st' => dim_has J st' d y) ->
    sound I (d ← m; rest' ← reduce_dims s axes keep (seqZ (Z.of_nat (S k)) (Z.of_nat (length rest))); mret (d :: rest')) st
      (fun J ds st' => Forall (dim_ok st') ds /\ map (dI J) ds = y :: reduce axes keep (Z.of_nat (S k)) rest)) as Hcons.
  { intros y m Hm. eapply sound_bind; [exact Hm|]. intros ? d ? ? ? ? ? Hdim. cbv beta in Hdim. transport.
    call (IH (S k)) as ds (Fd & Ed). destruct Hdim. apply sound_ret; [done|done|]. split; [by constructor|simpl; congruence]. }
  case_bool_decide; [destruct keep|].
  - apply Hcons. eapply sound_mono; [by apply (sound_MakeDim st W I HM 1 1)|]. by intros ? ? ? _ _ _ (? & _ & ?).
  - by apply IH.
  - apply Hcons. eapply call_Dim; try done; unfold position; (destruct (Z.ltb_spec (Z.of_nat k) 0); [lia|]); [lia|by rewrite Nat2Z.id].
Qed.

(** The shape when the indices or the rank are not known *)
Lemma deliver_UnknownShapes I st l : wf st -> models I st -> Forall size l -> length (outputs_ st) = 1%nat ->
  delivers I UnknownShapes st l.
Proof.
  intros W HM Hl Ho. unfold UnknownShapes. eapply deliver_read; [done|]. rewrite Ho. change (upto (Z.of_nat 1)) with [0].
  assert (delivers I (s ← UnknownShape; set_output 0 s) st l) as (s & st' & J & E & H).
  { apply deliver_out; [|by destruct (outputs_ st)]. eapply sound_mono; [by apply (sound_UnknownShape st W I HM l)|].
    by intros ? ? ? _ _ _ (? & _ & ?). }
  exists s, st', J. split; [|exact H]. rewrite mapM_cons. unfold mbind at 1 2, M_bind at 1 2. by rewrite E.
Qed.

Lemma sound_UnknownShapeOfRank I st l : wf st -> models I st -> Forall size l -> Z.of_nat (length l) <= kint32max ->
  sound I (UnknownShapeOfRank (Z.of_nat (length l))) st (fun J s st' => has J st' s l).
Proof.
  intros W HM Hl Hlen. unfold UnknownShapeOfRank.
  destruct (Z.leb_spec (Z.of_nat (length l)) kint32max); [|lia]. eapply sound_read; [done|].
  destruct (Z.eqb_spec (Z.of_nat (length l)) kUnknownRank); [unfold kUnknownRank in *; lia|].
  destruct (Z.leb_spec 0 (Z.of_nat (length l))); [|lia]. eapply sound_read; [done|].
  call sound_unknown_dims as ds (Fd & Ed). pose proof (f_equal length Ed) as Hlen'. rewrite length_map in Hlen'.
  eapply sound_mono; [apply sound_MakeShape; try eassumption; lia|]. intros ? s ? _ _ _ [? ?]. split; [by eapply known_shape|congruence].
Qed.

(** What is known of the indices *)
Definition indices_tensor (indices : list Z) (tn : option Tensor) : Prop :=
  match tn with
  | None => True
  | Some v => (tensor_dtype v = DT_INT32 \/ tensor_dtype v = DT_INT64) /\ flat v = indices
  end.

(** The inputs of the op: an input with the sizes [l], and indices in range *)
Record reduce_inputs (I : interp) (st : t) (l indices : list Z) (version : Z) : Prop := {
  reduce_in : exists s s1 rest l1, inputs_ st = s :: s1 :: rest /\ has I st s l /\ has I st s1 l1 /\ (version < 21 \/ (length l1 <= 1)%nat);
  reduce_range : Forall (fun i => - Z.of_nat (length l) <= i < Z.of_nat (length l)) indices;
  reduce_value : exists tn, input_tensors_ st !! 1%nat = Some tn /\ indices_tensor indices tn;
  reduce_requested : (1 < length (requested_input_tensor_ st))%nat;
  reduce_output : length (outputs_ st) = 1%nat
}.

Section Finish.
Context (st : t) (I : interp) (W : wf st) (HM : models I st) (s : ShapeHandle) (l : list Z) (Hs : has I st s l).
Context (axes : list Z) (keep : bool) (Ho : length (outputs_ st) = 1%nat).

Lemma deliver_reduced ds : known st s = Some ds ->
  delivers I (dims ← reduce_dims s axes keep (upto (Z.of_nat (length l))); out ← MakeShape dims; set_output 0 out) st (reduce axes keep 0 l).
Proof.
  intros K. destruct (known_ok _ _ _ W K) as (_ & Hlen & _).
  assert (length l = length ds) as El by (destruct Hs as [_ <-]; unfold sI; by rewrite K, length_map).
  eapply deliver_bind; [by apply (sound_reduce_dims axes keep s l l 0 st I W HM Hs)|]. intros J dims st1 G1 W1 A1 M1 [Fd Ed].
  change (Z.of_nat 0) with 0 in Ed. destruct (grow_inputs _ _ G1) as (_ & Eo & _). apply deliver_out; [|rewrite Eo; by destruct (outputs_ st)].
  pose proof (f_equal length Ed) as Hl. rewrite length_map in Hl. pose proof (reduce_length axes keep 0 l).
  eapply sound_mono; [apply sound_MakeShape; try eassumption; lia|]. intros ? r ? _ _ _ [? ?]. split; [by eapply known_shape|congruence].
Qed.

(** The part after the indices are read *)
Lemma deliver_indices indices (tn : option Tensor) : axes = map (axis (Z.of_nat (length l))) indices ->
  Forall (fun i => - Z.of_nat (length l) <= i < Z.of_nat (length l)) indices -> indices_tensor indices tn ->
  delivers I
    (known ← RankKnown s;
     match tn with
     | Some tn =>
         if negb known then UnknownShapes
         else
           input_rank ← Rank s;
           true_indices ←
             (if (tensor_dtype tn =? DT_INT32) || (tensor_dtype tn =? DT_INT64)
              then ReductionShapeHelper (flat tn) input_rank else InvalidArgument);
           dims ← reduce_dims s true_indices keep (upto input_rank);
           out ← MakeShape dims;
           set_output 0 out
     | None =>
         if keep && known then r ← Rank s; out ← UnknownShapeOfRank r; set_output 0 out
         else UnknownShapes
     end) st (reduce axes keep 0 l).
Proof.
  intros Hax Hr Hct. destruct Hs as [Os Es].
  assert (Forall size (reduce axes keep 0 l)) as Hsz by (apply reduce_size; rewrite <- Es; by apply sI_size).
  assert (delivers I UnknownShapes st (reduce axes keep 0 l)) as HU by (by apply deliver_UnknownShapes).
  eapply deliver_read; [by apply RankKnown_ok|]. destruct (known st s) as [ds|] eqn:K.
  2:{ rewrite bool_decide_eq_false_2 by (by intros [? ?]). rewrite andb_false_r. by destruct tn. }
  rewrite bool_decide_eq_true_2 by eauto. rewrite andb_true_r. cbn [negb].
  assert (rankv st s = Z.of_nat (length l)) as Hrank by (unfold rankv; rewrite K, <- Es; unfold sI; by rewrite K, length_map).
  destruct tn as [v|].
  - destruct Hct as [Hty Hfl]. eapply deliver_read; [by apply Rank_ok|]. rewrite Hrank.
    eapply (deliver_read _ _ _ _ _ axes); [|by apply (deliver_reduced ds)].
    assert ((tensor_dtype v =? DT_INT32) || (tensor_dtype v =? DT_INT64) = true) as -> by (by destruct Hty as [-> | ->]).
    rewrite ReductionShapeHelper_run, Hfl, Hax. destruct (forallb _ indices) eqn:E; [done|].
    exfalso. apply not_true_iff_false in E. apply E, forallb_forall. intros i Hi%list_elem_of_In.
    rewrite list.Forall_forall in Hr. specialize (Hr i Hi). apply andb_true_iff. rewrite Z.leb_le, Z.ltb_lt. lia.
  - destruct keep eqn:Ek; [|done]. eapply deliver_read; [by apply Rank_ok|]. rewrite Hrank.
    apply deliver_out; [|by destruct (outputs_ st)]. destruct (known_ok _ _ _ W K) as (_ & Hlen & _).
    rewrite <- (reduce_keep_length axes 0 l) at 1. apply sound_UnknownShapeOfRank; try done. rewrite reduce_keep_length.
    unfold rankv in Hrank. rewrite K in Hrank. lia.
Qed.
End Finish.

Lemma deliver_Reduction st I l indices version keep : wf st -> models I st -> reduce_inputs I st l indices version ->
  delivers I (ReductionShape version (Ok keep)) st (reduce (map (axis (Z.of_nat (length l))) indices) keep 0 l).
Proof.
  intros W HM [(s & s1 & rest & l1 & Hin & Hs & Hs1 & Hv) Hr (tn & Htn & Hct) Hrq Ho]. unfold ReductionShape.
  eapply deliver_read; [by apply (input_run _ _ s); [|rewrite Hin]|].
  eapply deliver_read; [by apply (input_run _ _ s1); [|rewrite Hin]|].
  eapply (deliver_bind _ _ _ _ _ (fun J _ st' => J = I /\ st' = st)).
  { destruct (Z.ltb_spec version 21); [by apply sound_ret|]. destruct Hs1 as [O1 E1].
    eapply sound_mono; [apply (sound_WithRankAtMost st W s1 O1 I 1 HM); [rewrite E1; lia|done]|]. by intros ? ? ? _ _ _ (? & _ & ?). }
  intros J _ st' _ _ _ _ [-> ->]. eapply deliver_read; [done|]. destruct (lookup_lt_is_Some_2 _ _ Hrq) as [rq Hrq'].
  eapply (deliver_tensor _ _ _ 1 _ tn rq); [done|done|done|].
  destruct (requested_same st I (<[Z.to_nat 1 := true]> (requested_input_tensor_ st)) (requested_input_tensor_as_partial_shape_ st) W HM) as (W2 & M2 & Hh).
  by eapply (deliver_indices _ _ W2 M2 s l (Hh _ _ Hs)).
Qed.

End ShapeFnsReduce.

(** ** Windows: [GetWindowedOutputSizeFromDimsV2] against the kernels' own computation
    ([GetWindowedOutputSizeVerboseV2]) and against the number of windows *)

Import KernelShapes.

Module ShapeFnsWindow.

Section Window.
Context (x y dilation stride pb pa : Z) (padding : Padding).

(** The extent of the dilated filter, and the size of the padded input *)
Definition extent : Z := (y - 1) * dilation + 1.
Definition padded : Z := match padding with EXPLICIT => x + pb + pa | _ => x end.

(** A stride, a dilation and paddings that make sense, and sizes far enough from the end of [int64_t] *)
Record window_ok : Prop := {
  window_stride : 0 < stride;
  window_dilation : 1 <= dilation < 2 ^ 63;
  window_input : 0 <= x;
  window_filter : 1 <= y;
  window_paddings : 0 <= pb /\ 0 <= pa;
  window_room : x + pb + pa + stride + extent < 2 ^ 63;
  window_fits : padding <> SAME -> extent <= padded
}.

(** The number of positions at which a window starts: with SAME at every multiple of the stride inside the input, and
    otherwise where the window lies inside the padded input. *)
Definition starts (k : Z) : Prop :=
  match padding with SAME => k * stride < x | _ => k * stride + extent <= padded end.

Definition windows : Z := match padding with SAME => (x + stride - 1) / stride | _ => (padded - extent + stride) / stride end.

Lemma windows_count k : window_ok -> 0 <= k -> k < windows <-> starts k.
Proof.
  intros [Hs Hd Hx Hy Hp Hr Hf] Hk. unfold windows, starts. assert (forall n, k < (n + stride) / stride <-> k * stride <= n) as H.
  { intros n. rewrite Z.lt_nge, <- Z.lt_nge. split; intros.
    - assert (k + 1 <= (n + stride) / stride) by lia. pose proof (Z.mul_div_le (n + stride) stride Hs). nia.
    - enough (k + 1 <= (n + stride) / stride) by lia. apply Z.div_le_lower_bound; nia. }
  destruct padding.
  - rewrite H. lia.
  - replace (x + stride - 1) with (x - 1 + stride) by lia. rewrite H. lia.
  - rewrite H. lia.
Qed.

Lemma windows_size : window_ok -> 0 <= windows /\ windows * stride <= padded + stride.
Proof.
  intros [Hs Hd Hx Hy Hp Hr Hf]. unfold windows, padded in *. assert (1 <= extent) by (unfold extent; nia).
  destruct padding; (split; [apply Z.div_pos|]);
    try (match goal with |- ?n / stride * stride <= _ => pose proof (Z.mul_div_le n stride Hs) end); try specialize (Hf ltac:(done)); try lia; nia.
Qed.

(** The kernel computes the number of windows; with SAME it pads as little as lets the last window fit, evenly on both
    sides, and the odd one after the input. *)
Definition paddings_ok (r : Windowed) : Prop :=
  match padding with
  | VALID => padding_before r = 0 /\ padding_after r = 0
  | EXPLICIT => padding_before r = pb /\ padding_after r = pa
  | SAME =>
      padding_before r + padding_after r = Z.max 0 ((windows - 1) * stride + extent - x)
      /\ padding_before r <= padding_after r <= padding_before r + 1
  end.

Lemma kernel_windows : window_ok -> exists r,
  GetWindowedOutputSizeVerboseV2 x y dilation stride padding pb pa = Ok r /\ output_size r = windows /\ paddings_ok r.
Proof.
  intros Hw. destruct (windows_size Hw) as [Hn Hm]. destruct Hw as [Hs Hd Hx Hy Hp Hr Hf].
  unfold GetWindowedOutputSizeVerboseV2. destruct (Z.leb_spec stride 0); [lia|]. destruct (Z.ltb_spec dilation 1); [lia|].
  assert (1 <= extent) as He by (unfold extent; nia). assert ((y - 1) * dilation = extent - 1) as Em by (unfold extent; lia).
  assert (y - 1 <= extent) by nia.
  rewrite (wrap_i64_id (y - 1)), Em, (wrap_i64_id (extent - 1)), (wrap_i64_id (extent - 1 + 1)) by (unfold in_i64; lia).
  replace (extent - 1 + 1) with extent by lia.
  unfold paddings_ok, windows, padded in *. destruct padding; try specialize (Hf ltac:(done)).
  - rewrite (wrap_i64_id (x - extent)), (wrap_i64_id (x - extent + stride)) by (unfold in_i64; lia). cbn [output_size]. rewrite Z.quot_div_nonneg by lia.
    destruct (Z.ltb_spec ((x - extent + stride) / stride) 0); [lia|]. by eexists.
  - rewrite (wrap_i64_id (x + stride)), (wrap_i64_id (x + stride - 1)) by (unfold in_i64; lia). rewrite Z.quot_div_nonneg by lia.
    set (n := (x + stride - 1) / stride) in *. cbn [output_size]. destruct (Z.ltb_spec n 0); [lia|].
    assert (- stride <= (n - 1) * stride <= x) as Hb by lia.
    rewrite (wrap_i64_id (n - 1)), (wrap_i64_id ((n - 1) * stride)), (wrap_i64_id ((n - 1) * stride + extent)),
      (wrap_i64_id ((n - 1) * stride + extent - x)) by (unfold in_i64; nia).
    set (need := Z.max 0 ((n - 1) * stride + extent - x)). assert (0 <= need < 2 ^ 63) by lia.
    rewrite Z.quot_div_nonneg, (wrap_i64_id (need - need / 2)) by (try (unfold in_i64; dlia); lia).
    eexists. split; [done|]. cbn [output_size padding_before padding_after]. split; [done|]. split; [lia|dlia].
  - rewrite (wrap_i64_id (x + pb)), (wrap_i64_id (x + pb + pa)), (wrap_i64_id (x + pb + pa - extent)),
      (wrap_i64_id (x + pb + pa - extent + stride)) by (unfold in_i64; lia). cbn [output_size]. rewrite Z.quot_div_nonneg by lia.
    destruct (Z.ltb_spec ((x + pb + pa - extent + stride) / stride) 0); [lia|]. by eexists.
Qed.
End Window.

(** ** Inference *)
Section Inference.
Context (x y dilation stride pb pa : Z) (padding : Padding) (Hw : window_ok x y dilation stride pb pa padding).
Context (st : t) (I : interp) (W : wf st) (HM : models I st) (d : DimensionHandle) (c : DimensionOrConstant).
Context (Hd : dim_has I st d x) (Hc : dc_ok st c) (Hy : denotes I c y).

Lemma call_val op st' J e z v : wf st' -> models J st' -> dim_has J st' e z -> size v -> divisor_ok st' (of_val v) op -> legal op z v ->
  sound J (run op e (of_val v)) st' (fun K d' st'' => dim_has K st'' d' (result op z v)).
Proof. intros W' M' He Hv Ho Hl. destruct (operand_val st' J v Hv). by eapply call_op. Qed.

(** The last two calls *)
Lemma sound_divide st' J e z add : wf st' -> models J st' -> dim_has J st' e z -> 0 <= add -> 0 <= z -> z + add < 2 ^ 63 -> 0 < stride < 2 ^ 63 ->
  sound J (o ← Add e (of_val add); Divide o (of_val stride) false) st' (fun K d' st'' => dim_has K st'' d' ((z + add) / stride)).
Proof.
  intros W' M' He Ha Hz Hlt Hs. eapply sound_bind; [apply (call_val OpAdd st' J e z add); try done; unfold size; lia|].
  intros K o st'' _ W'' _ M'' Ho. apply (call_val (OpDivide false)); try done; unfold size; simpl; [lia|unfold dcv, kUnknownDim; simpl; lia|].
  split; [lia|done].
Qed.

(** The extent of the filter, subtracted from the input *)
Lemma sound_extent st' J e z : wf st' -> models J st' -> dim_has J st' e z -> dc_ok st' c -> denotes J c y ->
  1 <= y -> 1 <= dilation < 2 ^ 63 -> extent y dilation <= z -> z < 2 ^ 63 ->
  sound J (if 1 <? dilation then
             d ← MakeDim c;
             window_size ← Subtract d (of_val 1);
             window_size ← Multiply window_size (of_val dilation);
             window_size ← Add window_size (of_val 1);
             Subtract e (of_dim window_size)
           else Subtract e c) st' (fun K d' st'' => dim_has K st'' d' (z - extent y dilation)).
Proof.
  intros W' M' He Oc Dc Hy1 Hd1 Hle Hlt. destruct (Z.ltb_spec 1 dilation).
  - assert (extent y dilation = (y - 1) * dilation + 1) as Ee by done.
    eapply (sound_bind _ _ _ _ (fun K f st'' => dim_has K st'' f y)).
    { eapply sound_mono; [by apply (sound_MakeDim_dc st' W' c Oc J y M' Dc)|]. by intros ? ? ? _ _ _ (? & _ & ?). }
    intros ? f ? ? ? ? ? Hf. transport.
    call (call_val OpSubtract _ _ _ y 1) as w1 E1; [unfold size; lia|done|].
    call (call_val OpMultiply _ _ _ (y - 1) dilation) as w2 E2; [unfold size; nia|done|simpl; lia|].
    call (call_val OpAdd _ _ _ ((y - 1) * dilation) 1) as w3 E3; [unfold size; lia|done|simpl; lia|].
    simpl in E3. rewrite <- Ee in E3. match goal with M : models ?K ?s |- _ => destruct (operand_dim s K M w3 _ E3) end.
    by eapply call_op with (op := OpSubtract).
  - assert (extent y dilation = y) as Ee by (unfold extent; replace dilation with 1 by lia; lia). rewrite Ee in *.
    by apply (call_op _ W' _ M' OpSubtract).
Qed.

Lemma operand_grow st' J : grow st st' -> agree st I J -> dc_ok st' c /\ denotes J c y.
Proof.
  intros G A. unfold dc_ok, denotes in *. destruct Hy as [Hsz Hy']. destruct (dim c) as [i|]; [|done]. split; [by eapply dim_ok_grow|].
  split; [done|]. rewrite Hy'. symmetry. exact (dI_agree st I J (Some i) A Hc).
Qed.

(** The calls for a padding of [p] in all *)
Lemma sound_padded p : 0 <= p -> x + p + stride < 2 ^ 63 -> 1 <= y -> 1 <= dilation < 2 ^ 63 -> 0 < stride -> 0 <= x -> 1 <= extent y dilation <= x + p ->
  sound I
    (input_size ← Add d (of_val p);
     output_size ←
       (if 1 <? dilation then
          d ← MakeDim c;
          window_size ← Subtract d (of_val 1);
          window_size ← Multiply window_size (of_val dilation);
          window_size ← Add window_size (of_val 1);
          Subtract input_size (of_dim window_size)
        else Subtract input_size c);
     output_size ← Add output_size (of_val stride);
     Divide output_size (of_val stride) false) st
    (fun J o st' => dim_has J st' o ((x + p - extent y dilation + stride) / stride)).
Proof.
  intros Hp Hlt Hy1 Hd1 Hs Hx He.
  eapply (sound_bind _ _ _ _ (fun K f st'' => dim_has K st'' f (x + p))).
  { apply (call_val OpAdd); try done; [unfold size; lia|simpl; lia]. }
  intros J e st1 G1 W1 A1 M1 E1. destruct (operand_grow st1 J G1 A1) as [Oc Dc].
  eapply sound_bind; [by apply (sound_extent st1 J e (x + p)); try done; lia|].
  intros K o st2 _ W2 _ M2 Eo. apply sound_divide; try done; lia.
Qed.

Lemma sound_windows :
  sound I (GetWindowedOutputSizeFromDimsV2 d c dilation stride padding pb pa) st
    (fun J o st' => dim_has J st' o (windows x y dilation stride pb pa padding)).
Proof.
  unfold GetWindowedOutputSizeFromDimsV2. pose proof Hw as [Hs Hdl Hx Hy1 Hp Hr Hf].
  destruct (Z.leb_spec stride 0); [lia|]. destruct (Z.ltb_spec dilation 1); [lia|].
  assert (1 <= extent y dilation) by (unfold extent; nia). unfold windows, padded in *. destruct padding; try specialize (Hf ltac:(done)).
  - pose proof (sound_padded 0) as HP. rewrite Z.add_0_r in HP. apply HP; lia.
  - replace (x + stride - 1) with (x + (stride - 1)) by lia. apply sound_divide; try done; lia.
  - rewrite wrap_i64_id by (unfold in_i64; lia). rewrite <- (Z.add_assoc x pb pa). apply sound_padded; lia.
Qed.
End Inference.

End ShapeFnsWindow.
