(* ===== verification/ShapeFnsTheorems.v ===== *)
(** * Shape functions: what they guarantee *)

From S2P Require Import Prelude TensorShape BCast BCastSpec BCastTheorems ShapeInference InferenceSpec InferenceMerge InferenceArith InferenceTheorems CommonShapeFns ShapeFnsBroadcast ShapeFnsSpec ShapeFnsConcat KernelShapes.

Import Inference InferenceSpec InferenceMerge InferenceArith InferenceTheorems ShapeFns ShapeFnsBroadcast ShapeFnsSpec ShapeFnsConcat ShapeFnsReduce KernelShapes ShapeFnsWindow.

Module ShapeFnsTheorems.

(** What [BCast] does with two shapes when the op runs *)
Definition at_run_time (x y : list Z) : BCast.t := BCast.BCastList [x; y] true false.

(** A size of an execution agrees with what is known of it. *)
Definition agrees (v z : Z) : Prop := size z /\ (v <> kUnknownDim -> z = v).

(** What is known of a dimension of the result, [c], is what follows from what is known of those of the operands,
    [a] and [b]: if [c] is known, all sizes that broadcast give it; if not, there are sizes that give different
    results, or one of [a] and [b] is 0 and the other one unknown. *)
Definition follows (a b c : Z) : Prop :=
  (c <> kUnknownDim -> forall x y, agrees a x -> agrees b y -> bcompat x y -> bsize x y = c) /\
  (c = kUnknownDim ->
     (a = 0 /\ b = kUnknownDim) \/ (b = 0 /\ a = kUnknownDim) \/
     exists x y x' y', agrees a x /\ agrees b y /\ bcompat x y /\ agrees a x' /\ agrees b y' /\ bcompat x' y' /\ bsize x y <> bsize x' y').

Definition shape_follows (x y r : option (list Z)) : Prop :=
  match x, y with
  | Some l, Some k =>
      let n := Nat.max (length l) (length k) in
      exists ds, r = Some ds /\ length ds = n /\
        forall i a b c, pad 1 n l !! i = Some a -> pad 1 n k !! i = Some b -> ds !! i = Some c -> follows a b c
  | _, _ => r = None
  end.

Lemma bview_follows (a b : Z) : -1 <= a -> -1 <= b -> ~ clash a b -> follows a b (bview a b).
Proof.
  intros Ha Hb Hc. unfold follows, agrees, bview, clash, bcompat, bsize, size, kUnknownDim in *. split.
  - intros Hk x y [Hx Ex] [Hy Ey] Hxy. repeat case_match; zbool; lia.
  - intros Hu. destruct (decide (a = 0)) as [->|Ha0]; [left; repeat case_match; zbool; lia|].
    destruct (decide (b = 0)) as [->|Hb0]; [right; left; repeat case_match; zbool; lia|]. right. right.
    destruct (decide (a = -1)) as [->|Ea], (decide (b = -1)) as [->|Eb].
    + exists 2, 2, 3, 3. cbn. lia.
    + assert (b = 1) as -> by (repeat case_match; zbool; lia). exists 2, 1, 3, 1. cbn. lia.
    + assert (a = 1) as -> by (repeat case_match; zbool; lia). exists 1, 2, 1, 3. cbn. lia.
    + exfalso. repeat case_match; zbool; lia.
Qed.

Lemma view_range (st : t) (s : ShapeHandle) (l : list Z) : wf st -> view st s = Some l -> Forall (fun v => -1 <= v) l.
Proof.
  intros W Hv. destruct (known st s) as [ds|] eqn:K; [|by rewrite (view_unknown _ _ K) in Hv].
  rewrite (view_known _ _ _ K) in Hv. injection Hv as <-. apply list.Forall_fmap. destruct (known_ok _ _ _ W K) as [F _].
  eapply list.Forall_impl; [exact F|]. intros d Hd. by apply dimv_range.
Qed.

Lemma bshape_follows (st : t) (sx sy : ShapeHandle) :
  wf st -> ~ clashing (view st sx) (view st sy) ->
  shape_follows (view st sx) (view st sy) (bshape (view st sx) (view st sy)).
Proof.
  intros W Hc. pose proof (view_range st sx) as Rx. pose proof (view_range st sy) as Ry. unfold shape_follows, bshape, clashing in *.
  destruct (view st sx) as [l|]; [|done]. destruct (view st sy) as [k|]; [|done].
  specialize (Rx l W eq_refl). specialize (Ry k W eq_refl). set (n := Nat.max (length l) (length k)) in *.
  assert (forall l, (length l <= n)%nat -> Forall (fun v => -1 <= v) l -> Forall (fun v => -1 <= v) (pad 1 n l)) as HP.
  { intros l' _ F. apply Forall_app. split; [|done]. by apply Forall_replicate. }
  eexists. split; [reflexivity|]. split; [rewrite length_zip_with, !length_pad by lia; lia|].
  intros i a b c Ea Eb Ec. rewrite lookup_zip_with, Ea, Eb in Ec. injection Ec as <-. apply bview_follows.
  - exact (list.Forall_lookup_1 _ _ _ _ (HP l ltac:(lia) Rx) Ea).
  - exact (list.Forall_lookup_1 _ _ _ _ (HP k ltac:(lia) Ry) Eb).
  - intros Hcl. apply Hc. by exists i, a, b.
Qed.

(** C21: [BroadcastBinaryOpOutputShapeFnHelper] agrees with the broadcasting of the kernel.  When it succeeds, its
    result has, for the sizes of every execution that [BCast] accepts, the sizes that [BCast] computes.  With
    [incompatible_shape_error] it fails exactly if two known sizes do not broadcast, and then [BCast] rejects the
    operands of every execution; and what is known of each dimension of the result is all that follows from what is
    known of that dimension of the operands, but for a size 0 against an unknown one, where the result could be
    known to be 0 and is not.  Without it the helper never fails. *)
Theorem broadcast_shape (st : t) (sx sy : ShapeHandle) (incompatible_shape_error : bool) :
  wf st -> shape_ok st sx -> shape_ok st sy ->
  match BroadcastBinaryOpOutputShapeFnHelper sx sy incompatible_shape_error st with
  | (Ok s, st') =>
      extends st st' /\ shape_ok st' s
      /\ (forall I, models I st -> BCast.valid (at_run_time (sI I st sx) (sI I st sy)) = true ->
            realizes I st s st' (BCast.output (at_run_time (sI I st sx) (sI I st sy))))
      /\ (incompatible_shape_error = true ->
            ~ clashing (view st sx) (view st sy) /\ shape_follows (view st sx) (view st sy) (view st' s))
  | (Err e, st') =>
      incompatible_shape_error = true /\ (exists c, e = Status c) /\ extends st st' /\ clashing (view st sx) (view st sy)
      /\ forall I, models I st -> BCast.valid (at_run_time (sI I st sx) (sI I st sy)) = false
  end.
Proof.
  intros W Hx Hy. set (err := incompatible_shape_error). pose proof (safe_Helper st W sx sy Hx Hy err) as HS.
  assert (forall I, models I st -> BCast.valid (at_run_time (sI I st sx) (sI I st sy)) = true ->
    exists s st', BroadcastBinaryOpOutputShapeFnHelper sx sy err st = (Ok s, st')
      /\ realizes I st s st' (BCast.output (at_run_time (sI I st sx) (sI I st sy)))) as HI.
  { intros I HM Hv. apply valid_iff in Hv; [|done].
    destruct (sound_Helper st W sx sy Hx Hy err I HM Hv) as (s & st' & J & E & _ & _ & A & M & _ & Es).
    exists s, st'. split; [done|]. exists J. split_and!; try done. rewrite Es. symmetry. by apply output_numpy. }
  unfold outcome in HS. destruct (BroadcastBinaryOpOutputShapeFnHelper sx sy err st) as [[s|e] st'].
  - destruct HS as (G & W' & Hs & Hok). split_and!; [by apply extends_intro|done| |].
    + intros I HM Hb. by destruct (HI I HM Hb) as (? & ? & [= <- <-] & ?).
    + intros He. destruct (Hok He) as [Hc ->]. split; [done|by apply bshape_follows].
  - destruct HS as (([He' Hc] & He) & G & W'). split_and!; [done|done|by apply extends_intro|done|].
    intros I HM. apply not_true_iff_false. intros Hv. by destruct (HI I HM Hv) as (? & ? & ? & _).
Qed.

Lemma broadcast_shape_witness :
  exists s st', BroadcastBinaryOpOutputShapeFnHelper (Some 0%nat) (Some 1%nat) true example_context = (Ok s, st')
    /\ shape_follows (view example_context (Some 0%nat)) (view example_context (Some 1%nat)) (view st' s).
Proof.
  pose proof (broadcast_shape example_context (Some 0%nat) (Some 1%nat) true example_wf
    ltac:(eexists; reflexivity) ltac:(eexists; reflexivity)) as H.
  destruct (BroadcastBinaryOpOutputShapeFnHelper (Some 0%nat) (Some 1%nat) true example_context) as [[s|e] st'] eqn:E; [|by vm_compute in E].
  exists s, st'. split; [reflexivity|]. exact (proj2 (proj2 (proj2 (proj2 H)) eq_refl)).
Defined.

(** Without the error the op returns a scalar for sizes that do not broadcast, but for two unknown dimensions the
    helper answers a vector: no execution with the sizes 2 and 3 has the inferred rank. *)
Example broadcast_unknown_dims :
  let st := initial [mkShape 1 [Some 0%nat]; mkShape 1 [Some 1%nat]] [-1; -1] in
  (exists s st', BroadcastBinaryOpOutputShapeFnHelper (Some 0%nat) (Some 1%nat) false st = (Ok s, st') /\ view st' s = Some [-1])
  /\ BCast.valid (at_run_time [2] [3]) = false.
Proof. split; [do 2 eexists; split; vm_compute; reflexivity|vm_compute; reflexivity]. Qed.

(** The shape functions of products of matrices: for the sizes of an execution in which the inner sizes agree (as
    the transposition flags say) and the batch dimensions broadcast, [MatMulShape] and [BatchMatMulV2Shape] succeed
    and set the sizes of the product as the output, whatever is known of the operands; [MatMulShape] refuses
    operands whose inner sizes are known and different. *)
Theorem product_shapes (st : t) (s0 s1 : ShapeHandle) (ta tb : bool) :
  wf st -> inputs_ st = [s0; s1] -> outputs_ st <> [] ->
  (forall I m k n, models I st -> has I st s0 (oriented ta m k) -> has I st s1 (oriented tb k n) ->
     delivers I (MatMulShape (Ok ta) (Ok tb)) st [m; n])
  /\ (forall I la lb m k n, models I st -> has I st s0 (la ++ oriented ta m k) -> has I st s1 (lb ++ oriented tb k n) ->
        broadcastable [la; lb] -> Z.of_nat (length la) + 2 < kint32max -> Z.of_nat (length lb) + 2 < kint32max ->
        delivers I (BatchMatMulV2Shape (Ok ta) (Ok tb)) st (numpy [la; lb] ++ [m; n]))
  /\ (forall m k k' n, view st s0 = Some (oriented ta m k) -> view st s1 = Some (oriented tb k' n) ->
        k <> kUnknownDim -> k' <> kUnknownDim -> k <> k' ->
        exists e st', MatMulShape (Ok ta) (Ok tb) st = (Err (Status e), st')).
Proof.
  intros W Hin Ho. split_and!.
  - intros I m k n HM H0 H1. apply deliver_out; [|done]. by eapply sound_MatMul_out.
  - intros I la lb m k n HM H0 H1 Hb La Lb. apply deliver_out; [|done]. by eapply sound_BatchMatMulV2_out.
  - intros m k k' n V0 V1 Nk Nk' Hne. destruct (MatMul_out_refused st s0 s1 [] ta tb m k k' n) as (e & st' & E); try done.
    exists e, st'. unfold MatMulShape, mbind, M_bind. by rewrite E.
Qed.

(** A node with inputs of the shapes [2,?], [?,3] and [], and the value of its last input *)
Definition example_objects : t := initial
  [mkShape 2 [Some 0%nat; Some 1%nat]; mkShape 2 [Some 2%nat; Some 3%nat]; mkShape 0 []] [2; -1; -1; 3].
Definition example_node (inputs : list ShapeHandle) (tensors : list (option Tensor)) : t :=
  set_outputs [None] (set_requested (map (fun _ => false) inputs) [] (set_tensors tensors [] (set_inputs inputs example_objects))).

Lemma example_node_wf inputs tensors : wf (example_node inputs tensors).
Proof.
  assert (forall i, (i < 4)%nat -> dim_ok (example_node inputs tensors) (Some i)) as Hd.
  { intros i Hi. unfold dim_ok. by do 4 (destruct i as [|i]; [eexists; reflexivity|]); lia. }
  split; simpl; [|repeat constructor; lia].
  repeat (apply Forall_cons; split); [right..|done]; split_and!; try done;
    repeat (apply Forall_cons; split); try done; apply Hd; lia.
Qed.

Lemma example_node_models inputs tensors : models example_interp (example_node inputs tensors).
Proof.
  split; simpl; [|intros; repeat constructor; unfold size; lia|done|done].
  intros i v H. do 4 (destruct i as [|i]; [simpl in *; injection H as <-; unfold size; simpl; split; [lia|]; by intros|]).
  by destruct i.
Qed.

Lemma product_shapes_witness :
  delivers example_interp (MatMulShape (Ok false) (Ok true)) (example_node [Some 0%nat; Some 1%nat] []) [2; 2].
Proof.
  apply (proj1 (product_shapes (example_node [Some 0%nat; Some 1%nat] []) (Some 0%nat) (Some 1%nat) false true
    (example_node_wf _ _) eq_refl ltac:(discriminate)) example_interp 2 3 2);
    [apply example_node_models|split; [eexists|]; reflexivity|split; [eexists|]; reflexivity].
Defined.

(** [ConcatV2Shape]: if an execution gives the inputs the sizes [a ++ m :: c] for the [m] of a list (with a sum that
    fits an [int64_t]), then, whether the position of the concatenated dimension is known (counted from either end)
    or not, and whatever is known of the shapes, the function succeeds and the output has the sizes
    [a ++ sum :: c]. *)
Theorem concat_shape (st : t) (I : interp) (ss : list ShapeHandle) (sd : ShapeHandle) (a c ms : list Z) (concat_dim : Z) :
  wf st -> models I st -> inputs_ st = ss ++ [sd] -> concat_inputs a c concat_dim I st ss ms (length ss) ->
  delivers I ConcatV2Shape st (a ++ sum ms :: c).
Proof. apply deliver_ConcatV2. Qed.

Lemma concat_shape_witness :
  delivers example_interp ConcatV2Shape
    (example_node [Some 0%nat; Some 1%nat; Some 2%nat] [None; None; Some (mkTensor DT_INT32 0 [-1])]) [2; 6].
Proof.
  apply (concat_shape (example_node [Some 0%nat; Some 1%nat; Some 2%nat] [None; None; Some (mkTensor DT_INT32 0 [-1])])
    example_interp [Some 0%nat; Some 1%nat] (Some 2%nat) [2] [] [3; 3] (-1));
    [apply example_node_wf|apply example_node_models|reflexivity|].
  split; try done; simpl.
  - by right.
  - repeat (apply Forall2_cons; split); [split; [eexists|]; reflexivity|split; [eexists|]; reflexivity|constructor].
  - exists (Some 2%nat). split; [reflexivity|]. split; [eexists|]; reflexivity.
  - eexists. split; [reflexivity|]. split; [by left|reflexivity].
  - lia.
Defined.

(** [ReductionShape]: if an execution gives the input the sizes [l] and the indices are in the range of its axes,
    then, whether the indices are known or not and whatever is known of the shape, the function succeeds and the
    output has the sizes [l] without the reduced axes, or with 1 for them if [keep_dims] is set. *)
Theorem reduction_shape (st : t) (I : interp) (l indices : list Z) (graph_def_version : Z) (keep_dims : bool) :
  wf st -> models I st -> reduce_inputs I st l indices graph_def_version ->
  delivers I (ReductionShape graph_def_version (Ok keep_dims)) st
    (reduce (map (axis (Z.of_nat (length l))) indices) keep_dims 0 l).
Proof. apply deliver_Reduction. Qed.

Lemma reduction_shape_witness :
  delivers example_interp (ReductionShape 1286 (Ok true))
    (example_node [Some 0%nat; Some 2%nat] [None; Some (mkTensor DT_INT32 0 [-1])]) [2; 1].
Proof.
  apply (reduction_shape (example_node [Some 0%nat; Some 2%nat] [None; Some (mkTensor DT_INT32 0 [-1])])
    example_interp [2; 3] [-1] 1286 true); [apply example_node_wf|apply example_node_models|].
  split; try done; simpl.
  - exists (Some 0%nat), (Some 2%nat), [], []. split_and!; [reflexivity|split; [eexists|]; reflexivity|split; [eexists|]; reflexivity|right; simpl; lia].
  - repeat constructor; lia.
  - eexists. split; [reflexivity|]. split; [by left|reflexivity].
  - lia.
Defined.

(** The two computations of the output size of a window agree: for the sizes of an execution in which the window
    fits the padded input, the kernel's [GetWindowedOutputSizeVerboseV2] succeeds, returns the number of positions
    at which a window starts and, with SAME padding, the least paddings that let the last window fit; and
    [GetWindowedOutputSizeFromDimsV2] succeeds on whatever is known of the sizes with the same output size. *)
Theorem window_sizes (st : t) (I : interp) (d : DimensionHandle) (c : DimensionOrConstant) (x y dilation stride pb pa : Z)
    (padding : Padding) :
  wf st -> models I st -> dim_has I st d x -> dc_ok st c -> denotes I c y -> window_ok x y dilation stride pb pa padding ->
  exists r, GetWindowedOutputSizeVerboseV2 x y dilation stride padding pb pa = Ok r
    /\ (forall k, 0 <= k -> k < output_size r <-> starts x y dilation stride pb pa padding k)
    /\ paddings_ok x y dilation stride pb pa padding r
    /\ exists o st' J, GetWindowedOutputSizeFromDimsV2 d c dilation stride padding pb pa st = (Ok o, st')
         /\ extends st st' /\ agree st I J /\ models J st' /\ dim_has J st' o (output_size r).
Proof.
  intros W HM Hd Hc Hy Hw. destruct (kernel_windows _ _ _ _ _ _ _ Hw) as (r & E & Er & Hp). exists r. rewrite Er.
  split_and!; [done|intros k Hk; by apply windows_count|done|].
  destruct (sound_windows x y dilation stride pb pa padding Hw st I W HM d c Hd Hc Hy) as (o & st' & J & ? & G & W' & ? & ? & ?).
  exists o, st', J. split_and!; try done. by apply extends_intro.
Qed.

Lemma window_sizes_witness :
  exists r, GetWindowedOutputSizeVerboseV2 3 2 1 2 SAME 0 0 = Ok r /\ output_size r = 2 /\ padding_after r = 1.
Proof.
  destruct (window_sizes (example_node [] []) example_interp (Some 1%nat) (of_val 2) 3 2 1 2 0 0 SAME (example_node_wf _ _)
    (example_node_models _ _) ltac:(split; [eexists|]; reflexivity) ltac:(exists 2; split; [reflexivity|lia])
    ltac:(split; [unfold size; lia|by intros v [= <-]]) ltac:(split; unfold extent; try lia; done)) as (r & E & _).
  exists r. split; [exact E|]. vm_compute in E. injection E as <-. split; reflexivity.
Defined.

(** A window larger than the input: the kernel truncates the quotient and accepts it with no output, shape inference
    refuses it. *)
Example window_too_large :
  (exists r, GetWindowedOutputSizeVerboseV2 2 3 1 2 VALID 0 0 = Ok r /\ output_size r = 0)
  /\ fst (GetWindowedOutputSizeFromDimsV2 (Some 0%nat) (of_val 3) 1 2 VALID 0 0 example_objects) = Err (Status Shape.InvalidArgument).
Proof. split; [eexists; split; vm_compute; reflexivity|vm_compute; reflexivity]. Qed.

End ShapeFnsTheorems.
