(* ===== verification/Bytes.v ===== *)
(** Byte strings.

    The encodings of [tsl/platform] and the files of [tsl/lib/io] work on
    [std::string]s, [StringPiece]s and [char] buffers.  A string is a list of
    bytes, a byte is an integer below 256 (the code reads every [char] through
    [unsigned char]), and a [uint8]/[uint32] value is an integer with the wrap
    of its width.  This file has those types, the little-endian view of an
    integer, the extent of a buffer that a pointer and a length denote, and the
    order of [StringPiece::compare], with the lemmas the encodings share. *)
From S2P Require Import Prelude.

Definition bytes : Type := list Z.

Definition in_u8 (z : Z) : Prop := 0 <= z < 2 ^ 8.
Definition in_u16 (z : Z) : Prop := 0 <= z < 2 ^ 16.
Definition in_u32 (z : Z) : Prop := 0 <= z < 2 ^ 32.
Definition wrap_u8 (z : Z) : Z := z mod 2 ^ 8.
Definition wrap_u16 (z : Z) : Z := z mod 2 ^ 16.
Definition wrap_u32 (z : Z) : Z := z mod 2 ^ 32.

(** Every element is a byte. *)
Definition bytes_ok (l : bytes) : Prop := Forall in_u8 l.

(** [std::string::size()]. *)
Definition size (l : bytes) : Z := Z.of_nat (length l).

#[global] Instance in_u8_dec (z : Z) : Decision (in_u8 z).
Proof. unfold in_u8. apply _. Defined.

#[global] Instance in_u32_dec (z : Z) : Decision (in_u32 z).
Proof. unfold in_u32. apply _. Defined.

#[global] Instance bytes_ok_dec (l : bytes) : Decision (bytes_ok l).
Proof. unfold bytes_ok. apply _. Defined.

Lemma wrap_u8_id (z : Z) : in_u8 z -> wrap_u8 z = z.
Proof. apply Z.mod_small. Qed.

Lemma wrap_u8_range (z : Z) : in_u8 (wrap_u8 z).
Proof. apply Z.mod_pos_bound. lia. Qed.

Lemma wrap_u32_id (z : Z) : in_u32 z -> wrap_u32 z = z.
Proof. apply Z.mod_small. Qed.

Lemma wrap_u32_range (z : Z) : in_u32 (wrap_u32 z).
Proof. apply Z.mod_pos_bound. lia. Qed.

#[export] Hint Resolve wrap_u8_range wrap_u32_range : machine.

(** Rewrites away the wraps of 8 and 32 bits whose argument is in range. *)
Ltac unwrap_small :=
  repeat match goal with
  | |- context [wrap_u8 ?z] => rewrite (wrap_u8_id z) by (unfold in_u8 in *; lia)
  | |- context [wrap_u32 ?z] => rewrite (wrap_u32_id z) by (unfold in_u32 in *; lia)
  | H : context [wrap_u8 ?z] |- _ => rewrite (wrap_u8_id z) in H by (unfold in_u8 in *; lia)
  | H : context [wrap_u32 ?z] |- _ => rewrite (wrap_u32_id z) in H by (unfold in_u32 in *; lia)
  end.

Lemma size_app (a b : bytes) : size (a ++ b) = size a + size b.
Proof. unfold size. rewrite length_app. lia. Qed.

Lemma size_nonneg (a : bytes) : 0 <= size a.
Proof. unfold size. lia. Qed.

Lemma size_cons (x : Z) (a : bytes) : size (x :: a) = 1 + size a.
Proof. unfold size. rewrite length_cons. lia. Qed.

Lemma size_nil_inv (a : bytes) : size a = 0 -> a = [].
Proof. destruct a; [done|]. unfold size. rewrite length_cons. lia. Qed.

Create HintDb bytes.
Create Rewrite HintDb size.
#[export] Hint Rewrite size_app size_cons : size.

Lemma bytes_ok_app (a b : bytes) : bytes_ok (a ++ b) <-> bytes_ok a /\ bytes_ok b.
Proof. apply Forall_app. Qed.

Lemma bytes_ok_take (n : nat) (a : bytes) : bytes_ok a -> bytes_ok (take n a).
Proof. apply Forall_take. Qed.

Lemma bytes_ok_drop (n : nat) (a : bytes) : bytes_ok a -> bytes_ok (drop n a).
Proof. apply Forall_drop. Qed.


#[export] Hint Resolve bytes_ok_take bytes_ok_drop size_nonneg : bytes.

(** ** Extents of a buffer *)

(** The [n] bytes at offset [off] of [data], [None] when a byte outside of the
    buffer would be read. *)
Definition sub (data : bytes) (off n : Z) : option bytes :=
  if (0 <=? off) && (0 <=? n) && (off + n <=? size data)
  then Some (take (Z.to_nat n) (drop (Z.to_nat off) data))
  else None.

Lemma sub_app (a b c : bytes) (off n : Z) :
  off = size a -> n = size b -> sub (a ++ b ++ c) off n = Some b.
Proof.
  intros -> ->. unfold sub. rewrite !size_app.
  pose proof (size_nonneg a). pose proof (size_nonneg b). pose proof (size_nonneg c).
  rewrite !(proj2 (Z.leb_le _ _)) by lia. simpl. f_equal. unfold size.
  rewrite !Nat2Z.id, drop_app_length. apply take_app_length.
Qed.

Lemma sub_prefix (b c : bytes) (n : Z) : n = size b -> sub (b ++ c) 0 n = Some b.
Proof. intros ->. exact (sub_app [] b c 0 (size b) eq_refl eq_refl). Qed.

Lemma sub_Some (data : bytes) (off n : Z) (b : bytes) :
  sub data off n = Some b ->
  exists pre post, data = pre ++ b ++ post /\ size pre = off /\ size b = n.
Proof.
  unfold sub. intros Hs. case_if_in Hs; [|done]. injection Hs as <-.
  exists (take (Z.to_nat off) data), (drop (Z.to_nat n) (drop (Z.to_nat off) data)).
  unfold size in *. rewrite !take_drop, !length_take, length_drop. split_and!; [done|lia|lia].
Qed.

Lemma sub_Some_iff (data : bytes) (off n : Z) :
  is_Some (sub data off n) <-> 0 <= off /\ 0 <= n /\ off + n <= size data.
Proof.
  unfold sub. split.
  - intros [b Hb]. case_if_in Hb; [lia|done].
  - intros (? & ? & ?). rewrite !(proj2 (Z.leb_le _ _)) by lia. by eexists.
Qed.

Lemma sub_ok (data : bytes) (off n : Z) (b : bytes) :
  bytes_ok data -> sub data off n = Some b -> bytes_ok b.
Proof.
  intros Hd (pre & post & -> & _)%sub_Some. apply bytes_ok_app in Hd as [_ Hd].
  by apply bytes_ok_app in Hd as [? _].
Qed.

(** ** Little-endian integers *)

(** The [n] low bytes of [v], the least significant one first. *)
Fixpoint le_bytes (n : nat) (v : Z) : bytes :=
  match n with
  | O => []
  | S m => v mod 2 ^ 8 :: le_bytes m (v / 2 ^ 8)
  end.

(** The integer of a little-endian byte string. *)
Fixpoint le_value (l : bytes) : Z :=
  match l with
  | [] => 0
  | b :: r => b + 2 ^ 8 * le_value r
  end.

Lemma le_bytes_length (n : nat) (v : Z) : length (le_bytes n v) = n.
Proof. revert v. induction n as [|n IH]; intros v; simpl; [done|]. by rewrite IH. Qed.

Lemma le_bytes_size (n : nat) (v : Z) : size (le_bytes n v) = Z.of_nat n.
Proof. unfold size. by rewrite le_bytes_length. Qed.

Lemma le_bytes_ok (n : nat) (v : Z) : bytes_ok (le_bytes n v).
Proof.
  revert v. induction n as [|n IH]; intros v; simpl; constructor; [|apply IH].
  apply wrap_u8_range.
Qed.

Lemma le_value_bytes (n : nat) (v : Z) :
  0 <= v < 2 ^ (8 * Z.of_nat n) -> le_value (le_bytes n v) = v.
Proof.
  revert v. induction n as [|n IH]; intros v Hv; [simpl in *; lia|].
  cbn [le_bytes le_value]. rewrite IH; [rewrite Z.add_comm; symmetry; by apply Z.div_mod|].
  replace (8 * Z.of_nat (S n)) with (8 + 8 * Z.of_nat n) in Hv by lia.
  rewrite Z.pow_add_r in Hv by lia.
  split; [apply Z.div_pos; lia|]. apply Z.div_lt_upper_bound; lia.
Qed.

Lemma le_value_range (l : bytes) : bytes_ok l -> 0 <= le_value l < 2 ^ (8 * size l).
Proof.
  induction 1 as [|b l Hb Hl IH]; [simpl; unfold size; simpl; lia|]. cbn [le_value].
  rewrite size_cons. replace (8 * (1 + size l)) with (8 + 8 * size l) by lia.
  pose proof (size_nonneg l). rewrite Z.pow_add_r by lia. unfold in_u8 in Hb. lia.
Qed.

Lemma le_bytes_value (l : bytes) : bytes_ok l -> le_bytes (length l) (le_value l) = l.
Proof.
  induction 1 as [|b l Hb Hl IH]; [done|]. cbn [length le_value le_bytes]. unfold in_u8 in Hb.
  rewrite Z.add_comm, Z.mul_comm, Z.div_add_l, Z.div_small, Z.add_0_r, IH by lia. f_equal.
  rewrite Z.add_comm, Z.mod_add by lia. by apply Z.mod_small.
Qed.

#[export] Hint Resolve le_bytes_ok : bytes.

Lemma le_value_take_app (n : nat) (v : Z) (rest : bytes) :
  0 <= v < 2 ^ (8 * Z.of_nat n) -> le_value (take n (le_bytes n v ++ rest)) = v.
Proof.
  intros Hv. rewrite take_app_length' by (symmetry; apply le_bytes_length). by apply le_value_bytes.
Qed.

Lemma le_bytes_app_ok (n : nat) (v : Z) (rest : bytes) :
  bytes_ok rest ->
  bytes_ok (le_bytes n v ++ rest) /\ (n <= length (le_bytes n v ++ rest))%nat.
Proof.
  intros Hr. rewrite length_app, le_bytes_length, bytes_ok_app. split; [auto with bytes|lia].
Qed.

(** ** The order of strings *)

(** [StringPiece::compare]: the first differing byte decides, as unsigned
    chars, and a proper prefix is smaller. *)
Fixpoint compare (a b : bytes) : comparison :=
  match a, b with
  | [], [] => Eq
  | [], _ :: _ => Lt
  | _ :: _, [] => Gt
  | x :: a', y :: b' =>
      match Z.compare x y with Eq => compare a' b' | c => c end
  end.

(** [a.compare(b) < 0]. *)
Definition lt_bytes (a b : bytes) : bool :=
  match compare a b with Lt => true | _ => false end.

(** [a.compare(b) <= 0]. *)
Definition le_str (a b : bytes) : bool :=
  match compare a b with Gt => false | _ => true end.

Lemma compare_refl (a : bytes) : compare a a = Eq.
Proof. induction a as [|x a IH]; simpl; [done|]. by rewrite Z.compare_refl. Qed.

Lemma compare_eq (a b : bytes) : compare a b = Eq -> a = b.
Proof.
  revert b. induction a as [|x a IH]; intros [|y b]; simpl; try done.
  destruct (Z.compare_spec x y) as [->|?|?]; [|done|done]. intros H. f_equal. by apply IH.
Qed.

Lemma compare_antisym (a b : bytes) : compare b a = CompOpp (compare a b).
Proof.
  revert b. induction a as [|x a IH]; intros [|y b]; simpl; try done.
  rewrite (Z.compare_antisym x y). destruct (Z.compare x y); simpl; [apply IH|done|done].
Qed.

Lemma compare_lt_trans (a b c : bytes) :
  compare a b = Lt -> compare b c = Lt -> compare a c = Lt.
Proof.
  revert b c. induction a as [|x a IH]; intros [|y b] [|z c]; simpl; try done.
  destruct (Z.compare_spec x y) as [->|?|?]; [|intros _|done];
  destruct (Z.compare_spec y z) as [->|?|?]; try done.
  - apply IH.
  - by rewrite (proj2 (Z.compare_lt_iff _ _)) by lia.
  - by rewrite (proj2 (Z.compare_lt_iff _ _)) by lia.
Qed.

Lemma compare_app (p a b : bytes) : compare (p ++ a) (p ++ b) = compare a b.
Proof. induction p as [|x p IH]; simpl; [done|]. by rewrite Z.compare_refl. Qed.

Lemma lt_bytes_lt (a b : bytes) : lt_bytes a b = true <-> compare a b = Lt.
Proof. unfold lt_bytes. by destruct (compare a b). Qed.

Lemma lt_bytes_irrefl (a : bytes) : lt_bytes a a = false.
Proof. unfold lt_bytes. by rewrite compare_refl. Qed.

Lemma lt_bytes_trans (a b c : bytes) :
  lt_bytes a b = true -> lt_bytes b c = true -> lt_bytes a c = true.
Proof. rewrite !lt_bytes_lt. apply compare_lt_trans. Qed.

Lemma le_str_lt_trans (a b c : bytes) :
  le_str a b = true -> lt_bytes b c = true -> lt_bytes a c = true.
Proof.
  unfold le_str. destruct (compare a b) eqn:E; [by apply compare_eq in E as ->| |done].
  intros _. apply lt_bytes_trans. by apply lt_bytes_lt.
Qed.

Lemma lt_le_str_trans (a b c : bytes) :
  lt_bytes a b = true -> le_str b c = true -> lt_bytes a c = true.
Proof.
  intros Hab. unfold le_str. destruct (compare b c) eqn:E; [by apply compare_eq in E as ->| |done].
  intros _. eapply lt_bytes_trans; [done|]. by apply lt_bytes_lt.
Qed.

Lemma lt_bytes_le (a b : bytes) : lt_bytes a b = true -> le_str a b = true.
Proof. unfold lt_bytes, le_str. by destruct (compare a b). Qed.

Lemma le_str_refl (a : bytes) : le_str a a = true.
Proof. unfold le_str. by rewrite compare_refl. Qed.

(** The order is total: not below is above or equal. *)
Lemma lt_bytes_negb (a b : bytes) : lt_bytes a b = negb (le_str b a).
Proof. unfold lt_bytes, le_str. rewrite (compare_antisym a b). by destruct (compare a b). Qed.

Lemma lt_bytes_false (a b : bytes) : lt_bytes a b = false <-> le_str b a = true.
Proof. rewrite lt_bytes_negb, negb_false_iff. done. Qed.

Lemma le_str_trans (a b c : bytes) :
  le_str a b = true -> le_str b c = true -> le_str a c = true.
Proof.
  intros Hab Hbc. apply lt_bytes_false. destruct (lt_bytes c a) eqn:E; [|done].
  pose proof (lt_le_str_trans _ _ _ E Hab) as H. apply lt_bytes_false in Hbc. congruence.
Qed.

(** A prefix is at most the string. *)
Lemma le_str_prefix (a b : bytes) : le_str a (a ++ b) = true.
Proof. unfold le_str. rewrite <- (app_nil_r a) at 1. rewrite compare_app. by destruct b. Qed.

#[export] Hint Resolve lt_bytes_trans le_str_lt_trans lt_le_str_trans lt_bytes_le le_str_refl
  le_str_trans le_str_prefix : bytes.

(** Byte strings of strictly increasing order, as tables hold them. *)
Definition sorted_keys (ks : list bytes) : Prop :=
  StronglySorted (fun a b => lt_bytes a b = true) ks.
