(* ===== verification/Coding.v ===== *)
(** Fixed-width and variable-length integers.

    [tsl/platform/coding.cc] and [tsl/platform/raw_coding.h]: the little-endian
    encodings of 16, 32 and 64 bits and the varints of 32 and 64 bits.  A
    writer returns the bytes it stores, a [Put] appends them, a decoder takes
    the bytes between its pointer and its limit and returns the value with the
    bytes that remain, [None] for [nullptr].

    The theorems: the fixed-width encodings are little-endian on hosts of both
    byte orders and decode to the value; both varint writers write the same
    base-128 representation, whose length is [VarintLength] and fits the buffer
    the caller reserves; decoding returns the value and the bytes that follow
    it, refuses every proper prefix of an encoding, and consumes at most 5 (10)
    bytes of any input. *)
From S2P Require Import Prelude Bytes.

(** [port::kLittleEndian], the constant of the platform the code is built for. *)
Class ByteOrder : Type := kLittleEndian : bool.

Module Coding.

Section Fixed.
Context {bo : ByteOrder}.

(** The [n] bytes of an unsigned integer in the memory of the host. *)
Definition object_bytes (n : nat) (v : Z) : bytes :=
  if kLittleEndian then le_bytes n v else rev (le_bytes n v).

(** The unsigned integer whose object representation is [l]. *)
Definition object_value (l : bytes) : Z :=
  if kLittleEndian then le_value l else le_value (rev l).

(** ** Writers *)

Definition EncodeFixed16 (value : Z) : bytes :=
  if kLittleEndian then object_bytes 2 value
  else [Z.land value 255; Z.land (Z.shiftr value 8) 255].

Definition EncodeFixed32 (value : Z) : bytes :=
  if kLittleEndian then object_bytes 4 value
  else [Z.land value 255; Z.land (Z.shiftr value 8) 255;
        Z.land (Z.shiftr value 16) 255; Z.land (Z.shiftr value 24) 255].

Definition EncodeFixed64 (value : Z) : bytes :=
  if kLittleEndian then object_bytes 8 value
  else [Z.land value 255; Z.land (Z.shiftr value 8) 255;
        Z.land (Z.shiftr value 16) 255; Z.land (Z.shiftr value 24) 255;
        Z.land (Z.shiftr value 32) 255; Z.land (Z.shiftr value 40) 255;
        Z.land (Z.shiftr value 48) 255; Z.land (Z.shiftr value 56) 255].

Definition PutFixed16 (dst : bytes) (value : Z) : bytes := dst ++ EncodeFixed16 value.
Definition PutFixed32 (dst : bytes) (value : Z) : bytes := dst ++ EncodeFixed32 value.
Definition PutFixed64 (dst : bytes) (value : Z) : bytes := dst ++ EncodeFixed64 value.

(** ** Readers, of the bytes at the pointer *)

Definition DecodeFixed16 (ptr : bytes) : Z :=
  if kLittleEndian then object_value (take 2 ptr)
  else Z.lor (nth 0 ptr 0) (wrap_u16 (Z.shiftl (nth 1 ptr 0) 8)).

Definition DecodeFixed32 (ptr : bytes) : Z :=
  if kLittleEndian then object_value (take 4 ptr)
  else Z.lor (Z.lor (Z.lor (nth 0 ptr 0) (wrap_u32 (Z.shiftl (nth 1 ptr 0) 8)))
                    (wrap_u32 (Z.shiftl (nth 2 ptr 0) 16)))
             (wrap_u32 (Z.shiftl (nth 3 ptr 0) 24)).

Definition DecodeFixed64 (ptr : bytes) : Z :=
  if kLittleEndian then object_value (take 8 ptr)
  else
    let lo := DecodeFixed32 ptr in
    let hi := DecodeFixed32 (drop 4 ptr) in
    Z.lor (wrap_u64 (Z.shiftl hi 32)) lo.

End Fixed.

(** ** Varints *)

Definition B : Z := 128.

Definition EncodeVarint32 (v : Z) : bytes :=
  if v <? Z.shiftl 1 7 then
    [wrap_u8 v]
  else if v <? Z.shiftl 1 14 then
    [wrap_u8 (Z.lor v B); wrap_u8 (Z.shiftr v 7)]
  else if v <? Z.shiftl 1 21 then
    [wrap_u8 (Z.lor v B); wrap_u8 (Z.lor (Z.shiftr v 7) B); wrap_u8 (Z.shiftr v 14)]
  else if v <? Z.shiftl 1 28 then
    [wrap_u8 (Z.lor v B); wrap_u8 (Z.lor (Z.shiftr v 7) B);
     wrap_u8 (Z.lor (Z.shiftr v 14) B); wrap_u8 (Z.shiftr v 21)]
  else
    [wrap_u8 (Z.lor v B); wrap_u8 (Z.lor (Z.shiftr v 7) B);
     wrap_u8 (Z.lor (Z.shiftr v 14) B); wrap_u8 (Z.lor (Z.shiftr v 21) B);
     wrap_u8 (Z.shiftr v 28)].

Definition PutVarint32 (dst : bytes) (v : Z) : bytes := dst ++ EncodeVarint32 v.

(** The loop [while (v >= B)] of [EncodeVarint64]; it runs at most nine times on
    a [uint64], which [EncodeVarint64_loop] states. *)
Fixpoint encode_varint64_loop (fuel : nat) (v : Z) : bytes :=
  match fuel with
  | S fuel' =>
      if B <=? v then
        wrap_u8 (Z.lor (Z.land v (B - 1)) B) :: encode_varint64_loop fuel' (Z.shiftr v 7)
      else [wrap_u8 v]
  | O => [wrap_u8 v]
  end.

Definition EncodeVarint64 (v : Z) : bytes := encode_varint64_loop 9 v.

Definition PutVarint64 (dst : bytes) (v : Z) : bytes := dst ++ EncodeVarint64 v.

(** The loop [while (v >= 128)] of [VarintLength]. *)
Fixpoint varint_length_loop (fuel : nat) (v len : Z) : Z :=
  match fuel with
  | S fuel' =>
      if 128 <=? v then varint_length_loop fuel' (Z.shiftr v 7) (len + 1) else len
  | O => len
  end.

Definition VarintLength (v : Z) : Z := varint_length_loop 9 v 1.

(** The loop [for (shift = 0; shift <= 28 && p < limit; shift += 7)]; the
    arithmetic is that of [uint32]. *)
Fixpoint GetVarint32PtrFallback_loop (shift result : Z) (p : bytes) : option (Z * bytes) :=
  match p with
  | [] => None
  | byte :: p' =>
      if shift <=? 28 then
        if negb (Z.land byte 128 =? 0) then
          GetVarint32PtrFallback_loop (shift + 7)
            (Z.lor result (wrap_u32 (Z.shiftl (Z.land byte 127) shift))) p'
        else Some (Z.lor result (wrap_u32 (Z.shiftl byte shift)), p')
      else None
  end.

Definition GetVarint32PtrFallback (p : bytes) : option (Z * bytes) :=
  GetVarint32PtrFallback_loop 0 0 p.

Definition GetVarint32Ptr (p : bytes) : option (Z * bytes) :=
  match p with
  | result :: p' =>
      if Z.land result 128 =? 0 then Some (result, p') else GetVarint32PtrFallback p
  | [] => GetVarint32PtrFallback p
  end.

(** [GetVarint32] advances its [StringPiece] past the varint. *)
Definition GetVarint32 (input : bytes) : option (Z * bytes) :=
  match GetVarint32Ptr input with
  | None => None
  | Some (value, q) => Some (value, q)
  end.

Fixpoint GetVarint64Ptr_loop (shift result : Z) (p : bytes) : option (Z * bytes) :=
  match p with
  | [] => None
  | byte :: p' =>
      if shift <=? 63 then
        if negb (Z.land byte 128 =? 0) then
          GetVarint64Ptr_loop (shift + 7)
            (Z.lor result (wrap_u64 (Z.shiftl (Z.land byte 127) shift))) p'
        else Some (Z.lor result (wrap_u64 (Z.shiftl byte shift)), p')
      else None
  end.

Definition GetVarint64Ptr (p : bytes) : option (Z * bytes) := GetVarint64Ptr_loop 0 0 p.

Definition GetVarint64 (input : bytes) : option (Z * bytes) :=
  match GetVarint64Ptr input with
  | None => None
  | Some (value, q) => Some (value, q)
  end.

(** ** The base-128 representation *)

(** The reference: the seven-bit groups of [v], the least significant one
    first, every group but the last with the high bit set. *)
Fixpoint base128 (fuel : nat) (v : Z) : bytes :=
  match fuel with
  | S fuel' => if v <? 128 then [v] else (v mod 128 + 128) :: base128 fuel' (v / 128)
  | O => [v]
  end.

(** Both decoding loops, with the last shift and the width of the result. *)
Fixpoint varint_loop (last width shift result : Z) (p : bytes) : option (Z * bytes) :=
  match p with
  | [] => None
  | byte :: p' =>
      if shift <=? last then
        if negb (Z.land byte 128 =? 0) then
          varint_loop last width (shift + 7)
            (Z.lor result (Z.shiftl (Z.land byte 127) shift mod 2 ^ width)) p'
        else Some (Z.lor result (Z.shiftl byte shift mod 2 ^ width), p')
      else None
  end.

#[global] Arguments EncodeVarint32 : simpl never.
#[global] Arguments EncodeVarint64 : simpl never.
#[global] Arguments VarintLength : simpl never.

(** ** Bits *)

(** A decidable fact about bytes holds when it holds of all 256 of them. *)
Lemma u8_forall (P : Z -> bool) (b : Z) :
  forallb P (seqZ 0 256) = true -> in_u8 b -> P b = true.
Proof.
  intros H Hb. eapply forallb_forall in H; [done|]. apply list_elem_of_In, elem_of_seqZ.
  unfold in_u8 in Hb. lia.
Qed.

Lemma land_128 (b : Z) : in_u8 b -> (Z.land b 128 =? 0) = (b <? 128).
Proof.
  intros Hb. apply eqb_prop.
  exact (u8_forall (fun b => Bool.eqb (Z.land b 128 =? 0) (b <? 128)) b eq_refl Hb).
Qed.

Lemma land_127 (b : Z) : Z.land b 127 = b mod 128.
Proof. exact (Z.land_ones b 7 ltac:(lia)). Qed.

Lemma land_255 (v : Z) : Z.land v 255 = v mod 256.
Proof. exact (Z.land_ones v 8 ltac:(lia)). Qed.

Lemma lor_128 (b : Z) : in_u8 b -> Z.lor b 128 = b mod 128 + 128.
Proof.
  intros Hb. apply Z.eqb_eq.
  exact (u8_forall (fun b => Z.lor b 128 =? b mod 128 + 128) b eq_refl Hb).
Qed.

Lemma wrap_u8_lor_128 (v : Z) : wrap_u8 (Z.lor v 128) = v mod 128 + 128.
Proof.
  unfold wrap_u8. rewrite <- Z.land_ones, Z.land_lor_distr_l by lia.
  change (Z.land 128 (Z.ones 8)) with 128. rewrite Z.land_ones by lia.
  rewrite lor_128 by (apply wrap_u8_range). f_equal.
  change (2 ^ 8) with (128 * 2). rewrite Z.rem_mul_r by lia.
  rewrite Z.add_mod, (Z.mul_comm 128), Z.mod_mul, Z.add_0_r, !Z.mod_mod by lia. done.
Qed.

(** Bits above [s] join a number below [2 ^ s] without carries. *)
Lemma lor_shiftl_add (r v s : Z) :
  0 <= s -> 0 <= r < 2 ^ s -> Z.lor r (Z.shiftl v s) = r + v * 2 ^ s.
Proof.
  intros Hs Hr. rewrite <- Z.shiftl_mul_pow2 by lia.
  assert (Z.land r (Z.shiftl v s) = 0) as Hd.
  { apply Z.bits_inj'. intros i Hi. rewrite Z.land_spec, Z.bits_0.
    destruct (Z.ltb_spec i s).
    - by rewrite Z.shiftl_spec_low, andb_false_r by lia.
    - rewrite <- (Z.mod_small r (2 ^ s)) by lia.
      by rewrite Z.mod_pow2_bits_high by lia. }
  rewrite <- Z.lxor_lor by done. symmetry. by apply Z.add_nocarry_lxor.
Qed.

Lemma lor_shiftl_wrap (r v s w : Z) :
  0 <= s -> 0 <= r < 2 ^ s -> 0 <= v -> v * 2 ^ s < 2 ^ w ->
  Z.lor r (Z.shiftl v s mod 2 ^ w) = r + v * 2 ^ s.
Proof.
  intros Hs Hr Hv Hw. rewrite Z.mod_small; [by apply lor_shiftl_add|].
  rewrite Z.shiftl_mul_pow2 by lia. nia.
Qed.

(** ** Fixed widths *)

Section FixedLemmas.
Context {bo : ByteOrder}.

Ltac fixed_bytes :=
  rewrite ?land_255, ?Z.shiftr_div_pow2, ?Z.div_div by lia; done.

Lemma EncodeFixed32_le (v : Z) : EncodeFixed32 v = le_bytes 4 v.
Proof.
  unfold EncodeFixed32, object_bytes. destruct kLittleEndian; [done|]. cbn [le_bytes]. fixed_bytes.
Qed.

Lemma EncodeFixed16_le (v : Z) : EncodeFixed16 v = le_bytes 2 v.
Proof.
  unfold EncodeFixed16, object_bytes. destruct kLittleEndian; [done|]. cbn [le_bytes]. fixed_bytes.
Qed.

Lemma EncodeFixed64_le (v : Z) : EncodeFixed64 v = le_bytes 8 v.
Proof.
  unfold EncodeFixed64, object_bytes. destruct kLittleEndian; [done|]. cbn [le_bytes]. fixed_bytes.
Qed.

(** Opens the next byte of a string that is long enough. *)
Ltac open_byte l Hok :=
  destruct l as [|? l]; [cbn in *; lia|]; apply Forall_cons in Hok as [? Hok].

Lemma DecodeFixed32_le (l : bytes) :
  bytes_ok l -> (4 <= length l)%nat -> DecodeFixed32 l = le_value (take 4 l).
Proof.
  intros Hok Hl. unfold DecodeFixed32, object_value. destruct kLittleEndian; [done|].
  do 4 open_byte l Hok.
  cbn [take nth le_value]. rewrite ?take_0. cbn [le_value]. unfold in_u8, wrap_u32 in *.
  rewrite (lor_shiftl_wrap _ _ 8), (lor_shiftl_wrap _ _ 16), (lor_shiftl_wrap _ _ 24) by lia. lia.
Qed.

Lemma DecodeFixed16_le (l : bytes) :
  bytes_ok l -> (2 <= length l)%nat -> DecodeFixed16 l = le_value (take 2 l).
Proof.
  intros Hok Hl. unfold DecodeFixed16, object_value. destruct kLittleEndian; [done|].
  do 2 open_byte l Hok.
  cbn [take nth le_value]. rewrite ?take_0. cbn [le_value]. unfold in_u8, wrap_u16 in *.
  rewrite !lor_shiftl_wrap by lia. lia.
Qed.

Lemma DecodeFixed64_le (l : bytes) :
  bytes_ok l -> (8 <= length l)%nat -> DecodeFixed64 l = le_value (take 8 l).
Proof.
  intros Hok Hl. unfold DecodeFixed64. destruct kLittleEndian eqn:E; [by unfold object_value; rewrite E|].
  rewrite (DecodeFixed32_le l) by (done || lia).
  rewrite (DecodeFixed32_le (drop 4 l)) by (rewrite ?length_drop; lia || by apply bytes_ok_drop).
  do 8 open_byte l Hok.
  cbn [take drop le_value]. rewrite ?take_0. cbn [le_value]. unfold in_u8, wrap_u64 in *.
  rewrite Z.lor_comm, lor_shiftl_wrap by lia. lia.
Qed.

Lemma DecodeFixed32_bytes (v : Z) (rest : bytes) :
  in_u32 v -> bytes_ok rest -> DecodeFixed32 (le_bytes 4 v ++ rest) = v.
Proof.
  intros Hv Hr. rewrite DecodeFixed32_le by (apply le_bytes_app_ok; done).
  by apply le_value_take_app.
Qed.

Lemma DecodeFixed32_word (v : Z) : in_u32 v -> DecodeFixed32 (le_bytes 4 v) = v.
Proof. intros Hv. rewrite <- (app_nil_r (le_bytes 4 v)). apply DecodeFixed32_bytes; [done|constructor]. Qed.

Lemma DecodeFixed64_bytes (v : Z) (rest : bytes) :
  in_u64 v -> bytes_ok rest -> DecodeFixed64 (le_bytes 8 v ++ rest) = v.
Proof.
  intros Hv Hr. rewrite DecodeFixed64_le by (apply le_bytes_app_ok; done).
  by apply le_value_take_app.
Qed.

Lemma DecodeFixed16_bytes (v : Z) (rest : bytes) :
  in_u16 v -> bytes_ok rest -> DecodeFixed16 (le_bytes 2 v ++ rest) = v.
Proof.
  intros Hv Hr. rewrite DecodeFixed16_le by (apply le_bytes_app_ok; done).
  by apply le_value_take_app.
Qed.

Lemma DecodeFixed32_range (l : bytes) :
  bytes_ok l -> (4 <= length l)%nat -> in_u32 (DecodeFixed32 l).
Proof.
  intros Hok Hl. rewrite DecodeFixed32_le by done.
  pose proof (le_value_range (take 4 l) (bytes_ok_take _ _ Hok)) as Hr.
  unfold size in Hr. rewrite length_take in Hr. replace (8 * _) with 32 in Hr by lia. done.
Qed.

Lemma DecodeFixed64_range (l : bytes) :
  bytes_ok l -> (8 <= length l)%nat -> in_u64 (DecodeFixed64 l).
Proof.
  intros Hok Hl. rewrite DecodeFixed64_le by done.
  pose proof (le_value_range (take 8 l) (bytes_ok_take _ _ Hok)) as Hr.
  unfold size in Hr. rewrite length_take in Hr. replace (8 * _) with 64 in Hr by lia. done.
Qed.

End FixedLemmas.

(** ** Varints *)

Lemma GetVarint32PtrFallback_loop_eq (shift result : Z) (p : bytes) :
  GetVarint32PtrFallback_loop shift result p = varint_loop 28 32 shift result p.
Proof.
  revert shift result. induction p as [|b p IH]; intros; cbn; [done|]. by rewrite IH.
Qed.

Lemma GetVarint64Ptr_loop_eq (shift result : Z) (p : bytes) :
  GetVarint64Ptr_loop shift result p = varint_loop 63 64 shift result p.
Proof.
  revert shift result. induction p as [|b p IH]; intros; cbn; [done|]. by rewrite IH.
Qed.

Lemma option_pair_eta {A C : Type} (o : option (A * C)) :
  match o with None => None | Some (a, c) => Some (a, c) end = o.
Proof. by destruct o as [[? ?]|]. Qed.

(** The test for a one-byte varint only saves the loop. *)
Lemma GetVarint32_eq (p : bytes) : bytes_ok p -> GetVarint32 p = varint_loop 28 32 0 0 p.
Proof.
  intros Hp. unfold GetVarint32, GetVarint32Ptr, GetVarint32PtrFallback.
  destruct p as [|b p]; [done|]. rewrite GetVarint32PtrFallback_loop_eq.
  apply Forall_cons in Hp as [Hb _]. cbn [varint_loop].
  destruct (Z.land b 128 =? 0); cbn [negb].
  - rewrite Z.shiftl_0_r, Z.lor_0_l, Z.mod_small by (unfold in_u8 in Hb; lia). done.
  - apply option_pair_eta.
Qed.

Lemma GetVarint64_eq (p : bytes) : GetVarint64 p = varint_loop 63 64 0 0 p.
Proof.
  unfold GetVarint64, GetVarint64Ptr. rewrite GetVarint64Ptr_loop_eq.
  apply option_pair_eta.
Qed.

(** What fits [fuel + 1] groups, as the loops need it. *)
Lemma group_bound (fuel : nat) (v : Z) :
  0 <= v < 2 ^ (7 * Z.of_nat (S (S fuel))) ->
  0 <= v / 128 < 2 ^ (7 * Z.of_nat (S fuel)).
Proof.
  replace (7 * Z.of_nat (S (S fuel))) with (7 + 7 * Z.of_nat (S fuel)) by lia.
  rewrite Z.pow_add_r by lia. intros Hv.
  split; [apply Z.div_pos; lia|]. apply Z.div_lt_upper_bound; lia.
Qed.

Lemma base128_fuel (fuel more : nat) (v : Z) :
  0 <= v < 2 ^ (7 * Z.of_nat (S fuel)) -> base128 (fuel + more) v = base128 fuel v.
Proof.
  revert v. induction fuel as [|fuel IH]; intros v Hv; cbn [base128 Nat.add].
  - destruct more; [done|]. cbn. rewrite (proj2 (Z.ltb_lt _ _)); [done|]. cbn in Hv. lia.
  - case_if; [done|]. f_equal. apply IH. by apply group_bound.
Qed.

Lemma base128_ok (fuel : nat) (v : Z) :
  0 <= v < 2 ^ (7 * Z.of_nat (S fuel)) -> bytes_ok (base128 fuel v).
Proof.
  revert v. induction fuel as [|fuel IH]; intros v Hv; cbn [base128].
  - constructor; [|done]. cbn in Hv. unfold in_u8. lia.
  - case_if; constructor; try done; unfold in_u8; [lia| |].
    + pose proof (Z.mod_pos_bound v 128). lia.
    + apply IH. by apply group_bound.
Qed.

Lemma base128_length (fuel : nat) (v : Z) : (1 <= length (base128 fuel v) <= S fuel)%nat.
Proof.
  revert v. induction fuel as [|fuel IH]; intros v; cbn; [lia|].
  case_if; cbn; [lia|]. specialize (IH (v / 128)). lia.
Qed.

Lemma EncodeVarint64_base128_loop (fuel : nat) (v : Z) :
  0 <= v < 2 ^ (7 * Z.of_nat (S fuel)) -> encode_varint64_loop fuel v = base128 fuel v.
Proof.
  revert v. induction fuel as [|fuel IH]; intros v Hv; cbn [encode_varint64_loop base128].
  - cbn in Hv. rewrite wrap_u8_id; [done|]. unfold in_u8. lia.
  - unfold B. rewrite Z.leb_antisym. destruct (Z.ltb_spec v 128); cbn [negb].
    + rewrite wrap_u8_id; [done|]. unfold in_u8. lia.
    + rewrite Z.shiftr_div_pow2, IH by (lia || by apply group_bound). f_equal.
      rewrite wrap_u8_lor_128. change (128 - 1) with 127.
      rewrite land_127, Z.mod_mod by lia. done.
Qed.

Lemma EncodeVarint64_base128 (v : Z) : in_u64 v -> EncodeVarint64 v = base128 9 v.
Proof. intros Hv. apply EncodeVarint64_base128_loop. unfold in_u64 in Hv. cbn. lia. Qed.

Lemma EncodeVarint32_base128 (v : Z) : in_u32 v -> EncodeVarint32 v = base128 4 v.
Proof.
  intros Hv. unfold EncodeVarint32, in_u32 in *. cbn [base128]. unfold B.
  rewrite !wrap_u8_lor_128, !Z.shiftr_div_pow2, !Z.div_div by lia.
  change (Z.shiftl 1 7) with 128. change (Z.shiftl 1 14) with (128 * 128).
  change (Z.shiftl 1 21) with (128 * 128 * 128).
  change (Z.shiftl 1 28) with (128 * 128 * 128 * 128).
  repeat match goal with
  | |- context [?a / ?b <? 128] =>
      replace (a / b <? 128) with (a <? b * 128) by
        (apply eq_true_iff_eq; rewrite !Z.ltb_lt; dlia)
  end.
  change (2 ^ 7) with 128. change (2 ^ 14) with (128 * 128).
  change (2 ^ 21) with (128 * 128 * 128). change (2 ^ 28) with (128 * 128 * 128 * 128).
  repeat case_if; try lia; by rewrite wrap_u8_id by (unfold in_u8; dlia).
Qed.

Lemma varint_length_loop_base128 (fuel : nat) (v len : Z) :
  0 <= v < 2 ^ (7 * Z.of_nat (S fuel)) ->
  varint_length_loop fuel v len = len + size (base128 fuel v) - 1.
Proof.
  revert v len. induction fuel as [|fuel IH]; intros v len Hv; cbn [varint_length_loop base128].
  - unfold size. simpl. lia.
  - rewrite Z.leb_antisym. destruct (Z.ltb_spec v 128); cbn [negb]; [unfold size; simpl; lia|].
    rewrite Z.shiftr_div_pow2 by lia. change (2 ^ 7) with 128.
    rewrite IH, size_cons by by apply group_bound. lia.
Qed.

(** Decoding a representation: the groups above [shift] join the result. *)
Lemma varint_loop_base128 (last width : Z) (rest : bytes) (fuel : nat) (shift r v : Z) :
  0 <= shift -> shift + 7 * Z.of_nat fuel <= last ->
  0 <= v < 2 ^ (7 * Z.of_nat (S fuel)) -> 0 <= r < 2 ^ shift -> v * 2 ^ shift < 2 ^ width ->
  varint_loop last width shift r (base128 fuel v ++ rest) = Some (r + v * 2 ^ shift, rest).
Proof.
  revert shift r v. induction fuel as [|fuel IH]; intros s r v Hs Hl Hv Hr Hw; cbn [base128].
  - cbn [app varint_loop]. cbn in Hv. rewrite (proj2 (Z.leb_le _ _)) by lia.
    rewrite land_128 by (unfold in_u8; lia). rewrite (proj2 (Z.ltb_lt _ _)) by lia. cbn [negb].
    by rewrite lor_shiftl_wrap by (done || lia).
  - destruct (Z.ltb_spec v 128) as [Hv'|Hv']; cbn [app varint_loop];
      rewrite (proj2 (Z.leb_le _ _)) by lia.
    + rewrite land_128 by (unfold in_u8; lia). rewrite (proj2 (Z.ltb_lt _ _)) by lia. cbn [negb].
      by rewrite lor_shiftl_wrap by (done || lia).
    + pose proof (Z.mod_pos_bound v 128 ltac:(lia)) as Hm.
      rewrite land_128 by (unfold in_u8; lia). rewrite (proj2 (Z.ltb_ge _ _)) by lia. cbn [negb].
      assert (v = 128 * (v / 128) + v mod 128) as Hd by (apply Z.div_mod; lia).
      rewrite land_127, (Z.add_mod _ 128), Z.mod_same, Z.add_0_r, !Z.mod_mod by lia.
      assert (0 < 2 ^ s) by (apply Z.pow_pos_nonneg; lia).
      rewrite lor_shiftl_wrap by (done || lia || nia).
      rewrite IH; rewrite ?Z.pow_add_r by lia; try lia.
      * f_equal. f_equal. change (2 ^ 7) with 128. nia.
      * by apply group_bound.
      * change (2 ^ 7) with 128. nia.
Qed.

(** A representation whose last byte is missing is refused. *)
Lemma varint_loop_prefix (last width : Z) (p q : bytes) (fuel : nat) (shift r v : Z) :
  0 <= v < 2 ^ (7 * Z.of_nat (S fuel)) -> base128 fuel v = p ++ q -> q <> [] ->
  varint_loop last width shift r p = None.
Proof.
  revert fuel shift r v. induction p as [|b p IH]; intros fuel s r v Hv Heq Hq; [done|].
  destruct fuel as [|fuel]; cbn [base128 app] in Heq.
  { by injection Heq as _ [_ ->]%eq_sym%app_eq_nil. }
  destruct (Z.ltb_spec v 128) as [Hv'|Hv'].
  { by injection Heq as _ [_ ->]%eq_sym%app_eq_nil. }
  injection Heq as <- Heq. cbn [varint_loop]. case_if; [|done].
  pose proof (Z.mod_pos_bound v 128 ltac:(lia)) as Hm.
  rewrite land_128 by (unfold in_u8; lia). rewrite (proj2 (Z.ltb_ge _ _)) by lia. cbn [negb].
  eapply IH; [|done|done]. by apply group_bound.
Qed.

(** Whatever the input: the bytes consumed are a prefix of it, one per shift,
    all but the last with the high bit set, and the value has the width. *)
Lemma varint_loop_consumes (last width : Z) (p : bytes) (shift r v : Z) (rest : bytes) :
  bytes_ok p -> 0 <= width -> 0 <= r < 2 ^ width ->
  varint_loop last width shift r p = Some (v, rest) ->
  0 <= v < 2 ^ width /\
  exists used b, p = used ++ b :: rest /\ shift + 7 * size used <= last /\
    Forall (fun b => 128 <= b) used /\ b < 128.
Proof.
  intros Hp Hw. revert shift r. induction p as [|b p IH]; intros s r Hr; cbn [varint_loop]; [done|].
  apply Forall_cons in Hp as [Hb Hp]. case_if; [|done].
  assert (forall x, 0 <= Z.lor r (x mod 2 ^ width) < 2 ^ width) as Hlor.
  { intros x. split.
    - apply Z.lor_nonneg. split; [lia|]. apply Z.mod_pos_bound. apply Z.pow_pos_nonneg; lia.
    - rewrite <- (Z.mod_small r (2 ^ width)) by done.
      rewrite <- !Z.land_ones, <- Z.land_lor_distr_l, Z.land_ones by lia.
      apply Z.mod_pos_bound. apply Z.pow_pos_nonneg; lia. }
  rewrite land_128 by done. destruct (Z.ltb_spec b 128) as [Hlt|Hge]; cbn [negb]; intros Hs.
  - injection Hs as <- <-. split; [apply Hlor|]. exists [], b. split_and!; [done|unfold size; simpl; lia|done|done].
  - apply IH in Hs as (? & used & b' & -> & Hl & Hu & ?); [|done|apply Hlor].
    split; [done|]. exists (b :: used), b'. rewrite size_cons.
    split_and!; [done|lia|by constructor|done].
Qed.

(** ** The varint functions *)

Lemma u32_groups (v : Z) : in_u32 v -> 0 <= v < 2 ^ (7 * Z.of_nat 5).
Proof. unfold in_u32. simpl. lia. Qed.

Lemma u64_groups (v : Z) : in_u64 v -> 0 <= v < 2 ^ (7 * Z.of_nat 10).
Proof. unfold in_u64. simpl. lia. Qed.

(** The loop of the writer, unfolded: the model never runs out of iterations. *)
Lemma EncodeVarint64_loop (v : Z) :
  in_u64 v ->
  EncodeVarint64 v =
  if B <=? v then wrap_u8 (Z.lor (Z.land v (B - 1)) B) :: EncodeVarint64 (Z.shiftr v 7)
  else [wrap_u8 v].
Proof.
  intros Hv. transitivity (if B <=? v
    then wrap_u8 (Z.lor (Z.land v (B - 1)) B) :: encode_varint64_loop 8 (Z.shiftr v 7)
    else [wrap_u8 v]); [done|].
  unfold B. destruct (Z.leb_spec 128 v); [|done]. f_equal.
  rewrite Z.shiftr_div_pow2 by lia. unfold in_u64 in Hv.
  assert (in_u64 (v / 2 ^ 7)) by (unfold in_u64; dlia).
  rewrite EncodeVarint64_base128_loop by (simpl; dlia).
  by rewrite EncodeVarint64_base128, (base128_fuel 8 1) by (done || simpl; dlia).
Qed.

(** Both writers agree on 32-bit values. *)
Lemma EncodeVarint32_64 (v : Z) : in_u32 v -> EncodeVarint32 v = EncodeVarint64 v.
Proof.
  intros Hv. rewrite EncodeVarint32_base128 by done.
  rewrite EncodeVarint64_base128 by (unfold in_u64; unfold in_u32 in Hv; lia).
  symmetry. apply (base128_fuel 4 5). by apply u32_groups.
Qed.

Lemma EncodeVarint64_ok (v : Z) : in_u64 v -> bytes_ok (EncodeVarint64 v).
Proof. intros Hv. rewrite EncodeVarint64_base128 by done. by apply base128_ok, u64_groups. Qed.

Lemma EncodeVarint32_ok (v : Z) : in_u32 v -> bytes_ok (EncodeVarint32 v).
Proof. intros Hv. rewrite EncodeVarint32_base128 by done. by apply base128_ok, u32_groups. Qed.

Lemma EncodeVarint32_size (v : Z) : in_u32 v -> 1 <= size (EncodeVarint32 v) <= 5.
Proof.
  intros Hv. rewrite EncodeVarint32_base128 by done. pose proof (base128_length 4 v).
  unfold size. lia.
Qed.

Lemma EncodeVarint64_size (v : Z) : in_u64 v -> 1 <= size (EncodeVarint64 v) <= 10.
Proof.
  intros Hv. rewrite EncodeVarint64_base128 by done. pose proof (base128_length 9 v).
  unfold size. lia.
Qed.

Lemma VarintLength_size (v : Z) : in_u64 v -> VarintLength v = size (EncodeVarint64 v).
Proof.
  intros Hv. unfold VarintLength. rewrite varint_length_loop_base128 by by apply u64_groups.
  rewrite EncodeVarint64_base128 by done. lia.
Qed.

Lemma GetVarint32_Encode (v : Z) (rest : bytes) :
  in_u32 v -> bytes_ok rest -> GetVarint32 (EncodeVarint32 v ++ rest) = Some (v, rest).
Proof.
  intros Hv Hr. rewrite GetVarint32_eq by (apply bytes_ok_app; split; [by apply EncodeVarint32_ok|done]).
  rewrite EncodeVarint32_base128 by done.
  rewrite varint_loop_base128; [by rewrite Z.mul_1_r|lia|lia|by apply u32_groups|simpl; lia|].
  unfold in_u32 in Hv. lia.
Qed.

Lemma GetVarint64_Encode (v : Z) (rest : bytes) :
  in_u64 v -> GetVarint64 (EncodeVarint64 v ++ rest) = Some (v, rest).
Proof.
  intros Hv. rewrite GetVarint64_eq, EncodeVarint64_base128 by done.
  rewrite varint_loop_base128; [by rewrite Z.mul_1_r|lia|lia|by apply u64_groups|simpl; lia|].
  unfold in_u64 in Hv. lia.
Qed.

Lemma GetVarint32_Ptr (p : bytes) : GetVarint32 p = GetVarint32Ptr p.
Proof. unfold GetVarint32. apply option_pair_eta. Qed.

(** Fixed-width integers are stored little-endian on hosts of either byte
    order and read back: [PutFixed16/32/64] append the same 2, 4 or 8 bytes
    everywhere, and [DecodeFixed16/32/64] at those bytes, whatever follows
    them, return the value. *)
Theorem fixed_round_trip {bo : ByteOrder} (dst rest : bytes) (v : Z) :
  bytes_ok rest ->
  (PutFixed16 dst v = dst ++ le_bytes 2 v /\
   PutFixed32 dst v = dst ++ le_bytes 4 v /\
   PutFixed64 dst v = dst ++ le_bytes 8 v) /\
  (in_u16 v -> DecodeFixed16 (EncodeFixed16 v ++ rest) = v) /\
  (in_u32 v -> DecodeFixed32 (EncodeFixed32 v ++ rest) = v) /\
  (in_u64 v -> DecodeFixed64 (EncodeFixed64 v ++ rest) = v).
Proof.
  intros Hr. unfold PutFixed16, PutFixed32, PutFixed64.
  rewrite EncodeFixed16_le, EncodeFixed32_le, EncodeFixed64_le.
  split_and!; intros; auto using DecodeFixed16_bytes, DecodeFixed32_bytes, DecodeFixed64_bytes.
Qed.

Lemma fixed_round_trip_witness :
  bytes_ok [7] /\ DecodeFixed32 (bo := false) (EncodeFixed32 (bo := false) 66051 ++ [7]) = 66051.
Proof.
  assert (bytes_ok [7]) as H by (vm_compute; repeat constructor; discriminate).
  split; [exact H|].
  destruct (fixed_round_trip (bo := false) [] [7] 66051 H) as (_ & _ & E & _).
  apply E. unfold in_u32. lia.
Defined.

(** Varints.  [GetVarint32] ([GetVarint64]) at what [PutVarint32]
    ([PutVarint64]) wrote returns the value and exactly the bytes after it; both
    writers write the same bytes for a 32-bit value, [VarintLength] of them, at
    most the 5 (10) of the buffers the callers reserve; a truncated varint is
    refused. *)
Theorem varint_round_trip (v : Z) (rest p q : bytes) :
  in_u64 v -> bytes_ok rest ->
  GetVarint64 (PutVarint64 [] v ++ rest) = Some (v, rest) /\
  size (EncodeVarint64 v) = VarintLength v /\ VarintLength v <= 10 /\
  (EncodeVarint64 v = p ++ q -> q <> [] -> GetVarint64 p = None) /\
  (in_u32 v ->
     GetVarint32 (PutVarint32 [] v ++ rest) = Some (v, rest) /\
     EncodeVarint32 v = EncodeVarint64 v /\ VarintLength v <= 5 /\
     (EncodeVarint32 v = p ++ q -> q <> [] -> GetVarint32 p = None)).
Proof.
  intros Hv Hr. unfold PutVarint64, PutVarint32. cbn [app].
  pose proof (EncodeVarint64_size v Hv) as Hsz. pose proof (VarintLength_size v Hv) as Hlen.
  split_and!; [by apply GetVarint64_Encode|done|lia| |].
  - intros Hpq Hq. rewrite GetVarint64_eq. rewrite EncodeVarint64_base128 in Hpq by done.
    eapply varint_loop_prefix; [by apply u64_groups|done|done].
  - intros Hv32. pose proof (EncodeVarint32_size v Hv32) as Hsz32.
    rewrite EncodeVarint32_64 in Hsz32 by done.
    split_and!; [by apply GetVarint32_Encode|by apply EncodeVarint32_64|lia|].
    intros Hpq Hq. assert (bytes_ok (p ++ q)) as [Hp _]%bytes_ok_app
      by (rewrite <- Hpq; by apply EncodeVarint32_ok).
    rewrite GetVarint32_eq by done. rewrite EncodeVarint32_base128 in Hpq by done.
    eapply varint_loop_prefix; [by apply u32_groups|done|done].
Qed.

Lemma varint_round_trip_witness :
  in_u64 300 /\ bytes_ok [5] /\
  GetVarint64 (PutVarint64 [] 300 ++ [5]) = Some (300, [5]) /\ GetVarint32 [172] = None.
Proof.
  assert (in_u64 300) as H1 by (unfold in_u64; lia).
  assert (bytes_ok [5]) as H2 by (vm_compute; repeat constructor; discriminate).
  destruct (varint_round_trip 300 [5] [172] [2] H1 H2) as (E1 & _ & _ & _ & E2).
  destruct (E2 ltac:(unfold in_u32; lia)) as (_ & _ & _ & E3).
  split; [exact H1|]. split; [exact H2|]. split; [exact E1|].
  apply E3; [reflexivity|discriminate].
Defined.

(** Decoders on arbitrary bytes: a decoded value has the width of its type, and
    what was consumed is a nonempty prefix of at most 5 (10) bytes. *)
Lemma GetVarint32_consumes (p : bytes) (v : Z) (rest : bytes) :
  bytes_ok p -> GetVarint32 p = Some (v, rest) ->
  in_u32 v /\ exists used, p = used ++ rest /\ 1 <= size used <= 5.
Proof.
  intros Hp Hg. rewrite GetVarint32_eq in Hg by done.
  apply varint_loop_consumes in Hg as (Hv & used & b & -> & Hl & _ & _); [|done|lia|lia].
  split; [done|]. exists (used ++ [b]). rewrite size_app, <- app_assoc.
  pose proof (size_nonneg used). split; [done|]. unfold size at 2 4. simpl. lia.
Qed.

Lemma GetVarint64_consumes (p : bytes) (v : Z) (rest : bytes) :
  bytes_ok p -> GetVarint64 p = Some (v, rest) ->
  in_u64 v /\ exists used, p = used ++ rest /\ 1 <= size used <= 10.
Proof.
  intros Hp Hg. rewrite GetVarint64_eq in Hg by done.
  apply varint_loop_consumes in Hg as (Hv & used & b & -> & Hl & _ & _); [|done|lia|lia].
  split; [done|]. exists (used ++ [b]). rewrite size_app, <- app_assoc.
  pose proof (size_nonneg used). split; [done|]. unfold size at 2 4. simpl. lia.
Qed.

End Coding.
