(* ===== verification/Crc32c.v ===== *)
(** The CRC-32C checksum.

    [tsl/lib/hash/crc32c.h], [crc32c.cc] and [crc32c_accelerate.cc]: the
    checksum that blocks and records carry, computed with four tables a word at
    a time, or with the CRC32 instruction of SSE 4.2 where the host has it, and
    the masking of checksums that are stored.  The instruction, and the
    addresses at which buffers lie (they decide where the aligned loop starts),
    belong to the platform and are parameters.

    The theorems: both routines compute the bit-by-bit CRC of the reversed
    Castagnoli polynomial from every address, so [Extend] over two strings is
    [Extend] over their concatenation; two messages of one length that differ by
    a burst of at most 32 bits have different checksums; [Unmask] inverts
    [Mask]. *)
From S2P Require Import Prelude Bytes Coding.

(** What the build and the host provide. *)
Class CrcPlatform : Type := {
  CanAccelerate : bool;
  mm_crc32_u8 : Z -> Z -> Z;
  mm_crc32_u64 : Z -> Z -> Z;
  address : bytes -> Z
}.

Module Crc32c.

(** ** The tables *)

Definition table0_ : list Z :=
  [0x00000000; 0xf26b8303; 0xe13b70f7; 0x1350f3f4; 0xc79a971f; 0x35f1141c; 0x26a1e7e8; 0xd4ca64eb;
   0x8ad958cf; 0x78b2dbcc; 0x6be22838; 0x9989ab3b; 0x4d43cfd0; 0xbf284cd3; 0xac78bf27; 0x5e133c24;
   0x105ec76f; 0xe235446c; 0xf165b798; 0x030e349b; 0xd7c45070; 0x25afd373; 0x36ff2087; 0xc494a384;
   0x9a879fa0; 0x68ec1ca3; 0x7bbcef57; 0x89d76c54; 0x5d1d08bf; 0xaf768bbc; 0xbc267848; 0x4e4dfb4b;
   0x20bd8ede; 0xd2d60ddd; 0xc186fe29; 0x33ed7d2a; 0xe72719c1; 0x154c9ac2; 0x061c6936; 0xf477ea35;
   0xaa64d611; 0x580f5512; 0x4b5fa6e6; 0xb93425e5; 0x6dfe410e; 0x9f95c20d; 0x8cc531f9; 0x7eaeb2fa;
   0x30e349b1; 0xc288cab2; 0xd1d83946; 0x23b3ba45; 0xf779deae; 0x05125dad; 0x1642ae59; 0xe4292d5a;
   0xba3a117e; 0x4851927d; 0x5b016189; 0xa96ae28a; 0x7da08661; 0x8fcb0562; 0x9c9bf696; 0x6ef07595;
   0x417b1dbc; 0xb3109ebf; 0xa0406d4b; 0x522bee48; 0x86e18aa3; 0x748a09a0; 0x67dafa54; 0x95b17957;
   0xcba24573; 0x39c9c670; 0x2a993584; 0xd8f2b687; 0x0c38d26c; 0xfe53516f; 0xed03a29b; 0x1f682198;
   0x5125dad3; 0xa34e59d0; 0xb01eaa24; 0x42752927; 0x96bf4dcc; 0x64d4cecf; 0x77843d3b; 0x85efbe38;
   0xdbfc821c; 0x2997011f; 0x3ac7f2eb; 0xc8ac71e8; 0x1c661503; 0xee0d9600; 0xfd5d65f4; 0x0f36e6f7;
   0x61c69362; 0x93ad1061; 0x80fde395; 0x72966096; 0xa65c047d; 0x5437877e; 0x4767748a; 0xb50cf789;
   0xeb1fcbad; 0x197448ae; 0x0a24bb5a; 0xf84f3859; 0x2c855cb2; 0xdeeedfb1; 0xcdbe2c45; 0x3fd5af46;
   0x7198540d; 0x83f3d70e; 0x90a324fa; 0x62c8a7f9; 0xb602c312; 0x44694011; 0x5739b3e5; 0xa55230e6;
   0xfb410cc2; 0x092a8fc1; 0x1a7a7c35; 0xe811ff36; 0x3cdb9bdd; 0xceb018de; 0xdde0eb2a; 0x2f8b6829;
   0x82f63b78; 0x709db87b; 0x63cd4b8f; 0x91a6c88c; 0x456cac67; 0xb7072f64; 0xa457dc90; 0x563c5f93;
   0x082f63b7; 0xfa44e0b4; 0xe9141340; 0x1b7f9043; 0xcfb5f4a8; 0x3dde77ab; 0x2e8e845f; 0xdce5075c;
   0x92a8fc17; 0x60c37f14; 0x73938ce0; 0x81f80fe3; 0x55326b08; 0xa759e80b; 0xb4091bff; 0x466298fc;
   0x1871a4d8; 0xea1a27db; 0xf94ad42f; 0x0b21572c; 0xdfeb33c7; 0x2d80b0c4; 0x3ed04330; 0xccbbc033;
   0xa24bb5a6; 0x502036a5; 0x4370c551; 0xb11b4652; 0x65d122b9; 0x97baa1ba; 0x84ea524e; 0x7681d14d;
   0x2892ed69; 0xdaf96e6a; 0xc9a99d9e; 0x3bc21e9d; 0xef087a76; 0x1d63f975; 0x0e330a81; 0xfc588982;
   0xb21572c9; 0x407ef1ca; 0x532e023e; 0xa145813d; 0x758fe5d6; 0x87e466d5; 0x94b49521; 0x66df1622;
   0x38cc2a06; 0xcaa7a905; 0xd9f75af1; 0x2b9cd9f2; 0xff56bd19; 0x0d3d3e1a; 0x1e6dcdee; 0xec064eed;
   0xc38d26c4; 0x31e6a5c7; 0x22b65633; 0xd0ddd530; 0x0417b1db; 0xf67c32d8; 0xe52cc12c; 0x1747422f;
   0x49547e0b; 0xbb3ffd08; 0xa86f0efc; 0x5a048dff; 0x8ecee914; 0x7ca56a17; 0x6ff599e3; 0x9d9e1ae0;
   0xd3d3e1ab; 0x21b862a8; 0x32e8915c; 0xc083125f; 0x144976b4; 0xe622f5b7; 0xf5720643; 0x07198540;
   0x590ab964; 0xab613a67; 0xb831c993; 0x4a5a4a90; 0x9e902e7b; 0x6cfbad78; 0x7fab5e8c; 0x8dc0dd8f;
   0xe330a81a; 0x115b2b19; 0x020bd8ed; 0xf0605bee; 0x24aa3f05; 0xd6c1bc06; 0xc5914ff2; 0x37faccf1;
   0x69e9f0d5; 0x9b8273d6; 0x88d28022; 0x7ab90321; 0xae7367ca; 0x5c18e4c9; 0x4f48173d; 0xbd23943e;
   0xf36e6f75; 0x0105ec76; 0x12551f82; 0xe03e9c81; 0x34f4f86a; 0xc69f7b69; 0xd5cf889d; 0x27a40b9e;
   0x79b737ba; 0x8bdcb4b9; 0x988c474d; 0x6ae7c44e; 0xbe2da0a5; 0x4c4623a6; 0x5f16d052; 0xad7d5351].

Definition table1_ : list Z :=
  [0x00000000; 0x13a29877; 0x274530ee; 0x34e7a899; 0x4e8a61dc; 0x5d28f9ab; 0x69cf5132; 0x7a6dc945;
   0x9d14c3b8; 0x8eb65bcf; 0xba51f356; 0xa9f36b21; 0xd39ea264; 0xc03c3a13; 0xf4db928a; 0xe7790afd;
   0x3fc5f181; 0x2c6769f6; 0x1880c16f; 0x0b225918; 0x714f905d; 0x62ed082a; 0x560aa0b3; 0x45a838c4;
   0xa2d13239; 0xb173aa4e; 0x859402d7; 0x96369aa0; 0xec5b53e5; 0xfff9cb92; 0xcb1e630b; 0xd8bcfb7c;
   0x7f8be302; 0x6c297b75; 0x58ced3ec; 0x4b6c4b9b; 0x310182de; 0x22a31aa9; 0x1644b230; 0x05e62a47;
   0xe29f20ba; 0xf13db8cd; 0xc5da1054; 0xd6788823; 0xac154166; 0xbfb7d911; 0x8b507188; 0x98f2e9ff;
   0x404e1283; 0x53ec8af4; 0x670b226d; 0x74a9ba1a; 0x0ec4735f; 0x1d66eb28; 0x298143b1; 0x3a23dbc6;
   0xdd5ad13b; 0xcef8494c; 0xfa1fe1d5; 0xe9bd79a2; 0x93d0b0e7; 0x80722890; 0xb4958009; 0xa737187e;
   0xff17c604; 0xecb55e73; 0xd852f6ea; 0xcbf06e9d; 0xb19da7d8; 0xa23f3faf; 0x96d89736; 0x857a0f41;
   0x620305bc; 0x71a19dcb; 0x45463552; 0x56e4ad25; 0x2c896460; 0x3f2bfc17; 0x0bcc548e; 0x186eccf9;
   0xc0d23785; 0xd370aff2; 0xe797076b; 0xf4359f1c; 0x8e585659; 0x9dface2e; 0xa91d66b7; 0xbabffec0;
   0x5dc6f43d; 0x4e646c4a; 0x7a83c4d3; 0x69215ca4; 0x134c95e1; 0x00ee0d96; 0x3409a50f; 0x27ab3d78;
   0x809c2506; 0x933ebd71; 0xa7d915e8; 0xb47b8d9f; 0xce1644da; 0xddb4dcad; 0xe9537434; 0xfaf1ec43;
   0x1d88e6be; 0x0e2a7ec9; 0x3acdd650; 0x296f4e27; 0x53028762; 0x40a01f15; 0x7447b78c; 0x67e52ffb;
   0xbf59d487; 0xacfb4cf0; 0x981ce469; 0x8bbe7c1e; 0xf1d3b55b; 0xe2712d2c; 0xd69685b5; 0xc5341dc2;
   0x224d173f; 0x31ef8f48; 0x050827d1; 0x16aabfa6; 0x6cc776e3; 0x7f65ee94; 0x4b82460d; 0x5820de7a;
   0xfbc3faf9; 0xe861628e; 0xdc86ca17; 0xcf245260; 0xb5499b25; 0xa6eb0352; 0x920cabcb; 0x81ae33bc;
   0x66d73941; 0x7575a136; 0x419209af; 0x523091d8; 0x285d589d; 0x3bffc0ea; 0x0f186873; 0x1cbaf004;
   0xc4060b78; 0xd7a4930f; 0xe3433b96; 0xf0e1a3e1; 0x8a8c6aa4; 0x992ef2d3; 0xadc95a4a; 0xbe6bc23d;
   0x5912c8c0; 0x4ab050b7; 0x7e57f82e; 0x6df56059; 0x1798a91c; 0x043a316b; 0x30dd99f2; 0x237f0185;
   0x844819fb; 0x97ea818c; 0xa30d2915; 0xb0afb162; 0xcac27827; 0xd960e050; 0xed8748c9; 0xfe25d0be;
   0x195cda43; 0x0afe4234; 0x3e19eaad; 0x2dbb72da; 0x57d6bb9f; 0x447423e8; 0x70938b71; 0x63311306;
   0xbb8de87a; 0xa82f700d; 0x9cc8d894; 0x8f6a40e3; 0xf50789a6; 0xe6a511d1; 0xd242b948; 0xc1e0213f;
   0x26992bc2; 0x353bb3b5; 0x01dc1b2c; 0x127e835b; 0x68134a1e; 0x7bb1d269; 0x4f567af0; 0x5cf4e287;
   0x04d43cfd; 0x1776a48a; 0x23910c13; 0x30339464; 0x4a5e5d21; 0x59fcc556; 0x6d1b6dcf; 0x7eb9f5b8;
   0x99c0ff45; 0x8a626732; 0xbe85cfab; 0xad2757dc; 0xd74a9e99; 0xc4e806ee; 0xf00fae77; 0xe3ad3600;
   0x3b11cd7c; 0x28b3550b; 0x1c54fd92; 0x0ff665e5; 0x759baca0; 0x663934d7; 0x52de9c4e; 0x417c0439;
   0xa6050ec4; 0xb5a796b3; 0x81403e2a; 0x92e2a65d; 0xe88f6f18; 0xfb2df76f; 0xcfca5ff6; 0xdc68c781;
   0x7b5fdfff; 0x68fd4788; 0x5c1aef11; 0x4fb87766; 0x35d5be23; 0x26772654; 0x12908ecd; 0x013216ba;
   0xe64b1c47; 0xf5e98430; 0xc10e2ca9; 0xd2acb4de; 0xa8c17d9b; 0xbb63e5ec; 0x8f844d75; 0x9c26d502;
   0x449a2e7e; 0x5738b609; 0x63df1e90; 0x707d86e7; 0x0a104fa2; 0x19b2d7d5; 0x2d557f4c; 0x3ef7e73b;
   0xd98eedc6; 0xca2c75b1; 0xfecbdd28; 0xed69455f; 0x97048c1a; 0x84a6146d; 0xb041bcf4; 0xa3e32483].

Definition table2_ : list Z :=
  [0x00000000; 0xa541927e; 0x4f6f520d; 0xea2ec073; 0x9edea41a; 0x3b9f3664; 0xd1b1f617; 0x74f06469;
   0x38513ec5; 0x9d10acbb; 0x773e6cc8; 0xd27ffeb6; 0xa68f9adf; 0x03ce08a1; 0xe9e0c8d2; 0x4ca15aac;
   0x70a27d8a; 0xd5e3eff4; 0x3fcd2f87; 0x9a8cbdf9; 0xee7cd990; 0x4b3d4bee; 0xa1138b9d; 0x045219e3;
   0x48f3434f; 0xedb2d131; 0x079c1142; 0xa2dd833c; 0xd62de755; 0x736c752b; 0x9942b558; 0x3c032726;
   0xe144fb14; 0x4405696a; 0xae2ba919; 0x0b6a3b67; 0x7f9a5f0e; 0xdadbcd70; 0x30f50d03; 0x95b49f7d;
   0xd915c5d1; 0x7c5457af; 0x967a97dc; 0x333b05a2; 0x47cb61cb; 0xe28af3b5; 0x08a433c6; 0xade5a1b8;
   0x91e6869e; 0x34a714e0; 0xde89d493; 0x7bc846ed; 0x0f382284; 0xaa79b0fa; 0x40577089; 0xe516e2f7;
   0xa9b7b85b; 0x0cf62a25; 0xe6d8ea56; 0x43997828; 0x37691c41; 0x92288e3f; 0x78064e4c; 0xdd47dc32;
   0xc76580d9; 0x622412a7; 0x880ad2d4; 0x2d4b40aa; 0x59bb24c3; 0xfcfab6bd; 0x16d476ce; 0xb395e4b0;
   0xff34be1c; 0x5a752c62; 0xb05bec11; 0x151a7e6f; 0x61ea1a06; 0xc4ab8878; 0x2e85480b; 0x8bc4da75;
   0xb7c7fd53; 0x12866f2d; 0xf8a8af5e; 0x5de93d20; 0x29195949; 0x8c58cb37; 0x66760b44; 0xc337993a;
   0x8f96c396; 0x2ad751e8; 0xc0f9919b; 0x65b803e5; 0x1148678c; 0xb409f5f2; 0x5e273581; 0xfb66a7ff;
   0x26217bcd; 0x8360e9b3; 0x694e29c0; 0xcc0fbbbe; 0xb8ffdfd7; 0x1dbe4da9; 0xf7908dda; 0x52d11fa4;
   0x1e704508; 0xbb31d776; 0x511f1705; 0xf45e857b; 0x80aee112; 0x25ef736c; 0xcfc1b31f; 0x6a802161;
   0x56830647; 0xf3c29439; 0x19ec544a; 0xbcadc634; 0xc85da25d; 0x6d1c3023; 0x8732f050; 0x2273622e;
   0x6ed23882; 0xcb93aafc; 0x21bd6a8f; 0x84fcf8f1; 0xf00c9c98; 0x554d0ee6; 0xbf63ce95; 0x1a225ceb;
   0x8b277743; 0x2e66e53d; 0xc448254e; 0x6109b730; 0x15f9d359; 0xb0b84127; 0x5a968154; 0xffd7132a;
   0xb3764986; 0x1637dbf8; 0xfc191b8b; 0x595889f5; 0x2da8ed9c; 0x88e97fe2; 0x62c7bf91; 0xc7862def;
   0xfb850ac9; 0x5ec498b7; 0xb4ea58c4; 0x11abcaba; 0x655baed3; 0xc01a3cad; 0x2a34fcde; 0x8f756ea0;
   0xc3d4340c; 0x6695a672; 0x8cbb6601; 0x29faf47f; 0x5d0a9016; 0xf84b0268; 0x1265c21b; 0xb7245065;
   0x6a638c57; 0xcf221e29; 0x250cde5a; 0x804d4c24; 0xf4bd284d; 0x51fcba33; 0xbbd27a40; 0x1e93e83e;
   0x5232b292; 0xf77320ec; 0x1d5de09f; 0xb81c72e1; 0xccec1688; 0x69ad84f6; 0x83834485; 0x26c2d6fb;
   0x1ac1f1dd; 0xbf8063a3; 0x55aea3d0; 0xf0ef31ae; 0x841f55c7; 0x215ec7b9; 0xcb7007ca; 0x6e3195b4;
   0x2290cf18; 0x87d15d66; 0x6dff9d15; 0xc8be0f6b; 0xbc4e6b02; 0x190ff97c; 0xf321390f; 0x5660ab71;
   0x4c42f79a; 0xe90365e4; 0x032da597; 0xa66c37e9; 0xd29c5380; 0x77ddc1fe; 0x9df3018d; 0x38b293f3;
   0x7413c95f; 0xd1525b21; 0x3b7c9b52; 0x9e3d092c; 0xeacd6d45; 0x4f8cff3b; 0xa5a23f48; 0x00e3ad36;
   0x3ce08a10; 0x99a1186e; 0x738fd81d; 0xd6ce4a63; 0xa23e2e0a; 0x077fbc74; 0xed517c07; 0x4810ee79;
   0x04b1b4d5; 0xa1f026ab; 0x4bdee6d8; 0xee9f74a6; 0x9a6f10cf; 0x3f2e82b1; 0xd50042c2; 0x7041d0bc;
   0xad060c8e; 0x08479ef0; 0xe2695e83; 0x4728ccfd; 0x33d8a894; 0x96993aea; 0x7cb7fa99; 0xd9f668e7;
   0x9557324b; 0x3016a035; 0xda386046; 0x7f79f238; 0x0b899651; 0xaec8042f; 0x44e6c45c; 0xe1a75622;
   0xdda47104; 0x78e5e37a; 0x92cb2309; 0x378ab177; 0x437ad51e; 0xe63b4760; 0x0c158713; 0xa954156d;
   0xe5f54fc1; 0x40b4ddbf; 0xaa9a1dcc; 0x0fdb8fb2; 0x7b2bebdb; 0xde6a79a5; 0x3444b9d6; 0x91052ba8].

Definition table3_ : list Z :=
  [0x00000000; 0xdd45aab8; 0xbf672381; 0x62228939; 0x7b2231f3; 0xa6679b4b; 0xc4451272; 0x1900b8ca;
   0xf64463e6; 0x2b01c95e; 0x49234067; 0x9466eadf; 0x8d665215; 0x5023f8ad; 0x32017194; 0xef44db2c;
   0xe964b13d; 0x34211b85; 0x560392bc; 0x8b463804; 0x924680ce; 0x4f032a76; 0x2d21a34f; 0xf06409f7;
   0x1f20d2db; 0xc2657863; 0xa047f15a; 0x7d025be2; 0x6402e328; 0xb9474990; 0xdb65c0a9; 0x06206a11;
   0xd725148b; 0x0a60be33; 0x6842370a; 0xb5079db2; 0xac072578; 0x71428fc0; 0x136006f9; 0xce25ac41;
   0x2161776d; 0xfc24ddd5; 0x9e0654ec; 0x4343fe54; 0x5a43469e; 0x8706ec26; 0xe524651f; 0x3861cfa7;
   0x3e41a5b6; 0xe3040f0e; 0x81268637; 0x5c632c8f; 0x45639445; 0x98263efd; 0xfa04b7c4; 0x27411d7c;
   0xc805c650; 0x15406ce8; 0x7762e5d1; 0xaa274f69; 0xb327f7a3; 0x6e625d1b; 0x0c40d422; 0xd1057e9a;
   0xaba65fe7; 0x76e3f55f; 0x14c17c66; 0xc984d6de; 0xd0846e14; 0x0dc1c4ac; 0x6fe34d95; 0xb2a6e72d;
   0x5de23c01; 0x80a796b9; 0xe2851f80; 0x3fc0b538; 0x26c00df2; 0xfb85a74a; 0x99a72e73; 0x44e284cb;
   0x42c2eeda; 0x9f874462; 0xfda5cd5b; 0x20e067e3; 0x39e0df29; 0xe4a57591; 0x8687fca8; 0x5bc25610;
   0xb4868d3c; 0x69c32784; 0x0be1aebd; 0xd6a40405; 0xcfa4bccf; 0x12e11677; 0x70c39f4e; 0xad8635f6;
   0x7c834b6c; 0xa1c6e1d4; 0xc3e468ed; 0x1ea1c255; 0x07a17a9f; 0xdae4d027; 0xb8c6591e; 0x6583f3a6;
   0x8ac7288a; 0x57828232; 0x35a00b0b; 0xe8e5a1b3; 0xf1e51979; 0x2ca0b3c1; 0x4e823af8; 0x93c79040;
   0x95e7fa51; 0x48a250e9; 0x2a80d9d0; 0xf7c57368; 0xeec5cba2; 0x3380611a; 0x51a2e823; 0x8ce7429b;
   0x63a399b7; 0xbee6330f; 0xdcc4ba36; 0x0181108e; 0x1881a844; 0xc5c402fc; 0xa7e68bc5; 0x7aa3217d;
   0x52a0c93f; 0x8fe56387; 0xedc7eabe; 0x30824006; 0x2982f8cc; 0xf4c75274; 0x96e5db4d; 0x4ba071f5;
   0xa4e4aad9; 0x79a10061; 0x1b838958; 0xc6c623e0; 0xdfc69b2a; 0x02833192; 0x60a1b8ab; 0xbde41213;
   0xbbc47802; 0x6681d2ba; 0x04a35b83; 0xd9e6f13b; 0xc0e649f1; 0x1da3e349; 0x7f816a70; 0xa2c4c0c8;
   0x4d801be4; 0x90c5b15c; 0xf2e73865; 0x2fa292dd; 0x36a22a17; 0xebe780af; 0x89c50996; 0x5480a32e;
   0x8585ddb4; 0x58c0770c; 0x3ae2fe35; 0xe7a7548d; 0xfea7ec47; 0x23e246ff; 0x41c0cfc6; 0x9c85657e;
   0x73c1be52; 0xae8414ea; 0xcca69dd3; 0x11e3376b; 0x08e38fa1; 0xd5a62519; 0xb784ac20; 0x6ac10698;
   0x6ce16c89; 0xb1a4c631; 0xd3864f08; 0x0ec3e5b0; 0x17c35d7a; 0xca86f7c2; 0xa8a47efb; 0x75e1d443;
   0x9aa50f6f; 0x47e0a5d7; 0x25c22cee; 0xf8878656; 0xe1873e9c; 0x3cc29424; 0x5ee01d1d; 0x83a5b7a5;
   0xf90696d8; 0x24433c60; 0x4661b559; 0x9b241fe1; 0x8224a72b; 0x5f610d93; 0x3d4384aa; 0xe0062e12;
   0x0f42f53e; 0xd2075f86; 0xb025d6bf; 0x6d607c07; 0x7460c4cd; 0xa9256e75; 0xcb07e74c; 0x16424df4;
   0x106227e5; 0xcd278d5d; 0xaf050464; 0x7240aedc; 0x6b401616; 0xb605bcae; 0xd4273597; 0x09629f2f;
   0xe6264403; 0x3b63eebb; 0x59416782; 0x8404cd3a; 0x9d0475f0; 0x4041df48; 0x22635671; 0xff26fcc9;
   0x2e238253; 0xf36628eb; 0x9144a1d2; 0x4c010b6a; 0x5501b3a0; 0x88441918; 0xea669021; 0x37233a99;
   0xd867e1b5; 0x05224b0d; 0x6700c234; 0xba45688c; 0xa345d046; 0x7e007afe; 0x1c22f3c7; 0xc167597f;
   0xc747336e; 0x1a0299d6; 0x782010ef; 0xa565ba57; 0xbc65029d; 0x6120a825; 0x0302211c; 0xde478ba4;
   0x31035088; 0xec46fa30; 0x8e647309; 0x5321d9b1; 0x4a21617b; 0x9764cbc3; 0xf54642fa; 0x2803e842].

Definition kMaskDelta : Z := 0xa282ead8.

(** Rotate right by 15 bits and add a constant. *)
Definition Mask (crc : Z) : Z :=
  wrap_u32 (Z.lor (Z.shiftr crc 15) (wrap_u32 (Z.shiftl crc 17)) + kMaskDelta).

Definition Unmask (masked_crc : Z) : Z :=
  let rot := wrap_u32 (masked_crc - kMaskDelta) in
  Z.lor (Z.shiftr rot 17) (wrap_u32 (Z.shiftl rot 15)).

Section Extend.
Context {bo : ByteOrder} {pl : CrcPlatform}.

Definition LE_LOAD32 (p : bytes) : Z := Coding.DecodeFixed32 p.

Definition lookup_table (t : list Z) (i : Z) : Z := nth (Z.to_nat i) t 0.

(** The macros: [l] and the bytes from [p] on. *)
Definition STEP1 (s : Z * bytes) : Z * bytes :=
  let '(l, p) := s in
  let c := Z.lxor (Z.land l 0xff) (nth 0 p 0) in
  (Z.lxor (lookup_table table0_ c) (Z.shiftr l 8), drop 1 p).

Definition STEP4 (s : Z * bytes) : Z * bytes :=
  let '(l, p) := s in
  let c := Z.lxor l (LE_LOAD32 p) in
  (Z.lxor (Z.lxor (Z.lxor (lookup_table table3_ (Z.land c 0xff))
                          (lookup_table table2_ (Z.land (Z.shiftr c 8) 0xff)))
                  (lookup_table table1_ (Z.land (Z.shiftr c 16) 0xff)))
          (lookup_table table0_ (Z.shiftr c 24)),
   drop 4 p).

(** [while (p != x) STEP1], [n] bytes away from [x]. *)
Fixpoint step1_loop (n : nat) (s : Z * bytes) : Z * bytes :=
  match n with
  | O => s
  | S n' => step1_loop n' (STEP1 s)
  end.

(** [while ((e - p) >= 16)]: an iteration consumes bytes, so as many as there
    are bytes left are enough. *)
Fixpoint step16_loop (fuel : nat) (s : Z * bytes) : Z * bytes :=
  match fuel with
  | O => s
  | S fuel' =>
      if 16 <=? size s.2 then step16_loop fuel' (STEP4 (STEP4 (STEP4 (STEP4 s)))) else s
  end.

(** [while ((e - p) >= 4)]. *)
Fixpoint step4_loop (fuel : nat) (s : Z * bytes) : Z * bytes :=
  match fuel with
  | O => s
  | S fuel' => if 4 <=? size s.2 then step4_loop fuel' (STEP4 s) else s
  end.

(** The SSE 4.2 routine. *)
Fixpoint crc32_u8_loop (n : nat) (s : Z * bytes) : Z * bytes :=
  match n with
  | O => s
  | S n' => crc32_u8_loop n' (mm_crc32_u8 s.1 (nth 0 s.2 0), drop 1 s.2)
  end.

Fixpoint crc32_u64_loop (fuel : nat) (s : Z * bytes) : Z * bytes :=
  match fuel with
  | O => s
  | S fuel' =>
      if 16 <=? size s.2 then
        let l64 := mm_crc32_u64 s.1 (le_value (take 8 s.2)) in
        let l64 := mm_crc32_u64 l64 (le_value (take 8 (drop 8 s.2))) in
        crc32_u64_loop fuel' (l64, drop 16 s.2)
      else s
  end.

Definition AcceleratedExtend (crc : Z) (buf : bytes) : Z :=
  let pval := address buf in
  let e := pval + size buf in
  let l := Z.lxor crc 0xffffffff in
  let x := Z.shiftl (Z.shiftr (wrap_u64 (pval + 7)) 3) 3 in
  let s := if x <=? e then crc32_u8_loop (Z.to_nat (x - pval)) (l, buf) else (l, buf) in
  let s := crc32_u64_loop (length s.2) s in
  let s := (wrap_u32 s.1, s.2) in
  let s := crc32_u8_loop (length s.2) s in
  Z.lxor s.1 0xffffffff.

Definition Extend (crc : Z) (buf : bytes) : Z :=
  if CanAccelerate then AcceleratedExtend crc buf
  else
    let pval := address buf in
    let e := pval + size buf in
    let l := Z.lxor crc 0xffffffff in
    let x := Z.shiftl (Z.shiftr (wrap_u64 (pval + 3)) 2) 2 in
    let s := if x <=? e then step1_loop (Z.to_nat (x - pval)) (l, buf) else (l, buf) in
    let s := step16_loop (length s.2) s in
    let s := step4_loop (length s.2) s in
    let s := step1_loop (length s.2) s in
    Z.lxor s.1 0xffffffff.

Definition Value (data : bytes) : Z := Extend 0 data.

End Extend.

(** ** The reference: one bit at a time *)

(** The Castagnoli polynomial, reversed. *)
Definition poly : Z := 0x82f63b78.

Definition crc_bit (l : Z) : Z := Z.lxor (Z.shiftr l 1) (if Z.odd l then poly else 0).

Fixpoint crc_bits (n : nat) (l : Z) : Z :=
  match n with
  | O => l
  | S n' => crc_bits n' (crc_bit l)
  end.

Definition crc_byte (l b : Z) : Z := crc_bits 8 (Z.lxor l b).

Definition crc_bytes (l : Z) (buf : bytes) : Z := fold_left crc_byte buf l.

(** The documented behaviour of the instruction: it accumulates the bits of its
    operand; and buffers lie in the lower half of the address space. *)
Class CrcLaws `{CrcPlatform} : Prop := {
  mm_crc32_u8_spec l b : in_u32 l -> in_u8 b -> mm_crc32_u8 l b = crc_byte l b;
  mm_crc32_u64_spec l w : in_u32 l -> in_u64 w -> mm_crc32_u64 l w = crc_bytes l (le_bytes 8 w);
  address_range buf : 0 <= address buf < 2 ^ 63
}.

(** A host without the instruction, with every buffer at one address. *)
#[local] Instance software (a : Z) : CrcPlatform :=
  {| CanAccelerate := false; mm_crc32_u8 := crc_byte;
     mm_crc32_u64 := fun l w => crc_bytes l (le_bytes 8 w); address := fun _ => a |}.

Example check_value :
  @Value true (software 5) [0x31; 0x32; 0x33; 0x34; 0x35; 0x36; 0x37; 0x38; 0x39] = 0xe3069283.
Proof. vm_compute. reflexivity. Qed.

(** ** Linearity *)

Lemma crc_bit_lxor (a b : Z) : crc_bit (Z.lxor a b) = Z.lxor (crc_bit a) (crc_bit b).
Proof.
  unfold crc_bit. rewrite Z.shiftr_lxor.
  rewrite <- !Z.bit0_odd, Z.lxor_spec.
  destruct (Z.testbit a 0), (Z.testbit b 0); simpl; apply Z.bits_inj'; intros i Hi;
    rewrite !Z.lxor_spec, ?Z.bits_0; by repeat destruct (Z.testbit _ _).
Qed.

Lemma crc_bits_lxor (n : nat) (a b : Z) :
  crc_bits n (Z.lxor a b) = Z.lxor (crc_bits n a) (crc_bits n b).
Proof.
  revert a b. induction n as [|n IH]; intros; simpl; [done|]. by rewrite crc_bit_lxor, IH.
Qed.

Lemma crc_bits_add (m n : nat) (l : Z) : crc_bits (m + n) l = crc_bits n (crc_bits m l).
Proof. revert l. induction m as [|m IH]; intros; simpl; [done|]. apply IH. Qed.

(** A clear low bit is shifted out. *)
Lemma crc_bits_shiftl (m n : nat) (l : Z) :
  crc_bits (m + n) (Z.shiftl l (Z.of_nat m)) = crc_bits n l.
Proof.
  induction m as [|m IH]; [by rewrite Z.shiftl_0_r|].
  cbn [crc_bits Nat.add]. rewrite <- IH. f_equal. unfold crc_bit.
  rewrite <- Z.bit0_odd, Z.shiftl_spec_low, Z.lxor_0_r by lia.
  rewrite Z.shiftr_shiftl_l by lia. f_equal. lia.
Qed.

Lemma crc_bits_0 (n : nat) : crc_bits n 0 = 0.
Proof. induction n as [|n IH]; [done|]. exact IH. Qed.

Lemma crc_bits_lo (n : nat) (c : Z) :
  crc_bits (8 + n) c = Z.lxor (crc_bits (8 + n) (Z.land c 0xff)) (crc_bits n (Z.shiftr c 8)).
Proof.
  rewrite <- (crc_bits_shiftl 8 n), <- crc_bits_lxor. f_equal. apply Z.bits_inj'. intros i Hi.
  rewrite Z.lxor_spec, Z.land_spec. change 0xff with (Z.ones 8).
  destruct (Z.ltb_spec i 8).
  - by rewrite Z.ones_spec_low, Z.shiftl_spec_low, andb_true_r, xorb_false_r by lia.
  - rewrite Z.ones_spec_high, andb_false_r, Z.shiftl_spec_high, Z.shiftr_spec by lia.
    rewrite xorb_false_l. f_equal. lia.
Qed.

(** ** Bytes and tables *)

Lemma crc_byte_crc_bits (l b : Z) :
  crc_byte l b = Z.lxor (crc_bits 8 (Z.land (Z.lxor l b) 0xff)) (Z.shiftr (Z.lxor l b) 8).
Proof. unfold crc_byte. by rewrite (crc_bits_lo 0). Qed.

(** A string of any length at once: the state and the message as one number. *)
Lemma crc_bytes_bits (buf : bytes) (l : Z) :
  bytes_ok buf -> crc_bytes l buf = crc_bits (8 * length buf) (Z.lxor l (le_value buf)).
Proof.
  intros Hb. revert l. induction Hb as [|b buf Hb Hbuf IH]; intros l; [by rewrite Z.lxor_0_r|].
  change (crc_bytes l (b :: buf)) with (crc_bytes (crc_byte l b) buf). rewrite IH.
  replace (8 * length (b :: buf))%nat with (8 + 8 * length buf)%nat by (simpl; lia).
  rewrite crc_bits_add. f_equal. unfold crc_byte.
  transitivity (Z.lxor (crc_bits 8 (Z.lxor l b)) (crc_bits 8 (Z.shiftl (le_value buf) 8))).
  { f_equal. symmetry. exact (crc_bits_shiftl 8 0 (le_value buf)). }
  rewrite <- crc_bits_lxor. f_equal.
  rewrite Z.lxor_assoc. f_equal. cbn [le_value]. unfold in_u8 in Hb.
  rewrite (Z.mul_comm (2 ^ 8)), <- Coding.lor_shiftl_add by lia.
  apply Z.lxor_lor. apply Z.bits_inj'. intros i Hi. rewrite Z.land_spec, Z.bits_0.
  destruct (Z.ltb_spec i 8); [by rewrite Z.shiftl_spec_low, andb_false_r by lia|].
  rewrite <- (Z.mod_small b (2 ^ 8)), Z.mod_pow2_bits_high by lia. done.
Qed.

Lemma crc_bytes_app (l : Z) (a b : bytes) : crc_bytes l (a ++ b) = crc_bytes (crc_bytes l a) b.
Proof. apply fold_left_app. Qed.

(** The tables hold the images of the bytes. *)
Lemma table_entry (t : list Z) (n : nat) (c : Z) :
  forallb (fun c => lookup_table t c =? crc_bits n c) (seqZ 0 256) = true ->
  in_u8 c -> lookup_table t c = crc_bits n c.
Proof. intros Ht Hc. apply Z.eqb_eq. exact (Coding.u8_forall _ c Ht Hc). Qed.

Lemma table0_entry (c : Z) : in_u8 c -> lookup_table table0_ c = crc_bits 8 c.
Proof. apply table_entry. vm_compute. reflexivity. Qed.

Lemma table1_entry (c : Z) : in_u8 c -> lookup_table table1_ c = crc_bits 16 c.
Proof. apply table_entry. vm_compute. reflexivity. Qed.

Lemma table2_entry (c : Z) : in_u8 c -> lookup_table table2_ c = crc_bits 24 c.
Proof. apply table_entry. vm_compute. reflexivity. Qed.

Lemma table3_entry (c : Z) : in_u8 c -> lookup_table table3_ c = crc_bits 32 c.
Proof. apply table_entry. vm_compute. reflexivity. Qed.

(** ** Ranges *)

Lemma lxor_range (n a b : Z) :
  0 <= n -> 0 <= a < 2 ^ n -> 0 <= b < 2 ^ n -> 0 <= Z.lxor a b < 2 ^ n.
Proof.
  intros Hn Ha Hb. split; [apply Z.lxor_nonneg; lia|].
  rewrite <- (Z.mod_small a (2 ^ n)), <- (Z.mod_small b (2 ^ n)) by done.
  rewrite <- !Z.land_ones by lia.
  replace (Z.lxor (Z.land a (Z.ones n)) (Z.land b (Z.ones n)))
    with (Z.land (Z.lxor a b) (Z.ones n)).
  - rewrite Z.land_ones by lia. apply Z.mod_pos_bound. apply Z.pow_pos_nonneg; lia.
  - apply Z.bits_inj'. intros i Hi. rewrite !Z.land_spec, !Z.lxor_spec, !Z.land_spec.
    by repeat destruct (Z.testbit _ _).
Qed.

Lemma lxor_u32 (a b : Z) : in_u32 a -> in_u32 b -> in_u32 (Z.lxor a b).
Proof. apply (lxor_range 32). lia. Qed.

Lemma crc_bit_u32 (l : Z) : in_u32 l -> in_u32 (crc_bit l).
Proof.
  intros Hl. apply lxor_u32.
  - unfold in_u32 in *. rewrite Z.shiftr_div_pow2 by lia. dlia.
  - unfold in_u32, poly. destruct (Z.odd l); lia.
Qed.

Lemma crc_bits_u32 (n : nat) (l : Z) : in_u32 l -> in_u32 (crc_bits n l).
Proof. revert l. induction n as [|n IH]; intros; simpl; auto using crc_bit_u32. Qed.

Lemma u8_u32 (b : Z) : in_u8 b -> in_u32 b.
Proof. unfold in_u8, in_u32. lia. Qed.

Lemma crc_byte_u32 (l b : Z) : in_u32 l -> in_u8 b -> in_u32 (crc_byte l b).
Proof. intros. apply crc_bits_u32, lxor_u32; auto using u8_u32. Qed.

Lemma crc_bytes_u32 (l : Z) (buf : bytes) : in_u32 l -> bytes_ok buf -> in_u32 (crc_bytes l buf).
Proof.
  intros Hl Hb. revert l Hl. induction Hb as [|b buf Hb Hbuf IH]; intros; [done|].
  apply IH. by apply crc_byte_u32.
Qed.

Lemma land_ff_u8 (c : Z) : in_u8 (Z.land c 0xff).
Proof. rewrite Coding.land_255. apply Z.mod_pos_bound. lia. Qed.

Create HintDb crc.
#[local] Hint Resolve crc_byte_u32 crc_bytes_u32 lxor_u32 u8_u32 land_ff_u8 : crc.

(** ** The loops *)

Section Loops.
Context {bo : ByteOrder} {pl : CrcPlatform}.

(** What the rest of the computation will return: every step keeps it. *)
Definition pending (s : Z * bytes) : Z := crc_bytes s.1 s.2.

(** The state of a loop that will return [v], with at most [n] bytes left. *)
Definition loop_inv (v : Z) (s : Z * bytes) : Prop :=
  in_u32 s.1 /\ bytes_ok s.2 /\ pending s = v.

Lemma STEP1_spec (l b : Z) (p : bytes) :
  in_u32 l -> in_u8 b -> STEP1 (l, b :: p) = (crc_byte l b, p).
Proof.
  intros Hl Hb. unfold STEP1. cbn [nth drop]. f_equal. rewrite crc_byte_crc_bits.
  assert (Z.lxor (Z.land l 0xff) b = Z.land (Z.lxor l b) 0xff) as ->.
  { rewrite <- (wrap_u8_id b Hb) at 1. unfold wrap_u8. rewrite <- Z.land_ones by lia.
    apply Z.bits_inj'. intros i Hi. change 0xff with (Z.ones 8).
    rewrite !Z.lxor_spec, !Z.land_spec, !Z.lxor_spec. by repeat destruct (Z.testbit _ _). }
  rewrite table0_entry by apply land_ff_u8. f_equal.
  rewrite Z.shiftr_lxor, (Z.shiftr_div_pow2 b), Z.div_small, Z.lxor_0_r by (done || lia). done.
Qed.

Lemma STEP4_spec (l : Z) (w p : bytes) :
  in_u32 l -> bytes_ok (w ++ p) -> length w = 4%nat -> STEP4 (l, w ++ p) = (crc_bytes l w, p).
Proof.
  intros Hl Hok Hw. unfold STEP4, LE_LOAD32.
  pose proof Hok as [Hwok _]%bytes_ok_app.
  rewrite Coding.DecodeFixed32_le by (done || rewrite length_app; lia).
  rewrite take_app_length' by done. rewrite drop_app_length' by done. f_equal.
  rewrite crc_bytes_bits, Hw by done.
  pose proof (le_value_range w Hwok) as Hr. unfold size in Hr. rewrite Hw in Hr.
  assert (in_u32 (Z.lxor l (le_value w))) as Hc by by apply lxor_u32.
  set (c := Z.lxor l (le_value w)) in *. change (8 * 4)%nat with 32%nat.
  rewrite (crc_bits_lo 24 c : crc_bits 32 c = _).
  rewrite (crc_bits_lo 16 (Z.shiftr c 8) : crc_bits 24 (Z.shiftr c 8) = _).
  rewrite (crc_bits_lo 8 (Z.shiftr (Z.shiftr c 8) 8) : crc_bits 16 (Z.shiftr (Z.shiftr c 8) 8) = _).
  rewrite !Z.shiftr_shiftr by lia. cbn [Nat.add].
  change (8 + 8)%Z with 16. change (16 + 8)%Z with 24.
  rewrite table3_entry, table2_entry, table1_entry, table0_entry by
    (apply land_ff_u8 || (unfold in_u8, in_u32 in *; rewrite Z.shiftr_div_pow2 by lia; dlia)).
  by rewrite !Z.lxor_assoc.
Qed.

Lemma STEP1_inv (v : Z) (s : Z * bytes) :
  loop_inv v s -> s.2 <> [] -> loop_inv v (STEP1 s) /\ length (STEP1 s).2 = (length s.2 - 1)%nat.
Proof.
  destruct s as [l [|b p]]; [done|]. intros (Hl & Hp & Hv) _. cbn in Hl, Hp.
  apply Forall_cons in Hp as [Hb Hp]. rewrite STEP1_spec by done.
  split; [|cbn; lia]. split_and!; [by apply crc_byte_u32|done|exact Hv].
Qed.

Lemma STEP4_inv (v : Z) (s : Z * bytes) :
  loop_inv v s -> 4 <= size s.2 ->
  loop_inv v (STEP4 s) /\ size (STEP4 s).2 = size s.2 - 4.
Proof.
  destruct s as [l p]. intros (Hl & Hp & Hv) Hs. unfold size in *. cbn [fst snd] in *.
  rewrite <- (take_drop 4 p) in Hp |- *.
  rewrite STEP4_spec by (done || rewrite length_take; lia).
  apply bytes_ok_app in Hp as [Ht Hd]. unfold loop_inv, pending. cbn [fst snd].
  rewrite length_app, length_take, length_drop, <- crc_bytes_app, take_drop.
  split; [|lia]. split_and!; [by apply crc_bytes_u32|done|exact Hv].
Qed.

Lemma step1_loop_inv (v : Z) (n : nat) (s : Z * bytes) :
  loop_inv v s -> (n <= length s.2)%nat ->
  loop_inv v (step1_loop n s) /\ length (step1_loop n s).2 = (length s.2 - n)%nat.
Proof.
  revert s. induction n as [|n IH]; intros s Hs Hn; cbn [step1_loop]; [split; [done|lia]|].
  destruct (STEP1_inv v s Hs) as [Hs' Hl]; [by intros E; rewrite E in Hn; cbn in Hn; lia|].
  destruct (IH _ Hs') as [? ?]; [lia|]. split; [done|lia].
Qed.

Lemma step4_loop_inv (v : Z) (fuel : nat) (s : Z * bytes) :
  loop_inv v s -> loop_inv v (step4_loop fuel s).
Proof.
  revert s. induction fuel as [|fuel IH]; intros s Hs; cbn [step4_loop]; [done|].
  case_if; [|done]. apply IH. by apply STEP4_inv.
Qed.

Lemma step16_loop_inv (v : Z) (fuel : nat) (s : Z * bytes) :
  loop_inv v s -> loop_inv v (step16_loop fuel s).
Proof.
  revert s. induction fuel as [|fuel IH]; intros s Hs; cbn [step16_loop]; [done|].
  case_if; [|done]. apply IH.
  destruct (STEP4_inv v s Hs) as [Hs1 ?]; [lia|].
  destruct (STEP4_inv v _ Hs1) as [Hs2 ?]; [lia|].
  destruct (STEP4_inv v _ Hs2) as [Hs3 ?]; [lia|].
  apply STEP4_inv; [done|lia].
Qed.

(** The word loops stop for lack of bytes, not of iterations. *)
Lemma step16_loop_done (v : Z) (fuel : nat) (s : Z * bytes) :
  loop_inv v s -> size s.2 < 16 + 16 * Z.of_nat fuel -> size (step16_loop fuel s).2 < 16.
Proof.
  revert s. induction fuel as [|fuel IH]; intros s Hs Hf; cbn [step16_loop]; [lia|].
  case_if; [|done].
  destruct (STEP4_inv v s Hs) as [Hs1 ?]; [lia|].
  destruct (STEP4_inv v _ Hs1) as [Hs2 ?]; [lia|].
  destruct (STEP4_inv v _ Hs2) as [Hs3 ?]; [lia|].
  destruct (STEP4_inv v _ Hs3) as [Hs4 ?]; [lia|]. apply IH; [done|lia].
Qed.

Context `{!CrcLaws}.

Lemma crc32_u8_loop_inv (v : Z) (n : nat) (s : Z * bytes) :
  loop_inv v s -> (n <= length s.2)%nat ->
  loop_inv v (crc32_u8_loop n s) /\ length (crc32_u8_loop n s).2 = (length s.2 - n)%nat.
Proof.
  revert s. induction n as [|n IH]; intros s Hs Hn; cbn [crc32_u8_loop]; [split; [done|lia]|].
  destruct s as [l [|b p]]; [cbn in Hn; lia|]. destruct Hs as (Hl & Hp & Hv). cbn [fst snd nth] in *.
  change (drop 1 (b :: p)) with p. cbn [length] in *.
  apply Forall_cons in Hp as [Hb Hp]. rewrite mm_crc32_u8_spec by done.
  destruct (IH (crc_byte l b, p)) as [? Hlen]; [by split_and!; [apply crc_byte_u32| |]|cbn; lia|].
  split; [done|]. cbn [snd] in Hlen. lia.
Qed.

Lemma take8_bytes (p : bytes) :
  bytes_ok p -> 8 <= size p ->
  in_u64 (le_value (take 8 p)) /\ le_bytes 8 (le_value (take 8 p)) = take 8 p.
Proof.
  intros Hp Hs. unfold size in Hs. pose proof (bytes_ok_take 8 p Hp) as Ht.
  assert (length (take 8 p) = 8%nat) as Hlen by (rewrite length_take; lia).
  split.
  - pose proof (le_value_range _ Ht) as Hr. unfold size in Hr. by rewrite Hlen in Hr.
  - rewrite <- Hlen at 1. by apply le_bytes_value.
Qed.

Lemma crc32_u64_loop_inv (v : Z) (fuel : nat) (s : Z * bytes) :
  loop_inv v s -> loop_inv v (crc32_u64_loop fuel s).
Proof.
  revert s. induction fuel as [|fuel IH]; intros [l p] Hs; cbn [crc32_u64_loop fst snd]; [done|].
  case_if; [|done]. apply IH. destruct Hs as (Hl & Hp & Hv). cbn [fst snd] in *.
  destruct (take8_bytes p Hp) as [Hr1 He1]; [lia|].
  destruct (take8_bytes (drop 8 p)) as [Hr2 He2]; [by apply bytes_ok_drop|unfold size in *; rewrite length_drop; lia|].
  rewrite (mm_crc32_u64_spec l), He1 by done.
  rewrite mm_crc32_u64_spec, He2 by auto with crc bytes.
  unfold loop_inv, pending in *. cbn [fst snd] in *.
  split_and!; [by auto with crc bytes|by apply bytes_ok_drop|].
  rewrite <- Hv, <- !crc_bytes_app, <- (drop_drop _ 8 8), !take_drop. done.
Qed.

(** Reading the first aligned address from the address of a buffer. *)
Lemma aligned_range (a k : Z) :
  0 <= a < 2 ^ 63 -> 0 <= k <= 8 ->
  0 <= Z.shiftl (Z.shiftr (wrap_u64 (a + (2 ^ k - 1))) k) k - a.
Proof.
  intros Ha Hk. assert (0 < 2 ^ k <= 2 ^ 8) by (split; [apply Z.pow_pos_nonneg|apply Z.pow_le_mono_r]; lia).
  rewrite wrap_u64_id by (unfold in_u64; lia).
  rewrite Z.shiftr_div_pow2, Z.shiftl_mul_pow2 by lia.
  pose proof (Z.mod_pos_bound (a + (2 ^ k - 1)) (2 ^ k)).
  pose proof (Z.div_mod (a + (2 ^ k - 1)) (2 ^ k)). lia.
Qed.

Lemma loop_inv_done (v : Z) (s : Z * bytes) :
  loop_inv v s -> length s.2 = 0%nat -> s.1 = v.
Proof. intros (_ & _ & Hv) Hl. apply nil_length_inv in Hl. unfold pending in Hv. by rewrite Hl in Hv. Qed.

(** The SSE routine and the tables compute the bit-by-bit checksum. *)
Lemma AcceleratedExtend_ref (crc : Z) (buf : bytes) :
  in_u32 crc -> bytes_ok buf ->
  AcceleratedExtend crc buf = Z.lxor (crc_bytes (Z.lxor crc 0xffffffff) buf) 0xffffffff.
Proof.
  intros Hc Hb. unfold AcceleratedExtend. cbv zeta. f_equal.
  set (l := Z.lxor crc 0xffffffff). set (v := crc_bytes l buf).
  assert (loop_inv v (l, buf)) as H0 by (split_and!; [apply lxor_u32; unfold in_u32 in *; lia|done|done]).
  pose proof (aligned_range (address buf) 3 (address_range buf)) as Ha. change (2 ^ 3 - 1) with 7 in Ha.
  match goal with |- context [if ?b then ?x else ?y] => set (s1 := if b then x else y) end.
  assert (loop_inv v s1) as H1.
  { unfold s1. case_if; [|done]. apply crc32_u8_loop_inv; [done|]. cbn. unfold size in *. lia. }
  pose proof (crc32_u64_loop_inv v (length s1.2) s1 H1) as H2.
  set (s2 := crc32_u64_loop (length s1.2) s1) in *. rewrite wrap_u32_id by apply H2.
  destruct (crc32_u8_loop_inv v (length s2.2) (s2.1, s2.2)) as [H3 Hl]; [by destruct s2|done|].
  apply loop_inv_done; [done|]. cbn in Hl. cbn [snd]. lia.
Qed.

Lemma Extend_ref (crc : Z) (buf : bytes) :
  in_u32 crc -> bytes_ok buf ->
  Extend crc buf = Z.lxor (crc_bytes (Z.lxor crc 0xffffffff) buf) 0xffffffff.
Proof.
  intros Hc Hb. unfold Extend. destruct CanAccelerate; [by apply AcceleratedExtend_ref|].
  cbv zeta. f_equal. set (l := Z.lxor crc 0xffffffff). set (v := crc_bytes l buf).
  assert (loop_inv v (l, buf)) as H0 by (split_and!; [apply lxor_u32; unfold in_u32 in *; lia|done|done]).
  pose proof (aligned_range (address buf) 2 (address_range buf)) as Ha. change (2 ^ 2 - 1) with 3 in Ha.
  match goal with |- context [if ?b then ?x else ?y] => set (s1 := if b then x else y) end.
  assert (loop_inv v s1) as H1.
  { unfold s1. case_if; [|done]. apply step1_loop_inv; [done|]. cbn. unfold size in *. lia. }
  pose proof (step16_loop_inv v (length s1.2) s1 H1) as H2.
  set (s2 := step16_loop (length s1.2) s1) in *.
  pose proof (step4_loop_inv v (length s2.2) s2 H2) as H3.
  set (s3 := step4_loop (length s2.2) s2) in *.
  destruct (step1_loop_inv v (length s3.2) s3 H3) as [H4 Hl]; [done|].
  apply loop_inv_done; [done|lia].
Qed.

End Loops.

(** ** Detection of errors *)

(** The top bit of the result tells the bit that was shifted out, so a step
    loses nothing: only 0 becomes 0. *)
Lemma crc_bit_zero (l : Z) : in_u32 l -> crc_bit l = 0 -> l = 0.
Proof.
  unfold in_u32. intros Hl H. unfold crc_bit in H. apply Z.lxor_eq in H.
  rewrite Z.shiftr_div_pow2 in H by lia. pose proof (Zdiv.Zmod_odd l) as Ho.
  destruct (Z.odd l); unfold poly in H; dlia.
Qed.

Lemma crc_bits_zero (n : nat) (l : Z) : in_u32 l -> crc_bits n l = 0 -> l = 0.
Proof.
  revert l. induction n as [|n IH]; intros l Hl; cbn [crc_bits]; [done|].
  intros H. apply crc_bit_zero; [done|]. apply IH; [by apply crc_bit_u32|done].
Qed.

(** The checksums of two messages differ by the checksum of their difference. *)
Lemma crc_bytes_difference (l : Z) (a b : bytes) :
  bytes_ok a -> bytes_ok b -> length a = length b ->
  Z.lxor (crc_bytes l a) (crc_bytes l b) =
  crc_bits (8 * length a) (Z.lxor (le_value a) (le_value b)).
Proof.
  intros Ha Hb Hl. rewrite !crc_bytes_bits, <- Hl, <- crc_bits_lxor by done. f_equal.
  apply Z.bits_inj'. intros i Hi. rewrite !Z.lxor_spec. by repeat destruct (Z.testbit _ _).
Qed.

(** A difference of [d] shifted to bit [s], with [d] of 32 bits, survives. *)
Lemma crc_bytes_burst (l d s : Z) (a b : bytes) :
  bytes_ok a -> bytes_ok b -> length a = length b ->
  0 < d < 2 ^ 32 -> 0 <= s -> Z.lxor (le_value a) (le_value b) = Z.shiftl d s ->
  crc_bytes l a <> crc_bytes l b.
Proof.
  intros Ha Hb Hl Hd Hs Hx Heq.
  pose proof (crc_bytes_difference l a b Ha Hb Hl) as Hdiff.
  rewrite Heq, Z.lxor_nilpotent, Hx in Hdiff.
  assert (s <= 8 * Z.of_nat (length a)) as Hle.
  { pose proof (le_value_range a Ha) as Hra. pose proof (le_value_range b Hb) as Hrb.
    unfold size in Hra, Hrb. rewrite <- Hl in Hrb.
    pose proof (lxor_range (8 * Z.of_nat (length a)) _ _ ltac:(lia) Hra Hrb) as Hr.
    rewrite Hx, Z.shiftl_mul_pow2 in Hr by lia.
    destruct (Z.le_gt_cases s (8 * Z.of_nat (length a))); [done|].
    assert (2 ^ (8 * Z.of_nat (length a)) <= 2 ^ s) by (apply Z.pow_le_mono_r; lia). nia. }
  assert (exists k, s = Z.of_nat k) as [k ->] by (exists (Z.to_nat s); lia).
  replace (8 * length a)%nat with (k + (8 * length a - k))%nat in Hdiff by lia.
  rewrite crc_bits_shiftl in Hdiff.
  symmetry in Hdiff. apply crc_bits_zero in Hdiff; [lia|unfold in_u32; lia].
Qed.

(** ** Masking *)

Lemma rotate_value (c k : Z) :
  in_u32 c -> 0 <= k <= 32 ->
  Z.lor (Z.shiftr c k) (wrap_u32 (Z.shiftl c (32 - k))) =
  c / 2 ^ k + (c mod 2 ^ k) * 2 ^ (32 - k).
Proof.
  unfold in_u32, wrap_u32. intros Hc Hk.
  assert (0 < 2 ^ k) by (apply Z.pow_pos_nonneg; lia).
  assert (2 ^ 32 = 2 ^ k * 2 ^ (32 - k)) as H32 by (rewrite <- Z.pow_add_r by lia; f_equal; lia).
  assert (0 < 2 ^ (32 - k)) by (apply Z.pow_pos_nonneg; lia).
  rewrite Z.shiftr_div_pow2, Z.shiftl_mul_pow2, H32, Z.mul_mod_distr_r by lia.
  rewrite <- (Z.shiftl_mul_pow2 (c mod 2 ^ k)) by lia.
  rewrite Coding.lor_shiftl_add, ?Z.shiftl_mul_pow2 by
    (lia || (split; [apply Z.div_pos; lia|apply Z.div_lt_upper_bound; lia])). done.
Qed.

Lemma Mask_range (crc : Z) : in_u32 (Mask crc).
Proof. apply wrap_u32_range. Qed.

Lemma Unmask_Mask (crc : Z) : in_u32 crc -> Unmask (Mask crc) = crc.
Proof.
  intros Hc. unfold Unmask, Mask. cbv zeta.
  pose proof (rotate_value crc 15 Hc ltac:(lia)) as Hr. change (32 - 15) with 17 in Hr.
  rewrite Hr. set (r := crc / 2 ^ 15 + crc mod 2 ^ 15 * 2 ^ 17).
  assert (in_u32 r) as Hru by (unfold in_u32, r in *; dlia).
  assert (wrap_u32 (wrap_u32 (r + kMaskDelta) - kMaskDelta) = r) as ->.
  { unfold wrap_u32. rewrite Zminus_mod_idemp_l. replace (r + _ - _) with r by lia.
    by apply Z.mod_small. }
  pose proof (rotate_value r 17 Hru ltac:(lia)) as Hr'. change (32 - 17) with 15 in Hr'.
  rewrite Hr'. unfold r, in_u32 in *. dlia.
Qed.

Section Theorems.
Context {bo : ByteOrder} {pl : CrcPlatform} `{!CrcLaws}.

Lemma Extend_u32 (crc : Z) (buf : bytes) : in_u32 crc -> bytes_ok buf -> in_u32 (Extend crc buf).
Proof.
  intros Hc Hb. rewrite Extend_ref by done.
  apply lxor_u32; [apply crc_bytes_u32; [apply lxor_u32|]|]; unfold in_u32 in *; done || lia.
Qed.

Lemma Value_u32 (buf : bytes) : bytes_ok buf -> in_u32 (Value buf).
Proof. apply Extend_u32. unfold in_u32. lia. Qed.

Lemma Extend_app (crc : Z) (a b : bytes) :
  in_u32 crc -> bytes_ok a -> bytes_ok b -> Extend (Extend crc a) b = Extend crc (a ++ b).
Proof.
  intros Hc Ha Hb. rewrite (Extend_ref (Extend crc a)) by auto using Extend_u32.
  rewrite !Extend_ref by (done || by apply bytes_ok_app).
  by rewrite Z.lxor_assoc, Z.lxor_nilpotent, Z.lxor_0_r, crc_bytes_app.
Qed.

Lemma crc_bytes_burst_value (a b : bytes) (d s : Z) :
  bytes_ok a -> bytes_ok b -> length a = length b ->
  0 < d < 2 ^ 32 -> 0 <= s -> Z.lxor (le_value a) (le_value b) = Z.shiftl d s ->
  Value a <> Value b.
Proof.
  intros Ha Hb Hl Hd Hs Hx. unfold Value. rewrite !Extend_ref by (done || unfold in_u32; lia).
  intros Heq. apply (f_equal (fun z => Z.lxor z 0xffffffff)) in Heq.
  rewrite !Z.lxor_assoc, Z.lxor_nilpotent, !Z.lxor_0_r in Heq.
  by eapply crc_bytes_burst in Heq.
Qed.

(** C25: the checksum routine is the bit-by-bit CRC-32C: with the tables or with
    the CRC32 instruction, and wherever the buffer lies relative to the words
    the loops read, [Extend] returns the reference, and extending by two strings
    is extending by their concatenation. *)
Theorem crc_is_bitwise (crc : Z) (a b : bytes) :
  in_u32 crc -> bytes_ok a -> bytes_ok b ->
  Extend crc a = Z.lxor (crc_bytes (Z.lxor crc 0xffffffff) a) 0xffffffff /\
  in_u32 (Extend crc a) /\
  Extend (Extend crc a) b = Extend crc (a ++ b).
Proof.
  intros Hc Ha Hb.
  split_and!; [by apply Extend_ref|by apply Extend_u32|by apply Extend_app].
Qed.

(** A stored checksum detects every burst error of up to 32 bits: messages
    of one length whose bits differ only inside a window of 32 bits, anywhere,
    have different checksums, also after masking; and unmasking what was stored
    returns the checksum. *)
Theorem crc_detects_bursts (a b : bytes) (d s : Z) :
  bytes_ok a -> bytes_ok b -> length a = length b ->
  0 < d < 2 ^ 32 -> 0 <= s -> Z.lxor (le_value a) (le_value b) = Z.shiftl d s ->
  Value a <> Value b /\ Unmask (Mask (Value a)) = Value a /\
  Unmask (Mask (Value a)) <> Value b.
Proof.
  intros Ha Hb Hl Hd Hs Hx.
  pose proof (crc_bytes_burst_value a b d s Ha Hb Hl Hd Hs Hx) as Hne.
  by rewrite Unmask_Mask by by apply Value_u32.
Qed.

End Theorems.

(** A host without the instruction obeys the laws. *)
#[local] Instance software_laws (a : Z) : 0 <= a < 2 ^ 63 -> @CrcLaws (software a).
Proof. by split. Qed.

Lemma crc_is_bitwise_witness :
  in_u32 0 /\ bytes_ok [1; 2; 3; 4; 5] /\
  @Extend true (software 3) (@Extend true (software 3) 0 [1; 2; 3; 4; 5]) [6] =
  @Extend true (software 3) 0 ([1; 2; 3; 4; 5] ++ [6]).
Proof.
  assert (in_u32 0) as H0 by (unfold in_u32; lia).
  assert (bytes_ok [1; 2; 3; 4; 5]) as H1 by (vm_compute; repeat constructor; discriminate).
  assert (bytes_ok [6]) as H2 by (vm_compute; repeat constructor; discriminate).
  split; [exact H0|]. split; [exact H1|].
  apply (@crc_is_bitwise true (software 3) (software_laws 3 ltac:(lia)) 0 _ _ H0 H1 H2).
Defined.

Lemma crc_detects_bursts_witness :
  bytes_ok [1; 2; 3] /\ bytes_ok [1; 6; 7] /\
  @Value true (software 0) [1; 2; 3] <> @Value true (software 0) [1; 6; 7].
Proof.
  assert (bytes_ok [1; 2; 3]) as H1 by (vm_compute; repeat constructor; discriminate).
  assert (bytes_ok [1; 6; 7]) as H2 by (vm_compute; repeat constructor; discriminate).
  split; [exact H1|]. split; [exact H2|].
  apply (@crc_detects_bursts true (software 0) (software_laws 0 ltac:(lia)) _ _ 1028 8 H1 H2);
    [reflexivity|lia|lia|reflexivity].
Defined.

End Crc32c.
