(* ===== verification/Block.v ===== *)
(** Blocks of a table: the builder and the reader.

    [tsl/lib/io/block_builder.cc] and [tsl/lib/io/block.cc].  A block is a
    sequence of entries with prefix-compressed keys, followed by the offsets of
    its restart points (entries stored with their whole key) and their number.

    The builder's state is [BlockBuilder], its operations return the new state,
    [CheckFailed] where a [CHECK] of the code aborts.  The reader's state is
    [Iter] over the bytes of the block; a [StringPiece] into the block is an
    offset with a length, so that a read of bytes that the block does not have
    is the fault [OutOfBounds].  The [assert]s are those of debug builds: they
    are not part of the model, the theorems assume what they assert. *)
From S2P Require Import Prelude Bytes Coding.

(** ** Errors *)

(** What ends the program (or leaves the behaviour undefined): a failed
    [CHECK], a read outside of a buffer, a loop that does not end within the
    iterations the model allows it. *)
Inductive fault : Type := CheckFailed | OutOfBounds | OutOfFuel.

(** The losses of data that the table and record code reports, the latter with
    the offset in their message; every other error is a status by its number. *)
Inductive loss : Type :=
| BadEntryInBlock
| BadBlockContents
| BadBlockHandle
| NotAnSstable
| FileTooShort
| HandleSizeTooBig
| TruncatedBlockRead
| BlockChecksumMismatch
| CorruptedCompressedBlock
| BadBlockType
| RecordTooLarge (offset : Z)
| TruncatedRecord (offset : Z)
| CorruptedRecord (offset : Z).

Inductive Status : Type :=
| OkStatus
| DataLoss (l : loss)
| FileError (code : Z).

#[global] Instance loss_eq_dec : EqDecision loss.
Proof. solve_decision. Defined.

#[global] Instance Status_eq_dec : EqDecision Status.
Proof. solve_decision. Defined.

Definition ok (s : Status) : bool := match s with OkStatus => true | _ => false end.

(** A key with its value. *)
Abbreviation kv := (bytes * bytes)%type.

(** [CHECK_LE(x, std::numeric_limits<uint32_t>::max())]. *)
Definition check_u32 (x : Z) : res fault unit :=
  if x <=? 2 ^ 32 - 1 then Ok tt else Err CheckFailed.

(** ** Options *)

Inductive CompressionType : Type := kNoCompression | kSnappyCompression.

Record Options : Type := mkOptions {
  block_size : Z;
  block_restart_interval : Z;
  compression : CompressionType
}.

Module BlockBuilder.
Section BlockBuilder.
Context {bo : ByteOrder}.
Local Open Scope res_scope.

Record t : Type := mk {
  buffer_ : bytes;
  restarts_ : list Z;
  counter_ : Z;
  finished_ : bool;
  last_key_ : bytes
}.

(** The constructor: the first restart point is at offset 0. *)
Definition new : t := mk [] [0] 0 false [].

Definition Reset (b : t) : t := mk [] [0] 0 false [].

Definition empty (b : t) : bool := match buffer_ b with [] => true | _ => false end.

Definition CurrentSizeEstimate (b : t) : Z :=
  size (buffer_ b) + Z.of_nat (length (restarts_ b)) * 4 + 4.

Definition Finish (b : t) : res fault (bytes * t) :=
  let! _ := check_u32 (Z.of_nat (length (restarts_ b))) in
  let buffer := fold_left (fun buf r => Coding.PutFixed32 buf r) (restarts_ b) (buffer_ b) in
  let buffer := Coding.PutFixed32 buffer (wrap_u32 (Z.of_nat (length (restarts_ b)))) in
  Ok (buffer, mk buffer (restarts_ b) (counter_ b) true (last_key_ b)).

(** [while (shared < min_length && last_key_piece[shared] == key[shared])]. *)
Fixpoint shared_prefix (last_key key : bytes) : nat :=
  match last_key, key with
  | x :: last', y :: key' => if x =? y then S (shared_prefix last' key') else O
  | _, _ => O
  end.

Definition Add (interval : Z) (b : t) (key value : bytes) : res fault t :=
  let! (shared, restarts, counter) :=
    if counter_ b <? interval then
      Ok (shared_prefix (last_key_ b) key, restarts_ b, counter_ b)
    else
      let! _ := check_u32 (size (buffer_ b)) in
      Ok (O, restarts_ b ++ [wrap_u32 (size (buffer_ b))], 0) in
  let non_shared := size key - Z.of_nat shared in
  let! _ := check_u32 (Z.of_nat shared) in
  let! _ := check_u32 non_shared in
  let! _ := check_u32 (size value) in
  let buffer := Coding.PutVarint32 (buffer_ b) (wrap_u32 (Z.of_nat shared)) in
  let buffer := Coding.PutVarint32 buffer (wrap_u32 non_shared) in
  let buffer := Coding.PutVarint32 buffer (wrap_u32 (size value)) in
  let buffer := buffer ++ take (Z.to_nat non_shared) (drop shared key) in
  let buffer := buffer ++ take (Z.to_nat (wrap_u32 (size value))) value in
  let last_key := take shared (last_key_ b) ++ take (Z.to_nat non_shared) (drop shared key) in
  Ok (mk buffer restarts (counter + 1) (finished_ b) last_key).

End BlockBuilder.
End BlockBuilder.

Module Block.
Section Block.
Context {bo : ByteOrder}.
Local Open Scope res_scope.

(** A read of [n] bytes at offset [off]. *)
Definition read (data : bytes) (off n : Z) : res fault bytes :=
  match sub data off n with Some b => Ok b | None => Err OutOfBounds end.

Record t : Type := mk {
  data_ : bytes;
  size_ : Z;
  restart_offset_ : Z
}.

(** [DecodeFixed32] of the last word of the [size] bytes. *)
Definition num_restarts (data : bytes) (size : Z) : res fault Z :=
  let! w := read data (size - 4) 4 in Ok (Coding.DecodeFixed32 w).

Definition NumRestarts (b : t) : res fault Z := num_restarts (data_ b) (size_ b).

(** The constructor; 0 is the error marker of [size_].  [restart_offset_] is
    only set (and only read) when the size is right. *)
Definition new (contents : bytes) : res fault t :=
  if size contents <? 4 then Ok (mk contents 0 0)
  else
    let max_restarts_allowed := (size contents - 4) / 4 in
    let! n := num_restarts contents (size contents) in
    if max_restarts_allowed <? n then Ok (mk contents 0 0)
    else Ok (mk contents (size contents)
               (wrap_u32 (wrap_u64 (size contents - wrap_u32 (1 + n) * 4)))).

(** [shared], [non_shared], [value_length] and the offset just past them, [None]
    for [nullptr]; [p] and [limit] are offsets of the block. *)
Definition DecodeEntry (data : bytes) (p limit : Z) : res fault (option (Z * Z * Z * Z)) :=
  if limit - p <? 3 then Ok None
  else
    let! input := read data p (limit - p) in
    let shared := nth 0 input 0 in
    let non_shared := nth 1 input 0 in
    let value_length := nth 2 input 0 in
    let decoded :=
      if Z.lor (Z.lor shared non_shared) value_length <? 128 then
        Some (shared, non_shared, value_length, drop 3 input)
      else
        match Coding.GetVarint32Ptr input with
        | None => None
        | Some (shared, q) =>
            match Coding.GetVarint32Ptr q with
            | None => None
            | Some (non_shared, q) =>
                match Coding.GetVarint32Ptr q with
                | None => None
                | Some (value_length, q) => Some (shared, non_shared, value_length, q)
                end
            end
        end in
    match decoded with
    | None => Ok None
    | Some (shared, non_shared, value_length, q) =>
        let p := limit - size q in
        if wrap_u32 (limit - p) <? wrap_u32 (non_shared + value_length) then Ok None
        else Ok (Some (shared, non_shared, value_length, p))
    end.

(** ** [Block::Iter] *)

Record Iter : Type := mkIter {
  it_data_ : bytes;
  restarts_ : Z;
  num_restarts_ : Z;
  current_ : Z;
  restart_index_ : Z;
  key_ : bytes;
  value_ : option (Z * Z);   (* offset and size; [None] is the null piece *)
  status_ : Status
}.

Definition newIter (data : bytes) (restarts num_restarts : Z) : Iter :=
  mkIter data restarts num_restarts restarts num_restarts [] None OkStatus.

(** [value_.data() + value_.size() - data_]; a null [value_] is not in the block. *)
Definition NextEntryOffset (it : Iter) : res fault Z :=
  match value_ it with
  | Some (off, len) => Ok (wrap_u32 (off + len))
  | None => Err OutOfBounds
  end.

Definition GetRestartPoint (it : Iter) (index : Z) : res fault Z :=
  let! w := read (it_data_ it) (restarts_ it + index * 4) 4 in
  Ok (Coding.DecodeFixed32 w).

Definition SeekToRestartPoint (it : Iter) (index : Z) : res fault Iter :=
  let! offset := GetRestartPoint it index in
  Ok (mkIter (it_data_ it) (restarts_ it) (num_restarts_ it) (current_ it) index []
        (Some (offset, 0)) (status_ it)).

Definition Valid (it : Iter) : bool := current_ it <? restarts_ it.

Definition key (it : Iter) : bytes := key_ it.

Definition value (it : Iter) : res fault bytes :=
  match value_ it with
  | Some (off, len) => read (it_data_ it) off len
  | None => Ok []
  end.

Definition CorruptionError (it : Iter) : Iter :=
  mkIter (it_data_ it) (restarts_ it) (num_restarts_ it) (restarts_ it) (num_restarts_ it) []
    None (DataLoss BadEntryInBlock).

(** [while (restart_index_ + 1 < num_restarts_ && ...) ++restart_index_]. *)
Fixpoint advance_restart (fuel : nat) (it : Iter) (current index : Z) : res fault Z :=
  if wrap_u32 (index + 1) <? num_restarts_ it then
    let! r := GetRestartPoint it (wrap_u32 (index + 1)) in
    if r <? current then
      match fuel with
      | O => Err OutOfFuel
      | S fuel' => advance_restart fuel' it current (wrap_u32 (index + 1))
      end
    else Ok index
  else Ok index.

Definition ParseNextKey (it : Iter) : res fault (Iter * bool) :=
  let! current := NextEntryOffset it in
  let p := current in
  let limit := restarts_ it in
  if limit <=? p then
    Ok (mkIter (it_data_ it) (restarts_ it) (num_restarts_ it) (restarts_ it) (num_restarts_ it)
          (key_ it) (value_ it) (status_ it), false)
  else
    let! entry := DecodeEntry (it_data_ it) p limit in
    match entry with
    | None => Ok (CorruptionError it, false)
    | Some (shared, non_shared, value_length, p) =>
        if size (key_ it) <? shared then Ok (CorruptionError it, false)
        else
          let! delta := read (it_data_ it) p non_shared in
          let key := take (Z.to_nat shared) (key_ it) ++ delta in
          let! index :=
            advance_restart (Z.to_nat (num_restarts_ it)) it current (restart_index_ it) in
          Ok (mkIter (it_data_ it) (restarts_ it) (num_restarts_ it) current index key
                (Some (p + non_shared, value_length)) (status_ it), true)
    end.

Definition Next (it : Iter) : res fault Iter :=
  let! (it, _) := ParseNextKey it in Ok it.

(** The binary search over the restart points: the last one with a key below
    the target, [None] when an entry is corrupted. *)
Fixpoint seek_restart (fuel : nat) (it : Iter) (target : bytes) (left right : Z) :
    res fault (option Z) :=
  if left <? right then
    let mid := wrap_u32 (left + wrap_u32 (right - left + 1) / 2) in
    let! region_offset := GetRestartPoint it mid in
    let! entry := DecodeEntry (it_data_ it) region_offset (restarts_ it) in
    match entry with
    | None => Ok None
    | Some (shared, non_shared, value_length, key_ptr) =>
        if negb (shared =? 0) then Ok None
        else
          let! mid_key := read (it_data_ it) key_ptr non_shared in
          match fuel with
          | O => Err OutOfFuel
          | S fuel' =>
              if lt_bytes mid_key target then seek_restart fuel' it target mid right
              else seek_restart fuel' it target left (wrap_u32 (mid - 1))
          end
    end
  else Ok (Some left).

(** [while (true)]: the first key at or after the target. *)
Fixpoint seek_linear (fuel : nat) (it : Iter) (target : bytes) : res fault Iter :=
  let! (it, more) := ParseNextKey it in
  if negb more then Ok it
  else if negb (lt_bytes (key_ it) target) then Ok it
  else
    match fuel with
    | O => Err OutOfFuel
    | S fuel' => seek_linear fuel' it target
    end.

Definition Seek (it : Iter) (target : bytes) : res fault Iter :=
  let! found :=
    seek_restart (Z.to_nat (num_restarts_ it)) it target 0 (wrap_u32 (num_restarts_ it - 1)) in
  match found with
  | None => Ok (CorruptionError it)
  | Some lo =>
      let! it := SeekToRestartPoint it lo in
      seek_linear (Z.to_nat (restarts_ it)) it target
  end.

Definition SeekToFirst (it : Iter) : res fault Iter :=
  let! it := SeekToRestartPoint it 0 in
  let! (it, _) := ParseNextKey it in Ok it.

(** ** [Block::NewIterator]: an [Iter], or the [EmptyIterator] of [iterator.cc] *)

Inductive Iterator : Type :=
| IterBlock (it : Iter)
| IterEmpty (s : Status).

Definition NewEmptyIterator : Iterator := IterEmpty OkStatus.
Definition NewErrorIterator (s : Status) : Iterator := IterEmpty s.

Definition NewIterator (b : t) : res fault Iterator :=
  if size_ b <? 4 then Ok (NewErrorIterator (DataLoss BadBlockContents))
  else
    let! n := NumRestarts b in
    if n =? 0 then Ok NewEmptyIterator
    else Ok (IterBlock (newIter (data_ b) (restart_offset_ b) n)).

Definition iter_Valid (i : Iterator) : bool :=
  match i with IterBlock it => Valid it | IterEmpty _ => false end.

Definition iter_Seek (i : Iterator) (target : bytes) : res fault Iterator :=
  match i with
  | IterBlock it => let! it := Seek it target in Ok (IterBlock it)
  | IterEmpty s => Ok (IterEmpty s)
  end.

Definition iter_SeekToFirst (i : Iterator) : res fault Iterator :=
  match i with
  | IterBlock it => let! it := SeekToFirst it in Ok (IterBlock it)
  | IterEmpty s => Ok (IterEmpty s)
  end.

Definition iter_Next (i : Iterator) : res fault Iterator :=
  match i with
  | IterBlock it => let! it := Next it in Ok (IterBlock it)
  | IterEmpty s => Ok (IterEmpty s)
  end.

Definition iter_key (i : Iterator) : bytes :=
  match i with IterBlock it => key it | IterEmpty _ => [] end.

Definition iter_value (i : Iterator) : res fault bytes :=
  match i with IterBlock it => value it | IterEmpty _ => Ok [] end.

Definition iter_status (i : Iterator) : Status :=
  match i with IterBlock it => status_ it | IterEmpty s => s end.

End Block.
End Block.
