(* ===== verification/Iterator.v ===== *)
(** The iterator interface of tables.

    [tsl/lib/io/iterator.h]: an [Iterator] ranges over sorted entries, is
    positioned at one of them or not valid, and is moved by [Seek],
    [SeekToFirst] and [Next].  [IterOps] has its operations and [IterLaws] what
    every iterator promises its clients: it visits the entries of a list in
    order, [Seek] finds the first entry at or after the target, and nothing
    faults.  Block iterators and two-level iterators are instances; clients
    (the two-level iterator, [Table::InternalGet]) rely on the laws only. *)
From S2P Require Import Prelude Bytes Block.

(** The position of the first entry whose key is not below the target. *)
Fixpoint lower_bound (target : bytes) (es : list kv) : nat :=
  match es with
  | [] => O
  | e :: r => if lt_bytes e.1 target then S (lower_bound target r) else O
  end.

Definition sorted_entries (es : list kv) : Prop := sorted_keys (map fst es).

Class IterOps (I : Type) : Type := {
  it_Valid : I -> bool;
  it_Seek : I -> bytes -> res fault I;
  it_SeekToFirst : I -> res fault I;
  it_Next : I -> res fault I;
  it_key : I -> bytes;
  it_value : I -> res fault bytes;
  it_status : I -> Status
}.

(** [at_ es i it]: the iterator ranges over [es] and is at the entry of index
    [i], not valid when there is none. *)
Class IterLaws (I : Type) {ops : IterOps I} (at_ : list kv -> nat -> I -> Prop) : Prop := {
  at_sorted es i it : at_ es i it -> sorted_entries es;
  at_Valid es i it : at_ es i it -> it_Valid it = bool_decide (i < length es)%nat;
  at_entry es i it k v : at_ es i it -> es !! i = Some (k, v) -> it_key it = k /\ it_value it = Ok v;
  at_status es i it : at_ es i it -> it_status it = OkStatus;
  at_SeekToFirst es i it : at_ es i it -> exists it', it_SeekToFirst it = Ok it' /\ at_ es O it';
  at_Next es i it : at_ es i it -> (i < length es)%nat ->
    exists it', it_Next it = Ok it' /\ at_ es (S i) it';
  at_Seek es i it target : at_ es i it ->
    exists it', it_Seek it target = Ok it' /\ at_ es (lower_bound target es) it'
}.

(** ** Positions *)

Lemma lower_bound_le (target : bytes) (es : list kv) : (lower_bound target es <= length es)%nat.
Proof. induction es as [|e es IH]; simpl; [done|]. case_if; lia. Qed.

(** Every entry before the position is below the target, the one at it is not. *)
Lemma lower_bound_before (target : bytes) (es : list kv) (i : nat) (e : kv) :
  (i < lower_bound target es)%nat -> es !! i = Some e -> lt_bytes e.1 target = true.
Proof.
  revert i. induction es as [|e0 es IH]; intros i; simpl; [lia|].
  destruct (lt_bytes e0.1 target) eqn:E; [|lia]. destruct i as [|i]; simpl; intros Hi He.
  - by injection He as <-.
  - apply (IH i); [lia|done].
Qed.

Lemma lower_bound_at (target : bytes) (es : list kv) (e : kv) :
  es !! lower_bound target es = Some e -> lt_bytes e.1 target = false.
Proof.
  induction es as [|e0 es IH]; simpl; [done|].
  destruct (lt_bytes e0.1 target) eqn:E; simpl; [done|]. by intros [= <-].
Qed.

Lemma lower_bound_app (target : bytes) (a b : list kv) :
  Forall (fun e : kv => lt_bytes e.1 target = true) a ->
  lower_bound target (a ++ b) = (length a + lower_bound target b)%nat.
Proof. induction 1 as [|e a He Ha IH]; simpl; [done|]. by rewrite He, IH. Qed.

(** A target at most some key of [a] is found in [a]. *)
Lemma lower_bound_app_l (target : bytes) (a b : list kv) :
  (lower_bound target a < length a)%nat -> lower_bound target (a ++ b) = lower_bound target a.
Proof.
  induction a as [|e a IH]; simpl; [lia|]. case_if; [|done]. intros. rewrite IH; lia.
Qed.

Lemma lower_bound_all (target : bytes) (a : list kv) :
  lower_bound target a = length a -> Forall (fun e : kv => lt_bytes e.1 target = true) a.
Proof.
  induction a as [|e a IH]; simpl; [done|]. destruct (lt_bytes e.1 target) eqn:E; [|done].
  intros [=]. constructor; auto.
Qed.

Lemma sorted_entries_app (a b : list kv) :
  sorted_entries (a ++ b) <->
  sorted_entries a /\ sorted_entries b /\
  forall x y, x ∈ a -> y ∈ b -> lt_bytes x.1 y.1 = true.
Proof.
  unfold sorted_entries, sorted_keys. rewrite map_app. induction a as [|e a IH]; simpl.
  - split; [intros; split_and!; [constructor|done|set_solver]|tauto].
  - split.
    + intros [Hs Hf]%StronglySorted_inv. apply IH in Hs as (Ha & Hb & Hab).
      apply Forall_app in Hf as [Hf1 Hf2]. split_and!; [by constructor|done|].
      intros x y [->|Hx]%elem_of_cons Hy; [|by apply Hab].
      rewrite Forall_forall in Hf2. apply Hf2. by apply (list_elem_of_fmap_2 fst).
    + intros ([Ha Hf]%StronglySorted_inv & Hb & Hab). constructor.
      * apply IH. split_and!; [done|done|]. intros x y Hx Hy. apply Hab; [by constructor|done].
      * apply Forall_app. split; [done|]. apply Forall_forall. intros k Hk.
        apply list_elem_of_fmap in Hk as (y & -> & Hy). apply Hab; [by constructor|done].
Qed.

Lemma sorted_entries_lookup (es : list kv) (i j : nat) (x y : kv) :
  sorted_entries es -> es !! i = Some x -> es !! j = Some y -> (i < j)%nat ->
  lt_bytes x.1 y.1 = true.
Proof.
  intros Hs Hx Hy Hij. rewrite <- (take_drop j es) in Hs.
  apply sorted_entries_app in Hs as (_ & _ & Hab). apply Hab.
  - apply list_elem_of_lookup. exists i. by rewrite lookup_take_lt by lia.
  - apply list_elem_of_lookup. exists O. by rewrite lookup_drop, Nat.add_0_r.
Qed.

(** A key of the list is found at its position. *)
Lemma lower_bound_present (k v : bytes) (es : list kv) :
  sorted_entries es -> (k, v) ∈ es -> es !! lower_bound k es = Some (k, v).
Proof.
  intros Hs (a & b & ->)%list_elem_of_split. apply sorted_entries_app in Hs as (_ & _ & Hab).
  rewrite lower_bound_app.
  - cbn [lower_bound fst]. rewrite lt_bytes_irrefl, lookup_app_r by lia.
    by replace (_ - _)%nat with O by lia.
  - apply Forall_forall. intros e He. apply (Hab e (k, v)); [done|by constructor].
Qed.

Lemma lower_bound_mono (k k' : bytes) (es : list kv) :
  le_str k k' = true -> (lower_bound k es <= lower_bound k' es)%nat.
Proof.
  intros Hle. induction es as [|e es IH]; cbn; [done|]. destruct (lt_bytes e.1 k) eqn:E; [|lia].
  rewrite (lt_le_str_trans _ _ _ E Hle). lia.
Qed.

(** ** Clients of the interface *)

Section Clients.
Context {I : Type} {ops : IterOps I}.
Local Open Scope res_scope.

(** [for (it->SeekToFirst(); it->Valid(); it->Next())]: the loop of a client,
    from where the iterator is: the entries it visits and the status it ends
    with. *)
Fixpoint drain (fuel : nat) (it : I) : res fault (list kv * Status) :=
  if it_Valid it then
    match fuel with
    | O => Err OutOfFuel
    | S fuel' =>
        let! v := it_value it in
        let k := it_key it in
        let! it := it_Next it in
        let! (r, s) := drain fuel' it in
        Ok ((k, v) :: r, s)
    end
  else Ok ([], it_status it).

Context {at_ : list kv -> nat -> I -> Prop} {laws : IterLaws I at_}.

Lemma drain_at (fuel i : nat) (es : list kv) (it : I) :
  at_ es i it -> (length es - i <= fuel)%nat -> drain fuel it = Ok (drop i es, OkStatus).
Proof.
  revert i it. induction fuel as [|fuel IH]; intros i it Hat Hf; cbn [drain];
    rewrite (at_Valid _ _ _ Hat); case_bool_decide as Hi; try lia;
    try (by rewrite (at_status _ _ _ Hat), drop_ge by lia).
  destruct (lookup_lt_is_Some_2 _ _ Hi) as [[k v] He].
  destruct (at_entry _ _ _ _ _ Hat He) as [-> ->]. cbn [res_bind].
  destruct (at_Next _ _ _ Hat Hi) as (it' & -> & Hat'). cbn [res_bind].
  rewrite (IH (S i)) by (done || lia). cbn [res_bind]. by rewrite (drop_S _ _ _ He).
Qed.

End Clients.
