(* ===== verification/BlockSpec.v ===== *)
(** What a block holds.

    The format that [block_builder.cc] documents, as a function of the entries:
    each with the number of key bytes it shares with its predecessor, and the
    indices of the restart points.  [block_of es data] says that [data] is a
    block of the entries [es]; the builder's invariant [builds] says what its
    buffer holds, and that every [Add] keeps it and [Finish] returns a block of
    the entries added. *)
From stdpp Require Import sorting.
From S2P Require Import Prelude Bytes Coding Block Iterator.

(** An entry with the length of the prefix it shares. *)
Abbreviation ent := (nat * kv)%type.

Definition ent_header (e : ent) : bytes :=
  let '(s, (k, v)) := e in
  Coding.EncodeVarint32 (Z.of_nat s) ++ Coding.EncodeVarint32 (size k - Z.of_nat s) ++
  Coding.EncodeVarint32 (size v).

Definition ent_bytes (e : ent) : bytes :=
  let '(s, (k, v)) := e in ent_header e ++ drop s k ++ v.

Definition ents_bytes (l : list ent) : bytes := concat (map ent_bytes l).

(** The offset of the entry of index [i]. *)
Definition offset (l : list ent) (i : nat) : Z := size (ents_bytes (take i l)).

Definition restart_bytes (rs : list Z) : bytes := concat (map (le_bytes 4) rs).

Definition block_bytes (l : list ent) (idxs : list nat) : bytes :=
  ents_bytes l ++ restart_bytes (map (offset l) idxs) ++ le_bytes 4 (Z.of_nat (length idxs)).

Definition kv_ok (e : kv) : Prop :=
  bytes_ok e.1 /\ bytes_ok e.2 /\ size e.1 < 2 ^ 32 /\ size e.2 < 2 ^ 32.

(** Each entry shares what it says with the key before it. *)
Fixpoint linked (prev : bytes) (l : list ent) : Prop :=
  match l with
  | [] => True
  | (s, (k, v)) :: r =>
      (s <= length prev)%nat /\ (s <= length k)%nat /\ take s k = take s prev /\ linked k r
  end.

(** The restart points: the first entry, then entries that share nothing. *)
Definition restarts_ok (l : list ent) (idxs : list nat) : Prop :=
  hd_error idxs = Some O /\ StronglySorted lt idxs /\
  (forall i, i ∈ idxs -> (exists e, l !! i = Some (O, e)) \/ (l = [] /\ idxs = [O])).

(** A block of the entries [es]. *)
Definition block_of (es : list kv) (data : bytes) : Prop :=
  exists l idxs, map snd l = es /\ linked [] l /\ restarts_ok l idxs /\
    Forall kv_ok es /\ data = block_bytes l idxs /\ size data < 2 ^ 32.

(** ** Lists of entries *)

Lemma ents_bytes_app (a b : list ent) : ents_bytes (a ++ b) = ents_bytes a ++ ents_bytes b.
Proof. unfold ents_bytes. by rewrite map_app, concat_app. Qed.

Lemma ents_bytes_single (e : ent) : ents_bytes [e] = ent_bytes e.
Proof. apply app_nil_r. Qed.

Lemma offset_app (a b : list ent) (i : nat) :
  (i <= length a)%nat -> offset (a ++ b) i = offset a i.
Proof. intros Hi. unfold offset. by rewrite take_app_le. Qed.

Lemma offset_0 (l : list ent) : offset l 0 = 0.
Proof. done. Qed.

Lemma offset_length (l : list ent) : offset l (length l) = size (ents_bytes l).
Proof. unfold offset. by rewrite firstn_all. Qed.

Lemma offset_S (l : list ent) (i : nat) (e : ent) :
  l !! i = Some e -> offset l (S i) = offset l i + size (ent_bytes e).
Proof.
  intros He. unfold offset. rewrite (take_S_r _ _ _ He), ents_bytes_app, size_app.
  by rewrite ents_bytes_single.
Qed.

Lemma offset_mono (l : list ent) (i j : nat) : (i <= j)%nat -> offset l i <= offset l j.
Proof.
  intros Hij. unfold offset. replace (take i l) with (take i (take j l)) by (rewrite take_take; f_equal; lia).
  rewrite <- (take_drop i (take j l)) at 2. rewrite ents_bytes_app, size_app.
  pose proof (size_nonneg (ents_bytes (drop i (take j l)))). lia.
Qed.

Lemma ents_bytes_split (l : list ent) (i : nat) (e : ent) :
  l !! i = Some e ->
  ents_bytes l = ents_bytes (take i l) ++ ent_bytes e ++ ents_bytes (drop (S i) l).
Proof.
  intros He. rewrite <- (take_drop_middle _ _ _ He) at 1. rewrite ents_bytes_app. by unfold ents_bytes at 2.
Qed.

Lemma ent_header_size (s : nat) (k v : bytes) :
  kv_ok (k, v) -> (s <= length k)%nat -> 3 <= size (ent_header (s, (k, v))).
Proof.
  intros (_ & _ & Hk & Hv) Hs. cbn [fst snd] in *. unfold ent_header. rewrite !size_app.
  pose proof (size_nonneg v).
  pose proof (Coding.EncodeVarint32_size (Z.of_nat s)).
  pose proof (Coding.EncodeVarint32_size (size k - Z.of_nat s)).
  pose proof (Coding.EncodeVarint32_size (size v)). unfold in_u32, size in *. lia.
Qed.

Lemma ent_header_ok (s : nat) (k v : bytes) :
  kv_ok (k, v) -> (s <= length k)%nat -> bytes_ok (ent_header (s, (k, v))).
Proof.
  intros (_ & _ & Hk & Hv) Hs. cbn [fst snd] in *. unfold ent_header. rewrite !bytes_ok_app.
  pose proof (size_nonneg v). unfold size in *.
  split_and!; apply Coding.EncodeVarint32_ok; unfold in_u32; lia.
Qed.

Lemma ent_bytes_ok (s : nat) (k v : bytes) :
  kv_ok (k, v) -> (s <= length k)%nat -> bytes_ok (ent_bytes (s, (k, v))).
Proof.
  intros Hkv Hs. unfold ent_bytes. rewrite !bytes_ok_app.
  split_and!; [by apply ent_header_ok|apply bytes_ok_drop; apply Hkv|apply Hkv].
Qed.

Lemma linked_shared (prev : bytes) (l : list ent) (i s : nat) (e : kv) :
  linked prev l -> l !! i = Some (s, e) -> (s <= length e.1)%nat.
Proof.
  revert prev i. induction l as [|[s0 [k0 v0]] l IH]; intros prev i; [done|].
  intros (_ & Hs & _ & Hl). destruct i as [|i]; simpl.
  - intros [= <- <-]. done.
  - by eapply IH.
Qed.

Lemma linked_drop (prev : bytes) (l : list ent) (i s : nat) (k v : bytes) :
  linked prev l -> l !! i = Some (s, (k, v)) -> linked k (drop (S i) l).
Proof.
  revert prev i. induction l as [|[s0 [k0 v0]] l IH]; intros prev i; [done|].
  intros (_ & _ & _ & Hl). destruct i as [|i]; simpl.
  - intros [= <- <- <-]. by rewrite drop_0.
  - by eapply IH.
Qed.

(** Reading may start at an entry that shares nothing, with no key. *)
Lemma linked_restart (prev : bytes) (l : list ent) (i : nat) (e : kv) :
  linked prev l -> l !! i = Some (O, e) -> linked [] (drop i l).
Proof.
  revert prev i. induction l as [|[s0 [k0 v0]] l IH]; intros prev i; [done|].
  intros (_ & _ & _ & Hl). destruct i as [|i]; simpl.
  - intros [= -> <-]. split_and!; [lia|lia|done|done].
  - by eapply IH.
Qed.

Lemma linked_snoc (prev : bytes) (l : list ent) (s : nat) (k v : bytes) :
  linked prev l ->
  let last_key := from_option (fun e : ent => e.2.1) prev (last l) in
  (s <= length last_key)%nat -> (s <= length k)%nat -> take s k = take s last_key ->
  linked prev (l ++ [(s, (k, v))]).
Proof.
  revert prev. induction l as [|[s0 [k0 v0]] l IH]; intros prev Hl; cbv zeta.
  - done.
  - destruct Hl as (H1 & H2 & H3 & Hl). rewrite last_cons. intros Hs1 Hs2 Ht.
    split_and!; [done|done|done|]. apply IH; [done| |done|]; by destruct (last l).
Qed.

Lemma ents_bytes_ok (prev : bytes) (l : list ent) :
  linked prev l -> Forall kv_ok (map snd l) -> bytes_ok (ents_bytes l).
Proof.
  revert prev. induction l as [|[s0 [k0 v0]] l IH]; intros prev Hl Hok; [constructor|].
  destruct Hl as (_ & Hs & _ & Hl). apply Forall_cons in Hok as [Hkv Hok].
  change (ents_bytes ((s0, (k0, v0)) :: l)) with (ent_bytes (s0, (k0, v0)) ++ ents_bytes l).
  apply bytes_ok_app. split; [by apply ent_bytes_ok|by eapply IH].
Qed.

(** Every entry takes at least three bytes. *)
Lemma offset_ge (prev : bytes) (l : list ent) :
  linked prev l -> Forall kv_ok (map snd l) -> 3 * Z.of_nat (length l) <= size (ents_bytes l).
Proof.
  revert prev. induction l as [|[s0 [k0 v0]] l IH]; intros prev Hl Hok; [done|].
  destruct Hl as (_ & Hs & _ & Hl). apply Forall_cons in Hok as [Hkv Hok].
  change (ents_bytes ((s0, (k0, v0)) :: l)) with
    ((ent_header (s0, (k0, v0)) ++ drop s0 k0 ++ v0) ++ ents_bytes l).
  rewrite !size_app. pose proof (ent_header_size s0 k0 v0 Hkv Hs).
  pose proof (size_nonneg (drop s0 k0)). pose proof (size_nonneg v0).
  pose proof (IH _ Hl Hok). simpl length. lia.
Qed.

(** ** Restart points *)

Lemma restart_bytes_size (rs : list Z) : size (restart_bytes rs) = 4 * Z.of_nat (length rs).
Proof.
  induction rs as [|r rs IH]; [done|].
  change (restart_bytes (r :: rs)) with (le_bytes 4 r ++ restart_bytes rs).
  rewrite size_app, le_bytes_size, IH. simpl length. lia.
Qed.

Lemma restart_bytes_ok (rs : list Z) : bytes_ok (restart_bytes rs).
Proof.
  induction rs as [|r rs IH]; [constructor|].
  change (restart_bytes (r :: rs)) with (le_bytes 4 r ++ restart_bytes rs).
  apply bytes_ok_app. auto with bytes.
Qed.

Lemma restart_bytes_app (a b : list Z) : restart_bytes (a ++ b) = restart_bytes a ++ restart_bytes b.
Proof. unfold restart_bytes. by rewrite map_app, concat_app. Qed.

Lemma restarts_app (l : list ent) (idxs : list nat) (e : ent) :
  restarts_ok l idxs -> l <> [] -> map (offset (l ++ [e])) idxs = map (offset l) idxs.
Proof.
  intros (_ & _ & Hi) Hl. apply map_ext_in. intros i [[e' He]|[-> _]]%list_elem_of_In%Hi; [|done].
  apply offset_app. apply lookup_lt_Some in He. lia.
Qed.

(** ** The builder keeps its invariant *)

Section BlockSpec.
Context {bo : ByteOrder}.

Definition last_key (es : list kv) : bytes := from_option fst [] (last es).

(** The builder holds the entries [es]. *)
Definition builds (es : list kv) (b : BlockBuilder.t) : Prop :=
  Forall kv_ok es /\ BlockBuilder.last_key_ b = last_key es /\
  (es = [] -> BlockBuilder.counter_ b = 0) /\
  exists l idxs, map snd l = es /\ linked [] l /\ restarts_ok l idxs /\
    BlockBuilder.buffer_ b = ents_bytes l /\ BlockBuilder.restarts_ b = map (offset l) idxs.

Lemma builds_new : builds [] BlockBuilder.new.
Proof.
  split_and!; [done|done|done|]. exists [], [O]. split_and!; try done.
  split_and!; [done|by repeat constructor|].
  intros i Hi. apply list_elem_of_singleton in Hi as ->. by right.
Qed.

Lemma builds_Reset (b : BlockBuilder.t) : builds [] (BlockBuilder.Reset b).
Proof. apply builds_new. Qed.

Lemma builds_empty (es : list kv) (b : BlockBuilder.t) :
  builds es b -> BlockBuilder.empty b = bool_decide (es = []).
Proof.
  intros (Hok & _ & _ & l & idxs & <- & Hl & _ & Hb & _). unfold BlockBuilder.empty. rewrite Hb.
  pose proof (offset_ge [] l Hl Hok) as Hge.
  destruct l as [|e l]; [done|]. destruct (ents_bytes (e :: l)) eqn:E; [|done].
  unfold size in Hge. simpl in Hge. lia.
Qed.

Lemma shared_prefix_spec (a b : bytes) :
  let s := BlockBuilder.shared_prefix a b in
  (s <= length a)%nat /\ (s <= length b)%nat /\ take s b = take s a.
Proof.
  revert b. induction a as [|x a IH]; intros [|y b]; cbn; try (split_and!; (lia || done)).
  destruct (Z.eqb_spec x y) as [->|]; cbn; [|split_and!; (lia || done)].
  destruct (IH b) as (? & ? & ?). split_and!; [lia|lia|by f_equal].
Qed.

Lemma last_key_ents (l : list ent) :
  last_key (map snd l) = from_option (fun e : ent => e.2.1) [] (last l).
Proof.
  unfold last_key. induction l as [|e l IH]; [done|]. simpl map. rewrite !last_cons.
  rewrite fmap_last. by destruct (last l).
Qed.

Lemma check_u32_ok (x : Z) : x < 2 ^ 32 -> check_u32 x = Ok tt.
Proof. intros Hx. unfold check_u32. by rewrite (proj2 (Z.leb_le _ _)) by lia. Qed.

(** What [Add] stores for [shared] bytes: the bytes of the entry. *)
Lemma add_bytes (buf k v : bytes) (s : nat) :
  kv_ok (k, v) -> (s <= length k)%nat ->
  Coding.PutVarint32 (Coding.PutVarint32 (Coding.PutVarint32 buf (wrap_u32 (Z.of_nat s)))
      (wrap_u32 (size k - Z.of_nat s))) (wrap_u32 (size v)) ++
    take (Z.to_nat (size k - Z.of_nat s)) (drop s k) ++
    take (Z.to_nat (wrap_u32 (size v))) v =
  buf ++ ent_bytes (s, (k, v)).
Proof.
  intros (_ & _ & Hk & Hv) Hs. cbn [fst snd] in *. unfold size in *.
  rewrite !wrap_u32_id by (unfold in_u32; lia).
  rewrite !take_ge by (rewrite ?length_drop; lia).
  unfold Coding.PutVarint32, ent_bytes, ent_header. by rewrite <- !app_assoc.
Qed.

(** One [Add], for the shared length and restart points the code chose. *)
Lemma builds_snoc (es : list kv) (l : list ent) (idxs : list nat) (k v : bytes) (s : nat) :
  map snd l = es -> linked [] l -> restarts_ok l idxs -> kv_ok (k, v) ->
  (s <= length (last_key es))%nat -> (s <= length k)%nat -> take s k = take s (last_key es) ->
  forall idxs', (idxs' = idxs \/ (l <> [] /\ s = O /\ idxs' = idxs ++ [length l])) ->
  map snd (l ++ [(s, (k, v))]) = es ++ [(k, v)] /\
  linked [] (l ++ [(s, (k, v))]) /\ restarts_ok (l ++ [(s, (k, v))]) idxs'.
Proof.
  intros <- Hl Hr Hkv Hs1 Hs2 Ht idxs' Hidxs. split_and!.
  - by rewrite map_app.
  - rewrite last_key_ents in *. by apply linked_snoc.
  - destruct Hr as (Hhd & Hsort & Hin). destruct Hidxs as [->|(Hne & -> & ->)].
    + split_and!; [done|done|]. intros i Hi. left.
      destruct (Hin i Hi) as [[e He]|[-> ->]].
      * exists e. by apply lookup_app_l_Some.
      * apply list_elem_of_singleton in Hi as ->. cbn in Hs1. exists (k, v).
        replace s with O by lia. done.
    + assert (forall i, i ∈ idxs -> (i < length l)%nat) as Hlt.
      { intros i Hi. destruct (Hin i Hi) as [[e He]|[-> _]]; [by eapply lookup_lt_Some|done]. }
      split_and!.
      * by destruct idxs.
      * apply StronglySorted_app_2; [|done|by repeat constructor].
        intros x1 x2 Hx1 ->%list_elem_of_singleton. by apply Hlt.
      * intros i [Hi|Hi%list_elem_of_singleton]%elem_of_app; left; [|subst i].
        -- destruct (Hin i Hi) as [[e He]|[-> _]]; [|done]. exists e. by apply lookup_app_l_Some.
        -- exists (k, v). by rewrite lookup_app_r, Nat.sub_diag by lia.
Qed.

Lemma Add_builds (interval : Z) (es : list kv) (b : BlockBuilder.t) (k v : bytes) :
  1 <= interval -> builds es b -> kv_ok (k, v) -> size (BlockBuilder.buffer_ b) < 2 ^ 32 ->
  exists b', BlockBuilder.Add interval b k v = Ok b' /\ builds (es ++ [(k, v)]) b'.
Proof.
  intros Hi (Hok & Hlast & Hcnt & l & idxs & Hes & Hl & Hr & Hbuf & Hrs) Hkv Hsz.
  pose proof Hkv as (_ & _ & Hk & Hv). cbn [fst snd] in *.
  assert (forall s idxs' counter,
    (s <= length (last_key es))%nat -> (s <= length k)%nat -> take s k = take s (last_key es) ->
    (idxs' = idxs \/ (l <> [] /\ s = O /\ idxs' = idxs ++ [length l])) ->
    builds (es ++ [(k, v)])
      (BlockBuilder.mk (BlockBuilder.buffer_ b ++ ent_bytes (s, (k, v)))
        (map (offset (l ++ [(s, (k, v))])) idxs') (counter + 1) (BlockBuilder.finished_ b)
        (take s (last_key es) ++ drop s k))) as Hgo.
  { intros s idxs' counter Hs1 Hs2 Ht Hidxs.
    destruct (builds_snoc es l idxs k v s Hes Hl Hr Hkv Hs1 Hs2 Ht idxs' Hidxs) as (He' & Hl' & Hr').
    split_and!; [by apply Forall_app; auto|..].
    - unfold last_key at 2. rewrite last_snoc. cbn. by rewrite <- Ht, take_drop.
    - intros []%app_nil. done.
    - exists (l ++ [(s, (k, v))]), idxs'. split_and!; [done|done|done| |done].
      cbn [BlockBuilder.buffer_]. by rewrite Hbuf, ents_bytes_app, ents_bytes_single. }
  unfold BlockBuilder.Add, res_bind. rewrite Hlast.
  destruct (Z.ltb_spec (BlockBuilder.counter_ b) interval) as [Hlt|Hge].
  - destruct (shared_prefix_spec (last_key es) k) as (Hs1 & Hs2 & Ht).
    set (s := BlockBuilder.shared_prefix (last_key es) k) in *.
    rewrite !check_u32_ok by (unfold size in *; lia). rewrite <- !app_assoc, add_bytes by done.
    eexists. split; [done|]. rewrite (take_ge (drop s k)) by (rewrite length_drop; unfold size; lia).
    destruct (decide (l = [])) as [->|Hne].
    + rewrite Hrs. replace (map (offset []) idxs) with (map (offset ([] ++ [(s, (k, v))])) idxs).
      { apply Hgo; auto. }
      destruct Hr as (_ & _ & Hin). apply map_ext_in. intros i Hi'%list_elem_of_In.
      destruct (Hin i Hi') as [[? ?]|[_ ->]]; [done|]. by apply list_elem_of_singleton in Hi' as ->.
    + rewrite Hrs, <- (restarts_app l idxs (s, (k, v))) by done. apply Hgo; auto.
  - rewrite check_u32_ok by done. rewrite !check_u32_ok by (unfold size in *; simpl; lia).
    rewrite <- !app_assoc, add_bytes by (done || lia). eexists. split; [done|].
    rewrite (take_ge (drop 0 k)) by (rewrite length_drop; unfold size; lia).
    assert (l <> []) as Hne by (intros ->; rewrite Hcnt in Hge by done; lia).
    rewrite wrap_u32_id by (unfold in_u32; pose proof (size_nonneg (BlockBuilder.buffer_ b)); lia).
    rewrite Hrs, Hbuf, <- (restarts_app l idxs (O, (k, v))) by done.
    replace [size (ents_bytes l)] with (map (offset (l ++ [(O, (k, v))])) [length l]).
    { rewrite <- map_app, <- Hbuf. apply (Hgo O _ 0); auto; lia. }
    simpl. by rewrite offset_app, offset_length by lia.
Qed.

Lemma put_restarts (rs : list Z) (buf : bytes) :
  fold_left (fun buf r => Coding.PutFixed32 buf r) rs buf = buf ++ restart_bytes rs.
Proof.
  revert buf. induction rs as [|r rs IH]; intros buf; [by rewrite app_nil_r|].
  cbn [fold_left]. rewrite IH. unfold Coding.PutFixed32. rewrite Coding.EncodeFixed32_le.
  by rewrite <- app_assoc.
Qed.

(** [Finish] returns a block of the entries, of the estimated size. *)
Lemma Finish_builds (es : list kv) (b : BlockBuilder.t) :
  builds es b -> BlockBuilder.CurrentSizeEstimate b < 2 ^ 32 ->
  exists data b', BlockBuilder.Finish b = Ok (data, b') /\ block_of es data /\
    size data = BlockBuilder.CurrentSizeEstimate b.
Proof.
  intros (Hok & Hlast & Hcnt & l & idxs & Hes & Hl & Hr & Hbuf & Hrs) Hsz.
  unfold BlockBuilder.Finish, res_bind, BlockBuilder.CurrentSizeEstimate in *.
  rewrite Hrs, Hbuf, length_map in *. pose proof (size_nonneg (ents_bytes l)).
  rewrite check_u32_ok by lia. rewrite put_restarts. unfold Coding.PutFixed32.
  rewrite Coding.EncodeFixed32_le, wrap_u32_id by (unfold in_u32; lia).
  do 2 eexists. split; [done|]. rewrite <- app_assoc.
  assert (size (block_bytes l idxs) =
    size (ents_bytes l) + Z.of_nat (length idxs) * 4 + 4) as Hsize.
  { unfold block_bytes. rewrite !size_app, restart_bytes_size, le_bytes_size, length_map. lia. }
  split; [|exact Hsize]. exists l, idxs. split_and!; try done. rewrite <- Hsize in Hsz. done.
Qed.

End BlockSpec.
