(* ===== verification/BlockIter.v ===== *)
(** Reading a block back.

    A [Block::Iter] over a block of the entries [es] implements the iterator
    interface: [at_block es i it] is its invariant, and the laws of [IterLaws]
    are proved for it, the binary search over the restart points of [Seek]
    included. *)
From S2P Require Import Prelude Bytes Coding Block Iterator BlockSpec.

Section BlockIter.
Context {bo : ByteOrder}.

(** ** Reads *)

Lemma read_app (a b c : bytes) (off n : Z) :
  off = size a -> n = size b -> Block.read (a ++ b ++ c) off n = Ok b.
Proof. intros -> ->. unfold Block.read. by rewrite sub_app. Qed.

Lemma EncodeVarint32_head (v : Z) :
  in_u32 v ->
  (v < 128 /\ Coding.EncodeVarint32 v = [v]) \/
  (exists b r, Coding.EncodeVarint32 v = b :: r /\ 128 <= b /\ in_u8 b).
Proof.
  intros Hv. rewrite Coding.EncodeVarint32_base128 by done. cbn [Coding.base128].
  destruct (Z.ltb_spec v 128); [by left|]. right. do 2 eexists. split; [done|].
  pose proof (Z.mod_pos_bound v 128). unfold in_u8. lia.
Qed.

Lemma lor_lt_128 (a b : Z) : 0 <= a -> 0 <= b -> (Z.lor a b <? 128) = (a <? 128) && (b <? 128).
Proof.
  intros Ha Hb.
  assert (forall x, 0 <= x -> (x <? 128) = (Z.shiftr x 7 =? 0)) as Hsh.
  { intros x Hx. rewrite Z.shiftr_div_pow2 by lia. apply eq_true_iff_eq.
    rewrite Z.ltb_lt, Z.eqb_eq. dlia. }
  rewrite !Hsh by (try apply Z.lor_nonneg; lia). rewrite Z.shiftr_lor. apply eq_true_iff_eq.
  rewrite andb_true_iff, !Z.eqb_eq. apply Z.lor_eq_0_iff.
Qed.

(** The three lengths of an entry, by the fast path or by varints. *)
Lemma decode_header (a b c : Z) (rest : bytes) :
  in_u32 a -> in_u32 b -> in_u32 c -> bytes_ok rest ->
  let input := Coding.EncodeVarint32 a ++ Coding.EncodeVarint32 b ++ Coding.EncodeVarint32 c ++ rest in
  (if Z.lor (Z.lor (nth 0 input 0) (nth 1 input 0)) (nth 2 input 0) <? 128 then
     Some (nth 0 input 0, nth 1 input 0, nth 2 input 0, drop 3 input)
   else
     match Coding.GetVarint32Ptr input with
     | None => None
     | Some (a, q) =>
         match Coding.GetVarint32Ptr q with
         | None => None
         | Some (b, q) =>
             match Coding.GetVarint32Ptr q with
             | None => None
             | Some (c, q) => Some (a, b, c, q)
             end
         end
     end) = Some (a, b, c, rest).
Proof.
  intros Ha Hb Hc Hr input.
  assert (bytes_ok input) as Hok.
  { unfold input. rewrite !bytes_ok_app. auto using Coding.EncodeVarint32_ok. }
  assert (forall i, 0 <= nth i input 0) as Hpos.
  { intros i. destruct (nth_in_or_default i input 0) as [Hin| ->]; [|done].
    unfold bytes_ok in Hok. rewrite Forall_forall in Hok.
    apply list_elem_of_In, Hok in Hin. unfold in_u8 in Hin. lia. }
  rewrite !lor_lt_128 by (try apply Z.lor_nonneg; auto).
  destruct (_ && _) eqn:Hfast.
  - zbool. subst input.
    destruct (EncodeVarint32_head a Ha) as [[? Ea]|(x & r & Ea & ? & ?)]; rewrite Ea in *; cbn in *; [|lia].
    destruct (EncodeVarint32_head b Hb) as [[? Eb]|(x & r & Eb & ? & ?)]; rewrite Eb in *; cbn in *; [|lia].
    destruct (EncodeVarint32_head c Hc) as [[? Ec]|(x & r & Ec & ? & ?)]; rewrite Ec in *; cbn in *; [|lia].
    done.
  - rewrite <- !Coding.GetVarint32_Ptr. unfold input.
    rewrite Coding.GetVarint32_Encode by (done || rewrite !bytes_ok_app; auto using Coding.EncodeVarint32_ok).
    rewrite <- !Coding.GetVarint32_Ptr.
    rewrite Coding.GetVarint32_Encode by (done || rewrite !bytes_ok_app; auto using Coding.EncodeVarint32_ok).
    rewrite <- !Coding.GetVarint32_Ptr.
    rewrite Coding.GetVarint32_Encode by (done || rewrite !bytes_ok_app; auto using Coding.EncodeVarint32_ok).
    done.
Qed.

(** ** A block *)

Section Reader.
Context (l : list ent) (idxs : list nat).
Context (Hlinked : linked [] l) (Hrestarts : restarts_ok l idxs).
Context (Hkv : Forall kv_ok (map snd l)).
Context (Hsize : size (block_bytes l idxs) < 2 ^ 32).

Let data := block_bytes l idxs.
Let limit := size (ents_bytes l).
Let num := Z.of_nat (length idxs).

Lemma block_size : size data = limit + 4 * num + 4.
Proof.
  unfold data, block_bytes. rewrite !size_app, restart_bytes_size, le_bytes_size, length_map. lia.
Qed.

Lemma limit_range : 0 <= limit < 2 ^ 32.
Proof. pose proof block_size. pose proof (size_nonneg (ents_bytes l)). unfold limit, num, data in *. lia. Qed.

Lemma num_range : 0 < num < 2 ^ 32.
Proof.
  pose proof block_size. pose proof limit_range. destruct Hrestarts as (Hhd & _).
  unfold num, data in *. destruct idxs; [done|]. simpl length in *. lia.
Qed.

Lemma data_ok : bytes_ok data.
Proof.
  unfold data, block_bytes. rewrite !bytes_ok_app.
  split_and!; [by eapply ents_bytes_ok|apply restart_bytes_ok|apply le_bytes_ok].
Qed.

Lemma offset_range (i : nat) : 0 <= offset l i <= limit.
Proof.
  pose proof (size_nonneg (ents_bytes (take i l))). split; [done|].
  destruct (Nat.le_gt_cases i (length l)).
  - unfold limit. rewrite <- offset_length. by apply offset_mono.
  - unfold limit, offset. rewrite take_ge by lia. done.
Qed.

Lemma entry_kv (i s : nat) (k v : bytes) :
  l !! i = Some (s, (k, v)) -> kv_ok (k, v) /\ (s <= length k)%nat.
Proof.
  intros He. split; [|by apply (linked_shared _ _ _ _ _ Hlinked He)].
  rewrite Forall_forall in Hkv. apply Hkv. apply list_elem_of_fmap. exists (s, (k, v)).
  split; [done|]. by eapply list_elem_of_lookup_2.
Qed.

Lemma restart_lookup (j i : nat) : idxs !! j = Some i -> 0 <= offset l i < 2 ^ 32.
Proof. intros _. pose proof (offset_range i). pose proof limit_range. lia. Qed.

(** The offset of the key bytes of an entry, and what lies there. *)
Definition key_offset (i : nat) (e : ent) : Z := offset l i + size (ent_header e).

Lemma entry_end (i s : nat) (k v : bytes) :
  l !! i = Some (s, (k, v)) ->
  offset l (S i) = key_offset i (s, (k, v)) + (size k - Z.of_nat s) + size v.
Proof.
  intros He. rewrite (offset_S _ _ _ He). unfold key_offset, ent_bytes.
  destruct (entry_kv _ _ _ _ He) as [_ Hs]. rewrite !size_app. unfold size. rewrite length_drop. lia.
Qed.

Lemma data_split (i : nat) (e : ent) :
  l !! i = Some e ->
  exists tail, data = ents_bytes (take i l) ++ ent_bytes e ++ tail /\ bytes_ok tail.
Proof.
  intros He. unfold data, block_bytes. rewrite (ents_bytes_split _ _ _ He), <- !app_assoc.
  eexists. split; [done|]. pose proof data_ok as Hok. unfold data, block_bytes in Hok.
  rewrite (ents_bytes_split _ _ _ He), <- !app_assoc, !bytes_ok_app in Hok. rewrite !bytes_ok_app. tauto.
Qed.

Lemma read_key (i s : nat) (k v : bytes) :
  l !! i = Some (s, (k, v)) ->
  Block.read data (key_offset i (s, (k, v))) (size k - Z.of_nat s) = Ok (drop s k).
Proof.
  intros He. destruct (data_split _ _ He) as (tail & -> & _).
  destruct (entry_kv _ _ _ _ He) as [_ Hs].
  unfold ent_bytes. rewrite <- !app_assoc. rewrite (app_assoc (ents_bytes _)).
  apply read_app; [by rewrite size_app|]. unfold size. rewrite length_drop. lia.
Qed.

Lemma read_value (i s : nat) (k v : bytes) :
  l !! i = Some (s, (k, v)) ->
  Block.read data (key_offset i (s, (k, v)) + (size k - Z.of_nat s)) (size v) = Ok v.
Proof.
  intros He. destruct (data_split _ _ He) as (tail & -> & _).
  destruct (entry_kv _ _ _ _ He) as [_ Hs].
  unfold ent_bytes. rewrite <- !app_assoc. rewrite (app_assoc (ents_bytes _)), (app_assoc (_ ++ _)).
  apply read_app; [|done]. rewrite !size_app. unfold key_offset, offset, size. rewrite length_drop. lia.
Qed.

Lemma DecodeEntry_at (i s : nat) (k v : bytes) :
  l !! i = Some (s, (k, v)) ->
  Block.DecodeEntry data (offset l i) limit =
  Ok (Some (Z.of_nat s, size k - Z.of_nat s, size v, key_offset i (s, (k, v)))).
Proof.
  intros He. destruct (entry_kv _ _ _ _ He) as [Hok Hs].
  pose proof (ent_header_size s k v Hok Hs) as Hh. pose proof (entry_end _ _ _ _ He) as Hend.
  pose proof (offset_range (S i)) as Hr. pose proof (offset_range i) as Hr0. pose proof limit_range as Hl.
  pose proof (size_nonneg v). unfold key_offset in Hend.
  assert (0 <= size k - Z.of_nat s < 2 ^ 32) as Hks by (destruct Hok as (_ & _ & ? & _); unfold size in *; simpl in *; lia).
  unfold Block.DecodeEntry. rewrite (proj2 (Z.ltb_ge _ _)) by lia.
  set (tail := drop s k ++ v ++ ents_bytes (drop (S i) l)).
  assert (Block.read data (offset l i) (limit - offset l i) = Ok (ent_header (s, (k, v)) ++ tail)) as ->.
  { replace (ent_header (s, (k, v)) ++ tail) with (ent_bytes (s, (k, v)) ++ ents_bytes (drop (S i) l))
      by (unfold ent_bytes, tail; by rewrite <- !app_assoc).
    unfold data, block_bytes. rewrite (ents_bytes_split _ _ _ He), <- !app_assoc.
    rewrite (app_assoc (ent_bytes _)). apply read_app; [done|]. unfold limit.
    rewrite (ents_bytes_split _ _ _ He). rewrite !size_app. unfold offset. lia. }
  assert (bytes_ok tail) as Htail.
  { destruct (data_split _ _ He) as (? & Hd & _). pose proof data_ok as Hdok.
    unfold data, block_bytes in Hdok. rewrite (ents_bytes_split _ _ _ He) in Hdok.
    unfold ent_bytes in Hdok. unfold tail. rewrite !bytes_ok_app in *. tauto. }
  cbn [res_bind]. unfold ent_header. rewrite <- !app_assoc.
  rewrite decode_header by (done || (unfold in_u32; destruct Hok as (_ & _ & ? & ?); unfold size in *; cbn in *; lia)).
  assert (limit - size tail = key_offset i (s, (k, v))) as Htl.
  { unfold key_offset, limit, tail. rewrite (ents_bytes_split _ _ _ He). unfold ent_bytes, offset.
    rewrite !size_app. lia. }
  assert (size tail = size k - Z.of_nat s + size v + size (ents_bytes (drop (S i) l))) as Hts.
  { unfold tail. rewrite !size_app. unfold size. rewrite length_drop. lia. }
  pose proof (size_nonneg (ents_bytes (drop (S i) l))).
  replace (limit - (limit - size tail)) with (size tail) by lia.
  rewrite !wrap_u32_id by (unfold in_u32, key_offset in *; lia).
  rewrite (proj2 (Z.ltb_ge _ _)) by lia. by rewrite Htl.
Qed.

Lemma restart_at (j i : nat) :
  idxs !! j = Some i ->
  Block.read data (limit + Z.of_nat j * 4) 4 = Ok (le_bytes 4 (offset l i)).
Proof.
  intros Hj. unfold data, block_bytes. rewrite <- (take_drop_middle _ _ _ Hj), map_app.
  cbn [map]. rewrite restart_bytes_app.
  change (restart_bytes (offset l i :: ?r)) with (le_bytes 4 (offset l i) ++ restart_bytes r).
  rewrite <- !app_assoc, (app_assoc (ents_bytes l)).
  apply read_app; [|by rewrite le_bytes_size].
  rewrite size_app, restart_bytes_size, length_map, length_take. unfold limit.
  apply lookup_lt_Some in Hj. lia.
Qed.

(** ** The invariant of the iterator *)

(** The iterator is over this block, without error. *)
Definition over (it : Block.Iter) : Prop :=
  Block.it_data_ it = data /\ Block.restarts_ it = limit /\ Block.num_restarts_ it = num /\
  Block.status_ it = OkStatus.

(** [ParseNextKey] will parse the entry of index [i]. *)
Definition before (i : nat) (it : Block.Iter) : Prop :=
  over it /\ 0 <= Block.restart_index_ it < num /\ linked (Block.key_ it) (drop i l) /\
  exists off len, Block.value_ it = Some (off, len) /\ off + len = offset l i.

(** The iterator is at the entry of index [i]. *)
Definition on (i : nat) (it : Block.Iter) : Prop :=
  over it /\ 0 <= Block.restart_index_ it < num /\ Block.current_ it = offset l i /\
  exists s k v, l !! i = Some (s, (k, v)) /\ Block.key_ it = k /\
    Block.value_ it = Some (key_offset i (s, (k, v)) + (size k - Z.of_nat s), size v).

(** The iterator is at no entry. *)
Definition past (it : Block.Iter) : Prop := over it /\ Block.current_ it = limit.

Lemma on_before (i : nat) (it : Block.Iter) : on i it -> before (S i) it.
Proof.
  intros (Ho & Hr & _ & s & k & v & He & Hk & Hv). split_and!; [done|lia|lia| |].
  - rewrite Hk. by eapply linked_drop.
  - do 2 eexists. split; [done|]. by rewrite (entry_end _ _ _ _ He).
Qed.

Lemma GetRestartPoint_at (it : Block.Iter) (j i : nat) :
  over it -> idxs !! j = Some i -> Block.GetRestartPoint it (Z.of_nat j) = Ok (offset l i).
Proof.
  intros (Hd & Hl & _) Hj. unfold Block.GetRestartPoint. rewrite Hd, Hl, (restart_at j i) by done.
  cbn [res_bind]. f_equal.
  apply Coding.DecodeFixed32_word. by eapply restart_lookup.
Qed.

Lemma restart_index (index : Z) : 0 <= index < num -> exists i, idxs !! Z.to_nat index = Some i.
Proof. intros Hi. apply lookup_lt_is_Some. unfold num in Hi. lia. Qed.

Lemma advance_restart_ok (fuel : nat) (it : Block.Iter) (current index : Z) :
  over it -> 0 <= index < num -> num - index <= Z.of_nat fuel + 1 ->
  exists index', Block.advance_restart fuel it current index = Ok index' /\ 0 <= index' < num.
Proof.
  intros Ho. revert index. pose proof num_range as Hn.
  induction fuel as [|fuel IH]; intros index Hi Hf; cbn [Block.advance_restart];
    destruct Ho as (Hd & Hl & Hnum & Hst); rewrite Hnum;
    rewrite wrap_u32_id by (unfold in_u32; lia);
    destruct (Z.ltb_spec (index + 1) num) as [Hlt|Hge]; try (eexists; split; [done|lia]); [lia|].
  destruct (restart_index (index + 1)) as [i Hi']; [lia|].
  assert (over it) as Ho by done.
  pose proof (GetRestartPoint_at it _ _ Ho Hi') as Hg. rewrite Z2Nat.id in Hg by lia.
  rewrite Hg. cbn [res_bind]. case_if; [apply IH; lia|]. eexists. split; [done|lia].
Qed.

(** Parsing an entry, and the end. *)
Lemma ParseNextKey_entry (i : nat) (it : Block.Iter) :
  before i it -> (i < length l)%nat ->
  exists it', Block.ParseNextKey it = Ok (it', true) /\ on i it'.
Proof.
  intros (Ho & Hr & Hl & off & len & Hv & Heq) Hi. pose proof Ho as (Hd & Hlim & Hnum & Hst).
  destruct (lookup_lt_is_Some_2 _ _ Hi) as [[s [k v]] He].
  destruct (entry_kv _ _ _ _ He) as [Hok Hs].
  pose proof (ent_header_size s k v Hok Hs) as Hh. pose proof (entry_end _ _ _ _ He) as Hend.
  pose proof (offset_range (S i)). pose proof (offset_range i). pose proof limit_range.
  pose proof (size_nonneg v). unfold key_offset in Hend.
  unfold Block.ParseNextKey, Block.NextEntryOffset. rewrite Hv. cbn [res_bind].
  rewrite Heq, wrap_u32_id by (unfold in_u32; lia). rewrite Hlim, Hd.
  assert (Z.of_nat s <= size k) by (unfold size; lia).
  rewrite (proj2 (Z.leb_gt _ _)) by lia. rewrite (DecodeEntry_at _ _ _ _ He). cbn [res_bind].
  rewrite (drop_S _ _ _ He) in Hl. destruct Hl as (Hs1 & _ & Ht & _).
  rewrite (proj2 (Z.ltb_ge _ _)) by (unfold size; lia). rewrite (read_key _ _ _ _ He). cbn [res_bind].
  destruct (advance_restart_ok (Z.to_nat (Block.num_restarts_ it)) it (offset l i)
    (Block.restart_index_ it)) as (index' & -> & Hidx); [done|done|lia|].
  cbn [res_bind]. eexists. split; [done|].
  split; [by split_and!|]. split; [done|]. split; [done|].
  exists s, k, v. split_and!; [done| |done]. cbn. by rewrite Nat2Z.id, <- Ht, take_drop.
Qed.

Lemma ParseNextKey_end (it : Block.Iter) :
  before (length l) it ->
  exists it', Block.ParseNextKey it = Ok (it', false) /\ past it'.
Proof.
  intros (Ho & Hr & Hl & off & len & Hv & Heq). pose proof Ho as (Hd & Hlim & Hnum & Hst).
  pose proof limit_range. rewrite offset_length in Heq.
  unfold Block.ParseNextKey, Block.NextEntryOffset. rewrite Hv. cbn [res_bind].
  rewrite Heq, Hlim, wrap_u32_id by done.
  rewrite (proj2 (Z.leb_le _ _)) by done. eexists. split; [done|]. by split_and!.
Qed.

Lemma SeekToRestartPoint_at (it : Block.Iter) (j i : nat) :
  over it -> idxs !! j = Some i ->
  exists it', Block.SeekToRestartPoint it (Z.of_nat j) = Ok it' /\ before i it'.
Proof.
  intros Ho Hj. unfold Block.SeekToRestartPoint. rewrite (GetRestartPoint_at it j i) by done.
  cbn [res_bind]. eexists. split; [done|]. destruct Ho as (Hd & Hlim & Hnum & Hst).
  split_and!; try done; cbn.
  - lia.
  - unfold num. apply lookup_lt_Some in Hj. lia.
  - destruct Hrestarts as (_ & _ & Hin).
    destruct (Hin i ltac:(by eapply list_elem_of_lookup_2)) as [[e He]|[-> _]].
    + by eapply linked_restart.
    + by rewrite drop_nil.
  - do 2 eexists. split; [done|lia].
Qed.

(** The linear search, from the entry of index [i]. *)
Lemma seek_linear_ok (target : bytes) (fuel i : nat) (it : Block.Iter) :
  before i it -> (i <= length l)%nat -> (length l - i <= fuel)%nat ->
  exists it', Block.seek_linear fuel it target = Ok it' /\
    let j := (i + lower_bound target (drop i (map snd l)))%nat in
    if decide (j < length l)%nat then on j it' else past it'.
Proof.
  revert i it. induction fuel as [|fuel IH]; intros i it Hb Hi Hf; cbv zeta.
  - assert (i = length l) as -> by lia. destruct (ParseNextKey_end it Hb) as (it' & Hp & Hpast).
    cbn [Block.seek_linear]. rewrite Hp. cbn [res_bind negb]. eexists. split; [done|].
    rewrite decide_False by lia. done.
  - cbn [Block.seek_linear]. destruct (decide (i < length l)%nat) as [Hlt|Hge].
    + destruct (ParseNextKey_entry i it Hb Hlt) as (it' & -> & Hon). cbn [res_bind negb].
      pose proof Hon as (_ & _ & _ & s & k & v & He & Hk & _).
      assert (map snd l !! i = Some (k, v)) as Hm by (by rewrite list_lookup_fmap, He).
      rewrite (drop_S _ _ _ Hm). cbn [lower_bound fst]. rewrite Hk.
      destruct (lt_bytes k target) eqn:Hkt; cbn [negb].
      * destruct (IH (S i) it' (on_before _ _ Hon)) as (it'' & -> & Hit); [lia|lia|].
        eexists. split; [done|]. cbv zeta in Hit.
        replace (i + S (lower_bound target (drop (S i) (map snd l))))%nat
          with (S i + lower_bound target (drop (S i) (map snd l)))%nat by lia. done.
      * eexists. split; [done|]. by rewrite Nat.add_0_r, decide_True.
    + assert (i = length l) as -> by lia. destruct (ParseNextKey_end it Hb) as (it' & -> & Hpast).
      cbn [res_bind negb]. eexists. split; [done|]. rewrite decide_False by lia. done.
Qed.

(** The binary search: the entries before the restart point found are below the target. *)
Definition below (target : bytes) (i : nat) : Prop :=
  Forall (fun e : kv => lt_bytes e.1 target = true) (take i (map snd l)).

Lemma below_key (target : bytes) (i s : nat) (k v : bytes) :
  sorted_entries (map snd l) -> l !! i = Some (s, (k, v)) -> lt_bytes k target = true ->
  below target i.
Proof.
  intros Hs He Hlt. apply Forall_lookup. intros j x Hx.
  assert (j < i)%nat as Hji.
  { apply lookup_lt_Some in Hx. rewrite length_take in Hx. lia. }
  rewrite lookup_take_lt in Hx by done.
  eapply lt_bytes_trans; [|done].
  apply (sorted_entries_lookup (map snd l) j i x (k, v)); [done|done| |done].
  by rewrite list_lookup_fmap, He.
Qed.

Lemma seek_restart_ok (target : bytes) (it : Block.Iter) (fuel : nat) (lo hi : Z) :
  sorted_entries (map snd l) -> over it ->
  0 <= lo <= hi -> hi < num -> hi - lo <= Z.of_nat fuel ->
  (forall i, idxs !! Z.to_nat lo = Some i -> below target i) ->
  exists m i, Block.seek_restart fuel it target lo hi = Ok (Some (Z.of_nat m)) /\
    idxs !! m = Some i /\ below target i.
Proof.
  intros Hsort Ho. pose proof Ho as (Hd & Hlim & _). pose proof num_range as Hn.
  assert (forall lo hi, 0 <= lo -> hi < num -> (forall i, idxs !! Z.to_nat lo = Some i -> below target i) ->
    hi <= lo <= hi -> exists m i, Ok (Some lo) = @Ok fault _ (Some (Z.of_nat m)) /\
      idxs !! m = Some i /\ below target i) as Hdone.
  { intros lo' hi' Hlo Hhi Hbelow Heq. destruct (restart_index lo') as [i Hi]; [lia|].
    exists (Z.to_nat lo'), i. rewrite Z2Nat.id by lia. eauto. }
  revert lo hi. induction fuel as [|fuel IH]; intros lo hi Hlo Hhi Hf Hbelow; cbn [Block.seek_restart];
    destruct (Z.ltb_spec lo hi) as [Hlt|Hge]; try (eapply Hdone; [lia|exact Hhi|done|lia]); [lia|].
  set (mid := lo + (hi - lo + 1) / 2).
  assert (lo < mid <= hi) as Hmid by (unfold mid; dlia).
  rewrite (wrap_u32_id (hi - lo + 1)) by (unfold in_u32; lia). fold mid.
  rewrite !wrap_u32_id by (unfold in_u32; lia).
  destruct (restart_index mid) as [i Hi]; [lia|].
  pose proof (GetRestartPoint_at it _ _ Ho Hi) as Hg. rewrite Z2Nat.id in Hg by lia. rewrite Hg.
  cbn [res_bind]. rewrite Hd, Hlim.
  assert (exists k v, l !! i = Some (O, (k, v))) as (k & v & He).
  { destruct Hrestarts as (_ & _ & Hin).
    destruct (Hin i ltac:(by eapply list_elem_of_lookup_2)) as [[[k v] He]|[_ Hone]]; [by eauto|].
    unfold num in *. rewrite Hone in *. simpl in *. lia. }
  rewrite (DecodeEntry_at _ _ _ _ He). cbn [res_bind Z.of_nat Z.eqb negb].
  pose proof (read_key _ _ _ _ He) as Hrk. cbn [Z.of_nat] in Hrk. rewrite Hrk. cbn [res_bind].
  change (drop 0 k) with k. destruct (lt_bytes k target) eqn:Hkt.
  - apply IH; [lia|lia|lia|]. intros i' Hi'. assert (i' = i) as -> by congruence.
    by eapply below_key.
  - apply IH; [lia|lia|lia|done].
Qed.

(** ** The operations *)

(** At the entry of index [i], or at none. *)
Definition position (i : nat) (it : Block.Iter) : Prop :=
  if decide (i < length l)%nat then on i it else past it.

Lemma position_over (i : nat) (it : Block.Iter) : position i it -> over it.
Proof. unfold position. case_decide; [by intros [? _]|by intros [? _]]. Qed.

Lemma first_restart : idxs !! O = Some O.
Proof. destruct Hrestarts as (Hhd & _). by destruct idxs. Qed.

Lemma parse_position (i : nat) (it : Block.Iter) :
  before i it -> (i <= length l)%nat ->
  exists it' b, Block.ParseNextKey it = Ok (it', b) /\ position i it'.
Proof.
  intros Hb Hi. unfold position. case_decide.
  - destruct (ParseNextKey_entry i it) as (it' & -> & ?); eauto.
  - assert (i = length l) as -> by lia. destruct (ParseNextKey_end it) as (it' & -> & ?); eauto.
Qed.

Lemma SeekToFirst_position (it : Block.Iter) :
  over it -> exists it', Block.SeekToFirst it = Ok it' /\ position 0 it'.
Proof.
  intros Ho. unfold Block.SeekToFirst.
  destruct (SeekToRestartPoint_at it O O Ho first_restart) as (it' & Hs & Hb).
  change (Z.of_nat 0) with 0 in Hs. rewrite Hs. cbn [res_bind].
  destruct (parse_position O it' Hb) as (it'' & b & -> & ?); [lia|]. cbn [res_bind]. eauto.
Qed.

Lemma Next_position (i : nat) (it : Block.Iter) :
  position i it -> (i < length l)%nat -> exists it', Block.Next it = Ok it' /\ position (S i) it'.
Proof.
  intros Hp Hi. unfold position in Hp. rewrite decide_True in Hp by done. unfold Block.Next.
  destruct (parse_position (S i) it (on_before _ _ Hp)) as (it' & b & -> & ?); [lia|].
  cbn [res_bind]. eauto.
Qed.

Lemma Seek_position (target : bytes) (it : Block.Iter) :
  sorted_entries (map snd l) -> over it ->
  exists it', Block.Seek it target = Ok it' /\ position (lower_bound target (map snd l)) it'.
Proof.
  intros Hsort Ho. pose proof num_range as Hn. pose proof Ho as (_ & _ & Hnum & _).
  unfold Block.Seek. rewrite Hnum, wrap_u32_id by (unfold in_u32; lia).
  destruct (seek_restart_ok target it (Z.to_nat num) 0 (num - 1)) as (m & i & -> & Hm & Hbelow);
    [done|done|lia|lia|lia| |].
  { intros i Hi. change (Z.to_nat 0) with O in Hi. rewrite first_restart in Hi.
    injection Hi as <-. unfold below. rewrite take_0. constructor. }
  cbn [res_bind]. destruct (SeekToRestartPoint_at it m i Ho Hm) as (it' & -> & Hb). cbn [res_bind].
  assert (i <= length l)%nat as Hi.
  { destruct Hrestarts as (_ & _ & Hin).
    destruct (Hin i ltac:(by eapply list_elem_of_lookup_2)) as [[e He]|[_ Hone]].
    - apply lookup_lt_Some in He. lia.
    - rewrite Hone in Hm. destruct m; [|done]. injection Hm as <-. lia. }
  destruct (seek_linear_ok target (Z.to_nat (Block.restarts_ it')) i it' Hb Hi) as (it'' & -> & Hj).
  { destruct Hb as ((_ & -> & _) & _). pose proof (offset_ge [] l Hlinked Hkv). unfold limit. lia. }
  eexists. split; [done|]. cbv zeta in Hj. unfold position.
  rewrite <- (take_drop i (map snd l)), lower_bound_app by done.
  rewrite length_take, length_map, Nat.min_l by lia. done.
Qed.

Lemma position_Valid (i : nat) (it : Block.Iter) :
  position i it -> Block.Valid it = bool_decide (i < length l)%nat.
Proof.
  unfold position, Block.Valid. case_decide as Hi; intros Hp.
  - rewrite bool_decide_true by done. destruct Hp as ((_ & -> & _) & _ & -> & _).
    apply Z.ltb_lt. destruct (lookup_lt_is_Some_2 _ _ Hi) as [[s [k v]] He].
    destruct (entry_kv _ _ _ _ He) as [Hok Hs]. pose proof (ent_header_size s k v Hok Hs).
    pose proof (entry_end _ _ _ _ He) as Hend. pose proof (offset_range (S i)).
    pose proof (size_nonneg v). unfold key_offset, size in *. lia.
  - rewrite bool_decide_false by done. destruct Hp as ((_ & -> & _) & ->). by apply Z.ltb_irrefl.
Qed.

Lemma position_entry (i : nat) (it : Block.Iter) (k v : bytes) :
  position i it -> map snd l !! i = Some (k, v) ->
  Block.key it = k /\ Block.value it = Ok v.
Proof.
  intros Hp Hkv'. rewrite list_lookup_fmap in Hkv'.
  destruct (l !! i) as [[s e]|] eqn:He; [|done]. injection Hkv' as ->.
  unfold position in Hp. rewrite decide_True in Hp by (by eapply lookup_lt_Some).
  destruct Hp as ((Hd & _) & _ & _ & s' & k' & v' & He' & Hk & Hv).
  rewrite He in He'. injection He' as <- <- <-. split; [done|].
  unfold Block.value. rewrite Hv, Hd. by apply read_value.
Qed.

(** [Block] and [NewIterator]. *)
Lemma new_block :
  exists b, Block.new data = Ok b /\
    Block.NewIterator b = Ok (Block.IterBlock (Block.newIter data limit num)).
Proof.
  pose proof block_size as Hs. pose proof limit_range as Hl. pose proof num_range as Hn.
  assert (Block.num_restarts data (size data) = Ok num) as Hnr.
  { unfold Block.num_restarts. unfold data at 1, block_bytes. rewrite app_assoc.
    rewrite <- (app_nil_r (le_bytes 4 _)), (read_app _ (le_bytes 4 (Z.of_nat (length idxs)))).
    - cbn [res_bind]. f_equal.
      apply Coding.DecodeFixed32_word. unfold in_u32, num in *. lia.
    - rewrite size_app, restart_bytes_size, length_map. unfold limit, num in *. lia.
    - by rewrite le_bytes_size. }
  unfold Block.new. rewrite (proj2 (Z.ltb_ge _ _)) by lia. rewrite Hnr. cbn [res_bind].
  rewrite (proj2 (Z.ltb_ge _ _)) by dlia.
  rewrite (wrap_u32_id (1 + num)), (wrap_u64_id) by (unfold in_u32, in_u64, data in *; lia).
  rewrite wrap_u32_id by (unfold in_u32, data in *; lia).
  eexists. split; [done|]. unfold Block.NewIterator, Block.NumRestarts. cbn.
  rewrite (proj2 (Z.ltb_ge _ _)) by lia. rewrite Hnr. cbn [res_bind].
  rewrite (proj2 (Z.eqb_neq _ _)) by lia. do 3 f_equal. lia.
Qed.

Lemma newIter_past : past (Block.newIter data limit num).
Proof. by split_and!. Qed.

End Reader.

(** ** The interface *)

#[export] Instance block_iter_ops : IterOps Block.Iterator := {|
  it_Valid := Block.iter_Valid;
  it_Seek := Block.iter_Seek;
  it_SeekToFirst := Block.iter_SeekToFirst;
  it_Next := Block.iter_Next;
  it_key := Block.iter_key;
  it_value := Block.iter_value;
  it_status := Block.iter_status
|}.

(** An iterator over a block of [es], at the entry of index [i]. *)
Definition at_block (es : list kv) (i : nat) (I : Block.Iterator) : Prop :=
  exists l idxs it, I = Block.IterBlock it /\ map snd l = es /\ sorted_entries es /\
    linked [] l /\ restarts_ok l idxs /\ Forall kv_ok (map snd l) /\
    size (block_bytes l idxs) < 2 ^ 32 /\ position l idxs i it.

#[export] Instance block_iter_laws : IterLaws Block.Iterator at_block.
Proof.
  split.
  - by intros es i it (? & ? & ? & _ & _ & ? & _).
  - intros es i I (l & idxs & it & -> & <- & ? & Hl & Hr & Hkv & Hs & Hp). cbn.
    rewrite (position_Valid l idxs Hl Hkv i it Hp). by rewrite length_map.
  - intros es i I k v (l & idxs & it & -> & <- & ? & Hl & Hr & Hkv & Hs & Hp) He. cbn.
    by apply (position_entry l idxs Hl Hkv i).
  - intros es i I (l & idxs & it & -> & <- & ? & Hl & Hr & Hkv & Hs & Hp).
    by destruct (position_over _ _ _ _ Hp) as (_ & _ & _ & ?).
  - intros es i I (l & idxs & it & -> & <- & ? & Hl & Hr & Hkv & Hs & Hp).
    destruct (SeekToFirst_position l idxs Hl Hr Hkv Hs it (position_over _ _ _ _ Hp)) as (it' & E & Hp').
    exists (Block.IterBlock it'). cbn. rewrite E. split; [done|]. by exists l, idxs, it'.
  - intros es i I (l & idxs & it & -> & <- & ? & Hl & Hr & Hkv & Hs & Hp) Hi.
    rewrite length_map in Hi.
    destruct (Next_position l idxs Hl Hr Hkv Hs i it Hp Hi) as (it' & E & Hp').
    exists (Block.IterBlock it'). cbn. rewrite E. split; [done|]. by exists l, idxs, it'.
  - intros es i I target (l & idxs & it & -> & <- & Hso & Hl & Hr & Hkv & Hs & Hp).
    destruct (Seek_position l idxs Hl Hr Hkv Hs target it Hso (position_over _ _ _ _ Hp))
      as (it' & E & Hp').
    exists (Block.IterBlock it'). cbn. rewrite E. split; [done|]. by exists l, idxs, it'.
Qed.

(** Opening a block of sorted entries. *)
Lemma open_block (es : list kv) (data : bytes) :
  block_of es data -> sorted_entries es ->
  exists b I, Block.new data = Ok b /\ Block.NewIterator b = Ok I /\ at_block es (length es) I.
Proof.
  intros (l & idxs & <- & Hl & Hr & Hkv & -> & Hs) Hsort.
  destruct (new_block l idxs Hr Hs) as (b & Hb & HI).
  exists b. eexists. split_and!; [done|done|]. exists l, idxs. eexists.
  split_and!; try done. unfold position. rewrite length_map, decide_False by lia.
  by apply newIter_past.
Qed.

End BlockIter.
