(* ===== verification/BlockTheorems.v ===== *)
(** What blocks promise.

    Building a block and reading it back; the sizes for which no [CHECK] of
    the builder fails. *)
From stdpp Require Import sorting.
From S2P Require Import Prelude Bytes Coding Block Iterator BlockSpec BlockIter.

Section BlockTheorems.
Context {bo : ByteOrder}.
Local Open Scope res_scope.

(** [Add] of every entry. *)
Fixpoint add_all (interval : Z) (b : BlockBuilder.t) (es : list kv) : res fault BlockBuilder.t :=
  match es with
  | [] => Ok b
  | e :: r => let! b := BlockBuilder.Add interval b e.1 e.2 in add_all interval b r
  end.

Definition build_block (interval : Z) (es : list kv) : res fault bytes :=
  let! b := add_all interval BlockBuilder.new es in
  let! (data, _) := BlockBuilder.Finish b in
  Ok data.

(** No more bytes than this in a block of the entries: three varints and a
    restart point for each. *)
Definition entry_bound (e : kv) : Z := 19 + size e.1 + size e.2.
Fixpoint entries_bound (es : list kv) : Z :=
  match es with [] => 0 | e :: r => entry_bound e + entries_bound r end.

Lemma entries_bound_app (a b : list kv) :
  entries_bound (a ++ b) = entries_bound a + entries_bound b.
Proof. induction a as [|e a IH]; cbn; [done|]. rewrite IH. lia. Qed.

Lemma entries_bound_nonneg (a : list kv) : 0 <= entries_bound a.
Proof.
  induction a as [|e a IH]; cbn; [done|]. unfold entry_bound.
  pose proof (size_nonneg e.1). pose proof (size_nonneg e.2). lia.
Qed.

Lemma ents_bytes_bound (prev : bytes) (l : list ent) :
  linked prev l -> Forall kv_ok (map snd l) ->
  size (ents_bytes l) + 4 * Z.of_nat (length l) <= entries_bound (map snd l).
Proof.
  revert prev. induction l as [|[s [k v]] l IH]; intros prev Hl Hok; [done|].
  destruct Hl as (_ & Hs & _ & Hl). apply Forall_cons in Hok as [(Hb1 & Hb2 & Hk & Hv) Hok].
  change (ents_bytes ((s, (k, v)) :: l)) with
    ((ent_header (s, (k, v)) ++ drop s k ++ v) ++ ents_bytes l).
  rewrite !size_app. specialize (IH _ Hl Hok). cbn [map snd entries_bound length fst] in *.
  unfold entry_bound, ent_header. cbn [fst snd]. rewrite !size_app. pose proof (size_nonneg v).
  assert (size (drop s k) <= size k) by (unfold size; rewrite length_drop; lia).
  pose proof (Coding.EncodeVarint32_size (Z.of_nat s)).
  pose proof (Coding.EncodeVarint32_size (size k - Z.of_nat s)).
  pose proof (Coding.EncodeVarint32_size (size v)).
  unfold in_u32, size in *. lia.
Qed.

Lemma sorted_lt_length (idxs : list nat) (n : nat) :
  StronglySorted lt idxs -> (forall i, i ∈ idxs -> (i < n)%nat) -> (length idxs <= n)%nat.
Proof.
  intros Hs Hlt. replace n with (length (seq O n)) by apply length_seq.
  apply submseteq_length, NoDup_submseteq.
  - induction Hs as [|i idxs Hs IH Hall]; constructor.
    + intros Hi. rewrite Forall_forall in Hall. specialize (Hall _ Hi). lia.
    + apply IH. intros j Hj. apply Hlt. by constructor.
  - intros i Hi. apply elem_of_seq. specialize (Hlt i Hi). lia.
Qed.

Lemma builds_bound (es : list kv) (b : BlockBuilder.t) :
  builds es b -> BlockBuilder.CurrentSizeEstimate b <= entries_bound es + 8 /\
  size (BlockBuilder.buffer_ b) <= entries_bound es.
Proof.
  intros (Hok & _ & _ & l & idxs & <- & Hl & (Hhd & Hs & Hin) & Hb & Hrs).
  unfold BlockBuilder.CurrentSizeEstimate. rewrite Hrs, length_map, Hb.
  pose proof (ents_bytes_bound [] l Hl Hok) as Hbound.
  assert (length idxs <= length l \/ idxs = [O])%nat as Hi.
  { destruct (decide (idxs = [O])); [by right|left]. apply sorted_lt_length; [done|].
    intros i Hi. destruct (Hin i Hi) as [[e He]|[_ ?]]; [by eapply lookup_lt_Some|done]. }
  destruct Hi as [Hi| ->]; simpl length; lia.
Qed.

Lemma add_all_builds (interval : Z) (es0 es : list kv) (b : BlockBuilder.t) :
  1 <= interval -> builds es0 b -> Forall kv_ok es -> entries_bound (es0 ++ es) < 2 ^ 32 ->
  exists b', add_all interval b es = Ok b' /\ builds (es0 ++ es) b'.
Proof.
  intros Hi. revert es0 b. induction es as [|[k v] es IH]; intros es0 b Hb Hok Hs.
  - rewrite app_nil_r. by exists b.
  - apply Forall_cons in Hok as [Hkv Hok]. rewrite entries_bound_app in Hs.
    pose proof (entries_bound_nonneg ((k, v) :: es)).
    destruct (Add_builds interval es0 b k v Hi Hb Hkv) as (b' & Ha & Hb').
    { pose proof (proj2 (builds_bound _ _ Hb)). lia. }
    cbn [add_all fst snd]. rewrite Ha. cbn [res_bind].
    destruct (IH _ _ Hb' Hok) as (b'' & -> & Hb''); [by rewrite <- app_assoc, entries_bound_app|].
    rewrite <- app_assoc in Hb''. by exists b''.
Qed.

Lemma build_block_of (interval : Z) (es : list kv) :
  1 <= interval -> Forall kv_ok es -> entries_bound es + 8 < 2 ^ 32 ->
  exists data, build_block interval es = Ok data /\ block_of es data.
Proof.
  intros Hi Hok Hs. unfold build_block.
  destruct (add_all_builds interval [] es BlockBuilder.new Hi builds_new Hok) as (b & -> & Hb); [simpl; lia|].
  cbn [res_bind app] in *. pose proof (proj1 (builds_bound _ _ Hb)).
  destruct (Finish_builds es b Hb) as (data & b' & -> & Hd & _); [lia|]. cbn [res_bind]. eauto.
Qed.

(** A block reads back as it was written.  Adding sorted entries to a
    [BlockBuilder] and finishing it passes every [CHECK] (for entries that take
    less than 4 GiB), and an iterator over the result returns exactly the
    entries, in order, with status OK; [Seek] positions it at the first entry
    whose key is not below the target, whatever restart points the binary
    search compares with. *)
Theorem block_round_trip (interval : Z) (es : list kv) (target : bytes) :
  1 <= interval -> Forall kv_ok es -> entries_bound es + 8 < 2 ^ 32 -> sorted_entries es ->
  exists data b I first found,
    build_block interval es = Ok data /\
    Block.new data = Ok b /\ Block.NewIterator b = Ok I /\
    Block.iter_SeekToFirst I = Ok first /\
    drain (length es) first = Ok (es, OkStatus) /\
    Block.iter_Seek I target = Ok found /\
    drain (length es) found = Ok (drop (lower_bound target es) es, OkStatus).
Proof.
  intros Hi Hok Hs Hsort.
  destruct (build_block_of interval es Hi Hok Hs) as (data & Hdata & Hblock).
  destruct (open_block es data Hblock Hsort) as (b & I & Hb & HI & Hat).
  destruct (at_SeekToFirst _ _ _ Hat) as (first & Hf & Hatf).
  destruct (at_Seek _ _ _ target Hat) as (found & Hg & Hatg).
  exists data, b, I, first, found.
  split_and!; try done.
  - rewrite (drain_at (at_ := at_block) _ O es) by (done || lia). by rewrite drop_0.
  - by rewrite (drain_at (at_ := at_block) _ (lower_bound target es) es) by (done || lia).
Qed.

End BlockTheorems.

Lemma block_round_trip_witness :
  exists data b I first found,
    build_block (bo := true) 2 [([1; 2], [7]); ([1; 3], []); ([2], [8; 8])] = Ok data /\
    Block.new (bo := true) data = Ok b /\ Block.NewIterator (bo := true) b = Ok I /\
    Block.iter_SeekToFirst (bo := true) I = Ok first /\
    drain (ops := block_iter_ops (bo := true)) 3 first =
      Ok ([([1; 2], [7]); ([1; 3], []); ([2], [8; 8])], OkStatus) /\
    Block.iter_Seek (bo := true) I [1; 4] = Ok found /\
    drain (ops := block_iter_ops (bo := true)) 3 found = Ok ([([2], [8; 8])], OkStatus).
Proof.
  apply (block_round_trip (bo := true) 2 [([1; 2], [7]); ([1; 3], []); ([2], [8; 8])] [1; 4]).
  - lia.
  - repeat constructor; vm_compute; (reflexivity || discriminate).
  - vm_compute. reflexivity.
  - repeat constructor.
Defined.
