(* ===== verification/BlockSafety.v ===== *)
(** Blocks of arbitrary bytes.

    A block may come from a file that nobody checked but for its checksum.
    [wild] is what holds of an iterator over any bytes; the operations keep it
    and terminate, because an entry that is accepted always moves the iterator
    forward.  They stay inside of the block as long as no entry claims a key
    and a value whose lengths sum up to [2 ^ 32] or more: that sum wraps in
    [DecodeEntry], and the check that the entry fits passes. *)
From stdpp Require Import relations.
From S2P Require Import Prelude Bytes Coding Block.

Section BlockSafety.
Context {bo : ByteOrder}.

Lemma read_in_bounds (data : bytes) (off n : Z) :
  0 <= off -> 0 <= n -> off + n <= size data ->
  exists b, Block.read data off n = Ok b /\ size b = n /\ (bytes_ok data -> bytes_ok b).
Proof.
  intros H1 H2 H3. unfold Block.read.
  destruct (proj2 (sub_Some_iff data off n)) as [b Hb]; [done|]. rewrite Hb.
  exists b. split_and!; [done| |intros; by eapply sub_ok].
  by apply sub_Some in Hb as (? & ? & _ & _ & ?).
Qed.

Lemma GetVarint32_suffix (p : bytes) (v : Z) (q : bytes) :
  bytes_ok p -> Coding.GetVarint32Ptr p = Some (v, q) ->
  in_u32 v /\ size q < size p /\ bytes_ok q.
Proof.
  intros Hp Hg. rewrite <- Coding.GetVarint32_Ptr in Hg.
  apply Coding.GetVarint32_consumes in Hg as (Hv & used & -> & Hu); [|done].
  rewrite size_app. apply bytes_ok_app in Hp as [_ ?]. split_and!; [done|lia|done].
Qed.

(** An accepted entry: where its key bytes start, and that its lengths, summed
    modulo [2 ^ 32], fit. *)
Lemma DecodeEntry_any (data : bytes) (p limit : Z) :
  bytes_ok data -> 0 <= p -> 0 <= limit <= size data -> size data < 2 ^ 32 ->
  exists r, Block.DecodeEntry data p limit = Ok r /\
    (forall s n m q, r = Some (s, n, m, q) ->
       in_u32 s /\ in_u32 n /\ in_u32 m /\ p < q <= limit /\ q + wrap_u32 (n + m) <= limit).
Proof.
  intros Hok Hp Hl Hs. unfold Block.DecodeEntry. case_if; [by eexists|].
  destruct (read_in_bounds data p (limit - p)) as (input & -> & Hsz & Hin); [lia|lia|lia|].
  specialize (Hin Hok). cbn [res_bind].
  match goal with |- context [match ?x with None => Ok None | _ => _ end] => set (dec := x) end.
  assert (forall s n m q, dec = Some (s, n, m, q) ->
    in_u32 s /\ in_u32 n /\ in_u32 m /\ 0 <= size q < size input) as Hdec.
  { intros s n m q. unfold dec. case_if.
    - do 3 (destruct input as [|? input]; [unfold size in *; simpl in *; lia|];
            apply Forall_cons in Hin as [? Hin]).
      cbn [nth drop]. intros [= <- <- <- <-]. rewrite !size_cons.
      pose proof (size_nonneg input). unfold in_u8, in_u32 in *. rewrite drop_0. lia.
    - repeat case_match; try done. intros [= <- <- <- <-].
      repeat match goal with
      | H : Coding.GetVarint32Ptr _ = Some _ |- _ =>
          apply GetVarint32_suffix in H as (? & ? & ?); [|done]
      end.
      match goal with |- context [size ?q] => pose proof (size_nonneg q) end.
      split_and!; (done || lia). }
  clearbody dec. destruct dec as [[[[s n] m] q]|]; [|by eexists].
  destruct (Hdec s n m q eq_refl) as (Hs' & Hn & Hm & Hq).
  replace (limit - (limit - size q)) with (size q) by lia.
  rewrite (wrap_u32_id (size q)) by (unfold in_u32; lia).
  case_if; (eexists; split; [done|]); [done|].
  intros s' n' m' q' [= <- <- <- <-]. pose proof (wrap_u32_range (n + m)) as [? ?].
  split_and!; try done; lia.
Qed.

(** An iterator over any bytes. *)
Definition wild (it : Block.Iter) : Prop :=
  bytes_ok (Block.it_data_ it) /\ size (Block.it_data_ it) < 2 ^ 32 /\
  0 <= Block.restarts_ it /\ 0 < Block.num_restarts_ it /\
  Block.restarts_ it + 4 * Block.num_restarts_ it + 4 <= size (Block.it_data_ it).

(** ... from which [ParseNextKey] can go on, at [next]. *)
Definition parsing (it : Block.Iter) (next : Z) : Prop :=
  wild it /\ Block.NextEntryOffset it = Ok next /\ 0 <= next /\
  0 <= Block.restart_index_ it < Block.num_restarts_ it.

(** No entry of the block claims 4 GiB or more. *)
Definition no_overflow (it : Block.Iter) : Prop :=
  forall p s n m q, Block.DecodeEntry (Block.it_data_ it) p (Block.restarts_ it) = Ok (Some (s, n, m, q)) ->
    n + m < 2 ^ 32.

(** The same block. *)
Definition same_block (a b : Block.Iter) : Prop :=
  Block.it_data_ b = Block.it_data_ a /\ Block.restarts_ b = Block.restarts_ a /\
  Block.num_restarts_ b = Block.num_restarts_ a.

#[local] Instance same_block_preorder : PreOrder same_block.
Proof.
  split; [by intros ?|]. intros a b c (? & ? & ?) (? & ? & ?). split_and!; congruence.
Qed.

Lemma same_block_wild (a b : Block.Iter) : same_block a b -> wild a -> wild b.
Proof. unfold wild. intros (-> & -> & ->). done. Qed.

Lemma same_block_overflow (a b : Block.Iter) : same_block a b -> no_overflow a -> no_overflow b.
Proof. unfold no_overflow. intros (-> & -> & _). done. Qed.

Lemma same_block_corruption (it : Block.Iter) : same_block it (Block.CorruptionError it).
Proof. done. Qed.

(** An iterator between operations: a valid one can go on, and its value is in
    the block unless an entry overflows. *)
Definition calm (it : Block.Iter) : Prop :=
  wild it /\
  (Block.Valid it = true ->
   (exists next, parsing it next) /\
   (no_overflow it -> exists v, Block.value it = Ok v)).

(** What an operation may do on any block: return, over the same block, or fault
    outside of it, the latter only when an entry overflows. *)
Definition tame (it : Block.Iter) (r : res fault Block.Iter) : Prop :=
  match r with
  | Ok it' => same_block it it' /\ calm it'
  | Err OutOfBounds => ~ no_overflow it
  | Err _ => False
  end.

Lemma GetRestartPoint_any (it : Block.Iter) (index : Z) :
  wild it -> 0 <= index < Block.num_restarts_ it ->
  exists r, Block.GetRestartPoint it index = Ok r /\ in_u32 r.
Proof.
  intros (Hok & Hs & Hr & Hn & Hb) Hi. unfold Block.GetRestartPoint.
  destruct (read_in_bounds (Block.it_data_ it) (Block.restarts_ it + index * 4) 4)
    as (w & -> & Hw & Hwok); [lia|lia|lia|].
  eexists. split; [done|]. apply Coding.DecodeFixed32_range; [by apply Hwok|]. unfold size in Hw. lia.
Qed.

Lemma advance_restart_any (fuel : nat) (it : Block.Iter) (current index : Z) :
  wild it -> 0 <= index < Block.num_restarts_ it ->
  Block.num_restarts_ it - index <= Z.of_nat fuel + 1 ->
  exists index', Block.advance_restart fuel it current index = Ok index' /\
    0 <= index' < Block.num_restarts_ it.
Proof.
  intros Hw. pose proof Hw as (_ & Hs & Hr & Hn & Hb). revert index.
  induction fuel as [|fuel IH]; intros index Hi Hf; cbn [Block.advance_restart];
    rewrite wrap_u32_id by (unfold in_u32; lia);
    destruct (Z.ltb_spec (index + 1) (Block.num_restarts_ it)); try (eexists; split; [done|lia]); [lia|].
  destruct (GetRestartPoint_any it (index + 1) Hw) as (r & -> & _); [lia|]. cbn [res_bind].
  case_if; [apply IH; lia|]. eexists. split; [done|lia].
Qed.

(** The next entry starts where the wrapped sum says. *)
Lemma next_offset (q n m : Z) :
  0 <= q -> q + wrap_u32 (n + m) < 2 ^ 32 -> wrap_u32 (q + n + m) = q + wrap_u32 (n + m).
Proof.
  intros Hq Hlt. pose proof (wrap_u32_range (n + m)) as Hr. unfold in_u32 in Hr.
  rewrite <- (wrap_u32_id (q + wrap_u32 (n + m))) by (unfold in_u32; lia).
  unfold wrap_u32. by rewrite Zplus_mod_idemp_r, Z.add_assoc.
Qed.

(** Parsing moves forward, or ends. *)
Lemma ParseNextKey_any (it : Block.Iter) (next : Z) :
  parsing it next ->
  (exists it', Block.ParseNextKey it = Ok (it', false) /\ same_block it it' /\
     Block.Valid it' = false) \/
  (exists it' next', Block.ParseNextKey it = Ok (it', true) /\ same_block it it' /\
     (parsing it' next' /\ (no_overflow it -> exists v, Block.value it' = Ok v)) /\
     next < next' <= Block.restarts_ it /\ next < Block.restarts_ it) \/
  (Block.ParseNextKey it = Err OutOfBounds /\ ~ no_overflow it).
Proof.
  intros (Hw & Hnext & Hpos & Hidx). pose proof Hw as (Hok & Hs & Hr & Hn & Hb).
  unfold Block.ParseNextKey. rewrite Hnext. cbn [res_bind].
  destruct (Z.leb_spec (Block.restarts_ it) next) as [Hle|Hlt]; [left; eexists; split; [done|]; split; [done|apply Z.ltb_irrefl]|].
  destruct (DecodeEntry_any (Block.it_data_ it) next (Block.restarts_ it) Hok Hpos) as (r & Hr' & Hspec);
    [lia|done|]. rewrite Hr'. cbn [res_bind].
  destruct r as [[[[s n] m] q]|]; [|left; eexists; split; [done|]; split; [done|apply Z.ltb_irrefl]].
  destruct (Hspec s n m q eq_refl) as (Hsu & Hnu & Hmu & Hq & Hfit).
  case_if; [left; eexists; split; [done|]; split; [done|apply Z.ltb_irrefl]|].
  unfold Block.read. destruct (sub (Block.it_data_ it) q n) as [delta|] eqn:Hsub.
  - cbn [res_bind].
    destruct (advance_restart_any (Z.to_nat (Block.num_restarts_ it)) it next (Block.restart_index_ it))
      as (index' & -> & Hidx'); [done|done|lia|]. cbn [res_bind].
    pose proof (wrap_u32_range (n + m)) as Hwr. unfold in_u32 in Hwr.
    right. left. do 2 eexists. split; [done|]. split; [done|]. split; [|split; [|done]].
    + split; [split; [done|]; split; [|split; [|done]]|].
      * cbn. by rewrite next_offset by (unfold in_u32 in *; lia).
      * lia.
      * intros Hno. apply Hno in Hr'. rewrite wrap_u32_id in Hfit by (unfold in_u32 in *; lia).
        destruct (read_in_bounds (Block.it_data_ it) (q + n) m) as (v & Hv & _);
          [unfold in_u32 in *; lia..|]. by exists v.
    + lia.
  - right. right. split; [done|]. intros Hno. apply Hno in Hr'.
    rewrite wrap_u32_id in Hfit by (unfold in_u32 in *; lia).
    assert (is_Some (sub (Block.it_data_ it) q n)) as [? ?]; [|congruence].
    apply sub_Some_iff. unfold in_u32 in *. lia.
Qed.

Lemma not_valid_calm (it it' : Block.Iter) :
  wild it -> same_block it it' -> Block.Valid it' = false -> calm it'.
Proof. intros Hw Hs Hv. split; [by eapply same_block_wild|]. by rewrite Hv. Qed.

Lemma parsing_calm (it it' : Block.Iter) (next : Z) :
  same_block it it' -> parsing it' next -> (no_overflow it -> exists v, Block.value it' = Ok v) ->
  calm it'.
Proof.
  intros Hs Hp Hv. split; [apply Hp|]. intros _. split; [by eexists|].
  intros Hno. apply Hv. eapply same_block_overflow; [|done]. by destruct Hs as (? & ? & ?).
Qed.

(** [ParseNextKey] as a step of an operation. *)
Lemma parse_tame (it : Block.Iter) (next : Z) :
  parsing it next -> tame it (res_bind (Block.ParseNextKey it) (fun r => Ok r.1)).
Proof.
  intros Hp. destruct (ParseNextKey_any it next Hp)
    as [(it' & -> & Hs & Hv)|[(it' & n' & -> & Hs & (Hp' & Hv) & _)|[-> Hno]]]; cbn; [| |done].
  - split; [done|]. eapply not_valid_calm; [apply Hp|done|done].
  - split; [done|]. by eapply parsing_calm.
Qed.

Lemma SeekToRestartPoint_any (it : Block.Iter) (index : Z) :
  wild it -> 0 <= index < Block.num_restarts_ it ->
  exists it' next, Block.SeekToRestartPoint it index = Ok it' /\ same_block it it' /\ parsing it' next.
Proof.
  intros Hw Hi. unfold Block.SeekToRestartPoint.
  destruct (GetRestartPoint_any it index Hw Hi) as (r & -> & Hr). cbn [res_bind].
  do 2 eexists. split; [done|]. split; [done|]. split; [done|]. split; [done|].
  split; [|done]. apply wrap_u32_range.
Qed.

Lemma Next_any (it : Block.Iter) : calm it -> Block.Valid it = true -> tame it (Block.Next it).
Proof.
  intros (Hw & Hc) Hv. destruct (Hc Hv) as [[next Hp] _].
  pose proof (parse_tame it next Hp) as Ht. unfold Block.Next.
  by destruct (Block.ParseNextKey it) as [[it' b]|].
Qed.

Lemma tame_same_block (a b : Block.Iter) (r : res fault Block.Iter) :
  same_block a b -> tame b r -> tame a r.
Proof.
  intros Hs. assert (no_overflow a -> no_overflow b) as Hno by (by apply same_block_overflow).
  unfold tame. destruct r as [it'|[]]; [|done|tauto|done].
  intros [? ?]. split; [by etransitivity|done].
Qed.

Lemma SeekToFirst_any (it : Block.Iter) : wild it -> tame it (Block.SeekToFirst it).
Proof.
  intros Hw. pose proof Hw as (_ & _ & _ & Hn & _). unfold Block.SeekToFirst.
  destruct (SeekToRestartPoint_any it 0 Hw) as (it' & next & -> & Hs & Hp); [lia|]. cbn [res_bind].
  eapply tame_same_block; [done|]. pose proof (parse_tame it' next Hp) as Ht.
  by destruct (Block.ParseNextKey it') as [[it'' b]|].
Qed.

(** The linear search ends: every entry read moves it forward by a byte at
    least. *)
Lemma seek_linear_any (target : bytes) (fuel : nat) (it : Block.Iter) (next : Z) :
  parsing it next -> Block.restarts_ it - next <= Z.of_nat fuel ->
  tame it (Block.seek_linear fuel it target).
Proof.
  revert it next. induction fuel as [|fuel IH]; intros it next Hp Hf; cbn [Block.seek_linear];
    destruct (ParseNextKey_any it next Hp)
    as [(it' & -> & Hs & Hv)|[(it' & n' & -> & Hs & (Hp' & Hv) & Hn)|[-> Hno]]]; cbn [res_bind negb];
    try done; try (split; [done|]; eapply not_valid_calm; [apply Hp|done|done]); [lia|].
  case_if.
  - split; [done|]. by eapply parsing_calm.
  - eapply tame_same_block; [done|]. apply (IH it' n'); [done|]. destruct Hs as (_ & -> & _). lia.
Qed.

Lemma seek_restart_any (target : bytes) (it : Block.Iter) (fuel : nat) (lo hi : Z) :
  wild it -> 0 <= lo <= hi -> hi < Block.num_restarts_ it -> hi - lo <= Z.of_nat fuel ->
  match Block.seek_restart fuel it target lo hi with
  | Ok (Some m) => 0 <= m < Block.num_restarts_ it
  | Ok None => True
  | Err OutOfBounds => ~ no_overflow it
  | Err _ => False
  end.
Proof.
  intros Hw. pose proof Hw as (Hok & Hs & Hr & Hn & Hb). revert lo hi.
  induction fuel as [|fuel IH]; intros lo hi Hlo Hhi Hf; cbn [Block.seek_restart];
    destruct (Z.ltb_spec lo hi) as [Hlt|Hge]; try lia.
  set (mid := lo + (hi - lo + 1) / 2).
  assert (lo < mid <= hi) as Hmid by (unfold mid; dlia).
  rewrite (wrap_u32_id (hi - lo + 1)) by (unfold in_u32; lia). fold mid.
  rewrite !wrap_u32_id by (unfold in_u32; lia).
  destruct (GetRestartPoint_any it mid Hw) as (r & -> & Hru); [lia|]. cbn [res_bind].
  destruct (DecodeEntry_any (Block.it_data_ it) r (Block.restarts_ it) Hok) as (e & He & Hspec);
    [by apply Hru|lia|done|]. rewrite He. cbn [res_bind].
  destruct e as [[[[s n] m] q]|]; [|done]. case_if; [done|].
  destruct (Hspec s n m q eq_refl) as (_ & Hnu & Hmu & Hq & Hfit).
  unfold Block.read. destruct (sub (Block.it_data_ it) q n) as [k|] eqn:Hsub; cbn [res_bind].
  - case_if; apply IH; lia.
  - intros Hno. apply Hno in He. rewrite wrap_u32_id in Hfit by (unfold in_u32 in *; lia).
    assert (is_Some (sub (Block.it_data_ it) q n)) as [? ?]; [|congruence].
    apply sub_Some_iff. unfold in_u32 in *. lia.
Qed.

Lemma Seek_any (it : Block.Iter) (target : bytes) : wild it -> tame it (Block.Seek it target).
Proof.
  intros Hw. pose proof Hw as (_ & Hs & Hr & Hn & Hb). unfold Block.Seek.
  rewrite wrap_u32_id by (unfold in_u32; lia).
  pose proof (seek_restart_any target it (Z.to_nat (Block.num_restarts_ it)) 0
    (Block.num_restarts_ it - 1) Hw ltac:(lia) ltac:(lia) ltac:(lia)) as Hsr.
  destruct (Block.seek_restart _ _ _ _ _) as [[m|]|[]]; cbn [res_bind]; try done.
  - destruct (SeekToRestartPoint_any it m Hw Hsr) as (it' & next & -> & Hsb & Hp). cbn [res_bind].
    eapply tame_same_block; [done|]. apply (seek_linear_any target _ it' next Hp).
    destruct Hp as (Hw' & _ & ? & _). destruct Hw' as (_ & _ & ? & _). lia.
  - split; [done|]. eapply not_valid_calm; [done|done|]. apply Z.ltb_irrefl.
Qed.

(** ** Sequences of operations *)

Inductive block_step (it : Block.Iter) : Block.Iter -> Prop :=
| step_first it' : Block.SeekToFirst it = Ok it' -> block_step it it'
| step_seek target it' : Block.Seek it target = Ok it' -> block_step it it'
| step_next it' : Block.Valid it = true -> Block.Next it = Ok it' -> block_step it it'.

Lemma block_step_calm (it it' : Block.Iter) :
  calm it -> block_step it it' -> same_block it it' /\ calm it'.
Proof.
  intros Hc Hst. destruct Hst as [it' E|target it' E|it' Hv E].
  - pose proof (SeekToFirst_any it (proj1 Hc)) as Ht. by rewrite E in Ht.
  - pose proof (Seek_any it target (proj1 Hc)) as Ht. by rewrite E in Ht.
  - pose proof (Next_any it Hc Hv) as Ht. by rewrite E in Ht.
Qed.

Lemma block_steps_calm (it it' : Block.Iter) :
  rtc block_step it it' -> calm it -> same_block it it' /\ calm it'.
Proof.
  induction 1 as [it|it it1 it' Hst _ IH]; intros Hc; [done|].
  destruct (block_step_calm _ _ Hc Hst) as [Hs1 Hc1]. destruct (IH Hc1) as [Hs2 Hc2].
  split; [by etransitivity|done].
Qed.

(** [NewIterator] on any bytes. *)
Lemma open_any (data : bytes) :
  bytes_ok data -> size data < 2 ^ 32 ->
  exists b I, Block.new data = Ok b /\ Block.NewIterator b = Ok I /\
    forall it, I = Block.IterBlock it -> calm it.
Proof.
  intros Hok Hs. unfold Block.new. destruct (Z.ltb_spec (size data) 4) as [Hlt|Hge].
  { do 2 eexists. by split_and!. }
  unfold Block.num_restarts.
  destruct (read_in_bounds data (size data - 4) 4) as (w & Hr & Hw & Hwok); [lia|lia|lia|].
  rewrite Hr. cbn [res_bind].
  assert (in_u32 (Coding.DecodeFixed32 w)) as Hn.
  { apply Coding.DecodeFixed32_range; [by apply Hwok|unfold size in Hw; lia]. }
  set (n := Coding.DecodeFixed32 w) in *. unfold in_u32 in Hn.
  destruct (Z.ltb_spec ((size data - 4) / 4) n) as [Hgt|Hle].
  { do 2 eexists. by split_and!. }
  pose proof (Z.mul_div_le (size data - 4) 4 ltac:(lia)) as Hfit.
  rewrite (wrap_u32_id (1 + n)), wrap_u64_id, wrap_u32_id by (unfold in_u32, in_u64; lia).
  exists (Block.mk data (size data) (size data - (1 + n) * 4)).
  unfold Block.NewIterator, Block.NumRestarts, Block.num_restarts. cbn [Block.size_ Block.data_].
  rewrite (proj2 (Z.ltb_ge _ _)) by lia. rewrite Hr. cbn [res_bind]. fold n.
  destruct (Z.eqb_spec n 0); (eexists; split_and!; [done|done|]); [done|].
  intros it [= <-]. split; [|unfold Block.Valid; cbn; by rewrite Z.ltb_irrefl].
  split_and!; cbn; (done || lia).
Qed.

(** C24: iterators over arbitrary bytes (of less than 4 GiB) terminate and stay
    in bounds unless an entry's lengths overflow.  Opening any bytes as a block
    succeeds; after any sequence of [Seek], [SeekToFirst] and [Next] on a valid
    iterator, the next such operation returns, and the key and the value it
    reads lie in the block, provided that no entry claims [2 ^ 32] bytes or
    more for its key and value together.  Without that proviso it still
    terminates, but it may read outside of the block. *)
Theorem block_ops_safe (data : bytes) (target : bytes) :
  bytes_ok data -> size data < 2 ^ 32 ->
  exists b I, Block.new data = Ok b /\ Block.NewIterator b = Ok I /\
    forall it it', I = Block.IterBlock it -> rtc block_step it it' ->
      tame it' (Block.SeekToFirst it') /\ tame it' (Block.Seek it' target) /\
      (Block.Valid it' = true ->
         tame it' (Block.Next it') /\ (no_overflow it' -> exists v, Block.value it' = Ok v)).
Proof.
  intros Hok Hs. destruct (open_any data Hok Hs) as (b & I & Hb & HI & Hcalm).
  exists b, I. split_and!; [done|done|]. intros it it' -> Hsteps.
  destruct (block_steps_calm it it' Hsteps) as [_ Hc]; [by apply Hcalm|].
  split_and!; [by apply SeekToFirst_any, Hc|by apply Seek_any, Hc|].
  intros Hv. split; [by apply Next_any|]. intros Hno. by apply Hc.
Qed.

End BlockSafety.

Lemma block_ops_safe_witness :
  bytes_ok [9; 9; 9; 0; 0; 0; 0; 1; 0; 0; 0] /\
  exists b I, Block.new (bo := true) [9; 9; 9; 0; 0; 0; 0; 1; 0; 0; 0] = Ok b /\
    Block.NewIterator (bo := true) b = Ok I /\
    forall it it', I = Block.IterBlock it -> rtc (block_step (bo := true)) it it' ->
      tame it' (Block.SeekToFirst (bo := true) it') /\
      tame it' (Block.Seek (bo := true) it' [1]) /\
      (Block.Valid it' = true ->
         tame it' (Block.Next (bo := true) it') /\
         (no_overflow it' -> exists v, Block.value it' = Ok v)).
Proof.
  assert (bytes_ok [9; 9; 9; 0; 0; 0; 0; 1; 0; 0; 0]) as H by (vm_compute; repeat constructor; discriminate).
  split; [exact H|]. apply (block_ops_safe (bo := true) _ [1] H). vm_compute. reflexivity.
Defined.

(** The check of [DecodeEntry] wraps: an entry that claims a key of
    [2 ^ 32 - 1] bytes and a value of one byte is accepted in a block of 20
    bytes, and parsing it reads outside of the block. *)
Definition overflowing_block : bytes :=
  [0; 255; 255; 255; 255; 15; 1; 7; 7; 7; 7; 7; 0; 0; 0; 0; 1; 0; 0; 0].

Lemma overflowing_block_faults :
  let it := Block.newIter overflowing_block 12 1 in
  Block.new (bo := true) overflowing_block = Ok (Block.mk overflowing_block 20 12) /\
  Block.NewIterator (bo := true) (Block.mk overflowing_block 20 12) = Ok (Block.IterBlock it) /\
  Block.DecodeEntry overflowing_block 0 12 = Ok (Some (0, 2 ^ 32 - 1, 1, 7)) /\
  Block.SeekToFirst (bo := true) it = Err OutOfBounds.
Proof. split_and!; vm_compute; reflexivity. Qed.
