(* ===== verification/Format.v ===== *)
(** The format of table files.

    [tsl/lib/io/format.h] and [format.cc]: block handles, the footer, and
    [ReadBlock], which reads a block with its trailer (type and masked
    checksum) and uncompresses it.  The file, and the Snappy library behind
    [tsl/platform/snappy.h], are interfaces: [RandomAccessFile] with the
    documented contract of [Read], [Snappy] with the contract that uncompressing
    what was compressed returns it. *)
From S2P Require Import Prelude Bytes Coding Crc32c Block.

(** [RandomAccessFile::Read(offset, n)]: the status, the bytes read, and whether
    they are in the scratch buffer of the caller. *)
Class RandomAccessFile (F : Type) : Type := {
  file_Read : F -> Z -> Z -> Status * bytes * bool
}.

(** A file whose bytes are [contents f] and that can be read without I/O errors. *)
Class ReadableFile (F : Type) `{RandomAccessFile F} (contents : F -> bytes) : Prop := {
  file_Read_spec f off n b : sub (contents f) off n = Some b ->
    exists scratch, file_Read f off n = (OkStatus, b, scratch)
}.

Class Snappy : Type := {
  Snappy_Compress : bytes -> option bytes;
  Snappy_GetUncompressedLength : bytes -> option Z;
  Snappy_Uncompress : bytes -> option bytes
}.

Class SnappyLaws `{Snappy} : Prop := {
  snappy_round_trip b c : bytes_ok b -> Snappy_Compress b = Some c ->
    bytes_ok c /\ Snappy_GetUncompressedLength c = Some (size b) /\ Snappy_Uncompress c = Some b
}.

(** The platform without Snappy: every routine returns false. *)
Definition no_snappy : Snappy := {|
  Snappy_Compress := fun _ => None;
  Snappy_GetUncompressedLength := fun _ => None;
  Snappy_Uncompress := fun _ => None
|}.

Lemma no_snappy_laws : @SnappyLaws no_snappy.
Proof. split. done. Qed.

(** A file in memory. *)
Definition memory_file : RandomAccessFile bytes := {|
  file_Read := fun f off n =>
    match sub f off n with
    | Some b => (OkStatus, b, true)
    | None => (FileError 11, [], true)
    end
|}.

Lemma memory_file_readable : @ReadableFile bytes memory_file id.
Proof. split. intros f off n b Hs. exists true. cbn. unfold id in Hs. by rewrite Hs. Qed.

Module BlockHandle.

Record t : Type := mk { offset_ : Z; size_ : Z }.

(** [~static_cast<uint64>(0)] until set. *)
Definition new : t := mk (2 ^ 64 - 1) (2 ^ 64 - 1).

Definition kMaxEncodedLength : Z := 10 + 10.

Definition EncodeTo (h : t) (dst : bytes) : bytes :=
  Coding.PutVarint64 (Coding.PutVarint64 dst (offset_ h)) (size_ h).

(** [DecodeFrom] advances its input; what was decoded before a failure stays. *)
Definition DecodeFrom (h : t) (input : bytes) : Status * t * bytes :=
  match Coding.GetVarint64 input with
  | None => (DataLoss BadBlockHandle, h, input)
  | Some (offset, input) =>
      match Coding.GetVarint64 input with
      | None => (DataLoss BadBlockHandle, mk offset (size_ h), input)
      | Some (size, input) => (OkStatus, mk offset size, input)
      end
  end.

Definition in_range (h : t) : Prop := in_u64 (offset_ h) /\ in_u64 (size_ h).

Lemma EncodeTo_app (h : t) (dst : bytes) : EncodeTo h dst = dst ++ EncodeTo h [].
Proof. unfold EncodeTo, Coding.PutVarint64. by rewrite <- app_assoc. Qed.

Lemma handle_ok (h : t) : in_range h -> bytes_ok (EncodeTo h []).
Proof.
  intros [Ho Hs]. unfold EncodeTo, Coding.PutVarint64. apply bytes_ok_app.
  split; by apply Coding.EncodeVarint64_ok.
Qed.

Lemma handle_size (h : t) : in_range h -> 2 <= size (EncodeTo h []) <= kMaxEncodedLength.
Proof.
  intros [Ho Hs]. unfold EncodeTo, Coding.PutVarint64, kMaxEncodedLength. rewrite size_app. cbn [app].
  pose proof (Coding.EncodeVarint64_size _ Ho). pose proof (Coding.EncodeVarint64_size _ Hs). lia.
Qed.

Lemma handle_decodes (h h0 : t) (rest : bytes) :
  in_range h -> DecodeFrom h0 (EncodeTo h [] ++ rest) = (OkStatus, h, rest).
Proof.
  intros [Ho Hs]. unfold DecodeFrom, EncodeTo, Coding.PutVarint64. rewrite <- !app_assoc. cbn [app].
  rewrite Coding.GetVarint64_Encode by done. rewrite Coding.GetVarint64_Encode by done.
  by destruct h.
Qed.

End BlockHandle.

Definition kTableMagicNumber : Z := 0xdb4775248b80fb57.
Definition kBlockTrailerSize : Z := 5.

Module Footer.
Section Footer.
Context {bo : ByteOrder}.
Local Open Scope res_scope.

Record t : Type := mk { metaindex_handle_ : BlockHandle.t; index_handle_ : BlockHandle.t }.

Definition new : t := mk BlockHandle.new BlockHandle.new.

Definition kEncodedLength : Z := 2 * BlockHandle.kMaxEncodedLength + 8.

(** [std::string::resize(n)], which pads with NUL. *)
Definition resize (s : bytes) (n : Z) : bytes :=
  take (Z.to_nat n) s ++ replicate (Z.to_nat n - length s) 0.

Definition EncodeTo (f : t) (dst : bytes) : bytes :=
  let dst := BlockHandle.EncodeTo (metaindex_handle_ f) dst in
  let dst := BlockHandle.EncodeTo (index_handle_ f) dst in
  let dst := resize dst (2 * BlockHandle.kMaxEncodedLength) in
  let dst := Coding.PutFixed32 dst (wrap_u32 (Z.land kTableMagicNumber 0xffffffff)) in
  Coding.PutFixed32 dst (wrap_u32 (Z.shiftr kTableMagicNumber 32)).

Definition DecodeFrom (f : t) (input : bytes) : res fault (Status * t * bytes) :=
  let magic_ptr := kEncodedLength - 8 in
  let! lo := Block.read input magic_ptr 4 in
  let! hi := Block.read input (magic_ptr + 4) 4 in
  let magic_lo := Coding.DecodeFixed32 lo in
  let magic_hi := Coding.DecodeFixed32 hi in
  let magic := Z.lor (wrap_u64 (Z.shiftl magic_hi 32)) magic_lo in
  if negb (magic =? kTableMagicNumber) then Ok (DataLoss NotAnSstable, f, input)
  else
    let '(result, metaindex, input1) := BlockHandle.DecodeFrom (metaindex_handle_ f) input in
    if ok result then
      let '(result, index, input2) := BlockHandle.DecodeFrom (index_handle_ f) input1 in
      if ok result then
        Ok (result, mk metaindex index, drop (Z.to_nat (magic_ptr + 8)) input)
      else Ok (result, mk metaindex index, input2)
    else Ok (result, mk metaindex (index_handle_ f), input1).

Lemma EncodeTo_bytes (f : t) :
  BlockHandle.in_range (metaindex_handle_ f) -> BlockHandle.in_range (index_handle_ f) ->
  exists pad,
    EncodeTo f [] =
    (BlockHandle.EncodeTo (metaindex_handle_ f) [] ++
       BlockHandle.EncodeTo (index_handle_ f) [] ++ pad) ++
    le_bytes 4 0x8b80fb57 ++ le_bytes 4 0xdb477524 /\
    bytes_ok pad /\
    size (BlockHandle.EncodeTo (metaindex_handle_ f) [] ++
          BlockHandle.EncodeTo (index_handle_ f) [] ++ pad) = 40.
Proof.
  intros Hm Hi. pose proof (BlockHandle.handle_size _ Hm) as Hsm.
  pose proof (BlockHandle.handle_size _ Hi) as Hsi. unfold BlockHandle.kMaxEncodedLength in *.
  unfold EncodeTo. rewrite (BlockHandle.EncodeTo_app (index_handle_ f)).
  set (a := BlockHandle.EncodeTo (metaindex_handle_ f) []) in *.
  set (b := BlockHandle.EncodeTo (index_handle_ f) []) in *.
  unfold resize, Coding.PutFixed32. rewrite !Coding.EncodeFixed32_le, <- !app_assoc.
  assert (length (a ++ b) <= 40)%nat as Hlen by (rewrite length_app; unfold size in *; lia).
  rewrite take_ge by (unfold BlockHandle.kMaxEncodedLength; exact Hlen).
  replace (wrap_u32 (Z.land kTableMagicNumber 0xffffffff)) with 0x8b80fb57 by (vm_compute; reflexivity).
  replace (wrap_u32 (Z.shiftr kTableMagicNumber 32)) with 0xdb477524 by (vm_compute; reflexivity).
  exists (replicate (Z.to_nat (2 * (10 + 10)) - length (a ++ b)) 0).
  split; [by rewrite <- !app_assoc|]. split; [apply Forall_replicate; unfold in_u8; lia|].
  rewrite app_assoc, size_app. unfold size. rewrite length_replicate.
  change (Z.to_nat (2 * (10 + 10))) with 40%nat. lia.
Qed.

Lemma EncodeTo_size (f : t) :
  BlockHandle.in_range (metaindex_handle_ f) -> BlockHandle.in_range (index_handle_ f) ->
  size (EncodeTo f []) = kEncodedLength.
Proof.
  intros Hm Hi. destruct (EncodeTo_bytes f Hm Hi) as (pad & -> & _ & Hs).
  rewrite size_app, Hs, size_app, !le_bytes_size. done.
Qed.

Lemma EncodeTo_ok (f : t) :
  BlockHandle.in_range (metaindex_handle_ f) -> BlockHandle.in_range (index_handle_ f) ->
  bytes_ok (EncodeTo f []).
Proof.
  intros Hm Hi. destruct (EncodeTo_bytes f Hm Hi) as (pad & -> & Hp & _).
  rewrite !bytes_ok_app. auto using BlockHandle.handle_ok, le_bytes_ok.
Qed.

Lemma DecodeFrom_EncodeTo (f f0 : t) (rest : bytes) :
  BlockHandle.in_range (metaindex_handle_ f) -> BlockHandle.in_range (index_handle_ f) ->
  bytes_ok rest ->
  DecodeFrom f0 (EncodeTo f [] ++ rest) = Ok (OkStatus, f, rest).
Proof.
  intros Hm Hi Hr. destruct (EncodeTo_bytes f Hm Hi) as (pad & -> & Hp & Hs).
  unfold DecodeFrom, kEncodedLength, BlockHandle.kMaxEncodedLength, Block.read.
  change (2 * (10 + 10) + 8 - 8) with 40. rewrite <- (app_assoc _ _ rest), <- (app_assoc (le_bytes 4 _) _ rest).
  set (h := BlockHandle.EncodeTo (metaindex_handle_ f) [] ++ _) in *.
  assert (forall a b, size a = 4 -> size b = 4 ->
    drop (Z.to_nat (40 + 8)) ((h ++ a) ++ b ++ rest) = rest) as Hdrop.
  { intros a b Ha Hb. rewrite (app_assoc _ b). apply drop_app_length'.
    unfold size in *. rewrite !length_app. lia. }
  rewrite (sub_app h (le_bytes 4 0x8b80fb57)) by (done || by rewrite le_bytes_size). cbn [res_bind].
  rewrite (app_assoc h), (sub_app (h ++ _) (le_bytes 4 0xdb477524)) by
    (rewrite ?size_app, ?le_bytes_size, ?Hs; done). cbn [res_bind].
  rewrite !Coding.DecodeFixed32_word by (unfold in_u32; lia).
  change (negb (_ =? kTableMagicNumber)) with false. cbv iota.
  rewrite Hdrop by (by rewrite le_bytes_size). unfold h. rewrite <- !app_assoc. rewrite BlockHandle.handle_decodes by done.
  cbn [ok]. rewrite BlockHandle.handle_decodes by done. cbn [ok]. by destruct f.
Qed.

Lemma resize_size (s : bytes) (n : Z) : 0 <= n -> size (resize s n) = n.
Proof.
  intros Hn. unfold resize, size. rewrite length_app, length_take, length_replicate. lia.
Qed.

(** Footers and block handles read back.  A footer encodes to exactly
    [kEncodedLength] bytes, whatever [dst] held before (its bytes are cut off:
    the padding resizes the whole string), and decoding them returns both
    handles and skips to what follows; a block handle encodes to at most
    [kMaxEncodedLength] bytes and decodes to itself. *)
Theorem footer_round_trip (f f0 : t) (h h0 : BlockHandle.t) (dst rest : bytes) :
  BlockHandle.in_range (metaindex_handle_ f) -> BlockHandle.in_range (index_handle_ f) ->
  BlockHandle.in_range h -> bytes_ok rest ->
  DecodeFrom f0 (EncodeTo f [] ++ rest) = Ok (OkStatus, f, rest) /\
  size (EncodeTo f dst) = kEncodedLength /\
  BlockHandle.DecodeFrom h0 (BlockHandle.EncodeTo h [] ++ rest) = (OkStatus, h, rest) /\
  size (BlockHandle.EncodeTo h []) <= BlockHandle.kMaxEncodedLength.
Proof.
  intros Hm Hi Hh Hr.
  split_and!; [by apply DecodeFrom_EncodeTo| |by apply BlockHandle.handle_decodes
    |by apply BlockHandle.handle_size].
  unfold EncodeTo, Coding.PutFixed32. rewrite !Coding.EncodeFixed32_le, !size_app, resize_size by done.
  by rewrite !le_bytes_size.
Qed.

End Footer.

Lemma footer_round_trip_witness :
  BlockHandle.in_range (BlockHandle.mk 300 7) /\
  DecodeFrom (bo := true) new
    (EncodeTo (bo := true) (mk (BlockHandle.mk 300 7) (BlockHandle.mk 5 (2 ^ 40))) [] ++ [1]) =
  Ok (OkStatus, mk (BlockHandle.mk 300 7) (BlockHandle.mk 5 (2 ^ 40)), [1]).
Proof.
  assert (BlockHandle.in_range (BlockHandle.mk 300 7)) as H1 by (split; unfold in_u64; simpl; lia).
  assert (BlockHandle.in_range (BlockHandle.mk 5 (2 ^ 40))) as H2 by (split; unfold in_u64; simpl; lia).
  assert (bytes_ok [1]) as H3 by (vm_compute; repeat constructor; discriminate).
  split; [exact H1|].
  exact (proj1 (footer_round_trip (bo := true) (mk _ _) new _ BlockHandle.new [] [1] H1 H2 H1 H3)).
Defined.

End Footer.

(** ** Blocks in a file *)

Record BlockContents : Type := mkContents {
  contents_data : bytes;
  cacheable : bool;
  heap_allocated : bool
}.

Definition CompressionType_code (c : CompressionType) : Z :=
  match c with kNoCompression => 0 | kSnappyCompression => 1 end.

Section ReadBlock.
Context {bo : ByteOrder} {pl : CrcPlatform} {sn : Snappy}.
Context {F : Type} {raf : RandomAccessFile F}.
Local Open Scope res_scope.

Definition no_contents : BlockContents := mkContents [] false false.

(** [ReadBlock].  The allocation of the buffer is assumed to succeed. *)
Definition ReadBlock (file : F) (handle : BlockHandle.t) : res fault (Status * BlockContents) :=
  let n := BlockHandle.size_ handle in
  if u64_max - n <? kBlockTrailerSize then Ok (DataLoss HandleSizeTooBig, no_contents)
  else
    let '(s, contents, scratch) :=
      file_Read file (BlockHandle.offset_ handle) (n + kBlockTrailerSize) in
    if negb (ok s) then Ok (s, no_contents)
    else if negb (size contents =? n + kBlockTrailerSize) then
      Ok (DataLoss TruncatedBlockRead, no_contents)
    else
      let! word := Block.read contents (n + 1) 4 in
      let crc := Crc32c.Unmask (Coding.DecodeFixed32 word) in
      let! checked := Block.read contents 0 (n + 1) in
      let actual := Crc32c.Value checked in
      if negb (actual =? crc) then Ok (DataLoss BlockChecksumMismatch, no_contents)
      else
        let! data := Block.read contents 0 n in
        let! type := Block.read contents n 1 in
        match nth 0 type 0 with
        | 0 =>
            if negb scratch then Ok (OkStatus, mkContents data false false)
            else Ok (OkStatus, mkContents data true true)
        | 1 =>
            match Snappy_GetUncompressedLength data with
            | None => Ok (DataLoss CorruptedCompressedBlock, no_contents)
            | Some ulength =>
                match Snappy_Uncompress data with
                | None => Ok (DataLoss CorruptedCompressedBlock, no_contents)
                | Some ubuf =>
                    (* [ubuf] has [ulength] bytes *)
                    if negb (size ubuf =? ulength) then Err OutOfBounds
                    else Ok (OkStatus, mkContents ubuf true true)
                end
            end
        | _ => Ok (DataLoss BadBlockType, no_contents)
        end.

(** What the builder stores for a block: the bytes, possibly compressed, the
    type and the masked checksum of both. *)
Definition trailer (payload : bytes) (type : CompressionType) : bytes :=
  let code := CompressionType_code type in
  code :: le_bytes 4 (Crc32c.Mask (Crc32c.Value (payload ++ [code]))).

(** [payload], stored with [type], stands for the block [raw]. *)
Definition compressed_as (raw payload : bytes) (type : CompressionType) : Prop :=
  match type with
  | kNoCompression => payload = raw
  | kSnappyCompression => Snappy_Compress raw = Some payload
  end.

(** The file has the block [raw] at the handle. *)
Definition stored (file : bytes) (h : BlockHandle.t) (raw : bytes) : Prop :=
  exists pre payload type post,
    file = pre ++ (payload ++ trailer payload type) ++ post /\
    BlockHandle.offset_ h = size pre /\ BlockHandle.size_ h = size payload /\
    bytes_ok raw /\ compressed_as raw payload type /\ size pre < 2 ^ 63 /\ size payload < 2 ^ 32.

Lemma trailer_size (payload : bytes) (type : CompressionType) :
  size (trailer payload type) = kBlockTrailerSize.
Proof. unfold trailer. rewrite size_cons, le_bytes_size. done. Qed.

Lemma code_u8 (type : CompressionType) : in_u8 (CompressionType_code type).
Proof. unfold in_u8. destruct type; simpl; lia. Qed.

Lemma trailer_ok (payload : bytes) (type : CompressionType) : bytes_ok (trailer payload type).
Proof. constructor; [apply code_u8|apply le_bytes_ok]. Qed.

Lemma stored_app (file : bytes) (h : BlockHandle.t) (raw more : bytes) :
  stored file h raw -> stored (file ++ more) h raw.
Proof.
  intros (pre & payload & type & post & -> & Ho & Hs & Hok & Hc & Hpre & Hsz).
  exists pre, payload, type, (post ++ more). split_and!; try done. by rewrite <- !app_assoc.
Qed.

Lemma stored_range (file : bytes) (h : BlockHandle.t) (raw : bytes) :
  stored file h raw -> BlockHandle.in_range h.
Proof.
  intros (pre & payload & type & post & -> & Ho & Hs & _ & _ & Hpre & Hsz).
  pose proof (size_nonneg payload). pose proof (size_nonneg pre).
  unfold BlockHandle.in_range, in_u64. rewrite Ho, Hs. lia.
Qed.

Context `{!Crc32c.CrcLaws, !SnappyLaws} {contents : F -> bytes} `{!ReadableFile F contents}.

Lemma compressed_ok (raw payload : bytes) (type : CompressionType) :
  bytes_ok raw -> compressed_as raw payload type -> bytes_ok payload.
Proof.
  intros Hok. destruct type; cbn; [by intros ->|]. intros Hc.
  by apply snappy_round_trip in Hc as (? & _).
Qed.

(** [ReadBlock] of a stored block returns it. *)
Lemma ReadBlock_stored (file : F) (h : BlockHandle.t) (raw : bytes) :
  stored (contents file) h raw ->
  exists c, ReadBlock file h = Ok (OkStatus, c) /\ contents_data c = raw.
Proof.
  intros (pre & payload & type & post & Hfile & Ho & Hs & Hok & Hc & Hp63 & Hp32).
  pose proof (compressed_ok _ _ _ Hok Hc) as Hpok. pose proof (trailer_size payload type) as Htr.
  unfold ReadBlock, kBlockTrailerSize, u64_max in *. rewrite Hs.
  pose proof (size_nonneg payload) as Hpl.
  rewrite (proj2 (Z.ltb_ge _ _)) by lia.
  destruct (file_Read_spec file (BlockHandle.offset_ h) (size payload + 5)
    (payload ++ trailer payload type)) as (scratch & ->).
  { rewrite Hfile. apply sub_app; [done|]. rewrite size_app, Htr. lia. }
  cbn [ok negb]. rewrite size_app, Htr, Z.eqb_refl. cbn [negb].
  set (code := CompressionType_code type). unfold trailer. fold code.
  set (crc := Crc32c.Value (payload ++ [code])).
  assert (in_u32 crc) as Hcrc.
  { apply Crc32c.Value_u32. apply bytes_ok_app. split; [done|]. constructor; [apply code_u8|constructor]. }
  unfold Block.read. change (code :: ?x) with ([code] ++ x). rewrite app_assoc.
  rewrite <- (app_nil_r (le_bytes 4 (Crc32c.Mask crc))).
  rewrite (sub_app (payload ++ [code]) (le_bytes 4 (Crc32c.Mask crc))) by
    (rewrite ?size_app, ?le_bytes_size; done). cbn [res_bind].
  rewrite Coding.DecodeFixed32_word by apply Crc32c.Mask_range. rewrite Crc32c.Unmask_Mask by done.
  rewrite (sub_prefix (payload ++ [code])) by (rewrite ?size_app; done). cbn [res_bind].
  fold crc. rewrite Z.eqb_refl. cbn [negb].
  rewrite <- (app_assoc payload). rewrite (sub_prefix payload) by done. cbn [res_bind].
  rewrite (sub_app payload [code]) by done. cbn [res_bind nth].
  destruct type; cbn in Hc; subst code; cbn [CompressionType_code].
  - subst raw. destruct scratch; by eexists.
  - destruct (snappy_round_trip _ _ Hok Hc) as (_ & -> & ->). rewrite Z.eqb_refl. by eexists.
Qed.

(** A damaged block is refused.  When the bytes of a stored block and its
    type were altered inside of a window of 32 bits, [ReadBlock] returns the
    checksum error and no data. *)
Theorem damaged_block_refused (file : F) (h : BlockHandle.t) (pre good bad post : bytes) (d s : Z) :
  contents file = pre ++ (bad ++ le_bytes 4 (Crc32c.Mask (Crc32c.Value good))) ++ post ->
  size (contents file) < 2 ^ 63 ->
  BlockHandle.offset_ h = size pre -> BlockHandle.size_ h + 1 = size bad ->
  bytes_ok good -> bytes_ok bad -> length good = length bad -> 0 < size bad ->
  0 < d < 2 ^ 32 -> 0 <= s -> Z.lxor (le_value good) (le_value bad) = Z.shiftl d s ->
  ReadBlock file h = Ok (DataLoss BlockChecksumMismatch, no_contents).
Proof.
  intros Hfile Hsz Ho Hn Hgok Hbok Hlen Hbs Hd Hs Hx.
  unfold ReadBlock, kBlockTrailerSize, u64_max.
  assert (BlockHandle.size_ h = size bad - 1) as Hsz' by lia. rewrite Hsz'.
  pose proof (size_nonneg pre). pose proof (size_nonneg post).
  assert (size bad < 2 ^ 63) as Hb63 by (rewrite Hfile, !size_app, le_bytes_size in Hsz; lia).
  rewrite (proj2 (Z.ltb_ge _ _)) by lia.
  destruct (file_Read_spec file (BlockHandle.offset_ h) (size bad - 1 + 5)
    (bad ++ le_bytes 4 (Crc32c.Mask (Crc32c.Value good)))) as (scratch & ->).
  { rewrite Hfile. apply sub_app; [done|]. rewrite size_app, le_bytes_size. lia. }
  cbn [ok negb]. rewrite size_app, le_bytes_size.
  rewrite (proj2 (Z.eqb_eq _ _)) by lia. cbn [negb]. unfold Block.read.
  rewrite <- (app_nil_r (le_bytes 4 _)).
  rewrite (sub_app bad (le_bytes 4 _)) by (rewrite ?le_bytes_size; lia). cbn [res_bind].
  rewrite Coding.DecodeFixed32_word by apply Crc32c.Mask_range.
  rewrite Crc32c.Unmask_Mask by by apply Crc32c.Value_u32.
  rewrite (sub_prefix bad) by lia. cbn [res_bind].
  rewrite (proj2 (Z.eqb_neq _ _)); [done|]. intros Heq.
  by destruct (Crc32c.crc_bytes_burst_value good bad d s Hgok Hbok Hlen Hd Hs Hx).
Qed.

End ReadBlock.

Lemma damaged_block_refused_witness :
  let file := [9; 9] ++ ([66; 0] ++ le_bytes 4 (Crc32c.Mask
    (@Crc32c.Value true (Crc32c.software 0) [65; 0]))) ++ [] in
  @ReadBlock true (Crc32c.software 0) no_snappy bytes memory_file file (BlockHandle.mk 2 1) =
  Ok (DataLoss BlockChecksumMismatch, no_contents).
Proof.
  cbv zeta.
  apply (@damaged_block_refused true (Crc32c.software 0) no_snappy bytes memory_file
    (Crc32c.software_laws 0 ltac:(lia)) id memory_file_readable _ (BlockHandle.mk 2 1)
    [9; 9] [65; 0] [66; 0] [] 3 0);
    try reflexivity; try (vm_compute; reflexivity); try (vm_compute; repeat constructor; discriminate);
    vm_compute; (split; reflexivity) || discriminate.
Defined.
