(* ===== verification/TableBuilder.v ===== *)
(** Writing a table.

    [tsl/lib/io/table_builder.cc]: entries are added to a data block, full data
    blocks are written to the file, and for each of them the index block gets
    an entry with a key between the last key of the block and the first key of
    the next one, and the block's handle.  [Rep] is the state of the builder;
    the file is an interface, [WritableFile], whose [Append] may fail.  An
    operation returns the new state, or the fault of a [CHECK] in the block
    builder.  The shortened keys are proved to separate the blocks. *)
From S2P Require Import Prelude Bytes Coding Crc32c Block Format.

Class WritableFile (W : Type) : Type := {
  file_Append : W -> bytes -> Status * W
}.

(** A successful [Append] appends. *)
Class AppendingFile (W : Type) `{WritableFile W} (written : W -> bytes) : Prop := {
  file_Append_spec w b w' : file_Append w b = (OkStatus, w') -> written w' = written w ++ b
}.

Definition memory_writer : WritableFile bytes := {| file_Append := fun w b => (OkStatus, w ++ b) |}.

Lemma memory_writer_appends : @AppendingFile bytes memory_writer id.
Proof. split. by intros w b w' [= <-]. Qed.

Module TableBuilder.

(** ** Keys of the index *)

(** A string at least [start] and below [limit], short if possible. *)
Definition FindShortestSeparator (start limit : bytes) : bytes :=
  let min_length := Nat.min (length start) (length limit) in
  let diff_index := BlockBuilder.shared_prefix start limit in
  if Nat.leb min_length diff_index then start
  else
    let diff_byte := nth diff_index start 0 in
    if (diff_byte <? 255) && (diff_byte + 1 <? nth diff_index limit 0) then
      take diff_index start ++ [wrap_u8 (diff_byte + 1)]
    else start.

(** The first byte that can be incremented. *)
Fixpoint FindShortSuccessor (key : bytes) : bytes :=
  match key with
  | [] => []
  | byte :: rest =>
      if negb (byte =? 255) then [wrap_u8 (byte + 1)]
      else byte :: FindShortSuccessor rest
  end.

Section TableBuilder.
Context {bo : ByteOrder} {pl : CrcPlatform} {sn : Snappy}.
Context {W : Type} {wf : WritableFile W}.
Local Open Scope res_scope.

Record Rep : Type := mkRep {
  options : Options;
  index_block_options : Options;
  file : W;
  offset : Z;
  status : Status;
  data_block : BlockBuilder.t;
  index_block : BlockBuilder.t;
  last_key : bytes;
  num_entries : Z;
  closed : bool;
  pending_index_entry : bool;
  pending_handle : BlockHandle.t;
  compressed_output : bytes
}.

Definition new (opt : Options) (f : W) : Rep :=
  mkRep opt (mkOptions (block_size opt) 1 (compression opt)) f 0 OkStatus
    BlockBuilder.new BlockBuilder.new [] 0 false false BlockHandle.new [].

(** Updates of the fields. *)
Definition set_file (r : Rep) (f : W) (s : Status) (off : Z) : Rep :=
  mkRep (options r) (index_block_options r) f off s (data_block r) (index_block r) (last_key r)
    (num_entries r) (closed r) (pending_index_entry r) (pending_handle r) (compressed_output r).

Definition set_data_block (r : Rep) (b : BlockBuilder.t) : Rep :=
  mkRep (options r) (index_block_options r) (file r) (offset r) (status r) b (index_block r)
    (last_key r) (num_entries r) (closed r) (pending_index_entry r) (pending_handle r)
    (compressed_output r).

Definition set_index_block (r : Rep) (b : BlockBuilder.t) : Rep :=
  mkRep (options r) (index_block_options r) (file r) (offset r) (status r) (data_block r) b
    (last_key r) (num_entries r) (closed r) (pending_index_entry r) (pending_handle r)
    (compressed_output r).

Definition set_pending (r : Rep) (p : bool) (h : BlockHandle.t) : Rep :=
  mkRep (options r) (index_block_options r) (file r) (offset r) (status r) (data_block r)
    (index_block r) (last_key r) (num_entries r) (closed r) p h (compressed_output r).

Definition set_last_key (r : Rep) (k : bytes) (n : Z) : Rep :=
  mkRep (options r) (index_block_options r) (file r) (offset r) (status r) (data_block r)
    (index_block r) k n (closed r) (pending_index_entry r) (pending_handle r) (compressed_output r).

Definition set_closed (r : Rep) : Rep :=
  mkRep (options r) (index_block_options r) (file r) (offset r) (status r) (data_block r)
    (index_block r) (last_key r) (num_entries r) true (pending_index_entry r) (pending_handle r)
    (compressed_output r).

Definition set_compressed_output (r : Rep) (s : bytes) : Rep :=
  mkRep (options r) (index_block_options r) (file r) (offset r) (status r) (data_block r)
    (index_block r) (last_key r) (num_entries r) (closed r) (pending_index_entry r)
    (pending_handle r) s.

(** The handle is set before the first [Append], whose failure it survives. *)
Definition WriteRawBlock (r : Rep) (block_contents : bytes) (type : CompressionType) :
    Rep * BlockHandle.t :=
  let handle := BlockHandle.mk (offset r) (size block_contents) in
  let (s, f) := file_Append (file r) block_contents in
  let r := set_file r f s (offset r) in
  if ok s then
    let crc := Crc32c.Value block_contents in
    let crc := Crc32c.Extend crc [CompressionType_code type] in
    let trailer := CompressionType_code type :: Coding.EncodeFixed32 (Crc32c.Mask crc) in
    let (s, f) := file_Append (file r) trailer in
    if ok s then
      (set_file r f s (wrap_u64 (offset r + (size block_contents + kBlockTrailerSize))), handle)
    else (set_file r f s (offset r), handle)
  else (r, handle).

(** [WriteBlock(block, handle)]: the state, the block after [Reset], the handle. *)
Definition WriteBlock (r : Rep) (block : BlockBuilder.t) :
    res fault (Rep * BlockBuilder.t * BlockHandle.t) :=
  let! (raw, block) := BlockBuilder.Finish block in
  let '(r, block_contents, type) :=
    match compression (options r) with
    | kNoCompression => (r, raw, kNoCompression)
    | kSnappyCompression =>
        match Snappy_Compress raw with
        | Some compressed =>
            if size compressed <? size raw - size raw / 8 then
              (set_compressed_output r compressed, compressed, kSnappyCompression)
            else (set_compressed_output r compressed, raw, kNoCompression)
        | None => (r, raw, kNoCompression)
        end
    end in
  let (r, handle) := WriteRawBlock r block_contents type in
  let r := set_compressed_output r [] in
  Ok (r, BlockBuilder.Reset block, handle).

Definition Flush (r : Rep) : res fault Rep :=
  if negb (ok (status r)) then Ok r
  else if BlockBuilder.empty (data_block r) then Ok r
  else
    let! (r, block, handle) := WriteBlock r (data_block r) in
    let r := set_data_block r block in
    let r := set_pending r (pending_index_entry r) handle in
    if ok (status r) then Ok (set_pending r true handle) else Ok r.

(** The entry of the index block for the pending data block. *)
Definition add_index_entry (r : Rep) (key : bytes) : res fault Rep :=
  let r := set_last_key r key (num_entries r) in
  let handle_encoding := BlockHandle.EncodeTo (pending_handle r) [] in
  let! b := BlockBuilder.Add (block_restart_interval (index_block_options r)) (index_block r)
              (last_key r) handle_encoding in
  Ok (set_pending (set_index_block r b) false (pending_handle r)).

Definition Add (r : Rep) (key value : bytes) : res fault Rep :=
  if negb (ok (status r)) then Ok r
  else
    let! r :=
      if 0 <? num_entries r then
        let kOverlyLargeBlockRatio := 2 in
        let this_entry_bytes := wrap_u64 (size key + size value) in
        if wrap_u64 (kOverlyLargeBlockRatio * block_size (options r)) <=? this_entry_bytes
        then Flush r else Ok r
      else Ok r in
    let! r :=
      if pending_index_entry r then
        add_index_entry r (FindShortestSeparator (last_key r) key)
      else Ok r in
    let r := set_last_key r key (num_entries r + 1) in
    let! b := BlockBuilder.Add (block_restart_interval (options r)) (data_block r) key value in
    let r := set_data_block r b in
    if block_size (options r) <=? BlockBuilder.CurrentSizeEstimate (data_block r)
    then Flush r else Ok r.

Definition Finish (r : Rep) : res fault (Rep * Status) :=
  let! r := Flush r in
  let r := set_closed r in
  let! (r, metaindex_block_handle) :=
    if ok (status r) then
      let! (r, _, h) := WriteBlock r BlockBuilder.new in Ok (r, h)
    else Ok (r, BlockHandle.new) in
  let! (r, index_block_handle) :=
    if ok (status r) then
      let! r :=
        if pending_index_entry r then add_index_entry r (FindShortSuccessor (last_key r))
        else Ok r in
      let! (r, block, h) := WriteBlock r (index_block r) in
      Ok (set_index_block r block, h)
    else Ok (r, BlockHandle.new) in
  let r :=
    if ok (status r) then
      let footer := Footer.mk metaindex_block_handle index_block_handle in
      let footer_encoding := Footer.EncodeTo footer [] in
      let (s, f) := file_Append (file r) footer_encoding in
      if ok s then set_file r f s (wrap_u64 (offset r + size footer_encoding))
      else set_file r f s (offset r)
    else r in
  Ok (r, status r).

Definition Abandon (r : Rep) : Rep := set_closed r.

Definition NumEntries (r : Rep) : Z := wrap_u64 (num_entries r).

Definition FileSize (r : Rep) : Z := offset r.

End TableBuilder.
End TableBuilder.

(** ** The keys of the index *)

Import TableBuilder.

(** The common prefix stays. *)
Lemma FindShortestSeparator_cons (x : Z) (a b : bytes) :
  FindShortestSeparator (x :: a) (x :: b) = x :: FindShortestSeparator a b.
Proof.
  unfold FindShortestSeparator. cbn [length BlockBuilder.shared_prefix]. rewrite Z.eqb_refl.
  cbn [Nat.min Nat.leb nth]. do 2 (case_if; [done|]); done.
Qed.

Lemma FindShortestSeparator_diff (x y : Z) (a b : bytes) :
  x <> y ->
  FindShortestSeparator (x :: a) (y :: b) =
  if (x <? 255) && (x + 1 <? y) then [wrap_u8 (x + 1)] else x :: a.
Proof.
  intros Hxy. unfold FindShortestSeparator. cbn [length BlockBuilder.shared_prefix].
  rewrite (proj2 (Z.eqb_neq _ _)) by done. done.
Qed.

Lemma FindShortestSeparator_spec (start limit : bytes) :
  bytes_ok start -> bytes_ok limit -> lt_bytes start limit = true ->
  let sep := FindShortestSeparator start limit in
  le_str start sep = true /\ lt_bytes sep limit = true /\ size sep <= size start /\ bytes_ok sep.
Proof.
  intros Hs. revert limit. induction Hs as [|x a Hx Ha IH]; intros limit Hl Hlt; cbv zeta.
  - destruct limit; [done|]. split_and!; (done || constructor).
  - destruct limit as [|y b]; [done|]. apply Forall_cons in Hl as [Hy Hb].
    destruct (Z.eq_dec x y) as [<-|Hne].
    + rewrite FindShortestSeparator_cons. unfold lt_bytes, le_str in *. cbn in Hlt |- *.
      rewrite Z.compare_refl in Hlt |- *. destruct (IH b Hb Hlt) as (? & ? & ? & ?).
      rewrite !size_cons. split_and!; [done|done|lia|by constructor].
    + rewrite FindShortestSeparator_diff by done.
      destruct (_ && _) eqn:E; zbool; [|split_and!; [apply le_str_refl|done|lia|by constructor]].
      unfold in_u8 in *. rewrite wrap_u8_id by (unfold in_u8; lia).
      unfold lt_bytes, le_str, size. cbn [compare length].
      rewrite (proj2 (Z.compare_lt_iff x (x + 1))), (proj2 (Z.compare_lt_iff (x + 1) y)) by lia.
      split_and!; [done|done|lia|]. constructor; [unfold in_u8; lia|constructor].
Qed.

Lemma FindShortSuccessor_spec (key : bytes) :
  bytes_ok key ->
  let sep := FindShortSuccessor key in
  le_str key sep = true /\ size sep <= size key /\ bytes_ok sep.
Proof.
  cbv zeta. induction 1 as [|x a Hx Ha IH]; [split_and!; (done || constructor)|].
  cbn [FindShortSuccessor]. destruct (Z.eqb_spec x 255) as [->|Hne]; cbn [negb].
  - destruct IH as (H1 & H2 & H3). unfold le_str in *. cbn [compare]. rewrite Z.compare_refl, !size_cons.
    split_and!; [done|lia|by constructor].
  - unfold in_u8 in *. rewrite wrap_u8_id by (unfold in_u8; lia). unfold le_str, size. cbn [compare length].
    rewrite (proj2 (Z.compare_lt_iff x (x + 1))) by lia.
    split_and!; [done|lia|]. constructor; [unfold in_u8; lia|constructor].
Qed.

(** The keys of the index separate the blocks: [FindShortestSeparator]
    returns a key at or after the last key of a block and before the first key
    of the next, [FindShortSuccessor] one at or after the last key of the table;
    neither is longer than the key it replaces. *)
Theorem index_keys_separate (start limit : bytes) :
  bytes_ok start -> bytes_ok limit -> lt_bytes start limit = true ->
  (le_str start (FindShortestSeparator start limit) = true /\
   lt_bytes (FindShortestSeparator start limit) limit = true /\
   size (FindShortestSeparator start limit) <= size start) /\
  le_str start (FindShortSuccessor start) = true /\
  size (FindShortSuccessor start) <= size start.
Proof.
  intros Hs Hl Hlt. destruct (FindShortestSeparator_spec start limit Hs Hl Hlt) as (? & ? & ? & _).
  destruct (FindShortSuccessor_spec start Hs) as (? & ? & _). done.
Qed.

Lemma index_keys_separate_witness :
  lt_bytes [116; 104; 101; 113] [116; 104; 101; 119] = true /\
  lt_bytes (FindShortestSeparator [116; 104; 101; 113] [116; 104; 101; 119]) [116; 104; 101; 119] = true.
Proof.
  split; [reflexivity|].
  refine (proj1 (proj2 (proj1 (index_keys_separate [116; 104; 101; 113] [116; 104; 101; 119] _ _ eq_refl))));
    vm_compute; repeat constructor; discriminate.
Defined.
