(* ===== verification/TableSpec.v ===== *)
(** What a table file holds, and what the builder keeps true.

    [table_file es file]: the file has data blocks whose entries, concatenated,
    are [es], an index block that maps for each of them a key that separates it
    from the next to its handle, and the footer.  [inv] is the invariant of the
    builder while its status is OK ([n] bounds what the file has besides data
    blocks), over the blocks already in the index, the
    block written but not indexed, and the entries of the data block. *)
From S2P Require Import Prelude Bytes Coding Crc32c Block Iterator BlockSpec BlockIter BlockTheorems Format TableBuilder.
Import TableBuilder.

Section TableSpec.
Context {bo : ByteOrder} {pl : CrcPlatform} {sn : Snappy}.
Context {W : Type} {wf : WritableFile W} {written : W -> bytes}.

(** A data block in the index: its key there, its handle, its entries. *)
Record iblock : Type := mkBlock { sep : bytes; handle : BlockHandle.t; entries : list kv }.

Definition index_entry (b : iblock) : kv := (sep b, BlockHandle.EncodeTo (handle b) []).

Definition block_offset (b : iblock) : Z := BlockHandle.offset_ (handle b).

Definition block_entries (bs : list iblock) : list kv := concat (map entries bs).

(** The file has a block of [es] at the handle. *)
Definition data_at (f : bytes) (h : BlockHandle.t) (es : list kv) : Prop :=
  exists raw, block_of es raw /\ stored f h raw.

Definition iblock_ok (f : bytes) (b : iblock) : Prop :=
  entries b <> [] /\ data_at f (handle b) (entries b) /\ bytes_ok (sep b) /\
  size (sep b) <= size (BlockSpec.last_key (entries b)).

(** Each key of the index is at or after the keys of its block and before those
    of the later ones. *)
Fixpoint separated (bs : list iblock) (rest : list kv) : Prop :=
  match bs with
  | [] => True
  | b :: bs' =>
      Forall (fun e : kv => le_str e.1 (sep b) = true) (entries b) /\
      Forall (fun e : kv => lt_bytes (sep b) e.1 = true) (block_entries bs' ++ rest) /\
      separated bs' rest
  end.

(** The index of a table, with blocks in the order of the file, whose data blocks hold the entries
    [es]. *)
Definition table_index (es : list kv) (bs : list iblock) (f : bytes) (h : BlockHandle.t) : Prop :=
  es = block_entries bs /\ sorted_entries es /\ Forall (iblock_ok f) bs /\ separated bs [] /\
  StronglySorted Z.lt (map block_offset bs) /\ data_at f h (map index_entry bs) /\
  Z.of_nat (length bs) <= 2 ^ 30.

Definition table_file (es : list kv) (f : bytes) : Prop :=
  exists bs meta index, table_index es bs f index /\ BlockHandle.in_range meta /\
    Forall (fun b => block_offset b < BlockHandle.offset_ meta) bs /\
    exists body, f = body ++ Footer.EncodeTo (Footer.mk meta index) [].

(** No more bytes than this in a block of the table, the index included. *)
Fixpoint table_bound (es : list kv) : Z :=
  match es with [] => 0 | e :: r => 39 + size e.1 + size e.2 + table_bound r end.

(** ** Offsets *)

Lemma sorted_lt_snoc (l : list Z) (a : Z) :
  StronglySorted Z.lt (l ++ [a]) <-> StronglySorted Z.lt l /\ Forall (fun x => x < a) l.
Proof.
  induction l as [|x l IH]; cbn; [split; [by repeat constructor|by repeat constructor]|].
  split.
  - intros [Hs Hf]%StronglySorted_inv. apply IH in Hs as [Hs Hl].
    apply Forall_app in Hf as [Hf [Hx _]%Forall_cons]. by repeat constructor.
  - intros [[Hs Hf]%StronglySorted_inv [Hx Hl]%Forall_cons]. constructor; [by apply IH|].
    apply Forall_app. by repeat constructor.
Qed.

Lemma sorted_lt_lookup (l : list Z) (i j : nat) (a b : Z) :
  StronglySorted Z.lt l -> l !! i = Some a -> l !! j = Some b -> (i < j)%nat -> a < b.
Proof.
  intros Hs. revert i j. induction Hs as [|x l Hs IH Hf]; intros [|i] [|j] Ha Hb Hij; try done; try lia.
  - injection Ha as <-. rewrite Forall_forall in Hf. by eapply Hf, list_elem_of_lookup_2.
  - eapply (IH i j); [done|done|lia].
Qed.

(** ** Bounds *)

Lemma table_bound_app (a b : list kv) : table_bound (a ++ b) = table_bound a + table_bound b.
Proof. induction a as [|e a IH]; cbn; [done|]. rewrite IH. lia. Qed.

Lemma table_bound_nonneg (a : list kv) : 0 <= table_bound a.
Proof.
  induction a as [|e a IH]; cbn; [done|]. pose proof (size_nonneg e.1). pose proof (size_nonneg e.2). lia.
Qed.

Lemma entries_table_bound (a : list kv) : entries_bound a <= table_bound a.
Proof. induction a as [|e a IH]; [done|]. cbn [entries_bound table_bound]. unfold entry_bound. lia. Qed.

Lemma last_key_bound (es : list kv) : es <> [] -> 39 + size (BlockSpec.last_key es) <= table_bound es.
Proof.
  intros Hne. destruct (exists_last Hne) as (es' & [k v] & ->).
  unfold BlockSpec.last_key. rewrite last_snoc, table_bound_app. cbn [from_option table_bound fst snd].
  pose proof (table_bound_nonneg es'). pose proof (size_nonneg v). lia.
Qed.

Lemma index_entries_bound (f : bytes) (bs : list iblock) :
  Forall (iblock_ok f) bs -> entries_bound (map index_entry bs) <= table_bound (block_entries bs).
Proof.
  induction 1 as [|b bs (Hne & (raw & _ & Hst) & _ & Hs) Hbs IH]; [done|].
  change (block_entries (b :: bs)) with (entries b ++ block_entries bs). rewrite table_bound_app.
  cbn [map entries_bound]. unfold entry_bound, index_entry at 1 2. cbn [fst snd].
  pose proof (last_key_bound _ Hne). pose proof (stored_range _ _ _ Hst) as Hr.
  pose proof (BlockHandle.handle_size _ Hr). unfold BlockHandle.kMaxEncodedLength in *. lia.
Qed.

Lemma iblocks_bound (f : bytes) (bs : list iblock) :
  Forall (iblock_ok f) bs -> 39 * Z.of_nat (length bs) <= table_bound (block_entries bs).
Proof.
  induction 1 as [|b bs (Hne & _) Hbs IH]; [done|].
  change (block_entries (b :: bs)) with (entries b ++ block_entries bs). rewrite table_bound_app. cbn [length].
  pose proof (last_key_bound _ Hne). pose proof (size_nonneg (BlockSpec.last_key (entries b))). lia.
Qed.

Lemma index_entry_ok (f : bytes) (b : iblock) :
  iblock_ok f b -> size (sep b) < 2 ^ 32 -> kv_ok (index_entry b).
Proof.
  intros (_ & (raw & _ & Hst) & Hsok & _) Hs. pose proof (stored_range _ _ _ Hst) as Hr.
  pose proof (BlockHandle.handle_size _ Hr). unfold BlockHandle.kMaxEncodedLength in *.
  split_and!; [done|by apply BlockHandle.handle_ok|done|].
  unfold index_entry. cbn [snd]. lia.
Qed.

Lemma block_of_ok (es : list kv) (data : bytes) : block_of es data -> bytes_ok data.
Proof. intros (l & idxs & <- & Hl & _ & Hok & -> & _). by apply data_ok. Qed.

Lemma block_of_size (es : list kv) (data : bytes) : block_of es data -> size data < 2 ^ 32.
Proof. by intros (l & idxs & _ & _ & _ & _ & _ & ?). Qed.

Lemma data_at_app (f more : bytes) (h : BlockHandle.t) (es : list kv) :
  data_at f h es -> data_at (f ++ more) h es.
Proof. intros (raw & Hb & Hs). exists raw. split; [done|by apply stored_app]. Qed.

Lemma iblock_ok_app (f more : bytes) (b : iblock) : iblock_ok f b -> iblock_ok (f ++ more) b.
Proof. intros (? & ? & ? & ?). split_and!; auto using data_at_app. Qed.

(** ** Separation *)

Lemma block_entries_app (a b : list iblock) :
  block_entries (a ++ b) = block_entries a ++ block_entries b.
Proof. unfold block_entries. by rewrite map_app, concat_app. Qed.

Lemma separated_snoc (bs : list iblock) (b : iblock) (rest : list kv) :
  separated bs (entries b ++ rest) ->
  Forall (fun e : kv => le_str e.1 (sep b) = true) (entries b) ->
  Forall (fun e : kv => lt_bytes (sep b) e.1 = true) rest ->
  separated (bs ++ [b]) rest.
Proof.
  induction bs as [|b0 bs IH]; intros Hs Hb Hr; cbn [separated app] in *; [done|].
  destruct Hs as (H1 & H2 & H3). split_and!; [done| |by apply IH].
  rewrite block_entries_app. unfold block_entries at 2. cbn. by rewrite app_nil_r, <- app_assoc.
Qed.

(** A new last entry, after all the others and all the separators. *)
Lemma separated_more (bs : list iblock) (rest : list kv) (e : kv) :
  separated bs rest -> Forall (fun b => lt_bytes (sep b) e.1 = true) bs ->
  separated bs (rest ++ [e]).
Proof.
  intros Hs Hf. induction Hf as [|b bs Hb Hbs IH]; [done|]. destruct Hs as (H1 & H2 & H3).
  split_and!; [done| |by apply IH]. rewrite app_assoc. apply Forall_app. by split; [|constructor].
Qed.

(** The keys of the index are sorted. *)
Lemma index_sorted (f : bytes) (bs : list iblock) (rest : list kv) :
  Forall (iblock_ok f) bs -> separated bs rest -> sorted_entries (map index_entry bs).
Proof.
  intros Hok. revert rest. induction Hok as [|b bs Hb Hbs IH]; intros rest Hs; [constructor|].
  destruct Hs as (_ & H2 & H3). unfold sorted_entries, sorted_keys in *. cbn. constructor; [by eapply IH|].
  apply Forall_forall. intros k Hk. apply list_elem_of_fmap in Hk as (e & -> & He).
  apply list_elem_of_fmap in He as (b' & -> & Hb'). cbn.
  apply list_elem_of_split in Hb' as (b1 & b2 & ->). clear IH Hb.
  assert (exists e, e ∈ entries b') as [e He].
  { apply Forall_app in Hbs as [_ [(Hne & _) _]%Forall_cons].
    destruct (entries b') as [|e ?]; [done|]. exists e. by constructor. }
  assert (le_str e.1 (sep b') = true) as Hle.
  { clear H2 Hbs. induction b1 as [|b0 b1 IH]; destruct H3 as (H1 & _ & H3); [|by apply IH].
    rewrite Forall_forall in H1. by apply H1. }
  eapply lt_le_str_trans; [|done]. rewrite Forall_forall in H2. apply H2.
  rewrite block_entries_app. change (block_entries (b' :: b2)) with (entries b' ++ block_entries b2).
  set_solver.
Qed.

(** ** The invariant of the builder *)

Definition pend_entries (p : option (BlockHandle.t * list kv)) : list kv :=
  match p with None => [] | Some (_, es) => es end.

Definition table_entries (bs : list iblock) (p : option (BlockHandle.t * list kv)) (cur : list kv) :
    list kv := block_entries bs ++ pend_entries p ++ cur.

Definition pending_ok (r : Rep) (p : option (BlockHandle.t * list kv)) (cur : list kv) : Prop :=
  match p with
  | None => pending_index_entry r = false
  | Some (h, es) =>
      pending_index_entry r = true /\ pending_handle r = h /\ es <> [] /\ cur = [] /\
      data_at (written (file r)) h es
  end.

Definition pend_offset (p : option (BlockHandle.t * list kv)) : list Z :=
  match p with None => [] | Some (h, _) => [BlockHandle.offset_ h] end.

Record inv (n : Z) (bs : list iblock) (p : option (BlockHandle.t * list kv)) (cur : list kv) (r : Rep) : Prop := {
  inv_status : status r = OkStatus;
  inv_interval : 1 <= block_restart_interval (options r) /\
                 block_restart_interval (index_block_options r) = 1;
  inv_offset : offset r = size (written (file r));
  inv_file_size : size (written (file r)) <= 2 * table_bound (block_entries bs ++ pend_entries p) + n;
  inv_slack : 0 <= n <= 1024;
  inv_offsets : StronglySorted Z.lt
    (map block_offset bs ++ pend_offset p ++ [size (written (file r))]);
  inv_index : builds (map index_entry bs) (index_block r);
  inv_data : builds cur (data_block r);
  inv_pending : pending_ok r p cur;
  inv_blocks : Forall (iblock_ok (written (file r))) bs;
  inv_separated : separated bs (pend_entries p ++ cur);
  inv_last_key : last_key r = BlockSpec.last_key (table_entries bs p cur);
  inv_num : num_entries r = Z.of_nat (length (table_entries bs p cur));
  inv_sorted : sorted_entries (table_entries bs p cur);
  inv_kv : Forall kv_ok (table_entries bs p cur);
  inv_bound : table_bound (table_entries bs p cur) + 8 < 2 ^ 32
}.

Lemma inv_new (opt : Options) (f : W) :
  1 <= block_restart_interval opt -> written f = [] -> inv 0 [] None [] (new opt f).
Proof.
  intros Hi Hf. split; try done; try (cbn; lia); cbn -[size]; rewrite ?Hf; try done.
  - by repeat constructor.
  - apply builds_new.
  - apply builds_new.
  - constructor.
Qed.

End TableSpec.
