(* ===== verification/TableBuild.v ===== *)
(** The table builder keeps its invariant and writes a table.

    Every operation returns, whatever the file does; as long as no [Append]
    failed the invariant holds, and after a failure nothing is written any
    more. *)
From S2P Require Import Prelude Bytes Coding Crc32c Block Iterator BlockSpec BlockTheorems Format TableBuilder TableSpec.
Import TableBuilder.

Section TableBuild.
Context {bo : ByteOrder} {pl : CrcPlatform} {sn : Snappy}.
Context {W : Type} {wf : WritableFile W} {written : W -> bytes}.
Context `{!Crc32c.CrcLaws, !SnappyLaws, !AppendingFile W written}.
Local Abbreviation inv := (inv (written := written)).
Local Abbreviation pending_ok := (pending_ok (written := written)).

(** ** Writing a block *)

(** The state after a write of the file. *)
Definition wrote (r : Rep (W := W)) (f : W) (s : Status) (off : Z) : Rep :=
  set_compressed_output (set_file r f s off) [].

Lemma WriteRawBlock_spec (r : Rep) (payload raw : bytes) (type : CompressionType) :
  offset r = size (written (file r)) -> size (written (file r)) < 2 ^ 40 ->
  bytes_ok raw -> compressed_as raw payload type -> size payload < 2 ^ 32 ->
  exists f s off h, WriteRawBlock r payload type = (set_file r f s off, h) /\
    (s = OkStatus ->
       off = size (written f) /\ stored (written f) h raw /\
       BlockHandle.offset_ h = size (written (file r)) /\
       exists more, written f = written (file r) ++ more /\ 0 < size more <= size payload + 5).
Proof.
  intros Hoff Hlt Hok Hc Hsz. pose proof (compressed_ok _ _ _ Hok Hc) as Hpok.
  unfold WriteRawBlock. destruct (file_Append (file r) payload) as [s1 f1] eqn:E1.
  destruct (ok s1) eqn:Hs1; [|do 4 eexists; split; [done|]; by intros ->].
  assert (s1 = OkStatus) as -> by (by destruct s1). apply file_Append_spec in E1.
  unfold Crc32c.Value at 1. rewrite Crc32c.Extend_app by
    (done || (unfold in_u32; lia) || (constructor; [apply code_u8|constructor])).
  rewrite Coding.EncodeFixed32_le. cbn [file set_file].
  change (Crc32c.Extend 0 (payload ++ [CompressionType_code type])) with
    (Crc32c.Value (payload ++ [CompressionType_code type])).
  change (_ :: le_bytes 4 _) with (trailer payload type).
  destruct (file_Append f1 (trailer payload type)) as [s2 f2] eqn:E2.
  destruct (ok s2) eqn:Hs2; [|do 4 eexists; split; [done|]; by intros ->].
  assert (s2 = OkStatus) as -> by (by destruct s2). apply file_Append_spec in E2.
  pose proof (size_nonneg payload). pose proof (size_nonneg (written (file r))).
  do 4 eexists. split; [done|]. intros _. rewrite E2, E1. split_and!.
  - cbn [offset set_file]. rewrite Hoff, !size_app, trailer_size. unfold kBlockTrailerSize.
    rewrite wrap_u64_id by (unfold in_u64; lia). lia.
  - exists (written (file r)), payload, type, []. rewrite app_nil_r, <- app_assoc.
    split_and!; try done. lia.
  - done.
  - eexists. rewrite <- app_assoc. split; [done|]. rewrite size_app, trailer_size.
    unfold kBlockTrailerSize. lia.
Qed.

(** What a successful write of a block of [es] leaves. *)
Definition block_written (r : Rep (W := W)) (f : W) (off : Z) (h : BlockHandle.t) (es : list kv) : Prop :=
  off = size (written f) /\ data_at (written f) h es /\
  BlockHandle.offset_ h = size (written (file r)) /\
  exists more, written f = written (file r) ++ more /\ 0 < size more <= entries_bound es + 13.

Lemma WriteBlock_spec (r : Rep) (b : BlockBuilder.t) (es : list kv) :
  offset r = size (written (file r)) -> size (written (file r)) < 2 ^ 40 ->
  builds es b -> entries_bound es + 8 < 2 ^ 32 ->
  exists f s off b' h, WriteBlock r b = Ok (wrote r f s off, b', h) /\ builds [] b' /\
    (s = OkStatus -> block_written r f off h es).
Proof.
  intros Hoff Hlt Hb Hbound. pose proof (proj1 (builds_bound _ _ Hb)) as Hest.
  destruct (Finish_builds es b Hb) as (raw & b1 & Hfin & Hblock & Hraw); [lia|].
  pose proof (block_of_ok _ _ Hblock) as Hok.
  assert (forall payload type out, compressed_as raw payload type -> size payload <= size raw ->
    exists f s off b' h,
      (let (r, handle) := WriteRawBlock (set_compressed_output r out) payload type in
       @Ok fault _ (set_compressed_output r [], BlockBuilder.Reset b1, handle)) =
      Ok (wrote r f s off, b', h) /\ builds [] b' /\
      (s = OkStatus -> block_written r f off h es)) as Hgo.
  { intros payload type out Hc Hps.
    destruct (WriteRawBlock_spec (set_compressed_output r out) payload raw type Hoff Hlt Hok Hc)
      as (f & s & off & h & -> & Hs); [lia|].
    do 5 eexists. split; [done|]. split; [apply builds_Reset|]. intros E.
    destruct (Hs E) as (? & ? & ? & more & ? & ?).
    split_and!; [done|by exists raw|done|]. exists more. split; [done|lia]. }
  unfold WriteBlock. rewrite Hfin. cbn [res_bind].
  destruct (compression (options r)).
  - destruct r. apply (Hgo raw kNoCompression compressed_output0); [done|lia].
  - destruct (Snappy_Compress raw) as [c|] eqn:Ec.
    + pose proof (size_nonneg raw). destruct (Z.ltb_spec (size c) (size raw - size raw / 8)).
      * apply Hgo; [done|]. assert (0 <= size raw / 8) by (apply Z.div_pos; lia). lia.
      * apply (Hgo raw kNoCompression); [done|lia].
    + destruct r. apply (Hgo raw kNoCompression compressed_output0); [done|lia].
Qed.

(** ** Flushing the data block *)

(** What a failed write leaves: nothing pending, an empty data block. *)
Definition failed (r : Rep (W := W)) : Prop :=
  ok (status r) = false /\ pending_index_entry r = false /\ builds [] (data_block r) /\
  1 <= block_restart_interval (options r).

Lemma ok_status (s : Status) : ok s = true -> s = OkStatus.
Proof. by destruct s. Qed.

Lemma entries_bound_sub (bs : list iblock) (p : option (BlockHandle.t * list kv)) (cur : list kv) :
  entries_bound cur <= table_bound (table_entries bs p cur).
Proof.
  unfold table_entries. rewrite !table_bound_app. pose proof (entries_table_bound cur).
  pose proof (table_bound_nonneg (block_entries bs)). pose proof (table_bound_nonneg (pend_entries p)). lia.
Qed.

Lemma inv_small {n : Z} {bs : list iblock} {p : option (BlockHandle.t * list kv)} {cur : list kv}
    {r : Rep (W := W)} : inv n bs p cur r -> size (written (file r)) < 2 ^ 40.
Proof.
  intros [? ? ? Hfsz ? ? ? ? ? ? ? ? ? ? ? Hb]. unfold table_entries in Hb.
  rewrite app_assoc, table_bound_app in Hb. pose proof (table_bound_nonneg cur). lia.
Qed.

Lemma sorted_offsets_ge (l : list Z) (a b : Z) :
  StronglySorted Z.lt (l ++ [a]) -> a <= b -> StronglySorted Z.lt (l ++ [b]).
Proof.
  rewrite !sorted_lt_snoc. intros [Hs Hf] Hab. split; [done|]. eapply Forall_impl; [done|]. cbn. lia.
Qed.

Lemma sorted_offsets (l : list Z) (a b : Z) :
  StronglySorted Z.lt (l ++ [a]) -> a < b -> StronglySorted Z.lt (l ++ [a; b]).
Proof.
  intros Hs Hab. change [a; b] with ([a] ++ [b]). rewrite app_assoc. apply sorted_lt_snoc. split; [done|].
  apply sorted_lt_snoc in Hs as [_ Hf]. apply Forall_app. split; [|by repeat constructor].
  eapply Forall_impl; [done|]. cbn. lia.
Qed.

Lemma Flush_inv {n : Z} (bs : list iblock) (p : option (BlockHandle.t * list kv)) (cur : list kv) (r : Rep) :
  inv n bs p cur r ->
  exists r', Flush r = Ok r' /\
    ((exists p', inv n bs p' [] r' /\ pend_entries p ++ cur = pend_entries p') \/ failed r').
Proof.
  intros Hinv. pose proof Hinv as [Hst Hint Hoff Hfsz Hslack Hoffs Hidx Hdat Hpend Hbs Hsep Hlast Hnum Hsort Hkv Hbound].
  unfold Flush. rewrite Hst. cbn [ok negb]. rewrite (builds_empty _ _ Hdat).
  case_bool_decide as Hcur.
  { subst cur. eexists. split; [done|]. left. exists p. split; [done|]. by rewrite app_nil_r. }
  assert (p = None) as ->.
  { destruct p as [[h es]|]; [|done]. by destruct Hpend as (_ & _ & _ & ? & _). }
  pose proof (entries_bound_sub bs None cur) as Hb.
  pose proof (inv_small Hinv) as Hsmall.
  destruct (WriteBlock_spec r (data_block r) cur Hoff Hsmall Hdat)
    as (f & s & off & b' & h & -> & Hb' & Hs); [lia|].
  cbn [res_bind]. destruct (ok s) eqn:Eok; cbn [status wrote set_pending set_data_block set_compressed_output set_file]; rewrite Eok.
  - apply ok_status in Eok as ->. destruct (Hs eq_refl) as (Hoff' & Hat & Hho & more & Hmore & Hms).
    eexists. split; [done|]. left. exists (Some (h, cur)). split; [|done].
    assert (table_entries bs (Some (h, cur)) [] = table_entries bs None cur) as Heq.
    { unfold table_entries. cbn. by rewrite app_nil_r. }
    split; rewrite ?Heq; try done; cbn -[size].
    + cbn [pend_entries] in Hfsz. rewrite app_nil_r in Hfsz. pose proof (last_key_bound cur Hcur).
      pose proof (entries_table_bound cur). pose proof (size_nonneg (BlockSpec.last_key cur)).
      rewrite Hmore, size_app, table_bound_app. lia.
    + cbn -[size] in Hoffs. rewrite Hho. apply sorted_offsets; [done|]. rewrite Hmore, size_app. lia.
    + rewrite Hmore. eapply Forall_impl; [done|]. intros b. apply iblock_ok_app.
    + by rewrite app_nil_r.
  - eexists. split; [done|]. right. split_and!; [done|exact Hpend|done|apply Hint].
Qed.

(** ** The index *)

Lemma table_entries_pend (bs : list iblock) (h : BlockHandle.t) (es : list kv) (k : bytes) :
  table_entries (bs ++ [mkBlock k h es]) None [] = table_entries bs (Some (h, es)) [].
Proof.
  unfold table_entries. rewrite block_entries_app. unfold block_entries at 2. cbn.
  by rewrite !app_nil_r.
Qed.

(** An entry of the index for the pending block. *)
Lemma add_index_entry_inv {n : Z} (bs : list iblock) (h : BlockHandle.t) (es : list kv) (r : Rep) (k : bytes) :
  inv n bs (Some (h, es)) [] r -> bytes_ok k -> size k <= size (BlockSpec.last_key es) ->
  Forall (fun e : kv => le_str e.1 k = true) es ->
  exists r', add_index_entry r k = Ok r' /\ r' = set_last_key r' k (num_entries r') /\
    inv n (bs ++ [mkBlock k h es]) None []
      (set_last_key r' (BlockSpec.last_key (table_entries bs (Some (h, es)) [])) (num_entries r')).
Proof.
  intros Hinv Hk Hks Hle.
  pose proof Hinv as [Hst Hint Hoff Hfsz Hslack Hoffs Hidx Hdat Hpend Hbs Hsep Hlast Hnum Hsort Hkv Hbound].
  destruct Hpend as (Hp1 & Hp2 & Hne & _ & Hat).
  set (b := mkBlock k h es).
  assert (iblock_ok (written (file r)) b) as Hbok by (by split_and!).
  assert (Forall (iblock_ok (written (file r))) (bs ++ [b])) as Hbs' by (apply Forall_app; auto).
  pose proof (index_entries_bound _ _ Hbs') as Hib.
  assert (table_entries (bs ++ [b]) None [] = table_entries bs (Some (h, es)) []) as Heq
    by apply table_entries_pend.
  assert (block_entries (bs ++ [b]) = table_entries bs (Some (h, es)) []) as Heq'.
  { rewrite <- Heq. unfold table_entries. cbn. by rewrite app_nil_r. }
  rewrite Heq', map_app, entries_bound_app in Hib. cbn [map entries_bound] in Hib.
  unfold entry_bound in Hib. pose proof (size_nonneg (index_entry b).2).
  pose proof (entries_bound_nonneg (map index_entry bs)).
  change (index_entry b).1 with k in *. pose proof (size_nonneg k).
  unfold add_index_entry. cbn [index_block last_key set_last_key index_block_options pending_handle].
  rewrite (proj2 Hint).
  rewrite Hp2. change (BlockHandle.EncodeTo h []) with (index_entry b).2.
  destruct (Add_builds 1 (map index_entry bs) (index_block r) k (index_entry b).2) as (ib & -> & Hib').
  - lia.
  - done.
  - apply (index_entry_ok (written (file r)) b); [done|cbn; lia].
  - pose proof (proj2 (builds_bound _ _ Hidx)). lia.
  - cbn [res_bind]. eexists. split; [done|]. split; [done|].
    split; rewrite ?Heq; try done.
    + cbn [pend_entries]. rewrite app_nil_r, Heq'. unfold table_entries. cbn [pend_entries] in *.
      by rewrite app_nil_r.
    + rewrite map_app, <- app_assoc. exact Hoffs.
    + rewrite map_app. exact Hib'.
    + cbn. apply separated_snoc; [|done|constructor]. exact Hsep.
Qed.

(** ** Adding an entry *)

Lemma last_key_app (a b : list kv) : b <> [] -> BlockSpec.last_key (a ++ b) = BlockSpec.last_key b.
Proof.
  intros Hb. destruct (exists_last Hb) as (b' & e & ->). unfold BlockSpec.last_key.
  by rewrite app_assoc, !last_snoc.
Qed.

Lemma last_key_in (es : list kv) : es <> [] -> exists v, (BlockSpec.last_key es, v) ∈ es.
Proof.
  intros Hne. destruct (exists_last Hne) as (es' & [k v] & ->). exists v.
  unfold BlockSpec.last_key. rewrite last_snoc. cbn. apply elem_of_app. right. by constructor.
Qed.

Lemma sorted_last_key (es : list kv) :
  sorted_entries es -> Forall (fun e : kv => le_str e.1 (BlockSpec.last_key es) = true) es.
Proof.
  intros Hs. destruct (decide (es = [])) as [->|Hne]; [constructor|].
  destruct (exists_last Hne) as (es' & [k v] & ->). unfold BlockSpec.last_key. rewrite last_snoc. cbn.
  apply Forall_app. split; [|constructor; [apply le_str_refl|constructor]].
  apply sorted_entries_app in Hs as (_ & _ & Hab). apply Forall_forall. intros e He.
  apply lt_bytes_le, (Hab e (k, v)); [done|by constructor].
Qed.

(** After the last block of the index there is an entry. *)
Definition shaped (bs : list iblock) (p : option (BlockHandle.t * list kv)) (cur : list kv) : Prop :=
  pend_entries p ++ cur = [] -> bs = [].

Lemma separated_below (bs : list iblock) (rest : list kv) (e : kv) (k : bytes) :
  separated bs rest -> e ∈ rest -> lt_bytes e.1 k = true ->
  Forall (fun b => lt_bytes (sep b) k = true) bs.
Proof.
  intros Hs He Hlt. induction bs as [|b bs IH]; [constructor|]. destruct Hs as (_ & H2 & H3).
  constructor; [|by apply IH]. eapply lt_bytes_trans; [|done].
  rewrite Forall_forall in H2. apply H2. apply elem_of_app. by right.
Qed.

Lemma shaped_below (bs : list iblock) (p : option (BlockHandle.t * list kv)) (cur : list kv)
    (k v : bytes) :
  shaped bs p cur -> separated bs (pend_entries p ++ cur) ->
  sorted_entries (table_entries bs p cur ++ [(k, v)]) ->
  Forall (fun b => lt_bytes (sep b) k = true) bs.
Proof.
  intros Hsh Hsep Hs. destruct (pend_entries p ++ cur) as [|e rest] eqn:E.
  - rewrite Hsh by done. constructor.
  - apply (separated_below bs (e :: rest) e); [done|by constructor|].
    apply sorted_entries_app in Hs as (_ & _ & Hab). apply (Hab e (k, v)); [|by constructor].
    unfold table_entries. rewrite E. apply elem_of_app. right. by constructor.
Qed.

(** An entry for the data block, the index being up to date. *)
Lemma data_add_inv {n : Z} (bs : list iblock) (cur : list kv) (r : Rep (W := W)) (lk k v : bytes) :
  inv n bs None cur (set_last_key r lk (num_entries r)) -> kv_ok (k, v) ->
  Forall (fun b => lt_bytes (sep b) k = true) bs ->
  sorted_entries (table_entries bs None cur ++ [(k, v)]) ->
  table_bound (table_entries bs None cur ++ [(k, v)]) + 8 < 2 ^ 32 ->
  exists b, BlockBuilder.Add (block_restart_interval (options r)) (data_block r) k v = Ok b /\
    inv n bs None (cur ++ [(k, v)]) (set_data_block (set_last_key r k (num_entries r + 1)) b).
Proof.
  intros Hinv Hkv Hbelow Hs Hb.
  pose proof Hinv as [Hst Hint Hoff Hfsz Hslack Hoffs Hidx Hdat Hpend Hbs Hsep Hlast Hnum Hsort Hkvs Hbound].
  cbn -[Z.of_nat] in Hst, Hint, Hoff, Hidx, Hdat, Hpend, Hbs, Hsep, Hnum.
  pose proof (entries_bound_sub bs None cur). pose proof (proj2 (builds_bound _ _ Hdat)).
  destruct (Add_builds (block_restart_interval (options r)) cur (data_block r) k v) as (b & -> & Hb');
    [apply Hint|done|done|lia|].
  assert (table_entries bs None (cur ++ [(k, v)]) = table_entries bs None cur ++ [(k, v)]) as Heq.
  { unfold table_entries. by rewrite <- !app_assoc. }
  exists b. split; [done|]. split; rewrite ?Heq; try done; cbn -[Z.of_nat].
  - by apply (separated_more bs cur (k, v)).
  - unfold BlockSpec.last_key. by rewrite last_snoc.
  - rewrite Hnum, length_app. simpl. lia.
  - apply Forall_app. auto.
Qed.

(** Bringing the index up to date before a key that is larger than all. *)
Lemma index_step {n : Z} (bs : list iblock) (p : option (BlockHandle.t * list kv)) (cur : list kv)
    (r : Rep (W := W)) (k v : bytes) :
  inv n bs p cur r -> shaped bs p cur -> kv_ok (k, v) ->
  sorted_entries (table_entries bs p cur ++ [(k, v)]) ->
  exists r' bs' cur' lk,
    (if pending_index_entry r then add_index_entry r (FindShortestSeparator (last_key r) k) else Ok r)
      = Ok r' /\
    inv n bs' None cur' (set_last_key r' lk (num_entries r')) /\
    table_entries bs' None cur' = table_entries bs p cur /\
    Forall (fun b => lt_bytes (sep b) k = true) bs'.
Proof.
  intros Hinv Hsh (Hkok & _) Hs.
  pose proof Hinv as [Hst Hint Hoff Hfsz Hslack Hoffs Hidx Hdat Hpend Hbs Hsep Hlast Hnum Hsort Hkvs Hbound].
  destruct p as [[h es]|]; cbn in Hpend.
  - destruct Hpend as (-> & Hh & Hne & -> & Hat).
    pose proof (last_key_app (block_entries bs) es Hne) as Hlk.
    assert (last_key r = BlockSpec.last_key es) as Hl.
    { rewrite Hlast. unfold table_entries. cbn [pend_entries]. by rewrite app_nil_r. }
    destruct (last_key_in es Hne) as [lv Hin].
    assert ((BlockSpec.last_key es, lv) ∈ table_entries bs (Some (h, es)) []) as Hin'.
    { unfold table_entries. cbn. rewrite app_nil_r. apply elem_of_app. by right. }
    pose proof Hs as (_ & _ & Hab)%sorted_entries_app.
    specialize (Hab _ (k, v) Hin' ltac:(by constructor)). cbn [fst] in Hab.
    assert (bytes_ok (BlockSpec.last_key es)) as Hlok.
    { rewrite Forall_forall in Hkvs. by apply Hkvs in Hin' as (? & _). }
    destruct (FindShortestSeparator_spec _ k Hlok Hkok Hab) as (Hge & Hlt & Hsz & Hsok).
    rewrite Hl. set (sp := FindShortestSeparator (BlockSpec.last_key es) k) in *.
    destruct (add_index_entry_inv bs h es r sp Hinv Hsok Hsz) as (r' & Hadd & _ & Hinv').
    { unfold table_entries in Hsort. cbn in Hsort. rewrite app_nil_r in Hsort.
      apply sorted_entries_app in Hsort as (_ & Hes & _).
      eapply Forall_impl; [by apply sorted_last_key|]. intros e. cbn. eauto with bytes. }
    exists r', (bs ++ [mkBlock sp h es]), []. eexists. split_and!; [done|exact Hinv'|apply table_entries_pend|].
    apply Forall_app. split; [|by constructor].
    apply (shaped_below bs (Some (h, es)) [] k v); done.
  - rewrite Hpend. exists r, bs, cur, (last_key r). split_and!; [done| |done|].
    + by destruct r.
    + by apply (shaped_below bs None cur k v).
Qed.

Lemma Flush_failed (r : Rep (W := W)) : ok (status r) = false -> Flush r = Ok r.
Proof. intros Hf. unfold Flush. by rewrite Hf. Qed.

Lemma shaped_flush (bs : list iblock) (p p' : option (BlockHandle.t * list kv)) (cur : list kv) :
  shaped bs p cur -> pend_entries p ++ cur = pend_entries p' -> shaped bs p' [].
Proof. unfold shaped. intros Hs Heq. by rewrite app_nil_r, <- Heq. Qed.

Lemma table_entries_flush (bs : list iblock) (p p' : option (BlockHandle.t * list kv)) (cur : list kv) :
  pend_entries p ++ cur = pend_entries p' -> table_entries bs p' [] = table_entries bs p cur.
Proof. unfold table_entries. intros Heq. by rewrite app_nil_r, Heq. Qed.

(** [Add] returns; the table has the entry, or the status tells an error. *)
Lemma Add_inv {n : Z} (bs : list iblock) (p : option (BlockHandle.t * list kv)) (cur : list kv)
    (r : Rep (W := W)) (k v : bytes) :
  inv n bs p cur r -> shaped bs p cur -> kv_ok (k, v) ->
  sorted_entries (table_entries bs p cur ++ [(k, v)]) ->
  table_bound (table_entries bs p cur ++ [(k, v)]) + 8 < 2 ^ 32 ->
  exists r', Add r k v = Ok r' /\
    ((exists bs' p' cur', inv n bs' p' cur' r' /\ shaped bs' p' cur' /\
        table_entries bs' p' cur' = table_entries bs p cur ++ [(k, v)]) \/
     ok (status r') = false).
Proof.
  intros Hinv Hsh Hkv Hs Hb. unfold Add. rewrite (inv_status _ _ _ _ _ Hinv). cbn [ok negb].
  match goal with |- context [if 0 <? num_entries r then ?x else ?y] =>
    assert (exists r1, (if 0 <? num_entries r then x else y) = Ok r1 /\
      ((exists p1 cur1, inv n bs p1 cur1 r1 /\ shaped bs p1 cur1 /\
          table_entries bs p1 cur1 = table_entries bs p cur) \/ failed r1)) as (r1 & -> & Hr1)
  end.
  { destruct (Flush_inv bs p cur r Hinv) as (rf & Hf & Hcase).
    case_if; [case_if|].
    - exists rf. split; [done|]. destruct Hcase as [(p' & Hi & He)|?]; [|by right].
      left. exists p', []. split_and!; [done|by eapply shaped_flush|by apply table_entries_flush].
    - exists r. split; [done|]. left. by exists p, cur.
    - exists r. split; [done|]. left. by exists p, cur. }
  cbn [res_bind]. destruct Hr1 as [(p1 & cur1 & Hi1 & Hsh1 & He1)|(Hf1 & Hf2 & Hf3 & Hf4)].
  - rewrite <- He1 in Hs, Hb |- *.
    destruct (index_step bs p1 cur1 r1 k v Hi1 Hsh1 Hkv Hs)
      as (r2 & bs2 & cur2 & lk & -> & Hi2 & He2 & Hbelow). cbn [res_bind].
    rewrite <- He2 in Hs, Hb |- *.
    destruct (data_add_inv bs2 cur2 r2 lk k v Hi2 Hkv Hbelow Hs Hb) as (b & Hadd & Hi3).
    cbn [options data_block set_last_key num_entries]. rewrite Hadd. cbn [res_bind].
    set (r3 := set_data_block (set_last_key r2 k (num_entries r2 + 1)) b) in *.
    assert (table_entries bs2 None (cur2 ++ [(k, v)]) = table_entries bs2 None cur2 ++ [(k, v)]) as He3.
    { unfold table_entries. by rewrite <- !app_assoc. }
    assert (shaped bs2 None (cur2 ++ [(k, v)])) as Hsh3 by (intros ?; by destruct cur2).
    case_if.
    + destruct (Flush_inv _ _ _ _ Hi3) as (rf & -> & [(p' & Hi & He)|Hf]).
      * eexists. split; [done|]. left. exists bs2, p', [].
        split_and!; [done|by eapply shaped_flush|by rewrite (table_entries_flush _ _ _ _ He)].
      * eexists. split; [done|]. right. apply Hf.
    + eexists. split; [done|]. left. by exists bs2, None, (cur2 ++ [(k, v)]).
  - rewrite Hf2. cbn [res_bind options data_block set_last_key].
    destruct (Add_builds (block_restart_interval (options r1)) [] (data_block r1) k v) as (b & -> & _);
      [done|done|done| |].
    { pose proof (proj2 (builds_bound _ _ Hf3)). cbn in *. lia. }
    cbn [res_bind]. case_if; [rewrite Flush_failed by done|]; eexists; (split; [done|]); by right.
Qed.

(** ** Finishing the table *)

Lemma inv_wrote {n : Z} (bs : list iblock) (p : option (BlockHandle.t * list kv)) (cur : list kv)
    (r : Rep (W := W)) (f : W) (off : Z) (more : bytes) :
  inv n bs p cur r -> written f = written (file r) ++ more -> off = size (written f) ->
  0 <= n + size more <= 1024 ->
  inv (n + size more) bs p cur (wrote r f OkStatus off).
Proof.
  intros [Hst Hint Hoff Hfsz Hslack Hoffs Hidx Hdat Hpend Hbs Hsep Hlast Hnum Hsort Hkv Hbound] Hmore Hoff' Hn.
  split; try done; cbn -[size].
  - rewrite Hmore, size_app. lia.
  - rewrite Hmore, size_app, app_assoc. rewrite app_assoc in Hoffs.
    pose proof (size_nonneg more). by apply (sorted_offsets_ge _ (size (written (file r)))); [|lia].
  - destruct p as [[h es]|]; [|done]. destruct Hpend as (? & ? & ? & ? & ?). split_and!; try done.
    cbn. rewrite Hmore. by apply data_at_app.
  - rewrite Hmore. eapply Forall_impl; [done|]. intros b. apply iblock_ok_app.
Qed.

Lemma inv_closed {n : Z} (bs : list iblock) (p : option (BlockHandle.t * list kv)) (cur : list kv)
    (r : Rep (W := W)) : inv n bs p cur r -> inv n bs p cur (set_closed r).
Proof. by intros []. Qed.

(** The last entry of the index. *)
Lemma last_index_step {n : Z} (bs : list iblock) (p : option (BlockHandle.t * list kv)) (r : Rep (W := W)) :
  inv n bs p [] r ->
  exists r' bs' lk,
    (if pending_index_entry r then add_index_entry r (FindShortSuccessor (last_key r)) else Ok r)
      = Ok r' /\
    inv n bs' None [] (set_last_key r' lk (num_entries r')) /\
    table_entries bs' None [] = table_entries bs p [] /\
    map block_offset bs' = map block_offset bs ++ pend_offset p.
Proof.
  intros Hinv.
  pose proof Hinv as [Hst Hint Hoff Hfsz Hslack Hoffs Hidx Hdat Hpend Hbs Hsep Hlast Hnum Hsort Hkvs Hbound].
  destruct p as [[h es]|]; cbn in Hpend.
  - destruct Hpend as (-> & Hh & Hne & _ & Hat).
    assert (last_key r = BlockSpec.last_key es) as Hl.
    { rewrite Hlast. unfold table_entries. cbn [pend_entries]. rewrite app_nil_r. by apply last_key_app. }
    destruct (last_key_in es Hne) as [lv Hin].
    assert (bytes_ok (BlockSpec.last_key es)) as Hlok.
    { rewrite Forall_forall in Hkvs. destruct (Hkvs (BlockSpec.last_key es, lv)) as (? & _); [|done].
      unfold table_entries. cbn. rewrite app_nil_r. apply elem_of_app. by right. }
    destruct (FindShortSuccessor_spec _ Hlok) as (Hge & Hsz & Hsok). rewrite Hl.
    destruct (add_index_entry_inv bs h es r _ Hinv Hsok Hsz) as (r' & Hadd & _ & Hinv').
    { unfold table_entries in Hsort. cbn in Hsort. rewrite app_nil_r in Hsort.
      apply sorted_entries_app in Hsort as (_ & Hes & _).
      eapply Forall_impl; [by apply sorted_last_key|]. intros e. cbn. eauto with bytes. }
    exists r'. do 2 eexists. split_and!; [done|exact Hinv'|apply table_entries_pend|by rewrite map_app].
  - rewrite Hpend. exists r, bs, (last_key r). rewrite app_nil_r. split_and!; [done| |done|done]. by destruct r.
Qed.

(** The index block and the footer, after the meta block. *)
Lemma index_and_footer {n : Z} (bs : list iblock) (r : Rep (W := W)) (lk : bytes) (meta : BlockHandle.t) :
  inv n bs None [] (set_last_key r lk (num_entries r)) -> BlockHandle.in_range meta ->
  Forall (fun b => block_offset b < BlockHandle.offset_ meta) bs ->
  exists f s off b h, WriteBlock r (index_block r) = Ok (wrote r f s off, b, h) /\
    (s = OkStatus -> forall s' f',
       file_Append f (Footer.EncodeTo (Footer.mk meta h) []) = (s', f') -> s' = OkStatus ->
       table_file (table_entries bs None []) (written f')).
Proof.
  intros Hinv Hmeta Hmo. pose proof (inv_small Hinv) as Hsmall.
  destruct Hinv as [Hst Hint Hoff Hfsz Hslack Hoffs Hidx Hdat Hpend Hbs Hsep Hlast Hnum Hsort Hkv Hbound].
  cbn -[size] in Hoff, Hidx, Hbs, Hsmall, Hoffs.
  assert (block_entries bs = table_entries bs None []) as Heq.
  { unfold table_entries. cbn. by rewrite app_nil_r. }
  pose proof (index_entries_bound _ _ Hbs) as Hib. rewrite Heq in Hib.
  destruct (WriteBlock_spec r (index_block r) (map index_entry bs) Hoff Hsmall Hidx)
    as (f & s & off & b & h & -> & _ & Hs); [lia|].
  do 5 eexists. split; [done|]. intros -> s' f' Hap ->.
  destruct (Hs eq_refl) as (_ & Hat & _ & more & Hmore & _).
  apply file_Append_spec in Hap. exists bs, meta, h. rewrite Hap, Hmore. split_and!; [|done|done|by eexists].
  split_and!; [done|done| | | | |].
  - eapply Forall_impl; [exact Hbs|]. intros b'. rewrite <- app_assoc. apply iblock_ok_app.
  - exact Hsep.
  - by apply sorted_lt_snoc in Hoffs as [? _].
  - rewrite <- Hmore. by apply data_at_app.
  - pose proof (iblocks_bound _ _ Hbs) as Hn. rewrite Heq in Hn. lia.
Qed.

Lemma Finish_failed (r : Rep (W := W)) :
  ok (status r) = false -> Finish r = Ok (set_closed r, status r).
Proof.
  intros Hf. unfold Finish. rewrite Flush_failed by done. cbn [res_bind status set_closed].
  rewrite Hf. cbn [res_bind status set_closed]. rewrite Hf. cbn [res_bind status set_closed].
  by rewrite Hf.
Qed.

(** [Finish] returns; with status OK the file is a table of the entries. *)
Lemma Finish_inv (bs : list iblock) (p : option (BlockHandle.t * list kv)) (cur : list kv)
    (r : Rep (W := W)) :
  inv 0 bs p cur r ->
  exists r', Finish r = Ok (r', status r') /\
    (status r' = OkStatus -> table_file (table_entries bs p cur) (written (file r'))).
Proof.
  intros Hinv. destruct (Flush_inv bs p cur r Hinv) as (r1 & Hf & [(p1 & Hi1 & He1)|Hf1]).
  2: { exists (set_closed r1). unfold Finish. rewrite Hf. cbn [res_bind status set_closed].
    destruct Hf1 as (Hf1 & _). rewrite Hf1. cbn [res_bind status set_closed]. rewrite Hf1.
    cbn [res_bind status set_closed]. rewrite Hf1. split; [done|]. intros E. by rewrite E in Hf1. }
  rewrite <- (table_entries_flush _ _ _ _ He1).
  apply inv_closed in Hi1. set (r1' := set_closed r1) in *.
  destruct (WriteBlock_spec r1' BlockBuilder.new [] (inv_offset _ _ _ _ _ Hi1) (inv_small Hi1) builds_new)
    as (f2 & s2 & off2 & b2 & meta & Hw2 & _ & Hs2); [cbn; lia|].
  unfold Finish. rewrite Hf. cbn [res_bind]. fold r1'. rewrite (inv_status _ _ _ _ _ Hi1). cbn [ok].
  rewrite Hw2. cbn [res_bind]. set (r2 := wrote r1' f2 s2 off2) in *.
  change (status r2) with s2. destruct (ok s2) eqn:Eok2.
  2: { cbn [res_bind]. change (status r2) with s2. rewrite Eok2. exists r2. split; [done|].
       change (status r2) with s2. by intros ->. }
  apply ok_status in Eok2 as ->. destruct (Hs2 eq_refl) as (Hoff2 & (raw2 & _ & Hst2) & Hmo & more2 & Hmore2 & Hms2).
  pose proof (inv_wrote _ _ _ _ _ _ _ Hi1 Hmore2 Hoff2 ltac:(cbn -[size] in Hms2; lia)) as Hi2. fold r2 in Hi2.
  destruct (last_index_step bs p1 r2 Hi2) as (r3 & bs3 & lk & -> & Hi3 & He3 & Ho3). cbn [res_bind].
  pose proof (inv_offsets _ _ _ _ _ Hi1) as Hoffs. rewrite app_assoc, <- Ho3 in Hoffs.
  apply sorted_lt_snoc in Hoffs as [_ Hoffs]. rewrite <- Hmo, Forall_map in Hoffs.
  destruct (index_and_footer bs3 r3 lk meta Hi3 (stored_range _ _ _ Hst2) Hoffs)
    as (f4 & s4 & off4 & b4 & h4 & -> & Hfoot).
  cbn [res_bind status set_index_block wrote set_compressed_output set_file].
  destruct (ok s4) eqn:Eok4.
  2: { eexists. split; [done|]. cbn. intros ->. done. }
  apply ok_status in Eok4 as ->. cbn [file set_index_block wrote set_compressed_output set_file].
  destruct (file_Append f4 _) as [s5 f5] eqn:E5.
  rewrite <- He3. destruct (ok s5) eqn:Eok5; (eexists; split; [done|]); cbn.
  - intros _. apply ok_status in Eok5 as ->. by eapply Hfoot.
  - by intros ->.
Qed.

(** ** Building a table *)

Local Open Scope res_scope.

Fixpoint add_entries (r : Rep (W := W)) (es : list kv) : res fault (Rep (W := W)) :=
  match es with
  | [] => Ok r
  | e :: rest => let! r := Add r e.1 e.2 in add_entries r rest
  end.

Definition build_table (opt : Options) (f : W) (es : list kv) : res fault (Rep (W := W) * Status) :=
  let! r := add_entries (new opt f) es in Finish r.

Lemma add_entries_failed (es : list kv) (r : Rep (W := W)) :
  ok (status r) = false -> add_entries r es = Ok r.
Proof.
  intros Hf. induction es as [|e es IH]; [done|]. cbn [add_entries]. unfold Add. by rewrite Hf.
Qed.

Lemma add_entries_inv {n : Z} (es : list kv) (bs : list iblock) (p : option (BlockHandle.t * list kv))
    (cur : list kv) (r : Rep (W := W)) :
  inv n bs p cur r -> shaped bs p cur -> Forall kv_ok es ->
  sorted_entries (table_entries bs p cur ++ es) ->
  table_bound (table_entries bs p cur ++ es) + 8 < 2 ^ 32 ->
  exists r', add_entries r es = Ok r' /\
    ((exists bs' p' cur', inv n bs' p' cur' r' /\
        table_entries bs' p' cur' = table_entries bs p cur ++ es) \/ ok (status r') = false).
Proof.
  revert bs p cur r. induction es as [|[k v] es IH]; intros bs p cur r Hinv Hsh Hkv Hs Hb.
  - exists r. split; [done|]. left. exists bs, p, cur. by rewrite app_nil_r.
  - apply Forall_cons in Hkv as [Hkv Hkvs].
    change ((k, v) :: es) with ([(k, v)] ++ es) in Hs, Hb |- *. rewrite !app_assoc in *.
    pose proof Hs as (Hs1 & _)%sorted_entries_app.
    assert (table_bound (table_entries bs p cur ++ [(k, v)]) + 8 < 2 ^ 32) as Hb1.
    { rewrite table_bound_app in Hb. pose proof (table_bound_nonneg es). lia. }
    destruct (Add_inv bs p cur r k v Hinv Hsh Hkv Hs1 Hb1) as (r1 & Ha & Hcase).
    cbn [app add_entries fst snd]. rewrite Ha. cbn [res_bind].
    destruct Hcase as [(bs1 & p1 & cur1 & Hi1 & Hsh1 & He1)|Hf].
    + rewrite <- He1 in Hs, Hb |- *. by apply IH.
    + rewrite add_entries_failed by done. exists r1. split; [done|]. by right.
Qed.

(** Building a table returns; with status OK the file holds the entries. *)
Lemma build_table_spec (opt : Options) (f : W) (es : list kv) :
  1 <= block_restart_interval opt -> written f = [] -> Forall kv_ok es -> sorted_entries es ->
  table_bound es + 8 < 2 ^ 32 ->
  exists r, build_table opt f es = Ok (r, status r) /\
    (status r = OkStatus -> table_file es (written (file r))).
Proof.
  intros Hi Hw Hkv Hs Hb. unfold build_table.
  destruct (add_entries_inv (n := 0) es [] None [] (new opt f)) as (r & -> & Hcase); try done.
  { by apply inv_new. }
  cbn [res_bind]. destruct Hcase as [(bs & p & cur & Hinv & He)|Hf].
  - destruct (Finish_inv bs p cur r Hinv) as (r' & -> & Ht). rewrite He in Ht. by exists r'.
  - exists (set_closed r). rewrite Finish_failed by done. split; [done|].
    cbn. intros E. by rewrite E in Hf.
Qed.

End TableBuild.
