(* ===== verification/TwoLevel.v ===== *)
(** The two-level iterator.

    [tsl/lib/io/two_level_iterator.cc]: an iterator over the concatenation of
    data blocks, from an iterator over an index whose values name the blocks
    and a function that opens an iterator over the block of a value.  It is
    written, and verified, against the iterator interface: index and data
    iterators are any types with [IterOps].  Opening and deleting data
    iterators may change an environment (the block cache), so both thread it; a
    data iterator comes with the token that its clean-up function needs. *)
From S2P Require Import Prelude Bytes Block Iterator.

Section TwoLevel.
Context {I J T E : Type} {iops : IterOps I} {jops : IterOps J}.
Context (block_function : E -> bytes -> res fault (J * T * E)) (release : E -> T -> E).
Context (fuel : nat).
Local Open Scope res_scope.

Record TwoLevelIterator : Type := mkTwoLevel {
  status_ : Status;
  index_iter_ : I;
  data_iter_ : option (J * T);
  data_block_handle_ : bytes
}.

Definition NewTwoLevelIterator (index_iter : I) : TwoLevelIterator :=
  mkTwoLevel OkStatus index_iter None [].

(** The environment with the iterator. *)
Definition tl_state : Type := E * TwoLevelIterator.

Definition tl_Valid (s : tl_state) : bool :=
  match data_iter_ s.2 with None => false | Some (d, _) => it_Valid d end.

Definition tl_key (s : tl_state) : bytes :=
  match data_iter_ s.2 with None => [] | Some (d, _) => it_key d end.

Definition tl_value (s : tl_state) : res fault bytes :=
  match data_iter_ s.2 with None => Ok [] | Some (d, _) => it_value d end.

Definition tl_status (s : tl_state) : Status :=
  let t := s.2 in
  if negb (ok (it_status (index_iter_ t))) then it_status (index_iter_ t)
  else
    match data_iter_ t with
    | Some (d, _) => if negb (ok (it_status d)) then it_status d else status_ t
    | None => status_ t
    end.

(** [if (status_.ok() && !s.ok()) status_ = s]. *)
Definition SaveError (t : TwoLevelIterator) (s : Status) : TwoLevelIterator :=
  if ok (status_ t) && negb (ok s)
  then mkTwoLevel s (index_iter_ t) (data_iter_ t) (data_block_handle_ t)
  else t.

Definition SetDataIterator (s : tl_state) (data_iter : option (J * T)) : tl_state :=
  let '(e, t) := s in
  let '(e, t) :=
    match data_iter_ t with
    | Some (d, token) => (release e token, SaveError t (it_status d))
    | None => (e, t)
    end in
  (e, mkTwoLevel (status_ t) (index_iter_ t) data_iter (data_block_handle_ t)).

Definition InitDataBlock (s : tl_state) : res fault tl_state :=
  let '(e, t) := s in
  if negb (it_Valid (index_iter_ t)) then Ok (SetDataIterator s None)
  else
    let! handle := it_value (index_iter_ t) in
    if match data_iter_ t with
       | Some _ => bool_decide (compare handle (data_block_handle_ t) = Eq)
       | None => false
       end
    then Ok s
    else
      let! (d, token, e) := block_function e handle in
      let t := mkTwoLevel (status_ t) (index_iter_ t) (data_iter_ t) handle in
      Ok (SetDataIterator (e, t) (Some (d, token))).

Definition set_index (s : tl_state) (i : I) : tl_state :=
  (s.1, mkTwoLevel (status_ s.2) i (data_iter_ s.2) (data_block_handle_ s.2)).

(** [if (data_iter_ != nullptr) data_iter_->f()]. *)
Definition move_data (f : J -> res fault J) (s : tl_state) : res fault tl_state :=
  match data_iter_ s.2 with
  | None => Ok s
  | Some (d, token) =>
      let! d := f d in
      Ok (s.1, mkTwoLevel (status_ s.2) (index_iter_ s.2) (Some (d, token)) (data_block_handle_ s.2))
  end.

Fixpoint skip_loop (fuel : nat) (s : tl_state) : res fault tl_state :=
  if tl_Valid s then Ok s
  else if negb (it_Valid (index_iter_ s.2)) then Ok (SetDataIterator s None)
  else
    match fuel with
    | O => Err OutOfFuel
    | S fuel' =>
        let! i := it_Next (index_iter_ s.2) in
        let! s := InitDataBlock (set_index s i) in
        let! s := move_data it_SeekToFirst s in
        skip_loop fuel' s
    end.

Definition SkipEmptyDataBlocksForward (s : tl_state) : res fault tl_state := skip_loop fuel s.

Definition tl_Seek (s : tl_state) (target : bytes) : res fault tl_state :=
  let! i := it_Seek (index_iter_ s.2) target in
  let! s := InitDataBlock (set_index s i) in
  let! s := move_data (fun d => it_Seek d target) s in
  SkipEmptyDataBlocksForward s.

Definition tl_SeekToFirst (s : tl_state) : res fault tl_state :=
  let! i := it_SeekToFirst (index_iter_ s.2) in
  let! s := InitDataBlock (set_index s i) in
  let! s := move_data it_SeekToFirst s in
  SkipEmptyDataBlocksForward s.

Definition tl_Next (s : tl_state) : res fault tl_state :=
  let! s := move_data it_Next s in
  SkipEmptyDataBlocksForward s.

#[export] Instance two_level_ops : IterOps tl_state := {|
  it_Valid := tl_Valid;
  it_Seek := tl_Seek;
  it_SeekToFirst := tl_SeekToFirst;
  it_Next := tl_Next;
  it_key := tl_key;
  it_value := tl_value;
  it_status := tl_status
|}.

(** ** The laws *)

Context {at_i : list kv -> nat -> I -> Prop} {at_j : list kv -> nat -> J -> Prop}.
Context {ilaws : IterLaws I at_i} {jlaws : IterLaws J at_j}.

(** The index, the blocks, what the environment owes to the iterators that hold
    the tokens of a list, and the tokens of others. *)
Context (idx : list kv) (blks : list (list kv)) (live : E -> list T -> Prop) (others : list T).

Class TwoLevelIndex : Prop := {
  tl_length : length idx = length blks;
  tl_nonempty b : b ∈ blks -> b <> [];
  tl_sorted : sorted_entries (concat blks);
  tl_sep_ge j sep h b e : idx !! j = Some (sep, h) -> blks !! j = Some b -> e ∈ b ->
    le_str e.1 sep = true;
  tl_sep_lt j j' sep h b e : idx !! j = Some (sep, h) -> blks !! j' = Some b -> e ∈ b ->
    (j < j')%nat -> lt_bytes sep e.1 = true;
  tl_names j j' s s' h b b' : idx !! j = Some (s, h) -> idx !! j' = Some (s', h) ->
    blks !! j = Some b -> blks !! j' = Some b' -> b = b';
  tl_open e ts j s h b : live e ts -> (length ts <= S (length others))%nat -> idx !! j = Some (s, h) -> blks !! j = Some b ->
    exists d token e', block_function e h = Ok (d, token, e') /\ at_j b (length b) d /\
      live e' (token :: ts);
  tl_release e a token c : live e (a ++ token :: c) -> live (release e token) (a ++ c);
  tl_fuel : (2 <= fuel)%nat
}.

Context {tli : TwoLevelIndex}.

(** The data iterator, if any, is over the block its handle names. *)
Definition data_ok (s : tl_state) : Prop :=
  status_ s.2 = OkStatus /\
  match data_iter_ s.2 with
  | None => live s.1 others
  | Some (d, token) =>
      live s.1 (token :: others) /\
      exists j sp b k, idx !! j = Some (sp, data_block_handle_ s.2) /\ blks !! j = Some b /\ at_j b k d
  end.

(** At entry [k] of block [j] (possibly past its last one). *)
Definition in_block (j k : nat) (s : tl_state) : Prop :=
  status_ s.2 = OkStatus /\ at_i idx j (index_iter_ s.2) /\
  exists b sp d token, blks !! j = Some b /\ idx !! j = Some (sp, data_block_handle_ s.2) /\
    data_iter_ s.2 = Some (d, token) /\ at_j b k d /\ live s.1 (token :: others).

(** Past the last block. *)
Definition at_end (s : tl_state) : Prop :=
  status_ s.2 = OkStatus /\ at_i idx (length idx) (index_iter_ s.2) /\ data_iter_ s.2 = None /\
  live s.1 others.

(** The entries before block [j]. *)
Definition base (j : nat) : nat := length (concat (take j blks)).

Definition at_two (es : list kv) (i : nat) (s : tl_state) : Prop :=
  es = concat blks /\
  ((exists j k b, blks !! j = Some b /\ (k < length b)%nat /\ i = (base j + k)%nat /\ in_block j k s) \/
   (i = length es /\ at_end s)).

Lemma in_block_data_ok (j k : nat) (s : tl_state) : in_block j k s -> data_ok s.
Proof.
  intros (Hst & _ & b & sp & d & token & Hb & Hi & Hd & Hat & Hl). split; [done|]. rewrite Hd.
  split; [done|]. by exists j, sp, b, k.
Qed.

Lemma at_two_data_ok (es : list kv) (i : nat) (s : tl_state) : at_two es i s -> data_ok s.
Proof.
  intros [_ [(j & k & b & _ & _ & _ & Hin)|(_ & Hst & _ & Hd & Hl)]]; [by eapply in_block_data_ok|].
  split; [done|]. by rewrite Hd.
Qed.

Lemma at_two_index (es : list kv) (i : nat) (s : tl_state) :
  at_two es i s -> exists j, at_i idx j (index_iter_ s.2).
Proof. intros [_ [(j & k & b & _ & _ & _ & _ & ? & _)|(_ & _ & ? & _)]]; eauto. Qed.

Lemma SaveError_ok (t : TwoLevelIterator) : SaveError t OkStatus = t.
Proof. unfold SaveError. by rewrite andb_false_r. Qed.

(** Replacing the data iterator releases the old one. *)
Lemma SetDataIterator_None (s : tl_state) :
  data_ok s ->
  exists e, SetDataIterator s None = (e, mkTwoLevel OkStatus (index_iter_ s.2) None (data_block_handle_ s.2)) /\
    live e others.
Proof.
  destruct s as [e t]. intros [Hst Hd]. unfold SetDataIterator. cbn [fst snd] in *.
  destruct (data_iter_ t) as [[d token]|] eqn:Ed.
  - destruct Hd as (Hl & j & sp & b & k & _ & _ & Hat). rewrite (at_status _ _ _ Hat), SaveError_ok, Hst.
    eexists. split; [done|]. by apply (tl_release e [] token others).
  - rewrite Hst. eauto.
Qed.

Lemma InitDataBlock_end (s : tl_state) :
  data_ok s -> at_i idx (length idx) (index_iter_ s.2) ->
  exists s', InitDataBlock s = Ok s' /\ at_end s'.
Proof.
  intros Hd Hi. destruct (SetDataIterator_None s Hd) as (e & Hs & Hl). unfold InitDataBlock.
  destruct s as [e0 t]. cbn [fst snd] in *. rewrite (at_Valid _ _ _ Hi).
  rewrite bool_decide_false by lia. cbn [negb]. eexists. split; [done|]. rewrite Hs. by split_and!.
Qed.

Lemma InitDataBlock_block (j : nat) (b : list kv) (s : tl_state) :
  data_ok s -> at_i idx j (index_iter_ s.2) -> blks !! j = Some b ->
  exists s' k, InitDataBlock s = Ok s' /\ in_block j k s' /\ index_iter_ s'.2 = index_iter_ s.2.
Proof.
  destruct s as [e t]. intros [Hst Hd] Hi Hb. cbn [fst snd] in *. unfold InitDataBlock.
  assert (j < length idx)%nat as Hj by (rewrite tl_length; by eapply lookup_lt_Some).
  destruct (lookup_lt_is_Some_2 _ _ Hj) as [[sp h] He].
  rewrite (at_Valid _ _ _ Hi), bool_decide_true by done. cbn [negb].
  destruct (at_entry _ _ _ _ _ Hi He) as [_ ->]. cbn [res_bind].
  destruct (data_iter_ t) as [[d token]|] eqn:Ed.
  - destruct Hd as (Hl & j0 & sp0 & b0 & k0 & Hi0 & Hb0 & Hat0).
    case_bool_decide as Hcmp.
    + apply compare_eq in Hcmp as ->. exists (e, t), k0. split; [done|]. split; [|done].
      split_and!; [done|done|]. exists b, sp, d, token.
      pose proof (tl_names _ _ _ _ _ _ _ He Hi0 Hb Hb0) as ->. by split_and!.
    + destruct (tl_open e (token :: others) j sp h b Hl ltac:(done) He Hb) as (d' & token' & e' & -> & Hat & Hl').
      cbn [res_bind]. unfold SetDataIterator. cbn [data_iter_]. rewrite (at_status _ _ _ Hat0), SaveError_ok.
      cbn [status_ index_iter_ data_block_handle_]. do 2 eexists. split; [done|]. split; [|done].
      split_and!; [done|done|]. exists b, sp, d', token'. split_and!; try done.
      by apply (tl_release e' [token'] token others).
  - destruct (tl_open e others j sp h b Hd ltac:(lia) He Hb) as (d' & token' & e' & -> & Hat & Hl').
    cbn [res_bind]. unfold SetDataIterator. cbn [data_iter_].
    cbn [status_ index_iter_ data_block_handle_]. do 2 eexists. split; [done|]. split; [|done].
    split_and!; [done|done|]. by exists b, sp, d', token'.
Qed.

(** Moving the data iterator inside of its block. *)
Lemma move_data_block (f : J -> res fault J) (j k k' : nat) (b : list kv) (s : tl_state) :
  in_block j k s -> blks !! j = Some b ->
  (forall d, at_j b k d -> exists d', f d = Ok d' /\ at_j b k' d') ->
  exists s', move_data f s = Ok s' /\ in_block j k' s'.
Proof.
  intros (Hst & Hi & b' & sp & d & token & Hb & He & Hd & Hat & Hl) Hb' Hf.
  rewrite Hb in Hb'. injection Hb' as ->. unfold move_data. rewrite Hd.
  destruct (Hf d Hat) as (d' & -> & Hat'). cbn [res_bind]. eexists. split; [done|].
  split_and!; [done|done|]. by exists b, sp, d', token.
Qed.

Lemma set_index_data_ok (s : tl_state) (i : I) : data_ok s -> data_ok (set_index s i).
Proof. done. Qed.

(** Opening block [j] and seeking in it. *)
Lemma open_and_move (f : J -> res fault J) (j k' : nat) (b : list kv) (s : tl_state) (i : I) :
  data_ok s -> at_i idx j i -> blks !! j = Some b ->
  (forall k d, at_j b k d -> exists d', f d = Ok d' /\ at_j b k' d') ->
  exists s' s'', InitDataBlock (set_index s i) = Ok s' /\ move_data f s' = Ok s'' /\ in_block j k' s''.
Proof.
  intros Hd Hi Hb Hf.
  destruct (InitDataBlock_block j b (set_index s i) (set_index_data_ok _ _ Hd) Hi Hb)
    as (s' & k & Hinit & Hin & _).
  destruct (move_data_block f j k k' b s' Hin Hb (Hf k)) as (s'' & Hm & Hin').
  by exists s', s''.
Qed.

(** ** Positions *)

Lemma base_S (j : nat) (b : list kv) : blks !! j = Some b -> base (S j) = (base j + length b)%nat.
Proof.
  intros Hb. unfold base. rewrite (take_S_r _ _ _ Hb), concat_app, length_app. cbn.
  by rewrite app_nil_r.
Qed.

Lemma base_end (j : nat) : (length blks <= j)%nat -> base j = length (concat blks).
Proof. intros Hj. unfold base. by rewrite take_ge. Qed.

Lemma concat_split (j : nat) (b : list kv) :
  blks !! j = Some b ->
  concat blks = concat (take j blks) ++ b ++ concat (drop (S j) blks).
Proof. intros Hb. rewrite <- (take_drop_middle _ _ _ Hb) at 1. by rewrite concat_app. Qed.

Lemma concat_elem (j : nat) (e : kv) (bs : list (list kv)) :
  e ∈ concat bs -> exists j b, bs !! j = Some b /\ e ∈ b.
Proof.
  induction bs as [|b bs IH]; cbn; [by intros ?%not_elem_of_nil|].
  intros [He|He]%elem_of_app; [by exists O, b|]. destruct (IH He) as (j' & b' & ? & ?). by exists (S j'), b'.
Qed.

Lemma entry_lookup (j k : nat) (b : list kv) (e : kv) :
  blks !! j = Some b -> b !! k = Some e -> concat blks !! (base j + k)%nat = Some e.
Proof.
  intros Hb He. rewrite (concat_split _ _ Hb). unfold base. rewrite lookup_app_r by lia.
  rewrite Nat.add_comm, Nat.add_sub. by apply lookup_app_l_Some.
Qed.

Lemma in_block_Valid (j k : nat) (b : list kv) (s : tl_state) :
  in_block j k s -> blks !! j = Some b -> tl_Valid s = bool_decide (k < length b)%nat.
Proof.
  intros (_ & _ & b' & sp & d & token & Hb & _ & Hd & Hat & _) Hb'. rewrite Hb in Hb'.
  injection Hb' as ->. unfold tl_Valid. rewrite Hd. by apply (at_Valid _ _ _ Hat).
Qed.

Lemma skip_end (n : nat) (s : tl_state) :
  at_end s -> exists s', skip_loop n s = Ok s' /\ at_end s'.
Proof.
  intros (Hst & Hi & Hd & Hl). destruct s as [e t]. cbn [fst snd] in *.
  assert (skip_loop n (e, t) = Ok (SetDataIterator (e, t) None)) as ->.
  { destruct n; cbn; unfold tl_Valid; cbn; rewrite Hd, (at_Valid _ _ _ Hi), bool_decide_false by lia; done. }
  eexists. split; [done|]. unfold SetDataIterator. rewrite Hd. by split_and!.
Qed.

(** Skipping from entry [k] of block [j], possibly past its last entry. *)
Lemma skip_spec (j k : nat) (b : list kv) (s : tl_state) :
  in_block j k s -> blks !! j = Some b -> (k <= length b)%nat ->
  exists s', SkipEmptyDataBlocksForward s = Ok s' /\ at_two (concat blks) (base j + k)%nat s'.
Proof.
  intros Hin Hb Hk. unfold SkipEmptyDataBlocksForward. pose proof tl_fuel as Hfuel.
  destruct fuel as [|[|n]] eqn:Ef; [lia|lia|]. clear Ef Hfuel.
  destruct (decide (k < length b)%nat) as [Hlt|Hge].
  { cbn [skip_loop]. rewrite (in_block_Valid _ _ _ _ Hin Hb), bool_decide_true by done.
    eexists. split; [done|]. split; [done|]. left. by exists j, k, b. }
  assert (k = length b) as -> by lia. clear Hge Hk.
  pose proof (in_block_data_ok _ _ _ Hin) as Hd. pose proof Hin as (_ & Hi & _).
  assert (j < length idx)%nat as Hj by (rewrite tl_length; by eapply lookup_lt_Some).
  cbn [skip_loop]. rewrite (in_block_Valid _ _ _ _ Hin Hb), bool_decide_false by lia.
  rewrite (at_Valid _ _ _ Hi), bool_decide_true by done. cbn [negb].
  destruct (at_Next _ _ _ Hi Hj) as (i' & -> & Hi'). cbn [res_bind].
  rewrite <- (base_S j b Hb).
  destruct (blks !! S j) as [b'|] eqn:Hb'.
  - destruct (open_and_move it_SeekToFirst (S j) 0 b' s i' Hd Hi' Hb') as (s1 & s2 & -> & Hm & Hin2).
    { intros k' d Hat. by apply (at_SeekToFirst _ _ _ Hat). }
    cbn [res_bind]. rewrite Hm. cbn [res_bind].
    assert (0 < length b')%nat as Hpos.
    { assert (b' <> []) by (apply tl_nonempty; by eapply list_elem_of_lookup_2). destruct b'; [done|cbn; lia]. }
    assert (tl_Valid s2 = true) as Hv.
    { rewrite (in_block_Valid _ _ _ _ Hin2 Hb'). by apply bool_decide_true. }
    exists s2. split; [cbn [skip_loop]; by rewrite Hv|]. split; [done|]. left.
    exists (S j), O, b'. by rewrite Nat.add_0_r.
  - apply lookup_ge_None in Hb'. rewrite <- tl_length in Hb'.
    replace (S j) with (length idx) in Hi' by lia.
    destruct (InitDataBlock_end (set_index s i') (set_index_data_ok _ _ Hd) Hi') as (s1 & -> & Hend).
    cbn [res_bind]. unfold move_data. pose proof Hend as (_ & _ & -> & _). cbn [res_bind].
    destruct (skip_end (S n) s1 Hend) as (s2 & Hs2 & Hend2). exists s2. split; [exact Hs2|].
    split; [done|]. right. split; [|done]. apply base_end. rewrite <- tl_length. lia.
Qed.

(** ** Seeking *)

Lemma before_block (target : bytes) (j : nat) :
  (j <= lower_bound target idx)%nat ->
  Forall (fun e : kv => lt_bytes e.1 target = true) (concat (take j blks)).
Proof.
  intros Hj. apply Forall_forall. intros e He.
  apply (concat_elem j) in He as (j' & b & Hb & He).
  assert (j' < j)%nat as Hlt.
  { apply lookup_lt_Some in Hb. rewrite length_take in Hb. lia. }
  rewrite lookup_take_lt in Hb by done.
  assert (j' < length idx)%nat as Hj' by (rewrite tl_length; by eapply lookup_lt_Some).
  destruct (lookup_lt_is_Some_2 _ _ Hj') as [[sp h] Hi].
  apply (le_str_lt_trans _ sp); [by eapply tl_sep_ge|].
  apply (lower_bound_before target idx j' (sp, h)); [lia|done].
Qed.

Lemma lower_bound_blocks (target : bytes) (j : nat) (b : list kv) :
  lower_bound target idx = j -> blks !! j = Some b ->
  lower_bound target (concat blks) = (base j + lower_bound target b)%nat.
Proof.
  intros Hj Hb. rewrite (concat_split _ _ Hb), lower_bound_app by (apply before_block; lia).
  fold (base j). f_equal. pose proof (lower_bound_le target b) as Hle.
  destruct (decide (lower_bound target b < length b)%nat) as [Hlt|Hge]; [by apply lower_bound_app_l|].
  assert (lower_bound target b = length b) as Hall by lia.
  rewrite lower_bound_app by by apply lower_bound_all.
  destruct (concat (drop (S j) blks)) as [|e rest] eqn:Erest; cbn; [lia|].
  assert (e ∈ concat (drop (S j) blks)) as He by (rewrite Erest; by constructor).
  apply (concat_elem j) in He as (j' & b' & Hb' & He). rewrite lookup_drop in Hb'.
  assert (j < length idx)%nat as Hj' by (rewrite tl_length; by eapply lookup_lt_Some).
  destruct (lookup_lt_is_Some_2 _ _ Hj') as [[sp h] Hi].
  assert (lt_bytes sp e.1 = true) as Hsp by (eapply (tl_sep_lt j); [done|done|done|lia]).
  assert (lt_bytes sp target = false) as Hst.
  { apply (lower_bound_at target idx (sp, h)). by rewrite Hj. }
  assert (lt_bytes e.1 target = false) as ->; [|lia].
  apply lt_bytes_false. apply lt_bytes_false in Hst. eauto with bytes.
Qed.

Lemma lower_bound_all_blocks (target : bytes) :
  lower_bound target idx = length idx -> lower_bound target (concat blks) = length (concat blks).
Proof.
  intros Hj. rewrite <- (app_nil_r (concat blks)) at 1. rewrite lower_bound_app; [cbn; lia|].
  rewrite <- (take_ge blks (length blks)) at 1 by lia. apply before_block. rewrite Hj, tl_length. lia.
Qed.

(** Positioning the index at [j], then the data iterator at [k] of its block. *)
Lemma position_spec (f : J -> res fault J) (j k : nat) (s : tl_state) (i : I) :
  data_ok s -> at_i idx j i -> (j <= length idx)%nat ->
  (forall b, blks !! j = Some b ->
     (k <= length b)%nat /\ forall k' d, at_j b k' d -> exists d', f d = Ok d' /\ at_j b k d') ->
  exists s1 s2 s3, InitDataBlock (set_index s i) = Ok s1 /\ move_data f s1 = Ok s2 /\
    SkipEmptyDataBlocksForward s2 = Ok s3 /\
    at_two (concat blks) (if decide (j < length idx)%nat then base j + k else length (concat blks))%nat s3.
Proof.
  intros Hd Hi Hj Hf. case_decide as Hlt.
  - rewrite tl_length in Hlt. destruct (lookup_lt_is_Some_2 _ _ Hlt) as [b Hb].
    destruct (Hf b Hb) as [Hk Hf'].
    destruct (open_and_move f j k b s i Hd Hi Hb Hf') as (s1 & s2 & H1 & H2 & Hin).
    destruct (skip_spec j k b s2 Hin Hb Hk) as (s3 & H3 & Hat). by exists s1, s2, s3.
  - assert (j = length idx) as -> by lia.
    destruct (InitDataBlock_end (set_index s i) (set_index_data_ok _ _ Hd) Hi) as (s1 & H1 & Hend).
    destruct (skip_end fuel s1 Hend) as (s3 & H3 & Hend3). exists s1, s1, s3.
    split_and!; [done| |done|by split; [|right]].
    unfold move_data. by destruct Hend as (_ & _ & -> & _).
Qed.

#[export] Instance two_level_laws : IterLaws tl_state at_two.
Proof.
  split.
  - intros es i s [-> _]. apply tl_sorted.
  - intros es i s [-> [(j & k & b & Hb & Hk & -> & Hin)|(-> & _ & _ & Hd & _)]]; cbn.
    + rewrite (in_block_Valid _ _ _ _ Hin Hb), !bool_decide_true; [done| |done].
      destruct (lookup_lt_is_Some_2 _ _ Hk) as [e He].
      eapply lookup_lt_Some. by apply (entry_lookup _ _ _ _ Hb He).
    + unfold tl_Valid. rewrite Hd, bool_decide_false by lia. done.
  - intros es i s key v [-> [(j & k & b & Hb & Hk & -> & Hin)|(-> & _)]] He; cbn.
    + destruct (lookup_lt_is_Some_2 _ _ Hk) as [e He'].
      rewrite (entry_lookup _ _ _ _ Hb He') in He. injection He as ->.
      destruct Hin as (_ & _ & b' & sp & d & token & Hb' & _ & Hd & Hat & _).
      rewrite Hb in Hb'. injection Hb' as <-. unfold tl_key, tl_value. rewrite Hd.
      by apply (at_entry _ _ _ _ _ Hat).
    + apply lookup_lt_Some in He. lia.
  - intros es i s Hat. pose proof (at_two_data_ok _ _ _ Hat) as [Hst Hd].
    destruct (at_two_index _ _ _ Hat) as [j Hi]. cbn. unfold tl_status.
    rewrite (at_status _ _ _ Hi). cbn [ok negb]. destruct (data_iter_ s.2) as [[d token]|]; [|done].
    destruct Hd as (_ & j' & sp & b & k & _ & _ & Hatd). by rewrite (at_status _ _ _ Hatd).
  - intros es i s Hat. pose proof (at_two_data_ok _ _ _ Hat) as Hd.
    destruct (at_two_index _ _ _ Hat) as [j Hi]. pose proof Hat as [-> _].
    destruct (at_SeekToFirst _ _ _ Hi) as (i' & Hi1 & Hi2).
    destruct (position_spec it_SeekToFirst 0 0 s i' Hd Hi2) as (s1 & s2 & s3 & H1 & H2 & H3 & Hat3);
      [lia| |].
    { intros b Hb. split; [lia|]. intros k' d Hatd. by apply (at_SeekToFirst _ _ _ Hatd). }
    exists s3. cbn. unfold tl_SeekToFirst. rewrite Hi1. cbn [res_bind]. rewrite H1. cbn [res_bind].
    rewrite H2. cbn [res_bind]. split; [done|]. case_decide as Hlt; [done|].
    replace (length (concat blks)) with O in Hat3; [done|].
    assert (length blks = 0)%nat as Hz by (rewrite <- tl_length; lia). by apply nil_length_inv in Hz as ->.
  - intros es i s Hat Hlt. destruct Hat as [-> [(j & k & b & Hb & Hk & -> & Hin)|(-> & _)]]; [|lia].
    destruct (move_data_block it_Next j k (S k) b s Hin Hb) as (s1 & H1 & Hin1).
    { intros d Hatd. by apply (at_Next _ _ _ Hatd). }
    destruct (skip_spec j (S k) b s1 Hin1 Hb) as (s2 & H2 & Hat2); [lia|].
    exists s2. cbn. unfold tl_Next. rewrite H1. cbn [res_bind].
    split; [done|]. by rewrite Nat.add_succ_r in Hat2.
  - intros es i s target Hat. pose proof (at_two_data_ok _ _ _ Hat) as Hd.
    destruct (at_two_index _ _ _ Hat) as [j0 Hi]. pose proof Hat as [-> _].
    destruct (at_Seek _ _ _ target Hi) as (i' & Hi1 & Hi2).
    set (j := lower_bound target idx) in *.
    destruct (position_spec (fun d => it_Seek d target) j
      (lower_bound target (default [] (blks !! j))) s i' Hd Hi2)
      as (s1 & s2 & s3 & H1 & H2 & H3 & Hat3); [apply lower_bound_le| |].
    { intros b Hb. rewrite Hb. cbn. split; [apply lower_bound_le|].
      intros k' d Hatd. by apply (at_Seek _ _ _ _ Hatd). }
    exists s3. cbn. unfold tl_Seek. rewrite Hi1. cbn [res_bind]. rewrite H1. cbn [res_bind].
    rewrite H2. cbn [res_bind]. split; [done|]. case_decide as Hlt.
    + pose proof Hlt as Hlt'. rewrite tl_length in Hlt'. destruct (lookup_lt_is_Some_2 _ _ Hlt') as [b Hb].
      rewrite Hb in Hat3. cbn in Hat3. by rewrite (lower_bound_blocks target j b).
    + rewrite lower_bound_all_blocks; [done|]. pose proof (lower_bound_le target idx). fold j. lia.
Qed.

(** A new iterator. *)
Lemma NewTwoLevelIterator_at (e : E) (i : I) :
  at_i idx (length idx) i -> live e others ->
  at_two (concat blks) (length (concat blks)) (e, NewTwoLevelIterator i).
Proof. intros Hi Hl. split; [done|]. right. by split_and!. Qed.

End TwoLevel.
