(* ===== verification/Table.v ===== *)
(** Reading a table.

    [tsl/lib/io/table.cc]: [Open] reads the footer and the index block;
    [BlockReader] opens the data block that a value of the index names, through
    the block cache when the options have one; [NewIterator], [InternalGet] and
    [ApproximateOffsetOf] use them.  The cache is an interface, [BlockCache];
    its laws say what a cache of blocks promises: a handle holds the block that
    was inserted under its key until it is released. *)
From S2P Require Import Prelude Bytes Coding Crc32c Block Iterator BlockIter TwoLevel Format.

Class BlockCache (C H : Type) : Type := {
  cache_NewId : C -> Z * C;
  cache_Lookup : C -> bytes -> option H * C;
  cache_Value : C -> H -> Block.t;
  cache_Insert : C -> bytes -> Block.t -> Z -> H * C;
  cache_Release : C -> H -> C
}.

(** Limits of the 32-bit counters of a cache: how many handles are out, and how
    many keys the blocks may have. *)
Definition few_handles {H : Type} (hs : list H) : Prop := Z.of_nat (length hs) < 2 ^ 31.

Definition keys_within (M : bytes -> Block.t -> Prop) (n : Z) : Prop :=
  exists ks, Z.of_nat (length ks) <= n /\ forall k b, M k b -> k ∈ ks.

(** [holds M c hs]: what the cache maps a key to is in the relation [M], and the
    handles [hs] are not released. *)
Class BlockCacheLaws (C H : Type) {ops : BlockCache C H}
    (holds : (bytes -> Block.t -> Prop) -> C -> list H -> Prop) : Prop := {
  cache_holds_weaken M M' c hs : holds M c hs -> (forall k b, M k b -> M' k b) -> keys_within M' (2 ^ 31) ->
    holds M' c hs;
  cache_NewId_holds M c hs id c' : holds M c hs -> cache_NewId c = (id, c') ->
    holds M c' hs /\ in_u64 id;
  cache_Lookup_hit M c hs k h c' : holds M c hs -> few_handles hs -> cache_Lookup c k = (Some h, c') ->
    holds M c' (h :: hs) /\ M k (cache_Value c' h);
  cache_Lookup_miss M c hs k c' : holds M c hs -> few_handles hs -> cache_Lookup c k = (None, c') ->
    holds M c' hs;
  cache_Insert_holds M c hs k b n h c' : holds M c hs -> few_handles hs -> M k b -> 0 <= n < 2 ^ 32 ->
    cache_Insert c k b n = (h, c') -> holds M c' (h :: hs) /\ cache_Value c' h = b;
  cache_Release_holds M c a h b : holds M c (a ++ h :: b) -> holds M (cache_Release c h) (a ++ b)
}.

(** A cache that never evicts: the next identifier and the blocks by key. *)
#[local] Instance map_cache : BlockCache (Z * list (bytes * Block.t)) Block.t := {|
  cache_NewId c := (wrap_u64 (c.1 + 1), (wrap_u64 (c.1 + 1), c.2));
  cache_Lookup c k := (snd <$> find (fun p => bool_decide (p.1 = k)) c.2, c);
  cache_Value _ h := h;
  cache_Insert c k b _ := (b, (c.1, (k, b) :: c.2));
  cache_Release c _ := c
|}.

Definition map_cache_holds (M : bytes -> Block.t -> Prop) (c : Z * list (bytes * Block.t))
    (_ : list Block.t) : Prop := Forall (fun p => M p.1 p.2) c.2.

Lemma map_cache_laws : BlockCacheLaws _ _ map_cache_holds.
Proof.
  unfold map_cache_holds. split.
  - intros M M' c _ Hc HM _. eapply Forall_impl; [done|]. intros. by apply HM.
  - intros M c _ id c' Hc [= <- <-]. split; [done|]. apply wrap_u64_range.
  - intros M c _ k h c' Hc _ [=]. subst c'. split; [done|].
    destruct (find _ c.2) as [[k' b]|] eqn:E; [|done]. apply find_some in E as [Hin Hk]. simplify_eq/=.
    apply bool_decide_eq_true in Hk as <-. rewrite Forall_forall in Hc.
    apply list_elem_of_In in Hin. exact (Hc _ Hin).
  - by intros M c _ k c' Hc _ [= _ <-].
  - intros M c _ k b n h c' Hc _ HM _ [= <- <-]. split; [|done]. by constructor.
  - done.
Qed.

Module Table.
Section Table.
Context {bo : ByteOrder} {pl : CrcPlatform} {sn : Snappy}.
Context {F : Type} {raf : RandomAccessFile F}.
Context {C H : Type} {bc : BlockCache C H}.
Local Open Scope res_scope.

Record Rep : Type := mkRep {
  file : F;
  cache_id : Z;
  metaindex_handle : BlockHandle.t;
  index_block : Block.t
}.

(** [Open]; the cache is [options.block_cache], [None] for the null pointer. *)
Definition Open (cache : option C) (file : F) (size : Z) :
    res fault (Status * option Rep * option C) :=
  if size <? Footer.kEncodedLength then Ok (DataLoss FileTooShort, None, cache)
  else
    let '(s, footer_input, _) :=
      file_Read file (size - Footer.kEncodedLength) Footer.kEncodedLength in
    if negb (ok s) then Ok (s, None, cache)
    else
      let! (s, footer, _) := Footer.DecodeFrom Footer.new footer_input in
      if negb (ok s) then Ok (s, None, cache)
      else
        let! (s, contents) := ReadBlock file (Footer.index_handle_ footer) in
        if ok s then
          let! index_block := Block.new (contents_data contents) in
          let (id, cache) :=
            match cache with
            | Some c => let (id, c) := cache_NewId c in (id, Some c)
            | None => (0, None)
            end in
          Ok (s, Some (mkRep file id (Footer.metaindex_handle_ footer) index_block), cache)
        else Ok (s, None, cache).

Definition cache_key (id offset : Z) : bytes :=
  Coding.EncodeFixed64 id ++ Coding.EncodeFixed64 offset.

(** An iterator over the block that [index_value] names, with the handle that
    its clean-up releases. *)
Definition BlockReader (t : Rep) (cache : option C) (index_value : bytes) :
    res fault (Block.Iterator * option H * option C) :=
  let '(s, handle, _) := BlockHandle.DecodeFrom BlockHandle.new index_value in
  let! (s, block, cache_handle, cache) :=
    if ok s then
      match cache with
      | Some c =>
          let key := cache_key (cache_id t) (BlockHandle.offset_ handle) in
          let (found, c) := cache_Lookup c key in
          match found with
          | Some h => Ok (s, Some (cache_Value c h), Some h, Some c)
          | None =>
              let! (s, contents) := ReadBlock (file t) handle in
              if ok s then
                let! block := Block.new (contents_data contents) in
                let (h, c) := cache_Insert c key block (Block.size_ block) in
                Ok (s, Some block, Some h, Some c)
              else Ok (s, None, None, Some c)
          end
      | None =>
          let! (s, contents) := ReadBlock (file t) handle in
          if ok s then
            let! block := Block.new (contents_data contents) in
            Ok (s, Some block, None, None)
          else Ok (s, None, None, None)
      end
    else Ok (s, None, None, cache) in
  match block with
  | Some b => let! it := Block.NewIterator b in Ok (it, cache_handle, cache)
  | None => Ok (Block.NewErrorIterator s, None, cache)
  end.

(** [delete iter]: the clean-up releases the handle, if there is one. *)
Definition DeleteIterator (cache : option C) (cache_handle : option H) : option C :=
  match cache, cache_handle with
  | Some c, Some h => Some (cache_Release c h)
  | _, _ => cache
  end.

(** Iterations of [SkipEmptyDataBlocksForward] that are enough: one for every
    byte of the index block. *)
Definition index_fuel (t : Rep) : nat := S (S (Z.to_nat (Block.size_ (index_block t)))).

(** The state of the iterator [NewIterator] returns: the cache with it. *)
Definition table_iter : Type :=
  tl_state (I := Block.Iterator) (J := Block.Iterator) (T := option H) (E := option C).

Definition NewIterator (t : Rep) (cache : option C) : res fault table_iter :=
  let! it := Block.NewIterator (index_block t) in
  Ok (cache, NewTwoLevelIterator it).

Definition table_iter_ops (t : Rep) : IterOps table_iter :=
  two_level_ops (BlockReader t) DeleteIterator (index_fuel t).

(** [InternalGet]: the status, what [saver] was called with, the cache. *)
Definition InternalGet (t : Rep) (cache : option C) (k : bytes) :
    res fault (Status * option kv * option C) :=
  let! iiter := Block.NewIterator (index_block t) in
  let! iiter := Block.iter_Seek iiter k in
  let! (s, saved, cache) :=
    if Block.iter_Valid iiter then
      let! index_value := Block.iter_value iiter in
      let! (block_iter, handle, cache) := BlockReader t cache index_value in
      let! block_iter := Block.iter_Seek block_iter k in
      let! saved :=
        if Block.iter_Valid block_iter then
          let! v := Block.iter_value block_iter in Ok (Some (Block.iter_key block_iter, v))
        else Ok None in
      Ok (Block.iter_status block_iter, saved, DeleteIterator cache handle)
    else Ok (OkStatus, None, cache) in
  let s := if ok s then Block.iter_status iiter else s in
  Ok (s, saved, cache).

Definition ApproximateOffsetOf (t : Rep) (key : bytes) : res fault Z :=
  let! index_iter := Block.NewIterator (index_block t) in
  let! index_iter := Block.iter_Seek index_iter key in
  if Block.iter_Valid index_iter then
    let! input := Block.iter_value index_iter in
    let '(s, handle, _) := BlockHandle.DecodeFrom BlockHandle.new input in
    if ok s then Ok (BlockHandle.offset_ handle)
    else Ok (BlockHandle.offset_ (metaindex_handle t))
  else Ok (BlockHandle.offset_ (metaindex_handle t)).

End Table.
End Table.
