(* ===== verification/TableReader.v ===== *)
(** Opened tables.

    An opened table with a file that is a table of [es], with or without a block
    cache: [BlockReader] opens each data block, and so the two-level iterator of
    the table ranges over [es]. *)
From S2P Require Import Prelude Bytes Coding Crc32c Block Iterator BlockSpec BlockIter TwoLevel Format TableBuilder TableSpec TableBuild Table.

Section TableReader.
Context {bo : ByteOrder} {pl : CrcPlatform} {sn : Snappy}.
Context {F : Type} {raf : RandomAccessFile F} {contents : F -> bytes}.
Context {C H : Type} {bc : BlockCache C H} {holds : (bytes -> Block.t -> Prop) -> C -> list H -> Prop}.
Context `{!Crc32c.CrcLaws, !SnappyLaws, !ReadableFile F contents, !BlockCacheLaws C H holds}.

(** An opened block of the entries. *)
Definition opens (b : Block.t) (es : list kv) : Prop :=
  0 <= Block.size_ b < 2 ^ 32 /\
  exists I, Block.NewIterator b = Ok I /\ at_block es (length es) I.

Lemma open_data (file : F) (h : BlockHandle.t) (es : list kv) :
  data_at (contents file) h es -> sorted_entries es ->
  exists c b, ReadBlock file h = Ok (OkStatus, c) /\ Block.new (contents_data c) = Ok b /\ opens b es.
Proof.
  intros (raw & Hb & Hst) Hs. destruct (ReadBlock_stored file h raw Hst) as (c & Hc & Hd).
  destruct (open_block es raw Hb Hs) as (b & I & Hnew & HI & Hat).
  exists c, b. rewrite Hd. split; [done|]. split; [done|]. split; [|by exists I].
  pose proof (block_of_size _ _ Hb). pose proof (size_nonneg raw).
  assert (Block.size_ b = 0 \/ Block.size_ b = size raw) as [-> | ->]; [clear -Hnew|lia|lia].
  unfold Block.new in Hnew. case_if_in Hnew; [injection Hnew as <-; by left|].
  destruct (Block.num_restarts raw (size raw)) as [m|]; cbn [res_bind] in Hnew; [|done].
  case_if_in Hnew; injection Hnew as <-; auto.
Qed.

Lemma omap_length_le {A B : Type} (f : A -> option B) (l : list A) : (length (omap f l) <= length l)%nat.
Proof. induction l as [|a l IH]; cbn; [done|]. destruct (f a); cbn; lia. Qed.

Section Opened.
Context (file : F) (bs : list iblock) (index_handle : BlockHandle.t) (t : Table.Rep (F := F)).
Context (Hindex : table_index (block_entries bs) bs (contents file) index_handle).
Context (Hfile : Table.file t = file) (Hid : in_u64 (Table.cache_id t)).
Context (Hopen : opens (Table.index_block t) (map index_entry bs)).
Context (M0 : bytes -> Block.t -> Prop).
Context (Hfresh : forall k b off, M0 k b -> k <> Table.cache_key (Table.cache_id t) off).
Context (others : list (option H)) (Hothers : Z.of_nat (length others) < 2 ^ 30).

Abbreviation es := (block_entries bs).
Abbreviation idx := (map index_entry bs).
Abbreviation blks := (map entries bs).

(** What the cache may hold: other clients' blocks, and blocks of the table. *)
Definition meaning (k : bytes) (b : Block.t) : Prop :=
  M0 k b \/
  exists B, B ∈ bs /\ k = Table.cache_key (Table.cache_id t) (block_offset B) /\ opens b (entries B).

Definition live (cache : option C) (tokens : list (option H)) : Prop :=
  match cache with
  | None => True
  | Some c => holds meaning c (omap id tokens)
  end.

Lemma iblock_facts (j : nat) (B : iblock) :
  bs !! j = Some B ->
  iblock_ok (contents file) B /\ sorted_entries (entries B) /\ BlockHandle.in_range (handle B).
Proof.
  destruct Hindex as (_ & Hsort & Hok & _). intros HB.
  assert (iblock_ok (contents file) B) as HBok by (by eapply Forall_lookup_1).
  split; [done|]. split.
  - apply list_elem_of_lookup_2, list_elem_of_split in HB as (b1 & b2 & Hbs). rewrite Hbs, block_entries_app in Hsort.
    change (block_entries (B :: b2)) with (entries B ++ block_entries b2) in Hsort.
    apply sorted_entries_app in Hsort as (_ & Hsort & _). by apply sorted_entries_app in Hsort as (? & _).
  - destruct HBok as (_ & (raw & _ & Hst) & _). by eapply stored_range.
Qed.

Lemma same_offset (i j : nat) (A B : iblock) :
  bs !! i = Some A -> bs !! j = Some B -> block_offset A = block_offset B -> i = j.
Proof.
  intros HA HB Heq. destruct Hindex as (_ & _ & _ & _ & Hoffs & _).
  assert (forall i j A B, bs !! i = Some A -> bs !! j = Some B -> (i < j)%nat ->
    block_offset A < block_offset B) as Hlt.
  { intros ???? Hx Hy. apply (sorted_lt_lookup _ _ _ _ _ Hoffs); by rewrite list_lookup_fmap, ?Hx, ?Hy. }
  destruct (Nat.lt_total i j) as [Hij|[?|Hij]]; [|done|].
  - specialize (Hlt _ _ _ _ HA HB Hij). lia.
  - specialize (Hlt _ _ _ _ HB HA Hij). lia.
Qed.

Lemma cache_key_inj (id a b : Z) :
  in_u64 a -> in_u64 b -> Table.cache_key id a = Table.cache_key id b -> a = b.
Proof.
  unfold Table.cache_key. rewrite !Coding.EncodeFixed64_le. intros Ha Hb [_ Heq]%app_inj_1; [|done].
  rewrite <- (le_value_bytes 8 a), <- (le_value_bytes 8 b) by done. by rewrite Heq.
Qed.

(** [BlockReader] of a value of the index. *)
Lemma BlockReader_open (cache : option C) (tokens : list (option H)) (j : nat) (B : iblock) :
  live cache tokens -> (length tokens <= S (length others))%nat -> bs !! j = Some B ->
  exists I token cache', Table.BlockReader t cache (BlockHandle.EncodeTo (handle B) []) = Ok (I, token, cache') /\
    at_block (entries B) (length (entries B)) I /\ live cache' (token :: tokens).
Proof.
  intros Hl Hlen HB. destruct (iblock_facts j B HB) as ((_ & Hat & _) & Hsort & Hr).
  assert (few_handles (omap id tokens)) as Hfew.
  { unfold few_handles. pose proof (omap_length_le id tokens). lia. }
  destruct (open_data file (handle B) (entries B) Hat Hsort) as (c & b & Hread & Hnew & Hop).
  unfold Table.BlockReader. rewrite <- (app_nil_r (BlockHandle.EncodeTo _ _)).
  rewrite BlockHandle.handle_decodes by done. cbn [ok]. rewrite Hfile.
  pose proof Hop as (Hsz & I & HI & HatI).
  destruct cache as [ca|].
  - fold (block_offset B). set (key := Table.cache_key (Table.cache_id t) (block_offset B)).
    destruct (cache_Lookup ca key) as [[h|] ca'] eqn:El.
    + destruct (cache_Lookup_hit _ _ _ _ _ _ Hl Hfew El) as [Hl' HM].
      destruct HM as [HM|(B' & HB' & Hk & Hop')]; [by destruct (Hfresh _ _ (block_offset B) HM)|].
      apply list_elem_of_lookup in HB' as (j' & HB').
      assert (block_offset B = block_offset B') as Hoff.
      { destruct (iblock_facts j' B' HB') as (_ & _ & [Hr' _]). destruct Hr as [Hr _].
        by apply (cache_key_inj (Table.cache_id t)). }
      pose proof (same_offset _ _ _ _ HB HB' Hoff) as <-. rewrite HB in HB'. injection HB' as <-.
      destruct Hop' as (_ & I' & HI' & HatI'). cbn [res_bind]. rewrite HI'. cbn [res_bind]. by do 3 eexists.
    + apply (cache_Lookup_miss _ _ _ _ _ Hl Hfew) in El. rewrite Hread. cbn [res_bind ok]. rewrite Hnew.
      cbn [res_bind]. destruct (cache_Insert ca' key b (Block.size_ b)) as [h ca''] eqn:Ei.
      eapply cache_Insert_holds in Ei as [Hl' _]; [|exact El|exact Hfew| |done].
      * cbn [res_bind]. rewrite HI. cbn [res_bind]. by do 3 eexists.
      * right. exists B. split_and!; [by eapply list_elem_of_lookup_2|done|done].
  - rewrite Hread. cbn [res_bind ok]. rewrite Hnew. cbn [res_bind]. rewrite HI. cbn [res_bind].
    by do 3 eexists.
Qed.

Lemma separated_le (l : list iblock) (rest : list kv) (j : nat) (B : iblock) (e : kv) :
  separated l rest -> l !! j = Some B -> e ∈ entries B -> le_str e.1 (sep B) = true.
Proof.
  revert j. induction l as [|b l IH]; intros [|j] Hs HB He; try done; destruct Hs as (Hle & _ & Hs).
  - injection HB as <-. rewrite Forall_forall in Hle. by apply Hle.
  - by eapply IH.
Qed.

Lemma separated_lt (l : list iblock) (rest : list kv) (i j : nat) (A B : iblock) (e : kv) :
  separated l rest -> l !! i = Some A -> l !! j = Some B -> (i < j)%nat -> e ∈ entries B ->
  lt_bytes (sep A) e.1 = true.
Proof.
  revert i j. induction l as [|b l IH]; intros i j Hs HA HB Hij He; [done|].
  destruct Hs as (_ & Hlt & Hs). destruct i as [|i], j as [|j]; try lia; cbn in HA, HB.
  - injection HA as <-. rewrite Forall_forall in Hlt. apply Hlt. apply elem_of_app. left.
    apply list_elem_of_lookup_2, list_elem_of_split in HB as (l1 & l2 & ->). rewrite block_entries_app.
    change (block_entries (B :: l2)) with (entries B ++ block_entries l2). set_solver.
  - eapply (IH i j); [done|done|done|lia|done].
Qed.

Lemma lookup_idx (j : nat) (sp h : bytes) :
  idx !! j = Some (sp, h) ->
  exists B, bs !! j = Some B /\ sp = sep B /\ h = BlockHandle.EncodeTo (handle B) [].
Proof.
  rewrite list_lookup_fmap. destruct (bs !! j) as [B|] eqn:HB; [|done]. intros [= <- <-]. by exists B.
Qed.

Lemma lookup_blks (j : nat) (b : list kv) :
  blks !! j = Some b -> exists B, bs !! j = Some B /\ b = entries B.
Proof. rewrite list_lookup_fmap. destruct (bs !! j) as [B|] eqn:HB; [|done]. intros [= <-]. by exists B. Qed.

Lemma live_release (cache : option C) (a : list (option H)) (token : option H) (d : list (option H)) :
  live cache (a ++ token :: d) -> live (Table.DeleteIterator cache token) (a ++ d).
Proof.
  destruct cache as [c|], token as [h|]; cbn; try done; rewrite !omap_app; cbn; [|done].
  apply cache_Release_holds.
Qed.

(** The index and the blocks are as the two-level iterator wants them. *)
#[local] Instance table_two_level :
  TwoLevelIndex (Table.BlockReader t) Table.DeleteIterator (Table.index_fuel t)
    (at_j := at_block) idx blks live others.
Proof.
  pose proof Hindex as (_ & Hsort & Hok & Hsep & _). split.
  - by rewrite !length_map.
  - intros b (B & -> & HB)%list_elem_of_fmap. rewrite Forall_forall in Hok. by apply Hok in HB as (? & _).
  - exact Hsort.
  - intros j sp h b e Hi Hb He. apply lookup_idx in Hi as (B & HB & -> & _).
    apply lookup_blks in Hb as (B' & HB' & ->). rewrite HB in HB'. injection HB' as <-.
    by eapply separated_le.
  - intros j j' sp h b e Hi Hb He Hlt. apply lookup_idx in Hi as (A & HA & -> & _).
    apply lookup_blks in Hb as (B & HB & ->). by eapply separated_lt.
  - intros j j' s s' h b b' Hi Hi' Hb Hb'.
    apply lookup_idx in Hi as (A & HA & _ & HhA). apply lookup_idx in Hi' as (B & HB & _ & HhB).
    destruct (iblock_facts j A HA) as (_ & _ & HrA). destruct (iblock_facts j' B HB) as (_ & _ & HrB).
    assert (handle A = handle B) as Hh.
    { pose proof (BlockHandle.handle_decodes (handle A) BlockHandle.new [] HrA) as E1.
      pose proof (BlockHandle.handle_decodes (handle B) BlockHandle.new [] HrB) as E2.
      rewrite <- HhA, HhB, E2 in E1. congruence. }
    pose proof (same_offset _ _ _ _ HA HB ltac:(unfold block_offset; by rewrite Hh)) as ->. congruence.
  - intros e ts j s h b Hl Hlen Hi Hb. apply lookup_idx in Hi as (B & HB & _ & ->).
    apply lookup_blks in Hb as (B' & HB' & ->). rewrite HB in HB'. injection HB' as <-.
    by eapply BlockReader_open.
  - apply live_release.
  - unfold Table.index_fuel. lia.
Qed.

(** The iterator over the table, while other clients hold the handles [others]. *)
Definition at_table : list kv -> nat -> Table.table_iter (C := C) (H := H) -> Prop :=
  at_two (at_i := at_block) (at_j := at_block) idx blks live others.

#[local] Instance table_iter_laws :
  IterLaws Table.table_iter (ops := Table.table_iter_ops t) at_table.
Proof. apply two_level_laws; apply _. Qed.

Lemma NewIterator_at (cache : option C) :
  live cache others ->
  exists it, Table.NewIterator t cache = Ok it /\ at_table es (length es) it.
Proof.
  intros Hl. destruct Hopen as (_ & I & HI & Hat). unfold Table.NewIterator. rewrite HI. cbn [res_bind].
  eexists. split; [done|]. apply (NewTwoLevelIterator_at idx blks live others); [|done].
  exact Hat.
Qed.

(** The index iterator after [Seek]: at the first block whose key in the index
    is not below the target. *)
Lemma index_Seek (k : bytes) :
  exists I I', Block.NewIterator (Table.index_block t) = Ok I /\ Block.iter_Seek I k = Ok I' /\
    at_block idx (lower_bound k idx) I'.
Proof.
  destruct Hopen as (_ & I & HI & Hat). destruct (at_Seek _ _ _ k Hat) as (I' & HI' & Hat').
  by exists I, I'.
Qed.

(** A key of the table is in the block that the index gives for it. *)
Lemma present_key (k v : bytes) :
  (k, v) ∈ es -> exists B, bs !! lower_bound k idx = Some B /\ (k, v) ∈ entries B.
Proof.
  intros Hin. set (j := lower_bound k idx).
  apply (concat_elem O) in Hin as (j' & b & (B' & HB' & ->)%lookup_blks & Hin).
  pose proof Hindex as (_ & _ & _ & Hsep & _). destruct (Nat.lt_total j' j) as [Hlt|[->|Hgt]].
  - assert (lt_bytes (sep B') k = true) as Hk.
    { apply (lower_bound_before k idx j' (index_entry B')); [done|]. by rewrite list_lookup_fmap, HB'. }
    pose proof (separated_le _ _ _ _ _ Hsep HB' Hin) as Hle. cbn in Hle.
    pose proof (lt_le_str_trans _ _ _ Hk Hle) as Hkk. by rewrite lt_bytes_irrefl in Hkk.
  - by exists B'.
  - assert (j < length bs)%nat as Hj by (apply lookup_lt_Some in HB'; lia).
    destruct (lookup_lt_is_Some_2 _ _ Hj) as [B HB].
    pose proof (separated_lt _ _ _ _ _ _ _ Hsep HB HB' Hgt Hin) as Hlt. cbn in Hlt.
    pose proof (lower_bound_at k idx (index_entry B)) as Hat.
    rewrite list_lookup_fmap in Hat. fold j in Hat. rewrite HB in Hat. cbn in Hat. by rewrite Hat in Hlt.
Qed.

Lemma absent_key (k v : bytes) (B : iblock) :
  bs !! lower_bound k idx = Some B -> lower_bound k (entries B) = length (entries B) -> (k, v) ∉ es.
Proof.
  intros HB Hall (B' & HB' & Hin)%present_key. rewrite HB in HB'. injection HB' as <-.
  apply lower_bound_all in Hall. rewrite Forall_forall in Hall. specialize (Hall _ Hin). cbn in Hall.
  by rewrite lt_bytes_irrefl in Hall.
Qed.

Lemma InternalGet_spec (cache : option C) (k : bytes) :
  live cache others ->
  exists saved cache', Table.InternalGet t cache k = Ok (OkStatus, saved, cache') /\ live cache' others /\
    (saved = es !! lower_bound k es \/ saved = None /\ forall v, (k, v) ∉ es).
Proof.
  intros Hl. destruct (index_Seek k) as (I & I' & HI & HI' & Hat). unfold Table.InternalGet.
  rewrite HI. cbn [res_bind]. rewrite HI'. cbn [res_bind].
  change (Block.iter_Valid I') with (it_Valid I'). change (Block.iter_value I') with (it_value I').
  change (Block.iter_status I') with (it_status I').
  rewrite (at_Valid _ _ _ Hat), (at_status _ _ _ Hat). set (j := lower_bound k idx) in *.
  case_bool_decide as Hj.
  - destruct (lookup_lt_is_Some_2 _ _ Hj) as [[sp h] He].
    destruct (at_entry _ _ _ _ _ Hat He) as [_ ->]. apply lookup_idx in He as (B & HB & -> & ->). cbn [res_bind].
    destruct (BlockReader_open cache others j B Hl ltac:(lia) HB) as (D & token & cache' & -> & HatD & Hl'). cbn [res_bind].
    destruct (at_Seek _ _ _ k HatD) as (D' & HD' & HatD'). change (Block.iter_Seek D k) with (it_Seek D k).
    rewrite HD'. cbn [res_bind]. change (Block.iter_Valid D') with (it_Valid D').
    change (Block.iter_value D') with (it_value D'). change (Block.iter_status D') with (it_status D').
    change (Block.iter_key D') with (it_key D').
    rewrite (at_Valid _ _ _ HatD'), (at_status _ _ _ HatD').
    pose proof (live_release cache' [] token others Hl') as Hrel.
    assert (blks !! j = Some (entries B)) as Hblk by (by rewrite list_lookup_fmap, HB).
    case_bool_decide as Hk.
    + destruct (lookup_lt_is_Some_2 _ _ Hk) as [[k' v'] He'].
      destruct (at_entry _ _ _ _ _ HatD' He') as [-> ->]. cbn [res_bind ok]. do 2 eexists. split; [done|].
      split; [exact Hrel|]. left. unfold block_entries.
      rewrite (lower_bound_blocks (Table.BlockReader t) Table.DeleteIterator (Table.index_fuel t) idx blks live others k j (entries B)) by done.
      symmetry. by apply (entry_lookup _ _ _ (entries B)).
    + cbn [res_bind ok]. do 2 eexists. split; [done|]. split; [exact Hrel|]. right. split; [done|].
      intros v. apply (absent_key _ _ B); [done|]. pose proof (lower_bound_le k (entries B)). lia.
  - cbn [res_bind ok]. do 2 eexists. split; [done|]. split; [done|]. left.
    unfold block_entries.
    rewrite (lower_bound_all_blocks (Table.BlockReader t) Table.DeleteIterator (Table.index_fuel t) idx blks live others).
    + symmetry. apply lookup_ge_None. lia.
    + pose proof (lower_bound_le k idx). fold j. lia.
Qed.

(** The offset of the block that would have the key, of the meta block when the
    key is past the last block. *)
Lemma ApproximateOffsetOf_spec (k : bytes) :
  Table.ApproximateOffsetOf t k =
    Ok (match bs !! lower_bound k idx with
        | Some B => block_offset B
        | None => BlockHandle.offset_ (Table.metaindex_handle t)
        end).
Proof.
  destruct (index_Seek k) as (I & I' & HI & HI' & Hat). unfold Table.ApproximateOffsetOf.
  rewrite HI. cbn [res_bind]. rewrite HI'. cbn [res_bind].
  change (Block.iter_Valid I') with (it_Valid I'). change (Block.iter_value I') with (it_value I').
  rewrite (at_Valid _ _ _ Hat). set (j := lower_bound k idx) in *. case_bool_decide as Hj.
  - destruct (lookup_lt_is_Some_2 _ _ Hj) as [[sp h] He].
    destruct (at_entry _ _ _ _ _ Hat He) as [_ ->]. apply lookup_idx in He as (B & HB & -> & ->). cbn [res_bind].
    destruct (iblock_facts j B HB) as (_ & _ & Hr). rewrite HB, <- (app_nil_r (BlockHandle.EncodeTo _ _)).
    rewrite BlockHandle.handle_decodes by done. done.
  - rewrite length_map in Hj. by rewrite (proj2 (lookup_ge_None bs j)) by lia.
Qed.

(** A block that comes later in the index comes later in the file. *)
Lemma offsets_ordered (k k' : bytes) (last : Z) :
  le_str k k' = true -> Forall (fun b => block_offset b < last) bs ->
  from_option block_offset last (bs !! lower_bound k idx) <=
    from_option block_offset last (bs !! lower_bound k' idx) <= last.
Proof.
  intros Hle Hlast. pose proof (lower_bound_mono k k' idx Hle) as Hj. rewrite Forall_forall in Hlast.
  assert (forall j B, bs !! j = Some B -> block_offset B < last) as Hb
    by (intros; eapply Hlast, list_elem_of_lookup_2; done).
  pose proof Hindex as (_ & _ & _ & _ & Hoffs & _).
  destruct (bs !! lower_bound k' idx) as [B'|] eqn:HB'; cbn.
  - assert (lower_bound k idx < length bs)%nat as Hl by (apply lookup_lt_Some in HB'; lia).
    destruct (lookup_lt_is_Some_2 _ _ Hl) as [B HB]. rewrite HB. cbn.
    pose proof (Hb _ _ HB'). split; [|lia].
    destruct (decide (lower_bound k idx = lower_bound k' idx)) as [Heq|Hne].
    { rewrite Heq, HB' in HB. injection HB as <-. lia. }
    apply Z.lt_le_incl. apply (sorted_lt_lookup _ (lower_bound k idx) (lower_bound k' idx) _ _ Hoffs);
      [by rewrite list_lookup_fmap, HB|by rewrite list_lookup_fmap, HB'|lia].
  - split; [|lia]. destruct (bs !! lower_bound k idx) as [B|] eqn:HB; cbn; [|lia].
    pose proof (Hb _ _ HB). lia.
Qed.

End Opened.
End TableReader.
