(* ===== verification/TableTheorems.v ===== *)
(** What tables promise.

    A file that is a table of [es] opens, with or without a block cache, and
    the iterator and the lookups of the opened table behave like the list
    [es]. *)
From S2P Require Import Prelude Bytes Coding Crc32c Block Iterator BlockSpec BlockIter TwoLevel Format TableBuilder TableSpec TableBuild Table TableReader.

Section TableTheorems.
Context {bo : ByteOrder} {pl : CrcPlatform} {sn : Snappy}.
Context {F : Type} {raf : RandomAccessFile F} {contents : F -> bytes}.
Context {W : Type} {wf : WritableFile W} {written : W -> bytes}.
Context {C H : Type} {bc : BlockCache C H} {holds : (bytes -> Block.t -> Prop) -> C -> list H -> Prop}.
Context `{!Crc32c.CrcLaws, !SnappyLaws, !ReadableFile F contents, !AppendingFile W written,
  !BlockCacheLaws C H holds}.

(** No cache (then [M] is empty), or one whose other clients hold [hs], have
    not too many blocks in it and none under the identifier it will give next. *)
Definition cache_ready (M : bytes -> Block.t -> Prop) (cache : option C) (hs : list (option H)) : Prop :=
  Z.of_nat (length hs) < 2 ^ 30 /\
  match cache with
  | None => forall k b, ~ M k b
  | Some c =>
      holds M c (omap id hs) /\ keys_within M (2 ^ 30) /\
      forall k b id c' off, cache_NewId c = (id, c') -> M k b -> k <> Table.cache_key id off
  end.

(** What [Open] makes of a table. *)
Definition opened (bs : list iblock) (meta : BlockHandle.t) (file : F) (M : bytes -> Block.t -> Prop)
    (t : Table.Rep (F := F)) (cache : option C) (hs : list (option H)) : Prop :=
  Table.file t = file /\ in_u64 (Table.cache_id t) /\ Table.metaindex_handle t = meta /\
  opens (Table.index_block t) (map index_entry bs) /\
  (forall k b off, M k b -> k <> Table.cache_key (Table.cache_id t) off) /\
  Z.of_nat (length hs) < 2 ^ 30 /\ live (holds := holds) bs t M cache hs.

Lemma Open_table (cache : option C) (M : bytes -> Block.t -> Prop) (hs : list (option H)) (file : F)
    (bs : list iblock) (meta index : BlockHandle.t) (body : bytes) :
  cache_ready M cache hs -> table_index (block_entries bs) bs (contents file) index ->
  BlockHandle.in_range meta -> contents file = body ++ Footer.EncodeTo (Footer.mk meta index) [] ->
  exists t cache', Table.Open cache file (size (contents file)) = Ok (OkStatus, Some t, cache') /\
    opened bs meta file M t cache' hs.
Proof.
  intros [Hhs Hready] Hindex Hmeta Hf. pose proof Hindex as (_ & _ & Hok & Hsep & _ & Hat & Hn).
  pose proof Hat as (raw & _ & Hst). pose proof (stored_range _ _ _ Hst) as Hr.
  set (foot := Footer.mk meta index) in *.
  assert (size (Footer.EncodeTo foot []) = Footer.kEncodedLength) as Hfs
    by (by apply Footer.EncodeTo_size).
  unfold Table.Open. rewrite Hf, size_app, Hfs.
  pose proof (size_nonneg body). destruct (Z.ltb_spec (size body + Footer.kEncodedLength) Footer.kEncodedLength); [lia|].
  replace (size body + Footer.kEncodedLength - Footer.kEncodedLength) with (size body) by lia.
  destruct (file_Read_spec file (size body) Footer.kEncodedLength (Footer.EncodeTo foot [])) as (scratch & ->).
  { rewrite Hf. pose proof (sub_app body (Footer.EncodeTo foot []) []) as Hsub. rewrite app_nil_r in Hsub.
    by apply Hsub. }
  cbn [ok negb]. rewrite <- (app_nil_r (Footer.EncodeTo foot [])).
  rewrite Footer.DecodeFrom_EncodeTo by (done || constructor).
  cbn [res_bind ok negb foot Footer.index_handle_ Footer.metaindex_handle_].
  destruct (open_data file index _ Hat (index_sorted _ _ _ Hok Hsep)) as (c & b & -> & Hnew & Hop).
  cbn [res_bind ok]. rewrite Hnew. cbn [res_bind]. destruct cache as [c0|].
  - destruct Hready as (Hholds & (ks & Hks & Hin) & Hfresh). destruct (cache_NewId c0) as [id c1] eqn:Eid.
    destruct (cache_NewId_holds _ _ _ _ _ Hholds Eid) as [Hh1 Hid].
    do 2 eexists. do 5 (split; [done|]). split.
    + intros k b0 off. by apply (Hfresh k b0 id c1).
    + split; [done|]. cbn. eapply cache_holds_weaken; [exact Hh1|by left|].
      exists (ks ++ map (fun B => Table.cache_key id (block_offset B)) bs).
      rewrite length_app, length_map. split; [lia|]. intros k b' [HM|(B & HB & -> & _)]; apply elem_of_app.
      * left. by eapply Hin.
      * right. by apply (list_elem_of_fmap_2 (fun B => Table.cache_key id (block_offset B))).
  - do 2 eexists. do 5 (split; [done|]). split; [|done]. intros k b0 off HM. by destruct (Hready k b0).
Qed.

(** A table opens. *)
Lemma table_file_opens (cache : option C) (M : bytes -> Block.t -> Prop) (hs : list (option H)) (file : F)
    (es : list kv) :
  table_file es (contents file) -> cache_ready M cache hs ->
  exists t cache' bs meta index, Table.Open cache file (size (contents file)) = Ok (OkStatus, Some t, cache') /\
    opened bs meta file M t cache' hs /\ es = block_entries bs /\
    table_index (block_entries bs) bs (contents file) index /\
    Forall (fun b => block_offset b < BlockHandle.offset_ meta) bs.
Proof.
  intros (bs & meta & index & Hindex & Hmeta & Hoffs & body & Hbody) Hready.
  pose proof Hindex as (-> & _).
  destruct (Open_table cache M hs file bs meta index body Hready Hindex Hmeta Hbody) as (t & cache' & ? & ?).
  by exists t, cache', bs, meta, index.
Qed.

(** C22: a table that was built reads back.  Whatever sorted entries are added,
    building the table returns, and unless the file refused a write, opening
    what was written (with or without a block cache that other clients share)
    succeeds; the iterator of the table visits exactly the entries that were
    added, in order, from the first one after [SeekToFirst] and from the first
    key at or after the target after [Seek], and ends with status OK. *)
Theorem table_round_trip (opt : Options) (wfile : W) (file : F) (es : list kv)
    (cache : option C) (M : bytes -> Block.t -> Prop) (hs : list (option H)) :
  1 <= block_restart_interval opt -> written wfile = [] -> Forall kv_ok es -> sorted_entries es ->
  table_bound es + 8 < 2 ^ 32 -> cache_ready M cache hs ->
  exists r, build_table opt wfile es = Ok (r, TableBuilder.status r) /\
    (TableBuilder.status r = OkStatus -> contents file = written (TableBuilder.file r) ->
     exists t cache' it, Table.Open cache file (size (contents file)) = Ok (OkStatus, Some t, cache') /\
       Table.NewIterator t cache' = Ok it /\
       (exists it', it_SeekToFirst (IterOps := Table.table_iter_ops t) it = Ok it' /\
          drain (ops := Table.table_iter_ops t) (length es) it' = Ok (es, OkStatus)) /\
       forall target, exists it', it_Seek (IterOps := Table.table_iter_ops t) it target = Ok it' /\
         drain (ops := Table.table_iter_ops t) (length es) it' =
           Ok (drop (lower_bound target es) es, OkStatus)).
Proof.
  intros Hi Hw Hkv Hs Hb Hready. destruct (build_table_spec opt wfile es Hi Hw Hkv Hs Hb) as (r & Hbuild & Hr).
  exists r. split; [done|]. intros Hst Hf. specialize (Hr Hst). rewrite <- Hf in Hr.
  destruct (table_file_opens cache M hs file es Hr Hready)
    as (t & cache' & bs & meta & index & Hopen & (Hfile & Hid & _ & Hix & Hfresh & Hhs & Hlive) & -> & Hindex & _).
  pose proof (table_iter_laws file bs index t Hindex Hfile Hid Hix M Hfresh hs Hhs) as Hlaws.
  destruct (NewIterator_at bs t Hix M hs cache' Hlive) as (it & Hit & Hat).
  exists t, cache', it. do 2 (split; [done|]). split.
  - destruct (at_SeekToFirst (IterLaws := Hlaws) _ _ _ Hat) as (it' & Hit' & Hat'). exists it'. split; [done|].
    rewrite (drain_at (laws := Hlaws) _ O _ _ Hat') by lia. by rewrite drop_0.
  - intros target. destruct (at_Seek (IterLaws := Hlaws) _ _ _ target Hat) as (it' & Hit' & Hat'). exists it'. split; [done|].
    by rewrite (drain_at (laws := Hlaws) _ _ _ _ Hat') by lia.
Qed.

(** C23: lookups are exact.  In a table of the entries [es], opened with or
    without a block cache, [InternalGet] of a key returns status OK, and either
    saves the first entry whose key is not below it, which is the entry of the
    key whenever the table has one, or saves nothing, and then the table has no
    entry of the key; every cache handle it took is released. *)
Theorem get_exact (file : F) (es : list kv) (cache : option C) (M : bytes -> Block.t -> Prop)
    (hs : list (option H)) (k : bytes) :
  table_file es (contents file) -> cache_ready M cache hs ->
  exists t cache' saved cache'' M',
    Table.Open cache file (size (contents file)) = Ok (OkStatus, Some t, cache') /\
    Table.InternalGet t cache' k = Ok (OkStatus, saved, cache'') /\
    match cache'' with None => True | Some c => holds M' c (omap id hs) end /\
    (saved = es !! lower_bound k es \/ saved = None /\ forall v, (k, v) ∉ es) /\
    forall v, (k, v) ∈ es -> saved = Some (k, v).
Proof.
  intros Hf Hready. destruct (table_file_opens cache M hs file es Hf Hready)
    as (t & cache' & bs & meta & index & Hopen & (Hfile & Hid & _ & Hix & Hfresh & Hhs & Hlive) & -> & Hindex & _).
  destruct (InternalGet_spec file bs index t Hindex Hfile Hid Hix M Hfresh hs Hhs cache' k Hlive)
    as (saved & cache'' & Hget & Hlive' & Hsaved).
  exists t, cache', saved, cache'', (meaning bs t M). do 4 (split; [done|]).
  intros v Hin. destruct Hsaved as [->|[_ Hno]]; [|by destruct (Hno v)].
  apply lower_bound_present; [apply Hindex|done].
Qed.

(** Approximate offsets are ordered and exact.  [ApproximateOffsetOf]
    returns for a key of the table the offset of the data block that has its
    entry, and it never decreases from a key to a larger one, up to the offset
    of the meta block for keys past the last one. *)
Theorem approximate_offsets (file : F) (es : list kv) (cache : option C) (M : bytes -> Block.t -> Prop)
    (hs : list (option H)) (k k' : bytes) :
  table_file es (contents file) -> cache_ready M cache hs -> le_str k k' = true ->
  exists t cache' o o',
    Table.Open cache file (size (contents file)) = Ok (OkStatus, Some t, cache') /\
    Table.ApproximateOffsetOf t k = Ok o /\ Table.ApproximateOffsetOf t k' = Ok o' /\
    o <= o' <= BlockHandle.offset_ (Table.metaindex_handle t) /\
    forall v, (k, v) ∈ es -> exists n block, data_at (contents file) (BlockHandle.mk o n) block /\ (k, v) ∈ block.
Proof.
  intros Hf Hready Hle. destruct (table_file_opens cache M hs file es Hf Hready)
    as (t & cache' & bs & meta & index & Hopen & (Hfile & Hid & Hm & Hix & Hfresh & Hhs & Hlive) & -> & Hindex & Hmo).
  do 4 eexists. split; [done|].
  split; [exact (ApproximateOffsetOf_spec file bs index t Hindex Hix hs k)|].
  split; [exact (ApproximateOffsetOf_spec file bs index t Hindex Hix hs k')|].
  rewrite Hm. split; [exact (offsets_ordered file bs index Hindex hs k k' _ Hle Hmo)|].
  intros v Hin. destruct (present_key file bs index t Hindex Hfile Hid Hix M Hfresh hs Hhs k v Hin) as (B & HB & HinB).
  destruct (iblock_facts file bs index Hindex _ B HB) as ((_ & Hat & _) & _). rewrite HB.
  exists (BlockHandle.size_ (handle B)), (entries B). unfold block_offset. by destruct (handle B).
Qed.

End TableTheorems.

(** ** A table in memory, read through a cache *)

Section Sample.
#[local] Instance sample_order : ByteOrder := true.
#[local] Instance sample_platform : CrcPlatform := Crc32c.software 0.
#[local] Existing Instances no_snappy memory_file memory_writer map_cache no_snappy_laws
  memory_file_readable memory_writer_appends map_cache_laws.
#[local] Instance sample_crc : Crc32c.CrcLaws := Crc32c.software_laws 0 ltac:(lia).

Definition sample_entries : list kv := [([1; 2], [7]); ([1; 3], []); ([2], [8; 8]); ([9; 9], [1])].

(** Two entries fill a block. *)
Definition sample_options : Options := mkOptions 18 1 kNoCompression.

Definition sample_builder : TableBuilder.Rep :=
  match build_table sample_options [] sample_entries with
  | Ok (r, _) => r
  | Err _ => TableBuilder.new sample_options []
  end.

Definition sample_table : bytes := TableBuilder.file sample_builder.

Definition sample_cache : option (Z * list (bytes * Block.t)) := Some (41, []).

Definition no_blocks (k : bytes) (b : Block.t) : Prop := False.

Lemma sample_ready : cache_ready (holds := map_cache_holds) no_blocks sample_cache [].
Proof. split; [done|]. split; [constructor|]. split; [by exists []|done]. Qed.

Lemma sample_entries_ok :
  Forall kv_ok sample_entries /\ sorted_entries sample_entries /\ table_bound sample_entries + 8 < 2 ^ 32.
Proof.
  split; [repeat constructor; vm_compute; (reflexivity || discriminate)|].
  split; [repeat constructor|vm_compute; reflexivity].
Qed.

Lemma ok_pair_inj {E A B : Type} (a c : A) (b d : B) : Ok (E := E) (a, b) = Ok (c, d) -> a = c /\ b = d.
Proof. by intros [= -> ->]. Qed.

Lemma sample_built : build_table sample_options [] sample_entries = Ok (sample_builder, OkStatus).
Proof. vm_compute. reflexivity. Qed.

#[local] Opaque sample_builder.

Lemma table_round_trip_witness :
  exists t cache' it it',
    Table.Open sample_cache sample_table (size sample_table) = Ok (OkStatus, Some t, cache') /\
    Table.NewIterator t cache' = Ok it /\
    it_SeekToFirst (IterOps := Table.table_iter_ops t) it = Ok it' /\
    drain (ops := Table.table_iter_ops t) 4 it' = Ok (sample_entries, OkStatus).
Proof.
  destruct (table_round_trip (contents := id) (written := id) (holds := map_cache_holds)
    sample_options [] sample_table sample_entries sample_cache no_blocks []
    ltac:(done) eq_refl (proj1 sample_entries_ok) (proj1 (proj2 sample_entries_ok))
    (proj2 (proj2 sample_entries_ok)) sample_ready) as (r & Hb & Hr).
  pose proof (eq_trans (eq_sym sample_built) Hb) as Heq. apply ok_pair_inj in Heq as [<- Hst].
  destruct (Hr (eq_sym Hst) eq_refl) as (t & cache' & it & Hopen & Hnew & (it' & Hit & Hd) & _).
  exists t, cache', it, it'. exact (conj Hopen (conj Hnew (conj Hit Hd))).
Defined.

Lemma sample_is_table : table_file sample_entries sample_table.
Proof.
  destruct (build_table_spec (written := id) sample_options [] sample_entries ltac:(done) eq_refl
    (proj1 sample_entries_ok) (proj1 (proj2 sample_entries_ok)) (proj2 (proj2 sample_entries_ok)))
    as (r & Hb & Hr).
  pose proof (eq_trans (eq_sym sample_built) Hb) as Heq. apply ok_pair_inj in Heq as [<- Hst]. exact (Hr (eq_sym Hst)).
Qed.

Lemma sample_entry : ([2], [8; 8]) ∈ sample_entries.
Proof. by apply (list_elem_of_lookup_2 _ 2). Qed.

Lemma get_exact_witness :
  exists t cache' cache'',
    Table.Open sample_cache sample_table (size sample_table) = Ok (OkStatus, Some t, cache') /\
    Table.InternalGet t cache' [2] = Ok (OkStatus, Some ([2], [8; 8]), cache'').
Proof.
  destruct (get_exact (contents := id) (holds := map_cache_holds) sample_table sample_entries sample_cache
    no_blocks [] [2] sample_is_table sample_ready)
    as (t & cache' & saved & cache'' & M' & Hopen & Hget & _ & _ & Hs).
  exists t, cache', cache''. split; [exact Hopen|].
  rewrite (Hs [8; 8] sample_entry) in Hget. exact Hget.
Defined.

Lemma approximate_offsets_witness :
  exists t cache' o o',
    Table.Open sample_cache sample_table (size sample_table) = Ok (OkStatus, Some t, cache') /\
    Table.ApproximateOffsetOf t [1; 3] = Ok o /\ Table.ApproximateOffsetOf t [9] = Ok o' /\ o <= o'.
Proof.
  destruct (approximate_offsets (contents := id) (holds := map_cache_holds) sample_table sample_entries
    sample_cache no_blocks [] [1; 3] [9] sample_is_table sample_ready eq_refl)
    as (t & cache' & o & o' & Hopen & H1 & H2 & Ho & _).
  exists t, cache', o, o'. split; [exact Hopen|]. split; [exact H1|]. split; [exact H2|]. apply Ho.
Defined.

#[local] Transparent sample_builder.

(** The table has two data blocks. *)
Example sample_offsets :
  match Table.Open sample_cache sample_table (size sample_table) with
  | Ok (_, Some t, _) =>
      (Table.ApproximateOffsetOf t [1; 3], Table.ApproximateOffsetOf t [9]) = (Ok 0, Ok 28)
  | _ => False
  end.
Proof. vm_compute. reflexivity. Qed.

End Sample.
