(* ===== verification/LruCache.v ===== *)
(** The LRU cache of table blocks.

    [tsl/lib/io/cache.cc].  Entries are heap objects that the cache and its
    clients share by pointer and count references to: the model keeps them in a
    map from addresses, and an access to a freed one is a fault.  The circular
    lists [lru_] and [in_use_] are lists of addresses, the oldest entry first;
    the chains of the hash table are lists too, and the slot that [FindPointer]
    returns is a position in one.  The deleter of an entry is recorded when it is
    called.  The mutexes make every operation atomic. *)
From stdpp Require Import gmap.
From S2P Require Import Prelude Bytes Coding Block.

Module LruCache.

(** The address of an entry. *)
Abbreviation addr := positive.

Section LruCache.
Context {bo : ByteOrder} {V : Type}.
Local Open Scope res_scope.

Record LRUHandle : Type := mkHandle {
  value : V;
  charge : Z;
  in_cache : bool;
  refs : Z;
  hash : Z;
  key : bytes
}.

Definition set_refs (x : LRUHandle) (n : Z) : LRUHandle :=
  mkHandle (value x) (charge x) (in_cache x) n (hash x) (key x).

Definition set_in_cache (x : LRUHandle) (b : bool) : LRUHandle :=
  mkHandle (value x) (charge x) b (refs x) (hash x) (key x).

(** The entries that are allocated, and the calls of deleters so far. *)
Record Memory : Type := mkMemory {
  entries : gmap addr LRUHandle;
  deleted : list (bytes * V)
}.

Definition deref (m : Memory) (e : addr) : res fault LRUHandle :=
  match entries m !! e with Some x => Ok x | None => Err OutOfBounds end.

Definition store (m : Memory) (e : addr) (x : LRUHandle) : Memory :=
  mkMemory (<[e := x]> (entries m)) (deleted m).

(** [malloc]: an address that is not in use. *)
Definition malloc (m : Memory) : addr := fresh (dom (entries m)).

(** ** The hash table *)

Record HandleTable : Type := mkTable {
  length_ : Z;
  elems_ : Z;
  list_ : list (list addr)
}.

(** The position of the entry in the chain, the end when there is none. *)
Fixpoint find_slot (m : Memory) (k : bytes) (h : Z) (chain : list addr) : res fault nat :=
  match chain with
  | [] => Ok O
  | e :: chain' =>
      let! x := deref m e in
      if negb (hash x =? h) || bool_decide (k <> key x) then
        let! n := find_slot m k h chain' in Ok (S n)
      else Ok O
  end.

Definition bucket (len h : Z) : nat := Z.to_nat (Z.land h (wrap_u32 (len - 1))).

(** The chain and the position in it. *)
Definition FindPointer (m : Memory) (t : HandleTable) (k : bytes) (h : Z) :
    res fault (list addr * nat) :=
  match list_ t !! bucket (length_ t) h with
  | None => Err OutOfBounds
  | Some chain => let! n := find_slot m k h chain in Ok (chain, n)
  end.

Definition table_Lookup (m : Memory) (t : HandleTable) (k : bytes) (h : Z) : res fault (option addr) :=
  let! (chain, n) := FindPointer m t k h in Ok (chain !! n).

Fixpoint grow (fuel : nat) (new_length elems : Z) : res fault Z :=
  if new_length <? elems then
    match fuel with
    | O => Err OutOfFuel
    | S fuel' => grow fuel' (wrap_u32 (new_length * 2)) elems
    end
  else Ok new_length.

(** The entries in the order of the old table, each pushed on its new chain. *)
Fixpoint rehash (m : Memory) (new_length : Z) (es : list addr) (new_list : list (list addr)) :
    res fault (list (list addr)) :=
  match es with
  | [] => Ok new_list
  | e :: es' =>
      let! x := deref m e in
      rehash m new_length es' (alter (cons e) (bucket new_length (hash x)) new_list)
  end.

Definition Resize (m : Memory) (t : HandleTable) : res fault HandleTable :=
  let! new_length := grow 32 4 (elems_ t) in
  let! new_list := rehash m new_length (concat (list_ t)) (replicate (Z.to_nat new_length) []) in
  Ok (mkTable new_length (elems_ t) new_list).

Definition new_table (m : Memory) : res fault HandleTable := Resize m (mkTable 0 0 []).

(** The table and the entry that was replaced. *)
Definition table_Insert (m : Memory) (t : HandleTable) (e : addr) :
    res fault (HandleTable * option addr) :=
  let! x := deref m e in
  let! (chain, n) := FindPointer m t (key x) (hash x) in
  let old := chain !! n in
  let new_list := <[bucket (length_ t) (hash x) := take n chain ++ e :: drop (S n) chain]> (list_ t) in
  match old with
  | None =>
      let t := mkTable (length_ t) (wrap_u32 (elems_ t + 1)) new_list in
      let! t := if length_ t <? elems_ t then Resize m t else Ok t in
      Ok (t, None)
  | Some _ => Ok (mkTable (length_ t) (elems_ t) new_list, old)
  end.

Definition table_Remove (m : Memory) (t : HandleTable) (k : bytes) (h : Z) :
    res fault (HandleTable * option addr) :=
  let! (chain, n) := FindPointer m t k h in
  match chain !! n with
  | None => Ok (t, None)
  | Some e =>
      let new_list := <[bucket (length_ t) h := take n chain ++ drop (S n) chain]> (list_ t) in
      Ok (mkTable (length_ t) (wrap_u32 (elems_ t - 1)) new_list, Some e)
  end.

(** ** One shard *)

Record LRUCache : Type := mkLRU {
  capacity_ : Z;
  usage_ : Z;
  lru_ : list addr;
  in_use_ : list addr;
  table_ : HandleTable
}.

Definition new_shard (m : Memory) : res fault LRUCache :=
  let! t := new_table m in Ok (mkLRU 0 0 [] [] t).

Definition SetCapacity (c : LRUCache) (capacity : Z) : LRUCache :=
  mkLRU capacity (usage_ c) (lru_ c) (in_use_ c) (table_ c).

Definition TotalCharge (c : LRUCache) : Z := usage_ c.

Definition set_table (c : LRUCache) (t : HandleTable) : LRUCache :=
  mkLRU (capacity_ c) (usage_ c) (lru_ c) (in_use_ c) t.

Definition set_usage (c : LRUCache) (n : Z) : LRUCache :=
  mkLRU (capacity_ c) n (lru_ c) (in_use_ c) (table_ c).

Definition unlink (e : addr) (l : list addr) : list addr := filter (fun x => x <> e) l.

(** The entry is taken out of the list it is on: the links to its neighbours are the
    list, without the entry.  The cache unlinks entries of its table only, and each
    of them is on one of the two lists. *)
Definition LRU_Remove (c : LRUCache) (e : addr) : LRUCache :=
  mkLRU (capacity_ c) (usage_ c) (unlink e (lru_ c)) (unlink e (in_use_ c)) (table_ c).

Definition LRU_Append_lru (c : LRUCache) (e : addr) : LRUCache :=
  mkLRU (capacity_ c) (usage_ c) (lru_ c ++ [e]) (in_use_ c) (table_ c).

Definition LRU_Append_in_use (c : LRUCache) (e : addr) : LRUCache :=
  mkLRU (capacity_ c) (usage_ c) (lru_ c) (in_use_ c ++ [e]) (table_ c).

Definition Ref (m : Memory) (c : LRUCache) (e : addr) : res fault (Memory * LRUCache) :=
  let! x := deref m e in
  let c := if (refs x =? 1) && in_cache x then LRU_Append_in_use (LRU_Remove c e) e else c in
  Ok (store m e (set_refs x (wrap_u32 (refs x + 1))), c).

Definition Unref (m : Memory) (c : LRUCache) (e : addr) : res fault (Memory * LRUCache) :=
  let! x := deref m e in
  let x := set_refs x (wrap_u32 (refs x - 1)) in
  if refs x =? 0 then
    Ok (mkMemory (delete e (entries m)) (deleted m ++ [(key x, value x)]), c)
  else
    let c := if in_cache x && (refs x =? 1) then LRU_Append_lru (LRU_Remove c e) e else c in
    Ok (store m e x, c).

Definition Lookup (m : Memory) (c : LRUCache) (k : bytes) (h : Z) :
    res fault (option addr * Memory * LRUCache) :=
  let! e := table_Lookup m (table_ c) k h in
  match e with
  | Some e => let! (m, c) := Ref m c e in Ok (Some e, m, c)
  | None => Ok (None, m, c)
  end.

Definition Release (m : Memory) (c : LRUCache) (e : addr) : res fault (Memory * LRUCache) := Unref m c e.

Definition FinishErase (m : Memory) (c : LRUCache) (old : option addr) : res fault (Memory * LRUCache) :=
  match old with
  | None => Ok (m, c)
  | Some e =>
      let! x := deref m e in
      let c := LRU_Remove c e in
      let m := store m e (set_in_cache x false) in
      let c := set_usage c (wrap_u64 (usage_ c - charge x)) in
      Unref m c e
  end.

(** Erasing the entry of a key from the table and the lists. *)
Definition erase_key (m : Memory) (c : LRUCache) (k : bytes) (h : Z) : res fault (Memory * LRUCache) :=
  let! (t, old) := table_Remove m (table_ c) k h in
  FinishErase m (set_table c t) old.

(** [while (usage_ > capacity_ && lru_.next != &lru_)]. *)
Fixpoint evict (fuel : nat) (m : Memory) (c : LRUCache) : res fault (Memory * LRUCache) :=
  if capacity_ c <? usage_ c then
    match lru_ c with
    | [] => Ok (m, c)
    | old :: _ =>
        match fuel with
        | O => Err OutOfFuel
        | S fuel' =>
            let! x := deref m old in
            let! (m, c) := erase_key m c (key x) (hash x) in
            evict fuel' m c
        end
    end
  else Ok (m, c).

Definition Insert (m : Memory) (c : LRUCache) (k : bytes) (h : Z) (v : V) (n : Z) :
    res fault (addr * Memory * LRUCache) :=
  let e := malloc m in
  let! (m, c) :=
    if 0 <? capacity_ c then
      let m := store m e (mkHandle v n true 2 h k) in
      let c := LRU_Append_in_use c e in
      let c := set_usage c (wrap_u64 (usage_ c + n)) in
      let! (t, old) := table_Insert m (table_ c) e in
      FinishErase m (set_table c t) old
    else Ok (store m e (mkHandle v n false 1 h k), c) in
  let! (m, c) := evict (length (lru_ c)) m c in
  Ok (e, m, c).

Definition Erase (m : Memory) (c : LRUCache) (k : bytes) (h : Z) : res fault (Memory * LRUCache) :=
  erase_key m c k h.

(** [while (lru_.next != &lru_)]. *)
Fixpoint prune (fuel : nat) (m : Memory) (c : LRUCache) : res fault (Memory * LRUCache) :=
  match lru_ c with
  | [] => Ok (m, c)
  | e :: _ =>
      match fuel with
      | O => Err OutOfFuel
      | S fuel' =>
          let! x := deref m e in
          let! (m, c) := erase_key m c (key x) (hash x) in
          prune fuel' m c
      end
  end.

Definition Prune (m : Memory) (c : LRUCache) : res fault (Memory * LRUCache) :=
  prune (length (lru_ c)) m c.

(** [~LRUCache]: the entries of [lru_], each unreferenced. *)
Fixpoint destroy (m : Memory) (c : LRUCache) (es : list addr) : res fault Memory :=
  match es with
  | [] => Ok m
  | e :: es' =>
      let! x := deref m e in
      let! (m, c) := Unref (store m e (set_in_cache x false)) c e in
      destroy m c es'
  end.

(** ** The shards *)

Definition kNumShardBits : Z := 4.
Definition kNumShards : Z := Z.shiftl 1 kNumShardBits.

(** A hash in the style of murmur. *)
Definition hash_m : Z := 0xc6a4a793.

Fixpoint hash_words (fuel : nat) (h : Z) (data : bytes) : Z * bytes :=
  match fuel with
  | O => (h, data)
  | S fuel' =>
      if 4 <=? size data then
        let w := Coding.DecodeFixed32 data in
        let h := wrap_u32 (h + w) in
        let h := wrap_u32 (h * hash_m) in
        let h := Z.lxor h (Z.shiftr h 16) in
        hash_words fuel' h (drop 4 data)
      else (h, data)
  end.

Definition Hash (data : bytes) (seed : Z) : Z :=
  let h := Z.lxor seed (wrap_u32 (size data * hash_m)) in
  let '(h, data) := hash_words (length data) h data in
  let last h b := let h := wrap_u32 (wrap_u32 (h + b) * hash_m) in Z.lxor h (Z.shiftr h 24) in
  match data with
  | [b0; b1; b2] => last (wrap_u32 (wrap_u32 (h + Z.shiftl b2 16) + Z.shiftl b1 8)) b0
  | [b0; b1] => last (wrap_u32 (h + Z.shiftl b1 8)) b0
  | [b0] => last h b0
  | _ => h
  end.

Definition HashSlice (s : bytes) : Z := Hash s 0.

Definition Shard (h : Z) : nat := Z.to_nat (Z.shiftr h (32 - kNumShardBits)).

Record Cache : Type := mkCache {
  shard_ : list LRUCache;
  last_id_ : Z;
  memory : Memory
}.

Fixpoint new_shards (n : nat) (m : Memory) (per_shard : Z) : res fault (list LRUCache) :=
  match n with
  | O => Ok []
  | S n' =>
      let! c := new_shard m in
      let! cs := new_shards n' m per_shard in
      Ok (SetCapacity c per_shard :: cs)
  end.

(** [NewLRUCache]. *)
Definition NewLRUCache (capacity : Z) : res fault Cache :=
  let m := mkMemory ∅ [] in
  let per_shard := wrap_u64 (capacity + (kNumShards - 1)) / kNumShards in
  let! cs := new_shards (Z.to_nat kNumShards) m per_shard in
  Ok (mkCache cs 0 m).

(** An operation of one shard. *)
Definition with_shard {A : Type} (c : Cache) (s : nat)
    (f : Memory -> LRUCache -> res fault (A * Memory * LRUCache)) : res fault (A * Cache) :=
  match shard_ c !! s with
  | None => Err OutOfBounds
  | Some sh =>
      let! (a, m, sh) := f (memory c) sh in
      Ok (a, mkCache (<[s := sh]> (shard_ c)) (last_id_ c) m)
  end.

Definition unit_op (f : Memory -> LRUCache -> res fault (Memory * LRUCache))
    (m : Memory) (sh : LRUCache) : res fault (unit * Memory * LRUCache) :=
  let! (m, sh) := f m sh in Ok (tt, m, sh).

Definition cache_insert (c : Cache) (k : bytes) (v : V) (n : Z) : res fault (addr * Cache) :=
  let h := HashSlice k in
  with_shard c (Shard h) (fun m sh => Insert m sh k h v n).

Definition cache_lookup (c : Cache) (k : bytes) : res fault (option addr * Cache) :=
  let h := HashSlice k in
  with_shard c (Shard h) (fun m sh => Lookup m sh k h).

Definition cache_release (c : Cache) (e : addr) : res fault Cache :=
  let! x := deref (memory c) e in
  let! (_, c) := with_shard c (Shard (hash x)) (unit_op (fun m sh => Release m sh e)) in Ok c.

Definition cache_erase (c : Cache) (k : bytes) : res fault Cache :=
  let h := HashSlice k in
  let! (_, c) := with_shard c (Shard h) (unit_op (fun m sh => Erase m sh k h)) in Ok c.

Definition cache_value (c : Cache) (e : addr) : res fault V :=
  let! x := deref (memory c) e in Ok (value x).

Definition NewId (c : Cache) : Z * Cache :=
  let id := wrap_u64 (last_id_ c + 1) in (id, mkCache (shard_ c) id (memory c)).

(** [for (int s = 0; s < kNumShards; s++) shard_[s].Prune()], from [s] on. *)
Fixpoint prune_shards (n s : nat) (c : Cache) : res fault Cache :=
  match n with
  | O => Ok c
  | S n' => let! (_, c) := with_shard c s (unit_op Prune) in prune_shards n' (S s) c
  end.

Definition cache_prune (c : Cache) : res fault Cache := prune_shards (length (shard_ c)) O c.

Definition cache_total_charge (c : Cache) : Z :=
  fold_left (fun total sh => wrap_u64 (total + TotalCharge sh)) (shard_ c) 0.

(** [~ShardedLRUCache] destroys the shards, the last one first. *)
Fixpoint destroy_shards (m : Memory) (shs : list LRUCache) : res fault Memory :=
  match shs with
  | [] => Ok m
  | sh :: shs' => let! m := destroy m sh (lru_ sh) in destroy_shards m shs'
  end.

Definition cache_destroy (c : Cache) : res fault Memory := destroy_shards (memory c) (rev (shard_ c)).

End LruCache.
End LruCache.
