(* ===== verification/LruSpec.v ===== *)
(** What the LRU cache keeps true.

    [mem_inv]: every allocated entry has one reference for each handle that
    clients hold and one for the cache; every held handle is allocated.
    [shard_inv]: the entries that the cache refers to are on [lru_] when no client
    holds them and on [in_use_] otherwise, all of them but those of [out] are in
    the hash table in their buckets, and [usage_] is the sum of their charges.
    [keeps]: what no operation of a shard changes.  Then the hash table: lookups
    find exactly the entry of a key, insertion replaces it, removal takes it out,
    and resizing keeps the entries while each stays in its bucket. *)
From stdpp Require Import gmap.
From S2P Require Import Prelude Bytes Coding Block LruCache.
Import LruCache.

Section LruSpec.
Context {bo : ByteOrder} {V : Type}.
Local Abbreviation Memory := (Memory (V := V)).
Local Abbreviation LRUHandle := (LRUHandle (V := V)).

(** How often the handle is held. *)
Fixpoint nheld (e : addr) (hs : list addr) : Z :=
  match hs with
  | [] => 0
  | h :: hs' => (if decide (h = e) then 1 else 0) + nheld e hs'
  end.

(** The parts of an entry that never change. *)
Definition payload (x : LRUHandle) : bytes * V * Z * Z := (key x, value x, charge x, hash x).

(** Every entry that was ever inserted: deleted or still allocated. *)
Definition ledger (m : Memory) : list (bytes * V) :=
  deleted m ++ map (fun p => (key p.2, value p.2)) (map_to_list (entries m)).

Record mem_inv (m : Memory) (hs : list addr) (ks : list bytes) : Prop := {
  mi_refs e x : entries m !! e = Some x ->
    refs x = nheld e hs + (if in_cache x then 1 else 0) /\ 0 < refs x;
  mi_entry e x : entries m !! e = Some x -> hash x = HashSlice (key x) /\ 0 <= charge x < 2 ^ 32;
  mi_keys e x : entries m !! e = Some x -> in_cache x = true -> key x ∈ ks;
  mi_held e : e ∈ hs -> is_Some (entries m !! e);
  mi_few : Z.of_nat (length hs) < 2 ^ 32 - 1;
  mi_few_keys : Z.of_nat (length ks) <= 2 ^ 31
}.

Definition cached (m : Memory) (s : nat) (e : addr) : Prop :=
  exists x, entries m !! e = Some x /\ Shard (hash x) = s /\ in_cache x = true.

(** The sum of the charges of the entries. *)
Fixpoint charges (m : Memory) (es : list addr) : Z :=
  match es with
  | [] => 0
  | e :: es' => from_option charge 0 (entries m !! e) + charges m es'
  end.

Record table_inv (m : Memory) (t : HandleTable) : Prop := {
  ti_alive e : e ∈ concat (list_ t) -> is_Some (entries m !! e);
  ti_bucket i chain e x : list_ t !! i = Some chain -> e ∈ chain -> entries m !! e = Some x ->
    i = bucket (length_ t) (hash x);
  ti_distinct : NoDup (concat (list_ t));
  ti_keys e e' x x' : e ∈ concat (list_ t) -> e' ∈ concat (list_ t) -> entries m !! e = Some x ->
    entries m !! e' = Some x' -> key x = key x' -> e = e';
  ti_length : exists k, 2 <= k <= 31 /\ length_ t = 2 ^ k /\ length_ t = Z.of_nat (length (list_ t));
  ti_elems : elems_ t = Z.of_nat (length (concat (list_ t)))
}.

Record shard_inv (s : nat) (m : Memory) (hs : list addr) (c : LRUCache) (out : list addr) : Prop := {
  si_lru e : e ∈ lru_ c <-> cached m s e /\ nheld e hs = 0;
  si_use e : e ∈ in_use_ c <-> cached m s e /\ 0 < nheld e hs;
  si_nodup_lru : NoDup (lru_ c);
  si_nodup_use : NoDup (in_use_ c);
  si_table e : e ∈ concat (list_ (table_ c)) <-> cached m s e /\ e ∉ out;
  si_tinv : table_inv m (table_ c);
  si_usage : usage_ c = charges m (lru_ c ++ in_use_ c)
}.

Record keeps (s : nat) (m m' : Memory) : Prop := {
  k_frame e x : Shard (hash x) <> s -> entries m !! e = Some x <-> entries m' !! e = Some x;
  k_sub e x' : entries m' !! e = Some x' -> exists x, entries m !! e = Some x /\ payload x = payload x';
  k_ledger : ledger m' ≡ₚ ledger m
}.

(** ** Handles that are held *)

Lemma nheld_nonneg (e : addr) (hs : list addr) : 0 <= nheld e hs.
Proof. induction hs as [|h hs IH]; cbn; [done|]. case_decide; lia. Qed.

Lemma nheld_le (e : addr) (hs : list addr) : nheld e hs <= Z.of_nat (length hs).
Proof. induction hs as [|h hs IH]; cbn -[Z.of_nat]; [done|]. case_decide; lia. Qed.

#[export] Instance nheld_perm (e : addr) : Proper ((≡ₚ) ==> (=)) (nheld e).
Proof. induction 1; cbn; repeat case_decide; lia. Qed.

Lemma nheld_pos (e : addr) (hs : list addr) : 0 < nheld e hs <-> e ∈ hs.
Proof.
  induction hs as [|h hs IH]; cbn; [split; [lia|by intros ?%not_elem_of_nil]|].
  rewrite elem_of_cons. pose proof (nheld_nonneg e hs). case_decide as He; split; intros Hx.
  - left. done.
  - lia.
  - right. apply IH. lia.
  - destruct Hx as [->|Hx]; [done|]. apply IH in Hx. lia.
Qed.

#[export] Instance mem_inv_perm (m : Memory) : Proper ((≡ₚ) ==> (=) ==> impl) (mem_inv m).
Proof.
  intros hs hs' Hp ks ? <- [H1 H2 H3 H4 H5 H6]. split; try done.
  - intros e x Hx. by rewrite <- Hp; apply H1.
  - intros e He. apply H4. by rewrite Hp.
  - by rewrite <- Hp.
Qed.

Lemma cached_dec (m : Memory) (s : nat) (e : addr) : Decision (cached m s e).
Proof.
  destruct (entries m !! e) as [x|] eqn:Ex; [|right; by intros (x & ? & _); simplify_eq].
  destruct (decide (Shard (hash x) = s /\ in_cache x = true)) as [[Hs Hc]|Hn]; [left; by exists x|].
  right. intros (x' & ? & ? & ?). simplify_eq. by apply Hn.
Defined.

(** ** What is kept *)

#[export] Instance keeps_refl (s : nat) : Reflexive (keeps s).
Proof. intros m. split; [done|by eauto|done]. Qed.

#[export] Instance keeps_trans (s : nat) : Transitive (keeps s).
Proof.
  intros a b c [F1 S1 L1] [F2 S2 L2]. split.
  - intros e x Hx. rewrite F1, F2; done.
  - intros e x Hx. destruct (S2 e x Hx) as (y & Hy & Hp). destruct (S1 e y Hy) as (z & Hz & Hq).
    exists z. split; [done|congruence].
  - by rewrite L2.
Qed.

Lemma ledger_store (m : Memory) (e : addr) (x y : LRUHandle) :
  entries m !! e = Some x -> payload x = payload y -> ledger (store m e y) ≡ₚ ledger m.
Proof.
  intros Hx Hp. unfold ledger, store. cbn [entries deleted]. f_equiv.
  rewrite <- (insert_delete_id (entries m) e x Hx) at 2.
  rewrite <- (insert_delete_eq (entries m) e y).
  rewrite !map_to_list_insert by apply lookup_delete_eq. cbn. injection Hp as -> -> _ _. done.
Qed.


Lemma keeps_store (s : nat) (m : Memory) (e : addr) (x y : LRUHandle) :
  entries m !! e = Some x -> payload x = payload y -> Shard (hash x) = s -> keeps s m (store m e y).
Proof.
  intros Hx Hp Hs. pose proof Hp as [= _ _ _ Hh]. split.
  - intros e' z Hz. cbn. destruct (decide (e' = e)) as [->|Hne].
    + rewrite lookup_insert_eq, Hx. split; intros [= <-]; congruence.
    + by rewrite lookup_insert_ne.
  - intros e' z. cbn. destruct (decide (e' = e)) as [->|Hne].
    + rewrite lookup_insert_eq. intros [= <-]. eauto.
    + rewrite lookup_insert_ne by done. eauto.
  - by eapply ledger_store.
Qed.

Lemma keeps_free (s : nat) (m : Memory) (e : addr) (x : LRUHandle) :
  entries m !! e = Some x -> Shard (hash x) = s ->
  keeps s m (mkMemory (delete e (entries m)) (deleted m ++ [(key x, value x)])).
Proof.
  intros Hx Hs. split.
  - intros e' z Hz. cbn. destruct (decide (e' = e)) as [->|Hne].
    + rewrite lookup_delete_eq, Hx. split; [intros [= <-]; congruence|done].
    + by rewrite lookup_delete_ne.
  - intros e' z. cbn. intros [_ Hz]%lookup_delete_Some. eauto.
  - unfold ledger. cbn. rewrite <- (map_to_list_delete (entries m) e x Hx). cbn.
    by rewrite <- app_assoc.
Qed.

(** ** Charges *)

Lemma charges_app (m : Memory) (a b : list addr) : charges m (a ++ b) = charges m a + charges m b.
Proof. induction a as [|e a IH]; cbn; [done|]. rewrite IH. lia. Qed.

#[export] Instance charges_perm (m : Memory) : Proper ((≡ₚ) ==> (=)) (charges m).
Proof. induction 1; cbn; lia. Qed.

Lemma charges_same (m m' : Memory) (es : list addr) :
  (forall e, e ∈ es -> from_option charge 0 (entries m !! e) = from_option charge 0 (entries m' !! e)) ->
  charges m es = charges m' es.
Proof.
  induction es as [|e es IH]; intros Hs; cbn; [done|].
  rewrite (Hs e), IH; [done|intros; apply Hs; by constructor|by constructor].
Qed.

Lemma charges_bound (m : Memory) (hs : list addr) (ks : list bytes) (es : list addr) :
  mem_inv m hs ks -> 0 <= charges m es <= (2 ^ 32 - 1) * Z.of_nat (length es).
Proof.
  intros Hm. induction es as [|e es IH]; [done|]. cbn [charges length].
  assert (0 <= from_option charge 0 (entries m !! e) < 2 ^ 32).
  { destruct (entries m !! e) as [x|] eqn:Ex; [|done]. apply (mi_entry _ _ _ Hm _ _ Ex). }
  lia.
Qed.

Lemma unlink_elem (e o : addr) (l : list addr) : e ∈ unlink o l <-> e <> o /\ e ∈ l.
Proof. unfold unlink. rewrite list_elem_of_filter. done. Qed.

Lemma unlink_nodup (o : addr) (l : list addr) : NoDup l -> NoDup (unlink o l).
Proof. apply NoDup_filter. Qed.

Lemma unlink_notin (o : addr) (l : list addr) : o ∉ l -> unlink o l = l.
Proof.
  unfold unlink. induction l as [|e l IH]; [done|]. rewrite not_elem_of_cons. intros [Hne Hn].
  rewrite filter_cons_True by done. by rewrite IH.
Qed.

Lemma unlink_perm (o : addr) (l : list addr) : NoDup l -> o ∈ l -> l ≡ₚ o :: unlink o l.
Proof.
  intros Hnd Hin. apply NoDup_Permutation; [done| |].
  - constructor; [|by apply unlink_nodup]. rewrite unlink_elem. tauto.
  - intros e. rewrite elem_of_cons, unlink_elem. destruct (decide (e = o)) as [->|]; tauto.
Qed.

Lemma unlink_head (o : addr) (l : list addr) : NoDup (o :: l) -> unlink o (o :: l) = l.
Proof.
  intros [Hn _]%NoDup_cons. unfold unlink. rewrite filter_cons_False by tauto. by apply unlink_notin.
Qed.

End LruSpec.

(** ** The hash table *)

Section LruTable.
Context {bo : ByteOrder} {V : Type}.
Local Abbreviation Memory := (Memory (V := V)).
Local Abbreviation LRUHandle := (LRUHandle (V := V)).

(** ** Buckets *)

Lemma bucket_lt (k h : Z) : 2 <= k <= 31 -> (bucket (2 ^ k) h < Z.to_nat (2 ^ k))%nat.
Proof.
  intros Hk. unfold bucket. assert (0 < 2 ^ k <= 2 ^ 31) by (split; [lia|apply Z.pow_le_mono_r; lia]).
  unfold wrap_u32. rewrite Z.mod_small by lia.
  replace (2 ^ k - 1) with (Z.ones k) by (rewrite Z.ones_equiv; lia). rewrite Z.land_ones by lia.
  pose proof (Z.mod_pos_bound h (2 ^ k)). lia.
Qed.

(** Replacing one chain. *)
Lemma concat_insert (L : list (list addr)) (i : nat) (chain : list addr) :
  L !! i = Some chain ->
  exists rest, concat L ≡ₚ chain ++ rest /\
    forall chain', concat (<[i := chain']> L) ≡ₚ chain' ++ rest.
Proof.
  intros Hi. exists (concat (take i L) ++ concat (drop (S i) L)). split.
  - rewrite <- (take_drop_middle L i chain Hi) at 1. rewrite concat_app. cbn. solve_Permutation.
  - intros chain'. rewrite insert_take_drop by (by eapply lookup_lt_Some).
    rewrite concat_app. cbn. solve_Permutation.
Qed.

Lemma concat_lookup (L : list (list addr)) (e : addr) :
  e ∈ concat L <-> exists i chain, L !! i = Some chain /\ e ∈ chain.
Proof.
  rewrite list_elem_of_In, in_concat. split.
  - intros (chain & (i & Hi)%list_elem_of_In%list_elem_of_lookup & Hin%list_elem_of_In). eauto.
  - intros (i & chain & Hi%list_elem_of_lookup_2 & Hin). exists chain. by rewrite <- !list_elem_of_In.
Qed.

(** ** Searching *)

Definition has_key (m : Memory) (k : bytes) (e : addr) : Prop :=
  exists x, entries m !! e = Some x /\ key x = k.

Lemma find_slot_spec (m : Memory) (k : bytes) (chain : list addr) :
  (forall e, e ∈ chain -> exists x, entries m !! e = Some x /\ hash x = HashSlice (key x)) ->
  exists n, find_slot m k (HashSlice k) chain = Ok n /\ (n <= length chain)%nat /\
    match chain !! n with
    | Some e => has_key m k e
    | None => forall e, e ∈ chain -> ~ has_key m k e
    end.
Proof.
  induction chain as [|e chain IH]; intros Hal; cbn [find_slot].
  { exists O. split_and!; [done|done|]. cbn. by intros e ?%not_elem_of_nil. }
  destruct (Hal e ltac:(by constructor)) as (x & Hx & Hh). unfold deref. rewrite Hx. cbn [res_bind].
  destruct (bool_decide (k <> key x)) eqn:Ek.
  - apply bool_decide_eq_true in Ek. rewrite orb_true_r.
    destruct IH as (n & -> & Hn & Hc); [intros; apply Hal; by constructor|].
    exists (S n). split_and!; [done|cbn; lia|]. cbn. destruct (chain !! n) as [o|]; [done|].
    intros o [->|Ho]%elem_of_cons; [|by apply Hc]. intros (x' & Hx' & Hkx). congruence.
  - apply bool_decide_eq_false in Ek. assert (k = key x) as -> by (by destruct (decide (k = key x))).
    rewrite Hh, Z.eqb_refl. exists O. split_and!; [done|lia|]. cbn. by exists x.
Qed.

Lemma FindPointer_spec (m : Memory) (t : HandleTable) (k : bytes) :
  table_inv m t -> (forall e x, entries m !! e = Some x -> hash x = HashSlice (key x)) ->
  exists chain n, FindPointer m t k (HashSlice k) = Ok (chain, n) /\
    list_ t !! bucket (length_ t) (HashSlice k) = Some chain /\ (n <= length chain)%nat /\
    match chain !! n with
    | Some e => has_key m k e
    | None => forall e, e ∈ concat (list_ t) -> ~ has_key m k e
    end.
Proof.
  intros [Hal Hb Hnd Hk (w & Hw & Hlen & Hl) Hel] Hh. unfold FindPointer.
  assert (bucket (length_ t) (HashSlice k) < length (list_ t))%nat as Hlt.
  { rewrite Hlen. pose proof (bucket_lt w (HashSlice k) Hw). lia. }
  destruct (lookup_lt_is_Some_2 _ _ Hlt) as [chain Hc]. rewrite Hc.
  destruct (find_slot_spec m k chain) as (n & -> & Hn & Hs).
  { intros e He. destruct (Hal e) as [x Hx]; [apply concat_lookup; eauto|]. eauto. }
  exists chain, n. split_and!; [done|done|done|]. destruct (chain !! n) as [o|]; [done|].
  intros e (i & ch & Hi & He)%concat_lookup Hkey. pose proof Hkey as (x & Hx & Hkx).
  pose proof (Hb _ _ _ _ Hi He Hx) as Hbi. rewrite (Hh _ _ Hx), Hkx in Hbi. subst i.
  rewrite Hc in Hi. injection Hi as ->. by apply (Hs e).
Qed.

Lemma table_Lookup_spec (m : Memory) (t : HandleTable) (k : bytes) :
  table_inv m t -> (forall e x, entries m !! e = Some x -> hash x = HashSlice (key x)) ->
  exists r, table_Lookup m t k (HashSlice k) = Ok r /\
    match r with
    | Some e => e ∈ concat (list_ t) /\ has_key m k e
    | None => forall e, e ∈ concat (list_ t) -> ~ has_key m k e
    end.
Proof.
  intros Ht Hh. destruct (FindPointer_spec m t k Ht Hh) as (chain & n & Hf & Hc & _ & Hs).
  unfold table_Lookup. rewrite Hf. cbn [res_bind]. exists (chain !! n). split; [done|].
  destruct (chain !! n) as [e|] eqn:En; [|done]. split; [|done].
  apply concat_lookup. do 2 eexists. split; [done|]. by eapply list_elem_of_lookup_2.
Qed.

(** ** Resizing *)

Lemma grow_spec (fuel : nat) (k elems : Z) :
  2 <= k <= 31 -> elems <= 2 ^ 31 -> 31 - k <= Z.of_nat fuel ->
  exists k', 2 <= k' <= 31 /\ grow fuel (2 ^ k) elems = Ok (2 ^ k').
Proof.
  revert k. induction fuel as [|fuel IH]; intros k Hk He Hf; cbn [grow].
  - assert (k = 31) as -> by lia. destruct (Z.ltb_spec (2 ^ 31) elems); [lia|]. by exists 31.
  - destruct (Z.ltb_spec (2 ^ k) elems) as [Hlt|_]; [|by exists k].
    assert (k <> 31) by (intros ->; lia). assert (2 ^ (k + 1) <= 2 ^ 31) by (apply Z.pow_le_mono_r; lia).
    replace (2 ^ k * 2) with (2 ^ (k + 1)) by (rewrite Z.pow_add_r; lia).
    unfold wrap_u32. rewrite Z.mod_small by lia. apply IH; lia.
Qed.

(** Each entry in its bucket. *)
Definition bucketed (m : Memory) (len : Z) (L : list (list addr)) : Prop :=
  forall i chain e x, L !! i = Some chain -> e ∈ chain -> entries m !! e = Some x -> i = bucket len (hash x).

Lemma rehash_spec (m : Memory) (k : Z) (es : list addr) (L : list (list addr)) :
  2 <= k <= 31 -> Z.of_nat (length L) = 2 ^ k -> (forall e, e ∈ es -> is_Some (entries m !! e)) ->
  bucketed m (2 ^ k) L ->
  exists L', rehash m (2 ^ k) es L = Ok L' /\ length L' = length L /\ concat L' ≡ₚ es ++ concat L /\
    bucketed m (2 ^ k) L'.
Proof.
  intros Hk. revert L. induction es as [|e es IH]; intros L Hl Hal Hb; cbn [rehash]; [by exists L|].
  destruct (Hal e ltac:(by constructor)) as [x Hx]. unfold deref. rewrite Hx. cbn [res_bind].
  set (i := bucket (2 ^ k) (hash x)).
  assert (i < length L)%nat as Hi by (pose proof (bucket_lt k (hash x) Hk); unfold i; lia).
  destruct (lookup_lt_is_Some_2 _ _ Hi) as [chain Hc].
  assert (alter (cons e) i L = <[i := e :: chain]> L) as ->.
  { apply list_eq. intros j. destruct (decide (j = i)) as [->|Hne].
    - rewrite list_lookup_alter_eq, Hc, list_lookup_insert_eq by done. done.
    - by rewrite list_lookup_alter_ne, list_lookup_insert_ne. }
  destruct (IH (<[i := e :: chain]> L)) as (L' & -> & Hl' & Hp & Hb').
  - by rewrite length_insert.
  - intros; apply Hal. by constructor.
  - intros j ch e' x' Hj He' Hx'. destruct (decide (j = i)) as [->|Hne].
    + rewrite list_lookup_insert_eq in Hj by done. injection Hj as <-.
      apply elem_of_cons in He' as [->|He']; [rewrite Hx in Hx'; by injection Hx' as <-|]. by eapply Hb.
    + rewrite list_lookup_insert_ne in Hj by done. by eapply Hb.
  - exists L'. rewrite length_insert in Hl'. split_and!; [done|done| |done].
    rewrite Hp. destruct (concat_insert L i chain Hc) as (rest & -> & Hr). rewrite (Hr (e :: chain)).
    solve_Permutation.
Qed.

Lemma concat_replicate_nil (n : nat) : concat (replicate n ([] : list addr)) = [].
Proof. by induction n. Qed.

Lemma Resize_spec (m : Memory) (t : HandleTable) :
  elems_ t <= 2 ^ 31 -> (forall e, e ∈ concat (list_ t) -> is_Some (entries m !! e)) ->
  exists t' k, Resize m t = Ok t' /\ elems_ t' = elems_ t /\ concat (list_ t') ≡ₚ concat (list_ t) /\
    2 <= k <= 31 /\ length_ t' = 2 ^ k /\ length_ t' = Z.of_nat (length (list_ t')) /\
    bucketed m (length_ t') (list_ t').
Proof.
  intros He Hal. unfold Resize. destruct (grow_spec 32 2 (elems_ t)) as (k & Hk & Hg); [lia|done|done|].
  change 4 with (2 ^ 2). rewrite Hg. cbn [res_bind].
  destruct (rehash_spec m k (concat (list_ t)) (replicate (Z.to_nat (2 ^ k)) []) Hk)
    as (L & -> & Hl & Hp & Hb); [rewrite length_replicate; lia|done| |].
  - intros i chain e x [-> _]%lookup_replicate He'. by apply not_elem_of_nil in He'.
  - rewrite concat_replicate_nil, app_nil_r in Hp. rewrite length_replicate in Hl.
    eexists _, k. split; [done|]. cbn. split_and!; try done; lia.
Qed.

(** ** Insertion and removal *)

Lemma bucketed_insert (m : Memory) (len : Z) (L : list (list addr)) (i : nat) (chain : list addr) :
  bucketed m len L -> (i < length L)%nat ->
  (forall e x, e ∈ chain -> entries m !! e = Some x -> i = bucket len (hash x)) ->
  bucketed m len (<[i := chain]> L).
Proof.
  intros Hb Hi Hc j ch e x Hj He Hx. destruct (decide (j = i)) as [->|Hne].
  - rewrite list_lookup_insert_eq in Hj by done. injection Hj as <-. by eapply Hc.
  - rewrite list_lookup_insert_ne in Hj by done. by eapply Hb.
Qed.

(** The entries of a table determine what does not depend on their order. *)
Lemma table_inv_of (m : Memory) (t : HandleTable) (es : list addr) (k : Z) :
  concat (list_ t) ≡ₚ es -> NoDup es -> (forall e, e ∈ es -> is_Some (entries m !! e)) ->
  (forall e e' q, e ∈ es -> e' ∈ es -> has_key m q e -> has_key m q e' -> e = e') ->
  bucketed m (length_ t) (list_ t) -> 2 <= k <= 31 -> length_ t = 2 ^ k ->
  length_ t = Z.of_nat (length (list_ t)) -> elems_ t = Z.of_nat (length es) -> table_inv m t.
Proof.
  intros Hp Hnd Hal Hk Hb Hkr Hlen Hl Hel. split.
  - intros e. rewrite Hp. apply Hal.
  - exact Hb.
  - by rewrite Hp.
  - intros e e' x x'. rewrite Hp. intros He He' Hx Hx' Hkx. apply (Hk e e' (key x)); [done|done|by exists x|].
    by exists x'.
  - by exists k.
  - by rewrite Hp.
Qed.

Lemma chain_split (chain : list addr) (n : nat) (o : addr) :
  chain !! n = Some o -> chain ≡ₚ o :: take n chain ++ drop (S n) chain.
Proof. intros Hn. rewrite <- (take_drop_middle _ _ _ Hn) at 1. solve_Permutation. Qed.

Lemma chain_elem (chain : list addr) (n : nat) (o e : addr) :
  chain !! n = Some o -> e ∈ o :: take n chain ++ drop (S n) chain -> e ∈ chain.
Proof. intros Hn He. eapply elem_of_Permutation_proper; [by apply chain_split|done]. Qed.

Lemma table_keys_unique (m : Memory) (t : HandleTable) (e e' : addr) (k : bytes) :
  table_inv m t -> e ∈ concat (list_ t) -> e' ∈ concat (list_ t) -> has_key m k e -> has_key m k e' -> e = e'.
Proof.
  intros Ht He He' (x & Hx & Hkx) (x' & Hx' & Hkx'). apply (ti_keys _ _ Ht e e' x x'); congruence.
Qed.

Lemma table_Remove_spec (m : Memory) (t : HandleTable) (k : bytes) :
  table_inv m t -> (forall e x, entries m !! e = Some x -> hash x = HashSlice (key x)) ->
  Z.of_nat (length (concat (list_ t))) < 2 ^ 32 ->
  exists t' old, table_Remove m t k (HashSlice k) = Ok (t', old) /\ table_inv m t' /\
    match old with
    | Some o => has_key m k o /\ concat (list_ t) ≡ₚ o :: concat (list_ t')
    | None => t' = t /\ forall e, e ∈ concat (list_ t) -> ~ has_key m k e
    end.
Proof.
  intros Ht Hh Hsz. destruct (FindPointer_spec m t k Ht Hh) as (chain & n & Hf & Hc & Hn & Hs).
  unfold table_Remove. rewrite Hf. cbn [res_bind]. destruct (chain !! n) as [o|] eqn:En; [|by exists t, None].
  set (t' := mkTable _ _ _). exists t', (Some o).
  destruct (concat_insert _ _ _ Hc) as (rest & Hp & Hr).
  assert (concat (list_ t) ≡ₚ o :: concat (list_ t')) as Hp'.
  { cbn [t' list_]. rewrite Hr, Hp. change (o :: ?a ++ ?b) with ((o :: a) ++ b).
    f_equiv. by apply chain_split. }
  pose proof Ht as [Hal Hb Hnd Hk (w & Hw & Hlen & Hl) Hel].
  split; [done|]. split; [|done]. rewrite Hp' in Hnd, Hel.
  apply (table_inv_of m t' (concat (list_ t')) w); try done.
  - by apply NoDup_cons in Hnd as [_ ?].
  - intros e He. apply Hal. rewrite Hp'. by constructor.
  - intros e e' q He He'. apply (table_keys_unique m t); [done| |]; rewrite Hp'; by constructor.
  - apply bucketed_insert; [exact Hb|by eapply lookup_lt_Some|]. intros e x He.
    apply (Hb _ chain); [done|]. apply (chain_elem chain n o e En). by constructor.
  - cbn [t' list_ length_]. by rewrite length_insert.
  - change (elems_ t') with (wrap_u32 (elems_ t - 1)). rewrite Hel. rewrite Hp' in Hsz.
    cbn [length] in *. unfold wrap_u32. rewrite Z.mod_small; lia.
Qed.

(** An entry with a key of its own. *)
Lemma new_key_unique (m : Memory) (es : list addr) (e : addr) (x : LRUHandle) :
  entries m !! e = Some x -> (forall b, b ∈ es -> ~ has_key m (key x) b) ->
  (forall a b q, a ∈ es -> b ∈ es -> has_key m q a -> has_key m q b -> a = b) ->
  forall a b q, a ∈ e :: es -> b ∈ e :: es -> has_key m q a -> has_key m q b -> a = b.
Proof.
  intros Hx Hother Hk a b q Ha Hb Hqa Hqb.
  assert (forall q, has_key m q e -> q = key x) as Hq by (intros ? (y & Hy & <-); congruence).
  apply elem_of_cons in Ha as [->|Ha]; apply elem_of_cons in Hb as [->|Hb]; [done| | |by eapply Hk].
  - rewrite (Hq _ Hqa) in Hqb. by destruct (Hother b).
  - rewrite (Hq _ Hqb) in Hqa. by destruct (Hother a).
Qed.

Lemma table_Insert_spec (m : Memory) (t : HandleTable) (e : addr) (x : LRUHandle) :
  table_inv m t -> (forall e x, entries m !! e = Some x -> hash x = HashSlice (key x)) ->
  entries m !! e = Some x -> e ∉ concat (list_ t) ->
  ((forall o, o ∈ concat (list_ t) -> ~ has_key m (key x) o) ->
     Z.of_nat (length (e :: concat (list_ t))) <= 2 ^ 31) ->
  exists t' old, table_Insert m t e = Ok (t', old) /\ table_inv m t' /\
    match old with
    | Some o => has_key m (key x) o /\
        exists rest, concat (list_ t) ≡ₚ o :: rest /\ concat (list_ t') ≡ₚ e :: rest
    | None => concat (list_ t') ≡ₚ e :: concat (list_ t)
    end.
Proof.
  intros Ht Hh Hx Hnew Hsz. destruct (FindPointer_spec m t (key x) Ht Hh) as (chain & n & Hf & Hc & Hn & Hs).
  unfold table_Insert, deref. rewrite Hx. cbn [res_bind]. rewrite (Hh e x Hx), Hf. cbn [res_bind].
  destruct (concat_insert _ _ _ Hc) as (rest & Hp & Hr). pose proof Ht as [Hal Hb Hnd Hk (w & Hw & Hlen & Hl) Hel].
  set (i := bucket (length_ t) (HashSlice (key x))) in *.
  set (L := <[i := take n chain ++ e :: drop (S n) chain]> (list_ t)).
  assert (bucketed m (length_ t) L) as Hb'.
  { apply bucketed_insert; [exact Hb|by eapply lookup_lt_Some|]. intros e' x' He' Hx'.
    apply elem_of_app in He' as [He'|[->|He']%elem_of_cons].
    - apply (Hb _ chain e'); [done| |done]. rewrite <- (take_drop n chain). apply elem_of_app. by left.
    - rewrite Hx in Hx'. injection Hx' as <-. by rewrite (Hh e x Hx).
    - apply (Hb _ chain e'); [done| |done]. rewrite <- (take_drop (S n) chain). apply elem_of_app. by right. }
  assert (length L = length (list_ t)) as HlL by (unfold L; by rewrite length_insert).
  destruct (chain !! n) as [o|] eqn:En.
  - eexists _, (Some o). split; [done|]. assert (concat (list_ t) ≡ₚ o :: take n chain ++ drop (S n) chain ++ rest) as Ho.
    { rewrite Hp. rewrite app_assoc. change (o :: ?a ++ ?b) with ((o :: a) ++ b). f_equiv. by apply chain_split. }
    assert (concat L ≡ₚ e :: take n chain ++ drop (S n) chain ++ rest) as He.
    { unfold L. rewrite Hr. solve_Permutation. }
    split; [|split; [done|]; by eexists].
    rewrite Ho in Hnd, Hel, Hnew. apply not_elem_of_cons in Hnew as [Hneo Hnew]. apply NoDup_cons in Hnd as [Hno Hnd].
    apply (table_inv_of m (mkTable (length_ t) (elems_ t) L) _ w He); cbn [length_ list_ elems_]; try done.
    + by constructor.
    + intros e' [->|He']%elem_of_cons; [by exists x|]. apply Hal. rewrite Ho. by constructor.
    + apply (new_key_unique m _ e x Hx).
      * intros b' Hb1 Hkb. apply Hno. replace o with b'; [done|].
        apply (table_keys_unique m t b' o (key x)); [done| | |done|done]; rewrite Ho; by constructor.
      * intros a b q Ha Hb0. apply (table_keys_unique m t); [done| |]; rewrite Ho; by constructor.
    + by rewrite HlL.
  - assert (concat L ≡ₚ e :: concat (list_ t)) as He.
    { unfold L. rewrite Hr, Hp. apply lookup_ge_None in En.
      rewrite take_ge, drop_ge by lia. solve_Permutation. }
    specialize (Hsz Hs). set (t1 := mkTable _ _ L).
    assert (elems_ t1 = Z.of_nat (length (e :: concat (list_ t)))) as Hel1.
    { cbn -[Z.of_nat] in Hsz |- *. rewrite Hel. unfold wrap_u32. rewrite Z.mod_small; lia. }
    assert (forall t2 k, concat (list_ t2) ≡ₚ e :: concat (list_ t) -> 2 <= k <= 31 -> length_ t2 = 2 ^ k ->
      length_ t2 = Z.of_nat (length (list_ t2)) -> elems_ t2 = elems_ t1 -> bucketed m (length_ t2) (list_ t2) ->
      table_inv m t2) as Hinv.
    { intros t2 k Hp2 Hk2 Hlen2 Hl2 Hel2 Hb2. apply (table_inv_of _ _ _ k Hp2); try done.
      - by constructor.
      - intros e' [->|He']%elem_of_cons; [by exists x|by apply Hal].
      - apply (new_key_unique m _ e x Hx); [done|]. intros a b q. by apply table_keys_unique.
      - by rewrite Hel2. }
    case_if.
    + destruct (Resize_spec m t1) as (t2 & k & -> & Hel2 & Hp2 & Hk2 & Hlen2 & Hl2 & Hb2); [lia| |].
      { intros e'. cbn [t1 list_]. rewrite He. intros [->|He']%elem_of_cons; [by exists x|by apply Hal]. }
      cbn [res_bind]. exists t2, None. split; [done|]. cbn [t1 list_] in Hp2. rewrite He in Hp2.
      split; [by apply (Hinv t2 k)|done].
    + cbn [res_bind]. exists t1, None. split; [done|]. split; [|done].
      apply (Hinv t1 w); try done. cbn [t1 length_ list_]. by rewrite HlL.
Qed.

End LruTable.
