(* ===== verification/LruShard.v ===== *)
(** The operations of a shard keep its invariant.

    Taking and releasing handles move an entry between the two lists and free it
    with its last reference; erasing takes it out of the table, the lists and the
    usage, and frees it unless a client holds it. *)
From stdpp Require Import gmap.
From S2P Require Import Prelude Bytes Coding Block LruCache LruSpec.
Import LruCache.

Section LruShard.
Context {bo : ByteOrder} {V : Type}.
Local Abbreviation Memory := (Memory (V := V)).
Local Abbreviation LRUHandle := (LRUHandle (V := V)).

(** The entry has the same payload in both memories, if it has any. *)
Definition same_at (m m' : Memory) (e : addr) : Prop :=
  payload <$> entries m !! e = payload <$> entries m' !! e.

Lemma same_at_Some (m m' : Memory) (e : addr) (x : LRUHandle) :
  same_at m m' e -> entries m !! e = Some x -> exists x', entries m' !! e = Some x' /\ payload x = payload x'.
Proof.
  unfold same_at. intros Hs Hx. rewrite Hx in Hs. destruct (entries m' !! e) as [x'|]; [|done].
  exists x'. cbn in Hs. split; [done|congruence].
Qed.

Lemma table_inv_same (m m' : Memory) (t : HandleTable) :
  table_inv m t -> (forall e, e ∈ concat (list_ t) -> same_at m m' e) -> table_inv m' t.
Proof.
  intros [Hal Hb Hnd Hk Hl Hel] Hs.
  assert (forall e x', e ∈ concat (list_ t) -> entries m' !! e = Some x' ->
    exists x, entries m !! e = Some x /\ key x = key x' /\ hash x = hash x') as Hback.
  { intros e x' He Hx'. destruct (Hal e He) as [x Hx].
    destruct (same_at_Some m m' e x (Hs e He) Hx) as (y & Hy & [= Hky _ _ Hhy]). exists x. split_and!; congruence. }
  split; try done.
  - intros e He. destruct (Hal e He) as [x Hx]. destruct (same_at_Some m m' e x (Hs e He) Hx) as (y & ? & _).
    by exists y.
  - intros i chain e x' Hi He Hx'. destruct (Hback e x') as (x & Hx & _ & <-); [|done|by eapply Hb].
    apply concat_lookup. eauto.
  - intros e e' x x' He He' Hx Hx' Hkx. destruct (Hback e x He Hx) as (y & Hy & Hky & _).
    destruct (Hback e' x' He' Hx') as (y' & Hy' & Hky' & _). apply (Hk e e' y y'); congruence.
Qed.

Lemma charges_same_at (m m' : Memory) (es : list addr) :
  (forall e, e ∈ es -> same_at m m' e) -> charges m es = charges m' es.
Proof.
  intros Hs. apply charges_same. intros e He. specialize (Hs e He). unfold same_at, payload in Hs.
  destruct (entries m !! e), (entries m' !! e); cbn in *; congruence.
Qed.

Lemma shard_lists (s : nat) (m : Memory) (hs : list addr) (c : LRUCache) (out : list addr) :
  shard_inv s m hs c out ->
  NoDup (lru_ c ++ in_use_ c) /\ forall e, e ∈ lru_ c ++ in_use_ c <-> cached m s e.
Proof.
  intros [Hl Hu Hnl Hnu _ _ _]. split.
  - apply NoDup_app. split_and!; [done| |done]. intros e [_ He]%Hl [_ He']%Hu. lia.
  - intros e. rewrite elem_of_app, Hl, Hu. pose proof (nheld_nonneg e hs).
    split; [by intros [[? _]|[? _]]|]. intros Hc. destruct (decide (nheld e hs = 0)); [by left|right].
    split; [done|lia].
Qed.

(** A shard from the entries it has. *)
Lemma shard_inv_of (s : nat) (m : Memory) (hs : list addr) (c : LRUCache) (out l : list addr) :
  (forall e, e ∈ lru_ c <-> cached m s e /\ nheld e hs = 0) ->
  (forall e, e ∈ in_use_ c <-> cached m s e /\ 0 < nheld e hs) ->
  NoDup (lru_ c) -> NoDup (in_use_ c) ->
  (forall e, e ∈ concat (list_ (table_ c)) <-> cached m s e /\ e ∉ out) -> table_inv m (table_ c) ->
  NoDup l -> (forall e, e ∈ l <-> cached m s e) -> usage_ c = charges m l -> shard_inv s m hs c out.
Proof.
  intros Hl Hu Hnl Hnu Ht Hti Hnd Hin Hus.
  assert (shard_inv s m hs (set_usage c (charges m (lru_ c ++ in_use_ c))) out) as Hc by (by split).
  destruct (shard_lists _ _ _ _ _ Hc) as [Hnd' Hin']. cbn in Hnd', Hin'.
  split; try done. rewrite Hus. apply charges_perm, NoDup_Permutation; [done|done|].
  intros e. by rewrite Hin, Hin'.
Qed.

(** ** How many entries there are *)

Lemma few_keys (m : Memory) (es : list addr) (ks : list bytes) :
  NoDup es -> (forall e, e ∈ es -> exists x, entries m !! e = Some x /\ key x ∈ ks) ->
  (forall a b q, a ∈ es -> b ∈ es -> has_key m q a -> has_key m q b -> a = b) ->
  (length es <= length ks)%nat.
Proof.
  intros Hnd Hal Hk. set (keyof e := from_option key [] (entries m !! e)).
  rewrite <- (length_map keyof). apply submseteq_length, NoDup_submseteq.
  - apply NoDup_fmap_2_strong; [|done]. intros e e' He He' Heq.
    destruct (Hal e He) as (x & Hx & _). destruct (Hal e' He') as (x' & Hx' & _).
    unfold keyof in Heq. rewrite Hx, Hx' in Heq. cbn in Heq.
    apply (Hk e e' (key x)); [done|done|by exists x|by exists x'].
  - intros k (e & -> & He)%list_elem_of_fmap. destruct (Hal e He) as (x & Hx & Hin). unfold keyof. by rewrite Hx.
Qed.

Lemma few_in_table (s : nat) (m : Memory) (hs : list addr) (ks : list bytes) (c : LRUCache) (out : list addr) :
  mem_inv m hs ks -> shard_inv s m hs c out -> (length (concat (list_ (table_ c))) <= length ks)%nat.
Proof.
  intros Hm Hc. pose proof (si_tinv _ _ _ _ _ Hc) as Ht. apply (few_keys m); [apply Ht| |].
  - intros e [(x & Hx & _ & Hic) _]%(si_table _ _ _ _ _ Hc). exists x. split; [done|].
    by apply (mi_keys _ _ _ Hm e).
  - intros a b q. by apply table_keys_unique.
Qed.

Lemma usage_bound (s : nat) (m : Memory) (hs : list addr) (ks : list bytes) (c : LRUCache) (out : list addr) :
  mem_inv m hs ks -> shard_inv s m hs c out -> (length out <= 1)%nat -> 0 <= usage_ c < 2 ^ 63 + 2 ^ 32.
Proof.
  intros Hm Hc Ho. rewrite (si_usage _ _ _ _ _ Hc). destruct (shard_lists _ _ _ _ _ Hc) as [Hnd Hin].
  pose proof (charges_bound m hs ks (lru_ c ++ in_use_ c) Hm) as Hb.
  assert (length (lru_ c ++ in_use_ c) <= length (concat (list_ (table_ c)) ++ out))%nat as Hlen.
  { apply submseteq_length, NoDup_submseteq; [done|]. intros e He%Hin. apply elem_of_app.
    destruct (decide (e ∈ out)); [by right|left]. by apply (si_table _ _ _ _ _ Hc). }
  rewrite (length_app (concat _)) in Hlen. pose proof (few_in_table _ _ _ _ _ _ Hm Hc). pose proof (mi_few_keys _ _ _ Hm). lia.
Qed.

(** ** Handles *)

(** Changing the reference count only. *)
Lemma cached_set_refs (m : Memory) (s : nat) (e e' : addr) (x : LRUHandle) (n : Z) :
  entries m !! e = Some x -> cached (store m e (set_refs x n)) s e' <-> cached m s e'.
Proof.
  intros Hx. unfold cached. cbn. destruct (decide (e' = e)) as [->|Hne].
  - rewrite lookup_insert_eq, Hx. split; intros (y & [= <-] & ? & ?); eexists; (split; [done|]); done.
  - by rewrite lookup_insert_ne.
Qed.

Lemma same_store (m : Memory) (e : addr) (x y : LRUHandle) :
  entries m !! e = Some x -> payload x = payload y -> forall e', same_at m (store m e y) e'.
Proof.
  intros Hx Hp e'. unfold same_at. cbn. destruct (decide (e' = e)) as [->|Hne].
  - rewrite lookup_insert_eq, Hx. cbn. by rewrite Hp.
  - by rewrite lookup_insert_ne.
Qed.

(** An entry with the references that the handles [hs'] and the cache have. *)
Lemma mem_inv_store (m : Memory) (hs hs' : list addr) (ks : list bytes) (e : addr) (x y : LRUHandle) :
  mem_inv m hs ks -> entries m !! e = Some x -> payload x = payload y ->
  (in_cache y = true -> in_cache x = true) ->
  refs y = nheld e hs' + (if in_cache y then 1 else 0) -> 0 < refs y ->
  (forall e', e' <> e -> nheld e' hs' = nheld e' hs) -> Z.of_nat (length hs') < 2 ^ 32 - 1 ->
  mem_inv (store m e y) hs' ks.
Proof.
  intros Hm Hx Hp Hic Hr Hr' Hn Hf. pose proof Hp as [= Hk _ Hc Hh].
  assert (forall e' z, entries (store m e y) !! e' = Some z -> (e' = e /\ z = y) \/ (e' <> e /\ entries m !! e' = Some z))
    as Hcase.
  { intros e' z. cbn. destruct (decide (e' = e)) as [->|Hne];
      [rewrite lookup_insert_eq; intros [= <-]; by left|rewrite lookup_insert_ne by done; by right]. }
  split.
  - intros e' z [[-> ->]|[Hne Hz]]%Hcase; [done|]. rewrite Hn by done. by apply (mi_refs _ _ _ Hm).
  - intros e' z [[-> ->]|[Hne Hz]]%Hcase; [|by apply (mi_entry _ _ _ Hm e')].
    rewrite <- Hh, <- Hk, <- Hc. by apply (mi_entry _ _ _ Hm e).
  - intros e' z [[-> ->]|[Hne Hz]]%Hcase Hz'; [|by apply (mi_keys _ _ _ Hm e')].
    rewrite <- Hk. apply (mi_keys _ _ _ Hm e); auto.
  - intros e' He'. cbn. destruct (decide (e' = e)) as [->|Hne]; [rewrite lookup_insert_eq; by eexists|].
    rewrite lookup_insert_ne by done. apply (mi_held _ _ _ Hm). apply nheld_pos. rewrite <- Hn by done.
    by apply nheld_pos.
  - done.
  - apply (mi_few_keys _ _ _ Hm).
Qed.

Lemma Ref_spec (s : nat) (m : Memory) (hs : list addr) (ks : list bytes) (c : LRUCache) (e : addr) :
  mem_inv m hs ks -> shard_inv s m hs c [] -> cached m s e -> Z.of_nat (length (e :: hs)) < 2 ^ 32 - 1 ->
  exists m' c', Ref m c e = Ok (m', c') /\ mem_inv m' (e :: hs) ks /\ shard_inv s m' (e :: hs) c' [] /\
    keeps s m m' /\ usage_ c' = usage_ c /\ capacity_ c' = capacity_ c /\ table_ c' = table_ c /\
    lru_ c' = unlink e (lru_ c) /\ deleted m' = deleted m.
Proof.
  intros Hm Hc Hce Hf. pose proof Hce as (x & Hx & Hs & Hic).
  destruct (mi_refs _ _ _ Hm e x Hx) as [Hr Hr0]. rewrite Hic in Hr.
  pose proof (nheld_nonneg e hs) as Hn0. pose proof (nheld_le e hs) as Hn1. cbn [length] in Hf.
  destruct (shard_lists _ _ _ _ _ Hc) as [Hnd Hin]. pose proof Hc as [Hl Hu Hnl Hnu Ht Hti Hus].
  unfold Ref, deref. rewrite Hx. cbn [res_bind]. rewrite Hic, andb_true_r.
  set (y := set_refs x _). set (c' := if refs x =? 1 then _ else _).
  assert (refs y = nheld e (e :: hs) + 1) as Hy.
  { cbn [y refs set_refs nheld]. rewrite decide_True by done. unfold wrap_u32. rewrite Z.mod_small; lia. }
  assert (lru_ c' = unlink e (lru_ c) /\ in_use_ c' = (if refs x =? 1 then unlink e (in_use_ c) ++ [e] else in_use_ c) /\
    table_ c' = table_ c /\ usage_ c' = usage_ c /\ capacity_ c' = capacity_ c) as (El & Eu & Et & Eus & Ecap).
  { unfold c'. destruct (Z.eqb_spec (refs x) 1); split_and!; try done. cbn. rewrite unlink_notin; [done|].
    intros [_ ?]%Hl. lia. }
  exists (store m e y), c'. split; [done|]. split.
  { apply (mem_inv_store m hs (e :: hs) ks e x y); try done.
    - by rewrite Hy; cbn [y in_cache set_refs]; rewrite Hic.
    - rewrite Hy. pose proof (nheld_nonneg e (e :: hs)). lia.
    - intros e' Hne. cbn. by rewrite decide_False by done. }
  split; [|split_and!; try done; by apply (keeps_store s m e x y)].
  assert (forall e', cached (store m e y) s e' <-> cached m s e') as Hcs by (intros; by apply cached_set_refs).
  apply (shard_inv_of s _ _ c' [] (lru_ c ++ in_use_ c)).
  - intros e'. rewrite El, unlink_elem, Hl, Hcs. cbn [nheld].
    pose proof (nheld_nonneg e' hs). destruct (decide (e = e')) as [->|Hne]; [|intuition lia]. intuition lia.
  - intros e'. rewrite Eu, Hcs. cbn [nheld]. pose proof (nheld_nonneg e' hs).
    destruct (Z.eqb_spec (refs x) 1) as [H1|H1].
    + rewrite elem_of_app, unlink_elem, list_elem_of_singleton, Hu.
      destruct (decide (e = e')) as [<-|Hne]; intuition lia.
    + rewrite Hu. destruct (decide (e = e')) as [<-|Hne]; intuition lia.
  - rewrite El. by apply unlink_nodup.
  - rewrite Eu. case_if; [|done]. apply NoDup_app. split_and!; [by apply unlink_nodup| |apply NoDup_singleton].
    intros e' [? _]%unlink_elem ->%list_elem_of_singleton. done.
  - intros e'. by rewrite Et, Hcs, Ht.
  - rewrite Et. apply (table_inv_same m); [done|]. intros. by apply (same_store m e x y).
  - done.
  - intros e'. by rewrite Hcs.
  - rewrite Eus, Hus. apply charges_same_at. intros. by apply (same_store m e x y).
Qed.

(** A freed entry. *)
Definition free (m : Memory) (e : addr) (x : LRUHandle) : Memory :=
  mkMemory (delete e (entries m)) (deleted m ++ [(key x, value x)]).

Lemma mem_inv_free (m : Memory) (hs hs' : list addr) (ks : list bytes) (e : addr) (x : LRUHandle) :
  mem_inv m hs ks -> nheld e hs' = 0 -> (forall e', e' <> e -> nheld e' hs' = nheld e' hs) ->
  (length hs' <= length hs)%nat -> mem_inv (free m e x) hs' ks.
Proof.
  intros Hm Hn0 Hn Hf. split; cbn.
  - intros e' z [Hne Hz]%lookup_delete_Some. rewrite Hn by done. by apply (mi_refs _ _ _ Hm).
  - intros e' z [Hne Hz]%lookup_delete_Some. by apply (mi_entry _ _ _ Hm e').
  - intros e' z [Hne Hz]%lookup_delete_Some. by apply (mi_keys _ _ _ Hm e').
  - intros e' He'%nheld_pos. assert (e' <> e) as Hne by (intros ->; lia).
    rewrite lookup_delete_ne by done. apply (mi_held _ _ _ Hm), nheld_pos. by rewrite <- Hn.
  - pose proof (mi_few _ _ _ Hm). lia.
  - apply (mi_few_keys _ _ _ Hm).
Qed.

(** Entries other than [e] as before, [e] not in the cache any more. *)
Lemma cached_without (m m' : Memory) (s : nat) (e : addr) :
  (forall e', e' <> e -> entries m' !! e' = entries m !! e') ->
  (forall x, entries m' !! e = Some x -> in_cache x = false) ->
  forall e', cached m' s e' <-> cached m s e' /\ e' <> e.
Proof.
  intros Ho He e'. unfold cached. destruct (decide (e' = e)) as [->|Hne].
  - split; [intros (x & Hx & _ & Hic); by rewrite (He x Hx) in Hic|by intros [_ ?]].
  - rewrite Ho by done. tauto.
Qed.

(** An entry that is not in the cache goes away without a trace in the shard. *)
Lemma shard_inv_free (s : nat) (m : Memory) (hs hs' : list addr) (c : LRUCache) (e : addr) (x : LRUHandle) :
  shard_inv s m hs c [] -> entries m !! e = Some x -> in_cache x = false ->
  (forall e', e' <> e -> nheld e' hs' = nheld e' hs) -> shard_inv s (free m e x) hs' c [].
Proof.
  intros Hc Hx Hic Hno. destruct (shard_lists _ _ _ _ _ Hc) as [Hnd Hin]. pose proof Hc as [Hl Hu Hnl Hnu Ht Hti Hus].
  assert (~ cached m s e) as Hnc by (intros (z & ? & _ & ?); congruence).
  assert (forall e', cached (free m e x) s e' <-> cached m s e') as Hcs.
  { intros e'. rewrite (cached_without m (free m e x) s e).
    - split; [by intros [? _]|]. intros Hce. split; [done|]. by intros ->.
    - intros. cbn. by rewrite lookup_delete_ne.
    - cbn. by rewrite lookup_delete_eq. }
  assert (forall e', cached m s e' -> same_at m (free m e x) e') as Hsame.
  { intros e' Hce. unfold same_at. cbn. rewrite lookup_delete_ne; [done|by intros ->]. }
  apply (shard_inv_of s _ _ c [] (lru_ c ++ in_use_ c)); try done.
  - intros e'. rewrite Hl, Hcs. destruct (decide (e' = e)) as [->|Hd]; [tauto|by rewrite Hno].
  - intros e'. rewrite Hu, Hcs. destruct (decide (e' = e)) as [->|Hd]; [tauto|by rewrite Hno].
  - intros e'. by rewrite Hcs, Ht.
  - apply (table_inv_same m); [done|]. intros e' [He' _]%Ht. by apply Hsame.
  - intros e'. by rewrite Hcs.
  - rewrite Hus. apply charges_same_at. intros e' He'%Hin. by apply Hsame.
Qed.

(** An entry that loses a handle, but not the last reference: with the last
    handle it moves to the end of [lru_]. *)
Definition released (c : LRUCache) (e : addr) (idle : bool) : LRUCache :=
  if idle then LRU_Append_lru (LRU_Remove c e) e else c.

Lemma released_fields (c : LRUCache) (e : addr) (idle : bool) :
  table_ (released c e idle) = table_ c /\ usage_ (released c e idle) = usage_ c /\
  capacity_ (released c e idle) = capacity_ c.
Proof. by destruct idle. Qed.

Lemma shard_inv_released (s : nat) (m : Memory) (hs hs' : list addr) (c : LRUCache) (e : addr) (x : LRUHandle)
    (n : Z) (idle : bool) :
  shard_inv s m hs c [] -> entries m !! e = Some x -> Shard (hash x) = s ->
  0 < nheld e hs -> (forall e', e' <> e -> nheld e' hs' = nheld e' hs) ->
  (idle = true <-> in_cache x = true /\ nheld e hs' = 0) ->
  shard_inv s (store m e (set_refs x n)) hs' (released c e idle) [].
Proof.
  intros Hc Hx Hs Hne Hno Hi. set (y := set_refs x n).
  destruct (shard_lists _ _ _ _ _ Hc) as [Hnd Hin]. pose proof Hc as [Hl Hu Hnl Hnu Ht Hti Hus].
  destruct (released_fields c e idle) as (Et & Eus & _).
  assert (forall e', cached (store m e y) s e' <-> cached m s e') as Hcs by (intros; by apply cached_set_refs).
  assert (cached m s e -> in_cache x = true) as Hce by (intros (z & ? & _ & ?); congruence).
  assert (in_cache x = true -> cached m s e) as Hec by (intros; by exists x).
  pose proof (nheld_nonneg e hs') as Hn0.
  apply (shard_inv_of s _ _ _ [] (lru_ c ++ in_use_ c)).
  - intros e'. rewrite Hcs. unfold released. destruct idle; cbn [lru_ LRU_Append_lru LRU_Remove].
    + rewrite elem_of_app, unlink_elem, list_elem_of_singleton, Hl.
      destruct (decide (e' = e)) as [->|Hd]; [|rewrite Hno by done]; tauto.
    + rewrite Hl. destruct (decide (e' = e)) as [->|Hd]; [|by rewrite Hno].
      split; [intros [_ ?]; lia|]. intros [? ?]. destruct Hi as [_ Hi]. discriminate Hi. auto.
  - intros e'. rewrite Hcs. unfold released. destruct idle; cbn [in_use_ LRU_Append_lru LRU_Remove].
    + rewrite unlink_elem, Hu. destruct (decide (e' = e)) as [->|Hd]; [|rewrite Hno by done; tauto].
      split; [tauto|]. intros [_ ?]. destruct Hi as [Hi _]. specialize (Hi eq_refl). lia.
    + rewrite Hu. destruct (decide (e' = e)) as [->|Hd]; [|by rewrite Hno].
      split; intros [? ?]; (split; [done|]); [|lia].
      destruct (decide (nheld e hs' = 0)); [|lia]. destruct Hi as [_ Hi]. discriminate Hi. auto.
  - unfold released. destruct idle; [|done]. apply NoDup_app.
    split_and!; [by apply unlink_nodup| |apply NoDup_singleton].
    intros e' [? _]%unlink_elem ->%list_elem_of_singleton. done.
  - unfold released. destruct idle; [by apply unlink_nodup|done].
  - intros e'. by rewrite Et, Hcs, Ht.
  - rewrite Et. apply (table_inv_same m); [done|]. intros. by apply (same_store m e x y).
  - done.
  - intros e'. by rewrite Hcs.
  - rewrite Eus, Hus. apply charges_same_at. intros. by apply (same_store m e x y).
Qed.

(** Releasing one of the handles. *)
Lemma Release_spec (s : nat) (m : Memory) (hs hs' : list addr) (ks : list bytes) (c : LRUCache)
    (e : addr) (x : LRUHandle) :
  mem_inv m hs ks -> shard_inv s m hs c [] -> hs ≡ₚ e :: hs' -> entries m !! e = Some x ->
  Shard (hash x) = s ->
  exists m' c', Release m c e = Ok (m', c') /\ mem_inv m' hs' ks /\ shard_inv s m' hs' c' [] /\
    keeps s m m' /\ usage_ c' = usage_ c /\ capacity_ c' = capacity_ c /\
    deleted m' = deleted m ++
      (if bool_decide (nheld e hs' = 0) && negb (in_cache x) then [(key x, value x)] else []).
Proof.
  intros Hm Hc Hp Hx Hs.
  destruct (mi_refs _ _ _ Hm e x Hx) as [Hr Hr0]. pose proof (mi_few _ _ _ Hm) as Hf.
  assert (nheld e hs = 1 + nheld e hs') as Hne by (rewrite Hp; cbn; by rewrite decide_True).
  assert (forall e', e' <> e -> nheld e' hs' = nheld e' hs) as Hno
    by (intros; rewrite Hp; cbn; by rewrite decide_False).
  assert (length hs = S (length hs')) as Hlen by (by rewrite Hp).
  pose proof (nheld_nonneg e hs') as Hn0. pose proof (nheld_le e hs') as Hn1.
  unfold Release, Unref, deref. rewrite Hx. cbn [res_bind].
  set (y := set_refs x _). assert (refs y = nheld e hs' + (if in_cache x then 1 else 0)) as Hy.
  { cbn [y refs set_refs]. unfold wrap_u32. destruct (in_cache x); rewrite Z.mod_small; lia. }
  change (in_cache y) with (in_cache x). destruct (Z.eqb_spec (refs y) 0) as [Hy0|Hy0].
  - assert (in_cache x = false) as Hic by (destruct (in_cache x); [lia|done]). rewrite Hic in Hy.
    exists (free m e x), c. split; [done|]. split; [by apply (mem_inv_free m hs hs'); [|lia| |lia]|].
    split; [by apply (shard_inv_free s m hs)|]. split; [by apply keeps_free|]. split_and!; [done|done|].
    rewrite Hic, bool_decide_true by lia. done.
  - fold (released c e (in_cache x && (refs y =? 1))). set (idle := in_cache x && (refs y =? 1)).
    destruct (released_fields c e idle) as (_ & Eus & Ecap).
    exists (store m e y), (released c e idle). split; [done|]. split.
    { apply (mem_inv_store m hs hs' ks e x y); try done; [|lia]. destruct (in_cache x); lia. }
    split; [|split; [by apply (keeps_store s m e x y)|]; split_and!; [done|done|]].
    + apply (shard_inv_released s m hs hs' c e x); try done; [lia|].
      unfold idle. rewrite andb_true_iff, Z.eqb_eq. destruct (in_cache x); intuition lia.
    + cbn. destruct (in_cache x); cbn; rewrite ?andb_false_r, ?andb_true_r; [by rewrite app_nil_r|].
      rewrite bool_decide_false by lia. by rewrite app_nil_r.
Qed.

(** ** Erasing *)

Lemma charges_unlink (m : Memory) (o : addr) (x : LRUHandle) (l : list addr) :
  NoDup l -> o ∈ l -> entries m !! o = Some x -> charges m l = charge x + charges m (unlink o l).
Proof. intros Hnd Ho Hx. rewrite (charges_perm m _ _ (unlink_perm o l Hnd Ho)). cbn. by rewrite Hx. Qed.

Lemma shard_inv_erased (s : nat) (m m' : Memory) (hs : list addr) (c c' : LRUCache) (o : addr) (x : LRUHandle) :
  shard_inv s m hs c [o] -> entries m !! o = Some x -> cached m s o ->
  (forall e, e <> o -> entries m' !! e = entries m !! e) ->
  (forall z, entries m' !! o = Some z -> in_cache z = false) ->
  lru_ c' = unlink o (lru_ c) -> in_use_ c' = unlink o (in_use_ c) -> table_ c' = table_ c ->
  usage_ c' = usage_ c - charge x -> shard_inv s m' hs c' [].
Proof.
  intros Hc Hx Hco Hother Ho El Eu Et Eus.
  destruct (shard_lists _ _ _ _ _ Hc) as [Hnd Hin]. pose proof Hc as [Hl Hu Hnl Hnu Ht Hti Hus].
  pose proof (cached_without m m' s o Hother Ho) as Hcs.
  assert (forall e, e <> o -> same_at m m' e) as Hsame by (intros; unfold same_at; by rewrite Hother).
  apply (shard_inv_of s _ _ c' [] (unlink o (lru_ c ++ in_use_ c))).
  - intros e. rewrite El, unlink_elem, Hl, Hcs. tauto.
  - intros e. rewrite Eu, unlink_elem, Hu, Hcs. tauto.
  - rewrite El. by apply unlink_nodup.
  - rewrite Eu. by apply unlink_nodup.
  - intros e. rewrite Et, Ht, Hcs, list_elem_of_singleton. set_solver.
  - rewrite Et. apply (table_inv_same m); [done|]. intros e [_ He]%Ht. apply Hsame. set_solver.
  - by apply unlink_nodup.
  - intros e. rewrite unlink_elem, Hin, Hcs. tauto.
  - rewrite Eus, Hus, (charges_unlink m o x) by (done || by apply Hin).
    rewrite (charges_same_at m m'); [lia|]. intros e [? _]%unlink_elem. by apply Hsame.
Qed.

Lemma FinishErase_spec (s : nat) (m : Memory) (hs : list addr) (ks : list bytes) (c : LRUCache)
    (o : addr) (x : LRUHandle) :
  mem_inv m hs ks -> shard_inv s m hs c [o] -> entries m !! o = Some x -> cached m s o ->
  exists m' c', FinishErase m c (Some o) = Ok (m', c') /\ mem_inv m' hs ks /\ shard_inv s m' hs c' [] /\
    keeps s m m' /\ usage_ c' = usage_ c - charge x /\ capacity_ c' = capacity_ c /\ table_ c' = table_ c /\
    lru_ c' = unlink o (lru_ c) /\ in_use_ c' = unlink o (in_use_ c) /\
    deleted m' = deleted m ++ (if bool_decide (nheld o hs = 0) then [(key x, value x)] else []).
Proof.
  intros Hm Hc Hx Hco. pose proof Hco as (x' & Hx' & Hs & Hic). rewrite Hx in Hx'. injection Hx' as <-.
  destruct (mi_refs _ _ _ Hm o x Hx) as [Hr Hr0]. rewrite Hic in Hr. pose proof (mi_few _ _ _ Hm).
  pose proof (nheld_nonneg o hs). pose proof (nheld_le o hs).
  pose proof (usage_bound _ _ _ _ _ _ Hm Hc ltac:(cbn; lia)) as Hub.
  assert (0 <= usage_ c - charge x < 2 ^ 64) as Hur.
  { destruct (mi_entry _ _ _ Hm o x Hx) as [_ ?]. rewrite (si_usage _ _ _ _ _ Hc) in *.
    destruct (shard_lists _ _ _ _ _ Hc) as [Hnd Hin]. revert Hub.
    rewrite (charges_unlink m o x) by (done || by apply Hin).
    pose proof (charges_bound m hs ks (unlink o (lru_ c ++ in_use_ c)) Hm). lia. }
  unfold FinishErase, deref. rewrite Hx. cbn [res_bind]. unfold Unref, deref. cbn [entries store usage_ LRU_Remove].
  rewrite lookup_insert_eq. cbn [res_bind]. set (y := set_refs (set_in_cache x false) _). set (c' := set_usage _ _).
  assert (refs y = nheld o hs) as Hy.
  { cbn [y refs set_refs set_in_cache]. unfold wrap_u32. rewrite Z.mod_small; lia. }
  assert (usage_ c' = usage_ c - charge x) as Eus by (cbn; unfold wrap_u64; by rewrite Z.mod_small).
  assert (payload x = payload y) as Hp by done.
  destruct (Z.eqb_spec (refs y) 0) as [Hy0|Hy0].
  - exists (free m o x), c'. split; [cbn; by rewrite delete_insert_eq|].
    split; [by apply (mem_inv_free m hs hs); [|lia| |]|]. split.
    { apply (shard_inv_erased s m _ hs c c' o x); try done; cbn.
      - intros. by rewrite lookup_delete_ne.
      - by rewrite lookup_delete_eq. }
    split; [by apply keeps_free|]. split_and!; try done. rewrite bool_decide_true by lia. done.
  - exists (store m o y), c'. cbn [in_cache y set_refs set_in_cache andb].
    split; [unfold store; cbn; by rewrite insert_insert_eq|].
    split; [by apply (mem_inv_store m hs hs ks o x y); cbn [in_cache y set_refs set_in_cache]; try done; lia|].
    split.
    { apply (shard_inv_erased s m _ hs c c' o x); try done; cbn.
      - intros. by rewrite lookup_insert_ne.
      - rewrite lookup_insert_eq. by intros z [= <-]. }
    split; [by apply (keeps_store s m o x y)|]. split_and!; try done.
    rewrite bool_decide_false by lia. by rewrite app_nil_r.
Qed.

(** Taking the entry of the key out of the cache. *)
Lemma erase_key_spec (s : nat) (m : Memory) (hs : list addr) (ks : list bytes) (c : LRUCache) (k : bytes) :
  mem_inv m hs ks -> shard_inv s m hs c [] ->
  exists m' c', erase_key m c k (HashSlice k) = Ok (m', c') /\ mem_inv m' hs ks /\ shard_inv s m' hs c' [] /\
    keeps s m m' /\ capacity_ c' = capacity_ c /\
    (forall e, e ∈ concat (list_ (table_ c')) <-> e ∈ concat (list_ (table_ c)) /\ ~ has_key m k e) /\
    ((m' = m /\ c' = c) \/
     exists o x, entries m !! o = Some x /\ key x = k /\ cached m s o /\
       usage_ c' = usage_ c - charge x /\ lru_ c' = unlink o (lru_ c) /\ in_use_ c' = unlink o (in_use_ c) /\
       deleted m' = deleted m ++ (if bool_decide (nheld o hs = 0) then [(key x, value x)] else [])).
Proof.
  intros Hm Hc. pose proof (si_tinv _ _ _ _ _ Hc) as Hti.
  pose proof (few_in_table _ _ _ _ _ _ Hm Hc) as Hfew. pose proof (mi_few_keys _ _ _ Hm) as Hks.
  destruct (table_Remove_spec m (table_ c) k Hti) as (t' & old & Hrm & Ht' & Hold).
  { intros e x Hx. apply (mi_entry _ _ _ Hm e x Hx). }
  { lia. }
  unfold erase_key. rewrite Hrm. cbn [res_bind]. destruct old as [o|].
  - destruct Hold as [Hk Hp]. pose proof Hk as (x & Hx & Hkx).
    assert (o ∈ concat (list_ (table_ c))) as Hino by (rewrite Hp; by constructor).
    pose proof (proj1 (si_table _ _ _ _ _ Hc o) Hino) as [Hco _].
    assert (NoDup (o :: concat (list_ t'))) as [Hno _]%NoDup_cons by (rewrite <- Hp; apply Hti).
    assert (shard_inv s m hs (set_table c t') [o]) as Hc1.
    { destruct Hc as [Hl Hu Hnl Hnu Ht _ Hus]. split; try done. intros e. cbn.
      rewrite list_elem_of_singleton. specialize (Ht e). rewrite Hp, elem_of_cons in Ht.
      split; [intros He; split; [apply Ht; by right|by intros ->]|].
      intros [Hce Hne]. destruct (proj2 Ht) as [?|?]; [by split; [|apply not_elem_of_nil]|done|done]. }
    destruct (FinishErase_spec s m hs ks _ o x Hm Hc1 Hx Hco)
      as (m' & c' & -> & Hm' & Hc' & Hkeep & Eus & Ecap & Et & El & Eu & Ed).
    exists m', c'. split; [done|]. split_and!; try done.
    + intros e. rewrite Et, Hp, elem_of_cons. cbn [table_ set_table]. split.
      * intros He. split; [by right|]. intros Hke. assert (e = o) as ->; [|done].
        apply (table_keys_unique m (table_ c) e o k); try done. rewrite Hp. by constructor.
      * intros [[->|He] Hnk]; [by destruct Hnk|done].
    + right. by exists o, x.
  - destruct Hold as [-> Hnone]. exists m, c. cbn [FinishErase].
    split; [by destruct c|]. split_and!; try done.
    + intros e. split; [intros He; split; [done|by apply Hnone]|by intros [? _]].
    + by left.
Qed.

End LruShard.
