(* ===== verification/LruOps.v ===== *)
(** The operations that clients of a shard call.

    [Lookup] takes a handle of the entry of a key, [Insert] makes an entry that
    replaces the one of its key and evicts idle entries, the least recently used
    ones first and no more than needed, [Prune] evicts all of them. *)
From stdpp Require Import gmap.
From S2P Require Import Prelude Bytes Coding Block LruCache LruSpec LruShard.
Import LruCache.

Section LruOps.
Context {bo : ByteOrder} {V : Type}.
Local Abbreviation Memory := (Memory (V := V)).
Local Abbreviation LRUHandle := (LRUHandle (V := V)).

(** What the deleters of the entries get. *)
Definition kvs (m : Memory) (es : list addr) : list (bytes * V) :=
  omap (fun e => (fun x => (key x, value x)) <$> entries m !! e) es.

Lemma kvs_same (m m' : Memory) (es : list addr) :
  (forall e, e ∈ es -> same_at m m' e) -> kvs m es = kvs m' es.
Proof.
  unfold kvs. induction es as [|e es IH]; intros Hs; [done|]. cbn.
  rewrite IH by (intros; apply Hs; by constructor). specialize (Hs e ltac:(by constructor)).
  unfold same_at, payload in Hs. destruct (entries m !! e), (entries m' !! e); cbn in *; congruence.
Qed.

(** Entries that are still there have not changed. *)
Lemma keeps_same (s : nat) (m m' : Memory) (e : addr) :
  keeps s m m' -> is_Some (entries m' !! e) -> same_at m m' e.
Proof.
  intros Hk [x' Hx']. destruct (k_sub _ _ _ Hk e x' Hx') as (x & Hx & Hp).
  unfold same_at. rewrite Hx, Hx'. cbn. by rewrite Hp.
Qed.

(** ** Evicting *)

Lemma erase_oldest (s : nat) (m : Memory) (hs : list addr) (ks : list bytes) (c : LRUCache)
    (old : addr) (rest : list addr) :
  mem_inv m hs ks -> shard_inv s m hs c [] -> lru_ c = old :: rest ->
  exists m' c' x, entries m !! old = Some x /\ erase_key m c (key x) (hash x) = Ok (m', c') /\
    mem_inv m' hs ks /\ shard_inv s m' hs c' [] /\ keeps s m m' /\ capacity_ c' = capacity_ c /\
    lru_ c' = rest /\ in_use_ c' = in_use_ c /\ usage_ c' = usage_ c - charge x /\
    deleted m' = deleted m ++ [(key x, value x)].
Proof.
  intros Hm Hc Hlru. assert (old ∈ lru_ c) as Hold by (rewrite Hlru; by constructor).
  pose proof (proj1 (si_lru _ _ _ _ _ Hc old) Hold) as [Hco Hn]. pose proof Hco as (x & Hx & Hs & Hic).
  destruct (erase_key_spec s m hs ks c (key x) Hm Hc)
    as (m' & c' & He & Hm' & Hc' & Hkeep & Ecap & Htab & Hcase).
  rewrite <- (proj1 (mi_entry _ _ _ Hm old x Hx)) in He.
  assert (old ∈ concat (list_ (table_ c))) as Hint
    by (apply (si_table _ _ _ _ _ Hc); split; [done|apply not_elem_of_nil]).
  exists m', c', x. destruct Hcase as [[-> ->]|(o & y & Hy & Hky & Hcy & Eus & El & Eu & Ed)].
  { apply Htab in Hint as [_ []]. by exists x. }
  assert (o = old) as ->.
  { apply (table_keys_unique m (table_ c) o old (key x)); [apply (si_tinv _ _ _ _ _ Hc)| |done|by exists y|by exists x].
    apply (si_table _ _ _ _ _ Hc). split; [done|apply not_elem_of_nil]. }
  rewrite Hx in Hy. injection Hy as <-. rewrite bool_decide_true in Ed by done.
  split_and!; try done.
  - rewrite El, Hlru. apply unlink_head. rewrite <- Hlru. apply (si_nodup_lru _ _ _ _ _ Hc).
  - rewrite Eu. apply unlink_notin. intros [_ ?]%(si_use _ _ _ _ _ Hc). lia.
Qed.

(** What the eviction of the [n] oldest idle entries leaves. *)
Definition evicted (s : nat) (m : Memory) (hs : list addr) (ks : list bytes) (c : LRUCache)
    (n : nat) (m' : Memory) (c' : LRUCache) : Prop :=
  mem_inv m' hs ks /\ shard_inv s m' hs c' [] /\ keeps s m m' /\ capacity_ c' = capacity_ c /\
  in_use_ c' = in_use_ c /\ lru_ c' = drop n (lru_ c) /\
  usage_ c' = usage_ c - charges m (take n (lru_ c)) /\
  deleted m' = deleted m ++ kvs m (take n (lru_ c)).

Lemma evicted_none (s : nat) (m : Memory) (hs : list addr) (ks : list bytes) (c : LRUCache) :
  mem_inv m hs ks -> shard_inv s m hs c [] -> evicted s m hs ks c O m c.
Proof. intros Hm Hc. split_and!; try done; rewrite take_0; cbn; [lia|by rewrite app_nil_r]. Qed.

(** One more. *)
Lemma evicted_step (s : nat) (m m1 : Memory) (hs : list addr) (ks : list bytes) (c c1 : LRUCache)
    (old : addr) (rest : list addr) (x : LRUHandle) (n : nat) (m' : Memory) (c' : LRUCache) :
  lru_ c = old :: rest -> entries m !! old = Some x ->
  shard_inv s m1 hs c1 [] -> keeps s m m1 -> capacity_ c1 = capacity_ c -> lru_ c1 = rest ->
  in_use_ c1 = in_use_ c -> usage_ c1 = usage_ c - charge x -> deleted m1 = deleted m ++ [(key x, value x)] ->
  evicted s m1 hs ks c1 n m' c' -> evicted s m hs ks c (S n) m' c'.
Proof.
  intros Hlru Hx Hc1 Hk1 Ecap El Eu Eus Ed (Hm' & Hc' & Hk' & Ecap' & Eu' & El' & Eus' & Ed').
  assert (forall e, e ∈ take n rest -> same_at m m1 e) as Hsame.
  { intros e He. apply (keeps_same s); [done|].
    assert (e ∈ lru_ c1) as ((y & Hy & _) & _)%(si_lru _ _ _ _ _ Hc1); [|by eexists].
    rewrite El. rewrite <- (take_drop n rest). apply elem_of_app. by left. }
  split_and!; try done.
  - by etrans.
  - congruence.
  - congruence.
  - rewrite El', El, Hlru. done.
  - rewrite Eus', Eus, El, Hlru. cbn [take charges]. rewrite Hx. cbn. rewrite (charges_same_at m m1) by done. lia.
  - rewrite Ed', Ed, El, Hlru. cbn [take]. unfold kvs at 2. cbn. rewrite Hx. cbn.
    fold (kvs m (take n rest)). by rewrite (kvs_same m m1), <- app_assoc by done.
Qed.

Lemma evict_spec (fuel : nat) (s : nat) (m : Memory) (hs : list addr) (ks : list bytes) (c : LRUCache) :
  mem_inv m hs ks -> shard_inv s m hs c [] -> (length (lru_ c) <= fuel)%nat ->
  exists m' c' n, evict fuel m c = Ok (m', c') /\ evicted s m hs ks c n m' c' /\
    (usage_ c' <= capacity_ c' \/ lru_ c' = []) /\
    forall i, (i < n)%nat -> capacity_ c < usage_ c - charges m (take i (lru_ c)).
Proof.
  revert m c. induction fuel as [|fuel IH]; intros m c Hm Hc Hf; cbn [evict].
  - destruct (lru_ c) as [|old rest] eqn:Hlru; cbn in Hf; [|lia].
    exists m, c, O. split; [by case_if|]. split; [by apply evicted_none|]. split; [by right|lia].
  - destruct (Z.ltb_spec (capacity_ c) (usage_ c)) as [Hlt|Hge].
    + destruct (lru_ c) as [|old rest] eqn:Hlru.
      { exists m, c, O. split; [done|]. split; [by apply evicted_none|]. split; [by right|lia]. }
      destruct (erase_oldest s m hs ks c old rest Hm Hc Hlru)
        as (m1 & c1 & x & Hx & He & Hm1 & Hc1 & Hk1 & Ecap & El & Eu & Eus & Ed).
      unfold deref. rewrite Hx. cbn [res_bind]. rewrite He. cbn [res_bind].
      destruct (IH m1 c1 Hm1 Hc1) as (m' & c' & n & -> & Hev & Hcap & Hmin); [rewrite El; cbn in Hf; lia|].
      exists m', c', (S n). split; [done|]. split; [by eapply evicted_step|]. split; [done|].
      intros [|i] Hi; cbn [take charges]; [lia|]. rewrite Hx. cbn.
      specialize (Hmin i ltac:(lia)). rewrite El, Eus, Ecap in Hmin.
      rewrite (charges_same_at m m1); [lia|]. intros e He'. apply (keeps_same s); [done|].
      assert (e ∈ lru_ c1) as ((y & Hy & _) & _)%(si_lru _ _ _ _ _ Hc1); [|by eexists].
      rewrite El, <- (take_drop i rest). apply elem_of_app. by left.
    + exists m, c, O. split; [done|]. split; [by apply evicted_none|]. split; [left; lia|lia].
Qed.

Lemma prune_spec (fuel : nat) (s : nat) (m : Memory) (hs : list addr) (ks : list bytes) (c : LRUCache) :
  mem_inv m hs ks -> shard_inv s m hs c [] -> (length (lru_ c) <= fuel)%nat ->
  exists m' c', prune fuel m c = Ok (m', c') /\ evicted s m hs ks c (length (lru_ c)) m' c'.
Proof.
  revert m c. induction fuel as [|fuel IH]; intros m c Hm Hc Hf; cbn [prune].
  - destruct (lru_ c) as [|old rest] eqn:Hlru; cbn in Hf; [|lia].
    exists m, c. split; [done|]. by apply evicted_none.
  - destruct (lru_ c) as [|old rest] eqn:Hlru; [exists m, c; split; [done|]; by apply evicted_none|].
    destruct (erase_oldest s m hs ks c old rest Hm Hc Hlru)
      as (m1 & c1 & x & Hx & He & Hm1 & Hc1 & Hk1 & Ecap & El & Eu & Eus & Ed).
    unfold deref. rewrite Hx. cbn [res_bind]. rewrite He. cbn [res_bind].
    destruct (IH m1 c1 Hm1 Hc1) as (m' & c' & -> & Hev); [rewrite El; cbn in Hf; lia|].
    exists m', c'. split; [done|]. rewrite El in Hev. by eapply evicted_step.
Qed.

(** ** New entries *)

Lemma malloc_fresh (m : Memory) : entries m !! malloc m = None.
Proof. apply not_elem_of_dom. apply is_fresh. Qed.

Lemma ledger_new (m : Memory) (e : addr) (y : LRUHandle) :
  entries m !! e = None -> ledger (store m e y) ≡ₚ (key y, value y) :: ledger m.
Proof. intros He. unfold ledger. cbn. rewrite map_to_list_insert by done. cbn. solve_Permutation. Qed.

Lemma nheld_new (m : Memory) (hs : list addr) (ks : list bytes) (e : addr) :
  mem_inv m hs ks -> entries m !! e = None -> nheld e hs = 0.
Proof.
  intros Hm He. pose proof (nheld_nonneg e hs). destruct (decide (nheld e hs = 0)) as [?|Hn]; [done|].
  destruct (mi_held _ _ _ Hm e) as [x Hx]; [apply nheld_pos; lia|congruence].
Qed.

Lemma mem_inv_new (m : Memory) (hs : list addr) (ks : list bytes) (e : addr) (y : LRUHandle) :
  mem_inv m hs ks -> entries m !! e = None -> refs y = 1 + (if in_cache y then 1 else 0) ->
  hash y = HashSlice (key y) -> 0 <= charge y < 2 ^ 32 -> (in_cache y = true -> key y ∈ ks) ->
  Z.of_nat (length (e :: hs)) < 2 ^ 32 - 1 -> mem_inv (store m e y) (e :: hs) ks.
Proof.
  intros Hm He Hr Hh Hc Hk Hf. pose proof (nheld_new m hs ks e Hm He) as Hn.
  assert (forall e' z, entries (store m e y) !! e' = Some z -> (e' = e /\ z = y) \/ (e' <> e /\ entries m !! e' = Some z))
    as Hcase.
  { intros e' z. cbn. destruct (decide (e' = e)) as [->|Hne];
      [rewrite lookup_insert_eq; intros [= <-]; by left|rewrite lookup_insert_ne by done; by right]. }
  split; try done.
  - intros e' z [[-> ->]|[Hne Hz]]%Hcase; cbn [nheld].
    + rewrite decide_True, Hn, Hr by done. destruct (in_cache y); lia.
    + rewrite decide_False by done. by apply (mi_refs _ _ _ Hm).
  - intros e' z [[-> ->]|[Hne Hz]]%Hcase; [done|by apply (mi_entry _ _ _ Hm e')].
  - intros e' z [[-> ->]|[Hne Hz]]%Hcase Hz'; [auto|by apply (mi_keys _ _ _ Hm e')].
  - intros e' He'. cbn. destruct (decide (e' = e)) as [->|Hne]; [rewrite lookup_insert_eq; by eexists|].
    rewrite lookup_insert_ne by done. apply (mi_held _ _ _ Hm). set_solver.
  - apply (mi_few_keys _ _ _ Hm).
Qed.

Lemma cached_new (m : Memory) (s : nat) (e : addr) (y : LRUHandle) (e' : addr) :
  entries m !! e = None ->
  cached (store m e y) s e' <-> cached m s e' \/ (e' = e /\ Shard (hash y) = s /\ in_cache y = true).
Proof.
  intros He. unfold cached. cbn. destruct (decide (e' = e)) as [->|Hne].
  - rewrite lookup_insert_eq, He. split; [intros (z & [= <-] & ?); by right|].
    intros [(z & ? & _)|(_ & ? & ?)]; [done|by exists y].
  - rewrite lookup_insert_ne by done. tauto.
Qed.

Lemma same_new (m : Memory) (e : addr) (y : LRUHandle) (e' : addr) (s : nat) :
  entries m !! e = None -> cached m s e' -> same_at m (store m e y) e'.
Proof.
  intros He (x & Hx & _). unfold same_at. cbn. rewrite lookup_insert_ne; [done|congruence].
Qed.

(** An entry that is not cached does not concern the shard. *)
Lemma shard_inv_uncached (s : nat) (m : Memory) (hs : list addr) (c : LRUCache) (e : addr) (y : LRUHandle) :
  shard_inv s m hs c [] -> entries m !! e = None -> in_cache y = false ->
  shard_inv s (store m e y) (e :: hs) c [].
Proof.
  intros Hc He Hy. destruct (shard_lists _ _ _ _ _ Hc) as [Hnd Hin]. pose proof Hc as [Hl Hu Hnl Hnu Ht Hti Hus].
  assert (forall e', cached (store m e y) s e' <-> cached m s e') as Hcs
    by (intros; rewrite cached_new by done; intuition congruence).
  assert (~ cached m s e) as Hnc by (intros (z & ? & _); congruence).
  apply (shard_inv_of s _ _ c [] (lru_ c ++ in_use_ c)); try done.
  - intros e'. rewrite Hl, Hcs. cbn [nheld]. case_decide as Hd; [subst; tauto|done].
  - intros e'. rewrite Hu, Hcs. cbn [nheld]. case_decide as Hd; [subst; tauto|done].
  - intros e'. by rewrite Ht, Hcs.
  - apply (table_inv_same m); [done|]. intros e' [He' _]%Ht. by eapply same_new.
  - intros e'. by rewrite Hin, Hcs.
  - rewrite Hus. apply charges_same_at. intros e' He'%Hin. by eapply same_new.
Qed.

(** A cached entry, not in the table yet. *)
Lemma shard_inv_cached (s : nat) (m : Memory) (hs : list addr) (ks : list bytes) (c : LRUCache) (e : addr)
    (y : LRUHandle) :
  mem_inv m hs ks -> shard_inv s m hs c [] -> entries m !! e = None -> in_cache y = true -> Shard (hash y) = s ->
  0 <= charge y < 2 ^ 32 ->
  shard_inv s (store m e y) (e :: hs)
    (set_usage (LRU_Append_in_use c e) (wrap_u64 (usage_ c + charge y))) [e].
Proof.
  intros Hm Hc He Hy Hs Hch. destruct (shard_lists _ _ _ _ _ Hc) as [Hnd Hin].
  pose proof Hc as [Hl Hu Hnl Hnu Ht Hti Hus].
  pose proof (usage_bound _ _ _ _ _ _ Hm Hc ltac:(cbn; lia)) as Hub.
  assert (forall e', cached (store m e y) s e' <-> cached m s e' \/ e' = e) as Hcs
    by (intros; rewrite cached_new by done; intuition congruence).
  assert (~ cached m s e) as Hnc by (intros (z & ? & _); congruence).
  pose proof (nheld_new m hs ks e Hm He) as Hn0.
  apply (shard_inv_of s _ _ _ [e] (e :: lru_ c ++ in_use_ c)); cbn [lru_ in_use_ table_ usage_ set_usage LRU_Append_in_use].
  - intros e'. rewrite Hl, Hcs. cbn [nheld]. pose proof (nheld_nonneg e' hs).
    case_decide as Hd; [subst; intuition lia|]. intuition congruence.
  - intros e'. rewrite elem_of_app, list_elem_of_singleton, Hu, Hcs. cbn [nheld]. pose proof (nheld_nonneg e' hs).
    case_decide as Hd; [subst; intuition lia|]. intuition congruence.
  - done.
  - apply NoDup_app. split_and!; [done| |apply NoDup_singleton].
    intros e' [He' _]%Hu ->%list_elem_of_singleton. done.
  - intros e'. rewrite Ht, Hcs, list_elem_of_singleton. split; [intros [He' _]; split; [by left|by intros ->]|].
    intros [[He'| ->] ?]; [|done]. split; [done|apply not_elem_of_nil].
  - apply (table_inv_same m); [done|]. intros e' [He' _]%Ht. by eapply same_new.
  - constructor; [by rewrite Hin|done].
  - intros e'. rewrite elem_of_cons, Hin, Hcs. tauto.
  - unfold wrap_u64. rewrite Z.mod_small by lia. cbn [charges entries store]. rewrite lookup_insert_eq. cbn.
    rewrite Hus, (charges_same_at m (store m e y)); [lia|]. intros e' He'%Hin. by eapply same_new.
Qed.

(** The entry goes to the table; the one it replaces, if any, is left to erase. *)
Lemma table_Insert_shard (s : nat) (m : Memory) (hs : list addr) (ks : list bytes) (c : LRUCache) (e : addr)
    (x : LRUHandle) :
  mem_inv m hs ks -> shard_inv s m hs c [e] -> cached m s e -> entries m !! e = Some x ->
  exists t' old, table_Insert m (table_ c) e = Ok (t', old) /\
    shard_inv s m hs (set_table c t') (match old with Some o => [o] | None => [] end) /\
    forall o, old = Some o -> o <> e /\ cached m s o /\ has_key m (key x) o.
Proof.
  intros Hm Hc Hce Hx. pose proof Hc as [Hl Hu Hnl Hnu Ht Hti Hus].
  assert (e ∉ concat (list_ (table_ c))) as Hnew by (rewrite Ht; set_solver).
  destruct (table_Insert_spec m (table_ c) e x Hti) as (t' & old & Hins & Ht' & Hold); [|done|done| |].
  { intros e' x' Hx'. apply (mi_entry _ _ _ Hm e' x' Hx'). }
  { intros Hnone. pose proof (mi_few_keys _ _ _ Hm). enough (length (e :: concat (list_ (table_ c))) <= length ks)%nat by lia.
    apply (few_keys m).
    - constructor; [done|apply Hti].
    - intros e' He'. assert (cached m s e') as (z & Hz & _ & Hiz).
      { apply elem_of_cons in He' as [->|He']; [done|]. by apply Ht in He' as [? _]. }
      exists z. split; [done|]. by apply (mi_keys _ _ _ Hm e').
    - apply (new_key_unique m _ e x Hx Hnone). intros a b q. by apply table_keys_unique. }
  exists t', old. split; [done|]. destruct old as [o|].
  - destruct Hold as (Hk & rest & Hp & Hp'). assert (o ∈ concat (list_ (table_ c))) as Hio by (rewrite Hp; by constructor).
    pose proof (proj1 (Ht o) Hio) as [Hco Hoe]. assert (o <> e) as Hne by set_solver.
    split; [|by intros ? [= <-]]. split; try done. intros e'. cbn [table_ set_table].
    rewrite Hp', elem_of_cons, list_elem_of_singleton. specialize (Ht e'). rewrite Hp, elem_of_cons, list_elem_of_singleton in Ht.
    assert (o ∉ rest) as Hor by (assert (NoDup (o :: rest)) as [? _]%NoDup_cons; [rewrite <- Hp; apply Hti|done]).
    destruct (decide (e' = e)) as [->|]; [split; [by intros _|by left]|].
    destruct (decide (e' = o)) as [->|]; [split; [by intros [?|?]|by intros [_ []]]|]. tauto.
  - split; [|done]. split; try done. intros e'. cbn [table_ set_table].
    rewrite Hold, elem_of_cons, Ht, list_elem_of_singleton. pose proof (not_elem_of_nil e').
    destruct (decide (e' = e)) as [->|]; tauto.
Qed.

Definition new_handle (c : LRUCache) (k : bytes) (v : V) (n : Z) : LRUHandle :=
  if 0 <? capacity_ c then mkHandle v n true 2 (HashSlice k) k else mkHandle v n false 1 (HashSlice k) k.

(** Before the eviction. *)
Lemma insert_entry (s : nat) (m : Memory) (hs : list addr) (ks : list bytes) (c : LRUCache) (k : bytes) (n : Z) (v : V) :
  mem_inv m hs ks -> shard_inv s m hs c [] -> k ∈ ks -> Shard (HashSlice k) = s -> 0 <= n < 2 ^ 32 ->
  Z.of_nat (length (malloc m :: hs)) < 2 ^ 32 - 1 -> 0 < capacity_ c ->
  let e := malloc m in
  let m1 := store m e (mkHandle v n true 2 (HashSlice k) k) in
  let c1 := set_usage (LRU_Append_in_use c e) (wrap_u64 (usage_ c + n)) in
  exists t old m2 c2, table_Insert m1 (table_ c1) e = Ok (t, old) /\
    FinishErase m1 (set_table c1 t) old = Ok (m2, c2) /\ mem_inv m2 (e :: hs) ks /\
    shard_inv s m2 (e :: hs) c2 [] /\ keeps s m1 m2 /\ capacity_ c2 = capacity_ c /\ e ∈ in_use_ c2 /\
    (forall o, old = Some o -> has_key m k o) /\
    lru_ c2 = match old with Some o => unlink o (lru_ c) | None => lru_ c end /\
    deleted m2 = deleted m ++ kvs m (filter (fun o => o ∈ lru_ c) (match old with Some o => [o] | None => [] end)).
Proof.
  intros Hm Hc Hk Hs Hn Hf Hcap e m1 c1. pose proof (malloc_fresh m) as He. fold e in He, Hf.
  set (y := mkHandle v n true 2 (HashSlice k) k) in *.
  assert (mem_inv m1 (e :: hs) ks) as Hm1 by (by apply mem_inv_new).
  assert (shard_inv s m1 (e :: hs) c1 [e]) as Hc1 by (by apply (shard_inv_cached s m hs ks c e y)).
  assert (entries m1 !! e = Some y) as Hy by (cbn; by rewrite lookup_insert_eq).
  assert (cached m1 s e) as Hce by (by exists y).
  destruct (table_Insert_shard s m1 (e :: hs) ks c1 e y Hm1 Hc1 Hce Hy) as (t & old & Ht & Hc2 & Hold).
  assert (e ∈ in_use_ (set_table c1 t)) as Hin by (cbn; apply elem_of_app; right; by constructor).
  destruct old as [o|].
  - destruct (Hold o eq_refl) as (Hne & Hco & x & Hx & Hkx).
    destruct (FinishErase_spec s m1 (e :: hs) ks (set_table c1 t) o x Hm1 Hc2 Hx Hco)
      as (m2 & c2 & Hfe & Hm2 & Hc3 & Hkeep & _ & Ecap & _ & El & Eu & Ed).
    assert (entries m !! o = Some x) as Hxm by (cbn in Hx; by rewrite lookup_insert_ne in Hx).
    exists t, (Some o), m2, c2. split_and!; try done.
    + rewrite Eu. by apply unlink_elem.
    + intros ? [= <-]. by exists x.
    + rewrite Ed. cbn [deleted store m1]. f_equal. assert (o ∈ lru_ c <-> nheld o (e :: hs) = 0) as Hiff.
      { rewrite (si_lru _ _ _ _ _ Hc). cbn [nheld]. rewrite decide_False by done.
        split; [intros [_ ?]; lia|]. intros. split; [|lia]. destruct Hco as (x' & Hx' & ? & ?). exists x'.
        cbn in Hx'. rewrite lookup_insert_ne in Hx' by done. done. }
      case_bool_decide as Hz; [rewrite filter_cons_True by (by apply Hiff)|rewrite filter_cons_False by (by rewrite Hiff)].
      * unfold kvs. cbn. by rewrite Hxm.
      * done.
  - exists t, None, m1, (set_table c1 t). split_and!; try done. cbn. by rewrite app_nil_r.
Qed.

Lemma Insert_spec (s : nat) (m : Memory) (hs : list addr) (ks : list bytes) (c : LRUCache) (k : bytes) (n : Z) (v : V) :
  mem_inv m hs ks -> shard_inv s m hs c [] -> k ∈ ks -> Shard (HashSlice k) = s -> 0 <= n < 2 ^ 32 ->
  Z.of_nat (length (malloc m :: hs)) < 2 ^ 32 - 1 -> 0 <= capacity_ c ->
  exists m' c', Insert m c k (HashSlice k) v n = Ok (malloc m, m', c') /\
    mem_inv m' (malloc m :: hs) ks /\ shard_inv s m' (malloc m :: hs) c' [] /\
    keeps s (store m (malloc m) (new_handle c k v n)) m' /\ capacity_ c' = capacity_ c /\
    (usage_ c' <= capacity_ c' \/ lru_ c' = []) /\ (0 < capacity_ c -> cached m' s (malloc m)).
Proof.
  intros Hm Hc Hk Hs Hn Hf Hcap0. unfold Insert, new_handle. destruct (Z.ltb_spec 0 (capacity_ c)) as [Hcap|Hcap].
  - destruct (insert_entry s m hs ks c k n v Hm Hc Hk Hs Hn Hf Hcap)
      as (t & old & m2 & c2 & Ht & Hfe & Hm2 & Hc2 & Hkeep & Ecap & Hin & _).
    change (usage_ (LRU_Append_in_use c (malloc m))) with (usage_ c).
    rewrite Ht. cbn [res_bind]. rewrite Hfe. cbn [res_bind].
    destruct (evict_spec (length (lru_ c2)) s m2 (malloc m :: hs) ks c2 Hm2 Hc2 ltac:(lia))
      as (m' & c' & i & -> & (Hm' & Hc' & Hkeep' & Ecap' & Eu' & _) & Hfull & _).
    exists m', c'. split; [done|]. split_and!; try done; [by etrans|congruence|].
    intros _. rewrite <- Eu' in Hin. exact (proj1 (proj1 (si_use _ _ _ _ _ Hc' _) Hin)).
  - pose proof (malloc_fresh m) as He. set (y := mkHandle v n false 1 (HashSlice k) k).
    cbn [res_bind]. destruct (evict_spec (length (lru_ c)) s (store m (malloc m) y) (malloc m :: hs) ks c)
      as (m' & c' & i & -> & (Hm' & Hc' & Hkeep' & Ecap' & Eu' & _) & Hfull & _).
    + by apply mem_inv_new.
    + by apply shard_inv_uncached.
    + lia.
    + exists m', c'. split; [done|]. split_and!; try done. lia.
Qed.

(** The entries that an insertion evicts: first the idle entry of the key, if
    there is one, then idle entries from the least recently used on, and none
    that fits the capacity. *)
Lemma Insert_evicts (s : nat) (m : Memory) (hs : list addr) (ks : list bytes) (c : LRUCache) (k : bytes) (n : Z) (v : V) :
  mem_inv m hs ks -> shard_inv s m hs c [] -> k ∈ ks -> Shard (HashSlice k) = s -> 0 <= n < 2 ^ 32 ->
  Z.of_nat (length (malloc m :: hs)) < 2 ^ 32 - 1 -> 0 < capacity_ c ->
  exists m' c' old i, Insert m c k (HashSlice k) v n = Ok (malloc m, m', c') /\
    (forall o, old = Some o -> has_key m k o) /\
    let idle := match old with Some o => unlink o (lru_ c) | None => lru_ c end in
    let same := filter (fun o => o ∈ lru_ c) (match old with Some o => [o] | None => [] end) in
    lru_ c' = drop i idle /\ deleted m' = deleted m ++ kvs m same ++ kvs m (take i idle) /\
    (usage_ c' <= capacity_ c \/ lru_ c' = []) /\
    forall j, (j < i)%nat -> capacity_ c < usage_ c' + charges m (drop j (take i idle)).
Proof.
  intros Hm Hc Hk Hs Hn Hf Hcap. unfold Insert. destruct (Z.ltb_spec 0 (capacity_ c)) as [_|?]; [|lia].
  destruct (insert_entry s m hs ks c k n v Hm Hc Hk Hs Hn Hf Hcap)
    as (t & old & m2 & c2 & Ht & Hfe & Hm2 & Hc2 & Hkeep & Ecap & _ & Hold & El & Ed).
  change (usage_ (LRU_Append_in_use c (malloc m))) with (usage_ c).
  rewrite Ht. cbn [res_bind]. rewrite Hfe. cbn [res_bind].
  destruct (evict_spec (length (lru_ c2)) s m2 (malloc m :: hs) ks c2 Hm2 Hc2 ltac:(lia))
    as (m' & c' & i & -> & (_ & _ & _ & Ecap' & _ & El' & Eus' & Ed') & Hfull & Hmin).
  exists m', c', old, i. split; [done|]. split; [done|]. cbv zeta. rewrite <- El.
  assert (forall e, e ∈ lru_ c2 -> same_at m m2 e) as Hsame.
  { intros e He. assert (is_Some (entries m2 !! e)) as Hal.
    { apply (si_lru _ _ _ _ _ Hc2) in He as ((x & Hx & _) & _). by eexists. }
    assert (e ∈ lru_ c) as Hec.
    { rewrite El in He. destruct old as [o|]; [by apply unlink_elem in He as [_ ?]|done]. }
    apply (si_lru _ _ _ _ _ Hc) in Hec as [Hce _]. pose proof (keeps_same s _ m2 e Hkeep Hal) as H2.
    unfold same_at in *. rewrite <- H2. by apply (same_new m (malloc m) _ e s (malloc_fresh m)). }
  assert (forall j, charges m (take j (take i (lru_ c2))) = charges m2 (take j (take i (lru_ c2)))) as Hch.
  { intros j. apply charges_same_at. intros e He. apply Hsame. rewrite <- (take_drop i (lru_ c2)).
    apply elem_of_app. left. rewrite <- (take_drop j (take i (lru_ c2))). apply elem_of_app. by left. }
  split_and!; [done| |by rewrite <- Ecap, <- Ecap'|].
  - rewrite Ed', Ed, <- app_assoc. do 2 f_equal. apply eq_sym, kvs_same. intros e He. apply Hsame.
    rewrite <- (take_drop i (lru_ c2)). apply elem_of_app. by left.
  - intros j Hj. specialize (Hmin j Hj). rewrite Ecap in Hmin. rewrite Eus'.
    pose proof (Hch j) as H1. pose proof (Hch i) as H2. rewrite take_take, Nat.min_id in H2.
    assert (charges m (take i (lru_ c2)) = charges m (take j (take i (lru_ c2))) + charges m (drop j (take i (lru_ c2)))) as H3
      by (rewrite <- charges_app; by rewrite take_drop).
    rewrite take_take, Nat.min_l in H1 by lia. rewrite take_take, Nat.min_l in H3 by lia. lia.
Qed.

(** ** Lookups *)

Lemma Lookup_spec (s : nat) (m : Memory) (hs : list addr) (ks : list bytes) (c : LRUCache) (k : bytes) :
  mem_inv m hs ks -> shard_inv s m hs c [] -> Z.of_nat (S (length hs)) < 2 ^ 32 - 1 ->
  exists r m' c', Lookup m c k (HashSlice k) = Ok (r, m', c') /\
    match r with
    | None => m' = m /\ c' = c /\ forall e, cached m s e -> ~ has_key m k e
    | Some e => cached m s e /\ has_key m k e /\ mem_inv m' (e :: hs) ks /\ shard_inv s m' (e :: hs) c' [] /\
        keeps s m m' /\ capacity_ c' = capacity_ c
    end.
Proof.
  intros Hm Hc Hf. destruct (table_Lookup_spec m (table_ c) k (si_tinv _ _ _ _ _ Hc)) as (r & Hr & Hs).
  { intros e x Hx. apply (mi_entry _ _ _ Hm e x Hx). }
  unfold Lookup. rewrite Hr. cbn [res_bind]. destruct r as [e|].
  - destruct Hs as [Hin Hk]. apply (si_table _ _ _ _ _ Hc) in Hin as [Hce _].
    destruct (Ref_spec s m hs ks c e Hm Hc Hce ltac:(cbn [length]; lia))
      as (m' & c' & -> & Hm' & Hc' & Hkeep & _ & Ecap & _).
    cbn [res_bind]. exists (Some e), m', c'. by split_and!.
  - exists None, m, c. split_and!; try done. intros e Hce. apply Hs. apply (si_table _ _ _ _ _ Hc).
    split; [done|apply not_elem_of_nil].
Qed.

End LruOps.
