(* ===== verification/LruSharded.v ===== *)
(** The sharded cache.

    An operation of one shard keeps the invariants of the others: entries belong
    to the shard of their hash.  From an empty cache, every sequence of operations
    of clients that release only handles they hold keeps the invariant. *)
From stdpp Require Import gmap.
From S2P Require Import Prelude Bytes Coding Crc32c Block LruCache LruSpec LruShard LruOps.
Import LruCache.

Section LruSharded.
Context {bo : ByteOrder} {V : Type}.
Local Abbreviation Memory := (Memory (V := V)).
Local Abbreviation LRUHandle := (LRUHandle (V := V)).
Local Abbreviation Cache := (Cache (V := V)).

(** ** Hashes *)

Lemma shiftr_range (h n : Z) : in_u32 h -> 0 <= n -> 0 <= Z.shiftr h n <= h.
Proof.
  unfold in_u32. intros Hh Hn. rewrite Z.shiftr_div_pow2 by done.
  assert (0 < 2 ^ n) by (by apply Z.pow_pos_nonneg). split; [apply Z.div_pos; lia|].
  apply Z.div_le_upper_bound; nia.
Qed.

Lemma lxor_shiftr_range (h n : Z) : in_u32 h -> 0 <= n -> in_u32 (Z.lxor h (Z.shiftr h n)).
Proof.
  intros Hh Hn. apply Crc32c.lxor_u32; [done|]. pose proof (shiftr_range h n Hh Hn). unfold in_u32 in *. lia.
Qed.

Lemma hash_words_range (fuel : nat) (h : Z) (data : bytes) : in_u32 h -> in_u32 (hash_words fuel h data).1.
Proof.
  revert h data. induction fuel as [|fuel IH]; intros h data Hh; cbn [hash_words]; [done|].
  case_if; [|done]. apply IH, lxor_shiftr_range; [apply wrap_u32_range|lia].
Qed.

Lemma HashSlice_range (k : bytes) : in_u32 (HashSlice k).
Proof.
  unfold HashSlice, Hash. rewrite Z.lxor_0_l.
  pose proof (hash_words_range (length k) (wrap_u32 (size k * hash_m)) k (wrap_u32_range _)) as Hr.
  destruct (hash_words _ _ k) as [h [|b0 [|b1 [|b2 [|b3 l]]]]]; try done;
    (apply lxor_shiftr_range; [apply wrap_u32_range|lia]).
Qed.

Lemma Shard_lt (k : bytes) : (Shard (HashSlice k) < 16)%nat.
Proof.
  pose proof (HashSlice_range k) as Hr. unfold in_u32 in Hr. unfold Shard, kNumShardBits.
  rewrite Z.shiftr_div_pow2 by lia. change (32 - 4) with 28.
  assert (HashSlice k / 2 ^ 28 < 16) by (apply Z.div_lt_upper_bound; lia).
  assert (0 <= HashSlice k / 2 ^ 28) by (apply Z.div_pos; lia). lia.
Qed.

(** ** The invariant of the whole cache, with shards of capacity [cap] *)

Context {cap : Z}.

Record cache_inv (c : Cache) (hs : list addr) (ks : list bytes) : Prop := {
  ci_shards : length (shard_ c) = 16%nat;
  ci_shard s sh : shard_ c !! s = Some sh -> shard_inv s (memory c) hs sh [] /\ capacity_ sh = cap;
  ci_cap : 0 <= cap;
  ci_mem : mem_inv (memory c) hs ks;
  ci_id : in_u64 (last_id_ c)
}.

(** The entries of other shards and the handles of them are as before. *)
Definition others_kept (s : nat) (m m' : Memory) (hs hs' : list addr) : Prop :=
  (forall e x, Shard (hash x) <> s -> entries m !! e = Some x <-> entries m' !! e = Some x) /\
  (forall e x, entries m !! e = Some x -> Shard (hash x) <> s -> nheld e hs' = nheld e hs).

Lemma shard_inv_other (s s' : nat) (m m' : Memory) (hs hs' : list addr) (c : LRUCache) :
  s' <> s -> others_kept s m m' hs hs' -> shard_inv s' m hs c [] -> shard_inv s' m' hs' c [].
Proof.
  intros Hne [Hfr Hn] Hc. destruct (shard_lists _ _ _ _ _ Hc) as [Hnd Hin].
  pose proof Hc as [Hl Hu Hnl Hnu Ht Hti Hus].
  assert (forall e, cached m' s' e <-> cached m s' e) as Hcs.
  { intros e. split; intros (x & Hx & Hs & Hic); exists x; (split; [apply (Hfr e x); [congruence|done]|done]). }
  assert (forall e, cached m s' e -> nheld e hs' = nheld e hs) as Hnn.
  { intros e (x & Hx & Hs & _). apply (Hn e x); [done|congruence]. }
  assert (forall e, cached m s' e -> same_at m m' e) as Hsame.
  { intros e (x & Hx & Hs & _). unfold same_at. by rewrite Hx, (proj1 (Hfr e x ltac:(congruence)) Hx). }
  apply (shard_inv_of s' _ _ c [] (lru_ c ++ in_use_ c)); try done.
  - intros e. rewrite Hl, Hcs. split; intros [Hce ?]; (split; [done|]); [by rewrite Hnn|by rewrite <- (Hnn e Hce)].
  - intros e. rewrite Hu, Hcs. split; intros [Hce ?]; (split; [done|]); [by rewrite Hnn|by rewrite <- (Hnn e Hce)].
  - intros e. by rewrite Ht, Hcs.
  - apply (table_inv_same m); [done|]. intros e [He _]%Ht. by apply Hsame.
  - intros e. by rewrite Hin, Hcs.
  - rewrite Hus. apply charges_same_at. intros e He%Hin. by apply Hsame.
Qed.

Lemma with_shard_inv {A : Type} (c : Cache) (s : nat) (sh sh' : LRUCache)
    (f : Memory -> LRUCache -> res fault (A * Memory * LRUCache)) (a : A) (m' : Memory)
    (hs hs' : list addr) (ks : list bytes) :
  cache_inv c hs ks -> shard_ c !! s = Some sh -> f (memory c) sh = Ok (a, m', sh') ->
  mem_inv m' hs' ks -> shard_inv s m' hs' sh' [] -> capacity_ sh' = capacity_ sh ->
  others_kept s (memory c) m' hs hs' ->
  exists c', with_shard c s f = Ok (a, c') /\ cache_inv c' hs' ks /\ memory c' = m' /\
    shard_ c' !! s = Some sh' /\ last_id_ c' = last_id_ c.
Proof.
  intros [Hlen Hsh Hcap Hm Hid] Hs Hf Hm' Hsh' Ecap Hoth. unfold with_shard. rewrite Hs, Hf. cbn [res_bind].
  assert (s < length (shard_ c))%nat as Hlt by (by eapply lookup_lt_Some).
  eexists. split; [done|]. cbn. split; [|split_and!; [done|by rewrite list_lookup_insert_eq|done]].
  split; cbn; [by rewrite length_insert| |done|done|done].
  intros s' sh1. destruct (decide (s' = s)) as [->|Hne].
  - rewrite list_lookup_insert_eq by done. intros [= <-]. split; [done|]. rewrite Ecap. exact (proj2 (Hsh s sh Hs)).
  - rewrite list_lookup_insert_ne by done. intros [Hi Hc]%Hsh. split; [|done]. by eapply shard_inv_other.
Qed.

Lemma others_keeps (s : nat) (m m' : Memory) (hs : list addr) : keeps s m m' -> others_kept s m m' hs hs.
Proof. intros Hk. split; [apply Hk|done]. Qed.

(** A handle of the shard more or less. *)
Lemma others_handle (s : nat) (m m' : Memory) (hs : list addr) (e : addr) (x : LRUHandle) :
  keeps s m m' -> entries m !! e = Some x -> Shard (hash x) = s ->
  others_kept s m m' hs (e :: hs) /\ others_kept s m m' (e :: hs) hs.
Proof.
  intros Hk Hx Hs. split; (split; [apply Hk|]); intros e' x' Hx' Hs'; cbn; rewrite decide_False; (lia || congruence).
Qed.

(** ** The operations *)

Lemma cache_shard (c : Cache) (hs : list addr) (ks : list bytes) (k : bytes) :
  cache_inv c hs ks -> exists sh, shard_ c !! Shard (HashSlice k) = Some sh.
Proof. intros Hc. apply lookup_lt_is_Some_2. rewrite (ci_shards _ _ _ Hc). apply Shard_lt. Qed.

Lemma cache_lookup_spec (c : Cache) (hs : list addr) (ks : list bytes) (k : bytes) :
  cache_inv c hs ks -> Z.of_nat (S (length hs)) < 2 ^ 32 - 1 ->
  exists r c', cache_lookup c k = Ok (r, c') /\
    match r with
    | None => cache_inv c' hs ks /\ memory c' = memory c /\
        forall e, cached (memory c) (Shard (HashSlice k)) e -> ~ has_key (memory c) k e
    | Some e => cache_inv c' (e :: hs) ks /\ cached (memory c) (Shard (HashSlice k)) e /\ has_key (memory c) k e /\
        exists s, keeps s (memory c) (memory c')
    end.
Proof.
  intros Hc Hf. destruct (cache_shard c hs ks k Hc) as [sh Hs]. unfold cache_lookup.
  set (s := Shard (HashSlice k)) in *. destruct (ci_shard _ _ _ Hc s sh Hs) as [Hsh Hcap].
  destruct (Lookup_spec s (memory c) hs ks sh k (ci_mem _ _ _ Hc) Hsh Hf) as (r & m' & sh' & Hl & Hr).
  destruct r as [e|].
  - destruct Hr as (Hce & Hk & Hm' & Hsh' & Hkeep & Ecap). pose proof Hce as (x & Hx & Hsx & _).
    destruct (with_shard_inv c s sh sh' (fun m sh => Lookup m sh k (HashSlice k)) (Some e) m' hs (e :: hs) ks
      Hc Hs Hl Hm' Hsh' Ecap (proj1 (others_handle s _ _ hs e x Hkeep Hx Hsx))) as (c' & -> & Hc' & Em & _).
    exists (Some e), c'. rewrite Em. split_and!; try done. by exists s.
  - destruct Hr as (-> & -> & Hno).
    destruct (with_shard_inv c s sh sh (fun m sh => Lookup m sh k (HashSlice k)) None (memory c) hs hs ks
      Hc Hs Hl (ci_mem _ _ _ Hc) Hsh eq_refl (others_keeps s _ _ hs ltac:(reflexivity))) as (c' & -> & Hc' & Em & _).
    exists None, c'. by split_and!.
Qed.

Lemma cache_insert_spec (c : Cache) (hs : list addr) (ks : list bytes) (k : bytes) (v : V) (n : Z) :
  cache_inv c hs ks -> k ∈ ks -> 0 <= n < 2 ^ 32 -> Z.of_nat (S (length hs)) < 2 ^ 32 - 1 ->
  exists e c', cache_insert c k v n = Ok (e, c') /\ cache_inv c' (e :: hs) ks /\
    (exists x s, entries (memory c) !! e = None /\ key x = k /\ value x = v /\
       keeps s (store (memory c) e x) (memory c')) /\
    (exists sh, shard_ c' !! Shard (HashSlice k) = Some sh /\ (usage_ sh <= cap \/ lru_ sh = [])) /\
    (0 < cap -> cached (memory c') (Shard (HashSlice k)) e).
Proof.
  intros Hc Hk Hn Hf. destruct (cache_shard c hs ks k Hc) as [sh Hs]. unfold cache_insert.
  set (s := Shard (HashSlice k)) in *. destruct (ci_shard _ _ _ Hc s sh Hs) as [Hsh Hcap].
  pose proof (malloc_fresh (memory c)) as Hfresh. set (e := malloc (memory c)) in *.
  destruct (Insert_spec s (memory c) hs ks sh k n v (ci_mem _ _ _ Hc) Hsh Hk eq_refl Hn Hf ltac:(rewrite Hcap; apply Hc))
    as (m' & sh' & Hi & Hm' & Hsh' & Hkeep & Ecap & Hfull & Hce). fold e in Hi, Hm', Hsh', Hkeep, Hce.
  set (x := new_handle sh k v n) in *.
  assert (key x = k /\ value x = v /\ hash x = HashSlice k) as (Hkx & Hvx & Hhx)
    by (unfold x, new_handle; by case_if).
  assert (others_kept s (memory c) m' hs (e :: hs)) as Hoth.
  { split.
    - intros e' x' Hs'. rewrite <- (k_frame _ _ _ Hkeep e' x' Hs'). cbn. destruct (decide (e' = e)) as [->|Hne].
      + rewrite lookup_insert_eq, Hfresh. split; [done|]. intros [= <-]. by rewrite Hhx in Hs'.
      + by rewrite lookup_insert_ne.
    - intros e' x' Hx' _. cbn. rewrite decide_False; [lia|congruence]. }
  destruct (with_shard_inv c s sh sh' (fun m sh => Insert m sh k (HashSlice k) v n) e m' hs (e :: hs) ks
    Hc Hs Hi Hm' Hsh' Ecap Hoth) as (c' & Hw & Hc' & Em & Hs' & _).
  exists e, c'. split; [done|]. split; [done|]. rewrite Em. split; [by exists x, s|].
  rewrite <- Hcap. split; [|done]. exists sh'. rewrite Ecap in Hfull. done.
Qed.

Lemma cache_release_spec (c : Cache) (hs hs' : list addr) (ks : list bytes) (e : addr) :
  cache_inv c hs ks -> hs ≡ₚ e :: hs' ->
  exists c', cache_release c e = Ok c' /\ cache_inv c' hs' ks /\ exists s, keeps s (memory c) (memory c').
Proof.
  intros Hc Hp. pose proof (ci_mem _ _ _ Hc) as Hm.
  destruct (mi_held _ _ _ Hm e) as [x Hx]; [rewrite Hp; by constructor|].
  unfold cache_release, deref. rewrite Hx. cbn [res_bind]. set (s := Shard (hash x)).
  assert (exists sh, shard_ c !! s = Some sh) as [sh Hs].
  { unfold s. rewrite (proj1 (mi_entry _ _ _ Hm e x Hx)). by eapply cache_shard. }
  destruct (ci_shard _ _ _ Hc s sh Hs) as [Hsh Hcap].
  destruct (Release_spec s (memory c) hs hs' ks sh e x Hm Hsh Hp Hx eq_refl)
    as (m' & sh' & Hr & Hm' & Hsh' & Hkeep & _ & Ecap & _).
  assert (others_kept s (memory c) m' hs hs') as Hoth.
  { split; [apply Hkeep|]. intros e' x' Hx' Hs'. rewrite Hp. cbn. rewrite decide_False; [lia|].
    intros ->. rewrite Hx in Hx'. injection Hx' as <-. done. }
  destruct (with_shard_inv c s sh sh' (unit_op (fun m sh => Release m sh e)) tt m' hs hs' ks Hc Hs) as (c' & -> & Hc' & Em & _);
    [unfold unit_op; by rewrite Hr|done|done|done|done|].
  cbn [res_bind]. exists c'. rewrite Em. split_and!; try done. by exists s.
Qed.

Lemma cache_erase_spec (c : Cache) (hs : list addr) (ks : list bytes) (k : bytes) :
  cache_inv c hs ks ->
  exists c', cache_erase c k = Ok c' /\ cache_inv c' hs ks /\ (exists s, keeps s (memory c) (memory c')) /\
    forall e, cached (memory c') (Shard (HashSlice k)) e -> ~ has_key (memory c) k e.
Proof.
  intros Hc. destruct (cache_shard c hs ks k Hc) as [sh Hs]. unfold cache_erase.
  set (s := Shard (HashSlice k)) in *. destruct (ci_shard _ _ _ Hc s sh Hs) as [Hsh Hcap].
  destruct (erase_key_spec s (memory c) hs ks sh k (ci_mem _ _ _ Hc) Hsh)
    as (m' & sh' & He & Hm' & Hsh' & Hkeep & Ecap & Htab & _).
  destruct (with_shard_inv c s sh sh' (unit_op (fun m sh => Erase m sh k (HashSlice k))) tt m' hs hs ks Hc Hs)
    as (c' & -> & Hc' & Em & _); [unfold unit_op, Erase; by rewrite He|done|done|done|by apply others_keeps|].
  cbn [res_bind]. exists c'. rewrite Em. split_and!; try done; [by exists s|].
  intros e Hce. apply (Htab e). apply (si_table _ _ _ _ _ Hsh'). split; [done|apply not_elem_of_nil].
Qed.

(** What every operation but [Insert] keeps of the memory as a whole. *)
Record keeps_all (m m' : Memory) : Prop := {
  ka_sub e x' : entries m' !! e = Some x' -> exists x, entries m !! e = Some x /\ payload x = payload x';
  ka_ledger : ledger m' ≡ₚ ledger m
}.

#[export] Instance keeps_all_refl : Reflexive keeps_all.
Proof. intros m. split; [eauto|done]. Qed.

#[export] Instance keeps_all_trans : Transitive keeps_all.
Proof.
  intros a b c [S1 L1] [S2 L2]. split; [|by rewrite L2].
  intros e x Hx. destruct (S2 e x Hx) as (y & Hy & Hp). destruct (S1 e y Hy) as (z & Hz & Hq).
  exists z. split; [done|congruence].
Qed.

Lemma keeps_keeps_all (s : nat) (m m' : Memory) : keeps s m m' -> keeps_all m m'.
Proof. intros Hk. split; [apply Hk|apply Hk]. Qed.

Lemma prune_shards_spec (n s : nat) (c : Cache) (hs : list addr) (ks : list bytes) :
  cache_inv c hs ks -> (n + s = 16)%nat ->
  (forall s' sh, (s' < s)%nat -> shard_ c !! s' = Some sh -> lru_ sh = []) ->
  exists c', prune_shards n s c = Ok c' /\ cache_inv c' hs ks /\ keeps_all (memory c) (memory c') /\
    forall s' sh, shard_ c' !! s' = Some sh -> lru_ sh = [].
Proof.
  revert s c. induction n as [|n IH]; intros s c Hc Hs Hd; cbn [prune_shards].
  { exists c. split_and!; try done. intros s' sh Hs'. apply (Hd s'); [|done].
    apply lookup_lt_Some in Hs'. rewrite (ci_shards _ _ _ Hc) in Hs'. lia. }
  destruct (lookup_lt_is_Some_2 (shard_ c) s) as [sh Hsh]; [rewrite (ci_shards _ _ _ Hc); lia|].
  destruct (ci_shard _ _ _ Hc s sh Hsh) as [Hi Hcap].
  destruct (prune_spec (length (lru_ sh)) s (memory c) hs ks sh (ci_mem _ _ _ Hc) Hi ltac:(lia))
    as (m' & sh' & Hp & Hm' & Hi' & Hkeep & Ecap & _ & El & _).
  assert (unit_op Prune (memory c) sh = Ok (tt, m', sh')) as Hop by (unfold unit_op, Prune; by rewrite Hp).
  unfold with_shard. rewrite Hsh, Hop. cbn [res_bind].
  destruct (with_shard_inv c s sh sh' (unit_op Prune) tt m' hs hs ks Hc Hsh Hop Hm' Hi' Ecap
    (others_keeps s _ _ hs Hkeep)) as (c1 & Hw & Hc1 & Em & Hs1 & Hid).
  unfold with_shard in Hw. rewrite Hsh, Hop in Hw. cbn [res_bind] in Hw. injection Hw as <-.
  destruct (IH (S s) _ Hc1) as (c' & -> & Hc' & Hk' & Hd'); [lia| |].
  - intros s' sh1 Hlt. cbn. destruct (decide (s' = s)) as [->|Hne].
    + rewrite list_lookup_insert_eq by (by eapply lookup_lt_Some). intros [= <-].
      rewrite El. by rewrite drop_all.
    + rewrite list_lookup_insert_ne by done. apply Hd. lia.
  - exists c'. split_and!; try done. etrans; [by eapply keeps_keeps_all|done].
Qed.

End LruSharded.
