(* ===== verification/LruTheorems.v ===== *)
(** What the LRU cache promises.

    Clients that release only the handles they hold never reach freed memory,
    their handles keep their values, and when all handles are released the
    destruction of the cache has deleted every value exactly once; lookups find
    what was inserted last, and evictions take the least recently used idle
    entries.  The cache implements the interface that tables read blocks
    through. *)
From stdpp Require Import gmap.
From S2P Require Import Prelude Bytes Coding Crc32c Block LruCache LruSpec LruShard LruOps LruSharded.
Import LruCache.

Section LruTheorems.
Context {bo : ByteOrder} {V : Type}.
Local Abbreviation Memory := (Memory (V := V)).
Local Abbreviation LRUHandle := (LRUHandle (V := V)).
Local Abbreviation Cache := (Cache (V := V)).
Local Open Scope res_scope.

(** ** A new cache *)

Definition empty_shard (capacity : Z) : LRUCache := mkLRU capacity 0 [] [] (mkTable 4 0 (replicate 4 [])).

Lemma new_shards_spec (n : nat) (m : Memory) (capacity : Z) :
  new_shards n m capacity = Ok (replicate n (empty_shard capacity)).
Proof. induction n as [|n IH]; cbn [new_shards]; [done|]. change (new_shard m) with (Ok (E := fault) (empty_shard 0)).
  cbn [res_bind]. by rewrite IH.
Qed.

Lemma empty_table_inv (m : Memory) : table_inv m (mkTable 4 0 (replicate 4 [])).
Proof.
  split; cbn.
  - by intros e ?%not_elem_of_nil.
  - intros i chain e x Hi He x'. assert (chain = []) as ->; [|by apply not_elem_of_nil in He].
    do 4 (destruct i as [|i]; [by injection Hi as <-|]). done.
  - constructor.
  - by intros e e' x x' ?%not_elem_of_nil.
  - exists 2. lia.
  - done.
Qed.

Lemma NewLRUCache_spec (capacity : Z) (ks : list bytes) :
  Z.of_nat (length ks) <= 2 ^ 31 ->
  exists c, NewLRUCache (V := V) capacity = Ok c /\ memory c = mkMemory ∅ [] /\
    cache_inv (cap := wrap_u64 (capacity + (kNumShards - 1)) / kNumShards) c [] ks.
Proof.
  intros Hks. unfold NewLRUCache. rewrite new_shards_spec. cbn [res_bind].
  eexists. split; [done|]. split; [done|]. split; cbn.
  - done.
  - intros s sh [-> _]%lookup_replicate. split.
    + assert (forall e, ~ cached (V := V) (mkMemory ∅ []) s e) as Hno by (intros e (x & Hx & _); done).
      apply (shard_inv_of s _ _ _ [] []); cbn; try done.
      * intros e. split; [by intros ?%not_elem_of_nil|]. intros [? _]. by destruct (Hno e).
      * intros e. split; [by intros ?%not_elem_of_nil|]. intros [? _]. by destruct (Hno e).
      * constructor.
      * constructor.
      * intros e. split; [by intros ?%not_elem_of_nil|]. intros [? _]. by destruct (Hno e).
      * apply empty_table_inv.
      * constructor.
      * intros e. split; [by intros ?%not_elem_of_nil|]. intros ?. by destruct (Hno e).
    + done.
  - apply Z.div_pos; [|done]. unfold wrap_u64. apply Z.mod_pos_bound. lia.
  - split; try done. by intros e ?%not_elem_of_nil.
  - unfold in_u64. lia.
Qed.

(** ** Destruction *)

Context {cap : Z}.
Local Abbreviation cache_inv := (cache_inv (cap := cap)).

Lemma destroy_spec (es : list addr) (m : Memory) (c : LRUCache) :
  NoDup es -> (forall e, e ∈ es -> exists x, entries m !! e = Some x /\ refs x = 1) ->
  exists m', destroy m c es = Ok m' /\ ledger m' ≡ₚ ledger m /\
    (forall e, e ∈ es -> entries m' !! e = None) /\ forall e, e ∉ es -> entries m' !! e = entries m !! e.
Proof.
  revert m. induction es as [|e es IH]; intros m Hnd Hal; cbn [destroy].
  { exists m. split_and!; try done. by intros e ?%not_elem_of_nil. }
  apply NoDup_cons in Hnd as [Hne Hnd]. destruct (Hal e ltac:(by constructor)) as (x & Hx & Hr).
  unfold Unref, deref. rewrite Hx. cbn [res_bind store entries]. rewrite lookup_insert_eq. cbn [res_bind].
  cbn [refs set_refs set_in_cache]. rewrite Hr. cbn [key value set_refs set_in_cache deleted].
  change (wrap_u32 (1 - 1) =? 0) with true. cbn iota. cbn [res_bind]. rewrite delete_insert_eq.
  fold (free m e x). destruct (IH (free m e x) Hnd) as (m' & Hd & Hl & Hgone & Hrest).
  { intros e' He'. destruct (Hal e' ltac:(by constructor)) as (y & Hy & Hry). exists y. split; [|done].
    cbn. rewrite lookup_delete_ne; [done|congruence]. }
  exists m'. split; [done|]. split; [|split].
  - rewrite Hl. by apply (keeps_free (Shard (hash x))).
  - intros e' [->|He']%elem_of_cons; [|by apply Hgone]. rewrite Hrest by done. cbn. by rewrite lookup_delete_eq.
  - intros e' [Hn1 Hn2]%not_elem_of_cons. rewrite Hrest by done. cbn. by rewrite lookup_delete_ne.
Qed.

Lemma destroy_shards_spec (shs : list LRUCache) (m : Memory) :
  NoDup (flat_map lru_ shs) ->
  (forall e, e ∈ flat_map lru_ shs -> exists x, entries m !! e = Some x /\ refs x = 1) ->
  exists m', destroy_shards m shs = Ok m' /\ ledger m' ≡ₚ ledger m /\
    (forall e, e ∈ flat_map lru_ shs -> entries m' !! e = None) /\
    forall e, e ∉ flat_map lru_ shs -> entries m' !! e = entries m !! e.
Proof.
  revert m. induction shs as [|sh shs IH]; intros m Hnd Hal; cbn [destroy_shards flat_map] in *.
  { exists m. split_and!; try done. by intros e ?%not_elem_of_nil. }
  apply NoDup_app in Hnd as (Hnd1 & Hdis & Hnd2).
  destruct (destroy_spec (lru_ sh) m sh Hnd1) as (m1 & -> & Hl1 & Hg1 & Hr1).
  { intros e He. apply Hal. apply elem_of_app. by left. }
  cbn [res_bind]. destruct (IH m1 Hnd2) as (m' & -> & Hl & Hg & Hr).
  { intros e He. rewrite Hr1; [|by intros ?; apply (Hdis e)]. apply Hal. apply elem_of_app. by right. }
  exists m'. split; [done|]. split; [by rewrite Hl|]. split.
  - intros e [He|He]%elem_of_app; [|by apply Hg]. rewrite Hr; [by apply Hg1|]. by apply Hdis.
  - intros e [Hn1 Hn2]%not_elem_of_app. rewrite Hr, Hr1; done.
Qed.

Lemma NoDup_flat_map {A B : Type} (f : A -> list B) (l : list A) :
  (forall i a, l !! i = Some a -> NoDup (f a)) ->
  (forall i j a b e, l !! i = Some a -> l !! j = Some b -> e ∈ f a -> e ∈ f b -> i = j) -> NoDup (flat_map f l).
Proof.
  induction l as [|a l IH]; intros Hnd Hdis; cbn; [constructor|]. apply NoDup_app. split_and!.
  - by apply (Hnd O a).
  - intros e He (b & Hb & He')%list_elem_of_In%in_flat_map. apply list_elem_of_In in Hb, He'.
    apply list_elem_of_lookup in Hb as [j Hj]. by specialize (Hdis O (S j) a b e eq_refl Hj He He').
  - apply IH; [intros i b; apply (Hnd (S i))|]. intros i j b b' e Hi Hj He He'.
    pose proof (Hdis (S i) (S j) b b' e Hi Hj He He'). lia.
Qed.

(** With no handle out, destroying the cache deletes what was not deleted yet. *)
Lemma cache_destroy_spec (c : Cache) (ks : list bytes) :
  cache_inv c [] ks ->
  exists m, cache_destroy c = Ok m /\ entries m = ∅ /\ deleted m ≡ₚ ledger (memory c).
Proof.
  intros Hc. pose proof (ci_mem _ _ _ Hc) as Hm. unfold cache_destroy.
  assert (forall e, e ∈ flat_map lru_ (rev (shard_ c)) <-> exists s sh, shard_ c !! s = Some sh /\ e ∈ lru_ sh) as Hin.
  { intros e. rewrite list_elem_of_In, in_flat_map. split.
    - intros (sh & (s & Hs)%in_rev%list_elem_of_In%list_elem_of_lookup & He%list_elem_of_In). eauto.
    - intros (s & sh & Hs%list_elem_of_lookup_2%list_elem_of_In & He). exists sh.
      split; [by rewrite <- in_rev|by apply list_elem_of_In]. }
  assert (NoDup (flat_map lru_ (rev (shard_ c)))) as Hnd.
  { rewrite <- (Permutation_rev (shard_ c)). apply NoDup_flat_map.
    - intros s sh Hs. apply (si_nodup_lru _ _ _ _ _ (proj1 (ci_shard _ _ _ Hc s sh Hs))).
    - intros s s' sh sh' e Hs Hs' He He'.
      apply (si_lru _ _ _ _ _ (proj1 (ci_shard _ _ _ Hc s sh Hs))) in He as [(x & Hx & Hsx & _) _].
      apply (si_lru _ _ _ _ _ (proj1 (ci_shard _ _ _ Hc s' sh' Hs'))) in He' as [(x' & Hx' & Hsx' & _) _].
      congruence. }
  destruct (destroy_shards_spec (rev (shard_ c)) (memory c) Hnd) as (m & -> & Hl & Hg & Hr).
  { intros e (s & sh & Hs & He)%Hin.
    apply (si_lru _ _ _ _ _ (proj1 (ci_shard _ _ _ Hc s sh Hs))) in He as [(x & Hx & _ & Hic) _].
    exists x. split; [done|]. destruct (mi_refs _ _ _ Hm e x Hx) as [Hrx _]. by rewrite Hic in Hrx. }
  assert (entries m = ∅) as Hempty.
  { apply map_empty. intros e. destruct (decide (e ∈ flat_map lru_ (rev (shard_ c)))) as [He|He]; [by apply Hg|].
    rewrite Hr by done. destruct (entries (memory c) !! e) as [x|] eqn:Hx; [|done]. exfalso. apply He, Hin.
    destruct (mi_refs _ _ _ Hm e x Hx) as [Hrx Hr0]. cbn in Hrx.
    assert (in_cache x = true) as Hic by (destruct (in_cache x); [done|lia]).
    destruct (cache_shard c [] ks (key x) Hc) as [sh Hs]. exists (Shard (HashSlice (key x))), sh. split; [done|].
    apply (si_lru _ _ _ _ _ (proj1 (ci_shard _ _ _ Hc _ sh Hs))). split; [|done].
    exists x. split_and!; [done| |done]. by rewrite (proj1 (mi_entry _ _ _ Hm e x Hx)). }
  exists m. split; [done|]. split; [done|]. rewrite <- Hl. unfold ledger. rewrite Hempty. cbn. by rewrite app_nil_r.
Qed.

(** ** Clients *)

Inductive op : Type :=
| OpInsert (k : bytes) (v : V) (n : Z)
| OpLookup (k : bytes)
| OpRelease (i : nat)
| OpErase (k : bytes)
| OpPrune.

(** What a client holds: the handles and the values it read through them. *)
Definition client : Type := Cache * list (addr * V).

Definition do_op (st : client) (o : op) : res fault client :=
  let '(c, held) := st in
  match o with
  | OpInsert k v n => let! (h, c) := cache_insert c k v n in Ok (c, (h, v) :: held)
  | OpLookup k =>
      let! (r, c) := cache_lookup c k in
      match r with
      | Some h => let! v := cache_value c h in Ok (c, (h, v) :: held)
      | None => Ok (c, held)
      end
  | OpRelease i =>
      match held !! i with
      | Some (h, _) => let! c := cache_release c h in Ok (c, delete i held)
      | None => Ok (c, held)
      end
  | OpErase k => let! c := cache_erase c k in Ok (c, held)
  | OpPrune => let! c := cache_prune c in Ok (c, held)
  end.

Fixpoint run_ops (st : client) (ops : list op) : res fault client :=
  match ops with
  | [] => Ok st
  | o :: ops' => let! st := do_op st o in run_ops st ops'
  end.

Fixpoint release_all (c : Cache) (held : list (addr * V)) : res fault Cache :=
  match held with
  | [] => Ok c
  | (h, _) :: held' => let! c := cache_release c h in release_all c held'
  end.

Definition inserted (o : op) : list (bytes * V) :=
  match o with OpInsert k v _ => [(k, v)] | _ => [] end.

Definition op_ok (o : op) : Prop := match o with OpInsert _ _ n => 0 <= n < 2 ^ 32 | _ => True end.

Definition client_inv (st : client) (ks : list bytes) : Prop :=
  cache_inv st.1 (map fst st.2) ks /\
  forall h v, (h, v) ∈ st.2 -> exists x, entries (memory st.1) !! h = Some x /\ value x = v.

(** A held entry keeps its value. *)
Lemma held_value (m m' : Memory) (hs : list addr) (ks : list bytes) (h : addr) (v : V) (x : LRUHandle) :
  keeps_all m m' -> mem_inv m' hs ks -> h ∈ hs -> entries m !! h = Some x -> value x = v ->
  exists x', entries m' !! h = Some x' /\ value x' = v.
Proof.
  intros Hk Hm' Hh Hx Hv. destruct (mi_held _ _ _ Hm' h Hh) as [x' Hx'].
  destruct (ka_sub _ _ Hk h x' Hx') as (y & Hy & [= _ Hvy _ _]). exists x'. split; congruence.
Qed.

(** An operation that leaves the client with some of its handles. *)
Lemma client_inv_keeps (c c' : Cache) (held held' : list (addr * V)) (ks : list bytes) :
  client_inv (c, held) ks -> keeps_all (memory c) (memory c') -> cache_inv c' (map fst held') ks ->
  (forall p, p ∈ held' -> p ∈ held) -> client_inv (c', held') ks.
Proof.
  intros [_ Hv] Hk Hc' Hsub. split; [done|]. intros h v Hin. destruct (Hv h v (Hsub _ Hin)) as (x & Hx & Hvx).
  apply (held_value (memory c) _ (map fst held') ks h v x); try done; [apply Hc'|].
  apply (list_elem_of_fmap_2 fst _ (h, v)). done.
Qed.

Lemma do_op_spec (st : client) (o : op) (ks : list bytes) :
  client_inv st ks -> op_ok o -> (forall p, p ∈ inserted o -> p.1 ∈ ks) ->
  Z.of_nat (S (length st.2)) < 2 ^ 32 - 1 ->
  exists st', do_op st o = Ok st' /\ client_inv st' ks /\ (length st'.2 <= S (length st.2))%nat /\
    ledger (memory st'.1) ≡ₚ inserted o ++ ledger (memory st.1).
Proof.
  destruct st as [c held]. intros Hst Hok Hin Hf. pose proof Hst as [Hc Hv]. cbn [fst snd] in *.
  rewrite <- (length_map fst) in Hf. destruct o as [k v n|k|i|k|]; cbn [do_op inserted app].
  - destruct (cache_insert_spec c _ ks k v n Hc (Hin (k, v) ltac:(by constructor)) Hok Hf)
      as (h & c' & -> & Hc' & (x & s & Hnew & Hkx & Hvx & Hkeep) & _).
    cbn [res_bind]. eexists. split; [done|]. split; [|split; [cbn; lia|]].
    + split; [exact Hc'|]. apply keeps_keeps_all in Hkeep. intros h' v' Hin'. cbn in Hin'. cbn [fst].
      assert (exists y, entries (store (memory c) h x) !! h' = Some y /\ value y = v') as (y & Hy & Hvy).
      { apply elem_of_cons in Hin' as [[= -> ->]|Hin']; [exists x; cbn; by rewrite lookup_insert_eq|].
        destruct (Hv h' v' Hin') as (y & Hy & Hvy). exists y. cbn. rewrite lookup_insert_ne; [done|congruence]. }
      apply (held_value _ _ (h :: map fst held) ks h' v' y Hkeep); try done; [apply Hc'|].
      apply (list_elem_of_fmap_2 fst ((h, v) :: held) (h', v')). done.
    + cbn. rewrite (k_ledger _ _ _ Hkeep), ledger_new by done. by rewrite Hkx, Hvx.
  - destruct (cache_lookup_spec c _ ks k Hc Hf) as (r & c' & -> & Hr). cbn [res_bind]. destruct r as [h|].
    + destruct Hr as (Hc' & _ & _ & s & Hkeep%keeps_keeps_all). unfold cache_value, deref.
      destruct (mi_held _ _ _ (ci_mem _ _ _ Hc') h ltac:(by constructor)) as [x Hx]. rewrite Hx. cbn [res_bind].
      eexists. split; [done|]. split; [|split; [cbn; lia|apply Hkeep]]. split; [exact Hc'|].
      intros h' v' [[= -> ->]|Hin']%elem_of_cons; [by exists x|]. destruct (Hv h' v' Hin') as (y & Hy & Hvy).
      apply (held_value (memory c) _ (h :: map fst held) ks h' v' y); try done; [apply Hc'|].
      right. by apply (list_elem_of_fmap_2 fst held (h', v')).
    + destruct Hr as (Hc' & Em & _). eexists. split; [done|]. split; [|split; [cbn; lia|by cbn; rewrite Em]].
      apply (client_inv_keeps c c' held held); try done. rewrite Em. reflexivity.
  - destruct (held !! i) as [[h v]|] eqn:Ei.
    + destruct (cache_release_spec c (map fst held) (map fst (delete i held)) ks h Hc) as (c' & -> & Hc' & s & Hkeep).
      { rewrite <- (delete_Permutation held i (h, v) Ei) || rewrite (delete_Permutation held i (h, v) Ei) at 1. done. }
      cbn [res_bind]. eexists. split; [done|]. apply keeps_keeps_all in Hkeep.
      split; [|split; [cbn; rewrite length_delete by done; lia|apply Hkeep]].
      apply (client_inv_keeps c c' held); try done. intros p Hp.
      rewrite (delete_Permutation held i (h, v) Ei). by right.
    + eexists. split; [done|]. split; [done|]. split; [cbn; lia|done].
  - destruct (cache_erase_spec c _ ks k Hc) as (c' & -> & Hc' & (s & Hkeep%keeps_keeps_all) & _).
    cbn [res_bind]. eexists. split; [done|]. split; [by apply (client_inv_keeps c c' held held)|].
    split; [cbn; lia|apply Hkeep].
  - unfold cache_prune. rewrite (ci_shards _ _ _ Hc).
    destruct (prune_shards_spec 16 0 c _ ks Hc eq_refl) as (c' & -> & Hc' & Hkeep & _); [lia|].
    cbn [res_bind]. eexists. split; [done|]. split; [by apply (client_inv_keeps c c' held held)|].
    split; [cbn; lia|apply Hkeep].
Qed.

Lemma run_ops_spec (ops : list op) (st : client) (ks : list bytes) :
  client_inv st ks -> Forall op_ok ops -> (forall p, p ∈ flat_map inserted ops -> p.1 ∈ ks) ->
  Z.of_nat (length ops + length st.2) < 2 ^ 32 - 1 ->
  exists st', run_ops st ops = Ok st' /\ client_inv st' ks /\ (length st'.2 <= length ops + length st.2)%nat /\
    ledger (memory st'.1) ≡ₚ flat_map inserted ops ++ ledger (memory st.1).
Proof.
  revert st. induction ops as [|o ops IH]; intros st Hst Hok Hin Hf; cbn [run_ops].
  { by exists st. }
  apply Forall_cons in Hok as [Ho Hok]. cbn [length] in Hf.
  destruct (do_op_spec st o ks Hst Ho) as (st1 & -> & Hst1 & Hlen & Hl1);
    [intros p Hp; apply Hin, elem_of_app; by left|lia|].
  cbn [res_bind]. destruct (IH st1 Hst1 Hok) as (st' & -> & Hst' & Hlen' & Hl');
    [intros p Hp; apply Hin, elem_of_app; by right|lia|].
  exists st'. split; [done|]. split; [done|]. split; [cbn [length]; lia|]. cbn [flat_map]. rewrite Hl', Hl1. solve_Permutation.
Qed.

Lemma release_all_spec (held : list (addr * V)) (c : Cache) (ks : list bytes) :
  cache_inv c (map fst held) ks ->
  exists c', release_all c held = Ok c' /\ cache_inv c' [] ks /\ ledger (memory c') ≡ₚ ledger (memory c).
Proof.
  revert c. induction held as [|[h v] held IH]; intros c Hc; cbn [release_all].
  { by exists c. }
  destruct (cache_release_spec c _ (map fst held) ks h Hc) as (c1 & -> & Hc1 & s & Hk1); [done|].
  cbn [res_bind]. destruct (IH c1 Hc1) as (c' & -> & Hc' & Hl'). exists c'. split; [done|]. split; [done|].
  rewrite Hl'. apply Hk1.
Qed.

End LruTheorems.

Section Claims.
Context {bo : ByteOrder} {V : Type}.

(** The capacity of one shard. *)
Definition per_shard (capacity : Z) : Z := wrap_u64 (capacity + (kNumShards - 1)) / kNumShards.

(** The state that operations on a new cache reach. *)
Lemma run_new (capacity : Z) (ops : list (op (V := V))) (ks : list bytes) :
  Forall op_ok ops -> (forall p, p ∈ flat_map inserted ops -> p.1 ∈ ks) -> Z.of_nat (length ks) <= 2 ^ 31 ->
  Z.of_nat (length ops) < 2 ^ 31 ->
  exists c0 c held, NewLRUCache capacity = Ok c0 /\ run_ops (c0, []) ops = Ok (c, held) /\
    client_inv (cap := per_shard capacity) (c, held) ks /\ (length held <= length ops)%nat /\
    ledger (memory c) ≡ₚ flat_map inserted ops.
Proof.
  intros Hok Hin Hks Hlen. destruct (NewLRUCache_spec (V := V) capacity ks Hks) as (c0 & Hnew & Hl0 & Hc0).
  destruct (run_ops_spec (cap := per_shard capacity) ops (c0, []) ks) as ([c held] & Hrun & Hst & Hh & Hl); cbn [fst snd length] in *; try done; try lia.
  { split; [done|]. by intros h v ?%not_elem_of_nil. }
  exists c0, c, held. split_and!; try done; [lia|]. rewrite Hl, Hl0. unfold ledger. cbn. by rewrite app_nil_r.
Qed.

Lemma inserted_keys (ops : list (op (V := V))) : (length (map fst (flat_map inserted ops)) <= length ops)%nat.
Proof.
  rewrite length_map. induction ops as [|o ops IH]; cbn; [done|]. rewrite length_app. destruct o; cbn; lia.
Qed.

(** C26: the cache never uses freed memory and deletes every value once.  From a
    new cache of any capacity, every sequence of inserts, lookups, releases of
    handles that are held, erasures and prunings returns; each handle still held
    at the end gives the value it was taken for; and once the handles are
    released, destroying the cache leaves nothing allocated and has called the
    deleter exactly once for every insertion. *)
Theorem cache_memory_safe (capacity : Z) (ops : list (op (V := V))) :
  Forall op_ok ops -> Z.of_nat (length ops) < 2 ^ 31 ->
  exists c0 c held c' m,
    NewLRUCache capacity = Ok c0 /\ run_ops (c0, []) ops = Ok (c, held) /\
    (forall h v, (h, v) ∈ held -> cache_value c h = Ok v) /\
    release_all c held = Ok c' /\ cache_destroy c' = Ok m /\
    entries m = ∅ /\ deleted m ≡ₚ flat_map inserted ops.
Proof.
  intros Hok Hlen. set (ks := map fst (flat_map inserted ops)).
  assert (length ks <= length ops)%nat as Hks by apply inserted_keys.
  destruct (run_new capacity ops ks) as (c0 & c & held & Hnew & Hrun & [Hc Hv] & _ & Hl); [done| |lia|done|].
  { intros p Hp. by apply (list_elem_of_fmap_2 fst). }
  cbn [fst snd] in *.
  destruct (release_all_spec held c ks Hc) as (c' & Hrel & Hc' & Hl').
  destruct (cache_destroy_spec c' ks Hc') as (m & Hd & He & Hdel).
  exists c0, c, held, c', m. split_and!; try done.
  - intros h v (x & Hx & Hvx)%Hv. unfold cache_value, deref. rewrite Hx. cbn. by rewrite Hvx.
  - by rewrite Hdel, Hl', Hl.
Qed.
(** Evictions take the least recently used entries and no more than needed.
    In a shard with its invariant, [Insert] takes out the entry that had the key,
    if there is one, and then evicts a prefix of the remaining idle entries, the
    oldest first; it calls the deleters of the idle ones it takes out, in that
    order, never of an entry that a client holds; afterwards the charges are
    within the capacity or nothing is idle, and with any of the evicted entries
    still there they would exceed it. *)
Theorem insert_evicts_lru (s : nat) (m : Memory (V := V)) (hs : list addr) (ks : list bytes) (c : LRUCache)
    (k : bytes) (n : Z) (v : V) :
  mem_inv m hs ks -> shard_inv s m hs c [] -> k ∈ ks -> Shard (HashSlice k) = s -> 0 <= n < 2 ^ 32 ->
  Z.of_nat (length (malloc m :: hs)) < 2 ^ 32 - 1 -> 0 < capacity_ c ->
  exists m' c' old i, Insert m c k (HashSlice k) v n = Ok (malloc m, m', c') /\
    (forall o, old = Some o -> has_key m k o) /\
    let idle := match old with Some o => unlink o (lru_ c) | None => lru_ c end in
    let same := filter (fun o => o ∈ lru_ c) (match old with Some o => [o] | None => [] end) in
    lru_ c' = drop i idle /\ deleted m' = deleted m ++ kvs m same ++ kvs m (take i idle) /\
    (usage_ c' <= capacity_ c \/ lru_ c' = []) /\
    (forall j, (j < i)%nat -> capacity_ c < usage_ c' + charges m (drop j (take i idle))) /\
    forall h, h ∈ hs -> is_Some (entries m' !! h).
Proof.
  intros Hm Hc Hk Hs Hn Hf Hcap.
  destruct (Insert_evicts s m hs ks c k n v Hm Hc Hk Hs Hn Hf Hcap)
    as (m' & c' & old & i & Hi & Hold & El & Ed & Hfull & Hmin).
  exists m', c', old, i. split; [done|]. split; [done|]. cbv zeta. split_and!; try done. intros h Hh.
  destruct (Insert_spec s m hs ks c k n v Hm Hc Hk Hs Hn Hf ltac:(lia)) as (m1 & c1 & Hi1 & Hm1 & _).
  rewrite Hi in Hi1. injection Hi1 as <- <-. apply (mi_held _ _ _ Hm1). by right.
Qed.

End Claims.

(** ** A cache at work *)

Section Sample.
#[local] Instance lru_order : ByteOrder := true.

Definition sample_ops : list (op (V := Z)) :=
  [OpInsert [1] 11 1; OpInsert [2] 12 1; OpLookup [1]; OpRelease 1; OpInsert [1] 13 1; OpErase [2]; OpLookup [2];
   OpRelease 0; OpRelease 0; OpPrune].

Lemma cache_memory_safe_witness :
  Forall op_ok sample_ops /\
  exists c0 c held c' m, NewLRUCache (V := Z) 64 = Ok c0 /\ run_ops (c0, []) sample_ops = Ok (c, held) /\
    release_all c held = Ok c' /\ cache_destroy c' = Ok m /\ deleted m ≡ₚ [([1], 11); ([2], 12); ([1], 13)].
Proof.
  assert (Forall op_ok sample_ops) as Hok by (repeat constructor; cbn; lia).
  split; [exact Hok|].
  destruct (cache_memory_safe 64 sample_ops Hok ltac:(cbn; lia))
    as (c0 & c & held & c' & m & H1 & H2 & _ & H3 & H4 & _ & H5).
  exists c0, c, held, c', m. exact (conj H1 (conj H2 (conj H3 (conj H4 H5)))).
Defined.


(** Three keys of one shard that has room for two. *)
Definition evict_ops : list (op (V := Z)) := [OpInsert [1] 11 1; OpInsert [10] 12 1; OpRelease 0; OpRelease 0].

Lemma insert_evicts_lru_witness :
  exists c0 c held sh m' c' old i, NewLRUCache (V := Z) 32 = Ok c0 /\ run_ops (c0, []) evict_ops = Ok (c, held) /\
    shard_ c !! Shard (HashSlice [19]) = Some sh /\
    Insert (memory c) sh [19] (HashSlice [19]) 13 1 = Ok (malloc (memory c), m', c') /\
    lru_ c' = drop i (match old with Some o => unlink o (lru_ sh) | None => lru_ sh end).
Proof.
  destruct (run_new 32 evict_ops [[1]; [10]; [19]]) as (c0 & c & held & H1 & H2 & [Hc _] & Hh & _).
  - repeat constructor; cbn; lia.
  - cbn. set_solver.
  - cbn. lia.
  - cbn. lia.
  - cbn [fst snd length evict_ops] in Hc, Hh. rewrite <- (length_map fst) in Hh.
    destruct (cache_shard c _ _ [19] Hc) as [sh Hsh]. destruct (ci_shard _ _ _ Hc _ sh Hsh) as [Hi Hcap].
    destruct (insert_evicts_lru (Shard (HashSlice [19])) (memory c) (map fst held) _ sh [19] 1 13 (ci_mem _ _ _ Hc) Hi)
      as (m' & c' & old & i & Hins & _ & El & _).
    + set_solver.
    + reflexivity.
    + lia.
    + cbn [length]. lia.
    + rewrite Hcap. reflexivity.
    + exists c0, c, held, sh, m', c', old, i. exact (conj H1 (conj H2 (conj Hsh (conj Hins El)))).
Defined.

(** The entry that was released first goes. *)
Example evicts_oldest :
  match NewLRUCache (V := Z) 32 with
  | Ok c0 =>
      match run_ops (c0, []) (evict_ops ++ [OpInsert [19] 13 1]) with
      | Ok (c, _) => deleted (memory c) = [([10], 12)]
      | Err _ => False
      end
  | Err _ => False
  end.
Proof. vm_compute. reflexivity. Qed.

End Sample.
