(* ===== verification/LruBlocks.v ===== *)
(** The LRU cache under the table reader.

    [LruCache] implements the interface [BlockCache] of [Table.v]: a fault of an
    operation, which ends the program, would be kept as the state of the cache,
    from which no call recovers, and the laws show that there is none.  So everything that tables promise holds with a cache that
    [NewLRUCache] made. *)
From stdpp Require Import gmap.
From S2P Require Import Prelude Bytes Coding Crc32c Block Iterator BlockSpec BlockIter TwoLevel Format TableBuilder TableSpec TableBuild Table TableReader TableTheorems LruCache LruSpec LruShard LruOps LruSharded LruTheorems.
Import LruCache.

Section LruBlocks.
Context {bo : ByteOrder}.

Local Abbreviation lru := (res fault (Cache (V := Block.t))).

Definition null_block : Block.t := Block.mk [] 0 0.

#[local] Instance lru_block_cache : BlockCache lru positive := {|
  cache_NewId c :=
    match c with
    | Ok c => let (id, c) := NewId c in (id, Ok c)
    | Err f => (0, Err f)
    end;
  cache_Lookup c k :=
    match res_bind c (fun c => cache_lookup c k) with
    | Ok (r, c) => (r, Ok c)
    | Err f => (None, Err f)
    end;
  cache_Value c h :=
    match res_bind c (fun c => cache_value c h) with
    | Ok b => b
    | Err _ => null_block
    end;
  cache_Insert c k b n :=
    match res_bind c (fun c => cache_insert c k b n) with
    | Ok (h, c) => (h, Ok c)
    | Err f => (1%positive, Err f)
    end;
  cache_Release c h := res_bind c (fun c => cache_release c h)
|}.

Definition lru_holds (M : bytes -> Block.t -> Prop) (c : lru) (hs : list positive) : Prop :=
  exists c0 ks cap, c = Ok c0 /\ cache_inv (cap := cap) c0 hs ks /\
    (forall e x, entries (memory c0) !! e = Some x -> M (key x) (value x)) /\
    forall k b, M k b -> k ∈ ks.

Lemma mem_inv_keys (m : Memory (V := Block.t)) (hs : list positive) (ks ks' : list bytes) :
  mem_inv m hs ks -> (forall e x, entries m !! e = Some x -> key x ∈ ks') ->
  Z.of_nat (length ks') <= 2 ^ 31 -> mem_inv m hs ks'.
Proof. intros [H1 H2 _ H4 H5 _] Hk Hl. split; try done. intros e x Hx _. by apply (Hk e). Qed.

Lemma lru_block_cache_laws : BlockCacheLaws lru positive lru_holds.
Proof.
  split.
  - intros M M' c hs (c0 & ks & cap & -> & [Hn Hsh Hcap Hm Hid] & HM & Hks) HMM (ks' & Hl & Hks').
    exists c0, ks', cap. split_and!; [done| |eauto|done]. split; try done. apply (mem_inv_keys _ hs ks); eauto.
  - intros M c hs id c' (c0 & ks & cap & -> & [Hn Hsh Hcap Hm Hid] & HM & Hks) [= <- <-].
    split; [|apply wrap_u64_range]. eexists _, ks, cap. split; [done|]. cbn. split_and!; try done.
    split; try done. apply wrap_u64_range.
  - intros M c hs k h c' (c0 & ks & cap & -> & Hc & HM & Hks) Hf Hl. unfold few_handles in Hf. cbn in Hl.
    destruct (cache_lookup_spec c0 hs ks k Hc ltac:(lia)) as (r & c1 & Hr & Hspec). rewrite Hr in Hl.
    injection Hl as -> <-. destruct Hspec as (Hc1 & Hce & (x & Hx & Hkx) & s & Hk%keeps_keeps_all).
    assert (forall e y, entries (memory c1) !! e = Some y -> M (key y) (value y)) as HM1.
    { intros e y Hy. destruct (ka_sub _ _ Hk e y Hy) as (z & Hz & [= <- <- _ _]). by eapply HM. }
    split; [by exists c1, ks, cap|]. cbn.
    destruct (mi_held _ _ _ (ci_mem _ _ _ Hc1) h ltac:(by constructor)) as [y Hy].
    unfold cache_value, deref. rewrite Hy. cbn. destruct (ka_sub _ _ Hk h y Hy) as (z & Hz & [= Hkz Hvz _ _]).
    rewrite <- Hvz. replace k with (key z) by congruence. by eapply HM.
  - intros M c hs k c' (c0 & ks & cap & -> & Hc & HM & Hks) Hf Hl. unfold few_handles in Hf. cbn in Hl.
    destruct (cache_lookup_spec c0 hs ks k Hc ltac:(lia)) as (r & c1 & Hr & Hspec). rewrite Hr in Hl.
    injection Hl as -> <-. destruct Hspec as (Hc1 & Em & _). exists c1, ks, cap. rewrite Em. by split_and!.
  - intros M c hs k b n h c' (c0 & ks & cap & -> & Hc & HM & Hks) Hf HMk Hn Hl. unfold few_handles in Hf. cbn in Hl.
    destruct (cache_insert_spec c0 hs ks k b n Hc (Hks k b HMk) Hn ltac:(lia))
      as (e & c1 & Hr & Hc1 & (x & s & Hnew & Hkx & Hvx & Hk%keeps_keeps_all) & _).
    rewrite Hr in Hl. injection Hl as -> <-.
    assert (forall e y, entries (memory c1) !! e = Some y ->
      if decide (e = h) then key y = k /\ value y = b else M (key y) (value y)) as HM1.
    { intros e y Hy. destruct (ka_sub _ _ Hk e y Hy) as (z & Hz & [= Hkz Hvz _ _]). cbn in Hz. case_decide as He.
      - subst e. rewrite lookup_insert_eq in Hz. injection Hz as <-. split; congruence.
      - rewrite lookup_insert_ne in Hz by done. rewrite <- Hkz, <- Hvz. by eapply HM. }
    split.
    + exists c1, ks, cap. split_and!; try done. intros e y Hy. specialize (HM1 e y Hy). case_decide; [|done].
      by destruct HM1 as [-> ->].
    + destruct (mi_held _ _ _ (ci_mem _ _ _ Hc1) h ltac:(by constructor)) as [y Hy].
      specialize (HM1 h y Hy). rewrite decide_True in HM1 by done. cbn. unfold cache_value, deref.
      rewrite Hy. cbn. by destruct HM1.
  - intros M c a h b (c0 & ks & cap & -> & Hc & HM & Hks). cbn.
    destruct (cache_release_spec c0 (a ++ h :: b) (a ++ b) ks h Hc) as (c1 & -> & Hc1 & s & Hk%keeps_keeps_all).
    { solve_Permutation. }
    exists c1, ks, cap. split_and!; try done. intros e y Hy.
    destruct (ka_sub _ _ Hk e y Hy) as (z & Hz & [= <- <- _ _]). by eapply HM.
Qed.

Lemma new_cache_ready (capacity : Z) :
  exists c, NewLRUCache capacity = Ok c /\
    cache_ready (holds := lru_holds) (fun _ _ => False) (Some (Ok c)) ([] : list (option positive)).
Proof.
  destruct (NewLRUCache_spec (V := Block.t) capacity [] ltac:(cbn; lia)) as (c & Hc & Hm & Hinv).
  exists c. split; [done|]. split; [done|]. split; [|split; [by exists []|done]].
  exists c, [], (wrap_u64 (capacity + (kNumShards - 1)) / kNumShards). split_and!; [done|done| |done].
  intros e x. rewrite Hm. done.
Qed.

Context {pl : CrcPlatform} {sn : Snappy} {F : Type} {raf : RandomAccessFile F} {contents : F -> bytes}.
Context `{!Crc32c.CrcLaws, !SnappyLaws, !ReadableFile F contents}.

(** C28: tables read through the LRU cache.  With a cache that [NewLRUCache] made,
    of whatever capacity, a table of [es] opens, its iterator visits exactly [es],
    from the first entry not below any target, with status OK, and [InternalGet]
    saves for every key of the table its entry; no operation of the cache
    faults. *)
Theorem lru_cached_table (capacity : Z) (file : F) (es : list kv) (target : bytes) :
  table_file es (contents file) ->
  exists c t cache it it',
    NewLRUCache capacity = Ok c /\
    Table.Open (Some (Ok c)) file (size (contents file)) = Ok (OkStatus, Some t, cache) /\
    Table.NewIterator t cache = Ok it /\ it_Seek (IterOps := Table.table_iter_ops t) it target = Ok it' /\
    drain (ops := Table.table_iter_ops t) (length es) it' = Ok (drop (lower_bound target es) es, OkStatus) /\
    forall k v, (k, v) ∈ es -> exists cache',
      Table.InternalGet t cache k = Ok (OkStatus, Some (k, v), cache') /\ forall f, cache' <> Some (Err f).
Proof.
  intros Hf. destruct (new_cache_ready capacity) as (c & Hc & Hready). pose proof lru_block_cache_laws as Hlaws0.
  destruct (table_file_opens (Some (Ok c)) _ [] file es Hf Hready)
    as (t & cache & bs & meta & index & Hopen & (Hfile & Hid & _ & Hix & Hfresh & Hhs & Hlive) & -> & Hindex & _).
  pose proof (table_iter_laws file bs index t Hindex Hfile Hid Hix _ Hfresh [] Hhs) as Hlaws.
  destruct (NewIterator_at bs t Hix _ [] cache Hlive) as (it & Hit & Hat).
  destruct (at_Seek (IterLaws := Hlaws) _ _ _ target Hat) as (it' & Hit' & Hat').
  exists c, t, cache, it, it'. do 4 (split; [done|]).
  split; [by rewrite (drain_at (laws := Hlaws) _ _ _ _ Hat') by lia|]. intros k v Hin.
  destruct (InternalGet_spec file bs index t Hindex Hfile Hid Hix _ Hfresh [] Hhs cache k Hlive)
    as (saved & cache' & Hget & Hlive' & Hsaved).
  rewrite (lower_bound_present k v) in Hsaved by (done || apply Hindex).
  destruct Hsaved as [-> |[_ Hno]]; [|by destruct (Hno v)].
  exists cache'. split; [done|]. intros f ->. by destruct Hlive' as (c1 & ks & cap & ? & _).
Qed.

End LruBlocks.

#[local] Opaque sample_builder.

Lemma lru_cached_table_witness :
  exists c t cache it it',
    NewLRUCache (V := Block.t) 100 = Ok c /\
    Table.Open (bo := true) (pl := Crc32c.software 0) (sn := no_snappy) (raf := memory_file)
      (bc := lru_block_cache (bo := true)) (Some (Ok c)) sample_table (size sample_table) =
      Ok (OkStatus, Some t, cache) /\
    Table.NewIterator (bo := true) t cache = Ok it /\
    it_Seek (IterOps := Table.table_iter_ops (bo := true) (pl := Crc32c.software 0) (sn := no_snappy)
      (raf := memory_file) (bc := lru_block_cache (bo := true)) t) it [2] = Ok it' /\
    drain (ops := Table.table_iter_ops (bo := true) (pl := Crc32c.software 0) (sn := no_snappy)
      (raf := memory_file) (bc := lru_block_cache (bo := true)) t) 4 it' =
      Ok ([([2], [8; 8]); ([9; 9], [1])], OkStatus).
Proof.
  destruct (@lru_cached_table true (Crc32c.software 0) no_snappy bytes memory_file id
    (Crc32c.software_laws 0 ltac:(lia)) no_snappy_laws memory_file_readable 100 sample_table sample_entries [2]
    sample_is_table) as (c & t & cache & it & it' & H1 & H2 & H3 & H4 & H5 & _).
  exists c, t, cache, it, it'. exact (conj H1 (conj H2 (conj H3 (conj H4 H5)))).
Defined.
