(* ===== verification/InputStream.v ===== *)
(** Input streams over files.

    [tsl/lib/io/inputstream_interface.{h,cc}], [random_inputstream.{h,cc}] and
    [buffered_inputstream.{h,cc}].  [InputStreamInterface] is the class
    [InputStream]; its contract, as the header documents it, is [StreamLaws]: a
    stream is a sequence of bytes with a position, reading and skipping past the
    end return [OUT_OF_RANGE] and leave it at the end.  [RandomAccessInputStream]
    reads a file with the documented contract of [RandomAccessFile::Read];
    [BufferedInputStream] reads any stream.  Output arguments are passed in and
    returned; a stream that the model cannot follow (a loop that does not end,
    a read outside of the buffer) is a fault.  Strings of any size can be
    allocated. *)
From S2P Require Import Prelude Bytes Coding Block Format.

(** ** Statuses and loops *)

Definition InvalidArgument : Status := FileError 3.
Definition FailedPrecondition : Status := FileError 9.
Definition OutOfRange : Status := FileError 11.

Definition IsOutOfRange (s : Status) : bool := bool_decide (s = OutOfRange).

Section Loop.
Local Open Scope res_scope.
Context {A B : Type}.

(** Up to [2 ^ k] runs of a loop body that returns the next state of the loop or
    leaves it with a result. *)
Fixpoint loop (k : nat) (body : A -> res fault (A + B)) (a : A) : res fault (A + B) :=
  match k with
  | O => body a
  | S k =>
      let! r := loop k body a in
      match r with inl a' => loop k body a' | inr b => Ok (inr b) end
  end.

(** A [while] loop: every loop of this file counts bytes of 64-bit sizes. *)
Definition while (body : A -> res fault (A + B)) (a : A) : res fault B :=
  let! r := loop 64 body a in
  match r with inl _ => Err OutOfFuel | inr b => Ok b end.

Variables (body : A -> res fault (A + B)) (I : A -> Prop) (Q : B -> Prop) (measure : A -> Z).

Hypothesis body_ok : forall a, I a -> exists r, body a = Ok r /\
  match r with inl a' => I a' /\ 0 <= measure a' < measure a | inr b => Q b end.

Lemma loop_steps (k : nat) (a : A) : I a -> exists r, loop k body a = Ok r /\
  match r with
  | inl a' => I a' /\ 0 <= measure a' /\ measure a' + 2 ^ Z.of_nat k <= measure a
  | inr b => Q b
  end.
Proof.
  revert a. induction k as [|k IH]; intros a Ha.
  - destruct (body_ok a Ha) as (r & Hr & Hp). exists r. split; [done|]. destruct r; [|done].
    cbn [Z.of_nat]. destruct Hp. split; [done|lia].
  - cbn [loop]. destruct (IH a Ha) as (r & -> & Hp). cbn [res_bind]. destruct r as [a'|b].
    + destruct Hp as (Ha' & ? & ?). destruct (IH a' Ha') as (r & -> & Hp). exists r. split; [done|].
      destruct r; [|done]. rewrite Nat2Z.inj_succ, Z.pow_succ_r by lia. destruct Hp as (? & ? & ?).
      split; [done|lia].
    + by exists (inr b).
Qed.

(** A loop ends, in [Q], when its body keeps [I] and decreases a measure. *)
Lemma while_total (a : A) : I a -> measure a < 2 ^ 64 -> exists b, while body a = Ok b /\ Q b.
Proof.
  intros Ha Hm. destruct (loop_steps 64 a Ha) as (r & Hr & Hp). unfold while. rewrite Hr. cbn.
  destruct r as [a'|b]; [|by exists b]. change (Z.of_nat 64) with 64 in Hp. lia.
Qed.

End Loop.

(** ** The interface *)

(** [InputStreamInterface]; [ReadNBytes] is given what its [result] holds. *)
Class InputStream (S : Type) : Type := {
  ReadNBytes : S -> Z -> bytes -> res fault (Status * bytes * S);
  SkipNBytes : S -> Z -> res fault (Status * S);
  Tell : S -> Z;
  Reset : S -> res fault (Status * S)
}.

(** What is left of [data] from [p], at most [n] bytes of it. *)
Definition ahead (data : bytes) (p n : Z) : bytes := take (Z.to_nat n) (drop (Z.to_nat p) data).

(** The status of a call that needs [n] bytes at [p]. *)
Definition enough (data : bytes) (p n : Z) : Status :=
  if p + n <=? size data then OkStatus else OutOfRange.

(** A stream of [data]; [at_ s p]: the stream [s] is at position [p]. *)
Class StreamLaws (S : Type) `{InputStream S} (data : bytes) (at_ : S -> Z -> Prop) : Prop := {
  at_range s p : at_ s p -> 0 <= p <= size data;
  at_Tell s p : at_ s p -> Tell s = p;
  at_Read s p n result : at_ s p -> 0 <= n -> p + n < 2 ^ 63 ->
    exists s', ReadNBytes s n result = Ok (enough data p n, ahead data p n, s') /\
      at_ s' (Z.min (p + n) (size data));
  at_Skip s p n : at_ s p -> 0 <= n -> p + n < 2 ^ 63 ->
    exists s', SkipNBytes s n = Ok (enough data p n, s') /\ at_ s' (Z.min (p + n) (size data));
  at_Reset s p : at_ s p -> exists s', Reset s = Ok (OkStatus, s') /\ at_ s' 0
}.

(** [RandomAccessFile::Read] as documented, for the bytes [contents f]: it reads
    the [n] bytes at [offset], or those before the end and returns
    [OUT_OF_RANGE]. *)
Class ExactFile (F : Type) `{RandomAccessFile F} (contents : F -> bytes) : Prop := {
  file_Read_exact f off n : 0 <= off -> 0 <= n ->
    exists scratch, file_Read f off n = (enough (contents f) off n, ahead (contents f) off n, scratch)
}.

(** A file in memory that returns what it has. *)
Definition string_file : RandomAccessFile bytes := {|
  file_Read := fun f off n => (enough f off n, ahead f (Z.min off (size f)) (Z.min n (size f)), true)
|}.

Definition kMaxSkipSize : Z := 8 * 1024 * 1024.

(** [InputStreamInterface::SkipNBytes], for streams that do not override it. *)
Module InputStreamInterface.
Section Default.
Local Open Scope res_scope.
Context {S : Type} (read : S -> Z -> bytes -> res fault (Status * bytes * S)).

Definition skip_body (st : Z * bytes * S) : res fault ((Z * bytes * S) + (Status * S)) :=
  let '(bytes_to_skip, unused, s) := st in
  if 0 <? bytes_to_skip then
    let bytes_to_read := Z.min kMaxSkipSize bytes_to_skip in
    let! (st, unused, s) := read s bytes_to_read unused in
    if ok st then Ok (inl (bytes_to_skip - bytes_to_read, unused, s)) else Ok (inr (st, s))
  else Ok (inr (OkStatus, s)).

Definition SkipNBytes (s : S) (bytes_to_skip : Z) : res fault (Status * S) :=
  if bytes_to_skip <? 0 then Ok (InvalidArgument, s)
  else while skip_body (bytes_to_skip, [], s).

End Default.
End InputStreamInterface.

(** ** Streams of files *)

Module RandomAccessInputStream.
Section Stream.
Local Open Scope res_scope.
Context {F : Type} `{RandomAccessFile F}.

Record t : Type := mk { file_ : F; pos_ : Z }.

Definition new (file : F) : t := mk file 0.

Definition ReadNBytes (st : t) (bytes_to_read : Z) (result : bytes) : res fault (Status * bytes * t) :=
  if bytes_to_read <? 0 then Ok (InvalidArgument, result, st)
  else
    let '(s, data, _) := file_Read (file_ st) (wrap_u64 (pos_ st)) bytes_to_read in
    let pos := if ok s || IsOutOfRange s then wrap_i64 (pos_ st + size data) else pos_ st in
    Ok (s, data, mk (file_ st) pos).

(** One round of the loop that reads what it skips. *)
Definition skip_body (file : F) (st : Z * Z) : res fault (Z * Z + Status * Z) :=
  let '(bytes_to_skip, pos) := st in
  if 0 <? bytes_to_skip then
    let bytes_to_read := Z.min kMaxSkipSize bytes_to_skip in
    let '(s, data, _) := file_Read file (wrap_u64 pos) bytes_to_read in
    if ok s || IsOutOfRange s then
      let pos := wrap_i64 (pos + size data) in
      if size data <? bytes_to_read then Ok (inr (OutOfRange, pos))
      else Ok (inl (bytes_to_skip - bytes_to_read, pos))
    else Ok (inr (s, pos))
  else Ok (inr (OkStatus, pos)).

Definition SkipNBytes (st : t) (bytes_to_skip : Z) : res fault (Status * t) :=
  if bytes_to_skip <? 0 then Ok (InvalidArgument, st)
  else
    let reached :=
      if 0 <? bytes_to_skip then
        let '(s, data, _) :=
          file_Read (file_ st) (wrap_u64 (wrap_i64 (wrap_i64 (pos_ st + bytes_to_skip) - 1))) 1 in
        (ok s || IsOutOfRange s) && (size data =? 1)
      else false in
    if reached then Ok (OkStatus, mk (file_ st) (wrap_i64 (pos_ st + bytes_to_skip)))
    else
      let! (s, pos) := while (skip_body (file_ st)) (bytes_to_skip, pos_ st) in
      Ok (s, mk (file_ st) pos).

Definition Tell (st : t) : Z := pos_ st.

Definition Seek (st : t) (position : Z) : Status * t := (OkStatus, mk (file_ st) position).

Definition Reset (st : t) : res fault (Status * t) := Ok (Seek st 0).

#[global] Instance stream : InputStream t := {
  ReadNBytes := ReadNBytes; SkipNBytes := SkipNBytes; Tell := Tell; Reset := Reset
}.

End Stream.
Arguments t : clear implicits.
End RandomAccessInputStream.

(** ** Buffered streams *)

Module BufferedInputStream.
Section Stream.
Local Open Scope res_scope.
Context {S : Type} `{InputStream S}.

(** [buf_[pos_, limit_)] was read ahead; [file_status_] is the status that ended
    the reads of [input_stream_]. *)
Record t : Type := mk {
  input_stream_ : S;
  size_ : Z;
  buf_ : bytes;
  pos_ : Z;
  limit_ : Z;
  file_status_ : Status
}.

Definition new (input_stream : S) (buffer_bytes : Z) : t := mk input_stream buffer_bytes [] 0 0 OkStatus.

Definition set_pos (b : t) (pos : Z) : t :=
  mk (input_stream_ b) (size_ b) (buf_ b) pos (limit_ b) (file_status_ b).

Definition set_status (b : t) (s : Status) : t :=
  mk (input_stream_ b) (size_ b) (buf_ b) (pos_ b) (limit_ b) s.

Definition FillBuffer (b : t) : res fault (Status * t) :=
  if negb (ok (file_status_ b)) then
    Ok (file_status_ b, mk (input_stream_ b) (size_ b) (buf_ b) 0 0 (file_status_ b))
  else
    let! (s, buf, input) := ReadNBytes (input_stream_ b) (wrap_i64 (size_ b)) (buf_ b) in
    let status := if ok s then file_status_ b else s in
    Ok (s, mk input (size_ b) buf 0 (size buf) status).

(** What the loops do when the buffer is used up: they fill it, and leave the
    loop when that gives them nothing, which the flag says. *)
Definition refill (b : t) : res fault (Status * t * bool) :=
  let! (s, b) := FillBuffer b in Ok (s, b, limit_ b =? 0).

Definition line_append (b : t) (result : bytes) (start_pos : Z) : res fault bytes :=
  let! piece := Block.read (buf_ b) start_pos (pos_ b - start_pos) in Ok (result ++ piece).

(** The loop of [ReadLineHelper]; its state is [s], [*result], [start_pos]. *)
Definition line_body (include_eol : bool) (st : Status * bytes * Z * t) :
    res fault ((Status * bytes * Z * t) + (Status * bytes * t)) :=
  let '(s, result, start_pos, b) := st in
  let! (s, result, start_pos, b, eof) :=
    if pos_ b =? limit_ b then
      let! result := line_append b result start_pos in
      let! (s, b, eof) := refill b in
      Ok (s, result, if eof then start_pos else pos_ b, b, eof)
    else Ok (s, result, start_pos, b, false) in
  if eof then
    Ok (inr (if IsOutOfRange s && negb (bool_decide (result = [])) then OkStatus else s, result, b))
  else
    let! c := Block.read (buf_ b) (pos_ b) 1 in
    if bool_decide (c = [10]) then
      let! result := line_append b result start_pos in
      let result := if include_eol then result ++ c else result in
      Ok (inr (OkStatus, result, set_pos b (pos_ b + 1)))
    else if bool_decide (c = [13]) then
      let! result := line_append b result start_pos in
      Ok (inl (s, result, pos_ b + 1, set_pos b (pos_ b + 1)))
    else Ok (inl (s, result, start_pos, set_pos b (pos_ b + 1))).

Definition ReadLineHelper (b : t) (include_eol : bool) : res fault (Status * bytes * t) :=
  while (line_body include_eol) (OkStatus, [], pos_ b, b).

(** The loop of [ReadNBytes]; its state is [s], [*result]. *)
Definition read_body (bytes_to_read : Z) (st : Status * bytes * t) :
    res fault ((Status * bytes * t) + (Status * bytes * t)) :=
  let '(s, result, b) := st in
  if size result <? bytes_to_read then
    let! (s, b, eof) := if pos_ b =? limit_ b then refill b else Ok (s, b, false) in
    if eof then Ok (inr (s, result, set_status b s))
    else
      let bytes_to_copy := Z.min (limit_ b - pos_ b) (bytes_to_read - size result) in
      let! piece := Block.read (buf_ b) (pos_ b) bytes_to_copy in
      Ok (inl (s, result ++ piece, set_pos b (pos_ b + bytes_to_copy)))
  else Ok (inr (s, result, b)).

Definition ReadNBytes (b : t) (bytes_to_read : Z) (result : bytes) : res fault (Status * bytes * t) :=
  if bytes_to_read <? 0 then Ok (InvalidArgument, result, b)
  else if (pos_ b =? limit_ b) && negb (ok (file_status_ b)) && (0 <? bytes_to_read) then
    Ok (file_status_ b, [], b)
  else
    let! (s, result, b) := while (read_body bytes_to_read) (OkStatus, [], b) in
    if IsOutOfRange s && (size result =? bytes_to_read) then Ok (OkStatus, result, b)
    else Ok (s, result, b).

Definition SkipNBytes (b : t) (bytes_to_skip : Z) : res fault (Status * t) :=
  if bytes_to_skip <? 0 then Ok (InvalidArgument, b)
  else if wrap_u64 (pos_ b + bytes_to_skip) <? limit_ b then
    Ok (OkStatus, set_pos b (pos_ b + bytes_to_skip))
  else
    let! (s, input) :=
      SkipNBytes (input_stream_ b) (wrap_i64 (wrap_u64 (bytes_to_skip - (limit_ b - pos_ b)))) in
    let status := if IsOutOfRange s then s else file_status_ b in
    Ok (s, mk input (size_ b) (buf_ b) 0 0 status).

Definition Tell (b : t) : Z := wrap_i64 (Tell (input_stream_ b) - (limit_ b - pos_ b)).

Definition Reset (b : t) : res fault (Status * t) :=
  let! (s, input) := Reset (input_stream_ b) in
  if ok s then Ok (OkStatus, mk input (size_ b) (buf_ b) 0 0 OkStatus)
  else Ok (s, mk input (size_ b) (buf_ b) (pos_ b) (limit_ b) (file_status_ b)).

Definition Seek (b : t) (position : Z) : res fault (Status * t) :=
  if position <? 0 then Ok (InvalidArgument, b)
  else
    let buf_lower_limit := wrap_i64 (InputStream.Tell (input_stream_ b) - limit_ b) in
    if position <? buf_lower_limit then
      let! (s, b) := Reset b in
      if ok s then SkipNBytes b position else Ok (s, b)
    else if position <? Tell b then
      Ok (OkStatus, set_pos b (pos_ b - (Tell b - position)))
    else SkipNBytes b (position - Tell b).

(** The loop of [ReadAll]; its state is [status], [*result]. *)
Definition all_body (st : Status * bytes * t) : res fault ((Status * bytes * t) + (Status * bytes * t)) :=
  let '(status, result, b) := st in
  if ok status then
    let! (status, b, eof) := refill b in
    if eof then Ok (inr (status, result, b))
    else Ok (inl (status, result ++ buf_ b, set_pos b (limit_ b)))
  else Ok (inr (status, result, b)).

Definition ReadAll (b : t) : res fault (Status * bytes * t) :=
  let! (status, result, b) := while all_body (OkStatus, [], b) in
  if IsOutOfRange status then Ok (OkStatus, result, set_status b status)
  else Ok (status, result, b).

Definition ReadLine (b : t) : res fault (Status * bytes * t) := ReadLineHelper b false.

Definition ReadLineAsString (b : t) : res fault (bytes * t) :=
  let! (_, result, b) := ReadLineHelper b true in Ok (result, b).

(** The loop of [SkipLine]; its state is [s], [skipped]. *)
Definition skip_line_body (st : Status * bool * t) : res fault ((Status * bool * t) + (Status * t)) :=
  let '(s, skipped, b) := st in
  let! (s, b, eof) := if pos_ b =? limit_ b then refill b else Ok (s, b, false) in
  if eof then Ok (inr (if IsOutOfRange s && skipped then OkStatus else s, b))
  else
    let! c := Block.read (buf_ b) (pos_ b) 1 in
    let b := set_pos b (pos_ b + 1) in
    if bool_decide (c = [10]) then Ok (inr (OkStatus, b)) else Ok (inl (s, true, b)).

Definition SkipLine (b : t) : res fault (Status * t) := while skip_line_body (OkStatus, false, b).

#[global] Instance stream : InputStream t := {
  ReadNBytes := ReadNBytes; SkipNBytes := SkipNBytes; Tell := Tell; Reset := Reset
}.

End Stream.
Arguments t : clear implicits.
End BufferedInputStream.
