(* ===== verification/StreamTheorems.v ===== *)
(** Input streams deliver the bytes of their file.

    The streams of [InputStream.v] satisfy [StreamLaws]: the one over a file when
    the file's [Read] is exact, the buffered one over any stream that does.  On
    top of them the lines, seeks and whole-file reads of buffered streams are
    specified. *)
From S2P Require Import Prelude Bytes Coding Block Format InputStream.

(** ** Parts of the data *)

Section Ahead.
Context (data : bytes).

Lemma ahead_size (p n : Z) : 0 <= p <= size data -> 0 <= n -> size (ahead data p n) = Z.min n (size data - p).
Proof. intros. unfold ahead, size in *. rewrite length_take, length_drop. lia. Qed.

Lemma ahead_app (p a b : Z) :
  0 <= p -> 0 <= a -> 0 <= b -> ahead data p a ++ ahead data (p + a) b = ahead data p (a + b).
Proof.
  intros. unfold ahead. rewrite !Z2Nat.inj_add by lia. by rewrite <- drop_drop, take_take_drop.
Qed.

Lemma ahead_rest (p n : Z) : 0 <= p -> size data - p <= n -> ahead data p n = drop (Z.to_nat p) data.
Proof. intros. unfold ahead, size in *. apply take_ge. rewrite length_drop. lia. Qed.

Lemma ahead_clip (p n m : Z) :
  0 <= p <= size data -> size data - p <= n -> size data - p <= m -> ahead data p n = ahead data p m.
Proof. intros. rewrite !ahead_rest by lia. done. Qed.

Lemma ahead_sub (p n : Z) : 0 <= p -> 0 <= n -> p + n <= size data -> sub data p n = Some (ahead data p n).
Proof. intros. unfold sub. rewrite !(proj2 (Z.leb_le _ _)) by lia. done. Qed.

Lemma ahead_nil (p : Z) : ahead data p 0 = [].
Proof. done. Qed.

Lemma ahead_ahead (p a q b : Z) :
  0 <= p -> 0 <= q -> 0 <= b -> q + b <= a ->
  take (Z.to_nat b) (drop (Z.to_nat q) (ahead data p a)) = ahead data (p + q) b.
Proof.
  intros. unfold ahead. rewrite skipn_firstn_comm, drop_drop, take_take.
  rewrite Z2Nat.inj_add by lia. f_equal. lia.
Qed.

Lemma enough_ok (p n : Z) : p + n <= size data -> enough data p n = OkStatus.
Proof. intros. unfold enough. by rewrite (proj2 (Z.leb_le _ _)) by lia. Qed.

Lemma enough_eof (p n : Z) : size data < p + n -> enough data p n = OutOfRange.
Proof. intros. unfold enough. by rewrite (proj2 (Z.leb_gt _ _)) by lia. Qed.

Lemma enough_cases (p n : Z) :
  (enough data p n = OkStatus /\ p + n <= size data) \/ (enough data p n = OutOfRange /\ size data < p + n).
Proof. unfold enough. destruct (Z.leb_spec (p + n) (size data)); auto. Qed.

Lemma enough_shift (p n q m : Z) : p + n = q + m -> enough data p n = enough data q m.
Proof. unfold enough. by intros ->. Qed.

Lemma enough_delivers (p n : Z) : ok (enough data p n) || IsOutOfRange (enough data p n) = true.
Proof. by destruct (enough_cases p n) as [[-> _]|[-> _]]. Qed.

End Ahead.

Lemma string_file_exact : @ExactFile bytes string_file id.
Proof.
  split. intros f off n Ho Hn. exists true. unfold id. cbn. f_equal. f_equal.
  unfold ahead. symmetry.
  destruct (Z.le_gt_cases (size f) off) as [Hl|Hl].
  - rewrite (Z.min_r off) by lia. unfold size in *. rewrite !drop_ge by lia. by rewrite !take_nil.
  - rewrite (Z.min_l off) by lia. destruct (Z.le_gt_cases (size f) n).
    + rewrite (Z.min_r n) by lia. unfold size in *. rewrite !take_ge by (rewrite length_drop; lia). done.
    + by rewrite (Z.min_l n) by lia.
Qed.

(** ** Streams of files *)

Section FileStream.
Context {F : Type} `{RandomAccessFile F} (contents : F -> bytes) `{!ExactFile F contents}.
Context (data : bytes) (small : size data < 2 ^ 63 - 2 ^ 24).

Definition file_at (s : RandomAccessInputStream.t F) (p : Z) : Prop :=
  contents (RandomAccessInputStream.file_ s) = data /\ RandomAccessInputStream.pos_ s = p /\ 0 <= p <= size data.

(** The loop that skips by reading gets to the end of the file. *)
Lemma skip_loop_ends (file : F) (n p : Z) :
  contents file = data -> 0 <= p <= size data -> 0 <= n -> size data < p + n < 2 ^ 63 ->
  while (RandomAccessInputStream.skip_body file) (n, p) = Ok (OutOfRange, size data).
Proof.
  intros Hf Hp Hn Hend.
  destruct (while_total (RandomAccessInputStream.skip_body file)
    (fun '(m, q) => 0 <= q <= size data /\ size data < q + m /\ q + m < 2 ^ 63)
    (eq (OutOfRange, size data)) (fun '(m, q) => m)) with (a := (n, p)) as (b & -> & <-); [|lia|lia|done].
  intros [m q] (Hq & Hm & Hmax). unfold RandomAccessInputStream.skip_body.
  rewrite (proj2 (Z.ltb_lt 0 m)) by lia. unfold wrap_u64. rewrite Z.mod_small by lia.
  set (k := Z.min kMaxSkipSize m). assert (0 < k <= m) by (unfold k, kMaxSkipSize; lia).
  destruct (file_Read_exact file q k) as (b & ->); [lia|lia|].
  rewrite Hf, enough_delivers, ahead_size by lia. rewrite wrap_i64_id by (unfold in_i64; lia).
  destruct (Z.ltb_spec (Z.min k (size data - q)) k); eexists; (split; [done|]); [f_equal|split]; lia.
Qed.

Lemma file_stream_reads (s : RandomAccessInputStream.t F) (p n : Z) (result : bytes) :
  file_at s p -> 0 <= n -> p + n < 2 ^ 63 ->
  exists s', RandomAccessInputStream.ReadNBytes s n result = Ok (enough data p n, ahead data p n, s') /\
    file_at s' (Z.min (p + n) (size data)).
Proof.
  intros (Hf & Hs & Hp) Hn Hmax. unfold RandomAccessInputStream.ReadNBytes.
  rewrite (proj2 (Z.ltb_ge _ _)) by lia. rewrite Hs. unfold wrap_u64. rewrite Z.mod_small by lia.
  destruct (file_Read_exact (RandomAccessInputStream.file_ s) p n) as (b & ->); [lia|lia|].
  rewrite Hf, enough_delivers, ahead_size by lia. rewrite wrap_i64_id by (unfold in_i64; lia).
  eexists. split; [done|]. unfold file_at. cbn [RandomAccessInputStream.file_ RandomAccessInputStream.pos_].
  split; [done|lia].
Qed.

Lemma file_stream_skips (s : RandomAccessInputStream.t F) (p n : Z) :
  file_at s p -> 0 <= n -> p + n < 2 ^ 63 ->
  exists s', RandomAccessInputStream.SkipNBytes s n = Ok (enough data p n, s') /\
    file_at s' (Z.min (p + n) (size data)).
Proof.
  intros (Hf & Hs & Hp) Hn Hmax. unfold RandomAccessInputStream.SkipNBytes.
  rewrite (proj2 (Z.ltb_ge _ _)) by lia. rewrite Hs.
  destruct (Z.ltb_spec 0 n) as [Hpos|Hpos].
  - rewrite (wrap_i64_id (p + n)), wrap_i64_id by (unfold in_i64; lia). unfold wrap_u64. rewrite Z.mod_small by lia.
    destruct (file_Read_exact (RandomAccessInputStream.file_ s) (p + n - 1) 1) as (b & ->); [lia|lia|].
    rewrite Hf, enough_delivers. destruct (enough_cases data p n) as [[-> He]|[-> He]].
    + rewrite ahead_size by lia. rewrite Z.min_l by lia. cbn [andb]. rewrite Z.eqb_refl.
      eexists. split; [done|]. unfold file_at; cbn. split; [done|]. lia.
    + replace (size (ahead data (p + n - 1) 1)) with 0.
      2:{ unfold ahead, size in *. rewrite drop_ge by lia. by rewrite take_nil. }
      cbn [andb Z.eqb]. rewrite (skip_loop_ends _ n p) by (done || lia). cbn [res_bind].
      eexists. split; [done|]. unfold file_at; cbn. split; [done|]. lia.
  - replace n with 0 in * by lia. rewrite enough_ok by lia. cbn.
    eexists. split; [done|]. unfold file_at; cbn. split; [done|]. lia.
Qed.

#[global] Instance file_stream_laws : StreamLaws (RandomAccessInputStream.t F) data file_at.
Proof.
  split; cbn.
  - by intros s p (_ & _ & ?).
  - by intros s p (_ & ? & _).
  - exact file_stream_reads.
  - exact file_stream_skips.
  - intros s p (Hf & _ & _). eexists. split; [done|]. split; [done|]. cbn. pose proof (size_nonneg data). lia.
Qed.

End FileStream.

(** ** Streams that skip by reading *)

Section DefaultSkip.
Context {S : Type} `{InputStream S} (data : bytes) (at_ : S -> Z -> Prop) `{!StreamLaws S data at_}.

(** [InputStreamInterface::SkipNBytes] obeys the contract if [ReadNBytes] does. *)
Lemma default_skip (s : S) (p n : Z) :
  at_ s p -> 0 <= n -> p + n < 2 ^ 63 ->
  exists s', InputStreamInterface.SkipNBytes ReadNBytes s n = Ok (enough data p n, s') /\
    at_ s' (Z.min (p + n) (size data)).
Proof.
  intros Hs Hn Hmax. pose proof (at_range s p Hs). unfold InputStreamInterface.SkipNBytes. rewrite (proj2 (Z.ltb_ge _ _)) by lia.
  destruct (while_total (InputStreamInterface.skip_body ReadNBytes)
    (fun '(m, _, s) => exists q, at_ s q /\ 0 <= m /\ q + m = p + n)
    (fun '(st, s') => st = enough data p n /\ at_ s' (Z.min (p + n) (size data))) (fun '(m, _, _) => m))
    with (a := (n, @nil Z, s)) as ([st s'] & -> & -> & Hs'); [|by exists p|lia|by exists s'].
  intros [[m u] s1] (q & Hq & Hm & Heq). pose proof (at_range s1 q Hq) as Hr.
  unfold InputStreamInterface.skip_body. destruct (Z.ltb_spec 0 m) as [Hpos|Hpos].
  - set (k := Z.min kMaxSkipSize m). assert (0 < k <= m) by (unfold k, kMaxSkipSize; lia).
    destruct (at_Read s1 q k u Hq) as (s2 & -> & Hs2); [lia|lia|]. cbn [res_bind].
    destruct (enough_cases data q k) as [[-> He]|[-> He]]; cbn [ok]; eexists; (split; [done|]); cbn.
    + split; [|lia]. exists (q + k). rewrite Z.min_l in Hs2 by lia. split; [done|]. lia.
    + rewrite enough_eof by lia. rewrite Z.min_r in * by lia. done.
  - replace m with 0 in * by lia. eexists. split; [done|]. rewrite enough_ok by lia.
    rewrite Z.min_l by lia. by replace (p + n) with q by lia.
Qed.

End DefaultSkip.

(** ** Lines *)

(** The bytes before the first newline, and a line without its carriage returns. *)
Fixpoint line (l : bytes) : bytes :=
  match l with
  | [] => []
  | c :: r => if c =? 10 then [] else c :: line r
  end.

Definition text (l : bytes) : bytes := filter (fun c : Z => c <> 13) (l : list Z).

Lemma line_newline (a r : bytes) : 10 ∉ a -> line (a ++ 10 :: r) = a.
Proof.
  induction a as [|c a IH]; intros Ha; [done|]. apply not_elem_of_cons in Ha as [? Ha]. cbn.
  rewrite (proj2 (Z.eqb_neq c 10)) by done. by rewrite IH.
Qed.

Lemma line_all (a : bytes) : 10 ∉ a -> line a = a.
Proof.
  induction a as [|c a IH]; intros Ha; [done|]. apply not_elem_of_cons in Ha as [? Ha]. cbn.
  rewrite (proj2 (Z.eqb_neq c 10)) by done. by rewrite IH.
Qed.

Lemma text_app (a b : bytes) : text (a ++ b) = text a ++ text b.
Proof. apply filter_app. Qed.

Lemma text_plain (a : bytes) : 13 ∉ a -> text a = a.
Proof.
  induction a as [|c a IH]; intros Ha; [done|]. apply not_elem_of_cons in Ha as [? Ha].
  unfold text. rewrite filter_cons_True by done. f_equal. by apply IH.
Qed.

(** ** Buffered streams *)

Section Buffered.
Context {S : Type} `{InputStream S} (data : bytes) (at_ : S -> Z -> Prop) `{!StreamLaws S data at_}.
Import BufferedInputStream.

(** The stream below is at [q], the buffer holds the [limit_] bytes before [q],
    and a failed read left the stream below at the end. *)
Record buffer_ok (b : t S) (q : Z) : Prop := {
  bo_at : at_ (input_stream_ b) q;
  bo_size : 0 < size_ b < 2 ^ 63 - size data;
  bo_pos : 0 <= pos_ b <= limit_ b;
  bo_limit : limit_ b <= q /\ limit_ b <= size (buf_ b);
  bo_buf : take (Z.to_nat (limit_ b)) (buf_ b) = ahead data (q - limit_ b) (limit_ b);
  bo_status : file_status_ b = OkStatus \/ (file_status_ b = OutOfRange /\ q = size data)
}.

Definition buffered_at (b : t S) (p : Z) : Prop :=
  exists q, buffer_ok b q /\ p = q - (limit_ b - pos_ b).

Lemma buffered_at_range (b : t S) (p : Z) : buffered_at b p -> 0 <= p <= size data.
Proof.
  intros (q & Hb & ->). pose proof (at_range _ _ (bo_at _ _ Hb)).
  pose proof (bo_pos _ _ Hb). pose proof (bo_limit _ _ Hb). lia.
Qed.

(** A new buffer over a stream at its start. *)
Lemma new_buffered_at (s : S) (n : Z) : at_ s 0 -> 0 < n < 2 ^ 63 - size data -> buffered_at (new s n) 0.
Proof.
  intros Hs Hn. exists 0. split; [|done]. split; cbn; auto; try lia. split; [lia|]. unfold size; cbn; lia.
Qed.

(** Bytes of the buffer are the bytes ahead. *)
Lemma read_buffer (b : t S) (q k n : Z) :
  buffer_ok b q -> 0 <= k -> 0 <= n -> k + n <= limit_ b ->
  Block.read (buf_ b) k n = Ok (ahead data (q - limit_ b + k) n).
Proof.
  intros Hb Hk Hn Hle. pose proof (bo_limit _ _ Hb). unfold Block.read, sub.
  rewrite !(proj2 (Z.leb_le _ _)) by lia. cbn [andb]. f_equal.
  rewrite <- (ahead_ahead data (q - limit_ b) (limit_ b) k n) by lia. rewrite <- (bo_buf _ _ Hb).
  rewrite skipn_firstn_comm, take_take. f_equal. lia.
Qed.

(** Moving inside of the buffer. *)
Lemma set_pos_at (b : t S) (p k : Z) :
  buffered_at b p -> 0 <= pos_ b + k <= limit_ b -> buffered_at (set_pos b (pos_ b + k)) (p + k).
Proof. intros (q & [] & ->) Hk. exists q. cbn. split; [split; cbn; auto|lia]. Qed.

(** Bytes at the position, one read. *)
Lemma read_ahead (b : t S) (p n : Z) :
  buffered_at b p -> 0 <= n -> pos_ b + n <= limit_ b -> Block.read (buf_ b) (pos_ b) n = Ok (ahead data p n).
Proof.
  intros (q & Hb & ->) Hn Hle. pose proof (bo_pos _ _ Hb). rewrite (read_buffer b q) by (done || lia).
  do 2 f_equal. lia.
Qed.

(** Filling a buffer that is used up: it holds the next bytes, or the stream is at its end. *)
Lemma refill_spec (b : t S) (p : Z) :
  buffered_at b p -> pos_ b = limit_ b ->
  exists s b', refill b = Ok (s, b', limit_ b' =? 0) /\ buffered_at b' p /\ pos_ b' = 0 /\ 0 <= limit_ b' /\
    (0 < limit_ b' -> size (buf_ b') = limit_ b') /\
    (s = OkStatus /\ 0 < limit_ b' \/ s = OutOfRange /\ p + limit_ b' = size data).
Proof.
  intros (q & [Hat Hsize Hpos Hlim Hbuf Hst] & Hp) Heq. assert (p = q) as -> by lia.
  pose proof (at_range _ _ Hat). unfold refill, FillBuffer. destruct Hst as [Hst|[Hst Hq]]; rewrite Hst; cbn [negb ok].
  - rewrite wrap_i64_id by (unfold in_i64; lia).
    destruct (at_Read (input_stream_ b) q (size_ b) (buf_ b) Hat) as (s' & -> & Hs'); [lia|lia|].
    cbn [res_bind]. eexists _, _. split; [done|]. cbn. pose proof (ahead_size data q (size_ b)) as Hsz.
    rewrite Hsz by lia. split_and!; try lia.
    + exists (q + Z.min (size_ b) (size data - q)). cbn. split; [|lia].
      split; cbn; rewrite ?Hsz by lia; try lia.
      * by replace (q + Z.min (size_ b) (size data - q)) with (Z.min (q + size_ b) (size data)) by lia.
      * replace (q + Z.min _ _ - Z.min _ _) with q by lia. unfold ahead. rewrite take_take. f_equal. lia.
      * destruct (enough_cases data q (size_ b)) as [[-> He]|[-> He]]; cbn; [by left|right].
        split; [done|]. lia.
    + destruct (enough_cases data q (size_ b)) as [[-> He]|[-> He]]; [left|right]; split; try done; lia.
  - eexists _, _. split; [done|]. cbn. split_and!; try lia.
    + exists q. cbn. split; [|lia]. split; cbn; auto; lia.
    + right. split; [done|lia].
Qed.

(** A loop body first makes sure that the buffer has a byte. *)
Lemma refill_if_used (b : t S) (p : Z) (s : Status) :
  buffered_at b p -> s = OkStatus \/ s = OutOfRange ->
  exists s' b' eof, (if pos_ b =? limit_ b then refill b else Ok (s, b, false)) = Ok (s', b', eof) /\
    buffered_at b' p /\ (s' = OkStatus \/ s' = OutOfRange) /\
    if eof then p = size data /\ s' = OutOfRange else pos_ b' < limit_ b'.
Proof.
  intros Hb Hs. destruct (Z.eqb_spec (pos_ b) (limit_ b)) as [He|He].
  - destruct (refill_spec b p Hb He) as (s' & b' & -> & Hb' & Hp & Hl & _ & Hc).
    exists s', b', (limit_ b' =? 0). split_and!; [done|done|naive_solver|].
    destruct (Z.eqb_spec (limit_ b') 0); [|lia]. destruct Hc as [[_ ?]|[-> ?]]; [lia|split; [lia|done]].
  - exists s, b, false. split_and!; try done. destruct Hb as (q & [] & _). lia.
Qed.

(** The loop of [ReadNBytes] collects the bytes ahead. *)
Lemma read_loop (b : t S) (p n : Z) :
  buffered_at b p -> 0 <= n -> p + n < 2 ^ 63 ->
  exists s b', while (read_body n) (OkStatus, [], b) = Ok (s, ahead data p n, b') /\
    buffered_at b' (Z.min (p + n) (size data)) /\ (s = OkStatus \/ s = OutOfRange) /\
    (size data < p + n -> s = OutOfRange).
Proof.
  intros Hb Hn Hmax. pose proof (buffered_at_range b p Hb).
  destruct (while_total (read_body n)
    (fun '(s, result, b) => exists k, 0 <= k <= n /\ p + k <= size data /\ result = ahead data p k /\
       buffered_at b (p + k) /\ (s = OkStatus \/ s = OutOfRange))
    (fun '(s, result, b) => result = ahead data p n /\ buffered_at b (Z.min (p + n) (size data)) /\
       (s = OkStatus \/ s = OutOfRange) /\ (size data < p + n -> s = OutOfRange))
    (fun '(s, result, b) => n - size result)) with (a := (OkStatus, @nil Z, b))
    as ([[s r] b'] & -> & -> & ?); [| |unfold size; cbn; lia|by exists s, b'].
  2:{ exists 0. rewrite Z.add_0_r. split_and!; auto; lia. }
  intros [[s r] b1] (k & Hk & Hkd & -> & Hb1 & Hs). unfold read_body. rewrite ahead_size, Z.min_l by lia.
  destruct (Z.ltb_spec k n) as [Hlt|Hge].
  - destruct (refill_if_used b1 (p + k) s Hb1 Hs) as (s' & b2 & eof & -> & Hb2 & Hs' & Heof). cbn [res_bind].
    destruct eof.
    + eexists. split; [done|]. destruct Heof as [Heof ->]. cbn. split_and!; auto.
      * by rewrite (ahead_clip data p n k) by lia.
      * rewrite Z.min_r by lia. rewrite <- Heof. destruct Hb2 as (q & [] & Hq). exists q. cbn. split; [|done].
        split; cbn; auto. right. split; [done|]. pose proof (at_range _ _ bo_at0). lia.
    + set (j := Z.min _ _). assert (0 < j <= n - k) by lia.
      rewrite (read_ahead b2 (p + k) j) by (done || lia). cbn [res_bind]. eexists. split; [done|]. cbn.
      rewrite ahead_app by lia.
      assert (p + (k + j) <= size data).
      { destruct Hb2 as (q & [] & Hq). pose proof (at_range _ _ bo_at0). lia. }
      split; [|rewrite !ahead_size by lia; lia]. exists (k + j). split_and!; auto; try lia.
      replace (p + (k + j)) with (p + k + j) by lia. apply set_pos_at; [done|].
      destruct Hb2 as (q & [] & Hq). lia.
  - assert (k = n) as -> by lia. eexists. split; [done|]. cbn. rewrite Z.min_l by lia. split_and!; auto. lia.
Qed.

Lemma buffered_reads (b : t S) (p n : Z) (result : bytes) :
  buffered_at b p -> 0 <= n -> p + n < 2 ^ 63 ->
  exists b', ReadNBytes b n result = Ok (enough data p n, ahead data p n, b') /\
    buffered_at b' (Z.min (p + n) (size data)).
Proof.
  intros Hb Hn Hmax. pose proof (buffered_at_range b p Hb) as Hp. unfold ReadNBytes.
  rewrite (proj2 (Z.ltb_ge _ _)) by lia. case_match eqn:Hc.
  - apply andb_prop in Hc as [[Hl%Z.eqb_eq Hst]%andb_prop Hpos%Z.ltb_lt].
    pose proof Hb as (q & [? ? ? ? ? [Hf|[Hf Hq]]] & Hpq); rewrite Hf in *; [done|].
    assert (p = size data) as -> by lia. rewrite enough_eof, ahead_rest by lia. unfold size at 1.
    rewrite Nat2Z.id, drop_all, Z.min_r by lia. by exists b.
  - clear Hc. destruct (read_loop b p n Hb Hn Hmax) as (s & b' & -> & Hb' & Hs & Heof). cbn [res_bind].
    exists b'. split; [|done]. rewrite ahead_size by lia.
    destruct (enough_cases data p n) as [[-> He]|[-> He]].
    + rewrite Z.min_l, Z.eqb_refl by lia. by destruct Hs as [->| ->].
    + rewrite (Heof He), (proj2 (Z.eqb_neq _ _)) by lia. done.
Qed.

Lemma buffered_skips (b : t S) (p n : Z) :
  buffered_at b p -> 0 <= n -> p + n < 2 ^ 63 ->
  exists b', SkipNBytes b n = Ok (enough data p n, b') /\ buffered_at b' (Z.min (p + n) (size data)).
Proof.
  intros Hb Hn Hmax. pose proof (buffered_at_range b p Hb) as Hp. unfold SkipNBytes.
  rewrite (proj2 (Z.ltb_ge _ _)) by lia. pose proof Hb as (q & [Hat Hsize Hpos Hlim Hbuf Hst] & Hpq).
  pose proof (at_range _ _ Hat). unfold wrap_u64 at 1. rewrite Z.mod_small by lia.
  destruct (Z.ltb_spec (pos_ b + n) (limit_ b)).
  - rewrite enough_ok, Z.min_l by lia. eexists. split; [done|]. apply set_pos_at; [done|lia].
  - unfold wrap_u64. rewrite Z.mod_small, wrap_i64_id by (unfold in_i64; lia).
    destruct (at_Skip (input_stream_ b) q (n - (limit_ b - pos_ b)) Hat) as (s & -> & Hs); [lia|lia|].
    cbn [res_bind]. replace (q + (n - (limit_ b - pos_ b))) with (p + n) in Hs by lia.
    rewrite (enough_shift data q (n - (limit_ b - pos_ b)) p n) by lia.
    eexists. split; [done|]. exists (Z.min (p + n) (size data)). cbn. split; [|lia].
    split; cbn; auto; try lia.
    destruct (enough_cases data p n) as [[-> He]|[-> He]]; cbn; [|right; split; [done|lia]].
    destruct Hst as [?|[? ?]]; [by left|]. right. split; [done|]. lia.
Qed.

(** A buffered stream obeys the contract of streams if the one below does. *)
#[global] Instance buffered_laws : StreamLaws (t S) data buffered_at.
Proof.
  split; cbn.
  - exact buffered_at_range.
  - intros b p Hb. pose proof (buffered_at_range b p Hb). destruct Hb as (q & [Hat ? ? ? ? ?] & Hp).
    unfold Tell. rewrite (at_Tell _ _ Hat). rewrite wrap_i64_id; [done|]. pose proof (at_range _ _ Hat). unfold in_i64. lia.
  - exact buffered_reads.
  - exact buffered_skips.
  - intros b p (q & [Hat ? ? ? ? ?] & Hp). unfold Reset.
    destruct (at_Reset _ _ Hat) as (s' & -> & Hs'). cbn [res_bind ok]. eexists. split; [done|].
    exists 0. split; [|done]. split; cbn; auto; lia.
Qed.

(** [Seek] moves to a position, or to the end for one behind it. *)
Lemma buffered_seeks (b : t S) (p r : Z) :
  buffered_at b p -> 0 <= r < 2 ^ 63 ->
  exists b', Seek b r = Ok (enough data r 0, b') /\ buffered_at b' (Z.min r (size data)).
Proof.
  intros Hb Hr. pose proof (buffered_at_range b p Hb) as Hp. pose proof (at_Tell b p Hb) as Ht. cbn in Ht.
  unfold Seek. rewrite (proj2 (Z.ltb_ge _ _)) by lia. rewrite Ht.
  pose proof Hb as (q & [Hat Hsize Hpos Hlim Hbuf Hst] & Hpq). pose proof (at_range _ _ Hat).
  rewrite (at_Tell _ _ Hat), wrap_i64_id by (unfold in_i64; lia).
  destruct (Z.ltb_spec r (q - limit_ b)).
  - destruct (at_Reset b p Hb) as (b0 & Hre & Hb0). cbn in Hre. rewrite Hre. cbn [res_bind ok].
    destruct (buffered_skips b0 0 r Hb0) as (b' & -> & Hb'); [lia|lia|]. exists b'.
    rewrite Z.add_0_l in Hb'. split; [|done]. by rewrite (enough_shift data 0 r r 0) by lia.
  - destruct (Z.ltb_spec r p).
    + rewrite enough_ok, Z.min_l by lia. eexists. split; [done|].
      replace (pos_ b - (p - r)) with (pos_ b + (r - p)) by lia. replace r with (p + (r - p)) at 2 by lia.
      apply set_pos_at; [done|lia].
    + destruct (buffered_skips b p (r - p) Hb) as (b' & -> & Hb'); [lia|lia|]. exists b'.
      replace (p + (r - p)) with r in Hb' by lia. split; [|done]. by rewrite (enough_shift data p (r - p) r 0) by lia.
Qed.

(** ** Reading lines *)

Lemma next_byte (p : Z) : 0 <= p < size data -> exists c, ahead data p 1 = [c] /\ drop (Z.to_nat p) data = c :: drop (Z.to_nat (p + 1)) data.
Proof.
  intros Hp. destruct (lookup_lt_is_Some_2 data (Z.to_nat p)) as [c Hc]; [unfold size in *; lia|].
  exists c. unfold ahead. rewrite (drop_S _ _ _ Hc). replace (Z.to_nat (p + 1)) with (Datatypes.S (Z.to_nat p)) by lia. done.
Qed.

Lemma ahead_drop (p k : Z) : 0 <= p -> 0 <= k ->
  drop (Z.to_nat p) data = ahead data p k ++ drop (Z.to_nat (p + k)) data.
Proof. intros. unfold ahead. rewrite Z2Nat.inj_add, <- drop_drop by lia. by rewrite take_drop. Qed.

(** [k] bytes of a line that starts at [p] are read; those in the buffer from
    [start] on are not yet in the result. *)
Definition line_inv (p : Z) (st : Status * bytes * Z * t S) : Prop :=
  let '(s, result, start, b) := st in
  exists k, let pending := pos_ b - start in
    buffered_at b (p + k) /\ (10 ∉ ahead data p k) /\ 0 <= start /\ 0 <= pending <= k /\
    result = text (ahead data p (k - pending)) /\ (13 ∉ ahead data (p + (k - pending)) pending) /\
    (s = OkStatus \/ s = OutOfRange).

Lemma line_append_spec (p k : Z) (b : t S) (start : Z) :
  0 <= p -> buffered_at b (p + k) -> 0 <= start -> 0 <= pos_ b - start <= k ->
  13 ∉ ahead data (p + (k - (pos_ b - start))) (pos_ b - start) ->
  line_append b (text (ahead data p (k - (pos_ b - start)))) start = Ok (text (ahead data p k)).
Proof.
  intros Hp (q & Hb & Hq) Hs Hk Hno. unfold line_append. pose proof (bo_pos _ _ Hb).
  rewrite (read_buffer b q) by (done || lia). cbn [res_bind]. f_equal.
  replace (q - limit_ b + start) with (p + (k - (pos_ b - start))) by lia.
  rewrite <- (text_plain (ahead data _ (pos_ b - start))) by done. rewrite <- text_app, ahead_app by lia.
  do 2 f_equal. lia.
Qed.

Definition line_result (p : Z) (include_eol : bool) (r : Status * bytes * t S) : Prop :=
  let '(s, result, b) := r in
  let l := line (drop (Z.to_nat p) data) in
  if p + size l <? size data then
    s = OkStatus /\ result = text l ++ (if include_eol then [10] else []) /\ buffered_at b (p + size l + 1)
  else
    s = (if bool_decide (text l = []) then OutOfRange else OkStatus) /\ result = text l /\
    buffered_at b (size data).

(** A newline after the [k] bytes of a line ends it, and so does the end of the data. *)
Lemma line_ends (p k : Z) :
  0 <= p -> 0 <= k -> p + k <= size data -> (10 ∉ ahead data p k) ->
  (p + k = size data \/ (p + k < size data /\ ahead data (p + k) 1 = [10])) ->
  line (drop (Z.to_nat p) data) = ahead data p k.
Proof.
  intros Hp Hk Hs Hno Hend. rewrite (ahead_drop p k) by lia. destruct Hend as [He|[Hl Hc]].
  - rewrite drop_ge by (unfold size in *; lia). rewrite app_nil_r. by apply line_all.
  - destruct (next_byte (p + k)) as (c & Hc' & ->); [lia|]. rewrite Hc in Hc'. injection Hc' as <-.
    by apply line_newline.
Qed.

(** After the buffer was filled if need be, nothing of what follows is pending
    from a buffer that is gone. *)
Lemma line_fill (p : Z) (s : Status) (result : bytes) (start : Z) (b : t S) :
  0 <= p -> line_inv p (s, result, start, b) ->
  exists s' result' start' b' eof,
    (if pos_ b =? limit_ b then
       res_bind (line_append b result start) (fun result =>
       res_bind (refill b) (fun '(s, b, eof) =>
       Ok (s, result, if eof then start else pos_ b, b, eof)))
     else Ok (s, result, start, b, false)) = Ok (s', result', start', b', eof) /\
    Tell b' = Tell b /\
    if (eof : bool) then
      exists k, 0 <= k /\ p + k = size data /\ (10 ∉ ahead data p k) /\ result' = text (ahead data p k) /\
        buffered_at b' (size data) /\ s' = OutOfRange
    else line_inv p (s', result', start', b') /\ pos_ b' < limit_ b'.
Proof.
  intros Hp (k & Hb & Hno & Hst & Hpend & -> & Hcr & Hs).
  destruct (Z.eqb_spec (pos_ b) (limit_ b)) as [He|He].
  - rewrite (line_append_spec p k) by (done || lia). cbn [res_bind].
    destruct (refill_spec b (p + k) Hb He) as (s' & b' & -> & Hb' & Hpos & Hl & _ & Hc). cbn [res_bind].
    eexists _, _, _, _, _. split; [done|]. split.
    { pose proof (at_Tell b (p + k) Hb) as H1. pose proof (at_Tell b' (p + k) Hb') as H2. cbn in H1, H2. congruence. }
    destruct (Z.eqb_spec (limit_ b') 0) as [H0|H0].
    + exists k. destruct Hc as [[_ ?]|[-> Hend]]; [lia|]. rewrite H0, Z.add_0_r in Hend.
      split_and!; try done; [lia|]. by rewrite <- Hend.
    + split; [|lia]. exists k. cbv zeta. rewrite Hpos, Z.sub_0_r. split_and!; try done; try lia.
      * by rewrite Z.sub_0_r.
      * apply not_elem_of_nil.
      * naive_solver.
  - eexists _, _, _, _, _. split; [done|]. split; [done|]. split; [by exists k|].
    destruct Hb as (q & [] & _). lia.
Qed.

Lemma ReadLineHelper_spec (b : t S) (p : Z) (include_eol : bool) :
  size data < 2 ^ 63 -> buffered_at b p ->
  exists r, ReadLineHelper b include_eol = Ok r /\ line_result p include_eol r.
Proof.
  intros Hmax Hb. pose proof (buffered_at_range b p Hb) as Hp.
  apply (while_total (line_body include_eol) (line_inv p) (line_result p include_eol)
    (fun '(s, result, start, b) => size data - Tell b)).
  2:{ exists 0. cbv zeta. rewrite Z.sub_diag, Z.add_0_r. destruct Hb as (q & [] & ?).
      split_and!; auto; try lia; [by exists q|apply not_elem_of_nil..]. }
  2:{ pose proof (at_Tell b p Hb) as Ht. cbn in Ht. lia. }
  intros [[[s result] start] b1] Hinv. unfold line_body.
  destruct (line_fill p s result start b1) as (s' & r' & start' & b' & eof & -> & Htell & Heof); [lia|done|].
  cbn [res_bind]. destruct eof.
  - destruct Heof as (k & Hk & Hend & Hno & -> & Hb' & ->). eexists. split; [done|]. cbn.
    rewrite (line_ends p k) by (done || lia || by left). rewrite ahead_size, Z.min_l by lia.
    rewrite (proj2 (Z.ltb_ge _ _)) by lia. by destruct (bool_decide (text (ahead data p k) = [])).
  - destruct Heof as [(k & Hb' & Hno & Hst & Hpend & -> & Hcr & Hs) Hlt].
    pose proof (buffered_at_range b' (p + k) Hb') as Hr.
    assert (p + k < size data) as Hin.
    { destruct Hb' as (q & [] & ?). pose proof (at_range _ _ bo_at0). lia. }
    rewrite (read_ahead b' (p + k) 1) by (done || lia). cbn [res_bind].
    destruct (next_byte (p + k)) as (c & Hc & _); [lia|]. rewrite Hc.
    assert (buffered_at (set_pos b' (pos_ b' + 1)) (p + (k + 1))) as Hb2.
    { replace (p + (k + 1)) with (p + k + 1) by lia. apply set_pos_at; [done|].
      destruct Hb' as (q & [] & ?). lia. }
    assert (size data - Tell (set_pos b' (pos_ b' + 1)) = size data - Tell b1 - 1) as Hm.
    { pose proof (at_Tell _ _ Hb2) as H1. pose proof (at_Tell _ _ Hb') as H2. cbn in H1, H2. lia. }
    pose proof (at_Tell _ _ Hb2) as Ht2. cbn in Ht2.
    assert (ahead data p (k + 1) = ahead data p k ++ [c]) as Hsnoc.
    { rewrite <- Hc. by rewrite ahead_app by lia. }
    case_bool_decide as Hnl.
    + injection Hnl as ->. rewrite (line_append_spec p k) by (done || lia). cbn [res_bind]. eexists. split; [done|]. cbn.
      rewrite (line_ends p k) by (done || lia || by right). rewrite ahead_size, Z.min_l by lia.
      rewrite (proj2 (Z.ltb_lt _ _)) by lia. split_and!; [done| |by replace (p + k + 1) with (p + (k + 1)) by lia].
      destruct include_eol; [done|]. by rewrite app_nil_r.
    + assert (10 ∉ ahead data p (k + 1)) as Hno'.
      { rewrite Hsnoc, not_elem_of_app. split; [done|]. rewrite not_elem_of_cons. split; [congruence|apply not_elem_of_nil]. }
      case_bool_decide as Hret.
      * injection Hret as ->. rewrite (line_append_spec p k) by (done || lia). cbn [res_bind]. eexists. split; [done|]. split; [|lia].
        exists (k + 1). cbv zeta. cbn [pos_ set_pos]. rewrite Z.sub_diag, Z.sub_0_r.
        split_and!; try done; try lia; [|apply not_elem_of_nil]. rewrite Hsnoc, text_app. cbn. by rewrite app_nil_r.
      * eexists. split; [done|]. split; [|lia]. exists (k + 1). cbv zeta. cbn [pos_ set_pos].
        replace (k + 1 - (pos_ b' + 1 - start')) with (k - (pos_ b' - start')) by lia.
        split_and!; try done; try lia.
        replace (pos_ b' + 1 - start') with (pos_ b' - start' + 1) by lia. rewrite <- ahead_app by lia.
        rewrite not_elem_of_app. split; [done|].
        replace (p + (k - (pos_ b' - start')) + (pos_ b' - start')) with (p + k) by lia. rewrite Hc.
        rewrite not_elem_of_cons. split; [congruence|apply not_elem_of_nil].
Qed.

(** [SkipLine] goes where [ReadLine] goes. *)
Lemma SkipLine_spec (b : t S) (p : Z) :
  size data < 2 ^ 63 -> buffered_at b p ->
  let l := line (drop (Z.to_nat p) data) in
  exists b', SkipLine b = Ok (if (p + size l <? size data) || (p <? size data) then OkStatus else OutOfRange, b') /\
    buffered_at b' (if p + size l <? size data then p + size l + 1 else size data).
Proof.
  intros Hmax Hb l. pose proof (buffered_at_range b p Hb) as Hp.
  destruct (while_total skip_line_body
    (fun '(s, skipped, b) => exists k, 0 <= k /\ skipped = (0 <? k) /\ buffered_at b (p + k) /\
       (10 ∉ ahead data p k) /\ (s = OkStatus \/ s = OutOfRange))
    (fun '(s, b') => s = (if (p + size l <? size data) || (p <? size data) then OkStatus else OutOfRange) /\
       buffered_at b' (if p + size l <? size data then p + size l + 1 else size data))
    (fun '(s, skipped, b) => size data - Tell b)) with (a := (OkStatus, false, b))
    as ([s b'] & Hw & -> & Hb'); [| | |by exists b'].
  2:{ exists 0. rewrite Z.add_0_r. split_and!; auto; [lia|apply not_elem_of_nil]. }
  2:{ pose proof (at_Tell b p Hb) as Ht. cbn in Ht. lia. }
  intros [[s skipped] b1] (k & Hk & -> & Hb1 & Hno & Hs). unfold skip_line_body.
  destruct (refill_if_used b1 (p + k) s Hb1 Hs) as (s' & b' & eof & -> & Hb' & Hs' & Heof).
  cbn [res_bind]. destruct eof.
  - destruct Heof as [Hend ->]. eexists. split; [done|]. cbn.
    subst l. rewrite (line_ends p k) by (done || lia || by left). rewrite ahead_size, Z.min_l by lia.
    rewrite (proj2 (Z.ltb_ge (p + k) _)) by lia. rewrite <- Hend. split; [|done]. cbn [orb].
    destruct (Z.ltb_spec 0 k), (Z.ltb_spec p (p + k)); try done; lia.
  - assert (p + k < size data) as Hin.
    { destruct Hb' as (q & [] & ?). pose proof (at_range _ _ bo_at0). lia. }
    rewrite (read_ahead b' (p + k) 1) by (done || lia). cbn [res_bind].
    destruct (next_byte (p + k)) as (c & Hc & _); [lia|]. rewrite Hc.
    assert (buffered_at (set_pos b' (pos_ b' + 1)) (p + (k + 1))) as Hb2.
    { replace (p + (k + 1)) with (p + k + 1) by lia. apply set_pos_at; [done|].
      destruct Hb' as (q & [] & ?). lia. }
    case_bool_decide as Hnl.
    + injection Hnl as ->. eexists. split; [done|]. cbn.
      subst l. rewrite (line_ends p k) by (done || lia || by right). rewrite ahead_size, Z.min_l by lia.
      rewrite (proj2 (Z.ltb_lt (p + k) _)) by lia. split; [done|]. by replace (p + k + 1) with (p + (k + 1)) by lia.
    + eexists. split; [done|]. split.
      * exists (k + 1). split_and!; auto; [lia|by rewrite (proj2 (Z.ltb_lt _ _)) by lia|].
        rewrite <- ahead_app by lia. rewrite Hc, not_elem_of_app. split; [done|].
        rewrite not_elem_of_cons. split; [congruence|apply not_elem_of_nil].
      * pose proof (at_Tell _ _ Hb2) as H1. pose proof (at_Tell _ _ Hb1) as H2. cbn in H1, H2. lia.
Qed.

(** [ReadAll] of a stream with nothing buffered reads the rest of the data. *)
Lemma ReadAll_spec (b : t S) (p : Z) :
  size data < 2 ^ 63 -> buffered_at b p -> pos_ b = limit_ b ->
  exists b', ReadAll b = Ok (OkStatus, drop (Z.to_nat p) data, b') /\ buffered_at b' (size data).
Proof.
  intros Hmax Hb He. pose proof (buffered_at_range b p Hb) as Hp. unfold ReadAll.
  destruct (while_total all_body
    (fun '(s, result, b) => exists k, 0 <= k /\ result = ahead data p k /\ buffered_at b (p + k) /\
       pos_ b = limit_ b /\ (s = OkStatus \/ s = OutOfRange /\ p + k = size data))
    (fun '(s, result, b) => s = OutOfRange /\ result = drop (Z.to_nat p) data /\ buffered_at b (size data) /\
       pos_ b = limit_ b)
    (fun '(s, result, b) => size data - Tell b + (if ok s then 1 else 0))) with (a := (OkStatus, @nil Z, b))
    as ([[s r] b'] & -> & -> & -> & Hb' & He').
  2:{ exists 0. rewrite Z.add_0_r. split_and!; auto. lia. }
  2:{ pose proof (at_Tell b p Hb) as Ht. cbn in Ht |- *. lia. }
  2:{ cbn [res_bind]. eexists. split; [done|]. pose proof Hb' as (q & [Hat ? ? ? ? ?] & Hq).
      pose proof (at_range _ _ Hat). exists q. split; [|done]. split; cbn; auto. right. split; [done|lia]. }
  intros [[s r] b1] (k & Hk & -> & Hb1 & He1 & Hs). unfold all_body. destruct Hs as [->|[-> Hend]]; cbn [ok].
  - destruct (refill_spec b1 (p + k) Hb1 He1) as (s' & b' & -> & Hb' & Hpos & Hl & Hbuf & Hc). cbn [res_bind].
    pose proof (buffered_at_range b' _ Hb') as Hr.
    destruct (Z.eqb_spec (limit_ b') 0) as [H0|H0]; eexists; (split; [done|]).
    + cbn. destruct Hc as [[_ ?]|[-> Hend]]; [lia|]. rewrite H0, Z.add_0_r in Hend.
      rewrite ahead_rest by lia. rewrite <- Hend. split_and!; try done. lia.
    + assert (buf_ b' = ahead data (p + k) (limit_ b')) as Hb''.
      { destruct Hb' as (q & [] & Hq). rewrite <- (firstn_all2 (n := Z.to_nat (limit_ b')) (buf_ b')).
        - rewrite bo_buf0. f_equal. lia.
        - specialize (Hbuf ltac:(lia)). unfold size in Hbuf. lia. }
      assert (buffered_at (set_pos b' (limit_ b')) (p + (k + limit_ b'))) as Hb2.
      { replace (limit_ b') with (pos_ b' + limit_ b') at 1 by lia.
        replace (p + (k + limit_ b')) with (p + k + limit_ b') by lia. apply set_pos_at; [done|lia]. }
      split.
      * exists (k + limit_ b'). rewrite Hb'', ahead_app by lia. split_and!; auto; [lia|].
        destruct Hc as [[-> _]|[-> ?]]; [by left|right]. split; [done|]. lia.
      * pose proof (at_Tell _ _ Hb2) as H1. pose proof (at_Tell _ _ Hb1) as H2. cbn in H1, H2 |- *.
        pose proof (buffered_at_range _ _ Hb2). destruct (ok s'); lia.
  - eexists. split; [done|]. cbn. rewrite ahead_rest by lia. rewrite <- Hend. split_and!; done.
Qed.

End Buffered.

(** ** Sequences of operations *)

Inductive stream_op : Type := OpReadN (n : Z) | OpSkipN (n : Z) | OpTell | OpReset.

Inductive observation : Type :=
| ObsRead (s : Status) (result : bytes)
| ObsSkip (s : Status)
| ObsTell (position : Z)
| ObsReset (s : Status).

Section Run.
Local Open Scope res_scope.
Context {S : Type} `{InputStream S}.

Definition run_op (s : S) (o : stream_op) : res fault (observation * S) :=
  match o with
  | OpReadN n => let! (st, r, s) := ReadNBytes s n [] in Ok (ObsRead st r, s)
  | OpSkipN n => let! (st, s) := SkipNBytes s n in Ok (ObsSkip st, s)
  | OpTell => Ok (ObsTell (Tell s), s)
  | OpReset => let! (st, s) := Reset s in Ok (ObsReset st, s)
  end.

Fixpoint run_stream (s : S) (ops : list stream_op) : res fault (list observation * S) :=
  match ops with
  | [] => Ok ([], s)
  | o :: ops =>
      let! (x, s) := run_op s o in
      let! (xs, s) := run_stream s ops in
      Ok (x :: xs, s)
  end.

End Run.

(** What an operation at position [p] shows of the data, and where it leads. *)
Definition observe_op (data : bytes) (p : Z) (o : stream_op) : observation * Z :=
  match o with
  | OpReadN n => (ObsRead (enough data p n) (ahead data p n), Z.min (p + n) (size data))
  | OpSkipN n => (ObsSkip (enough data p n), Z.min (p + n) (size data))
  | OpTell => (ObsTell p, p)
  | OpReset => (ObsReset OkStatus, 0)
  end.

Fixpoint observe (data : bytes) (p : Z) (ops : list stream_op) : list observation * Z :=
  match ops with
  | [] => ([], p)
  | o :: ops => let '(x, p) := observe_op data p o in let '(xs, p) := observe data p ops in (x :: xs, p)
  end.

(** Sizes that are not negative and do not lead out of 63 bits. *)
Definition op_fits (data : bytes) (o : stream_op) : Prop :=
  match o with
  | OpReadN n | OpSkipN n => 0 <= n /\ size data + n < 2 ^ 63
  | OpTell | OpReset => True
  end.

Section Observe.
Context {S : Type} `{InputStream S} (data : bytes) (at_ : S -> Z -> Prop) `{!StreamLaws S data at_}.

Lemma run_observe (s : S) (p : Z) (ops : list stream_op) :
  at_ s p -> Forall (op_fits data) ops ->
  exists s', run_stream s ops = Ok (fst (observe data p ops), s') /\ at_ s' (snd (observe data p ops)).
Proof.
  revert s p. induction ops as [|o ops IH]; intros s p Hs Hops; [by exists s|].
  apply Forall_cons in Hops as [Ho Hops].
  assert (exists s', run_op s o = Ok (fst (observe_op data p o), s') /\ at_ s' (snd (observe_op data p o)))
    as (s1 & Hr & Hs1).
  { pose proof (at_range s p Hs). destruct o as [n|n| |]; cbn in *.
    - destruct (at_Read s p n [] Hs) as (s' & -> & ?); [lia|lia|]. by exists s'.
    - destruct (at_Skip s p n Hs) as (s' & -> & ?); [lia|lia|]. by exists s'.
    - rewrite (at_Tell s p Hs). by exists s.
    - destruct (at_Reset s p Hs) as (s' & -> & ?). by exists s'. }
  cbn [run_stream observe]. rewrite Hr. cbn [res_bind]. destruct (observe_op data p o) as [x p1]. cbn in Hs1.
  destruct (IH s1 p1 Hs1 Hops) as (s2 & -> & Hs2). exists s2. cbn. by destruct (observe data p1 ops).
Qed.

End Observe.

(** ** Claims *)

Section Claims.
Context {F : Type} `{RandomAccessFile F} (contents : F -> bytes) `{!ExactFile F contents}.

Lemma new_file_at (f : F) : file_at contents (contents f) (RandomAccessInputStream.new f) 0.
Proof. split; [done|]. cbn. pose proof (size_nonneg (contents f)). lia. Qed.

(** C32: buffering is invisible.  Over a file whose [Read] is exact, every sequence
    of reads, skips, resets and queries of the position gives the same statuses,
    bytes and positions with a [RandomAccessInputStream] and with a
    [BufferedInputStream] of any positive buffer size on top of it: those of the
    file's bytes with a position that stops at the end, where [OUT_OF_RANGE] is
    returned. *)
Theorem buffering_transparent (f : F) (buffer_bytes : Z) (ops : list stream_op) :
  size (contents f) < 2 ^ 63 - 2 ^ 24 -> 0 < buffer_bytes < 2 ^ 63 - size (contents f) ->
  Forall (op_fits (contents f)) ops ->
  let file := RandomAccessInputStream.new f in
  let seen := fst (observe (contents f) 0 ops) in
  (exists s, run_stream file ops = Ok (seen, s)) /\
  (exists b, run_stream (BufferedInputStream.new file buffer_bytes) ops = Ok (seen, b)).
Proof.
  intros Hs Hb Hops file seen. pose proof (file_stream_laws contents (contents f) Hs) as Hlaws.
  pose proof (new_file_at f) as Hnew. split.
  - destruct (run_observe (contents f) _ file 0 ops Hnew Hops) as (s & Hr & _). by exists s.
  - destruct (run_observe (contents f) (buffered_at (contents f) (file_at contents (contents f)))
      (BufferedInputStream.new file buffer_bytes) 0 ops) as (b & Hr & _); [|done|by exists b].
    by apply new_buffered_at.
Qed.

(** Lines of a buffered stream.  After any sequence of operations on a new
    [BufferedInputStream] over a file, from the position [p] that it then has:
    [ReadLine] returns the bytes up to the next newline (or the end) without
    carriage returns, [ReadLineAsString] the same with the newline, [SkipLine]
    skips them; all three end after the newline or at the end of the file, where
    only an empty result is [OUT_OF_RANGE]; [Seek] goes to every position of the
    file; and [ReadAll] of the new stream returns the whole file. *)
Theorem buffered_lines (f : F) (buffer_bytes : Z) (ops : list stream_op) :
  let data := contents f in
  let start := BufferedInputStream.new (RandomAccessInputStream.new f) buffer_bytes in
  size data < 2 ^ 63 - 2 ^ 24 -> 0 < buffer_bytes < 2 ^ 63 - size data -> Forall (op_fits data) ops ->
  (exists b', BufferedInputStream.ReadAll start = Ok (OkStatus, data, b')) /\
  exists b seen, run_stream start ops = Ok (seen, b) /\
    let p := Tell b in
    let l := line (drop (Z.to_nat p) data) in
    let newline := p + size l <? size data in
    let next := if newline then p + size l + 1 else size data in
    (exists b', BufferedInputStream.ReadLine b =
       Ok (if newline || negb (bool_decide (text l = [])) then OkStatus else OutOfRange, text l, b') /\
       Tell b' = next) /\
    (exists b', BufferedInputStream.ReadLineAsString b = Ok (text l ++ (if newline then [10] else []), b') /\
       Tell b' = next) /\
    (exists b', BufferedInputStream.SkipLine b =
       Ok (if newline || (p <? size data) then OkStatus else OutOfRange, b') /\ Tell b' = next) /\
    forall r, 0 <= r < 2 ^ 63 ->
      exists b', BufferedInputStream.Seek b r = Ok (enough data r 0, b') /\ Tell b' = Z.min r (size data).
Proof.
  intros data start Hs Hb Hops. pose proof (file_stream_laws contents data Hs) as Hlaws.
  set (at_b := buffered_at data (file_at contents data)).
  assert (at_b start 0) as Hnew by by apply new_buffered_at, Hb; apply new_file_at.
  assert (forall b p, at_b b p -> Tell b = p) as Htell by apply at_Tell.
  split.
  { destruct (ReadAll_spec data (file_at contents data) start 0) as (b' & Hr & _); [lia|done|done|]. by exists b'. }
  destruct (run_observe data at_b start 0 ops Hnew Hops) as (b & Hr & Hb').
  exists b, (fst (observe data 0 ops)). split; [done|]. set (p := snd (observe data 0 ops)) in *.
  rewrite (Htell b p Hb'). cbv zeta. set (l := line _). split_and!.
  - destruct (ReadLineHelper_spec data (file_at contents data) b p false ltac:(lia) Hb') as ([[s r] b1] & Hl & Hres).
    exists b1. unfold BufferedInputStream.ReadLine. rewrite Hl. unfold line_result in Hres. fold l in Hres.
    destruct (p + size l <? size data); destruct Hres as (-> & -> & H1); rewrite (Htell _ _ H1), ?app_nil_r; cbn [orb].
    + done.
    + by destruct (bool_decide _).
  - destruct (ReadLineHelper_spec data (file_at contents data) b p true ltac:(lia) Hb') as ([[s r] b1] & Hl & Hres).
    exists b1. unfold BufferedInputStream.ReadLineAsString. rewrite Hl. unfold line_result in Hres. fold l in Hres.
    cbn [res_bind].
    destruct (p + size l <? size data); destruct Hres as (-> & -> & H1); by rewrite (Htell _ _ H1), ?app_nil_r.
  - destruct (SkipLine_spec data (file_at contents data) b p ltac:(lia) Hb') as (b1 & Hl & H1).
    exists b1. by rewrite (Htell _ _ H1).
  - intros r Hr'. destruct (buffered_seeks data (file_at contents data) b p r Hb' Hr') as (b1 & Hl & H1).
    exists b1. by rewrite (Htell _ _ H1).
Qed.

End Claims.

(** ** A file at work *)

(** "ab\r\ncd\r" with a buffer of three bytes. *)
Definition sample_text : bytes := [97; 98; 13; 10; 99; 100; 13].

Definition sample_stream : BufferedInputStream.t (RandomAccessInputStream.t bytes) :=
  BufferedInputStream.new (RandomAccessInputStream.new sample_text) 3.

Definition sample_stream_ops : list stream_op := [OpReadN 1; OpSkipN 1; OpTell; OpReadN 10; OpReadN 1; OpReset].

Lemma sample_ops_fit : Forall (op_fits sample_text) sample_stream_ops.
Proof. repeat constructor; vm_compute; congruence. Qed.

Lemma buffering_transparent_witness :
  let file := RandomAccessInputStream.new sample_text in
  let seen := [ObsRead OkStatus [97]; ObsSkip OkStatus; ObsTell 2; ObsRead OutOfRange [13; 10; 99; 100; 13];
               ObsRead OutOfRange []; ObsReset OkStatus] in
  (exists s, run_stream (H := RandomAccessInputStream.stream (H := string_file)) file sample_stream_ops = Ok (seen, s)) /\
  (exists b, run_stream (H := BufferedInputStream.stream (H := RandomAccessInputStream.stream (H := string_file)))
     (BufferedInputStream.new file 3) sample_stream_ops = Ok (seen, b)).
Proof.
  exact (buffering_transparent (H := string_file) (ExactFile0 := string_file_exact) id sample_text 3 sample_stream_ops
    ltac:(vm_compute; auto) ltac:(vm_compute; auto) sample_ops_fit).
Defined.

Lemma buffered_lines_witness :
  exists b', BufferedInputStream.ReadAll (H := RandomAccessInputStream.stream (H := string_file)) sample_stream =
    Ok (OkStatus, sample_text, b').
Proof.
  exact (proj1 (buffered_lines (H := string_file) (ExactFile0 := string_file_exact) id sample_text 3 sample_stream_ops
    ltac:(vm_compute; auto) ltac:(vm_compute; auto) sample_ops_fit)).
Defined.

Section Samples.
#[local] Existing Instance string_file.
Local Open Scope res_scope.

(** [ReadAll] after a line forgets what is in the buffer. *)
Example read_all_skips :
  (let! (_, l, b) := BufferedInputStream.ReadLine (BufferedInputStream.new (RandomAccessInputStream.new sample_text) 6) in
   let! (s, r, _) := BufferedInputStream.ReadAll b in Ok (l, s, r)) = Ok ([97; 98], OkStatus, [13]).
Proof. vm_compute. reflexivity. Qed.

(** A last line of carriage returns alone is reported as the end of the file. *)
Example lone_return :
  (let! (s, l, b) := BufferedInputStream.ReadLine (BufferedInputStream.new (RandomAccessInputStream.new [13]) 4) in
   Ok (s, l)) = Ok (OutOfRange, []).
Proof. vm_compute. reflexivity. Qed.

(** With a buffer of no bytes a read returns [OK] without the bytes. *)
Example empty_buffer :
  (let! (s, l, b) := ReadNBytes (BufferedInputStream.new (RandomAccessInputStream.new sample_text) 0) 4 [] in
   Ok (s, l)) = Ok (OkStatus, []).
Proof. vm_compute. reflexivity. Qed.

End Samples.
