(* ===== verification/Record.v ===== *)
(** Record files (TFRecord).

    [tsl/lib/io/record_writer.{h,cc}] and [record_reader.{h,cc}].  A record is
    framed by its length with a masked checksum and followed by the masked
    checksum of its data.  The writer appends frames to a file or, when it
    compresses, to an output buffer, which is a file too ([OutputFile]).  The
    reader works on any input stream; [AnyStream] is the one its constructor
    chooses without compression.  Text of messages is not modelled, the offset
    in them is. *)
From S2P Require Import Prelude Bytes Coding Crc32c Block Format TableBuilder InputStream StreamTheorems.

Definition kHeaderSize : Z := 8 + 4.
Definition kFooterSize : Z := 4.

(** [RecordWriterOptions::CompressionType], [RecordReaderOptions::CompressionType]. *)
Inductive RecordCompression : Type := NONE | ZLIB_COMPRESSION | SNAPPY_COMPRESSION.

(** [WritableFile::Flush] and [Close]. *)
Class OutputFile (W : Type) : Type := {
  output_Flush : W -> Status * W;
  output_Close : W -> Status * W
}.

Module RecordWriter.
Section Writer.
Context {bo : ByteOrder} {pl : CrcPlatform} {W : Type} `{WritableFile W, OutputFile W}.

(** [dest_] is null after [Close] of a compressing writer. *)
Record t : Type := mk { dest_ : option W; compression_type : RecordCompression }.

Definition new (dest : W) : t := mk (Some dest) NONE.

Definition MaskedCrc (data : bytes) : Z := Crc32c.Mask (Crc32c.Value data).

Definition PopulateHeader (n : Z) : bytes :=
  let length := Coding.EncodeFixed64 n in
  length ++ Coding.EncodeFixed32 (MaskedCrc length).

Definition PopulateFooter (data : bytes) : bytes := Coding.EncodeFixed32 (MaskedCrc data).

Definition WriteRecord (w : t) (data : bytes) : Status * t :=
  match dest_ w with
  | None => (FailedPrecondition, w)
  | Some dest =>
      let header := PopulateHeader (size data) in
      let footer := PopulateFooter data in
      let '(s, dest) := file_Append dest header in
      if negb (ok s) then (s, mk (Some dest) (compression_type w))
      else
        let '(s, dest) := file_Append dest data in
        if negb (ok s) then (s, mk (Some dest) (compression_type w))
        else
          let '(s, dest) := file_Append dest footer in
          (s, mk (Some dest) (compression_type w))
  end.

Definition Close (w : t) : Status * t :=
  match dest_ w with
  | None => (OkStatus, w)
  | Some dest =>
      match compression_type w with
      | ZLIB_COMPRESSION | SNAPPY_COMPRESSION =>
          let '(s, _) := output_Close dest in (s, mk None (compression_type w))
      | NONE => (OkStatus, w)
      end
  end.

Definition Flush (w : t) : Status * t :=
  match dest_ w with
  | None => (FailedPrecondition, w)
  | Some dest => let '(s, dest) := output_Flush dest in (s, mk (Some dest) (compression_type w))
  end.

End Writer.
Arguments t : clear implicits.
End RecordWriter.

(** The stream of a reader without compression: of the file, or buffered. *)
Inductive AnyStream (F : Type) : Type :=
| FileStream (s : RandomAccessInputStream.t F)
| BufferStream (s : BufferedInputStream.t (RandomAccessInputStream.t F)).
Arguments FileStream {F} _.
Arguments BufferStream {F} _.

Section AnyStream.
Local Open Scope res_scope.
Context {F : Type} `{RandomAccessFile F}.

#[global] Instance any_stream : InputStream (AnyStream F) := {
  ReadNBytes a n r :=
    match a with
    | FileStream s => let! (st, r, s) := ReadNBytes s n r in Ok (st, r, FileStream s)
    | BufferStream s => let! (st, r, s) := ReadNBytes s n r in Ok (st, r, BufferStream s)
    end;
  SkipNBytes a n :=
    match a with
    | FileStream s => let! (st, s) := SkipNBytes s n in Ok (st, FileStream s)
    | BufferStream s => let! (st, s) := SkipNBytes s n in Ok (st, BufferStream s)
    end;
  Tell a := match a with FileStream s => Tell s | BufferStream s => Tell s end;
  Reset a :=
    match a with
    | FileStream s => let! (st, s) := Reset s in Ok (st, FileStream s)
    | BufferStream s => let! (st, s) := Reset s in Ok (st, BufferStream s)
    end
}.

End AnyStream.

(** [RecordReader::Stats]. *)
Record Stats : Type := mkStats { file_size : Z; data_size : Z; entries : Z }.

Module RecordReader.
Section Reader.
Local Open Scope res_scope.
Context {bo : ByteOrder} {pl : CrcPlatform} {S : Type} `{InputStream S}.

Record t : Type := mk {
  input_stream_ : S;
  last_read_failed_ : bool;
  cached_metadata_ : option Stats
}.

Definition new (s : S) : t := mk s false None.

Definition set_stream (r : t) (s : S) : t := mk s (last_read_failed_ r) (cached_metadata_ r).

Definition set_failed (r : t) (failed : bool) : t := mk (input_stream_ r) failed (cached_metadata_ r).

Definition ReadChecksummed (r : t) (offset n : Z) (result : bytes) : res fault (Status * bytes * t) :=
  if u64_max - 4 <=? n then Ok (DataLoss (RecordTooLarge offset), result, r)
  else
    let expected := wrap_u64 (n + 4) in
    let! (s, result, input) := ReadNBytes (input_stream_ r) (wrap_i64 expected) result in
    let r := set_stream r input in
    if negb (ok s) then Ok (s, result, r)
    else if negb (size result =? expected) then
      if bool_decide (result = []) then Ok (OutOfRange, result, r)
      else Ok (DataLoss (TruncatedRecord offset), result, r)
    else
      let! word := Block.read result n 4 in
      let masked_crc := Coding.DecodeFixed32 word in
      let! data := Block.read result 0 n in
      if negb (Crc32c.Unmask masked_crc =? Crc32c.Value data) then
        Ok (DataLoss (CorruptedRecord offset), result, r)
      else Ok (OkStatus, data, r).

(** The loop of [GetMetadata]; its state is [data_size], [entries], [offset] and
    [record]. *)
Definition metadata_body (st : Z * Z * Z * bytes * t) :
    res fault ((Z * Z * Z * bytes * t) + (Status * Z * Z * t)) :=
  let '(data_size, entries, offset, record, r) := st in
  let! (s, record, r) := ReadChecksummed r offset 8 record in
  if negb (ok s) then
    if IsOutOfRange s then Ok (inr (OkStatus, data_size, entries, r))
    else Ok (inr (s, data_size, entries, r))
  else
    let length := Coding.DecodeFixed64 record in
    let! (s, input) := SkipNBytes (input_stream_ r) (wrap_i64 (wrap_u64 (length + kFooterSize))) in
    let r := set_stream r input in
    if negb (ok s) then Ok (inr (s, data_size, entries, r))
    else
      let offset := wrap_u64 (offset + wrap_u64 (wrap_u64 (kHeaderSize + length) + kFooterSize)) in
      Ok (inl (wrap_i64 (data_size + length), wrap_i64 (entries + 1), offset, record, r)).

(** [GetMetadata(md)]: the status and what is stored in [*md]. *)
Definition GetMetadata (r : t) (md_is_null : bool) : res fault (Status * option Stats * t) :=
  if md_is_null then Ok (InvalidArgument, None, r)
  else
    match cached_metadata_ r with
    | Some stats => Ok (OkStatus, Some stats, r)
    | None =>
        let! (s, input) := Reset (input_stream_ r) in
        let r := set_stream r input in
        if negb (ok s) then Ok (s, None, r)
        else
          let! (s, data_size, entries, r) := while metadata_body (0, 0, 0, [], r) in
          if negb (ok s) then Ok (s, None, r)
          else
            let stats :=
              mkStats (wrap_i64 (wrap_u64 (data_size + wrap_u64 ((kHeaderSize + kFooterSize) * entries))))
                data_size entries in
            Ok (OkStatus, Some stats, mk (input_stream_ r) (last_read_failed_ r) (Some stats))
    end.

Definition PositionInputStream (r : t) (offset : Z) : res fault (Status * t) :=
  let curr_pos := Tell (input_stream_ r) in
  let desired_pos := wrap_i64 offset in
  if (desired_pos <? curr_pos) || (curr_pos <? 0) || ((curr_pos =? desired_pos) && last_read_failed_ r) then
    let r := set_failed r false in
    let! (s, input) := Reset (input_stream_ r) in
    let r := set_stream r input in
    if negb (ok s) then Ok (s, r)
    else
      let! (s, input) := SkipNBytes (input_stream_ r) desired_pos in
      Ok (s, set_stream r input)
  else if curr_pos <? desired_pos then
    let! (s, input) := SkipNBytes (input_stream_ r) (wrap_i64 (desired_pos - curr_pos)) in
    Ok (s, set_stream r input)
  else Ok (OkStatus, r).

(** [ReadRecord(&offset, record)]: the status, the offset and the record. *)
Definition ReadRecord (r : t) (offset : Z) (record : bytes) : res fault (Status * Z * bytes * t) :=
  let! (s, r) := PositionInputStream r offset in
  if negb (ok s) then Ok (s, offset, record, r)
  else
    let! (s, record, r) := ReadChecksummed r offset 8 record in
    if negb (ok s) then Ok (s, offset, record, set_failed r true)
    else
      let length := Coding.DecodeFixed64 record in
      let! (s, record, r) := ReadChecksummed r (wrap_u64 (offset + kHeaderSize)) length record in
      if negb (ok s) then
        let s := if IsOutOfRange s then DataLoss (TruncatedRecord offset) else s in
        Ok (s, offset, record, set_failed r true)
      else
        Ok (OkStatus, wrap_u64 (offset + wrap_u64 (wrap_u64 (kHeaderSize + length) + kFooterSize)), record, r).

(** The loop of [SkipRecords]; its state is [i], [*offset], [record] and
    [*num_skipped]. *)
Definition skip_records_body (num_to_skip : Z) (st : Z * Z * bytes * Z * t) :
    res fault ((Z * Z * bytes * Z * t) + (Status * Z * Z * t)) :=
  let '(i, offset, record, num_skipped, r) := st in
  if i <? num_to_skip then
    let! (s, record, r) := ReadChecksummed r offset 8 record in
    if negb (ok s) then Ok (inr (s, offset, num_skipped, set_failed r true))
    else
      let length := Coding.DecodeFixed64 record in
      let! (s, input) := SkipNBytes (input_stream_ r) (wrap_i64 (wrap_u64 (length + kFooterSize))) in
      let r := set_stream r input in
      if negb (ok s) then
        let s := if IsOutOfRange s then DataLoss (TruncatedRecord offset) else s in
        Ok (inr (s, offset, num_skipped, set_failed r true))
      else
        let offset := wrap_u64 (offset + wrap_u64 (wrap_u64 (kHeaderSize + length) + kFooterSize)) in
        Ok (inl (i + 1, offset, record, num_skipped + 1, r))
  else Ok (inr (OkStatus, offset, num_skipped, r)).

(** [SkipRecords(&offset, num_to_skip, &num_skipped)]; [num_skipped] is given
    what it holds before. *)
Definition SkipRecords (r : t) (offset num_to_skip num_skipped : Z) : res fault (Status * Z * Z * t) :=
  let! (s, r) := PositionInputStream r offset in
  if negb (ok s) then Ok (s, offset, num_skipped, r)
  else while (skip_records_body num_to_skip) (0, offset, [], 0, r).

End Reader.
Arguments t : clear implicits.

(** The constructor, without compression. *)
Definition open {F : Type} (file : F) (buffer_size : Z) : t (AnyStream F) :=
  let input := RandomAccessInputStream.new file in
  if 0 <? buffer_size then new (BufferStream (BufferedInputStream.new input buffer_size))
  else new (FileStream input).

End RecordReader.

Module SequentialRecordReader.
Section Reader.
Local Open Scope res_scope.
Context {bo : ByteOrder} {pl : CrcPlatform} {S : Type} `{InputStream S}.

Record t : Type := mk { underlying_ : RecordReader.t S; offset_ : Z }.

Definition new (r : RecordReader.t S) : t := mk r 0.

Definition ReadRecord (q : t) (record : bytes) : res fault (Status * bytes * t) :=
  let! (s, offset, record, r) := RecordReader.ReadRecord (underlying_ q) (offset_ q) record in
  Ok (s, record, mk r offset).

Definition SkipRecords (q : t) (num_to_skip num_skipped : Z) : res fault (Status * Z * t) :=
  let! (s, offset, num_skipped, r) :=
    RecordReader.SkipRecords (underlying_ q) (offset_ q) num_to_skip num_skipped in
  Ok (s, num_skipped, mk r offset).

Definition TellOffset (q : t) : Z := offset_ q.

Definition SeekOffset (q : t) (offset : Z) : Status * t :=
  if offset <? offset_ q then (InvalidArgument, q) else (OkStatus, mk (underlying_ q) offset).

End Reader.
Arguments t : clear implicits.
End SequentialRecordReader.
