(* ===== verification/RecordTheorems.v ===== *)
(** Record files read back.

    The frames that [RecordWriter] writes, and what [RecordReader] does on a
    stream of frames: against the contract of input streams, so for buffered and
    unbuffered files alike. *)
From stdpp Require Import relations.
From S2P Require Import Prelude Bytes Coding Crc32c Block Format TableBuilder InputStream StreamTheorems Record.

(** ** Frames *)

Section Frames.
Context {bo : ByteOrder} {pl : CrcPlatform}.

(** Bytes with their checksum. *)
Definition summed (x : bytes) : bytes := x ++ le_bytes 4 (Crc32c.Mask (Crc32c.Value x)).

Definition frame (d : bytes) : bytes := summed (le_bytes 8 (size d)) ++ summed d.

Definition frames (ds : list bytes) : bytes := concat (map frame ds).

Lemma summed_size (x : bytes) : size (summed x) = size x + 4.
Proof. unfold summed. rewrite size_app, le_bytes_size. done. Qed.

Lemma frame_size (d : bytes) : size (frame d) = size d + 16.
Proof. unfold frame. rewrite size_app, !summed_size, le_bytes_size. lia. Qed.

Lemma frames_app (ds es : list bytes) : frames (ds ++ es) = frames ds ++ frames es.
Proof. unfold frames. by rewrite map_app, concat_app. Qed.

Lemma frames_cons (d : bytes) (ds : list bytes) : frames (d :: ds) = frame d ++ frames ds.
Proof. done. Qed.

Definition total (ds : list bytes) : Z := foldr (fun d n => size d + n) 0 ds.

Lemma frames_size (ds : list bytes) : size (frames ds) = total ds + 16 * Z.of_nat (length ds).
Proof.
  induction ds as [|d ds IH]; [done|]. rewrite frames_cons, size_app, frame_size, IH. cbn [total foldr].
  rewrite length_cons. unfold total. lia.
Qed.

Lemma data_total_app (ds es : list bytes) : total (ds ++ es) = total ds + total es.
Proof. unfold total. induction ds as [|d ds IH]; cbn; [done|]. rewrite IH. lia. Qed.

Lemma data_total_nonneg (ds : list bytes) : 0 <= total ds.
Proof. unfold total. induction ds as [|d ds IH]; cbn; [lia|]. pose proof (size_nonneg d). lia. Qed.

(** The offset of the [i]-th record. *)
Definition offset_of (ds : list bytes) (i : nat) : Z := size (frames (take i ds)).

Lemma offset_of_range (ds : list bytes) (i : nat) : 0 <= offset_of ds i <= size (frames ds).
Proof.
  unfold offset_of. split; [apply size_nonneg|]. rewrite <- (take_drop i ds) at 2.
  rewrite frames_app, size_app. pose proof (size_nonneg (frames (drop i ds))). lia.
Qed.

Lemma offset_of_S (ds : list bytes) (i : nat) (d : bytes) :
  ds !! i = Some d -> offset_of ds (S i) = offset_of ds i + size (frame d).
Proof.
  intros Hd. unfold offset_of. rewrite (take_S_r _ _ _ Hd), frames_app, size_app. cbn. by rewrite app_nil_r.
Qed.

Lemma offset_of_all (ds : list bytes) (i : nat) : (length ds <= i)%nat -> offset_of ds i = size (frames ds).
Proof. intros Hi. unfold offset_of. by rewrite take_ge. Qed.

Lemma frames_split (ds : list bytes) (i : nat) (d : bytes) :
  ds !! i = Some d -> frames ds = frames (take i ds) ++ frame d ++ frames (drop (S i) ds).
Proof. intros Hd. rewrite <- (take_drop_middle ds i d Hd) at 1. by rewrite frames_app, frames_cons. Qed.

End Frames.

Lemma ahead_mid (pre b post : bytes) : ahead (pre ++ b ++ post) (size pre) (size b) = b.
Proof. unfold ahead, size. by rewrite !Nat2Z.id, drop_app_length, take_app_length. Qed.

(** ** The writer *)

Section Writer.
Context {bo : ByteOrder} {pl : CrcPlatform} {W : Type} `{WritableFile W, OutputFile W}.
Context {written : W -> bytes} `{!AppendingFile W written}.

(** Records written one after another, while the status is [OK]. *)
Fixpoint write_all (w : RecordWriter.t W) (ds : list bytes) : Status * RecordWriter.t W :=
  match ds with
  | [] => (OkStatus, w)
  | d :: ds =>
      let '(s, w) := RecordWriter.WriteRecord w d in
      if ok s then write_all w ds else (s, w)
  end.

Lemma WriteRecord_frame (w : W) (d : bytes) (w' : RecordWriter.t W) :
  RecordWriter.WriteRecord (RecordWriter.new w) d = (OkStatus, w') ->
  exists x, w' = RecordWriter.new x /\ written x = written w ++ frame d.
Proof.
  unfold RecordWriter.WriteRecord, RecordWriter.PopulateHeader, RecordWriter.PopulateFooter, RecordWriter.MaskedCrc.
  cbn [RecordWriter.new RecordWriter.dest_ RecordWriter.compression_type].
  rewrite !Coding.EncodeFixed32_le, !Coding.EncodeFixed64_le.
  destruct (file_Append w _) as [[| |] w1] eqn:H1; cbn [ok negb]; [|done|done].
  destruct (file_Append w1 d) as [[| |] w2] eqn:H2; cbn [ok negb]; [|done|done].
  destruct (file_Append w2 _) as [s w3] eqn:H3. intros [= -> <-]. exists w3. split; [done|].
  rewrite (file_Append_spec _ _ _ H3), (file_Append_spec _ _ _ H2), (file_Append_spec _ _ _ H1).
  unfold frame, summed. by rewrite <- !app_assoc.
Qed.

Lemma write_all_frames (w : W) (ds : list bytes) (w' : RecordWriter.t W) :
  write_all (RecordWriter.new w) ds = (OkStatus, w') ->
  exists x, w' = RecordWriter.new x /\ written x = written w ++ frames ds.
Proof.
  revert w. induction ds as [|d ds IH]; intros w; cbn [write_all].
  - intros [= <-]. exists w. by rewrite app_nil_r.
  - destruct (RecordWriter.WriteRecord _ d) as [[| |] w1] eqn:Hw; cbn [ok]; try done. intros Hall.
    apply WriteRecord_frame in Hw as (x & -> & Hx). apply IH in Hall as (y & -> & Hy).
    exists y. split; [done|]. rewrite Hy, Hx, frames_cons. by rewrite app_assoc.
Qed.

End Writer.

(** ** The reader *)

Section Reader.
Context {bo : ByteOrder} {pl : CrcPlatform} `{!Crc32c.CrcLaws}.
Context {S : Type} `{InputStream S} (data : bytes) (at_ : S -> Z -> Prop) `{!StreamLaws S data at_}.
Context (small : size data < 2 ^ 63 - 2 ^ 24).
Import RecordReader.

Definition reader_at (r : t S) (p : Z) : Prop := at_ (input_stream_ r) p.

Lemma reader_at_range (r : t S) (p : Z) : reader_at r p -> 0 <= p <= size data.
Proof. apply (at_range (input_stream_ r)). Qed.

(** One checksummed read: of what is there, whole or not. *)
Lemma ReadChecksummed_short (r : t S) (p off n : Z) (result : bytes) :
  reader_at r p -> 0 <= n -> size data < p + n + 4 < 2 ^ 63 ->
  exists r', ReadChecksummed r off n result = Ok (OutOfRange, ahead data p (n + 4), r') /\
    reader_at r' (size data) /\ last_read_failed_ r' = last_read_failed_ r /\
    cached_metadata_ r' = cached_metadata_ r.
Proof.
  intros Hr Hn Hend. pose proof (reader_at_range r p Hr). unfold ReadChecksummed, u64_max.
  rewrite (proj2 (Z.leb_gt _ _)) by lia. unfold wrap_u64. rewrite Z.mod_small, wrap_i64_id by (unfold in_i64; lia).
  destruct (at_Read (input_stream_ r) p (n + 4) result Hr) as (s' & -> & Hs'); [lia|lia|].
  rewrite enough_eof by lia. cbn. eexists. split; [done|]. rewrite Z.min_r in Hs' by lia. done.
Qed.

Lemma ReadChecksummed_spec (r : t S) (off : Z) (result pre x crc post : bytes) :
  data = pre ++ (x ++ crc) ++ post -> size crc = 4 -> reader_at r (size pre) -> bytes_ok crc ->
  exists r', ReadChecksummed r off (size x) result =
      Ok (if Crc32c.Unmask (le_value crc) =? Crc32c.Value x then (OkStatus, x, r')
          else (DataLoss (CorruptedRecord off), x ++ crc, r')) /\
    reader_at r' (size pre + size x + 4) /\ last_read_failed_ r' = last_read_failed_ r /\
    cached_metadata_ r' = cached_metadata_ r.
Proof.
  intros Hd Hc Hr Hok. pose proof (size_nonneg x). pose proof (size_nonneg pre). pose proof (size_nonneg post).
  assert (size data = size pre + (size x + 4 + size post)) as Hsz by (rewrite Hd, !size_app; lia).
  unfold ReadChecksummed, u64_max.
  rewrite (proj2 (Z.leb_gt _ _)) by lia. unfold wrap_u64. rewrite Z.mod_small, wrap_i64_id by (unfold in_i64; lia).
  destruct (at_Read (input_stream_ r) (size pre) (size x + 4) result Hr) as (s' & -> & Hs'); [lia|lia|].
  rewrite enough_ok by lia. cbn [res_bind ok negb].
  assert (ahead data (size pre) (size x + 4) = x ++ crc) as ->.
  { rewrite Hd, <- Hc, <- size_app. apply ahead_mid. }
  rewrite size_app, Hc, Z.eqb_refl. cbn [negb]. unfold Block.read.
  rewrite <- (app_nil_r crc), (sub_app x crc []) by done. cbn [res_bind]. rewrite app_nil_r.
  rewrite (sub_prefix x) by done. cbn [res_bind].
  rewrite Coding.DecodeFixed32_le, take_ge by (done || (unfold size in Hc; lia)).
  exists (set_stream r s'). rewrite Z.min_l in Hs' by lia. split; [|split; [|done]].
  - by destruct (Crc32c.Unmask _ =? _).
  - unfold reader_at. cbn. by replace (size pre + size x + 4) with (size pre + (size x + 4)) by lia.
Qed.

(** Of bytes with their own checksum. *)
Lemma ReadChecksummed_ok (r : t S) (off : Z) (result pre x post : bytes) :
  data = pre ++ summed x ++ post -> reader_at r (size pre) -> bytes_ok x ->
  exists r', ReadChecksummed r off (size x) result = Ok (OkStatus, x, r') /\
    reader_at r' (size pre + size x + 4) /\ last_read_failed_ r' = last_read_failed_ r /\
    cached_metadata_ r' = cached_metadata_ r.
Proof.
  intros Hd Hr Hx.
  destruct (ReadChecksummed_spec r off result pre x _ post Hd (le_bytes_size _ _) Hr (le_bytes_ok _ _)) as (r' & -> & Hr').
  exists r'. split; [|done]. rewrite le_value_bytes by apply Crc32c.Mask_range.
  rewrite Crc32c.Unmask_Mask by by apply Crc32c.Value_u32. by rewrite Z.eqb_refl.
Qed.

Lemma PositionInputStream_spec (r : t S) (p o : Z) :
  reader_at r p -> 0 <= o <= size data ->
  exists r', PositionInputStream r o = Ok (OkStatus, r') /\ reader_at r' o /\ cached_metadata_ r' = cached_metadata_ r.
Proof.
  intros Hr Ho. pose proof (reader_at_range r p Hr) as Hp. unfold PositionInputStream.
  rewrite (at_Tell (input_stream_ r) p Hr). rewrite wrap_i64_id by (unfold in_i64; lia). case_match eqn:Hc.
  - destruct (at_Reset (input_stream_ r) p Hr) as (s1 & Hre & Hs1). cbn [set_failed input_stream_]. rewrite Hre. cbn [res_bind ok negb].
    destruct (at_Skip s1 0 o Hs1) as (s2 & Hsk & Hs2); [lia|lia|]. cbn [set_stream input_stream_]. rewrite Hsk.
    rewrite enough_ok by lia. rewrite Z.min_l, Z.add_0_l in Hs2 by lia. by eexists.
  - destruct (Z.ltb_spec p o).
    + rewrite wrap_i64_id by (unfold in_i64; lia).
      destruct (at_Skip (input_stream_ r) p (o - p) Hr) as (s2 & -> & Hs2); [lia|lia|].
      rewrite enough_ok by lia. replace (p + (o - p)) with o in Hs2 by lia. rewrite Z.min_l in Hs2 by lia. by eexists.
    + exists r. split; [done|]. split; [|done]. assert (o = p) as -> by lia. done.
Qed.

(** The header of a frame gives the length of its data. *)
Lemma header_spec (r : t S) (off : Z) (result pre d post : bytes) :
  data = pre ++ summed (le_bytes 8 (size d)) ++ post -> reader_at r (size pre) -> size d < 2 ^ 63 ->
  exists r', ReadChecksummed r off 8 result = Ok (OkStatus, le_bytes 8 (size d), r') /\
    Coding.DecodeFixed64 (le_bytes 8 (size d)) = size d /\
    reader_at r' (size pre + kHeaderSize) /\ cached_metadata_ r' = cached_metadata_ r.
Proof.
  intros Hd Hr Hs. pose proof (size_nonneg d).
  destruct (ReadChecksummed_ok r off result pre (le_bytes 8 (size d)) post Hd Hr (le_bytes_ok _ _))
    as (r' & Hread & Hr' & _ & Hc).
  rewrite le_bytes_size in Hread, Hr'. exists r'. split; [done|]. split.
  - rewrite <- (app_nil_r (le_bytes 8 (size d))). apply Coding.DecodeFixed64_bytes; [|constructor]. unfold in_u64. lia.
  - split; [|done]. unfold kHeaderSize. by replace (size pre + (8 + 4)) with (size pre + Z.of_nat 8 + 4) by lia.
Qed.

(** The offset after a frame. *)
Lemma offset_after_frame (o n : Z) :
  0 <= o -> 0 <= n -> o + n + 16 < 2 ^ 64 ->
  wrap_u64 (o + wrap_u64 (wrap_u64 (kHeaderSize + n) + kFooterSize)) = o + (n + 16).
Proof.
  intros. unfold wrap_u64, kHeaderSize, kFooterSize. rewrite (Z.mod_small (8 + 4 + n)) by lia.
  rewrite (Z.mod_small (8 + 4 + n + 4)) by lia. rewrite Z.mod_small by lia. lia.
Qed.

Lemma frame_inside (pre d post : bytes) : data = pre ++ frame d ++ post -> size pre + (size d + 16) <= size data.
Proof. intros ->. rewrite !size_app, frame_size. pose proof (size_nonneg post). lia. Qed.

(** [ReadRecord] at a frame returns its data. *)
Lemma ReadRecord_frame (r : t S) (p : Z) (record pre d post : bytes) :
  data = pre ++ frame d ++ post -> bytes_ok d -> reader_at r p ->
  exists r', ReadRecord r (size pre) record = Ok (OkStatus, size pre + (size d + 16), d, r') /\
    reader_at r' (size pre + (size d + 16)) /\ cached_metadata_ r' = cached_metadata_ r.
Proof.
  intros Hd Hok Hr. pose proof (frame_inside pre d post Hd) as Hin. pose proof (size_nonneg d). pose proof (size_nonneg pre).
  unfold ReadRecord. destruct (PositionInputStream_spec r p (size pre) Hr) as (r1 & -> & Hr1 & Hc1); [lia|].
  cbn [res_bind ok negb].
  destruct (header_spec r1 (size pre) record pre d (summed d ++ post)) as (r2 & -> & Hlen & Hr2 & Hc2);
    [by rewrite Hd; unfold frame; rewrite <- app_assoc|done|lia|].
  cbn [res_bind ok negb]. rewrite Hlen.
  destruct (ReadChecksummed_ok r2 (wrap_u64 (size pre + kHeaderSize)) (le_bytes 8 (size d))
    (pre ++ summed (le_bytes 8 (size d))) d post) as (r3 & -> & Hr3 & _ & Hc3); [| |done|].
  { rewrite Hd. unfold frame. by rewrite <- !app_assoc. }
  { by rewrite size_app, summed_size, le_bytes_size. }
  cbn [res_bind ok negb]. rewrite offset_after_frame by lia. exists r3. split; [done|].
  rewrite size_app, summed_size, le_bytes_size in Hr3.
  split; [|congruence]. by replace (size pre + (size d + 16)) with (size pre + (Z.of_nat 8 + 4) + size d + 4) by lia.
Qed.

(** Where less than a header is left, [ReadRecord] reports the end of the file. *)
Lemma ReadRecord_eof (r : t S) (p o : Z) (record : bytes) :
  reader_at r p -> 0 <= o <= size data -> size data < o + kHeaderSize ->
  exists r', ReadRecord r o record = Ok (OutOfRange, o, ahead data o kHeaderSize, r') /\
    reader_at r' (size data) /\ cached_metadata_ r' = cached_metadata_ r.
Proof.
  intros Hr Ho Hend. unfold ReadRecord.
  destruct (PositionInputStream_spec r p o Hr Ho) as (r1 & -> & Hr1 & Hc1). cbn [res_bind ok negb].
  destruct (ReadChecksummed_short r1 o o 8 record Hr1) as (r2 & -> & Hr2 & _ & Hc2);
    [lia|unfold kHeaderSize in *; lia|].
  cbn. eexists. split; [done|]. split; [done|]. cbn. congruence.
Qed.

(** Where the data or its checksum is cut off, [ReadRecord] reports the loss. *)
Lemma ReadRecord_truncated (r : t S) (p : Z) (record pre d part : bytes) :
  data = pre ++ summed (le_bytes 8 (size d)) ++ part -> size part < size d + 4 -> size pre + size d < 2 ^ 63 - 16 ->
  reader_at r p ->
  exists r' record', ReadRecord r (size pre) record = Ok (DataLoss (TruncatedRecord (size pre)), size pre, record', r') /\
    reader_at r' (size data).
Proof.
  intros Hd Hpart Hlen Hr. pose proof (size_nonneg d). pose proof (size_nonneg pre). pose proof (size_nonneg part).
  assert (size data = size pre + (Z.of_nat 8 + 4 + size part)) as Hsz
    by (rewrite Hd, !size_app, summed_size, le_bytes_size; lia).
  unfold ReadRecord. destruct (PositionInputStream_spec r p (size pre) Hr) as (r1 & -> & Hr1 & _); [lia|].
  cbn [res_bind ok negb].
  destruct (header_spec r1 (size pre) record pre d part Hd Hr1) as (r2 & -> & Hdec & Hr2 & _); [lia|].
  cbn [res_bind ok negb]. rewrite Hdec.
  destruct (ReadChecksummed_short r2 (size pre + kHeaderSize) (wrap_u64 (size pre + kHeaderSize)) (size d)
    (le_bytes 8 (size d)) Hr2) as (r3 & -> & Hr3 & _); [lia| |].
  { unfold kHeaderSize. lia. }
  cbn. eexists _, _. split; [done|]. done.
Qed.

(** Where the header or the data does not match its checksum, [ReadRecord] reports it. *)
Lemma ReadRecord_bad_header (r : t S) (p : Z) (record pre h crc post : bytes) :
  data = pre ++ (h ++ crc) ++ post -> size h = 8 -> size crc = 4 -> bytes_ok crc ->
  Crc32c.Unmask (le_value crc) <> Crc32c.Value h -> reader_at r p ->
  exists r', ReadRecord r (size pre) record = Ok (DataLoss (CorruptedRecord (size pre)), size pre, h ++ crc, r') /\
    reader_at r' (size pre + kHeaderSize).
Proof.
  intros Hd Hh Hc Hok Hne Hr. pose proof (size_nonneg pre). pose proof (size_nonneg post).
  assert (size data = size pre + (12 + size post)) as Hsz by (rewrite Hd, !size_app; lia).
  unfold ReadRecord. destruct (PositionInputStream_spec r p (size pre) Hr) as (r1 & -> & Hr1 & _); [lia|].
  cbn [res_bind ok negb].
  destruct (ReadChecksummed_spec r1 (size pre) record pre h crc post Hd Hc Hr1 Hok) as (r2 & Hread & Hr2 & _).
  rewrite Hh in Hread. rewrite Hread, (proj2 (Z.eqb_neq _ _)) by done. cbn. eexists. split; [done|].
  rewrite Hh in Hr2. unfold kHeaderSize. by replace (size pre + (8 + 4)) with (size pre + 8 + 4) by lia.
Qed.

Lemma ReadRecord_bad_data (r : t S) (p : Z) (record pre x crc post : bytes) :
  data = pre ++ summed (le_bytes 8 (size x)) ++ (x ++ crc) ++ post -> size crc = 4 -> bytes_ok crc ->
  Crc32c.Unmask (le_value crc) <> Crc32c.Value x -> reader_at r p ->
  exists r', ReadRecord r (size pre) record =
      Ok (DataLoss (CorruptedRecord (size pre + kHeaderSize)), size pre, x ++ crc, r') /\
    reader_at r' (size pre + (size x + 16)).
Proof.
  intros Hd Hc Hok Hne Hr. pose proof (size_nonneg pre). pose proof (size_nonneg post). pose proof (size_nonneg x).
  assert (size data = size pre + (Z.of_nat 8 + 4 + (size x + 4 + size post))) as Hsz
    by (rewrite Hd, !size_app, summed_size, le_bytes_size; lia).
  unfold ReadRecord. destruct (PositionInputStream_spec r p (size pre) Hr) as (r1 & -> & Hr1 & _); [lia|].
  cbn [res_bind ok negb].
  destruct (header_spec r1 (size pre) record pre x _ Hd Hr1) as (r2 & -> & Hdec & Hr2 & _); [lia|].
  cbn [res_bind ok negb]. rewrite Hdec.
  unfold wrap_u64 at 1. unfold kHeaderSize in *. rewrite Z.mod_small by lia.
  destruct (ReadChecksummed_spec r2 (size pre + (8 + 4)) (le_bytes 8 (size x)) (pre ++ summed (le_bytes 8 (size x)))
    x crc post) as (r3 & -> & Hr3 & _); [by rewrite Hd, <- !app_assoc|done| |done|].
  { by rewrite size_app, summed_size, le_bytes_size. }
  rewrite (proj2 (Z.eqb_neq _ _)) by done. cbn. eexists. split; [done|].
  rewrite size_app, summed_size, le_bytes_size in Hr3. unfold reader_at. cbn.
  by replace (size pre + (size x + 16)) with (size pre + (Z.of_nat 8 + 4) + size x + 4) by lia.
Qed.

(** ** Files of frames *)

Context (ds : list bytes) (file_is : data = frames ds).

(** Skipping a frame: its header, then its data. *)
Lemma skip_frame (r : t S) (off : Z) (record : bytes) (j : nat) (d : bytes) :
  ds !! j = Some d -> reader_at r (offset_of ds j) ->
  exists r1 s2, ReadChecksummed r off 8 record = Ok (OkStatus, le_bytes 8 (size d), r1) /\
    Coding.DecodeFixed64 (le_bytes 8 (size d)) = size d /\
    SkipNBytes (input_stream_ r1) (wrap_i64 (wrap_u64 (size d + kFooterSize))) = Ok (OkStatus, s2) /\
    at_ s2 (offset_of ds (Datatypes.S j)) /\ cached_metadata_ r1 = cached_metadata_ r /\
    wrap_u64 (offset_of ds j + wrap_u64 (wrap_u64 (kHeaderSize + size d) + kFooterSize)) =
      offset_of ds (Datatypes.S j).
Proof.
  intros Hd Hr. pose proof (frames_split ds j d Hd) as Hf. rewrite <- file_is in Hf.
  pose proof (frame_inside _ d _ Hf) as Hin. pose proof (size_nonneg d). change (size (frames (take j ds))) with (offset_of ds j) in Hin.
  pose proof (offset_of_range ds j).
  rewrite (offset_of_S ds j d Hd), frame_size.
  destruct (header_spec r off record (frames (take j ds)) d (summed d ++ frames (drop (Datatypes.S j) ds)))
    as (r1 & Hread & Hdec & Hr1 & Hc); [rewrite Hf; unfold frame; by rewrite <- !app_assoc|done|lia|].
  change (size (frames (take j ds))) with (offset_of ds j) in Hr1.
  destruct (at_Skip (input_stream_ r1) (offset_of ds j + kHeaderSize) (size d + kFooterSize) Hr1) as (s2 & Hskip & Hs2);
    [unfold kFooterSize; lia|unfold kHeaderSize, kFooterSize; lia|].
  exists r1, s2. split_and!; try done.
  - unfold wrap_u64. rewrite Z.mod_small, wrap_i64_id by (unfold in_i64, kFooterSize; lia).
    rewrite Hskip, enough_ok by (unfold kHeaderSize, kFooterSize; lia). done.
  - rewrite Z.min_l in Hs2 by (unfold kHeaderSize, kFooterSize; lia).
    by replace (offset_of ds j + (size d + 16)) with (offset_of ds j + kHeaderSize + (size d + kFooterSize))
      by (unfold kHeaderSize, kFooterSize; lia).
  - apply offset_after_frame; lia.
Qed.

Lemma end_header (r : t S) (off : Z) (record : bytes) (j : nat) :
  ds !! j = None -> reader_at r (offset_of ds j) ->
  exists r' b, ReadChecksummed r off 8 record = Ok (OutOfRange, b, r') /\ reader_at r' (size data) /\
    last_read_failed_ r' = last_read_failed_ r /\ cached_metadata_ r' = cached_metadata_ r.
Proof.
  intros Hd Hr. apply lookup_ge_None in Hd. rewrite (offset_of_all ds j Hd), <- file_is in Hr.
  destruct (ReadChecksummed_short r (size data) off 8 record Hr) as (r' & -> & ?); [lia|lia|]. by eexists _, _.
Qed.

Lemma SkipRecords_spec (r : t S) (p : Z) (i : nat) (n before : Z) :
  reader_at r p -> (i <= length ds)%nat -> 0 <= n < 2 ^ 31 ->
  let left := Z.of_nat (length ds - i) in
  let m := Z.min n left in
  exists r', SkipRecords r (offset_of ds i) n before =
      Ok (if n <=? left then OkStatus else OutOfRange, offset_of ds (i + Z.to_nat m), m, r') /\
    reader_at r' (offset_of ds (i + Z.to_nat m)) /\ cached_metadata_ r' = cached_metadata_ r.
Proof.
  intros Hr Hi Hn left m. pose proof (offset_of_range ds i) as Ho. rewrite <- file_is in Ho. unfold SkipRecords.
  destruct (PositionInputStream_spec r p (offset_of ds i) Hr Ho) as (r1 & -> & Hr1 & Hc1). cbn [res_bind ok negb].
  destruct (while_total (skip_records_body n)
    (fun '(k, offset, record, skipped, r2) => exists j : nat, k = Z.of_nat j /\ (i + j <= length ds)%nat /\ k <= n /\
       offset = offset_of ds (i + j) /\ skipped = k /\ reader_at r2 offset /\ cached_metadata_ r2 = cached_metadata_ r)
    (fun '(s, offset, skipped, r2) => s = (if n <=? left then OkStatus else OutOfRange) /\
       offset = offset_of ds (i + Z.to_nat m) /\ skipped = m /\ reader_at r2 offset /\
       cached_metadata_ r2 = cached_metadata_ r)
    (fun '(k, _, _, _, _) => n - k)) with (a := (0, offset_of ds i, @nil Z, 0, r1))
    as ([[[s o] k] r2] & -> & -> & -> & -> & Hr2 & Hc2).
  2:{ exists O. rewrite Nat.add_0_r. split_and!; done || lia. }
  2:{ lia. }
  2:{ by exists r2. }
  intros [[[[k offset] record] skipped] r2] (j & -> & Hj & Hjn & -> & -> & Hr2 & Hc2). unfold skip_records_body.
  destruct (Z.ltb_spec (Z.of_nat j) n) as [Hlt|Hge].
  - destruct (ds !! (i + j)%nat) as [d|] eqn:Hd.
    + destruct (skip_frame r2 (offset_of ds (i + j)) record (i + j) d Hd Hr2)
        as (r3 & s2 & -> & Hdec & Hsk & Hs2 & Hc3 & Hno).
      cbn [res_bind ok negb]. rewrite Hdec, Hsk. cbn [res_bind ok negb]. rewrite Hno. eexists. split; [done|]. cbn.
      split; [|lia]. apply lookup_lt_Some in Hd. exists (Datatypes.S j). rewrite Nat.add_succ_r.
      split_and!; try done || lia. congruence.
    + destruct (end_header r2 (offset_of ds (i + j)) record (i + j) Hd Hr2) as (r3 & b & -> & Hr3 & _ & Hc3).
      cbn. eexists. split; [done|]. cbn. apply lookup_ge_None in Hd.
      rewrite (proj2 (Z.leb_gt _ _)) by lia. replace (Z.to_nat m) with j by lia.
      split_and!; try done || lia; [|congruence]. unfold reader_at. cbn. rewrite (offset_of_all ds (i + j)) by lia.
      by rewrite <- file_is.
  - eexists. split; [done|]. cbn. rewrite (proj2 (Z.leb_le _ _)) by lia. replace (Z.to_nat m) with j by lia.
    split_and!; done || lia.
Qed.

Lemma take_total (j : nat) : 0 <= total (take j ds) + 16 * Z.of_nat (length (take j ds)) <= size data.
Proof.
  pose proof (offset_of_range ds j) as Ho. unfold offset_of in Ho. by rewrite frames_size, <- file_is in Ho.
Qed.

Lemma GetMetadata_spec (r : t S) (p : Z) :
  reader_at r p -> cached_metadata_ r = None ->
  let stats := mkStats (size data) (total ds) (Z.of_nat (length ds)) in
  exists r', GetMetadata r false = Ok (OkStatus, Some stats, r') /\ reader_at r' (size data) /\
    cached_metadata_ r' = Some stats.
Proof.
  intros Hr Hc stats. unfold GetMetadata. rewrite Hc.
  destruct (at_Reset (input_stream_ r) p Hr) as (s1 & -> & Hs1). cbn [res_bind ok negb].
  destruct (while_total metadata_body
    (fun '(data_size, entries, offset, record, r1) => exists j : nat, (j <= length ds)%nat /\
       data_size = total (take j ds) /\ entries = Z.of_nat j /\ offset = offset_of ds j /\ reader_at r1 offset)
    (fun '(s, data_size, entries, r1) => s = OkStatus /\ data_size = total ds /\ entries = Z.of_nat (length ds) /\
       reader_at r1 (size data))
    (fun '(_, entries, _, _, _) => Z.of_nat (length ds) - entries)) with (a := (0, 0, 0, @nil Z, set_stream r s1))
    as ([[[s ts] es] r1] & -> & -> & -> & -> & Hr1).
  2:{ exists O. split_and!; done || lia. }
  2:{ pose proof (take_total (length ds)) as Ht. rewrite firstn_all in Ht. pose proof (data_total_nonneg ds). lia. }
  2:{ cbn [res_bind ok negb]. pose proof (take_total (length ds)) as Ht. rewrite firstn_all in Ht.
      pose proof (data_total_nonneg ds). unfold wrap_u64, kHeaderSize, kFooterSize.
      rewrite (Z.mod_small ((8 + 4 + 4) * _)), Z.mod_small by lia. rewrite wrap_i64_id by (unfold in_i64; lia).
      replace (total ds + (8 + 4 + 4) * Z.of_nat (length ds)) with (size data) by (rewrite file_is, frames_size; lia).
      eexists. split; [done|]. done. }
  intros [[[[ts es] offset] record] r1] (j & Hj & -> & -> & -> & Hr1). unfold metadata_body.
  destruct (ds !! j) as [d|] eqn:Hd.
  - destruct (skip_frame r1 (offset_of ds j) record j d Hd Hr1) as (r3 & s2 & -> & Hdec & Hsk & Hs2 & _ & Hno).
    cbn [res_bind ok negb]. rewrite Hdec, Hsk. cbn [res_bind ok negb]. rewrite Hno.
    apply lookup_lt_Some in Hd as Hlt. pose proof (take_total (Datatypes.S j)) as Ht. rewrite (take_S_r _ _ _ Hd) in Ht.
    rewrite data_total_app, length_app, length_take in Ht. cbn [total foldr length] in Ht.
    pose proof (data_total_nonneg (take j ds)). pose proof (size_nonneg d).
    rewrite !wrap_i64_id by (unfold in_i64; lia). eexists. split; [done|]. cbn. split; [|lia].
    exists (Datatypes.S j). rewrite (take_S_r _ _ _ Hd), data_total_app. cbn [total foldr].
    split_and!; done || lia.
  - destruct (end_header r1 (offset_of ds j) record j Hd Hr1) as (r3 & b & -> & Hr3 & _).
    cbn. eexists. split; [done|]. apply lookup_ge_None in Hd. assert (j = length ds) as -> by lia.
    by rewrite firstn_all.
Qed.

End Reader.

(** ** Readers of files *)

Section Files.
Context {bo : ByteOrder} {pl : CrcPlatform} `{!Crc32c.CrcLaws}.
Context {F : Type} `{RandomAccessFile F} (contents : F -> bytes) `{!ExactFile F contents}.

Section Any.
Context (data : bytes) (small : size data < 2 ^ 63 - 2 ^ 24).

Definition any_at (a : AnyStream F) (p : Z) : Prop :=
  match a with
  | FileStream s => file_at contents data s p
  | BufferStream s => buffered_at data (file_at contents data) s p
  end.

Lemma any_stream_laws : StreamLaws (AnyStream F) data any_at.
Proof.
  pose proof (file_stream_laws contents data small) as Hlaws.
  split; intros [s|s] p; cbn -[BufferedInputStream.stream RandomAccessInputStream.stream].
  - apply at_range.
  - apply at_range.
  - apply at_Tell.
  - apply at_Tell.
  - intros n result Hs Hn Hp. destruct (at_Read s p n result Hs Hn Hp) as (s' & -> & Hs'). by exists (FileStream s').
  - intros n result Hs Hn Hp. destruct (at_Read s p n result Hs Hn Hp) as (s' & -> & Hs'). by exists (BufferStream s').
  - intros n Hs Hn Hp. destruct (at_Skip s p n Hs Hn Hp) as (s' & -> & Hs'). by exists (FileStream s').
  - intros n Hs Hn Hp. destruct (at_Skip s p n Hs Hn Hp) as (s' & -> & Hs'). by exists (BufferStream s').
  - intros Hs. destruct (at_Reset s p Hs) as (s' & -> & Hs'). by exists (FileStream s').
  - intros Hs. destruct (at_Reset s p Hs) as (s' & -> & Hs'). by exists (BufferStream s').
Qed.

End Any.

(** A buffer size the stream can be asked for. *)
Definition size_fits (f : F) (buffer_size : Z) : Prop :=
  size (contents f) < 2 ^ 63 - 2 ^ 24 /\ buffer_size < 2 ^ 63 - size (contents f).

Lemma open_at (f : F) (buffer_size : Z) :
  size_fits f buffer_size ->
  reader_at (any_at (contents f)) (RecordReader.open f buffer_size) 0.
Proof.
  intros [Hs Hb]. pose proof (new_file_at contents f) as Hn. unfold RecordReader.open, reader_at.
  destruct (Z.ltb_spec 0 buffer_size); cbn; [|done]. by apply new_buffered_at.
Qed.

(** The records that a sequential reader returns, with the status that ends them. *)
Fixpoint read_records (fuel : nat) (q : SequentialRecordReader.t (AnyStream F)) :
    res fault (list bytes * Status * SequentialRecordReader.t (AnyStream F)) :=
  match fuel with
  | O => Err OutOfFuel
  | S fuel =>
      res_bind (SequentialRecordReader.ReadRecord q []) (fun '(s, record, q) =>
      if ok s then
        res_bind (read_records fuel q) (fun '(records, s, q) => Ok (record :: records, s, q))
      else Ok ([], s, q))
  end.

Lemma read_records_frames (f : F) (ds : list bytes) (i : nat) (r : RecordReader.t (AnyStream F)) (p : Z) :
  size (contents f) < 2 ^ 63 - 2 ^ 24 -> contents f = frames ds -> Forall bytes_ok ds -> (i <= length ds)%nat ->
  reader_at (any_at (contents f)) r p ->
  exists r', read_records (S (length ds - i)) (SequentialRecordReader.mk r (offset_of ds i)) =
    Ok (drop i ds, OutOfRange, SequentialRecordReader.mk r' (size (contents f))).
Proof.
  intros Hs Hf Hok Hi. pose proof (any_stream_laws (contents f) Hs) as Hlaws.
  remember (length ds - i)%nat as k eqn:Hk. revert i Hi Hk r p. induction k as [|k IH]; intros i Hi Hk r p Hr.
  - rewrite offset_of_all, drop_ge by lia. cbn [read_records]. unfold SequentialRecordReader.ReadRecord.
    cbn [SequentialRecordReader.underlying_ SequentialRecordReader.offset_]. rewrite <- Hf.
    destruct (ReadRecord_eof (contents f) _ Hs r p (size (contents f)) [] Hr) as (r' & -> & _);
      [pose proof (size_nonneg (contents f)); lia|unfold kHeaderSize; lia|]. by exists r'.
  - destruct (lookup_lt_is_Some_2 ds i) as [d Hd]; [lia|]. cbn [read_records].
    unfold SequentialRecordReader.ReadRecord at 1.
    cbn [SequentialRecordReader.underlying_ SequentialRecordReader.offset_].
    pose proof (frames_split ds i d Hd) as Hsplit. rewrite <- Hf in Hsplit.
    pose proof (Forall_lookup_1 _ _ _ _ Hok Hd) as Hdok.
    destruct (ReadRecord_frame (contents f) _ Hs r p [] _ d _ Hsplit Hdok Hr) as (r1 & Hread & Hr1 & _).
    change (size (frames (take i ds))) with (offset_of ds i) in Hread, Hr1.
    rewrite <- (frame_size d), <- (offset_of_S ds i d Hd) in Hread, Hr1. rewrite Hread. cbn [res_bind ok].
    destruct (IH (S i) ltac:(lia) ltac:(lia) r1 _ Hr1) as (r2 & Hrest). cbn [read_records] in Hrest. rewrite Hrest.
    cbn [res_bind]. exists r2. by rewrite (drop_S _ _ _ Hd).
Qed.

(** ** Claims *)

(** C29: what was written reads back.  When a [RecordWriter] wrote the records [ds]
    to an empty file and every call returned [OK], a [SequentialRecordReader] over
    a file with those bytes, with a buffer of any size or none, returns exactly
    [ds] in their order and then [OUT_OF_RANGE], at the end of the file. *)
Theorem record_round_trip {W : Type} `{WritableFile W, OutputFile W} (written : W -> bytes)
    `{!AppendingFile W written} (w : W) (ds : list bytes) (w' : RecordWriter.t W) (f : F) (buffer_size : Z) :
  written w = [] -> Forall bytes_ok ds -> write_all (RecordWriter.new w) ds = (OkStatus, w') ->
  option_map written (RecordWriter.dest_ w') = Some (contents f) -> size_fits f buffer_size ->
  exists q, read_records (S (length ds)) (SequentialRecordReader.new (RecordReader.open f buffer_size)) =
      Ok (ds, OutOfRange, q) /\
    SequentialRecordReader.TellOffset q = size (contents f).
Proof.
  intros Hw Hok Hwrite Hf Hfit. destruct (write_all_frames w ds w' Hwrite) as (x & -> & Hx).
  cbn in Hf. injection Hf as Hf. rewrite Hw, Hf in Hx. cbn [app] in Hx.
  destruct (read_records_frames f ds 0 (RecordReader.open f buffer_size) 0) as (r' & Hr);
    [apply Hfit|done|done|lia|by apply open_at|].
  rewrite Nat.sub_0_r in Hr. eexists. split; [exact Hr|]. done.
Qed.

(** The calls a client makes of a reader of the records [ds]: at offsets of records. *)
Inductive reader_step (ds : list bytes) : relation (RecordReader.t (AnyStream F)) :=
| StepRead (r r' : RecordReader.t (AnyStream F)) (i : nat) (s : Status) (o : Z) (before after : bytes) :
    (i <= length ds)%nat ->
    RecordReader.ReadRecord r (offset_of ds i) before = Ok (s, o, after, r') -> reader_step ds r r'
| StepSkip (r r' : RecordReader.t (AnyStream F)) (i : nat) (s : Status) (n o before after : Z) :
    (i <= length ds)%nat -> 0 <= n < 2 ^ 31 ->
    RecordReader.SkipRecords r (offset_of ds i) n before = Ok (s, o, after, r') -> reader_step ds r r'
| StepMetadata (r r' : RecordReader.t (AnyStream F)) (null : bool) (s : Status) (md : option Stats) :
    RecordReader.GetMetadata r null = Ok (s, md, r') -> reader_step ds r r'.

Section Access.
Context (f : F) (ds : list bytes) (Hs : size (contents f) < 2 ^ 63 - 2 ^ 24)
  (Hf : contents f = frames ds) (Hok : Forall bytes_ok ds).

Definition file_stats : Stats := mkStats (size (contents f)) (total ds) (Z.of_nat (length ds)).

(** What holds between calls. *)
Definition reader_inv (r : RecordReader.t (AnyStream F)) : Prop :=
  (exists p, reader_at (any_at (contents f)) r p) /\
  (RecordReader.cached_metadata_ r = None \/ RecordReader.cached_metadata_ r = Some file_stats).

Lemma read_at_record (r : RecordReader.t (AnyStream F)) (i : nat) (before : bytes) :
  reader_inv r -> (i <= length ds)%nat ->
  exists r' x, RecordReader.ReadRecord r (offset_of ds i) before =
      Ok (match ds !! i with Some _ => OkStatus | None => OutOfRange end,
          match ds !! i with Some _ => offset_of ds (S i) | None => offset_of ds i end,
          match ds !! i with Some d => d | None => x end, r') /\ reader_inv r'.
Proof.
  intros [[p Hr] Hc] Hi. pose proof (any_stream_laws (contents f) Hs) as Hlaws.
  destruct (ds !! i) as [d|] eqn:Hd.
  - pose proof (frames_split ds i d Hd) as Hsplit. rewrite <- Hf in Hsplit.
    pose proof (Forall_lookup_1 _ _ _ _ Hok Hd) as Hdok.
    destruct (ReadRecord_frame (contents f) _ Hs r p before _ d _ Hsplit Hdok Hr) as (r1 & Hread & Hr1 & Hc1).
    change (size (frames (take i ds))) with (offset_of ds i) in Hread, Hr1.
    rewrite <- (frame_size d), <- (offset_of_S ds i d Hd) in Hread. exists r1, []. split; [done|].
    split; [by eexists|]. by rewrite Hc1.
  - apply lookup_ge_None in Hd. rewrite (offset_of_all ds i) by lia. rewrite <- Hf.
    destruct (ReadRecord_eof (contents f) _ Hs r p (size (contents f)) before Hr) as (r1 & Hread & Hr1 & Hc1);
      [pose proof (size_nonneg (contents f)); lia|unfold kHeaderSize; lia|].
    eexists _, _. split; [done|]. split; [by eexists|]. by rewrite Hc1.
Qed.

Lemma skip_at_record (r : RecordReader.t (AnyStream F)) (i : nat) (n before : Z) :
  reader_inv r -> (i <= length ds)%nat -> 0 <= n < 2 ^ 31 ->
  let left := Z.of_nat (length ds - i) in
  let m := Z.min n left in
  exists r', RecordReader.SkipRecords r (offset_of ds i) n before =
      Ok (if n <=? left then OkStatus else OutOfRange, offset_of ds (i + Z.to_nat m), m, r') /\ reader_inv r'.
Proof.
  intros [[p Hr] Hc] Hi Hn left m. pose proof (any_stream_laws (contents f) Hs) as Hlaws.
  destruct (SkipRecords_spec (contents f) _ Hs ds Hf r p i n before Hr Hi Hn) as (r' & Hsk & Hr' & Hc').
  exists r'. split; [done|]. split; [by eexists|]. by rewrite Hc'.
Qed.

Lemma metadata_at_record (r : RecordReader.t (AnyStream F)) (null : bool) :
  reader_inv r ->
  exists r', RecordReader.GetMetadata r null =
      Ok (if null then InvalidArgument else OkStatus, if null then None else Some file_stats, r') /\ reader_inv r'.
Proof.
  intros [[p Hr] Hc]. pose proof (any_stream_laws (contents f) Hs) as Hlaws.
  destruct null; [exists r; split; [done|by split; [exists p|]]|]. destruct Hc as [Hc|Hc].
  - destruct (GetMetadata_spec (contents f) _ Hs ds Hf r p Hr Hc) as (r' & Hm & Hr' & Hc').
    exists r'. split; [done|]. split; [by eexists|]. by right.
  - unfold RecordReader.GetMetadata. rewrite Hc. exists r. split; [done|]. split; [by exists p|by right].
Qed.

Lemma reader_steps_inv (r r' : RecordReader.t (AnyStream F)) :
  rtc (reader_step ds) r r' -> reader_inv r -> reader_inv r'.
Proof.
  induction 1 as [|r r1 r' Hstep _ IH]; [done|]. intros Hr. apply IH. clear IH.
  destruct Hstep as [r r1 i s o x y Hi He|r r1 i s n o x y Hi Hn He|r r1 null s md He].
  - destruct (read_at_record r i x Hr Hi) as (r2 & z & He' & Hr2). rewrite He in He'. by injection He' as _ _ _ ->.
  - destruct (skip_at_record r i n x Hr Hi Hn) as (r2 & He' & Hr2). rewrite He in He'. by injection He' as _ _ _ ->.
  - destruct (metadata_at_record r null Hr) as (r2 & He' & Hr2). rewrite He in He'. by injection He' as _ _ ->.
Qed.

End Access.

(** C30: records are reached from everywhere.  Whatever calls a client made of a
    [RecordReader] of a file with the records [ds], buffered or not: [ReadRecord]
    at the offset of a record returns it and the offset of the next one, and at
    the end of the file [OUT_OF_RANGE]; [SkipRecords] moves over as many records
    as asked for, or as there are with [OUT_OF_RANGE]; and [GetMetadata] gives the
    number of the records and the sizes of their data and of the file. *)
Theorem record_access (f : F) (ds : list bytes) (buffer_size : Z) (r : RecordReader.t (AnyStream F)) (before : bytes) :
  contents f = frames ds -> Forall bytes_ok ds -> size_fits f buffer_size ->
  rtc (reader_step ds) (RecordReader.open f buffer_size) r ->
  (forall i d, ds !! i = Some d -> exists r',
     RecordReader.ReadRecord r (offset_of ds i) before = Ok (OkStatus, offset_of ds (S i), d, r')) /\
  (exists r' x, RecordReader.ReadRecord r (size (contents f)) before = Ok (OutOfRange, size (contents f), x, r')) /\
  (forall i n, (i <= length ds)%nat -> 0 <= n < 2 ^ 31 ->
     let left := Z.of_nat (length ds - i) in
     let m := Z.min n left in
     exists r', RecordReader.SkipRecords r (offset_of ds i) n 0 =
       Ok (if n <=? left then OkStatus else OutOfRange, offset_of ds (i + Z.to_nat m), m, r')) /\
  (exists r', RecordReader.GetMetadata r false =
     Ok (OkStatus, Some (mkStats (size (contents f)) (total ds) (Z.of_nat (length ds))), r')).
Proof.
  intros Hf Hok Hfit Hsteps. pose proof Hfit as [Hs _].
  assert (reader_inv f ds r) as Hr.
  { apply (reader_steps_inv f ds Hs Hf Hok _ _ Hsteps). split; [exists 0; by apply open_at|]. left.
    unfold RecordReader.open. by destruct (0 <? buffer_size). }
  split_and!.
  - intros i d Hd. pose proof (lookup_lt_Some _ _ _ Hd).
    destruct (read_at_record f ds Hs Hf Hok r i before Hr ltac:(lia)) as (r' & x & He & _).
    rewrite Hd in He. by exists r'.
  - destruct (read_at_record f ds Hs Hf Hok r (length ds) before Hr ltac:(lia)) as (r' & x & He & _).
    rewrite (offset_of_all ds (length ds)), <- Hf, lookup_ge_None_2 in He by lia. by exists r', x.
  - intros i n Hi Hn left m.
    destruct (skip_at_record f ds Hs Hf r i n 0 Hr Hi Hn) as (r' & He & _). by exists r'.
  - destruct (metadata_at_record f ds Hs Hf r false Hr) as (r' & He & _). by exists r'.
Qed.

(** C31: a damaged record is refused.  When the data of a stored record, or the
    length in its header, was altered inside of a window of 32 bits, [ReadRecord]
    reports the corrupted record, and the offset does not move. *)
Theorem damaged_record_refused (f : F) (buffer_size : Z) (pre good bad post before : bytes) (d s : Z) :
  size_fits f buffer_size -> bytes_ok good -> bytes_ok bad -> length good = length bad ->
  0 < d < 2 ^ 32 -> 0 <= s -> Z.lxor (le_value good) (le_value bad) = Z.shiftl d s ->
  let damaged := bad ++ le_bytes 4 (Crc32c.Mask (Crc32c.Value good)) in
  (contents f = pre ++ (summed (le_bytes 8 (size good)) ++ damaged) ++ post ->
   exists r x, RecordReader.ReadRecord (RecordReader.open f buffer_size) (size pre) before =
     Ok (DataLoss (CorruptedRecord (size pre + kHeaderSize)), size pre, x, r)) /\
  (contents f = pre ++ damaged ++ post -> size bad = 8 ->
   exists r x, RecordReader.ReadRecord (RecordReader.open f buffer_size) (size pre) before =
     Ok (DataLoss (CorruptedRecord (size pre)), size pre, x, r)).
Proof.
  intros Hfit Hgok Hbok Hlen Hd Hs Hx damaged. pose proof Hfit as [Hsz _].
  pose proof (any_stream_laws (contents f) Hsz) as Hlaws. pose proof (open_at f buffer_size Hfit) as Hr.
  set (crc := le_bytes 4 (Crc32c.Mask (Crc32c.Value good))) in *.
  assert (size crc = 4) as Hc4 by apply le_bytes_size. assert (bytes_ok crc) as Hcok by apply le_bytes_ok.
  assert (Crc32c.Unmask (le_value crc) <> Crc32c.Value bad) as Hne.
  { unfold crc. rewrite le_value_bytes by apply Crc32c.Mask_range.
    rewrite Crc32c.Unmask_Mask by by apply Crc32c.Value_u32.
    exact (Crc32c.crc_bytes_burst_value good bad d s Hgok Hbok Hlen Hd Hs Hx). }
  split.
  - intros Hf. unfold damaged in Hf. rewrite <- app_assoc in Hf.
    assert (size good = size bad) as Hsize by (unfold size; lia). rewrite Hsize in Hf.
    destruct (ReadRecord_bad_data (contents f) _ Hsz _ 0 before pre bad crc post Hf Hc4 Hcok Hne Hr) as (r & He & _).
    by exists r, (bad ++ crc).
  - intros Hf H8.
    destruct (ReadRecord_bad_header (contents f) _ Hsz _ 0 before pre bad crc post Hf H8 Hc4 Hcok Hne Hr) as (r & He & _).
    by exists r, (bad ++ crc).
Qed.

(** A file that ends inside of a record.  When it ends after the header of a
    record and before the end of its frame, [ReadRecord] reports the truncated
    record; when it ends inside of the header the loss is not noticed: the call
    returns [OUT_OF_RANGE], as at the end of a complete file. *)
Theorem truncated_record (f : F) (buffer_size : Z) (pre d before : bytes) (k : nat) :
  size_fits f buffer_size -> size pre + size d < 2 ^ 63 - 16 ->
  contents f = pre ++ take k (frame d) -> Z.of_nat k < size (frame d) ->
  exists r x, RecordReader.ReadRecord (RecordReader.open f buffer_size) (size pre) before =
    Ok (if Z.of_nat k <? kHeaderSize then OutOfRange else DataLoss (TruncatedRecord (size pre)), size pre, x, r).
Proof.
  intros Hfit Hmax Hf Hk. pose proof Hfit as [Hsz _].
  pose proof (any_stream_laws (contents f) Hsz) as Hlaws. pose proof (open_at f buffer_size Hfit) as Hr.
  pose proof (size_nonneg pre). assert (size (take k (frame d)) = Z.of_nat k) as Htake.
  { unfold size in *. rewrite length_take. lia. }
  assert (size (contents f) = size pre + Z.of_nat k) as Hsize by (rewrite Hf, size_app; lia).
  rewrite frame_size in Hk. destruct (Z.ltb_spec (Z.of_nat k) kHeaderSize) as [Hlt|Hge].
  - destruct (ReadRecord_eof (contents f) _ Hsz _ 0 (size pre) before Hr) as (r & He & _); [lia|lia|].
    by eexists _, _.
  - set (header := summed (le_bytes 8 (size d))) in *.
    assert (length header = 12%nat) as Hh by (unfold header, summed; by rewrite length_app, !le_bytes_length).
    assert (take k (frame d) = header ++ take (k - 12) (summed d)) as Hcut.
    { unfold frame. fold header. rewrite take_app, Hh, take_ge; [done|]. unfold kHeaderSize in Hge. lia. }
    rewrite Hcut in Hf, Htake.
    destruct (ReadRecord_truncated (contents f) _ Hsz (RecordReader.open f buffer_size) 0 before pre d _ Hf) as (r & x & He & _);
      [|lia|done|by exists r, x].
    rewrite size_app in Htake. unfold size in Htake at 1. rewrite Hh in Htake. unfold kHeaderSize in Hge. lia.
Qed.

End Files.

(** ** A file of records at work *)

Section Sample.
#[local] Instance record_order : ByteOrder := true.
#[local] Instance record_platform : CrcPlatform := Crc32c.software 0.
#[local] Existing Instance string_file.
#[local] Existing Instance memory_writer.

Lemma record_laws : Crc32c.CrcLaws.
Proof. apply Crc32c.software_laws. lia. Qed.

#[local] Instance string_output : OutputFile bytes := {|
  output_Flush := fun w => (OkStatus, w); output_Close := fun w => (OkStatus, w)
|}.

Definition sample_records : list bytes := [[1; 2; 3]; []; [255]].

Definition sample_record_file : bytes := Eval vm_compute in frames sample_records.

Lemma sample_record_file_frames : sample_record_file = frames sample_records.
Proof. vm_compute. reflexivity. Qed.

Lemma sample_records_ok : Forall bytes_ok sample_records.
Proof. vm_compute. repeat constructor; discriminate. Qed.

Lemma sample_record_fits (n : Z) : n < 2 ^ 32 -> size_fits id sample_record_file n.
Proof. intros Hn. change (size_fits id sample_record_file n) with (52 < 2 ^ 63 - 2 ^ 24 /\ n < 2 ^ 63 - 52). lia. Qed.

Lemma record_round_trip_witness :
  exists q, read_records 4 (SequentialRecordReader.new (RecordReader.open sample_record_file 5)) =
      Ok (sample_records, OutOfRange, q) /\ SequentialRecordReader.TellOffset q = 52.
Proof.
  assert (write_all (RecordWriter.new []) sample_records = (OkStatus, RecordWriter.new sample_record_file)) as H1
    by (vm_compute; reflexivity).
  pose proof (record_round_trip (H := record_laws) (ExactFile0 := string_file_exact)
    (AppendingFile0 := memory_writer_appends) id id [] sample_records (RecordWriter.new sample_record_file)
    sample_record_file 5 eq_refl sample_records_ok H1 eq_refl (sample_record_fits 5 ltac:(lia))) as H2.
  exact H2.
Defined.

Lemma record_access_witness :
  exists r', RecordReader.ReadRecord (RecordReader.open sample_record_file 0) 35 [] = Ok (OkStatus, 52, [255], r').
Proof.
  exact (proj1 (record_access (H := record_laws) (ExactFile0 := string_file_exact) id sample_record_file
    sample_records 0 (RecordReader.open sample_record_file 0) [] sample_record_file_frames sample_records_ok
    (sample_record_fits 0 ltac:(lia)) (rtc_refl _ _)) 2%nat [255] eq_refl).
Defined.

Definition damaged_file : bytes := Eval vm_compute in
  [] ++ (summed (le_bytes 8 (size [1; 2; 3])) ++
    ([1; 2; 7] ++ le_bytes 4 (Crc32c.Mask (Crc32c.Value [1; 2; 3])))) ++ [].

Lemma damaged_record_refused_witness :
  exists r x, RecordReader.ReadRecord (RecordReader.open damaged_file 0) 0 [] =
    Ok (DataLoss (CorruptedRecord 12), 0, x, r).
Proof.
  assert (bytes_ok [1; 2; 3]) as H1 by (vm_compute; repeat constructor; discriminate).
  assert (bytes_ok [1; 2; 7]) as H2 by (vm_compute; repeat constructor; discriminate).
  assert (size_fits id damaged_file 0) as H3 by (split; vm_compute; reflexivity).
  assert (id damaged_file = [] ++ (summed (le_bytes 8 (size [1; 2; 3])) ++
    ([1; 2; 7] ++ le_bytes 4 (Crc32c.Mask (Crc32c.Value [1; 2; 3])))) ++ []) as H4 by (vm_compute; reflexivity).
  assert (Z.lxor (le_value [1; 2; 3]) (le_value [1; 2; 7]) = Z.shiftl 4 16) as H5 by reflexivity.
  pose proof (damaged_record_refused (H := record_laws) (ExactFile0 := string_file_exact) id damaged_file 0
    [] [1; 2; 3] [1; 2; 7] [] [] 4 16 H3 H1 H2 eq_refl ltac:(lia) ltac:(lia) H5) as [H6 _].
  exact (H6 H4).
Defined.

Definition cut_file : bytes := Eval vm_compute in frame [9] ++ take 5 (frame [1; 2; 3]).

Lemma truncated_record_witness :
  exists r x, RecordReader.ReadRecord (RecordReader.open cut_file 0) 17 [] = Ok (OutOfRange, 17, x, r).
Proof.
  assert (size_fits id cut_file 0) as H1 by (split; vm_compute; reflexivity).
  assert (size (frame [9]) + size [1; 2; 3] < 2 ^ 63 - 16) as H2 by (vm_compute; reflexivity).
  assert (id cut_file = frame [9] ++ take 5 (frame [1; 2; 3])) as H3 by (vm_compute; reflexivity).
  assert (Z.of_nat 5 < size (frame [1; 2; 3])) as H4 by (vm_compute; reflexivity).
  pose proof (truncated_record (H := record_laws) (ExactFile0 := string_file_exact) id cut_file 0 (frame [9])
    [1; 2; 3] [] 5 H1 H2 H3 H4) as H5.
  change (Z.of_nat 5 <? kHeaderSize) with true in H5. change (size (frame [9])) with 17 in H5. exact H5.
Defined.

(** The metadata of a file that ends inside of a header count it as complete. *)
Example cut_file_metadata :
  match RecordReader.GetMetadata (RecordReader.open cut_file 0) false with
  | Ok (s, md, _) => s = OkStatus /\ md = Some (mkStats 17 1 1)
  | Err _ => False
  end.
Proof. vm_compute. done. Qed.

End Sample.
