(* ===== verification/OrderedCode.v ===== *)
(** Encodings that preserve order.

    [core/lib/strings/ordered_code.cc]: strings, unsigned and signed numbers are
    written such that the bytes compare like the items.  Chars are bytes of 0 to
    255; pointers into a string are what is left of it from there on; a read
    outside of a string is the fault [OutOfBounds].  A result pointer that may be
    null is an [option].  [DCHECK]s, which optimised builds leave out, are not
    modelled.  The theorems show that sequences of items read back,
    that their encodings compare as the items do, and that no encoding is a
    prefix of another one of the same type. *)
From S2P Require Import Prelude Bytes Coding Block.

Module OrderedCode.
Local Open Scope res_scope.

Definition kEscape1 : Z := 0.
Definition kNullCharacter : Z := 255.
Definition kSeparator : Z := 1.
Definition kEscape2 : Z := 255.
Definition kFFCharacter : Z := 0.

Definition kEscape1_Separator : bytes := [kEscape1; kSeparator].

Definition IsSpecialByte (c : Z) : bool := wrap_u8 (c + 1) <? 2.

(** How many bytes [SkipToNextSpecialByte] skips of those before its limit. *)
Fixpoint SkipToNextSpecialByte (l : bytes) : nat :=
  match l with
  | [] => O
  | c :: l' => if IsSpecialByte c then O else S (SkipToNextSpecialByte l')
  end.

(** The loop of [EncodeStringFragment], [copy_start] being [p] at its start. *)
Fixpoint encode_loop (fuel : nat) (dest p : bytes) : res fault bytes :=
  match fuel with
  | O => Err OutOfFuel
  | S fuel =>
      let n := SkipToNextSpecialByte p in
      match drop n p with
      | [] => Ok (dest ++ take n p)
      | c :: p' =>
          if c =? kEscape1 then encode_loop fuel (dest ++ take n p ++ [kEscape1; kNullCharacter]) p'
          else encode_loop fuel (dest ++ take n p ++ [kEscape2; kFFCharacter]) p'
      end
  end.

Definition EncodeStringFragment (dest s : bytes) : res fault bytes := encode_loop (S (length s)) dest s.

Definition WriteString (dest s : bytes) : res fault bytes :=
  let! dest := EncodeStringFragment dest s in Ok (dest ++ kEscape1_Separator).

(** The bytes of a number, the most significant one first, in front of [buf];
    there is room for [room] of them. *)
Fixpoint number_loop (room : nat) (val len : Z) (buf : bytes) : res fault (Z * bytes) :=
  if 0 <? val then
    match room with
    | O => Err OutOfBounds
    | S room => number_loop room (Z.shiftr val 8) (len + 1) (Z.land val 255 :: buf)
    end
  else Ok (len, buf).

Definition WriteNumIncreasing (dest : bytes) (val : Z) : res fault bytes :=
  let! (len, buf) := number_loop 8 val 0 [] in Ok (dest ++ len :: buf).

(** The loop of [ReadStringInternal], [copy_start] being [start] at its start;
    it returns the verdict, what is left of [src] and the result. *)
Fixpoint read_string_loop (fuel : nat) (src start : bytes) (result : option bytes) :
    res fault (bool * bytes * option bytes) :=
  match fuel with
  | O => Err OutOfFuel
  | S fuel =>
      let n := SkipToNextSpecialByte (take (length start - 1) start) in
      match drop n start with
      | c :: next :: start' =>
          let result := option_map (fun r => r ++ take n start) result in
          if c =? kEscape1 then
            if next =? kSeparator then Ok (true, start', result)
            else if next =? kNullCharacter then
              read_string_loop fuel src start' (option_map (fun r => r ++ [0]) result)
            else Ok (false, src, result)
          else if next =? kFFCharacter then
            read_string_loop fuel src start' (option_map (fun r => r ++ [255]) result)
          else Ok (false, src, result)
      | _ => Ok (false, src, result)
      end
  end.

Definition ReadString (src : bytes) (result : option bytes) : res fault (bool * bytes * option bytes) :=
  read_string_loop (S (length src)) src src result.

(** [src[i]]. *)
Definition byte_at (src : list Z) (i : nat) : res fault Z :=
  match src !! i with Some c => Ok c | None => Err OutOfBounds end.

(** [tmp = (tmp << 8) | src[i]] for the next [n] bytes. *)
Fixpoint shift_in (n : nat) (src : bytes) (tmp : Z) : res fault Z :=
  match n with
  | O => Ok tmp
  | S n =>
      let! c := byte_at src 0 in
      shift_in n (drop 1 src) (Z.lor (wrap_u64 (Z.shiftl tmp 8)) c)
  end.

Definition ReadNumIncreasing (src : bytes) (result : option Z) : res fault (bool * bytes * option Z) :=
  match src with
  | [] => Ok (false, src, result)
  | len :: _ =>
      if (size src <? len + 1) || (8 <? len) then Ok (false, src, result)
      else
        let! tmp := shift_in (Z.to_nat len) (drop 1 src) 0 in
        Ok (true, drop (Z.to_nat (len + 1)) src, option_map (fun _ => tmp) result)
  end.

Definition kMaxSigned64Length : nat := 10.

Definition kLengthToHeaderBits : list (Z * Z) :=
  [(0, 0); (0x80, 0); (0xc0, 0); (0xe0, 0); (0xf0, 0); (0xf8, 0); (0xfc, 0); (0xfe, 0);
   (0xff, 0); (0xff, 0x80); (0xff, 0xc0)].

Definition kLengthToMask : list Z :=
  [0; 0x80; 0xc000; 0xe00000; 0xf0000000; 0xf800000000; 0xfc0000000000; 0xfe000000000000;
   0xff00000000000000; 0x8000000000000000; 0].

Definition kBitsToLength : list nat :=
  [1; 1; 1; 1; 1; 1; 1; 2; 2; 2; 2; 2; 2; 2; 3; 3; 3; 3; 3; 3; 3; 4;
   4; 4; 4; 4; 4; 4; 5; 5; 5; 5; 5; 5; 5; 6; 6; 6; 6; 6; 6; 6; 7; 7;
   7; 7; 7; 7; 7; 8; 8; 8; 8; 8; 8; 8; 9; 9; 9; 9; 9; 9; 9; 10]%nat.

(** The portable version, for compilers without [__builtin_clzll]; both compute the
    position of the highest bit ([Log2Floor64_log2]). *)
Fixpoint log2_loop (i : nat) (value log : Z) : Z :=
  let shift := Z.shiftl 1 (Z.of_nat i) in
  let x := Z.shiftr value shift in
  let '(value, log) := if negb (x =? 0) then (x, log + shift) else (value, log) in
  match i with O => log | S i => log2_loop i value log end.

Definition Log2Floor32_Portable (n : Z) : Z := if n =? 0 then -1 else log2_loop 4 n 0.

Definition Log2Floor64 (n : Z) : Z :=
  let topbits := wrap_u32 (Z.shiftr n 32) in
  if topbits =? 0 then Log2Floor32_Portable (wrap_u32 n) else 32 + Log2Floor32_Portable topbits.

(** An entry of a table. *)
Definition table_at {A : Type} (t : list A) (i : Z) : res fault A :=
  if i <? 0 then Err OutOfBounds
  else match t !! Z.to_nat i with Some x => Ok x | None => Err OutOfBounds end.

Definition SignedEncodingLength (n : Z) : res fault nat :=
  table_at kBitsToLength (Log2Floor64 (wrap_u64 (if n <? 0 then Z.lnot n else n)) + 1).

Definition StoreBigEndian64 (v : Z) : bytes :=
  map (fun i => Z.land (Z.shiftr v (56 - 8 * i)) 255) [0; 1; 2; 3; 4; 5; 6; 7].

Definition LoadBigEndian64 (src : bytes) : res fault Z :=
  let! b := Block.read src 0 8 in
  Ok (foldl (fun result '(i, c) => Z.lor result (wrap_u64 (Z.shiftl c (56 - 8 * i)))) 0
        (zip [0; 1; 2; 3; 4; 5; 6; 7] b)).

Definition WriteSignedNumIncreasing (dest : bytes) (val : Z) : res fault bytes :=
  let x := wrap_u64 (if val <? 0 then Z.lnot val else val) in
  if x <? 64 then Ok (dest ++ [wrap_u8 (Z.lxor 0x80 val)])
  else
    let sign_byte := if val <? 0 then 255 else 0 in
    let buf := [sign_byte; sign_byte] ++ StoreBigEndian64 (wrap_u64 val) in
    let! len := SignedEncodingLength (wrap_i64 x) in
    let! header := table_at kLengthToHeaderBits (Z.of_nat len) in
    match drop (kMaxSigned64Length - len) buf with
    | b0 :: b1 :: tail =>
        Ok (dest ++ Z.lxor b0 (fst header) :: Z.lxor b1 (snd header) :: tail)
    | _ => Err OutOfBounds
    end.

(** The length of the encoding at [src] and its unmasked value; [None] when the
    encoding is not one of a number of 64 bits. *)
Definition read_signed_raw (src : bytes) (xor_mask first_byte : Z) : res fault (option (nat * Z)) :=
  if negb (first_byte =? 255) then
    let len := Z.to_nat (7 - Log2Floor64 (Z.lxor first_byte 255)) in
    if size src <? Z.of_nat len then Ok None
    else let! x := shift_in len src xor_mask in Ok (Some (len, x))
  else if size src <? 8 then Ok None
  else
    let! c1 := byte_at src 1 in
    let second_byte := Z.lxor c1 (Z.land xor_mask 255) in
    let! len :=
      if 128 <=? second_byte then
        if second_byte <? 192 then Ok (Some 9%nat)
        else
          let! c2 := byte_at src 2 in
          let third_byte := Z.lxor c2 (Z.land xor_mask 255) in
          if (second_byte =? 192) && (third_byte <? 128) then Ok (Some 10%nat) else Ok None
      else Ok (Some 8%nat) in
    match len with
    | None => Ok None
    | Some len =>
        if size src <? Z.of_nat len then Ok None
        else let! x := LoadBigEndian64 (drop (len - 8) src) in Ok (Some (len, x))
    end.

Definition ReadSignedNumIncreasing (src : bytes) (result : option Z) : res fault (bool * bytes * option Z) :=
  match src with
  | [] => Ok (false, src, result)
  | c0 :: _ =>
      let xor_mask := if Z.land c0 128 =? 0 then u64_max else 0 in
      let first_byte := Z.lxor c0 (Z.land xor_mask 255) in
      let! r := read_signed_raw src xor_mask first_byte in
      match r with
      | None => Ok (false, src, result)
      | Some (len, x) =>
          let! mask := table_at kLengthToMask (Z.of_nat len) in
          let x := Z.lxor x mask in
          Ok (true, drop len src, option_map (fun _ => wrap_i64 x) result)
      end
  end.

End OrderedCode.

Import OrderedCode.

(** ** Strings that differ at a byte *)

(** [a] is below [b] whatever follows them. *)
Definition below (a b : bytes) : Prop :=
  exists p x y a' b', a = p ++ x :: a' /\ b = p ++ y :: b' /\ x < y.

Lemma below_compare (a b : bytes) : below a b -> compare a b = Lt.
Proof.
  intros (p & x & y & a' & b' & -> & -> & Hxy). rewrite compare_app. cbn.
  by rewrite (proj2 (Z.compare_lt_iff x y)).
Qed.

Lemma below_app (a b u v : bytes) : below a b -> below (a ++ u) (b ++ v).
Proof.
  intros (p & x & y & a' & b' & -> & -> & Hxy). exists p, x, y, (a' ++ u), (b' ++ v).
  split_and!; [by rewrite <- app_assoc|by rewrite <- app_assoc|done].
Qed.

Lemma below_prefix (p a b : bytes) : below a b -> below (p ++ a) (p ++ b).
Proof.
  intros (q & x & y & a' & b' & -> & -> & Hxy). exists (p ++ q), x, y, a', b'. by rewrite <- !app_assoc.
Qed.

Lemma below_head (x y : Z) (a b : bytes) : x < y -> below (x :: a) (y :: b).
Proof. intros Hxy. by exists [], x, y, a, b. Qed.

(** ** Big-endian numbers *)

Definition be_bytes (n : nat) (v : Z) : bytes := rev (le_bytes n v).

Lemma be_bytes_length (n : nat) (v : Z) : length (be_bytes n v) = n.
Proof. unfold be_bytes. by rewrite length_rev, le_bytes_length. Qed.

Lemma be_bytes_S (n : nat) (v : Z) : be_bytes (S n) v = be_bytes n (v / 2 ^ 8) ++ [v mod 2 ^ 8].
Proof. done. Qed.

Lemma be_bytes_ok (n : nat) (v : Z) : bytes_ok (be_bytes n v).
Proof. unfold be_bytes, bytes_ok. apply Forall_rev, le_bytes_ok. Qed.

Lemma pow_split (n m : nat) : 2 ^ (8 * Z.of_nat (n + m)) = 2 ^ (8 * Z.of_nat n) * 2 ^ (8 * Z.of_nat m).
Proof. rewrite <- Z.pow_add_r by lia. f_equal. lia. Qed.

Lemma be_bytes_app (n m : nat) (v : Z) :
  be_bytes (n + m) v = be_bytes n (v / 2 ^ (8 * Z.of_nat m)) ++ be_bytes m v.
Proof.
  revert v. induction m as [|m IH]; intros v.
  - rewrite Nat.add_0_r, Z.div_1_r. by rewrite app_nil_r.
  - rewrite Nat.add_succ_r, !be_bytes_S, IH, <- app_assoc. f_equal. f_equal.
    rewrite Z.div_div by lia. f_equal. rewrite <- Z.pow_add_r by lia. f_equal. lia.
Qed.

Lemma be_below (n : nat) (v w : Z) : 0 <= v < w -> w < 2 ^ (8 * Z.of_nat n) -> below (be_bytes n v) (be_bytes n w).
Proof.
  revert v w. induction n as [|n IH]; intros v w Hvw Hw; [cbn in Hw; lia|].
  rewrite !be_bytes_S. pose proof (Z.div_mod v (2 ^ 8)). pose proof (Z.div_mod w (2 ^ 8)).
  pose proof (Z.mod_pos_bound v (2 ^ 8)). pose proof (Z.mod_pos_bound w (2 ^ 8)).
  pose proof (Z.div_le_mono v w (2 ^ 8)). pose proof (Z.div_pos v (2 ^ 8)).
  destruct (Z.eq_dec (v / 2 ^ 8) (w / 2 ^ 8)) as [He|Hne].
  - rewrite He. apply below_prefix, below_head. lia.
  - apply below_app, IH; [lia|]. apply Z.div_lt_upper_bound; [lia|].
    replace (8 * Z.of_nat (S n)) with (8 + 8 * Z.of_nat n) in Hw by lia. by rewrite Z.pow_add_r in Hw by lia.
Qed.

(** Numbers of different lengths compare like their leading bytes. *)
Lemma be_below_longer (n m : nat) (v w : Z) :
  0 <= v < w / 2 ^ (8 * Z.of_nat m) -> w < 2 ^ (8 * Z.of_nat (n + m)) -> below (be_bytes n v) (be_bytes (n + m) w).
Proof.
  intros Hv Hw. rewrite be_bytes_app, <- (app_nil_r (be_bytes n v)). apply below_app, be_below; [done|].
  apply Z.div_lt_upper_bound; [lia|]. by rewrite Z.mul_comm, <- pow_split.
Qed.

Lemma be_longer_below (n m : nat) (v w : Z) :
  0 <= w -> w / 2 ^ (8 * Z.of_nat m) < v -> v < 2 ^ (8 * Z.of_nat n) -> below (be_bytes (n + m) w) (be_bytes n v).
Proof.
  intros Hw Hv Hn. rewrite be_bytes_app, <- (app_nil_r (be_bytes n v)). apply below_app, be_below; [|done].
  split; [|done]. apply Z.div_pos; lia.
Qed.

Lemma lor_byte (x c : Z) : 0 <= x -> in_u8 c -> Z.lor (wrap_u64 (Z.shiftl x 8)) c = wrap_u64 (x * 2 ^ 8 + c).
Proof.
  intros Hx Hc. unfold in_u8 in Hc. rewrite Z.shiftl_mul_pow2 by lia. unfold wrap_u64.
  replace (2 ^ 64) with (2 ^ 56 * 2 ^ 8) by done. rewrite Z.mul_mod_distr_r by lia.
  rewrite Z.lor_comm, <- Z.shiftl_mul_pow2, Coding.lor_shiftl_add by (pose proof (Z.mod_pos_bound x (2 ^ 56)); lia).
  rewrite (Z.mul_comm (2 ^ 56)), Z.rem_mul_r by lia.
  rewrite Z.div_add_l, (Z.div_small c), Z.add_0_r by lia.
  rewrite (Z.add_comm (x * 2 ^ 8)), Z.mod_add, (Z.mod_small c) by lia. lia.
Qed.

(** Only the low bytes count. *)
Lemma le_bytes_low (n : nat) (v : Z) : le_bytes n (v mod 2 ^ (8 * Z.of_nat n)) = le_bytes n v.
Proof.
  revert v. induction n as [|n IH]; intros v; [done|]. cbn [le_bytes].
  replace (8 * Z.of_nat (S n)) with (8 + 8 * Z.of_nat n) by lia. rewrite Z.pow_add_r, Z.rem_mul_r by lia.
  rewrite (Z.mul_comm (2 ^ 8)), Z.div_add, Z.mod_add, Z.mod_mod by lia.
  rewrite (Z.div_small (v mod 2 ^ 8)), Z.add_0_l by (apply Z.mod_pos_bound; lia). by rewrite IH.
Qed.

Lemma be_bytes_low (n : nat) (v : Z) : be_bytes n (v mod 2 ^ (8 * Z.of_nat n)) = be_bytes n v.
Proof. unfold be_bytes. by rewrite le_bytes_low. Qed.

Lemma be_bytes_cons (n : nat) (v : Z) :
  0 <= v < 2 ^ (8 * Z.of_nat (S n)) ->
  be_bytes (S n) v = v / 2 ^ (8 * Z.of_nat n) :: be_bytes n (v mod 2 ^ (8 * Z.of_nat n)) /\
  in_u8 (v / 2 ^ (8 * Z.of_nat n)).
Proof.
  intros Hv. replace (8 * Z.of_nat (S n)) with (8 * Z.of_nat n + 8) in Hv by lia. rewrite Z.pow_add_r in Hv by lia.
  assert (in_u8 (v / 2 ^ (8 * Z.of_nat n))) as Hc.
  { split; [apply Z.div_pos; lia|]. apply Z.div_lt_upper_bound; lia. }
  split; [|done]. change (S n) with (1 + n)%nat. rewrite be_bytes_app, be_bytes_low. cbn.
  by rewrite Z.mod_small by apply Hc.
Qed.

Lemma wrap_u64_shift (a k b : Z) : 0 <= k -> wrap_u64 (wrap_u64 a * k + b) = wrap_u64 (a * k + b).
Proof.
  intros Hk. unfold wrap_u64. rewrite Z.add_mod, Z.mul_mod_idemp_l by lia. by rewrite <- Z.add_mod by lia.
Qed.

Lemma wrap_u64_mod (a : Z) : 0 <= wrap_u64 a.
Proof. apply Z.mod_pos_bound. lia. Qed.

Lemma shift_in_spec (n : nat) (v tmp : Z) (rest : bytes) :
  0 <= tmp < 2 ^ 64 -> 0 <= v < 2 ^ (8 * Z.of_nat n) ->
  shift_in n (be_bytes n v ++ rest) tmp = Ok (wrap_u64 (tmp * 2 ^ (8 * Z.of_nat n) + v)).
Proof.
  revert v tmp. induction n as [|n IH]; intros v tmp Ht Hv.
  - cbn. f_equal. unfold wrap_u64. rewrite Z.mod_small; [lia|]. cbn in Hv. lia.
  - destruct (be_bytes_cons n v Hv) as [-> Hc]. cbn [shift_in app].
    change (byte_at (?c :: ?l) 0) with (@Ok fault Z c). cbn [res_bind skipn].
    rewrite lor_byte by (done || lia). rewrite drop_0, IH; [|apply wrap_u64_range|apply Z.mod_pos_bound; lia].
    f_equal. rewrite wrap_u64_shift by lia. f_equal.
    rewrite Z.mul_add_distr_r, <- Z.mul_assoc, <- Z.pow_add_r by lia.
    pose proof (Z.div_mod v (2 ^ (8 * Z.of_nat n))). replace (8 + 8 * Z.of_nat n) with (8 * Z.of_nat (S n)) by lia. lia.
Qed.

(** ** Strings *)

(** The encoding of a char, and of a string. *)
Definition escape (c : Z) : bytes :=
  if c =? 0 then [0; 255] else if c =? 255 then [255; 0] else [c].

Definition string_code (s : bytes) : bytes := flat_map escape s ++ [0; 1].

Lemma special_cases (c : Z) : in_u8 c -> IsSpecialByte c = (c =? 0) || (c =? 255).
Proof.
  intros Hc. apply (Coding.u8_forall (fun c => Bool.eqb (IsSpecialByte c) ((c =? 0) || (c =? 255))) c eq_refl) in Hc.
  by apply eqb_prop.
Qed.

Definition plain (l : bytes) : Prop := Forall (fun c => IsSpecialByte c = false) l.

(** The bytes before the first special one. *)
Lemma skip_special (l : bytes) :
  plain (take (SkipToNextSpecialByte l) l) /\
  match drop (SkipToNextSpecialByte l) l with [] => True | c :: _ => IsSpecialByte c = true end.
Proof.
  induction l as [|c l [Hp Hd]]; [by split; [constructor|]|]. cbn [SkipToNextSpecialByte].
  destruct (IsSpecialByte c) eqn:Hc; [by split; [constructor|]|]. split; [by constructor|done].
Qed.

Lemma skip_plain (l : bytes) (c : Z) (r : bytes) :
  plain l -> IsSpecialByte c = true -> SkipToNextSpecialByte (l ++ c :: r) = length l.
Proof. intros Hl Hc. induction Hl as [|x l Hx Hl IH]; cbn; [by rewrite Hc|]. by rewrite Hx, IH. Qed.

Lemma escape_plain (l : bytes) : bytes_ok l -> plain l -> flat_map escape l = l.
Proof.
  intros Hok Hl. induction Hl as [|x l Hx Hl IH]; [done|]. apply Forall_cons in Hok as [Hx' Hok]. cbn.
  rewrite special_cases in Hx by done. apply orb_false_iff in Hx as [H0 H255]. unfold escape at 1.
  rewrite H0, H255. cbn. by rewrite IH.
Qed.

Lemma escape_special (c : Z) :
  in_u8 c -> IsSpecialByte c = true -> (c = 0 /\ escape c = [0; 255]) \/ (c = 255 /\ escape c = [255; 0]).
Proof.
  intros Hc. rewrite special_cases by done. intros [H%Z.eqb_eq|H%Z.eqb_eq]%orb_prop; subst; auto.
Qed.

Lemma encode_loop_spec (fuel : nat) (dest p : bytes) :
  bytes_ok p -> (length p < fuel)%nat -> encode_loop fuel dest p = Ok (dest ++ flat_map escape p).
Proof.
  revert dest p. induction fuel as [|fuel IH]; intros dest p Hok Hf; [lia|]. cbn [encode_loop].
  pose proof (skip_special p) as Hs. set (n := SkipToNextSpecialByte p) in *. destruct Hs as [Hpl Hd].
  pose proof (take_drop n p) as Htd. set (a := take n p) in *.
  destruct (drop n p) as [|c p'] eqn:Hdrop.
  - rewrite app_nil_r in Htd. rewrite Htd in *. by rewrite escape_plain.
  - rewrite <- Htd in Hok |- *. apply bytes_ok_app in Hok as [Ha [Hc Hp']%Forall_cons].
    assert (length p' < fuel)%nat as Hf' by (rewrite <- Htd, length_app, length_cons in Hf; lia).
    rewrite flat_map_app, escape_plain by done. cbn [flat_map].
    destruct (escape_special c Hc Hd) as [[-> Hesc]|[-> Hesc]]; rewrite Hesc; cbn [Z.eqb kEscape1];
      rewrite IH by done; by rewrite <- !app_assoc.
Qed.

Lemma WriteString_spec (dest s : bytes) : bytes_ok s -> WriteString dest s = Ok (dest ++ string_code s).
Proof.
  intros Hs. unfold WriteString, EncodeStringFragment. rewrite encode_loop_spec by (done || lia). cbn.
  by rewrite <- app_assoc.
Qed.

(** A string up to its first special byte. *)
Lemma plain_split (s : bytes) :
  plain s \/ exists a c s', s = a ++ c :: s' /\ plain a /\ IsSpecialByte c = true.
Proof.
  destruct (skip_special s) as [Hp Hd]. set (n := SkipToNextSpecialByte s) in *.
  destruct (drop n s) as [|c s'] eqn:Hdrop.
  - left. rewrite <- (take_drop n s), Hdrop, app_nil_r. done.
  - right. exists (take n s), c, s'. split; [|done]. rewrite <- Hdrop. by rewrite take_drop.
Qed.

(** One round of the reader: it stops at the first special byte. *)
Lemma read_round (a : bytes) (c next : Z) (r : bytes) :
  plain a -> IsSpecialByte c = true ->
  let start := a ++ c :: next :: r in
  let n := SkipToNextSpecialByte (take (length start - 1) start) in
  drop n start = c :: next :: r /\ take n start = a.
Proof.
  intros Ha Hc start n.
  assert (n = length a) as Hn.
  { unfold n, start. rewrite length_app. cbn [length].
    replace (length a + S (S (length r)) - 1)%nat with (length a + S (length r))%nat by lia.
    rewrite firstn_app_2. cbn [firstn]. by apply skip_plain. }
  rewrite Hn. unfold start. by rewrite drop_app_length, take_app_length.
Qed.

Lemma read_string_loop_spec (fuel : nat) (src s rest : bytes) (result : option bytes) :
  bytes_ok s -> (length s < fuel)%nat ->
  read_string_loop fuel src (string_code s ++ rest) result =
  Ok (true, rest, option_map (fun r => r ++ s) result).
Proof.
  revert s result. induction fuel as [|fuel IH]; intros s result Hok Hf; [lia|].
  unfold string_code. rewrite <- app_assoc. destruct (plain_split s) as [Hp|(a & c & s' & -> & Ha & Hc)].
  - rewrite escape_plain by done. cbn [app]. cbn [read_string_loop].
    destruct (read_round s 0 1 rest Hp eq_refl) as [-> ->]. cbn. done.
  - apply bytes_ok_app in Hok as [Hoka [Hcok Hok']%Forall_cons].
    rewrite length_app, length_cons in Hf. rewrite flat_map_app, escape_plain by done. cbn [flat_map].
    destruct (escape_special c Hcok Hc) as [[-> ->]|[-> ->]]; rewrite <- !app_assoc; cbn [app];
      cbn [read_string_loop].
    + destruct (read_round a 0 255 (flat_map escape s' ++ 0 :: 1 :: rest) Ha eq_refl) as [-> ->].
      cbn [Z.eqb kEscape1 kSeparator kNullCharacter].
      specialize (IH s' (option_map (fun r => r ++ [0]) (option_map (fun r => r ++ a) result)) Hok' ltac:(lia)).
      unfold string_code in IH. rewrite <- app_assoc in IH. cbn [app] in IH. rewrite IH.
      destruct result; cbn; [|done]. by rewrite <- !app_assoc.
    + destruct (read_round a 255 0 (flat_map escape s' ++ 0 :: 1 :: rest) Ha eq_refl) as [-> ->].
      cbn [Z.eqb kEscape1 kSeparator kFFCharacter].
      specialize (IH s' (option_map (fun r => r ++ [255]) (option_map (fun r => r ++ a) result)) Hok' ltac:(lia)).
      unfold string_code in IH. rewrite <- app_assoc in IH. cbn [app] in IH. rewrite IH.
      destruct result; cbn; [|done]. by rewrite <- !app_assoc.
Qed.

Lemma string_code_length (s : bytes) : (length s < length (string_code s))%nat.
Proof.
  unfold string_code. rewrite length_app. cbn [length].
  assert (length s <= length (flat_map escape s))%nat; [|lia].
  induction s as [|c s IH]; cbn; [lia|]. rewrite length_app. unfold escape at 1.
  repeat case_if; cbn [length]; lia.
Qed.

Lemma ReadString_spec (s rest : bytes) (result : option bytes) :
  bytes_ok s -> ReadString (string_code s ++ rest) result = Ok (true, rest, option_map (fun r => r ++ s) result).
Proof.
  intros Hs. apply read_string_loop_spec; [done|]. rewrite length_app. pose proof (string_code_length s). lia.
Qed.

(** The separator is below every encoded char, and these keep their order. *)
Lemma escape_below (c d : Z) (u v : bytes) : in_u8 c -> in_u8 d -> c < d -> below (escape c ++ u) (escape d ++ v).
Proof.
  intros Hc Hd Hcd. unfold in_u8, escape in *.
  destruct (Z.eqb_spec c 0), (Z.eqb_spec d 0), (Z.eqb_spec c 255), (Z.eqb_spec d 255); try lia;
    apply below_head; lia.
Qed.

Lemma separator_below (c : Z) (u v : bytes) : in_u8 c -> below (0 :: 1 :: u) (escape c ++ v).
Proof.
  intros Hc. unfold in_u8, escape in *. destruct (Z.eqb_spec c 0); [|destruct (Z.eqb_spec c 255)].
  - exists [0], 1, 255, u, v. split_and!; done || lia.
  - apply below_head. lia.
  - apply below_head. lia.
Qed.

Lemma string_code_below (s t : bytes) :
  bytes_ok s -> bytes_ok t -> compare s t = Lt -> below (string_code s) (string_code t).
Proof.
  unfold string_code. revert t. induction s as [|c s IH]; intros [|d t] Hs Ht Hlt; try done.
  - apply Forall_cons in Ht as [Hd _]. cbn [flat_map app]. rewrite <- app_assoc. by apply separator_below.
  - apply Forall_cons in Hs as [Hc Hs], Ht as [Hd Ht]. cbn in Hlt. cbn [flat_map]. rewrite <- !app_assoc.
    destruct (Z.compare_spec c d) as [->|Hcd|Hcd]; [|by apply escape_below|done].
    apply below_prefix. by apply IH.
Qed.

(** ** Unsigned numbers *)

Lemma number_loop_spec (room : nat) (val len : Z) (buf : bytes) :
  0 <= val < 2 ^ (8 * Z.of_nat room) ->
  exists n : nat, number_loop room val len buf = Ok (len + Z.of_nat n, be_bytes n val ++ buf) /\ (n <= room)%nat /\
    val < 2 ^ (8 * Z.of_nat n) /\ (n = O \/ 2 ^ (8 * (Z.of_nat n - 1)) <= val).
Proof.
  revert val len buf. induction room as [|room IH]; intros val len buf Hv.
  - exists O. cbn in Hv. assert (val = 0) as -> by lia. cbn. rewrite Z.add_0_r. split_and!; auto; lia.
  - cbn [number_loop]. destruct (Z.ltb_spec 0 val) as [Hpos|Hpos].
    + rewrite Z.shiftr_div_pow2 by lia. change (Z.land val 255) with (Z.land val (Z.ones 8)). rewrite Z.land_ones by lia.
      replace (8 * Z.of_nat (S room)) with (8 + 8 * Z.of_nat room) in Hv by lia. rewrite Z.pow_add_r in Hv by lia.
      destruct (IH (val / 2 ^ 8) (len + 1) (val mod 2 ^ 8 :: buf)) as (n & -> & Hn & Hlt & Hmin).
      { split; [apply Z.div_pos; lia|]. apply Z.div_lt_upper_bound; lia. }
      exists (S n). rewrite be_bytes_S, <- app_assoc. cbn [app]. pose proof (Z.div_mod val (2 ^ 8)).
      pose proof (Z.mod_pos_bound val (2 ^ 8)).
      split_and!; [by replace (len + 1 + Z.of_nat n) with (len + Z.of_nat (S n)) by lia|lia| |right].
      * replace (8 * Z.of_nat (S n)) with (8 + 8 * Z.of_nat n) by lia. rewrite Z.pow_add_r by lia. lia.
      * destruct Hmin as [->|Hmin]; [cbn; lia|].
        replace (8 * (Z.of_nat (S n) - 1)) with (8 + 8 * (Z.of_nat n - 1)) by lia.
        destruct n as [|n]; [cbn in Hlt |- *; lia|]. rewrite Z.pow_add_r by lia. lia.
    + exists O. assert (val = 0) as -> by lia. cbn. rewrite Z.add_0_r. split_and!; auto; lia.
Qed.

Lemma WriteNum_spec (dest : bytes) (val : Z) :
  in_u64 val ->
  exists n : nat, WriteNumIncreasing dest val = Ok (dest ++ Z.of_nat n :: be_bytes n val) /\ (n <= 8)%nat /\
    val < 2 ^ (8 * Z.of_nat n) /\ (n = O \/ 2 ^ (8 * (Z.of_nat n - 1)) <= val).
Proof.
  intros Hv. destruct (number_loop_spec 8 val 0 []) as (n & Hn & ?); [unfold in_u64 in Hv; done|].
  exists n. split; [|done]. unfold WriteNumIncreasing. rewrite Hn. cbn. by rewrite app_nil_r.
Qed.

Lemma ReadNum_spec (n : nat) (val : Z) (rest : bytes) (result : option Z) :
  (n <= 8)%nat -> 0 <= val < 2 ^ (8 * Z.of_nat n) -> in_u64 val ->
  ReadNumIncreasing ((Z.of_nat n :: be_bytes n val) ++ rest) result = Ok (true, rest, option_map (fun _ => val) result).
Proof.
  intros Hn Hv Hu. unfold ReadNumIncreasing. cbn [app].
  rewrite size_cons, size_app. unfold size at 1. rewrite be_bytes_length. pose proof (size_nonneg rest).
  rewrite (proj2 (Z.ltb_ge _ (Z.of_nat n + 1))), (proj2 (Z.ltb_ge 8 _)) by lia. cbn [orb skipn].
  rewrite Nat2Z.id, drop_0, shift_in_spec by (done || lia). cbn [res_bind]. rewrite Z.mul_0_l, Z.add_0_l.
  unfold wrap_u64. rewrite Z.mod_small by done. do 3 f_equal.
  replace (Z.to_nat (Z.of_nat n + 1)) with (S n) by lia. cbn [skipn].
  apply drop_app_length'. by rewrite be_bytes_length.
Qed.

(** Shorter numbers are smaller, and numbers of one length keep their order. *)
Lemma num_code_below (v w : Z) (n m : nat) :
  0 <= v < w -> v < 2 ^ (8 * Z.of_nat n) -> w < 2 ^ (8 * Z.of_nat m) -> n = O \/ 2 ^ (8 * (Z.of_nat n - 1)) <= v ->
  below (Z.of_nat n :: be_bytes n v) (Z.of_nat m :: be_bytes m w).
Proof.
  intros Hvw Hv Hw Hn. destruct (Nat.lt_trichotomy n m) as [Hl|[->|Hg]].
  - apply below_head. lia.
  - apply (below_prefix [Z.of_nat m]). by apply be_below.
  - destruct Hn as [->|Hn]; [lia|].
    assert (2 ^ (8 * Z.of_nat m) <= 2 ^ (8 * (Z.of_nat n - 1))) by (apply Z.pow_le_mono_r; lia). lia.
Qed.

(** ** Signed numbers *)

Lemma log2_loop_value (i : nat) (value log : Z) :
  0 < value < 2 ^ 2 ^ (Z.of_nat i + 1) -> OrderedCode.log2_loop i value log = log + Z.log2 value.
Proof.
  revert value log. induction i as [|i IH]; intros value log Hv.
  - cbn in Hv. assert (value = 1 \/ value = 2 \/ value = 3) as [->|[->| ->]] by lia; lazy -[Z.add]; lia.
  - cbn [OrderedCode.log2_loop]. rewrite Z.shiftl_1_l. set (k := 2 ^ Z.of_nat (S i)) in *.
    assert (2 ^ (Z.of_nat (S i) + 1) = k + k) as Hk by (unfold k; rewrite Z.pow_add_r by lia; lia).
    assert (k = 2 ^ (Z.of_nat i + 1)) as Hk' by (unfold k; f_equal; lia).
    assert (0 < k) by (unfold k; lia). rewrite Hk, Z.pow_add_r in Hv by lia.
    destruct (Z.eqb_spec (Z.shiftr value k) 0) as [Hx|Hx]; cbn [negb].
    + apply Z.shiftr_eq_0_iff in Hx as [Hx|[_ Hx]]; [lia|]. rewrite IH; [done|]. rewrite <- Hk'.
      split; [lia|]. apply Z.log2_lt_pow2; lia.
    + rewrite IH.
      * rewrite Z.log2_shiftr by lia. rewrite Z.max_r; [lia|].
        destruct (Z.lt_ge_cases (Z.log2 value) k) as [Hl|Hl]; [|lia]. destruct Hx. apply Z.shiftr_eq_0; lia.
      * rewrite <- Hk'. rewrite Z.shiftr_div_pow2 in * by lia.
        pose proof (Z.div_pos value (2 ^ k)). split; [lia|]. apply Z.div_lt_upper_bound; lia.
Qed.

Lemma Log2Floor64_log2 (n : Z) : 0 < n < 2 ^ 64 -> Log2Floor64 n = Z.log2 n.
Proof.
  intros Hn. unfold Log2Floor64, Log2Floor32_Portable. rewrite Z.shiftr_div_pow2 by lia.
  assert (0 <= n / 2 ^ 32 < 2 ^ 32) as Hd.
  { split; [apply Z.div_pos; lia|]. apply Z.div_lt_upper_bound; lia. }
  rewrite (wrap_u32_id (n / 2 ^ 32)) by done. destruct (Z.eqb_spec (n / 2 ^ 32) 0) as [H0|H0].
  - assert (n < 2 ^ 32) by (pose proof (Z.div_mod n (2 ^ 32)); pose proof (Z.mod_pos_bound n (2 ^ 32)); lia).
    rewrite wrap_u32_id by (unfold in_u32; lia). rewrite (proj2 (Z.eqb_neq n 0)) by lia.
    rewrite log2_loop_value; [done|]. cbn. lia.
  - rewrite log2_loop_value by (cbn; lia). rewrite <- Z.shiftr_div_pow2, Z.log2_shiftr by lia.
    rewrite Z.max_r; [lia|].
    assert (2 ^ 32 <= n) by (pose proof (Z.div_small n (2 ^ 32)); lia).
    pose proof (proj1 (Z.log2_le_pow2 n 32 ltac:(lia))). lia.
Qed.

(** The number whose bits above its sign a code has. *)
Definition magnitude (val : Z) : Z := if val <? 0 then Z.lnot val else val.

Lemma magnitude_range (val : Z) : in_i64 val -> 0 <= magnitude val < 2 ^ 63.
Proof. unfold in_i64, magnitude. intros Hv. destruct (Z.ltb_spec val 0); unfold Z.lnot; lia. Qed.

(** [len] bytes hold the magnitude, and no fewer do. *)
Definition fits (len : nat) (x : Z) : Prop :=
  (1 <= len <= 10)%nat /\ x < 2 ^ (7 * Z.of_nat len - 1) /\ (len = 1%nat \/ 2 ^ (7 * Z.of_nat len - 8) <= x).

Lemma kBitsToLength_fits (bits : nat) (len : nat) :
  kBitsToLength !! bits = Some len ->
  (1 <= len <= 10)%nat /\ Z.of_nat bits <= 7 * Z.of_nat len - 1 /\ (len = 1%nat \/ 7 * Z.of_nat len - 8 < Z.of_nat bits).
Proof.
  intros Hl. assert (forallb (fun '(i, l) => (1 <=? Z.of_nat l) && (Z.of_nat l <=? 10) && (Z.of_nat i <=? 7 * Z.of_nat l - 1) &&
    ((Z.of_nat l =? 1) || (7 * Z.of_nat l - 8 <? Z.of_nat i))) (zip (seq 0 64) kBitsToLength) = true) as Hall by reflexivity.
  rewrite forallb_forall in Hall.
  assert ((bits, len) ∈ zip (seq 0 64) kBitsToLength) as Hin.
  { apply list_elem_of_lookup. exists bits. apply lookup_zip_with_Some. exists bits, len. split_and!; [done| |done].
    apply lookup_seq. pose proof (lookup_lt_Some _ _ _ Hl) as Hb. cbn in Hb. lia. }
  apply list_elem_of_In, Hall in Hin. lia.
Qed.

Lemma SignedEncodingLength_fits (x : Z) :
  0 <= x < 2 ^ 63 -> exists len, SignedEncodingLength x = Ok len /\ fits len x.
Proof.
  intros Hx. unfold SignedEncodingLength. rewrite (proj2 (Z.ltb_ge x 0)) by lia.
  unfold wrap_u64. rewrite Z.mod_small by lia.
  assert (exists b : nat, Log2Floor64 x + 1 = Z.of_nat b /\ (b < 64)%nat /\ x < 2 ^ Z.of_nat b /\
    (b = O \/ 2 ^ (Z.of_nat b - 1) <= x)) as (b & Hb & Hlt & Hup & Hlow).
  { destruct (Z.eq_dec x 0) as [->|Hne]; [exists O; cbn; split_and!; auto; lia|].
    pose proof (Z.log2_nonneg x). pose proof (Z.log2_spec x) as Hs. rewrite Log2Floor64_log2 by lia.
    exists (Z.to_nat (Z.log2 x + 1)). rewrite Z2Nat.id by lia.
    assert (Z.log2 x < 63) by (apply Z.log2_lt_pow2; lia).
    split_and!; [done|lia| |right]; [apply Hs; lia|].
    replace (Z.log2 x + 1 - 1) with (Z.log2 x) by lia. apply Hs. lia. }
  rewrite Hb. unfold table_at. rewrite (proj2 (Z.ltb_ge (Z.of_nat b) 0)), Nat2Z.id by lia.
  destruct (lookup_lt_is_Some_2 kBitsToLength b) as [len Hl]; [cbn; lia|]. rewrite Hl. exists len. split; [done|].
  destruct (kBitsToLength_fits b len Hl) as (Hlen & Hhi & Hlo). split; [done|split].
  - eapply Z.lt_le_trans; [done|]. apply Z.pow_le_mono_r; lia.
  - destruct (decide (len = 1%nat)) as [|Hne]; [by left|right]. destruct Hlow as [->|Hlow]; [lia|].
    etransitivity; [|done]. apply Z.pow_le_mono_r; lia.
Qed.

(** Two's complement bytes of exclusive ors. *)
Lemma lxor_mod (a b n : Z) : 0 <= n -> Z.lxor a b mod 2 ^ n = Z.lxor (a mod 2 ^ n) (b mod 2 ^ n).
Proof.
  intros Hn. apply Z.bits_inj'. intros i Hi. rewrite Z.lxor_spec. destruct (Z.lt_ge_cases i n).
  - rewrite !Z.mod_pow2_bits_low by lia. apply Z.lxor_spec.
  - by rewrite !Z.mod_pow2_bits_high by lia.
Qed.

Lemma be_bytes_lxor (n : nat) (a b : Z) :
  be_bytes n (Z.lxor a b) = zip_with Z.lxor (be_bytes n a) (be_bytes n b).
Proof.
  revert a b. induction n as [|n IH]; intros a b; [done|]. rewrite !be_bytes_S.
  rewrite zip_with_app by (by rewrite !be_bytes_length). cbn [zip_with].
  rewrite lxor_mod by lia. f_equal. rewrite <- !Z.shiftr_div_pow2 by lia. by rewrite Z.shiftr_lxor, IH.
Qed.

Lemma be_bytes_map (n : nat) (v : Z) :
  be_bytes n v = map (fun i => (v / 2 ^ (8 * Z.of_nat (n - 1 - i))) mod 2 ^ 8) (seq 0 n).
Proof.
  revert v. induction n as [|n IH]; intros v; [done|]. rewrite be_bytes_S, IH, seq_S, map_app. f_equal.
  - apply map_ext_in. intros i Hi%list_elem_of_In%elem_of_seq. rewrite Z.div_div by lia.
    rewrite <- Z.pow_add_r by lia. do 3 f_equal. lia.
  - cbn. replace (n - 0 - n)%nat with O by lia. by rewrite Z.div_1_r.
Qed.

Lemma StoreBigEndian64_be (v : Z) : StoreBigEndian64 (wrap_u64 v) = be_bytes 8 v.
Proof.
  rewrite <- be_bytes_low. change (v mod 2 ^ (8 * Z.of_nat 8)) with (wrap_u64 v). rewrite be_bytes_map.
  unfold StoreBigEndian64. cbn [map seq]. change 255 with (Z.ones 8).
  repeat (rewrite Z.land_ones, Z.shiftr_div_pow2 by lia). done.
Qed.

(** The bytes of a sign. *)
Lemma be_bytes_zero (n : nat) : be_bytes n 0 = replicate n 0.
Proof.
  induction n as [|n IH]; [done|]. rewrite be_bytes_S. change (0 / 2 ^ 8) with 0. rewrite IH.
  by rewrite replicate_S_end.
Qed.

Lemma be_bytes_ones (n : nat) : be_bytes n (-1) = replicate n 255.
Proof.
  induction n as [|n IH]; [done|]. rewrite be_bytes_S. change (-1 / 2 ^ 8) with (-1). rewrite IH.
  by rewrite replicate_S_end.
Qed.

Definition sign_of (val : Z) : Z := if val <? 0 then -1 else 0.

Lemma sign_magnitude (val : Z) : val = Z.lxor (sign_of val) (magnitude val).
Proof.
  unfold sign_of, magnitude. destruct (val <? 0); [|done].
  by rewrite Z.lxor_m1_l, Z.lnot_involutive.
Qed.

(** The bits that say the length: [len] ones in front of [len] bytes. *)
Definition header_bits (len : nat) : Z := 2 ^ (8 * Z.of_nat len) - 2 ^ (7 * Z.of_nat len).

Definition signed_code (len : nat) (val : Z) : bytes := be_bytes len (Z.lxor val (header_bits len)).

(** The magnitude with its header. *)
Definition framed (len : nat) (x : Z) : Z := header_bits len + x.

Lemma lxor_header (len : nat) (x : Z) : 0 <= x < 2 ^ (7 * Z.of_nat len) -> Z.lxor x (header_bits len) = framed len x.
Proof.
  intros Hx. unfold framed, header_bits.
  replace (2 ^ (8 * Z.of_nat len) - 2 ^ (7 * Z.of_nat len)) with ((2 ^ Z.of_nat len - 1) * 2 ^ (7 * Z.of_nat len))
    by (rewrite Z.mul_sub_distr_r, <- Z.pow_add_r by lia; do 2 f_equal; lia).
  rewrite <- Z.shiftl_mul_pow2 by lia. rewrite Z.add_comm. symmetry. apply Z.add_nocarry_lxor.
  apply Z.bits_inj'. intros i Hi. rewrite Z.land_spec, Z.bits_0. destruct (Z.ltb_spec i (7 * Z.of_nat len)).
  - by rewrite Z.shiftl_spec_low, andb_false_r by lia.
  - rewrite <- (Z.mod_small x (2 ^ (7 * Z.of_nat len))) by lia. by rewrite Z.mod_pow2_bits_high by lia.
Qed.

Lemma fits_pow (len : nat) (x : Z) : fits len x -> x < 2 ^ (7 * Z.of_nat len).
Proof.
  intros (Hl & Hx & _). eapply Z.lt_le_trans; [done|]. apply Z.pow_le_mono_r; lia.
Qed.

Lemma signed_code_lxor (len : nat) (val : Z) :
  fits len (magnitude val) -> 0 <= magnitude val ->
  Z.lxor val (header_bits len) = Z.lxor (sign_of val) (framed len (magnitude val)).
Proof.
  intros Hf Hm. rewrite (sign_magnitude val) at 1. rewrite Z.lxor_assoc, lxor_header; [done|].
  split; [done|]. by apply fits_pow.
Qed.

(** The code of a number as bytes of a non-negative one. *)
Definition code_value (len : nat) (val : Z) : Z :=
  if val <? 0 then 2 ^ (7 * Z.of_nat len) + val else header_bits len + val.

Lemma header_bits_range (len : nat) : 0 <= header_bits len /\ header_bits len + 2 ^ (7 * Z.of_nat len) = 2 ^ (8 * Z.of_nat len).
Proof.
  unfold header_bits. pose proof (Z.pow_le_mono_r 2 (7 * Z.of_nat len) (8 * Z.of_nat len)). lia.
Qed.

Lemma code_value_range (len : nat) (val : Z) :
  fits len (magnitude val) -> 0 <= code_value len val < 2 ^ (8 * Z.of_nat len).
Proof.
  intros Hf%fits_pow. pose proof (header_bits_range len) as [H0 H1].
  pose proof (Z.pow_le_mono_r 2 (7 * Z.of_nat len) (8 * Z.of_nat len)).
  unfold code_value, magnitude, Z.lnot in *. destruct (Z.ltb_spec val 0); lia.
Qed.

Lemma code_value_lxor (len : nat) (val : Z) :
  fits len (magnitude val) -> 0 <= magnitude val ->
  Z.lxor val (header_bits len) = code_value len val + sign_of val * 2 ^ (8 * Z.of_nat len).
Proof.
  intros Hf Hm. rewrite signed_code_lxor by done. pose proof (header_bits_range len) as [_ H1].
  unfold sign_of, code_value, framed, magnitude in *. destruct (Z.ltb_spec val 0).
  - rewrite Z.lxor_m1_l. unfold Z.lnot. lia.
  - rewrite Z.lxor_0_l. lia.
Qed.

Lemma signed_code_value (len : nat) (val : Z) :
  fits len (magnitude val) -> 0 <= magnitude val -> signed_code len val = be_bytes len (code_value len val).
Proof.
  intros Hf Hm. unfold signed_code. rewrite code_value_lxor by done. rewrite <- be_bytes_low.
  rewrite Z.mod_add by lia. by rewrite be_bytes_low.
Qed.

(** Each byte of a code is one of the framed magnitude, inverted for negative numbers. *)
Lemma signed_code_bytes (len : nat) (val : Z) :
  fits len (magnitude val) -> 0 <= magnitude val ->
  signed_code len val = map (Z.lxor (if val <? 0 then 255 else 0)) (be_bytes len (framed len (magnitude val))).
Proof.
  intros Hf Hm. unfold signed_code. rewrite signed_code_lxor, be_bytes_lxor by done. unfold sign_of.
  destruct (val <? 0); [rewrite be_bytes_ones|rewrite be_bytes_zero];
    apply zip_with_replicate_l; by rewrite be_bytes_length.
Qed.

Lemma header_bytes (len : nat) :
  (2 <= len <= 10)%nat -> exists h0 h1, kLengthToHeaderBits !! len = Some (h0, h1) /\
    be_bytes len (header_bits len) = h0 :: h1 :: replicate (len - 2) 0.
Proof.
  intros Hl. do 2 (destruct len as [|len]; [lia|]).
  do 9 (destruct len as [|len]; [by eexists _, _|]). lia.
Qed.

Lemma WriteSigned_spec (dest : bytes) (val : Z) :
  in_i64 val ->
  exists len, WriteSignedNumIncreasing dest val = Ok (dest ++ signed_code len val) /\ fits len (magnitude val).
Proof.
  intros Hv. pose proof (magnitude_range val Hv) as Hm. unfold WriteSignedNumIncreasing.
  change (if val <? 0 then Z.lnot val else val) with (magnitude val).
  cbv zeta. rewrite (wrap_u64_id (magnitude val)) by (unfold in_u64; lia).
  destruct (Z.ltb_spec (magnitude val) 64) as [Hs|Hs].
  - exists 1%nat. split; [|split; [lia|split; [cbn; lia|by left]]]. unfold signed_code. rewrite Z.lxor_comm. done.
  - rewrite wrap_i64_id by (unfold in_i64; lia).
    destruct (SignedEncodingLength_fits (magnitude val) Hm) as (len & -> & Hf). cbn [res_bind].
    exists len. split; [|done]. destruct Hf as (Hlen & Hlt & _).
    assert (2 <= len)%nat as H2 by (destruct len as [|[|len]]; [lia|cbn in Hlt; lia|lia]).
    destruct (header_bytes len) as (h0 & h1 & Hh & Hb); [lia|].
    unfold table_at. rewrite (proj2 (Z.ltb_ge _ 0)), Nat2Z.id, Hh by lia. cbn [res_bind fst snd].
    assert ([if val <? 0 then 255 else 0; if val <? 0 then 255 else 0] ++ StoreBigEndian64 (wrap_u64 val) =
      be_bytes 10 val) as ->.
    { rewrite StoreBigEndian64_be, (be_bytes_app 2 8). f_equal. change (8 * Z.of_nat 8) with 64.
      unfold in_i64 in Hv. destruct (Z.ltb_spec val 0).
      - replace (val / 2 ^ 64) with (-1); [done|]. apply Z.div_unique with (r := val + 2 ^ 64); lia.
      - by rewrite Z.div_small by lia. }
    assert (be_bytes 10 val = be_bytes ((10 - len) + len) val) as -> by (f_equal; lia). unfold kMaxSigned64Length.
    rewrite be_bytes_app, drop_app_length' by (by rewrite be_bytes_length).
    unfold signed_code. rewrite be_bytes_lxor, Hb.
    pose proof (be_bytes_length len val) as Hbl. destruct (be_bytes len val) as [|b0 [|b1 tail]]; cbn in Hbl; [lia|lia|].
    cbn [zip_with]. do 3 f_equal. f_equal. rewrite zip_with_replicate_r by lia.
    rewrite <- (list_fmap_id tail) at 1. apply list_fmap_ext. intros i x _. cbn. by rewrite Z.lxor_0_r.
Qed.

(** Larger magnitudes do not have shorter codes. *)
Lemma fits_mono (l1 l2 : nat) (x y : Z) : fits l1 x -> fits l2 y -> x <= y -> (l1 <= l2)%nat.
Proof.
  intros (H1 & _ & Hx) (H2 & Hy & _) Hxy. destruct (Nat.le_gt_cases l1 l2) as [|Hlt]; [done|].
  destruct Hx as [->|Hx]; [lia|].
  pose proof (Z.pow_le_mono_r 2 (7 * Z.of_nat l2 - 1) (7 * Z.of_nat l1 - 8) ltac:(lia) ltac:(lia)). lia.
Qed.

Lemma signed_code_below (v w : Z) (n m : nat) :
  in_i64 v -> in_i64 w -> v < w -> fits n (magnitude v) -> fits m (magnitude w) ->
  below (signed_code n v) (signed_code m w).
Proof.
  intros Hv Hw Hvw Hn Hm. pose proof (magnitude_range v Hv). pose proof (magnitude_range w Hw).
  rewrite !signed_code_value by (done || lia).
  pose proof (code_value_range n v Hn) as Hcn. pose proof (code_value_range m w Hm) as Hcm.
  pose proof (header_bits_range n) as [_ Hhn]. pose proof (header_bits_range m) as [_ Hhm].
  pose proof Hn as (Hn1 & Hn2 & _). pose proof Hm as (Hm1 & Hm2 & _).
  unfold code_value, magnitude, Z.lnot in *.
  destruct (Z.ltb_spec v 0) as [Hv0|Hv0], (Z.ltb_spec w 0) as [Hw0|Hw0]; [| |lia|].
  - assert (m <= n)%nat as Hle by (eapply fits_mono; [exact Hm|exact Hn|lia]).
    destruct (decide (n = m)) as [->|Hne]; [apply be_below; lia|].
    replace n with (m + (n - m))%nat by lia. replace n with (m + (n - m))%nat in Hcn by lia.
    apply be_longer_below; [lia| |lia]. apply Z.div_lt_upper_bound; [lia|].
    replace (2 ^ (7 * Z.of_nat (m + (n - m)))) with (2 ^ (7 * Z.of_nat m) * 2 ^ (7 * Z.of_nat (n - m)))
      by (rewrite <- Z.pow_add_r by lia; f_equal; lia).
    assert (2 * 2 ^ (7 * Z.of_nat (n - m)) <= 2 ^ (8 * Z.of_nat (n - m))) as Hp.
    { rewrite <- Z.pow_succ_r by lia. apply Z.pow_le_mono_r; lia. }
    assert (2 ^ (7 * Z.of_nat m) = 2 * 2 ^ (7 * Z.of_nat m - 1)) as Hq.
    { rewrite <- Z.pow_succ_r by lia. f_equal. lia. }
    nia.
  - destruct n as [|n]; [lia|]. destruct m as [|m]; [lia|].
    destruct (be_bytes_cons n _ Hcn) as [-> _]. destruct (be_bytes_cons m _ Hcm) as [-> _]. apply below_head.
    apply Z.lt_le_trans with 128.
    + apply Z.div_lt_upper_bound; [lia|]. change 128 with (2 ^ 7). rewrite <- Z.pow_add_r by lia.
      pose proof (Z.pow_le_mono_r 2 (7 * Z.of_nat (S n)) (8 * Z.of_nat n + 7)). lia.
    + apply Z.div_le_lower_bound; [lia|]. change 128 with (2 ^ 7). rewrite <- Z.pow_add_r by lia.
      assert (2 ^ (8 * Z.of_nat (S m)) = 2 * 2 ^ (8 * Z.of_nat m + 7)) as Hq.
      { rewrite <- Z.pow_succ_r by lia. f_equal. lia. }
      pose proof (Z.pow_le_mono_r 2 (7 * Z.of_nat (S m)) (8 * Z.of_nat m + 7)). lia.
  - assert (n <= m)%nat as Hle by (eapply fits_mono; [exact Hn|exact Hm|lia]).
    destruct (decide (n = m)) as [->|Hne]; [apply be_below; lia|].
    replace m with (n + (m - n))%nat by lia. replace m with (n + (m - n))%nat in Hcm by lia.
    apply be_below_longer; [|lia]. split; [lia|].
    apply Z.lt_le_trans with (2 ^ (8 * Z.of_nat n) - 2 ^ (7 * Z.of_nat n - 1)).
    + assert (2 ^ (7 * Z.of_nat n) = 2 * 2 ^ (7 * Z.of_nat n - 1)) as Hq.
      { rewrite <- Z.pow_succ_r by lia. f_equal. lia. }
      lia.
    + apply Z.div_le_lower_bound; [lia|]. rewrite Z.mul_comm, Z.mul_sub_distr_r, <- !Z.pow_add_r by lia.
      replace (n + (m - n))%nat with m by lia.
      replace (8 * Z.of_nat n + 8 * Z.of_nat (m - n)) with (8 * Z.of_nat m) by lia.
      pose proof (Z.pow_le_mono_r 2 (7 * Z.of_nat m) (7 * Z.of_nat n - 1 + 8 * Z.of_nat (m - n))). lia.
Qed.

(** *** Reading *)

Lemma foldl_be (n : nat) (v a : Z) :
  foldl (fun a c => a * 2 ^ 8 + c) a (be_bytes n v) = a * 2 ^ (8 * Z.of_nat n) + v mod 2 ^ (8 * Z.of_nat n).
Proof.
  revert v a. induction n as [|n IH]; intros v a.
  - cbn. rewrite Z.mod_1_r. lia.
  - rewrite be_bytes_S, foldl_app, IH. cbn [foldl].
    replace (8 * Z.of_nat (S n)) with (8 + 8 * Z.of_nat n) by lia. rewrite Z.pow_add_r, Z.rem_mul_r by lia. lia.
Qed.

(** A byte below the bits that are there. *)
Lemma lor_below (r q c k : Z) :
  r = q * 2 ^ (k + 8) -> 0 <= q -> in_u8 c -> 0 <= k -> (q * 2 ^ 8 + c) * 2 ^ k < 2 ^ 64 ->
  Z.lor r (wrap_u64 (Z.shiftl c k)) = (q * 2 ^ 8 + c) * 2 ^ k.
Proof.
  intros -> Hq Hc Hk Hlt. unfold in_u8 in Hc. rewrite Z.shiftl_mul_pow2 by lia. unfold wrap_u64.
  rewrite (Z.mod_small (c * 2 ^ k)) by nia. rewrite Z.lor_comm, <- (Z.shiftl_mul_pow2 q) by lia.
  rewrite Coding.lor_shiftl_add; [rewrite Z.pow_add_r by lia; lia|lia|]. rewrite Z.pow_add_r by lia. nia.
Qed.

Lemma LoadBigEndian64_be (v : Z) (rest : bytes) : LoadBigEndian64 (be_bytes 8 v ++ rest) = Ok (wrap_u64 v).
Proof.
  unfold LoadBigEndian64, Block.read. rewrite sub_prefix by (unfold size; by rewrite be_bytes_length).
  cbn [res_bind]. f_equal. pose proof (foldl_be 8 v 0) as Hf. rewrite Z.mul_0_l, Z.add_0_l in Hf.
  change (v mod 2 ^ (8 * Z.of_nat 8)) with (wrap_u64 v) in Hf. rewrite <- Hf.
  pose proof (be_bytes_ok 8 v) as Hok. pose proof (be_bytes_length 8 v) as Hl.
  destruct (be_bytes 8 v) as [|c0 [|c1 [|c2 [|c3 [|c4 [|c5 [|c6 [|c7 [|? ?]]]]]]]]]; try done.
  repeat (apply Forall_cons in Hok as [? Hok]). clear Hf Hl Hok. cbn [zip zip_with foldl].
  repeat match goal with
  | |- context [Z.lor ?r (wrap_u64 (Z.shiftl ?c (56 - 8 * ?i)))] =>
      lazymatch r with
      | 0 => rewrite (lor_below 0 0 c (56 - 8 * i)) by (done || (unfold in_u8 in *; lia))
      | ?q * _ => rewrite (lor_below r q c (56 - 8 * i)) by (done || (unfold in_u8 in *; lia))
      end
  end.
  change (2 ^ (56 - 8 * 7)) with 1. lia.
Qed.

Definition invert (val : Z) : Z := if val <? 0 then 255 else 0.
Definition all_bits (val : Z) : Z := if val <? 0 then u64_max else 0.

Lemma byte_invert (val c : Z) : Z.lxor (Z.lxor (invert val) c) (Z.land (all_bits val) 255) = c.
Proof.
  assert (Z.land (all_bits val) 255 = invert val) as -> by (unfold all_bits, invert; by destruct (val <? 0)).
  by rewrite (Z.lxor_comm (invert val)), Z.lxor_assoc, Z.lxor_nilpotent, Z.lxor_0_r.
Qed.

Lemma sign_bit (val d : Z) :
  in_u8 d -> 128 <= d -> (if Z.land (Z.lxor (invert val) d) 128 =? 0 then u64_max else 0) = all_bits val.
Proof.
  intros Hd Hge.
  pose proof (Coding.u8_forall (fun d => (d <? 128) || ((Z.land (Z.lxor 255 d) 128 =? 0) &&
    negb (Z.land (Z.lxor 0 d) 128 =? 0))) d eq_refl Hd) as Hb. cbn beta in Hb.
  rewrite (proj2 (Z.ltb_ge d 128)) in Hb by lia. cbn [orb] in Hb. apply andb_prop in Hb as [H1 H0].
  unfold invert, all_bits. destruct (val <? 0); [by rewrite H1|]. by apply negb_true_iff in H0 as ->.
Qed.

Lemma lxor_255 (d : Z) : in_u8 d -> Z.lxor d 255 = 255 - d.
Proof.
  intros Hd. apply Z.eqb_eq. exact (Coding.u8_forall (fun d => Z.lxor d 255 =? 255 - d) d eq_refl Hd).
Qed.

Lemma kLengthToMask_header (len : nat) :
  (1 <= len <= 10)%nat -> table_at kLengthToMask (Z.of_nat len) = Ok (wrap_u64 (header_bits len)).
Proof. intros Hl. destruct len as [|len]; [lia|]. do 10 (destruct len as [|len]; [done|]). lia. Qed.

(** The bytes of the magnitude, of which the reader looks at the first three. *)
Lemma framed_byte (len : nat) (x : Z) (i : nat) :
  (i < len)%nat -> (be_bytes len (framed len x) : list Z) !! i = Some (framed len x / 2 ^ (8 * Z.of_nat (len - 1 - i)) mod 2 ^ 8).
Proof.
  intros Hi. rewrite be_bytes_map. etransitivity; [apply (list_lookup_fmap _ (seq 0 len) i)|]. by rewrite lookup_seq_lt.
Qed.

Lemma code_byte (len : nat) (val : Z) (rest : bytes) (i : nat) :
  fits len (magnitude val) -> 0 <= magnitude val -> (i < len)%nat ->
  byte_at (signed_code len val ++ rest) i =
  Ok (Z.lxor (invert val) (framed len (magnitude val) / 2 ^ (8 * Z.of_nat (len - 1 - i)) mod 2 ^ 8)).
Proof.
  intros Hf Hm Hi. unfold byte_at. rewrite signed_code_bytes by done.
  rewrite lookup_app_l by (rewrite length_map, be_bytes_length; lia).
  pose proof (list_lookup_fmap (Z.lxor (invert val)) (be_bytes len (framed len (magnitude val))) i) as Hl.
  rewrite framed_byte in Hl by done. unfold invert in *. change (map ?f ?l) with (f <$> l). by rewrite Hl.
Qed.

(** The framed magnitude: ones, then a zero. *)
Lemma framed_first (len : nat) (x : Z) :
  (1 <= len <= 7)%nat -> 0 <= x < 2 ^ (7 * Z.of_nat len - 1) ->
  2 ^ (7 - Z.of_nat len) <= 255 - framed len x / 2 ^ (8 * Z.of_nat (len - 1 - 0)) mod 2 ^ 8 < 2 ^ (8 - Z.of_nat len) /\
  128 <= framed len x / 2 ^ (8 * Z.of_nat (len - 1 - 0)) mod 2 ^ 8.
Proof.
  intros Hl Hx. unfold framed, header_bits. destruct len as [|len]; [lia|].
  do 7 (destruct len as [|len]; [cbn [Nat.sub Z.of_nat] in *; Z.div_mod_to_equations; cbn in *; lia|]). lia.
Qed.

Lemma code_size (len : nat) (val : Z) (rest : bytes) : size (signed_code len val ++ rest) = Z.of_nat len + size rest.
Proof. rewrite size_app. unfold signed_code, size. by rewrite be_bytes_length. Qed.

(** What the reader shifts in or loads is the number with its header. *)
Lemma raw_value (len : nat) (val : Z) :
  fits len (magnitude val) -> 0 <= magnitude val ->
  wrap_u64 (all_bits val * 2 ^ (8 * Z.of_nat len) + code_value len val) = wrap_u64 (Z.lxor val (header_bits len)).
Proof.
  intros Hf Hm. rewrite code_value_lxor by done. unfold all_bits, sign_of, u64_max, wrap_u64.
  destruct (val <? 0); [|f_equal; lia].
  replace ((2 ^ 64 - 1) * 2 ^ (8 * Z.of_nat len) + code_value len val)
    with (code_value len val + -1 * 2 ^ (8 * Z.of_nat len) + 2 ^ (8 * Z.of_nat len) * 2 ^ 64) by lia.
  by rewrite Z.mod_add by lia.
Qed.

Lemma load_tail (len : nat) (val : Z) (rest : bytes) :
  (8 <= len)%nat ->
  LoadBigEndian64 (drop (len - 8) (signed_code len val ++ rest)) = Ok (wrap_u64 (Z.lxor val (header_bits len))).
Proof.
  intros Hl. unfold signed_code. rewrite drop_app_le by (rewrite be_bytes_length; lia).
  assert (be_bytes len (Z.lxor val (header_bits len)) =
    be_bytes ((len - 8) + 8) (Z.lxor val (header_bits len))) as -> by (f_equal; lia).
  rewrite be_bytes_app, drop_app_length' by (by rewrite be_bytes_length). apply LoadBigEndian64_be.
Qed.

Lemma read_signed_raw_spec (len : nat) (val : Z) (rest : bytes) :
  in_i64 val -> fits len (magnitude val) ->
  read_signed_raw (signed_code len val ++ rest) (all_bits val)
    (framed len (magnitude val) / 2 ^ (8 * Z.of_nat (len - 1 - 0)) mod 2 ^ 8) =
  Ok (Some (len, wrap_u64 (Z.lxor val (header_bits len)))).
Proof.
  intros Hv Hf. pose proof (magnitude_range val Hv) as Hm. pose proof Hf as (Hl & Hx & _).
  pose proof (size_nonneg rest). unfold read_signed_raw. rewrite code_size.
  destruct (Nat.le_gt_cases len 7) as [H7|H7].
  - destruct (framed_first len (magnitude val)) as [Hd Hge]; [lia|lia|].
    set (d := framed len (magnitude val) / _ mod _) in *.
    assert (in_u8 d) as Hd8 by (apply Z.mod_pos_bound; lia).
    assert (0 < 2 ^ (7 - Z.of_nat len)) by (apply Z.pow_pos_nonneg; lia).
    rewrite (proj2 (Z.eqb_neq d 255)) by lia. cbn [negb]. rewrite lxor_255 by done.
    rewrite Log2Floor64_log2 by (unfold in_u8 in *; lia).
    rewrite (Z.log2_unique (255 - d) (7 - Z.of_nat len)) by
      (try (replace (Z.succ (7 - Z.of_nat len)) with (8 - Z.of_nat len) by lia); lia).
    replace (Z.to_nat (7 - (7 - Z.of_nat len))) with len by lia. rewrite (proj2 (Z.ltb_ge _ _)) by lia.
    rewrite signed_code_value by (done || lia). rewrite shift_in_spec; [|unfold all_bits, u64_max; destruct (val <? 0); lia
      |by apply code_value_range]. cbn [res_bind]. by rewrite raw_value by (done || lia).
  - set (x := magnitude val) in *.
    assert (framed len x / 2 ^ (8 * Z.of_nat (len - 1 - 0)) mod 2 ^ 8 = 255 /\
      let s := framed len x / 2 ^ (8 * Z.of_nat (len - 1 - 1)) mod 2 ^ 8 in
      (len = 8%nat /\ s < 128 \/ len = 9%nat /\ 128 <= s < 192 \/
       len = 10%nat /\ s = 192 /\ framed len x / 2 ^ (8 * Z.of_nat (len - 1 - 2)) mod 2 ^ 8 < 128)) as [-> Hs].
    { unfold framed, header_bits in *. assert (len = 8 \/ len = 9 \/ len = 10)%nat as [->|[->| ->]] by lia;
        cbn [Nat.sub Z.of_nat] in *; (split; [Z.div_mod_to_equations; cbn in *; lia|cbv zeta]);
        [left|right; left|right; right]; (split; [done|]); [| |split]; Z.div_mod_to_equations; cbn in *; lia. }
    cbn [Z.eqb Pos.eqb negb]. rewrite (proj2 (Z.ltb_ge _ 8)) by lia.
    rewrite (code_byte len val rest 1) by (done || lia). cbn [res_bind]. rewrite byte_invert. fold x. cbv zeta in Hs.
    destruct Hs as [[Hlen Hs]|[[Hlen Hs]|(Hlen & Hs & H3)]].
    + rewrite (proj2 (Z.leb_gt _ _)) by lia. cbn [res_bind]. rewrite (proj2 (Z.ltb_ge _ _)) by lia.
      subst len. by rewrite load_tail by lia.
    + rewrite (proj2 (Z.leb_le _ _)), (proj2 (Z.ltb_lt _ _)) by lia. cbn [res_bind].
      rewrite (proj2 (Z.ltb_ge _ _)) by lia. subst len. by rewrite load_tail by lia.
    + rewrite Hs. cbn [Z.leb Z.ltb Z.compare Pos.compare Pos.compare_cont].
      rewrite (code_byte len val rest 2) by (done || lia). cbn [res_bind]. rewrite byte_invert. fold x.
      rewrite (proj2 (Z.ltb_lt _ _)) by lia. cbn [Z.eqb Pos.eqb andb res_bind].
      rewrite (proj2 (Z.ltb_ge _ _)) by lia. subst len. by rewrite load_tail by lia.
Qed.

Lemma ReadSigned_spec (len : nat) (val : Z) (rest : bytes) (result : option Z) :
  in_i64 val -> fits len (magnitude val) ->
  ReadSignedNumIncreasing (signed_code len val ++ rest) result = Ok (true, rest, option_map (fun _ => val) result).
Proof.
  intros Hv Hf. pose proof (magnitude_range val Hv) as Hm. pose proof Hf as (Hl & Hx & _).
  pose proof (code_byte len val rest 0 Hf ltac:(lia) ltac:(lia)) as H0.
  pose proof (read_signed_raw_spec len val rest Hv Hf) as Hraw.
  set (d := framed len (magnitude val) / 2 ^ (8 * Z.of_nat (len - 1 - 0)) mod 2 ^ 8) in *.
  assert (in_u8 d) as Hd by (apply Z.mod_pos_bound; lia).
  assert (128 <= d) as Hge.
  { destruct (Nat.le_gt_cases len 7); [apply framed_first; lia|]. unfold d, framed, header_bits.
    assert (len = 8 \/ len = 9 \/ len = 10)%nat as [->|[->| ->]] by lia;
      cbn [Nat.sub Z.of_nat] in *; Z.div_mod_to_equations; cbn in *; lia. }
  assert (drop len (signed_code len val ++ rest) = rest) as Hdrop.
  { apply drop_app_length'. unfold signed_code. by rewrite be_bytes_length. }
  unfold ReadSignedNumIncreasing. destruct (signed_code len val ++ rest) as [|c0 src] eqn:Hsrc; [done|].
  injection H0 as ->. rewrite sign_bit by done. rewrite byte_invert, Hraw. cbn [res_bind].
  rewrite kLengthToMask_header by done. cbn [res_bind]. rewrite Hdrop.
  unfold wrap_u64. rewrite <- lxor_mod by lia. rewrite Z.lxor_assoc, Z.lxor_nilpotent, Z.lxor_0_r.
  do 2 f_equal. unfold option_map. destruct result; [|done]. f_equal.
  unfold wrap_i64, in_i64 in *. rewrite Z.add_mod_idemp_l by lia. rewrite Z.mod_small; lia.
Qed.

(** ** Arbitrary input *)

(** A reader never leaves its input, and what it does not read stays. *)
Definition reads {A : Type} (src : bytes) (r : res fault (bool * bytes * A)) : Prop :=
  exists ok rest x, r = Ok (ok, rest, x) /\ exists used, src = used ++ rest.

Lemma reads_nothing {A : Type} (src : bytes) (ok : bool) (x : A) : reads src (Ok (ok, src, x)).
Proof. exists ok, src, x. split; [done|]. by exists []. Qed.

Lemma reads_drop {A : Type} (src : bytes) (n : nat) (ok : bool) (x : A) : reads src (Ok (ok, drop n src, x)).
Proof. exists ok, (drop n src), x. split; [done|]. exists (take n src). by rewrite take_drop. Qed.

Lemma shift_in_total (n : nat) (src : bytes) (tmp : Z) : (n <= length src)%nat -> exists x, shift_in n src tmp = Ok x.
Proof.
  revert src tmp. induction n as [|n IH]; intros src tmp Hn; [by exists tmp|].
  destruct src as [|c src]; [cbn in Hn; lia|]. cbn [shift_in]. change (byte_at (c :: src) 0) with (@Ok fault Z c).
  cbn [res_bind skipn]. rewrite drop_0. apply IH. cbn in Hn. lia.
Qed.

Lemma byte_at_total (src : bytes) (i : nat) : (i < length src)%nat -> bytes_ok src -> exists c, byte_at src i = Ok c /\ in_u8 c.
Proof.
  intros Hi Hok. destruct (lookup_lt_is_Some_2 (src : list Z) i Hi) as [c Hc]. exists c. unfold byte_at. rewrite Hc.
  split; [done|]. by apply (Forall_lookup_1 _ _ _ _ Hok Hc).
Qed.

Lemma ReadString_total (src : bytes) (result : option bytes) : reads src (ReadString src result).
Proof.
  unfold ReadString.
  assert (forall fuel start used result, src = used ++ start -> (length start < fuel)%nat ->
    reads src (read_string_loop fuel src start result)) as Hloop.
  { intros fuel. induction fuel as [|fuel IH]; intros start used r Hs Hf; [lia|]. cbn [read_string_loop].
    set (n := SkipToNextSpecialByte _). destruct (drop n start) as [|c [|next start']] eqn:Hd; try apply reads_nothing.
    pose proof (take_drop n start) as Htd. rewrite Hd in Htd.
    assert (src = (used ++ take n start ++ [c; next]) ++ start') as Hs'.
    { rewrite Hs, <- Htd at 1. by rewrite <- !app_assoc. }
    assert (length start' < fuel)%nat by (rewrite <- Htd, length_app in Hf; cbn in Hf; lia).
    repeat case_match; try apply reads_nothing; try (by eapply IH).
    eexists _, _, _. split; [done|]. by eexists. }
  by apply (Hloop _ src []); [|lia].
Qed.

Lemma ReadNum_total (src : bytes) (result : option Z) : bytes_ok src -> reads src (ReadNumIncreasing src result).
Proof.
  intros Hok. unfold ReadNumIncreasing. destruct src as [|len tail]; [apply reads_nothing|].
  destruct (Z.ltb_spec (size (len :: tail)) (len + 1)); [apply reads_nothing|].
  destruct (Z.ltb_spec 8 len); cbn [orb]; [apply reads_nothing|].
  apply Forall_cons in Hok as [Hl Hok]. unfold in_u8 in Hl. rewrite size_cons in *.
  destruct (shift_in_total (Z.to_nat len) (drop 1 (len :: tail)) 0) as (x & ->).
  { cbn [skipn]. rewrite drop_0. unfold size in *. lia. }
  cbn [res_bind]. apply reads_drop.
Qed.

Lemma read_signed_raw_total (src : bytes) (xor_mask first_byte : Z) :
  bytes_ok src -> 128 <= first_byte < 256 ->
  exists r, read_signed_raw src xor_mask first_byte = Ok r /\
    (forall len x, r = Some (len, x) -> (1 <= len <= 10)%nat).
Proof.
  intros Hok Hf. unfold read_signed_raw. destruct (Z.eqb_spec first_byte 255) as [He|Hne]; cbn [negb].
  - destruct (Z.ltb_spec (size src) 8) as [|H8]; [by eexists|].
    destruct (byte_at_total src 1) as (c1 & -> & _); [unfold size in H8; lia|done|]. cbn [res_bind].
    destruct (byte_at_total src 2) as (c2 & Hc2 & _); [unfold size in H8; lia|done|]. rewrite Hc2. cbn [res_bind].
    assert (forall len : nat, (8 <= len)%nat -> Z.of_nat len <= size src ->
      exists x, LoadBigEndian64 (drop (len - 8) src) = Ok x) as Hload.
    { intros len Hl Hs. unfold LoadBigEndian64, Block.read, sub. unfold size in *. rewrite length_drop.
      rewrite !(proj2 (Z.leb_le _ _)) by lia. cbn [andb res_bind]. by eexists. }
    repeat case_match; cbn [res_bind]; try (by eexists);
      match goal with
      | |- context [size src <? Z.of_nat ?l] => destruct (Z.ltb_spec (size src) (Z.of_nat l)); [by eexists|];
          destruct (Hload l) as (x & ->); [lia|lia|]; cbn [res_bind]; eexists; split; [done|];
          intros ? ? [= <- <-]; lia
      end.
  - rewrite lxor_255 by (unfold in_u8; lia). rewrite Log2Floor64_log2 by lia.
    pose proof (Z.log2_nonneg (255 - first_byte)). assert (Z.log2 (255 - first_byte) < 7) by (apply Z.log2_lt_pow2; lia).
    set (len := Z.to_nat _). destruct (Z.ltb_spec (size src) (Z.of_nat len)) as [|Hs]; [by eexists|].
    destruct (shift_in_total len src xor_mask) as (x & ->); [unfold size in Hs; lia|]. cbn [res_bind].
    eexists. split; [done|]. intros ? ? [= <- <-]. unfold len. lia.
Qed.

Lemma ReadSigned_total (src : bytes) (result : option Z) : bytes_ok src -> reads src (ReadSignedNumIncreasing src result).
Proof.
  intros Hok. unfold ReadSignedNumIncreasing. destruct src as [|c0 tail]; [apply reads_nothing|].
  pose proof Hok as [Hc _]%Forall_cons.
  pose proof (Coding.u8_forall (fun c => let m := if Z.land c 128 =? 0 then u64_max else 0 in
    let f := Z.lxor c (Z.land m 255) in (128 <=? f) && (f <? 256)) c0 eq_refl Hc) as Hf. cbv zeta beta in Hf.
  apply andb_prop in Hf as [H1%Z.leb_le H2%Z.ltb_lt].
  destruct (read_signed_raw_total (c0 :: tail) (if Z.land c0 128 =? 0 then u64_max else 0) _ Hok (conj H1 H2)) as ([[len x]|] & -> & Hlen); cbn [res_bind].
  - rewrite kLengthToMask_header by by apply (Hlen len x). cbn [res_bind]. apply reads_drop.
  - apply reads_nothing.
Qed.

(** ** Sequences of items *)

Inductive item : Type := IStr (s : bytes) | INum (n : Z) | ISigned (n : Z).

Inductive kind : Type := KStr | KNum | KSigned.

Definition kind_of (i : item) : kind := match i with IStr _ => KStr | INum _ => KNum | ISigned _ => KSigned end.

Definition item_ok (i : item) : Prop :=
  match i with IStr s => bytes_ok s | INum n => in_u64 n | ISigned n => in_i64 n end.

(** The order of the items of one type. *)
Definition compare_item (a b : item) : comparison :=
  match a, b with
  | IStr s, IStr t => compare s t
  | INum n, INum m | ISigned n, ISigned m => Z.compare n m
  | _, _ => Eq
  end.

Fixpoint compare_items (A B : list item) : comparison :=
  match A, B with
  | [], [] => Eq
  | [], _ :: _ => Lt
  | _ :: _, [] => Gt
  | a :: A, b :: B => match compare_item a b with Eq => compare_items A B | c => c end
  end.

Section Items.
Local Open Scope res_scope.

Definition write_item (dest : bytes) (i : item) : res fault bytes :=
  match i with
  | IStr s => WriteString dest s
  | INum n => WriteNumIncreasing dest n
  | ISigned n => WriteSignedNumIncreasing dest n
  end.

Fixpoint write_items (dest : bytes) (A : list item) : res fault bytes :=
  match A with
  | [] => Ok dest
  | a :: A => let! dest := write_item dest a in write_items dest A
  end.

Definition read_item (k : kind) (src : bytes) : res fault (bool * bytes * option item) :=
  match k with
  | KStr => let! (b, rest, r) := ReadString src (Some []) in Ok (b, rest, option_map IStr r)
  | KNum => let! (b, rest, r) := ReadNumIncreasing src (Some 0) in Ok (b, rest, option_map INum r)
  | KSigned => let! (b, rest, r) := ReadSignedNumIncreasing src (Some 0) in Ok (b, rest, option_map ISigned r)
  end.

(** The items of the given types, or [None] when one of them cannot be read. *)
Fixpoint read_items (ks : list kind) (src : bytes) : res fault (option (list item * bytes)) :=
  match ks with
  | [] => Ok (Some ([], src))
  | k :: ks =>
      let! (b, rest, r) := read_item k src in
      match b, r with
      | true, Some i =>
          let! more := read_items ks rest in
          Ok (option_map (fun '(A, rest) => (i :: A, rest)) more)
      | _, _ => Ok None
      end
  end.

End Items.

(** The code of an item. *)
Inductive codes : item -> bytes -> Prop :=
| codes_str s : bytes_ok s -> codes (IStr s) (string_code s)
| codes_num n (l : nat) : in_u64 n -> (l <= 8)%nat -> n < 2 ^ (8 * Z.of_nat l) ->
    l = O \/ 2 ^ (8 * (Z.of_nat l - 1)) <= n -> codes (INum n) (Z.of_nat l :: be_bytes l n)
| codes_signed n l : in_i64 n -> fits l (magnitude n) -> codes (ISigned n) (signed_code l n).

Lemma write_item_codes (dest : bytes) (i : item) :
  item_ok i -> exists c, write_item dest i = Ok (dest ++ c) /\ codes i c.
Proof.
  destruct i as [s|n|n]; cbn [item_ok write_item]; intros Hi.
  - exists (string_code s). split; [by apply WriteString_spec|by constructor].
  - destruct (WriteNum_spec dest n Hi) as (l & -> & ? & ? & ?). eexists. split; [done|by constructor].
  - destruct (WriteSigned_spec dest n Hi) as (l & -> & ?). eexists. split; [done|by constructor].
Qed.

Lemma read_item_codes (i : item) (c rest : bytes) :
  codes i c -> read_item (kind_of i) (c ++ rest) = Ok (true, rest, Some i).
Proof.
  intros [s Hs|n l Hn Hl Hlt Hmin|n l Hn Hf]; cbn [kind_of read_item].
  - by rewrite ReadString_spec.
  - rewrite ReadNum_spec by (done || (unfold in_u64 in Hn; lia)). done.
  - by rewrite ReadSigned_spec.
Qed.

(** Codes of one type decide at a byte, and an item has one code. *)
Lemma codes_below (a b : item) (c d : bytes) :
  kind_of a = kind_of b -> codes a c -> codes b d -> compare_item a b = Lt -> below c d.
Proof.
  intros Hk Ha Hb Hlt. destruct Ha as [s Hs|n l Hn Hl Hup Hlow|n l Hn Hf]; destruct Hb; try done; cbn in Hlt.
  - by apply string_code_below.
  - rewrite Z.compare_lt_iff in Hlt. unfold in_u64 in *. apply num_code_below; (done || lia).
  - rewrite Z.compare_lt_iff in Hlt. by apply signed_code_below.
Qed.

Lemma codes_unique (a b : item) (c d : bytes) :
  kind_of a = kind_of b -> codes a c -> codes b d -> compare_item a b = Eq -> a = b /\ c = d.
Proof.
  intros Hk Ha Hb He.
  assert (a = b) as <-.
  { destruct a, b; try done; cbn in He; f_equal; try (by apply Z.compare_eq); by apply compare_eq. }
  split; [done|]. destruct Ha as [s Hs|n l Hn Hl Hup Hlow|n l Hn Hf]; inversion Hb as [|? l' ? ? ? Hlow'|? l' ? Hf']; subst; try done.
  - assert (l = l') as ->; [|done]. destruct (Nat.lt_trichotomy l l') as [Hl'|[|Hl']]; [|done|].
    + destruct (decide (l' = O)); [lia|]. assert (2 ^ (8 * (Z.of_nat l' - 1)) <= n) by (by destruct Hlow').
      pose proof (Z.pow_le_mono_r 2 (8 * Z.of_nat l) (8 * (Z.of_nat l' - 1))). lia.
    + destruct Hlow as [->|Hlow]; [lia|].
      pose proof (Z.pow_le_mono_r 2 (8 * Z.of_nat l') (8 * (Z.of_nat l - 1))). lia.
  - assert (l = l') as ->; [|done]. apply Nat.le_antisymm; eapply fits_mono; done.
Qed.

(** The codes of a sequence, one after another. *)
Lemma write_items_codes (dest : bytes) (A : list item) :
  Forall item_ok A -> exists cs, write_items dest A = Ok (dest ++ concat cs) /\ Forall2 codes A cs.
Proof.
  intros HA. revert dest. induction HA as [|a A Ha HA IH]; intros dest.
  - exists []. cbn. by rewrite app_nil_r.
  - destruct (write_item_codes dest a Ha) as (c & Hw & Hc). cbn [write_items]. rewrite Hw. cbn [res_bind].
    destruct (IH (dest ++ c)) as (cs & -> & Hcs). exists (c :: cs). cbn [concat]. rewrite app_assoc.
    split; [done|by constructor].
Qed.

Lemma items_order (A B : list item) (cs ds : list bytes) :
  Forall2 codes A cs -> Forall2 codes B ds -> map kind_of A = map kind_of B ->
  match compare_items A B with
  | Lt => below (concat cs) (concat ds)
  | Eq => A = B /\ concat cs = concat ds
  | Gt => below (concat ds) (concat cs)
  end.
Proof.
  intros HA. revert B ds. induction HA as [|a c A cs Ha HA IH]; intros B ds HB Hk.
  - destruct HB; [done|]. done.
  - destruct HB as [|b d B ds Hb HB]; [done|]. injection Hk as Hk HkB. cbn [compare_items concat].
    destruct (compare_item a b) eqn:Hc.
    + destruct (codes_unique a b c d Hk Ha Hb Hc) as [-> ->]. specialize (IH B ds HB HkB).
      destruct (compare_items A B).
      * destruct IH as [-> ->]. done.
      * by apply below_prefix.
      * by apply below_prefix.
    + apply below_app. by apply (codes_below a b).
    + apply below_app. apply (codes_below b a); try done.
      assert (compare_item b a = CompOpp (compare_item a b)) as ->; [|by rewrite Hc].
      destruct a, b; try done; cbn; [apply compare_antisym|apply Z.compare_antisym..].
Qed.

(** C33: encoded sequences compare like their items.  Two sequences of items of the
    same types are written without an error, and the resulting strings compare
    like the sequences do, item by item in the order of their types; when the
    sequences differ, they compare so whatever is appended to the strings. *)
Theorem ordered_code_order (A B : list item) (u v : bytes) :
  Forall item_ok A -> Forall item_ok B -> map kind_of A = map kind_of B ->
  exists a b, write_items [] A = Ok a /\ write_items [] B = Ok b /\ compare a b = compare_items A B /\
    (A <> B -> compare (a ++ u) (b ++ v) = compare_items A B).
Proof.
  intros HA HB Hk. destruct (write_items_codes [] A HA) as (cs & HwA & Hcs).
  destruct (write_items_codes [] B HB) as (ds & HwB & Hds). exists (concat cs), (concat ds).
  pose proof (items_order A B cs ds Hcs Hds Hk) as Ho. split; [done|]. split; [done|].
  destruct (compare_items A B).
  - destruct Ho as [-> ->]. split; [apply compare_refl|done].
  - split; [by apply below_compare|]. intros _. by apply below_compare, below_app.
  - split; [|intros _]; rewrite compare_antisym, below_compare; try done. by apply below_app.
Qed.

(** C34: encoded sequences read back.  The items written to a string are read
    again, by their types, whatever follows them, and what follows is left. *)
Theorem ordered_code_round_trip (A : list item) (rest : bytes) :
  Forall item_ok A ->
  exists a, write_items [] A = Ok a /\ read_items (map kind_of A) (a ++ rest) = Ok (Some (A, rest)).
Proof.
  intros HA. destruct (write_items_codes [] A HA) as (cs & Hw & Hcs). exists (concat cs). split; [done|].
  clear Hw HA. induction Hcs as [|i c A cs Hi Hcs IH]; [done|]. cbn [map read_items concat]. rewrite <- app_assoc.
  rewrite (read_item_codes i c) by done. cbn [res_bind]. by rewrite IH.
Qed.

(** The readers are safe on every input: they return, read inside of the
    string, and leave a suffix of it. *)
Theorem ordered_code_readers_safe (src : bytes) (s : option bytes) (n : option Z) :
  bytes_ok src ->
  reads src (ReadString src s) /\ reads src (ReadNumIncreasing src n) /\ reads src (ReadSignedNumIncreasing src n).
Proof.
  intros Hok. split_and!; [apply ReadString_total|by apply ReadNum_total|by apply ReadSigned_total].
Qed.

Definition sample_items : list item := [IStr [97; 0; 255]; INum 70000; ISigned (-3000)].
Definition sample_items' : list item := [IStr [97; 0; 255]; INum 70000; ISigned 5].

Lemma sample_items_ok : Forall item_ok sample_items /\ Forall item_ok sample_items'.
Proof. split; repeat constructor; vm_compute; congruence. Qed.

Lemma ordered_code_order_witness :
  exists a b, write_items [] sample_items = Ok a /\ write_items [] sample_items' = Ok b /\ compare a b = Lt /\
    (sample_items <> sample_items' -> compare (a ++ [9]) (b ++ [0]) = Lt).
Proof.
  exact (ordered_code_order sample_items sample_items' [9] [0] (proj1 sample_items_ok) (proj2 sample_items_ok) eq_refl).
Defined.

Lemma ordered_code_round_trip_witness :
  exists a, write_items [] sample_items = Ok a /\
    read_items [KStr; KNum; KSigned] (a ++ [7]) = Ok (Some (sample_items, [7])).
Proof. exact (ordered_code_round_trip sample_items [7] (proj1 sample_items_ok)). Defined.

Lemma ordered_code_readers_safe_witness :
  reads [255; 255; 3] (ReadString [255; 255; 3] None) /\ reads [255; 255; 3] (ReadNumIncreasing [255; 255; 3] None) /\
  reads [255; 255; 3] (ReadSignedNumIncreasing [255; 255; 3] None).
Proof.
  assert (bytes_ok [255; 255; 3]) as H by (vm_compute; repeat constructor; discriminate).
  exact (ordered_code_readers_safe [255; 255; 3] None None H).
Defined.
