(* ===== verification/Numbers.v ===== *)
(** Numbers as text.

    The integer part of [tsl/platform/numbers.cc]: printing into a buffer of
    [kFastToBufferSize] chars and parsing, in decimal at 32 and 64 bits and in
    hexadecimal; and [Split] of [tsl/platform/str_util.h].  Chars are bytes of 0
    to 255 and [isspace] and [isdigit] are those of the C locale.  A write past
    the buffer is the fault [OutOfBounds]; a parser returns [None] for [false].
    What the code uses of Abseil is the class [AbslStrings], with the documented
    behaviour as laws.  The theorems show that the parsers accept exactly the
    numerals of a number of their type and that printed numbers parse. *)
From S2P Require Import Prelude Bytes Coding Block.

(** ** Functions of Abseil *)

(** [absl::ConsumePrefix(&str, expected)], with what is left of the string, and
    [absl::StrSplit(text, delim)] for a delimiter of one char. *)
Class AbslStrings := {
  ConsumePrefix : bytes -> bytes -> bool * bytes;
  StrSplit : bytes -> Z -> list bytes
}.

(** The pieces with the delimiter between them. *)
Fixpoint join_pieces (delim : Z) (l : list bytes) : bytes :=
  match l with
  | [] => []
  | [x] => x
  | x :: l' => x ++ delim :: join_pieces delim l'
  end.

Class AbslStringsOk `{AbslStrings} : Prop := {
  consume_present (expected rest : bytes) : ConsumePrefix (expected ++ rest) expected = (true, rest);
  consume_absent (expected str : bytes) : ~ expected `prefix_of` str -> ConsumePrefix str expected = (false, str);
  split_pieces (text : bytes) (delim : Z) :
    join_pieces delim (StrSplit text delim) = text /\ Forall (fun x => delim ∉ x) (StrSplit text delim);
  split_nonempty (text : bytes) (delim : Z) : StrSplit text delim <> []
}.

Module Numbers.
Local Open Scope res_scope.

(** ** Splitting *)

Section Split.
Context `{AbslStrings}.

Definition Split (text : bytes) (delim : Z) : list bytes :=
  match text with [] => [] | _ => StrSplit text delim end.

Definition SkipEmpty (sp : bytes) : bool := match sp with [] => false | _ => true end.

(** [Split] with a predicate, which selects among the pieces. *)
Definition SplitIf (text : bytes) (delim : Z) (p : bytes -> bool) : list bytes :=
  match text with [] => [] | _ => List.filter p (StrSplit text delim) end.
End Split.

(** ** Printing *)

Definition kFastToBufferSize : nat := 32.

(** The [do] loop: the digits from the last one on, into [room] chars. *)
Fixpoint digits_loop (room : nat) (i : Z) : res fault bytes :=
  match room with
  | O => Err OutOfBounds
  | S room =>
      let c := wrap_u8 (i mod 10 + 48) in
      if 0 <? i / 10 then let! l := digits_loop room (i / 10) in Ok (c :: l) else Ok [c]
  end.

(** [FastUInt64ToBufferLeft] with [room] chars at [buffer], one of them for the
    terminating 0. *)
Definition FastUInt64ToBufferLeft (room : nat) (i : Z) : res fault bytes :=
  let! l := digits_loop (room - 1) i in Ok (rev l).

Definition FastUInt32ToBufferLeft (room : nat) (i : Z) : res fault bytes :=
  let! l := digits_loop (room - 1) i in Ok (rev l).

Definition FastInt64ToBufferLeft (room : nat) (i : Z) : res fault bytes :=
  let u := wrap_u64 i in
  if i <? 0 then let! l := FastUInt64ToBufferLeft (room - 1) (wrap_u64 (0 - u)) in Ok (45 :: l)
  else FastUInt64ToBufferLeft room u.

Definition FastInt32ToBufferLeft (room : nat) (i : Z) : res fault bytes :=
  let u := wrap_u32 i in
  if i <? 0 then let! l := FastUInt32ToBufferLeft (room - 1) (wrap_u32 (0 - u)) in Ok (45 :: l)
  else FastUInt32ToBufferLeft room u.

(** ** Parsing *)

Definition isspace (c : Z) : bool := (c =? 32) || ((9 <=? c) && (c <=? 13)).
Definition isdigit (c : Z) : bool := (48 <=? c) && (c <=? 57).

Definition SafeFirstChar (str : bytes) : Z := match str with [] => 0 | c :: _ => c end.

Fixpoint SkipSpaces (str : bytes) : bytes :=
  match str with
  | c :: str' => if isspace c then SkipSpaces str' else str
  | [] => []
  end.

(** The loops over the digits, each [do] loop after a test that there is one. *)
Fixpoint strto64_up (vlimit result : Z) (str : bytes) : option (Z * bytes) :=
  match str with
  | c :: str' =>
      if isdigit c then
        let digit := c - 48 in
        if Z.quot (wrap_i64 (vlimit - digit)) 10 <? result then None
        else strto64_up vlimit (wrap_i64 (wrap_i64 (result * 10) + digit)) str'
      else Some (result, str)
  | [] => Some (result, [])
  end.

Fixpoint strto64_down (vlimit result : Z) (str : bytes) : option (Z * bytes) :=
  match str with
  | c :: str' =>
      if isdigit c then
        let digit := c - 48 in
        if result <? Z.quot (wrap_i64 (vlimit + digit)) 10 then None
        else strto64_down vlimit (wrap_i64 (wrap_i64 (result * 10) - digit)) str'
      else Some (result, str)
  | [] => Some (result, [])
  end.

Fixpoint strtou64_loop (result : Z) (str : bytes) : option (Z * bytes) :=
  match str with
  | c :: str' =>
      if isdigit c then
        let digit := c - 48 in
        if wrap_u64 (u64_max - digit) / 10 <? result then None
        else strtou64_loop (wrap_u64 (wrap_u64 (result * 10) + digit)) str'
      else Some (result, str)
  | [] => Some (result, [])
  end.

(** The loops of [safe_strto32] and [safe_strtou32], in 64 bits. *)
Fixpoint strto32_loop (vmax result : Z) (str : bytes) : option (Z * bytes) :=
  match str with
  | c :: str' =>
      if isdigit c then
        let result := wrap_i64 (wrap_i64 (wrap_i64 (result * 10) + c) - 48) in
        if vmax <? result then None else strto32_loop vmax result str'
      else Some (result, str)
  | [] => Some (result, [])
  end.

(** The end of the parsers: only spaces may be left. *)
Definition at_end (r : option (Z * bytes)) : option Z :=
  match r with
  | Some (result, str) => match SkipSpaces str with [] => Some result | _ => None end
  | None => None
  end.

Section Parse.
Context `{AbslStrings}.

Definition safe_strto64 (str : bytes) : option Z :=
  let str := SkipSpaces str in
  let '(minus, str) := ConsumePrefix str [45] in
  if negb (isdigit (SafeFirstChar str)) then None
  else at_end (if minus then strto64_down i64_min 0 str else strto64_up i64_max 0 str).

Definition safe_strtou64 (str : bytes) : option Z :=
  let str := SkipSpaces str in
  if negb (isdigit (SafeFirstChar str)) then None else at_end (strtou64_loop 0 str).

Definition safe_strto32 (str : bytes) : option Z :=
  let str := SkipSpaces str in
  let '(minus, str) := ConsumePrefix str [45] in
  let vmax := if minus then i32_max + 1 else i32_max in
  if negb (isdigit (SafeFirstChar str)) then None
  else option_map (fun result => wrap_i32 (result * (if minus then -1 else 1))) (at_end (strto32_loop vmax 0 str)).

Definition safe_strtou32 (str : bytes) : option Z :=
  let str := SkipSpaces str in
  if negb (isdigit (SafeFirstChar str)) then None
  else option_map wrap_u32 (at_end (strto32_loop (2 ^ 32 - 1) 0 str)).
End Parse.

(** ** Hexadecimal *)

Definition hexdigits : list Z := [48; 49; 50; 51; 52; 53; 54; 55; 56; 57; 97; 98; 99; 100; 101; 102].

(** The loop of [Uint64ToHexString], from the last char on. *)
Fixpoint hex_loop (n : nat) (v : Z) (buf : bytes) : res fault bytes :=
  match n with
  | O => Ok buf
  | S n =>
      match hexdigits !! Z.to_nat (Z.land v 15) with
      | Some c => hex_loop n (Z.shiftr v 4) (c :: buf)
      | None => Err OutOfBounds
      end
  end.

Definition Uint64ToHexString (v : Z) : res fault bytes := hex_loop 16 v [].

Fixpoint hex_value (s : bytes) (v : Z) : option Z :=
  match s with
  | [] => Some v
  | c :: s' =>
      if (48 <=? c) && (c <=? 57) then hex_value s' (wrap_u64 (wrap_u64 (Z.shiftl v 4) + (c - 48)))
      else if (97 <=? c) && (c <=? 102) then hex_value s' (wrap_u64 (wrap_u64 (Z.shiftl v 4) + 10 + (c - 97)))
      else if (65 <=? c) && (c <=? 70) then hex_value s' (wrap_u64 (wrap_u64 (Z.shiftl v 4) + 10 + (c - 65)))
      else None
  end.

Definition HexStringToUint64 (s : bytes) : option Z :=
  match s with [] => None | _ => hex_value s 0 end.

End Numbers.

Import Numbers.

(** ** Numerals *)

Definition blank (l : bytes) : Prop := Forall (fun c => isspace c = true) l.

Definition numeral (ds : bytes) : Prop := ds <> [] /\ Forall (fun c => isdigit c = true) ds.

(** The number that the digits stand for, after the digits of [r]. *)
Definition value_from (r : Z) (ds : bytes) : Z := fold_left (fun r c => r * 10 + (c - 48)) ds r.
Definition value (ds : bytes) : Z := value_from 0 ds.

(** Digits, after a minus if [neg], with spaces around them. *)
Definition spells (neg : bool) (str : bytes) (m : Z) : Prop :=
  exists a ds b, str = a ++ (if neg then [45] else []) ++ ds ++ b /\ blank a /\ numeral ds /\ blank b /\ m = value ds.

Lemma isdigit_range (c : Z) : isdigit c = true <-> 48 <= c <= 57.
Proof. unfold isdigit. rewrite andb_true_iff, !Z.leb_le. lia. Qed.

Lemma digit_not_space (c : Z) : isdigit c = true -> isspace c = false.
Proof.
  intros H. apply isdigit_range in H. unfold isspace.
  rewrite (proj2 (Z.eqb_neq c 32)), (proj2 (Z.leb_gt c 13)) by lia. by rewrite andb_false_r.
Qed.

Lemma space_not_digit (c : Z) : isspace c = true -> isdigit c = false.
Proof. intros H. destruct (isdigit c) eqn:E; [|done]. apply digit_not_space in E. congruence. Qed.

Lemma value_from_ge (r : Z) (ds : bytes) :
  0 <= r -> Forall (fun c => isdigit c = true) ds -> r <= value_from r ds.
Proof.
  intros Hr H. revert r Hr. induction H as [|c ds Hc H IH]; intros r Hr; cbn; [lia|].
  apply isdigit_range in Hc. specialize (IH (r * 10 + (c - 48)) ltac:(lia)). unfold value_from in IH. lia.
Qed.

Lemma value_nonneg (ds : bytes) : numeral ds -> 0 <= value ds.
Proof. intros [_ H]. apply value_from_ge; [lia|done]. Qed.

(** ** Spaces *)

Lemma blank_nil : blank [].
Proof. constructor. Qed.

Lemma digits_nil : Forall (fun c => isdigit c = true) [].
Proof. constructor. Qed.

#[local] Hint Resolve blank_nil digits_nil : core.

Lemma SkipSpaces_split (str : bytes) : exists a, str = a ++ SkipSpaces str /\ blank a.
Proof.
  induction str as [|c str (a & IH & Ha)]; [by exists []|]. cbn. destruct (isspace c) eqn:E; [|by exists []].
  exists (c :: a). cbn. rewrite <- IH. split; [done|by constructor].
Qed.

Lemma SkipSpaces_blank (a str : bytes) : blank a -> SkipSpaces (a ++ str) = SkipSpaces str.
Proof. induction 1 as [|c a Hc Ha IH]; [done|]. cbn. by rewrite Hc. Qed.

Lemma SkipSpaces_nil (str : bytes) : SkipSpaces str = [] <-> blank str.
Proof.
  split; intros H.
  - destruct (SkipSpaces_split str) as (a & Hs & Ha). rewrite H, app_nil_r in Hs. by subst.
  - pose proof (SkipSpaces_blank str [] H) as E. by rewrite app_nil_r in E.
Qed.

Lemma SkipSpaces_stop (c : Z) (str : bytes) : isspace c = false -> SkipSpaces (c :: str) = c :: str.
Proof. intros H. cbn. by rewrite H. Qed.

(** ** The loops over the digits *)

(** The four loops are this one, at their widths. *)
Fixpoint scan (limit result : Z) (str : bytes) : option (Z * bytes) :=
  match str with
  | c :: str' =>
      if isdigit c then
        if limit <? result * 10 + (c - 48) then None else scan limit (result * 10 + (c - 48)) str'
      else Some (result, str)
  | [] => Some (result, [])
  end.

Ltac scan_step :=
  match goal with
  | |- context [isdigit ?c] => let E := fresh "E" in destruct (isdigit c) eqn:E; [apply isdigit_range in E|done]
  end.

Lemma strto64_up_scan (str : bytes) (r : Z) :
  0 <= r <= i64_max -> strto64_up i64_max r str = scan i64_max r str.
Proof.
  revert r. induction str as [|c str IH]; intros r Hr; cbn -[Z.quot i64_max]; [done|]. scan_step.
  unfold i64_max, wrap_i64 in *. rewrite (Z.mod_small (_ - (c - 48) + _)) by lia.
  replace (2 ^ 63 - 1 - (c - 48) + 2 ^ 63 - 2 ^ 63) with (2 ^ 63 - 1 - (c - 48)) by lia.
  rewrite Z.quot_div_nonneg by lia. pose proof (Z.div_mod (2 ^ 63 - 1 - (c - 48)) 10 ltac:(lia)).
  pose proof (Z.mod_pos_bound (2 ^ 63 - 1 - (c - 48)) 10 ltac:(lia)).
  destruct (Z.ltb_spec (2 ^ 63 - 1) (r * 10 + (c - 48))).
  - by rewrite (proj2 (Z.ltb_lt _ _)) by lia.
  - rewrite (proj2 (Z.ltb_ge _ _)) by lia. rewrite (Z.mod_small (r * 10 + _)) by lia.
    rewrite Z.mod_small by lia. rewrite <- IH by lia. f_equal. lia.
Qed.

Lemma strto64_down_scan (str : bytes) (r : Z) :
  0 <= r <= 2 ^ 63 ->
  strto64_down i64_min (- r) str = option_map (fun '(v, s) => (- v, s)) (scan (2 ^ 63) r str).
Proof.
  revert r. induction str as [|c str IH]; intros r Hr; cbn -[Z.quot i64_min Z.pow]; [done|]. scan_step.
  unfold i64_min, wrap_i64 in *. rewrite (Z.mod_small (_ + (c - 48) + _)) by lia.
  replace (- 2 ^ 63 + (c - 48) + 2 ^ 63 - 2 ^ 63) with (- (2 ^ 63 - (c - 48))) by lia.
  rewrite Z.quot_opp_l, Z.quot_div_nonneg by lia. pose proof (Z.div_mod (2 ^ 63 - (c - 48)) 10 ltac:(lia)).
  pose proof (Z.mod_pos_bound (2 ^ 63 - (c - 48)) 10 ltac:(lia)).
  destruct (Z.ltb_spec (2 ^ 63) (r * 10 + (c - 48))).
  - by rewrite (proj2 (Z.ltb_lt _ _)) by lia.
  - rewrite (proj2 (Z.ltb_ge _ _)) by lia. rewrite (Z.mod_small (- r * 10 + _)) by lia.
    rewrite Z.mod_small by lia. rewrite <- IH by lia. f_equal. lia.
Qed.

Lemma strtou64_scan (str : bytes) (r : Z) :
  0 <= r <= u64_max -> strtou64_loop r str = scan u64_max r str.
Proof.
  revert r. induction str as [|c str IH]; intros r Hr; cbn -[Z.div u64_max]; [done|]. scan_step.
  unfold u64_max, wrap_u64 in *. rewrite (Z.mod_small (_ - (c - 48))) by lia.
  pose proof (Z.div_mod (2 ^ 64 - 1 - (c - 48)) 10 ltac:(lia)).
  pose proof (Z.mod_pos_bound (2 ^ 64 - 1 - (c - 48)) 10 ltac:(lia)).
  destruct (Z.ltb_spec (2 ^ 64 - 1) (r * 10 + (c - 48))).
  - by rewrite (proj2 (Z.ltb_lt _ _)) by lia.
  - rewrite (proj2 (Z.ltb_ge _ _)) by lia. rewrite (Z.mod_small (r * 10)) by lia.
    rewrite Z.mod_small by lia. apply IH. lia.
Qed.

Lemma strto32_scan (vmax : Z) (str : bytes) (r : Z) :
  0 <= r <= vmax -> vmax < 2 ^ 33 -> strto32_loop vmax r str = scan vmax r str.
Proof.
  intros Hr Hv. revert r Hr. induction str as [|c str IH]; intros r Hr; cbn [strto32_loop scan]; [done|]. scan_step.
  unfold wrap_i64. rewrite (Z.mod_small (r * 10 + _)) by lia. rewrite (Z.mod_small (_ + c + _)) by lia.
  rewrite Z.mod_small by lia. replace (_ - 2 ^ 63) with (r * 10 + (c - 48)) by lia.
  destruct (Z.ltb_spec vmax (r * 10 + (c - 48))); [done|]. apply IH. lia.
Qed.

Lemma scan_digits (limit r : Z) (ds rest : bytes) :
  0 <= r <= limit -> Forall (fun c => isdigit c = true) ds -> isdigit (SafeFirstChar rest) = false ->
  scan limit r (ds ++ rest) = if limit <? value_from r ds then None else Some (value_from r ds, rest).
Proof.
  intros Hr Hd Hrest. revert r Hr. induction Hd as [|c ds Hc Hd IH]; intros r Hr; cbn [app scan].
  - cbn [value_from fold_left]. rewrite (proj2 (Z.ltb_ge _ _)) by lia. destruct rest as [|c rest]; [done|].
    cbn in Hrest. cbn. by rewrite Hrest.
  - rewrite Hc. change (value_from r (c :: ds)) with (value_from (r * 10 + (c - 48)) ds).
    apply isdigit_range in Hc. destruct (Z.ltb_spec limit (r * 10 + (c - 48))).
    + pose proof (value_from_ge (r * 10 + (c - 48)) ds ltac:(lia) Hd). by rewrite (proj2 (Z.ltb_lt _ _)) by lia.
    + apply IH. lia.
Qed.

Lemma digits_split (str : bytes) :
  exists ds rest, str = ds ++ rest /\ Forall (fun c => isdigit c = true) ds /\ isdigit (SafeFirstChar rest) = false.
Proof.
  induction str as [|c str (ds & rest & -> & Hd & Hr)]; [by exists [], []|].
  destruct (isdigit c) eqn:E; [exists (c :: ds), rest|exists [], (c :: ds ++ rest)]; split; try done.
  split; [by constructor|done].
Qed.

(** The end of a parser on what starts with a digit. *)
Lemma at_end_scan (limit : Z) (str : bytes) (m : Z) :
  0 <= limit ->
  (isdigit (SafeFirstChar str) = true /\ at_end (scan limit 0 str) = Some m) <->
  exists ds b, str = ds ++ b /\ numeral ds /\ blank b /\ m = value ds /\ m <= limit.
Proof.
  intros Hl. split.
  - intros [Hf He]. destruct (digits_split str) as (ds & rest & -> & Hd & Hr). exists ds, rest. split; [done|].
    rewrite scan_digits in He by (lia || done). cbn [at_end] in He.
    destruct (Z.ltb_spec limit (value_from 0 ds)); [done|]. cbn in He.
    destruct (SkipSpaces rest) eqn:E; [|done]. injection He as <-. apply SkipSpaces_nil in E.
    split; [|done]. split; [|done]. intros ->. cbn in Hf. congruence.
  - intros (ds & b & -> & [Hn Hd] & Hb & -> & Hle).
    destruct ds as [|c ds]; [done|]. split; [by apply list.Forall_cons in Hd as [Hc _]|].
    rewrite scan_digits; [|lia|done|].
    + unfold value in Hle. rewrite (proj2 (Z.ltb_ge _ _)) by lia. cbn [at_end]. by rewrite (proj2 (SkipSpaces_nil b)).
    + destruct Hb as [|x b Hx Hb]; [done|]. by apply space_not_digit.
Qed.

(** The parsers without a sign, in terms of [scan]. *)
Definition parse_unsigned (limit : Z) (str : bytes) : option Z :=
  let str := SkipSpaces str in
  if negb (isdigit (SafeFirstChar str)) then None else at_end (scan limit 0 str).

Lemma numeral_first (ds b : bytes) : numeral ds -> exists c s, ds ++ b = c :: s /\ isdigit c = true.
Proof. intros [Hn Hd]. destruct Hd as [|c ds Hc Hd]; [done|]. by exists c, (ds ++ b). Qed.

Lemma parse_unsigned_exact (limit : Z) (str : bytes) (m : Z) :
  0 <= limit -> parse_unsigned limit str = Some m <-> spells false str m /\ m <= limit.
Proof.
  intros Hl. unfold parse_unsigned. cbn zeta. split.
  - intros H. destruct (isdigit (SafeFirstChar (SkipSpaces str))) eqn:E; [|done]. cbn [negb] in H.
    destruct (proj1 (at_end_scan limit (SkipSpaces str) m Hl) (conj E H)) as (ds & b & Hs & Hd & Hb & Hm & Hle).
    destruct (SkipSpaces_split str) as (a & Ha & Hba). split; [|done]. exists a, ds, b. cbn [app].
    rewrite <- Hs. done.
  - intros [(a & ds & b & -> & Ha & Hd & Hb & Hm) Hle]. rewrite SkipSpaces_blank by done. cbn [app].
    destruct (proj2 (at_end_scan limit (ds ++ b) m Hl)) as [Hf He]; [by exists ds, b|].
    destruct (numeral_first ds b Hd) as (c & s & Hcs & Hc). rewrite Hcs in *.
    rewrite SkipSpaces_stop by by apply digit_not_space. rewrite Hf. done.
Qed.

Section Signed.
Context `{absl : AbslStrings} {absl_ok : AbslStringsOk}.

Lemma consume_minus (str : bytes) :
  ConsumePrefix str [45] = match str with c :: s => if c =? 45 then (true, s) else (false, str) | [] => (false, []) end.
Proof.
  destruct str as [|c s]; [|destruct (Z.eqb_spec c 45) as [->|Hc]].
  - apply consume_absent. intros [k Hk]. done.
  - apply (consume_present [45] s).
  - apply consume_absent. intros [k Hk]. cbn in Hk. congruence.
Qed.

(** The parsers with a sign: the sign and the magnitude. *)
Definition parse_signed (limit : bool -> Z) (str : bytes) : option (bool * Z) :=
  let '(minus, str) := ConsumePrefix (SkipSpaces str) [45] in
  if negb (isdigit (SafeFirstChar str)) then None else option_map (pair minus) (at_end (scan (limit minus) 0 str)).

Lemma parse_signed_exact (limit : bool -> Z) (str : bytes) (neg : bool) (m : Z) :
  (forall b, 0 <= limit b) -> parse_signed limit str = Some (neg, m) <-> spells neg str m /\ m <= limit neg.
Proof.
  intros Hl. unfold parse_signed. split.
  - intros H. destruct (SkipSpaces_split str) as (a & Ha & Hba).
    destruct (ConsumePrefix (SkipSpaces str) [45]) as [minus s] eqn:Ec.
    destruct (isdigit (SafeFirstChar s)) eqn:E; [|done]. cbn [negb] in H.
    destruct (at_end (scan (limit minus) 0 s)) as [v|] eqn:He; [|done]. injection H as -> ->.
    destruct (proj1 (at_end_scan _ s m (Hl neg)) (conj E He)) as (ds & b & Hs & Hd & Hb & Hm & Hle).
    split; [|done]. exists a, ds, b. split; [|done]. rewrite Ha, consume_minus in Ec. rewrite Ha.
    rewrite <- Hs. f_equal. rewrite SkipSpaces_blank in Ec by done.
    assert (SkipSpaces (SkipSpaces str) = SkipSpaces str) as Hi.
    { rewrite Ha at 2. by rewrite SkipSpaces_blank. }
    rewrite Hi in Ec. destruct (SkipSpaces str) as [|c r]; [by injection Ec as <- <-|].
    destruct (Z.eqb_spec c 45) as [->|]; by injection Ec as <- <-.
  - intros [(a & ds & b & -> & Ha & Hd & Hb & Hm) Hle]. rewrite SkipSpaces_blank by done.
    destruct (proj2 (at_end_scan (limit neg) (ds ++ b) m (Hl neg))) as [Hf He]; [by exists ds, b|].
    destruct (numeral_first ds b Hd) as (c & s & Hcs & Hc). rewrite Hcs in *.
    assert (SkipSpaces ((if neg then [45] else []) ++ c :: s) = (if neg then [45] else []) ++ c :: s) as ->.
    { destruct neg; [done|]. apply SkipSpaces_stop. by apply digit_not_space. }
    assert (ConsumePrefix ((if neg then [45] else []) ++ c :: s) [45] = (neg, c :: s)) as ->.
    { rewrite consume_minus. destruct neg; cbn; [done|]. apply isdigit_range in Hc.
      by rewrite (proj2 (Z.eqb_neq _ _)) by lia. }
    rewrite Hf. cbn [negb]. by rewrite He.
Qed.

(** The number of a sign and a magnitude. *)
Definition signed (p : bool * Z) : Z := if fst p then - snd p else snd p.

Lemma strto64_signed (str : bytes) :
  safe_strto64 str = option_map signed (parse_signed (fun neg => if neg then 2 ^ 63 else i64_max) str).
Proof.
  unfold safe_strto64, parse_signed. destruct (ConsumePrefix (SkipSpaces str) [45]) as [minus s].
  destruct (isdigit _); [|done]. cbn [negb]. destruct minus.
  - change 0 with (- 0) at 1. rewrite strto64_down_scan by lia.
    destruct (scan (2 ^ 63) 0 s) as [[v r]|]; [|done]. cbn. by destruct (SkipSpaces r).
  - rewrite strto64_up_scan by (unfold i64_max; lia). by destruct (at_end _).
Qed.

Lemma strtou64_unsigned (str : bytes) : safe_strtou64 str = parse_unsigned u64_max str.
Proof. unfold safe_strtou64, parse_unsigned. by rewrite strtou64_scan by (unfold u64_max; lia). Qed.

Lemma scan_range (limit r : Z) (str : bytes) (v : Z) (s : bytes) :
  0 <= r <= limit -> scan limit r str = Some (v, s) -> 0 <= v <= limit.
Proof.
  revert r. induction str as [|c str IH]; intros r Hr; cbn [scan]; [by intros [= <- _]|].
  destruct (isdigit c) eqn:E; [|by intros [= <- _]]. apply isdigit_range in E.
  destruct (Z.ltb_spec limit (r * 10 + (c - 48))); [done|]. apply IH. lia.
Qed.

Lemma at_end_range (limit : Z) (str : bytes) (v : Z) :
  0 <= limit -> at_end (scan limit 0 str) = Some v -> 0 <= v <= limit.
Proof.
  intros Hl. destruct (scan limit 0 str) as [[w s]|] eqn:E; [|done]. cbn. destruct (SkipSpaces s); [|done].
  intros [= <-]. by eapply scan_range; [|exact E]; lia.
Qed.

Lemma strto32_signed (str : bytes) :
  safe_strto32 str = option_map signed (parse_signed (fun neg => if neg then 2 ^ 31 else i32_max) str).
Proof.
  unfold safe_strto32, parse_signed. destruct (ConsumePrefix (SkipSpaces str) [45]) as [minus s].
  destruct (isdigit _); [|done]. cbn [negb].
  assert ((if minus then i32_max + 1 else i32_max) = (if minus then 2 ^ 31 else i32_max)) as -> by by destruct minus.
  rewrite strto32_scan by (unfold i32_max; destruct minus; lia).
  destruct (at_end _) as [v|] eqn:E; [|done]. apply at_end_range in E; [|unfold i32_max; destruct minus; lia].
  cbn. f_equal. unfold wrap_i32, signed, i32_max in *.
  destruct minus; cbn [fst snd]; rewrite Z.mod_small by lia; lia.
Qed.

Lemma strtou32_unsigned (str : bytes) : safe_strtou32 str = parse_unsigned (2 ^ 32 - 1) str.
Proof.
  unfold safe_strtou32, parse_unsigned. cbn zeta. destruct (isdigit _); [|done]. cbn [negb].
  rewrite strto32_scan by lia. destruct (at_end _) as [v|] eqn:E; [|done].
  apply at_end_range in E; [|lia]. cbn. f_equal. apply Z.mod_small. lia.
Qed.

Lemma signed_parser (limit : bool -> Z) (str : bytes) (v : Z) :
  (forall b, 0 <= limit b) ->
  option_map signed (parse_signed limit str) = Some v <->
  exists neg m, spells neg str m /\ m <= limit neg /\ v = signed (neg, m).
Proof.
  intros Hl. split.
  - intros H. destruct (parse_signed limit str) as [[neg m]|] eqn:E; [|done]. injection H as <-.
    apply parse_signed_exact in E as [Hs Hm]; [|done]. by exists neg, m.
  - intros (neg & m & Hs & Hm & ->). by rewrite (proj2 (parse_signed_exact limit str neg m Hl) (conj Hs Hm)).
Qed.

End Signed.

(** ** Printing *)

Lemma digits_loop_ok (room : nat) (i : Z) :
  (0 < room)%nat -> 0 <= i < 10 ^ Z.of_nat room ->
  exists l, digits_loop room i = Ok l /\ numeral (rev l) /\ value (rev l) = i /\ (length l <= room)%nat.
Proof.
  revert i. induction room as [|room IH]; intros i Hroom Hi; [lia|]. cbn [digits_loop].
  pose proof (Z.mod_pos_bound i 10 ltac:(lia)). pose proof (Z.div_mod i 10 ltac:(lia)).
  rewrite wrap_u8_id by (unfold in_u8; lia).
  assert (isdigit (i mod 10 + 48) = true) as Hc by (apply isdigit_range; lia).
  destruct (Z.ltb_spec 0 (i / 10)) as [Hp|Hp].
  - assert (0 <= i / 10 < 10 ^ Z.of_nat room) as Hr.
    { rewrite Nat2Z.inj_succ, Z.pow_succ_r in Hi by lia. split; [lia|]. apply Z.div_lt_upper_bound; lia. }
    destruct room as [|room]; [cbn in Hr; lia|].
    destruct (IH (i / 10) ltac:(lia) Hr) as (l & -> & [Hn Hd] & Hv & Hlen). cbn [res_bind]. exists ((i mod 10 + 48) :: l).
    split; [done|]. cbn [rev length]. split; [|split; [|lia]].
    + split; [by destruct (rev l)|]. apply list.Forall_app. split; [done|]. by constructor.
    + unfold value, value_from in *. rewrite fold_left_app, Hv. cbn. lia.
  - exists [i mod 10 + 48]. split; [done|]. split; [split; [done|by constructor]|]. split; [cbn; lia|cbn; lia].
Qed.

Lemma FastUInt64_ok (room : nat) (i : Z) :
  (22 <= room)%nat -> in_u64 i ->
  exists ds, FastUInt64ToBufferLeft room i = Ok ds /\ numeral ds /\ value ds = i /\ (length ds < room)%nat.
Proof.
  intros Hr Hi. unfold in_u64 in Hi. unfold FastUInt64ToBufferLeft.
  assert (2 ^ 64 < 10 ^ Z.of_nat (room - 1)) as Hp.
  { apply Z.lt_le_trans with (10 ^ 20); [done|]. apply Z.pow_le_mono_r; lia. }
  destruct (digits_loop_ok (room - 1) i ltac:(lia) ltac:(lia)) as (l & -> & Hn & Hv & Hlen).
  exists (rev l). rewrite length_rev. cbn. split; [done|]. split; [done|]. split; [done|lia].
Qed.

(** The text of a number: a minus and digits. *)
Definition printed (i : Z) (str : bytes) : Prop :=
  exists ds, str = (if i <? 0 then [45] else []) ++ ds /\ numeral ds /\ value ds = Z.abs i.

Lemma FastInt64_ok (i : Z) : in_i64 i -> exists str, FastInt64ToBufferLeft kFastToBufferSize i = Ok str /\ printed i str.
Proof.
  intros Hi. unfold in_i64 in Hi. unfold FastInt64ToBufferLeft, printed. cbn zeta.
  destruct (Z.ltb_spec i 0) as [Hneg|Hpos].
  - assert (wrap_u64 (0 - wrap_u64 i) = - i) as ->.
    { unfold wrap_u64. rewrite Zminus_mod_idemp_r, Z.mod_small by lia. lia. }
    destruct (FastUInt64_ok (kFastToBufferSize - 1) (- i)) as (ds & -> & Hn & Hv & _);
      [unfold kFastToBufferSize; lia|unfold in_u64; lia|].
    exists (45 :: ds). cbn. split; [done|]. exists ds. split; [done|]. split; [done|lia].
  - assert (wrap_u64 i = i) as -> by (apply Z.mod_small; lia).
    destruct (FastUInt64_ok kFastToBufferSize i) as (ds & -> & Hn & Hv & _); [unfold kFastToBufferSize; lia|unfold in_u64; lia|].
    exists ds. split; [done|]. exists ds. split; [done|]. split; [done|lia].
Qed.

Lemma FastInt32_64 (i : Z) : in_i32 i -> FastInt32ToBufferLeft kFastToBufferSize i = FastInt64ToBufferLeft kFastToBufferSize i.
Proof.
  intros Hi. unfold in_i32 in Hi. unfold FastInt32ToBufferLeft, FastInt64ToBufferLeft. cbn zeta.
  destruct (Z.ltb_spec i 0) as [Hneg|Hpos].
  - unfold wrap_u64, wrap_u32. rewrite !Zminus_mod_idemp_r, !Z.mod_small by lia. done.
  - unfold wrap_u64, wrap_u32. by rewrite !Z.mod_small by lia.
Qed.

Lemma printed_spells (i : Z) (a str b : bytes) :
  blank a -> blank b -> printed i str -> spells (i <? 0) (a ++ str ++ b) (Z.abs i).
Proof.
  intros Ha Hb (ds & -> & Hn & Hv). exists a, ds, b. rewrite <- app_assoc. by rewrite Hv.
Qed.

Lemma digits_spell (i : Z) (a ds b : bytes) :
  blank a -> blank b -> numeral ds -> value ds = i -> spells false (a ++ ds ++ b) i.
Proof. intros Ha Hb Hn Hv. by exists a, ds, b. Qed.

Lemma signed_abs (i : Z) : i = signed (i <? 0, Z.abs i).
Proof. unfold signed. cbn. destruct (Z.ltb_spec i 0); lia. Qed.

(** ** Hexadecimal *)

Lemma hex_digit (d : nat) (s : bytes) (v : Z) :
  (d < 16)%nat -> 0 <= v < 2 ^ 60 ->
  exists c, hexdigits !! d = Some c /\ hex_value (c :: s) v = hex_value s (v * 16 + Z.of_nat d).
Proof.
  intros Hd Hv. assert (wrap_u64 (Z.shiftl v 4) = v * 16) as E.
  { unfold wrap_u64. rewrite Z.shiftl_mul_pow2, Z.mod_small by lia. lia. }
  assert (forall x, 0 <= x < 16 -> wrap_u64 (v * 16 + x) = v * 16 + x) as Hw.
  { intros x Hx. apply Z.mod_small. lia. }
  do 16 (destruct d as [|d]; [eexists; split; [reflexivity|]; cbn [hex_value]; rewrite E;
    cbn; rewrite <- ?Z.add_assoc; cbn; apply f_equal, Hw; lia|]). lia.
Qed.

Lemma hex_loop_ok (n : nat) (v : Z) (buf : bytes) :
  (n <= 16)%nat -> 0 <= v < 16 ^ Z.of_nat n ->
  exists ds, hex_loop n v buf = Ok (ds ++ buf) /\ length ds = n /\
    forall s w, 0 <= w -> w * 16 ^ Z.of_nat n + v < 2 ^ 64 ->
      hex_value (ds ++ s) w = hex_value s (w * 16 ^ Z.of_nat n + v).
Proof.
  revert v buf. induction n as [|n IH]; intros v buf Hn Hv; cbn [hex_loop].
  - exists []. cbn in *. split; [done|]. split; [done|]. intros s w Hw Hb. f_equal. lia.
  - rewrite Nat2Z.inj_succ, Z.pow_succ_r in * by lia. set (p := 16 ^ Z.of_nat n) in *.
    change 15 with (Z.ones 4). rewrite Z.land_ones by lia. rewrite Z.shiftr_div_pow2 by lia.
    change (2 ^ 4) with 16. pose proof (Z.mod_pos_bound v 16 ltac:(lia)). pose proof (Z.div_mod v 16 ltac:(lia)).
    assert (0 <= v / 16 < p) as Hq by (split; [apply Z.div_pos; lia|apply Z.div_lt_upper_bound; lia]).
    destruct (hex_digit (Z.to_nat (v mod 16)) [] 0 ltac:(lia) ltac:(lia)) as (c & Hc & _).
    rewrite Hc. destruct (IH (v / 16) (c :: buf) ltac:(lia) Hq) as (ds & -> & Hlen & Hval).
    exists (ds ++ [c]). rewrite <- app_assoc, length_app, Hlen. cbn [app length]. split; [done|]. split; [lia|].
    intros s w Hw Hb. assert (w * p + v / 16 < 2 ^ 60) as Hsmall by nia.
    rewrite <- app_assoc. rewrite Hval by nia. cbn [app].
    destruct (hex_digit (Z.to_nat (v mod 16)) s (w * p + v / 16) ltac:(lia) ltac:(nia)) as (c' & Hc' & Hstep).
    assert (c' = c) as -> by congruence. rewrite Hstep. f_equal. rewrite Z2Nat.id by lia. nia.
Qed.

(** ** Properties *)

Section Properties.
Context `{absl : AbslStrings} {absl_ok : AbslStringsOk}.

(** C40: the parsers accept exactly the numerals of their types.  [safe_strto64],
    [safe_strtou64], [safe_strto32] and [safe_strtou32] return a number if and
    only if the text is its numeral, with spaces around it and for the signed types
    a minus in front, and the number fits the type: no numeral that fits is refused
    at the limits, and none that does not fit wraps around. *)
Theorem number_parsers_exact (str : bytes) (v : Z) :
  (safe_strto64 str = Some v <-> in_i64 v /\ exists neg m, spells neg str m /\ v = signed (neg, m)) /\
  (safe_strtou64 str = Some v <-> in_u64 v /\ spells false str v) /\
  (safe_strto32 str = Some v <-> in_i32 v /\ exists neg m, spells neg str m /\ v = signed (neg, m)) /\
  (safe_strtou32 str = Some v <-> in_u32 v /\ spells false str v).
Proof.
  assert (forall neg m, spells neg str m -> 0 <= m) as Hnn.
  { intros neg m (a & ds & b & _ & _ & Hd & _ & ->). by apply value_nonneg. }
  rewrite strto64_signed, strtou64_unsigned, strto32_signed, strtou32_unsigned.
  rewrite !signed_parser by (unfold i64_max, i32_max; intros []; lia).
  rewrite !parse_unsigned_exact by (unfold u64_max; lia). unfold i64_max, u64_max, i32_max, in_i64, in_u64, in_i32, in_u32.
  split_and!; split.
  - intros (neg & m & Hs & Hm & ->). specialize (Hnn _ _ Hs). split; [|by exists neg, m].
    unfold signed. destruct neg; cbn [fst snd] in *; lia.
  - intros (Hr & neg & m & Hs & ->). specialize (Hnn _ _ Hs). exists neg, m. split; [done|]. split; [|done].
    unfold signed in Hr. destruct neg; cbn [fst snd] in *; lia.
  - intros [Hs Hm]. specialize (Hnn _ _ Hs). split; [lia|done].
  - intros [Hr Hs]. split; [done|lia].
  - intros (neg & m & Hs & Hm & ->). specialize (Hnn _ _ Hs). split; [|by exists neg, m].
    unfold signed. destruct neg; cbn [fst snd] in *; lia.
  - intros (Hr & neg & m & Hs & ->). specialize (Hnn _ _ Hs). exists neg, m. split; [done|]. split; [|done].
    unfold signed in Hr. destruct neg; cbn [fst snd] in *; lia.
  - intros [Hs Hm]. specialize (Hnn _ _ Hs). split; [lia|done].
  - intros [Hr Hs]. split; [done|lia].
Qed.

Lemma strto64_printed (i : Z) (a str b : bytes) :
  blank a -> blank b -> in_i64 i -> printed i str -> safe_strto64 (a ++ str ++ b) = Some i.
Proof.
  intros Ha Hb Hi Hp. rewrite strto64_signed, signed_parser by (unfold i64_max; intros []; lia).
  exists (i <? 0), (Z.abs i). split; [by apply printed_spells|]. unfold in_i64 in Hi. split; [|apply signed_abs].
  unfold i64_max. destruct (Z.ltb_spec i 0); lia.
Qed.

(** Printed numbers parse.  Every number of 64 or 32 bits is printed inside of
    the buffer of [kFastToBufferSize] chars, and its text is parsed to the number
    again, also with spaces around it; so is the hexadecimal text of 16 digits. *)
Theorem numbers_round_trip (a b : bytes) (i u : Z) :
  blank a -> blank b -> in_i64 i -> in_u64 u ->
  (exists str, FastInt64ToBufferLeft kFastToBufferSize i = Ok str /\ safe_strto64 (a ++ str ++ b) = Some i /\
    (in_i32 i -> FastInt32ToBufferLeft kFastToBufferSize i = Ok str /\ safe_strto32 (a ++ str ++ b) = Some i)) /\
  (exists str, FastUInt64ToBufferLeft kFastToBufferSize u = Ok str /\ safe_strtou64 (a ++ str ++ b) = Some u /\
    (in_u32 u -> FastUInt32ToBufferLeft kFastToBufferSize u = Ok str /\ safe_strtou32 (a ++ str ++ b) = Some u)) /\
  (exists str, Uint64ToHexString u = Ok str /\ length str = 16%nat /\ HexStringToUint64 str = Some u).
Proof.
  intros Ha Hb Hi Hu. split; [|split].
  - destruct (FastInt64_ok i Hi) as (str & Hs & Hp). exists str. split; [done|]. split; [by apply strto64_printed|].
    intros H32. rewrite FastInt32_64 by done. split; [done|].
    rewrite strto32_signed, signed_parser by (unfold i32_max; intros []; lia).
    exists (i <? 0), (Z.abs i). split; [by apply printed_spells|]. unfold in_i32 in H32. split; [|apply signed_abs].
    unfold i32_max. destruct (Z.ltb_spec i 0); lia.
  - destruct (FastUInt64_ok kFastToBufferSize u) as (ds & Hs & Hn & Hv & _); [unfold kFastToBufferSize; lia|done|].
    exists ds. unfold in_u64 in Hu. pose proof (digits_spell u a ds b Ha Hb Hn Hv) as Hsp.
    split; [done|]. split; [rewrite strtou64_unsigned, parse_unsigned_exact by (unfold u64_max; lia); unfold u64_max; split; [done|lia]|].
    intros H32. unfold in_u32 in H32. split; [done|].
    rewrite strtou32_unsigned, parse_unsigned_exact by lia. split; [done|lia].
  - unfold in_u64 in Hu. destruct (hex_loop_ok 16 u [] ltac:(lia) ltac:(cbn; lia)) as (ds & Hh & Hlen & Hval).
    exists ds. unfold Uint64ToHexString. rewrite Hh, app_nil_r. split; [done|]. split; [done|].
    specialize (Hval [] 0 ltac:(lia) ltac:(cbn; lia)). rewrite app_nil_r in Hval.
    destruct ds; [done|]. unfold HexStringToUint64. by rewrite Hval.
Qed.

End Properties.

(** ** Abseil's functions in a model *)

Fixpoint split_model (text : bytes) (delim : Z) : list bytes :=
  match text with
  | [] => [[]]
  | c :: text' =>
      if c =? delim then [] :: split_model text' delim
      else match split_model text' delim with x :: l => (c :: x) :: l | [] => [[c]] end
  end.

Fixpoint consume_model (expected str : bytes) : option bytes :=
  match expected, str with
  | [], _ => Some str
  | e :: expected', c :: str' => if e =? c then consume_model expected' str' else None
  | _, [] => None
  end.

#[export] Instance absl_model : AbslStrings := {|
  ConsumePrefix := fun str expected =>
    match consume_model expected str with Some r => (true, r) | None => (false, str) end;
  StrSplit := split_model
|}.

Lemma consume_model_app (expected rest : bytes) : consume_model expected (expected ++ rest) = Some rest.
Proof. induction expected as [|e l IH]; [done|]. cbn. by rewrite Z.eqb_refl. Qed.

Lemma consume_model_Some (expected str r : bytes) : consume_model expected str = Some r -> str = expected ++ r.
Proof.
  revert str. induction expected as [|e l IH]; intros str; cbn; [by intros [= ->]|].
  destruct str as [|c str]; [done|]. destruct (Z.eqb_spec e c) as [->|]; [|done]. intros H. cbn. f_equal. by apply IH.
Qed.

Lemma split_model_nonempty (text : bytes) (delim : Z) : split_model text delim <> [].
Proof. destruct text as [|c t]; cbn; [done|]. destruct (c =? delim); [done|]. by destruct (split_model t delim). Qed.

Lemma split_model_ok (text : bytes) (delim : Z) :
  join_pieces delim (split_model text delim) = text /\ Forall (fun x => delim ∉ x) (split_model text delim).
Proof.
  induction text as [|c t [IH1 IH2]]; cbn [split_model].
  - split; [done|]. constructor; [set_solver|constructor].
  - pose proof (split_model_nonempty t delim) as Hn. destruct (Z.eqb_spec c delim) as [->|Hc].
    + split; [|constructor; [set_solver|done]]. destruct (split_model t delim); [done|].
      cbn [join_pieces app] in *. by rewrite IH1.
    + destruct (split_model t delim) as [|x l] eqn:E; [done|]. apply list.Forall_cons in IH2 as [Hx Hl].
      split; [|constructor; [set_solver|done]]. rewrite <- IH1. by destruct l.
Qed.

#[export] Instance absl_model_ok : AbslStringsOk.
Proof.
  split.
  - intros expected rest. cbn. by rewrite consume_model_app.
  - intros expected str Hn. cbn. destruct (consume_model expected str) as [r|] eqn:E; [|done].
    apply consume_model_Some in E. exfalso. apply Hn. by exists r.
  - apply split_model_ok.
  - apply split_model_nonempty.
Qed.

(** 17 digits: 16^16 wraps around to 0. *)
Example hex_wraps : HexStringToUint64 [49; 48; 48; 48; 48; 48; 48; 48; 48; 48; 48; 48; 48; 48; 48; 48; 48] = Some 0.
Proof. reflexivity. Qed.

Lemma number_parsers_exact_witness :
  safe_strto64 [32; 45; 57] = Some (-9) /\ safe_strtou64 [45; 57] = None /\
  (safe_strto64 [32; 45; 57] = Some (-9) <->
   in_i64 (-9) /\ exists neg m, spells neg [32; 45; 57] m /\ -9 = signed (neg, m)).
Proof. split; [reflexivity|]. split; [reflexivity|]. exact (proj1 (number_parsers_exact [32; 45; 57] (-9))). Defined.

Lemma numbers_round_trip_witness :
  FastInt64ToBufferLeft kFastToBufferSize (-9223372036854775808) =
    Ok [45; 57; 50; 50; 51; 51; 55; 50; 48; 51; 54; 56; 53; 52; 55; 55; 53; 56; 48; 56] /\
  exists str, FastInt64ToBufferLeft kFastToBufferSize (-9223372036854775808) = Ok str /\
    safe_strto64 ([32] ++ str ++ [10]) = Some (-9223372036854775808) /\
    (in_i32 (-9223372036854775808) ->
     FastInt32ToBufferLeft kFastToBufferSize (-9223372036854775808) = Ok str /\
     safe_strto32 ([32] ++ str ++ [10]) = Some (-9223372036854775808)).
Proof.
  split; [reflexivity|]. assert (blank [32]) as Ha by (repeat constructor).
  assert (blank [10]) as Hb by (repeat constructor).
  assert (in_i64 (-9223372036854775808)) as Hi by (unfold in_i64; lia).
  assert (in_u64 255) as Hu by (unfold in_u64; lia).
  exact (proj1 (numbers_round_trip [32] [10] (-9223372036854775808) 255 Ha Hb Hi Hu)).
Defined.
