(* ===== verification/TensorSlice.v ===== *)
(** Slices of tensors in checkpoints.

    [core/framework/tensor_slice.{h,cc}] ([TensorSlice]) and the keys and
    specifications of [core/util/saved_tensor_slice_util.cc].  A slice has a start
    and a length for each dimension; a dimension that is taken whole has start 0
    and length -1.  The vectors of starts and lengths have the same size, since every
    function that pushes to one pushes to the other, and the loops run below
    [dims()], so a slice is never read outside of its own vectors.  The two
    functions that take a second slice without comparing the ranks,
    [ComputeRelative] and [UpdateToCover], fail where they would read it out of
    range.  Output arguments are passed and returned.  A failed [CHECK] and such a
    read are [Crash]; a [DCHECK] is not in a release build.  The theorems
    read a slice as a box of indices: intersections, hulls, relative slices and
    shapes are those of the boxes, and text, protos and keys read back. *)
From S2P Require Import Prelude TensorShape ShapeSpec Bytes Coding Block OrderedCode Numbers.
Import Shape.

(** How a call can fail: a failed [CHECK] or an access out of range, whose effect is
    undefined, or a [Status] that is not OK. *)
Inductive failure : Type := Crash | Fail (c : code).

(** What the generated class [TensorSliceProto] holds of an extent: the start, and
    the length if that field is set. *)
Record Extent : Type := mkExtent { e_start : Z; e_length : option Z }.
Definition TensorSliceProto : Type := list Extent.

Module TensorSlice.
Local Open Scope res_scope.

Record t := mk { starts_ : list Z; lengths_ : list Z }.

Definition kFullExtent : Z := -1.

Definition Clear : t := mk [] [].

Definition dims (s : t) : nat := length (starts_ s).

Definition start (s : t) (d : nat) : Z := nth d (starts_ s) 0.
Definition length_ (s : t) (d : nat) : Z := nth d (lengths_ s) 0.
Definition end_ (s : t) (d : nat) : Z := wrap_i64 (start s d + length_ s d).

Definition set_start (s : t) (d : nat) (x : Z) : t := mk (<[d := x]> (starts_ s)) (lengths_ s).
Definition set_length (s : t) (d : nat) (x : Z) : t := mk (starts_ s) (<[d := x]> (lengths_ s)).

(** [starts_.push_back(x)] and [lengths_.push_back(y)], as in [SetFullSlice], the
    constructors, [BuildTensorSlice] and [Parse] *)
Definition push_start (s : t) (x : Z) : t := mk (starts_ s ++ [x]) (lengths_ s).
Definition push_length (s : t) (y : Z) : t := mk (starts_ s) (lengths_ s ++ [y]).

Definition IsFullAt (s : t) (d : nat) : bool := (length_ s d =? kFullExtent) && (start s d =? 0).

Definition IsFull (s : t) : bool := forallb (IsFullAt s) (seq 0 (dims s)).

Fixpoint push_full (n : nat) (s : t) : t :=
  match n with O => s | S n => push_full n (push_length (push_start s 0) kFullExtent) end.

Definition SetFullSlice (dim : nat) : t := push_full dim Clear.

(** [resize] of a vector of integers *)
Definition resize (n : nat) (l : list Z) : list Z := take n l ++ replicate (n - length l) 0.

Definition Extend (s : t) (dim : nat) : t :=
  let old_dim := dims s in
  foldl (fun s d => set_length (set_start s d 0) d kFullExtent)
    (mk (resize dim (starts_ s)) (resize dim (lengths_ s))) (seq old_dim (dim - old_dim)).

(** ** Construction *)

(** [TensorSlice(int dim)] and [TensorSlice(initializer_list)] *)
Definition TensorSlice (dim : nat) : t := SetFullSlice dim.
Definition FromExtents (extents : list (Z * Z)) : t :=
  foldl (fun s e => push_length (push_start s (fst e)) (snd e)) Clear extents.

Definition HasExtentLength (extent : Extent) : bool := match e_length extent with Some _ => true | None => false end.

(** The field [length], 0 when it is not set *)
Definition extent_length (extent : Extent) : Z := default 0 (e_length extent).

Definition GetExtentLength (extent : Extent) : Z :=
  if negb (HasExtentLength extent) then -1 else extent_length extent.

(** [TensorSlice(const TensorSliceProto&)] *)
Definition FromSliceProto (proto : TensorSliceProto) : t :=
  foldl (fun s e => push_length (push_start s (e_start e)) (GetExtentLength e)) Clear proto.

Fixpoint build_loop (proto : TensorSliceProto) (output : t) : res code unit * t :=
  match proto with
  | [] => (Ok tt, output)
  | e :: proto' =>
      let l := GetExtentLength e in
      if negb (e_start e =? 0) || negb (l =? kFullExtent) then
        if (e_start e <? 0) || (l <=? 0) then (Err InvalidArgument, output)
        else if i64_max <? wrap_u64 (wrap_u64 (e_start e) + wrap_u64 (extent_length e)) then (Err InvalidArgument, output)
        else build_loop proto' (push_length (push_start output (e_start e)) l)
      else build_loop proto' (push_length (push_start output (e_start e)) l)
  end.

Definition BuildTensorSlice (proto : TensorSliceProto) : res code unit * t := build_loop proto Clear.

Section Text.
Context `{AbslStrings}.

Fixpoint parse_loop (items : list bytes) (slice : t) : res code unit * t :=
  match items with
  | [] => (Ok tt, slice)
  | x :: items' =>
      if bool_decide (x = [45]) then parse_loop items' (push_length (push_start slice 0) kFullExtent)
      else
        let sl := Numbers.SplitIf x 44 Numbers.SkipEmpty in
        match sl with
        | [a; b] =>
            match Numbers.safe_strto64 a, Numbers.safe_strto64 b with
            | Some s, Some l =>
                if (s <? 0) || (l <=? 0) then (Err InvalidArgument, slice)
                else parse_loop items' (push_length (push_start slice s) l)
            | _, _ => (Err InvalidArgument, slice)
            end
        | _ => (Err InvalidArgument, slice)
        end
  end.

(** [Parse] appends to the slice it is given. *)
Definition Parse (str : bytes) (slice : t) : res code unit * t :=
  parse_loop (Numbers.SplitIf str 58 Numbers.SkipEmpty) slice.

Definition ParseOrDie (str : bytes) : res failure t :=
  match Parse str Clear with (Ok _, ret) => Ok ret | (Err _, _) => Err Crash end.
End Text.

(** ** Conversion *)

Definition AsProto (s : t) : TensorSliceProto :=
  map (fun d => if IsFullAt s d then mkExtent 0 None else mkExtent (start s d) (Some (length_ s d))) (seq 0 (dims s)).

(** [strings::StrAppend(&buffer, a, ",", b)] *)
Definition append_pair (buffer : bytes) (a b : Z) : res fault bytes :=
  let! x := Numbers.FastInt64ToBufferLeft Numbers.kFastToBufferSize a in
  let! y := Numbers.FastInt64ToBufferLeft Numbers.kFastToBufferSize b in
  Ok (buffer ++ x ++ [44] ++ y).

Fixpoint debug_loop (ds : list nat) (s : t) (first : bool) (buffer : bytes) : res fault bytes :=
  match ds with
  | [] => Ok buffer
  | d :: ds' =>
      let buffer := if negb first then buffer ++ [58] else buffer in
      let! buffer := if IsFullAt s d then Ok (buffer ++ [45]) else append_pair buffer (start s d) (length_ s d) in
      debug_loop ds' s false buffer
  end.

Definition DebugString (s : t) : res fault bytes := debug_loop (seq 0 (dims s)) s true [].

(** ** Two slices *)

(** [if (result) { result->set_start(d, x); result->set_length(d, y); }] *)
Definition put (result : option t) (d : nat) (x y : Z) : option t :=
  option_map (fun r => set_length (set_start r d x) d y) result.

Fixpoint intersect_loop (ds : list nat) (s other : t) (result : option t) : bool * option t :=
  match ds with
  | [] => (true, result)
  | d :: ds' =>
      if IsFullAt s d then intersect_loop ds' s other (put result d (start other d) (length_ other d))
      else if IsFullAt other d then intersect_loop ds' s other (put result d (start s d) (length_ s d))
      else
        let x := Z.max (start s d) (start other d) in
        let l := wrap_i64 (Z.min (end_ s d) (end_ other d) - x) in
        if 0 <? l then intersect_loop ds' s other (put result d x l)
        else (false, option_map (fun _ => Clear) result)
  end.

(** [Intersect]; [result] is [None] for a null pointer. *)
Definition Intersect (s other : t) (result : option t) : bool * option t :=
  if negb (dims s =? dims other)%nat then (false, result)
  else intersect_loop (seq 0 (dims s)) s other (option_map (fun _ => SetFullSlice (dims s)) result).

Definition Overlaps (s other : t) : bool := fst (Intersect s other None).

Definition operator_eq (s other : t) : bool :=
  (dims s =? dims other)%nat && bool_decide (starts_ s = starts_ other) && bool_decide (lengths_ s = lengths_ other).

(** Both functions only [DCHECK] the ranks; [check! (d <? dims _)] stands for the
    access to the other slice at [d]. *)
Fixpoint relative_loop (ds : list nat) (s sub relative : t) : res failure t :=
  match ds with
  | [] => Ok relative
  | d :: ds' =>
      check! (d <? dims sub)%nat else Crash in
      relative_loop ds' s sub
        (if IsFullAt s d then set_length (set_start relative d (start sub d)) d (length_ sub d)
         else set_length (set_start relative d (wrap_i64 (start sub d - start s d))) d (length_ sub d))
  end.

Definition ComputeRelative (s sub : t) : res failure t :=
  relative_loop (seq 0 (dims s)) s sub (SetFullSlice (dims s)).

Definition cover_step (s other : t) (d : nat) : res failure t :=
  if negb (IsFullAt s d) then
    check! (d <? dims other)%nat else Crash in
    if IsFullAt other d then Ok (set_length (set_start s d 0) d kFullExtent)
    else
      let new_end := Z.max (end_ s d) (end_ other d) in
      let s := set_start s d (Z.min (start s d) (start other d)) in
      Ok (set_length s d (wrap_i64 (new_end - start s d)))
  else Ok s.

Fixpoint cover_loop (ds : list nat) (s other : t) : res failure t :=
  match ds with
  | [] => Ok s
  | d :: ds' => let! s := cover_step s other d in cover_loop ds' s other
  end.

Definition UpdateToCover (s other : t) : res failure t := cover_loop (seq 0 (dims s)) s other.

(** ** Slices and shapes *)

Definition add_dim (result_shape : Shape.t) (size : Z) : res failure Shape.t :=
  match AddDim false result_shape size with Some r => Ok r | None => Err Crash end.

Fixpoint slice_shape_loop (ds : list nat) (s : t) (shape result_shape : Shape.t) : res failure Shape.t :=
  match ds with
  | [] => Ok result_shape
  | d :: ds' =>
      if IsFullAt s d then
        let! r := add_dim result_shape (dim_size false shape (Z.of_nat d)) in slice_shape_loop ds' s shape r
      else if end_ s d <=? dim_size false shape (Z.of_nat d) then
        let! r := add_dim result_shape (length_ s d) in slice_shape_loop ds' s shape r
      else Err (Fail Internal)
  end.

(** [SliceTensorShape]; when it fails, [*result_shape] is cleared. *)
Definition SliceTensorShape (s : t) (shape : Shape.t) : res failure Shape.t :=
  if negb (Shape.dims false shape =? Z.of_nat (dims s)) then Err (Fail Internal)
  else slice_shape_loop (seq 0 (dims s)) s shape Shape.Clear.

(** [FillIndicesAndSizes<NDIMS>]: the indices and the sizes. *)
Definition FillIndicesAndSizes (NDIMS : nat) (s : t) (shape : Shape.t) : res failure (list Z * list Z) :=
  check! Shape.dims false shape =? Z.of_nat (dims s) else Crash in
  check! (dims s <=? NDIMS)%nat else Crash in
  Ok (map (fun d => if IsFullAt s d then 0 else start s d) (seq 0 (dims s)) ++ replicate (NDIMS - dims s) 0,
      map (fun d => if IsFullAt s d then dim_size false shape (Z.of_nat d) else length_ s d) (seq 0 (dims s))
        ++ replicate (NDIMS - dims s) 1).

End TensorSlice.

(** ** Keys and specifications of saved slices *)
Module SavedSlices.
Import TensorSlice OrderedCode.OrderedCode.
Local Open Scope res_scope.

Definition kint32max : Z := i32_max.

Fixpoint encode_extents (ds : list nat) (slice : t) (buffer : bytes) : res fault bytes :=
  match ds with
  | [] => Ok buffer
  | d :: ds' =>
      let! buffer := WriteSignedNumIncreasing buffer (start slice d) in
      let! buffer := WriteSignedNumIncreasing buffer (length_ slice d) in
      encode_extents ds' slice buffer
  end.

Definition EncodeTensorNameSlice (name : bytes) (slice : t) : res fault bytes :=
  let! buffer := WriteNumIncreasing [] 0 in
  let! buffer := WriteString buffer name in
  let! buffer := WriteNumIncreasing buffer (Z.of_nat (dims slice)) in
  encode_extents (seq 0 (dims slice)) slice buffer.

Fixpoint decode_extents (ds : list nat) (src : bytes) (slice : t) : res fault (res code unit * t) :=
  match ds with
  | [] => Ok (Ok tt, slice)
  | d :: ds' =>
      let! (ok, src, start) := ReadSignedNumIncreasing src (Some 0) in
      if negb ok then Ok (Err Internal, slice)
      else
        let! (ok, src, length) := ReadSignedNumIncreasing src (Some 0) in
        if negb ok then Ok (Err Internal, slice)
        else
          let length := default 0 length in
          decode_extents ds' src
            (if 0 <=? length then set_length (set_start slice d (default 0 start)) d length else slice)
  end.

(** [DecodeTensorNameSlice]: the status and the values of [*name], to which the
    name is appended, and of [*slice]. *)
Definition DecodeTensorNameSlice (code : bytes) (name : bytes) (slice : t) :
    res fault (res Shape.code unit * bytes * t) :=
  let! (ok, src, x) := ReadNumIncreasing code (Some 0) in
  if negb ok then Ok (Err Internal, name, slice)
  else if negb (default 0 x =? 0) then Ok (Err Internal, name, slice)
  else
    let! (ok, src, name') := ReadString src (Some name) in
    let name := default name name' in
    if negb ok then Ok (Err Internal, name, slice)
    else
      let! (ok, src, x) := ReadNumIncreasing src x in
      if negb ok then Ok (Err Internal, name, slice)
      else
        let x := default 0 x in
        if x =? 0 then Ok (Err Internal, name, slice)
        else if kint32max <=? x then Ok (Err Internal, name, slice)
        else
          let! (st, slice) := decode_extents (seq 0 (Z.to_nat x)) src (SetFullSlice (Z.to_nat x)) in
          Ok (st, name, slice).

Section Specification.
Context `{AbslStrings}.

Fixpoint add_text_dims (splits : list bytes) (shape : Shape.t) : res failure Shape.t :=
  match splits with
  | [] => Ok shape
  | s :: splits' =>
      match Numbers.safe_strto64 s with
      | None => Err (Fail InvalidArgument)
      | Some dim => let! shape := add_dim shape dim in add_text_dims splits' shape
      end
  end.

(** [ParseShapeAndSlice]: the shape, the slice and the shape of the slice. *)
Definition ParseShapeAndSlice (shape_and_slice : bytes) : res failure (Shape.t * t * Shape.t) :=
  check! negb (bool_decide (shape_and_slice = [])) else Crash in
  let splits := Numbers.Split shape_and_slice 32 in
  check! negb (length splits <? 2)%nat else Fail InvalidArgument in
  match Parse (List.last splits []) Clear with
  | (Err e, _) => Err (Fail e)
  | (Ok _, slice) =>
      let! shape := add_text_dims (removelast splits) Shape.Clear in
      let! shape_slice := SliceTensorShape slice shape in
      Ok (shape, slice, shape_slice)
  end.
End Specification.
End SavedSlices.

Import TensorSlice SavedSlices.

(** ** Slices as boxes *)

Definition extents (s : t) : list (Z * Z) := zip (starts_ s) (lengths_ s).
Definition of_extents (l : list (Z * Z)) : t := mk (map fst l) (map snd l).

(** The two vectors have the same size. *)
Definition slice_wf (s : t) : Prop := length (starts_ s) = length (lengths_ s).

(** The whole dimension *)
Definition whole (e : Z * Z) : bool := (snd e =? kFullExtent) && (fst e =? 0).

(** What [BuildTensorSlice] accepts: the whole dimension, or a range of it that is
    not empty and whose end does not overflow. *)
Definition valid_extent (e : Z * Z) : Prop :=
  whole e = true \/ (0 <= fst e /\ 0 < snd e /\ fst e + snd e <= i64_max).

Definition valid_slice (s : t) : Prop := slice_wf s /\ Forall valid_extent (extents s).

(** The indices of a dimension that an extent takes, and those of a slice *)
Definition inside (e : Z * Z) (i : Z) : Prop := 0 <= i /\ (whole e = true \/ fst e <= i < fst e + snd e).
Definition holds (s : t) (idx : list Z) : Prop := Forall2 inside (extents s) idx.

Lemma of_extents_eq (s : t) : slice_wf s -> of_extents (extents s) = s.
Proof.
  destruct s as [a b]. unfold slice_wf, of_extents, extents. cbn. intros H.
  change (map fst (zip a b)) with ((zip a b).*1). change (map snd (zip a b)) with ((zip a b).*2).
  by rewrite fst_zip, snd_zip by lia.
Qed.

Lemma extents_of (l : list (Z * Z)) : extents (of_extents l) = l.
Proof. unfold extents, of_extents. cbn. apply zip_fst_snd. Qed.

Lemma slice_wf_of (l : list (Z * Z)) : slice_wf (of_extents l).
Proof. unfold slice_wf, of_extents. cbn. by rewrite !length_map. Qed.

Lemma dims_of (l : list (Z * Z)) : dims (of_extents l) = length l.
Proof. unfold dims, of_extents. cbn. apply length_map. Qed.

Lemma start_of (l : list (Z * Z)) (d : nat) : start (of_extents l) d = fst (nth d l (0, 0)).
Proof. unfold start, of_extents. cbn. by rewrite <- (map_nth fst). Qed.

Lemma length_of (l : list (Z * Z)) (d : nat) : length_ (of_extents l) d = snd (nth d l (0, 0)).
Proof. unfold length_, of_extents. cbn. by rewrite <- (map_nth snd). Qed.

Lemma full_of (l : list (Z * Z)) (d : nat) : IsFullAt (of_extents l) d = whole (nth d l (0, 0)).
Proof. unfold IsFullAt, whole. by rewrite start_of, length_of. Qed.

Lemma set_of (l : list (Z * Z)) (d : nat) (x y : Z) :
  set_length (set_start (of_extents l) d x) d y = of_extents (<[d := (x, y)]> l).
Proof.
  unfold set_length, set_start, of_extents. cbn.
  change (map ?f ?l) with (f <$> l). by rewrite !list_fmap_insert.
Qed.

Lemma push_of (l : list (Z * Z)) (x y : Z) : push_length (push_start (of_extents l) x) y = of_extents (l ++ [(x, y)]).
Proof. unfold push_length, push_start, of_extents. cbn. by rewrite !map_app. Qed.

Lemma push_full_of (n : nat) (l : list (Z * Z)) : push_full n (of_extents l) = of_extents (l ++ replicate n (0, kFullExtent)).
Proof.
  revert l. induction n as [|n IH]; intros l; cbn [push_full replicate]; [by rewrite app_nil_r|].
  rewrite push_of, IH. by rewrite <- app_assoc.
Qed.

Lemma SetFullSlice_of (n : nat) : SetFullSlice n = of_extents (replicate n (0, kFullExtent)).
Proof. apply (push_full_of n []). Qed.

Lemma nth_mid {A : Type} (p l : list A) (e d : A) (k : nat) : k = length p -> nth k (p ++ e :: l) d = e.
Proof. intros ->. apply nth_middle. Qed.

Lemma insert_mid {A : Type} (p l : list A) (e x : A) (k : nat) :
  k = length p -> <[k := x]> (p ++ e :: l) = (p ++ [x]) ++ l.
Proof. intros ->. rewrite insert_app_r_alt, Nat.sub_diag by done. by rewrite <- app_assoc. Qed.

Lemma valid_proper (e : Z * Z) :
  valid_extent e -> whole e = false -> 0 <= fst e /\ 0 < snd e /\ fst e + snd e <= i64_max.
Proof. intros [H|H] Hw; [congruence|done]. Qed.

Lemma whole_eq (e : Z * Z) : whole e = true <-> e = (0, kFullExtent).
Proof.
  unfold whole. rewrite andb_true_iff, !Z.eqb_eq. destruct e as [a b]; cbn. split; [by intros [-> ->]|by intros [= -> ->]].
Qed.

(** ** Intersection *)

Definition meet (e f : Z * Z) : option (Z * Z) :=
  if whole e then Some f
  else if whole f then Some e
  else
    let x := Z.max (fst e) (fst f) in
    let l := Z.min (fst e + snd e) (fst f + snd f) - x in
    if 0 <? l then Some (x, l) else None.

Fixpoint meets (l k : list (Z * Z)) : option (list (Z * Z)) :=
  match l, k with
  | e :: l', f :: k' =>
      match meet e f, meets l' k' with Some g, Some m => Some (g :: m) | _, _ => None end
  | [], [] => Some []
  | _, _ => None
  end.

Lemma intersect_loop_of (ea eb : list (Z * Z)) (pa pb pr : list (Z * Z)) :
  Forall valid_extent ea -> Forall valid_extent eb -> length eb = length ea ->
  length pb = length pa -> length pr = length pa ->
  intersect_loop (seq (length pa) (length ea)) (of_extents (pa ++ ea)) (of_extents (pb ++ eb))
    (Some (of_extents (pr ++ replicate (length ea) (0, kFullExtent)))) =
  match meets ea eb with Some m => (true, Some (of_extents (pr ++ m))) | None => (false, Some Clear) end.
Proof.
  revert eb pa pb pr. induction ea as [|e ea IH]; intros eb pa pb pr Ha Hb Hlen Hpb Hpr.
  - destruct eb; [|done]. done.
  - destruct eb as [|f eb]; [done|]. cbn in Hlen. injection Hlen as Hlen.
    apply list.Forall_cons in Ha as [He Ha]. apply list.Forall_cons in Hb as [Hf Hb].
    cbn [length seq intersect_loop meets]. unfold end_. rewrite !full_of, !start_of, !length_of.
    rewrite !nth_mid by done.
    assert (forall x y, intersect_loop (seq (S (length pa)) (length ea)) (of_extents (pa ++ e :: ea)) (of_extents (pb ++ f :: eb))
      (put (Some (of_extents (pr ++ replicate (S (length ea)) (0, kFullExtent)))) (length pa) x y) =
      match meets ea eb with Some m => (true, Some (of_extents (pr ++ (x, y) :: m))) | None => (false, Some Clear) end) as Hstep.
    { intros x y. cbn [put option_map replicate]. rewrite set_of, insert_mid by done.
      replace (S (length pa)) with (length (pa ++ [e])) by (rewrite length_app; cbn; lia).
      rewrite (cons_middle e pa ea), (cons_middle f pb eb), !app_assoc.
      rewrite (IH eb (pa ++ [e]) (pb ++ [f]) (pr ++ [(x, y)])) by (rewrite ?length_app; cbn; first [done | lia]).
      destruct (meets ea eb); [|done]. by rewrite <- app_assoc. }
    unfold meet. destruct (whole e) eqn:Ee; [|destruct (whole f) eqn:Ef].
    + rewrite Hstep. destruct f. by destruct (meets ea eb).
    + rewrite Hstep. destruct e. by destruct (meets ea eb).
    + apply valid_proper in He; [|done]. apply valid_proper in Hf; [|done]. unfold i64_max in *.
      rewrite !(wrap_i64_id (_ + _)) by (unfold in_i64; lia). rewrite wrap_i64_id by (unfold in_i64; lia).
      destruct (0 <? _); [|done]. rewrite Hstep. by destruct (meets ea eb).
Qed.

Lemma Intersect_of (l k : list (Z * Z)) (r : t) :
  Forall valid_extent l -> Forall valid_extent k -> length k = length l ->
  Intersect (of_extents l) (of_extents k) (Some r) =
  match meets l k with Some m => (true, Some (of_extents m)) | None => (false, Some Clear) end.
Proof.
  intros Hl Hk Hlen. unfold Intersect. rewrite !dims_of, Hlen, Nat.eqb_refl. cbn [negb option_map].
  rewrite SetFullSlice_of. apply (intersect_loop_of l k [] [] []); done.
Qed.

Lemma intersect_loop_null (ds : list nat) (s o r : t) :
  fst (intersect_loop ds s o None) = fst (intersect_loop ds s o (Some r)).
Proof.
  revert r. induction ds as [|d ds IH]; intros r; [done|]. cbn [intersect_loop put option_map].
  destruct (IsFullAt s d); [apply IH|]. destruct (IsFullAt o d); [apply IH|]. destruct (0 <? _); [apply IH|done].
Qed.

Lemma Overlaps_Intersect (s o r : t) : Overlaps s o = fst (Intersect s o (Some r)).
Proof. unfold Overlaps, Intersect. destruct (negb _); [done|]. apply intersect_loop_null. Qed.

Lemma meet_inside (e f g : Z * Z) (i : Z) :
  valid_extent e -> valid_extent f -> meet e f = Some g -> inside g i <-> inside e i /\ inside f i.
Proof.
  intros He Hf. unfold meet, inside. destruct (whole e) eqn:Ee; [intros [= ->]; tauto|].
  destruct (whole f) eqn:Ef; [intros [= ->]; rewrite Ee; tauto|].
  apply valid_proper in He; [|done]. apply valid_proper in Hf; [|done].
  destruct (Z.ltb_spec 0 (Z.min (fst e + snd e) (fst f + snd f) - Z.max (fst e) (fst f))); [|done].
  intros [= <-]. unfold whole, kFullExtent. cbn [fst snd].
  rewrite (proj2 (Z.eqb_neq _ (-1))) by lia. cbn [andb]. split; [intros [? [|]]|intros [[? [|]] [? [|]]]]; try done.
  - split; (split; [done|right; lia]).
  - split; [done|right; lia].
Qed.

Lemma meet_none (e f : Z * Z) (i : Z) :
  valid_extent e -> valid_extent f -> meet e f = None -> ~ (inside e i /\ inside f i).
Proof.
  intros He Hf. unfold meet, inside. destruct (whole e) eqn:Ee; [done|]. destruct (whole f) eqn:Ef; [done|].
  destruct (Z.ltb_spec 0 (Z.min (fst e + snd e) (fst f + snd f) - Z.max (fst e) (fst f))); [done|].
  intros _ [[? [|]] [? [|]]]; try done. lia.
Qed.

Lemma meet_valid (e f g : Z * Z) : valid_extent e -> valid_extent f -> meet e f = Some g -> valid_extent g.
Proof.
  intros He Hf. unfold meet. destruct (whole e) eqn:Ee; [by intros [= ->]|]. destruct (whole f) eqn:Ef; [by intros [= ->]|].
  apply valid_proper in He; [|done]. apply valid_proper in Hf; [|done].
  destruct (Z.ltb_spec 0 (Z.min (fst e + snd e) (fst f + snd f) - Z.max (fst e) (fst f))); [|done].
  intros [= <-]. right. cbn [fst snd]. lia.
Qed.

Lemma meets_ok (l k m : list (Z * Z)) :
  Forall valid_extent l -> Forall valid_extent k -> meets l k = Some m ->
  Forall valid_extent m /\ length m = length l /\
  forall idx, Forall2 inside m idx <-> Forall2 inside l idx /\ Forall2 inside k idx.
Proof.
  intros Hl. revert k m. induction Hl as [|e l He Hl IH]; intros k m Hk H; destruct Hk as [|f k Hf Hk]; try done.
  - injection H as <-. split; [constructor|]. split; [done|]. intros idx. tauto.
  - cbn [meets] in H. destruct (meet e f) as [g|] eqn:Eg; [|done]. destruct (meets l k) as [m'|] eqn:Em; [|done].
    injection H as <-. destruct (IH k m' Hk Em) as (Hv & Hlen & Hi).
    split; [constructor; [exact (meet_valid e f g He Hf Eg)|done]|]. split; [cbn; lia|].
    intros idx. destruct idx as [|i idx]; [split; [intros H; inversion H|intros [H _]; inversion H]|].
    rewrite !Forall2_cons, Hi, (meet_inside e f g i) by done. tauto.
Qed.

Lemma meets_none (l k : list (Z * Z)) (idx : list Z) :
  Forall valid_extent l -> Forall valid_extent k -> meets l k = None -> ~ (Forall2 inside l idx /\ Forall2 inside k idx).
Proof.
  intros Hl. revert k idx. induction Hl as [|e l He Hl IH]; intros k idx Hk H [Hi Hj]; destruct Hk as [|f k Hf Hk]; try done.
  - inversion Hi; subst. inversion Hj.
  - inversion Hi; subst. inversion Hj.
  - destruct idx as [|i idx]; [inversion Hi|]. apply Forall2_cons in Hi as [Hi Hi']. apply Forall2_cons in Hj as [Hj Hj'].
    cbn [meets] in H. destruct (meet e f) as [g|] eqn:Eg; [|by apply (meet_none e f i)].
    destruct (meets l k) as [m'|] eqn:Em; [done|]. by apply (IH k idx).
Qed.

(** A box that is not empty: its least index *)
Definition least (l : list (Z * Z)) : list Z := map fst l.

Lemma least_inside (l : list (Z * Z)) : Forall valid_extent l -> Forall2 inside l (least l).
Proof.
  induction 1 as [|e l He Hl IH]; [constructor|]. constructor; [|done]. unfold inside.
  destruct (whole e) eqn:Ee; [apply whole_eq in Ee as ->; cbn; split; [lia|by left]|].
  apply valid_proper in He; [|done]. split; [lia|right; lia].
Qed.

Lemma valid_slice_of (l : list (Z * Z)) : valid_slice (of_extents l) <-> Forall valid_extent l.
Proof. unfold valid_slice. rewrite extents_of. split; [tauto|]. intros H. split; [apply slice_wf_of|done]. Qed.

(** A valid slice is the slice of its extents. *)
Lemma valid_slice_inv (s : t) : valid_slice s -> exists l, s = of_extents l /\ Forall valid_extent l.
Proof. intros [Hw Hv]. exists (extents s). by rewrite of_extents_eq. Qed.

Ltac open_slice H l :=
  let Hv := fresh "Hv" in
  apply valid_slice_inv in H as (l & -> & Hv); unfold holds in *; rewrite ?dims_of, ?extents_of in *.

Lemma Intersect_spec (a b r : t) :
  valid_slice a -> valid_slice b -> dims a = dims b ->
  (exists m, Intersect a b (Some r) = (true, Some m) /\ valid_slice m /\ dims m = dims a /\
    forall idx, holds m idx <-> holds a idx /\ holds b idx) \/
  (Intersect a b (Some r) = (false, Some Clear) /\ forall idx, ~ (holds a idx /\ holds b idx)).
Proof.
  intros Ha Hb Hd. open_slice Ha l. open_slice Hb k. rewrite Intersect_of by done.
  destruct (meets l k) as [m|] eqn:E.
  - left. exists (of_extents m). destruct (meets_ok l k m Hv Hv0 E) as (Hm & Hlen & Hi).
    rewrite valid_slice_of, dims_of. split; [done|]. split; [done|]. split; [done|].
    intros idx. rewrite extents_of. apply Hi.
  - right. split; [done|]. intros idx. by apply meets_none.
Qed.

Lemma Overlaps_spec (a b : t) :
  valid_slice a -> valid_slice b -> Overlaps a b = true <-> exists idx, holds a idx /\ holds b idx.
Proof.
  intros Ha Hb. rewrite (Overlaps_Intersect a b Clear). destruct (decide (dims a = dims b)) as [Hd|Hd].
  - destruct (Intersect_spec a b Clear Ha Hb Hd) as [(m & -> & Hm & _ & Hi)|[-> Hi]]; cbn [fst].
    + split; [intros _|done]. destruct (valid_slice_inv m Hm) as (l & -> & Hl). exists (least l).
      apply Hi. unfold holds. rewrite extents_of. by apply least_inside.
    + split; [done|]. intros [idx H]. by apply Hi in H.
  - unfold Intersect. rewrite (proj2 (Nat.eqb_neq _ _) Hd). cbn. split; [done|]. intros (idx & H1 & H2).
    open_slice Ha l. open_slice Hb k. apply Forall2_length in H1, H2. lia.
Qed.

(** ** Hulls *)

Definition join (e f : Z * Z) : Z * Z :=
  if whole e then e
  else if whole f then (0, kFullExtent)
  else let x := Z.min (fst e) (fst f) in (x, Z.max (fst e + snd e) (fst f + snd f) - x).

Lemma cover_loop_of (l k p pk : list (Z * Z)) :
  Forall valid_extent l -> Forall valid_extent k -> length k = length l -> length pk = length p ->
  cover_loop (seq (length p) (length l)) (of_extents (p ++ l)) (of_extents (pk ++ k)) =
  Ok (of_extents (p ++ zip_with join l k)).
Proof.
  intros Hl. revert k p pk. induction Hl as [|e l He Hl IH]; intros k p pk Hk Hlen Hp.
  - cbn. by rewrite app_nil_r.
  - destruct Hk as [|f k Hf Hk]; [done|]. cbn in Hlen. injection Hlen as Hlen. cbn [length seq cover_loop zip_with].
    assert (cover_step (of_extents (p ++ e :: l)) (of_extents (pk ++ f :: k)) (length p) =
            Ok (of_extents ((p ++ [join e f]) ++ l))) as ->.
    { unfold cover_step, end_, join. rewrite !full_of, !start_of, !length_of, !nth_mid by done.
      destruct (whole e) eqn:Ee; cbn [negb]; [by rewrite <- app_assoc|].
      rewrite dims_of, (proj2 (Nat.ltb_lt _ _)) by (rewrite length_app; cbn; lia).
      destruct (whole f) eqn:Ef; [by rewrite set_of, insert_mid|].
      apply valid_proper in He; [|done]. apply valid_proper in Hf; [|done]. unfold i64_max in *.
      assert (forall x, start (set_start (of_extents (p ++ e :: l)) (length p) x) (length p) = x) as ->.
      { intros x. unfold start, set_start, of_extents. cbn. apply nth_lookup_Some. apply list_lookup_insert_eq.
        rewrite length_map, length_app. cbn. lia. }
      rewrite !(wrap_i64_id (_ + _)) by (unfold in_i64; lia). rewrite wrap_i64_id by (unfold in_i64; lia).
      by rewrite set_of, insert_mid. }
    cbn [res_bind]. replace (S (length p)) with (length (p ++ [join e f])) by (rewrite length_app; cbn; lia).
    rewrite (cons_middle f pk k), app_assoc. rewrite IH by (rewrite ?length_app; cbn; first [done | lia]).
    by rewrite <- app_assoc.
Qed.

Lemma UpdateToCover_of (l k : list (Z * Z)) :
  Forall valid_extent l -> Forall valid_extent k -> length k = length l ->
  UpdateToCover (of_extents l) (of_extents k) = Ok (of_extents (zip_with join l k)).
Proof. intros Hl Hk Hlen. unfold UpdateToCover. rewrite dims_of. by apply (cover_loop_of l k [] []). Qed.

Lemma join_valid (e f : Z * Z) : valid_extent e -> valid_extent f -> valid_extent (join e f).
Proof.
  intros He Hf. unfold join. destruct (whole e) eqn:Ee; [done|]. destruct (whole f) eqn:Ef; [by left|].
  apply valid_proper in He; [|done]. apply valid_proper in Hf; [|done]. right. cbn [fst snd]. lia.
Qed.

Lemma join_upper (e f : Z * Z) (i : Z) :
  valid_extent e -> valid_extent f -> inside e i \/ inside f i -> inside (join e f) i.
Proof.
  intros He Hf H. unfold join, inside in *. destruct (whole e) eqn:Ee; [rewrite Ee; tauto|].
  destruct (whole f) eqn:Ef; [cbn; split; [tauto|by left]|].
  apply valid_proper in He; [|done]. apply valid_proper in Hf; [|done].
  split; [tauto|]. right. cbn [fst snd]. destruct H as [[_ [|]]|[_ [|]]]; try done; lia.
Qed.

Lemma join_least (e f c : Z * Z) (i : Z) :
  valid_extent e -> valid_extent f -> (forall i, inside e i -> inside c i) -> (forall i, inside f i -> inside c i) ->
  inside (join e f) i -> inside c i.
Proof.
  intros He Hf H1 H2. unfold join. destruct (whole e) eqn:Ee; [apply H1|].
  destruct (whole f) eqn:Ef; [apply whole_eq in Ef as ->; apply H2|].
  apply valid_proper in He; [|done]. apply valid_proper in Hf; [|done]. unfold inside. cbn [fst snd].
  intros [Hi Hr]. split; [done|]. destruct (whole c) eqn:Ec; [by left|right].
  assert (forall j, fst e <= j < fst e + snd e \/ fst f <= j < fst f + snd f -> fst c <= j < fst c + snd c) as Hc.
  { intros j [Hj|Hj]; [destruct (H1 j) as [_ [|]]|destruct (H2 j) as [_ [|]]]; try done; try congruence;
      (split; [lia|right; lia]). }
  pose proof (Hc (fst e) ltac:(lia)). pose proof (Hc (fst f) ltac:(lia)).
  pose proof (Hc (fst e + snd e - 1) ltac:(lia)). pose proof (Hc (fst f + snd f - 1) ltac:(lia)).
  destruct Hr as [Hw|Hr]; [|lia]. unfold whole, kFullExtent in Hw. cbn [fst snd] in Hw.
  rewrite (proj2 (Z.eqb_neq _ (-1))) in Hw by lia. done.
Qed.

(** Inclusion of boxes is inclusion in each dimension. *)
Lemma box_incl (l c : list (Z * Z)) :
  Forall valid_extent l ->
  (forall idx, Forall2 inside l idx -> Forall2 inside c idx) <->
  Forall2 (fun e g => forall i, inside e i -> inside g i) l c.
Proof.
  intros Hl. split.
  - revert c. induction Hl as [|e l He Hl IH]; intros c H.
    + specialize (H [] ltac:(constructor)). inversion H. constructor.
    + pose proof (least_inside (e :: l)) as Hm. specialize (Hm ltac:(by constructor)).
      pose proof (H _ Hm) as Hc. cbn in Hc. destruct c as [|g c]; [inversion Hc|]. apply Forall2_cons in Hm as [Hm0 Hm].
      constructor.
      * intros i Hi. specialize (H (i :: least l)). rewrite !Forall2_cons in H. by apply H.
      * apply IH. intros idx Hidx. specialize (H (fst e :: idx)). rewrite !Forall2_cons in H. by apply H.
  - intros H idx. revert idx. induction H as [|e g l c Heg H IH]; intros idx Hi; [done|].
    destruct idx as [|i idx]; [inversion Hi|]. apply list.Forall_cons in Hl as [_ Hl].
    apply Forall2_cons in Hi as [Hi Hi']. constructor; [by apply Heg|by apply IH].
Qed.

Lemma joins_ok (l k : list (Z * Z)) :
  Forall valid_extent l -> Forall valid_extent k -> length k = length l ->
  Forall valid_extent (zip_with join l k) /\
  (forall idx, Forall2 inside l idx \/ Forall2 inside k idx -> Forall2 inside (zip_with join l k) idx) /\
  (forall c, Forall2 (fun e g => forall i, inside e i -> inside g i) l c ->
    Forall2 (fun e g => forall i, inside e i -> inside g i) k c ->
    Forall2 (fun e g => forall i, inside e i -> inside g i) (zip_with join l k) c).
Proof.
  intros Hl. revert k. induction Hl as [|e l He Hl IH]; intros k Hk Hlen.
  - destruct k; [|done]. split; [constructor|]. split; [tauto|done].
  - destruct Hk as [|f k Hf Hk]; [done|]. cbn in Hlen. injection Hlen as Hlen.
    destruct (IH k Hk Hlen) as (H1 & H2 & H3). cbn [zip_with]. split; [|split].
    + constructor; [by apply join_valid|done].
    + intros idx Hi. destruct idx as [|i idx]; [destruct Hi as [Hi|Hi]; inversion Hi|].
      rewrite !Forall2_cons in Hi. constructor; [apply join_upper; tauto|apply H2; tauto].
    + intros c Hc Hc'. inversion Hc; subst. inversion Hc'; subst. constructor; [|by apply H3].
      intros i. by apply join_least.
Qed.

Lemma UpdateToCover_spec (a b : t) :
  valid_slice a -> valid_slice b -> dims a = dims b ->
  exists h, UpdateToCover a b = Ok h /\ valid_slice h /\ dims h = dims a /\
  (forall idx, holds a idx \/ holds b idx -> holds h idx) /\
  (forall c, (forall idx, holds a idx \/ holds b idx -> holds c idx) -> forall idx, holds h idx -> holds c idx).
Proof.
  intros Ha Hb Hd. open_slice Ha l. open_slice Hb k. exists (of_extents (zip_with join l k)).
  split; [by apply UpdateToCover_of|].
  destruct (joins_ok l k Hv Hv0 ltac:(lia)) as (H1 & H2 & H3). rewrite valid_slice_of, dims_of, !extents_of.
  split; [done|]. split; [by rewrite length_zip_with, Hd, Nat.min_id|]. split; [done|].
  intros c Hc idx. apply box_incl; [done|]. apply H3; apply box_incl; try done; intros idx' Hi; apply Hc; tauto.
Qed.

(** ** Relative slices *)

Definition relative (e f : Z * Z) : Z * Z := if whole e then f else (fst f - fst e, snd f).
Definition offset (e : Z * Z) : Z := if whole e then 0 else fst e.

Lemma ComputeRelative_of (l k : list (Z * Z)) :
  Forall valid_extent l -> Forall valid_extent k -> length k = length l ->
  ComputeRelative (of_extents l) (of_extents k) = Ok (of_extents (zip_with relative l k)).
Proof.
  unfold ComputeRelative. rewrite dims_of, SetFullSlice_of. intros Hl Hk Hlen.
  enough (forall l' k' p pk pr, l = p ++ l' -> k = pk ++ k' -> length pk = length p -> length pr = length p ->
    length k' = length l' ->
    relative_loop (seq (length p) (length l')) (of_extents l) (of_extents k)
      (of_extents (pr ++ replicate (length l') (0, kFullExtent))) =
    Ok (of_extents (pr ++ zip_with relative l' k'))) as H by by apply (H l k [] [] []).
  intros l'. induction l' as [|e l' IH]; intros k' p pk pr El Ek Hpk Hpr Hlen'; [done|].
  destruct k' as [|f k']; [done|]. cbn in Hlen'. injection Hlen' as Hlen'. cbn [length seq replicate relative_loop zip_with].
  rewrite dims_of, (proj2 (Nat.ltb_lt _ _)) by (rewrite Ek, length_app; cbn; lia).
  match goal with |- relative_loop _ _ _ ?x = _ =>
    assert (x = of_extents ((pr ++ [relative e f]) ++ replicate (length l') (0, kFullExtent))) as -> end.
  { unfold relative. rewrite El, Ek, !full_of, !start_of, !length_of, !nth_mid by done.
    rewrite El in Hl. rewrite Ek in Hk. apply list.Forall_app in Hl as [_ Hl]. apply list.Forall_app in Hk as [_ Hk].
    apply list.Forall_cons in Hl as [He _]. apply list.Forall_cons in Hk as [Hf _].
    destruct (whole e) eqn:Ee; rewrite set_of, insert_mid by done; [by destruct f|].
    apply valid_proper in He; [|done]. destruct (whole f) eqn:Ef.
    - apply whole_eq in Ef as ->. cbn [fst snd]. rewrite wrap_i64_id by (unfold in_i64, i64_max in *; lia). done.
    - apply valid_proper in Hf; [|done]. rewrite wrap_i64_id by (unfold in_i64, i64_max in *; lia). done. }
  replace (S (length p)) with (length (p ++ [e])) by (rewrite length_app; cbn; lia).
  rewrite (IH k' (p ++ [e]) (pk ++ [f])); rewrite <- ?app_assoc, ?length_app; cbn; try done; lia.
Qed.

Lemma relative_ok (e f : Z * Z) :
  valid_extent e -> valid_extent f -> (forall i, inside f i -> inside e i) ->
  valid_extent (relative e f) /\
  (forall i, 0 <= i -> inside (relative e f) i <-> inside f (i + offset e)).
Proof.
  intros He Hf Hi. unfold relative, offset. destruct (whole e) eqn:Ee; [split; [done|]; intros i _; by rewrite Z.add_0_r|].
  pose proof He as He'. apply valid_proper in He' as (Ha & Hb & Hc); [|done].
  assert (whole f = false) as Ef.
  { destruct (whole f) eqn:Ef; [|done]. destruct (Hi (fst e + snd e)) as [_ [|]]; [|congruence|lia].
    split; [lia|by left]. }
  apply valid_proper in Hf as (Hd & Hl & Hm); [|done]. destruct (Hi (fst f)) as [_ [|Hs]]; [|congruence|].
  { split; [lia|right; lia]. }
  split; [right; cbn [fst snd]; lia|]. intros i Hpos. unfold inside. rewrite Ef. unfold whole, kFullExtent. cbn [fst snd].
  rewrite (proj2 (Z.eqb_neq _ (-1))) by lia. cbn [andb].
  split; (intros [? [|]]; [done|]; split; [lia|right; lia]).
Qed.

(** ** Shapes of slices *)

(** The extent lies in a dimension of [n] indices, and how many of them it takes. *)
Definition fits (e : Z * Z) (n : Z) : Prop := whole e = true \/ fst e + snd e <= n.
Definition extent_size (e : Z * Z) (n : Z) : Z := if whole e then n else snd e.

(** The sizes that are not larger than those of the shape, whether the slice fits or not *)
Definition capped (e : Z * Z) (n : Z) : Z := if whole e then n else Z.min (snd e) n.

Lemma count_mono (l k : list Z) : Forall2 (fun a b => 0 <= a <= b) l k -> 0 <= count l <= count k.
Proof.
  induction 1 as [|a b l k Hab H IH]; cbn; [lia|]. rewrite !(proj2 (Z.ltb_ge _ 0)) by lia. cbn [orb]. nia.
Qed.

Lemma legal_mono (l k : list Z) : Forall2 (fun a b => 0 <= a <= b) l k -> legal false k -> legal false l.
Proof.
  intros H (H1 & _ & H3). pose proof (Forall2_length _ _ _ H). split; [lia|]. split.
  - clear -H. induction H; constructor; [lia|done].
  - intros n. specialize (H3 n). pose proof (count_mono (take n l) (take n k) (Forall2_take _ _ _ n H)). lia.
Qed.

Lemma capped_mono (l : list (Z * Z)) (ns : list Z) :
  Forall valid_extent l -> Forall (fun n => 0 <= n) ns -> length ns = length l ->
  Forall2 (fun a b => 0 <= a <= b) (zip_with capped l ns) ns.
Proof.
  intros Hl. revert ns. induction Hl as [|e l He Hl IH]; intros ns Hn Hlen; destruct Hn as [|n ns Hn Hns]; try done.
  cbn. constructor; [|apply IH; [done|by injection Hlen]]. unfold capped. destruct (whole e) eqn:E; [lia|].
  apply valid_proper in He; [|done]. lia.
Qed.

Lemma add_dim_ok (s : Shape.t) (size : Z) :
  wf false s -> 0 <= size < 2 ^ 63 -> legal false (sizes false s ++ [size]) ->
  exists r, add_dim s size = Ok r /\ wf false r /\ sizes false r = sizes false s ++ [size].
Proof.
  intros Hw Hs Hl. unfold add_dim. rewrite AddDim_checked. pose proof (AddDimWithStatus_ok false s size Hw Hs) as H.
  destruct (AddDimWithStatus false s size) as [r|e]; cbn [checked]; [by exists r|]. by destruct H.
Qed.

Lemma slice_shape_loop_of (l p : list (Z * Z)) (ns q : list Z) (shape r : Shape.t) :
  Forall valid_extent l -> Forall (fun n => 0 <= n < 2 ^ 63) ns -> length ns = length l -> length q = length p ->
  wf false shape -> sizes false shape = q ++ ns -> wf false r -> legal false (sizes false r ++ zip_with capped l ns) ->
  match slice_shape_loop (seq (length p) (length l)) (of_extents (p ++ l)) shape r with
  | Ok r' => wf false r' /\ Forall2 fits l ns /\ sizes false r' = sizes false r ++ zip_with extent_size l ns
  | Err e => e = Fail Internal /\ ~ Forall2 fits l ns
  end.
Proof.
  intros Hl. revert p ns q r. induction Hl as [|e l He Hl IH]; intros p ns q r Hns Hlen Hq Hshape Hsz Hr Hleg.
  - destruct ns; [|done]. cbn. by rewrite app_nil_r.
  - destruct Hns as [|n ns Hn Hns]; [done|]. cbn in Hlen. injection Hlen as Hlen.
    cbn [length seq slice_shape_loop zip_with] in *. unfold end_. rewrite full_of, start_of, length_of, nth_mid by done.
    assert (dim_size false shape (Z.of_nat (length p)) = n) as ->.
    { pose proof (dim_size_eq false shape (length p) (wf_known false shape Hshape)) as Hd.
      rewrite Hsz, length_app in Hd. cbn in Hd. specialize (Hd ltac:(lia)).
      rewrite lookup_app_r, Hq, Nat.sub_diag in Hd by lia. by injection Hd. }
    rewrite (cons_middle (capped e n)), app_assoc in Hleg. pose proof (legal_prefix false _ _ Hleg) as Hone.
    assert (forall r', wf false r' -> sizes false r' = sizes false r ++ [extent_size e n] -> fits e n ->
      capped e n = extent_size e n ->
      match slice_shape_loop (seq (S (length p)) (length l)) (of_extents (p ++ e :: l)) shape r' with
      | Ok r' => wf false r' /\ Forall2 fits (e :: l) (n :: ns) /\
                 sizes false r' = sizes false r ++ extent_size e n :: zip_with extent_size l ns
      | Err e' => e' = Fail Internal /\ ~ Forall2 fits (e :: l) (n :: ns)
      end) as Hnext.
    { intros r' Hw Hz Hfit Hcap. specialize (IH (p ++ [e]) ns (q ++ [n]) r' Hns Hlen).
      rewrite !length_app, <- !app_assoc in IH. cbn [length app] in IH. rewrite !Nat.add_1_r in IH.
      specialize (IH ltac:(lia) Hshape Hsz Hw). rewrite Hz, <- Hcap in IH. specialize (IH Hleg).
      destruct (slice_shape_loop (seq (S (length p)) (length l)) _ shape r') as [r''|e'];
        [|destruct IH as [-> Hno]; split; [done|intros H'; apply Forall2_cons in H' as [_ H']; by apply Hno]].
      destruct IH as (Hw'' & Hf & Hz''). split; [done|]. split; [by constructor|]. by rewrite Hz'', <- app_assoc, Hcap. }
    unfold capped, extent_size in *. destruct (whole e) eqn:E.
    + destruct (add_dim_ok r n Hr Hn Hone) as (r' & -> & Hw & Hz). cbn [res_bind]. apply Hnext; try done. by left.
    + apply valid_proper in He as (Ha & Hb & Hc); [|done]. unfold i64_max in Hc.
      rewrite wrap_i64_id by (unfold in_i64; lia). destruct (Z.leb_spec (fst e + snd e) n) as [Hle|Hgt].
      * rewrite Z.min_l in * by lia. destruct (add_dim_ok r (snd e) Hr ltac:(lia) Hone) as (r' & -> & Hw & Hz).
        cbn [res_bind]. apply Hnext; try done. by right.
      * split; [done|]. intros H'. apply Forall2_cons in H' as [[|] _]; [congruence|lia].
Qed.

Lemma SliceTensorShape_spec (s : t) (shape : Shape.t) :
  valid_slice s -> wf false shape ->
  match SliceTensorShape s shape with
  | Ok r => wf false r /\ Forall2 fits (extents s) (sizes false shape) /\
            sizes false r = zip_with extent_size (extents s) (sizes false shape)
  | Err e => e = Fail Internal /\ ~ Forall2 fits (extents s) (sizes false shape)
  end.
Proof.
  intros Hs Hw. open_slice Hs l. unfold SliceTensorShape. rewrite (wf_dims_eq false shape Hw), dims_of.
  destruct (Z.eqb_spec (Z.of_nat (length (sizes false shape))) (Z.of_nat (length l))) as [Hd|Hd]; cbn [negb].
  - destruct (Clear_ok false) as [Hc Hz]. pose proof (wf_sizes_range false shape Hw) as Hr.
    apply Nat2Z.inj in Hd.
    pose proof (slice_shape_loop_of l [] (sizes false shape) [] shape Shape.Clear Hv Hr Hd eq_refl Hw eq_refl Hc) as H.
    rewrite Hz in H. apply H. apply (legal_mono _ (sizes false shape)); [|apply Hw].
    apply capped_mono; [done| |done]. eapply list.Forall_impl; [exact Hr|]. cbn. lia.
  - split; [done|]. intros H. apply Forall2_length in H. lia.
Qed.

(** The number of elements of the slice of a shape *)
Lemma slice_elements (s : t) (shape r : Shape.t) :
  valid_slice s -> wf false shape -> SliceTensorShape s shape = Ok r ->
  num_elements r = count (zip_with extent_size (extents s) (sizes false shape)).
Proof.
  intros Hs Hw H. pose proof (SliceTensorShape_spec s shape Hs Hw) as Hspec. rewrite H in Hspec.
  destruct Hspec as (Hr & _ & Hz). by rewrite (wf_num false r Hr), Hz.
Qed.

(** ** Protos *)

Lemma map_nth_seq {A B : Type} (f : A -> B) (l : list A) (x : A) :
  map (fun d => f (nth d l x)) (seq 0 (length l)) = map f l.
Proof.
  apply list_eq. intros i. change (map ?f ?l) with (f <$> l). rewrite !list_lookup_fmap.
  destruct (decide (i < length l)%nat) as [Hi|Hi].
  - rewrite lookup_seq_lt by done. cbn. destruct (lookup_lt_is_Some_2 l i Hi) as [y Hy]. rewrite Hy. cbn.
    by rewrite (nth_lookup_Some _ _ _ _ Hy).
  - rewrite !lookup_ge_None_2; [done|lia|]. rewrite length_seq. lia.
Qed.

(** The extent that an entry of a proto stands for *)
Definition proto_extent (e : Extent) : Z * Z := (e_start e, GetExtentLength e).

Definition extent_proto (e : Z * Z) : Extent :=
  if whole e then mkExtent 0 None else mkExtent (fst e) (Some (snd e)).

(** The fields are 64 bits wide. *)
Definition proto_ok (e : Extent) : Prop := in_i64 (e_start e) /\ in_i64 (extent_length e).

Lemma AsProto_of (l : list (Z * Z)) : AsProto (of_extents l) = map extent_proto l.
Proof.
  unfold AsProto. rewrite dims_of, <- (map_nth_seq extent_proto l (0, 0)). apply map_ext. intros d.
  unfold extent_proto. by rewrite full_of, start_of, length_of.
Qed.

Lemma proto_extent_proto (e : Z * Z) : proto_extent (extent_proto e) = e.
Proof.
  unfold extent_proto, proto_extent. destruct (whole e) eqn:E; [by apply whole_eq in E as ->|by destruct e].
Qed.

Lemma protos_extents (l : list (Z * Z)) : map proto_extent (map extent_proto l) = l.
Proof. induction l as [|e l IH]; [done|]. cbn [map]. by rewrite proto_extent_proto, IH. Qed.

Lemma FromSliceProto_of (proto : TensorSliceProto) : FromSliceProto proto = of_extents (map proto_extent proto).
Proof.
  unfold FromSliceProto. change Clear with (of_extents []).
  enough (forall l, foldl (fun s e => push_length (push_start s (e_start e)) (GetExtentLength e)) (of_extents l) proto =
    of_extents (l ++ map proto_extent proto)) as H by apply (H []).
  induction proto as [|e proto IH]; intros l; cbn [foldl map]; [by rewrite app_nil_r|].
  by rewrite push_of, IH, <- app_assoc.
Qed.

Lemma build_loop_of (proto : TensorSliceProto) (p : list (Z * Z)) :
  Forall proto_ok proto ->
  match build_loop proto (of_extents p) with
  | (Ok _, s) => Forall valid_extent (map proto_extent proto) /\ s = of_extents (p ++ map proto_extent proto)
  | (Err e, _) => e = InvalidArgument /\ ~ Forall valid_extent (map proto_extent proto)
  end.
Proof.
  intros Hp. revert p. induction Hp as [|e proto [He Hlen] Hp IH]; intros p; cbn [build_loop map].
  - split; [constructor|by rewrite app_nil_r].
  - assert (whole (proto_extent e) = negb (negb (e_start e =? 0) || negb (GetExtentLength e =? kFullExtent))) as Hw.
    { unfold whole, proto_extent. cbn. by destruct (_ =? 0), (_ =? kFullExtent). }
    assert (valid_extent (proto_extent e) ->
      match build_loop proto (push_length (push_start (of_extents p) (e_start e)) (GetExtentLength e)) with
      | (Ok _, s) => Forall valid_extent (proto_extent e :: map proto_extent proto) /\
                     s = of_extents (p ++ proto_extent e :: map proto_extent proto)
      | (Err e', _) => e' = InvalidArgument /\ ~ Forall valid_extent (proto_extent e :: map proto_extent proto)
      end) as Hnext.
    { intros Hv. rewrite push_of. specialize (IH (p ++ [(e_start e, GetExtentLength e)])).
      destruct (build_loop _ _) as [[|e'] s].
      - destruct IH as [H1 ->]. split; [by constructor|]. by rewrite <- app_assoc.
      - destruct IH as [-> H1]. split; [done|]. intros [_ H]%list.Forall_cons. by apply H1. }
    destruct (negb (e_start e =? 0) || _); cbn [negb] in Hw; [|apply Hnext; by left].
    assert (~ (0 <= e_start e /\ 0 < GetExtentLength e /\ e_start e + GetExtentLength e <= i64_max) ->
      ~ Forall valid_extent (proto_extent e :: map proto_extent proto)) as Hbad.
    { intros Hn Hf. apply list.Forall_cons in Hf as [Hv _]. apply valid_proper in Hv; [|done]. by apply Hn. }
    destruct (Z.ltb_spec (e_start e) 0); cbn [orb]; [split; [done|]; apply Hbad; lia|].
    destruct (Z.leb_spec (GetExtentLength e) 0); [split; [done|]; apply Hbad; lia|].
    assert (extent_length e = GetExtentLength e) as Heq.
    { unfold GetExtentLength in *. by destruct (HasExtentLength e). }
    unfold in_i64 in *. unfold wrap_u64. rewrite Heq in *. rewrite !(Z.mod_small _ (2 ^ 64)) by (rewrite ?Z.mod_small; lia).
    destruct (Z.ltb_spec i64_max (e_start e + GetExtentLength e)); [split; [done|]; apply Hbad; lia|].
    apply Hnext. right. cbn. lia.
Qed.

(** ** Text *)

Section Text.
Context `{absl : AbslStrings} {absl_ok : AbslStringsOk}.

Lemma split_at_delim (d : Z) (x y r s : bytes) :
  d ∉ x -> d ∉ y -> x ++ d :: r = y ++ d :: s -> x = y /\ r = s.
Proof.
  revert y. induction x as [|a x IH]; intros y Hx Hy H; destruct y as [|b y]; cbn in H.
  - by injection H.
  - injection H as <- _. set_solver.
  - injection H as <- _. set_solver.
  - injection H as <- H. destruct (IH y) as [-> ->]; [set_solver|set_solver|done|done].
Qed.

Lemma join_unique (d : Z) (l k : list bytes) :
  Forall (fun x => d ∉ x) l -> Forall (fun x => d ∉ x) k -> l <> [] -> k <> [] ->
  join_pieces d l = join_pieces d k -> l = k.
Proof.
  intros Hl. revert k. induction Hl as [|x l Hx Hl IH]; intros k Hk Hnl Hnk H; [done|].
  destruct Hk as [|y k Hy Hk]; [done|]. destruct l as [|x' l]; destruct k as [|y' k].
  - cbn in H. by subst.
  - cbn -[join_pieces] in H. cbn [join_pieces] in H. subst x. set_solver.
  - cbn [join_pieces] in H. subst y. set_solver.
  - change (x ++ d :: join_pieces d (x' :: l) = y ++ d :: join_pieces d (y' :: k)) in H.
    apply split_at_delim in H as [-> H]; [|done|done]. f_equal. by apply IH.
Qed.

Lemma split_join (d : Z) (l : list bytes) :
  Forall (fun x => d ∉ x) l -> l <> [] -> StrSplit (join_pieces d l) d = l.
Proof.
  intros Hl Hn. destruct (split_pieces (join_pieces d l) d) as [Hj Hp].
  apply (join_unique d); try done. apply split_nonempty.
Qed.

Lemma SplitIf_join (d : Z) (l : list bytes) :
  Forall (fun x => (d ∉ x) /\ x <> []) l -> Numbers.SplitIf (join_pieces d l) d Numbers.SkipEmpty = l.
Proof.
  intros Hl. assert (Forall (fun x => d ∉ x) l) as H1 by (eapply list.Forall_impl; [exact Hl|]; by intros x [? _]).
  assert (List.filter Numbers.SkipEmpty l = l) as H2.
  { clear -Hl. induction Hl as [|x l [_ Hx] Hl IH]; [done|]. cbn. destruct x; [done|]. cbn. by rewrite IH. }
  destruct l as [|x l]; [done|]. unfold Numbers.SplitIf. pose proof (split_join d (x :: l) H1 ltac:(done)) as Hs.
  destruct (join_pieces d (x :: l)) as [|c text] eqn:E; [|by rewrite Hs].
  exfalso. apply list.Forall_cons in Hl as [[_ Hx] _]. destruct x; [done|]. destruct l; done.
Qed.

(** The text of an extent *)
Definition piece (e : Z * Z) (str : bytes) : Prop :=
  if whole e then str = [45]
  else exists x y, str = x ++ [44] ++ y /\ printed (fst e) x /\ printed (snd e) y.

Lemma printed_chars (i : Z) (str : bytes) : printed i str -> str <> [] /\ Forall (fun c => c = 45 \/ 48 <= c <= 57) str.
Proof.
  intros (ds & -> & [Hn Hd] & _). split; [destruct (i <? 0), ds; done|]. apply list.Forall_app. split.
  - destruct (i <? 0); repeat constructor; lia.
  - eapply list.Forall_impl; [exact Hd|]. intros c Hc. right. by apply isdigit_range.
Qed.

Lemma chars_exclude (d : Z) (str : bytes) : Forall (fun c => c = 45 \/ 48 <= c <= 57) str -> d = 44 \/ d = 58 -> d ∉ str.
Proof. intros Hs Hd Hin. rewrite list.Forall_forall in Hs. specialize (Hs d Hin). lia. Qed.

Lemma piece_chars (e : Z * Z) (str : bytes) : piece e str -> (58 ∉ str) /\ str <> [].
Proof.
  unfold piece. destruct (whole e); [intros ->; split; [set_solver|done]|]. intros (x & y & -> & Hx & Hy).
  apply printed_chars in Hx as [Hx Hcx]. apply printed_chars in Hy as [Hy Hcy]. split; [|by destruct x].
  pose proof (chars_exclude 58 x Hcx ltac:(by right)). pose proof (chars_exclude 58 y Hcy ltac:(by right)). set_solver.
Qed.

Lemma append_pair_ok (buffer : bytes) (e : Z * Z) :
  in_i64 (fst e) -> in_i64 (snd e) -> whole e = false ->
  exists str, append_pair buffer (fst e) (snd e) = Ok (buffer ++ str) /\ piece e str.
Proof.
  intros H1 H2 Hw. unfold append_pair, piece. rewrite Hw. destruct (FastInt64_ok _ H1) as (x & -> & Hx).
  destruct (FastInt64_ok _ H2) as (y & -> & Hy). cbn [res_bind]. exists (x ++ [44] ++ y). split; [done|]. by exists x, y.
Qed.

(** The pieces after the first one *)
Definition more_pieces (l : list bytes) : bytes := concat (map (cons 58) l).

Lemma join_more (x : bytes) (l : list bytes) : join_pieces 58 (x :: l) = x ++ more_pieces l.
Proof.
  revert x. induction l as [|y l IH]; intros x; [cbn; by rewrite app_nil_r|].
  change (join_pieces 58 (x :: y :: l)) with (x ++ 58 :: join_pieces 58 (y :: l)). by rewrite IH.
Qed.

Lemma valid_range (e : Z * Z) : valid_extent e -> in_i64 (fst e) /\ in_i64 (snd e).
Proof.
  unfold in_i64. intros [H|H]; [apply whole_eq in H as ->; unfold kFullExtent; cbn [fst snd]; lia|]. unfold i64_max in H. lia.
Qed.

Lemma debug_loop_of (l p : list (Z * Z)) (first : bool) (buffer : bytes) :
  Forall valid_extent l ->
  exists pieces, Forall2 piece l pieces /\
    debug_loop (seq (length p) (length l)) (of_extents (p ++ l)) first buffer =
    Ok (buffer ++ if first then join_pieces 58 pieces else more_pieces pieces).
Proof.
  intros Hl. revert p first buffer. induction Hl as [|e l He Hl IH]; intros p first buffer.
  - exists []. split; [constructor|]. cbn. destruct first; by rewrite app_nil_r.
  - cbn [length seq debug_loop]. rewrite full_of, start_of, length_of, nth_mid by done.
    set (b0 := if negb first then buffer ++ [58] else buffer).
    assert (exists str, (if whole e then Ok (b0 ++ [45]) else append_pair b0 (fst e) (snd e)) = Ok (b0 ++ str) /\ piece e str)
      as (str & Hstr & Hp).
    { destruct (whole e) eqn:E; [exists [45]; split; [done|]; unfold piece; by rewrite E|].
      destruct (valid_range e He). by apply append_pair_ok. }
    rewrite Hstr. cbn [res_bind]. destruct (IH (p ++ [e]) false (b0 ++ str)) as (pieces & Hps & Hloop).
    rewrite length_app, <- app_assoc in Hloop. cbn [length app] in Hloop. rewrite Nat.add_1_r in Hloop. rewrite Hloop.
    exists (str :: pieces). split; [by constructor|]. f_equal. unfold b0.
    destruct first; cbn [negb]; [by rewrite join_more, app_assoc|].
    unfold more_pieces. cbn. by rewrite <- !app_assoc.
Qed.

Lemma parse_loop_of (l p : list (Z * Z)) (pieces : list bytes) :
  Forall valid_extent l -> Forall2 piece l pieces -> parse_loop pieces (of_extents p) = (Ok tt, of_extents (p ++ l)).
Proof.
  intros Hl Hp. revert p Hl. induction Hp as [|e str l pieces He Hp IH]; intros p Hl; [by rewrite app_nil_r|].
  apply list.Forall_cons in Hl as [Hv Hl]. cbn [parse_loop]. unfold piece in He. destruct (whole e) eqn:E.
  - subst str. rewrite bool_decide_eq_true_2 by done. apply whole_eq in E as ->. by rewrite push_of, IH, <- app_assoc.
  - destruct He as (x & y & -> & Hx & Hy). pose proof (valid_range e Hv) as [H1 H2].
    pose proof (strto64_printed (fst e) [] x [] ltac:(constructor) ltac:(constructor) H1 Hx) as Px.
    pose proof (strto64_printed (snd e) [] y [] ltac:(constructor) ltac:(constructor) H2 Hy) as Py.
    rewrite app_nil_r in Px, Py. cbn in Px, Py. apply printed_chars in Hx as [Hnx Hcx]. apply printed_chars in Hy as [Hny Hcy].
    rewrite bool_decide_eq_false_2; [|destruct x as [|? [|]]; done].
    assert (x ++ [44] ++ y = join_pieces 44 [x; y]) as -> by done. rewrite SplitIf_join.
    + rewrite Px, Py. apply valid_proper in Hv as (Ha & Hb & Hc); [|done].
      rewrite (proj2 (Z.ltb_ge _ _)), (proj2 (Z.leb_gt _ _)) by lia. cbn [orb]. rewrite push_of, IH, <- app_assoc by done.
      by destruct e.
    + repeat constructor; try done; apply chars_exclude; try done; by left.
Qed.

Lemma DebugString_pieces (l : list (Z * Z)) :
  Forall valid_extent l ->
  exists pieces, Forall2 piece l pieces /\ DebugString (of_extents l) = Ok (join_pieces 58 pieces).
Proof.
  intros Hl. destruct (debug_loop_of l [] true [] Hl) as (pieces & Hp & Hd). exists pieces. split; [done|].
  unfold DebugString. by rewrite dims_of.
Qed.

Lemma Parse_pieces (l p : list (Z * Z)) (pieces : list bytes) :
  Forall valid_extent l -> Forall2 piece l pieces ->
  Parse (join_pieces 58 pieces) (of_extents p) = (Ok tt, of_extents (p ++ l)).
Proof.
  intros Hl Hp. unfold Parse. rewrite SplitIf_join; [by apply parse_loop_of|].
  clear Hl. induction Hp as [|e str l pieces He Hp IH]; constructor; [by apply (piece_chars e)|done].
Qed.

End Text.

(** ** Keys *)

Definition extent_items (l : list (Z * Z)) : list item := flat_map (fun e => [ISigned (fst e); ISigned (snd e)]) l.

(** What a key consists of *)
Definition key_items (name : bytes) (l : list (Z * Z)) : list item :=
  INum 0 :: IStr name :: INum (Z.of_nat (length l)) :: extent_items l.

Lemma encode_extents_of (l p : list (Z * Z)) (buffer : bytes) :
  encode_extents (seq (length p) (length l)) (of_extents (p ++ l)) buffer = write_items buffer (extent_items l).
Proof.
  revert p buffer. induction l as [|e l IH]; intros p buffer; [done|]. cbn [length seq encode_extents].
  rewrite start_of, length_of, nth_mid by done. cbn [extent_items flat_map app write_items write_item].
  destruct (OrderedCode.WriteSignedNumIncreasing buffer (fst e)) as [b1|]; [|done]. cbn [res_bind].
  destruct (OrderedCode.WriteSignedNumIncreasing b1 (snd e)) as [b2|]; [|done]. cbn [res_bind].
  specialize (IH (p ++ [e]) b2). rewrite length_app, <- app_assoc in IH. cbn [length app] in IH.
  by rewrite Nat.add_1_r in IH.
Qed.

Lemma EncodeTensorNameSlice_of (name : bytes) (l : list (Z * Z)) :
  EncodeTensorNameSlice name (of_extents l) = write_items [] (key_items name l).
Proof.
  unfold EncodeTensorNameSlice, key_items. cbn [write_items write_item]. rewrite dims_of.
  destruct (OrderedCode.WriteNumIncreasing [] 0) as [b1|]; [|done]. cbn [res_bind].
  destruct (OrderedCode.WriteString b1 name) as [b2|]; [|done]. cbn [res_bind].
  destruct (OrderedCode.WriteNumIncreasing b2 _) as [b3|]; [|done]. cbn [res_bind].
  apply (encode_extents_of l []).
Qed.

Lemma read_num_code (n x : Z) (c rest : bytes) :
  codes (INum n) c -> OrderedCode.ReadNumIncreasing (c ++ rest) (Some x) = Ok (true, rest, Some n).
Proof.
  intros H. inversion H; subst. rewrite ReadNum_spec; [done|done| |done]. unfold in_u64 in *. lia.
Qed.

Lemma read_signed_item (n x : Z) (c rest : bytes) :
  codes (ISigned n) c -> OrderedCode.ReadSignedNumIncreasing (c ++ rest) (Some x) = Ok (true, rest, Some n).
Proof. intros H. inversion H; subst. by rewrite ReadSigned_spec. Qed.

Lemma read_string_item (s x : bytes) (c rest : bytes) :
  codes (IStr s) c -> OrderedCode.ReadString (c ++ rest) (Some x) = Ok (true, rest, Some (x ++ s)).
Proof. intros H. inversion H; subst. by rewrite ReadString_spec. Qed.

Lemma decode_extents_of (l pr : list (Z * Z)) (cs : list bytes) (rest : bytes) :
  Forall valid_extent l -> Forall2 codes (extent_items l) cs ->
  decode_extents (seq (length pr) (length l)) (concat cs ++ rest)
    (of_extents (pr ++ replicate (length l) (0, kFullExtent))) = Ok (Ok tt, of_extents (pr ++ l)).
Proof.
  intros Hl. revert pr cs. induction Hl as [|e l He Hl IH]; intros pr cs Hcs; [done|].
  cbn [extent_items flat_map app] in Hcs. apply Forall2_cons_inv_l in Hcs as (c1 & cs1 & H1 & Hcs & ->).
  apply Forall2_cons_inv_l in Hcs as (c2 & cs2 & H2 & Hcs & ->). cbn [concat length seq decode_extents replicate].
  rewrite <- !app_assoc. rewrite (read_signed_item _ 0 _ _ H1). cbn [res_bind negb].
  rewrite (read_signed_item _ 0 _ _ H2). cbn [res_bind negb default].
  assert ((if 0 <=? snd e then set_length (set_start (of_extents (pr ++ (0, kFullExtent) :: replicate (length l) (0, kFullExtent)))
    (length pr) (fst e)) (length pr) (snd e) else of_extents (pr ++ (0, kFullExtent) :: replicate (length l) (0, kFullExtent))) =
    of_extents ((pr ++ [e]) ++ replicate (length l) (0, kFullExtent))) as E.
  { destruct (whole e) eqn:Ew.
    - apply whole_eq in Ew as ->. cbn. by rewrite <- app_assoc.
    - apply valid_proper in He; [|done]. rewrite (proj2 (Z.leb_le _ _)) by lia. rewrite set_of, insert_mid by done. by destruct e. }
  unfold id. rewrite E.
  replace (S (length pr)) with (length (pr ++ [e])) by (rewrite length_app; cbn; lia).
  rewrite IH by done. by rewrite <- app_assoc.
Qed.

Lemma key_items_ok (name : bytes) (l : list (Z * Z)) :
  bytes_ok name -> Forall valid_extent l -> Z.of_nat (length l) < i32_max -> Forall item_ok (key_items name l).
Proof.
  intros Hn Hl Hlen. unfold i32_max in Hlen. do 3 (constructor; [cbn; first [done | unfold in_u64; lia]|]).
  clear Hlen. induction Hl as [|e l He Hl IH]; [constructor|]. destruct (valid_range e He).
  cbn [extent_items flat_map app]. constructor; [done|]. by constructor.
Qed.

Lemma DecodeTensorNameSlice_of (name0 name rest : bytes) (l : list (Z * Z)) (cs : list bytes) (s : t) :
  Forall valid_extent l -> (0 < length l)%nat -> Z.of_nat (length l) < i32_max ->
  Forall2 codes (key_items name l) cs ->
  DecodeTensorNameSlice (concat cs ++ rest) name0 s = Ok (Ok tt, name0 ++ name, of_extents l).
Proof.
  intros Hl Hpos Hmax Hcs. unfold key_items in Hcs.
  apply Forall2_cons_inv_l in Hcs as (c1 & cs1 & H1 & Hcs & ->).
  apply Forall2_cons_inv_l in Hcs as (c2 & cs2 & H2 & Hcs & ->).
  apply Forall2_cons_inv_l in Hcs as (c3 & cs3 & H3 & Hcs & ->). cbn [concat]. rewrite <- !app_assoc.
  unfold DecodeTensorNameSlice. rewrite (read_num_code _ 0 _ _ H1). cbn [res_bind negb].
  change (default 0 (Some 0) =? 0) with true. cbn [negb]. rewrite (read_string_item _ name0 _ _ H2). cbn [res_bind negb].
  change (default name0 (Some ?x)) with x. rewrite (read_num_code _ 0 _ _ H3). cbn [res_bind negb].
  change (default 0 (Some ?x)) with x. rewrite (proj2 (Z.eqb_neq _ 0)) by lia. unfold kint32max.
  rewrite (proj2 (Z.leb_gt _ _)) by done. rewrite Nat2Z.id, SetFullSlice_of.
  pose proof (decode_extents_of l [] cs3 rest Hl Hcs) as Hd. cbn [length app] in Hd. rewrite Hd. done.
Qed.

Lemma extent_kinds (l k : list (Z * Z)) :
  length l = length k -> map kind_of (extent_items l) = map kind_of (extent_items k).
Proof.
  revert k. induction l as [|e l IH]; intros [|f k] Hlen; try done. injection Hlen as Hlen.
  cbn [extent_items flat_map app map]. do 2 f_equal. by apply IH.
Qed.

Lemma extent_items_inj (l k : list (Z * Z)) : extent_items l = extent_items k -> l = k.
Proof.
  revert k. induction l as [|[a b] l IH]; intros [|[c d] k] H; try done.
  cbn [extent_items flat_map app fst snd] in H. injection H as -> -> H. f_equal. by apply IH.
Qed.

(** Keys compare like their names, ranks and extents. *)
Lemma keys_order (n1 n2 : bytes) (l1 l2 : list (Z * Z)) (cs ds : list bytes) (u v : bytes) :
  Forall2 codes (key_items n1 l1) cs -> Forall2 codes (key_items n2 l2) ds -> (n1, l1) <> (n2, l2) ->
  compare (concat cs ++ u) (concat ds ++ v) = compare_items (key_items n1 l1) (key_items n2 l2).
Proof.
  intros Hcs Hds Hne.
  assert (forall A B a b, Forall2 codes A a -> Forall2 codes B b -> map kind_of A = map kind_of B -> A <> B ->
    forall u v, compare (concat a ++ u) (concat b ++ v) = compare_items A B) as Hord.
  { intros A B a b Ha Hb Hk Hab u' v'. pose proof (items_order A B a b Ha Hb Hk) as H.
    destruct (compare_items A B); [by destruct H|by apply below_compare, below_app|].
    rewrite compare_antisym, below_compare; [done|by apply below_app]. }
  destruct (decide (length l1 = length l2)) as [Hlen|Hlen].
  - apply Hord; try done.
    + unfold key_items. cbn [map]. do 3 f_equal. by apply extent_kinds.
    + intros Heq. apply Hne. unfold key_items in Heq. injection Heq as -> _ Heq. f_equal. by apply extent_items_inj.
  - unfold key_items in *. apply Forall2_cons_inv_l in Hcs as (c1 & cs1 & H1 & Hcs & ->).
    apply Forall2_cons_inv_l in Hcs as (c2 & cs2 & H2 & Hcs & ->).
    apply Forall2_cons_inv_l in Hcs as (c3 & cs3 & H3 & Hcs & ->).
    apply Forall2_cons_inv_l in Hds as (d1 & ds1 & G1 & Hds & ->).
    apply Forall2_cons_inv_l in Hds as (d2 & ds2 & G2 & Hds & ->).
    apply Forall2_cons_inv_l in Hds as (d3 & ds3 & G3 & Hds & ->).
    pose proof (Hord [INum 0; IStr n1; INum (Z.of_nat (length l1))] [INum 0; IStr n2; INum (Z.of_nat (length l2))]
      [c1; c2; c3] [d1; d2; d3]) as H.
    specialize (H ltac:(by repeat constructor) ltac:(by repeat constructor) eq_refl ltac:(intros [= _ Heq]; lia)
      (concat cs3 ++ u) (concat ds3 ++ v)). cbn [concat] in H. cbn [concat]. rewrite <- !app_assoc in H. cbn [app] in H.
    rewrite <- !app_assoc, H.
    cbn [compare_items compare_item]. rewrite Z.compare_refl. destruct (compare n1 n2); try done.
    destruct (Z.compare_spec (Z.of_nat (length l1)) (Z.of_nat (length l2))); try done. lia.
Qed.

(** ** Properties *)

(** C37: slices are boxes of indices.  Of two valid slices of the same rank,
    [Intersect] computes the slice of the common indices or reports that there is
    none, [Overlaps] tells which, and [UpdateToCover] computes the smallest slice
    that holds the indices of both, without a read out of range; slices of
    different ranks do not overlap. *)
Theorem slice_boxes (a b r : t) :
  valid_slice a -> valid_slice b ->
  (Overlaps a b = true <-> exists idx, holds a idx /\ holds b idx) /\
  (dims a = dims b ->
    ((exists m, Intersect a b (Some r) = (true, Some m) /\ valid_slice m /\ dims m = dims a /\
        forall idx, holds m idx <-> holds a idx /\ holds b idx) \/
     (Intersect a b (Some r) = (false, Some Clear) /\ forall idx, ~ (holds a idx /\ holds b idx))) /\
    exists h, UpdateToCover a b = Ok h /\ valid_slice h /\ dims h = dims a /\
      (forall idx, holds a idx \/ holds b idx -> holds h idx) /\
      (forall c, (forall idx, holds a idx \/ holds b idx -> holds c idx) -> forall idx, holds h idx -> holds c idx)).
Proof.
  intros Ha Hb. split; [by apply Overlaps_spec|]. intros Hd. split; [by apply Intersect_spec|]. by apply UpdateToCover_spec.
Qed.

(** The end of the extent does not fit int64. *)
Definition overflowing (e : Z * Z) : Prop := i64_max < fst e + snd e.

Lemma parse_loop_signs `{AbslStrings} (items : list bytes) (l : list (Z * Z)) (p : t) :
  Forall (fun e => valid_extent e \/ overflowing e) l -> parse_loop items (of_extents l) = (Ok tt, p) ->
  exists k, p = of_extents k /\ Forall (fun e => valid_extent e \/ overflowing e) k.
Proof.
  revert l. induction items as [|x items IH]; intros l Hl; cbn [parse_loop]; [intros [= <-]; by exists l|].
  case_bool_decide.
  - rewrite push_of. apply IH. apply list.Forall_app. split; [done|]. constructor; [left; by left|constructor].
  - destruct (Numbers.SplitIf _ _ _) as [|a [|b [|]]]; try done.
    destruct (Numbers.safe_strto64 a) as [x1|], (Numbers.safe_strto64 b) as [x2|]; try done.
    destruct (Z.ltb_spec x1 0), (Z.leb_spec x2 0); try done. cbn [orb]. rewrite push_of. apply IH. apply list.Forall_app. split; [done|].
    constructor; [|constructor]. unfold valid_extent, overflowing. cbn [fst snd].
    destruct (Z_le_gt_dec (x1 + x2) i64_max); [left; right; lia|right; lia].
Qed.

Lemma parsed_crash `{AbslStrings} (str : bytes) (p : t) (shape : Shape.t) :
  wf false shape -> Parse str Clear = (Ok tt, p) -> SliceTensorShape p shape = Err Crash -> Exists overflowing (extents p).
Proof.
  intros Hw Hp Hc. apply (parse_loop_signs _ []) in Hp as (k & -> & Hk); [|constructor]. rewrite extents_of.
  destruct (decide (Forall (fun e => fst e + snd e <= i64_max) k)) as [Hd|Hd].
  - assert (valid_slice (of_extents k)) as Hv.
    { apply valid_slice_of. clear Hc. induction Hk as [|e k He Hk IH]; [constructor|]. apply list.Forall_cons in Hd as [H1 H2].
      constructor; [|by apply IH]. destruct He as [|He]; [done|]. unfold overflowing in He. lia. }
    pose proof (SliceTensorShape_spec _ shape Hv Hw) as Hs. rewrite Hc in Hs. by destruct Hs.
  - apply not_Forall_Exists in Hd; [|intros e; apply _]. eapply list.Exists_impl; [exact Hd|].
    intros e He. unfold overflowing. cbn in He. lia.
Qed.

(** C38: the shape of a slice.  A slice is valid if each extent is the whole
    dimension or has a start that is not negative, a positive length and an end
    that fits int64, as [BuildTensorSlice] enforces.  [SliceTensorShape] of a valid
    slice does not crash: it succeeds exactly when the ranks agree and every range
    ends inside of its dimension, with the sizes of the slice, and fails with
    INTERNAL otherwise.  [FillIndicesAndSizes] gives the first index and the sizes,
    padded to its rank.  [Parse] does not check the ends: of a slice that it read,
    [SliceTensorShape] can crash, but only if the end of an extent overflows. *)
Theorem slice_of_shape `{AbslStrings} (s : t) (shape : Shape.t) (NDIMS : nat) :
  valid_slice s -> wf false shape ->
  match SliceTensorShape s shape with
  | Ok r => wf false r /\ Forall2 fits (extents s) (sizes false shape) /\
            sizes false r = zip_with extent_size (extents s) (sizes false shape)
  | Err e => e = Fail Internal /\ ~ Forall2 fits (extents s) (sizes false shape)
  end /\
  (length (sizes false shape) = dims s -> (dims s <= NDIMS)%nat ->
   FillIndicesAndSizes NDIMS s shape =
   Ok (map offset (extents s) ++ replicate (NDIMS - dims s) 0,
       zip_with extent_size (extents s) (sizes false shape) ++ replicate (NDIMS - dims s) 1)) /\
  (forall str parsed, Parse str Clear = (Ok tt, parsed) -> SliceTensorShape parsed shape = Err Crash ->
   Exists overflowing (extents parsed)).
Proof.
  intros Hs Hw. split; [by apply SliceTensorShape_spec|]. split; [|intros str p; by apply parsed_crash].
  intros Hd Hn. open_slice Hs l. unfold FillIndicesAndSizes.
  rewrite (wf_dims_eq false shape Hw), Hd, dims_of, Z.eqb_refl, (proj2 (Nat.leb_le _ _) Hn).
  do 2 f_equal.
  - f_equal. rewrite <- (map_nth_seq offset l (0, 0)). apply map_ext. intros d. unfold offset. by rewrite full_of, start_of.
  - f_equal. apply list_eq. intros i. change (map ?f ?l) with (f <$> l). rewrite list_lookup_fmap, lookup_zip_with.
    destruct (decide (i < length l)%nat) as [Hi|Hi].
    + rewrite lookup_seq_lt by done. cbn -[length_ IsFullAt dim_size extent_size]. rewrite (dim_size_eq false shape i (wf_known false shape Hw)) by lia.
      destruct (lookup_lt_is_Some_2 l i Hi) as [e He]. rewrite He. cbn -[length_ IsFullAt dim_size].
      by rewrite full_of, length_of, (nth_lookup_Some _ _ _ _ He).
    + rewrite (lookup_ge_None_2 l) by lia. rewrite lookup_ge_None_2; [done|]. rewrite length_seq. lia.
Qed.

Lemma relatives_ok (k l : list (Z * Z)) :
  Forall valid_extent k -> Forall valid_extent l -> Forall2 (fun f e => forall i, inside f i -> inside e i) k l ->
  Forall valid_extent (zip_with relative l k) /\
  forall idx, Forall (fun i => 0 <= i) idx ->
    Forall2 inside (zip_with relative l k) idx <-> (length idx = length k /\ Forall2 inside k (zip_with Z.add idx (map offset l))).
Proof.
  intros Hk Hl Hin. revert Hk Hl. induction Hin as [|f e k l Hi Hin IH]; intros Hk Hl.
  - split; [constructor|]. intros idx _. cbn. split.
    + intros H. inversion H. split; [done|constructor].
    + intros [H _]. by destruct idx.
  - apply list.Forall_cons in Hk as [Hf Hk]. apply list.Forall_cons in Hl as [He Hl].
    destruct (IH Hk Hl) as [H1 H2]. destruct (relative_ok e f He Hf Hi) as [Hv Hr]. cbn [zip_with map].
    split; [by constructor|]. intros idx Hidx. destruct idx as [|i idx].
    + split; [intros H; inversion H|by intros [H _]].
    + apply list.Forall_cons in Hidx as [Hi0 Hidx]. cbn [zip_with length]. rewrite !Forall2_cons, Hr, H2 by done.
      split; [intros (? & -> & ?); done|intros (Hlen & ? & ?); split; [done|]; split; [by injection Hlen|done]].
Qed.

Lemma relatives_shape (k l : list (Z * Z)) (ns : list Z) :
  Forall valid_extent k -> Forall valid_extent l -> Forall2 (fun f e => forall i, inside f i -> inside e i) k l ->
  Forall2 fits l ns ->
  (Forall2 fits (zip_with relative l k) (zip_with extent_size l ns) <-> Forall2 fits k ns) /\
  zip_with extent_size (zip_with relative l k) (zip_with extent_size l ns) = zip_with extent_size k ns.
Proof.
  intros Hk Hl Hin. revert ns Hk Hl. induction Hin as [|f e k l Hi Hin IH]; intros ns Hk Hl Hfit.
  - inversion Hfit; subst. done.
  - destruct ns as [|n ns]; [inversion Hfit|]. apply Forall2_cons in Hfit as [He' Hfit].
    apply list.Forall_cons in Hk as [Hf Hk]. apply list.Forall_cons in Hl as [He Hl].
    destruct (IH ns Hk Hl Hfit) as [H1 H2]. cbn [zip_with]. rewrite !Forall2_cons, H1, H2.
    assert ((fits (relative e f) (extent_size e n) <-> fits f n) /\
            extent_size (relative e f) (extent_size e n) = extent_size f n) as [Ha ->]; [|by rewrite Ha].
    destruct (relative_ok e f He Hf Hi) as [Hv _].
    unfold fits, relative, extent_size in *. destruct (whole e) eqn:Ee; [done|]. destruct He' as [|He']; [done|].
    apply valid_proper in He as (A1 & A2 & A3); [|done].
    assert (whole f = false) as Ef.
    { destruct (whole f) eqn:Ef; [|done]. destruct (Hi (fst e + snd e)) as [_ [|]]; [|congruence|lia]. split; [lia|by left]. }
    apply valid_proper in Hf as (B1 & B2 & B3); [|done]. rewrite Ef.
    destruct (Hi (fst f + snd f - 1)) as [_ [|Hend]]; [split; [lia|right; lia]|congruence|].
    unfold whole, kFullExtent. cbn [fst snd]. rewrite (proj2 (Z.eqb_neq _ (-1))) by lia. cbn [andb].
    split; [|done]. split; intros _; right; lia.
Qed.

(** Relative slices.  If the indices of [sub] are all in [base], [ComputeRelative]
    reads in range and the relative slice is valid, takes an index exactly if [sub] takes it shifted by the start of
    [base], and slicing the shape of [base] with it gives the sizes that slicing the
    whole shape with [sub] gives, or fails like it. *)
Theorem relative_slice (base sub : t) :
  valid_slice base -> valid_slice sub -> (forall idx, holds sub idx -> holds base idx) ->
  exists rel, ComputeRelative base sub = Ok rel /\ valid_slice rel /\
  (forall idx, Forall (fun i => 0 <= i) idx ->
    holds rel idx <->
    (length idx = dims base /\ holds sub (zip_with Z.add idx (map offset (extents base))))) /\
  (forall shape r, wf false shape -> SliceTensorShape base shape = Ok r ->
    match SliceTensorShape rel r, SliceTensorShape sub shape with
    | Ok r1, Ok r2 => sizes false r1 = sizes false r2
    | Err e1, Err e2 => e1 = e2
    | _, _ => False
    end).
Proof.
  intros Hb Hs Hin. open_slice Hb l. open_slice Hs k. apply box_incl in Hin; [|done].
  pose proof (Forall2_length _ _ _ Hin) as Hlen. exists (of_extents (zip_with relative l k)).
  split; [by apply ComputeRelative_of|].
  destruct (relatives_ok k l Hv0 Hv Hin) as [H1 H2]. rewrite valid_slice_of, extents_of.
  split; [done|]. split; [intros idx Hidx; rewrite H2 by done; by rewrite Hlen|].
  intros shape r Hw Hr. pose proof (SliceTensorShape_spec (of_extents l) shape ltac:(by rewrite valid_slice_of) Hw) as H3.
  rewrite Hr, extents_of in H3. destruct H3 as (Hwr & Hfit & Hz).
  destruct (relatives_shape k l (sizes false shape) Hv0 Hv Hin Hfit) as [H4 H5].
  pose proof (SliceTensorShape_spec (of_extents (zip_with relative l k)) r ltac:(by rewrite valid_slice_of) Hwr) as H6.
  pose proof (SliceTensorShape_spec (of_extents k) shape ltac:(by rewrite valid_slice_of) Hw) as H7.
  rewrite !extents_of, ?Hz in *.
  destruct (SliceTensorShape (of_extents (zip_with relative l k)) r) as [r1|e1],
    (SliceTensorShape (of_extents k) shape) as [r2|e2].
  - destruct H6 as (_ & _ & ->), H7 as (_ & _ & ->). done.
  - destruct H6 as (_ & H6 & _), H7 as [_ H7]. by apply H7, H4.
  - destruct H6 as [_ H6], H7 as (_ & H7 & _). by apply H6, H4.
  - by destruct H6 as [-> _], H7 as [-> _].
Qed.

Section RoundTrips.
Context `{absl : AbslStrings} {absl_ok : AbslStringsOk}.

(** C39: slices read back from text and protos.  The text of a valid slice is parsed to
    the slice, and its proto is built and converted to it; of any proto,
    [BuildTensorSlice] accepts exactly those that stand for a valid slice and
    refuses the others with INVALID_ARGUMENT. *)
Theorem slice_text_round_trip (s : t) (proto : TensorSliceProto) :
  valid_slice s -> Forall proto_ok proto ->
  (exists str, DebugString s = Ok str /\ Parse str Clear = (Ok tt, s) /\ ParseOrDie str = Ok s) /\
  BuildTensorSlice (AsProto s) = (Ok tt, s) /\ FromSliceProto (AsProto s) = s /\
  match BuildTensorSlice proto with
  | (Ok _, s') => valid_slice s' /\ s' = FromSliceProto proto
  | (Err e, _) => e = InvalidArgument /\ ~ valid_slice (FromSliceProto proto)
  end.
Proof.
  intros Hs Hp. open_slice Hs l. split; [|split; [|split]].
  - destruct (DebugString_pieces l Hv) as (pieces & Hps & Hd). exists (join_pieces 58 pieces).
    pose proof (Parse_pieces l [] pieces Hv Hps) as Hparse. change (of_extents []) with Clear in Hparse. cbn [app] in Hparse.
    split; [done|]. split; [done|]. unfold ParseOrDie. by rewrite Hparse.
  - rewrite AsProto_of. pose proof (build_loop_of (map extent_proto l) []) as H. change (of_extents []) with Clear in H.
    rewrite protos_extents in H. unfold BuildTensorSlice.
    specialize (H ltac:(clear -Hv; induction Hv as [|e l He Hl IH]; constructor; [|done];
      pose proof (valid_range e He); unfold proto_ok, extent_proto; destruct (whole e); unfold in_i64 in *; cbn; lia)).
    destruct (build_loop _ _) as [[[]|e] s']; destruct H as [H1 H2]; [by rewrite H2|by destruct H2].
  - rewrite AsProto_of, FromSliceProto_of, protos_extents. done.
  - unfold BuildTensorSlice. pose proof (build_loop_of proto [] Hp) as H. change (of_extents []) with Clear in H.
    rewrite FromSliceProto_of. destruct (build_loop proto Clear) as [[[]|e] s']; rewrite ?valid_slice_of.
    + destruct H as [H ->]. by rewrite valid_slice_of.
    + done.
Qed.

End RoundTrips.

(** The keys of saved slices.  The key of a name and a valid slice of positive rank
    is decoded to them, whatever follows it; and keys compare as strings like the
    names, then the ranks, then the starts and lengths, so the slices of a tensor
    are adjacent in a table. *)
Theorem slice_keys (name1 name2 : bytes) (a b s0 : t) (rest : bytes) :
  bytes_ok name1 -> bytes_ok name2 -> valid_slice a -> valid_slice b ->
  (0 < dims a)%nat -> Z.of_nat (dims a) < i32_max -> Z.of_nat (dims b) < i32_max ->
  exists k1 k2, EncodeTensorNameSlice name1 a = Ok k1 /\ EncodeTensorNameSlice name2 b = Ok k2 /\
    DecodeTensorNameSlice (k1 ++ rest) [] s0 = Ok (Ok tt, name1, a) /\
    ((name1, a) <> (name2, b) ->
     compare k1 k2 = compare_items (key_items name1 (extents a)) (key_items name2 (extents b))).
Proof.
  intros Hn1 Hn2 Ha Hb Hpos Hmax1 Hmax2. open_slice Ha l. open_slice Hb k.
  destruct (write_items_codes [] (key_items name1 l)) as (cs & Hw1 & Hcs); [by apply key_items_ok|].
  destruct (write_items_codes [] (key_items name2 k)) as (ds & Hw2 & Hds); [by apply key_items_ok|].
  exists (concat cs), (concat ds). rewrite !EncodeTensorNameSlice_of. split; [done|]. split; [done|].
  split; [by apply (DecodeTensorNameSlice_of [])|].
  intros Hne. rewrite <- (app_nil_r (concat cs)), <- (app_nil_r (concat ds)). apply keys_order; try done.
  intros [= -> ->]. by apply Hne.
Qed.

(** ** Examples *)

(** "9223372036854775807,1" is parsed although the end of the extent overflows, and
    it then seems to fit a dimension of 10 indices; [BuildTensorSlice] refuses it. *)
Example parsed_overflow :
  let s := mk [9223372036854775807] [1] in
  Parse [57; 50; 50; 51; 51; 55; 50; 48; 51; 54; 56; 53; 52; 55; 55; 53; 56; 48; 55; 44; 49] Clear = (Ok tt, s) /\
  (exists shape r, FromDims false [10] = Some shape /\ SliceTensorShape s shape = Ok r /\ sizes false r = [1]) /\
  fst (BuildTensorSlice (AsProto s)) = Err InvalidArgument.
Proof. split; [reflexivity|]. split; [|reflexivity]. eexists. eexists. split; [reflexivity|]. split; reflexivity. Qed.

(** "1,9223372036854775807:-" is parsed too; the end of its first extent is negative,
    and the length fails the [CHECK] of [AddDim] with the second dimension. *)
Example parsed_crashes :
  Parse ([49; 44; 57; 50; 50; 51; 51; 55; 50; 48; 51; 54; 56; 53; 52; 55; 55; 53; 56; 48; 55] ++ [58; 45]) Clear =
    (Ok tt, mk [1; 0] [9223372036854775807; -1]) /\
  exists shape, FromDims false [10; 10] = Some shape /\
    SliceTensorShape (mk [1; 0] [9223372036854775807; -1]) shape = Err Crash.
Proof. split; [reflexivity|]. eexists. split; reflexivity. Qed.

(** A hull with a slice of smaller rank reads out of range. *)
Example cover_out_of_range : UpdateToCover (mk [1; 2] [1; 1]) (mk [0] [5]) = Err Crash.
Proof. reflexivity. Qed.

(** The specification "-1 -" is text of a caller; its size fails a [CHECK]. *)
Example negative_size_crashes : ParseShapeAndSlice [45; 49; 32; 45] = Err Crash.
Proof. reflexivity. Qed.

(** The specification "3 4 1,2:-" of a matrix of 3 by 4 and its last two rows *)
Example matrix_rows :
  match ParseShapeAndSlice [51; 32; 52; 32; 49; 44; 50; 58; 45] with
  | Ok (shape, slice, shape_slice) =>
      sizes false shape = [3; 4] /\ slice = mk [1; 0] [2; -1] /\ sizes false shape_slice = [2; 4]
  | Err _ => False
  end.
Proof. vm_compute. done. Qed.

(** The key of a slice of a scalar is refused. *)
Example scalar_key :
  match EncodeTensorNameSlice [97] Clear with
  | Ok k => DecodeTensorNameSlice k [] Clear = Ok (Err Internal, [97], Clear)
  | Err _ => False
  end.
Proof. vm_compute. done. Qed.

(** ** Witnesses *)

Definition rows : t := mk [1; 0] [2; -1].
Definition square : t := mk [2; 1] [3; 2].
Definition inner : t := mk [2; 3] [1; 4].

Lemma samples_valid : valid_slice rows /\ valid_slice square /\ valid_slice inner.
Proof.
  unfold valid_slice, slice_wf, extents. cbn.
  split_and!; try done; repeat (constructor; [first [by left | right; unfold i64_max; cbn; lia]|]); constructor.
Qed.

Definition sample_shape : Shape.t := Shape.mk REP16 [4; 7] 2 28.

Lemma sample_shape_wf : wf false sample_shape.
Proof.
  split; [done| |done|].
  - cbn. split; [lia|]. do 2 (apply list.Forall_cons; split; [left; unfold kMaxRep16; lia|]). constructor.
  - change (legal false [4; 7]). unfold legal. split; [cbn; lia|]. split; [do 2 (apply list.Forall_cons; split; [lia|]); constructor|]. intros [|[|n]]; [done|done|].
    by rewrite take_ge by (cbn; lia).
Qed.

Lemma slice_boxes_witness :
  Intersect rows square (Some Clear) = (true, Some (mk [2; 1] [1; 2])) /\
  UpdateToCover rows square = Ok (mk [1; 0] [4; -1]) /\
  (Overlaps rows square = true <-> exists idx, holds rows idx /\ holds square idx).
Proof.
  do 2 (split; [reflexivity|]). exact (proj1 (slice_boxes rows square Clear (proj1 samples_valid) (proj1 (proj2 samples_valid)))).
Defined.

Lemma slice_of_shape_witness :
  SliceTensorShape rows sample_shape = Ok (Shape.mk REP16 [2; 7] 2 14) /\ wf false (Shape.mk REP16 [2; 7] 2 14).
Proof.
  split; [reflexivity|]. exact (proj1 (proj1 (slice_of_shape rows sample_shape 3 (proj1 samples_valid) sample_shape_wf))).
Defined.

Lemma inner_in_rows (idx : list Z) : holds inner idx -> holds rows idx.
Proof.
  unfold holds. cbn. intros H. repeat (match goal with H : Forall2 _ (_ :: _) _ |- _ => inversion H; subst; clear H end).
  match goal with H : Forall2 _ [] _ |- _ => inversion H; subst end. unfold inside in *. cbn in *.
  repeat constructor; cbn; try lia; try (left; reflexivity); right; lia.
Qed.

Lemma relative_slice_witness :
  ComputeRelative rows inner = Ok (mk [1; 3] [1; 4]) /\ valid_slice (mk [1; 3] [1; 4]).
Proof.
  split; [reflexivity|].
  destruct (relative_slice rows inner (proj1 samples_valid) (proj2 (proj2 samples_valid)) inner_in_rows) as (r & Hr & H & _).
  injection Hr as <-. exact H.
Defined.

Lemma slice_text_round_trip_witness :
  DebugString rows = Ok [49; 44; 50; 58; 45] /\ BuildTensorSlice (AsProto rows) = (Ok tt, rows).
Proof.
  split; [reflexivity|]. assert (Forall proto_ok []) as Hp by constructor.
  exact (proj1 (proj2 (slice_text_round_trip rows [] (proj1 samples_valid) Hp))).
Defined.

Lemma slice_keys_witness :
  exists k1 k2, EncodeTensorNameSlice [97] rows = Ok k1 /\ EncodeTensorNameSlice [98] square = Ok k2 /\
    DecodeTensorNameSlice (k1 ++ []) [] Clear = Ok (Ok tt, [97], rows) /\
    (([97], rows) <> ([98], square) -> compare k1 k2 = Lt).
Proof.
  assert (bytes_ok [97]) as H1 by (repeat constructor; cbn; lia).
  assert (bytes_ok [98]) as H2 by (repeat constructor; cbn; lia).
  assert ((0 < dims rows)%nat) as H3 by (cbn; lia).
  assert (Z.of_nat (dims rows) < i32_max) as H4 by reflexivity.
  assert (Z.of_nat (dims square) < i32_max) as H5 by reflexivity.
  exact (slice_keys [97] [98] rows square Clear [] H1 H2 (proj1 samples_valid) (proj1 (proj2 samples_valid)) H3 H4 H5).
Defined.
