(* ===== verification/TensorSliceSet.v ===== *)
(** The slices of a tensor in a checkpoint.

    [core/util/tensor_slice_set.{h,cc}]: a set of slices that do not overlap, with
    the smallest slice around them, and the query for the slices that supply the
    data of another one.  [std::unordered_map] is a [gmap] whose order of
    iteration is the parameter [visit]; the data type is its number.  The theorems
    show that the registered slices stay disjoint although most registrations are
    checked against the hull only, and that a query succeeds exactly when the
    registered slices hold every index of the slice, by counting elements. *)
From stdpp Require Import gmap.
From S2P Require Import Prelude TensorShape ShapeSpec Bytes Coding Block OrderedCode Numbers TensorSlice.
Import Shape.

Module TensorSliceSet.
Local Open Scope res_scope.

Record SliceInfo := mkInfo { slice : TensorSlice.t; tag : bytes; num_floats : Z }.

Record t := mk {
  shape_ : Shape.t;
  type_ : Z;
  slices_ : gmap (list Z) SliceInfo;
  slices_hull_ : TensorSlice.t
}.

(** [TensorSliceSet(shape, type)] *)
Definition TensorSliceSet (shape : Shape.t) (type : Z) : t := mk shape type ∅ TensorSlice.Clear.

(** A fault ends the program. *)
Definition or_crash {A : Type} (r : res fault A) : res failure A :=
  match r with Ok a => Ok a | Err _ => Err Crash end.

(** [insert] of a map, which keeps an element that is there *)
Definition insert_new {A : Type} (k : list Z) (x : A) (m : gmap (list Z) A) : gmap (list Z) A :=
  match m !! k with Some _ => m | None => <[k := x]> m end.

Section Operations.
Context (visit : gmap (list Z) SliceInfo -> list (list Z * SliceInfo)).

(** [Register]; the set is as before when it fails. *)
Definition Register (s : t) (slice : TensorSlice.t) (tag : bytes) : res failure t :=
  let! result_shape := TensorSlice.SliceTensorShape slice (shape_ s) in
  let! str := or_crash (TensorSlice.DebugString slice) in
  let! hull :=
    if bool_decide (slices_ s = ∅) then Ok slice
    else if TensorSlice.Overlaps (slices_hull_ s) slice
         && existsb (fun x => TensorSlice.Overlaps slice (TensorSliceSet.slice (snd x))) (visit (slices_ s))
    then Err (Fail Internal)
    else TensorSlice.UpdateToCover (slices_hull_ s) slice in
  Ok (mk (shape_ s) (type_ s) (insert_new str (mkInfo slice tag (num_elements result_shape)) (slices_ s)) hull).

(** The loop of [QueryMeta] and the comparison after it. *)
Fixpoint query_loop (l : list (list Z * SliceInfo)) (q : TensorSlice.t) (shape : Shape.t) (total_size overlap_size : Z)
    (intersection : TensorSlice.t) (results : list (TensorSlice.t * bytes)) :
    res failure (bool * list (TensorSlice.t * bytes)) :=
  match l with
  | [] => if total_size =? overlap_size then Ok (true, results) else Ok (false, [])
  | (_, x) :: l' =>
      let '(hit, inter) := TensorSlice.Intersect q (slice x) (Some intersection) in
      let inter := default intersection inter in
      if hit then
        match TensorSlice.SliceTensorShape inter shape with
        | Err (Fail _) => Ok (false, results)
        | Err Crash => Err Crash
        | Ok inter_shape =>
            query_loop l' q shape total_size (wrap_i64 (overlap_size + num_elements inter_shape)) inter
              (results ++ [(slice x, tag x)])
        end
      else query_loop l' q shape total_size overlap_size inter results
  end.

(** [QueryMeta]: the result and [*results]. *)
Definition QueryMeta (s : t) (q : TensorSlice.t) : res failure (bool * list (TensorSlice.t * bytes)) :=
  let! str := or_crash (TensorSlice.DebugString q) in
  match slices_ s !! (str : list Z) with
  | Some info => Ok (true, [(slice info, tag info)])
  | None =>
      match TensorSlice.SliceTensorShape q (shape_ s) with
      | Err (Fail _) => Ok (false, [])
      | Err Crash => Err Crash
      | Ok target_shape =>
          query_loop (visit (slices_ s)) q (shape_ s) (num_elements target_shape) 0 TensorSlice.Clear []
      end
  end.

(** [RegisterTensorSlice]: the status and the map of the sets. *)
Definition RegisterTensorSlice (name : list Z) (shape : Shape.t) (type : Z) (tag : bytes) (slice : TensorSlice.t)
    (tensor_slices : gmap (list Z) t) : res failure unit * gmap (list Z) t :=
  let register tss m :=
    match Register tss slice tag with
    | Ok tss' => (Ok tt, <[name := tss']> m)
    | Err e => (Err e, m)
    end in
  match tensor_slices !! name with
  | None =>
      let tss := TensorSliceSet shape type in register tss (<[name := tss]> tensor_slices)
  | Some tss =>
      if negb (IsSameSize shape (shape_ tss)) then (Err (Fail Internal), tensor_slices)
      else if negb (type =? type_ tss) then (Err (Fail Internal), tensor_slices)
      else register tss tensor_slices
  end.
End Operations.
End TensorSliceSet.

Import TensorSlice TensorSliceSet.

(** ** The indices of a box *)

(** All indices with each coordinate in a range, given by its first element and its size *)
Fixpoint points (rs : list (Z * Z)) : list (list Z) :=
  match rs with
  | [] => [[]]
  | (o, n) :: rs' => flat_map (fun i => map (cons i) (points rs')) (seqZ o n)
  end.

Definition ranged (r : Z * Z) (i : Z) : Prop := fst r <= i < fst r + snd r.

Lemma elem_of_flat_map {A B : Type} (f : A -> list B) (l : list A) (y : B) :
  y ∈ flat_map f l <-> exists x, y ∈ f x /\ x ∈ l.
Proof.
  rewrite list_elem_of_In, in_flat_map. split; intros (x & H1 & H2); exists x; rewrite ?list_elem_of_In in *; done.
Qed.

Lemma elem_of_points (rs : list (Z * Z)) (idx : list Z) : idx ∈ points rs <-> Forall2 ranged rs idx.
Proof.
  revert idx. induction rs as [|[o n] rs IH]; intros idx; cbn [points].
  - rewrite list_elem_of_singleton. split; [intros ->; constructor|intros H; by inversion H].
  - rewrite elem_of_flat_map. split.
    + intros (i & Hi & Hr). change (map ?f ?l) with (f <$> l) in Hi. apply list_elem_of_fmap in Hi as (idx' & -> & Hi).
      apply elem_of_seqZ in Hr. constructor; [unfold ranged; cbn; lia|by apply IH].
    + intros H. destruct idx as [|i idx]; [inversion H|]. apply Forall2_cons in H as [Hi H]. exists i.
      change (map ?f ?l) with (f <$> l). split; [apply list_elem_of_fmap; exists idx; split; [done|by apply IH]|].
      apply elem_of_seqZ. unfold ranged in Hi. cbn in Hi. lia.
Qed.

Lemma NoDup_flat_map_apart {A B : Type} (f : A -> list B) (l : list A) :
  NoDup l -> (forall x, x ∈ l -> NoDup (f x)) -> (forall x y z, x ∈ l -> y ∈ l -> z ∈ f x -> z ∈ f y -> x = y) ->
  NoDup (flat_map f l).
Proof.
  induction 1 as [|x l Hx Hl IH]; intros Hf Hd; [constructor|]. cbn. apply NoDup_app. split; [apply Hf; set_solver|].
  split.
  - intros z Hz Hin. apply elem_of_flat_map in Hin as (y & Hzy & Hy).
    assert (x = y) as -> by (apply (Hd x y z); set_solver). done.
  - apply IH; [intros y Hy; apply Hf; set_solver|]. intros y w z Hy Hw. apply Hd; set_solver.
Qed.

Lemma NoDup_points (rs : list (Z * Z)) : NoDup (points rs).
Proof.
  induction rs as [|[o n] rs IH]; cbn [points]; [apply NoDup_singleton|]. apply NoDup_flat_map_apart.
  - apply NoDup_seqZ.
  - intros i _. change (map ?f ?l) with (f <$> l). apply NoDup_fmap_2; [|done]. by intros x y [= ->].
  - intros i j z _ _ Hi Hj. change (map ?f ?l) with (f <$> l) in *.
    apply list_elem_of_fmap in Hi as (? & -> & _). by apply list_elem_of_fmap in Hj as (? & [= ->] & _).
Qed.

Lemma length_points (rs : list (Z * Z)) :
  Forall (fun r => 0 <= snd r) rs -> Z.of_nat (length (points rs)) = count (map snd rs).
Proof.
  induction 1 as [|[o n] rs Hn Hrs IH]; cbn [points map count snd] in *; [done|].
  rewrite (flat_map_constant_length (c := length (points rs))).
  - rewrite Nat2Z.inj_mul, length_seqZ, Z2Nat.id, IH by lia. rewrite <- IH.
    rewrite !(proj2 (Z.ltb_ge _ 0)) by lia. done.
  - intros i _. apply length_map.
Qed.

(** The indices of a slice in a tensor of the given sizes *)
Definition box (l : list (Z * Z)) (ns : list Z) : list (Z * Z) :=
  zip_with (fun e n => (offset e, extent_size e n)) l ns.

Definition in_shape (ns idx : list Z) : Prop := Forall2 (fun n i => 0 <= i < n) ns idx.

Lemma box_ranged (l : list (Z * Z)) (ns idx : list Z) :
  Forall valid_extent l -> Forall2 fits l ns ->
  Forall2 ranged (box l ns) idx <-> Forall2 inside l idx /\ in_shape ns idx.
Proof.
  intros Hl Hf. revert idx Hl. unfold in_shape, box. induction Hf as [|e n l ns He Hf IH]; intros idx Hl.
  - cbn. split; [intros H; inversion H; split; constructor|intros [H _]; inversion H; constructor].
  - apply list.Forall_cons in Hl as [Hv Hl]. destruct idx as [|i idx]; [split; [intros H; inversion H|intros [H _]; inversion H]|].
    cbn [zip_with]. rewrite !Forall2_cons, IH by done.
    assert (ranged (offset e, extent_size e n) i <-> inside e i /\ 0 <= i < n) as ->; [|tauto].
    unfold ranged, offset, extent_size, inside, fits in *. cbn [fst snd]. destruct (whole e) eqn:E; [split; [|lia]|].
    + intros H. split; [split; [lia|by left]|lia].
    + apply valid_proper in Hv; [|done]. destruct He as [|He]; [done|]. split; [|intros [[_ [|]] _]; [done|lia]].
      intros H. split; [split; [lia|right; lia]|lia].
Qed.

Lemma box_count (l : list (Z * Z)) (ns : list Z) :
  Forall valid_extent l -> Forall (fun n => 0 <= n) ns ->
  Z.of_nat (length (points (box l ns))) = count (zip_with extent_size l ns).
Proof.
  intros Hl Hn. rewrite length_points.
  - f_equal. unfold box. revert ns Hn. induction Hl as [|e l He Hl IH]; intros [|n ns] Hn; try done. cbn.
    f_equal. apply IH. by apply list.Forall_cons in Hn as [_ ?].
  - unfold box. revert ns Hn. induction Hl as [|e l He Hl IH]; intros [|n ns] Hn; cbn; constructor.
    + cbn. unfold extent_size. apply list.Forall_cons in Hn as [Hn _]. destruct (whole e) eqn:E; [done|].
      apply valid_proper in He; [lia|done].
    + apply IH. by apply list.Forall_cons in Hn as [_ ?].
Qed.

Lemma meet_fits (e f g : Z * Z) (n : Z) : fits e n -> fits f n -> meet e f = Some g -> fits g n.
Proof.
  unfold fits, meet. destruct (whole e) eqn:Ee; [by intros _ Hf [= <-]|]. destruct (whole f) eqn:Ef.
  - intros He _ [= <-]. rewrite Ee in *. done.
  - intros [|He] [|Hf]; try done. destruct (0 <? _); [|done]. intros [= <-]. right. cbn. lia.
Qed.

Lemma meets_fits (l k m : list (Z * Z)) (ns : list Z) :
  Forall2 fits l ns -> Forall2 fits k ns -> meets l k = Some m -> Forall2 fits m ns.
Proof.
  intros Hl. revert k m. induction Hl as [|e n l ns He Hl IH]; intros k m Hk H; inversion Hk as [|f n' k' ns' Hf Hk']; subst.
  - by injection H as <-.
  - cbn [meets] in H. destruct (meet e f) as [g|] eqn:Eg; [|done]. destruct (meets l k') as [m'|] eqn:Em; [|done].
    injection H as <-. constructor; [by apply (meet_fits e f)|by apply (IH k')].
Qed.

(** ** Covering by counting

    Lists without duplicates in another such list have its length exactly when
    they have its elements. *)
Lemma cover_count {A : Type} `{EqDecision A} (big l : list A) :
  NoDup big -> NoDup l -> (forall x, x ∈ big -> x ∈ l) ->
  (length big <= length l)%nat /\ (length big = length l <-> forall x, x ∈ l -> x ∈ big).
Proof.
  intros Hb Hl Hin. assert (big ⊆+ l) as Hs by by apply NoDup_submseteq.
  split; [by apply submseteq_length|]. split.
  - intros Hlen x Hx. assert (big ≡ₚ l) as Hp by (apply submseteq_length_Permutation; [done|lia]). by rewrite Hp.
  - intros H. apply Permutation_length. apply NoDup_Permutation; [done|done|]. intros x. split; auto.
Qed.

(** ** Keys of the map *)

Definition key (s : TensorSlice.t) : list Z := match DebugString s with Ok k => k | Err _ => [] end.

Lemma key_ok (s : TensorSlice.t) : valid_slice s -> DebugString s = Ok (key s) /\ Parse (key s) Clear = (Ok tt, s).
Proof.
  intros Hs. destruct (valid_slice_inv s Hs) as (l & -> & Hl). unfold key.
  destruct (DebugString_pieces l Hl) as (pieces & Hp & ->). split; [done|].
  pose proof (Parse_pieces l [] pieces Hl Hp) as H. exact H.
Qed.

Lemma key_inj (a b : TensorSlice.t) : valid_slice a -> valid_slice b -> key a = key b -> a = b.
Proof.
  intros Ha Hb H. apply key_ok in Ha as [_ Ha]. apply key_ok in Hb as [_ Hb]. rewrite H in Ha. congruence.
Qed.

(** ** The abstract set: the registered slices with their tags, the last one first *)

Definition entry (ns : list Z) (p : TensorSlice.t * bytes) : list Z * SliceInfo :=
  (key (fst p), mkInfo (fst p) (snd p) (count (zip_with extent_size (extents (fst p)) ns))).

Definition apart (p r : TensorSlice.t * bytes) : Prop := forall idx, ~ (holds (fst p) idx /\ holds (fst r) idx).

(** A valid slice inside of a tensor of the given sizes *)
Definition slice_of (ns : list Z) (s : TensorSlice.t) : Prop := valid_slice s /\ Forall2 fits (extents s) ns.

Record represents (s : t) (L : list (TensorSlice.t * bytes)) : Prop := {
  rep_shape : wf false (shape_ s);
  rep_slices : Forall (fun p => slice_of (sizes false (shape_ s)) (fst p)) L;
  rep_apart : ForallOrdPairs apart L;
  rep_map : map_to_list (slices_ s) ≡ₚ map (entry (sizes false (shape_ s))) L;
  rep_hull : L <> [] -> valid_slice (slices_hull_ s) /\ dims (slices_hull_ s) = length (sizes false (shape_ s)) /\
    Forall (fun p => forall idx, holds (fst p) idx -> holds (slices_hull_ s) idx) L
}.

Lemma represents_new (shape : Shape.t) (type : Z) : wf false shape -> represents (TensorSliceSet shape type) [].
Proof. intros H. split; cbn; try done; try constructor. Qed.

Lemma represents_empty (s : t) (L : list (TensorSlice.t * bytes)) : represents s L -> slices_ s = ∅ <-> L = [].
Proof.
  intros H. pose proof (rep_map s L H) as Hm. split.
  - intros E. rewrite E, map_to_list_empty in Hm. apply Permutation_nil in Hm. by destruct L.
  - intros ->. cbn in Hm. apply map_to_list_empty_iff. by apply Permutation_nil, Permutation_sym.
Qed.

Lemma rep_lookup (s : t) (L : list (TensorSlice.t * bytes)) (q : TensorSlice.t) (info : SliceInfo) :
  represents s L -> valid_slice q ->
  slices_ s !! key q = Some info <-> exists tag, (q, tag) ∈ L /\ info = snd (entry (sizes false (shape_ s)) (q, tag)).
Proof.
  intros H Hq. rewrite <- elem_of_map_to_list, (rep_map s L H). change (map ?f ?l) with (f <$> l).
  rewrite list_elem_of_fmap. split.
  - intros ([a tag] & He & Hin). unfold entry in He. cbn [fst snd] in He. injection He as Hk ->.
    pose proof (rep_slices s L H) as Hv. rewrite list.Forall_forall in Hv. destruct (Hv _ Hin) as [Ha _]. cbn in Ha.
    assert (q = a) as -> by by apply key_inj. by exists tag.
  - intros (tag & Hin & ->). by exists (q, tag).
Qed.

Lemma slice_nonempty (s : TensorSlice.t) : valid_slice s -> exists idx, holds s idx.
Proof.
  intros Hs. destruct (valid_slice_inv s Hs) as (l & -> & Hl). exists (least l). unfold holds. rewrite extents_of.
  by apply least_inside.
Qed.

Lemma slice_of_dims (ns : list Z) (s : TensorSlice.t) : slice_of ns s -> dims s = length ns.
Proof.
  intros [Hs Hf]. destruct (valid_slice_inv s Hs) as (l & -> & _). rewrite dims_of. rewrite extents_of in Hf.
  by apply Forall2_length in Hf.
Qed.

Section SliceSets.
Context (visit : gmap (list Z) SliceInfo -> list (list Z * SliceInfo)).
Context (visit_all : forall m, visit m ≡ₚ map_to_list m).

Lemma visit_entries (s : t) (L : list (TensorSlice.t * bytes)) :
  represents s L -> visit (slices_ s) ≡ₚ map (entry (sizes false (shape_ s))) L.
Proof using visit_all. intros H. by rewrite visit_all, (rep_map s L H). Qed.

(** The test of [Register] finds every overlap, although the hull is tried first. *)
Lemma hull_check (s : t) (L : list (TensorSlice.t * bytes)) (slice : TensorSlice.t) :
  represents s L -> L <> [] -> valid_slice slice ->
  Overlaps (slices_hull_ s) slice && existsb (fun x => Overlaps slice (TensorSliceSet.slice (snd x))) (visit (slices_ s)) = true <->
  exists p idx, p ∈ L /\ holds (fst p) idx /\ holds slice idx.
Proof using visit_all.
  intros H Hne Hs. destruct (rep_hull s L H Hne) as (Hh & _ & Hin). rewrite list.Forall_forall in Hin.
  pose proof (rep_slices s L H) as Hv. rewrite list.Forall_forall in Hv.
  rewrite andb_true_iff, existsb_exists, Overlaps_spec by done. split.
  - intros (_ & x & Hx & Ho). rewrite <- list_elem_of_In, (visit_entries s L H) in Hx.
    change (map ?f ?l) with (f <$> l) in Hx. apply list_elem_of_fmap in Hx as (p & -> & Hp). cbn in Ho.
    destruct (Hv p Hp) as [Hpv _]. apply Overlaps_spec in Ho as (idx & H1 & H2); [|done|done]. by exists p, idx.
  - intros (p & idx & Hp & H1 & H2). split; [exists idx; split; [by apply (Hin p)|done]|].
    exists (entry (sizes false (shape_ s)) p). rewrite <- list_elem_of_In, (visit_entries s L H).
    change (map ?f ?l) with (f <$> l). split; [apply list_elem_of_fmap; by exists p|].
    cbn. destruct (Hv p Hp) as [Hpv _]. apply Overlaps_spec; [done|done|]. by exists idx.
Qed.

Lemma Register_spec (s : t) (L : list (TensorSlice.t * bytes)) (slice : TensorSlice.t) (tag : bytes) :
  represents s L -> valid_slice slice ->
  match Register visit s slice tag with
  | Ok s' => represents s' ((slice, tag) :: L) /\ shape_ s' = shape_ s /\ type_ s' = type_ s /\
             slice_of (sizes false (shape_ s)) slice /\ Forall (apart (slice, tag)) L
  | Err e => e = Fail Internal /\
             ~ (slice_of (sizes false (shape_ s)) slice /\ Forall (apart (slice, tag)) L)
  end.
Proof using visit_all.
  intros H Hs. unfold Register. pose proof (rep_shape s L H) as Hw.
  pose proof (SliceTensorShape_spec slice (shape_ s) Hs Hw) as Hshape.
  pose proof (slice_elements slice (shape_ s)) as Hel.
  destruct (SliceTensorShape slice (shape_ s)) as [r|e]; cbn [res_bind];
    [|destruct Hshape as [-> Hn]; split; [done|]; intros [[_ Hf] _]; by apply Hn].
  destruct Hshape as (_ & Hfit & _). specialize (Hel r Hs Hw eq_refl). destruct (key_ok slice Hs) as [-> _]. cbn [or_crash res_bind].
  assert (slice_of (sizes false (shape_ s)) slice) as Hso by done.
  assert (forall hull, Forall (apart (slice, tag)) L -> valid_slice hull -> dims hull = length (sizes false (shape_ s)) ->
    Forall (fun p => forall idx, holds (fst p) idx -> holds hull idx) ((slice, tag) :: L) ->
    represents (mk (shape_ s) (type_ s) (insert_new (key slice) (mkInfo slice tag (num_elements r)) (slices_ s)) hull)
      ((slice, tag) :: L)) as Hnew.
  { intros hull Ha Hh1 Hh2 Hh3. split; cbn [shape_ slices_ slices_hull_].
    - done.
    - constructor; [done|apply H].
    - constructor; [done|apply H].
    - assert (slices_ s !! key slice = None) as Hnone.
      { destruct (slices_ s !! key slice) as [info|] eqn:E; [|done]. apply (rep_lookup s L) in E as (tag' & Hin & _); [|done|done].
        rewrite list.Forall_forall in Ha. destruct (slice_nonempty slice Hs) as [idx Hi]. by destruct (Ha _ Hin idx). }
      unfold insert_new. rewrite Hnone, map_to_list_insert by done. cbn [map]. rewrite (rep_map s L H). by rewrite Hel.
    - done. }
  case_bool_decide as Hemp.
  - apply (represents_empty s L H) in Hemp as ->. cbn [res_bind]. split; [|done].
    apply Hnew; [constructor|done|by apply slice_of_dims|]. by constructor.
  - assert (L <> []) as Hne by (intros E; apply Hemp; by apply (represents_empty s L H)).
    pose proof (hull_check s L slice H Hne Hs) as Hc. destruct (_ && _).
    + cbn [res_bind]. split; [done|]. intros [_ Ha]. destruct (proj1 Hc eq_refl) as (p & idx & Hp & H1 & H2).
      rewrite list.Forall_forall in Ha. by destruct (Ha p Hp idx).
    + assert (Forall (apart (slice, tag)) L) as Ha.
      { apply list.Forall_forall. intros p Hp idx [H1 H2]. cbn in H1.
        assert (false = true) by (apply Hc; by exists p, idx). done. }
      destruct (rep_hull s L H Hne) as (Hh & Hd & Hin).
      destruct (UpdateToCover_spec (slices_hull_ s) slice Hh Hs) as (h & U0 & U1 & U2 & U3 & _);
        [rewrite Hd; symmetry; by apply slice_of_dims|].
      rewrite U0. cbn [res_bind]. split; [|done]. apply Hnew; [done|done|by rewrite U2|]. constructor; [intros idx Hi; apply U3; by right|].
      eapply list.Forall_impl; [exact Hin|]. intros p Hp idx Hi. apply U3. left. by apply Hp.
Qed.

End SliceSets.

(** ** Queries *)

(** The indices that a registered slice supplies to a query *)
Definition supplied (q : TensorSlice.t) (ns : list Z) (s : TensorSlice.t) : list (list Z) :=
  match meets (extents q) (extents s) with Some m => points (box m ns) | None => [] end.

Lemma elem_of_supplied (q s : TensorSlice.t) (ns idx : list Z) :
  slice_of ns q -> slice_of ns s -> idx ∈ supplied q ns s <-> holds q idx /\ holds s idx /\ in_shape ns idx.
Proof.
  intros [[_ Hq] Hqf] [[_ Hs] Hsf]. unfold supplied, holds. destruct (meets _ _) as [m|] eqn:E.
  - destruct (meets_ok _ _ m Hq Hs E) as (Hm & _ & Hi). rewrite elem_of_points, box_ranged, Hi by
      first [done | by apply (meets_fits (extents q) (extents s))]. tauto.
  - split; [set_solver|]. intros (H1 & H2 & _). exfalso. by apply (meets_none _ _ idx Hq Hs E).
Qed.

Lemma NoDup_supplied (q s : TensorSlice.t) (ns : list Z) : NoDup (supplied q ns s).
Proof. unfold supplied. destruct (meets _ _); [apply NoDup_points|constructor]. Qed.

Definition supply (q : TensorSlice.t) (ns : list Z) (x : list Z * SliceInfo) : list (list Z) := supplied q ns (slice (snd x)).

Lemma query_loop_spec (q : TensorSlice.t) (shape : Shape.t) (total : Z) (l : list (list Z * SliceInfo))
    (acc : Z) (inter : TensorSlice.t) (results : list (TensorSlice.t * bytes)) :
  wf false shape -> slice_of (sizes false shape) q ->
  Forall (fun x => slice_of (sizes false shape) (slice (snd x))) l ->
  0 <= acc -> acc + Z.of_nat (length (flat_map (supply q (sizes false shape)) l)) < 2 ^ 63 ->
  query_loop l q shape total acc inter results =
  Ok (if total =? acc + Z.of_nat (length (flat_map (supply q (sizes false shape)) l))
      then (true, results ++ map (fun x => (slice (snd x), tag (snd x))) (List.filter (fun x => Overlaps q (slice (snd x))) l))
      else (false, [])).
Proof.
  intros Hw Hq Hl. revert acc inter results. induction Hl as [|[k x] l Hx Hl IH]; intros acc inter results Hacc Hsum.
  - cbn. rewrite Z.add_0_r, app_nil_r. by destruct (_ =? _).
  - cbn [flat_map] in *. rewrite length_app, Nat2Z.inj_add in *. cbn [query_loop snd List.filter] in *.
    rewrite (Overlaps_Intersect q (slice x) inter). pose proof Hq as [Hqv Hqf]. destruct Hx as [Hxv Hxf]. unfold supply, supplied in *. cbn [snd] in *.
    destruct (valid_slice_inv q Hqv) as (lq & Eq & Hlq). destruct (valid_slice_inv (slice x) Hxv) as (lx & Ex & Hlx).
    assert (length lx = length lq) as Hlen.
    { rewrite Eq, extents_of in Hqf. rewrite Ex, extents_of in Hxf. apply Forall2_length in Hqf, Hxf. lia. }
    assert (Intersect q (slice x) (Some inter) = match meets (extents q) (extents (slice x)) with
      | Some m => (true, Some (of_extents m)) | None => (false, Some Clear) end) as ->.
    { rewrite Eq, Ex, !extents_of. by apply Intersect_of. }
    destruct (meets (extents q) (extents (slice x))) as [m|] eqn:Em; cbn [fst default].
    + destruct Hqv as [_ Hqe]. destruct Hxv as [_ Hxe]. destruct (meets_ok _ _ m Hqe Hxe Em) as (Hm & _ & _).
      pose proof (SliceTensorShape_spec (of_extents m) shape ltac:(by rewrite valid_slice_of) Hw) as Hspec.
      pose proof (slice_elements (of_extents m) shape) as Hel. unfold id.
      destruct (SliceTensorShape (of_extents m) shape) as [r|e]; rewrite extents_of in *.
      2:{ destruct Hspec as [_ Hn]. exfalso. apply Hn. by apply (meets_fits (extents q) (extents (slice x))). }
      rewrite (Hel r) by (by rewrite ?valid_slice_of).
      assert (Forall (fun n => 0 <= n) (sizes false shape)) as Hn.
      { eapply list.Forall_impl; [exact (wf_sizes_range false shape Hw)|]. cbn. lia. }
      rewrite <- (box_count m (sizes false shape) Hm Hn).
      rewrite wrap_i64_id by (unfold in_i64; lia). rewrite IH by lia. cbn [map]. rewrite <- app_assoc, Z.add_assoc. done.
    + unfold id. rewrite IH by (cbn in *; lia). cbn [length Z.of_nat]. done.
Qed.

Lemma NoDup_supply (q : TensorSlice.t) (ns : list Z) (L : list (TensorSlice.t * bytes)) :
  slice_of ns q -> Forall (fun p => slice_of ns (fst p)) L -> ForallOrdPairs apart L ->
  NoDup (flat_map (fun p => supplied q ns (fst p)) L).
Proof.
  intros Hq Hv Ha. induction Ha as [|p L Hp Ha IH]; [constructor|]. apply list.Forall_cons in Hv as [Hpv Hv].
  cbn. apply NoDup_app. split; [apply NoDup_supplied|]. split; [|by apply IH].
  intros idx H1 H2. apply elem_of_flat_map in H2 as (r & H2 & Hr). rewrite list.Forall_forall in Hv, Hp.
  apply elem_of_supplied in H1 as (_ & H1 & _); [|done|done]. apply elem_of_supplied in H2 as (_ & H2 & _); [|done|by apply Hv].
  by apply (Hp r Hr idx).
Qed.

Section Queries.
Context (visit : gmap (list Z) SliceInfo -> list (list Z * SliceInfo)).
Context (visit_all : forall m, visit m ≡ₚ map_to_list m).

(** The registered slices hold every index of the query. *)
Definition covered (ns : list Z) (q : TensorSlice.t) (L : list (TensorSlice.t * bytes)) : Prop :=
  forall idx, holds q idx -> in_shape ns idx -> exists p, p ∈ L /\ holds (fst p) idx.

Lemma supply_entries (q : TensorSlice.t) (ns : list Z) (L : list (TensorSlice.t * bytes)) :
  flat_map (supply q ns) (map (entry ns) L) = flat_map (fun p => supplied q ns (fst p)) L.
Proof. induction L as [|p L IH]; [done|]. cbn. by rewrite IH. Qed.

(** The elements counted are those of the query exactly when it is covered. *)
Lemma supply_covers (q : TensorSlice.t) (ns : list Z) (L : list (TensorSlice.t * bytes)) :
  slice_of ns q -> Forall (fun p => slice_of ns (fst p)) L -> ForallOrdPairs apart L ->
  (length (flat_map (fun p => supplied q ns (fst p)) L) <= length (points (box (extents q) ns)))%nat /\
  (length (flat_map (fun p => supplied q ns (fst p)) L) = length (points (box (extents q) ns)) <-> covered ns q L).
Proof.
  intros Hq Hv Ha. pose proof Hq as [[_ Hqe] Hqf].
  assert (forall idx, idx ∈ points (box (extents q) ns) <-> holds q idx /\ in_shape ns idx) as Hp.
  { intros idx. by rewrite elem_of_points, box_ranged. }
  assert (forall idx, idx ∈ flat_map (fun p => supplied q ns (fst p)) L <->
    holds q idx /\ in_shape ns idx /\ exists p, p ∈ L /\ holds (fst p) idx) as Hf.
  { intros idx. rewrite elem_of_flat_map. rewrite list.Forall_forall in Hv. split.
    - intros (p & Hi & Hin). apply elem_of_supplied in Hi as (H1 & H2 & H3); [|done|by apply Hv]. split; [done|].
      split; [done|]. by exists p.
    - intros (H1 & H2 & p & Hin & H3). exists p. split; [|done]. apply elem_of_supplied; [done|by apply Hv|done]. }
  destruct (cover_count (flat_map (fun p => supplied q ns (fst p)) L) (points (box (extents q) ns))) as [H1 H2].
  - by apply NoDup_supply.
  - apply NoDup_points.
  - intros idx Hi. apply Hf in Hi. apply Hp. tauto.
  - split; [done|]. rewrite H2. unfold covered. split.
    + intros H idx H3 H4. assert (idx ∈ points (box (extents q) ns)) as Hi by (by apply Hp). apply H, Hf in Hi. tauto.
    + intros H idx Hi. apply Hp in Hi as [H3 H4]. apply Hf. auto.
Qed.

Lemma filter_perm {A : Type} (f : A -> bool) (l k : list A) : l ≡ₚ k -> List.filter f l ≡ₚ List.filter f k.
Proof.
  induction 1 as [|x l k H IH|x y l|l k m H1 IH1 H2 IH2]; cbn.
  - done.
  - destruct (f x); [by constructor|done].
  - destruct (f x), (f y); try done. constructor.
  - by rewrite IH1.
Qed.

Lemma filter_entries (q : TensorSlice.t) (ns : list Z) (L : list (TensorSlice.t * bytes)) :
  map (fun x => (slice (snd x), tag (snd x))) (List.filter (fun x => Overlaps q (slice (snd x))) (map (entry ns) L)) =
  List.filter (fun p => Overlaps q (fst p)) L.
Proof. induction L as [|[a tg] L IH]; [done|]. cbn. destruct (Overlaps q a); cbn; by rewrite IH. Qed.

Lemma QueryMeta_spec (s : t) (L : list (TensorSlice.t * bytes)) (q : TensorSlice.t) :
  represents s L -> valid_slice q ->
  exists ok results, QueryMeta visit s q = Ok (ok, results) /\
    (forall tag, (q, tag) ∈ L -> ok = true /\ results = [(q, tag)]) /\
    ((forall tag, (q, tag) ∉ L) ->
     (ok = true <-> slice_of (sizes false (shape_ s)) q /\ covered (sizes false (shape_ s)) q L) /\
     (ok = true -> results ≡ₚ List.filter (fun p => Overlaps q (fst p)) L) /\ (ok = false -> results = [])).
Proof using visit_all.
  intros H Hq. unfold QueryMeta. destruct (key_ok q Hq) as [-> _]. cbn [or_crash res_bind].
  destruct (slices_ s !! key q) as [info|] eqn:E.
  - apply (rep_lookup s L q) in E as (tag0 & Hin & ->); [|done|done]. eexists. eexists. split; [reflexivity|]. split.
    + intros tag' Hin'. split; [done|]. cbn. enough (tag0 = tag') as -> by done.
      assert (slices_ s !! key q = Some (snd (entry (sizes false (shape_ s)) (q, tag0)))) as E1 by (apply (rep_lookup s L); [done|done|by exists tag0]).
      assert (slices_ s !! key q = Some (snd (entry (sizes false (shape_ s)) (q, tag')))) as E2 by (apply (rep_lookup s L); [done|done|by exists tag']).
      rewrite E1 in E2. by injection E2.
    + intros Hno. by destruct (Hno tag0).
  - assert (forall tg, (q, tg) ∉ L) as Hno.
    { intros tg Hin. pose proof (rep_lookup s L q (snd (entry (sizes false (shape_ s)) (q, tg))) H Hq) as Hl.
      rewrite (proj2 Hl) in E; [done|by exists tg]. }
    pose proof (rep_shape s L H) as Hw. pose proof (SliceTensorShape_spec q (shape_ s) Hq Hw) as Hspec.
    pose proof (slice_elements q (shape_ s)) as Hel.
    destruct (SliceTensorShape q (shape_ s)) as [r|e].
    2:{ destruct Hspec as [-> Hn]. exists false, []. split; [done|]. split; [intros tg Hin; by destruct (Hno tg)|].
        intros _. split; [split; [done|intros [[_ Hf] _]; by destruct Hn]|done]. }
    destruct Hspec as (Hwr & Hfit & Hz). assert (slice_of (sizes false (shape_ s)) q) as Hqs by done.
    rewrite (Hel r Hq Hw eq_refl). set (ns := sizes false (shape_ s)) in *.
    assert (Forall (fun n => 0 <= n) ns) as Hns.
    { eapply list.Forall_impl; [exact (wf_sizes_range false (shape_ s) Hw)|]. cbn. lia. }
    rewrite <- (box_count (extents q) ns (proj2 Hq) Hns).
    destruct (supply_covers q ns L Hqs (rep_slices s L H) (rep_apart s L H)) as [Hle Hcov].
    assert (length (flat_map (supply q ns) (visit (slices_ s))) =
            length (flat_map (fun p => supplied q ns (fst p)) L)) as Hlen.
    { rewrite <- supply_entries. apply Permutation_length, Permutation_flat_map. by apply visit_entries. }
    assert (Z.of_nat (length (points (box (extents q) ns))) < 2 ^ 63) as Hbound.
    { rewrite (box_count (extents q) ns (proj2 Hq) Hns), <- Hz.
      pose proof (wf_legal false r Hwr) as (_ & _ & Hc). specialize (Hc (length (sizes false r))).
      by rewrite take_ge in Hc by lia. }
    rewrite query_loop_spec; [|done|done| |lia|unfold ns in *; lia].
    2:{ apply list.Forall_forall. intros x Hx. rewrite (visit_entries visit visit_all s L H) in Hx.
        change (map ?f ?l) with (f <$> l) in Hx. apply list_elem_of_fmap in Hx as (p & -> & Hp).
        pose proof (rep_slices s L H) as Hv. rewrite list.Forall_forall in Hv. by apply (Hv p). }
    fold ns. rewrite Hlen.
    destruct (Z.eqb_spec (Z.of_nat (length (points (box (extents q) ns)))) (0 + Z.of_nat (length (flat_map (fun p => supplied q ns (fst p)) L)))) as [Heq|Hneq].
    + eexists. eexists. split; [reflexivity|]. split; [intros tg Hin; by destruct (Hno tg)|]. intros _. split; [|split; [|done]].
      * split; [intros _|done]. split; [done|]. apply Hcov. lia.
      * intros _. cbn [app]. rewrite <- (filter_entries q ns L). apply Permutation_map, filter_perm. by apply visit_entries.
    + eexists. eexists. split; [reflexivity|]. split; [intros tg Hin; by destruct (Hno tg)|]. intros _. split; [|done].
      split; [done|]. intros [_ Hc]. apply Hcov in Hc. lia.
Qed.

End Queries.

(** ** Properties *)

(** The set after registrations, and the slices that were accepted, the last one first *)
Definition registered (visit : gmap (list Z) SliceInfo -> list (list Z * SliceInfo)) (shape : Shape.t) (type : Z)
    (l : list (TensorSlice.t * bytes)) : t * list (TensorSlice.t * bytes) :=
  foldl (fun '(s, L) p => match Register visit s (fst p) (snd p) with Ok s' => (s', p :: L) | Err _ => (s, L) end)
    (TensorSliceSet shape type, []) l.

Section Properties.
Context (visit : gmap (list Z) SliceInfo -> list (list Z * SliceInfo)).
Context (visit_all : forall m, visit m ≡ₚ map_to_list m).

Lemma registered_represents (shape : Shape.t) (type : Z) (l : list (TensorSlice.t * bytes)) :
  wf false shape -> Forall (fun p => valid_slice (fst p)) l ->
  represents (fst (registered visit shape type l)) (snd (registered visit shape type l)) /\
  shape_ (fst (registered visit shape type l)) = shape.
Proof using visit_all.
  intros Hw Hl. unfold registered.
  enough (forall s L, represents s L -> shape_ s = shape ->
    let r := foldl (fun '(s, L) p => match Register visit s (fst p) (snd p) with Ok s' => (s', p :: L) | Err _ => (s, L) end) (s, L) l in
    represents (fst r) (snd r) /\ shape_ (fst r) = shape) as H by (apply H; [by apply represents_new|done]).
  induction Hl as [|[a tg] l Ha Hl IH]; intros s L Hr Hs; [done|]. cbn [foldl fst snd].
  pose proof (Register_spec visit visit_all s L a tg Hr Ha) as Hspec.
  destruct (Register visit s a tg) as [s'|e]; [|by apply IH]. destruct Hspec as (Hr' & Hs' & _). apply IH; congruence.
Qed.



(** Sets by name: every set stays a set of disjoint slices, other names keep theirs,
    and a failure changes nothing but that an absent name gets an empty set. *)
Lemma RegisterTensorSlice_spec (name : list Z) (shape : Shape.t) (type : Z) (tag : bytes) (slice : TensorSlice.t)
    (m : gmap (list Z) t) :
  wf false shape -> valid_slice slice -> (forall n tss, m !! n = Some tss -> exists L, represents tss L) ->
  let '(st, m') := RegisterTensorSlice visit name shape type tag slice m in
  (forall n tss, m' !! n = Some tss -> exists L, represents tss L) /\
  (forall n, n <> name -> m' !! n = m !! n) /\
  match st with
  | Ok _ => exists tss L, m' !! name = Some tss /\ represents tss ((slice, tag) :: L)
  | Err e => e = Fail Internal /\
             m' = (match m !! name with Some _ => m | None => <[name := TensorSliceSet shape type]> m end)
  end.
Proof using visit_all.
  intros Hw Hs Hm. unfold RegisterTensorSlice.
  assert (forall n x (M : gmap (list Z) t), (forall n tss, M !! n = Some tss -> exists L, represents tss L) ->
    (exists L, represents x L) -> forall k tss, <[n := x]> M !! k = Some tss -> exists L, represents tss L) as Hins.
  { intros n x M HM Hx k tss. destruct (decide (k = n)) as [->|Hk]; [rewrite lookup_insert_eq; by intros [= <-]|].
    rewrite lookup_insert_ne by done. apply HM. }
  destruct (m !! name) as [tss|] eqn:E.
  - destruct (Hm name tss E) as [L HL]. destruct (IsSameSize _ _); [|done]. destruct (type =? type_ tss); [|done]. cbn [negb].
    pose proof (Register_spec visit visit_all tss L slice tag HL Hs) as Hspec.
    destruct (Register visit tss slice tag) as [tss'|e]; [|by destruct Hspec as [-> _]]. destruct Hspec as (Hr & _).
    split; [apply Hins; [done|by eexists]|]. split; [intros n Hn; by apply lookup_insert_ne|].
    exists tss', L. split; [apply lookup_insert_eq|done].
  - pose proof (represents_new shape type Hw) as HL.
    pose proof (Register_spec visit visit_all (TensorSliceSet shape type) [] slice tag HL Hs) as Hspec.
    destruct (Register visit (TensorSliceSet shape type) slice tag) as [tss'|e].
    + destruct Hspec as (Hr & _). rewrite insert_insert_eq. split; [apply Hins; [done|by eexists]|].
      split; [intros n Hn; by apply lookup_insert_ne|]. exists tss', []. split; [apply lookup_insert_eq|done].
    + destruct Hspec as [-> _]. split; [apply Hins; [done|by eexists]|]. split; [intros n Hn; by apply lookup_insert_ne|done].
Qed.

End Properties.

(** ** Examples and witnesses *)

Definition bands : list (TensorSlice.t * bytes) :=
  [(TensorSlice.mk [1; 0] [2; -1], [98]); (TensorSlice.mk [0; 0] [1; -1], [97]); (TensorSlice.mk [2; 2] [2; 2], [99]);
   (TensorSlice.mk [3; 0] [1; -1], [100])].

(** The third slice overlaps the first one; the others cover the tensor. *)
Example bands_cover :
  match registered map_to_list sample_shape 1 bands with
  | (s, L) => map snd L = [[100]; [97]; [98]] /\
      match QueryMeta map_to_list s (TensorSlice.SetFullSlice 2) with
      | Ok (ok, results) => ok = true /\ length results = 3%nat
      | Err _ => False
      end
  end.
Proof. vm_compute. done. Qed.

(** A failed registration of a new name leaves an empty set behind, which refuses the
    tensor of another shape later. *)
Example failed_registration_stays :
  let '(st, m) := RegisterTensorSlice map_to_list [120] sample_shape 1 [97] (TensorSlice.mk [9; 0] [1; -1]) ∅ in
  st = Err (Fail Internal) /\ m !! [120] = Some (TensorSliceSet sample_shape 1) /\
  fst (RegisterTensorSlice map_to_list [120] (Shape.mk REP16 [20; 7] 2 140) 1 [97] (TensorSlice.mk [9; 0] [1; -1]) m) = Err (Fail Internal) /\
  fst (RegisterTensorSlice map_to_list [120] (Shape.mk REP16 [20; 7] 2 140) 1 [97] (TensorSlice.mk [9; 0] [1; -1]) ∅) = Ok tt.
Proof. vm_compute. done. Qed.

Lemma bands_valid : Forall (fun p => valid_slice (fst p)) bands.
Proof.
  unfold valid_slice, slice_wf, extents, bands. cbn.
  repeat (apply list.Forall_cons; split; [split; [reflexivity|]; repeat
    (apply list.Forall_cons; split; [first [by left | right; unfold i64_max; cbn; lia]|]); constructor|]). constructor.
Qed.

Lemma full_valid : valid_slice (TensorSlice.SetFullSlice 2).
Proof. split; [reflexivity|]. repeat (apply list.Forall_cons; split; [by left|]). constructor. Qed.


