(* ===== verification/IntervalTree.v ===== *)
(** The interval tree of XLA's heap simulator.

    [BufferIntervalTree] of [compiler/xla/service/heap_simulator.{h,cc}]: a search
    tree over the start times of buffers, each node with the latest end in its
    subtree.  A node and what its child pointers lead to is a value of [tree]; the
    parent pointers are the path to it, so a change below a node is followed by the
    change of the nodes on the path, as [Add] does on its way down and [fix_up] on its
    way up.  (The parent pointer of a root that replaces a removed one still leads
    to the removed node; [fix_up] then changes that node too, which nothing reads.)
    The theorem shows that queries return exactly the chunks of the intervals in
    the tree that overlap in time, after any additions and removals. *)
From S2P Require Import Prelude Block.

Module HeapSimulator.

(** [HeapSimulator::Chunk] *)
Record Chunk := mkChunk { offset : Z; size : Z }.

Definition chunk_end (c : Chunk) : Z := wrap_i64 (offset c + size c).

Definition OverlapsWith (c other_chunk : Chunk) : res fault bool :=
  if (size c =? 0) || (size other_chunk =? 0) then Err CheckFailed
  else Ok ((offset c <? chunk_end other_chunk) && (offset other_chunk <? chunk_end c)).

End HeapSimulator.

Module BufferIntervalTree.
Import HeapSimulator.
Local Open Scope res_scope.

(** [BufferIntervalTreeNode]; [Null] is a null pointer. *)
Inductive tree : Type :=
| Null
| Node (start end_ subtree_end : Z) (chunk : Chunk) (left right : tree).

Fixpoint Add (t : tree) (start end_ : Z) (chunk : Chunk) : tree :=
  match t with
  | Null => Node start end_ end_ chunk Null Null
  | Node s e se c l r =>
      if start <? s then Node s e (Z.max se end_) c (Add l start end_ chunk) r
      else Node s e (Z.max se end_) c l (Add r start end_ chunk)
  end.

Definition subtree_end (t : tree) (default : Z) : Z :=
  match t with Null => default | Node _ _ se _ _ _ => se end.

(** One round of [fix_up]. *)
Definition fix_up (s e : Z) (c : Chunk) (l r : tree) : tree :=
  let se := e in
  let se := match l with Null => se | Node _ _ lse _ _ _ => Z.max se lse end in
  let se := match r with Null => se | Node _ _ rse _ _ _ => Z.max se rse end in
  Node s e se c l r.

(** The left-most node of a tree that is not empty, and the tree when its right child
    has been moved up into its place. *)
Fixpoint promote (s e : Z) (c : Chunk) (l r : tree) : Z * Z * Chunk * tree :=
  match l with
  | Null => (s, e, c, r)
  | Node ls le _ lc ll lr =>
      let '(p, l') := promote ls le lc ll lr in (p, fix_up s e c l' r)
  end.

(** [Remove]: whether an interval was removed, and the tree. *)
Fixpoint Remove (t : tree) (start end_ : Z) (chunk : Chunk) : bool * tree :=
  match t with
  | Null => (false, Null)
  | Node s e se c l r =>
      if (s =? start) && (e =? end_) && (offset c =? offset chunk) then
        match r with
        | Null => (true, l)
        | Node rs re _ rc rl rr =>
            let '(ps, pe, pc, r') := promote rs re rc rl rr in (true, fix_up ps pe pc l r')
        end
      else if start <? s then
        match Remove l start end_ chunk with
        | (true, l') => (true, fix_up s e c l' r)
        | (false, _) => (false, t)
        end
      else
        match Remove r start end_ chunk with
        | (true, r') => (true, fix_up s e c l r')
        | (false, _) => (false, t)
        end
  end.

(** The loop over the stack, whose last element is the head of the list. *)
Fixpoint visit (fuel : nat) (visiting_stack : list tree) (start end_ : Z) (result : list Chunk) : res fault (list Chunk) :=
  match visiting_stack with
  | [] => Ok result
  | top :: stack =>
      match fuel with
      | O => Err OutOfFuel
      | S fuel =>
          match top with
          | Null => visit fuel stack start end_ result
          | Node s e se c l r =>
              if se <? start then visit fuel stack start end_ result
              else
                let stack := match l with Null => stack | _ => l :: stack end in
                let result := if (s <=? end_) && (start <=? e) then result ++ [c] else result in
                if end_ <? s then visit fuel stack start end_ result
                else visit fuel (match r with Null => stack | _ => r :: stack end) start end_ result
          end
      end
  end.

Fixpoint nodes (t : tree) : nat :=
  match t with Null => O | Node _ _ _ _ l r => S (nodes l + nodes r) end.

Definition ChunksOverlappingInTime (t : tree) (start end_ : Z) : res fault (list Chunk) :=
  match t with
  | Null => Ok []
  | _ => visit (nodes t) [t] start end_ []
  end.

End BufferIntervalTree.

Import HeapSimulator BufferIntervalTree.

(** ** The intervals of a tree *)

Definition interval : Type := Z * Z * Chunk.

Fixpoint intervals (t : tree) : list interval :=
  match t with Null => [] | Node s e _ c l r => intervals l ++ (s, e, c) :: intervals r end.

Definition started (x : interval) : Z := fst (fst x).
Definition ended (x : interval) : Z := snd (fst x).

(** The order of the starts, and [subtree_end] as an upper bound of the ends *)
Fixpoint search_tree (t : tree) : Prop :=
  match t with
  | Null => True
  | Node s e se c l r =>
      search_tree l /\ search_tree r /\
      Forall (fun x => started x < s) (intervals l) /\ Forall (fun x => s <= started x) (intervals r) /\
      Forall (fun x => ended x <= se) (intervals t)
  end.

Lemma perm_shift {A : Type} (l r : list A) (x y : A) : l ++ y :: x :: r ≡ₚ x :: l ++ y :: r.
Proof. rewrite (Permutation_swap x y r). symmetry. apply (Permutation_middle l (y :: r) x). Qed.

Lemma Add_intervals (t : tree) (s e : Z) (c : Chunk) : intervals (Add t s e c) ≡ₚ (s, e, c) :: intervals t.
Proof.
  induction t as [|s' e' se' c' l IHl r IHr]; [done|]. cbn [Add intervals].
  destruct (s <? s'); cbn [intervals]; [by rewrite IHl|]. rewrite IHr. apply perm_shift.
Qed.

Lemma Forall_perm {A : Type} (P : A -> Prop) (l k : list A) : l ≡ₚ k -> Forall P l <-> Forall P k.
Proof. intros H. by rewrite H. Qed.

Lemma Add_search (t : tree) (s e : Z) (c : Chunk) : search_tree t -> search_tree (Add t s e c).
Proof.
  induction t as [|s' e' se' c' l IHl r IHr].
  - intros _. cbn. repeat constructor. cbn. lia.
  - intros (Hl & Hr & Hls & Hrs & He). cbn [Add]. pose proof (Add_intervals l s e c) as Pl. pose proof (Add_intervals r s e c) as Pr.
    assert (Forall (fun x => ended x <= Z.max se' e) (intervals l ++ (s', e', c') :: intervals r)) as He'.
    { eapply list.Forall_impl; [exact He|]. cbn. lia. }
    apply list.Forall_app in He' as [He1 He2]. apply list.Forall_cons in He2 as [He2 He3].
    destruct (Z.ltb_spec s s'); cbn [search_tree intervals].
    + split; [by apply IHl|]. split; [done|]. rewrite Pl. split; [by constructor|]. split; [done|].
      cbn. constructor; [cbn; lia|]. apply list.Forall_app. split; [done|by constructor].
    + split; [done|]. split; [by apply IHr|]. split; [done|]. rewrite Pr. split; [by constructor|].
      apply list.Forall_app. split; [done|]. constructor; [done|]. constructor; [cbn; lia|done].
Qed.

Lemma ends_bound (t : tree) : search_tree t -> Forall (fun x => ended x <= subtree_end t 0) (intervals t).
Proof. destruct t as [|s e se c l r]; [constructor|]. by intros (_ & _ & _ & _ & H). Qed.

Lemma fix_up_intervals (s e : Z) (c : Chunk) (l r : tree) : intervals (fix_up s e c l r) = intervals l ++ (s, e, c) :: intervals r.
Proof. done. Qed.

Lemma fix_up_search (s e : Z) (c : Chunk) (l r : tree) :
  search_tree l -> search_tree r -> Forall (fun x => started x < s) (intervals l) -> Forall (fun x => s <= started x) (intervals r) ->
  search_tree (fix_up s e c l r).
Proof.
  intros Hl Hr Hls Hrs. unfold fix_up. cbn [search_tree]. split; [done|]. split; [done|]. split; [done|]. split; [done|].
  pose proof (ends_bound l Hl) as El. pose proof (ends_bound r Hr) as Er. cbn [intervals].
  apply list.Forall_app. split; [|constructor].
  - destruct l; [constructor|]. eapply list.Forall_impl; [exact El|]. intros x Hx. destruct r; cbn in *; lia.
  - cbn. destruct l, r; cbn; lia.
  - destruct r; [constructor|]. eapply list.Forall_impl; [exact Er|]. intros x Hx. destruct l; cbn in *; lia.
Qed.

Lemma promote_spec (l : tree) (s e se : Z) (c : Chunk) (r : tree) :
  search_tree (Node s e se c l r) ->
  let '(ps, pe, pc, t') := promote s e c l r in
  (ps, pe, pc) :: intervals t' = intervals (Node s e se c l r) /\ search_tree t' /\
  Forall (fun x => ps <= started x) (intervals t').
Proof.
  revert s e se c r. induction l as [|ls le lse lc ll IHl lr _]; intros s e se c r (Hl & Hr & Hls & Hrs & He); cbn [promote].
  - by split.
  - specialize (IHl ls le lse lc lr Hl). destruct (promote ls le lc ll lr) as [[[ps pe] pc] l'].
    destruct IHl as (Hi & Hs & Hp). rewrite fix_up_intervals.
    change (intervals (Node s e se c (Node ls le lse lc ll lr) r)) with
      (intervals (Node ls le lse lc ll lr) ++ (s, e, c) :: intervals r). rewrite <- Hi in *. cbn [app].
    apply list.Forall_cons in Hls as [Hps Hls]. cbn in Hps. split; [done|]. split; [by apply fix_up_search|].
    apply list.Forall_app. split; [done|]. constructor; [cbn; lia|]. eapply list.Forall_impl; [exact Hrs|]. cbn. lia.
Qed.

(** ** Removal *)

(** The interval and the place of its chunk *)
Definition matches (start end_ : Z) (chunk : Chunk) (x : interval) : Prop :=
  started x = start /\ ended x = end_ /\ offset (snd x) = offset chunk.

Lemma Remove_spec (t : tree) (start end_ : Z) (chunk : Chunk) :
  search_tree t ->
  match Remove t start end_ chunk with
  | (true, t') => search_tree t' /\ exists x, matches start end_ chunk x /\ intervals t ≡ₚ x :: intervals t'
  | (false, t') => t' = t /\ Forall (fun x => ~ matches start end_ chunk x) (intervals t)
  end.
Proof.
  induction t as [|s e se c l IHl r IHr]; [by split|]. intros Ht. pose proof Ht as (Hl & Hr & Hls & Hrs & He).
  specialize (IHl Hl). specialize (IHr Hr). cbn [Remove].
  destruct ((s =? start) && (e =? end_) && (offset c =? offset chunk)) eqn:Em.
  - apply andb_true_iff in Em as [Em Ec]. apply andb_true_iff in Em as [Es Ee]. zbool.
    assert (matches start end_ chunk (s, e, c)) as Hm by by split_and!.
    destruct r as [|rs re rse rc rl rr].
    + split; [done|]. exists (s, e, c). split; [done|]. cbn [intervals]. symmetry. apply Permutation_cons_append.
    + pose proof (promote_spec rl rs re rse rc rr Hr) as Hp. destruct (promote rs re rc rl rr) as [[[ps pe] pc] r'].
      destruct Hp as (Hi & Hs & Hp). rewrite <- Hi in Hrs. apply list.Forall_cons in Hrs as [Hps Hrs]. cbn in Hps.
      split; [apply fix_up_search; try done; eapply list.Forall_impl; [exact Hls|]; cbn; lia|].
      exists (s, e, c). split; [done|]. rewrite fix_up_intervals.
      change (intervals (Node s e se c l ?r)) with (intervals l ++ (s, e, c) :: intervals r). rewrite <- Hi.
      symmetry. apply Permutation_middle.
  - assert (~ matches start end_ chunk (s, e, c)) as Hm.
    { intros (H1 & H2 & H3). cbn in H1, H2, H3. subst. by rewrite H3, !Z.eqb_refl in Em. }
    destruct (Z.ltb_spec start s).
    + destruct (Remove l start end_ chunk) as [[] l'].
      * destruct IHl as [Hs (x & Hx & Hp)]. split.
        { apply fix_up_search; try done. rewrite Hp in Hls. by apply list.Forall_cons in Hls as [_ ?]. }
        exists x. split; [done|]. cbn [intervals]. rewrite fix_up_intervals, Hp. done.
      * destruct IHl as [-> Hn]. split; [done|]. cbn [intervals]. apply list.Forall_app. split; [done|].
        constructor; [done|]. eapply list.Forall_impl; [exact Hrs|]. intros x Hx (H1 & _). cbn beta in Hx. unfold started in *. lia.
    + destruct (Remove r start end_ chunk) as [[] r'].
      * destruct IHr as [Hs (x & Hx & Hp)]. split.
        { apply fix_up_search; try done. rewrite Hp in Hrs. by apply list.Forall_cons in Hrs as [_ ?]. }
        exists x. split; [done|]. cbn [intervals]. rewrite fix_up_intervals, Hp. apply perm_shift.
      * destruct IHr as [-> Hn]. split; [done|]. cbn [intervals]. apply list.Forall_app. split; [|by constructor].
        eapply list.Forall_impl; [exact Hls|]. intros x Hx (H1 & _). cbn beta in Hx. unfold started in *. lia.
Qed.

(** ** Queries *)

Definition overlaps (start end_ : Z) (x : interval) : bool := (started x <=? end_) && (start <=? ended x).

(** The chunks of the intervals that overlap *)
Definition overlapping (start end_ : Z) (l : list interval) : list Chunk := map snd (List.filter (overlaps start end_) l).

Lemma overlapping_app (start end_ : Z) (l k : list interval) :
  overlapping start end_ (l ++ k) = overlapping start end_ l ++ overlapping start end_ k.
Proof. unfold overlapping. by rewrite List.filter_app, map_app. Qed.

Lemma overlapping_none (start end_ : Z) (l : list interval) :
  Forall (fun x => overlaps start end_ x = false) l -> overlapping start end_ l = [].
Proof. unfold overlapping. induction 1 as [|x l Hx Hl IH]; [done|]. cbn. by rewrite Hx. Qed.

Definition stack_nodes (stack : list tree) : nat := sum_list_with nodes stack.
Definition stack_intervals (stack : list tree) : list interval := flat_map intervals stack.

Lemma visit_spec (fuel : nat) (stack : list tree) (start end_ : Z) (result : list Chunk) :
  Forall search_tree stack -> Forall (fun t => t <> Null) stack -> (stack_nodes stack <= fuel)%nat ->
  exists r, visit fuel stack start end_ result = Ok r /\ r ≡ₚ result ++ overlapping start end_ (stack_intervals stack).
Proof.
  revert stack result. induction fuel as [|fuel IH]; intros stack result Hs Hn Hf.
  - destruct stack as [|[|] stack]; cbn in *.
    + exists result. unfold overlapping. cbn. by rewrite app_nil_r.
    + by apply list.Forall_cons in Hn as [? _].
    + unfold stack_nodes in Hf. cbn in Hf. lia.
  - destruct stack as [|top stack]; cbn [visit].
    { exists result. unfold overlapping. cbn. by rewrite app_nil_r. }
    apply list.Forall_cons in Hs as [Ht Hs]. apply list.Forall_cons in Hn as [Htn Hn].
    destruct top as [|s e se c l r]; [done|]. pose proof Ht as (Hl & Hr & Hls & Hrs & He).
    unfold stack_nodes in Hf. cbn [sum_list_with nodes] in Hf.
    change (stack_intervals (Node s e se c l r :: stack)) with ((intervals l ++ (s, e, c) :: intervals r) ++ stack_intervals stack).
    rewrite overlapping_app. destruct (Z.ltb_spec se start) as [Hse|Hse].
    + rewrite overlapping_none; [apply IH; try done; unfold stack_nodes; lia|].
      eapply list.Forall_impl; [exact He|]. intros x Hx. unfold overlaps. apply andb_false_iff. right. apply Z.leb_gt. cbn beta in Hx. lia.
    + rewrite overlapping_app. change ((s, e, c) :: intervals r) with ([(s, e, c)] ++ intervals r). rewrite overlapping_app.
      set (stack' := match l with Null => stack | _ => l :: stack end).
      assert (Forall search_tree stack' /\ Forall (fun t => t <> Null) stack' /\
        (stack_nodes stack' = nodes l + stack_nodes stack)%nat /\ stack_intervals stack' = intervals l ++ stack_intervals stack)
        as (H1 & H2 & H3 & H4) by (unfold stack'; destruct l; split_and!; try done; by constructor).
      set (result' := if (s <=? end_) && (start <=? e) then result ++ [c] else result).
      assert (result' = result ++ overlapping start end_ [(s, e, c)]) as Hres.
      { unfold result', overlapping, overlaps, started, ended. cbn. destruct (_ && _); cbn; by rewrite ?app_nil_r. }
      destruct (Z.ltb_spec end_ s) as [Hes|Hes].
      * destruct (IH stack' result' H1 H2) as (q & -> & Hq); [unfold stack_nodes in *; lia|]. exists q. split; [done|].
        rewrite Hq, H4, Hres, overlapping_app. rewrite (overlapping_none start end_ (intervals r)).
        { rewrite app_nil_r, <- !app_assoc. apply Permutation_app_head.
          rewrite !app_assoc. apply Permutation_app_tail. apply Permutation_app_comm. }
        eapply list.Forall_impl; [exact Hrs|]. intros x Hx. unfold overlaps. apply andb_false_iff. left. apply Z.leb_gt. cbn beta in Hx. lia.
      * set (stack2 := match r with Null => stack' | _ => r :: stack' end).
        assert (Forall search_tree stack2 /\ Forall (fun t => t <> Null) stack2 /\
          (stack_nodes stack2 = nodes r + stack_nodes stack')%nat /\ stack_intervals stack2 = intervals r ++ stack_intervals stack')
          as (G1 & G2 & G3 & G4) by (unfold stack2; destruct r; split_and!; try done; by constructor).
        destruct (IH stack2 result' G1 G2) as (q & -> & Hq); [unfold stack_nodes in *; lia|]. exists q. split; [done|].
        rewrite Hq, G4, H4, Hres, !overlapping_app, <- !app_assoc. apply Permutation_app_head.
        rewrite (Permutation_app_swap_app (overlapping start end_ (intervals r))). apply Permutation_app_swap_app.
Qed.

Lemma Chunks_spec (t : tree) (start end_ : Z) :
  search_tree t ->
  exists r, ChunksOverlappingInTime t start end_ = Ok r /\ r ≡ₚ overlapping start end_ (intervals t).
Proof.
  intros Ht. unfold ChunksOverlappingInTime. destruct t as [|s e se c l r]; [by exists []|].
  destruct (visit_spec (nodes (Node s e se c l r)) [Node s e se c l r] start end_ []) as (q & Hv & Hq).
  - by constructor.
  - by constructor.
  - unfold stack_nodes. cbn. lia.
  - exists q. split; [done|]. rewrite Hq. unfold stack_intervals. cbn [flat_map app]. by rewrite app_nil_r.
Qed.

(** ** Sequences of operations *)

Inductive operation : Type :=
| OAdd (start end_ : Z) (chunk : Chunk)
| ORemove (start end_ : Z) (chunk : Chunk).

Definition perform (t : tree) (o : operation) : tree :=
  match o with
  | OAdd s e c => Add t s e c
  | ORemove s e c => snd (Remove t s e c)
  end.

Definition perform_all (os : list operation) : tree := foldl perform Null os.

Lemma perform_search (os : list operation) : search_tree (perform_all os).
Proof.
  unfold perform_all. enough (forall t, search_tree t -> search_tree (foldl perform t os)) as H by by apply H.
  induction os as [|o os IH]; intros t Ht; [done|]. cbn. apply IH. destruct o as [s e c|s e c]; cbn.
  - by apply Add_search.
  - pose proof (Remove_spec t s e c Ht) as H. destruct (Remove t s e c) as [[] t']; cbn; [by destruct H|]. by destruct H as [-> _].
Qed.

(** C18: the interval tree is a bag of intervals.  After any additions and removals,
    [Add] adds the interval; [Remove] takes out one interval with the given times and
    offset and returns true, or returns false when there is none; and
    [ChunksOverlappingInTime] ends and returns exactly the chunks of the intervals that
    overlap the given times, each as often as it was added. *)
Theorem interval_tree_exact (os : list operation) (s e : Z) (c : Chunk) :
  let t := perform_all os in
  intervals (Add t s e c) ≡ₚ (s, e, c) :: intervals t /\
  match Remove t s e c with
  | (true, t') => exists x, matches s e c x /\ intervals t ≡ₚ x :: intervals t'
  | (false, t') => t' = t /\ Forall (fun x => ~ matches s e c x) (intervals t)
  end /\
  exists r, ChunksOverlappingInTime t s e = Ok r /\ r ≡ₚ overlapping s e (intervals t).
Proof.
  intros t. pose proof (perform_search os) as Ht. fold t in Ht. split; [apply Add_intervals|]. split; [|by apply Chunks_spec].
  pose proof (Remove_spec t s e c Ht) as H. destruct (Remove t s e c) as [[] t']; [by destruct H|done].
Qed.
