(* ===== verification/BestFitHeap.v ===== *)
(** The heap simulator of XLA.

    [compiler/xla/service/heap_simulator.{h,cc}]: the best-fit heap that assigns
    offsets to buffers whose live ranges are known ([GlobalDecreasingSizeBestFitHeap]),
    the variant with several heaps of limited size, the statistics heap and the
    choice of the best of several heaps.  A buffer is its id, by which buffers are
    compared; [flat_hash_map]s and [flat_hash_set]s are finite maps and sets whose order
    of iteration is a parameter; the [btree_map] of free chunks is the list of its
    entries from the last offset to the first; its iterators are positions.  A failed
    [CHECK], a failed lookup with [at] and a dereferenced end are faults. *)
From stdpp Require Import gmap.
From S2P Require Import Prelude Block IntervalTree.
Import HeapSimulator.

Module BestFitHeap.
Import BufferIntervalTree.
Local Open Scope res_scope.

(** ** Rounding ([tsl/lib/math/math_util.h], [compiler/xla/util.h]) *)

Definition CeilOfRatio (numerator denominator : Z) : Z :=
  let rounded_toward_zero := Z.quot numerator denominator in
  let intermediate_product := wrap_i64 (rounded_toward_zero * denominator) in
  let needs_adjustment :=
    (0 <=? rounded_toward_zero) &&
    (((0 <? denominator) && (intermediate_product <? numerator)) ||
     ((denominator <? 0) && (numerator <? intermediate_product))) in
  wrap_i64 (rounded_toward_zero + (if needs_adjustment then 1 else 0)).

Definition RoundUpTo (value divisor : Z) : Z := wrap_i64 (CeilOfRatio value divisor * divisor).

(** ** Data *)

Record HeapResult := mkHeapResult { chunk_map : gmap Z Chunk; heap_size : Z }.

Definition UpdatedHeapSize (r : HeapResult) (chunk : Chunk) : Z := Z.max (heap_size r) (chunk_end chunk).

Record Result := mkResult { heap_results : list HeapResult; total_size : Z; fragmentation_size : Z }.

Record BufferInterval := mkInterval {
  buffer : Z;
  bsize : Z;
  start : Z;
  end_ : Z;
  colocations : list Z;
  need_allocation : bool
}.

Inductive Type_ : Type := kSpatial | kTemporal.

Record t := mk {
  alignment_ : Z;
  type_ : Type_;
  buffer_intervals_ : gmap Z BufferInterval;
  result_ : HeapResult;
  interval_tree_ : tree;
  current_time_ : Z
}.

Definition GlobalDecreasingSizeBestFitHeap (alignment : Z) (type : Type_) : t :=
  mk alignment type ∅ (mkHeapResult ∅ 0) Null 0.

Definition with_intervals (h : t) (m : gmap Z BufferInterval) (time : Z) : t :=
  mk (alignment_ h) (type_ h) m (result_ h) (interval_tree_ h) time.
Definition with_result (h : t) (r : HeapResult) (tr : tree) : t :=
  mk (alignment_ h) (type_ h) (buffer_intervals_ h) r tr (current_time_ h).

(** [emplace] of a map, which keeps an element that is there *)
Definition emplace {A : Type} (k : Z) (x : A) (m : gmap Z A) : gmap Z A :=
  match m !! k with Some _ => m | None => <[k := x]> m end.

Definition AddToChunkMap (r : HeapResult) (buffer : Z) (chunk : Chunk) : HeapResult :=
  mkHeapResult (emplace buffer chunk (chunk_map r)) (heap_size r).

(** ** Collecting the live ranges *)

Definition Alloc (h : t) (buffer size : Z) : t :=
  if size =? 0 then with_result h (AddToChunkMap (result_ h) buffer (mkChunk 0 0)) (interval_tree_ h)
  else
    with_intervals h (emplace buffer (mkInterval buffer size (current_time_ h) (-1) [] true) (buffer_intervals_ h))
      (wrap_i64 (current_time_ h + 1)).

Definition add_colocation (i : BufferInterval) (buffer : Z) : BufferInterval :=
  mkInterval (BestFitHeap.buffer i) (bsize i) (start i) (end_ i) (colocations i ++ [buffer]) (need_allocation i).

(** [ShareWith]; [operator[]] makes an element that is not there. *)
Definition ShareWith (h : t) (buffer share_with size : Z) : t :=
  if size =? 0 then with_result h (AddToChunkMap (result_ h) buffer (mkChunk 0 0)) (interval_tree_ h)
  else
    let i := default (mkInterval 0 0 0 0 [] false) (buffer_intervals_ h !! share_with) in
    let m := <[share_with := add_colocation i buffer]> (buffer_intervals_ h) in
    with_intervals h (emplace buffer (mkInterval buffer size (current_time_ h) (-1) [] false) m)
      (wrap_i64 (current_time_ h + 1)).

Definition set_end (i : BufferInterval) (e : Z) : BufferInterval :=
  mkInterval (buffer i) (bsize i) (start i) e (colocations i) (need_allocation i).

Definition Free (h : t) (buffer size : Z) : res fault t :=
  if size =? 0 then Ok h
  else
    match buffer_intervals_ h !! buffer with
    | None => Err CheckFailed
    | Some i =>
        if negb (end_ i =? -1) then Ok h
        else Ok (with_intervals h (<[buffer := set_end i (current_time_ h)]> (buffer_intervals_ h))
                   (wrap_i64 (current_time_ h + 1)))
    end.

(** ** Colocations *)

(** The loop over the colocations of an item of the worklist *)
Fixpoint push_colocations (m : gmap Z BufferInterval) (cs : list Z) (result : gset Z) (worklist : list BufferInterval) :
    res fault (gset Z * list BufferInterval) :=
  match cs with
  | [] => Ok (result, worklist)
  | c :: cs' =>
      if bool_decide (c ∈ result) then push_colocations m cs' result worklist
      else
        match m !! c with
        | None => Err CheckFailed
        | Some i => push_colocations m cs' ({[c]} ∪ result) (i :: worklist)
        end
  end.

Fixpoint colocation_loop (fuel : nat) (m : gmap Z BufferInterval) (worklist : list BufferInterval) (result : gset Z) :
    res fault (gset Z) :=
  match worklist with
  | [] => Ok result
  | item :: worklist' =>
      match fuel with
      | O => Err OutOfFuel
      | S fuel =>
          let! (result, worklist) := push_colocations m (colocations item) result worklist' in
          colocation_loop fuel m worklist result
      end
  end.

Definition GetTransitiveColocations (h : t) (interval : BufferInterval) : res fault (gset Z) :=
  colocation_loop (S (length (map_to_list (buffer_intervals_ h)))) (buffer_intervals_ h) [interval] ∅.

Section Order.
Context (visit_map : gmap Z BufferInterval -> list (Z * BufferInterval)).
Context (visit_set : gset Z -> list Z).

(** [buffer_intervals_.at(c)] of each colocation, in the order of the set *)
Fixpoint at_all (m : gmap Z BufferInterval) (cs : list Z) : res fault (list BufferInterval) :=
  match cs with
  | [] => Ok []
  | c :: cs' =>
      match m !! c with
      | None => Err CheckFailed
      | Some i => let! l := at_all m cs' in Ok (i :: l)
      end
  end.

Definition colocated (h : t) (interval : BufferInterval) : res fault (list BufferInterval) :=
  let! s := GetTransitiveColocations h interval in at_all (buffer_intervals_ h) (visit_set s).

(** ** The order of placement *)

(** The key of [GetTemporalBufferIntervalCompare] or [GetSpatialBufferIntervalCompare] *)
Definition sort_key (h : t) (x : BufferInterval) : res fault (Z * Z * Z) :=
  match type_ h with
  | kTemporal =>
      let! l := colocated h x in
      let x_end := foldl (fun e i => Z.max e (end_ i)) (end_ x) l in
      Ok (wrap_i64 (start x - x_end), wrap_i64 (- bsize x), buffer x)
  | kSpatial => Ok (wrap_i64 (- bsize x), wrap_i64 (start x - end_ x), buffer x)
  end.

Definition key_less (a b : Z * Z * Z) : bool :=
  let '(a1, a2, a3) := a in
  let '(b1, b2, b3) := b in
  (a1 <? b1) || ((a1 =? b1) && ((a2 <? b2) || ((a2 =? b2) && (a3 <? b3)))).

Fixpoint with_keys (h : t) (l : list (Z * BufferInterval)) : res fault (list (Z * Z * Z * BufferInterval)) :=
  match l with
  | [] => Ok []
  | (_, x) :: l' => let! k := sort_key h x in let! r := with_keys h l' in Ok ((k, x) :: r)
  end.

(** [absl::c_sort] *)
Fixpoint sort_insert (x : Z * Z * Z * BufferInterval) (l : list (Z * Z * Z * BufferInterval)) :
    list (Z * Z * Z * BufferInterval) :=
  match l with
  | [] => [x]
  | y :: l' => if key_less (fst y) (fst x) then y :: sort_insert x l' else x :: l
  end.

Definition GetSortedBufferIntervals (h : t) : res fault (list BufferInterval) :=
  let! l := with_keys h (visit_map (buffer_intervals_ h)) in
  Ok (map snd (fold_right sort_insert [] l)).

(** ** Free chunks *)

(** [free_chunks.lower_bound(k)]: the position of the largest offset that is not above [k] *)
Fixpoint lower_bound (free_chunks : list (Z * Z)) (k : Z) : nat :=
  match free_chunks with
  | [] => O
  | (a, _) :: l => if k <? a then S (lower_bound l k) else O
  end.

(** [free_chunks.insert({a, b})], with whether it was inserted *)
Fixpoint insert_chunk (a b : Z) (l : list (Z * Z)) : bool * list (Z * Z) :=
  match l with
  | [] => (true, [(a, b)])
  | (a', b') :: l' =>
      if a <? a' then let '(ok, r) := insert_chunk a b l' in (ok, (a', b') :: r)
      else if a' =? a then (false, l)
      else (true, (a, b) :: l)
  end.

(** The body of [subtract_used_chunks] for one chunk; [size] is that of the buffer. *)
Definition subtract_chunk (alignment size max_colocation_size : Z) (free_chunks : list (Z * Z)) (used_chunk : Chunk) :
    res fault (list (Z * Z)) :=
  let it_end := lower_bound free_chunks (chunk_end used_chunk) in
  match free_chunks !! it_end with
  | None => Ok free_chunks
  | Some (_, free_chunk_end) =>
      let it_start := lower_bound free_chunks (offset used_chunk) in
      let '(free_chunks, it_start) :=
        match free_chunks !! it_start with
        | None => (free_chunks, it_start)
        | Some (a, b) =>
            if size <=? wrap_i64 (offset used_chunk - a)
            then (<[it_start := (a, Z.min b (offset used_chunk))]> free_chunks, it_start)
            else (free_chunks, S it_start)
        end in
      check! (it_end <=? it_start)%nat else OutOfBounds in
      let free_chunks := take it_end free_chunks ++ drop it_start free_chunks in
      let chunk_end_aligned := RoundUpTo (chunk_end used_chunk) alignment in
      if max_colocation_size <=? wrap_i64 (free_chunk_end - chunk_end_aligned) then
        let '(inserted, free_chunks) := insert_chunk chunk_end_aligned free_chunk_end free_chunks in
        check! inserted else CheckFailed in Ok free_chunks
      else Ok free_chunks
  end.

Fixpoint subtract_used_chunks (alignment size max_colocation_size : Z) (used_chunks : list Chunk) (free_chunks : list (Z * Z)) :
    res fault (list (Z * Z)) :=
  match used_chunks with
  | [] => Ok free_chunks
  | u :: l =>
      let! free_chunks := subtract_chunk alignment size max_colocation_size free_chunks u in
      subtract_used_chunks alignment size max_colocation_size l free_chunks
  end.

(** The chunks in use during the live ranges of the colocations *)
Fixpoint subtract_colocations (tr : tree) (alignment size max_colocation_size : Z) (l : list BufferInterval)
    (free_chunks : list (Z * Z)) : res fault (list (Z * Z)) :=
  match l with
  | [] => Ok free_chunks
  | i :: l' =>
      let! used := ChunksOverlappingInTime tr (start i) (end_ i) in
      let! free_chunks := subtract_used_chunks alignment size max_colocation_size used free_chunks in
      subtract_colocations tr alignment size max_colocation_size l' free_chunks
  end.

(** [absl::c_min_element] with the comparison of sizes, then offsets *)
Definition smaller_chunk (a b : Z * Z) : bool :=
  let sa := wrap_i64 (snd a - fst a) in
  let sb := wrap_i64 (snd b - fst b) in
  (sa <? sb) || ((sa =? sb) && (fst a <? fst b)).

Fixpoint min_chunk (best : Z * Z) (l : list (Z * Z)) : Z * Z :=
  match l with
  | [] => best
  | x :: l' => min_chunk (if smaller_chunk x best then x else best) l'
  end.

Definition FindChunkCandidate (h : t) (x : BufferInterval) (preferred_offset : Z) : res fault Chunk :=
  let! cs := colocated h x in
  let max_colocation_size := foldl (fun s i => Z.max s (bsize i)) (bsize x) cs in
  let! used := ChunksOverlappingInTime (interval_tree_ h) (start x) (end_ x) in
  let! free_chunks := subtract_used_chunks (alignment_ h) (bsize x) max_colocation_size used [(0, i64_max)] in
  let! free_chunks := subtract_colocations (interval_tree_ h) (alignment_ h) (bsize x) max_colocation_size cs free_chunks in
  let chunk := mkChunk preferred_offset max_colocation_size in
  let it := if preferred_offset <? 0 then length free_chunks else lower_bound free_chunks preferred_offset in
  match free_chunks !! it with
  | Some (_, b) =>
      if b <? chunk_end chunk then
        match free_chunks with
        | [] => Err OutOfBounds
        | f :: l => Ok (mkChunk (fst (min_chunk f l)) max_colocation_size)
        end
      else Ok chunk
  | None =>
      match free_chunks with
      | [] => Err OutOfBounds
      | f :: l => Ok (mkChunk (fst (min_chunk f l)) max_colocation_size)
      end
  end.

(** ** Placement *)

(** The loop of [CommitChunk] over the colocations *)
Fixpoint commit_colocations (l : list BufferInterval) (cs : list Z) (offset : Z) (r : HeapResult) (tr : tree) :
    HeapResult * tree :=
  match l, cs with
  | i :: l', c :: cs' =>
      let colocation_chunk := mkChunk offset (bsize i) in
      commit_colocations l' cs' offset (AddToChunkMap r c colocation_chunk) (Add tr (start i) (end_ i) colocation_chunk)
  | _, _ => (r, tr)
  end.

Definition CommitChunk (h : t) (x : BufferInterval) (chunk : Chunk) : res fault t :=
  let r := mkHeapResult (chunk_map (result_ h)) (UpdatedHeapSize (result_ h) chunk) in
  let chunk := mkChunk (offset chunk) (bsize x) in
  let tr := Add (interval_tree_ h) (start x) (end_ x) chunk in
  let! s := GetTransitiveColocations h x in
  let! l := at_all (buffer_intervals_ h) (visit_set s) in
  let '(r, tr) := commit_colocations l (visit_set s) (offset chunk) r tr in
  Ok (with_result h (AddToChunkMap r (buffer x) chunk) tr).

Fixpoint place_all (h : t) (l : list BufferInterval) : res fault t :=
  match l with
  | [] => Ok h
  | x :: l' =>
      if negb (need_allocation x) then place_all h l'
      else
        let! chunk := FindChunkCandidate h x (-1) in
        let! h := CommitChunk h x chunk in
        place_all h l'
  end.

(** [Finish]: the result and the heap *)
Definition Finish (h : t) : res fault (Result * t) :=
  let! sorted := GetSortedBufferIntervals h in
  let! h := place_all h sorted in
  Ok (mkResult [result_ h] (heap_size (result_ h)) 0, h).

(** ** Heaps of limited size *)

(** The loop that places as many buffers as possible into a heap: the heap and the
    buffers that are left *)
Fixpoint fill_heap (limit : Z) (h : t) (l : list BufferInterval) : res fault (t * list BufferInterval) :=
  match l with
  | [] => Ok (h, [])
  | x :: l' =>
      if negb (need_allocation x) then fill_heap limit h l'
      else
        let! chunk := FindChunkCandidate h x (-1) in
        if (wrap_u64 (chunk_end chunk) <=? limit) || (heap_size (result_ h) =? 0) then
          let! h := CommitChunk h x chunk in fill_heap limit h l'
        else
          let! (h, rest) := fill_heap limit h l' in Ok (h, x :: rest)
  end.

Fixpoint fill_heaps (fuel : nat) (limit : Z) (h : t) (l : list BufferInterval) (multi : Result) : res fault Result :=
  match fuel with
  | O => Err OutOfFuel
  | S fuel =>
      let! (h, rest) := fill_heap limit h l in
      let multi := mkResult (heap_results multi ++ [result_ h]) (wrap_i64 (total_size multi + heap_size (result_ h)))
                     (fragmentation_size multi) in
      let h := with_result h (mkHeapResult ∅ 0) Null in
      match rest with [] => Ok multi | _ => fill_heaps fuel limit h rest multi end
  end.

(** [ConstrainedGlobalDecreasingSizeBestFitHeap::Finish] *)
Definition ConstrainedFinish (limit : Z) (h : t) : res fault Result :=
  let! sorted := GetSortedBufferIntervals h in
  fill_heaps (S (length sorted)) limit h sorted (mkResult [] 0 0).

End Order.

(** ** Choosing a result *)

Fixpoint choose (results : list Result) (i : nat) (min_size : Z) (best : option nat) : option nat :=
  match results with
  | [] => best
  | r :: l => if total_size r <? min_size then choose l (S i) (total_size r) (Some i) else choose l (S i) min_size best
  end.

(** [ChooseBestHeapAlgorithm::Finish] on the results of the algorithms *)
Definition ChooseBest (results : list Result) : res fault Result :=
  match choose results O i64_max None with
  | Some i => match results !! i with Some r => Ok r | None => Err OutOfBounds end
  | None => Err OutOfBounds
  end.

End BestFitHeap.

(** ** Statistics without fragmentation *)
Module NoFragmentationStatsHeap.

Record t := mk { current_heap_size_ : Z; max_heap_size_ : Z }.

Definition new : t := mk 0 0.

Definition Alloc (h : t) (size : Z) : t :=
  let c := wrap_i64 (current_heap_size_ h + size) in
  mk c (if max_heap_size_ h <? c then c else max_heap_size_ h).

(** [HeapAlgorithm::ShareWith] *)
Definition ShareWith (h : t) (size : Z) : t := Alloc h size.

Definition Free (h : t) (size : Z) : t := mk (wrap_i64 (current_heap_size_ h - size)) (max_heap_size_ h).

Definition Finish (h : t) : Z := max_heap_size_ h.

End NoFragmentationStatsHeap.

(** ** The simulator: a heap and the statistics, run together *)
Module Simulator.
Local Open Scope res_scope.

Record t := mk {
  algorithm_ : BestFitHeap.t;
  no_fragmentation_stats_ : NoFragmentationStatsHeap.t;
  allocated_buffers_ : gset Z;
  freed_buffers_ : gset Z
}.

Definition new (alignment : Z) (type : BestFitHeap.Type_) : t :=
  mk (BestFitHeap.GlobalDecreasingSizeBestFitHeap alignment type) NoFragmentationStatsHeap.new ∅ ∅.

Section Operations.
Context (size_fn_ : Z -> Z).

Definition Alloc (h : t) (buffer : Z) : res fault t :=
  check! negb (bool_decide (buffer ∈ allocated_buffers_ h)) else CheckFailed in
  check! negb (bool_decide (buffer ∈ freed_buffers_ h)) else CheckFailed in
  Ok (mk (BestFitHeap.Alloc (algorithm_ h) buffer (size_fn_ buffer))
        (NoFragmentationStatsHeap.Alloc (no_fragmentation_stats_ h) (size_fn_ buffer))
        ({[buffer]} ∪ allocated_buffers_ h) (freed_buffers_ h)).

Definition Free (h : t) (buffer : Z) : res fault t :=
  let! a := BestFitHeap.Free (algorithm_ h) buffer (size_fn_ buffer) in
  Ok (mk a (NoFragmentationStatsHeap.Free (no_fragmentation_stats_ h) (size_fn_ buffer))
        (allocated_buffers_ h) (freed_buffers_ h)).

Definition ShareBuffer (h : t) (buffer shared : Z) : t :=
  mk (BestFitHeap.ShareWith (algorithm_ h) buffer shared (size_fn_ shared))
    (NoFragmentationStatsHeap.ShareWith (no_fragmentation_stats_ h) (size_fn_ shared))
    (allocated_buffers_ h) (freed_buffers_ h).

(** [Finish], without a set of buffers to assign *)
Definition Finish (visit_map : gmap Z BestFitHeap.BufferInterval -> list (Z * BestFitHeap.BufferInterval))
    (visit_set : gset Z -> list Z) (h : t) : res fault BestFitHeap.Result :=
  let! (r, _) := BestFitHeap.Finish visit_map visit_set (algorithm_ h) in
  Ok (BestFitHeap.mkResult (BestFitHeap.heap_results r) (BestFitHeap.total_size r)
        (wrap_i64 (BestFitHeap.total_size r - NoFragmentationStatsHeap.Finish (no_fragmentation_stats_ h)))).

End Operations.
End Simulator.

Import BestFitHeap.

(** ** Rounding *)

Lemma RoundUpTo_spec (v d : Z) :
  0 <= v -> 0 < d -> v + d <= i64_max -> v <= RoundUpTo v d < v + d /\ (d | RoundUpTo v d).
Proof.
  intros Hv Hd Hmax. unfold i64_max in Hmax. unfold RoundUpTo, CeilOfRatio. rewrite Z.quot_div_nonneg by lia.
  pose proof (Z.div_mod v d ltac:(lia)) as Hdm. pose proof (Z.mod_pos_bound v d Hd) as Hm.
  assert (0 <= v / d) as Hq by (apply Z.div_pos; lia). assert (v / d <= v) as Hqv by (apply Z.div_le_upper_bound; nia).
  rewrite (wrap_i64_id (v / d * d)) by (unfold in_i64; nia).
  rewrite (proj2 (Z.leb_le 0 _)), (proj2 (Z.ltb_lt 0 d)), (proj2 (Z.ltb_ge d 0)) by lia. cbn [andb]. rewrite orb_false_r.
  destruct (Z.ltb_spec (v / d * d) v).
  - rewrite (wrap_i64_id (v / d + 1)) by (unfold in_i64; lia). rewrite wrap_i64_id by (unfold in_i64; nia).
    split; [nia|]. by exists (v / d + 1).
  - rewrite Z.add_0_r, (wrap_i64_id (v / d)) by (unfold in_i64; lia). rewrite wrap_i64_id by (unfold in_i64; nia).
    split; [nia|]. by exists (v / d).
Qed.

(** ** Free chunks *)

(** Gaps from the last one to the first one: disjoint, of at least [s] bytes, aligned *)
Record free_ok (A s : Z) (fc : list (Z * Z)) : Prop := {
  fo_sorted : StronglySorted (fun x y => snd y <= fst x) fc;
  fo_each : Forall (fun f => 0 <= fst f /\ fst f + s <= snd f /\ snd f <= i64_max /\ (A | fst f)) fc
}.

(** The end of a chunk, not wrapped *)
Definition uend (u : Chunk) : Z := offset u + size u.

(** A range does not meet a chunk. *)
Definition clear_of (o m : Z) (u : Chunk) : Prop := o + m <= offset u \/ uend u <= o.

(** Gaps of at least [s] bytes, clear of the chunks, that hold every place where [m] bytes can be
    placed clear of them; when both sizes are the same, the gaps are exactly these places. *)
Record gaps (A s m : Z) (U : list Chunk) (fc : list (Z * Z)) : Prop := {
  ga_ok : free_ok A s fc;
  ga_sound : Forall (fun f => Forall (fun u => snd f <= offset u \/ uend u <= fst f) U) fc;
  ga_start : Forall (fun f => fst f = 0 \/ exists u, u ∈ U /\ fst f = RoundUpTo (uend u) A) fc;
  ga_complete : forall o, (A | o) -> 0 <= o -> o + m <= i64_max -> Forall (clear_of o m) U ->
    exists f, f ∈ fc /\ fst f <= o /\ o + m <= snd f
}.

Lemma lower_bound_two (fc : list (Z * Z)) (k1 k2 : Z) :
  k1 <= k2 -> StronglySorted (fun x y => fst y < fst x) fc ->
  exists P M R, fc = P ++ M ++ R /\ lower_bound fc k2 = length P /\ lower_bound fc k1 = (length P + length M)%nat /\
    Forall (fun f => k2 < fst f) P /\ Forall (fun f => k1 < fst f <= k2) M /\ Forall (fun f => fst f <= k1) R.
Proof.
  intros Hk Hs. induction Hs as [|[a b] fc Hs IH Hf]; [by exists [], [], []|]. cbn [lower_bound].
  destruct IH as (P & M & R & -> & H2 & H1 & HP & HM & HR).
  destruct (Z.ltb_spec k2 a) as [Ha|Ha].
  - rewrite (proj2 (Z.ltb_lt k1 a)) by lia. exists ((a, b) :: P), M, R. rewrite H2, H1. split; [done|].
    split; [done|]. split; [done|]. split; [by constructor|done].
  - destruct P as [|p P].
    2:{ exfalso. apply list.Forall_cons in HP as [Hp _]. cbn in Hf. apply list.Forall_cons in Hf as [Hf _]. cbn in Hf. lia. }
    destruct (Z.ltb_spec k1 a) as [Ha1|Ha1].
    + exists [], ((a, b) :: M), R. cbn in *. rewrite H1. split; [done|]. split; [done|]. split; [done|].
      split; [constructor|]. split; [|done]. by constructor.
    + destruct M as [|x M].
      2:{ exfalso. apply list.Forall_cons in HM as [Hx _]. cbn in Hf. apply list.Forall_cons in Hf as [Hf _]. cbn in Hf. lia. }
      exists [], [], ((a, b) :: R). cbn in *. split; [done|]. split; [done|]. split; [done|].
      split; [constructor|]. split; [constructor|]. by constructor.
Qed.

Lemma insert_chunk_between (a b : Z) (P R : list (Z * Z)) :
  Forall (fun f => a < fst f) P -> Forall (fun f => fst f < a) R -> insert_chunk a b (P ++ R) = (true, P ++ (a, b) :: R).
Proof.
  intros HP HR. induction HP as [|[a' b'] P Hp HP IH]; cbn [app insert_chunk].
  - destruct HR as [|[a' b'] R Hr HR]; [done|]. cbn in Hr. cbn [insert_chunk].
    rewrite (proj2 (Z.ltb_ge a a')), (proj2 (Z.eqb_neq a' a)) by lia. done.
  - cbn in Hp. rewrite (proj2 (Z.ltb_lt a a')) by lia. by rewrite IH.
Qed.

(** What is left of the gaps that start at or before a chunk *)
Definition left_part (m o : Z) (R : list (Z * Z)) : list (Z * Z) :=
  match R with
  | [] => []
  | (a, b) :: R' => if m <=? o - a then (a, Z.min b o) :: R' else R'
  end.

(** The gap after a chunk, cut from the gap that ends at [be] *)
Definition right_part (m al be : Z) : list (Z * Z) := if m <=? be - al then [(al, be)] else [].

Lemma strong_keys (A m : Z) (fc : list (Z * Z)) : 0 < m -> free_ok A m fc -> StronglySorted (fun x y => fst y < fst x) fc.
Proof.
  intros Hm [Hs He]. induction Hs as [|x fc Hs IH Hx]; [constructor|]. apply list.Forall_cons in He as [_ He].
  constructor; [by apply IH|]. rewrite list.Forall_forall in *. intros y Hy. specialize (Hx y Hy). specialize (He y Hy). lia.
Qed.

Lemma left_part_keys (m o : Z) (R : list (Z * Z)) : Forall (fun f => fst f <= o) R -> Forall (fun f => fst f <= o) (left_part m o R).
Proof.
  intros HR. destruct HR as [|[a b] R Ha HR]; [constructor|]. cbn. destruct (m <=? o - a); [by constructor|done].
Qed.

Lemma subtract_chunk_eq (A s m : Z) (fc P M R : list (Z * Z)) (u : Chunk) :
  0 < A -> 0 < s <= m -> free_ok A s fc -> 0 <= offset u -> 0 < size u -> uend u + A <= i64_max ->
  fc = P ++ M ++ R -> lower_bound fc (uend u) = length P -> lower_bound fc (offset u) = (length P + length M)%nat ->
  Forall (fun f => uend u < fst f) P -> Forall (fun f => fst f <= offset u) R ->
  subtract_chunk A s m fc u =
  Ok (match M ++ R with
      | [] => fc
      | (_, be) :: _ => P ++ right_part m (RoundUpTo (uend u) A) be ++ left_part s (offset u) R
      end).
Proof.
  intros HA Hm Hok Ho Hsz Hmax Hfc H2 H1 HP HR. unfold subtract_chunk.
  assert (chunk_end u = uend u) as Hce by (apply wrap_i64_id; unfold in_i64, uend, i64_max in *; lia).
  rewrite Hce, H2. assert (fc !! length P = head (M ++ R)) as ->.
  { rewrite Hfc, lookup_app_r, Nat.sub_diag by lia. by destruct (M ++ R). }
  destruct (RoundUpTo_spec (uend u) A ltac:(unfold uend; lia) HA Hmax) as [Hal _]. set (al := RoundUpTo (uend u) A) in *.
  destruct (M ++ R) as [|[ae be] Q] eqn:EQ; cbn [head]; [done|].
  assert (forall R', Forall (fun f => fst f <= offset u) R' ->
    (if m <=? wrap_i64 (be - al) then
       let '(inserted, free_chunks) := insert_chunk al be (P ++ R') in
       if inserted then Ok free_chunks else Err CheckFailed
     else Ok (P ++ R')) = Ok (P ++ right_part m al be ++ R')) as Hins.
  { intros R' HR'. pose proof (fo_each A s fc Hok) as He. rewrite Hfc, list.Forall_app in He. destruct He as [_ He].
    apply list.Forall_cons in He as [He _]. cbn in He. unfold i64_max, uend in *.
    rewrite wrap_i64_id by (unfold in_i64; lia). unfold right_part. destruct (Z.leb_spec m (be - al)); [|done].
    rewrite insert_chunk_between; [done| |].
    - pose proof (fo_sorted A s fc Hok) as Hs. rewrite Hfc in Hs. clear -Hs HP Hal H Hm.
      induction P as [|p P IH]; [constructor|]. cbn in Hs. inversion Hs as [|? ? Hs' Hp]; subst.
      apply list.Forall_cons in HP as [_ HP]. constructor; [|by apply IH]. apply list.Forall_app in Hp as [_ Hp].
      apply list.Forall_cons in Hp as [Hp _]. cbn in Hp. lia.
    - eapply list.Forall_impl; [exact HR'|]. intros f Hf. cbn beta in Hf. lia. }
  rewrite H1. assert (fc !! (length P + length M)%nat = head R) as ->.
  { rewrite Hfc, lookup_app_r by lia. replace (length P + length M - length P)%nat with (length M) by lia. rewrite <- EQ.
    rewrite lookup_app_r, Nat.sub_diag by lia. by destruct R. }
  assert (fc = P ++ M ++ R) as Hfc' by by rewrite EQ.
  destruct R as [|[a b] R]; cbn [head].
  - rewrite (proj2 (Nat.leb_le _ _)) by lia.
    assert (take (length P) fc ++ drop (length P + length M) fc = P ++ []) as ->.
    { rewrite Hfc', take_app_length, drop_ge by (rewrite !length_app; cbn; lia). done. }
    by apply Hins.
  - apply list.Forall_cons in HR as [Ha HR]. cbn in Ha.
    assert (in_i64 (offset u - a)) as Hr.
    { pose proof (fo_each A s fc Hok) as He. rewrite Hfc', !list.Forall_app in He. destruct He as (_ & _ & He).
      apply list.Forall_cons in He as [He _]. cbn in He. unfold in_i64, i64_max, uend in *. lia. }
    rewrite (wrap_i64_id _ Hr). cbn [left_part]. destruct (s <=? offset u - a).
    + rewrite (proj2 (Nat.leb_le _ _)) by lia.
      assert (take (length P) (<[(length P + length M)%nat := (a, Z.min b (offset u))]> fc) ++
        drop (length P + length M) (<[(length P + length M)%nat := (a, Z.min b (offset u))]> fc) =
        P ++ (a, Z.min b (offset u)) :: R) as ->.
      { rewrite Hfc', insert_app_r, insert_app_r_alt, Nat.sub_diag by lia. cbn.
        rewrite take_app_length. f_equal. rewrite app_assoc, drop_app_length'; [done|]. rewrite length_app. lia. }
      apply Hins. by constructor.
    + rewrite (proj2 (Nat.leb_le _ _)) by lia.
      assert (take (length P) fc ++ drop (S (length P + length M)) fc = P ++ R) as ->.
      { rewrite Hfc', take_app_length. f_equal. rewrite app_assoc. change ((a, b) :: R) with ([(a, b)] ++ R). rewrite app_assoc.
        apply drop_app_length'. rewrite !length_app. cbn. lia. }
      by apply Hins.
Qed.

(** Gaps inside of gaps, in the same order *)
Lemma left_part_ok (A m o : Z) (R : list (Z * Z)) :
  0 < m -> free_ok A m R -> Forall (fun f => fst f <= o) R ->
  free_ok A m (left_part m o R) /\ Forall (fun f => snd f <= o) (left_part m o R) /\
  (forall f, f ∈ left_part m o R -> exists g, g ∈ R /\ fst g = fst f /\ snd f <= snd g).
Proof.
  intros Hm [Hs He] HR. destruct R as [|[a b] R]; [by repeat split; [constructor..|]; intros f Hf; set_solver|].
  inversion Hs as [|? ? Hs' Hx]; subst. apply list.Forall_cons in He as [Ha He]. apply list.Forall_cons in HR as [Hao HR].
  cbn in Ha, Hao. cbn [left_part].
  assert (Forall (fun f => snd f <= o) R) as Hro by (eapply list.Forall_impl; [exact Hx|]; cbn; lia).
  destruct (Z.leb_spec m (o - a)).
  - destruct Ha as (Ha1 & Ha2 & Ha3 & Ha4). split; [split; constructor; try done; cbn; split_and!; (lia || done)|].
    split; [constructor; [cbn; lia|done]|].
    intros f Hf. apply elem_of_cons in Hf as [->|Hf]; [exists (a, b); cbn; split; [set_solver|lia]|].
    exists f. split; [set_solver|lia].
  - split; [by split|]. split; [done|]. intros f Hf. exists f. split; [set_solver|lia].
Qed.

Lemma sorted_app (P Q : list (Z * Z)) :
  StronglySorted (fun x y => snd y <= fst x) (P ++ Q) <->
  StronglySorted (fun x y => snd y <= fst x) P /\ StronglySorted (fun x y => snd y <= fst x) Q /\
  (forall x y, x ∈ P -> y ∈ Q -> snd y <= fst x).
Proof.
  induction P as [|p P IH]; cbn [app].
  - split; [intros H; split; [constructor|]; split; [done|]; intros x y Hx; set_solver|by intros (_ & H & _)].
  - split.
    + intros H. inversion H as [|? ? H' Hp]; subst. apply IH in H' as (H1 & H2 & H3). rewrite list.Forall_forall in Hp.
      split; [constructor; [done|]; apply list.Forall_forall; intros y Hy; apply Hp; set_solver|].
      split; [done|]. intros x y Hx Hy. apply elem_of_cons in Hx as [->|Hx]; [apply Hp; set_solver|by apply H3].
    + intros (H1 & H2 & H3). inversion H1 as [|? ? H1' Hp]; subst. constructor.
      * apply IH. split; [done|]. split; [done|]. intros x y Hx Hy. apply H3; set_solver.
      * apply list.Forall_forall. intros y Hy. rewrite list.Forall_forall in Hp. apply elem_of_app in Hy as [Hy|Hy]; [by apply Hp|].
        apply H3; set_solver.
Qed.

Lemma subtract_gaps (A s m : Z) (U : list Chunk) (fc : list (Z * Z)) (u : Chunk) :
  0 < A -> 0 < s <= m -> gaps A s m U fc -> 0 <= offset u -> 0 < size u -> uend u + A <= i64_max ->
  exists fc', subtract_chunk A s m fc u = Ok fc' /\ gaps A s m (u :: U) fc'.
Proof.
  intros HA Hm [Hok Hsound Hstart Hcomp] Ho Hsz Hmax.
  assert (offset u <= uend u) as Hou by (unfold uend; lia).
  destruct (lower_bound_two fc (offset u) (uend u) Hou (strong_keys A s fc ltac:(lia) Hok)) as (P & M & R & Hfc & H2 & H1 & HP & HM & HR).
  pose proof (subtract_chunk_eq A s m fc P M R u HA Hm Hok Ho Hsz Hmax Hfc H2 H1 HP HR) as Heq.
  eexists. split; [exact Heq|]. clear Heq H1 H2.
  destruct (RoundUpTo_spec (uend u) A ltac:(lia) HA Hmax) as [Hal Hdiv]. set (al := RoundUpTo (uend u) A) in *.
  destruct Hok as [Hs He]. rewrite Hfc in Hs, He. rewrite sorted_app in Hs. destruct Hs as (HsP & HsQ & HsPQ).
  rewrite sorted_app in HsQ. destruct HsQ as (HsM & HsR & HsMR).
  rewrite !list.Forall_app in He. destruct He as (HeP & HeM & HeR).
  destruct (left_part_ok A s (offset u) R ltac:(lia) (Build_free_ok _ _ _ HsR HeR) HR) as ([HsL HeL] & HL & Hsub).
  rewrite list.Forall_forall in HP, HM, HR, HL, HeP, HeM, HeR.
  destruct (M ++ R) as [|[ae be] Q] eqn:EQ.
  { (* every gap is after the chunk *)
    apply app_eq_nil in EQ as [-> ->]. rewrite app_nil_r in Hfc. subst fc. split.
    - split; [done|]. by apply list.Forall_forall.
    - rewrite list.Forall_forall in *. intros f Hf. constructor; [right; specialize (HP f Hf); lia|by apply Hsound].
    - eapply list.Forall_impl; [exact Hstart|]. intros f [Hf|(v & Hv & Hf)]; [by left|right]. exists v. by set_solver.
    - intros o H1 H2 H3 H4. apply list.Forall_cons in H4 as [_ H4]. by apply Hcomp. }
  rewrite <- EQ in Hfc, HsPQ. assert ((ae, be) ∈ M ++ R) as Hhead by (rewrite EQ; set_solver).
  assert (forall f, f ∈ Q -> snd f <= ae) as Hlater.
  { intros f Hf. assert (StronglySorted (fun x y => snd y <= fst x) (M ++ R)) as Hq by (by apply sorted_app).
    rewrite EQ in Hq. inversion Hq as [|? ? _ Hq']; subst. rewrite list.Forall_forall in Hq'. by apply (Hq' f). }
  assert (ae <= uend u /\ 0 <= ae /\ be <= i64_max) as (Hae & Hae0 & Hbe).
  { apply elem_of_app in Hhead as [Hh|Hh]; [specialize (HM _ Hh); specialize (HeM _ Hh)|specialize (HR _ Hh); specialize (HeR _ Hh)];
      cbn in *; lia. }
  assert (forall f, f ∈ right_part m al be -> f = (al, be) /\ m <= be - al) as Hright.
  { intros f Hf. unfold right_part in Hf. destruct (Z.leb_spec m (be - al)); set_solver. }
  assert (forall p, p ∈ P -> be <= fst p) as HbeP.
  { intros p Hp. apply (HsPQ p (ae, be) Hp). rewrite EQ. set_solver. }
  split.
  - split.
    + apply sorted_app. split; [done|]. split.
      * apply sorted_app. split; [unfold right_part; destruct (m <=? _); repeat constructor|]. split; [done|].
        intros x y Hx Hy. destruct (Hright x Hx) as [-> _]. specialize (HL y Hy). cbn. lia.
      * intros x y Hx Hy. apply elem_of_app in Hy as [Hy|Hy].
        -- destruct (Hright y Hy) as [-> _]. by apply HbeP.
        -- specialize (HL y Hy). specialize (HP x Hx). cbn in *. lia.
    + apply list.Forall_app. split; [by apply list.Forall_forall|]. apply list.Forall_app. split; [|done].
      apply list.Forall_forall. intros f Hf. destruct (Hright f Hf) as [-> Hf']. cbn. split; [lia|]. split; [lia|]. split; [lia|done].
  - rewrite Hfc, !list.Forall_app in Hsound. destruct Hsound as (SP & SM & SR). rewrite list.Forall_forall in SP, SM, SR.
    apply list.Forall_forall. intros f Hf. apply elem_of_app in Hf as [Hf|Hf]; [|apply elem_of_app in Hf as [Hf|Hf]].
    + constructor; [right; specialize (HP f Hf); lia|by apply SP].
    + destruct (Hright f Hf) as [-> _]. constructor; [right; cbn; lia|].
      assert (Forall (fun v => be <= offset v \/ uend v <= ae) U) as Hv.
      { apply elem_of_app in Hhead as [Hh|Hh]; [apply (SM _ Hh)|apply (SR _ Hh)]. }
      eapply list.Forall_impl; [exact Hv|]. cbn. lia.
    + constructor; [left; by apply HL|]. destruct (Hsub f Hf) as (g & Hg & Hg1 & Hg2).
      eapply list.Forall_impl; [exact (SR g Hg)|]. cbn. lia.
  - rewrite Hfc, !list.Forall_app in Hstart. destruct Hstart as (SP & SM & SR). rewrite list.Forall_forall in SP, SM, SR.
    apply list.Forall_forall. intros f Hf. apply elem_of_app in Hf as [Hf|Hf]; [|apply elem_of_app in Hf as [Hf|Hf]].
    + destruct (SP f Hf) as [?|(v & ? & ?)]; [by left|right; exists v; set_solver].
    + destruct (Hright f Hf) as [-> _]. right. exists u. set_solver.
    + destruct (Hsub f Hf) as (g & Hg & Hg1 & _). rewrite <- Hg1.
      destruct (SR g Hg) as [?|(v & ? & ?)]; [by left|right; exists v; set_solver].
  - intros o Hdo Ho0 Hom Hcl. apply list.Forall_cons in Hcl as [Hu Hcl].
    destruct (Hcomp o Hdo Ho0 Hom Hcl) as (f & Hf & Hf1 & Hf2). rewrite Hfc in Hf. unfold clear_of in Hu.
    assert (f = (ae, be) -> uend u <= o -> exists f, f ∈ P ++ right_part m al be ++ left_part s (offset u) R /\ fst f <= o /\ o + m <= snd f)
      as Hcut.
    { intros -> Huo. cbn in Hf1, Hf2. assert (al <= o) as Halo.
      { destruct Hdiv as [x Hx], Hdo as [y Hy]. assert (x < y + 1) by (apply (Z.mul_lt_mono_pos_r A); lia).
        rewrite Hx, Hy. apply Z.mul_le_mono_nonneg_r; lia. }
      exists (al, be). split; [|cbn; lia]. unfold right_part. rewrite (proj2 (Z.leb_le _ _)) by lia. set_solver. }
    apply elem_of_app in Hf as [Hf|Hf]; [exists f; set_solver|]. rewrite EQ in Hf. apply elem_of_cons in Hf as [Hf|Hf].
    + destruct Hu as [Hu|Hu]; [|by apply Hcut]. subst f. cbn in Hf1, Hf2.
      (* before the chunk: the gap starts at or before it *)
      destruct M as [|x M]; [|exfalso; cbn in EQ; injection EQ as -> _; specialize (HM (ae, be) ltac:(set_solver)); cbn in HM; lia].
      cbn in EQ. subst R. exists (ae, Z.min be (offset u)). cbn [left_part fst snd].
      rewrite (proj2 (Z.leb_le _ _)) by lia. split; [set_solver|lia].
    + specialize (Hlater f Hf). destruct Hu as [Hu|Hu]; [|lia].
      assert (f ∈ M ++ R) as Hmr by (rewrite EQ; set_solver). apply elem_of_app in Hmr as [Hm'|Hr].
      * specialize (HM f Hm'). lia.
      * destruct R as [|[a b] R']; [set_solver|]. cbn [left_part].
        apply elem_of_cons in Hr as [->|Hr].
        -- cbn in Hf1, Hf2. rewrite (proj2 (Z.leb_le _ _)) by lia. exists (a, Z.min b (offset u)). cbn. split; [set_solver|lia].
        -- exists f. split; [|done]. destruct (s <=? _); set_solver.
Qed.
