(* ===== verification/BestFitTheorems.v ===== *)
(** The best-fit heap of XLA: what it computes and places.

    The gaps that [FindChunkCandidate] computes are exact (every place where the buffer
    fits is in one, and nothing in them is in use), and it takes the smallest;
    [GetTransitiveColocations] ends and returns the buffers below a buffer; placing the
    groups of buffers one by one keeps [placing]: chunks aligned, inside of the heap, at
    one offset in a group, and disjoint for groups that live at the same time.  [forest]
    is what a run of the simulator guarantees of the live ranges ([HeapTheorems.v]). *)
From stdpp Require Import gmap.
From S2P Require Import Prelude Block IntervalTree BestFitHeap.
Import HeapSimulator BufferIntervalTree BestFitHeap.BestFitHeap.

(** ** The gaps that a query of the tree leaves *)

Definition chunk_ok (A : Z) (u : Chunk) : Prop := 0 <= offset u /\ 0 < size u /\ uend u + A <= i64_max.

Lemma gaps_perm (A s m : Z) (U V : list Chunk) (fc : list (Z * Z)) : U ≡ₚ V -> gaps A s m U fc -> gaps A s m V fc.
Proof.
  intros HP [H1 H2 H3 H4]. split; [done| | |].
  - eapply list.Forall_impl; [exact H2|]. intros f Hf. cbn beta in *. by rewrite <- HP.
  - eapply list.Forall_impl; [exact H3|]. intros f Hf. cbn beta in *. by setoid_rewrite <- HP.
  - intros o Ho1 Ho2 Ho3 Ho4. apply H4; try done. by rewrite HP.
Qed.

Lemma gaps_initial (A s m : Z) : 0 < s <= m -> m <= i64_max -> gaps A s m [] [(0, i64_max)].
Proof.
  intros Hm Hmax. split.
  - split; [repeat constructor|]. constructor; [|done]. cbn. split_and!; try lia. apply Z.divide_0_r.
  - by repeat constructor.
  - constructor; [by left|done].
  - intros o Hd Ho Hom _. exists (0, i64_max). cbn. split; [set_solver|lia].
Qed.

Lemma subtract_used_gaps (A s m : Z) (us U : list Chunk) (fc : list (Z * Z)) :
  0 < A -> 0 < s <= m -> gaps A s m U fc -> Forall (chunk_ok A) us ->
  exists fc', subtract_used_chunks A s m us fc = Ok fc' /\ gaps A s m (us ++ U) fc'.
Proof.
  intros HA Hm Hg Hu. revert U fc Hg. induction Hu as [|u us (H1 & H2 & H3) Hu IH]; intros U fc Hg; [by exists fc|].
  cbn [subtract_used_chunks]. destruct (subtract_gaps A s m U fc u HA Hm Hg H1 H2 H3) as (fc1 & -> & Hg1). cbn [res_bind].
  destruct (IH (u :: U) fc1 Hg1) as (fc2 & -> & Hg2). exists fc2. split; [done|].
  eapply gaps_perm; [|exact Hg2]. cbn. symmetry. apply Permutation_middle.
Qed.

(** The chunks in use while one of the buffers lives *)
Definition in_use (tr : tree) (l : list BufferInterval) : list Chunk :=
  flat_map (fun i => overlapping (start i) (end_ i) (intervals tr)) l.

Lemma overlapping_ok (P : Chunk -> Prop) (s e : Z) (l : list interval) :
  Forall (fun x => P (snd x)) l -> Forall P (overlapping s e l).
Proof.
  unfold overlapping. induction 1 as [|x l Hx Hl IH]; [done|]. cbn. destruct (overlaps s e x); [by constructor|done].
Qed.

Lemma subtract_colocations_gaps (tr : tree) (A s m : Z) (l : list BufferInterval) (U : list Chunk) (fc : list (Z * Z)) :
  0 < A -> 0 < s <= m -> search_tree tr -> Forall (fun x => chunk_ok A (snd x)) (intervals tr) -> gaps A s m U fc ->
  exists fc', subtract_colocations tr A s m l fc = Ok fc' /\ gaps A s m (in_use tr l ++ U) fc'.
Proof.
  intros HA Hm Ht Hok. revert U fc. induction l as [|i l IH]; intros U fc Hg; [by exists fc|].
  cbn [subtract_colocations]. destruct (Chunks_spec tr (start i) (end_ i) Ht) as (us & -> & Hus). cbn [res_bind].
  destruct (subtract_used_gaps A s m us U fc HA Hm Hg) as (fc1 & -> & Hg1).
  { rewrite Hus. by apply overlapping_ok. }
  cbn [res_bind]. destruct (IH _ fc1 Hg1) as (fc2 & -> & Hg2). exists fc2. split; [done|].
  eapply gaps_perm; [|exact Hg2]. cbn [in_use flat_map]. rewrite Hus, app_assoc. fold (in_use tr l).
  apply Permutation_app_tail, Permutation_app_comm.
Qed.

(** ** The smallest gap *)

Definition no_larger (f g : Z * Z) : Prop := snd f - fst f < snd g - fst g \/ (snd f - fst f = snd g - fst g /\ fst f <= fst g).

Lemma no_larger_trans (f g k : Z * Z) : no_larger f g -> no_larger g k -> no_larger f k.
Proof. unfold no_larger. lia. Qed.

Lemma min_chunk_spec (best : Z * Z) (l : list (Z * Z)) :
  Forall (fun f => in_i64 (snd f - fst f)) (best :: l) ->
  min_chunk best l ∈ best :: l /\ Forall (no_larger (min_chunk best l)) (best :: l).
Proof.
  revert best. induction l as [|x l IH]; intros best H.
  - cbn. split; [set_solver|]. constructor; [unfold no_larger; lia|done].
  - cbn [min_chunk]. apply list.Forall_cons in H as [Hb H]. pose proof H as [Hx Hl]%list.Forall_cons.
    assert (if smaller_chunk x best then no_larger x best else no_larger best x) as Hcmp.
    { unfold smaller_chunk, no_larger. cbn beta in Hx, Hb. rewrite (wrap_i64_id _ Hx), (wrap_i64_id _ Hb).
      destruct (Z.ltb_spec (snd x - fst x) (snd best - fst best)); cbn [orb]; cbv iota; [lia|].
      destruct (Z.eqb_spec (snd x - fst x) (snd best - fst best)); cbn [andb]; cbv iota; [|lia].
      destruct (Z.ltb_spec (fst x) (fst best)); cbv iota; lia. }
    destruct (smaller_chunk x best).
    + destruct (IH x) as [H1 H2]; [by constructor|]. pose proof H2 as [H3 H4]%list.Forall_cons. split; [set_solver|].
      constructor; [by eapply no_larger_trans|done].
    + destruct (IH best) as [H1 H2]; [by constructor|]. pose proof H2 as [H3 H4]%list.Forall_cons. split; [set_solver|].
      constructor; [done|]. constructor; [by eapply no_larger_trans|done].
Qed.

(** The gap that a lookup by offset finds is the one that holds a range from there. *)
Lemma lower_bound_gap (A s m p : Z) (fc : list (Z * Z)) :
  0 < s -> 0 < m -> free_ok A s fc ->
  match fc !! lower_bound fc p with
  | Some (a, b) => a <= p /\ (a, b) ∈ fc /\ ((exists f, f ∈ fc /\ fst f <= p /\ p + m <= snd f) -> p + m <= b)
  | None => ~ exists f, f ∈ fc /\ fst f <= p /\ p + m <= snd f
  end.
Proof.
  intros Hs0 Hm Hok. destruct (lower_bound_two fc p p ltac:(lia) (strong_keys A s fc Hs0 Hok)) as (P & M & R & Hfc & H2 & H1 & HP & HM & HR).
  assert (M = []) as -> by (destruct HM; [done|lia]). cbn in Hfc, H1.
  rewrite list.Forall_forall in HP. rewrite H2. assert (fc !! length P = head R) as ->.
  { rewrite Hfc, lookup_app_r, Nat.sub_diag by lia. by destruct R. }
  destruct R as [|[a b] R]; cbn [head].
  - rewrite app_nil_r in Hfc. subst P. intros (f & Hf & Hf1 & _). specialize (HP f Hf). lia.
  - apply list.Forall_cons in HR as [Ha _]. cbn in Ha. split; [done|]. split; [set_solver|].
    intros (f & Hf & Hf1 & Hf2). rewrite Hfc in Hf. apply elem_of_app in Hf as [Hf|Hf]; [specialize (HP f Hf); lia|].
    apply elem_of_cons in Hf as [->|Hf]; [done|]. pose proof (fo_sorted A s fc Hok) as Hs. rewrite Hfc in Hs.
    apply sorted_app in Hs as (_ & Hs & _). inversion Hs as [|? ? _ Hx]; subst. rewrite list.Forall_forall in Hx.
    specialize (Hx f Hf). cbn in Hx. lia.
Qed.

(** The smallest gap is where the code looks when the preferred offset is not free. *)
Definition best_gap (fc : list (Z * Z)) (o : Z) : Prop := exists f, f ∈ fc /\ o = fst f /\ Forall (no_larger f) fc.

Lemma foldl_max_ge (l : list BufferInterval) (m : Z) :
  m <= foldl (fun s i => Z.max s (bsize i)) m l.
Proof. revert m. induction l as [|i l IH]; intros m; [done|]. cbn. specialize (IH (Z.max m (bsize i))). lia. Qed.

Lemma foldl_max_small (l : list BufferInterval) (m : Z) :
  Forall (fun i => bsize i <= m) l -> foldl (fun s i => Z.max s (bsize i)) m l = m.
Proof. induction 1 as [|i l Hi Hl IH]; [done|]. cbn. by rewrite Z.max_l. Qed.

(** The largest size of a buffer and its colocations *)
Definition max_size (x : BufferInterval) (cs : list BufferInterval) : Z := foldl (fun s i => Z.max s (bsize i)) (bsize x) cs.

Lemma min_chunk_best (A s m : Z) (fc : list (Z * Z)) :
  0 < s -> free_ok A s fc -> fc <> [] ->
  exists o, match fc with [] => Err OutOfBounds | f :: l => Ok (mkChunk (fst (min_chunk f l)) m) end = Ok (mkChunk o m) /\
    best_gap fc o.
Proof.
  intros Hm [_ He] Hne. destruct fc as [|f l]; [done|]. eexists. split; [reflexivity|]. exists (min_chunk f l).
  destruct (min_chunk_spec f l) as [H1 H2]; [|by split_and!].
  eapply list.Forall_impl; [exact He|]. intros g Hg. cbn beta in Hg. unfold in_i64, i64_max in *. lia.
Qed.

(** The heap has room for [m] more bytes: its chunks end at [H] at most, and [m] bytes at the next aligned offset
    are within int64. *)
Record room (A m H : Z) (tr : tree) : Prop := {
  ro_align : 0 < A;
  ro_size : 0 < m;
  ro_search : search_tree tr;
  ro_chunks : Forall (fun x => 0 <= offset (snd x) /\ 0 < size (snd x) /\ uend (snd x) <= H) (intervals tr);
  ro_bound : 0 <= H /\ H + A + m <= i64_max
}.

Lemma in_use_forall (P : Chunk -> Prop) (tr : tree) (l : list BufferInterval) :
  Forall (fun x => P (snd x)) (intervals tr) -> Forall P (in_use tr l).
Proof.
  intros HP. induction l as [|i l IH]; [constructor|]. cbn. apply list.Forall_app. split; [by apply overlapping_ok|done].
Qed.

Lemma room_nonempty (A s m H : Z) (tr : tree) (l : list BufferInterval) (fc : list (Z * Z)) :
  room A m H tr -> gaps A s m (in_use tr l) fc -> fc <> [].
Proof.
  intros [HA Hm Ht Hc [H0 Hb]] Hg ->.
  destruct (RoundUpTo_spec H A H0 HA ltac:(lia)) as [Hal Hdiv].
  destruct (ga_complete _ _ _ _ _ Hg (RoundUpTo H A) Hdiv) as (f & Hf & _); [lia|lia| |set_solver].
  apply in_use_forall. eapply list.Forall_impl; [exact Hc|]. intros y (_ & _ & Hy). right. lia.
Qed.

Lemma find_candidate (visit_set : gset Z -> list Z) (h : t) (x : BufferInterval) (p H : Z) (cs : list BufferInterval) :
  let A := alignment_ h in
  let m := max_size x cs in
  0 < bsize x -> room A m H (interval_tree_ h) -> p + m <= i64_max -> colocated visit_set h x = Ok cs ->
  exists fc o, FindChunkCandidate visit_set h x p = Ok (mkChunk o m) /\
    gaps A (bsize x) m (in_use (interval_tree_ h) (x :: cs)) fc /\
    if bool_decide (0 <= p /\ Exists (fun f => fst f <= p /\ p + m <= snd f) fc) then o = p else best_gap fc o.
Proof.
  intros A m Hs Hroom Hp Hcs. pose proof Hroom as [HA Hm Ht Hc [H0 Hb]]. unfold FindChunkCandidate. rewrite Hcs. cbn [res_bind].
  fold (max_size x cs). fold m A. assert (0 < bsize x <= m) as Hsm by (split; [done|apply foldl_max_ge]).
  assert (Forall (fun y => chunk_ok A (snd y)) (intervals (interval_tree_ h))) as Hok.
  { eapply list.Forall_impl; [exact Hc|]. intros y Hy. cbn beta in Hy. unfold chunk_ok. lia. }
  pose proof (subtract_colocations_gaps (interval_tree_ h) A (bsize x) m [x] [] [(0, i64_max)] HA Hsm Ht Hok
    (gaps_initial A (bsize x) m Hsm ltac:(lia))) as (fc1 & He1 & Hg1).
  cbn [subtract_colocations] in He1. destruct (ChunksOverlappingInTime _ _ _) as [us|] in He1 |- *; [|done]. cbn [res_bind] in *.
  destruct (subtract_used_chunks A (bsize x) m us _) as [fc1'|] in He1 |- *; [|done]. cbn [res_bind] in *. injection He1 as ->.
  destruct (subtract_colocations_gaps (interval_tree_ h) A (bsize x) m cs _ fc1 HA Hsm Ht Hok Hg1) as (fc & -> & Hg). cbn [res_bind].
  assert (gaps A (bsize x) m (in_use (interval_tree_ h) (x :: cs)) fc) as Hg'.
  { eapply gaps_perm; [|exact Hg]. cbn [in_use flat_map]. rewrite !app_nil_r. apply Permutation_app_comm. }
  exists fc. pose proof (ga_ok _ _ _ _ _ Hg') as Hfo.
  destruct (min_chunk_best A (bsize x) m fc Hs Hfo (room_nonempty _ _ _ _ _ _ _ Hroom Hg')) as (o & Ho & Hbest).
  pose proof (lower_bound_gap A (bsize x) m p fc Hs Hm Hfo) as Hlb.
  case_bool_decide as Hd.
  - destruct Hd as [Hp0 Hex]. apply list.Exists_exists in Hex. exists p. split_and!; [|done|done].
    rewrite (proj2 (Z.ltb_ge p 0)) by lia. destruct (fc !! lower_bound fc p) as [[a b]|]; [|done].
    destruct Hlb as (_ & _ & Hlb). specialize (Hlb Hex). unfold chunk_end. cbn [offset size].
    rewrite wrap_i64_id by (unfold in_i64, i64_max in *; lia). by rewrite (proj2 (Z.ltb_ge _ _)) by lia.
  - exists o. split_and!; [|done|done]. destruct (Z.ltb_spec p 0) as [Hp0|Hp0].
    + rewrite lookup_ge_None_2 by lia. done.
    + destruct (fc !! lower_bound fc p) as [[a b]|]; [|done]. destruct Hlb as (Ha & Hin & _).
      unfold chunk_end. cbn [offset size]. rewrite wrap_i64_id by (unfold in_i64, i64_max in *; lia).
      destruct (Z.ltb_spec b (p + m)); [done|]. exfalso. apply Hd. split; [done|]. apply list.Exists_exists. by exists (a, b).
Qed.

(** ** Colocations *)

(** [b] is placed with [a]: [a] leads to it over colocations. *)
Inductive below (m : gmap Z BufferInterval) : Z -> Z -> Prop :=
| below_one (a b : Z) (i : BufferInterval) : m !! a = Some i -> b ∈ colocations i -> below m a b
| below_more (a b c : Z) (i : BufferInterval) : m !! a = Some i -> b ∈ colocations i -> below m b c -> below m a c.

Definition closed (m : gmap Z BufferInterval) : Prop :=
  forall a i c, m !! a = Some i -> c ∈ colocations i -> is_Some (m !! c).

Lemma below_snoc (m : gmap Z BufferInterval) (a b c : Z) (i : BufferInterval) :
  below m a b -> m !! b = Some i -> c ∈ colocations i -> below m a c.
Proof.
  intros H Hb Hc. induction H as [a b j Ha Hin|a b d j Ha Hin H IH].
  - eapply below_more; [done..|]. by eapply below_one.
  - eapply below_more; [done..|]. by apply IH.
Qed.

Lemma below_in_map (m : gmap Z BufferInterval) (a b : Z) : closed m -> below m a b -> is_Some (m !! b).
Proof. intros Hc H. induction H; [by eapply Hc|done]. Qed.

Lemma push_spec (m : gmap Z BufferInterval) (cs : list Z) (s : gset Z) (wl : list BufferInterval) :
  Forall (fun c => is_Some (m !! c)) cs ->
  exists s' wl', push_colocations m cs s wl = Ok (s', wl') /\ (forall b, b ∈ s' <-> b ∈ s \/ b ∈ cs) /\
    (forall i, i ∈ wl' <-> i ∈ wl \/ (exists c, c ∈ cs /\ (c ∉ s) /\ m !! c = Some i)) /\
    (length wl' + base.size s = length wl + base.size s')%nat.
Proof.
  intros H. revert s wl. induction H as [|c cs [i Hi] H IH]; intros s wl; cbn [push_colocations].
  - exists s, wl. split_and!; [done|set_solver|set_solver|done].
  - case_bool_decide as Hc.
    + destruct (IH s wl) as (s' & wl' & -> & H1 & H2 & H3). exists s', wl'. split_and!; [done|set_solver| |done].
      intros j. rewrite H2. split; [intros [?|(d & ?)]; [by left|right; exists d; set_solver]|].
      intros [?|(d & Hd & Hn & Hl)]; [by left|right]. apply elem_of_cons in Hd as [->|Hd]; [done|]. by exists d.
    + rewrite Hi. destruct (IH ({[c]} ∪ s) (i :: wl)) as (s' & wl' & -> & H1 & H2 & H3). exists s', wl'.
      rewrite size_union, size_singleton in H3 by set_solver. cbn in H3. split_and!; [done|set_solver| |lia].
      intros j. rewrite H2. split.
      * intros [[->|?]%elem_of_cons|(d & ?)]; [right; exists c; set_solver|by left|right; exists d; set_solver].
      * intros [?|(d & Hd & Hn & Hl)]; [left; set_solver|]. apply elem_of_cons in Hd as [->|Hd].
        -- left. rewrite Hi in Hl. injection Hl as ->. set_solver.
        -- destruct (decide (d = c)) as [->|Hdc]; [left; rewrite Hi in Hl; injection Hl as ->; set_solver|].
           right. exists d. set_solver.
Qed.

Record walk (m : gmap Z BufferInterval) (x : Z) (s : gset Z) (wl : list BufferInterval) : Prop := {
  wk_work : forall i, i ∈ wl -> exists b, m !! b = Some i /\ (b = x \/ b ∈ s);
  wk_below : forall b, b ∈ s -> below m x b;
  wk_done : forall b i, b = x \/ b ∈ s -> m !! b = Some i -> i ∈ wl \/ forall c, c ∈ colocations i -> c ∈ s
}.

Lemma walk_size (m : gmap Z BufferInterval) (x : Z) (s : gset Z) (wl : list BufferInterval) :
  closed m -> walk m x s wl -> (base.size s <= base.size m)%nat.
Proof.
  intros Hc [_ Hb _]. rewrite <- size_dom. apply subseteq_size. intros b Hbs. apply elem_of_dom.
  by apply (below_in_map m x b Hc), Hb.
Qed.

Lemma colocation_loop_spec (fuel : nat) (m : gmap Z BufferInterval) (x : Z) (s : gset Z) (wl : list BufferInterval) :
  closed m -> walk m x s wl -> (length wl + base.size m <= fuel + base.size s)%nat ->
  exists s', colocation_loop fuel m wl s = Ok s' /\ walk m x s' [].
Proof.
  intros Hcl. revert s wl. induction fuel as [|fuel IH]; intros s wl Hw Hf;
    pose proof (walk_size m x s wl Hcl Hw) as Hsz; (destruct wl as [|i wl]; [by exists s|]); cbn [length] in Hf; [lia|].
  cbn [colocation_loop]. destruct Hw as [H1 H2 H3]. destruct (H1 i ltac:(set_solver)) as (bi & Hbi & Hbx).
  destruct (push_spec m (colocations i) s wl) as (s' & wl' & -> & G1 & G2 & G3).
  { apply list.Forall_forall. intros c Hc. by eapply Hcl. }
  cbn [res_bind]. apply IH; [|lia]. split.
  - intros j [Hj|(c & Hc & _ & Hl)]%G2.
    + destruct (H1 j ltac:(set_solver)) as (b & ? & [?|?]); exists b; set_solver.
    + exists c. set_solver.
  - intros b [Hb|Hb]%G1; [by apply H2|]. destruct Hbx as [->|Hbx]; [by eapply below_one|]. eapply below_snoc; [by apply H2|done..].
  - intros b j Hb Hj. destruct (decide (b = x \/ b ∈ s)) as [Hold|Hnew].
    + destruct (H3 b j Hold Hj) as [[->|Hin]%elem_of_cons|Hin]; [right; set_solver|left; set_solver|right; set_solver].
    + left. apply G2. right. exists b. set_solver.
Qed.

Lemma colocations_exact (h : t) (x : BufferInterval) :
  let m := buffer_intervals_ h in
  closed m -> m !! buffer x = Some x ->
  exists s, GetTransitiveColocations h x = Ok s /\ forall b, b ∈ s <-> below m (buffer x) b.
Proof.
  intros m Hcl Hx. destruct (colocation_loop_spec (S (length (map_to_list m))) m (buffer x) ∅ [x] Hcl) as (s & Hs & Hw).
  - split; [|set_solver|].
    + intros i ->%list_elem_of_singleton. exists (buffer x). set_solver.
    + intros b i [->|Hb] Hi; [|set_solver]. rewrite Hx in Hi. injection Hi as ->. set_solver.
  - rewrite size_empty, length_map_to_list. cbn. lia.
  - exists s. split; [done|]. destruct Hw as [_ H2 H3]. intros b. split; [apply H2|].
    intros Hb. remember (buffer x) as a eqn:Ea in Hb.
    assert (a = buffer x \/ a ∈ s) as Ha by by left. clear Ea. induction Hb as [a b i Hi Hin|a b c i Hi Hin Hb IH].
    + destruct (H3 a i Ha Hi) as [?|Hd]; [set_solver|by apply Hd].
    + destruct (H3 a i Ha Hi) as [?|Hd]; [set_solver|]. apply IH. right. by apply Hd.
Qed.

Lemma at_all_spec (m : gmap Z BufferInterval) (cs : list Z) :
  Forall (fun c => is_Some (m !! c)) cs -> exists l, at_all m cs = Ok l /\ Forall2 (fun c i => m !! c = Some i) cs l.
Proof.
  induction 1 as [|c cs [i Hi] H (l & Hl & IH)]; [by exists []|]. cbn [at_all]. rewrite Hi, Hl. cbn [res_bind].
  exists (i :: l). split; [done|]. by constructor.
Qed.

(** ** Placement of a group *)

Definition entry (o : Z) (i : BufferInterval) : interval := (start i, end_ i, mkChunk o (bsize i)).

Lemma emplace_lookup {A : Type} (k b : Z) (x : A) (m : gmap Z A) :
  emplace k x m !! b = match m !! b with Some y => Some y | None => if decide (b = k) then Some x else None end.
Proof.
  unfold emplace. destruct (m !! k) eqn:E.
  - destruct (m !! b) eqn:F; [done|]. destruct (decide (b = k)) as [->|]; congruence.
  - destruct (decide (b = k)) as [->|Hn]; [by rewrite lookup_insert_eq, E|]. rewrite lookup_insert_ne by congruence.
    by destruct (m !! b).
Qed.

Lemma commit_colocations_spec (m : gmap Z BufferInterval) (l : list BufferInterval) (cs : list Z) (o : Z) (r : HeapResult) (tr : tree) :
  Forall2 (fun c i => m !! c = Some i) cs l -> search_tree tr ->
  exists r' tr', commit_colocations l cs o r tr = (r', tr') /\ heap_size r' = heap_size r /\ search_tree tr' /\
    (forall y, y ∈ intervals tr' <-> y ∈ intervals tr \/ exists i, i ∈ l /\ y = entry o i) /\
    (forall b, chunk_map r' !! b =
       match chunk_map r !! b with
       | Some c => Some c
       | None => if decide (b ∈ cs) then (fun i => mkChunk o (bsize i)) <$> m !! b else None
       end).
Proof.
  intros H. revert r tr. induction H as [|c i cs l Hc H IH]; intros r tr Ht; cbn [commit_colocations].
  - exists r, tr. split_and!; try done.
    + intros y. split; [by left|]. intros [?|(i & Hi & _)]; [done|set_solver].
    + intros b. destruct (chunk_map r !! b); [done|]. by destruct (decide (b ∈ [])); [set_solver|].
  - destruct (IH (AddToChunkMap r c (mkChunk o (bsize i))) (Add tr (start i) (end_ i) (mkChunk o (bsize i))))
      as (r' & tr' & -> & H1 & H2 & H3 & H4); [by apply Add_search|].
    exists r', tr'. split_and!; [done|done|done| |].
    + intros y. rewrite H3, Add_intervals, elem_of_cons. unfold entry at 2. split.
      * intros [[->|?]|(j & Hj & ->)]; [right; exists i; set_solver|by left|right; exists j; set_solver].
      * intros [?|(j & Hj & ->)]; [by left; right|]. apply elem_of_cons in Hj as [->|Hj]; [by left; left|right; by exists j].
    + intros b. rewrite H4. unfold AddToChunkMap. cbn [chunk_map]. rewrite emplace_lookup.
      destruct (chunk_map r !! b); [done|]. destruct (decide (b = c)) as [->|Hbc].
      * rewrite decide_True by set_solver. by rewrite Hc.
      * by destruct (decide (b ∈ cs)), (decide (b ∈ c :: cs)); set_solver.
Qed.

Definition visits_set (visit_set : gset Z -> list Z) : Prop := forall s, visit_set s ≡ₚ elements s.

Lemma colocated_spec (visit_set : gset Z -> list Z) (h : t) (x : BufferInterval) (s : gset Z) :
  visits_set visit_set -> closed (buffer_intervals_ h) -> GetTransitiveColocations h x = Ok s ->
  (forall b, b ∈ s <-> below (buffer_intervals_ h) (buffer x) b) ->
  exists l, at_all (buffer_intervals_ h) (visit_set s) = Ok l /\ colocated visit_set h x = Ok l /\
    Forall2 (fun c i => buffer_intervals_ h !! c = Some i) (visit_set s) l /\
    (forall i, i ∈ l <-> exists b, b ∈ s /\ buffer_intervals_ h !! b = Some i).
Proof.
  intros Hv Hcl Hs Hb. destruct (at_all_spec (buffer_intervals_ h) (visit_set s)) as (l & Hl & HF).
  { rewrite (Hv s). apply list.Forall_forall. intros c Hc%elem_of_elements. apply (below_in_map _ (buffer x) c Hcl). by apply Hb. }
  exists l. split_and!; [done| |done|].
  - unfold colocated. by rewrite Hs.
  - intros i. split.
    + intros [k Hk]%list_elem_of_lookup. destruct (Forall2_lookup_r _ _ _ _ _ HF Hk) as (c & Hc & Hi). exists c. split; [|done].
      apply elem_of_elements. rewrite <- (Hv s). by eapply list_elem_of_lookup_2.
    + intros (b & Hbs & Hi). apply elem_of_elements in Hbs. rewrite <- (Hv s) in Hbs. apply list_elem_of_lookup in Hbs as [k Hk].
      destruct (Forall2_lookup_l _ _ _ _ _ HF Hk) as (j & Hj & Hbj). rewrite Hi in Hbj. injection Hbj as ->.
      by eapply list_elem_of_lookup_2.
Qed.

Lemma commit_spec (visit_set : gset Z -> list Z) (h : t) (x : BufferInterval) (s : gset Z) (o m : Z) :
  visits_set visit_set -> closed (buffer_intervals_ h) -> GetTransitiveColocations h x = Ok s ->
  (forall b, b ∈ s <-> below (buffer_intervals_ h) (buffer x) b) -> search_tree (interval_tree_ h) ->
  buffer_intervals_ h !! buffer x = Some x ->
  exists r tr, CommitChunk visit_set h x (mkChunk o m) = Ok (with_result h r tr) /\
    heap_size r = Z.max (heap_size (result_ h)) (wrap_i64 (o + m)) /\ search_tree tr /\
    (forall y, y ∈ intervals tr <-> y ∈ intervals (interval_tree_ h) \/
       exists b i, (b = buffer x \/ b ∈ s) /\ buffer_intervals_ h !! b = Some i /\ y = entry o i) /\
    (forall b, chunk_map r !! b =
       match chunk_map (result_ h) !! b with
       | Some c => Some c
       | None => if decide (b = buffer x \/ b ∈ s) then (fun i => mkChunk o (bsize i)) <$> buffer_intervals_ h !! b else None
       end).
Proof.
  intros Hv Hcl Hs Hb Ht Hx. destruct (colocated_spec visit_set h x s Hv Hcl Hs Hb) as (l & Hl & _ & HF & Hin).
  unfold CommitChunk. rewrite Hs. cbn [res_bind]. rewrite Hl. cbn [res_bind offset].
  match goal with |- context [commit_colocations _ _ _ ?r ?tr] =>
    destruct (commit_colocations_spec _ l (visit_set s) o r tr HF) as (r' & tr' & -> & H1 & H2 & H3 & H4); [by apply Add_search|] end.
  eexists _, _. split; [reflexivity|]. cbn [heap_size AddToChunkMap chunk_map]. split; [rewrite H1; done|]. split; [done|]. split.
  - intros y. rewrite H3, Add_intervals, elem_of_cons. split.
    + intros [[->|?]|(i & [b [Hbs Hbi]]%Hin & ->)]; [|by left|].
      * right. exists (buffer x), x. split_and!; [by left|done|done].
      * right. exists b, i. split_and!; [by right|done|done].
    + intros [?|(b & i & [->|Hbs] & Hi & ->)]; [by left; right| |].
      * rewrite Hx in Hi. injection Hi as <-. by left; left.
      * right. exists i. split; [|done]. apply Hin. by exists b.
  - intros b. rewrite emplace_lookup, H4. cbn [chunk_map]. destruct (chunk_map (result_ h) !! b); [done|].
    assert (b ∈ visit_set s <-> b ∈ s) as Hvs by (rewrite (Hv s); apply elem_of_elements).
    destruct (decide (b = buffer x)) as [->|Hn].
    + rewrite (decide_True _ _ (or_introl eq_refl)), Hx. by destruct (decide (buffer x ∈ visit_set s)).
    + destruct (decide (b ∈ visit_set s)), (decide (b = buffer x \/ b ∈ s)); try tauto. by destruct (buffer_intervals_ h !! b).
Qed.

(** ** Groups of buffers that are placed together *)

(** Every buffer that shares another's memory is below the buffer that its group
    allocates, its canonical buffer, and the buffers of a group have one size. *)
Record forest (m : gmap Z BufferInterval) (canon : gmap Z Z) : Prop := {
  fr_key : forall b i, m !! b = Some i -> buffer i = b;
  fr_pos : forall b i, m !! b = Some i -> 0 < bsize i;
  fr_closed : closed m;
  fr_canon : forall a i c, m !! a = Some i -> c ∈ colocations i -> canon !! c = canon !! a;
  fr_child : forall a i c j, m !! a = Some i -> c ∈ colocations i -> m !! c = Some j -> need_allocation j = false /\ bsize j = bsize i;
  fr_root : forall b i, m !! b = Some i -> need_allocation i = true -> canon !! b = Some b;
  fr_below : forall b i, m !! b = Some i -> need_allocation i = false ->
    exists r j, canon !! b = Some r /\ m !! r = Some j /\ need_allocation j = true /\ below m r b
}.

Section Groups.
Context (m : gmap Z BufferInterval) (canon : gmap Z Z) (HF : forest m canon).

Lemma below_spec (a b : Z) (i j : BufferInterval) :
  below m a b -> m !! a = Some i -> m !! b = Some j -> canon !! b = canon !! a /\ need_allocation j = false /\ bsize j = bsize i.
Proof.
  intros H. revert i j. induction H as [a b k Ha Hin|a b c k Ha Hin H IH]; intros i j Hi Hj.
  - rewrite Ha in Hi. injection Hi as ->. split; [exact (fr_canon m canon HF a i b Ha Hin)|exact (fr_child m canon HF a i b j Ha Hin Hj)].
  - rewrite Ha in Hi. injection Hi as ->. destruct (fr_closed m canon HF a i b Ha Hin) as [l Hl].
    destruct (IH l j Hl Hj) as (-> & H2 & H3). destruct (fr_child m canon HF a i b l Ha Hin Hl) as [_ H4].
    split; [exact (fr_canon m canon HF a i b Ha Hin)|]. split; [done|lia].
Qed.

(** The members of the group of a buffer that is allocated *)
Lemma group_spec (x : BufferInterval) (b : Z) (i : BufferInterval) :
  m !! buffer x = Some x -> need_allocation x = true -> m !! b = Some i ->
  (b = buffer x \/ below m (buffer x) b) <-> canon !! b = Some (buffer x).
Proof.
  intros Hx Hn Hi. split.
  - pose proof (fr_root m canon HF _ x Hx Hn). intros [->|Hb]; [done|]. by destruct (below_spec _ _ _ _ Hb Hx Hi) as [-> _].
  - intros Hc. destruct (need_allocation i) eqn:E.
    + left. pose proof (fr_root m canon HF b i Hi E). congruence.
    + right. destruct (fr_below m canon HF b i Hi E) as (r & j & Hr & _ & _ & Hb). congruence.
Qed.

Lemma group_size (x : BufferInterval) (b : Z) (i : BufferInterval) :
  m !! buffer x = Some x -> b = buffer x \/ below m (buffer x) b -> m !! b = Some i -> bsize i = bsize x.
Proof.
  intros Hx [->|Hb] Hi; [congruence|]. by destruct (below_spec _ _ _ _ Hb Hx Hi) as (_ & _ & ->).
Qed.

End Groups.

(** ** What is placed *)

Definition meets (i j : BufferInterval) : Prop := start i <= end_ j /\ start j <= end_ i.

(** The chunks of the buffers in the groups [R]: aligned, inside of the heap, at one
    offset in a group, and disjoint for buffers of two groups whose live ranges meet *)
Record placed (A : Z) (m : gmap Z BufferInterval) (canon : gmap Z Z) (R : gset Z) (r : HeapResult) : Prop := {
  pl_dom : forall b i, m !! b = Some i -> is_Some (chunk_map r !! b) <-> exists k, canon !! b = Some k /\ k ∈ R;
  pl_chunk : forall b i c, m !! b = Some i -> chunk_map r !! b = Some c ->
    size c = bsize i /\ 0 <= offset c /\ (A | offset c) /\ uend c <= heap_size r;
  pl_group : forall b b' i i' c c', m !! b = Some i -> m !! b' = Some i' -> chunk_map r !! b = Some c -> chunk_map r !! b' = Some c' ->
    canon !! b = canon !! b' -> offset c = offset c';
  pl_disjoint : forall b b' i i' c c', m !! b = Some i -> m !! b' = Some i' -> chunk_map r !! b = Some c -> chunk_map r !! b' = Some c' ->
    canon !! b <> canon !! b' -> meets i i' -> clear_of (offset c) (size c) c'
}.

(** The heap while buffers are placed *)
Record placing (A : Z) (m : gmap Z BufferInterval) (canon : gmap Z Z) (cm0 : gmap Z Chunk) (R : gset Z) (h : t) : Prop := {
  pc_align : alignment_ h = A;
  pc_map : buffer_intervals_ h = m;
  pc_search : search_tree (interval_tree_ h);
  pc_tree : forall y, y ∈ intervals (interval_tree_ h) <->
    exists b i c, m !! b = Some i /\ chunk_map (result_ h) !! b = Some c /\ y = (start i, end_ i, c);
  pc_placed : placed A m canon R (result_ h);
  pc_size : 0 <= heap_size (result_ h);
  pc_other : forall b, m !! b = None -> chunk_map (result_ h) !! b = cm0 !! b
}.

Lemma in_use_elem (tr : tree) (l : list BufferInterval) (i : BufferInterval) (s e : Z) (c : Chunk) :
  i ∈ l -> (s, e, c) ∈ intervals tr -> s <= end_ i -> start i <= e -> c ∈ in_use tr l.
Proof.
  intros Hi Hin H1 H2. unfold in_use. apply list_elem_of_In, in_flat_map. exists i. split; [by apply list_elem_of_In|].
  unfold overlapping. apply in_map_iff. exists (s, e, c). split; [done|]. apply List.filter_In.
  split; [by apply list_elem_of_In|]. unfold overlaps, started, ended. cbn. apply andb_true_iff. split; by apply Z.leb_le.
Qed.

Section Placing.
Context (visit_set : gset Z -> list Z) (Hv : visits_set visit_set).
Context (A : Z) (m : gmap Z BufferInterval) (canon : gmap Z Z) (cm0 : gmap Z Chunk).
Context (HA : 0 < A) (HF : forest m canon).

Lemma placing_room (R : gset Z) (h : t) (x : BufferInterval) :
  placing A m canon cm0 R h -> m !! buffer x = Some x -> heap_size (result_ h) + A + bsize x <= i64_max ->
  room A (bsize x) (heap_size (result_ h)) (interval_tree_ h).
Proof.
  intros Hp Hx Hb. pose proof (pc_size _ _ _ _ _ _ Hp). split; [done|by eapply (fr_pos m canon HF)|by destruct Hp| |done].
  apply list.Forall_forall. intros y (b & i & c & Hi & Hc & ->)%(pc_tree _ _ _ _ _ _ Hp). cbn [snd].
  destruct (pl_chunk _ _ _ _ _ (pc_placed _ _ _ _ _ _ Hp) b i c Hi Hc) as (H1 & H2 & _ & H3).
  pose proof (fr_pos m canon HF b i Hi). lia.
Qed.

Lemma candidate_spec (R : gset Z) (h : t) (x : BufferInterval) :
  placing A m canon cm0 R h -> m !! buffer x = Some x -> heap_size (result_ h) + A + bsize x <= i64_max ->
  exists s o, GetTransitiveColocations h x = Ok s /\ (forall b, b ∈ s <-> below m (buffer x) b) /\
    FindChunkCandidate visit_set h x (-1) = Ok (mkChunk o (bsize x)) /\
    0 <= o < heap_size (result_ h) + A /\ (A | o) /\
    (forall b b' i i' c', b = buffer x \/ b ∈ s -> m !! b = Some i -> m !! b' = Some i' ->
       chunk_map (result_ h) !! b' = Some c' -> meets i i' -> clear_of o (bsize x) c').
Proof.
  intros Hp Hx Hb. pose proof (placing_room R h x Hp Hx Hb) as Hroom. pose proof Hp as [Hal Hmap Ht Htree Hpl Hs0 _].
  pose proof (fr_closed m canon HF) as Hcl. rewrite <- Hmap in Hcl, Hx.
  destruct (colocations_exact h x Hcl Hx) as (s & Hs & Hsb). rewrite Hmap in Hx.
  destruct (colocated_spec visit_set h x s Hv Hcl Hs Hsb) as (cs & _ & Hcs & _ & Hin). rewrite Hmap in Hsb, Hin.
  exists s. pose proof (ro_size _ _ _ _ Hroom) as Hm.
  assert (max_size x cs = bsize x) as Hmax.
  { apply foldl_max_small, list.Forall_forall. intros i (b & Hbs & Hi)%Hin.
    rewrite (group_size m canon HF x b i Hx); [done|right; by apply Hsb|done]. }
  destruct (find_candidate visit_set h x (-1) (heap_size (result_ h)) cs) as (fc & o & Hf & Hg & Hbest).
  - done.
  - by rewrite Hmax, Hal.
  - rewrite Hmax. unfold i64_max in *. lia.
  - done.
  - rewrite Hmax in *. rewrite bool_decide_eq_false_2 in Hbest by lia. exists o. rewrite Hal in *. destruct Hbest as (f & Hff & -> & _).
    destruct Hg as [[_ He] Hsound Hstart _]. rewrite list.Forall_forall in He, Hsound, Hstart.
    specialize (He f Hff). destruct He as (He1 & He2 & He3 & He4). specialize (Hsound f Hff). specialize (Hstart f Hff).
    split; [done|]. split; [done|]. split; [done|]. split.
    { split; [done|]. destruct Hstart as [->|(u & Hu & ->)]; [lia|].
      assert (0 <= uend u <= heap_size (result_ h)) as Hue.
      { revert u Hu. apply list.Forall_forall, in_use_forall. eapply list.Forall_impl; [exact (ro_chunks _ _ _ _ Hroom)|].
        intros y (? & ? & ?). unfold uend in *. lia. }
      destruct (RoundUpTo_spec (uend u) A) as [? _]; lia. }
    split; [done|]. intros b b' i i' c' Hbs Hi Hi' Hc' [Hm1 Hm2]. rewrite list.Forall_forall in Hsound.
    assert (c' ∈ in_use (interval_tree_ h) (x :: cs)) as Hu.
    { apply (in_use_elem _ _ i (start i') (end_ i') c'); [|by apply Htree; exists b', i', c'|done..].
      apply elem_of_cons. destruct Hbs as [->|Hbs]; [left; congruence|right; apply Hin; by exists b]. }
    specialize (Hsound c' Hu). unfold clear_of. lia.
Qed.

Lemma placed_extend (R : gset Z) (r r' : HeapResult) (x : BufferInterval) (s : gset Z) (o : Z) :
  placed A m canon R r -> m !! buffer x = Some x -> need_allocation x = true -> buffer x ∉ R ->
  (forall b, b ∈ s <-> below m (buffer x) b) -> 0 <= o -> (A | o) ->
  (forall b b' i i' c', b = buffer x \/ b ∈ s -> m !! b = Some i -> m !! b' = Some i' ->
     chunk_map r !! b' = Some c' -> meets i i' -> clear_of o (bsize x) c') ->
  heap_size r' = Z.max (heap_size r) (o + bsize x) ->
  (forall b, chunk_map r' !! b =
     match chunk_map r !! b with
     | Some c => Some c
     | None => if decide (b = buffer x \/ b ∈ s) then (fun i => mkChunk o (bsize i)) <$> m !! b else None
     end) ->
  placed A m canon ({[buffer x]} ∪ R) r'.
Proof.
  intros [Hd Hc Hg Hdis] Hx Hn HR Hsb Ho Hdo Hclear Hsize Hmap.
  assert (forall b i, m !! b = Some i -> (b = buffer x \/ b ∈ s) <-> canon !! b = Some (buffer x)) as Hgrp.
  { intros b i Hi. rewrite Hsb. by eapply group_spec. }
  assert (forall b i, m !! b = Some i -> canon !! b = Some (buffer x) -> chunk_map r !! b = None) as Hnew.
  { intros b i Hi Hcb. destruct (chunk_map r !! b) eqn:E; [|done]. destruct (Hd b i Hi) as [Hd' _].
    destruct Hd' as (k & Hk & HkR); [by eexists|]. congruence. }
  assert (forall b i c, m !! b = Some i -> chunk_map r' !! b = Some c ->
    (chunk_map r !! b = Some c /\ canon !! b <> Some (buffer x)) \/ (canon !! b = Some (buffer x) /\ c = mkChunk o (bsize x))) as Hcase.
  { intros b i c Hi Hcb. rewrite Hmap in Hcb. destruct (chunk_map r !! b) eqn:E.
    - left. split; [done|]. intros Hcan. by rewrite (Hnew b i Hi Hcan) in E.
    - right. destruct (decide (b = buffer x \/ b ∈ s)) as [Hin|]; [|done]. rewrite Hi in Hcb. injection Hcb as <-.
      split; [by eapply Hgrp|]. f_equal. apply (group_size m canon HF x b i Hx); [|done]. by rewrite <- Hsb. }
  split.
  - intros b i Hi. rewrite Hmap. specialize (Hd b i Hi). specialize (Hgrp b i Hi). destruct (chunk_map r !! b) as [c|].
    + split; [|by eexists]. intros _. destruct Hd as [Hd _]. destruct Hd as (k & ? & ?); [by eexists|]. exists k. set_solver.
    + destruct (decide (b = buffer x \/ b ∈ s)) as [Hin|Hin].
      * rewrite Hi. split; [|by eexists]. intros _. exists (buffer x). split; [by apply Hgrp|set_solver].
      * split; [by intros [? ?]|]. intros (k & Hk & HkR). apply elem_of_union in HkR as [->%elem_of_singleton|HkR].
        -- by apply Hgrp in Hk.
        -- apply Hd. by exists k.
  - intros b i c Hi Hcb. destruct (Hcase b i c Hi Hcb) as [[Hold _]|[Hcan ->]].
    + destruct (Hc b i c Hi Hold) as (? & ? & ? & ?). split_and!; [done..|lia].
    + cbn. unfold uend. cbn. split_and!; [|done|done|lia]. symmetry. apply (group_size m canon HF x b i Hx); [|done].
      rewrite <- Hsb. by eapply Hgrp.
  - intros b b' i i' c c' Hi Hi' Hcb Hcb' Heq.
    destruct (Hcase b i c Hi Hcb) as [[Hold Hn1]|[Hcan ->]], (Hcase b' i' c' Hi' Hcb') as [[Hold' Hn2]|[Hcan' ->]].
    + by eapply (Hg b b').
    + congruence.
    + congruence.
    + done.
  - intros b b' i i' c c' Hi Hi' Hcb Hcb' Hne Hmeet.
    destruct (Hcase b i c Hi Hcb) as [[Hold Hn1]|[Hcan ->]], (Hcase b' i' c' Hi' Hcb') as [[Hold' Hn2]|[Hcan' ->]].
    + by eapply (Hdis b b').
    + assert (clear_of o (bsize x) c) as Hcl.
      { apply (Hclear b' b i' i c); [by eapply Hgrp|done..|]. unfold meets in *. lia. }
      unfold clear_of, uend in *. cbn. lia.
    + cbn [offset size]. apply (Hclear b b' i i' c'); [by eapply Hgrp|done..].
    + congruence.
Qed.

Lemma place_step (R : gset Z) (h : t) (x : BufferInterval) :
  placing A m canon cm0 R h -> m !! buffer x = Some x -> need_allocation x = true -> buffer x ∉ R ->
  heap_size (result_ h) + A + bsize x <= i64_max ->
  exists o h', FindChunkCandidate visit_set h x (-1) = Ok (mkChunk o (bsize x)) /\
    CommitChunk visit_set h x (mkChunk o (bsize x)) = Ok h' /\ placing A m canon cm0 ({[buffer x]} ∪ R) h' /\
    0 <= o < heap_size (result_ h) + A /\ heap_size (result_ h') = Z.max (heap_size (result_ h)) (o + bsize x) /\
    (forall b i, m !! b = Some i -> chunk_map (result_ h') !! b =
       if decide (canon !! b = Some (buffer x)) then Some (mkChunk o (bsize x)) else chunk_map (result_ h) !! b).
Proof.
  intros Hp Hx Hn HR Hb. destruct (candidate_spec R h x Hp Hx Hb) as (s & o & Hs & Hsb & Hf & Ho & Hdo & Hclear).
  pose proof Hp as [Hal Hmap Ht Htree Hpl Hs0 Hother]. pose proof (fr_pos m canon HF _ x Hx) as Hpos.
  destruct (commit_spec visit_set h x s o (bsize x) Hv) as (r & tr & Hc & Hsz & Hst & Hint & Hcm).
  { rewrite Hmap. by apply (fr_closed m canon). } { done. } { by rewrite Hmap. } { done. } { by rewrite Hmap. }
  rewrite Hmap in Hint, Hcm. rewrite wrap_i64_id in Hsz by (unfold in_i64, i64_max in *; lia).
  exists o, (with_result h r tr). split; [done|]. split; [done|].
  pose proof (placed_extend R _ r x s o Hpl Hx Hn HR Hsb (proj1 Ho) Hdo Hclear Hsz Hcm) as Hpl'.
  assert (forall b i, m !! b = Some i -> (b = buffer x \/ b ∈ s) <-> canon !! b = Some (buffer x)) as Hgrp.
  { intros b i Hi. rewrite Hsb. by eapply group_spec. }
  assert (forall b i, m !! b = Some i -> canon !! b = Some (buffer x) -> chunk_map (result_ h) !! b = None) as Hnew.
  { intros b i Hi Hcb. destruct (chunk_map (result_ h) !! b) eqn:E; [|done]. destruct (pl_dom _ _ _ _ _ Hpl b i Hi) as [Hd' _].
    destruct Hd' as (k & Hk & HkR); [by eexists|]. congruence. }
  assert (forall b i, m !! b = Some i -> chunk_map r !! b =
    if decide (canon !! b = Some (buffer x)) then Some (mkChunk o (bsize x)) else chunk_map (result_ h) !! b) as Hlook.
  { intros b i Hi. rewrite Hcm. specialize (Hgrp b i Hi). destruct (decide (canon !! b = Some (buffer x))) as [Hcan|Hcan].
    - rewrite (Hnew b i Hi Hcan), decide_True, Hi by by apply Hgrp. cbn. do 2 f_equal.
      apply (group_size m canon HF x b i Hx); [|done]. rewrite <- Hsb. by apply Hgrp.
    - destruct (chunk_map (result_ h) !! b); [done|]. rewrite decide_False; [done|]. by rewrite Hgrp. }
  split_and!; [|lia|lia|done|done]. split; cbn [with_result alignment_ buffer_intervals_ interval_tree_ result_]; [done..| |done|lia|].
  - intros y. rewrite Hint, Htree. split.
    + intros [(b & i & c & Hi & Hcb & ->)|(b & i & Hin & Hi & ->)].
      * exists b, i, c. split_and!; [done| |done]. by rewrite Hcm, Hcb.
      * exists b, i, (mkChunk o (bsize x)). split_and!; [done| |].
        -- rewrite (Hlook b i Hi), decide_True; [done|]. by eapply Hgrp.
        -- unfold entry. do 2 f_equal. apply (group_size m canon HF x b i Hx); [|done]. by rewrite <- Hsb.
    + intros (b & i & c & Hi & Hcb & ->). rewrite (Hlook b i Hi) in Hcb. destruct (decide (canon !! b = Some (buffer x))) as [Hcan|Hcan].
      * right. exists b, i. injection Hcb as <-. split; [by eapply Hgrp|]. split; [done|]. unfold entry. do 2 f_equal.
        symmetry. apply (group_size m canon HF x b i Hx); [|done]. rewrite <- Hsb. by eapply Hgrp.
      * left. by exists b, i, c.
  - intros b Hb'. rewrite Hcm. rewrite <- (Hother b Hb'). destruct (chunk_map (result_ h) !! b); [done|]. rewrite Hb'. by destruct (decide _).
Qed.

Definition budget (l : list BufferInterval) : Z := foldr (fun x n => bsize x + A + n) 0 l.

Definition allocated (l : list BufferInterval) : gset Z := list_to_set (map buffer (List.filter need_allocation l)).

Definition from_map (l : list BufferInterval) : Prop := Forall (fun x => m !! buffer x = Some x) l /\ NoDup (map buffer l).

Lemma from_map_cons (x : BufferInterval) (l : list BufferInterval) :
  from_map (x :: l) -> m !! buffer x = Some x /\ from_map l /\ buffer x ∉ map buffer l.
Proof. intros [[Hx Hl]%list.Forall_cons [Hn Hd]%NoDup_cons]. by split_and!. Qed.

Lemma allocated_elem (l : list BufferInterval) (b : Z) : b ∈ allocated l <-> exists x, x ∈ l /\ buffer x = b /\ need_allocation x = true.
Proof.
  unfold allocated. rewrite elem_of_list_to_set, list_elem_of_In, in_map_iff. split.
  - intros (x & <- & [Hx Hn]%List.filter_In). exists x. by rewrite list_elem_of_In.
  - intros (x & Hx & <- & Hn). exists x. split; [done|]. apply List.filter_In. by rewrite <- list_elem_of_In.
Qed.

Lemma budget_nonneg (l : list BufferInterval) : from_map l -> 0 <= budget l.
Proof.
  induction l as [|x l IH]; intros Hl; [done|]. apply from_map_cons in Hl as (Hx & Hl & _).
  change (budget (x :: l)) with (bsize x + A + budget l).
  pose proof (fr_pos m canon HF _ x Hx). specialize (IH Hl). lia.
Qed.

Lemma place_all_spec (l : list BufferInterval) (R : gset Z) (h : t) :
  placing A m canon cm0 R h -> from_map l -> (forall x, x ∈ l -> buffer x ∉ R) -> heap_size (result_ h) + budget l <= i64_max ->
  exists h', place_all visit_set h l = Ok h' /\ placing A m canon cm0 (allocated l ∪ R) h' /\
    heap_size (result_ h') <= heap_size (result_ h) + budget l.
Proof.
  revert R h. induction l as [|x l IH]; intros R h Hp Hl HR Hb; cbn [place_all].
  - exists h. split; [done|]. assert (allocated [] ∪ R = R) as -> by set_solver. split; [done|]. cbn. lia.
  - apply from_map_cons in Hl as (Hx & Hl & Hnl). change (budget (x :: l)) with (bsize x + A + budget l) in Hb.
    pose proof (budget_nonneg l Hl) as Hb0. pose proof (fr_pos m canon HF _ x Hx) as Hpos.
    change (budget (x :: l)) with (bsize x + A + budget l).
    unfold allocated. cbn [List.filter]. destruct (need_allocation x) eqn:E; cbn [negb].
    + destruct (place_step R h x Hp Hx E (HR x ltac:(set_solver)) ltac:(lia)) as (o & h1 & -> & Hc & Hp1 & Ho & Hsz & _).
      cbn [res_bind]. rewrite Hc. cbn [res_bind]. destruct (IH _ h1 Hp1 Hl) as (h2 & -> & Hp2 & Hh2).
      * intros y Hy. rewrite elem_of_union, elem_of_singleton. intros [Heq|Hin]; [|by apply (HR y); set_solver].
        apply Hnl. rewrite <- Heq. apply list_elem_of_In, in_map, list_elem_of_In. done.
      * lia.
      * exists h2. split; [done|]. fold (allocated l). cbn [map list_to_set].
        assert (({[buffer x]} ∪ list_to_set (map buffer (List.filter need_allocation l))) ∪ R =
          allocated l ∪ ({[buffer x]} ∪ R)) as -> by (unfold allocated; set_solver). split; [done|lia].
    + fold (allocated l). destruct (IH R h Hp Hl) as (h2 & H1 & H2 & H3); [|lia|].
      * intros y Hy. apply HR. set_solver.
      * exists h2. split; [done|]. split; [done|lia].
Qed.

(** The chunks that end after the limit are those of one group. *)
Definition within (limit : Z) (r : HeapResult) : Prop :=
  exists k, forall b i c, m !! b = Some i -> chunk_map r !! b = Some c -> canon !! b <> Some k -> uend c <= limit.

Lemma placing_empty (R : gset Z) (h : t) (b : Z) (i : BufferInterval) :
  placing A m canon cm0 R h -> heap_size (result_ h) = 0 -> m !! b = Some i -> chunk_map (result_ h) !! b = None.
Proof.
  intros Hp Hz Hi. destruct (chunk_map (result_ h) !! b) as [c|] eqn:E; [|done].
  destruct (pl_chunk _ _ _ _ _ (pc_placed _ _ _ _ _ _ Hp) b i c Hi E) as (H1 & H2 & _ & H3).
  pose proof (fr_pos m canon HF b i Hi). unfold uend in *. lia.
Qed.

Lemma fill_heap_spec (limit : Z) (l : list BufferInterval) (R : gset Z) (h : t) :
  placing A m canon cm0 R h -> within limit (result_ h) -> from_map l -> (forall x, x ∈ l -> buffer x ∉ R) ->
  heap_size (result_ h) + budget l <= i64_max ->
  exists h' rest Q, fill_heap visit_set limit h l = Ok (h', rest) /\ placing A m canon cm0 (Q ∪ R) h' /\ within limit (result_ h') /\
    from_map rest /\ rest ⊆ l /\ Q ∪ allocated rest = allocated l /\ Q ## allocated rest /\
    heap_size (result_ h') + budget rest <= heap_size (result_ h) + budget l /\ (length rest <= length l)%nat /\
    (heap_size (result_ h) = 0 -> l <> [] -> (length rest < length l)%nat).
Proof.
  revert R h. induction l as [|x l IH]; intros R h Hp Hw Hl HR Hb; cbn [fill_heap].
  - exists h, [], ∅. rewrite !(left_id_L ∅ (∪)). split_and!; try done.
  - pose proof (from_map_cons x l Hl) as (Hx & Hl' & Hnl). change (budget (x :: l)) with (bsize x + A + budget l) in Hb |- *.
    pose proof (budget_nonneg l Hl') as Hb0. pose proof (fr_pos m canon HF _ x Hx) as Hpos.
    assert (forall y, y ∈ l -> buffer y <> buffer x) as Hne.
    { intros y Hy Heq. apply Hnl. rewrite <- Heq. by apply list_elem_of_In, in_map, list_elem_of_In. }
    assert (forall b, b ∈ allocated l -> b <> buffer x) as Hna.
    { intros b (y & Hy & <- & _)%allocated_elem. by apply Hne. }
    destruct (need_allocation x) eqn:E; cbn [negb].
    2:{ destruct (IH R h Hp Hw Hl') as (h' & rest & Q & -> & H1 & H2 & H3 & H4 & H5 & H6 & H7 & H8 & _); [set_solver|lia|].
        exists h', rest, Q. assert (allocated (x :: l) = allocated l) as -> by (unfold allocated; cbn; by rewrite E).
        split_and!; try done; [set_solver|lia|cbn; lia|cbn; lia]. }
    assert (allocated (x :: l) = {[buffer x]} ∪ allocated l) as -> by (unfold allocated; cbn; by rewrite E).
    destruct (place_step R h x Hp Hx E (HR x ltac:(set_solver)) ltac:(lia)) as (o & h1 & -> & Hc & Hp1 & Ho & Hsz & Hlook).
    cbn [res_bind]. rewrite Hc. unfold chunk_end. cbn [offset size res_bind].
    rewrite wrap_i64_id, wrap_u64_id by (unfold in_i64, in_u64, i64_max, u64_max in *; lia).
    destruct (Z.leb_spec (o + bsize x) limit) as [Hlim|Hlim]; [|destruct (Z.eqb_spec (heap_size (result_ h)) 0) as [Hz|Hz]]; cbn [orb].
    3:{ destruct (IH R h Hp Hw Hl') as (h' & rest & Q & -> & H1 & H2 & H3 & H4 & H5 & H6 & H7 & H8 & _); [set_solver|lia|].
        cbn [res_bind]. exists h', (x :: rest), Q.
        assert (allocated (x :: rest) = {[buffer x]} ∪ allocated rest) as -> by (unfold allocated; cbn; by rewrite E).
        assert (Q ⊆ allocated l) as HQ by set_solver.
        change (budget (x :: rest)) with (bsize x + A + budget rest).
        split_and!; try done; [| set_solver |set_solver|set_solver|lia|cbn; lia].
        destruct H3 as [H3 H3']. split; [by constructor|]. cbn. constructor; [|done].
        intros (y & Hy1 & Hy2)%list_elem_of_In%in_map_iff. apply (Hne y); [|done]. apply H4. by apply list_elem_of_In. }
    all: (destruct (IH ({[buffer x]} ∪ R) h1 Hp1) as (h' & rest & Q & -> & H1 & H2 & H3 & H4 & H5 & H6 & H7 & H8 & _);
      [ |done| |lia|]).
    2,5: intros y Hy; rewrite elem_of_union, elem_of_singleton; intros [Hin|Hin]; [by apply (Hne y)|by apply (HR y); set_solver].
    2,4: exists h', rest, ({[buffer x]} ∪ Q);
      (split_and!; [done| |done|done|set_solver|set_solver| |lia|cbn; lia|cbn; lia]);
      [ assert (({[buffer x]} ∪ Q) ∪ R = Q ∪ ({[buffer x]} ∪ R)) as -> by set_solver; done
      | apply disjoint_union_l; split; [|done]; apply disjoint_singleton_l; intros Hin; apply (Hna (buffer x)); [set_solver|done]].
    + destruct Hw as [k Hk]. exists k. intros b i c Hi. rewrite (Hlook b i Hi). destruct (decide _); [|by eapply Hk].
      intros [= <-] _. unfold uend. cbn. lia.
    + exists (buffer x). intros b i c Hi. rewrite (Hlook b i Hi). destruct (decide _); [done|].
      by rewrite (placing_empty R h b i Hp Hz Hi).
Qed.

Lemma with_keys_spec (h : t) (l : list (Z * BufferInterval)) :
  buffer_intervals_ h = m -> Forall (fun p => m !! fst p = Some (snd p)) l ->
  exists k, with_keys visit_set h l = Ok k /\ map snd k = map snd l.
Proof.
  intros Hm H. induction H as [|[b x] l Hx H (k & Hk & IH)]; [by exists []|]. cbn [with_keys]. cbn in Hx.
  assert (exists key, sort_key visit_set h x = Ok key) as [key ->].
  { unfold sort_key. destruct (type_ h); [by eexists|]. pose proof (fr_key m canon HF b x Hx) as Hb. subst b.
    rewrite <- Hm in Hx. pose proof (fr_closed m canon HF) as Hcl. rewrite <- Hm in Hcl.
    destruct (colocations_exact h x Hcl Hx) as (s & Hs & Hsb).
    destruct (colocated_spec visit_set h x s Hv Hcl Hs Hsb) as (cs & _ & -> & _). by eexists. }
  cbn [res_bind]. rewrite Hk. cbn [res_bind]. exists ((key, x) :: k). cbn. by rewrite IH.
Qed.

Lemma sort_insert_perm (x : Z * Z * Z * BufferInterval) (l : list (Z * Z * Z * BufferInterval)) : sort_insert x l ≡ₚ x :: l.
Proof.
  induction l as [|y l IH]; [done|]. cbn. destruct (key_less _ _); [|done]. rewrite IH. apply Permutation_swap.
Qed.

Lemma sorted_spec (visit_map : gmap Z BufferInterval -> list (Z * BufferInterval)) (h : t) :
  (forall m, visit_map m ≡ₚ map_to_list m) -> buffer_intervals_ h = m ->
  exists l, GetSortedBufferIntervals visit_map visit_set h = Ok l /\ l ≡ₚ map snd (map_to_list m).
Proof.
  intros Hvm Hm. unfold GetSortedBufferIntervals. rewrite Hm. destruct (with_keys_spec h (visit_map m) Hm) as (k & -> & Hk).
  { rewrite (Hvm m). apply list.Forall_forall. intros [b i] Hin. by apply elem_of_map_to_list in Hin. }
  cbn [res_bind]. eexists. split; [reflexivity|]. assert (fold_right sort_insert [] k ≡ₚ k) as ->.
  { clear. induction k as [|x k IH]; [done|]. cbn. by rewrite sort_insert_perm, IH. }
  rewrite Hk. by rewrite (Hvm m).
Qed.

Lemma map_from_map (l : list BufferInterval) : l ≡ₚ map snd (map_to_list m) -> from_map l /\ forall x, x ∈ l <-> m !! buffer x = Some x.
Proof.
  intros Hl. assert (forall x, x ∈ l <-> m !! buffer x = Some x) as Hin.
  { intros x. rewrite Hl, list_elem_of_In, in_map_iff. split.
    - intros ([b y] & <- & Hy). cbn. rewrite <- list_elem_of_In, elem_of_map_to_list in Hy. by rewrite (fr_key m canon HF b y Hy).
    - intros Hx. exists (buffer x, x). split; [done|]. by rewrite <- list_elem_of_In, elem_of_map_to_list. }
  split; [|done]. split; [apply list.Forall_forall; intros x; by apply Hin|].
  rewrite Hl, map_map. assert (map (fun x => buffer (snd x)) (map_to_list m) = map fst (map_to_list m)) as ->.
  { apply map_ext_in. intros [b i] Hbi. apply list_elem_of_In, elem_of_map_to_list in Hbi. exact (fr_key m canon HF b i Hbi). }
  apply NoDup_fst_map_to_list.
Qed.

End Placing.

(** ** Several heaps *)

Lemma placing_nothing (A : Z) (m : gmap Z BufferInterval) (canon : gmap Z Z) (h : t) :
  alignment_ h = A -> buffer_intervals_ h = m -> interval_tree_ h = Null -> heap_size (result_ h) = 0 ->
  (forall b i, m !! b = Some i -> chunk_map (result_ h) !! b = None) ->
  placing A m canon (chunk_map (result_ h)) ∅ h /\ forall limit, within m canon limit (result_ h).
Proof.
  intros H1 H2 H3 H4 Hn. split.
  - split; [done|done|by rewrite H3| | |lia|done].
    + rewrite H3. intros y. split; [set_solver|]. intros (b & i & c & Hi & Hc & _). by rewrite (Hn b i Hi) in Hc.
    + split.
      * intros b i Hi. rewrite (Hn b i Hi). split; [by intros [? ?]|]. intros (k & _ & ?). set_solver.
      * intros b i c Hi Hc. by rewrite (Hn b i Hi) in Hc.
      * intros b b' i i' c c' Hi _ Hc. by rewrite (Hn b i Hi) in Hc.
      * intros b b' i i' c c' Hi _ Hc. by rewrite (Hn b i Hi) in Hc.
  - intros limit. exists 0. intros b i c Hi Hc. by rewrite (Hn b i Hi) in Hc.
Qed.

Section Heaps.
Context (visit_set : gset Z -> list Z) (Hv : visits_set visit_set).
Context (A : Z) (m : gmap Z BufferInterval) (canon : gmap Z Z) (HA : 0 < A) (HF : forest m canon).

Definition disjoint_sets (Rs : list (gset Z)) : Prop :=
  forall j k R R', Rs !! j = Some R -> Rs !! k = Some R' -> j <> k -> R ## R'.

Lemma fill_heaps_spec (fuel : nat) (limit : Z) (l : list BufferInterval) (h : t) (multi : Result) :
  (length l < fuel)%nat -> alignment_ h = A -> buffer_intervals_ h = m -> interval_tree_ h = Null -> heap_size (result_ h) = 0 ->
  (forall b i, m !! b = Some i -> chunk_map (result_ h) !! b = None) ->
  from_map m l -> 0 <= total_size multi -> total_size multi + budget A l <= i64_max ->
  exists rs Rs, fill_heaps visit_set fuel limit h l multi =
      Ok (mkResult (heap_results multi ++ rs) (total_size multi + foldr (fun r n => heap_size r + n) 0 rs) (fragmentation_size multi)) /\
    Forall2 (fun R r => placed A m canon R r /\ within m canon limit r /\ 0 <= heap_size r) Rs rs /\ rs <> [] /\ ⋃ Rs = allocated l /\ disjoint_sets Rs /\
    (forall j r b, rs !! j = Some r -> m !! b = None ->
       chunk_map r !! b = match j with O => chunk_map (result_ h) !! b | S _ => None end).
Proof.
  revert l h multi. induction fuel as [|fuel IH]; intros l h multi Hf H1 H2 H3 H4 Hn Hl Ht Hb; [lia|]. cbn [fill_heaps].
  destruct (placing_nothing A m canon h H1 H2 H3 H4 Hn) as [Hp Hw].
  destruct (fill_heap_spec visit_set Hv A m canon (chunk_map (result_ h)) HA HF limit l ∅ h Hp (Hw limit) Hl)
    as (h' & rest & Q & -> & Hp' & Hw' & Hr & Hsub & HQ & Hd & Hbud & Hlen & Hless); [set_solver|lia|].
  rewrite (right_id_L ∅ (∪)) in Hp'. cbn [res_bind]. pose proof (pc_size _ _ _ _ _ _ Hp') as Hs0.
  pose proof (budget_nonneg A m canon HA HF rest Hr) as Hb0.
  rewrite wrap_i64_id by (unfold in_i64, i64_max in *; lia). destruct rest as [|y rest].
  - exists [result_ h'], [Q]. cbn [foldr union_list]. split; [by rewrite Z.add_0_r|]. split; [constructor; [|done]; by destruct Hp'|].
    split; [done|]. split; [set_solver|]. split; [intros [|j] [|k] R R'; cbn; try done; by intros ? [=]|].
    intros [|j] r b; cbn; [|done]. intros [= <-]. apply (pc_other _ _ _ _ _ _ Hp').
  - set (h2 := with_result h' (mkHeapResult ∅ 0) Null).
    destruct (IH (y :: rest) h2 (mkResult (heap_results multi ++ [result_ h']) (total_size multi + heap_size (result_ h')) (fragmentation_size multi)))
      as (rs & Rs & -> & H5 & _ & H6 & H7 & H8); [|by destruct Hp'|by destruct Hp'|done|done|done|done|cbn; lia|cbn [total_size]; lia|].
    { destruct l; [by apply list_nil_subseteq in Hsub|]. specialize (Hless H4 ltac:(done)). lia. }
    exists (result_ h' :: rs), (Q :: Rs). cbn [heap_results total_size fragmentation_size foldr]. split_and!.
    + by rewrite <- app_assoc, Z.add_assoc.
    + constructor; [|done]. by destruct Hp'.
    + done.
    + change (Q ∪ ⋃ Rs = allocated l). by rewrite H6.
    + rewrite <- H6 in Hd. intros [|j] [|k] R R' HR HR' Hne; cbn in HR, HR'; [done| | |by eapply (H7 j k); auto].
      * injection HR as <-. intros b Hb1 Hb2. apply (Hd b Hb1). apply elem_of_union_list. exists R'.
        split; [by eapply list_elem_of_lookup_2|done].
      * injection HR' as <-. intros b Hb1 Hb2. apply (Hd b Hb2). apply elem_of_union_list. exists R.
        split; [by eapply list_elem_of_lookup_2|done].
    + intros [|j] r b; cbn; [intros [= <-]; apply (pc_other _ _ _ _ _ _ Hp')|]. intros Hr' Hb'. rewrite (H8 j r b Hr' Hb'). by destruct j.
Qed.

End Heaps.

(** ** The candidate *)

(** C15: best fit.  When the heap has room, that is, its chunks are well formed and offsets, alignment and sizes
    stay within int64, [FindChunkCandidate] computes gaps of at least the size of the buffer,
    at aligned offsets and clear of the chunks that are in use while the buffer or a colocation lives, which hold
    every place where [max_size] bytes (the largest size of the buffer and its colocations) fit clear of these
    chunks.  It returns a chunk of [max_size] bytes: at the preferred offset when a gap has room for it from there,
    and otherwise at the start of the smallest gap, the first of them when several have that size.  The buffer is
    clear of the chunks in use there; the whole chunk is at the preferred offset, and when no colocation is larger
    than the buffer. *)
Theorem best_fit_candidate (visit_set : gset Z -> list Z) (h : t) (x : BufferInterval) (p H : Z) (cs : list BufferInterval) :
  let A := alignment_ h in
  let m := max_size x cs in
  let used := in_use (interval_tree_ h) (x :: cs) in
  0 < bsize x -> room A m H (interval_tree_ h) -> p + m <= i64_max -> colocated visit_set h x = Ok cs ->
  exists fc o, FindChunkCandidate visit_set h x p = Ok (mkChunk o m) /\ gaps A (bsize x) m used fc /\
    (if bool_decide (0 <= p /\ Exists (fun f => fst f <= p /\ p + m <= snd f) fc)
     then o = p /\ Forall (clear_of o m) used else best_gap fc o /\ (A | o)) /\
    Forall (clear_of o (bsize x)) used /\ (Forall (fun i => bsize i <= bsize x) cs -> Forall (clear_of o m) used).
Proof.
  intros A m used Hs Hroom Hp Hcs. destruct (find_candidate visit_set h x p H cs Hs Hroom Hp Hcs) as (fc & o & Hf & Hg & Hd).
  fold A m used in Hf, Hg, Hd. exists fc, o. split; [done|]. split; [done|]. destruct Hg as [[_ He] Hsound _ _]. fold A in He.
  rewrite list.Forall_forall in He, Hsound. assert (bsize x <= m) as Hsm by apply foldl_max_ge.
  assert (forall f n, f ∈ fc -> fst f <= o -> o + n <= snd f -> Forall (clear_of o n) used) as Hclear.
  { intros f n Hf' H1 H2. eapply list.Forall_impl; [exact (Hsound f Hf')|]. intros u Hu. unfold clear_of. cbn beta in Hu. lia. }
  case_bool_decide as Hdec.
  - subst o. destruct Hdec as [_ (f & Hin & H1 & H2)%list.Exists_exists]. split_and!; [done|by apply (Hclear f)|apply (Hclear f); [done|done|lia]|].
    intros _. by apply (Hclear f).
  - destruct Hd as (f & Hin & -> & Hmin). destruct (He f Hin) as (_ & H1 & _ & H2). split; [split; [by exists f|done]|].
    split; [by apply (Hclear f)|]. intros Hle. assert (m = bsize x) as -> by (by apply foldl_max_small). by apply (Hclear f).
Qed.

(** Buffer 1 has 6 bytes and its colocation 2 has 8. *)
Definition sample_heap : t :=
  mk 4 kSpatial {[1 := mkInterval 1 6 2 5 [2] true; 2 := mkInterval 2 8 6 6 [] false]} (mkHeapResult ∅ 20)
    (Add (Add (Add Null 0 3 (mkChunk 0 6)) 1 9 (mkChunk 16 4)) 7 8 (mkChunk 8 4)) 10.

Lemma best_fit_candidate_witness :
  exists fc o, FindChunkCandidate elements sample_heap (mkInterval 1 6 2 5 [2] true) (-1) = Ok (mkChunk o 8) /\
    gaps 4 6 8 [mkChunk 0 6; mkChunk 16 4; mkChunk 16 4] fc /\ best_gap fc o.
Proof.
  destruct (best_fit_candidate elements sample_heap (mkInterval 1 6 2 5 [2] true) (-1) 20 [mkInterval 2 8 6 6 [] false])
    as (fc & o & H1 & H2 & H3 & _).
  - done.
  - split; [done|done| | |done].
    + cbn. repeat (first [split | constructor | (intros; cbn in *; lia) | done]).
    + cbn. repeat (constructor; [cbn; unfold uend; cbn; lia|]). constructor.
  - done.
  - vm_compute. reflexivity.
  - exists fc, o. split; [exact H1|]. split; [exact H2|]. destruct (bool_decide _) eqn:E; [|by destruct H3].
    apply bool_decide_eq_true in E. destruct E as [E _]. lia.
Defined.
