(* ===== verification/HeapTheorems.v ===== *)
(** Runs of XLA's heap simulator.

    A run is the list of calls that the simulator gets: allocations, buffers that share
    the memory of others, and frees.  [collected] says what live ranges the heap has
    after them, and [evolves] how they change later; with them the placement of
    [BestFitTheorems.v] gives disjoint chunks to the buffers that live after the same
    calls.  The theorems are about [HeapSimulator::Finish], the constrained heap, the
    choice among heaps and the reported fragmentation. *)
From stdpp Require Import gmap.
From S2P Require Import Prelude Block IntervalTree BestFitHeap BestFitTheorems.
Import HeapSimulator BestFitHeap.BestFitHeap.
Local Open Scope res_scope.

(** ** Runs *)

Inductive call : Type :=
| CAlloc (b : Z)
| CShare (b shared : Z)
| CFree (b : Z).

#[global] Instance call_eq_dec : EqDecision call.
Proof. solve_decision. Defined.

Section Runs.
Context (size_fn : Z -> Z).

Definition perform (s : Simulator.t) (c : call) : res fault Simulator.t :=
  match c with
  | CAlloc b => Simulator.Alloc size_fn s b
  | CShare b shared => Ok (Simulator.ShareBuffer size_fn s b shared)
  | CFree b => Simulator.Free size_fn s b
  end.

Fixpoint run (s : Simulator.t) (cs : list call) : res fault Simulator.t :=
  match cs with
  | [] => Ok s
  | c :: cs' => let! s := perform s c in run s cs'
  end.

(** The buffers of a run, in the order of their allocation *)
Definition introduced (c : call) : list Z :=
  match c with CAlloc b => [b] | CShare b _ => [b] | CFree _ => [] end.

Definition buffers (cs : list call) : list Z := flat_map introduced cs.

(** Buffers are new when they are allocated or share another's memory, share that of a
    known buffer of their size, and are freed once. *)
Fixpoint well_formed (known live : gset Z) (cs : list call) : Prop :=
  match cs with
  | [] => True
  | CAlloc b :: cs' => (b ∉ known) /\ well_formed ({[b]} ∪ known) ({[b]} ∪ live) cs'
  | CShare b shared :: cs' =>
      (b ∉ known) /\ shared ∈ known /\ size_fn b = size_fn shared /\ well_formed ({[b]} ∪ known) ({[b]} ∪ live) cs'
  | CFree b :: cs' => b ∈ live /\ well_formed known (live ∖ {[b]}) cs'
  end.

(** The buffer whose memory a buffer shares, over all steps *)
Definition canon_step (m : gmap Z Z) (c : call) : gmap Z Z :=
  match c with
  | CAlloc b => <[b := b]> m
  | CShare b shared => <[b := default shared (m !! shared)]> m
  | CFree _ => m
  end.

Definition canon (cs : list call) : gmap Z Z := foldl canon_step ∅ cs.

(** A buffer lives after some calls. *)
Definition live_after (cs : list call) (b : Z) : Prop := b ∈ buffers cs /\ CFree b ∉ cs.

Lemma buffers_snoc (cs : list call) (c : call) : buffers (cs ++ [c]) = buffers cs ++ introduced c.
Proof. unfold buffers. rewrite flat_map_app. cbn. by rewrite app_nil_r. Qed.

Lemma canon_snoc (cs : list call) (c : call) : canon (cs ++ [c]) = canon_step (canon cs) c.
Proof. unfold canon. by rewrite foldl_app. Qed.

(** ** The live ranges of a run *)

Record collected (A : Z) (cs : list call) (s : Simulator.t) : Prop := {
  cl_align : alignment_ (Simulator.algorithm_ s) = A;
  cl_tree : interval_tree_ (Simulator.algorithm_ s) = BufferIntervalTree.Null;
  cl_heap : heap_size (result_ (Simulator.algorithm_ s)) = 0;
  cl_forest : forest (buffer_intervals_ (Simulator.algorithm_ s)) (canon cs);
  cl_dom : forall b, is_Some (buffer_intervals_ (Simulator.algorithm_ s) !! b) <-> b ∈ buffers cs /\ size_fn b <> 0;
  cl_each : forall b i, buffer_intervals_ (Simulator.algorithm_ s) !! b = Some i ->
    bsize i = size_fn b /\ 0 <= start i < current_time_ (Simulator.algorithm_ s) /\
    ((end_ i = -1 /\ CFree b ∉ cs) \/ (start i < end_ i < current_time_ (Simulator.algorithm_ s) /\ CFree b ∈ cs));
  cl_empty : forall b, chunk_map (result_ (Simulator.algorithm_ s)) !! b =
    if decide (b ∈ buffers cs /\ size_fn b = 0) then Some (mkChunk 0 0) else None;
  cl_time : 0 <= current_time_ (Simulator.algorithm_ s) <= Z.of_nat (length cs);
  cl_alloc : Simulator.allocated_buffers_ s ⊆ list_to_set (buffers cs);
  cl_freed : Simulator.freed_buffers_ s = ∅;
  cl_canon : forall b, is_Some (canon cs !! b) <-> b ∈ buffers cs;
  cl_sizes : forall b r, canon cs !! b = Some r -> size_fn b = size_fn r;
  cl_frees : forall b, CFree b ∈ cs -> b ∈ buffers cs
}.

Lemma below_mono (m m' : gmap Z BufferInterval) (a b : Z) :
  (forall a i, m !! a = Some i -> exists i', m' !! a = Some i' /\ colocations i ⊆ colocations i') -> below m a b -> below m' a b.
Proof.
  intros H Hb. induction Hb as [a b i Hi Hin|a b c i Hi Hin Hb IH]; destruct (H a i Hi) as (i' & Hi' & Hs).
  - eapply below_one; [done|by apply Hs].
  - eapply below_more; [done|by apply Hs|done].
Qed.

Lemma forest_alloc (m : gmap Z BufferInterval) (cn : gmap Z Z) (b sz time : Z) :
  forest m cn -> m !! b = None -> 0 < sz -> forest (<[b := mkInterval b sz time (-1) [] true]> m) (<[b := b]> cn).
Proof.
  intros [H1 H2 H3 H4 H5 H6 H7] Hb Hs. set (m' := <[b := _]> m).
  assert (forall a i, m' !! a = Some i -> (a = b /\ i = mkInterval b sz time (-1) [] true) \/ (a <> b /\ m !! a = Some i)) as Hm.
  { intros a i. unfold m'. destruct (decide (a = b)) as [->|Hn]; [rewrite lookup_insert_eq; intros [= <-]; by left|].
    rewrite lookup_insert_ne by done. by right. }
  assert (forall a i c, m !! a = Some i -> c ∈ colocations i -> c <> b) as Hcb.
  { intros a i c Ha Hc ->. destruct (H3 a i b Ha Hc). congruence. }
  split.
  - intros a i [(-> & ->)|(_ & Ha)]%Hm; [done|by apply H1].
  - intros a i [(-> & ->)|(_ & Ha)]%Hm; [done|by eapply H2].
  - intros a i c [(-> & ->)|(_ & Ha)]%Hm Hc; [set_solver|]. unfold m'. rewrite lookup_insert_ne; [by eapply H3|].
    intros ->. by eapply Hcb.
  - intros a i c [(-> & ->)|(Hn & Ha)]%Hm Hc; [set_solver|]. rewrite !lookup_insert_ne; [by eapply H4|done|].
    intros ->. by eapply Hcb.
  - intros a i c j [(-> & ->)|(Hn & Ha)]%Hm Hc Hj; [set_solver|]. unfold m' in Hj. rewrite lookup_insert_ne in Hj; [by eapply H5|].
    intros ->. by eapply Hcb.
  - intros a i [(-> & ->)|(Hn & Ha)]%Hm Hal; [by rewrite lookup_insert_eq|]. rewrite lookup_insert_ne by done. by eapply H6.
  - intros a i [(-> & ->)|(Hn & Ha)]%Hm Hal; [done|]. destruct (H7 a i Ha Hal) as (r & j & G1 & G2 & G3 & G4). exists r, j.
    rewrite lookup_insert_ne by done. unfold m'. rewrite lookup_insert_ne by congruence. split_and!; [done..|].
    eapply below_mono; [|done]. intros a' i' Ha'. exists i'. rewrite lookup_insert_ne by congruence. done.
Qed.

Lemma forest_share (m : gmap Z BufferInterval) (cn : gmap Z Z) (b shared k sz time : Z) (i : BufferInterval) :
  forest m cn -> m !! b = None -> m !! shared = Some i -> cn !! shared = Some k -> bsize i = sz ->
  forest (<[b := mkInterval b sz time (-1) [] false]> (<[shared := add_colocation i b]> m)) (<[b := k]> cn).
Proof.
  intros [H1 H2 H3 H4 H5 H6 H7] Hb Hsh Hk Hsz. set (new := mkInterval b sz time (-1) [] false). set (m' := <[b := new]> _).
  assert (b <> shared) as Hbs by congruence.
  assert (forall a j, m' !! a = Some j -> (a = b /\ j = new) \/
    (a <> b /\ exists j0, m !! a = Some j0 /\ (j = j0 \/ (a = shared /\ j = add_colocation j0 b)))) as Hm.
  { intros a j. unfold m'. destruct (decide (a = b)) as [->|Hn]; [rewrite lookup_insert_eq; intros [= <-]; by left|].
    rewrite lookup_insert_ne by done. right. split; [done|]. destruct (decide (a = shared)) as [->|Hs].
    - rewrite lookup_insert_eq in *. exists i. split; [done|]. right. split; [done|congruence].
    - rewrite lookup_insert_ne in * by done. exists j. by split; [|left]. }
  assert (forall a j, m !! a = Some j -> exists j', m' !! a = Some j' /\ colocations j ⊆ colocations j' /\
    need_allocation j' = need_allocation j) as Hup.
  { intros a j Ha. unfold m'. rewrite lookup_insert_ne by congruence. destruct (decide (a = shared)) as [->|Hs].
    - rewrite lookup_insert_eq. eexists. split; [done|]. rewrite Hsh in Ha. injection Ha as ->. cbn. set_solver.
    - rewrite lookup_insert_ne by done. exists j. done. }
  assert (forall a j c, m !! a = Some j -> c ∈ colocations j -> c <> b) as Hcb.
  { intros a j c Ha Hc ->. destruct (H3 a j b Ha Hc). congruence. }
  assert (m' !! b = Some new) as Hnew by (unfold m'; by rewrite lookup_insert_eq).
  assert (forall a j c, m' !! a = Some j -> c ∈ colocations j -> (c = b /\ a = shared) \/
    (c <> b /\ a <> b /\ exists j0, m !! a = Some j0 /\ c ∈ colocations j0 /\ bsize j = bsize j0)) as Hedge.
  { intros a j c [(-> & ->)|(Hn & j0 & Hj0 & [->|(-> & ->)])]%Hm Hc; [unfold new in Hc; cbn in Hc; set_solver| |].
    - right. split; [by eapply Hcb|]. split; [done|]. by exists j0.
    - cbn in Hc. apply elem_of_app in Hc as [Hc|Hc]; [|left; set_solver]. right. split; [by eapply Hcb|]. split; [done|]. by exists j0. }
  split.
  - intros a j [(-> & ->)|(_ & j0 & Hj0 & [->|(_ & ->)])]%Hm; [done|by apply H1|cbn; by apply H1].
  - intros a j [(-> & ->)|(_ & j0 & Hj0 & [->|(_ & ->)])]%Hm; [|by eapply H2|cbn; by eapply H2].
    unfold new. cbn. rewrite <- Hsz. by eapply H2.
  - intros a j c Ha Hc. destruct (Hedge a j c Ha Hc) as [(-> & _)|(Hn & _ & j0 & Hj0 & Hc0 & _)]; [by exists new|].
    destruct (H3 a j0 c Hj0 Hc0) as [j' Hj']. destruct (Hup c j' Hj') as (j2 & -> & _). by eexists.
  - intros a j c Ha Hc. destruct (Hedge a j c Ha Hc) as [(-> & ->)|(Hn & Hn' & j0 & Hj0 & Hc0 & _)].
    + by rewrite lookup_insert_eq, lookup_insert_ne.
    + rewrite !lookup_insert_ne by done. by eapply H4.
  - intros a j c j' Ha Hc Hj'. destruct (Hedge a j c Ha Hc) as [(-> & ->)|(Hn & Hn' & j0 & Hj0 & Hc0 & Hz)].
    + rewrite Hnew in Hj'. injection Hj' as <-. split; [done|]. cbn. rewrite <- Hsz.
      apply Hm in Ha as [(? & _)|(_ & j0 & Hj0 & [->|(_ & ->)])]; [congruence| |]; cbn; congruence.
    + apply Hm in Hj' as [(? & _)|(_ & j1 & Hj1 & Hcase)]; [congruence|]. rewrite Hz.
      destruct (H5 a j0 c j1 Hj0 Hc0 Hj1) as [? ?]. by destruct Hcase as [->|(_ & ->)].
  - intros a j [(-> & ->)|(Hn & j0 & Hj0 & Hcase)]%Hm Hal; [done|]. rewrite lookup_insert_ne by done.
    apply (H6 a j0 Hj0). by destruct Hcase as [->|(_ & ->)].
  - assert (forall a c, below m a c -> below m' a c) as Hbel.
    { intros a c. apply below_mono. intros a' j Ha'. destruct (Hup a' j Ha') as (j' & ? & ? & _). by exists j'. }
    intros a j Ha Hal. apply Hm in Ha as [(-> & ->)|(Hn & j0 & Hj0 & Hcase)].
    + destruct (Hup shared i Hsh) as (i' & Hi' & _ & Hn'). rewrite lookup_insert_eq.
      assert (below m' shared b) as Hsb.
      { eapply (below_one m' shared b (add_colocation i b)); [|cbn; set_solver].
        unfold m'. rewrite lookup_insert_ne by done. by rewrite lookup_insert_eq. }
      destruct (need_allocation i) eqn:E.
      * exists shared, i'. split_and!; [|done|done|done]. rewrite (H6 shared i Hsh E) in Hk. congruence.
      * destruct (H7 shared i Hsh E) as (r & jr & G1 & G2 & G3 & G4). destruct (Hup r jr G2) as (j' & G5 & _ & G6).
        exists r, j'. split_and!; [congruence|done|by rewrite G6|]. eapply below_snoc; [by apply Hbel| |].
        -- unfold m'. rewrite lookup_insert_ne by done. by rewrite lookup_insert_eq.
        -- cbn. set_solver.
    + assert (need_allocation j0 = false) as Hal0 by by destruct Hcase as [->|(_ & ->)].
      destruct (H7 a j0 Hj0 Hal0) as (r & jr & G1 & G2 & G3 & G4). destruct (Hup r jr G2) as (j' & G5 & _ & G6).
      exists r, j'. rewrite lookup_insert_ne by done. split_and!; [done|done|by rewrite G6|by apply Hbel].
Qed.

Lemma forest_free (m : gmap Z BufferInterval) (cn : gmap Z Z) (b e : Z) (i : BufferInterval) :
  forest m cn -> m !! b = Some i -> forest (<[b := set_end i e]> m) cn.
Proof.
  intros [H1 H2 H3 H4 H5 H6 H7] Hb. set (m' := <[b := _]> m).
  assert (forall a j, m' !! a = Some j -> exists j0, m !! a = Some j0 /\ (j = j0 \/ j = set_end j0 e)) as Hm.
  { intros a j. unfold m'. destruct (decide (a = b)) as [->|Hn].
    - rewrite lookup_insert_eq. intros [= <-]. exists i. auto.
    - rewrite lookup_insert_ne by done. intros Hj. exists j. auto. }
  assert (forall a j, m !! a = Some j -> exists j', m' !! a = Some j' /\ (j' = j \/ j' = set_end j e)) as Hup.
  { intros a j Ha. unfold m'. destruct (decide (a = b)) as [->|Hn].
    - rewrite lookup_insert_eq. rewrite Hb in Ha. injection Ha as ->. eauto.
    - rewrite lookup_insert_ne by done. eauto. }
  split.
  - intros a j (j0 & Hj & [->| ->])%Hm; cbn; by apply H1.
  - intros a j (j0 & Hj & [->| ->])%Hm; cbn; by eapply H2.
  - intros a j c (j0 & Hj & Hcase)%Hm Hc. assert (c ∈ colocations j0) as Hc0 by by destruct Hcase as [->| ->].
    destruct (H3 a j0 c Hj Hc0) as [j1 Hj1]. destruct (Hup c j1 Hj1) as (j2 & -> & _). by eexists.
  - intros a j c (j0 & Hj & Hcase)%Hm Hc. apply (H4 a j0 c Hj). by destruct Hcase as [->| ->].
  - intros a j c k (j0 & Hj & Hcase)%Hm Hc (k0 & Hk & Hcase')%Hm. assert (c ∈ colocations j0) as Hc0 by by destruct Hcase as [->| ->].
    destruct (H5 a j0 c k0 Hj Hc0 Hk). by destruct Hcase as [->| ->], Hcase' as [->| ->].
  - intros a j (j0 & Hj & Hcase)%Hm Hal. apply (H6 a j0 Hj). by destruct Hcase as [->| ->].
  - intros a j (j0 & Hj & Hcase)%Hm Hal. destruct (H7 a j0 Hj) as (r & k & G1 & G2 & G3 & G4); [by destruct Hcase as [->| ->]|].
    destruct (Hup r k G2) as (k' & G5 & Hcase'). exists r, k'. split_and!; [done|done|by destruct Hcase' as [->| ->]|].
    eapply below_mono; [|done]. intros a' i' Ha'. destruct (Hup a' i' Ha') as (k2 & ? & Hcase2). exists k2. split; [done|].
    by destruct Hcase2 as [->| ->].
Qed.

Lemma forest_canon (m : gmap Z BufferInterval) (cn : gmap Z Z) (b k : Z) :
  forest m cn -> m !! b = None -> forest m (<[b := k]> cn).
Proof.
  intros [H1 H2 H3 H4 H5 H6 H7] Hb. split; [done..| |done| |].
  - intros a i c Ha Hc. destruct (H3 a i c Ha Hc). rewrite !lookup_insert_ne by congruence. by eapply H4.
  - intros a i Ha Hal. rewrite lookup_insert_ne by congruence. by eapply H6.
  - intros a i Ha Hal. rewrite lookup_insert_ne by congruence. by eapply H7.
Qed.

(** Live ranges keep their start, and an end once it is set; a new end is not in the past. *)
Record evolves (h h' : t) : Prop := {
  ev_time : current_time_ h <= current_time_ h';
  ev_each : forall b i, buffer_intervals_ h !! b = Some i -> exists i', buffer_intervals_ h' !! b = Some i' /\ start i' = start i /\
    (end_ i' = end_ i \/ (end_ i = -1 /\ current_time_ h <= end_ i'))
}.

Lemma evolves_refl (h : t) : evolves h h.
Proof. split; [done|]. intros b i Hi. exists i. auto. Qed.

Lemma evolves_trans (h1 h2 h3 : t) : evolves h1 h2 -> evolves h2 h3 -> evolves h1 h3.
Proof.
  intros [Ht1 H1] [Ht2 H2]. split; [lia|]. intros b i Hi. destruct (H1 b i Hi) as (i' & Hi' & Hs & He).
  destruct (H2 b i' Hi') as (i2 & Hi2 & Hs2 & He2). exists i2. split; [done|]. split; [congruence|].
  destruct He as [He|[He1 He3]], He2 as [He2|[He4 He5]]; [left; congruence|right; split; [congruence|lia]| |].
  - right. split; [done|lia].
  - right. split; [done|lia].
Qed.

Section Calls.
Context (A : Z) (cs : list call) (s : Simulator.t) (HC : collected A cs s).

(** A buffer without memory *)
Lemma collected_zero (c : call) (b k : Z) (s' : Simulator.t) :
  introduced c = [b] -> canon_step (canon cs) c = <[b := k]> (canon cs) -> b ∉ buffers cs -> size_fn b = 0 -> size_fn k = 0 ->
  Simulator.algorithm_ s' = with_result (Simulator.algorithm_ s) (AddToChunkMap (result_ (Simulator.algorithm_ s)) b (mkChunk 0 0))
    (interval_tree_ (Simulator.algorithm_ s)) ->
  Simulator.allocated_buffers_ s' ⊆ {[b]} ∪ Simulator.allocated_buffers_ s -> Simulator.freed_buffers_ s' = Simulator.freed_buffers_ s ->
  collected A (cs ++ [c]) s' /\ evolves (Simulator.algorithm_ s) (Simulator.algorithm_ s').
Proof using HC.
  intros Hi Hcn Hb Hz Hzk Hs' Hal Hfr. destruct HC as [H1 H2 H3 H4 H5 H6 H7 H8 H9 H10 H11 H12 H13].
  assert (forall a, CFree a ∈ cs ++ [c] <-> CFree a ∈ cs) as Hfree.
  { intros a. rewrite elem_of_app. split; [intros [?|Hin%list_elem_of_singleton]; [done|by subst c]|auto]. }
  assert (forall a, a ∈ buffers (cs ++ [c]) <-> a ∈ buffers cs \/ a = b) as Hbuf.
  { intros a. rewrite buffers_snoc, Hi. set_solver. }
  split; [|rewrite Hs'; split; cbn; [done|]; intros a i Ha; exists i; auto]. rewrite <- canon_snoc in Hcn. split; rewrite ?Hs', ?Hcn; cbn; try done.
  - apply forest_canon; [done|]. apply eq_None_not_Some. intros [Hin _]%H5. done.
  - intros a. rewrite H5, Hbuf. split; [tauto|]. by intros [[?| ->] ?].
  - intros a i Ha. rewrite Hfree. by apply H6.
  - intros a. rewrite emplace_lookup, H7. destruct (decide (a ∈ buffers cs /\ size_fn a = 0)) as [Ha|Ha].
    + rewrite decide_True; [done|]. rewrite Hbuf. tauto.
    + destruct (decide (a = b)) as [->|Hn]; [rewrite decide_True; [done|]; rewrite Hbuf; tauto|].
      rewrite decide_False; [done|]. rewrite Hbuf. tauto.
  - rewrite length_app. cbn. lia.
  - rewrite buffers_snoc, Hi. set_solver.
  - congruence.
  - intros a. rewrite Hbuf. destruct (decide (a = b)) as [->|Hn]; [rewrite lookup_insert_eq; split; [auto|by eexists]|].
    rewrite lookup_insert_ne by done. rewrite H11. tauto.
  - intros a r. destruct (decide (a = b)) as [->|Hn]; [rewrite lookup_insert_eq; intros [= <-]; congruence|].
    rewrite lookup_insert_ne by done. apply H12.
  - intros a. rewrite Hfree, Hbuf. intros Ha. left. by apply H13.
Qed.

(** A buffer with memory, of its own or shared *)
Lemma collected_new (c : call) (b k : Z) (na : bool) (m' : gmap Z BufferInterval) (s' : Simulator.t) :
  introduced c = [b] -> canon_step (canon cs) c = <[b := k]> (canon cs) -> b ∉ buffers cs -> 0 < size_fn b -> size_fn b = size_fn k ->
  Z.of_nat (length (cs ++ [c])) <= i64_max -> forest m' (<[b := k]> (canon cs)) ->
  m' !! b = Some (mkInterval b (size_fn b) (current_time_ (Simulator.algorithm_ s)) (-1) [] na) ->
  (forall a, a <> b -> (is_Some (m' !! a) -> is_Some (buffer_intervals_ (Simulator.algorithm_ s) !! a)) /\
     forall i, buffer_intervals_ (Simulator.algorithm_ s) !! a = Some i ->
       exists i', m' !! a = Some i' /\ bsize i' = bsize i /\ start i' = start i /\ end_ i' = end_ i) ->
  Simulator.algorithm_ s' = with_intervals (Simulator.algorithm_ s) m' (wrap_i64 (current_time_ (Simulator.algorithm_ s) + 1)) ->
  Simulator.allocated_buffers_ s' ⊆ {[b]} ∪ Simulator.allocated_buffers_ s -> Simulator.freed_buffers_ s' = Simulator.freed_buffers_ s ->
  collected A (cs ++ [c]) s' /\ evolves (Simulator.algorithm_ s) (Simulator.algorithm_ s').
Proof using HC.
  intros Hi Hcn Hb Hpos Hk Hlen HF Hmb Hother Hs' Hal Hfr. destruct HC as [H1 H2 H3 H4 H5 H6 H7 H8 H9 H10 H11 H12 H13].
  rewrite length_app in Hlen. cbn in Hlen. rewrite wrap_i64_id in Hs' by (unfold in_i64, i64_max in *; lia).
  assert (forall a, CFree a ∈ cs ++ [c] <-> CFree a ∈ cs) as Hfree.
  { intros a. rewrite elem_of_app. split; [intros [?|Hin%list_elem_of_singleton]; [done|by subst c]|auto]. }
  assert (forall a, a ∈ buffers (cs ++ [c]) <-> a ∈ buffers cs \/ a = b) as Hbuf.
  { intros a. rewrite buffers_snoc, Hi. set_solver. }
  assert (buffer_intervals_ (Simulator.algorithm_ s) !! b = None) as Hnone.
  { apply eq_None_not_Some. intros [Hin _]%H5. done. }
  split.
  - rewrite <- canon_snoc in Hcn. split; rewrite ?Hs', ?Hcn; cbn; try done.
    + intros a. rewrite Hbuf. destruct (decide (a = b)) as [->|Hn]; [rewrite Hmb; split; [intros _; split; [auto|lia]|intros _; by eexists]|].
      destruct (Hother a Hn) as [Ho1 Ho2]. split.
      * intros [? ?]%Ho1%H5. auto.
      * intros [[?|?] ?]; [|done]. destruct (proj2 (H5 a)) as [i Ha]; [done|]. destruct (Ho2 i Ha) as (i' & -> & _). by eexists.
    + intros a i Ha. rewrite Hfree. destruct (decide (a = b)) as [->|Hn].
      * rewrite Hmb in Ha. injection Ha as <-. cbn. split; [done|]. split; [lia|]. left. split; [done|]. intros Hin.
        by apply Hb, H13.
      * destruct (Hother a Hn) as [Ho1 Ho2]. destruct (Ho1 ltac:(by eexists)) as [j Hj]. destruct (Ho2 j Hj) as (i' & Hi' & E1 & E2 & E3).
        rewrite Ha in Hi'. injection Hi' as <-. destruct (H6 a j Hj) as (? & ? & ?). rewrite E1, E2, E3. split_and!; [done|lia|lia|].
        intuition lia.
    + intros a. rewrite H7. destruct (decide (a ∈ buffers cs /\ size_fn a = 0)) as [Ha|Ha].
      * rewrite decide_True; [done|]. rewrite Hbuf. tauto.
      * rewrite decide_False; [done|]. rewrite Hbuf. intros [[?| ->] ?]; [tauto|lia].
    + rewrite length_app. cbn. lia.
    + rewrite buffers_snoc, Hi. set_solver.
    + congruence.
    + intros a. rewrite Hbuf. destruct (decide (a = b)) as [->|Hn]; [rewrite lookup_insert_eq; split; [auto|by eexists]|].
      rewrite lookup_insert_ne by done. rewrite H11. tauto.
    + intros a r. destruct (decide (a = b)) as [->|Hn]; [rewrite lookup_insert_eq; intros [= <-]; congruence|].
      rewrite lookup_insert_ne by done. apply H12.
    + intros a. rewrite Hfree, Hbuf. intros Ha. left. by apply H13.
  - rewrite Hs'. split; cbn; [lia|]. intros a i Ha. destruct (Hother a ltac:(congruence)) as [_ Ho].
    destruct (Ho i Ha) as (i' & ? & ? & ? & ?). exists i'. auto.
Qed.

Context (Hsize : forall b, 0 <= size_fn b).

Definition valid (c : call) : Prop :=
  match c with
  | CAlloc b => b ∉ buffers cs
  | CShare b shared => (b ∉ buffers cs) /\ shared ∈ buffers cs /\ size_fn b = size_fn shared
  | CFree b => live_after cs b
  end.

Lemma not_collected (b : Z) : b ∉ buffers cs -> buffer_intervals_ (Simulator.algorithm_ s) !! b = None.
Proof using HC. intros Hb. apply eq_None_not_Some. intros [Hin _]%(cl_dom _ _ _ HC). done. Qed.

Lemma alloc_step (b : Z) :
  valid (CAlloc b) -> Z.of_nat (length (cs ++ [CAlloc b])) <= i64_max ->
  exists s', perform s (CAlloc b) = Ok s' /\ collected A (cs ++ [CAlloc b]) s' /\ evolves (Simulator.algorithm_ s) (Simulator.algorithm_ s').
Proof using HC Hsize.
  intros Hb Hlen. cbn [valid] in Hb. cbn [perform]. unfold Simulator.Alloc.
  rewrite bool_decide_eq_false_2 by (pose proof (cl_alloc _ _ _ HC); set_solver).
  rewrite bool_decide_eq_false_2 by (rewrite (cl_freed _ _ _ HC); set_solver). cbn [negb].
  eexists. split; [reflexivity|]. unfold Alloc. pose proof (not_collected b Hb) as Hnone. destruct (Z.eqb_spec (size_fn b) 0) as [Hz|Hz].
  - by eapply (collected_zero (CAlloc b) b b).
  - unfold emplace. rewrite Hnone. specialize (Hsize b).
    eapply (collected_new (CAlloc b) b b true); try done; [lia| |by rewrite lookup_insert_eq|].
    + apply forest_alloc; [apply (cl_forest _ _ _ HC)|done|lia].
    + intros a Hn. rewrite lookup_insert_ne by done. split; [done|]. intros i Hi. by exists i.
Qed.

Lemma share_step (b shared : Z) :
  valid (CShare b shared) -> Z.of_nat (length (cs ++ [CShare b shared])) <= i64_max ->
  exists s', perform s (CShare b shared) = Ok s' /\ collected A (cs ++ [CShare b shared]) s' /\
    evolves (Simulator.algorithm_ s) (Simulator.algorithm_ s').
Proof using HC Hsize.
  intros (Hb & Hsh & Hsz) Hlen. cbn [perform]. eexists. split; [reflexivity|].
  pose proof (not_collected b Hb) as Hnone. destruct (proj2 (cl_canon _ _ _ HC shared) Hsh) as [k Hk].
  pose proof (cl_sizes _ _ _ HC shared k Hk) as Hszk.
  assert (canon_step (canon cs) (CShare b shared) = <[b := k]> (canon cs)) as Hstep by (cbn; by rewrite Hk).
  unfold Simulator.ShareBuffer, ShareWith. destruct (Z.eqb_spec (size_fn shared) 0) as [Hz|Hz].
  - eapply (collected_zero (CShare b shared) b k); try done; [congruence|congruence|cbn; set_solver].
  - destruct (proj2 (cl_dom _ _ _ HC shared)) as [i Hi]; [done|]. rewrite Hi. cbn [default].
    unfold emplace. assert (b <> shared) as Hne by congruence. rewrite lookup_insert_ne, Hnone by done.
    pose proof (Hsize b). destruct (cl_each _ _ _ HC shared i Hi) as (Hbs & _).
    eapply (collected_new (CShare b shared) b k false); try done; [lia|congruence| |by rewrite lookup_insert_eq, Hsz| |cbn; set_solver].
    + rewrite <- Hbs. apply forest_share; [apply (cl_forest _ _ _ HC)|done..].
    + intros a Hn. rewrite lookup_insert_ne by done. destruct (decide (a = shared)) as [->|Hs].
      * rewrite lookup_insert_eq, Hi. split; [by eexists|]. intros j [= <-]. eexists. split; [reflexivity|done].
      * rewrite lookup_insert_ne by done. split; [done|]. intros j Hj. by exists j.
Qed.

Lemma free_step (b : Z) :
  valid (CFree b) -> Z.of_nat (length (cs ++ [CFree b])) <= i64_max ->
  exists s', perform s (CFree b) = Ok s' /\ collected A (cs ++ [CFree b]) s' /\ evolves (Simulator.algorithm_ s) (Simulator.algorithm_ s').
Proof using HC.
  intros [Hb Hlive] Hlen. cbn [perform]. unfold Simulator.Free, Free. rewrite length_app in Hlen. cbn in Hlen.
  assert (buffers (cs ++ [CFree b]) = buffers cs) as Hbuf by (rewrite buffers_snoc; apply app_nil_r).
  assert (canon (cs ++ [CFree b]) = canon cs) as Hcan by apply canon_snoc.
  assert (forall a, CFree a ∈ cs ++ [CFree b] <-> CFree a ∈ cs \/ a = b) as Hfree.
  { intros a. rewrite elem_of_app, list_elem_of_singleton. split; intros [?|?]; [auto|right; congruence|auto|right; congruence]. }
  pose proof HC as [H1 H2 H3 H4 H5 H6 H7 H8 H9 H10 H11 H12 H13]. destruct (Z.eqb_spec (size_fn b) 0) as [Hz|Hz]; cbn [res_bind].
  - eexists. split; [reflexivity|]. split; [|apply evolves_refl].
    split; cbn; rewrite ?Hbuf, ?Hcan; try done.
    + intros a i Ha. assert (a <> b) as Hn by (intros ->; destruct (proj1 (H5 b) ltac:(by eexists)); done).
      rewrite Hfree. destruct (H6 a i Ha) as (? & ? & ?). split; [done|]. split; [done|]. tauto.
    + rewrite length_app. cbn. lia.
    + intros a [Ha| ->]%Hfree; [by apply H13|done].
  - destruct (proj2 (H5 b)) as [i Hi]; [done|]. rewrite Hi. destruct (H6 b i Hi) as (Hbs & Hst & [[He _]|[_ ?]]); [|done].
    rewrite He. cbn [negb Z.eqb res_bind]. eexists. split; [reflexivity|].
    rewrite wrap_i64_id by (unfold in_i64, i64_max in *; lia). split.
    + split; cbn; rewrite ?Hbuf, ?Hcan; try done.
      * by apply forest_free.
      * intros a. destruct (decide (a = b)) as [->|Hn]; [rewrite lookup_insert_eq; split; [intros _; by split|intros _; by eexists]|].
        rewrite lookup_insert_ne by done. apply H5.
      * intros a j. rewrite Hfree. destruct (decide (a = b)) as [->|Hn].
        -- rewrite lookup_insert_eq. intros [= <-]. cbn. split_and!; [done|lia|lia|]. right. split; [lia|auto].
        -- rewrite lookup_insert_ne by done. intros Hj. destruct (H6 a j Hj) as (? & ? & ?). split_and!; [done|lia|lia|]. intuition lia.
      * rewrite length_app. cbn. lia.
      * intros a [Ha| ->]%Hfree; [by apply H13|done].
    + split; cbn; [lia|]. intros a j Hj. destruct (decide (a = b)) as [->|Hn].
      * rewrite lookup_insert_eq. eexists. split; [reflexivity|]. rewrite Hi in Hj. injection Hj as <-. cbn. split; [done|].
        right. split; [done|lia].
      * rewrite lookup_insert_ne by done. exists j. auto.
Qed.

Lemma call_step (c : call) :
  valid c -> Z.of_nat (length (cs ++ [c])) <= i64_max ->
  exists s', perform s c = Ok s' /\ collected A (cs ++ [c]) s' /\ evolves (Simulator.algorithm_ s) (Simulator.algorithm_ s').
Proof using HC Hsize. destruct c; [apply alloc_step|apply share_step|apply free_step]. Qed.

End Calls.

Lemma collected_new_run (A : Z) (ty : Type_) : collected A [] (Simulator.new A ty).
Proof.
  split; try done.
  - intros b. cbn. rewrite lookup_empty. split; [by intros [? ?]|]. intros [? _]. set_solver.
  - intros b. unfold canon. cbn. rewrite lookup_empty. split; [by intros [? ?]|]. set_solver.
  - set_solver.
Qed.

Lemma live_new (cs : list call) (c : call) (b a : Z) :
  introduced c = [b] -> (CFree b ∉ cs) -> live_after (cs ++ [c]) a <-> a = b \/ live_after cs a.
Proof.
  intros Hi Hb. unfold live_after. rewrite buffers_snoc, Hi. assert (CFree a <> c) by (intros <-; done). set_solver.
Qed.

Lemma live_free (cs : list call) (b a : Z) : live_after (cs ++ [CFree b]) a <-> live_after cs a /\ a <> b.
Proof.
  unfold live_after. rewrite buffers_snoc. cbn. rewrite app_nil_r, elem_of_app, list_elem_of_singleton.
  assert (CFree a = CFree b <-> a = b) as -> by (split; congruence). tauto.
Qed.

Record tracks (cs : list call) (known live : gset Z) : Prop := {
  tr_known : forall b, b ∈ known <-> b ∈ buffers cs;
  tr_live : forall b, b ∈ live <-> live_after cs b;
  tr_frees : forall b, CFree b ∈ cs -> b ∈ buffers cs
}.

Lemma well_formed_step (cs1 cs2 : list call) (c : call) (known live : gset Z) :
  tracks cs1 known live -> well_formed known live (c :: cs2) ->
  valid cs1 c /\ exists known' live', well_formed known' live' cs2 /\ tracks (cs1 ++ [c]) known' live'.
Proof.
  intros [Hk Hl Hfr] Hw.
  assert (valid cs1 c -> forall b, CFree b ∈ cs1 ++ [c] -> b ∈ buffers (cs1 ++ [c])) as Hfr'.
  { intros Hv b. rewrite buffers_snoc, !elem_of_app. intros [Hb|Hb]; [left; auto|]. apply list_elem_of_singleton in Hb. subst c.
    left. by destruct Hv. }
  destruct c as [b|b shared|b]; cbn [well_formed] in Hw.
  - destruct Hw as [Hb Hw]. rewrite Hk in Hb. split; [done|]. eexists _, _. split; [exact Hw|]. split; [| |by apply Hfr']; intros a.
    + rewrite buffers_snoc, elem_of_union, elem_of_singleton, Hk, elem_of_app. cbn [introduced]. rewrite list_elem_of_singleton. tauto.
    + rewrite (live_new cs1 _ b), elem_of_union, elem_of_singleton, Hl by auto. tauto.
  - destruct Hw as (Hb & Hsh & Hsz & Hw). rewrite Hk in Hb, Hsh. split; [done|]. eexists _, _. split; [exact Hw|].
    split; [| |by apply Hfr']; intros a.
    + rewrite buffers_snoc, elem_of_union, elem_of_singleton, Hk, elem_of_app. cbn [introduced]. rewrite list_elem_of_singleton. tauto.
    + rewrite (live_new cs1 _ b), elem_of_union, elem_of_singleton, Hl by auto. tauto.
  - destruct Hw as [Hb Hw]. rewrite Hl in Hb. split; [done|]. eexists _, _. split; [exact Hw|]. split; [| |by apply Hfr']; intros a.
    + rewrite buffers_snoc, app_nil_r. apply Hk.
    + rewrite live_free, elem_of_difference, elem_of_singleton, Hl. tauto.
Qed.

Lemma well_formed_valid (cs2 cs1 : list call) (known live : gset Z) :
  tracks cs1 known live -> well_formed known live cs2 -> forall k1 c k2, cs2 = k1 ++ c :: k2 -> valid (cs1 ++ k1) c.
Proof.
  revert cs1 known live. induction cs2 as [|c cs2 IH]; intros cs1 known live Ht Hw k1 d k2 Heq; [by destruct k1|].
  destruct (well_formed_step cs1 cs2 c known live Ht Hw) as (Hv & K & L & Hw' & Ht'). destruct k1 as [|e k1]; cbn in Heq; injection Heq as -> ->.
  - by rewrite app_nil_r.
  - rewrite cons_middle, app_assoc. by eapply IH.
Qed.

Lemma tracks_nil : tracks [] ∅ ∅.
Proof. split; unfold live_after; cbn; set_solver. Qed.

Lemma run_spec (A : Z) (cs2 cs1 : list call) (known live : gset Z) (s : Simulator.t) :
  (forall b, 0 <= size_fn b) -> collected A cs1 s -> well_formed known live cs2 ->
  tracks cs1 known live ->
  Z.of_nat (length (cs1 ++ cs2)) <= i64_max ->
  exists s', run s cs2 = Ok s' /\ collected A (cs1 ++ cs2) s' /\ evolves (Simulator.algorithm_ s) (Simulator.algorithm_ s') /\
    forall n, exists sn, collected A (cs1 ++ take n cs2) sn /\ evolves (Simulator.algorithm_ sn) (Simulator.algorithm_ s').
Proof.
  intros Hsize. revert cs1 known live s. induction cs2 as [|c cs2 IH]; intros cs1 known live s HC Hw Htr Hlen.
  { exists s. rewrite app_nil_r. split; [done|]. split; [done|]. split; [apply evolves_refl|].
    intros n. exists s. rewrite take_nil, app_nil_r. split; [done|apply evolves_refl]. }
  destruct (well_formed_step cs1 cs2 c known live Htr Hw) as (Hv & known' & live' & Hw' & Htr').
  rewrite cons_middle, app_assoc in Hlen |- *.
  destruct (call_step A cs1 s HC Hsize c Hv) as (s1 & Hs1 & HC1 & Hev).
  { rewrite length_app in Hlen. lia. }
  destruct (IH (cs1 ++ [c]) known' live' s1 HC1 Hw' Htr' Hlen) as (s' & Hr & HC' & Hev' & Hn). exists s'. cbn [run]. rewrite Hs1. cbn [res_bind].
  pose proof (evolves_trans _ _ _ Hev Hev') as Hall. split; [done|]. split; [done|]. split; [done|]. intros [|n].
  - exists s. by rewrite take_0, app_nil_r.
  - destruct (Hn n) as (sn & HCn & Hevn). exists sn. cbn [app take]. rewrite cons_middle, app_assoc. done.
Qed.

(** ** What the heap must hold *)

(** The memory that all buffers need when none is reused, each rounded up *)
Definition demand (A : Z) (bs : list Z) : Z := foldr (fun b n => size_fn b + A + n) 0 bs.

Lemma demand_submseteq (A : Z) (l k : list Z) : (forall b, 0 <= size_fn b) -> 0 < A -> l ⊆+ k -> demand A l <= demand A k.
Proof.
  intros Hs HA. induction 1 as [|b l k _ IH|b c l|b l k _ IH|l1 l2 l3 _ IH1 _ IH2]; cbn [demand foldr] in *; fold (demand A) in *;
    try specialize (Hs b); unfold demand in *; lia.
Qed.

Lemma budget_demand (A : Z) (m : gmap Z BufferInterval) (l : list BufferInterval) (cs : list call) :
  (forall b, 0 <= size_fn b) -> 0 < A -> from_map m l ->
  (forall b i, m !! b = Some i -> b ∈ buffers cs /\ bsize i = size_fn b) -> budget A l <= demand A (buffers cs).
Proof.
  intros Hs HA [Hl Hd] Hm. assert (budget A l = demand A (map buffer l)) as ->.
  { clear Hd. induction Hl as [|x l Hx Hl IH]; [done|]. cbn [map]. unfold budget, demand in *. cbn [foldr]. rewrite IH.
    destruct (Hm _ x Hx) as [_ ->]. done. }
  apply demand_submseteq; [done..|]. apply NoDup_submseteq; [done|]. intros b (x & <- & Hx)%list_elem_of_In%in_map_iff.
  rewrite list.Forall_forall in Hl. destruct (Hm (buffer x) x) as [? _]; [|done]. apply Hl. by apply list_elem_of_In.
Qed.

(** A heap assigns chunks to buffers of a run: of their size, aligned, inside of the
    heap, at one offset for buffers that share memory, and disjoint for others that
    live at the same time. *)
Record assigned (A : Z) (cs : list call) (r : HeapResult) : Prop := {
  as_chunk : forall b c, chunk_map r !! b = Some c ->
    b ∈ buffers cs /\ size c = size_fn b /\ 0 <= offset c /\ (A | offset c) /\ uend c <= heap_size r;
  as_shared : forall b b' c c', chunk_map r !! b = Some c -> chunk_map r !! b' = Some c' ->
    canon cs !! b = canon cs !! b' -> offset c = offset c';
  as_disjoint : forall n b b' c c', live_after (take n cs) b -> live_after (take n cs) b' ->
    chunk_map r !! b = Some c -> chunk_map r !! b' = Some c' -> canon cs !! b <> canon cs !! b' ->
    uend c <= offset c' \/ uend c' <= offset c
}.

(** Buffers that live at the same time have live ranges that meet. *)
Lemma live_meet (A : Z) (cs : list call) (s : Simulator.t) (n : nat) (b b' : Z) (i i' : BufferInterval) :
  collected A cs s ->
  (exists sn, collected A (take n cs) sn /\ evolves (Simulator.algorithm_ sn) (Simulator.algorithm_ s)) ->
  (forall b, b ∈ buffers cs -> CFree b ∈ cs) -> live_after (take n cs) b -> live_after (take n cs) b' ->
  buffer_intervals_ (Simulator.algorithm_ s) !! b = Some i -> buffer_intervals_ (Simulator.algorithm_ s) !! b' = Some i' -> meets i i'.
Proof.
  intros HC (sn & HCn & [Ht Hev]) Hfree Hl Hl' Hi Hi'. set (time := current_time_ (Simulator.algorithm_ sn)) in *.
  assert (forall a j, live_after (take n cs) a -> buffer_intervals_ (Simulator.algorithm_ s) !! a = Some j -> start j < time <= end_ j) as H.
  { intros a j [Ha1 Ha2] Hj. destruct (proj1 (cl_dom _ _ _ HC a) ltac:(by eexists)) as [Hin Hnz].
    destruct (proj2 (cl_dom _ _ _ HCn a)) as [jn Hjn]; [done|].
    destruct (cl_each _ _ _ HCn a jn Hjn) as (_ & Hst & [[He _]|[_ ?]]); [|done].
    destruct (Hev a jn Hjn) as (j' & Hj' & Hst' & Hend). rewrite Hj in Hj'. injection Hj' as <-.
    destruct (cl_each _ _ _ HC a j Hj) as (_ & ? & [[_ Hno]|[? _]]); [by destruct Hno; apply Hfree|]. fold time in Hst. lia. }
  pose proof (H b i Hl Hi). pose proof (H b' i' Hl' Hi'). unfold meets. lia.
Qed.

Lemma placed_assigned (A : Z) (cs : list call) (s : Simulator.t) (R : gset Z) (r : HeapResult) :
  0 < A -> (forall b, 0 <= size_fn b) -> collected A cs s ->
  (forall n, exists sn, collected A (take n cs) sn /\ evolves (Simulator.algorithm_ sn) (Simulator.algorithm_ s)) ->
  (forall b, b ∈ buffers cs -> CFree b ∈ cs) -> 0 <= heap_size r ->
  placed A (buffer_intervals_ (Simulator.algorithm_ s)) (canon cs) R r ->
  (forall b, buffer_intervals_ (Simulator.algorithm_ s) !! b = None -> chunk_map r !! b = None \/
     chunk_map r !! b = chunk_map (result_ (Simulator.algorithm_ s)) !! b) ->
  assigned A cs r.
Proof.
  intros HA Hsz HC Hn Hfree Hr0 Hp Hother. set (m := buffer_intervals_ (Simulator.algorithm_ s)) in *.
  assert (forall b c, chunk_map r !! b = Some c ->
    (exists i, m !! b = Some i) \/ (b ∈ buffers cs /\ size_fn b = 0 /\ c = mkChunk 0 0)) as Hcase.
  { intros b c Hc. destruct (m !! b) eqn:E; [by left; eexists|right]. destruct (Hother b E) as [?|Hb]; [congruence|].
    rewrite Hc, (cl_empty _ _ _ HC) in Hb. destruct (decide _) as [[? ?]|]; [|done]. split_and!; [done..|congruence]. }
  assert (forall b c, chunk_map r !! b = Some c ->
    b ∈ buffers cs /\ size c = size_fn b /\ 0 <= offset c /\ (A | offset c) /\ uend c <= heap_size r) as Hchunk.
  { intros b c Hc. destruct (Hcase b c Hc) as [[i Hi]|(Hb & Hz & ->)].
    - destruct (pl_chunk _ _ _ _ _ Hp b i c Hi Hc) as (? & ?). destruct (cl_each _ _ _ HC b i Hi) as (<- & _). split; [|done].
      by apply (cl_dom _ _ _ HC); eexists.
    - cbn. unfold uend. cbn. split_and!; [done..|apply Z.divide_0_r|done]. }
  split; [done| |].
  - intros b b' c c' Hc Hc' Heq.
    assert (forall b c, chunk_map r !! b = Some c -> exists k, canon cs !! b = Some k) as Hk.
    { intros a d Hd. apply (cl_canon _ _ _ HC). by destruct (Hchunk a d Hd). }
    destruct (Hk b c Hc) as [k Hkb]. pose proof Hkb as Hkb'. rewrite Heq in Hkb'.
    pose proof (cl_sizes _ _ _ HC b k Hkb) as E1. pose proof (cl_sizes _ _ _ HC b' k Hkb') as E2.
    destruct (Hcase b c Hc) as [[i Hi]|(Hb & Hz & ->)], (Hcase b' c' Hc') as [[i' Hi']|(Hb' & Hz' & ->)]; [| | |done].
    + by apply (pl_group _ _ _ _ _ Hp b b' i i').
    + destruct (proj1 (cl_dom _ _ _ HC b) ltac:(by eexists)). congruence.
    + destruct (proj1 (cl_dom _ _ _ HC b') ltac:(by eexists)). congruence.
  - intros n b b' c c' Hl Hl' Hc Hc' Hne. destruct (Hchunk b c Hc) as (_ & S1 & O1 & _), (Hchunk b' c' Hc') as (_ & S2 & O2 & _).
    destruct (Hcase b c Hc) as [[i Hi]|(Hb & Hz & ->)]; [|left; unfold uend; cbn; lia].
    destruct (Hcase b' c' Hc') as [[i' Hi']|(Hb' & Hz' & ->)]; [|right; unfold uend; cbn; lia].
    apply (pl_disjoint _ _ _ _ _ Hp b b' i i' c c' Hi Hi' Hc Hc' Hne). by eapply (live_meet A cs s n b b').
Qed.

(** ** Memory in use *)

Definition usage_step (n : Z) (c : call) : Z :=
  match c with CAlloc b => n + size_fn b | CShare _ shared => n + size_fn shared | CFree b => n - size_fn b end.

Definition usage (cs : list call) : Z := foldl usage_step 0 cs.

(** The most that is in use after any of the calls *)
Fixpoint peak_from (n : Z) (cs : list call) : Z :=
  match cs with [] => n | c :: cs' => Z.max n (peak_from (usage_step n c) cs') end.

Definition peak (cs : list call) : Z := peak_from 0 cs.

Definition total (bs : list Z) : Z := foldr (fun b n => size_fn b + n) 0 bs.

Definition lives (cs : list call) : list Z := filter (fun b => CFree b ∉ cs) (buffers cs).

Lemma total_sizes_app (l k : list Z) : total (l ++ k) = total l + total k.
Proof. unfold total. induction l as [|b l IH]; [done|]. cbn. rewrite IH. lia. Qed.

Lemma total_perm (l k : list Z) : l ≡ₚ k -> total l = total k.
Proof. unfold total. induction 1; cbn; lia. Qed.

Lemma elem_of_lives (cs : list call) (b : Z) : b ∈ lives cs <-> live_after cs b.
Proof. unfold lives, live_after. rewrite list_elem_of_filter. tauto. Qed.

Record counted (cs : list call) : Prop := {
  ct_nodup : NoDup (buffers cs);
  ct_frees : forall b, CFree b ∈ cs -> b ∈ buffers cs;
  ct_usage : usage cs = total (lives cs)
}.

Lemma lives_nodup (cs : list call) : counted cs -> NoDup (lives cs).
Proof. intros [Hd _ _]. by apply NoDup_filter. Qed.

Lemma counted_step (cs : list call) (c : call) : counted cs -> valid cs c -> counted (cs ++ [c]).
Proof.
  intros HC Hv. pose proof HC as [Hd Hf Hu]. unfold usage in *.
  assert (forall b, introduced c = [b] -> b ∉ buffers cs -> size_fn b = usage_step 0 c -> usage_step (total (lives cs)) c = total (lives cs) + size_fn b ->
    counted (cs ++ [c])) as Hnew.
  { intros b Hi Hb _ Hstep. assert (NoDup (buffers (cs ++ [c]))) as Hd'.
    { rewrite buffers_snoc, Hi. apply NoDup_app. split_and!; [done|set_solver|apply NoDup_singleton]. }
    split; [done| |].
    - intros a. rewrite buffers_snoc, !elem_of_app. intros [Ha|Ha]; [left; auto|]. apply list_elem_of_singleton in Ha. by subst c.
    - unfold usage. rewrite foldl_app. cbn [foldl]. rewrite Hu, Hstep.
      transitivity (total (lives cs ++ [b])); [rewrite total_sizes_app; cbn; lia|]. symmetry. apply total_perm, NoDup_Permutation.
      + by apply NoDup_filter.
      + apply NoDup_app. split_and!; [by apply lives_nodup| |apply NoDup_singleton]. intros a Ha%elem_of_lives. destruct Ha. set_solver.
      + intros a. rewrite elem_of_app, list_elem_of_singleton, !elem_of_lives, (live_new cs c b) by auto. tauto. }
  destruct c as [b|b shared|b].
  - by apply (Hnew b).
  - destruct Hv as (Hb & Hsh & Hsz). apply (Hnew b); cbn; [done|done|lia|lia].
  - destruct Hv as [Hb Hl]. assert (buffers (cs ++ [CFree b]) = buffers cs) as Hbuf by (rewrite buffers_snoc; apply app_nil_r).
    split.
    + by rewrite Hbuf.
    + intros a. rewrite Hbuf, elem_of_app, list_elem_of_singleton. intros [?|[= ->]]; [auto|done].
    + unfold usage. rewrite foldl_app. cbn [foldl usage_step]. rewrite Hu.
      enough (total (lives cs) = total (b :: lives (cs ++ [CFree b]))) as -> by (unfold total; cbn [foldr]; lia).
      apply total_perm, NoDup_Permutation.
      * by apply lives_nodup.
      * constructor; [|apply NoDup_filter; by rewrite Hbuf]. rewrite elem_of_lives, live_free. tauto.
      * intros a. rewrite elem_of_cons, !elem_of_lives, live_free. destruct (decide (a = b)) as [->|]; [|tauto].
        split; [auto|]. done.
Qed.

Lemma well_formed_counted (cs : list call) : well_formed ∅ ∅ cs -> forall n, counted (take n cs).
Proof.
  intros Hw n. pose proof (well_formed_valid cs [] ∅ ∅ tracks_nil Hw) as Hv. cbn in Hv. induction n as [|n IH].
  - rewrite take_0. split; [constructor|set_solver|done].
  - destruct (cs !! n) as [c|] eqn:E.
    + rewrite (take_S_r _ _ _ E). apply counted_step; [done|]. apply (Hv (take n cs) c (drop (S n) cs)). by rewrite take_drop_middle.
    + rewrite take_ge in IH by (by apply lookup_ge_None). rewrite take_ge; [done|]. apply lookup_ge_None in E. lia.
Qed.

Lemma total_bounds (l k : list Z) : (forall b, 0 <= size_fn b) -> NoDup l -> (forall b, b ∈ l -> b ∈ k) -> 0 <= total l <= total k.
Proof.
  intros Hs Hd Hin. assert (forall l, 0 <= total l) as H0.
  { intros l'. unfold total. induction l' as [|b l' IH]; cbn; [done|]. specialize (Hs b). lia. }
  split; [done|]. destruct (submseteq_Permutation l k) as [k' Hk]; [by apply NoDup_submseteq|]. rewrite (total_perm _ _ Hk), total_sizes_app. specialize (H0 k'). lia.
Qed.

(** The statistics follow the usage. *)
Lemma run_stats (cs : list call) (s s' : Simulator.t) (n : Z) :
  run s cs = Ok s' -> (forall b, 0 <= size_fn b) ->
  NoFragmentationStatsHeap.current_heap_size_ (Simulator.no_fragmentation_stats_ s) = n ->
  n <= NoFragmentationStatsHeap.max_heap_size_ (Simulator.no_fragmentation_stats_ s) ->
  (forall k, in_i64 (foldl usage_step n (take k cs))) ->
  NoFragmentationStatsHeap.max_heap_size_ (Simulator.no_fragmentation_stats_ s') =
    Z.max (NoFragmentationStatsHeap.max_heap_size_ (Simulator.no_fragmentation_stats_ s)) (peak_from n cs).
Proof.
  intros Hr Hs. revert s n Hr. induction cs as [|c cs IH]; intros s n Hr Hn Hm Hb; cbn [run] in Hr.
  - injection Hr as <-. cbn. lia.
  - destruct (perform s c) as [s1|] eqn:E; [|done]. cbn [res_bind] in Hr.
    assert (in_i64 (usage_step n c)) as Hstep by exact (Hb 1%nat).
    assert (NoFragmentationStatsHeap.current_heap_size_ (Simulator.no_fragmentation_stats_ s1) = usage_step n c /\
      NoFragmentationStatsHeap.max_heap_size_ (Simulator.no_fragmentation_stats_ s1) =
        Z.max (NoFragmentationStatsHeap.max_heap_size_ (Simulator.no_fragmentation_stats_ s)) (usage_step n c)) as [H1 H2].
    { destruct c as [b|b shared|b]; cbn [perform usage_step] in *.
      - unfold Simulator.Alloc in E. destruct (negb _); [|done]. destruct (negb _); [|done]. injection E as <-. cbn.
        rewrite Hn, (wrap_i64_id _ Hstep). split; [done|]. destruct (Z.ltb_spec (NoFragmentationStatsHeap.max_heap_size_ (Simulator.no_fragmentation_stats_ s)) (n + size_fn b)); lia.
      - injection E as <-. cbn. rewrite Hn, (wrap_i64_id _ Hstep). split; [done|].
        destruct (Z.ltb_spec (NoFragmentationStatsHeap.max_heap_size_ (Simulator.no_fragmentation_stats_ s)) (n + size_fn shared)); lia.
      - unfold Simulator.Free in E. destruct (Free _ _ _); [|done]. injection E as <-. cbn. rewrite Hn, (wrap_i64_id _ Hstep).
        specialize (Hs b). split; [done|lia]. }
    rewrite (IH s1 (usage_step n c) Hr H1), H2; [cbn [peak_from]|lia|intros k; exact (Hb (S k))].
    assert (forall k cs, k <= peak_from k cs) as Hp by (intros k []; cbn; lia). specialize (Hp (usage_step n c) cs). lia.
Qed.

Lemma peak_le (cs : list call) (n H : Z) : (forall k, foldl usage_step n (take k cs) <= H) -> peak_from n cs <= H.
Proof.
  revert n. induction cs as [|c cs IH]; intros n Hk; cbn [peak_from]; [exact (Hk 0%nat)|].
  apply Z.max_lub; [exact (Hk 0%nat)|]. apply IH. intros k. exact (Hk (S k)).
Qed.

End Runs.

(** ** Orders of iteration, and runs that a heap can hold *)

(** A hash map and a hash set are visited in some order, each element once. *)
Class HashOrder (visit_map : gmap Z BufferInterval -> list (Z * BufferInterval)) (visit_set : gset Z -> list Z) : Prop := {
  ho_map : forall m, visit_map m ≡ₚ map_to_list m;
  ho_set : visits_set visit_set
}.

#[global] Instance stdpp_order : HashOrder map_to_list elements.
Proof. split; [done|]. intros s. done. Qed.

Record proper_run (size_fn : Z -> Z) (A : Z) (cs : list call) : Prop := {
  pr_align : 0 < A;
  pr_sizes : forall b, 0 <= size_fn b;
  pr_calls : well_formed size_fn ∅ ∅ cs;
  pr_freed : forall b, b ∈ buffers cs -> CFree b ∈ cs;
  pr_length : Z.of_nat (length cs) <= i64_max;
  pr_demand : demand size_fn A (buffers cs) <= i64_max
}.

Section Finish.
Context (visit_map : gmap Z BufferInterval -> list (Z * BufferInterval)) (visit_set : gset Z -> list Z).
Context `{HO : !HashOrder visit_map visit_set}.
Context (size_fn : Z -> Z) (A : Z) (ty : Type_) (cs : list call) (HR : proper_run size_fn A cs).

Lemma run_collected :
  exists s, run size_fn (Simulator.new A ty) cs = Ok s /\ collected size_fn A cs s /\
    forall n, exists sn, collected size_fn A (take n cs) sn /\ evolves (Simulator.algorithm_ sn) (Simulator.algorithm_ s).
Proof using HR.
  destruct HR as [HA Hsz Hw _ Hlen _].
  destruct (run_spec size_fn A cs [] ∅ ∅ (Simulator.new A ty) Hsz (collected_new_run size_fn A ty) Hw (tracks_nil size_fn) Hlen)
    as (s & Hr & HC & _ & Hn). by exists s.
Qed.

Context (s : Simulator.t) (HC : collected size_fn A cs s).
Context (Hn : forall n, exists sn, collected size_fn A (take n cs) sn /\ evolves (Simulator.algorithm_ sn) (Simulator.algorithm_ s)).

Abbreviation m := (buffer_intervals_ (Simulator.algorithm_ s)).

Lemma run_sorted :
  exists l, GetSortedBufferIntervals visit_map visit_set (Simulator.algorithm_ s) = Ok l /\ from_map m l /\
    budget A l <= demand size_fn A (buffers cs) /\ (forall b i, m !! b = Some i -> exists k, canon cs !! b = Some k /\ k ∈ allocated l).
Proof using HO HR HC.
  pose proof (cl_forest _ _ _ _ HC) as HF.
  destruct (sorted_spec visit_set (ho_set (visit_map := visit_map)) m (canon cs) HF visit_map (Simulator.algorithm_ s) ho_map eq_refl)
    as (l & Hl & Hperm).
  destruct (map_from_map m (canon cs) HF l Hperm) as [Hfm Hin]. exists l. split; [done|]. split; [done|]. split.
  - apply (budget_demand size_fn A m l cs); [apply (pr_sizes _ _ _ HR)|apply (pr_align _ _ _ HR)|done|].
    intros b i Hi. split; [by apply (cl_dom _ _ _ _ HC); eexists|]. by destruct (cl_each _ _ _ _ HC b i Hi).
  - intros b i Hi. destruct (need_allocation i) eqn:E.
    + exists b. split; [by apply (fr_root _ _ HF b i)|]. apply allocated_elem. exists i. pose proof (fr_key _ _ HF b i Hi) as Hb.
      split; [apply Hin; by rewrite Hb|done].
    + destruct (fr_below _ _ HF b i Hi E) as (k & j & Hk & Hj & Hal & _). exists k. split; [done|]. apply allocated_elem. exists j.
      pose proof (fr_key _ _ HF k j Hj) as Hb. split; [apply Hin; by rewrite Hb|done].
Qed.

Lemma no_chunk_yet (b : Z) (i : BufferInterval) : m !! b = Some i -> chunk_map (result_ (Simulator.algorithm_ s)) !! b = None.
Proof using HC.
  intros Hi. rewrite (cl_empty _ _ _ _ HC). rewrite decide_False; [done|]. intros [_ Hz].
  destruct (proj1 (cl_dom _ _ _ _ HC b)); [by eexists|done].
Qed.

Lemma finish_assigns :
  exists r h', Finish visit_map visit_set (Simulator.algorithm_ s) = Ok (mkResult [r] (heap_size r) 0, h') /\
    (forall b, b ∈ buffers cs -> is_Some (chunk_map r !! b)) /\ assigned size_fn A cs r /\ 0 <= heap_size r <= demand size_fn A (buffers cs).
Proof using HO HR HC Hn.
  pose proof (cl_forest _ _ _ _ HC) as HF. pose proof (pr_align _ _ _ HR) as HA. pose proof (pr_demand _ _ _ HR) as Hdm.
  destruct run_sorted as (l & Hl & Hfm & Hb & Hall). unfold Finish. rewrite Hl. cbn [res_bind].
  destruct (placing_nothing A m (canon cs) (Simulator.algorithm_ s)) as [Hp _];
    [apply (cl_align _ _ _ _ HC)|done|apply (cl_tree _ _ _ _ HC)|apply (cl_heap _ _ _ _ HC)|exact no_chunk_yet|].
  destruct (place_all_spec visit_set (ho_set (visit_map := visit_map)) A m (canon cs) _ HA HF l ∅ _ Hp Hfm) as (h' & -> & Hp' & Hh').
  { set_solver. }
  { rewrite (cl_heap _ _ _ _ HC). lia. }
  cbn [res_bind]. exists (result_ h'), h'. split; [done|]. rewrite (right_id_L ∅ (∪)) in Hp'.
  pose proof (pc_placed _ _ _ _ _ _ Hp') as Hpl. pose proof (pc_size _ _ _ _ _ _ Hp') as H0. split; [|split].
  - intros b Hbs. destruct (m !! b) as [i|] eqn:E; [by apply (pl_dom _ _ _ _ _ Hpl b i E), (Hall b i)|].
    rewrite (pc_other _ _ _ _ _ _ Hp' b E), (cl_empty _ _ _ _ HC), decide_True; [by eexists|]. split; [done|].
    destruct (decide (size_fn b = 0)) as [|Hz]; [done|]. destruct (proj2 (cl_dom _ _ _ _ HC b)); [done|congruence].
  - eapply (placed_assigned size_fn A cs s); [done|apply (pr_sizes _ _ _ HR)|done|done|apply (pr_freed _ _ _ HR)|done|done|].
    intros b Hb'. right. apply (pc_other _ _ _ _ _ _ Hp' b Hb').
  - rewrite (cl_heap _ _ _ _ HC) in Hh'. lia.
Qed.

(** One of the heaps holds a buffer. *)
Definition held_once (rs : list HeapResult) (b : Z) : Prop :=
  exists j, (j < length rs)%nat /\ forall j' r, rs !! j' = Some r -> is_Some (chunk_map r !! b) <-> j' = j.

(** Only one group of buffers that share memory ends after the limit. *)
Definition limited (limit : Z) (r : HeapResult) : Prop :=
  exists k, forall b c, chunk_map r !! b = Some c -> canon cs !! b <> Some k -> uend c <= limit.

Lemma constrained_assigns (limit : Z) :
  in_u64 limit ->
  exists rs, ConstrainedFinish visit_map visit_set limit (Simulator.algorithm_ s) =
      Ok (mkResult rs (foldr (fun r n => heap_size r + n) 0 rs) 0) /\
    Forall (assigned size_fn A cs) rs /\ Forall (limited limit) rs /\ (forall b, b ∈ buffers cs -> held_once rs b).
Proof using HO HR HC Hn.
  intros Hlim. pose proof (cl_forest _ _ _ _ HC) as HF. pose proof (pr_align _ _ _ HR) as HA. pose proof (pr_demand _ _ _ HR) as Hdm.
  destruct run_sorted as (l & Hl & Hfm & Hb & Hall). unfold ConstrainedFinish. rewrite Hl. cbn [res_bind].
  destruct (fill_heaps_spec visit_set (ho_set (visit_map := visit_map)) A m (canon cs) HA HF (S (length l)) limit l
    (Simulator.algorithm_ s) (mkResult [] 0 0)) as (rs & Rs & -> & HF2 & Hne & HU & Hdis & Hother);
    [lia|apply (cl_align _ _ _ _ HC)|done|apply (cl_tree _ _ _ _ HC)|apply (cl_heap _ _ _ _ HC)|exact no_chunk_yet|done|done|cbn; lia|].
  exists rs. cbn [heap_results total_size fragmentation_size app]. split; [done|].
  assert (forall j r, rs !! j = Some r -> exists R, Rs !! j = Some R /\ placed A m (canon cs) R r /\ within m (canon cs) limit r /\ 0 <= heap_size r) as Hat.
  { intros j r Hj. destruct (Forall2_lookup_r _ _ _ _ _ HF2 Hj) as (R & ? & ? & ? & ?). by exists R. }
  assert (Forall (assigned size_fn A cs) rs) as Has.
  { apply list.Forall_forall. intros r [j Hj]%list_elem_of_lookup. destruct (Hat j r Hj) as (R & _ & Hpl & _ & Hr0).
    eapply (placed_assigned size_fn A cs s R); [done|apply (pr_sizes _ _ _ HR)|done|done|apply (pr_freed _ _ _ HR)|done|done|].
    intros b Hb'. rewrite (Hother j r b Hj Hb'). destruct j; auto. }
  split; [done|]. split.
  - apply list.Forall_forall. intros r Hr. pose proof Hr as [j Hj]%list_elem_of_lookup. destruct (Hat j r Hj) as (R & _ & Hpl & [k Hk] & _).
    exists k. intros b c Hc Hnk. destruct (m !! b) as [i|] eqn:E; [by eapply Hk|]. rewrite (Hother j r b Hj E) in Hc.
    destruct j; [|done]. rewrite (cl_empty _ _ _ _ HC) in Hc. destruct (decide _); [|done]. injection Hc as <-. unfold uend, in_u64 in *. cbn. lia.
  - intros b Hbs. destruct (m !! b) as [i|] eqn:E.
    + destruct (Hall b i E) as (k & Hk & Hkl). rewrite <- HU in Hkl. apply elem_of_union_list in Hkl as (R & [j Hj]%list_elem_of_lookup & HkR).
      exists j. split; [rewrite <- (Forall2_length _ _ _ HF2); by eapply lookup_lt_Some|].
      intros j' r Hr. destruct (Hat j' r Hr) as (R' & HR' & Hpl & _). rewrite (pl_dom _ _ _ _ _ Hpl b i E). split.
      * intros (k' & Hk' & HkR'). destruct (decide (j' = j)) as [|Hjj]; [done|]. rewrite Hk in Hk'. injection Hk' as <-.
        destruct (Hdis j' j R' R HR' Hj Hjj k HkR' HkR).
      * intros ->. rewrite Hj in HR'. injection HR' as <-. by exists k.
    + exists 0%nat. assert (size_fn b = 0) as Hz.
      { destruct (decide (size_fn b = 0)) as [|Hz]; [done|]. destruct (proj2 (cl_dom _ _ _ _ HC b)); [done|congruence]. }
      split; [by destruct rs; [|cbn; lia]|]. intros j' r Hr. rewrite (Hother j' r b Hr E). destruct j' as [|j']; [|by split; [intros [? ?]|]].
      rewrite (cl_empty _ _ _ _ HC), decide_True by done. split; [done|]. intros _. by eexists.
Qed.

End Finish.

(** ** Disjoint chunks fit into the heap *)

Definition apart (c c' : Chunk) : Prop := uend c <= offset c' \/ uend c' <= offset c.

Lemma insert_apart (c : Chunk) (l : list Chunk) :
  Forall (fun d => 0 <= size d) (c :: l) -> StronglySorted (fun x y => uend x <= offset y) l -> Forall (apart c) l ->
  exists k, k ≡ₚ c :: l /\ StronglySorted (fun x y => uend x <= offset y) k.
Proof.
  intros Hp Hs Ha. induction Hs as [|d l Hs IH Hd]; [exists [c]; split; [done|repeat constructor]|].
  apply list.Forall_cons in Hp as [Hc [Hd0 Hl0]%list.Forall_cons]. apply list.Forall_cons in Ha as [[Hcd|Hcd] Ha].
  - exists (c :: d :: l). split; [done|]. constructor; [by constructor|]. constructor; [done|].
    eapply list.Forall_impl; [exact Hd|]. intros y Hy. unfold uend in *. lia.
  - destruct IH as (k & Hk & Hsk); [by constructor|done|]. exists (d :: k). split; [rewrite Hk; apply Permutation_swap|].
    constructor; [done|]. rewrite Hk. by constructor.
Qed.

Lemma sort_apart (l : list Chunk) :
  Forall (fun d => 0 <= size d) l -> ForallOrdPairs apart l -> exists k, k ≡ₚ l /\ StronglySorted (fun x y => uend x <= offset y) k.
Proof.
  intros Hp Ha. induction Ha as [|c l Hc Ha IH]; [exists []; split; [done|constructor]|].
  pose proof Hp as [_ Hl]%list.Forall_cons. destruct (IH Hl) as (k & Hk & Hs).
  destruct (insert_apart c k) as (k' & Hk' & Hs'); [by rewrite Hk|done|rewrite Hk; by apply list.Forall_forall; rewrite List.Forall_forall in Hc; setoid_rewrite list_elem_of_In|].
  exists k'. split; [by rewrite Hk', Hk|done].
Qed.

Lemma sum_sorted (H lo : Z) (l : list Chunk) :
  lo <= H -> StronglySorted (fun x y => uend x <= offset y) l -> Forall (fun c => lo <= offset c /\ uend c <= H) l ->
  foldr (fun c n => size c + n) 0 l <= H - lo.
Proof.
  intros Hlo Hs. revert lo Hlo. induction Hs as [|c l Hs IH Hc]; intros lo Hlo Hb; cbn [foldr]; [lia|].
  apply list.Forall_cons in Hb as [[H1 H2] Hb]. specialize (IH (uend c) H2).
  assert (Forall (fun d => uend c <= offset d /\ uend d <= H) l) as Hb'.
  { rewrite list.Forall_forall in *. intros d Hd. specialize (Hc d Hd). specialize (Hb d Hd). lia. }
  specialize (IH Hb'). unfold uend in *. lia.
Qed.

Lemma packing (H : Z) (l : list Chunk) :
  0 <= H -> Forall (fun c => 0 <= size c /\ 0 <= offset c /\ uend c <= H) l -> ForallOrdPairs apart l ->
  foldr (fun c n => size c + n) 0 l <= H.
Proof.
  intros H0 Hb Ha. destruct (sort_apart l) as (k & Hk & Hs); [eapply list.Forall_impl; [exact Hb|]; by intros c (? & _)|done|].
  transitivity (foldr (fun c n => size c + n) 0 k).
  - apply Z.eq_le_incl. symmetry. clear -Hk. induction Hk; cbn; lia.
  - rewrite <- (Z.sub_0_r H). apply sum_sorted; [done|done|]. rewrite Hk. eapply list.Forall_impl; [exact Hb|]. cbn. lia.
Qed.

Lemma canon_alone (cs : list call) : (forall b sh, CShare b sh ∉ cs) -> forall b k, canon cs !! b = Some k -> k = b.
Proof.
  induction cs as [|c cs IH] using rev_ind; intros Hno b k; [done|]. rewrite canon_snoc.
  assert (forall b k, canon cs !! b = Some k -> k = b) as IH' by (apply IH; intros b' sh Hin; apply (Hno b' sh); set_solver).
  destruct c as [b'|b' sh|b']; cbn.
  - destruct (decide (b = b')) as [->|Hn]; [rewrite lookup_insert_eq; congruence|]. rewrite lookup_insert_ne by done. apply IH'.
  - destruct (Hno b' sh). set_solver.
  - apply IH'.
Qed.

(** Without sharing, the live buffers fit into the heap side by side. *)
Lemma usage_fits (size_fn : Z -> Z) (A : Z) (cs : list call) (r : HeapResult) (n : nat) :
  (forall b, 0 <= size_fn b) -> well_formed size_fn ∅ ∅ cs -> (forall b sh, CShare b sh ∉ cs) -> assigned size_fn A cs r ->
  (forall b, b ∈ buffers cs -> is_Some (chunk_map r !! b)) -> (forall b, b ∈ buffers cs -> is_Some (canon cs !! b)) ->
  0 <= heap_size r -> usage size_fn (take n cs) <= heap_size r.
Proof.
  intros Hsz Hw Hno Has Hall Hcan H0. pose proof (well_formed_counted size_fn cs Hw n) as Hct. rewrite (ct_usage _ _ Hct).
  pose proof (lives_nodup size_fn _ Hct) as Hnd.
  assert (forall b, b ∈ lives (take n cs) -> live_after (take n cs) b /\ b ∈ buffers cs) as Hin.
  { intros b Hb%(elem_of_lives size_fn). split; [done|]. destruct Hb as [Hb _]. rewrite <- (take_drop n cs). unfold buffers in *.
    rewrite flat_map_app. apply elem_of_app. by left. }
  set (chunk b := default (mkChunk 0 0) (chunk_map r !! b)).
  assert (forall b, b ∈ buffers cs -> chunk_map r !! b = Some (chunk b)) as Hch.
  { intros b Hb. unfold chunk. by destruct (Hall b Hb) as [c ->]. }
  transitivity (foldr (fun c n => size c + n) 0 (map chunk (lives (take n cs)))).
  - apply Z.eq_le_incl. unfold total. clear Hnd. induction (lives (take n cs)) as [|b l IH]; [done|]. cbn [map foldr].
    rewrite IH by (intros; apply Hin; set_solver). f_equal. destruct (Hin b ltac:(set_solver)) as [_ Hb].
    by destruct (as_chunk _ _ _ _ Has b _ (Hch b Hb)) as (_ & <- & _).
  - apply packing; [done| |].
    + apply list.Forall_forall. intros c (b & <- & [_ Hb]%list_elem_of_In%Hin)%list_elem_of_In%in_map_iff.
      destruct (as_chunk _ _ _ _ Has b _ (Hch b Hb)) as (_ & -> & ? & _ & ?). auto.
    + induction Hnd as [|b l Hbl Hnd IH]; cbn [map]; constructor; [|by apply IH; intros; apply Hin; set_solver].
      apply List.Forall_forall. intros c (b' & <- & Hb')%in_map_iff. apply list_elem_of_In in Hb'.
      destruct (Hin b ltac:(set_solver)) as [Hl Hb], (Hin b' ltac:(set_solver)) as [Hl' Hb2].
      apply (as_disjoint _ _ _ _ Has n b b'); [done|done|by apply Hch|by apply Hch|].
      destruct (Hcan b Hb) as [k Hk], (Hcan b' Hb2) as [k' Hk']. rewrite Hk, Hk'.
      apply (canon_alone cs Hno) in Hk as ->. apply (canon_alone cs Hno) in Hk' as ->. congruence.
Qed.

(** ** Theorems *)
Section Theorems.
Context (visit_map : gmap Z BufferInterval -> list (Z * BufferInterval)) (visit_set : gset Z -> list Z).
Context `{HO : !HashOrder visit_map visit_set}.

(** C14: the heap simulator places buffers soundly.  For a run of the simulator that
    allocates each buffer once or lets it share the memory of an earlier one of its size
    and frees it once, [Finish] ends, whatever the order in which hash tables are
    visited, and gives every buffer a chunk of its size, aligned and inside of the heap;
    buffers that share memory are at one offset, and two others that live at the same
    time do not overlap. *)
Theorem heap_simulator_sound (size_fn : Z -> Z) (A : Z) (ty : Type_) (cs : list call) :
  proper_run size_fn A cs ->
  exists s r hr, run size_fn (Simulator.new A ty) cs = Ok s /\ Simulator.Finish visit_map visit_set s = Ok r /\
    heap_results r = [hr] /\ total_size r = heap_size hr /\
    (forall b, b ∈ buffers cs -> is_Some (chunk_map hr !! b)) /\ assigned size_fn A cs hr.
Proof using HO.
  intros HR. destruct (run_collected size_fn A ty cs HR) as (s & Hr & HC & Hn).
  destruct (finish_assigns visit_map visit_set size_fn A cs HR s HC Hn) as (hr & h' & Hf & Hall & Has & _).
  exists s. unfold Simulator.Finish. rewrite Hf. cbn [res_bind]. eexists _, hr. split; [done|]. split; [reflexivity|]. done.
Qed.

(** C16: heaps of limited size.  For such a run the constrained heap ends, and every
    buffer has a chunk in exactly one of its heaps; each heap is placed soundly, and in
    each of them only the buffers of one group that shares memory end after the limit.
    The size of the result is the sum of those of the heaps. *)
Theorem constrained_heaps (size_fn : Z -> Z) (A limit : Z) (ty : Type_) (cs : list call) :
  proper_run size_fn A cs -> in_u64 limit ->
  exists s rs, run size_fn (Simulator.new A ty) cs = Ok s /\
    ConstrainedFinish visit_map visit_set limit (Simulator.algorithm_ s) = Ok (mkResult rs (foldr (fun r n => heap_size r + n) 0 rs) 0) /\
    Forall (assigned size_fn A cs) rs /\ Forall (limited cs limit) rs /\ (forall b, b ∈ buffers cs -> held_once rs b).
Proof using HO.
  intros HR Hlim. destruct (run_collected size_fn A ty cs HR) as (s & Hr & HC & Hn).
  destruct (constrained_assigns visit_map visit_set size_fn A cs HR s HC Hn limit Hlim) as (rs & Hf & Has & Hl & Hh).
  exists s, rs. by split_and!.
Qed.

(** C17: fragmentation.  For such a run the fragmentation that the simulator reports is
    the size of the heap less the peak of the sizes of the live buffers, and it is not
    negative when no buffer shares memory. *)
Theorem fragmentation_bound (size_fn : Z -> Z) (A : Z) (ty : Type_) (cs : list call) :
  proper_run size_fn A cs ->
  exists s r, run size_fn (Simulator.new A ty) cs = Ok s /\ Simulator.Finish visit_map visit_set s = Ok r /\
    fragmentation_size r = total_size r - peak size_fn cs /\ ((forall b sh, CShare b sh ∉ cs) -> 0 <= fragmentation_size r).
Proof using HO.
  intros HR. destruct (run_collected size_fn A ty cs HR) as (s & Hr & HC & Hn). pose proof HR as [HA Hsz Hw _ _ Hd].
  destruct (finish_assigns visit_map visit_set size_fn A cs HR s HC Hn) as (hr & h' & Hf & Hall & Has & Hb).
  assert (forall k, 0 <= usage size_fn (take k cs) <= i64_max) as Hu.
  { intros k. pose proof (well_formed_counted size_fn cs Hw k) as Hct. rewrite (ct_usage _ _ Hct).
    destruct (total_bounds size_fn (lives (take k cs)) (buffers cs) Hsz (lives_nodup size_fn _ Hct)) as [H0 H1].
    - intros b Hb'%(elem_of_lives size_fn). destruct Hb' as [Hb' _]. rewrite <- (take_drop k cs). unfold buffers in *.
      rewrite flat_map_app. apply elem_of_app. by left.
    - split; [done|]. etransitivity; [exact H1|]. etransitivity; [|exact Hd]. unfold total, demand. clear -HA.
      induction (buffers cs) as [|b l IH]; cbn [foldr]; lia. }
  pose proof (run_stats size_fn cs _ s 0 Hr Hsz eq_refl ltac:(done)) as Hst. cbn in Hst.
  assert (0 <= peak size_fn cs <= i64_max) as Hp.
  { split; [unfold peak; destruct cs; cbn; lia|]. apply peak_le. intros k. apply Hu. }
  rewrite Z.max_r in Hst by apply Hp. fold (peak size_fn cs) in Hst.
  exists s. unfold Simulator.Finish. rewrite Hf. cbn [res_bind]. eexists. split; [done|]. split; [reflexivity|].
  cbn [fragmentation_size total_size]. unfold NoFragmentationStatsHeap.Finish. rewrite Hst.
  - rewrite wrap_i64_id by (unfold in_i64, i64_max in *; lia). split; [done|]. intros Hno.
    enough (peak size_fn cs <= heap_size hr) by lia. apply peak_le. intros k.
    apply (usage_fits size_fn A cs hr k Hsz Hw Hno Has Hall); [|lia]. intros b Hbb. by apply (cl_canon _ _ _ _ HC).
  - intros k. specialize (Hu k). unfold usage in Hu. unfold in_i64, i64_max in *. lia.
Qed.

End Theorems.

(** ** Choosing among several heaps *)

Lemma choose_spec (l results : list Result) (i : nat) (min_size : Z) (best : option nat) :
  results = take i results ++ l -> length (take i results) = i ->
  match best with
  | Some j => exists r, take i results !! j = Some r /\ total_size r = min_size /\ Forall (fun r' => total_size r <= total_size r') (take i results)
  | None => take i results = []
  end ->
  (best = None -> Forall (fun r => total_size r < min_size) l) ->
  match choose l i min_size best with
  | Some j => exists r, results !! j = Some r /\ Forall (fun r' => total_size r <= total_size r') results
  | None => results = []
  end.
Proof.
  revert i min_size best. induction l as [|x l IH]; intros i min_size best Hr Hi Hb Hn; cbn [choose].
  - rewrite app_nil_r in Hr. rewrite <- Hr in Hb. destruct best as [j|]; [|done]. destruct Hb as (r & ? & _ & ?). by exists r.
  - assert (take (S i) results = take i results ++ [x]) as Ht.
    { rewrite Hr at 1. replace (S i) with (length (take i results) + 1)%nat by lia. rewrite take_app_add. by destruct l. }
    assert (results = take (S i) results ++ l) as Hr' by (rewrite Ht, <- app_assoc; done).
    assert (length (take (S i) results) = S i) as Hi' by (rewrite Ht, length_app, Hi; cbn; lia).
    destruct (Z.ltb_spec (total_size x) min_size) as [Hlt|Hge]; apply IH; try done.
    + exists x. split; [rewrite Ht, lookup_app_r, Hi, Nat.sub_diag by lia; done|]. split; [done|]. rewrite Ht. apply list.Forall_app.
      split; [|by repeat constructor]. destruct best as [j|]; [|by rewrite Hb]. destruct Hb as (r & _ & <- & Hf).
      eapply list.Forall_impl; [exact Hf|]. cbn. lia.
    + destruct best as [j|]; [|specialize (Hn eq_refl); apply list.Forall_cons in Hn; lia]. destruct Hb as (r & Hj & Hm & Hf). exists r.
      rewrite Ht. split; [by apply lookup_app_l_Some|]. split; [done|]. apply list.Forall_app. split; [done|]. constructor; [lia|done].
    + intros ->. specialize (Hn eq_refl). apply list.Forall_cons in Hn as [? _]. lia.
Qed.

(** The best of several heaps.  For a run on the heaps of some types,
    [ChooseBestHeapAlgorithm::Finish] returns the result of one of them, none of the
    others is smaller, and it places the buffers soundly. *)
Theorem choose_best_sound (visit_map : gmap Z BufferInterval -> list (Z * BufferInterval)) (visit_set : gset Z -> list Z)
    `{HO : !HashOrder visit_map visit_set} (size_fn : Z -> Z) (A : Z) (tys : list Type_) (cs : list call) :
  proper_run size_fn A cs -> tys <> [] -> demand size_fn A (buffers cs) < i64_max ->
  exists rs r hr, Forall2 (fun ty r => exists s h, run size_fn (Simulator.new A ty) cs = Ok s /\
      Finish visit_map visit_set (Simulator.algorithm_ s) = Ok (r, h)) tys rs /\
    ChooseBest rs = Ok r /\ r ∈ rs /\ Forall (fun r' => total_size r <= total_size r') rs /\
    heap_results r = [hr] /\ total_size r = heap_size hr /\ (forall b, b ∈ buffers cs -> is_Some (chunk_map hr !! b)) /\
    assigned size_fn A cs hr.
Proof.
  intros HR Hne Hd.
  assert (exists rs, Forall2 (fun ty r => exists s h, run size_fn (Simulator.new A ty) cs = Ok s /\
      Finish visit_map visit_set (Simulator.algorithm_ s) = Ok (r, h)) tys rs /\
    Forall (fun r => total_size r < i64_max /\ exists hr, heap_results r = [hr] /\ total_size r = heap_size hr /\
      (forall b, b ∈ buffers cs -> is_Some (chunk_map hr !! b)) /\ assigned size_fn A cs hr) rs) as (rs & H2 & HF).
  { clear Hne. induction tys as [|ty tys (rs & H2 & HF)]; [exists []; split; constructor|].
    destruct (run_collected size_fn A ty cs HR) as (s & Hr & HC & Hn).
    destruct (finish_assigns visit_map visit_set size_fn A cs HR s HC Hn) as (hr & h' & Hf & Hall & Has & Hb).
    exists (mkResult [hr] (heap_size hr) 0 :: rs). split; [constructor; [by exists s, h'|done]|]. constructor; [|done]. cbn.
    split; [|by exists hr]. lia. }
  pose proof (choose_spec rs rs O i64_max None eq_refl eq_refl eq_refl) as Hc.
  assert (Forall (fun r => total_size r < i64_max) rs) as Hlt by (eapply list.Forall_impl; [exact HF|]; by intros ? [? _]).
  specialize (Hc (fun _ => Hlt)). destruct (choose rs 0 i64_max None) as [j|] eqn:E.
  - destruct Hc as (r & Hj & Hmin). assert (r ∈ rs) as Hin by by eapply list_elem_of_lookup_2.
    rewrite list.Forall_forall in HF. destruct (HF r Hin) as (_ & hr & ? & ? & ? & ?). exists rs, r, hr.
    split; [done|]. split; [unfold ChooseBest; by rewrite E, Hj|]. by split_and!.
  - subst rs. apply Forall2_nil_inv_r in H2. done.
Qed.

(** ** A run, and what the conditions exclude *)

Definition sample_size (b : Z) : Z := if b =? 2 then 4 else 8.

(** Buffer 3 shares the memory of buffer 1. *)
Definition sample_run : list call :=
  [CAlloc 1; CAlloc 2; CShare 3 1; CFree 1; CAlloc 4; CFree 2; CFree 3; CFree 4].

Lemma sample_proper : proper_run sample_size 4 sample_run.
Proof.
  split; [done| | | |done|done].
  - intros b. unfold sample_size. destruct (b =? 2); lia.
  - repeat split; apply (bool_decide_unpack _); vm_compute; exact I.
  - apply list.Forall_forall. apply (bool_decide_unpack _). vm_compute. exact I.
Qed.

Lemma heap_simulator_sound_witness :
  exists s r hr, run sample_size (Simulator.new 4 kSpatial) sample_run = Ok s /\ Simulator.Finish map_to_list elements s = Ok r /\
    heap_results r = [hr] /\ assigned sample_size 4 sample_run hr.
Proof.
  destruct (heap_simulator_sound map_to_list elements sample_size 4 kSpatial sample_run sample_proper)
    as (s & r & hr & H1 & H2 & H3 & _ & _ & H4).
  exists s, r, hr. auto.
Defined.

Lemma constrained_heaps_witness :
  exists s rs, run sample_size (Simulator.new 4 kTemporal) sample_run = Ok s /\
    ConstrainedFinish map_to_list elements 10 (Simulator.algorithm_ s) = Ok (mkResult rs (foldr (fun r n => heap_size r + n) 0 rs) 0) /\
    held_once rs 4.
Proof.
  destruct (constrained_heaps map_to_list elements sample_size 4 10 kTemporal sample_run sample_proper) as (s & rs & H1 & H2 & _ & _ & H3).
  - unfold in_u64. lia.
  - exists s, rs. split; [done|]. split; [done|]. apply H3. apply (bool_decide_unpack _). vm_compute. exact I.
Defined.

Lemma fragmentation_bound_witness :
  exists s r, run sample_size (Simulator.new 4 kSpatial) [CAlloc 1; CAlloc 2; CFree 1; CFree 2] = Ok s /\
    Simulator.Finish map_to_list elements s = Ok r /\ 0 <= fragmentation_size r.
Proof.
  destruct (fragmentation_bound map_to_list elements sample_size 4 kSpatial [CAlloc 1; CAlloc 2; CFree 1; CFree 2])
    as (s & r & H1 & H2 & _ & H3).
  - split; [done| | | |done|done].
    + intros b. unfold sample_size. destruct (b =? 2); lia.
    + repeat split; apply (bool_decide_unpack _); vm_compute; exact I.
    + apply list.Forall_forall. apply (bool_decide_unpack _). vm_compute. exact I.
  - exists s, r. split; [done|]. split; [done|]. apply H3. intros b sh Hin. repeat (apply elem_of_cons in Hin as [Hin|Hin]; [done|]).
    by apply not_elem_of_nil in Hin.
Defined.

Lemma choose_best_sound_witness :
  exists rs r, ChooseBest rs = Ok r /\ length rs = 2%nat /\ Forall (fun r' => total_size r <= total_size r') rs.
Proof.
  destruct (choose_best_sound map_to_list elements sample_size 4 [kSpatial; kTemporal] sample_run sample_proper)
    as (rs & r & _ & H1 & H2 & _ & H3 & _); [done|done|].
  exists rs, r. split; [done|]. split; [|done]. by rewrite <- (Forall2_length _ _ _ H1).
Defined.

(** The statistics count the memory that buffers share once for each of them: the
    "fragmentation" of this run is negative. *)
Example shared_memory_counted_twice :
  (let! s := run sample_size (Simulator.new 4 kSpatial) [CAlloc 1; CShare 3 1; CFree 1; CFree 3] in
   let! r := Simulator.Finish map_to_list elements s in Ok (total_size r, fragmentation_size r)) = Ok (8, -8).
Proof. vm_compute. reflexivity. Qed.

(** Colocations of two sizes: gaps before a chunk are kept when the buffer fits, also
    where a larger colocation does not, and the colocation 4 of buffer 3 is placed over
    buffer 2, which lives at the same time. *)
Example colocation_overlaps :
  (let h := GlobalDecreasingSizeBestFitHeap 1 kSpatial in
   let h := Alloc (Alloc h 1 7) 2 6 in
   let! h := Free h 1 7 in
   let! h := Free (Alloc h 3 5) 3 5 in
   let! h := Free (ShareWith h 4 3 8) 4 8 in
   let! h := Free h 2 6 in
   let! (_, h) := Finish map_to_list elements h in
   Ok (chunk_map (result_ h) !! 2, chunk_map (result_ h) !! 4)) = Ok (Some (mkChunk 7 6), Some (mkChunk 0 8)).
Proof. vm_compute. reflexivity. Qed.
